(* ===== verification/_CoqProject ===== *)
-Q . S2P
Prelude.v
Text.v
Digest.v
Jcs.v
JcsCanonical.v
Operation.v
Journal.v
Wal.v
FileJournal.v
FileJournalLaws.v
FileJournalMarker.v
JournalWitness.v
Intent.v
Registry.v
RegistryFacts.v
RegistrySteps.v
RegistryTheorems.v
RegistryBehaviour.v
RegistryWitness.v
Kernel.v
KernelStartup.v
KernelOps.v
KernelTheorems.v
Grants.v
Interactive.v
InteractiveTheorems.v
Dispatch.v
DispatchTheorems.v
Commit.v
Composite.v
OutputBroker.v
KernelWitness.v
Eol.v
Edit.v
EditTheorems.v
ToolWitness.v
Events.v
EventTheorems.v
Frame.v
Reservations.v
Broker.v
Coordinator.v
EventWitness.v
Capability.v
Plugin.v
CapabilityTheorems.v
CapabilityRegistry.v
CapabilitySurface.v
CapabilityLife.v
CapabilityRestore.v
PluginRegistry.v
Artifact.v
WorkspaceJournal.v
WorkspaceEffects.v
WorkspaceHistory.v
WorkspaceDirectory.v
WorkspaceTheorems.v
WorkspaceWitness.v
ToolFacts.v
Execution.v
Observe.v
ObserveFacts.v
ExecutionTheorems.v
TaskAnchor.v
Task.v
TaskTheorems.v
TaskCompletion.v
CompletionTheorems.v
TaskWitness.v
CapabilityWitness.v
JsonBudget.v
Retry.v
RetryTheorems.v
Sse.v
SseTheorems.v
ProviderWitness.v
Host.v
HostTheorems.v
Supervise.v
ProcessWitness.v
