(* ===== verification/Prelude.v ===== *)
(** A verification of the agent's authority layer (the trusted core that decides
    whether a tool may run, remembers that decision durably, and reports what
    happened) and of the task layer above it (what the runtime knows of the world,
    what it still owes, and when a task may be called done), and of the model calls
    it makes (how an answer is read off the wire, and when a call is tried again), and
    of the file effects of its workspace (what is on disk after a crash, and what is
    said of it). Paths below are relative to src/crates/.

    * The program and this development

    The agent runs a language model whose tool calls have side effects. The
    runtime (agent-runtime) is not trusted with authority: it asks Core
    (agent-core), which admits every call as an operation, writes each step of
    the operation's life to a write-ahead log (agent-storage) before it becomes
    visible, asks the approval gate, hands out a lease, and records the effect's
    receipt. After a crash the log alone decides what happened. The runtime itself
    keeps the task table and, per task, an execution state: facts about files with
    their revisions, verification results, open obligations. A model cannot close a
    task by saying so; completion is derived from that state.

    Files, bottom up (a file requires only files before it):

    - [Prelude]: results, the state-and-error monad, machine integers, tactics.
    - [Text]: Rust strings as code points, and the functions that bound
      diagnostics.
    - [Digest]: the hexadecimal wire form of digests (agent-contracts/operation.rs).
    - [Jcs], [JcsCanonical]: the RFC 8785 encoding that
      argument digests hash (agent-contracts/jcs.rs).
    - [Operation]: identities, states, terminals, transitions, records, markers,
      recovery status and their validation (agent-contracts/operation.rs, with
      what it names of error.rs, tool.rs and approval.rs).
    - [Journal]: which transition a record may make, the fold that rebuilds state
      from records, and the class [OperationJournal] with [OperationJournalLaws],
      the interface between Core and storage.
    - [Wal]: the log as bytes: frames, the recovery loop, torn tails, and the
      append of one frame with its failure phases; recovery of arbitrary bytes ends,
      and repairs once and for all (agent-storage/lib.rs).
    - [FileJournal], [FileJournalLaws], [FileJournalMarker]:
      [FileOperationJournal] of agent-storage/lib.rs: the disk, opening,
      appending with the write fence, compaction, checkpoint markers; and its
      instance of the journal laws.
    - [Registry], [RegistryFacts], [RegistrySteps], [RegistryTheorems],
      [RegistryBehaviour]: [OperationRegistry] of agent-core/operation.rs over any
      journal that meets the interface; the journal that never fails for a storage
      reason, which the file journal refines, is in the last of them.
    - [Kernel], [KernelStartup], [KernelOps], [KernelTheorems]:
      [CoreAuthority] of agent-core/kernel/mod.rs: the authority epoch, the
      epoch-gated operations and startup reconciliation.
    - [Dispatch], [DispatchTheorems]: publication and execution
      of an admitted tool call (kernel/mod.rs), with other tasks interfering
      before every access to Core.
    - [Events], [EventTheorems]: the runtime event
      stream: [EventAuthority] (agent-core/authority.rs), the trace writer, its
      barrier and the bounded tail read (agent-storage/lib.rs).
    - [Frame]: the bounded newline frame and the framed session
      (agent-process/frame.rs, session.rs).
    - [JsonBudget]: decoding JSON within a budget
      (agent-platform-protocol/json.rs).
    - [Host], [HostTheorems]: one exchange of [ProcessHost] with its child
      (agent-process/host.rs).
    - [Supervise]: connection health, the restart circuit, the capability adapter
      that uses them, and the cleanup of recorded processes (agent-process/
      health.rs and lifecycle.rs, agent-capability-process/capability_host.rs).
    - [Intent]: authority leases, workspace paths, what one effect intent covers of
      another, and the host policies that derive the intent of a call
      (agent-contracts/tool.rs, host_policy.rs; agent-core/approval.rs).
    - [Grants]: the policy gate and the standing grants
      ([TaskApprovalGate]), decisions and shadow verdicts (agent-core/approval.rs).
    - [Interactive], [InteractiveTheorems]: the interactive gate and its broker as
      a machine of interleaved calls (agent-core/approval.rs).
    - [Commit]: commit and rollback of a prepared effect across
      the broker barrier (agent-core/port.rs).
    - [Composite]: a vector of effects as one effect, its
      bounded evidence and diagnostics (agent-contracts/tool.rs).
    - [OutputBroker]: the bounds of a tool output and what
      is spilled of it (agent-workspace/broker.rs).
    - [Eol]: line endings, exact and logical matches, and the line
      breaks of a replacement (tool-runtime/tools/mod.rs).
    - [Edit], [EditTheorems]: edit.replace and edit.patch (tool-runtime/tools/
      edit.rs and patch.rs).
    - [Reservations]: the reservation journal of the effect
      broker, its recovery and what it answers (agent-core/broker.rs).
    - [Broker], [Coordinator]: the journaled
      broker, the coordinator host and its client, and the commit of Core over them
      (agent-core/broker.rs and port.rs).
    - [Capability], [Plugin], [CapabilityTheorems]: capability manifests and plugin
      packages, their admission and their state authorities (agent-contracts/
      capability.rs and plugin.rs; agent-core/capability_admission.rs,
      capability_state.rs, plugin_admission.rs, plugin_state.rs).
    - [CapabilityRegistry] with [CapabilitySurface], [CapabilityLife],
      [CapabilityRestore]: the runtime registry,
      its invariant and surface, what raises an activation, calls in flight, the safe
      point, leases and checkpoints (agent-runtime/capability/mod.rs).
    - [PluginRegistry]: the package catalog (agent-runtime/plugin.rs).
    - [Artifact]: artifact locators and content digests (agent-contracts/artifact.rs).
    - [ToolFacts]: what the runtime reads out of a tool result (agent-contracts/
      tool.rs and context.rs).
    - [Execution], [Observe], [ObserveFacts], [ExecutionTheorems]: the execution state
      of a task, the observation of a tool result, revalidation and its validation
      (agent-runtime/execution/state.rs and freshness.rs).
    - [TaskAnchor], [Task], [TaskTheorems]: anchors and tool requirements, the task
      table with its transactions, window and snapshots (agent-runtime/task.rs).
    - [TaskCompletion], [CompletionTheorems]: completion readiness, records and
      proposals, and the task part of a checkpoint (agent-runtime/task.rs,
      checkpoint.rs).
    - [Retry], [RetryTheorems]: the retry layer of a model call, unary, live and
      buffered: schedule, credits, records, the usage of failed attempts
      (provider-openai/retry.rs).
    - [Sse], [SseTheorems], [ProviderWitness]: the event framer and the stream
      accumulator (sse.rs), the tool-name codec (wire_names.rs) and the read loop of
      a chat stream (lib.rs); [shown_text_is_the_answer] puts the two together.
    - [WorkspaceJournal]: the effect journal of the workspace: records, validation,
      appends with the write fence, recovery (agent-workspace/journal.rs).
    - [WorkspaceEffects]: file mutations (snapshot, staging, commit, rollback, drop),
      the creation of one directory, and reconciliation, in a monad over a file system
      whose calls may fail or be the last before the process dies (agent-workspace/
      lib.rs, confined.rs, journal.rs).
    - [WorkspaceHistory], [WorkspaceDirectory], [WorkspaceTheorems],
      [WorkspaceWitness]: histories of one effect with deaths and restarts, a program
      logic for the monad, and the truth of receipts and answers.
    - [JournalWitness], and the files ending in [Witness]: concrete instances of
      every interface and the theorems applied to them.

    * How the source is read

    - A method of a shared object is a function from its state to a result and
      the next state ([M]); Rust does not roll a receiver back on [Err], so the
      state is kept on both branches. A lock makes the method one atomic step.
    - [u64], [u32] and UUIDs are [N]; the nil UUID is 0. The guarded operations
      ([checked_add], [saturating_add], [wrapping_mul]) are written out.
    - A string is its list of Unicode code points, a byte string a list of [N].
      In the storage and Core files the values interpolated into error messages
      (ids, counters, paths) are dropped from the text; the fixed part is kept.
    - serde_json, sha2 and the float printer are not under src/: they are the
      operations of the classes [Codec], [TraceCodec] and [JsonNumber], and what
      the code relies on of them is [CodecLaws], [TraceCodecLaws] and the laws of
      [JsonNumber]. [JournalWitness] and [EventWitness] show the laws hold together.
    - Each fallible I/O step takes its outcome from a script. A crash is a script
      that stops; what it leaves on the disk is what the next process finds.
      Theorems quantify over all scripts.
    - What the awaited components of an execution answer, and what other tasks do
      to Core meanwhile, is the record [ToolEnv]; theorems quantify over it.

    * What the theorems show

    - Storage: a log cut at any byte recovers to an exact prefix of its records
      ([wal_crash_prefix]); every acknowledged record survives every crash and
      restart ([journal_durability]); compaction keeps the recovered state and
      the markers ([compaction_keeps_tip], [marker_stays_valid]); a failed write
      fences the writer ([fenced_writer_refuses]); the file journal refines the
      specification journal ([file_journal_refines_spec]).
    - Registry: its invariant over every interleaving, admission and commit at
      most once across crashes, lifecycles that only move forward, no false
      negative of the seen filter, exact receipts.
    - Core: single-use admission, stale epochs refused, cancellation that no later
      commit can pass, a new process that fences the old one, and startup that
      resolves each recovered operation by the evidence.
    - Execution: a tool runs only after approval, under the current epoch and a
      durable lease, at most once; every refusal settles its operation.
    - Events: a barrier that succeeds covers everything before it; a durable
      batch is published only behind the barrier; the tail read never shows a
      history that is not there.
    - Processes: frames cross a pipe intact whatever the chunking and whichever
      write breaks; a session out of step is fenced; an answer is the answer to
      its own request; a failed call leaves the connection usable or fenced; a
      crashing child is replaced at most three times; no process is signalled on
      a pid alone, and no exit believed without an observation.
    - JSON: a frame is accepted exactly when its document is within the budget.
    - Authority of effects: coverage is an order that never leaves its kind of
      effect or its paths ([coverage_order]); a standing grant decides exactly as
      its targets, caps and expiry say, only shrinks, and bounds what a covered
      effect may touch; the shadow gate is never wider than the legacy one. The
      interactive gate never allows without an answer of its own, leaves nothing
      behind and always ends.
    - Commit: an effect is dispatched only under a lease Core issued, within the
      intent of that lease, at most once, after the journal says so; every
      disposition is the truth about the effect; a grant bounds what reaches the
      disk ([granted_commit_contained]). A composite reports what its children
      did, and nothing it tried is left with two fates or none.
    - What the code does not do is stated too: the operation that a broker's
      refusal leaves open, the request that reaches no user interface.
    - Outputs: every field and the metadata keep to their caps, and a reference the
      model sees is one the store answered for this run ([reference_is_ours]).
    - Editing: an edit replaces what reads as its anchor by what reads as its new
      text, up to the encoding of line breaks, and nothing else; a patch applies to
      the revisions it names and is staged for all its files or none.
    - Brokers: across failed writes, lost answers and crashes an effect is handed out
      at most once ([effect_applied_at_most_once]), reconciliation says only what is
      true, a settlement is kept, and broker and Core never contradict each other.
    - Capabilities and packages: admission decides a declarative well-formedness; the
      model surface holds only admitted tools of enabled capabilities with one owner
      each; nothing but an explicit enable raises a capability or a package; a disable
      cancels what runs; the safe point relieves pressure without touching what is
      held; a checkpoint gives back its surface under the live authority; a skill body
      comes whole from inside its package ([skill_read_gated]).
    - Execution state: a failure stays debt until evidence of its own resolves it
      ([failure_blocks_readiness]); a reused verification is the verdict on the
      present ([reused_pass_is_current]); an artifact locator is an identity
      ([artifact_identity_exact]); windows cover exactly the lines they hold
      ([windows_cover_exact]).
    - Tasks: the table stays well-formed in every history; the checkpoint written
      before a completion is the one the completed table has; anchors change by
      compare-and-swap and never mint a receipt; readiness is exactly the conditions
      it names; a model's completion was proved by verifications of its own history;
      a checkpoint is accepted exactly when its task part is well-formed.
      [TaskWitness] exhibits where the code falls short of its comments.
    - Model calls: a call ends within its credits whatever the provider does
      ([retry_terminates]); no output is shown twice ([no_duplicate_output]), and the
      text that was shown is the text of the answer; every counter a provider
      reported is counted once ([usage_settled_once], [failed_stream_usage]); frames
      come back as the events they were ([framer_roundtrip]) and stay bounded; the
      accumulator accepts exactly the coherent streams and rebuilds what they say
      ([accumulator_exact]). [ProviderWitness] exhibits where records and events differ
      from their comments.
    - Workspace effects: the effect journal keeps what it acknowledged at every byte
      ([effect_journal_durable]); over every history with failing calls, deaths and
      restarts, receipts and reconciliation are true of the files
      ([workspace_effects_truthful], [directory_effect_truthful]); a commit overwrites
      no change it has not seen ([commit_never_clobbers]). [WorkspaceWitness] exhibits
      what is conservative: a landed effect called partial, a partial stage and an
      orphaned directory that stay ambiguous.
    * Bounds

    - [recover_loop] runs on fuel one more than the length of the file, and each
      round consumes at least one byte: [recover_operation_file_until] never runs
      out (the out-of-fuel error is unreachable, [recovery_total]).
    - [floor_boundary], eviction and [tail_rows] are structural.
    - The number of starts of an adapter is bounded by the width of its restart
      counter in [adapter_bounded_restarts]: the counter wraps after 2^32 starts.
    - The interactive gate needs no fuel: a call takes at most five steps of its
      own ([interactive_call_ends]). Run counts of grants wrap at 2^32, and a cap
      is at most [u32::MAX].
    - The size pass of a logical replace-all predicts the size of the written text
      exactly ([measure_emit]), so no edit writes more than [MAX_FILE_BYTES].
    - [serve_broker_frames] runs on one unit of fuel per byte of its input and one
      more: every round but the last takes a byte ([coordinator_session_safe]).
    - The capability registry needs no fuel. Its clock and counters wrap at 2^64; the
      catalog's install counter orders packages while fewer than 2^64 were installed
      ([hook_order_exact]).
    - The execution clocks are 64-bit and saturate; what is said of the present holds
      while a history does not exhaust them. The window of completed tasks runs on
      one unit of fuel per row ([evict_oldest_spec]), the binary search of a
      declaration on one more than the number of declarations.
    - A model call runs on as many rounds as its budget has attempts ([call_fuel]),
      at most one more than configured; the loop always ends within them. Its counters
      saturate at 2^32 and usage at 2^64. The framer's bound is for caps below the
      largest [usize].
    - The recovery of the effect journal runs on one unit of fuel per byte of the file
      and one more; every round takes a byte ([recover_frames_log]). The rest of the
      workspace needs no fuel: lists of at most sixteen transactions, paths by component.
    * Not modelled

    - The transport of awaited calls (channels, tasks, timers) other than as the
      order of the steps; the wall clock is an argument.
    - In Core, of a tool output's JSON metadata only the [approval_denial] key.
    - Context transactions, model calls and output spilling of Core.
    - File system details below a file's bytes: permissions, directory entries,
      Windows replacement of open files.
    - Connecting a child (spawn, sandbox attestation, feature negotiation),
      containment and process inspection: operating-system calls.
    - [std::path::Path] is read as on Unix. The broadcast channel of the approval
      broker is read without its capacity, and a call of [authorize] as polled to
      its end.
    - What an effect does to the world: a child is what its commit and rollback
      answer.
    - Refusal texts, candidates and echoes of the editing tools; a text is its UTF-8
      bytes there, and offsets are byte offsets.
    - The rows and texts of the capability control tool, the row cache, the sandbox
      evidence of a manifest, the invocation of a capability and the runner of a
      package's self-checks.
    - Prompt views, warnings and repair texts of the execution state and the task
      table, the digest that names a set of blockers, and serde defaults of old
      checkpoints. Unicode classes of characters are a parameter ([TextCrypto]).
    - The HTTP side of a model call (request building, status codes, error bodies),
      the Responses protocol and the metrics file of the retry layer. A sink is its
      answers by position; the three modes run one call at a time.
    - Of the workspace: path resolution and links, leases, permissions, artifacts, the
      review journal's size check and timestamps, the process and remote journals. A
      write is on disk once its call returned: what power loss does to unsynced data is
      not modelled, nor are writers outside the process; SHA-256 is assumed to tell the
      two contents of one write apart. Injected storage faults are failing calls.
    - The turn actor, prompt assembly, context engines, the other tools,
      user interfaces and evaluation, which use these layers. *)

From stdpp Require Export base numbers strings option gmap sets list.
From Stdlib Require Export Lia.

#[export] Set Default Goal Selector "!".

(** ** Results and the state-and-error monad

    [AgentResult<T>] of the source is [result T AgentError]; a method that
    mutates shared state and may fail is a function from the state to a
    result and the next state: a Rust method does not roll its receiver back
    when it returns [Err], so the state is kept on both branches. *)

Inductive result (A E : Type) : Type :=
| Ok (a : A)
| Err (e : E).
Arguments Ok {A E} a.
Arguments Err {A E} e.

#[export] Instance result_eq_dec {A E} `{EqDecision A, EqDecision E} :
  EqDecision (result A E).
Proof. solve_decision. Defined.

Definition is_Ok {A E} (r : result A E) : bool :=
  match r with Ok _ => true | Err _ => false end.

Definition rbind {A B E} (r : result A E) (f : A -> result B E) : result B E :=
  match r with Ok a => f a | Err e => Err e end.

Definition map_err {A E F} (f : E -> F) (r : result A E) : result A F :=
  match r with Ok a => Ok a | Err e => Err (f e) end.

Definition ok_or {A E} (o : option A) (e : E) : result A E :=
  match o with Some a => Ok a | None => Err e end.

Definition M (S E A : Type) : Type := S -> result A E * S.

Definition ret {S E A} (a : A) : M S E A := fun s => (Ok a, s).
Definition fail {S E A} (e : E) : M S E A := fun s => (Err e, s).
Definition get {S E} : M S E S := fun s => (Ok s, s).
Definition modify {S E} (f : S -> S) : M S E unit := fun s => (Ok tt, f s).
Definition lift {S E A} (r : result A E) : M S E A := fun s => (r, s).
Definition bind {S E A B} (m : M S E A) (f : A -> M S E B) : M S E B :=
  fun s =>
    match m s with
    | (Ok a, s1) => f a s1
    | (Err e, s1) => (Err e, s1)
    end.

Declare Scope agent_scope.
Delimit Scope agent_scope with agent.

Notation "'let?' x ':=' r 'in' k" := (rbind r (fun x => k))
  (at level 10, x pattern, r at level 100, k at level 200,
   only parsing) : agent_scope.
Notation "'do' x '<-' m ';;' k" := (bind m (fun x => k))
  (at level 10, x pattern, m at level 99, k at level 200,
   only parsing) : agent_scope.
Notation "'do_' m ';;' k" := (bind m (fun _ => k))
  (at level 10, m at level 99, k at level 200, only parsing) : agent_scope.
Open Scope agent_scope.

(** ** Machine integers

    [u64] and [u32] values are [N]; the operations that the source guards
    against overflow are written out. *)

Definition u64_max : N := 18446744073709551615.
Definition u32_max : N := 4294967295.

(** [u64::checked_add(1)]. *)
Definition checked_succ (n : N) : option N :=
  if decide (n < u64_max)%N then Some (n + 1)%N else None.

Lemma checked_succ_Some n m :
  checked_succ n = Some m <-> (m = n + 1 /\ n < u64_max)%N.
Proof. unfold checked_succ. case_decide; naive_solver. Qed.

(** [u64::wrapping_mul], [u64::saturating_sub]. *)
Definition wrapping_mul (a b : N) : N := ((a * b) mod (u64_max + 1))%N.
Definition saturating_sub (a b : N) : N := (a - b)%N.
Definition saturating_add (a b : N) : N := N.min (a + b) u64_max.

(** ** Automation *)

Create HintDb agent.

(** Destruct the scrutinee of every match in the hypotheses and the goal. *)
Ltac split_matches :=
  repeat (case_match || case_decide); simplify_eq/=.

(** Field assignment: [copy] rebuilds a record field by field, and the term
    replaces one of them. *)
Ltac setter copy proj :=
  lazymatch type of proj with
  | ?R -> ?T =>
      exact (fun (v : T) (r : R) => ltac:(
        let built := eval hnf in (copy r) in
        lazymatch (eval pattern (proj r) in built) with
        | ?f _ => let updated := eval cbv beta in (f v) in exact updated
        end))
  end.

(** Run a computation of the monad [M] that is known to have returned. *)
Ltac run_in H :=
  unfold bind, get, ret, fail, lift, modify, rbind, map_err, ok_or in H;
  repeat (case_match; simplify_eq/=).
