(* ===== verification/Text.v ===== *)
(** Rust strings as sequences of Unicode scalar values, with the part of
    [str] that the authority code relies on (UTF-8 lengths, char boundaries,
    [char::is_control], [str::trim]), and the two functions that bound
    diagnostic text: [validate_bounded_text] (agent-contracts/operation.rs)
    and [bounded_text] (agent-core/operation.rs). *)

From S2P Require Import Prelude.

Abbreviation text := (list N).

(** ASCII literals of the source. *)
Definition txt (s : string) : text := Ascii.N_of_ascii <$> String.list_ascii_of_string s.
Arguments txt : simpl never.

(** ** UTF-8 *)

Definition utf8_len (c : N) : nat :=
  if (c <? 128)%N then 1
  else if (c <? 2048)%N then 2
  else if (c <? 65536)%N then 3
  else 4.

Definition utf8_char (c : N) : list N :=
  if (c <? 128)%N then [c]
  else if (c <? 2048)%N then [192 + c / 64; 128 + c mod 64]%N
  else if (c <? 65536)%N then
    [224 + c / 4096; 128 + (c / 64) mod 64; 128 + c mod 64]%N
  else
    [240 + c / 262144; 128 + (c / 4096) mod 64; 128 + (c / 64) mod 64;
     128 + c mod 64]%N.

(** [str::as_bytes] and [str::len]. *)
Definition as_bytes (s : text) : list N := s ≫= utf8_char.
Definition str_len (s : text) : nat := sum_list_with utf8_len s.

Definition continuation (b : N) : bool := ((128 <=? b) && (b <? 192))%N.

(** [str::from_utf8]: the scalar values, or [None] for invalid bytes. *)
Fixpoint from_utf8 (s : list N) : option text :=
  match s with
  | [] => Some []
  | b0 :: s1 =>
      if (b0 <? 128)%N then (fun t => b0 :: t) <$> from_utf8 s1
      else if ((194 <=? b0) && (b0 <? 224))%N then
        match s1 with
        | b1 :: s2 =>
            if continuation b1
            then (fun t => ((b0 - 192) * 64 + (b1 - 128))%N :: t) <$> from_utf8 s2
            else None
        | _ => None
        end
      else if ((224 <=? b0) && (b0 <? 240))%N then
        match s1 with
        | b1 :: b2 :: s3 =>
            let c := ((b0 - 224) * 4096 + (b1 - 128) * 64 + (b2 - 128))%N in
            if continuation b1 && continuation b2 && (2048 <=? c)%N
               && negb ((55296 <=? c) && (c <? 57344))%N
            then (fun t => c :: t) <$> from_utf8 s3
            else None
        | _ => None
        end
      else if ((240 <=? b0) && (b0 <? 245))%N then
        match s1 with
        | b1 :: b2 :: b3 :: s4 =>
            let c := ((b0 - 240) * 262144 + (b1 - 128) * 4096 + (b2 - 128) * 64
                      + (b3 - 128))%N in
            if continuation b1 && continuation b2 && continuation b3
               && (65536 <=? c)%N && (c <? 1114112)%N
            then (fun t => c :: t) <$> from_utf8 s4
            else None
        | _ => None
        end
      else None
  end.

Arguments utf8_len : simpl never.
Arguments utf8_char : simpl never.
Arguments str_len : simpl never.

Lemma str_len_cons c s : str_len (c :: s) = utf8_len c + str_len s.
Proof. done. Qed.

Lemma str_len_nil : str_len [] = 0.
Proof. done. Qed.

Lemma length_as_bytes s : length (as_bytes s) = str_len s.
Proof.
  induction s as [|c s IH]; [done|].
  unfold as_bytes in *; cbn. rewrite length_app, IH, str_len_cons. f_equal.
  unfold utf8_char, utf8_len. by repeat case_match.
Qed.

Lemma utf8_len_pos c : 1 <= utf8_len c <= 4.
Proof. unfold utf8_len. repeat case_match; lia. Qed.

Lemma str_len_app s1 s2 : str_len (s1 ++ s2) = str_len s1 + str_len s2.
Proof. apply sum_list_with_app. Qed.

Lemma length_le_str_len s : length s <= str_len s.
Proof.
  induction s as [|c s IH]; [done|]. rewrite str_len_cons. cbn.
  pose proof (utf8_len_pos c). lia.
Qed.

(** [str::is_char_boundary] and the slice [&s[..n]] at a boundary. *)
Fixpoint is_char_boundary (s : text) (n : nat) : bool :=
  match n, s with
  | O, _ => true
  | _, [] => false
  | _, c :: s' =>
      if decide (n < utf8_len c) then false else is_char_boundary s' (n - utf8_len c)
  end.

Fixpoint slice_to (s : text) (n : nat) : text :=
  match n, s with
  | O, _ => []
  | _, [] => []
  | _, c :: s' => c :: slice_to s' (n - utf8_len c)
  end.

(** The loop [while end > 0 && !is_char_boundary(end) { end -= 1 }]. *)
Fixpoint floor_boundary (s : text) (n : nat) : nat :=
  match n with
  | O => O
  | S n' => if is_char_boundary s n then n else floor_boundary s n'
  end.

Definition is_control (c : N) : bool :=
  ((c <=? 31) || ((127 <=? c) && (c <=? 159)))%N.

(** [char::is_whitespace]: the Unicode White_Space property. *)
Definition is_whitespace (c : N) : bool :=
  (((9 <=? c) && (c <=? 13)) || (c =? 32) || (c =? 133) || (c =? 160) || (c =? 5760)
   || ((8192 <=? c) && (c <=? 8202)) || (c =? 8232) || (c =? 8233) || (c =? 8239)
   || (c =? 8287) || (c =? 12288))%N.

Fixpoint trim_start (s : text) : text :=
  match s with
  | [] => []
  | c :: s' => if is_whitespace c then trim_start s' else s
  end.

Definition trim_end (s : text) : text := reverse (trim_start (reverse s)).
Definition trim (s : text) : text := trim_end (trim_start s).

(** ** Bounded diagnostics *)

Definition validate_bounded_text (name value : text) (max_bytes : nat) : result unit text :=
  if decide (value = []) then Err name
  else if decide (max_bytes < str_len value) then Err name
  else if existsb is_control value then Err name
  else Ok tt.

Definition bounded_text (value : text) (max_bytes : nat) : text :=
  let sanitized := (fun c => if is_control c then 32%N else c) <$> value in
  let e := floor_boundary sanitized (str_len sanitized `min` max_bytes) in
  let clipped := trim (slice_to sanitized e) in
  if decide (clipped = []) then txt "unspecified" else clipped.

(** ** Lemmas *)

Lemma floor_boundary_le s n : floor_boundary s n <= n.
Proof. induction n; cbn; [done|]. case_match; lia. Qed.

Lemma floor_boundary_spec s n : is_char_boundary s (floor_boundary s n) = true.
Proof.
  induction n; cbn [floor_boundary]; [by destruct s|]. by case_match.
Qed.

Lemma slice_to_len s n : is_char_boundary s n = true -> str_len (slice_to s n) = n.
Proof.
  revert n; induction s as [|c s IH]; intros [|n]; try done.
  cbn [is_char_boundary slice_to]. case_decide; [done|]. intros Hb.
  rewrite str_len_cons, IH by done. pose proof (utf8_len_pos c). lia.
Qed.

Lemma slice_to_prefix s n : slice_to s n `prefix_of` s.
Proof.
  revert n; induction s as [|c s IH]; intros [|n]; cbn; try apply prefix_nil.
  by apply prefix_cons.
Qed.

Lemma slice_to_all s : slice_to s (str_len s) = s.
Proof.
  induction s as [|c s IH]; [done|]. rewrite str_len_cons.
  pose proof (utf8_len_pos c).
  destruct (utf8_len c + str_len s) as [|n] eqn:E; [lia|]. cbn [slice_to].
  replace (S n - _) with (str_len s) by lia. by rewrite IH.
Qed.

Lemma is_char_boundary_len s : is_char_boundary s (str_len s) = true.
Proof.
  induction s as [|c s IH]; [done|]. rewrite str_len_cons.
  pose proof (utf8_len_pos c).
  destruct (utf8_len c + str_len s) as [|n] eqn:E; [lia|]. cbn [is_char_boundary].
  case_decide; [lia|]. by replace (S n - _) with (str_len s) by lia.
Qed.

Lemma trim_start_suffix s : trim_start s `suffix_of` s.
Proof.
  induction s as [|c s IH]; cbn; [done|]. case_match; [by apply suffix_cons_r|done].
Qed.

Lemma trim_start_head s c s' : trim_start s = c :: s' -> is_whitespace c = false.
Proof. induction s as [|d s IH]; cbn; [done|]. case_match; naive_solver. Qed.

Lemma trim_start_id c s : is_whitespace c = false -> trim_start (c :: s) = c :: s.
Proof. cbn. by intros ->. Qed.

Lemma trim_end_prefix s : trim_end s `prefix_of` s.
Proof.
  destruct (trim_start_suffix (reverse s)) as [k Hk].
  exists (reverse k). unfold trim_end.
  rewrite <- reverse_app, <- Hk. by rewrite reverse_involutive.
Qed.

Lemma trim_sublist s : trim s `sublist_of` s.
Proof.
  unfold trim. trans (trim_start s).
  - destruct (trim_end_prefix (trim_start s)) as [k Hk].
    rewrite Hk at 2. by apply sublist_inserts_r.
  - destruct (trim_start_suffix s) as [k Hk].
    rewrite Hk at 2. by apply sublist_inserts_l.
Qed.

Lemma sublist_str_len s1 s2 : s1 `sublist_of` s2 -> str_len s1 <= str_len s2.
Proof. induction 1; rewrite ?str_len_cons; lia. Qed.

Lemma existsb_sublist {A} (f : A -> bool) s1 s2 :
  s1 `sublist_of` s2 -> existsb f s2 = false -> existsb f s1 = false.
Proof.
  induction 1; cbn; [done| |]; rewrite !orb_false_iff; naive_solver.
Qed.

Lemma existsb_sanitized s :
  existsb is_control ((fun c => if is_control c then 32%N else c) <$> s) = false.
Proof.
  induction s as [|c s IH]; cbn; [done|]. rewrite IH, orb_false_r.
  destruct (is_control c) eqn:E; [done|exact E].
Qed.

Lemma slice_to_sublist s n : slice_to s n `sublist_of` s.
Proof.
  destruct (slice_to_prefix s n) as [k Hk]. rewrite Hk at 2. by apply sublist_inserts_r.
Qed.

Lemma validate_bounded_text_Ok name value max_bytes :
  validate_bounded_text name value max_bytes = Ok tt <->
  value <> [] /\ str_len value <= max_bytes /\ existsb is_control value = false.
Proof.
  unfold validate_bounded_text. repeat case_decide; [naive_solver lia..|].
  case_match; naive_solver lia.
Qed.

Lemma floor_boundary_max s n m :
  is_char_boundary s m = true -> m <= n -> m <= floor_boundary s n.
Proof.
  intros Hb. induction n; intros Hle; [done|]. cbn [floor_boundary].
  destruct (is_char_boundary s (S n)) eqn:E; [done|].
  destruct (decide (m = S n)) as [->|]; [congruence|]. apply IHn. lia.
Qed.

Lemma floor_boundary_exact s n : is_char_boundary s n = true -> floor_boundary s n = n.
Proof.
  intros Hb. pose proof (floor_boundary_le s n). pose proof (floor_boundary_max s n n Hb).
  lia.
Qed.

Lemma sanitized_id s :
  existsb is_control s = false ->
  ((fun c => if is_control c then 32%N else c) <$> s) = s.
Proof.
  induction s as [|c s IH]; cbn; [done|]. intros [Hc Hs]%orb_false_iff.
  rewrite Hc. by rewrite IH.
Qed.

Lemma trim_id c d s :
  is_whitespace c = false -> is_whitespace d = false ->
  hd_error s = Some c -> last s = Some d -> trim s = s.
Proof.
  intros Hc Hd Hhd Hl. unfold trim, trim_end.
  destruct s as [|c' s]; [done|]. cbn in Hhd. simplify_eq.
  rewrite trim_start_id by done.
  apply last_Some in Hl as [k ->]. rewrite reverse_app, reverse_singleton.
  cbn [app]. rewrite trim_start_id by done.
  by rewrite reverse_cons, reverse_involutive.
Qed.

Lemma trim_end_last s d : last (trim_end s) = Some d -> is_whitespace d = false.
Proof.
  unfold trim_end. destruct (trim_start (reverse s)) as [|c r] eqn:E; [done|].
  rewrite reverse_cons, last_snoc. intros [= <-]. by eapply trim_start_head.
Qed.

Lemma trim_end_head s c s' : trim_end s = c :: s' -> hd_error s = Some c.
Proof. destruct (trim_end_prefix s) as [k Hk]. intros E. rewrite E in Hk. by rewrite Hk. Qed.

Lemma trim_ends s c s' :
  trim s = c :: s' ->
  is_whitespace c = false /\ exists d, last (c :: s') = Some d /\ is_whitespace d = false.
Proof.
  unfold trim. intros E. split.
  - apply trim_end_head in E. destruct (trim_start s) eqn:E'; [done|]. cbn in E.
    simplify_eq. by eapply trim_start_head.
  - destruct (last (c :: s')) as [d|] eqn:El; [|by apply last_None in El].
    exists d. split; [done|]. rewrite <- E in El. by eapply trim_end_last.
Qed.

Lemma trim_idemp s : trim (trim s) = trim s.
Proof.
  destruct (trim s) as [|c s'] eqn:E; [done|].
  destruct (trim_ends _ _ _ E) as (Hc & d & Hd & Hw). by apply (trim_id c d).
Qed.

(** [bounded_text] cuts a text that has no control character and fits, and is
    already trimmed, nowhere. *)
Lemma bounded_text_id value max_bytes :
  value <> [] -> existsb is_control value = false -> str_len value <= max_bytes ->
  trim value = value -> bounded_text value max_bytes = value.
Proof.
  intros Hne Hc Hlen Htrim. unfold bounded_text. rewrite sanitized_id by done.
  replace (str_len value `min` max_bytes) with (str_len value) by lia.
  rewrite floor_boundary_exact by apply is_char_boundary_len.
  rewrite slice_to_all, Htrim. by case_decide.
Qed.

Lemma bounded_text_valid value max_bytes :
  11 <= max_bytes ->
  bounded_text value max_bytes <> [] /\
  str_len (bounded_text value max_bytes) <= max_bytes /\
  existsb is_control (bounded_text value max_bytes) = false /\
  trim (bounded_text value max_bytes) = bounded_text value max_bytes.
Proof.
  intros Hmax. unfold bounded_text. case_decide as Hd.
  - replace (str_len (txt "unspecified")) with 11 by done. by split_and!.
  - set (san := _ <$> value) in *. set (e := floor_boundary san _) in *.
    assert (Hsub : trim (slice_to san e) `sublist_of` slice_to san e) by apply trim_sublist.
    split_and!; [done| | |apply trim_idemp].
    + apply sublist_str_len in Hsub. rewrite slice_to_len in Hsub by apply floor_boundary_spec.
      pose proof (floor_boundary_le san (str_len san `min` max_bytes)). unfold e in *. lia.
    + eapply existsb_sublist; [|apply (existsb_sanitized value)].
      trans (slice_to san e); [done|apply slice_to_sublist].
Qed.

Lemma bounded_text_validates name value max_bytes :
  11 <= max_bytes -> validate_bounded_text name (bounded_text value max_bytes) max_bytes = Ok tt.
Proof.
  intros Hmax. apply validate_bounded_text_Ok.
  by destruct (bounded_text_valid value max_bytes Hmax) as (? & ? & ? & _).
Qed.
