(* ===== verification/Digest.v ===== *)
(** The strict hexadecimal wire form of digests: [ArgumentDigest] and
    [AuthorityStateDigest] of agent-contracts/operation.rs. A digest is its 32
    bytes; [Display] prints 64 lowercase hexadecimal characters and [FromStr]
    refuses everything else. SHA-256 itself is the [sha2] crate: it stays a
    parameter where it is used. *)

From S2P Require Import Prelude Text.

Definition OPERATION_DIGEST_BYTES : nat := 32.
Definition OPERATION_DIGEST_HEX_BYTES : nat := OPERATION_DIGEST_BYTES * 2.
Definition AUTHORITY_STATE_DIGEST_BYTES : nat := 32.

Abbreviation Digest := (list N).

(** The Rust type is [[u8; 32]]. *)
Definition digest_wf (d : Digest) : Prop :=
  length d = OPERATION_DIGEST_BYTES /\ Forall (fun b => (b < 256)%N) d.

(** [HEX[usize::from(nibble)]] of the [Display] instance. *)
Definition hex_digit (n : N) : N := (if n <? 10 then 48 + n else 87 + n)%N.

(** [ArgumentDigest::fmt]: two characters per byte, high nibble first. *)
Definition digest_display (d : Digest) : text :=
  d ≫= fun b => [hex_digit (N.shiftr b 4); hex_digit (N.land b 15)].

(** [hex_nibble]; its last arm is [unreachable!], here [None]. *)
Definition hex_nibble (b : N) : option N :=
  (if (48 <=? b) && (b <=? 57) then Some (b - 48)
   else if (97 <=? b) && (b <=? 102) then Some (b - 97 + 10)
   else None)%N.

Definition is_lower_hex (b : N) : bool :=
  (((48 <=? b) && (b <=? 57)) || ((97 <=? b) && (b <=? 102)))%N.

(** The loop over [chunks_exact(2)]; a trailing odd byte is not a chunk. *)
Fixpoint decode_pairs (bs : list N) : option (list N) :=
  match bs with
  | h :: l :: bs' =>
      hi ← hex_nibble h;
      lo ← hex_nibble l;
      rest ← decode_pairs bs';
      Some (N.lor (N.shiftl hi 4) lo :: rest)
  | _ => Some []
  end.

(** [ArgumentDigest::from_str] (and the identical body of
    [AuthorityStateDigest::deserialize]). The outer [option] is the panic of
    [unreachable!]; the inner result is the function's own. *)
Definition digest_from_str (value : text) : option (result Digest unit) :=
  if negb (str_len value =? OPERATION_DIGEST_HEX_BYTES)
     || negb (forallb is_lower_hex (as_bytes value))
  then Some (Err tt)
  else Ok <$> decode_pairs (as_bytes value).

(** ** Lemmas *)

Lemma byte_nibbles b :
  (b < 256)%N ->
  (N.shiftr b 4 < 16 /\ N.land b 15 < 16 /\
   N.lor (N.shiftl (N.shiftr b 4) 4) (N.land b 15) = b)%N.
Proof.
  intros Hb.
  assert (Hr : (N.shiftr b 4 = b / 16)%N) by (rewrite N.shiftr_div_pow2; done).
  assert (Hl : (N.land b 15 = b mod 16)%N).
  { change 15%N with (N.ones 4). by rewrite N.land_ones. }
  split_and!.
  - rewrite Hr. apply N.Div0.div_lt_upper_bound. lia.
  - rewrite Hl. by apply N.mod_lt.
  - change 15%N with (N.ones 4). apply N.bits_inj. intros i.
    rewrite N.lor_spec, N.land_spec. destruct (decide (i < 4)%N) as [Hi|Hi].
    + rewrite N.shiftl_spec_low, N.ones_spec_low by done. by rewrite andb_true_r.
    + rewrite N.shiftl_spec_high', N.shiftr_spec', N.ones_spec_high by lia.
      rewrite andb_false_r, orb_false_r. f_equal. lia.
Qed.

Ltac nibble_cases n :=
  let p := fresh "p" in
  destruct n as [|p]; [|do 4 (try destruct p as [p|p|])]; try (exfalso; lia); try done.

Lemma hex_digit_ok n :
  (n < 16)%N ->
  hex_nibble (hex_digit n) = Some n /\ is_lower_hex (hex_digit n) = true /\
  utf8_char (hex_digit n) = [hex_digit n] /\ utf8_len (hex_digit n) = 1.
Proof. intros Hn. nibble_cases n. Qed.

Lemma hex_nibble_lower b :
  is_lower_hex b = true -> exists n, hex_nibble b = Some n /\ (n < 16)%N /\ hex_digit n = b.
Proof.
  unfold is_lower_hex, hex_nibble, hex_digit. intros H.
  destruct ((48 <=? b) && (b <=? 57))%N eqn:E1.
  - apply andb_true_iff in E1 as [?%N.leb_le ?%N.leb_le]. eexists; split_and!; [done|lia|].
    case_match eqn:E; [lia|]. apply N.ltb_ge in E. lia.
  - cbn in H. rewrite H. apply andb_true_iff in H as [?%N.leb_le ?%N.leb_le].
    eexists; split_and!; [done|lia|]. case_match eqn:E; [apply N.ltb_lt in E|]; lia.
Qed.

Lemma nibbles_byte hi lo :
  (hi < 16)%N -> (lo < 16)%N ->
  let b := N.lor (N.shiftl hi 4) lo in
  (b < 256)%N /\ N.shiftr b 4 = hi /\ N.land b 15 = lo.
Proof.
  intros Hh Hl. cbn zeta. nibble_cases hi; nibble_cases lo.
Qed.

Lemma decode_display d :
  Forall (fun b => (b < 256)%N) d ->
  decode_pairs (digest_display d) = Some d /\
  forallb is_lower_hex (digest_display d) = true /\
  as_bytes (digest_display d) = digest_display d /\
  str_len (digest_display d) = 2 * length d.
Proof.
  induction 1 as [|b d Hb _ IH]; [done|].
  destruct (byte_nibbles b Hb) as (Hh & Hl & Hv).
  apply hex_digit_ok in Hh as (Hh1 & Hh2 & Hh3 & Hh4), Hl as (Hl1 & Hl2 & Hl3 & Hl4).
  destruct IH as (IH1 & IH2 & IH3 & IH4).
  change (digest_display (b :: d)) with
    (hex_digit (N.shiftr b 4) :: hex_digit (N.land b 15) :: digest_display d).
  cbn [decode_pairs forallb]. rewrite Hh1, Hl1, Hh2, Hl2, IH1, IH2.
  cbn -[N.lor N.shiftl N.land N.shiftr]. rewrite Hv. split_and!; [done..| |].
  - unfold as_bytes in *. cbn [mbind list_bind]. by rewrite Hh3, Hl3, IH3.
  - rewrite !str_len_cons, Hh4, Hl4, IH4. lia.
Qed.

Lemma utf8_char_hex c : forallb is_lower_hex (utf8_char c) = true -> utf8_char c = [c].
Proof.
  unfold utf8_char. intros H.
  assert (Hbig : forall k m, (192 <= k)%N -> is_lower_hex (k + m)%N = false).
  { intros k m Hk. unfold is_lower_hex.
    rewrite !andb_comm with (b1 := (48 <=? _)%N), !andb_comm with (b1 := (97 <=? _)%N).
    replace (k + m <=? 57)%N with false by (symmetry; apply N.leb_gt; lia).
    by replace (k + m <=? 102)%N with false by (symmetry; apply N.leb_gt; lia). }
  repeat case_match; [done|..]; cbn in H; by rewrite Hbig in H by lia.
Qed.

Lemma as_bytes_hex s : forallb is_lower_hex (as_bytes s) = true -> as_bytes s = s.
Proof.
  unfold as_bytes. induction s as [|c s IH]; [done|]. cbn.
  rewrite forallb_app. intros [Hc Hs]%andb_true_iff. by rewrite utf8_char_hex, IH.
Qed.

(** Every even-length run of lowercase hexadecimal characters decodes (the
    [unreachable!] of [hex_nibble] is unreachable) and prints back to itself. *)
Lemma decode_pairs_display n bs :
  length bs = 2 * n -> forallb is_lower_hex bs = true ->
  exists d, decode_pairs bs = Some d /\ length d = n /\
    Forall (fun b => (b < 256)%N) d /\ digest_display d = bs.
Proof.
  revert bs. induction n as [|n IH]; intros bs Hlen Hhex.
  - destruct bs; [|done]. by exists [].
  - destruct bs as [|h [|l bs]]; cbn in Hlen; [lia..|]. cbn in Hhex.
    apply andb_true_iff in Hhex as [Hh [Hl Hr]%andb_true_iff].
    destruct (IH bs ltac:(lia) Hr) as (d & Hd & Hlen' & Hwf & Hdisp).
    apply hex_nibble_lower in Hh as (hi & Hhi & Hhib & Hhid),
      Hl as (lo & Hlo & Hlob & Hlod).
    destruct (nibbles_byte hi lo Hhib Hlob) as (Hb & Hsh & Hla).
    exists (N.lor (N.shiftl hi 4) lo :: d). cbn [decode_pairs].
    rewrite Hhi, Hlo, Hd. split_and!; [done|by cbn; rewrite Hlen'|by constructor|].
    change (digest_display (?b :: d)) with
      (hex_digit (N.shiftr b 4) :: hex_digit (N.land b 15) :: digest_display d).
    by rewrite Hsh, Hla, Hhid, Hlod, Hdisp.
Qed.

(** The digest wire form is exact: the printed form of every 32-byte
    digest parses back to it, parsing never reaches the [unreachable!] arm, and
    every accepted string is the printed form of the 32-byte digest it parses
    to, so two different strings never name the same digest. *)
Theorem digest_wire_exact :
  (forall d, digest_wf d -> digest_from_str (digest_display d) = Some (Ok d)) /\
  (forall s, exists r, digest_from_str s = Some r /\
    forall d, r = Ok d -> digest_wf d /\ digest_display d = s).
Proof.
  split.
  - intros d [Hlen Hwf]. unfold digest_from_str.
    destruct (decode_display d Hwf) as (Hd & Hf & Hb & Hs).
    by rewrite Hb, Hf, Hs, Hlen, Hd.
  - intros s. unfold digest_from_str.
    destruct (_ =? _) eqn:Elen; cbn; [|by eexists].
    apply Nat.eqb_eq in Elen. destruct (forallb _ _) eqn:Ehex; cbn; [|by eexists].
    rewrite <- length_as_bytes in Elen.
    destruct (decode_pairs_display OPERATION_DIGEST_BYTES (as_bytes s)) as (d & Hd & Hl & Hwf & Hp);
      [done..|].
    rewrite Hd. cbn. eexists. split; [done|]. intros d' [= <-].
    by rewrite Hp, as_bytes_hex.
Qed.
