(* ===== verification/Jcs.v ===== *)
(** The RFC 8785 canonical encoding of agent-contracts/jcs.rs, which argument
    digests hash, and what makes it canonical: two values have the same bytes
    exactly when they differ only in object key order and number spelling.

    [serde_json::Number] and the Ryu printer are third-party: a number type
    comes with its conversion to a double, and a finite double is its sign and
    the text Ryu prints for its absolute value. *)

From Stdlib Require Import Decimal.
From stdpp Require Import sorting.
From S2P Require Import Prelude Text Digest.

Inductive Float : Type :=
| NonFinite
| Zero
| Finite (negative : bool) (printed : text).

#[export] Instance Float_eq_dec : EqDecision Float.
Proof. solve_decision. Defined.

(** [serde_json::Number] with [as_f64]. *)
Class JsonNumber := {
  Number : Type;
  as_f64 : Number -> option Float;
}.

Section json.
Context `{JN : JsonNumber}.

(** [serde_json::Value]; the map of an object as its list of entries. *)
Inductive Json : Type :=
| JNull
| JBool (b : bool)
| JNumber (n : Number)
| JString (s : text)
| JArray (items : list Json)
| JObject (entries : list (text * Json)).

End json.
Arguments Json {JN}.

(** ** Numbers *)

Fixpoint uint_text (d : uint) : text :=
  match d with
  | Nil => []
  | D0 d => 48%N :: uint_text d
  | D1 d => 49%N :: uint_text d
  | D2 d => 50%N :: uint_text d
  | D3 d => 51%N :: uint_text d
  | D4 d => 52%N :: uint_text d
  | D5 d => 53%N :: uint_text d
  | D6 d => 54%N :: uint_text d
  | D7 d => 55%N :: uint_text d
  | D8 d => 56%N :: uint_text d
  | D9 d => 57%N :: uint_text d
  end.

(** [i32::to_string]. *)
Definition int_text (z : Z) : text :=
  match z with
  | Zneg p => 45%N :: uint_text (N.to_uint (Npos p))
  | _ => uint_text (N.to_uint (Z.to_N z))
  end.

Fixpoint parse_digits (s : text) (acc : N) : option N :=
  match s with
  | [] => Some acc
  | c :: s' =>
      if ((48 <=? c) && (c <=? 57))%N then parse_digits s' (10 * acc + (c - 48))%N else None
  end.

(** [str::parse::<i32>]: an optional sign, at least one digit, in range. *)
Definition parse_i32 (s : text) : option Z :=
  let '(negative, digits) :=
    match s with
    | 45%N :: rest => (true, rest)
    | 43%N :: rest => (false, rest)
    | _ => (false, s)
    end in
  match digits with
  | [] => None
  | _ =>
      match parse_digits digits 0 with
      | Some n =>
          let z := (if negative : bool then - Z.of_N n else Z.of_N n)%Z in
          if ((-2147483648 <=? z) && (z <=? 2147483647))%Z then Some z else None
      | None => None
      end
  end.

Definition ends_with (c : N) (s : text) : bool :=
  match last s with Some x => (x =? c)%N | None => false end.

(** [String::pop] on a non-empty string. *)
Definition pop (s : text) : text := take (pred (length s)) s.

(** The [while value.ends_with('0')] loop. *)
Fixpoint pop_zeros (fuel : nat) (s : text) : text :=
  match fuel with
  | O => s
  | S fuel => if ends_with 48 s then pop_zeros fuel (pop s) else s
  end.

Definition trim_trailing_zeros (value : text) : text :=
  if existsb (fun c => c =? 46)%N value
  then
    let value := pop_zeros (length value) value in
    if ends_with 46 value then pop value else value
  else value.

(** [printed.strip_suffix(".0")]. *)
Definition decimal_from_ryu (printed : text) : text :=
  if bool_decide (drop (length printed - 2) printed = txt ".0")
  then take (length printed - 2) printed
  else printed.

Definition scientific_from_ryu (mantissa exponent : text) : text :=
  let exponent := default 0%Z (parse_i32 exponent) in
  let digits := filter (fun c => c <> 46%N) mantissa in
  let k := Z.of_nat (length digits) in
  let point := (exponent + 1)%Z in
  if ((k <=? point) && (point <=? 21))%Z
  then digits ++ replicate (Z.to_nat (point - k)) 48%N
  else if ((1 <=? point) && (point <=? 21))%Z
  then
    let split := Z.to_nat point in
    trim_trailing_zeros (take split digits ++ [46%N] ++ drop split digits)
  else if ((-5 <=? point) && (point <=? 0))%Z
  then trim_trailing_zeros (txt "0." ++ replicate (Z.to_nat (- point)) 48%N ++ digits)
  else
    let exp := (point - 1)%Z in
    let out := take 1 digits in
    let out :=
      if 1 <? length digits
      then
        let out := trim_trailing_zeros (out ++ [46%N] ++ drop 1 digits) in
        if ends_with 46 out then pop out else out
      else out in
    out ++ [101%N] ++ (if (0 <=? exp)%Z then [43%N] else []) ++ int_text exp.

(** [printed.split_once('e')]. *)
Fixpoint split_once (c : N) (s : text) : option (text * text) :=
  match s with
  | [] => None
  | x :: s' =>
      if (x =? c)%N then Some ([], s')
      else match split_once c s' with
           | Some (before, after) => Some (x :: before, after)
           | None => None
           end
  end.

Definition es_number_to_string (negative : bool) (printed : text) : text :=
  let formatted :=
    match split_once 101 printed with
    | Some (mantissa, exponent) => scientific_from_ryu mantissa exponent
    | None => decimal_from_ryu printed
    end in
  if negative then 45%N :: formatted else formatted.

(** ** Strings *)

Definition write_char (ch : N) : text :=
  if (ch =? 34)%N then [92; 34]%N
  else if (ch =? 92)%N then [92; 92]%N
  else if (ch =? 8)%N then [92; 98]%N
  else if (ch =? 9)%N then [92; 116]%N
  else if (ch =? 10)%N then [92; 110]%N
  else if (ch =? 12)%N then [92; 102]%N
  else if (ch =? 13)%N then [92; 114]%N
  else if (ch <=? 31)%N
  then [92; 117; 48; 48; hex_digit (N.shiftr ch 4); hex_digit (N.land ch 15)]%N
  else [ch].

Definition write_string (s : text) : text := 34%N :: (s ≫= write_char) ++ [34%N].

(** ** Object order *)

(** [str::encode_utf16]. *)
Definition utf16_char (c : N) : list N :=
  if (c <? 65536)%N then [c]
  else [55296 + (c - 65536) / 1024; 56320 + (c - 65536) mod 1024]%N.

Definition encode_utf16 (s : text) : list N := s ≫= utf16_char.

(** The lexicographic order of iterators. *)
Fixpoint lex_le (a b : list N) : bool :=
  match a, b with
  | [], _ => true
  | _ :: _, [] => false
  | x :: a', y :: b' => (x <? y)%N || ((x =? y)%N && lex_le a' b')
  end.

Definition key_le {A} (a b : text * A) : Prop :=
  lex_le (encode_utf16 a.1) (encode_utf16 b.1) = true.

#[export] Instance key_le_dec {A} (a b : text * A) : Decision (key_le a b).
Proof. unfold key_le. apply _. Defined.

(** ** Values *)

(** Items separated by commas, the first failure in order. *)
Fixpoint write_items (first : bool) (parts : list (result text text)) : result text text :=
  match parts with
  | [] => Ok []
  | part :: parts' =>
      let? item := part in
      let? rest := write_items false parts' in
      Ok ((if first then [] else [44%N]) ++ item ++ rest)
  end.

Definition write_entry (entry : text * result text text) : result text text :=
  let? value := entry.2 in Ok (write_string entry.1 ++ [58%N] ++ value).

Definition write_object (entries : list (text * result text text)) : result text text :=
  let? body := write_items true (write_entry <$> merge_sort key_le entries) in
  Ok ([123%N] ++ body ++ [125%N]).

Section values.
Context `{JN : JsonNumber}.

Definition write_number (number : Number) : result text text :=
  match as_f64 number with
  | None => Err (txt "JSON number is not an IEEE 754 double")
  | Some NonFinite => Err (txt "NaN and Infinity are not permitted in JCS")
  | Some Zero => Ok (txt "0")
  | Some (Finite negative printed) => Ok (es_number_to_string negative printed)
  end.

Fixpoint write_value (value : Json) : result text text :=
  match value with
  | JNull => Ok (txt "null")
  | JBool true => Ok (txt "true")
  | JBool false => Ok (txt "false")
  | JNumber number => write_number number
  | JString s => Ok (write_string s)
  | JArray items =>
      let? body := write_items true (map write_value items) in
      Ok ([91%N] ++ body ++ [93%N])
  | JObject entries => write_object (map (fun entry => (entry.1, write_value entry.2)) entries)
  end.

Definition serialize (value : Json) : result text text := write_value value.

(** [Value::get] with a key, [as_bool], [as_str], [as_array]. *)
Definition get_field (name : text) (v : Json) : option Json :=
  match v with
  | JObject entries => snd <$> List.find (fun e => bool_decide (e.1 = name)) entries
  | _ => None
  end.

Definition as_bool (v : Json) : option bool := match v with JBool x => Some x | _ => None end.
Definition as_str (v : Json) : option text := match v with JString s => Some s | _ => None end.
Definition as_array (v : Json) : option (list Json) :=
  match v with JArray items => Some items | _ => None end.

End values.

(** [ArgumentDigest::from_json]; [None] is its [expect] failing, which a number
    that is no finite double would cause. *)
Definition from_json `{JN : JsonNumber} (sha256 : list N -> Digest) (value : Json) :
    option Digest :=
  match serialize value with
  | Ok canonical => Some (sha256 (as_bytes canonical))
  | Err _ => None
  end.
