(* ===== verification/JcsCanonical.v ===== *)
(** Why the canonical encoding is canonical: [write_value] renders a sorted
    tree, rendering is uniquely decodable, and the tree forgets exactly the
    key order of objects and the spelling of numbers. *)

From stdpp Require Import sorting.
From Stdlib Require Import Decimal.
From S2P Require Import Prelude Text Digest Jcs.

(** ** Results of lists *)

Definition rmap {A B E} (f : A -> B) (r : result A E) : result B E :=
  let? x := r in Ok (f x).

Fixpoint all_ok {A E} (l : list (result A E)) : result (list A) E :=
  match l with
  | [] => Ok []
  | r :: l' => let? x := r in let? xs := all_ok l' in Ok (x :: xs)
  end.

Lemma all_ok_Ok {A E} (l : list (result A E)) xs :
  all_ok l = Ok xs -> l = Ok <$> xs.
Proof.
  revert xs. induction l as [|[x|e] l IH]; intros xs; cbn; [by intros [= <-]| |done].
  destruct (all_ok l) as [ys|]; [|done]. cbn. intros [= <-]. cbn. f_equal. by apply IH.
Qed.

(** ** The sorted tree *)

Inductive Canon : Type :=
| CNull
| CBool (b : bool)
| CNum (t : text)
| CStr (s : text)
| CArr (items : list Canon)
| CObj (entries : list (text * Canon)).

Fixpoint join (first : bool) (parts : list text) : text :=
  match parts with
  | [] => []
  | part :: parts' => (if first then [] else [44%N]) ++ part ++ join false parts'
  end.

Definition render_entry (render : Canon -> text) (e : text * Canon) : text :=
  write_string e.1 ++ [58%N] ++ render e.2.

Fixpoint render (c : Canon) : text :=
  match c with
  | CNull => txt "null"
  | CBool true => txt "true"
  | CBool false => txt "false"
  | CNum t => t
  | CStr s => write_string s
  | CArr items => [91%N] ++ join true (map render items) ++ [93%N]
  | CObj entries =>
      [123%N] ++ join true (map (fun e => write_string e.1 ++ [58%N] ++ render e.2) entries)
        ++ [125%N]
  end.

Definition with_key {A B} (f : A -> B) (e : text * A) : text * B := (e.1, f e.2).

Definition lift_entry {A E} (e : text * result A E) : result (text * A) E :=
  let? v := e.2 in Ok (e.1, v).

Section facts.
Context `{JN : JsonNumber}.

Fixpoint canon (v : Json) : result Canon text :=
  match v with
  | JNull => Ok CNull
  | JBool b => Ok (CBool b)
  | JNumber n => rmap CNum (write_number n)
  | JString s => Ok (CStr s)
  | JArray items => rmap CArr (all_ok (map canon items))
  | JObject entries =>
      rmap CObj (all_ok (lift_entry <$>
        merge_sort key_le (map (fun e => (e.1, canon e.2)) entries)))
  end.

(** Induction over nested values. *)
Lemma json_ind (P : Json -> Prop)
    (Hnull : P JNull) (Hbool : forall b, P (JBool b)) (Hnum : forall n, P (JNumber n))
    (Hstr : forall s, P (JString s))
    (Harr : forall items, Forall P items -> P (JArray items))
    (Hobj : forall entries, Forall (fun e => P e.2) entries -> P (JObject entries)) :
  forall v, P v.
Proof.
  fix IH 1. intros [|b|n|s|items|entries]; [done|apply Hbool|apply Hnum|apply Hstr| |].
  - apply Harr. induction items as [|v items IHl]; constructor; [apply IH|exact IHl].
  - apply Hobj. induction entries as [|[k v] l IHl]; constructor; [apply IH|exact IHl].
Qed.

End facts.

Lemma canon_ind (P : Canon -> Prop)
    (Hnull : P CNull) (Hbool : forall b, P (CBool b)) (Hnum : forall t, P (CNum t))
    (Hstr : forall s, P (CStr s))
    (Harr : forall items, Forall P items -> P (CArr items))
    (Hobj : forall entries, Forall (fun e => P e.2) entries -> P (CObj entries)) :
  forall c, P c.
Proof.
  fix IH 1. intros [|b|n|s|items|entries]; [done|apply Hbool|apply Hnum|apply Hstr| |].
  - apply Harr. induction items as [|v items IHl]; constructor; [apply IH|exact IHl].
  - apply Hobj. induction entries as [|[k v] l IHl]; constructor; [apply IH|exact IHl].
Qed.

(** ** Sorting by key commutes with changing the values *)

Section keyed.
Context {A B : Type} (f : A -> B).

Lemma list_merge_keyed (l1 l2 : list (text * A)) :
  list_merge key_le (with_key f <$> l1) (with_key f <$> l2) =
  with_key f <$> list_merge key_le l1 l2.
Proof.
  revert l2. induction l1 as [|a l1 IH1]; intros l2; [by destruct l2|].
  induction l2 as [|b l2 IH2]; [done|]. cbn [fmap list_fmap list_merge] in *.
  assert (Hd : bool_decide (key_le (with_key f a) (with_key f b)) = bool_decide (key_le a b))
    by (apply bool_decide_ext; done).
  destruct (decide (key_le a b)) as [Hab|Hab];
    destruct (decide (key_le (with_key f a) (with_key f b))) as [Hab'|Hab']; try done.
  - cbn. f_equal. apply (IH1 (b :: l2)).
  - cbn. f_equal. apply IH2.
Qed.

Definition stack_keyed (st : list (option (list (text * A)))) : list (option (list (text * B))) :=
  (fun o : option (list (text * A)) => (fun l : list (text * A) => with_key f <$> l) <$> o) <$> st.

Lemma merge_list_to_stack_keyed st l :
  merge_list_to_stack key_le (stack_keyed st) (with_key f <$> l) =
  stack_keyed (merge_list_to_stack key_le st l).
Proof.
  revert l. induction st as [|[l'|] st IH]; intros l; [done| |done].
  cbn. f_equal. rewrite list_merge_keyed. apply IH.
Qed.

Lemma merge_stack_keyed st :
  merge_stack key_le (stack_keyed st) = with_key f <$> merge_stack key_le st.
Proof.
  induction st as [|[l|] st IH]; [done| |apply IH].
  cbn [stack_keyed fmap list_fmap option_fmap option_map merge_stack].
  fold (stack_keyed st). change (list_fmap _ _ _ st) with (stack_keyed st).
  rewrite IH. apply list_merge_keyed.
Qed.

Lemma merge_sort_keyed l :
  merge_sort key_le (with_key f <$> l) = with_key f <$> merge_sort key_le l.
Proof.
  assert (Ha : forall st, merge_sort_aux key_le (stack_keyed st) (with_key f <$> l) =
    with_key f <$> merge_sort_aux key_le st l); [|exact (Ha [])].
  induction l as [|x l IH]; intros st; [apply merge_stack_keyed|].
  cbn [fmap list_fmap merge_sort_aux].
  rewrite <- IH, <- merge_list_to_stack_keyed. done.
Qed.

End keyed.

(** ** [write_value] renders the sorted tree *)

Lemma write_items_join {A} (f : A -> text) first (l : list (result A text)) :
  write_items first (rmap f <$> l) = rmap (fun xs => join first (f <$> xs)) (all_ok l).
Proof.
  revert first. induction l as [|[x|e] l IH]; intros first; [done| |done].
  cbn [fmap list_fmap write_items rmap rbind all_ok]. change (list_fmap _ _ _ l) with (rmap f <$> l).
  rewrite IH. by destruct (all_ok l).
Qed.

Lemma write_value_canon `{JN : JsonNumber} v : write_value v = rmap render (canon v).
Proof.
  induction v as [|b|n|s|items IH|entries IH] using json_ind; [done|by destruct b| |done| |].
  - cbn. by destruct (write_number n).
  - assert (Hm : map write_value items = rmap render <$> map canon items).
    { induction IH as [|v l Hv _ IHl]; cbn; [done|]. by rewrite Hv, IHl. }
    cbn [write_value canon]. rewrite Hm, write_items_join. by destruct (all_ok _).
  - assert (Hm : map (fun e => (e.1, write_value e.2)) entries =
      with_key (rmap render) <$> map (fun e => (e.1, canon e.2)) entries).
    { induction IH as [|[k v] l Hv _ IHl]; cbn; [done|]. cbn in Hv. rewrite Hv, IHl. done. }
    cbn [write_value canon]. unfold write_object. rewrite Hm, merge_sort_keyed.
    set (l := merge_sort _ _).
    assert (He : write_entry <$> (with_key (rmap render) <$> l) =
      rmap (render_entry render) <$> (lift_entry <$> l)).
    { rewrite <- !list_fmap_compose. apply list_fmap_ext. intros i [k [c|e]] _; done. }
    rewrite He, write_items_join. by destruct (all_ok _).
Qed.

(** Unique decodability of canonical text, and the theorem that canonical bytes
    decide equality up to key order and number spelling. *)

(** ** Strings decode *)

Definition plain (c : N) : Prop := c <> 34%N /\ c <> 92%N.

Lemma write_char_shape c :
  (write_char c = [c] /\ plain c) \/ exists x rest, write_char c = 92%N :: x :: rest.
Proof.
  unfold write_char, plain. repeat (case_match; [right; eauto|]). left.
  rewrite !N.eqb_neq in *. done.
Qed.

(** Read one escaped character back. *)
Definition read_char (s : text) : option (N * text) :=
  match s with
  | 92%N :: 34%N :: r => Some (34%N, r)
  | 92%N :: 92%N :: r => Some (92%N, r)
  | 92%N :: 98%N :: r => Some (8%N, r)
  | 92%N :: 116%N :: r => Some (9%N, r)
  | 92%N :: 110%N :: r => Some (10%N, r)
  | 92%N :: 102%N :: r => Some (12%N, r)
  | 92%N :: 114%N :: r => Some (13%N, r)
  | 92%N :: 117%N :: 48%N :: 48%N :: h :: l :: r =>
      match hex_nibble h, hex_nibble l with
      | Some x, Some y => Some (16 * x + y, r)%N
      | _, _ => None
      end
  | c :: r => Some (c, r)
  | [] => None
  end.

Lemma read_plain c r : plain c -> read_char (c :: r) = Some (c, r).
Proof.
  intros [H1 H2]. unfold read_char. destruct c as [|p]; [done|].
  do 7 (destruct p as [p|p|]; try done).
Qed.

Lemma write_char_control :
  Forall (fun c => forall r, read_char (write_char c ++ r) = Some (c, r)) (N.of_nat <$> seq 0 32).
Proof. repeat (constructor; [intros r; reflexivity|]). constructor. Qed.

Lemma read_write_char c r : read_char (write_char c ++ r) = Some (c, r).
Proof.
  destruct (N.ltb_spec c 32) as [Hlt|Hge].
  - pose proof (proj1 (Forall_forall _ _) write_char_control c) as H. apply H, list_elem_of_fmap.
    exists (N.to_nat c). rewrite elem_of_seq. lia.
  - unfold write_char.
    destruct (N.eqb_spec c 34) as [->|H1]; [done|]. destruct (N.eqb_spec c 92) as [->|H2]; [done|].
    repeat (rewrite (proj2 (N.eqb_neq c _)) by lia). rewrite (proj2 (N.leb_gt c 31)) by lia.
    by apply read_plain.
Qed.

Lemma write_char_quote c r r' : write_char c ++ r <> 34%N :: r'.
Proof.
  destruct (write_char_shape c) as [[-> [H _]]|(x & rest & ->)]; cbn; intros [= ? _]; done.
Qed.

Lemma escaped_inj s1 s2 r1 r2 :
  (s1 ≫= write_char) ++ 34%N :: r1 = (s2 ≫= write_char) ++ 34%N :: r2 -> s1 = s2 /\ r1 = r2.
Proof.
  revert s2. induction s1 as [|c1 s1 IH]; intros [|c2 s2]; cbn [mbind list_bind];
    rewrite <- ?(assoc_L (++)).
  - by intros [= ->].
  - intros H. by apply eq_sym, write_char_quote in H.
  - intros H. by apply write_char_quote in H.
  - intros H. pose proof (f_equal read_char H) as Hr. rewrite !read_write_char in Hr.
    injection Hr as -> Hr. apply IH in Hr as [-> ->]. done.
Qed.

Lemma write_string_inj s1 s2 r1 r2 :
  write_string s1 ++ r1 = write_string s2 ++ r2 -> s1 = s2 /\ r1 = r2.
Proof.
  unfold write_string. cbn. rewrite <- !(assoc_L (++)). intros [= H]. by apply escaped_inj.
Qed.

(** ** Numbers decode *)

(** Digits, sign, point and exponent mark. *)
Definition num_char (c : N) : bool :=
  ((48 <=? c) && (c <=? 57) || (c =? 43) || (c =? 45) || (c =? 46) || (c =? 101))%N.

(** What may follow a value: nothing, a comma or a closing bracket. *)
Definition delim (r : text) : Prop :=
  match r with [] => True | c :: _ => c = 44%N \/ c = 93%N \/ c = 125%N end.

Lemma delim_not_num c r : delim (c :: r) -> num_char c = false.
Proof. by intros [->|[->| ->]]. Qed.

Lemma number_inj t1 t2 r1 r2 :
  Forall num_char t1 -> Forall num_char t2 -> delim r1 -> delim r2 ->
  t1 ++ r1 = t2 ++ r2 -> t1 = t2 /\ r1 = r2.
Proof.
  intros H1. revert t2. induction H1 as [|c1 t1 Hc1 H1 IH]; intros t2 H2 Hd1 Hd2.
  - destruct H2 as [|c2 t2 Hc2 H2]; [done|]. cbn. intros ->.
    apply delim_not_num in Hd1. by rewrite Hd1 in Hc2.
  - destruct H2 as [|c2 t2 Hc2 H2]; cbn.
    + intros <-. apply delim_not_num in Hd2. by rewrite Hd2 in Hc1.
    + intros [= -> H]. by apply IH in H as [-> ->].
Qed.

(** ** Trees decode *)

(** Every number is written in number characters, and not empty. *)
Inductive canon_ok : Canon -> Prop :=
| ok_null : canon_ok CNull
| ok_bool b : canon_ok (CBool b)
| ok_num t : t <> [] -> Forall num_char t -> canon_ok (CNum t)
| ok_str s : canon_ok (CStr s)
| ok_arr l : Forall canon_ok l -> canon_ok (CArr l)
| ok_obj l : Forall (fun e => canon_ok e.2) l -> canon_ok (CObj l).

(** The first character tells the kind of value. *)
Definition kind (c : Canon) : N :=
  match c with
  | CNull => 0 | CBool true => 1 | CBool false => 2 | CNum _ => 3 | CStr _ => 4
  | CArr _ => 5 | CObj _ => 6
  end.

Definition head_kind (x : N) : N :=
  if num_char x then 3
  else if (x =? 110)%N then 0 else if (x =? 116)%N then 1 else if (x =? 102)%N then 2
  else if (x =? 34)%N then 4 else if (x =? 91)%N then 5 else if (x =? 123)%N then 6 else 7.

Lemma render_head c : canon_ok c -> exists x r, render c = x :: r /\ head_kind x = kind c.
Proof.
  intros Hok. destruct Hok as [|[]|t Hne Ht| | |]; try (eexists _, _; split; reflexivity).
  destruct Ht as [|x t Hx Ht]; [done|]. exists x, t. unfold head_kind. cbn.
  by rewrite (Is_true_eq_true _ Hx).
Qed.

(** [item x] can be read off the front of a text. *)
Definition decodes {A} (item : A -> text) (ok : A -> Prop) (x : A) : Prop :=
  forall y r1 r2, ok y -> delim r1 -> delim r2 -> item x ++ r1 = item y ++ r2 ->
    x = y /\ r1 = r2.

Definition starts {A} (item : A -> text) (x : A) : Prop :=
  exists c r, item x = c :: r /\ (head_kind c < 7)%N.

Lemma join_inj {A} (item : A -> text) (ok : A -> Prop) closer l1 l2 first r1 r2 :
  closer = 93%N \/ closer = 125%N ->
  (forall x, ok x -> starts item x) ->
  Forall (decodes item ok) l1 -> Forall ok l1 -> Forall ok l2 ->
  join first (item <$> l1) ++ closer :: r1 = join first (item <$> l2) ++ closer :: r2 ->
  l1 = l2 /\ r1 = r2.
Proof.
  intros Hcl Hst Hd Hok1. revert first l2.
  assert (Hdel : forall l r, delim (join false (item <$> l) ++ closer :: r)).
  { intros [|y l] r; cbn; [|by left]. destruct Hcl; auto. }
  assert (Hno : forall first y l r r', ok y ->
    join first (item <$> (y :: l)) ++ closer :: r <> closer :: r').
  { intros first y l r r' Hy. destruct (Hst y Hy) as (c & t & Ht & Hk). cbn. rewrite Ht.
    destruct first; cbn; intros [= Hc _]; [subst c|by destruct Hcl; subst].
    by destruct Hcl as [->| ->]. }
  induction Hd as [|x l1 Hx Hd IH]; intros first [|y l2] Hok2 Heq.
  - by injection Heq.
  - apply Forall_cons_1 in Hok2 as [Hy _]. symmetry in Heq. by apply Hno in Heq.
  - apply Forall_cons_1 in Hok1 as [Hx1 _]. by apply Hno in Heq.
  - apply Forall_cons_1 in Hok1 as [Hx1 Hok1]. apply Forall_cons_1 in Hok2 as [Hy Hok2].
    cbn [fmap list_fmap join] in Heq. rewrite <- !(assoc_L (++)) in Heq.
    apply app_inv_head, Hx in Heq as [-> Heq]; [|done|apply Hdel..].
    apply IH in Heq as [-> ->]; done.
Qed.

Definition item_of (e : text * Canon) : text := write_string e.1 ++ [58%N] ++ render e.2.

Lemma item_decodes k c :
  decodes render canon_ok c -> decodes item_of (fun e => canon_ok e.2) (k, c).
Proof.
  intros Hc [k' c'] r1 r2 Hok Hd1 Hd2. unfold item_of. cbn [fst snd].
  rewrite <- !(assoc_L (++)). intros Heq. apply write_string_inj in Heq as [-> Heq].
  injection Heq as Heq. apply Hc in Heq as [-> ->]; done.
Qed.

Lemma same_kind c y r1 r2 :
  canon_ok c -> canon_ok y -> render c ++ r1 = render y ++ r2 -> kind c = kind y.
Proof.
  intros Hc Hy Heq. destruct (render_head _ Hc) as (x1 & t1 & H1 & <-).
  destruct (render_head _ Hy) as (x2 & t2 & H2 & <-).
  rewrite H1, H2 in Heq. by injection Heq as -> _.
Qed.

Lemma kind_bound c : (kind c < 7)%N.
Proof. by destruct c as [|[]| | | |]. Qed.

Lemma render_starts c : canon_ok c -> starts render c.
Proof.
  intros Hc. destruct (render_head _ Hc) as (x & t & Hx & Hk). exists x, t.
  split; [done|]. rewrite Hk. apply kind_bound.
Qed.

Lemma render_decodes c : canon_ok c -> decodes render canon_ok c.
Proof.
  induction c as [|b|t|s|items IH|entries IH] using canon_ind; intros Hok y r1 r2 Hy Hd1 Hd2 Heq;
    pose proof (same_kind _ _ _ _ Hok Hy Heq) as Hk;
    destruct y as [|b'|t'|s'|items'|entries']; try done; try (by destruct b); try (by destruct b').
  - cbn in Heq. by injection Heq as ->.
  - assert (b = b') as <- by (by destruct b, b'). by apply app_inv_head in Heq as ->.
  - inversion Hok; inversion Hy; subst. cbn in Heq. by apply number_inj in Heq as [-> ->].
  - cbn [render] in Heq. by apply write_string_inj in Heq as [-> ->].
  - inversion Hok; inversion Hy; subst. cbn [render] in Heq. rewrite <- !(assoc_L (++)) in Heq.
    apply app_inv_head in Heq.
    apply (join_inj render canon_ok 93 items items' true) in Heq as [-> ->];
      [done|by left|apply render_starts| |done|done].
    rewrite Forall_forall in IH. apply Forall_forall. intros x Hx. apply (IH x Hx).
    by apply (proj1 (Forall_forall canon_ok items)).
  - inversion Hok; inversion Hy; subst. cbn [render] in Heq. rewrite <- !(assoc_L (++)) in Heq.
    apply app_inv_head in Heq.
    apply (join_inj item_of (fun e => canon_ok e.2) 125 entries entries' true) in Heq as [-> ->];
      [done|by right| | |done|done].
    + intros [k c] _. by eexists _, _.
    + rewrite Forall_forall in IH. apply Forall_forall. intros [k c] Hx. apply item_decodes.
      apply (IH _ Hx). by apply (proj1 (Forall_forall (fun e => canon_ok e.2) entries)).
Qed.

(** ** Numbers are written in number characters *)

Definition is_digit (c : N) : bool := ((48 <=? c) && (c <=? 57))%N.

(** What Ryu prints: a digit, then digits, a point, an exponent mark or sign. *)
Definition ryu_format (p : text) : Prop :=
  exists d rest, p = d :: rest /\ is_digit d = true /\
    Forall (fun c => is_digit c || (c =? 46) || (c =? 101) || (c =? 45))%N rest.

Class JsonNumberLaws `{JN : JsonNumber} := {
  ryu_prints : forall n negative p, as_f64 n = Some (Finite negative p) -> ryu_format p;
}.

Definition number_text (t : text) : Prop := t <> [] /\ Forall num_char t.

Lemma digit_num c : is_digit c = true -> num_char c.
Proof. unfold is_digit, num_char. by intros ->. Qed.

Lemma ryu_chars p : ryu_format p -> Forall num_char p.
Proof.
  intros (d & rest & -> & Hd & Hr). constructor; [by apply digit_num|].
  eapply Forall_impl; [exact Hr|]. intros c. unfold is_digit, num_char.
  destruct (_ && _), (c =? 43)%N, (c =? 45)%N, (c =? 46)%N, (c =? 101)%N; done.
Qed.

Lemma uint_text_chars d : Forall num_char (uint_text d).
Proof. induction d; constructor; done. Qed.

Lemma int_text_chars z : Forall num_char (int_text z).
Proof. destruct z; cbn [int_text]; [apply uint_text_chars..|]. constructor; [done|apply uint_text_chars]. Qed.

Lemma pop_snoc l x : pop (l ++ [x]) = l.
Proof. unfold pop. rewrite length_app, Nat.add_comm. apply take_app_length. Qed.

Lemma pop_zeros_keeps fuel a b : exists b', pop_zeros fuel (a ++ 46%N :: b) = a ++ 46%N :: b'.
Proof.
  revert b. induction fuel as [|fuel IH]; intros b; cbn [pop_zeros]; [eauto|].
  destruct b as [|x b _] using rev_ind.
  - unfold ends_with. rewrite last_snoc. cbn. eauto.
  - change (a ++ 46%N :: b ++ [x]) with (a ++ (46%N :: b) ++ [x]). rewrite (assoc_L (++)).
    destruct (ends_with _ _); [rewrite pop_snoc; apply IH|]. rewrite <- (assoc_L (++)). eauto.
Qed.

Lemma pop_zeros_chars P fuel s : Forall P s -> Forall P (pop_zeros fuel s).
Proof.
  revert s. induction fuel as [|fuel IH]; intros s Hs; cbn [pop_zeros]; [done|].
  destruct (ends_with _ _); [|done]. by apply IH, Forall_take.
Qed.

Lemma trim_number a b :
  a <> [] -> Forall num_char (a ++ 46%N :: b) -> number_text (trim_trailing_zeros (a ++ 46%N :: b)).
Proof.
  intros Ha Hc. unfold trim_trailing_zeros.
  destruct (existsb _ _); [|split; [by destruct a|done]].
  set (fuel := length _). pose proof (pop_zeros_chars _ fuel _ Hc) as Hf.
  destruct (pop_zeros_keeps fuel a b) as [b' Hb']. rewrite Hb' in *.
  destruct (ends_with _ _); (split; [|by try apply Forall_take]); [|by destruct a].
  intros Hnil. apply (f_equal length) in Hnil. unfold pop in Hnil.
  rewrite length_take, length_app in Hnil. destruct a; cbn in *; [done|lia].
Qed.

Lemma scientific_number mantissa exponent d m :
  mantissa = d :: m -> is_digit d = true -> Forall num_char mantissa ->
  number_text (scientific_from_ryu mantissa exponent).
Proof.
  intros Hm Hd Hc. unfold scientific_from_ryu.
  set (digits := filter _ mantissa). set (point := (_ + 1)%Z). clearbody point.
  assert (Hdig : digits = d :: filter (fun c => c <> 46%N) m).
  { subst digits. rewrite Hm. apply filter_cons_True. intros ->. done. }
  assert (Hdc : Forall num_char digits).
  { apply Forall_forall. intros x [_ Hx]%list_elem_of_filter.
    by apply (proj1 (Forall_forall _ mantissa) Hc). }
  destruct (_ && _) eqn:E1.
  { split; [by rewrite Hdig|]. apply Forall_app_2; [done|]. by apply Forall_replicate. }
  destruct ((1 <=? point)%Z && _) eqn:E2.
  { apply trim_number.
    - rewrite Hdig. destruct (Z.to_nat point) eqn:Ep; [|done]. lia.
    - apply Forall_app_2; [by apply Forall_take|]. constructor; [done|by apply Forall_drop]. }
  destruct ((-5 <=? point)%Z && _).
  { change (txt "0." ++ ?x) with ([48%N] ++ 46%N :: x).
    apply trim_number; [done|]. repeat (constructor; [done|]).
    apply Forall_app_2; [by apply Forall_replicate|done]. }
  set (out := if _ <? _ then _ else _).
  assert (Hout : Forall num_char out).
  { subst out. destruct (_ <? _); [|by apply Forall_take].
    assert (Hn : number_text (trim_trailing_zeros (take 1 digits ++ 46%N :: drop 1 digits))).
    { apply trim_number; [by rewrite Hdig|].
      apply Forall_app_2; [by apply Forall_take|]. constructor; [done|by apply Forall_drop]. }
    destruct Hn as [_ Hn]. cbn [app] in *. destruct (ends_with _ _); [by apply Forall_take|done]. }
  split; [destruct out; by destruct (0 <=? _)%Z|].
  apply Forall_app_2; [done|]. constructor; [done|].
  apply Forall_app_2; [|apply int_text_chars]. destruct (0 <=? point - 1)%Z; [|constructor].
  constructor; [done|constructor].
Qed.

Lemma split_once_app c s a b : split_once c s = Some (a, b) -> s = a ++ c :: b.
Proof.
  revert a. induction s as [|x s IH]; intros a; cbn; [done|].
  destruct (N.eqb_spec x c) as [->|]; [by intros [= <- <-]|].
  destruct (split_once c s) as [[a' b']|]; [|done]. intros [= <- ->]. cbn. f_equal. by apply IH.
Qed.

Lemma decimal_number p : ryu_format p -> number_text (decimal_from_ryu p).
Proof.
  intros Hp. pose proof (ryu_chars _ Hp) as Hc. destruct Hp as (d & rest & -> & Hd & Hr).
  unfold decimal_from_ryu. case_bool_decide as Hs; [|done].
  split; [|by apply Forall_take]. intros Hnil. apply (f_equal length) in Hnil.
  rewrite length_take in Hnil. cbn [length] in Hnil.
  destruct rest as [|x [|y rest]]; [| |cbn in Hnil; lia]; cbn in Hs.
  - by injection Hs as ->.
  - by injection Hs as -> _.
Qed.

Lemma es_number_text negative p : ryu_format p -> number_text (es_number_to_string negative p).
Proof.
  intros Hp. pose proof (ryu_chars _ Hp) as Hc. unfold es_number_to_string.
  assert (Hf : number_text
    match split_once 101 p with
    | Some (mantissa, exponent) => scientific_from_ryu mantissa exponent
    | None => decimal_from_ryu p
    end).
  { destruct (split_once 101 p) as [[m e]|] eqn:Es; [|by apply decimal_number].
    apply split_once_app in Es as ->. destruct Hp as (d & rest & Hm & Hd & _).
    destruct m as [|d' m]; [by injection Hm as <- _|]. injection Hm as -> _.
    eapply scientific_number; [done|done|]. by apply Forall_app in Hc as [? _]. }
  destruct negative; [|done]. split; [done|]. constructor; [done|apply Hf].
Qed.

Lemma number_canon `{JsonNumberLaws} n t : write_number n = Ok t -> number_text t.
Proof.
  unfold write_number. destruct (as_f64 n) as [[| |negative p]|] eqn:E; try done; intros [= <-].
  - split; [done|]. constructor; [done|constructor].
  - by eapply es_number_text, ryu_prints.
Qed.

Lemma all_ok_Forall {A E} (P : A -> Prop) (l : list (result A E)) xs :
  all_ok l = Ok xs -> (forall x, Ok x ∈ l -> P x) -> Forall P xs.
Proof.
  intros ->%all_ok_Ok HP. apply Forall_forall. intros x Hx. apply HP. by apply list_elem_of_fmap_2.
Qed.

Lemma canon_is_ok `{JsonNumberLaws} v c : canon v = Ok c -> canon_ok c.
Proof.
  revert c. induction v as [|b|n|s|items IH|entries IH] using json_ind; intros c; cbn [canon rmap rbind].
  1, 2, 4: intros [= <-]; constructor.
  - destruct (write_number n) as [t|] eqn:E; [|done]. intros [= <-].
    apply number_canon in E as []. by constructor.
  - destruct (all_ok _) as [xs|] eqn:E; [|done]. intros [= <-]. constructor.
    eapply all_ok_Forall; [exact E|]. intros x (v & Hx & Hv)%list_elem_of_fmap.
    rewrite Forall_forall in IH. by apply (IH v Hv).
  - destruct (all_ok _) as [xs|] eqn:E; [|done]. intros [= <-]. constructor.
    eapply all_ok_Forall; [exact E|]. cbn. intros x ([k r] & Hx & Hin)%list_elem_of_fmap.
    rewrite merge_sort_Permutation in Hin. apply list_elem_of_fmap in Hin as ([k' v] & [= -> ->] & Hv).
    rewrite Forall_forall in IH. cbn in Hx. destruct (canon v) as [y|] eqn:Ey; [|done].
    injection Hx as ->. by apply (IH _ Hv).
Qed.

(** Canonical bytes decide equality: two JSON values have the same canonical
    encoding exactly when they agree up to the order of object keys and the
    spelling of numbers. *)

(** ** The key order *)

Lemma lex_le_total a b : lex_le a b = true \/ lex_le b a = true.
Proof.
  revert b. induction a as [|x a IH]; intros [|y b]; cbn; auto.
  destruct (N.ltb_spec x y), (N.ltb_spec y x); auto.
  assert (x = y) as -> by lia. rewrite N.eqb_refl. cbn. apply IH.
Qed.

Lemma lex_le_trans a b c : lex_le a b = true -> lex_le b c = true -> lex_le a c = true.
Proof.
  revert b c. induction a as [|x a IH]; intros [|y b] [|z c]; cbn; try done.
  destruct (N.ltb_spec x y), (N.eqb_spec x y), (N.ltb_spec y z), (N.eqb_spec y z); cbn; try done;
    intros H1 H2; try (rewrite (proj2 (N.ltb_lt x z)) by lia; done).
  subst. rewrite N.eqb_refl. destruct (z <? z)%N; [done|]. cbn. by eapply IH.
Qed.

Lemma lex_le_antisym a b : lex_le a b = true -> lex_le b a = true -> a = b.
Proof.
  revert b. induction a as [|x a IH]; intros [|y b]; cbn; try done.
  destruct (N.ltb_spec x y), (N.eqb_spec x y), (N.ltb_spec y x), (N.eqb_spec y x); cbn; try done;
    try lia.
  subst. intros H1 H2. f_equal. by apply IH.
Qed.

(** Unicode scalar values, which Rust strings are made of. *)
Definition is_scalar (c : N) : Prop := (c < 55296 \/ 57344 <= c < 1114112)%N.

Lemma utf16_char_inj x y r1 r2 :
  is_scalar x -> is_scalar y -> utf16_char x ++ r1 = utf16_char y ++ r2 -> x = y /\ r1 = r2.
Proof.
  unfold is_scalar, utf16_char. intros Hx Hy.
  assert (Hdiv : forall c, (c < 1114112)%N -> ((c - 65536) / 1024 < 1024)%N).
  { intros c Hc. apply N.Div0.div_lt_upper_bound; lia. }
  pose proof (Hdiv x ltac:(lia)). pose proof (Hdiv y ltac:(lia)).
  pose proof (N.div_mod (x - 65536) 1024 ltac:(lia)).
  pose proof (N.div_mod (y - 65536) 1024 ltac:(lia)).
  revert H H0 H1 H2. generalize ((x - 65536) / 1024)%N ((x - 65536) mod 1024)%N.
  generalize ((y - 65536) / 1024)%N ((y - 65536) mod 1024)%N. intros a b c d H H0 H1 H2.
  destruct (N.ltb_spec x 65536), (N.ltb_spec y 65536); cbn [app];
    (intros Heq; injection Heq; intros); (split; [lia|first [done|lia]]).
Qed.

Lemma encode_utf16_inj a b :
  Forall is_scalar a -> Forall is_scalar b -> encode_utf16 a = encode_utf16 b -> a = b.
Proof.
  intros Ha. revert b. induction Ha as [|x a Hx Ha IH]; intros b Hb Heq;
    destruct Hb as [|y b Hy Hb]; unfold encode_utf16 in *; cbn [mbind list_bind] in Heq.
  - done.
  - unfold utf16_char in Heq. by destruct (y <? 65536)%N.
  - unfold utf16_char in Heq. by destruct (x <? 65536)%N.
  - apply utf16_char_inj in Heq as [-> Heq]; [|done..]. f_equal. by apply IH.
Qed.

#[export] Instance key_le_total {A} : Total (@key_le A).
Proof. intros a b. apply lex_le_total. Qed.

#[export] Instance key_le_trans {A} : Transitive (@key_le A).
Proof. intros a b c. apply lex_le_trans. Qed.

(** Keys are strings and unique, as in every JSON map. *)
Definition keys_wf {A} (l : list (text * A)) : Prop :=
  NoDup l.*1 /\ Forall (Forall is_scalar) l.*1.

Lemma merge_sort_unique {A} (l1 l2 : list (text * A)) :
  keys_wf l1 -> l1 ≡ₚ l2 -> merge_sort key_le l1 = merge_sort key_le l2.
Proof.
  intros [Hnd Hsc] Hp. apply (StronglySorted_unique_strong key_le).
  - intros [k1 v1] [k2 v2]. rewrite !merge_sort_Permutation. intros H1 H2 Hle Hge.
    rewrite <- Hp in H2. rewrite Forall_forall in Hsc.
    assert (k1 = k2) as <-.
    { apply encode_utf16_inj; [by apply Hsc, (list_elem_of_fmap_2 fst _ (k1, v1))
        |by apply Hsc, (list_elem_of_fmap_2 fst _ (k2, v2))|by apply lex_le_antisym]. }
    f_equal. apply list_elem_of_lookup in H1 as [i Hi]. apply list_elem_of_lookup in H2 as [j Hj].
    assert (i = j) as <-.
    { eapply NoDup_lookup; [exact Hnd| |]; by rewrite list_lookup_fmap, ?Hi, ?Hj. }
    congruence.
  - apply (StronglySorted_merge_sort key_le).
  - apply (StronglySorted_merge_sort key_le).
  - by rewrite !merge_sort_Permutation.
Qed.

(** ** Equality of values *)

Section equality.
Context `{JNL : JsonNumberLaws}.

Inductive json_wf : Json -> Prop :=
| wf_null : json_wf JNull
| wf_bool b : json_wf (JBool b)
| wf_number n : json_wf (JNumber n)
| wf_string s : json_wf (JString s)
| wf_array l : Forall json_wf l -> json_wf (JArray l)
| wf_object l : keys_wf l -> Forall (fun e => json_wf e.2) l -> json_wf (JObject l).

(** Equality up to key order and number spelling. *)
Inductive same_json : Json -> Json -> Prop :=
| same_null : same_json JNull JNull
| same_bool b : same_json (JBool b) (JBool b)
| same_number n m : write_number n = write_number m -> same_json (JNumber n) (JNumber m)
| same_string s : same_json (JString s) (JString s)
| same_array l1 l2 : Forall2 same_json l1 l2 -> same_json (JArray l1) (JArray l2)
| same_object l1 l1' l2 :
    l1 ≡ₚ l1' -> Forall2 (fun a b => a.1 = b.1 /\ same_json a.2 b.2) l1' l2 ->
    same_json (JObject l1) (JObject l2).

Definition canon_entries (l : list (text * Json)) : list (text * result Canon text) :=
  with_key canon <$> l.

Lemma canon_entries_keys l : (canon_entries l).*1 = l.*1.
Proof. unfold canon_entries. rewrite <- list_fmap_compose. by apply list_fmap_ext. Qed.

Lemma canon_entries_ext l1 l2 :
  Forall2 (fun a b => a.1 = b.1 /\ canon a.2 = canon b.2) l1 l2 ->
  canon_entries l1 = canon_entries l2.
Proof.
  induction 1 as [|[k a] [k' b] l1 l2 [Hk Hc] Hl IH]; [done|].
  cbn in Hk, Hc. subst k'. unfold canon_entries in *. cbn. unfold with_key at 1 3. cbn.
  by rewrite Hc, IH.
Qed.

Lemma same_canon v w : json_wf v -> same_json v w -> canon v = canon w.
Proof.
  revert w. induction v as [|b|n|s|items IH|entries IH] using json_ind; intros w Hwf Hs;
    inversion Hs as [|?|? m Hn|?|? l2 Hl|? l1' l2 Hp Hl]; subst; try done.
  - cbn. by rewrite Hn.
  - cbn [canon]. do 2 f_equal. inversion Hwf as [| | | |? Hi|]; subst.
    clear Hs Hwf. revert Hi IH. induction Hl as [|a b l1 l2 Hab Hl IHl]; intros Hi IH; [done|].
    apply Forall_cons_1 in Hi as [Ha Hi]. apply Forall_cons_1 in IH as [IHa IH].
    cbn. by rewrite (IHa b), IHl.
  - cbn [canon]. do 3 f_equal. inversion Hwf as [| | | | |? Hk Hi]; subst.
    change (merge_sort key_le (canon_entries entries) = merge_sort key_le (canon_entries l2)).
    apply merge_sort_unique; [by unfold keys_wf; rewrite canon_entries_keys|].
    rewrite <- (canon_entries_ext l1' l2); [unfold canon_entries; by rewrite Hp|].
    rewrite Forall_forall in IH, Hi.
    assert (Hin : forall e, e ∈ l1' -> e ∈ entries) by (intros e; by rewrite Hp).
    clear Hp Hs Hwf. induction Hl as [|a b l1 l2 [Hab Hs] Hl IHl]; constructor.
    + split; [done|]. apply (IH a); [|apply Hi|done]; apply Hin; by left.
    + apply IHl. intros e He. apply Hin. by right.
Qed.

Lemma canon_entries_same l1 l2 :
  Forall (fun e => forall w c, canon e.2 = Ok c -> canon w = Ok c -> same_json e.2 w) l1 ->
  (forall e, e ∈ l1 -> exists c, canon e.2 = Ok c) ->
  canon_entries l1 = canon_entries l2 ->
  Forall2 (fun a b => a.1 = b.1 /\ same_json a.2 b.2) l1 l2.
Proof.
  intros IH. revert l2. induction IH as [|[k a] l1 Ha _ IHl]; intros [|[k' b] l2] Hok Heq; try done.
  cbn in *. injection Heq as -> Hc Heq.
  destruct (Hok (k', a)) as [c Hca]; [by left|]. constructor.
  - split; [done|]. apply (Ha b c); [done|]. cbn in *. congruence.
  - apply IHl; [|done]. intros e He. apply Hok. by right.
Qed.

Lemma canon_obj_entries l cs :
  all_ok (lift_entry <$> merge_sort key_le (canon_entries l)) = Ok cs ->
  merge_sort key_le (canon_entries l) = with_key Ok <$> cs.
Proof.
  intros H%all_ok_Ok. revert H. generalize (merge_sort key_le (canon_entries l)).
  intros s. revert cs. induction s as [|[k [c|e]] s IH]; intros [|[k' c'] cs] H; try done.
  cbn in *. injection H as -> -> H. f_equal. by apply IH.
Qed.

Lemma canon_entries_elem l e :
  e ∈ l -> (e.1, canon e.2) ∈ canon_entries l.
Proof. intros He. unfold canon_entries. by apply (list_elem_of_fmap_2 (with_key canon)). Qed.

(** Only a value of the same shape has the same tree. *)
Ltac same_shape Hw :=
  match type of Hw with canon ?w = _ =>
    destruct w; cbn [canon] in Hw; unfold rmap, rbind in Hw; repeat case_match; simplify_eq
  end.

Lemma canon_same v : forall w c, canon v = Ok c -> canon w = Ok c -> same_json v w.
Proof.
  induction v as [|b|n|s|items IH|entries IH] using json_ind; intros w c Hv Hw;
    cbn [canon] in Hv; unfold rmap, rbind in Hv; repeat case_match; simplify_eq.
  - same_shape Hw. constructor.
  - same_shape Hw. constructor.
  - same_shape Hw. constructor. congruence.
  - same_shape Hw. constructor.
  - same_shape Hw. constructor.
    repeat match goal with H : all_ok _ = Ok _ |- _ => apply all_ok_Ok in H end.
    match goal with H1 : map canon items = _, H2 : map canon ?l = _ |- _ =>
      rewrite <- H1 in H2; rename l into items'; revert H1 H2 end.
    match goal with |- _ = Ok <$> ?xs -> _ => generalize xs end.
    clear -IH. revert items'. induction IH as [|v l Hv _ IHl]; intros [|w l2] [|c cs] H1 H2;
      try done. cbn in *. injection H1 as H1 H1'. injection H2 as H2 H2'.
    constructor; [apply (Hv w c); congruence|by apply (IHl l2 cs)].
  - same_shape Hw.
    match goal with H1 : all_ok (_ <$> merge_sort _ (map _ entries)) = Ok ?cs,
                    H2 : all_ok (_ <$> merge_sort _ (map _ ?l)) = _ |- _ =>
      rename l into entries'; apply (canon_obj_entries entries) in H1;
      apply (canon_obj_entries entries') in H2; revert H1 H2; generalize cs end.
    intros cs H1 H2.
    assert (Hp : canon_entries entries' ≡ₚ canon_entries entries).
    { rewrite <- (merge_sort_Permutation key_le (canon_entries entries')), H2, <- H1.
      apply merge_sort_Permutation. }
    destruct (Permutation_map_inv (with_key canon) _ Hp) as (l1' & Heq & Hp').
    apply (same_object _ l1'); [done|]. apply canon_entries_same; [by rewrite <- Hp'| |done].
    intros e He. rewrite <- Hp' in He. apply canon_entries_elem in He.
    rewrite <- (merge_sort_Permutation key_le (canon_entries entries)), H1 in He.
    apply list_elem_of_fmap in He as ([k c'] & [= _ ->] & _). eauto.
Qed.


End equality.
