(* ===== verification/Operation.v ===== *)
(** The operation vocabulary of agent-contracts/operation.rs (with the parts
    of error.rs, tool.rs and approval.rs it names): identities, lifecycle
    states, terminals, journal transitions and records, and their validation.

    UUIDs are their 128-bit big-endian value as [N]; the nil UUID is 0. In the
    messages of refused records and transitions the interpolated ids are left out
    of the text; the message itself is kept. *)

From S2P Require Import Prelude Text Digest Jcs.

(** ** AgentError (agent-contracts/error.rs) *)

Inductive ModelProtocolErrorKind : Type := MalformedEvent | MalformedToolCall.

#[export] Instance ModelProtocolErrorKind_eq_dec : EqDecision ModelProtocolErrorKind.
Proof. solve_decision. Defined.

Inductive LocalResourceLimitKind : Type := BufferedModelStreamChunks | BufferedModelStreamBytes.

#[export] Instance LocalResourceLimitKind_eq_dec : EqDecision LocalResourceLimitKind.
Proof. solve_decision. Defined.

(** What a provider reported of one call (agent-contracts/model.rs); a counter it
    did not send is [None]. *)
Record ModelUsage : Type := {
  mu_input_tokens : option N;
  mu_output_tokens : option N;
  mu_cached_input_tokens : option N;
  mu_cache_write_input_tokens : option N;
  mu_cache_miss_input_tokens : option N;
  mu_attempts : N;
  mu_retries : N;
}.

#[export] Instance ModelUsage_eq_dec : EqDecision ModelUsage.
Proof. solve_decision. Defined.

Definition has_any_reported (u : ModelUsage) : bool :=
  bool_decide (is_Some (mu_input_tokens u)) || bool_decide (is_Some (mu_output_tokens u))
  || bool_decide (is_Some (mu_cached_input_tokens u)) || bool_decide (is_Some (mu_cache_write_input_tokens u))
  || bool_decide (is_Some (mu_cache_miss_input_tokens u)).

Inductive AgentError : Type :=
| InvalidRequest (message : text)
| Context (message : text)
| Model (message : text)
| Cancelled
| Tool (message : text)
| ApprovalDenied (message : text)
| Storage (message : text)
| Io (message : text)
| Internal (message : text)
| RecoveryRequired (message : text)
| StaleEpoch (expected current : N)
| EmptyCompactionSummary (usage : ModelUsage)
| FailedWithUsage (usage : ModelUsage) (source : AgentError)
| ModelProtocol (kind : ModelProtocolErrorKind) (message : text)
| ModelOutputLimit (reason : text)
| LocalResourceLimit (kind : LocalResourceLimitKind) (observed limit : N)
| Transport (retryable : bool) (message : text)
| TransportRetryAfter (retry_after_ms : N) (message : text).

#[export] Instance AgentError_eq_dec : EqDecision AgentError.
Proof.
  intros x. change (forall y, {x = y} + {x <> y}).
  induction x; intros []; try (right; congruence); decide equality; exact (decide (_ = _)).
Defined.

(** The [#[error("...")]] attributes. *)
Fixpoint display_error (e : AgentError) : text :=
  match e with
  | InvalidRequest m => txt "invalid request: " ++ m
  | Context m => txt "context error: " ++ m
  | Model m => txt "model error: " ++ m
  | Cancelled => txt "cancelled"
  | Tool m => txt "tool error: " ++ m
  | ApprovalDenied m => txt "approval denied: " ++ m
  | Storage m => txt "storage error: " ++ m
  | Io m => txt "I/O error: " ++ m
  | Internal m => txt "internal error: " ++ m
  | RecoveryRequired m => txt "recovery required: " ++ m
  | StaleEpoch expected current =>
      txt "operation epoch " ++ uint_text (N.to_uint expected) ++ txt " is stale; current Core epoch is "
      ++ uint_text (N.to_uint current)
  | EmptyCompactionSummary _ => txt "compaction model returned an empty summary"
  | FailedWithUsage _ source => txt "model call failed after a reported usage: " ++ display_error source
  | ModelProtocol MalformedEvent m => txt "model protocol error (malformed-event): " ++ m
  | ModelProtocol MalformedToolCall m => txt "model protocol error (malformed-tool-call): " ++ m
  | ModelOutputLimit reason => txt "model output limit reached: " ++ reason
  | LocalResourceLimit kind observed limit =>
      txt "local resource limit exceeded ("
      ++ match kind with
         | BufferedModelStreamChunks => txt "buffered-model-stream-chunks"
         | BufferedModelStreamBytes => txt "buffered-model-stream-bytes"
         end
      ++ txt "): observed=" ++ uint_text (N.to_uint observed) ++ txt ", limit=" ++ uint_text (N.to_uint limit)
  | Transport true m => txt "transport error (retryable=true): " ++ m
  | Transport false m => txt "transport error (retryable=false): " ++ m
  | TransportRetryAfter ms m =>
      txt "transport error (retryable=true, retry_after_ms=" ++ uint_text (N.to_uint ms) ++ txt "): " ++ m
  end.

Abbreviation AgentResult A := (result A AgentError).

(** ** Limits *)

Definition MAX_OPERATION_CALL_ID_BYTES : nat := 256.
Definition MAX_OPERATION_TOOL_NAME_BYTES : nat := 96.
Definition MAX_OPERATION_DIAGNOSTIC_BYTES : nat := N.to_nat 4000.
Definition MAX_OPERATION_EVIDENCE_BYTES : nat := 512.
Definition OPERATION_JOURNAL_VERSION : N := 1.
Definition MAX_OPERATION_JOURNAL_RECOVERY_RECORDS : N := 65536.
Definition MAX_AUTHORITY_JOURNAL_ANCESTORS : nat := 8.

(** ** Identity *)

Definition is_nil (uuid : N) : bool := (uuid =? 0)%N.
Definition opt_is_nil (uuid : option N) : bool := from_option is_nil false uuid.

Record ToolOperationIdentity : Type := {
  ti_run_id : N;
  ti_task_id : option N;
  ti_turn_id : N;
  ti_scope_id : option N;
  ti_operation_id : N;
  ti_generation : N;
  ti_call_id : text;
  ti_tool_name : text;
  ti_argument_digest : Digest;
}.

#[export] Instance ToolOperationIdentity_eq_dec : EqDecision ToolOperationIdentity.
Proof. solve_decision. Defined.

Definition identity_validate (i : ToolOperationIdentity) : result unit text :=
  if is_nil (ti_run_id i) || is_nil (ti_turn_id i) || is_nil (ti_operation_id i)
     || opt_is_nil (ti_task_id i) || opt_is_nil (ti_scope_id i)
  then Err (txt "operation identity contains a nil UUID")
  else if (ti_generation i =? 0)%N
  then Err (txt "operation identity generation must be non-zero")
  else
    let? _ := validate_bounded_text (txt "call_id") (ti_call_id i)
                MAX_OPERATION_CALL_ID_BYTES in
    validate_bounded_text (txt "tool_name") (ti_tool_name i)
      MAX_OPERATION_TOOL_NAME_BYTES.

(** ** Effects (agent-contracts/tool.rs) *)

Inductive EffectDurability : Type :=
| Durable
| DurabilityFailed (error : text).

#[export] Instance EffectDurability_eq_dec : EqDecision EffectDurability.
Proof. solve_decision. Defined.

Inductive EffectReceipt : Type :=
| ReceiptNotApplied (error : text)
| ReceiptApplied (durability : EffectDurability) (evidence : option text)
| ReceiptUnknown (error : text).

#[export] Instance EffectReceipt_eq_dec : EqDecision EffectReceipt.
Proof. solve_decision. Defined.

(** ** Terminals and lifecycle states *)

Inductive OperationTerminal : Type :=
| CompletedValue
| Refused (error : text)
| NotApplied (error : text)
| Applied (durability : EffectDurability) (evidence : option text)
| OutcomeUnknown (error : text)
| CancelledBeforeCommit.

#[export] Instance OperationTerminal_eq_dec : EqDecision OperationTerminal.
Proof. solve_decision. Defined.

Definition durability_validate (name : text) (d : EffectDurability) : result unit text :=
  match d with
  | DurabilityFailed error =>
      validate_bounded_text name error MAX_OPERATION_DIAGNOSTIC_BYTES
  | Durable => Ok tt
  end.

Definition evidence_validate (name : text) (evidence : option text) : result unit text :=
  match evidence with
  | Some evidence => validate_bounded_text name evidence MAX_OPERATION_EVIDENCE_BYTES
  | None => Ok tt
  end.

Definition terminal_validate (t : OperationTerminal) : result unit text :=
  match t with
  | Refused error | NotApplied error | OutcomeUnknown error =>
      validate_bounded_text (txt "operation error") error MAX_OPERATION_DIAGNOSTIC_BYTES
  | Applied durability evidence =>
      let? _ := durability_validate (txt "operation durability error") durability in
      evidence_validate (txt "operation evidence") evidence
  | CompletedValue | CancelledBeforeCommit => Ok tt
  end.

Inductive OperationState : Type :=
| Accepted
| Executing (effect_id : option N)
| Prepared (effect_id : N)
| CommitStarted (effect_id : N)
| Terminal (effect_id : option N) (terminal : OperationTerminal).

#[export] Instance OperationState_eq_dec : EqDecision OperationState.
Proof. solve_decision. Defined.

(** [matches!(state, OperationState::Terminal { .. })]. *)
Definition is_terminal (s : OperationState) : bool :=
  match s with Terminal _ _ => true | _ => false end.

Record OperationSnapshot : Type := {
  os_identity : ToolOperationIdentity;
  os_state : OperationState;
}.

#[export] Instance OperationSnapshot_eq_dec : EqDecision OperationSnapshot.
Proof. solve_decision. Defined.

Definition os_id (s : OperationSnapshot) : N := ti_operation_id (os_identity s).

Definition snapshot_validate (s : OperationSnapshot) : result unit text :=
  let? _ := identity_validate (os_identity s) in
  match os_state s with
  | Executing (Some effect_id) | Prepared effect_id | CommitStarted effect_id =>
      if is_nil effect_id then Err (txt "operation state contains a nil effect id") else Ok tt
  | Terminal effect_id terminal =>
      if opt_is_nil effect_id then Err (txt "operation terminal contains a nil effect id")
      else terminal_validate terminal
  | _ => Ok tt
  end.

Inductive OperationQueryResult : Type :=
| Found (snapshot : OperationSnapshot)
| ExpiredOrPossiblySeen
| NotFound.

#[export] Instance OperationQueryResult_eq_dec : EqDecision OperationQueryResult.
Proof. solve_decision. Defined.

Definition query_result_validate (q : OperationQueryResult) : result unit text :=
  match q with
  | Found snapshot => snapshot_validate snapshot
  | ExpiredOrPossiblySeen | NotFound => Ok tt
  end.

(** ** Reconciliation *)

Record OperationEffectContext : Type := {
  oc_identity : ToolOperationIdentity;
  oc_effect_id : N;
}.

Definition effect_context_validate (c : OperationEffectContext) : result unit text :=
  let? _ := identity_validate (oc_identity c) in
  if is_nil (oc_effect_id c)
  then Err (txt "operation effect context contains a nil effect id") else Ok tt.

Inductive EffectReconciliation : Type :=
| RecNotManaged
| RecNotApplied (evidence : option text)
| RecApplied (durability : EffectDurability) (evidence : option text)
| RecCompletedValue (evidence : option text)
| RecAmbiguous (reason : text).

#[export] Instance EffectReconciliation_eq_dec : EqDecision EffectReconciliation.
Proof. solve_decision. Defined.

Definition reconciliation_validate (r : EffectReconciliation) : result unit text :=
  match r with
  | RecNotManaged => Ok tt
  | RecNotApplied evidence | RecCompletedValue evidence =>
      evidence_validate (txt "effect reconciliation evidence") evidence
  | RecApplied durability evidence =>
      let? _ := durability_validate (txt "effect reconciliation durability error") durability in
      evidence_validate (txt "effect reconciliation evidence") evidence
  | RecAmbiguous reason =>
      validate_bounded_text (txt "effect reconciliation reason") reason
        MAX_OPERATION_DIAGNOSTIC_BYTES
  end.

Inductive AuthorityRecoveryStatus : Type :=
| Ready
| StatusRecoveryRequired (reason : text).

#[export] Instance AuthorityRecoveryStatus_eq_dec : EqDecision AuthorityRecoveryStatus.
Proof. solve_decision. Defined.

Definition recovery_status_validate (s : AuthorityRecoveryStatus) : result unit text :=
  match s with
  | Ready => Ok tt
  | StatusRecoveryRequired reason =>
      validate_bounded_text (txt "authority recovery reason") reason
        MAX_OPERATION_DIAGNOSTIC_BYTES
  end.

(** ** Journal vocabulary *)

Record AuthorityCheckpointMarker : Type := {
  acm_journal_id : N;
  acm_generation : N;
  acm_authority_epoch : N;
  acm_last_seq : N;
  acm_state_digest : Digest;
}.

#[export] Instance AuthorityCheckpointMarker_eq_dec : EqDecision AuthorityCheckpointMarker.
Proof. solve_decision. Defined.

Definition marker_validate (m : AuthorityCheckpointMarker) : result unit text :=
  if is_nil (acm_journal_id m)
  then Err (txt "authority checkpoint marker contains a nil journal id")
  else if (acm_generation m =? 0)%N
  then Err (txt "authority checkpoint marker generation must be non-zero")
  else if (acm_authority_epoch m =? 0)%N
  then Err (txt "authority checkpoint marker epoch must be non-zero")
  else Ok tt.

Inductive OperationJournalTransition : Type :=
| EpochAdvanced (from to : N)
| OperationUpsert (snapshot : OperationSnapshot)
| Compacted (previous : AuthorityCheckpointMarker).

#[export] Instance OperationJournalTransition_eq_dec : EqDecision OperationJournalTransition.
Proof. solve_decision. Defined.

Definition transition_validate (t : OperationJournalTransition) : result unit text :=
  match t with
  | EpochAdvanced from to =>
      if (from =? 0)%N || negb (bool_decide (checked_succ from = Some to))
      then Err (txt "authority epoch transition must advance one non-zero step")
      else Ok tt
  | OperationUpsert snapshot => snapshot_validate snapshot
  | Compacted previous => marker_validate previous
  end.

Record OperationJournalRecord : Type := {
  or_version : N;
  or_seq : N;
  or_transition : OperationJournalTransition;
}.

#[export] Instance OperationJournalRecord_eq_dec : EqDecision OperationJournalRecord.
Proof. solve_decision. Defined.

Definition record_validate (r : OperationJournalRecord) : result unit text :=
  if negb (or_version r =? OPERATION_JOURNAL_VERSION)%N
  then Err (txt "unsupported operation journal version")
  else if (or_seq r =? 0)%N
  then Err (txt "operation journal sequence must be non-zero")
  else transition_validate (or_transition r).

Record OperationJournalRecovery : Type := {
  rv_last_seq : N;
  rv_authority_epoch : N;
  rv_operations : list OperationSnapshot;
  rv_truncated_tail : bool;
  rv_compacted_from : option AuthorityCheckpointMarker;
}.

#[export] Instance OperationJournalRecovery_eq_dec : EqDecision OperationJournalRecovery.
Proof. solve_decision. Defined.

(** [OperationJournalRecovery::default]. *)
Definition recovery_default : OperationJournalRecovery := {|
  rv_last_seq := 0;
  rv_authority_epoch := 1;
  rv_operations := [];
  rv_truncated_tail := false;
  rv_compacted_from := None;
|}.

(** ** Lemmas *)

Lemma max_diagnostic_ge : 11 <= MAX_OPERATION_DIAGNOSTIC_BYTES.
Proof. by apply Nat.leb_le. Qed.

Lemma max_evidence_ge : 11 <= MAX_OPERATION_EVIDENCE_BYTES.
Proof. by apply Nat.leb_le. Qed.

#[export] Hint Resolve max_diagnostic_ge max_evidence_ge : agent.

Lemma epoch_transition_valid from to :
  transition_validate (EpochAdvanced from to) = Ok tt <->
  (from <> 0 /\ to = from + 1 /\ from < u64_max)%N.
Proof.
  cbn. destruct (N.eqb_spec from 0); cbn.
  - naive_solver.
  - case_bool_decide as E; cbn; rewrite checked_succ_Some in E; naive_solver.
Qed.

Lemma identity_validate_id i : identity_validate i = Ok tt -> ti_operation_id i <> 0%N.
Proof.
  unfold identity_validate, is_nil. destruct (_ || _) eqn:E; [done|]. intros _.
  rewrite !orb_false_iff in E. destruct_and!. by apply N.eqb_neq.
Qed.

Lemma snapshot_validate_identity s :
  snapshot_validate s = Ok tt -> identity_validate (os_identity s) = Ok tt.
Proof. unfold snapshot_validate, rbind. case_match; [by destruct a|done]. Qed.
