(* ===== verification/Journal.v ===== *)
(** The authority journal at the level of records: which lifecycle transition
    a record may make ([valid_recovered_transition]), the fold that rebuilds
    the authority state from a record sequence ([fold_operation_record]), the
    cached validation and application that the writer runs before and after
    each append ([validate_cached_record], [apply_cached_record]), and the
    [OperationJournal] interface (agent-contracts/operation.rs) with the
    contract that Core relies on. The folds are those of agent-storage/lib.rs. *)

From stdpp Require Export sorting fin_maps.
From S2P Require Import Prelude Text Digest Operation.

(** ** Lifecycle order *)

Definition valid_recovered_transition (previous next : OperationState) : bool :=
  let accepted :=
    match previous, next with
    | Accepted, Executing _ => true
    | Accepted, Terminal None _ => true
    | _, _ => false
    end in
  let executing_prepared :=
    match previous, next with
    | Executing (Some l), Prepared r => bool_decide (l = r)
    | _, _ => false
    end in
  let executing_terminal :=
    match previous, next with
    | Executing None, Terminal None _ => true
    | Executing (Some _), Terminal None CompletedValue => true
    | Executing (Some l), Terminal (Some r) _ => bool_decide (l = r)
    | _, _ => false
    end in
  let prepared_commit :=
    match previous, next with
    | Prepared l, CommitStarted r => bool_decide (l = r)
    | _, _ => false
    end in
  accepted || executing_prepared || executing_terminal || prepared_commit
  || match previous, next with
     | Prepared l, Terminal (Some r) _ => bool_decide (l = r)
     | _, _ => false
     end
  || match previous, next with
     | CommitStarted l, Terminal (Some r) _ => bool_decide (l = r)
     | _, _ => false
     end
  || bool_decide (previous = next).

(** The states a first record may carry in an uncompacted WAL. *)
Definition first_record_state (s : OperationState) : bool :=
  match s with
  | Accepted | Terminal _ CancelledBeforeCommit => true
  | _ => false
  end.

(** ** Recovery fold *)

Definition set_epoch (rv : OperationJournalRecovery) (e : N) : OperationJournalRecovery :=
  {| rv_last_seq := rv_last_seq rv; rv_authority_epoch := e;
     rv_operations := rv_operations rv; rv_truncated_tail := rv_truncated_tail rv;
     rv_compacted_from := rv_compacted_from rv |}.

Definition set_last_seq (rv : OperationJournalRecovery) (n : N) : OperationJournalRecovery :=
  {| rv_last_seq := n; rv_authority_epoch := rv_authority_epoch rv;
     rv_operations := rv_operations rv; rv_truncated_tail := rv_truncated_tail rv;
     rv_compacted_from := rv_compacted_from rv |}.

Definition set_operations (rv : OperationJournalRecovery) (l : list OperationSnapshot) :
  OperationJournalRecovery :=
  {| rv_last_seq := rv_last_seq rv; rv_authority_epoch := rv_authority_epoch rv;
     rv_operations := l; rv_truncated_tail := rv_truncated_tail rv;
     rv_compacted_from := rv_compacted_from rv |}.

Definition set_truncated (rv : OperationJournalRecovery) : OperationJournalRecovery :=
  {| rv_last_seq := rv_last_seq rv; rv_authority_epoch := rv_authority_epoch rv;
     rv_operations := rv_operations rv; rv_truncated_tail := true;
     rv_compacted_from := rv_compacted_from rv |}.

(** Install a compaction baseline: the epoch and the provenance. *)
Definition set_baseline (rv : OperationJournalRecovery) (m : AuthorityCheckpointMarker) :
  OperationJournalRecovery :=
  {| rv_last_seq := rv_last_seq rv; rv_authority_epoch := acm_authority_epoch m;
     rv_operations := rv_operations rv; rv_truncated_tail := rv_truncated_tail rv;
     rv_compacted_from := Some m |}.

Abbreviation OpsMap := (gmap N OperationSnapshot).

Definition fold_operation_record (rv : OperationJournalRecovery) (operations : OpsMap)
    (record : OperationJournalRecord) : result (OperationJournalRecovery * OpsMap) text :=
  match or_transition record with
  | EpochAdvanced from to =>
      if negb (rv_authority_epoch rv =? from)%N then Err (txt "authority epoch gap")
      else Ok (set_epoch rv to, operations)
  | OperationUpsert snapshot =>
      match operations !! os_id snapshot with
      | Some previous =>
          if negb (bool_decide (os_identity previous = os_identity snapshot))
             || negb (valid_recovered_transition (os_state previous) (os_state snapshot))
          then Err (txt "operation identity/state transition is not monotonic")
          else Ok (rv, <[os_id snapshot := snapshot]> operations)
      | None =>
          if bool_decide (rv_compacted_from rv = None)
             && negb (first_record_state (os_state snapshot))
          then Err (txt "operation first record is not Accepted or a cancellation reservation")
          else Ok (rv, <[os_id snapshot := snapshot]> operations)
      end
  | Compacted previous =>
      if negb (rv_last_seq rv =? 0)%N || negb (bool_decide (rv_compacted_from rv = None))
      then Err (txt "Compacted baseline must be the first record of a compacted WAL")
      else
        let? _ := marker_validate previous in
        Ok (set_baseline rv previous, operations)
  end.

(** One iteration of the loop of [recover_operation_file_until] after the
    frame has been parsed: validation, sequence check, fold. *)
Definition recover_record (st : OperationJournalRecovery * OpsMap)
    (record : OperationJournalRecord) : AgentResult (OperationJournalRecovery * OpsMap) :=
  let '(rv, operations) := st in
  let? _ := map_err RecoveryRequired (record_validate record) in
  match checked_succ (rv_last_seq rv) with
  | None => Err (RecoveryRequired (txt "operation journal sequence overflow"))
  | Some expected =>
      if negb (or_seq record =? expected)%N
      then Err (RecoveryRequired (txt "operation journal is corrupt: non-contiguous sequence"))
      else
        let? st' := map_err RecoveryRequired (fold_operation_record rv operations record) in
        let rv' := set_last_seq st'.1 (or_seq record) in
        if (MAX_OPERATION_JOURNAL_RECOVERY_RECORDS <? rv_last_seq rv')%N
        then Err (RecoveryRequired
                    (txt "operation journal exceeds the record recovery limit"))
        else Ok (rv', st'.2)
  end.

(** [sort_by_key(operation_id)]: the key is the UUID (or its fixed-width
    hexadecimal text, which orders the same way). *)
Definition id_le (a b : OperationSnapshot) : Prop := (os_id a <= os_id b)%N.
#[export] Instance id_le_dec a b : Decision (id_le a b).
Proof. unfold id_le. apply _. Defined.
Definition sort_by_id (l : list OperationSnapshot) : list OperationSnapshot :=
  merge_sort id_le l.

(** The tail of [recover_operation_file_until]. *)
Definition recovery_finish (st : OperationJournalRecovery * OpsMap) : OperationJournalRecovery :=
  set_operations st.1 (sort_by_id (map_to_list st.2).*2).

(** ** Cached validation and application *)

Definition validate_cached_record (rv : OperationJournalRecovery) (indexes : gmap N nat)
    (record : OperationJournalRecord) : result unit text :=
  match checked_succ (rv_last_seq rv) with
  | None => Err (txt "operation journal sequence overflow")
  | Some expected =>
      if negb (or_seq record =? expected)%N
      then Err (txt "operation journal sequence is not contiguous")
      else
        match or_transition record with
        | EpochAdvanced from _ =>
            if negb (rv_authority_epoch rv =? from)%N then Err (txt "authority epoch gap")
            else Ok tt
        | OperationUpsert snapshot =>
            match indexes !! os_id snapshot with
            | Some index =>
                match rv_operations rv !! index with
                | Some previous =>
                    if negb (bool_decide (os_identity previous = os_identity snapshot))
                       || negb (valid_recovered_transition (os_state previous)
                                  (os_state snapshot))
                    then Err (txt "operation identity/state transition is not monotonic")
                    else Ok tt
                | None => Err (txt "index out of bounds")
                end
            | None =>
                if negb (first_record_state (os_state snapshot))
                then Err (txt
                  "operation first record is not Accepted or a cancellation reservation")
                else Ok tt
            end
        | Compacted _ =>
            Err (txt "Compacted baseline can only be written by journal compaction")
        end
  end.

Definition apply_cached_record (rv : OperationJournalRecovery) (indexes : gmap N nat)
    (record : OperationJournalRecord) : OperationJournalRecovery * gmap N nat :=
  let '(rv', indexes') :=
    match or_transition record with
    | EpochAdvanced _ to => (set_epoch rv to, indexes)
    | OperationUpsert snapshot =>
        match indexes !! os_id snapshot with
        | Some index =>
            (set_operations rv (<[index := snapshot]> (rv_operations rv)), indexes)
        | None =>
            (set_operations rv (rv_operations rv ++ [snapshot]),
             <[os_id snapshot := length (rv_operations rv)]> indexes)
        end
    | Compacted previous => (set_baseline rv previous, indexes)
    end in
  (set_last_seq rv' (or_seq record), indexes').

(** The index the writer builds over a recovered operation list:
    [operations.iter().enumerate().map(|(index, s)| (s.operation_id, index))]. *)
Definition build_indexes (l : list OperationSnapshot) : gmap N nat :=
  list_to_map (reverse (imap (fun index s => (os_id s, index)) l)).

(** ** The abstract authority state

    What a journal durably promises: an authority epoch and one snapshot per
    operation id. A transition is admissible when it advances the current epoch
    or moves one operation forward; applying it is an insert. *)

Record Truth : Type := { tr_epoch : N; tr_ops : OpsMap }.

Definition ops_map (l : list OperationSnapshot) : OpsMap :=
  list_to_map ((fun s => (os_id s, s)) <$> l).

Arguments ops_map : simpl never.

Definition truth_of (rv : OperationJournalRecovery) : Truth :=
  {| tr_epoch := rv_authority_epoch rv; tr_ops := ops_map (rv_operations rv) |}.

Definition admissible (t : Truth) (tr : OperationJournalTransition) : Prop :=
  match tr with
  | EpochAdvanced from _ => tr_epoch t = from
  | OperationUpsert s =>
      match tr_ops t !! os_id s with
      | Some p =>
          os_identity p = os_identity s /\
          valid_recovered_transition (os_state p) (os_state s) = true
      | None => first_record_state (os_state s) = true
      end
  | Compacted _ => False
  end.

Definition truth_apply (t : Truth) (tr : OperationJournalTransition) : Truth :=
  match tr with
  | EpochAdvanced _ to => {| tr_epoch := to; tr_ops := tr_ops t |}
  | OperationUpsert s =>
      {| tr_epoch := tr_epoch t; tr_ops := <[os_id s := s]> (tr_ops t) |}
  | Compacted m => {| tr_epoch := acm_authority_epoch m; tr_ops := tr_ops t |}
  end.

(** Each operation id is stored under itself. *)
Definition ops_wf (m : OpsMap) : Prop := forall id s, m !! id = Some s -> os_id s = id.

(** ** The journal interface *)

Class OperationJournal (J : Type) := {
  append_and_sync : OperationJournalTransition -> M J AgentError OperationJournalRecord;
  recover_journal : J -> AgentResult OperationJournalRecovery;
  journal_marker : J -> AgentResult AuthorityCheckpointMarker;
  journal_validate_marker : AuthorityCheckpointMarker -> J -> AgentResult unit;
  journal_compact : M J AgentError AuthorityCheckpointMarker;
}.

(** The default bodies of the trait's optional methods. *)
Definition default_authority_checkpoint_marker : AgentResult AuthorityCheckpointMarker :=
  Err (RecoveryRequired
    (txt "operation journal does not expose a durable authority checkpoint marker")).

Definition default_validate_authority_checkpoint_marker
    (marker : AgentResult AuthorityCheckpointMarker) (expected : AuthorityCheckpointMarker) :
    AgentResult unit :=
  let? _ := map_err InvalidRequest (marker_validate expected) in
  let? actual := marker in
  if bool_decide (actual = expected) then Ok tt
  else Err (RecoveryRequired
    (txt "authority checkpoint marker does not match current durable authority state")).

Definition default_compact : AgentResult AuthorityCheckpointMarker :=
  Err (Storage (txt "operation journal does not support compaction")).

(** What Core relies on: an acknowledged append was admissible and is exactly
    what the journal now promises; a refused one changed nothing it promises;
    recovery returns what it promises, one snapshot per id; compaction forgets
    history, never state. *)
Class OperationJournalLaws (J : Type) `{OperationJournal J} := {
  journal_inv : J -> Prop;
  journal_truth : J -> Truth;
  journal_truth_wf : forall j, journal_inv j -> ops_wf (tr_ops (journal_truth j));
  append_ok : forall t j r j',
    journal_inv j -> append_and_sync t j = (Ok r, j') ->
    journal_inv j' /\ transition_validate t = Ok tt /\ admissible (journal_truth j) t /\
    journal_truth j' = truth_apply (journal_truth j) t /\ or_transition r = t;
  append_err : forall t j e j',
    journal_inv j -> append_and_sync t j = (Err e, j') ->
    journal_inv j' /\ journal_truth j' = journal_truth j;
  recover_ok : forall j rv,
    journal_inv j -> recover_journal j = Ok rv ->
    truth_of rv = journal_truth j /\ NoDup (os_id <$> rv_operations rv);
  compact_ok : forall j r j',
    journal_inv j -> journal_compact j = (r, j') ->
    journal_inv j' /\ journal_truth j' = journal_truth j;
}.

(** ** Lemmas: the lifecycle order *)

(** Progress of a lifecycle state; [Terminal] is last. *)
Definition rank (s : OperationState) : nat :=
  match s with
  | Accepted => 0 | Executing _ => 1 | Prepared _ => 2 | CommitStarted _ => 3
  | Terminal _ _ => 4
  end.

(** The effect a state has reserved, prepared, started or settled. *)
Definition effect_of (s : OperationState) : option N :=
  match s with
  | Accepted => None
  | Executing e => e
  | Prepared e | CommitStarted e => Some e
  | Terminal e _ => e
  end.

Lemma transition_refl s : valid_recovered_transition s s = true.
Proof. unfold valid_recovered_transition. rewrite !orb_true_iff. right. by rewrite bool_decide_eq_true. Qed.

Lemma transition_cases p n :
  valid_recovered_transition p n = true ->
  p = n \/ (rank p < rank n /\
            (effect_of p = None \/ effect_of n = effect_of p \/
             n = Terminal None CompletedValue)).
Proof.
  unfold valid_recovered_transition. rewrite !orb_true_iff, !bool_decide_eq_true.
  intros [[[[[[H|H]|H]|H]|H]|H]|H]; [right..|by left];
    destruct p, n; try done; cbn in *; repeat case_match; simplify_eq;
    rewrite ?bool_decide_eq_true in *; subst; split; naive_solver lia.
Qed.

Lemma transition_rank p n : valid_recovered_transition p n = true -> rank p <= rank n.
Proof. intros [->|[? _]]%transition_cases; lia. Qed.

Lemma transition_terminal p n :
  valid_recovered_transition p n = true -> is_terminal p = true -> n = p.
Proof. intros [->|[? _]]%transition_cases; [done|]. destruct p, n; cbn in *; lia || done. Qed.

(** ** Lemmas: lists of snapshots, their index and their map *)

Definition indexed (l : list OperationSnapshot) (idx : gmap N nat) : Prop :=
  forall id i, idx !! id = Some i <-> exists s, l !! i = Some s /\ os_id s = id.

Lemma indexed_NoDup l idx : indexed l idx -> NoDup (os_id <$> l).
Proof.
  intros Hidx. apply NoDup_alt. intros i j id. rewrite !list_lookup_fmap.
  intros (s & Hs & Hi)%fmap_Some (s' & Hs' & Hj)%fmap_Some.
  assert (idx !! id = Some i) by (apply Hidx; eauto).
  assert (idx !! id = Some j) by (apply Hidx; eauto). congruence.
Qed.

Lemma ops_map_lookup l id s :
  NoDup (os_id <$> l) -> ops_map l !! id = Some s <-> s ∈ l /\ os_id s = id.
Proof.
  intros Hnd. unfold ops_map. rewrite <- elem_of_list_to_map.
  - rewrite list_elem_of_fmap. naive_solver.
  - by rewrite <- list_fmap_compose.
Qed.

Lemma ops_map_lookup_None l id :
  NoDup (os_id <$> l) -> ops_map l !! id = None <-> id ∉ os_id <$> l.
Proof.
  intros Hnd. unfold ops_map. rewrite <- not_elem_of_list_to_map.
  by rewrite <- list_fmap_compose.
Qed.

Lemma ops_map_wf l : NoDup (os_id <$> l) -> ops_wf (ops_map l).
Proof. intros Hnd id s Hs. by apply ops_map_lookup in Hs as [_ ?]. Qed.

Lemma map_to_list_snd_ids_of (m : OpsMap) :
  ops_wf m -> os_id <$> (map_to_list m).*2 = (map_to_list m).*1.
Proof.
  intros Hwf. rewrite <- list_fmap_compose. apply list_fmap_ext.
  intros i [id s] Hi%list_elem_of_lookup_2. cbn. apply elem_of_map_to_list in Hi. by apply Hwf.
Qed.

Lemma ops_map_perm l l' : NoDup (os_id <$> l) -> l ≡ₚ l' -> ops_map l = ops_map l'.
Proof.
  intros Hnd Hp. apply list_to_map_proper; [|by rewrite Hp].
  by rewrite <- list_fmap_compose.
Qed.

Lemma indexed_map l idx id :
  indexed l idx ->
  ops_map l !! id = i ← idx !! id; l !! i.
Proof.
  intros Hidx. pose proof (indexed_NoDup _ _ Hidx) as Hnd.
  destruct (idx !! id) as [i|] eqn:E; cbn.
  - destruct (proj1 (Hidx _ _) E) as (s & Hs & <-). rewrite Hs.
    apply ops_map_lookup; [done|]. split; [|done]. by eapply list_elem_of_lookup_2.
  - apply ops_map_lookup_None; [done|]. intros (s & -> & Hs)%list_elem_of_fmap.
    apply list_elem_of_lookup_1 in Hs as [i Hi].
    assert (idx !! os_id s = Some i) by (apply Hidx; eauto). congruence.
Qed.

Lemma build_indexes_indexed l : NoDup (os_id <$> l) -> indexed l (build_indexes l).
Proof.
  intros Hnd id i. unfold build_indexes.
  rewrite <- elem_of_list_to_map.
  - rewrite elem_of_reverse, elem_of_lookup_imap. naive_solver.
  - rewrite fmap_reverse, reverse_Permutation.
    replace ((imap (fun index s => (os_id s, index)) l).*1) with (os_id <$> l); [done|].
    rewrite fmap_imap. clear. induction l using rev_ind; [done|].
    rewrite fmap_app, imap_app, IHl. done.
Qed.

Lemma indexed_replace l idx i p s :
  indexed l idx -> l !! i = Some p -> os_id p = os_id s -> indexed (<[i:=s]> l) idx.
Proof.
  intros Hidx Hi Hid id j. rewrite (Hidx id j). destruct (decide (i = j)) as [<-|Hne].
  - rewrite list_lookup_insert_eq by (by eapply lookup_lt_Some). naive_solver.
  - by rewrite list_lookup_insert_ne by done.
Qed.

Lemma indexed_snoc l idx s :
  indexed l idx -> idx !! os_id s = None ->
  indexed (l ++ [s]) (<[os_id s := length l]> idx).
Proof.
  intros Hidx Hnone id j. destruct (decide (id = os_id s)) as [->|Hne].
  - rewrite lookup_insert_eq. split.
    + intros [= <-]. exists s. by rewrite list_lookup_middle.
    + intros (s' & Hs' & Hid). apply lookup_snoc_Some in Hs' as [[Hlt Hs']|[-> <-]]; [|done].
      assert (idx !! os_id s = Some j) by (apply Hidx; eauto). congruence.
  - rewrite lookup_insert_ne by done. rewrite (Hidx id j). split; intros (s' & Hs' & <-).
    + exists s'. split; [|done]. by apply lookup_app_l_Some.
    + exists s'. split; [|done]. apply lookup_snoc_Some in Hs' as [[_ ?]|[_ <-]]; done.
Qed.

Lemma ops_map_replace l i p s :
  NoDup (os_id <$> l) -> l !! i = Some p -> os_id p = os_id s ->
  ops_map (<[i:=s]> l) = <[os_id s := s]> (ops_map l).
Proof.
  intros Hnd Hi Hid.
  assert (Hids : os_id <$> <[i:=s]> l = os_id <$> l).
  { rewrite list_fmap_insert. apply list_insert_id. by rewrite list_lookup_fmap, Hi, <- Hid. }
  apply map_eq. intros id. apply option_eq. intros x.
  rewrite ops_map_lookup by (by rewrite Hids).
  rewrite lookup_insert_Some, ops_map_lookup by done.
  rewrite !list_elem_of_lookup. split.
  - intros [[j Hj] <-]. apply list_lookup_insert_Some in Hj as [(<- & <- & _)|[Hne Hj]].
    + by left.
    + right. split; [|eauto]. intros Heq.
      apply Hne. apply (NoDup_lookup (os_id <$> l) i j (os_id s)); [done| |].
      * rewrite list_lookup_fmap, Hi. cbn. by rewrite Hid.
      * rewrite list_lookup_fmap, Hj. cbn. by rewrite Heq.
  - intros [[<- <-]|(Hne & [j Hj] & <-)].
    + split; [|done]. exists i. apply list_lookup_insert_eq. by eapply lookup_lt_Some.
    + split; [|done]. exists j. rewrite list_lookup_insert_ne; [done|]. intros ->.
      congruence.
Qed.

Lemma ops_map_snoc l s :
  os_id s ∉ os_id <$> l -> ops_map (l ++ [s]) = <[os_id s := s]> (ops_map l).
Proof.
  intros Hni. unfold ops_map. rewrite fmap_app. cbn.
  rewrite list_to_map_snoc; [done|]. by rewrite <- list_fmap_compose.
Qed.

(** ** The cached path follows the recovery fold *)

(** The writer's cache: an index over its operation list. *)
Definition cache_ok (rv : OperationJournalRecovery) (idx : gmap N nat) : Prop :=
  indexed (rv_operations rv) idx.

Lemma validate_cached_admissible rv idx r :
  cache_ok rv idx -> validate_cached_record rv idx r = Ok tt ->
  admissible (truth_of rv) (or_transition r) /\
  checked_succ (rv_last_seq rv) = Some (or_seq r).
Proof.
  unfold validate_cached_record, admissible. intros Hc H.
  destruct (checked_succ _) as [n|]; [|done].
  destruct (N.eqb_spec (or_seq r) n) as [->|]; [|done]. cbn in H. split; [|done].
  destruct (or_transition r) as [from to|s|m]; [|cbn|done].
  - destruct (N.eqb_spec (rv_authority_epoch rv) from); done.
  - rewrite (indexed_map _ idx) by done.
    destruct (idx !! os_id s) as [i|]; cbn; [|by destruct (first_record_state _)].
    destruct (rv_operations rv !! i) as [p|]; [|done].
    destruct (bool_decide _) eqn:E; [|done]. apply bool_decide_eq_true in E.
    by destruct (valid_recovered_transition _ _).
Qed.

Lemma apply_cached_ok rv idx r rv' idx' :
  cache_ok rv idx -> validate_cached_record rv idx r = Ok tt ->
  apply_cached_record rv idx r = (rv', idx') ->
  cache_ok rv' idx' /\ truth_of rv' = truth_apply (truth_of rv) (or_transition r) /\
  rv_last_seq rv' = or_seq r /\ rv_truncated_tail rv' = rv_truncated_tail rv /\
  rv_compacted_from rv' = rv_compacted_from rv.
Proof.
  unfold cache_ok. intros Hc Hv Ha.
  pose proof (indexed_NoDup _ _ Hc) as Hnd.
  unfold validate_cached_record in Hv. unfold apply_cached_record in Ha.
  destruct (checked_succ _) as [n|]; [|done]. destruct (negb _) in Hv; [done|].
  destruct (or_transition r) as [from to|s|m]; [by simplify_eq/=| |done].
  destruct (idx !! os_id s) as [i|] eqn:Ei; simplify_eq/=.
  - destruct (rv_operations rv !! i) as [p|] eqn:Ep; [|done].
    destruct (proj1 (Hc _ _) Ei) as (p' & Ep' & Hid). simplify_eq.
    split_and!; [by eapply indexed_replace| |done..].
    unfold truth_of; cbn. by rewrite (ops_map_replace _ i p).
  - split_and!; [by apply indexed_snoc| |done..].
    unfold truth_of; cbn. rewrite ops_map_snoc; [done|].
    apply ops_map_lookup_None; [done|]. by rewrite (indexed_map _ idx), Ei.
Qed.

(** The record the writer accepted is folded the same way at recovery. *)
Lemma cached_fold_agree rv idx r rv' idx' rec :
  cache_ok rv idx -> validate_cached_record rv idx r = Ok tt ->
  apply_cached_record rv idx r = (rv', idx') ->
  rv_authority_epoch rec = rv_authority_epoch rv ->
  exists rec',
    fold_operation_record rec (ops_map (rv_operations rv)) r =
      Ok (rec', ops_map (rv_operations rv')) /\
    rv_authority_epoch rec' = rv_authority_epoch rv' /\
    rv_last_seq rec' = rv_last_seq rec /\
    rv_operations rec' = rv_operations rec /\
    rv_truncated_tail rec' = rv_truncated_tail rec /\
    rv_compacted_from rec' = rv_compacted_from rec.
Proof.
  intros Hc Hv Ha He.
  destruct (validate_cached_admissible _ _ _ Hc Hv) as [Hadm _].
  destruct (apply_cached_ok _ _ _ _ _ Hc Hv Ha) as (_ & Ht & _).
  unfold truth_of in Ht. unfold fold_operation_record, admissible in *.
  destruct (or_transition r) as [from to|s|m]; cbn in *; [| |done]; injection Ht as Hte Hto.
  - subst from. rewrite He, N.eqb_refl. cbn. eexists. split; [by rewrite Hto|]. by cbn.
  - rewrite Hto, Hte. destruct (ops_map _ !! _) as [p|].
    + destruct Hadm as [Hid Hval]. rewrite bool_decide_eq_true_2, Hval by done. cbn.
      by eexists.
    + rewrite Hadm, andb_false_r. by eexists.
Qed.

(** ** Progress of the truth

    [truth_le t t']: [t'] knows every operation [t] knows, under the same
    identity and at least as far in its lifecycle; a record that did not move on is
    the same, as every terminal is, and the epoch did not go back. *)
Definition truth_le (t t' : Truth) : Prop :=
  (tr_epoch t <= tr_epoch t')%N /\
  forall id s, tr_ops t !! id = Some s ->
    exists s', tr_ops t' !! id = Some s' /\ os_identity s' = os_identity s /\
      rank (os_state s) <= rank (os_state s') /\
      (rank (os_state s') <= rank (os_state s) -> s' = s).

Lemma rank_terminal p n : is_terminal p = true -> rank n <= rank p.
Proof. destruct p, n; cbn; (done || lia). Qed.

#[export] Instance truth_le_preorder : PreOrder truth_le.
Proof.
  split.
  - intros t. split; [done|]. intros id s Hs. exists s. done.
  - intros t1 t2 t3 [He1 H1] [He2 H2]. split; [lia|]. intros id s Hs.
    destruct (H1 id s Hs) as (s2 & Hs2 & Hi2 & Hr2 & Ht2).
    destruct (H2 id s2 Hs2) as (s3 & Hs3 & Hi3 & Hr3 & Ht3).
    exists s3. split; [done|]. split; [congruence|]. split; [lia|].
    intros Hr. rewrite (Ht3 ltac:(lia)). apply Ht2. lia.
Qed.

Lemma admissible_truth_le t tr :
  transition_validate tr = Ok tt -> admissible t tr -> truth_le t (truth_apply t tr).
Proof.
  intros Hv Ha. destruct tr as [from to|s|m]; [| |done]; cbn in *.
  - split; [|intros id s Hs; by exists s]. cbn. destruct (_ || _) eqn:E in Hv; [done|].
    apply orb_false_iff in E as [_ E]. apply negb_false_iff, bool_decide_eq_true in E.
    apply checked_succ_Some in E as [-> _]. lia.
  - split; [done|]. cbn. intros id p Hp. destruct (decide (os_id s = id)) as [<-|Hne].
    + rewrite lookup_insert_eq. exists s. rewrite Hp in Ha. destruct Ha as [Hid Hval].
      split; [done|]. split; [done|]. split; [by apply transition_rank|].
      intros Hr. destruct (transition_cases _ _ Hval) as [Hst|[Hlt _]]; [|lia].
      destruct s, p. cbn in *. congruence.
    + rewrite lookup_insert_ne by done. by exists p.
Qed.
