(* ===== verification/Wal.v ===== *)
(** The authority write-ahead log of agent-storage/lib.rs at the level of
    bytes, with the proof that recovery of any bytes ends: frames, the recovery loop with its torn-tail repair, and the append
    of one frame with its failure phases.

    JSON text and SHA-256 come from the [serde_json] and [sha2] crates. They are
    the operations of the class [Codec]; what the log relies on of them is the
    class [CodecLaws]: a serialized frame parses back to itself and contains no
    newline byte (compact JSON escapes control characters), and the only part of
    its length that depends on the sequence number is the number's decimal
    numeral, which never shrinks as the number grows (a SHA-256 digest always
    has 32 bytes). *)

From S2P Require Import Prelude Text Digest Operation Journal.

Abbreviation bytes := (list N).

Definition NEWLINE : N := 10.
Definition MAX_OPERATION_JOURNAL_FRAME_BYTES : nat := N.to_nat 16384.
Definition MAX_OPERATION_JOURNAL_FILE_BYTES : N := 268435456.
Definition AUTHORITY_JOURNAL_METADATA_VERSION : N := 1.
Definition AUTHORITY_JOURNAL_GENERATION : N := 1.
Definition MAX_AUTHORITY_JOURNAL_METADATA_BYTES : N := 16384.

Record StoredOperationFrame : Type := {
  sf_record : OperationJournalRecord;
  sf_checksum : text;
}.

Record AuthorityJournalMetadata : Type := {
  md_version : N;
  md_journal_id : N;
  md_generation : N;
  md_ancestors : list AuthorityCheckpointMarker;
}.

#[export] Instance AuthorityJournalMetadata_eq_dec : EqDecision AuthorityJournalMetadata.
Proof. solve_decision. Defined.

Record StoredAuthorityJournalMetadata : Type := {
  sm_metadata : AuthorityJournalMetadata;
  sm_checksum : text;
}.

(** The third-party serializers and hash. *)
Class Codec := {
  sha256 : bytes -> Digest;
  record_to_vec : OperationJournalRecord -> bytes;
  frame_to_vec : StoredOperationFrame -> bytes;
  frame_from_slice : bytes -> option StoredOperationFrame;
  metadata_to_vec : AuthorityJournalMetadata -> bytes;
  stored_metadata_to_vec : StoredAuthorityJournalMetadata -> bytes;
  stored_metadata_from_slice : bytes -> option StoredAuthorityJournalMetadata;
  truth_to_vec : N -> N -> list OperationSnapshot -> bytes;
}.

Class CodecLaws `{CD : Codec} := {
  frame_roundtrip : forall f, frame_from_slice (frame_to_vec f) = Some f;
  frame_no_newline : forall f, NEWLINE ∉ frame_to_vec f;
  metadata_roundtrip : forall m, stored_metadata_from_slice (stored_metadata_to_vec m) = Some m;
  metadata_nonempty : forall m, stored_metadata_to_vec m <> [];
  frame_size : exists (c : N -> OperationJournalTransition -> nat) (d : N -> nat),
    (forall n n', (n <= n')%N -> d n <= d n') /\
    forall r, length (frame_to_vec {| sf_record := r;
        sf_checksum := digest_display (sha256 (record_to_vec r)) |}) =
      c (or_version r) (or_transition r) + d (or_seq r);
}.

Section wal.
Context `{CD : Codec}.

(** [checksum_hex]: the digest in lowercase hexadecimal. *)
Definition checksum_hex (payload : bytes) : text := digest_display (sha256 payload).

Definition corrupt (detail : text) : AgentError :=
  RecoveryRequired (txt "operation journal is corrupt: " ++ detail).

(** The frame [append_operation_record] and [write_operation_records] build. *)
Definition stored_frame (record : OperationJournalRecord) : StoredOperationFrame :=
  {| sf_record := record; sf_checksum := checksum_hex (record_to_vec record) |}.

Definition encode_record (record : OperationJournalRecord) : bytes :=
  frame_to_vec (stored_frame record).

Definition frame_line (record : OperationJournalRecord) : bytes :=
  encode_record record ++ [NEWLINE].

(** ** Recovery *)

(** [reader.take(limit).read_until(b'\n')]: the bytes read and the rest. *)
Fixpoint read_until (limit : nat) (input : bytes) : bytes * bytes :=
  match limit, input with
  | O, _ => ([], input)
  | _, [] => ([], [])
  | S limit', b :: input' =>
      if decide (b = NEWLINE) then ([b], input')
      else let '(line, rest) := read_until limit' input' in (b :: line, rest)
  end.

(** [bytes.ends_with(b"\n")]. *)
Definition ends_with_newline (line : bytes) : bool := bool_decide (last line = Some NEWLINE).

(** [serde_json::from_slice] of a frame and its checksum comparison. *)
Definition parse_frame (line : bytes) : AgentResult OperationJournalRecord :=
  match frame_from_slice line with
  | None => Err (corrupt (txt "invalid JSON"))
  | Some frame =>
      if bool_decide (sf_checksum frame = checksum_hex (record_to_vec (sf_record frame)))
      then Ok (sf_record frame)
      else Err (corrupt (txt "checksum mismatch"))
  end.

Record LoopState : Type := {
  lp_state : OperationJournalRecovery * OpsMap;
  lp_offset : nat;
  lp_last_good : nat;
}.

(** The loop of [recover_operation_file_until]. Each iteration consumes at
    least one byte, so the file's length is enough fuel; running out would
    be the error [Internal]. *)
Fixpoint recover_loop (fuel : nat) (size : nat) (stop_after : option N) (input : bytes)
    (lp : LoopState) : AgentResult LoopState :=
  match fuel with
  | O => Err (Internal (txt "out of fuel"))
  | S fuel' =>
      let '(line, rest) := read_until (MAX_OPERATION_JOURNAL_FRAME_BYTES + 2) input in
      if decide (line = []) then Ok lp
      else
        let offset := lp_offset lp + length line in
        if negb (ends_with_newline line) then
          if decide (offset = size)
          then Ok {| lp_state := (set_truncated (lp_state lp).1, (lp_state lp).2);
                     lp_offset := offset; lp_last_good := lp_last_good lp |}
          else Err (corrupt (txt "partial middle frame"))
        else if decide (MAX_OPERATION_JOURNAL_FRAME_BYTES + 1 < length line)
        then Err (corrupt (txt "oversized complete frame"))
        else
          let? record := parse_frame (removelast line) in
          let? st := recover_record (lp_state lp) record in
          let lp' := {| lp_state := st; lp_offset := offset; lp_last_good := offset |} in
          if bool_decide (stop_after = Some (rv_last_seq st.1)) then Ok lp'
          else recover_loop fuel' size stop_after rest lp'
  end.

(** [recover_operation_file_until]: the recovered state and the file after the
    torn tail, if any, has been cut off. *)
Definition recover_operation_file_until (file : bytes) (stop_after : option N)
    (repair_torn_tail : bool) : AgentResult (OperationJournalRecovery * bytes) :=
  if (MAX_OPERATION_JOURNAL_FILE_BYTES <? N.of_nat (length file))%N
  then Err (RecoveryRequired (txt "operation journal exceeds its hard limit"))
  else if bool_decide (stop_after = Some 0%N) then Ok (recovery_default, file)
  else
    let? lp := recover_loop (S (length file)) (length file) stop_after file
                 {| lp_state := (recovery_default, ∅); lp_offset := 0; lp_last_good := 0 |} in
    let rv := (lp_state lp).1 in
    match stop_after with
    | Some expected =>
        if negb (rv_last_seq rv =? expected)%N
        then Err (RecoveryRequired
                    (txt "authority checkpoint references future operation journal sequence"))
        else Ok (recovery_finish (lp_state lp),
                 if rv_truncated_tail rv && repair_torn_tail
                 then take (lp_last_good lp) file else file)
    | None =>
        Ok (recovery_finish (lp_state lp),
            if rv_truncated_tail rv && repair_torn_tail
            then take (lp_last_good lp) file else file)
    end.

Definition recover_operation_file (file : bytes) :=
  recover_operation_file_until file None true.

(** [recover_operation_prefix]: no repair, the file is left alone. *)
Definition recover_operation_prefix (file : bytes) (last_seq : N) :
    AgentResult OperationJournalRecovery :=
  let? r := recover_operation_file_until file (Some last_seq) false in Ok r.1.

(** ** Appending one frame *)

(** What the storage does to one append: a failed stat, a write that stops
    after [n] bytes of the line, a complete write whose sync fails. *)
Inductive AppendIo : Type :=
| AppendDone
| StatFails
| WriteStops (n : nat)
| SyncFails.

Inductive AppendFailure : Type :=
| RejectedBeforeWrite (capacity : bool) (error : AgentError)
| WriteFailed (error : AgentError).

(** [persist_operation_frame]: the file afterwards and whether it succeeded. *)
Definition persist_operation_frame (io : AppendIo) (file encoded : bytes) : bool * bytes :=
  match io with
  | AppendDone | StatFails => (true, file ++ encoded ++ [NEWLINE])
  | WriteStops n => (false, file ++ take n (encoded ++ [NEWLINE]))
  | SyncFails => (false, file ++ encoded ++ [NEWLINE])
  end.

Definition append_operation_record (io : AppendIo) (file : bytes)
    (record : OperationJournalRecord) : result unit AppendFailure * bytes :=
  let encoded := encode_record record in
  if decide (MAX_OPERATION_JOURNAL_FRAME_BYTES < length encoded)
  then (Err (RejectedBeforeWrite false
               (Storage (txt "operation journal frame exceeds its byte limit"))), file)
  else
    match io with
    | StatFails =>
        (Err (RejectedBeforeWrite false (Storage (txt "stat operation journal"))), file)
    | _ =>
        let projected := (N.of_nat (length file) + N.of_nat (length encoded) + 1)%N in
        if (u64_max <? projected)%N
        then (Err (RejectedBeforeWrite false
                     (Storage (txt "operation journal size overflow"))), file)
        else if (MAX_OPERATION_JOURNAL_FILE_BYTES <? projected)%N
        then (Err (RejectedBeforeWrite true
                     (RecoveryRequired (txt "operation journal reached its byte hard limit"))),
              file)
        else
          match persist_operation_frame io file encoded with
          | (true, file') => (Ok tt, file')
          | (false, file') =>
              (Err (WriteFailed (Storage (txt "persist operation journal"))), file')
          end
    end.

(** [write_operation_records]: the compacted WAL in one write. [None] is a
    complete, synced write; [Some n] one that stops after [n] bytes. *)
Definition write_operation_records (io : option nat) (records : list OperationJournalRecord) :
    AgentResult unit * bytes :=
  if existsb (fun r => bool_decide
       (MAX_OPERATION_JOURNAL_FRAME_BYTES < length (encode_record r))) records
  then (Err (Storage (txt "operation journal frame exceeds its byte limit")), [])
  else
    let encoded_all := records ≫= frame_line in
    if (MAX_OPERATION_JOURNAL_FILE_BYTES <? N.of_nat (length encoded_all))%N
    then (Err (RecoveryRequired
                 (txt "compacted operation journal exceeds its byte hard limit")), [])
    else
      match io with
      | None => (Ok tt, encoded_all)
      | Some n => (Err (Storage (txt "persist compacted operation journal")),
                   take n encoded_all)
      end.


(** ** Lemmas: frames and the recovery loop *)

Fixpoint replay (st : OperationJournalRecovery * OpsMap) (rs : list OperationJournalRecord) :
    AgentResult (OperationJournalRecovery * OpsMap) :=
  match rs with
  | [] => Ok st
  | r :: rs' => let? st' := recover_record st r in replay st' rs'
  end.

Definition replay_start : OperationJournalRecovery * OpsMap := (recovery_default, ∅).

Lemma replay_app st rs rs' :
  replay st (rs ++ rs') = let? st' := replay st rs in replay st' rs'.
Proof.
  revert st. induction rs as [|r rs IH]; intros st; [done|]. cbn.
  unfold rbind. destruct (recover_record st r); [apply IH|done].
Qed.

Lemma recover_record_seq st r st' :
  recover_record st r = Ok st' ->
  rv_last_seq st'.1 = or_seq r /\ or_seq r = (rv_last_seq st.1 + 1)%N /\
  (or_seq r <= MAX_OPERATION_JOURNAL_RECOVERY_RECORDS)%N.
Proof.
  destruct st as [rv m]. unfold recover_record, rbind, map_err. intros H.
  destruct (record_validate r) as [[]|]; [|done].
  destruct (checked_succ _) as [n|] eqn:En; [|done]. apply checked_succ_Some in En as [-> _].
  destruct (N.eqb_spec (or_seq r) (rv_last_seq rv + 1)) as [Heq|]; [|done]. cbn in H.
  destruct (fold_operation_record rv m r) as [[rv1 m1]|]; [|done]. cbn in H.
  destruct (N.ltb_spec MAX_OPERATION_JOURNAL_RECOVERY_RECORDS (or_seq r)); [done|].
  by injection H as <-.
Qed.

Lemma replay_seq st rs st' :
  replay st rs = Ok st' ->
  rv_last_seq st'.1 = (rv_last_seq st.1 + N.of_nat (length rs))%N.
Proof.
  revert st. induction rs as [|r rs IH]; intros st; cbn; [intros [= ->]; lia|].
  unfold rbind. destruct (recover_record st r) as [st1|] eqn:E; [|done].
  intros ?%IH. apply recover_record_seq in E. lia.
Qed.

Lemma recover_record_truncated st r st' :
  recover_record st r = Ok st' -> rv_truncated_tail st'.1 = rv_truncated_tail st.1.
Proof.
  destruct st as [rv m]. unfold recover_record, fold_operation_record, rbind, map_err.
  intros H. repeat (case_match; simplify_eq/=; try done).
Qed.

Lemma replay_truncated st rs st' :
  replay st rs = Ok st' -> rv_truncated_tail st.1 = false -> rv_truncated_tail st'.1 = false.
Proof.
  revert st. induction rs as [|r rs IH]; intros st; cbn; [by intros [= ->]|].
  unfold rbind. destruct (recover_record st r) as [st1|] eqn:E; [|done].
  intros Hr Ht. apply (IH st1 Hr). by rewrite (recover_record_truncated _ _ _ E).
Qed.

Definition frames (rs : list OperationJournalRecord) : bytes := rs ≫= frame_line.

Lemma frames_app rs rs' : frames (rs ++ rs') = frames rs ++ frames rs'.
Proof. apply bind_app. Qed.

Lemma frames_snoc rs r : frames (rs ++ [r]) = frames rs ++ frame_line r.
Proof. rewrite frames_app. unfold frames. cbn. by rewrite app_nil_r. Qed.

(** A record whose frame respects the frame limit. *)
Definition small (r : OperationJournalRecord) : Prop :=
  length (encode_record r) <= MAX_OPERATION_JOURNAL_FRAME_BYTES.

Lemma read_until_line limit e rest :
  NEWLINE ∉ e -> length e < limit ->
  read_until limit (e ++ NEWLINE :: rest) = (e ++ [NEWLINE], rest).
Proof.
  revert e. induction limit as [|limit IH]; intros e Hni Hlt; [lia|].
  destruct e as [|b e]; cbn [app read_until].
  - by rewrite decide_True.
  - apply not_elem_of_cons in Hni as [Hb Hni]. rewrite decide_False by done.
    cbn in Hlt. by rewrite IH by (done || lia).
Qed.

Lemma read_until_partial limit p :
  NEWLINE ∉ p -> length p <= limit -> read_until limit p = (p, []).
Proof.
  revert p. induction limit as [|limit IH]; intros p Hni Hle; (destruct p as [|b p]; [done|]).
  - cbn in Hle. lia.
  - apply not_elem_of_cons in Hni as [Hb Hni]. cbn [read_until].
    rewrite decide_False by done. cbn in Hle. by rewrite IH by (done || lia).
Qed.

Context `{CL : !CodecLaws}.

Lemma parse_encoded r : parse_frame (encode_record r) = Ok r.
Proof.
  unfold parse_frame, encode_record. rewrite frame_roundtrip. cbn.
  by rewrite bool_decide_eq_true_2.
Qed.

Lemma encode_no_newline r : NEWLINE ∉ encode_record r.
Proof. apply frame_no_newline. Qed.

Lemma frame_line_length r : 1 <= length (frame_line r).
Proof. unfold frame_line. rewrite length_app. cbn. lia. Qed.

(** One complete frame, one [recover_record]. *)
Lemma recover_loop_frame fuel size stop r rest lp :
  small r ->
  recover_loop (S fuel) size stop (frame_line r ++ rest) lp =
    let? st := recover_record (lp_state lp) r in
    let offset := lp_offset lp + length (frame_line r) in
    let lp' := {| lp_state := st; lp_offset := offset; lp_last_good := offset |} in
    if bool_decide (stop = Some (rv_last_seq st.1)) then Ok lp'
    else recover_loop fuel size stop rest lp'.
Proof.
  intros Hsmall. cbn [recover_loop]. unfold frame_line. rewrite <- app_assoc. cbn [app].
  rewrite read_until_line; [|apply encode_no_newline|unfold small in Hsmall; lia].
  rewrite decide_False by (by destruct (encode_record r)).
  unfold ends_with_newline. rewrite last_snoc, bool_decide_eq_true_2 by done. cbn [negb].
  rewrite decide_False by (rewrite length_app; cbn; unfold small in Hsmall; lia).
  rewrite removelast_last. by rewrite parse_encoded.
Qed.

Lemma recover_loop_frames fuel size rs rest lp :
  Forall small rs ->
  recover_loop (length rs + fuel) size None (frames rs ++ rest) lp =
    let? st := replay (lp_state lp) rs in
    let offset := lp_offset lp + length (frames rs) in
    recover_loop fuel size None rest
      {| lp_state := st; lp_offset := offset;
         lp_last_good := if decide (rs = []) then lp_last_good lp else offset |}.
Proof.
  intros Hs. revert lp. induction Hs as [|r rs Hr Hs IH]; intros lp.
  - cbn. rewrite Nat.add_0_r. by destruct lp.
  - cbn [length Nat.add]. change (frames (r :: rs)) with (frame_line r ++ frames rs).
    rewrite <- app_assoc, recover_loop_frame by done. cbn [replay].
    unfold rbind. destruct (recover_record (lp_state lp) r) as [st|e]; [|done].
    rewrite bool_decide_eq_false_2 by done. rewrite IH. unfold rbind. cbn -[frames].
    destruct (replay st rs) as [st'|e]; [|done]. cbn -[frames recover_loop].
    rewrite length_app, Nat.add_assoc. f_equal. f_equal. case_decide; [subst rs|done].
    change (frames []) with (@nil N). cbn [length]. rewrite decide_False by done. lia.
Qed.

Lemma length_frames rs : length rs <= length (frames rs).
Proof.
  induction rs as [|r rs IH]; [done|].
  change (frames (r :: rs)) with (frame_line r ++ frames rs).
  rewrite length_app. pose proof (frame_line_length r). cbn. lia.
Qed.

(** The torn end of a log: nothing, or a proper part of one more line. *)
Definition torn (p : bytes) : Prop :=
  p = [] \/
  exists r k, small r /\ p = take k (frame_line r) /\ k <= length (encode_record r).

Lemma torn_nil_or p : torn p -> NEWLINE ∉ p /\ length p <= MAX_OPERATION_JOURNAL_FRAME_BYTES.
Proof.
  intros [->|(r & k & Hs & -> & Hk)]; [split; [apply not_elem_of_nil|cbn; lia]|]. unfold frame_line. rewrite take_app_le by done. split.
  - intros (i & Hi & _)%elem_of_take. apply (encode_no_newline r).
    by eapply list_elem_of_lookup_2.
  - rewrite length_take. unfold small in Hs. lia.
Qed.
(** Recovery of a log that ends in at most one torn line replays exactly its
    complete records and cuts the torn line off. *)
Lemma recover_torn rs p :
  Forall small rs -> torn p ->
  (N.of_nat (length (frames rs ++ p)) <= MAX_OPERATION_JOURNAL_FILE_BYTES)%N ->
  recover_operation_file (frames rs ++ p) =
    let? st := replay replay_start rs in
    Ok (recovery_finish (if decide (p = []) then st else (set_truncated st.1, st.2)),
        frames rs).
Proof.
  intros Hs Ht Hsize. unfold recover_operation_file, recover_operation_file_until.
  destruct (N.ltb_spec MAX_OPERATION_JOURNAL_FILE_BYTES
              (N.of_nat (length (frames rs ++ p)))); [lia|].
  rewrite bool_decide_eq_false_2 by done.
  pose proof (length_frames rs). destruct (torn_nil_or p Ht) as [Hni Hlen].
  set (size := length (frames rs ++ p)) at 2.
  assert (exists fuel, S (length (frames rs ++ p)) = length rs + S fuel) as [fuel ->].
  { exists (length (frames rs ++ p) - length rs). rewrite length_app in *. lia. }
  rewrite recover_loop_frames by done. unfold rbind, replay_start. cbn -[frames recover_loop].
  destruct (replay _ rs) as [st|e] eqn:Est; [|done]. cbn [recover_loop].
  rewrite read_until_partial by (done || lia).
  assert (Hnt : rv_truncated_tail st.1 = false) by (by eapply replay_truncated).
  case_decide as Hp; subst.
  - cbn -[frames]. rewrite Hnt. by rewrite app_nil_r.
  - unfold ends_with_newline. rewrite bool_decide_eq_false_2 by
      (intros Hl; apply Hni; by apply last_Some_elem_of in Hl).
    cbn -[frames]. rewrite decide_True by (unfold size; by rewrite length_app).
    cbn -[frames]. f_equal. f_equal. case_decide as Hrs; subst; [done|].
    rewrite take_app_length. done.
Qed.

Lemma frames_cut rs k :
  Forall small rs ->
  exists n p, n <= length rs /\ take k (frames rs) = frames (take n rs) ++ p /\ torn p /\
    length (frames (take n rs)) <= k /\
    (n = length rs \/ k < length (frames (take (S n) rs))).
Proof.
  intros Hs. revert k. induction Hs as [|r rs Hr Hs IH]; intros k.
  - exists 0, []. cbn. rewrite take_nil. split_and!; [lia|done|by left|lia|by left].
  - change (frames (r :: rs)) with (frame_line r ++ frames rs).
    destruct (decide (length (frame_line r) <= k)) as [Hle|Hgt].
    + destruct (IH (k - length (frame_line r))) as (n & p & Hn & Htake & Hp & Hlo & Hhi).
      exists (S n), p. cbn [take length].
      change (frames (r :: ?l)) with (frame_line r ++ frames l).
      rewrite take_app_ge, Htake, <- app_assoc by done.
      rewrite !length_app. split_and!; [lia|done..|lia|].
      destruct Hhi as [->|Hhi]; [by left|right]. lia.
    + exists 0, (take k (frame_line r)). cbn [take].
      rewrite take_app_le by lia. split_and!; [lia|done| |cbn; lia|right].
      * right. exists r, k. unfold frame_line in *. rewrite length_app in Hgt.
        cbn in Hgt. split_and!; [done..|lia].
      * unfold frames. cbn. rewrite app_nil_r. lia.
Qed.

Lemma replay_take st rs st' n :
  replay st rs = Ok st' -> exists st1, replay st (take n rs) = Ok st1.
Proof.
  rewrite <- (take_drop n rs) at 1. rewrite replay_app. unfold rbind.
  destruct (replay st (take n rs)); [eauto|done].
Qed.

(** Crash safety of the write-ahead log at byte granularity: cut the log of
    any replayable record sequence after an arbitrary number [k] of bytes, and
    recovery succeeds, replays exactly the records whose whole line lies within
    the first [k] bytes, and leaves a log of exactly those lines. *)
Theorem wal_crash_prefix rs st k :
  Forall small rs ->
  (N.of_nat (length (frames rs)) <= MAX_OPERATION_JOURNAL_FILE_BYTES)%N ->
  replay replay_start rs = Ok st ->
  exists n st' rv,
    n <= length rs /\
    length (frames (take n rs)) <= k /\
    (n = length rs \/ k < length (frames (take (S n) rs))) /\
    replay replay_start (take n rs) = Ok st' /\
    recover_operation_file (take k (frames rs)) = Ok (rv, frames (take n rs)) /\
    rv_last_seq rv = N.of_nat n /\
    rv_authority_epoch rv = rv_authority_epoch st'.1 /\
    rv_operations rv = sort_by_id (map_to_list st'.2).*2.
Proof.
  intros Hs Hsize Hrep. destruct (frames_cut rs k Hs) as (n & p & Hn & Hcut & Hp & Hlo & Hhi).
  destruct (replay_take _ _ _ n Hrep) as [st' Hst'].
  pose proof (replay_seq _ _ _ Hst') as Hseq. rewrite length_take_le in Hseq by done.
  eexists n, st', _. split_and!; [done..| | | |].
  - rewrite Hcut, recover_torn; [by rewrite Hst'|by apply Forall_take|done|].
    rewrite <- Hcut, length_take. lia.
  - by case_decide.
  - by case_decide.
  - by case_decide.
Qed.

End wal.

(** Recovery on arbitrary bytes: whatever a log file holds, the recovery loop
    ends, and repairing a torn tail is idempotent. No law of the codec is used:
    the file may be garbage. *)

Section total.
Context `{CD : Codec}.

(** ** Lines *)

Lemma read_until_split limit input line rest :
  read_until limit input = (line, rest) -> input = line ++ rest.
Proof.
  revert input line. induction limit as [|limit IH]; intros [|b input] line; cbn.
  1-3: by intros [= <- <-].
  case_decide; [by intros [= <- <-]|].
  destruct (read_until limit input) as [l r] eqn:E. intros [= <- <-]. cbn. by rewrite (IH _ _ E).
Qed.

(** A line that ends in a newline is read the same whatever follows it. *)
Lemma read_until_rest limit input line rest rest' :
  read_until limit input = (line, rest) -> ends_with_newline line = true ->
  read_until limit (line ++ rest') = (line, rest').
Proof.
  unfold ends_with_newline. intros Hr Hl%bool_decide_eq_true. revert input line Hr Hl.
  induction limit as [|limit IH]; intros [|b input] line; cbn.
  1-3: by intros [= <- <-].
  case_decide as Hb; [intros [= <- <-] _; cbn; by rewrite decide_True|].
  destruct (read_until limit input) as [l r] eqn:E. intros [= <- <-] Hl. cbn.
  rewrite decide_False by done.
  assert (Hl' : last l = Some NEWLINE) by (destruct l; [by injection Hl as ->|done]).
  by rewrite (IH _ _ E Hl').
Qed.

Lemma read_until_nonempty limit input line rest :
  read_until (S limit) input = (line, rest) -> line = [] -> input = [].
Proof.
  destruct input as [|b input]; [done|]. cbn. case_decide; [by intros [= <- _]|].
  destruct (read_until limit input). by intros [= <- _].
Qed.

(** ** Totality *)

Definition out_of_fuel : AgentError := Internal (txt "out of fuel").

Lemma parse_frame_error line e : parse_frame line = Err e -> e <> out_of_fuel.
Proof. unfold parse_frame. repeat case_match; by intros [= <-]. Qed.

Lemma recover_record_error st record e : recover_record st record = Err e -> e <> out_of_fuel.
Proof.
  unfold recover_record. destruct st as [rv ops].
  destruct (record_validate record); cbn [map_err rbind]; [|by intros [= <-]].
  case_match; [|by intros [= <-]]. case_match; [by intros [= <-]|].
  destruct (fold_operation_record _ _ _); cbn [map_err rbind]; [|by intros [= <-]].
  repeat case_match; by intros [= <-].
Qed.

Lemma recover_loop_total fuel size stop input lp e :
  length input < fuel -> recover_loop fuel size stop input lp = Err e -> e <> out_of_fuel.
Proof.
  revert input lp. induction fuel as [|fuel IH]; intros input lp Hf; [lia|]. cbn [recover_loop].
  destruct (read_until _ input) as [line rest] eqn:Er.
  apply read_until_split in Er as ->. rewrite length_app in Hf.
  case_decide as Hline; [done|]. assert (0 < length line) by (destruct line; cbn; [done|lia]).
  case_match; [case_decide; [done|by intros [= <-]]|]. case_decide; [by intros [= <-]|].
  destruct (parse_frame _) as [record|e1] eqn:Ep; cbn [rbind];
    [|intros [= <-]; by eapply parse_frame_error].
  destruct (recover_record _ _) as [st|e1] eqn:Es; cbn [rbind];
    [|intros [= <-]; by eapply recover_record_error].
  case_match; [done|]. apply IH. lia.
Qed.

(** ** Repair *)

(** The loop over all of a file splits it into the whole records it kept and a
    tail; on the kept part alone the loop ends in the same state. *)
Lemma recover_loop_kept fuel size input lp lp' :
  length input < fuel -> lp_last_good lp = lp_offset lp ->
  recover_loop fuel size None input lp = Ok lp' ->
  exists kept tail, input = kept ++ tail /\ lp_last_good lp' = lp_offset lp + length kept /\
    exists st,
      lp_state lp' = (if decide (tail = []) then st else (set_truncated st.1, st.2)) /\
      (rv_truncated_tail st.1 = rv_truncated_tail (lp_state lp).1) /\
      forall fuel' size', length kept < fuel' ->
        recover_loop fuel' size' None kept lp =
        Ok {| lp_state := st; lp_offset := lp_last_good lp'; lp_last_good := lp_last_good lp' |}.
Proof.
  revert input lp. induction fuel as [|fuel IH]; intros input lp Hf Hg; [lia|]. cbn [recover_loop].
  destruct (read_until _ input) as [line rest] eqn:Er.
  pose proof (read_until_split _ _ _ _ Er) as Hsplit. case_decide as Hline.
  - intros [= <-]. exists [], []. split.
    { by apply (read_until_nonempty (MAX_OPERATION_JOURNAL_FRAME_BYTES + 1) _ line rest). }
    split; [cbn; lia|]. exists (lp_state lp). rewrite decide_True by done.
    split; [done|]. split; [done|]. intros [|fuel'] size' Hf'; [cbn in Hf'; lia|].
    destruct lp; cbn in *. by subst.
  - assert (Hpos : 0 < length line) by (destruct line; cbn; [done|lia]).
    destruct (ends_with_newline line) eqn:Enl; cbn [negb].
    + case_decide as Hbig; [done|].
      destruct (parse_frame _) as [record|e1] eqn:Ep; cbn [rbind]; [|done].
      destruct (recover_record _ _) as [st1|e1] eqn:Es; cbn [rbind]; [|done].
      rewrite bool_decide_eq_false_2 by done. intros Hl.
      subst input. rewrite length_app in Hf.
      set (lp1 := {| lp_state := st1 |}) in Hl.
      destruct (IH rest lp1 ltac:(lia) eq_refl Hl) as (kept & tail & -> & Hlast & st & Hst & Ht & Hre).
      exists (line ++ kept), tail. split; [by rewrite (assoc_L (++))|].
      split; [rewrite Hlast, length_app; cbn; lia|]. exists st. split; [done|].
      split; [rewrite Ht; by eapply recover_record_truncated|].
      intros [|fuel'] size' Hf'; [lia|]. cbn [recover_loop]. rewrite length_app in Hf'.
      rewrite (read_until_rest _ _ _ _ kept Er Enl). rewrite decide_False by done.
      rewrite Enl. cbn [negb]. rewrite decide_False by done. rewrite Ep. cbn [rbind].
      rewrite Es. cbn [rbind]. rewrite bool_decide_eq_false_2 by done.
      apply Hre. lia.
    + case_decide as Hend; [|done]. intros [= <-]. exists [], input. split; [done|].
      split; [cbn; lia|]. exists (lp_state lp). rewrite decide_False.
      2: { intros ->. by destruct line. }
      split; [done|]. split; [done|]. intros [|fuel'] size' Hf'; [cbn in Hf'; lia|].
      destruct lp; cbn in *. by subst.
Qed.

Definition repaired (rv : OperationJournalRecovery) : OperationJournalRecovery :=
  {| rv_last_seq := rv_last_seq rv; rv_authority_epoch := rv_authority_epoch rv;
     rv_operations := rv_operations rv; rv_truncated_tail := false;
     rv_compacted_from := rv_compacted_from rv |}.

(** Recovery on arbitrary bytes: whatever the log file holds, recovery ends
    (with a state or a reported corruption, never by exhausting its bound); and
    when it succeeds the file it leaves is a prefix of what it found, the whole
    file unless a torn tail was reported, and recovering that file again gives
    the same state with nothing left to repair. *)
Theorem recovery_total file :
  (forall e, recover_operation_file file = Err e -> e <> out_of_fuel) /\
  (forall rv file', recover_operation_file file = Ok (rv, file') ->
     file' `prefix_of` file /\ (rv_truncated_tail rv = false -> file' = file) /\
     recover_operation_file file' = Ok (repaired rv, file')).
Proof.
  unfold recover_operation_file, recover_operation_file_until.
  destruct (N.ltb_spec MAX_OPERATION_JOURNAL_FILE_BYTES (N.of_nat (length file))) as [|Hsize];
    [split; [by intros e [= <-]|done]|].
  rewrite bool_decide_eq_false_2 by done. set (lp0 := {| lp_state := _ |}).
  destruct (recover_loop _ _ None file lp0) as [lp|e0] eqn:El; cbn [rbind].
  2: { split; [|done]. intros e [= <-]. by eapply recover_loop_total in El; [|lia]. }
  split; [done|]. intros rv file' [= <- <-].
  destruct (recover_loop_kept _ _ _ lp0 _ (Nat.lt_succ_diag_r _) eq_refl El)
    as (kept & tail & -> & Hlast & st & Hst & Ht & Hre). cbn in Ht, Hlast.
  assert (Hkept : (if rv_truncated_tail (lp_state lp).1 && true
      then take (lp_last_good lp) (kept ++ tail) else kept ++ tail) = kept).
  { rewrite Hst, Hlast, take_app_length. case_decide as Htail; cbn.
    - by rewrite Ht, Htail, app_nil_r.
    - done. }
  rewrite Hkept. split; [by apply prefix_app_r|]. split.
  - rewrite Hst. case_decide as Htail; [by rewrite Htail, app_nil_r|]. done.
  - rewrite length_app in Hsize. destruct (N.ltb_spec MAX_OPERATION_JOURNAL_FILE_BYTES
      (N.of_nat (length kept))) as [|_]; [lia|].
    rewrite Hre by lia. cbn [rbind lp_state lp_last_good]. rewrite Ht. cbn [andb].
    do 2 f_equal. rewrite Hst. destruct st as [[] ops]. cbn in Ht. subst.
    by case_decide.
Qed.

End total.
