(* ===== verification/FileJournal.v ===== *)
(** [FileOperationJournal] of agent-storage/lib.rs: the writer state, its disk
    (WAL generations, metadata, lifecycle lock), opening, appending with the
    bounded capacity retry and the write-failure fence, compaction into the next
    generation, and checkpoint markers.

    Every fallible storage step takes its outcome from a script, so a crash or
    an I/O error at any step is some script: the state a failing script leaves
    on the disk is what the next process finds. *)

From S2P Require Import Prelude Text Digest Operation Journal Wal.

Record OperationWriterState : Type := {
  wr_file : N;  (** the WAL generation file the handle refers to *)
  wr_next_seq : N;
  wr_recovery : OperationJournalRecovery;
  wr_operation_indexes : gmap N nat;
  wr_metadata : AuthorityJournalMetadata;
  wr_failed : option text;
}.

Record Disk : Type := {
  dk_wals : gmap N bytes;
  dk_meta : option bytes;
  dk_locked : bool;
}.

(** What the storage does to one compaction, step by step. *)
Inductive CompactIo : Type :=
| CompactDone (old_wal_removed : bool)
| CandidateFails
| RecordsStop (n : nat)
| SeekFails
| MetadataWriteFails
| DirectorySyncFails.

Inductive OpenIo : Type :=
| OpenDone
| NewWalSyncFails
| OpenMetadataFails.

Record FileJournal : Type := {
  fj_disk : Disk;
  fj_writer : OperationWriterState;
  fj_append_io : list AppendIo;
  fj_compact_io : list CompactIo;
}.

Section file_journal.
Context `{CD : Codec}.

(** ** Accessors *)

Definition set_wal (d : Disk) (path : N) (content : bytes) : Disk :=
  {| dk_wals := <[path := content]> (dk_wals d); dk_meta := dk_meta d;
     dk_locked := dk_locked d |}.
Definition set_meta (d : Disk) (m : bytes) : Disk :=
  {| dk_wals := dk_wals d; dk_meta := Some m; dk_locked := dk_locked d |}.
Definition set_locked (d : Disk) (b : bool) : Disk :=
  {| dk_wals := dk_wals d; dk_meta := dk_meta d; dk_locked := b |}.
Definition remove_wal (d : Disk) (path : N) : Disk :=
  {| dk_wals := delete path (dk_wals d); dk_meta := dk_meta d; dk_locked := dk_locked d |}.

Definition set_disk (j : FileJournal) (d : Disk) : FileJournal :=
  {| fj_disk := d; fj_writer := fj_writer j; fj_append_io := fj_append_io j;
     fj_compact_io := fj_compact_io j |}.
Definition set_writer (j : FileJournal) (w : OperationWriterState) : FileJournal :=
  {| fj_disk := fj_disk j; fj_writer := w; fj_append_io := fj_append_io j;
     fj_compact_io := fj_compact_io j |}.
Definition set_failed (w : OperationWriterState) (e : text) : OperationWriterState :=
  {| wr_file := wr_file w; wr_next_seq := wr_next_seq w; wr_recovery := wr_recovery w;
     wr_operation_indexes := wr_operation_indexes w; wr_metadata := wr_metadata w;
     wr_failed := Some e |}.

(** The bytes behind the writer's handle. *)
Definition wal_content (j : FileJournal) : bytes :=
  default [] (dk_wals (fj_disk j) !! wr_file (fj_writer j)).

Definition next_append_io (j : FileJournal) : AppendIo * FileJournal :=
  match fj_append_io j with
  | [] => (AppendDone, j)
  | io :: rest =>
      (io, {| fj_disk := fj_disk j; fj_writer := fj_writer j; fj_append_io := rest;
              fj_compact_io := fj_compact_io j |})
  end.

Definition next_compact_io (j : FileJournal) : CompactIo * FileJournal :=
  match fj_compact_io j with
  | [] => (CompactDone true, j)
  | io :: rest =>
      (io, {| fj_disk := fj_disk j; fj_writer := fj_writer j;
              fj_append_io := fj_append_io j; fj_compact_io := rest |})
  end.

(** ** Metadata *)

(** [authority_wal_path]: generations 0 and 1 name the base file. *)
Definition authority_wal_path (generation : N) : N :=
  if (generation <=? 1)%N then 1%N else generation.

Definition stored_metadata (m : AuthorityJournalMetadata) : StoredAuthorityJournalMetadata :=
  {| sm_metadata := m; sm_checksum := checksum_hex (metadata_to_vec m) |}.

Definition persist_authority_metadata (io : CompactIo) (metadata : AuthorityJournalMetadata)
    (d : Disk) : AgentResult unit * Disk :=
  let encoded := stored_metadata_to_vec (stored_metadata metadata) in
  if (MAX_AUTHORITY_JOURNAL_METADATA_BYTES <? N.of_nat (length encoded))%N
  then (Err (Storage (txt "authority journal metadata exceeds its hard limit")), d)
  else
    match io with
    | MetadataWriteFails =>
        (Err (Storage (txt "persist authority journal metadata")), d)
    | DirectorySyncFails =>
        (Err (RecoveryRequired (txt
           "authority journal metadata was published, but the directory sync failed")),
         set_meta d encoded)
    | _ => (Ok tt, set_meta d encoded)
    end.

Definition read_authority_metadata (content : bytes) : AgentResult AuthorityJournalMetadata :=
  if (length content =? 0)
     || (MAX_AUTHORITY_JOURNAL_METADATA_BYTES <? N.of_nat (length content))%N
  then Err (RecoveryRequired (txt "authority journal metadata has an invalid size"))
  else
    match stored_metadata_from_slice content with
    | None => Err (RecoveryRequired (txt "authority journal metadata is corrupt: invalid JSON"))
    | Some stored =>
        let m := sm_metadata stored in
        if negb (bool_decide (sm_checksum stored = checksum_hex (metadata_to_vec m)))
           || negb (md_version m =? AUTHORITY_JOURNAL_METADATA_VERSION)%N
           || is_nil (md_journal_id m)
           || (md_generation m =? 0)%N
        then Err (RecoveryRequired
                    (txt "authority journal metadata is corrupt or unsupported"))
        else Ok m
    end.

Definition validate_recovered_generation (m : AuthorityJournalMetadata)
    (rv : OperationJournalRecovery) : AgentResult unit :=
  match rv_compacted_from rv with
  | None =>
      if (md_generation m =? 1)%N then Ok tt
      else Err (RecoveryRequired
        (txt "authority journal generation is missing its Compacted baseline"))
  | Some previous =>
      if (md_generation m =? 1)%N
      then Err (RecoveryRequired (txt
        "generation-1 authority WAL unexpectedly starts with a Compacted baseline"))
      else if negb (acm_journal_id previous =? md_journal_id m)%N
              || negb (bool_decide
                   (checked_succ (acm_generation previous) = Some (md_generation m)))
      then Err (RecoveryRequired
        (txt "compacted authority WAL lineage does not match metadata"))
      else Ok tt
  end.

(** ** Checkpoint markers *)

Definition authority_checkpoint_marker (m : AuthorityJournalMetadata)
    (rv : OperationJournalRecovery) : AuthorityCheckpointMarker :=
  {| acm_journal_id := md_journal_id m;
     acm_generation := md_generation m;
     acm_authority_epoch := rv_authority_epoch rv;
     acm_last_seq := rv_last_seq rv;
     acm_state_digest :=
       sha256 (truth_to_vec (rv_last_seq rv) (rv_authority_epoch rv)
                 (sort_by_id (rv_operations rv))) |}.

Definition ensure_operation_writer_healthy (w : OperationWriterState) : AgentResult unit :=
  match wr_failed w with
  | Some error => Err (Storage error)
  | None => Ok tt
  end.

Definition authority_marker_mismatch : AgentError :=
  RecoveryRequired (txt
    "authority checkpoint marker is not a verified ancestor of current durable authority").

(** ** Compaction *)

Definition make_record (seq : N) (t : OperationJournalTransition) : OperationJournalRecord :=
  {| or_version := OPERATION_JOURNAL_VERSION; or_seq := seq; or_transition := t |}.

(** The compacted WAL: the baseline and one record per live operation. *)
Definition compaction_records (previous : AuthorityCheckpointMarker)
    (operations : list OperationSnapshot) : list OperationJournalRecord :=
  make_record 1 (Compacted previous)
  :: imap (fun index snapshot =>
       make_record (N.of_nat index + 2) (OperationUpsert snapshot)) operations.

(** [ancestors.push(previous)] and the drain of the overflow at the front. *)
Definition push_ancestor (ancestors : list AuthorityCheckpointMarker)
    (previous : AuthorityCheckpointMarker) : list AuthorityCheckpointMarker :=
  let ancestors := ancestors ++ [previous] in
  drop (length ancestors - MAX_AUTHORITY_JOURNAL_ANCESTORS) ancestors.

(** The writer after the metadata publish. *)
Definition compacted_writer (w : OperationWriterState) (previous : AuthorityCheckpointMarker)
    (operations : list OperationSnapshot) (new_metadata : AuthorityJournalMetadata)
    (last_seq next_seq : N) : OperationWriterState :=
  {| wr_file := authority_wal_path (md_generation new_metadata);
     wr_next_seq := next_seq;
     wr_recovery :=
       {| rv_last_seq := last_seq;
          rv_authority_epoch := rv_authority_epoch (wr_recovery w);
          rv_operations := operations;
          rv_truncated_tail := rv_truncated_tail (wr_recovery w);
          rv_compacted_from := Some previous |};
     wr_operation_indexes := build_indexes operations;
     wr_metadata := new_metadata;
     wr_failed := wr_failed w |}.

Definition compact_locked : M FileJournal AgentError AuthorityCheckpointMarker := fun j0 =>
  let w := fj_writer j0 in
  match wr_failed w with
  | Some error => (Err (Storage error), j0)
  | None =>
    if (rv_last_seq (wr_recovery w) =? 0)%N
    then (Ok (authority_checkpoint_marker (wr_metadata w) (wr_recovery w)), j0)
    else
      let previous := authority_checkpoint_marker (wr_metadata w) (wr_recovery w) in
      match checked_succ (md_generation (wr_metadata w)) with
      | None => (Err (RecoveryRequired (txt "authority journal generation exhausted")), j0)
      | Some next_generation =>
        let operations := sort_by_id (rv_operations (wr_recovery w)) in
        let records := compaction_records previous operations in
        if (MAX_OPERATION_JOURNAL_RECOVERY_RECORDS <? N.of_nat (length records))%N
        then (Err (RecoveryRequired
                (txt "compaction would exceed the record recovery limit")), j0)
        else
          let '(io, j) := next_compact_io j0 in
          match io with
          | CandidateFails =>
              (Err (Storage (txt "create compacted operation journal")), j)
          | _ =>
            let '(written, candidate) :=
              write_operation_records
                (match io with RecordsStop n => Some n | _ => None end) records in
            let j1 := set_disk j
                        (set_wal (fj_disk j) (authority_wal_path next_generation) candidate) in
            match written, io with
            | Err e, _ => (Err e, j1)
            | Ok _, SeekFails => (Err (Storage (txt "seek compacted operation journal")), j1)
            | Ok _, _ =>
              let new_metadata :=
                {| md_version := AUTHORITY_JOURNAL_METADATA_VERSION;
                   md_journal_id := md_journal_id (wr_metadata w);
                   md_generation := next_generation;
                   md_ancestors := push_ancestor (md_ancestors (wr_metadata w)) previous |} in
              let last_seq := from_option or_seq 1%N (last records) in
              match checked_succ last_seq with
              | None =>
                  (Err (RecoveryRequired (txt "operation journal sequence exhausted")), j1)
              | Some next_seq =>
                let '(published, d2) := persist_authority_metadata io new_metadata (fj_disk j1) in
                match published with
                | Err (RecoveryRequired m) =>
                    (Err (RecoveryRequired m),
                     set_writer (set_disk j1 d2)
                       (set_failed w (display_error (RecoveryRequired m))))
                | Err e => (Err e, set_disk j1 d2)
                | Ok _ =>
                    let w' := compacted_writer w previous operations new_metadata
                                last_seq next_seq in
                    let d3 :=
                      match io with
                      | CompactDone false => d2
                      | _ => remove_wal d2 (authority_wal_path (md_generation (wr_metadata w)))
                      end in
                    (Ok (authority_checkpoint_marker (wr_metadata w') (wr_recovery w')),
                     set_writer (set_disk j1 d3) w')
                end
              end
            end
          end
      end
  end.

(** ** Appending *)

Definition fence_operation_writer (j : FileJournal) (error : AgentError) :
    AgentError * FileJournal :=
  let message := txt "operation journal failed permanently: " ++ display_error error in
  (Storage message, set_writer j (set_failed (fj_writer j) message)).

(** [append_operation_record(&mut writer.file, &record)]. *)
Definition append_to_wal (record : OperationJournalRecord) (j0 : FileJournal) :
    result unit AppendFailure * FileJournal :=
  let '(io, j) := next_append_io j0 in
  let '(r, content) := append_operation_record io (wal_content j) record in
  (r, set_disk j (set_wal (fj_disk j) (wr_file (fj_writer j)) content)).

(** [apply_cached_record] and the sequence step after an acknowledged write. *)
Definition commit_record (record : OperationJournalRecord) (next_seq : N) (j : FileJournal) :
    FileJournal :=
  let w := fj_writer j in
  let '(rv, idx) := apply_cached_record (wr_recovery w) (wr_operation_indexes w) record in
  set_writer j
    {| wr_file := wr_file w; wr_next_seq := next_seq; wr_recovery := rv;
       wr_operation_indexes := idx; wr_metadata := wr_metadata w; wr_failed := wr_failed w |}.

(** Stage a record at the writer's next sequence number: the cached
    validation, then the successor sequence. *)
Definition stage_record (t : OperationJournalTransition) (w : OperationWriterState) :
    AgentResult (OperationJournalRecord * N) :=
  let record := make_record (wr_next_seq w) t in
  let? _ := map_err RecoveryRequired
              (validate_cached_record (wr_recovery w) (wr_operation_indexes w) record) in
  let? next_seq := ok_or (checked_succ (wr_next_seq w))
                     (RecoveryRequired (txt "operation journal sequence exhausted")) in
  Ok (record, next_seq).

(** The record-count limit: compact once, then refuse. *)
Definition reserve_sequence : M FileJournal AgentError unit := fun j =>
  if (MAX_OPERATION_JOURNAL_RECOVERY_RECORDS <? wr_next_seq (fj_writer j))%N
  then
    match compact_locked j with
    | (Err e, j1) => (Err e, j1)
    | (Ok _, j1) =>
        if (MAX_OPERATION_JOURNAL_RECOVERY_RECORDS <? wr_next_seq (fj_writer j1))%N
        then (Err (RecoveryRequired
                (txt "operation journal reached its record recovery limit after compaction")), j1)
        else (Ok tt, j1)
    end
  else (Ok tt, j).

(** The single retry after a capacity rejection. *)
Definition append_after_compaction (t : OperationJournalTransition) :
    M FileJournal AgentError OperationJournalRecord := fun j =>
  match compact_locked j with
  | (Err e, j1) => (Err e, j1)
  | (Ok _, j1) =>
      match stage_record t (fj_writer j1) with
      | Err e => (Err e, j1)
      | Ok (record, next_seq) =>
          match append_to_wal record j1 with
          | (Ok _, j2) => (Ok record, commit_record record next_seq j2)
          | (Err (RejectedBeforeWrite _ _), j2) =>
              (Err (RecoveryRequired (txt
                "operation journal still exceeds its byte capacity after compaction")), j2)
          | (Err (WriteFailed e), j2) =>
              let '(error, j3) := fence_operation_writer j2 e in (Err error, j3)
          end
      end
  end.

(** The body of [append_and_sync] on a healthy writer. *)
Definition append_record (t : OperationJournalTransition) :
    M FileJournal AgentError OperationJournalRecord := fun j0 =>
  match reserve_sequence j0 with
  | (Err e, j) => (Err e, j)
  | (Ok _, j) =>
      match stage_record t (fj_writer j) with
      | Err e => (Err e, j)
      | Ok (record, next_seq) =>
          match append_to_wal record j with
          | (Ok _, j1) => (Ok record, commit_record record next_seq j1)
          | (Err (RejectedBeforeWrite true _), j1) => append_after_compaction t j1
          | (Err (RejectedBeforeWrite false error), j1) => (Err error, j1)
          | (Err (WriteFailed e), j1) =>
              let '(error, j2) := fence_operation_writer j1 e in (Err error, j2)
          end
      end
  end.

Definition file_append_and_sync (t : OperationJournalTransition) :
    M FileJournal AgentError OperationJournalRecord := fun j0 =>
  match transition_validate t with
  | Err e => (Err (InvalidRequest e), j0)
  | Ok _ =>
    match t with
    | Compacted _ =>
        (Err (InvalidRequest (txt
           "Compacted baseline can only be written by journal compaction")), j0)
    | _ =>
      match wr_failed (fj_writer j0) with
      | Some error => (Err (Storage error), j0)
      | None => append_record t j0
      end
    end
  end.

(** ** Reading back *)

Definition file_recover (j : FileJournal) : AgentResult OperationJournalRecovery :=
  match wr_failed (fj_writer j) with
  | Some error => Err (Storage error)
  | None => Ok (wr_recovery (fj_writer j))
  end.

Definition file_marker (j : FileJournal) : AgentResult AuthorityCheckpointMarker :=
  let? _ := ensure_operation_writer_healthy (fj_writer j) in
  Ok (authority_checkpoint_marker (wr_metadata (fj_writer j)) (wr_recovery (fj_writer j))).

Definition file_validate_marker (expected : AuthorityCheckpointMarker) (j : FileJournal) :
    AgentResult unit :=
  let w := fj_writer j in
  let? _ := map_err InvalidRequest (marker_validate expected) in
  let? _ := ensure_operation_writer_healthy w in
  if negb (acm_journal_id expected =? md_journal_id (wr_metadata w))%N
  then Err authority_marker_mismatch
  else if negb (acm_generation expected =? md_generation (wr_metadata w))%N
  then
    if existsb (fun a => bool_decide (a = expected)) (md_ancestors (wr_metadata w))
    then Ok tt else Err authority_marker_mismatch
  else if (rv_last_seq (wr_recovery w) <? acm_last_seq expected)%N
          || (rv_authority_epoch (wr_recovery w) <? acm_authority_epoch expected)%N
  then Err authority_marker_mismatch
  else
    let? prefix := recover_operation_prefix (wal_content j) (acm_last_seq expected) in
    if bool_decide (authority_checkpoint_marker (wr_metadata w) prefix = expected)
    then Ok tt else Err authority_marker_mismatch.

(** ** Opening *)

(** [load_or_create_authority_metadata] on the path that found no metadata. *)
Definition create_authority_metadata (io : OpenIo) (journal_id : N) (d : Disk) :
    AgentResult AuthorityJournalMetadata * Disk :=
  let metadata := {| md_version := AUTHORITY_JOURNAL_METADATA_VERSION;
                     md_journal_id := journal_id;
                     md_generation := AUTHORITY_JOURNAL_GENERATION;
                     md_ancestors := [] |} in
  match persist_authority_metadata
          (match io with OpenMetadataFails => MetadataWriteFails | _ => CompactDone true end)
          metadata d with
  | (Ok _, d') => (Ok metadata, d')
  | (Err e, d') => (Err e, d')
  end.

(** The body of [open] after the lifecycle lock has been taken. [journal_id]
    is the id [AuthorityJournalId::new] draws when a journal is created. *)
Definition open_locked (io : OpenIo) (journal_id : N) (d : Disk) :
    AgentResult (OperationWriterState * OperationJournalRecovery) * Disk :=
  match match dk_meta d with
        | Some content => let? m := read_authority_metadata content in Ok (Some m)
        | None => Ok None
        end with
  | Err e => (Err e, d)
  | Ok existing_metadata =>
    if bool_decide (existing_metadata = None) && negb (bool_decide (dk_wals d = ∅))
    then (Err (RecoveryRequired (txt
      "authority journal metadata is missing, but WAL generation(s) still exist; refusing empty initialization")), d)
    else
      let generation := from_option md_generation AUTHORITY_JOURNAL_GENERATION existing_metadata in
      let wal_path := authority_wal_path generation in
      let existed := dk_wals d !! wal_path in
      if bool_decide (existed = None) && negb (bool_decide (existing_metadata = None))
      then (Err (RecoveryRequired (txt
        "authority journal metadata exists but its operation WAL is missing")), d)
      else
        let content := default [] existed in
        let d1 := set_wal d wal_path content in
        match existed, io with
        | None, NewWalSyncFails =>
            (Err (Storage (txt "sync new operation journal")), d1)
        | _, _ =>
          match recover_operation_file content with
          | Err e => (Err e, d1)
          | Ok (recovery, content') =>
            let d2 := set_wal d1 wal_path content' in
            let '(created, d3) :=
              match existing_metadata with
              | Some m => (Ok m, d2)
              | None => create_authority_metadata io journal_id d2
              end in
            match created with
            | Err e => (Err e, d3)
            | Ok metadata =>
              match validate_recovered_generation metadata recovery with
              | Err e => (Err e, d3)
              | Ok _ =>
                match checked_succ (rv_last_seq recovery) with
                | None =>
                    (Err (RecoveryRequired (txt "operation journal sequence exhausted")), d3)
                | Some next_seq =>
                    (Ok ({| wr_file := wal_path; wr_next_seq := next_seq;
                            wr_recovery := recovery;
                            wr_operation_indexes := build_indexes (rv_operations recovery);
                            wr_metadata := metadata; wr_failed := None |}, recovery), d3)
                end
              end
            end
          end
        end
  end.

(** [FileOperationJournal::open]: the lifecycle lock is taken before any
    journal truth is read, released when opening fails, held otherwise. *)
Definition file_open (io : OpenIo) (journal_id : N) (append_io : list AppendIo)
    (compact_io : list CompactIo) (d : Disk) :
    AgentResult (FileJournal * OperationJournalRecovery) * Disk :=
  if dk_locked d
  then (Err (Storage (txt "another writer already owns this journal")), d)
  else
    match open_locked io journal_id (set_locked d true) with
    | (Err e, d') => (Err e, set_locked d' false)
    | (Ok (w, recovery), d') =>
        (Ok ({| fj_disk := d'; fj_writer := w; fj_append_io := append_io;
                fj_compact_io := compact_io |}, recovery), d')
    end.

#[export] Instance file_operation_journal : OperationJournal FileJournal := {
  append_and_sync := file_append_and_sync;
  recover_journal := file_recover;
  journal_marker := file_marker;
  journal_validate_marker := file_validate_marker;
  journal_compact := compact_locked;
}.

End file_journal.
