(* ===== verification/FileJournalLaws.v ===== *)
(** Correctness of the file journal: the invariant of its writer and disk,
    preserved by appends, compactions and restarts under every storage script;
    the [OperationJournalLaws] instance (what Core relies on); and durability:
    what a restarted process recovers from the disk. *)

From S2P Require Import Prelude Text Digest Operation Journal Wal FileJournal.

Section facts.
Context `{CD : Codec, CL : !CodecLaws}.

(** ** Maps and recovered lists *)

Lemma sort_by_id_perm l : sort_by_id l ≡ₚ l.
Proof. apply merge_sort_Permutation. Qed.

Lemma recovered_ids (m : OpsMap) :
  ops_wf m -> NoDup (os_id <$> sort_by_id (map_to_list m).*2).
Proof.
  intros Hwf. rewrite sort_by_id_perm, map_to_list_snd_ids_of by done.
  apply NoDup_fst_map_to_list.
Qed.

Lemma recovered_map (m : OpsMap) :
  ops_wf m -> ops_map (sort_by_id (map_to_list m).*2) = m.
Proof.
  intros Hwf. apply map_eq. intros id. apply option_eq. intros s.
  rewrite ops_map_lookup by (by apply recovered_ids).
  rewrite sort_by_id_perm, list_elem_of_fmap. split.
  - intros [([id' s'] & -> & Hin%elem_of_map_to_list) Hid]. cbn in *.
    by rewrite <- Hid, (Hwf _ _ Hin).
  - intros Hs. split; [|by apply Hwf]. exists (id, s). by rewrite elem_of_map_to_list.
Qed.

Lemma recovered_elem (m : OpsMap) s :
  s ∈ sort_by_id (map_to_list m).*2 -> exists id, m !! id = Some s.
Proof.
  rewrite sort_by_id_perm, list_elem_of_fmap.
  intros ([id s'] & -> & Hin%elem_of_map_to_list). eauto.
Qed.

Lemma sorted_map l : NoDup (os_id <$> l) -> ops_map (sort_by_id l) = ops_map l.
Proof.
  intros Hnd. apply ops_map_perm; [|apply sort_by_id_perm].
  by rewrite sort_by_id_perm.
Qed.

(** ** The invariant *)

Definition snapshot_ok (s : OperationSnapshot) : Prop := snapshot_validate s = Ok tt.

(** The WAL file holds a replayable record sequence that folds to [rv]. *)
Definition log_of (rs : list OperationJournalRecord) (rv : OperationJournalRecovery) : Prop :=
  Forall small rs /\
  (N.of_nat (length (frames rs)) <= MAX_OPERATION_JOURNAL_FILE_BYTES)%N /\
  exists rec, replay replay_start rs = Ok (rec, ops_map (rv_operations rv)) /\
    rv_authority_epoch rec = rv_authority_epoch rv /\
    rv_last_seq rec = rv_last_seq rv /\
    rv_compacted_from rec = rv_compacted_from rv.

Definition metadata_ok (m : AuthorityJournalMetadata) : Prop :=
  md_version m = AUTHORITY_JOURNAL_METADATA_VERSION /\
  md_journal_id m <> 0%N /\ md_generation m <> 0%N /\
  (N.of_nat (length (stored_metadata_to_vec (stored_metadata m)))
     <= MAX_AUTHORITY_JOURNAL_METADATA_BYTES)%N.

(** The disk holds, under generation [md_generation m], the log of [rv]
    followed by at most one torn line. *)
Definition disk_holds (d : Disk) (m : AuthorityJournalMetadata)
    (rv : OperationJournalRecovery) (p : bytes) : Prop :=
  metadata_ok m /\
  dk_meta d = Some (stored_metadata_to_vec (stored_metadata m)) /\
  validate_recovered_generation m rv = Ok tt /\
  exists rs, log_of rs rv /\ torn p /\
    (N.of_nat (length (frames rs ++ p)) <= MAX_OPERATION_JOURNAL_FILE_BYTES)%N /\
    dk_wals d !! authority_wal_path (md_generation m) = Some (frames rs ++ p).

(** The cached recovery state a writer works from. *)
Definition cache_inv (w : OperationWriterState) : Prop :=
  cache_ok (wr_recovery w) (wr_operation_indexes w) /\
  Forall snapshot_ok (rv_operations (wr_recovery w)) /\
  rv_authority_epoch (wr_recovery w) <> 0%N /\
  wr_next_seq w = (rv_last_seq (wr_recovery w) + 1)%N.

(** What a restarted process finds: the acknowledged state, or that state and
    the one transition whose write outcome is unknown. *)
Definition settled (t0 t : Truth) : Prop :=
  t = t0 \/ exists tr, transition_validate tr = Ok tt /\ admissible t0 tr /\
    t = truth_apply t0 tr.

Definition reopens (d : Disk) (t0 : Truth) : Prop :=
  exists m rv p, disk_holds d m rv p /\ NoDup (os_id <$> rv_operations rv) /\
    Forall snapshot_ok (rv_operations rv) /\ rv_authority_epoch rv <> 0%N /\
    settled t0 (truth_of rv).

Definition file_inv (j : FileJournal) : Prop :=
  let w := fj_writer j in
  cache_inv w /\
  wr_file w = authority_wal_path (md_generation (wr_metadata w)) /\
  match wr_failed w with
  | None => disk_holds (fj_disk j) (wr_metadata w) (wr_recovery w) []
  | Some _ => reopens (fj_disk j) (truth_of (wr_recovery w))
  end.

Definition file_truth (j : FileJournal) : Truth := truth_of (wr_recovery (fj_writer j)).

(** ** Reading metadata and logs back *)

Lemma read_stored_metadata m :
  metadata_ok m -> read_authority_metadata (stored_metadata_to_vec (stored_metadata m)) = Ok m.
Proof.
  intros (Hv & Hid & Hg & Hlen). unfold read_authority_metadata.
  destruct (Nat.eqb_spec (length (stored_metadata_to_vec (stored_metadata m))) 0) as [E|_].
  { apply nil_length_inv in E. by apply metadata_nonempty in E. }
  destruct (N.ltb_spec MAX_AUTHORITY_JOURNAL_METADATA_BYTES
    (N.of_nat (length (stored_metadata_to_vec (stored_metadata m))))); [lia|].
  cbn. rewrite metadata_roundtrip. cbn. rewrite bool_decide_eq_true_2 by done.
  rewrite Hv, N.eqb_refl. unfold is_nil.
  by rewrite (proj2 (N.eqb_neq _ _) Hid), (proj2 (N.eqb_neq _ _) Hg).
Qed.

Lemma replay_limit rs st :
  replay replay_start rs = Ok st ->
  (rv_last_seq st.1 <= MAX_OPERATION_JOURNAL_RECOVERY_RECORDS)%N.
Proof.
  destruct rs as [|r rs _] using rev_ind; [by intros [= <-]|].
  rewrite replay_app. unfold rbind at 1. destruct (replay _ rs) as [st1|]; [|done].
  cbn. unfold rbind. destruct (recover_record st1 r) as [st2|] eqn:E; [|done].
  intros [= <-]. apply recover_record_seq in E. lia.
Qed.

Lemma path_inj g g' : g <> 0%N -> g' <> 0%N -> authority_wal_path g = authority_wal_path g' -> g = g'.
Proof.
  unfold authority_wal_path. destruct (N.leb_spec g 1), (N.leb_spec g' 1); lia.
Qed.

Lemma recover_log rs rv p :
  log_of rs rv -> ops_wf (ops_map (rv_operations rv)) -> torn p ->
  (N.of_nat (length (frames rs ++ p)) <= MAX_OPERATION_JOURNAL_FILE_BYTES)%N ->
  exists rv',
    recover_operation_file (frames rs ++ p) = Ok (rv', frames rs) /\
    truth_of rv' = truth_of rv /\
    NoDup (os_id <$> rv_operations rv') /\
    rv_last_seq rv' = rv_last_seq rv /\
    rv_compacted_from rv' = rv_compacted_from rv /\
    (forall s, s ∈ rv_operations rv' -> exists id, ops_map (rv_operations rv) !! id = Some s).
Proof.
  intros (Hs & _ & rec & Hrep & He & Hl & Hc) Hwf Hp Hsize.
  eexists. split; [by rewrite recover_torn, Hrep|].
  unfold truth_of. destruct (decide (p = [])); cbn [recovery_finish set_operations
    rv_authority_epoch rv_operations rv_last_seq rv_compacted_from fst snd set_truncated];
    rewrite recovered_map by done;
    (split_and!; [congruence|by apply recovered_ids|done|done|apply recovered_elem]).
Qed.

(** ** One record *)

Lemma stage_record_Ok t w r n :
  stage_record t w = Ok (r, n) ->
  r = make_record (wr_next_seq w) t /\
  validate_cached_record (wr_recovery w) (wr_operation_indexes w) r = Ok tt /\
  (n = wr_next_seq w + 1)%N.
Proof.
  unfold stage_record, map_err, rbind, ok_or. intros H.
  destruct (validate_cached_record _ _ _) as [[]|] eqn:Ev; [|done].
  destruct (checked_succ _) eqn:En; [|done]. apply checked_succ_Some in En as [-> _].
  by injection H as <- <-.
Qed.

Lemma apply_cached_valid rv idx r rv' idx' :
  apply_cached_record rv idx r = (rv', idx') ->
  transition_validate (or_transition r) = Ok tt ->
  validate_cached_record rv idx r = Ok tt ->
  rv_authority_epoch rv <> 0%N -> Forall snapshot_ok (rv_operations rv) ->
  rv_authority_epoch rv' <> 0%N /\ Forall snapshot_ok (rv_operations rv').
Proof.
  unfold apply_cached_record, validate_cached_record. intros Ha Ht Hv He Hf.
  destruct (checked_succ _); [|done]. destruct (negb _) in Hv; [done|].
  destruct (or_transition r) as [from to|s|m]; [| |done].
  - apply epoch_transition_valid in Ht. simplify_eq/=. split; [lia|done].
  - cbn in Ht. destruct (idx !! os_id s); simplify_eq/=; (split; [done|]).
    + by apply Forall_insert.
    + apply Forall_app. by split; [|constructor].
Qed.

(** Committing a staged record keeps the cache invariant and moves the truth
    by exactly that transition. *)
Lemma commit_record_inv t j r n :
  cache_inv (fj_writer j) -> transition_validate t = Ok tt ->
  stage_record t (fj_writer j) = Ok (r, n) ->
  let j' := commit_record r n j in
  cache_inv (fj_writer j') /\ admissible (file_truth j) t /\
  file_truth j' = truth_apply (file_truth j) t /\
  fj_disk j' = fj_disk j /\ wr_file (fj_writer j') = wr_file (fj_writer j) /\
  wr_metadata (fj_writer j') = wr_metadata (fj_writer j) /\
  wr_failed (fj_writer j') = wr_failed (fj_writer j) /\
  rv_compacted_from (wr_recovery (fj_writer j')) =
    rv_compacted_from (wr_recovery (fj_writer j)).
Proof.
  intros (Hc & Hf & He & Hn) Ht Hs. cbn zeta.
  apply stage_record_Ok in Hs as (-> & Hv & ->). unfold commit_record, cache_inv, file_truth.
  destruct (apply_cached_record _ _ _) as [rv' idx'] eqn:Ha. cbn.
  destruct (apply_cached_ok _ _ _ _ _ Hc Hv Ha) as (Hc' & Htr & Hseq & _ & Hcf).
  destruct (validate_cached_admissible _ _ _ Hc Hv) as [Hadm _].
  destruct (apply_cached_valid _ _ _ _ _ Ha Ht Hv He Hf) as [He' Hf'].
  rewrite Hseq. by split_and!.
Qed.

(** The extended log folds to the committed cache. *)
Lemma log_of_snoc rs w t r n rv' idx' :
  cache_inv w -> transition_validate t = Ok tt -> stage_record t w = Ok (r, n) ->
  (wr_next_seq w <= MAX_OPERATION_JOURNAL_RECOVERY_RECORDS)%N ->
  log_of rs (wr_recovery w) -> small r ->
  (N.of_nat (length (frames rs ++ frame_line r)) <= MAX_OPERATION_JOURNAL_FILE_BYTES)%N ->
  apply_cached_record (wr_recovery w) (wr_operation_indexes w) r = (rv', idx') ->
  log_of (rs ++ [r]) rv'.
Proof.
  intros (Hc & _ & _ & Hn) Ht Hs Hle (Hsm & Hsz & rec & Hrep & He & Hl & Hcf) Hr Hsize Ha.
  apply stage_record_Ok in Hs as (Hr' & Hv & _).
  destruct (cached_fold_agree _ _ _ _ _ rec Hc Hv Ha He)
    as (rec' & Hfold & He' & Hl' & _ & _ & Hcf').
  destruct (apply_cached_ok _ _ _ _ _ Hc Hv Ha) as (_ & _ & Hseq & _ & Hcf'').
  split_and!; [by apply Forall_app; split; [|constructor]|by rewrite frames_snoc|].
  eexists. split.
  - rewrite replay_app, Hrep. cbn [rbind replay]. unfold recover_record.
    assert (Hrv : record_validate r = Ok tt).
    { subst r. unfold record_validate; cbn. by rewrite (proj2 (N.eqb_neq _ _)) by lia. }
    assert (Hexp : checked_succ (rv_last_seq rec) = Some (or_seq r)).
    { apply checked_succ_Some. subst r; cbn. rewrite Hl, Hn.
      unfold MAX_OPERATION_JOURNAL_RECOVERY_RECORDS, u64_max in *. lia. }
    rewrite Hrv, Hexp. cbn [map_err rbind]. rewrite N.eqb_refl. cbn [negb].
    rewrite Hfold. cbn [map_err rbind]. unfold set_last_seq at 1; cbn [rv_last_seq].
    destruct (N.ltb_spec MAX_OPERATION_JOURNAL_RECOVERY_RECORDS (or_seq r)) as [Hbad|_].
    { subst r; cbn in Hbad. lia. }
    reflexivity.
  - cbn. by rewrite Hseq, Hcf', Hcf'', Hcf.
Qed.

(** ** Appending to the WAL file *)

Lemma next_append_io_state j io j1 :
  next_append_io j = (io, j1) -> fj_disk j1 = fj_disk j /\ fj_writer j1 = fj_writer j.
Proof. unfold next_append_io. destruct (fj_append_io j); by intros [= _ <-]. Qed.

Lemma append_operation_record_cases io file r res file' :
  append_operation_record io file r = (res, file') ->
  match res with
  | Ok _ =>
      file' = file ++ frame_line r /\ small r /\
      (N.of_nat (length (file ++ frame_line r)) <= MAX_OPERATION_JOURNAL_FILE_BYTES)%N
  | Err (RejectedBeforeWrite capacity _) =>
      file' = file /\
      (capacity = true ->
       (MAX_OPERATION_JOURNAL_FILE_BYTES < N.of_nat (length (file ++ frame_line r)))%N)
  | Err (WriteFailed _) =>
      exists k, file' = file ++ take k (frame_line r) /\ small r /\
      (N.of_nat (length (file ++ frame_line r)) <= MAX_OPERATION_JOURNAL_FILE_BYTES)%N
  end.
Proof.
  unfold append_operation_record, small.
  assert (Hlen : N.of_nat (length (file ++ frame_line r)) =
    (N.of_nat (length file) + N.of_nat (length (encode_record r)) + 1)%N).
  { unfold frame_line. rewrite !length_app. cbn. lia. }
  rewrite Hlen. case_decide as Hd; [by intros [= <- <-]|].
  destruct (N.ltb_spec u64_max
    (N.of_nat (length file) + N.of_nat (length (encode_record r)) + 1)) as [|_];
    [destruct io; by intros [= <- <-]|].
  destruct (N.ltb_spec MAX_OPERATION_JOURNAL_FILE_BYTES
    (N.of_nat (length file) + N.of_nat (length (encode_record r)) + 1)) as [|Hsz];
    [destruct io; by intros [= <- <-]|].
  destruct io as [| |k|]; cbn; intros [= <- <-]; [split_and!; done || lia|done| |].
  - exists k. split_and!; done || lia.
  - exists (length (frame_line r)). rewrite take_ge by done. split_and!; done || lia.
Qed.

Lemma disk_holds_log d m rv p :
  disk_holds d m rv p -> exists rs, log_of rs rv /\ torn p /\
    (N.of_nat (length (frames rs ++ p)) <= MAX_OPERATION_JOURNAL_FILE_BYTES)%N /\
    dk_wals d !! authority_wal_path (md_generation m) = Some (frames rs ++ p).
Proof. by intros (_ & _ & _ & ?). Qed.

Lemma validate_generation_ext m rv rv' :
  rv_compacted_from rv' = rv_compacted_from rv ->
  validate_recovered_generation m rv' = validate_recovered_generation m rv.
Proof. unfold validate_recovered_generation. by intros ->. Qed.

(** Replacing the active WAL by the log of another recovery state. *)
Lemma disk_holds_set d m rv rs rv' p :
  metadata_ok m -> dk_meta d = Some (stored_metadata_to_vec (stored_metadata m)) ->
  validate_recovered_generation m rv = Ok tt ->
  rv_compacted_from rv' = rv_compacted_from rv ->
  log_of rs rv' -> torn p ->
  (N.of_nat (length (frames rs ++ p)) <= MAX_OPERATION_JOURNAL_FILE_BYTES)%N ->
  disk_holds (set_wal d (authority_wal_path (md_generation m)) (frames rs ++ p)) m rv' p.
Proof.
  intros Hm Hd Hg Hcf Hlog Hp Hsize. unfold disk_holds.
  rewrite (validate_generation_ext m rv rv') by done. split_and!; [done..|].
  exists rs. split_and!; [done..|]. apply lookup_insert_eq.
Qed.

Lemma reopens_intro d m rv p idx t0 :
  disk_holds d m rv p -> cache_ok rv idx -> Forall snapshot_ok (rv_operations rv) ->
  rv_authority_epoch rv <> 0%N -> settled t0 (truth_of rv) -> reopens d t0.
Proof.
  intros Hd Hc Hf He Hs. exists m, rv, p.
  exact (conj Hd (conj (indexed_NoDup _ _ Hc) (conj Hf (conj He Hs)))).
Qed.

(** The three outcomes of one append, for the active WAL [frames rs]. *)
Section append_outcomes.
Variables (t : OperationJournalTransition) (j : FileJournal) (r : OperationJournalRecord)
  (n : N) (rs : list OperationJournalRecord) (rv' : OperationJournalRecovery)
  (idx' : gmap N nat).
Let w := fj_writer j.
Let path := authority_wal_path (md_generation (wr_metadata w)).
Hypothesis Hcache : cache_inv w.
Hypothesis Hfile : wr_file w = path.
Hypothesis Hmeta : metadata_ok (wr_metadata w).
Hypothesis Hdm : dk_meta (fj_disk j) = Some (stored_metadata_to_vec (stored_metadata (wr_metadata w))).
Hypothesis Hgen : validate_recovered_generation (wr_metadata w) (wr_recovery w) = Ok tt.
Hypothesis Hlog : log_of rs (wr_recovery w).
Hypothesis Ht : transition_validate t = Ok tt.
Hypothesis Hs : stage_record t w = Ok (r, n).
Hypothesis Hle : (wr_next_seq w <= MAX_OPERATION_JOURNAL_RECOVERY_RECORDS)%N.
Hypothesis Hcached :
  apply_cached_record (wr_recovery w) (wr_operation_indexes w) r = (rv', idx').
Hypothesis Hsmall : small r.
Hypothesis Hsize :
  (N.of_nat (length (frames rs ++ frame_line r)) <= MAX_OPERATION_JOURNAL_FILE_BYTES)%N.

Lemma appended_disk d :
  dk_meta d = dk_meta (fj_disk j) ->
  disk_holds (set_wal d path (frames rs ++ frame_line r)) (wr_metadata w) rv' [].
Proof.
  intros Hd. rewrite <- frames_snoc, <- (app_nil_r (frames (rs ++ [r]))).
  pose proof (stage_record_Ok _ _ _ _ Hs) as (_ & Hv & _).
  destruct (apply_cached_ok _ _ _ _ _ (proj1 Hcache) Hv Hcached) as (_ & _ & _ & _ & Hcf).
  eapply disk_holds_set; [done|by rewrite Hd|exact Hgen|done| |by left|].
  - by eapply log_of_snoc.
  - by rewrite app_nil_r, frames_snoc.
Qed.

Lemma append_fenced d k :
  dk_meta d = dk_meta (fj_disk j) ->
  reopens (set_wal d path (frames rs ++ take k (frame_line r))) (truth_of (wr_recovery w)).
Proof.
  intros Hd. pose proof Hcache as (Hc & Hf & He & _).
  destruct (decide (k <= length (encode_record r))) as [Hk|Hk].
  - eapply reopens_intro; [|exact Hc|done|done|by left].
    eapply disk_holds_set; [done|by rewrite Hd|exact Hgen|done|done|by right; exists r, k|].
    rewrite length_app in *. rewrite length_take. lia.
  - rewrite take_ge by (unfold frame_line; rewrite length_app; cbn; lia).
    pose proof (stage_record_Ok _ _ _ _ Hs) as (Hr & Hv & _).
    assert (Hrt : or_transition r = t) by (by rewrite Hr).
    destruct (apply_cached_ok _ _ _ _ _ Hc Hv Hcached) as (Hc' & Htr & _).
    destruct (validate_cached_admissible _ _ _ Hc Hv) as [Hadm _]. rewrite Hrt in *.
    destruct (apply_cached_valid _ _ _ _ _ Hcached ltac:(by rewrite Hrt) Hv He Hf) as [He' Hf'].
    eapply reopens_intro; [by apply appended_disk|exact Hc'|done|done|].
    right. exists t. by rewrite Htr.
Qed.
End append_outcomes.

Lemma append_to_wal_inv t j r n res j' :
  file_inv j -> wr_failed (fj_writer j) = None ->
  transition_validate t = Ok tt -> stage_record t (fj_writer j) = Ok (r, n) ->
  (wr_next_seq (fj_writer j) <= MAX_OPERATION_JOURNAL_RECOVERY_RECORDS)%N ->
  append_to_wal r j = (res, j') ->
  match res with
  | Ok _ =>
      file_inv (commit_record r n j') /\ admissible (file_truth j) t /\
      file_truth (commit_record r n j') = truth_apply (file_truth j) t
  | Err (RejectedBeforeWrite capacity _) =>
      file_inv j' /\ fj_writer j' = fj_writer j /\ wal_content j' = wal_content j /\
      (capacity = true ->
       (MAX_OPERATION_JOURNAL_FILE_BYTES < N.of_nat (length (wal_content j ++ frame_line r)))%N)
  | Err (WriteFailed e) =>
      file_inv (fence_operation_writer j' e).2 /\
      file_truth (fence_operation_writer j' e).2 = file_truth j
  end.
Proof.
  intros (Hcache & Hfile & Hdisk) Hnf Ht Hs Hle Hap. rewrite Hnf in Hdisk.
  unfold append_to_wal in Hap. destruct (next_append_io j) as [io j1] eqn:Eio.
  apply next_append_io_state in Eio as [Ed Ew].
  destruct (append_operation_record _ _ _) as [r0 content] eqn:Ea. injection Hap as <- <-.
  destruct Hdisk as (Hm & Hmeta & Hgen & rs & Hlog & _ & Hsz & Hwal).
  rewrite app_nil_r in *. unfold wal_content in Ea. rewrite Ed, Ew, Hfile, Hwal in Ea. cbn in Ea.
  apply append_operation_record_cases in Ea.
  destruct (apply_cached_record (wr_recovery (fj_writer j)) (wr_operation_indexes (fj_writer j)) r)
    as [rv' idx'] eqn:Hcached.
  destruct r0 as [[]|[cap e|e]].
  - destruct Ea as (-> & Hsmall & Hsize).
    set (j2 := set_disk j1 _).
    edestruct (commit_record_inv t j2 r n) as (Hc' & Hadm & Htr & Hd' & Hf' & Hmd' & Hfa' & _);
      [by cbn; rewrite Ew|done|by cbn; rewrite Ew|].
    replace (file_truth j2) with (file_truth j) in Hadm, Htr
      by (unfold file_truth, j2; cbn; by rewrite Ew).
    split; [|exact (conj Hadm Htr)]. unfold file_inv. split; [exact Hc'|].
    rewrite Hf', Hmd', Hfa', Hd'. unfold j2 at 1 2 3 4 5 6. cbn [fj_writer set_disk fj_disk].
    rewrite Ew, Hnf, Hfile. split; [done|].
    unfold commit_record, j2. cbn [fj_writer set_disk]. rewrite Ew, Hcached. cbn -[set_wal].
    eapply appended_disk; try done. by rewrite Ed.
  - destruct Ea as [-> Hcap]. cbn [fj_writer set_disk].
    assert (Hc : wal_content j = frames rs) by (unfold wal_content; by rewrite Hfile, Hwal).
    rewrite Hc. assert (Hc1 : wal_content (set_disk j1 (set_wal (fj_disk j1) (wr_file (fj_writer j1))
      (frames rs))) = frames rs) by (unfold wal_content; cbn; by rewrite lookup_insert_eq).
    rewrite Hc1. split; [|done]. unfold file_inv.
    cbn [fj_disk fj_writer set_disk]. rewrite Ew, Ed, Hnf, Hfile.
    refine (conj Hcache (conj eq_refl _)). rewrite <- (app_nil_r (frames rs)).
    eapply disk_holds_set; [done|done|exact Hgen|done|done|by left|]. by rewrite app_nil_r.
  - destruct Ea as (k & -> & Hsmall & Hsize). unfold fence_operation_writer, file_truth.
    cbn [snd fj_writer set_writer set_disk set_failed wr_recovery]. rewrite Ew. split; [|done].
    unfold file_inv. cbn [fj_writer fj_disk set_writer set_disk wr_failed set_failed wr_file
      wr_metadata wr_recovery].
    rewrite Hfile. refine (conj Hcache (conj eq_refl _)).
    eapply append_fenced; try done. by rewrite Ed.
Qed.

(** ** Compaction *)

Definition upsert_records (off : nat) (ops : list OperationSnapshot) :
    list OperationJournalRecord :=
  imap (fun i s => make_record (N.of_nat (off + i) + 2) (OperationUpsert s)) ops.

Lemma upsert_records_cons off s ops :
  upsert_records off (s :: ops) =
    make_record (N.of_nat off + 2) (OperationUpsert s) :: upsert_records (S off) ops.
Proof.
  unfold upsert_records. cbn [imap]. rewrite Nat.add_0_r. f_equal.
  apply imap_ext. intros i x _. cbn. do 2 f_equal. lia.
Qed.

(** Replaying the live operations over a baseline installs each of them. *)
Lemma replay_upserts ops off rec m :
  rv_last_seq rec = (N.of_nat off + 1)%N -> rv_compacted_from rec <> None ->
  Forall snapshot_ok ops -> NoDup (os_id <$> ops) ->
  (forall s, s ∈ ops -> m !! os_id s = None) ->
  (N.of_nat (off + length ops) + 1 <= MAX_OPERATION_JOURNAL_RECOVERY_RECORDS)%N ->
  replay (rec, m) (upsert_records off ops) =
    Ok (set_last_seq rec (N.of_nat (off + length ops) + 1), ops_map ops ∪ m).
Proof.
  intros Hl Hc Hok Hnd Hm Hlim. revert off rec m Hl Hc Hnd Hm Hlim.
  induction Hok as [|s ops Hs Hok IH]; intros off rec m Hl Hc Hnd Hm Hlim.
  - cbn. rewrite Nat.add_0_r, <- Hl. unfold ops_map. cbn. rewrite (left_id_L ∅ (∪)).
    by destruct rec.
  - rewrite upsert_records_cons. cbn [replay]. cbn [length] in Hlim.
    apply NoDup_cons in Hnd as [Hni Hnd].
    assert (Hstep : recover_record (rec, m) (make_record (N.of_nat off + 2) (OperationUpsert s)) =
      Ok (set_last_seq rec (N.of_nat off + 2), <[os_id s := s]> m)).
    { unfold recover_record, record_validate, fold_operation_record.
      cbn [make_record or_version or_seq or_transition transition_validate].
      rewrite N.eqb_refl, (proj2 (N.eqb_neq _ _)) by lia. cbn [negb]. rewrite Hs.
      cbn [map_err rbind].
      replace (checked_succ (rv_last_seq rec)) with (Some (N.of_nat off + 2)%N).
      2:{ symmetry. apply checked_succ_Some. rewrite Hl.
          unfold u64_max, MAX_OPERATION_JOURNAL_RECOVERY_RECORDS in *. lia. }
      rewrite N.eqb_refl, (Hm s) by (by left). cbn [negb].
      rewrite bool_decide_eq_false_2 by done. cbn [andb map_err rbind fst snd].
      unfold set_last_seq at 1; cbn [rv_last_seq].
      rewrite (proj2 (N.ltb_ge _ _)) by lia. done. }
    rewrite Hstep. cbn [rbind]. rewrite IH.
    + cbn [length]. rewrite Nat.add_succ_r. unfold ops_map at 2. cbn [fmap list_fmap].
      cbn [list_to_map foldr fst snd uncurry]. f_equal. f_equal.
      unfold set_last_seq. cbn.
      rewrite <- insert_union_l, <- insert_union_r; [done|].
      by apply ops_map_lookup_None.
    + cbn. lia.
    + done.
    + done.
    + intros x Hx. rewrite lookup_insert_ne; [apply Hm; by right|].
      intros Heq. apply Hni. rewrite Heq. by apply list_elem_of_fmap_2.
    + lia.
Qed.

Lemma replay_compaction previous ops :
  marker_validate previous = Ok tt -> Forall snapshot_ok ops -> NoDup (os_id <$> ops) ->
  (N.of_nat (length ops) + 1 <= MAX_OPERATION_JOURNAL_RECOVERY_RECORDS)%N ->
  replay replay_start (compaction_records previous ops) =
    Ok ({| rv_last_seq := N.of_nat (length ops) + 1;
           rv_authority_epoch := acm_authority_epoch previous; rv_operations := [];
           rv_truncated_tail := false; rv_compacted_from := Some previous |}, ops_map ops).
Proof.
  intros Hp Hok Hnd Hlim. unfold compaction_records. cbn [replay].
  assert (Hbase : recover_record replay_start (make_record 1 (Compacted previous)) =
    Ok (set_last_seq (set_baseline recovery_default previous) 1, ∅)).
  { unfold recover_record, record_validate, fold_operation_record. cbn -[marker_validate].
    by rewrite !Hp. }
  rewrite Hbase. cbn [rbind].
  etrans; [refine (replay_upserts ops 0 _ ∅ _ _ Hok Hnd _ _); done|].
  by rewrite (right_id_L ∅ (∪)).
Qed.

Lemma compaction_last_seq previous ops :
  from_option or_seq 1%N (last (compaction_records previous ops)) =
    (N.of_nat (length ops) + 1)%N.
Proof.
  unfold compaction_records. destruct ops as [|s ops _] using rev_ind; [done|].
  rewrite imap_app, app_comm_cons. cbn [imap]. rewrite last_snoc, length_app. cbn. lia.
Qed.

Lemma next_compact_io_state j io j1 :
  next_compact_io j = (io, j1) -> fj_disk j1 = fj_disk j /\ fj_writer j1 = fj_writer j.
Proof. unfold next_compact_io. destruct (fj_compact_io j); by intros [= _ <-]. Qed.

Lemma write_operation_records_ok io rs u content :
  write_operation_records io rs = (Ok u, content) ->
  Forall small rs /\ content = frames rs /\
  (N.of_nat (length (frames rs)) <= MAX_OPERATION_JOURNAL_FILE_BYTES)%N.
Proof.
  unfold write_operation_records. destruct (existsb _ _) eqn:Ex; [done|].
  fold (frames rs). destruct (N.ltb_spec MAX_OPERATION_JOURNAL_FILE_BYTES
    (N.of_nat (length (frames rs)))); [done|].
  destruct io; [done|]. intros [= _ <-]. split; [|done].
  apply Forall_forall. intros r Hr. unfold small.
  destruct (decide (MAX_OPERATION_JOURNAL_FRAME_BYTES < length (encode_record r)))
    as [Hlt|]; [|lia].
  apply not_true_iff_false in Ex. destruct Ex. apply existsb_exists.
  exists r. split; [by apply list_elem_of_In|by apply bool_decide_eq_true].
Qed.

(** Files of other generations do not matter. *)
Lemma disk_holds_other d m rv p path content :
  disk_holds d m rv p -> path <> authority_wal_path (md_generation m) ->
  disk_holds (set_wal d path content) m rv p.
Proof.
  intros (Hm & Hd & Hg & rs & Hlog & Hp & Hsz & Hw) Hne. unfold disk_holds.
  split_and!; [done..|]. exists rs. split_and!; [done..|].
  cbn. by rewrite lookup_insert_ne.
Qed.

Lemma disk_holds_remove d m rv p path :
  disk_holds d m rv p -> path <> authority_wal_path (md_generation m) ->
  disk_holds (remove_wal d path) m rv p.
Proof.
  intros (Hm & Hd & Hg & rs & Hlog & Hp & Hsz & Hw) Hne. unfold disk_holds.
  split_and!; [done..|]. exists rs. split_and!; [done..|].
  cbn. by rewrite lookup_delete_ne.
Qed.

Lemma persist_metadata_cases io m d r d' :
  persist_authority_metadata io m d = (r, d') ->
  match r with
  | Err (RecoveryRequired _) | Ok _ =>
      d' = set_meta d (stored_metadata_to_vec (stored_metadata m)) /\
      (N.of_nat (length (stored_metadata_to_vec (stored_metadata m)))
         <= MAX_AUTHORITY_JOURNAL_METADATA_BYTES)%N
  | Err _ => d' = d
  end.
Proof.
  unfold persist_authority_metadata.
  destruct (N.ltb_spec MAX_AUTHORITY_JOURNAL_METADATA_BYTES
    (N.of_nat (length (stored_metadata_to_vec (stored_metadata m))))); [by intros [= <- <-]|].
  by destruct io; intros [= <- <-].
Qed.

(** What every step of the journal preserves; [b]: the step was acknowledged,
    so the writer is healthy. *)
Definition kept (b : bool) (j j' : FileJournal) : Prop :=
  file_inv j' /\ file_truth j' = file_truth j /\ (b = true -> wr_failed (fj_writer j') = None).

Lemma kept_healthy b j jx :
  cache_inv (fj_writer j) ->
  wr_file (fj_writer j) = authority_wal_path (md_generation (wr_metadata (fj_writer j))) ->
  wr_failed (fj_writer j) = None -> fj_writer jx = fj_writer j ->
  disk_holds (fj_disk jx) (wr_metadata (fj_writer j)) (wr_recovery (fj_writer j)) [] ->
  kept b j jx.
Proof. intros Hc Hf Hn Hw Hd. unfold kept, file_inv, file_truth. rewrite Hw, Hn. done. Qed.

(** The state of the writer and the disk once the new generation has been
    published. *)
Section compacted.
Variables (w : OperationWriterState) (d : Disk) (g' : N).
Hypothesis Hcache : cache_inv w.
Hypothesis Hmeta : metadata_ok (wr_metadata w).
Hypothesis Hsucc : checked_succ (md_generation (wr_metadata w)) = Some g'.
Let previous := authority_checkpoint_marker (wr_metadata w) (wr_recovery w).
Let operations := sort_by_id (rv_operations (wr_recovery w)).
Let records := compaction_records previous operations.
Let m' := {| md_version := AUTHORITY_JOURNAL_METADATA_VERSION;
             md_journal_id := md_journal_id (wr_metadata w); md_generation := g';
             md_ancestors := push_ancestor (md_ancestors (wr_metadata w)) previous |}.
Let last_seq := from_option or_seq 1%N (last records).
Let w' := compacted_writer w previous operations m' last_seq (last_seq + 1).
Hypothesis Hlimit : (N.of_nat (length records) <= MAX_OPERATION_JOURNAL_RECOVERY_RECORDS)%N.
Hypothesis Hsmall : Forall small records.
Hypothesis Hsize : (N.of_nat (length (frames records)) <= MAX_OPERATION_JOURNAL_FILE_BYTES)%N.
Hypothesis Hlen : (N.of_nat (length (stored_metadata_to_vec (stored_metadata m')))
                     <= MAX_AUTHORITY_JOURNAL_METADATA_BYTES)%N.

Lemma compacted_ids : NoDup (os_id <$> operations) /\
  NoDup (os_id <$> rv_operations (wr_recovery w)).
Proof.
  destruct Hcache as (Hc & _). pose proof (indexed_NoDup _ _ Hc).
  split; [|done]. unfold operations. by rewrite sort_by_id_perm.
Qed.

Lemma compacted_cache : cache_inv w' /\ truth_of (wr_recovery w') = truth_of (wr_recovery w).
Proof.
  destruct Hcache as (_ & Hf & He & _), compacted_ids as [Hnd Hnd'].
  split; [split_and!|].
  - by apply build_indexes_indexed.
  - cbn. unfold operations. by rewrite sort_by_id_perm.
  - done.
  - done.
  - unfold truth_of. cbn. unfold operations. by rewrite sorted_map.
Qed.

Lemma compacted_log : log_of records (wr_recovery w').
Proof.
  destruct Hcache as (_ & Hf & He & _), compacted_ids as [Hnd _].
  destruct Hmeta as (_ & Hid & Hg & _).
  assert (Hp : marker_validate previous = Ok tt).
  { unfold marker_validate, is_nil, previous. cbn.
    by rewrite !(proj2 (N.eqb_neq _ _)). }
  split_and!; [done..|]. eexists. split.
  - unfold records. rewrite replay_compaction; [done|done| |done|].
    + unfold operations. by rewrite sort_by_id_perm.
    + unfold records, compaction_records in Hlimit. cbn [length] in Hlimit.
      rewrite length_imap in Hlimit. lia.
  - cbn. split_and!; [done| |done]. unfold last_seq, records. by rewrite compaction_last_seq.
Qed.

Lemma compacted_path :
  authority_wal_path (md_generation (wr_metadata w)) <> authority_wal_path g'.
Proof.
  clear Hlimit Hsmall Hsize Hlen.
  destruct (proj1 (checked_succ_Some _ _) Hsucc) as [-> _]. destruct Hmeta as (_ & _ & Hg & _).
  intros Heq%path_inj; lia.
Qed.

Lemma compacted_disk :
  disk_holds (set_meta (set_wal d (authority_wal_path g') (frames records))
    (stored_metadata_to_vec (stored_metadata m'))) m' (wr_recovery w') [].
Proof.
  destruct Hmeta as (_ & Hid & Hg & _).
  destruct (proj1 (checked_succ_Some _ _) Hsucc) as [Hg' _].
  unfold disk_holds. split_and!.
  - unfold metadata_ok. cbn [m' md_version md_journal_id md_generation].
    split_and!; [done|done|lia|done].
  - done.
  - unfold validate_recovered_generation. cbn.
    rewrite (proj2 (N.eqb_neq g' 1)) by lia. rewrite N.eqb_refl.
    by rewrite bool_decide_eq_true_2 by exact Hsucc.
  - exists records. split_and!; [apply compacted_log|by left|by rewrite app_nil_r|].
    cbn. rewrite lookup_insert_eq. by rewrite app_nil_r.
Qed.

Let published_disk := set_meta (set_wal d (authority_wal_path g') (frames records))
  (stored_metadata_to_vec (stored_metadata m')).

Lemma compacted_kept j jx :
  fj_writer j = w -> wr_failed w = None -> fj_writer jx = w' ->
  fj_disk jx = published_disk \/
    fj_disk jx = remove_wal published_disk (authority_wal_path (md_generation (wr_metadata w))) ->
  kept true j jx.
Proof.
  intros Hj Hf Hw Hd. destruct compacted_cache as [Hc Ht].
  unfold kept, file_inv, file_truth. rewrite Hw, Hj.
  refine (conj (conj Hc (conj eq_refl _)) (conj Ht (fun _ => Hf))).
  replace (wr_failed w') with (@None text) by (symmetry; exact Hf).
  destruct Hd as [-> | ->]; [|apply disk_holds_remove; [|exact compacted_path]];
    exact compacted_disk.
Qed.

Lemma compacted_fenced j jx e :
  fj_writer j = w -> wr_file w = authority_wal_path (md_generation (wr_metadata w)) ->
  fj_writer jx = set_failed w e -> fj_disk jx = published_disk -> kept false j jx.
Proof.
  intros Hj Hf Hw Hd. destruct compacted_cache as [Hc Ht].
  unfold kept, file_inv, file_truth. rewrite Hw, Hd, Hj.
  refine (conj (conj Hcache (conj Hf _)) (conj eq_refl _)); [|done].
  cbn [wr_failed set_failed]. destruct Hc as (Hc & Hs & He & _).
  eapply reopens_intro; [exact compacted_disk|exact Hc|exact Hs|exact He|].
  left. exact Ht.
Qed.
End compacted.

Lemma compact_locked_inv j r j' :
  file_inv j -> compact_locked j = (r, j') -> kept (is_Ok r) j j'.
Proof.
  intros Hinv. unfold compact_locked.
  destruct (wr_failed (fj_writer j)) as [err|] eqn:Hnf; [by intros [= <- <-]|].
  destruct (rv_last_seq _ =? 0)%N; [by intros [= <- <-]|].
  destruct (checked_succ _) as [g'|] eqn:Hg; [|by intros [= <- <-]].
  destruct (N.ltb_spec MAX_OPERATION_JOURNAL_RECOVERY_RECORDS (N.of_nat (length
    (compaction_records (authority_checkpoint_marker (wr_metadata (fj_writer j))
      (wr_recovery (fj_writer j))) (sort_by_id (rv_operations (wr_recovery (fj_writer j))))))))
    as [|Hlimit]; [by intros [= <- <-]|].
  destruct Hinv as (Hcache & Hfile & Hdisk). rewrite Hnf in Hdisk.
  pose proof Hdisk as (Hmeta & Hdm & _).
  destruct (next_compact_io j) as [io j1] eqn:Eio.
  apply next_compact_io_state in Eio as [Ed Ew].
  assert (Hkeep : forall b jx c, fj_writer jx = fj_writer j ->
    fj_disk jx = fj_disk j \/ fj_disk jx = set_wal (fj_disk j1) (authority_wal_path g') c ->
    kept b j jx).
  { intros b jx c Hw Hd. apply kept_healthy; [done..|].
    destruct Hd as [->| ->]; [done|]. rewrite Ed.
    apply disk_holds_other; [done|]. apply not_eq_sym. by apply compacted_path. }
  assert (io = CandidateFails \/ io <> CandidateFails) as [->|Hio]
    by (destruct io; by first [left; done|right]).
  { intros [= <- <-]. by apply (Hkeep _ _ []); [|left]. }
  destruct (write_operation_records _ _) as [written candidate] eqn:Ewr.
  assert (Hcand : forall b jx, jx = set_disk j1 (set_wal (fj_disk j1) (authority_wal_path g') candidate)
    -> kept b j jx).
  { intros b jx ->. by apply (Hkeep _ _ candidate); [|right]. }
  destruct written as [u|ew]; [|destruct io; intros [= <- <-]; by try apply Hcand].
  apply write_operation_records_ok in Ewr as (Hsmall & -> & Hsize).
  rewrite compaction_last_seq.
  destruct (checked_succ (_ + 1)) as [next_seq|] eqn:Hns;
    [|destruct io; intros [= <- <-]; by try apply Hcand].
  destruct (persist_authority_metadata _ _ _) as [published d2] eqn:Ep.
  apply persist_metadata_cases in Ep.
  rewrite <- compaction_last_seq with (previous := authority_checkpoint_marker
    (wr_metadata (fj_writer j)) (wr_recovery (fj_writer j))) in Hns.
  apply checked_succ_Some in Hns as [-> _]. rewrite <- (compaction_last_seq (authority_checkpoint_marker
    (wr_metadata (fj_writer j)) (wr_recovery (fj_writer j)))).
  destruct published as [u'|ep].
  - destruct Ep as [-> Hlen]. rewrite Ed in *.
    destruct io as [[]| | | | |]; try done; intros [= <- <-]; try (by apply Hcand);
      (eapply compacted_kept; [exact Hcache|exact Hmeta|exact Hg|exact Hlimit|exact Hsmall
        |exact Hsize|exact Hlen|done|done|done|]); by (left + right).
  - destruct ep; destruct io; try done; intros [= <- <-]; try (by apply Hcand);
     try (subst d2; by apply Hcand);
     destruct Ep as [-> Hlen]; cbn [is_Ok]; rewrite Ed in *;
     (eapply compacted_fenced; [exact Hcache|exact Hmeta|exact Hg|exact Hlimit|exact Hsmall
        |exact Hsize|exact Hlen|done|done|done|done]).
Qed.

End facts.

(** What Core and the operator rely on of the file journal: the
    [OperationJournalLaws] instance, the bounded capacity retry (it never
    overruns the recovery limit, although the code checks only the byte limit
    there), opening a journal, and durability across restarts. *)

Section laws.
Context `{CD : Codec, CL : !CodecLaws}.

(** ** The size of numbered logs *)

Definition numbered (off : nat) (ts : list OperationJournalTransition) :
    list OperationJournalRecord :=
  imap (fun i t => make_record (N.of_nat (off + i) + 1) t) ts.

Lemma numbered_cons off t ts :
  numbered off (t :: ts) = make_record (N.of_nat off + 1) t :: numbered (S off) ts.
Proof.
  unfold numbered. cbn [imap]. rewrite Nat.add_0_r. f_equal.
  apply imap_ext. intros i x _. cbn. do 2 f_equal. lia.
Qed.

Lemma numbered_snoc off ts t :
  numbered off (ts ++ [t]) =
    numbered off ts ++ [make_record (N.of_nat (off + length ts) + 1) t].
Proof. unfold numbered. rewrite imap_app. cbn. by rewrite Nat.add_0_r. Qed.

Lemma numbered_size :
  exists (c : OperationJournalTransition -> nat) (d : nat -> nat),
    (forall n n', n <= n' -> d n <= d n') /\
    forall off ts, length (frames (numbered off ts)) =
      sum_list (c <$> ts) + sum_list (d <$> seq off (length ts)).
Proof.
  destruct frame_size as (c & d & Hmono & Hsize).
  exists (fun t => S (c OPERATION_JOURNAL_VERSION t)), (fun n => d (N.of_nat n + 1)%N).
  split; [intros n n' Hle; apply Hmono; lia|].
  intros off ts. revert off. induction ts as [|t ts IH]; intros off; [done|].
  rewrite numbered_cons. change (frames (?r :: ?l)) with (frame_line r ++ frames l).
  rewrite length_app, IH. unfold frame_line. rewrite length_app.
  assert (Hr := Hsize (make_record (N.of_nat off + 1) t)).
  change (length (encode_record (make_record (N.of_nat off + 1) t)) =
    c OPERATION_JOURNAL_VERSION t + d (N.of_nat off + 1)%N) in Hr.
  rewrite Hr. cbn. lia.
Qed.

(** Reordering the transitions and moving them to later sequence numbers
    never shrinks a log. *)
Lemma numbered_grow off off' ts ts' :
  ts ≡ₚ ts' -> off <= off' ->
  length (frames (numbered off ts)) <= length (frames (numbered off' ts')).
Proof.
  intros Hp Hle. destruct numbered_size as (c & d & Hmono & Hsize). rewrite !Hsize.
  assert (sum_list (c <$> ts) = sum_list (c <$> ts')) as -> by (by rewrite Hp).
  rewrite (Permutation_length Hp). clear Hp Hsize. generalize (length ts'). intros n.
  apply Nat.add_le_mono_l. revert off off' Hle. induction n as [|n IH]; intros off off' Hle; [done|].
  cbn. pose proof (Hmono off off' Hle). pose proof (IH (S off) (S off')). lia.
Qed.

Lemma upsert_records_numbered off ops :
  upsert_records off ops = numbered (S off) (OperationUpsert <$> ops).
Proof.
  unfold upsert_records, numbered. rewrite imap_fmap. apply imap_ext.
  intros i x _. cbn. f_equal. lia.
Qed.

(** A replayable log is numbered from 1 and carries version 1. *)
Lemma replay_numbered rs st :
  replay replay_start rs = Ok st -> rs = numbered 0 (or_transition <$> rs).
Proof.
  revert st. induction rs as [|r rs IH] using rev_ind; intros st; [done|].
  rewrite replay_app. unfold rbind. destruct (replay replay_start rs) as [st1|] eqn:E; [|done].
  cbn [replay]. unfold rbind. destruct (recover_record st1 r) as [st2|] eqn:Er; [|done].
  intros _. rewrite fmap_app. cbn [fmap list_fmap]. rewrite numbered_snoc, <- (IH _ eq_refl).
  f_equal. f_equal. rewrite length_fmap.
  pose proof (recover_record_seq _ _ _ Er) as (_ & Hseq & _).
  apply replay_seq in E. cbn in E. rewrite E in Hseq.
  unfold recover_record in Er. destruct st1 as [rv m].
  destruct (record_validate r) as [[]|] eqn:Ev; [|done].
  unfold record_validate in Ev.
  destruct (N.eqb_spec (or_version r) OPERATION_JOURNAL_VERSION) as [Hv|]; [|done].
  destruct r as [v s t]. cbn in *. unfold make_record. by rewrite Hv, Hseq.
Qed.

(** An uncompacted log is at least as long as the operations it leaves; when
    it is exactly as long, it is one record per operation. *)
Lemma replay_count rs rec m :
  replay replay_start rs = Ok (rec, m) ->
  (rv_compacted_from rec = None /\
     (size m < length rs \/
      size m = length rs /\ or_transition <$> rs ≡ₚ OperationUpsert <$> (map_to_list m).*2))
  \/ (rv_compacted_from rec <> None /\ size m < length rs).
Proof.
  revert rec m. induction rs as [|r rs IH] using rev_ind; intros rec m.
  - intros [= <- <-]. left. split; [done|]. right. by rewrite map_size_empty, map_to_list_empty.
  - rewrite replay_app. unfold rbind. destruct (replay replay_start rs) as [[rv m1]|]; [|done].
    cbn [replay]. unfold rbind at 1. destruct (recover_record (rv, m1) r) as [st2|] eqn:Er; [|done].
    intros [= ->]. specialize (IH _ _ eq_refl). rewrite length_app, fmap_app. cbn [length fmap list_fmap].
    unfold recover_record, map_err, rbind in Er.
    destruct (record_validate r); [|done]. destruct (checked_succ _); [|done].
    destruct (negb _) in Er; [done|].
    destruct (fold_operation_record rv m1 r) as [[rv2 m2]|] eqn:Ef; [|done].
    destruct (_ <? _)%N in Er; [done|]. injection Er as <- <-. cbn.
    unfold fold_operation_record in Ef. destruct (or_transition r) as [from to|s|b].
    + destruct (negb _) in Ef; [done|]. injection Ef as <- <-. cbn. naive_solver lia.
    + destruct (m1 !! os_id s) as [p|] eqn:Em.
      * destruct (_ || _) in Ef; [done|]. injection Ef as <- <-.
        rewrite map_size_insert_Some by eauto. naive_solver lia.
      * destruct (_ && _) in Ef; [done|]. injection Ef as <- <-.
        rewrite map_size_insert_None by done.
        destruct IH as [[Hc [Hlt|[Heq Hp]]]|[Hc Hlt]]; [left; split; [done|]; left; lia| |right; split; [done|lia]].
        left. split; [done|]. right. split; [lia|].
        rewrite map_to_list_insert, Hp by done. cbn.
        by rewrite Permutation_app_comm.
    + destruct (_ || _) eqn:Eb in Ef; [done|]. unfold rbind in Ef.
      destruct (marker_validate b); [|done]. injection Ef as <- <-. right. cbn. split; [done|].
      apply orb_false_iff in Eb as [_ Eb%negb_false_iff%bool_decide_eq_true].
      destruct IH as [[_ IH]|[? _]]; [lia|done].
Qed.

(** ** The capacity retry *)

Lemma ops_map_values l : NoDup (os_id <$> l) -> (map_to_list (ops_map l)).*2 ≡ₚ l.
Proof.
  intros Hnd. unfold ops_map. rewrite map_to_list_to_map.
  - rewrite <- list_fmap_compose. cbn. by rewrite list_fmap_id.
  - by rewrite <- list_fmap_compose.
Qed.

Lemma ops_map_size l : NoDup (os_id <$> l) -> size (ops_map l) = length l.
Proof.
  intros Hnd. rewrite <- length_map_to_list, <- (length_fmap snd).
  apply Permutation_length. by apply ops_map_values.
Qed.

Lemma push_ancestor_elem ancestors previous : previous ∈ push_ancestor ancestors previous.
Proof.
  unfold push_ancestor, MAX_AUTHORITY_JOURNAL_ANCESTORS. rewrite length_app. cbn [length].
  rewrite drop_app_le by lia. apply elem_of_app. right. by left.
Qed.

(** What a successful compaction leaves: nothing was there to compact, or the
    next sequence number follows the baseline and the live operations. *)
Lemma compact_locked_ok j m j1 :
  compact_locked j = (Ok m, j1) ->
  (j1 = j /\ rv_last_seq (wr_recovery (fj_writer j)) = 0%N) \/
  exists previous,
    previous = authority_checkpoint_marker (wr_metadata (fj_writer j)) (wr_recovery (fj_writer j)) /\
    m = authority_checkpoint_marker (wr_metadata (fj_writer j1)) (wr_recovery (fj_writer j1)) /\
    md_journal_id (wr_metadata (fj_writer j1)) = md_journal_id (wr_metadata (fj_writer j)) /\
    previous ∈ md_ancestors (wr_metadata (fj_writer j1)) /\
    let ops := sort_by_id (rv_operations (wr_recovery (fj_writer j))) in
    (N.of_nat (length ops) + 1 <= MAX_OPERATION_JOURNAL_RECOVERY_RECORDS)%N /\
    wr_next_seq (fj_writer j1) = (N.of_nat (length ops) + 2)%N /\
    (checked_succ (md_generation (wr_metadata (fj_writer j))) =
      Some (md_generation (wr_metadata (fj_writer j1)))) /\
    (metadata_ok (wr_metadata (fj_writer j)) ->
     wal_content j1 = frames (compaction_records previous ops)).
Proof.
  unfold compact_locked.
  destruct (wr_failed (fj_writer j)); [done|].
  destruct (N.eqb_spec (rv_last_seq (wr_recovery (fj_writer j))) 0) as [H0|_].
  { intros [= _ <-]. by left. }
  destruct (checked_succ (md_generation _)) as [g'|] eqn:Hg; [|done].
  match goal with |- context [compaction_records ?p ?o] => set (previous := p); set (ops := o) end.
  destruct (N.ltb_spec MAX_OPERATION_JOURNAL_RECOVERY_RECORDS
    (N.of_nat (length (compaction_records previous ops)))) as [|Hlimit]; [done|].
  destruct (next_compact_io j) as [io j2] eqn:Eio.
  apply next_compact_io_state in Eio as [Ed Ew].
  destruct (write_operation_records _ _) as [written candidate] eqn:Ewr.
  rewrite (compaction_last_seq previous ops).
  destruct (checked_succ (_ + 1)) as [next_seq|] eqn:Hns; [|by destruct io, written].
  apply checked_succ_Some in Hns as [-> _].
  destruct written as [u|]; [|by destruct io].
  apply write_operation_records_ok in Ewr as (_ & -> & _).
  destruct (persist_authority_metadata _ _ _) as [published d2] eqn:Ep.
  apply persist_metadata_cases in Ep.
  destruct published as [u'|e]; [|by destruct io, e].
  destruct Ep as [-> _].
  unfold compaction_records in Hlimit. cbn [length] in Hlimit. rewrite length_imap in Hlimit.
  intros H. right. exists previous. cbn zeta. split; [done|].
  assert (Hpath : metadata_ok (wr_metadata (fj_writer j)) ->
    authority_wal_path (md_generation (wr_metadata (fj_writer j))) <> authority_wal_path g').
  { intros (_ & _ & Hg0 & _) Heq%path_inj; apply checked_succ_Some in Hg as [-> _]; lia. }
  destruct io as [[]| | | | |]; try done; injection H as <- <-; (split; [reflexivity|]); cbn;
    (split; [done|split; [apply push_ancestor_elem|]]);
    (split; [lia|split; [lia|split; [done|intros Hm; unfold wal_content; cbn]]]);
    rewrite ?lookup_delete_ne, lookup_insert_eq by auto; done.
Qed.

Lemma wal_is_log j :
  file_inv j -> wr_failed (fj_writer j) = None ->
  metadata_ok (wr_metadata (fj_writer j)) /\
  exists rs rec, wal_content j = frames rs /\
    replay replay_start rs = Ok (rec, ops_map (rv_operations (wr_recovery (fj_writer j)))) /\
    (wr_next_seq (fj_writer j) = N.of_nat (length rs) + 1)%N.
Proof.
  intros ((_ & _ & _ & Hn) & Hf & Hd) Hnf. rewrite Hnf in Hd.
  destruct Hd as (Hm & _ & _ & rs & (_ & _ & rec & Hrep & _ & Hl & _) & _ & _ & Hw).
  split; [done|]. exists rs, rec. unfold wal_content. rewrite Hf, Hw, app_nil_r.
  split_and!; [done..|]. apply replay_seq in Hrep. cbn in *. lia.
Qed.

(** The retry is refused, before any byte is written, when compaction leaves
    the writer beyond the record recovery limit: the log then holds one record
    per operation and compaction cannot have made it shorter. *)
Lemma retry_refused j m j1 t io r :
  file_inv j -> wr_failed (fj_writer j) = None ->
  (wr_next_seq (fj_writer j) <= MAX_OPERATION_JOURNAL_RECOVERY_RECORDS)%N ->
  (MAX_OPERATION_JOURNAL_FILE_BYTES <
     N.of_nat (length (wal_content j ++ frame_line (make_record (wr_next_seq (fj_writer j)) t))))%N ->
  compact_locked j = (Ok m, j1) ->
  (MAX_OPERATION_JOURNAL_RECOVERY_RECORDS < wr_next_seq (fj_writer j1))%N ->
  r = make_record (wr_next_seq (fj_writer j1)) t ->
  exists c e, append_operation_record io (wal_content j1) r =
    (Err (RejectedBeforeWrite c e), wal_content j1).
Proof.
  intros Hinv Hnf Hle Hbig Hcomp Hover Hr.
  destruct (wal_is_log j Hinv Hnf) as (Hm & rs & rec & Hwal & Hrep & Hns).
  destruct (compact_locked_ok _ _ _ Hcomp) as [[-> _]|(previous & _ & _ & _ & _ & Hlim & Hn1 & _ & Hw1)]; [lia|].
  specialize (Hw1 Hm). set (ops := sort_by_id _) in *.
  assert (Hnd : NoDup (os_id <$> rv_operations (wr_recovery (fj_writer j)))).
  { eapply indexed_NoDup, Hinv. }
  assert (Hlen : length ops = length (rv_operations (wr_recovery (fj_writer j))))
    by (apply Permutation_length, sort_by_id_perm).
  pose proof (ops_map_size _ Hnd) as Hsz. pose proof (replay_numbered _ _ Hrep) as Hnum.
  destruct (replay_count _ _ _ Hrep) as [[_ [Hlt|[Heq Hp]]]|[_ Hlt]]; [lia| |lia].
  rewrite ops_map_values in Hp by done.
  assert (Hts : or_transition <$> rs ≡ₚ OperationUpsert <$> ops)
    by (unfold ops; by rewrite Hp, sort_by_id_perm).
  assert (Hgrow : length (wal_content j ++ frame_line (make_record (wr_next_seq (fj_writer j)) t))
    <= length (wal_content j1 ++ frame_line r)).
  { pose proof (numbered_grow 0 1 ((or_transition <$> rs) ++ [t]) ((OperationUpsert <$> ops) ++ [t])
      ltac:(by rewrite Hts) ltac:(lia)) as Hg.
    rewrite !numbered_snoc, <- Hnum, !frames_snoc, !length_fmap in Hg.
    rewrite Hwal, Hw1, Hr, Hn1, Hns. unfold compaction_records.
    change (frames (?a :: ?l)) with (frame_line a ++ frames l).
    change (imap _ ops) with (upsert_records 0 ops). rewrite upsert_records_numbered.
    rewrite !length_app in *. cbn [Nat.add] in Hg.
    replace (N.of_nat (S (length ops)) + 1)%N with (N.of_nat (length ops) + 2)%N in Hg by lia.
    lia. }
  destruct (append_operation_record io (wal_content j1) r) as [res file'] eqn:Ea.
  apply append_operation_record_cases in Ea. destruct res as [u|[c e|e]].
  - lia.
  - destruct Ea as [-> _]. eauto.
  - destruct Ea as (? & _ & _ & ?). lia.
Qed.

(** ** Appending *)

(** The contract of one append. *)
Definition appended (t : OperationJournalTransition) (j : FileJournal)
    (res : AgentResult OperationJournalRecord) (j' : FileJournal) : Prop :=
  file_inv j' /\
  match res with
  | Ok r => admissible (file_truth j) t /\ file_truth j' = truth_apply (file_truth j) t /\
            or_transition r = t
  | Err _ => file_truth j' = file_truth j
  end.

Lemma appended_err t j e j' : kept false j j' -> appended t j (Err e) j'.
Proof. intros (Hi & Ht & _). done. Qed.

Lemma appended_trans t b j j1 res j' : kept b j j1 -> appended t j1 res j' -> appended t j res j'.
Proof. intros (_ & Ht & _). unfold appended. by rewrite Ht. Qed.

Lemma reserve_sequence_kept j r j' :
  file_inv j -> wr_failed (fj_writer j) = None -> reserve_sequence j = (r, j') ->
  kept (is_Ok r) j j' /\
  (is_Ok r = true -> (wr_next_seq (fj_writer j') <= MAX_OPERATION_JOURNAL_RECOVERY_RECORDS)%N).
Proof.
  intros Hinv Hnf. unfold reserve_sequence.
  destruct (N.ltb_spec MAX_OPERATION_JOURNAL_RECOVERY_RECORDS (wr_next_seq (fj_writer j)));
    [|by intros [= <- <-]].
  destruct (compact_locked j) as [rc j1] eqn:Ec. apply compact_locked_inv in Ec; [|done].
  destruct rc as [m|e]; [|by intros [= <- <-]].
  destruct (N.ltb_spec MAX_OPERATION_JOURNAL_RECOVERY_RECORDS (wr_next_seq (fj_writer j1)));
    intros [= <- <-]; (split; [|done]); destruct Ec as (? & ? & ?); done.
Qed.

Lemma kept_writer b j j' :
  file_inv j' -> fj_writer j' = fj_writer j -> wr_failed (fj_writer j) = None -> kept b j j'.
Proof. intros Hi Hw Hf. unfold kept, file_truth. by rewrite Hw. Qed.

Lemma append_after_compaction_appended t j res j' :
  file_inv j -> wr_failed (fj_writer j) = None -> transition_validate t = Ok tt ->
  (wr_next_seq (fj_writer j) <= MAX_OPERATION_JOURNAL_RECOVERY_RECORDS)%N ->
  (MAX_OPERATION_JOURNAL_FILE_BYTES <
     N.of_nat (length (wal_content j ++ frame_line (make_record (wr_next_seq (fj_writer j)) t))))%N ->
  append_after_compaction t j = (res, j') -> appended t j res j'.
Proof.
  intros Hinv Hnf Ht Hle Hbig. unfold append_after_compaction.
  destruct (compact_locked j) as [rc j1] eqn:Ec.
  pose proof (compact_locked_inv _ _ _ Hinv Ec) as Hk.
  destruct rc as [m|e]; [|intros [= <- <-]; by apply appended_err].
  pose proof Hk as (Hinv1 & _ & Hnf1). specialize (Hnf1 eq_refl).
  intros Happ. apply (appended_trans t true j j1); [done|]. revert Happ.
  destruct (stage_record t (fj_writer j1)) as [[r n]|e] eqn:Es; [|by intros [= <- <-]].
  pose proof (stage_record_Ok _ _ _ _ Es) as (Hr & _ & _).
  destruct (append_to_wal r j1) as [ra j2] eqn:Ea.
  destruct (decide (wr_next_seq (fj_writer j1) <= MAX_OPERATION_JOURNAL_RECOVERY_RECORDS)%N)
    as [Hle1|Hover].
  - pose proof (append_to_wal_inv t j1 r n ra j2 Hinv1 Hnf1 Ht Es Hle1 Ea) as Hi.
    destruct ra as [u|[c e|e]]; intros [= <- <-].
    + destruct Hi as (Hi & Hadm & Htr). unfold appended. by rewrite Hr in *.
    + apply appended_err, kept_writer; [apply Hi|apply Hi|done].
    + exact Hi.
  - unfold append_to_wal in Ea. destruct (next_append_io j1) as [io j3] eqn:Eio.
    apply next_append_io_state in Eio as [Ed Ew].
    assert (Hwc : wal_content j3 = wal_content j1) by (unfold wal_content; by rewrite Ed, Ew).
    edestruct (retry_refused j m j1 t io r) as (c & e & Hra); [done..|lia|done|].
    rewrite Hwc, Hra in Ea. injection Ea as <- <-. intros [= <- <-].
    apply appended_err, kept_writer; [|done|done].
    destruct Hinv1 as (Hc1 & Hf1 & Hd1). unfold file_inv. cbn [fj_writer fj_disk set_disk].
    rewrite Ew, Ed, Hnf1 in *. refine (conj Hc1 (conj Hf1 _)).
    destruct Hd1 as (Hm & Hdm & Hg & rs & Hlog & Hp & Hsz & Hw).
    unfold wal_content. rewrite Hf1, Hw.
    by apply disk_holds_set with (rv := wr_recovery (fj_writer j1)).
Qed.

Lemma append_record_appended t j res j' :
  file_inv j -> wr_failed (fj_writer j) = None -> transition_validate t = Ok tt ->
  append_record t j = (res, j') -> appended t j res j'.
Proof.
  intros Hinv Hnf Ht. unfold append_record.
  destruct (reserve_sequence j) as [rc j1] eqn:Erc.
  apply reserve_sequence_kept in Erc as [Hk Hle]; [|done..].
  destruct rc as [u|e]; [|intros [= <- <-]; by apply appended_err].
  pose proof Hk as (Hinv1 & _ & Hnf1). specialize (Hnf1 eq_refl). specialize (Hle eq_refl).
  intros Happ. apply (appended_trans t true j j1); [done|]. revert Happ.
  destruct (stage_record t (fj_writer j1)) as [[r n]|e] eqn:Es; [|by intros [= <- <-]].
  pose proof (stage_record_Ok _ _ _ _ Es) as (Hr & _ & _).
  destruct (append_to_wal r j1) as [ra j2] eqn:Ea.
  pose proof (append_to_wal_inv t j1 r n ra j2 Hinv1 Hnf1 Ht Es Hle Ea) as Hi.
  destruct ra as [u'|[[] e|e]].
  - intros [= <- <-]. destruct Hi as (Hi & Hadm & Htr). unfold appended. by rewrite Hr in *.
  - destruct Hi as (Hi2 & Hw & Hwc & Hbig). intros Happ.
    apply (appended_trans t true j1 j2); [by apply kept_writer|].
    apply append_after_compaction_appended; try done; rewrite Hw; try done.
    rewrite Hwc, <- Hr. by apply Hbig.
  - intros [= <- <-]. apply appended_err, kept_writer; [apply Hi|apply Hi|done].
  - intros [= <- <-]. exact Hi.
Qed.

Lemma file_append_appended t j res j' :
  file_inv j -> file_append_and_sync t j = (res, j') ->
  appended t j res j' /\ (is_Ok res = true -> transition_validate t = Ok tt).
Proof.
  intros Hinv. unfold file_append_and_sync.
  destruct (transition_validate t) as [[]|e] eqn:Ht; [|by intros [= <- <-]].
  destruct t as [from to|s|b]; [| |by intros [= <- <-]];
    (destruct (wr_failed (fj_writer j)) as [err|] eqn:Hnf; [by intros [= <- <-]|]);
    intros Happ; (split; [by apply append_record_appended|done]).
Qed.

#[export] Program Instance file_journal_laws : OperationJournalLaws FileJournal := {
  journal_inv := file_inv;
  journal_truth := file_truth;
}.
Next Obligation.
  intros j ((Hc & _) & _). apply ops_map_wf. by eapply indexed_NoDup.
Qed.
Next Obligation.
  intros t j r j' Hinv [[Hi Ha] Ht]%file_append_appended; [|done].
  split; [done|]. split; [by apply Ht|exact Ha].
Qed.
Next Obligation. by intros t j e j' Hinv [[Hi Ha] Ht]%file_append_appended. Qed.
Next Obligation.
  intros j rv ((Hc & _) & _). cbn. unfold file_recover.
  destruct (wr_failed _); [done|]. intros [= <-]. split; [done|]. by eapply indexed_NoDup.
Qed.
Next Obligation.
  intros j r j' Hinv (Hi & Ht & _)%compact_locked_inv; done.
Qed.

(** ** Opening and durability *)

Lemma disk_holds_locked d m rv p b : disk_holds d m rv p -> disk_holds (set_locked d b) m rv p.
Proof. done. Qed.

(** The writer [open] builds over a disk that holds a log. *)
Lemma open_locked_reopens io jid d m rv p :
  disk_holds d m rv p -> NoDup (os_id <$> rv_operations rv) ->
  Forall snapshot_ok (rv_operations rv) -> rv_authority_epoch rv <> 0%N ->
  exists w rv' d', open_locked io jid d = (Ok (w, rv'), d') /\
    cache_inv w /\ wr_file w = authority_wal_path (md_generation (wr_metadata w)) /\
    wr_failed w = None /\ wr_recovery w = rv' /\ truth_of rv' = truth_of rv /\
    disk_holds d' (wr_metadata w) rv' [].
Proof.
  intros (Hm & Hdm & Hg & rs & Hlog & Hp & Hsz & Hw) Hnd Hok He.
  destruct (recover_log rs rv p Hlog (ops_map_wf _ Hnd) Hp Hsz)
    as (rv' & Hrec & Htr & Hnd' & Hl & Hc & Hin).
  pose proof Hlog as (Hsmall & _ & rec & Hrep & Hrec').
  assert (Hlim : (rv_last_seq rv' <= MAX_OPERATION_JOURNAL_RECOVERY_RECORDS)%N).
  { apply replay_limit in Hrep. cbn in Hrep. destruct Hrec' as (_ & Hl' & _). lia. }
  assert (Hns : checked_succ (rv_last_seq rv') = Some (rv_last_seq rv' + 1)%N).
  { apply checked_succ_Some. unfold u64_max, MAX_OPERATION_JOURNAL_RECOVERY_RECORDS in *. lia. }
  unfold open_locked. rewrite Hdm, read_stored_metadata by done. cbn [rbind from_option].
  rewrite bool_decide_eq_false_2 by done. cbn [andb]. rewrite Hw.
  rewrite bool_decide_eq_false_2 by done. cbn [andb from_option id].
  rewrite Hrec, (validate_generation_ext m rv rv'), Hg, Hns by done.
  eexists _, _, _. split; [reflexivity|]. cbn.
  refine (conj _ (conj eq_refl (conj eq_refl (conj eq_refl (conj Htr _))))).
  - assert (Forall snapshot_ok (rv_operations rv')).
    { apply Forall_forall. intros s Hs. destruct (Hin s Hs) as [i Hi].
      apply ops_map_lookup in Hi as [Hi _]; [|done]. by eapply Forall_forall in Hok. }
    unfold cache_inv. cbn. injection Htr as Hte _. rewrite Hte.
    split_and!; [by apply build_indexes_indexed|done..].
  - rewrite <- (app_nil_r (frames rs)).
    apply disk_holds_set with (rv := rv); [done|done|done|done| |by left|].
    + injection Htr as Hte Hto. destruct Hlog as (_ & Hsz' & _). split_and!; [done..|].
      exists rec. rewrite Hto, Hte, Hl, Hc. done.
    + rewrite app_nil_r. apply Hlog.
Qed.

Lemma file_open_holds io jid a c d m rv p :
  disk_holds d m rv p -> NoDup (os_id <$> rv_operations rv) ->
  Forall snapshot_ok (rv_operations rv) -> rv_authority_epoch rv <> 0%N ->
  dk_locked d = false ->
  exists j rv', file_open io jid a c d = (Ok (j, rv'), fj_disk j) /\
    file_inv j /\ wr_failed (fj_writer j) = None /\ NoDup (os_id <$> rv_operations rv') /\
    truth_of rv' = file_truth j /\ file_truth j = truth_of rv.
Proof.
  intros Hd Hnd Hok He Hlock.
  destruct (open_locked_reopens io jid (set_locked d true) m rv p) as
    (w & rv' & d' & Hopen & Hc & Hf & Hfail & <- & Ht & Hd'); [done..|].
  unfold file_open. rewrite Hlock, Hopen.
  exists {| fj_disk := d'; fj_writer := w; fj_append_io := a; fj_compact_io := c |}, (wr_recovery w).
  split; [reflexivity|]. unfold file_inv, file_truth. cbn. rewrite Hfail, Ht.
  pose proof (indexed_NoDup _ _ (proj1 Hc)). done.
Qed.

(** A restart of the process: the lock of the dead process is gone. *)
Definition crashed (j : FileJournal) : Disk := set_locked (fj_disk j) false.

(** Reopening after a crash at any point. *)
Lemma file_inv_restart io jid a c j :
  file_inv j ->
  exists j2 rv2, file_open io jid a c (crashed j) = (Ok (j2, rv2), fj_disk j2) /\
    file_inv j2 /\ wr_failed (fj_writer j2) = None /\
    NoDup (os_id <$> rv_operations rv2) /\ truth_of rv2 = file_truth j2 /\
    (wr_failed (fj_writer j) = None -> file_truth j2 = file_truth j) /\
    settled (file_truth j) (file_truth j2).
Proof.
  intros ((Hc & Hs & He & _) & _ & Hd). destruct (wr_failed _).
  - destruct Hd as (m & rv & p & Hd & Hnd & Hok & He' & Hset).
    destruct (file_open_holds io jid a c (crashed j) m rv p) as (j2 & rv2 & Ho & Hi & Hf & Hn & Hr & Ht);
      [done..|]. exists j2, rv2. rewrite Ht in *. done.
  - destruct (file_open_holds io jid a c (crashed j) _ _ _ Hd (indexed_NoDup _ _ Hc) Hs He)
      as (j2 & rv2 & Ho & Hi & Hf & Hn & Hr & Ht); [done|]. exists j2, rv2.
    refine (conj Ho (conj Hi (conj Hf (conj Hn (conj Hr (conj (fun _ => Ht) (or_introl Ht))))))).
Qed.

Lemma recover_empty : recover_operation_file [] = Ok (recovery_default, []).
Proof. by vm_compute. Qed.

(** The first open of an empty directory. *)
Lemma file_open_fresh io jid a c j rv d :
  jid <> 0%N ->
  file_open io jid a c {| dk_wals := ∅; dk_meta := None; dk_locked := false |} = (Ok (j, rv), d) ->
  file_inv j /\ wr_failed (fj_writer j) = None /\ fj_disk j = d /\ rv = recovery_default /\
  file_truth j = truth_of recovery_default.
Proof.
  intros Hid. unfold file_open, open_locked. cbn -[recover_operation_file create_authority_metadata set_wal].
  rewrite bool_decide_eq_true_2 by done. cbn -[recover_operation_file create_authority_metadata set_wal].
  rewrite !lookup_empty. cbn -[recover_operation_file create_authority_metadata set_wal].
  rewrite recover_empty. unfold create_authority_metadata.
  destruct (persist_authority_metadata _ _ _) as [r d'] eqn:Ep.
  apply persist_metadata_cases in Ep.
  destruct io; [|done|]; (destruct r as [u|e]; [|done]); destruct Ep as [-> Hlen];
    cbn; intros [= <- <- <-]; refine (conj _ (conj eq_refl (conj eq_refl (conj eq_refl eq_refl))));
    unfold file_inv; cbn; refine (conj _ (conj eq_refl _));
    try (unfold cache_inv; cbn; split_and!; [|done..]; apply build_indexes_indexed; constructor).
  all: refine (conj (conj eq_refl (conj Hid (conj _ Hlen))) (conj eq_refl (conj eq_refl _))); [done|].
  all: exists []; cbn; split_and!; [|by left|done|done].
  all: split_and!; [done..|]; by eexists.
Qed.

(** One use of the journal by Core. *)
Inductive JournalOp : Type :=
| OpAppend (t : OperationJournalTransition)
| OpCompact.

(** Run a script of operations; the result lists the transitions whose append
    was acknowledged, oldest first. *)
Fixpoint run_ops (ops : list JournalOp) (j : FileJournal) :
    list OperationJournalTransition * FileJournal :=
  match ops with
  | [] => ([], j)
  | OpAppend t :: ops' =>
      let '(r, j1) := file_append_and_sync t j in
      let '(acked, j2) := run_ops ops' j1 in
      (if is_Ok r then t :: acked else acked, j2)
  | OpCompact :: ops' => run_ops ops' (compact_locked j).2
  end.

Lemma run_ops_inv ops j acked j' :
  file_inv j -> run_ops ops j = (acked, j') ->
  file_inv j' /\ file_truth j' = foldl truth_apply (file_truth j) acked.
Proof.
  revert j acked. induction ops as [|[t|] ops IH]; intros j acked Hinv; cbn.
  - by intros [= <- <-].
  - destruct (file_append_and_sync t j) as [r j1] eqn:E.
    apply file_append_appended in E as [[Hinv1 Hr] _]; [|done].
    destruct (run_ops ops j1) as [acked1 j2] eqn:E1. intros [= <- <-].
    apply IH in E1 as [Hinv2 Ht]; [|done]. split; [done|].
    destruct r as [r|e]; cbn; [|by rewrite Ht, Hr].
    destruct Hr as (_ & Htr & _). by rewrite Ht, Htr.
  - destruct (compact_locked j) as [r j1] eqn:E. cbn.
    apply compact_locked_inv in E as (Hinv1 & Ht & _); [|done].
    intros [Hinv2 Ht2]%IH; [|done]. by rewrite Ht2, Ht.
Qed.


End laws.
