(* ===== verification/FileJournalMarker.v ===== *)
(** Checkpoint markers and the fence of the file journal: a marker stays
    verifiable while the generation it names lives, the marker of the state a
    compaction folds stays verifiable afterwards, and a fenced writer refuses
    everything. *)

From S2P Require Import Prelude Text Digest Operation Journal Wal FileJournal.
From S2P Require Import FileJournalLaws.

Section markers.
Context `{CD : Codec, CL : !CodecLaws}.

(** ** Prefix recovery *)

Lemma replay_seq_step rs r st st' :
  replay st (r :: rs) = Ok st' -> rs <> [] ->
  exists st1, recover_record st r = Ok st1 /\ replay st1 rs = Ok st' /\
    rv_last_seq st1.1 <> rv_last_seq st'.1.
Proof.
  cbn. unfold rbind. destruct (recover_record st r) as [st1|]; [|done]. intros Hr Hne.
  exists st1. split; [done|]. split; [done|]. apply replay_seq in Hr.
  destruct rs; [done|]. cbn in Hr. lia.
Qed.

(** The loop stops right after the record with the requested number. *)
Lemma recover_loop_stop rs fuel size rest lp st :
  Forall small rs -> rs <> [] -> length rs <= fuel ->
  replay (lp_state lp) rs = Ok st ->
  exists lp', recover_loop fuel size (Some (rv_last_seq st.1)) (frames rs ++ rest) lp = Ok lp' /\
    lp_state lp' = st.
Proof.
  intros Hs. revert fuel lp. induction Hs as [|r rs Hr Hs IH]; intros fuel lp Hne Hf Hrep; [done|].
  destruct fuel as [|fuel]; [cbn in Hf; lia|].
  change (frames (r :: rs)) with (frame_line r ++ frames rs).
  rewrite <- app_assoc, recover_loop_frame by done. unfold rbind.
  destruct (decide (rs = [])) as [->|Hrs].
  - cbn [replay] in Hrep. unfold rbind in Hrep.
    destruct (recover_record (lp_state lp) r) as [st1|]; [|done]. injection Hrep as ->.
    rewrite bool_decide_eq_true_2 by done. by eexists.
  - destruct (replay_seq_step _ _ _ _ Hrep Hrs) as (st1 & -> & Hrep1 & Hseq).
    rewrite bool_decide_eq_false_2 by congruence.
    apply IH; [done|cbn in Hf; lia|done].
Qed.

(** Prefix recovery of a log that extends [frames rs] finds what [rs] folds to. *)
Lemma recover_prefix rs st file :
  Forall small rs -> frames rs `prefix_of` file ->
  (N.of_nat (length file) <= MAX_OPERATION_JOURNAL_FILE_BYTES)%N ->
  replay replay_start rs = Ok st ->
  recover_operation_prefix file (rv_last_seq st.1) = Ok (recovery_finish st).
Proof.
  intros Hs [rest ->] Hsize Hrep. unfold recover_operation_prefix, recover_operation_file_until.
  rewrite (proj2 (N.ltb_ge _ _)) by done.
  destruct (decide (rs = [])) as [->|Hne].
  - injection Hrep as <-. by vm_compute.
  - assert (Hseq := replay_seq _ _ _ Hrep). cbn in Hseq.
    assert (1 <= length rs) by (destruct rs; [done|cbn; lia]).
    rewrite bool_decide_eq_false_2 by (intros [= H0]; lia).
    pose proof (length_frames rs).
    destruct (recover_loop_stop rs (S (length (frames rs ++ rest))) (length (frames rs ++ rest))
      rest {| lp_state := (recovery_default, ∅); lp_offset := 0; lp_last_good := 0 |} st)
      as (lp' & Hloop & Hst); [done..|rewrite length_app; lia|done|].
    rewrite Hloop. unfold rbind. rewrite Hst, N.eqb_refl. done.
Qed.

(** ** Later states of a journal *)

Definition generation_of (j : FileJournal) : N := md_generation (wr_metadata (fj_writer j)).

(** [j'] is [j] later: a newer generation, or the same generation with a longer
    log. *)
Definition extends (j j' : FileJournal) : Prop :=
  (generation_of j < generation_of j')%N \/
  (wr_metadata (fj_writer j') = wr_metadata (fj_writer j) /\
   wal_content j `prefix_of` wal_content j' /\
   (rv_last_seq (wr_recovery (fj_writer j)) <= rv_last_seq (wr_recovery (fj_writer j')))%N /\
   (rv_authority_epoch (wr_recovery (fj_writer j)) <=
      rv_authority_epoch (wr_recovery (fj_writer j')))%N).

Lemma extends_refl j : extends j j.
Proof. right. done. Qed.

Lemma extends_trans j1 j2 j3 : extends j1 j2 -> extends j2 j3 -> extends j1 j3.
Proof.
  unfold extends, generation_of. intros [H1|(M1 & P1 & S1 & E1)] [H2|(M2 & P2 & S2 & E2)].
  - left. lia.
  - left. by rewrite M2.
  - left. by rewrite <- M1.
  - right. split; [congruence|]. split; [by etrans|]. lia.
Qed.

Lemma extends_same j j' :
  fj_writer j' = fj_writer j -> wal_content j `prefix_of` wal_content j' -> extends j j'.
Proof. intros Hw Hp. right. rewrite Hw. done. Qed.

Lemma append_to_wal_extends r j res j' :
  append_to_wal r j = (res, j') -> fj_writer j' = fj_writer j /\ wal_content j `prefix_of` wal_content j'.
Proof.
  unfold append_to_wal. destruct (next_append_io j) as [io j1] eqn:Eio.
  apply next_append_io_state in Eio as [Ed Ew].
  destruct (append_operation_record _ _ _) as [r0 content] eqn:Ea. intros [= <- <-].
  split; [exact Ew|]. unfold wal_content in *. cbn. rewrite Ed, Ew in *. rewrite lookup_insert_eq. cbn.
  apply append_operation_record_cases in Ea. destruct r0 as [u|[c e|e]].
  - destruct Ea as [-> _]. by apply prefix_app_r.
  - by destruct Ea as [-> _].
  - destruct Ea as (k & -> & _). by apply prefix_app_r.
Qed.

Lemma commit_record_extends t r n j :
  transition_validate t = Ok tt -> stage_record t (fj_writer j) = Ok (r, n) ->
  cache_inv (fj_writer j) -> extends j (commit_record r n j).
Proof.
  intros Ht Hs Hc. destruct (commit_record_inv t j r n Hc Ht Hs)
    as (Hc' & Hadm & Htr & Hd & Hf & Hm & _ & _).
  right. split; [exact Hm|]. split; [unfold wal_content; by rewrite Hd, Hf|].
  destruct Hc as (_ & _ & _ & Hn), Hc' as (_ & _ & _ & Hn').
  apply stage_record_Ok in Hs as (-> & _ & ->). split.
  - unfold commit_record in Hn'. destruct (apply_cached_record _ _ _) as [rv' idx'] eqn:Ea.
    cbn in *. unfold commit_record. rewrite Ea. cbn. lia.
  - apply (f_equal tr_epoch) in Htr. unfold file_truth in Htr. cbn in Htr. rewrite Htr.
    destruct t as [from to|s|m]; cbn in *; [|lia|done].
    destruct (_ || _) eqn:Eb in Ht; [done|]. apply orb_false_iff in Eb as [_ Eb].
    apply negb_false_iff, bool_decide_eq_true, checked_succ_Some in Eb as [-> _]. lia.
Qed.

Lemma compact_locked_extends j res j' :
  file_inv j -> compact_locked j = (res, j') -> extends j j'.
Proof.
  intros Hinv Hc. destruct res as [m|e].
  - destruct (compact_locked_ok _ _ _ Hc) as [[-> _]|(p & _ & _ & _ & _ & _ & _ & Hg & _)];
    [apply extends_refl|].
    left. unfold generation_of. apply checked_succ_Some in Hg as [-> _]. lia.
  - revert Hc. unfold compact_locked.
    destruct (wr_failed (fj_writer j)) eqn:Hnf; [intros [= _ <-]; apply extends_refl|].
    destruct (_ =? 0)%N; [done|].
    destruct (checked_succ (md_generation _)) as [g'|] eqn:Hg; [|intros [= _ <-]; apply extends_refl].
    destruct (_ <? _)%N; [intros [= _ <-]; apply extends_refl|].
    destruct (next_compact_io j) as [io j1] eqn:Eio. apply next_compact_io_state in Eio as [Ed Ew].
    destruct Hinv as (_ & Hfile & Hd). rewrite Hnf in Hd. destruct Hd as (Hm & _).
    assert (Hpath : wr_file (fj_writer j) <> authority_wal_path g').
    { rewrite Hfile. by apply compacted_path. }
    assert (Hsame : forall jx,
      wr_metadata (fj_writer jx) = wr_metadata (fj_writer j) ->
      wr_recovery (fj_writer jx) = wr_recovery (fj_writer j) ->
      wr_file (fj_writer jx) = wr_file (fj_writer j) ->
      (dk_wals (fj_disk jx) = dk_wals (fj_disk j) \/
       exists c, dk_wals (fj_disk jx) = <[authority_wal_path g' := c]> (dk_wals (fj_disk j))) ->
      extends j jx).
    { intros jx Hmd Hrv Hf Hw. right. rewrite Hmd, Hrv. split; [done|]. split; [|done].
      unfold wal_content. rewrite Hf. destruct Hw as [->|[c ->]]; [done|].
      by rewrite lookup_insert_ne by done. }
    destruct (write_operation_records _ _) as [written candidate].
    assert (Hcand : forall jx,
      fj_disk jx = set_wal (fj_disk j1) (authority_wal_path g') candidate ->
      fj_writer jx = fj_writer j1 -> extends j jx).
    { intros jx Hd Hw. apply Hsame; rewrite ?Hw, ?Ew; try done.
      right. exists candidate. rewrite Hd. cbn. by rewrite Ed. }
    rewrite compaction_last_seq. destruct (checked_succ (_ + 1)) as [ns|].
    2:{ destruct io, written; intros ?; simplify_eq; try (by apply Hcand);
        (apply Hsame; rewrite ?Ew; [done..|left; by rewrite Ed]). }
    destruct (persist_authority_metadata _ _ _) as [published d2] eqn:Ep.
    assert (Hd2 : dk_wals d2 = <[authority_wal_path g' := candidate]> (dk_wals (fj_disk j))).
    { apply persist_metadata_cases in Ep. rewrite Ed in Ep.
      destruct published as [u|[]]; first [subst d2|destruct Ep as [-> _]]; done. }
    destruct io, written; try (intros ?; simplify_eq; by apply Hcand);
      try (intros ?; simplify_eq; (apply Hsame; rewrite ?Ew; [done..|left; by rewrite Ed]));
      (destruct published as [u'|[]]; intros ?; simplify_eq;
       (apply Hsame; cbn; rewrite ?Ew; [done..|right; by exists candidate])).
Qed.

Lemma append_after_compaction_extends t j res j' :
  file_inv j -> transition_validate t = Ok tt ->
  append_after_compaction t j = (res, j') -> extends j j'.
Proof.
  intros Hinv Ht. unfold append_after_compaction.
  destruct (compact_locked j) as [rc j1] eqn:Ec.
  pose proof (compact_locked_extends _ _ _ Hinv Ec) as He.
  pose proof (compact_locked_inv _ _ _ Hinv Ec) as ((Hc1 & _) & _).
  destruct rc as [m|e]; [|by intros [= _ <-]].
  destruct (stage_record t (fj_writer j1)) as [[r n]|e] eqn:Es; [|by intros [= _ <-]].
  destruct (append_to_wal r j1) as [ra j2] eqn:Ea.
  apply append_to_wal_extends in Ea as [Hw Hp].
  pose proof (extends_same _ _ Hw Hp) as He2.
  assert (He12 : extends j j2) by (by eapply extends_trans).
  destruct ra as [u|[c e|e]]; intros [= _ <-]; [|done|].
  - eapply extends_trans; [exact He12|]. by apply (commit_record_extends t); rewrite ?Hw.
  - eapply extends_trans; [exact He12|]. right. done.
Qed.

Lemma append_record_extends t j res j' :
  file_inv j -> wr_failed (fj_writer j) = None -> transition_validate t = Ok tt ->
  append_record t j = (res, j') -> extends j j'.
Proof.
  intros Hinv Hnf Ht. unfold append_record.
  destruct (reserve_sequence j) as [rc j1] eqn:Erc.
  assert (Hr : extends j j1).
  { unfold reserve_sequence in Erc. destruct (_ <? _)%N; [|injection Erc as _ <-; apply extends_refl].
    destruct (compact_locked j) as [rcc j2] eqn:Ec.
    pose proof (compact_locked_extends _ _ _ Hinv Ec) as He.
    destruct rcc; [destruct (_ <? _)%N|]; by injection Erc as _ <-. }
  apply reserve_sequence_kept in Erc as [(Hinv1 & _ & Hnf1) Hle]; [|done..].
  destruct rc as [u|e]; [|by intros [= _ <-]].
  destruct (stage_record t (fj_writer j1)) as [[r n]|e] eqn:Es; [|by intros [= _ <-]].
  destruct (append_to_wal r j1) as [ra j2] eqn:Ea.
  pose proof (append_to_wal_inv t j1 r n ra j2 Hinv1 (Hnf1 eq_refl) Ht Es (Hle eq_refl) Ea) as Hi.
  apply append_to_wal_extends in Ea as [Hw Hp].
  pose proof (extends_trans _ _ _ Hr (extends_same _ _ Hw Hp)) as He.
  destruct ra as [u'|[[] e|e]].
  - intros [= _ <-]. eapply extends_trans; [exact He|].
    apply (commit_record_extends t); rewrite ?Hw; [done..|apply Hinv1].
  - intros Ha. eapply extends_trans; [exact He|].
    eapply append_after_compaction_extends; [apply Hi|exact Ht|exact Ha].
  - by intros [= _ <-].
  - intros [= _ <-]. eapply extends_trans; [exact He|]. right. done.
Qed.

Lemma file_append_extends t j res j' :
  file_inv j -> file_append_and_sync t j = (res, j') -> extends j j'.
Proof.
  intros Hinv. unfold file_append_and_sync.
  destruct (transition_validate t) as [[]|] eqn:Ht; [|intros [= _ <-]; apply extends_refl].
  destruct t as [from to|s|b]; [| |intros [= _ <-]; apply extends_refl].
  all: destruct (wr_failed (fj_writer j)) eqn:Hnf; [intros [= _ <-]; apply extends_refl|].
  all: by apply append_record_extends.
Qed.

Lemma run_ops_extends ops j acked j' :
  file_inv j -> run_ops ops j = (acked, j') -> extends j j'.
Proof.
  revert j acked. induction ops as [|[t|] ops IH]; intros j acked Hinv; cbn.
  - intros [= _ <-]. apply extends_refl.
  - destruct (file_append_and_sync t j) as [r j1] eqn:E.
    pose proof (file_append_extends _ _ _ _ Hinv E) as He.
    apply file_append_appended in E as [[Hinv1 _] _]; [|done].
    destruct (run_ops ops j1) as [acked1 j2] eqn:E1. intros [= _ <-].
    eapply extends_trans; [exact He|by eapply IH].
  - destruct (compact_locked j) as [r j1] eqn:E. cbn.
    pose proof (compact_locked_extends _ _ _ Hinv E) as He.
    apply compact_locked_inv in E as (Hinv1 & _ & _); [|done]. intros Hrun.
    eapply extends_trans; [exact He|by eapply IH].
Qed.

(** ** Sorting is canonical *)

Lemma same_ids_eq l1 l2 :
  NoDup (os_id <$> l1) -> os_id <$> l1 = os_id <$> l2 -> l1 ≡ₚ l2 -> l1 = l2.
Proof.
  intros Hnd Hids Hp. apply list_eq_same_length with (n := length l1);
    [symmetry; by apply Permutation_length|done|].
  intros i x y _ Hx Hy.
  assert (Hx2 : x ∈ l2) by (rewrite <- Hp; by eapply list_elem_of_lookup_2).
  apply list_elem_of_lookup_1 in Hx2 as [k Hk].
  assert (k = i) as ->; [|congruence].
  apply (NoDup_lookup (os_id <$> l1) k i (os_id x)); [done| |].
  - by rewrite Hids, list_lookup_fmap, Hk.
  - by rewrite list_lookup_fmap, Hx.
Qed.

Lemma sort_ids_sorted l : Sorted N.le (os_id <$> sort_by_id l).
Proof.
  assert (Hs : Sorted id_le (sort_by_id l)).
  { apply Sorted_merge_sort. intros x y. unfold id_le. lia. }
  induction Hs as [|x l' Hs IH Hd]; cbn; constructor; [done|].
  by destruct Hd; constructor.
Qed.

Lemma sort_by_id_canonical l l' :
  NoDup (os_id <$> l) -> l ≡ₚ l' -> sort_by_id l = sort_by_id l'.
Proof.
  intros Hnd Hp. apply same_ids_eq.
  - by rewrite sort_by_id_perm.
  - apply (Sorted_unique N.le); [apply sort_ids_sorted..|]. by rewrite !sort_by_id_perm, Hp.
  - by rewrite !sort_by_id_perm.
Qed.

(** The marker of a journal is determined by what its log folds to. *)
Lemma marker_of_log m rv rec :
  NoDup (os_id <$> rv_operations rv) ->
  rv_last_seq rec = rv_last_seq rv -> rv_authority_epoch rec = rv_authority_epoch rv ->
  authority_checkpoint_marker m (recovery_finish (rec, ops_map (rv_operations rv))) =
    authority_checkpoint_marker m rv.
Proof.
  intros Hnd Hl He. unfold authority_checkpoint_marker. cbn. rewrite Hl, He.
  do 3 f_equal. apply sort_by_id_canonical.
  - rewrite sort_by_id_perm. rewrite ops_map_values by done. done.
  - by rewrite sort_by_id_perm, ops_map_values.
Qed.

Lemma file_marker_Ok j m :
  file_marker j = Ok m -> wr_failed (fj_writer j) = None /\
  m = authority_checkpoint_marker (wr_metadata (fj_writer j)) (wr_recovery (fj_writer j)).
Proof.
  unfold file_marker, ensure_operation_writer_healthy, rbind.
  destruct (wr_failed _); [done|]. by intros [= <-].
Qed.

Lemma own_marker_valid j m :
  file_inv j -> file_marker j = Ok m -> marker_validate m = Ok tt.
Proof.
  intros ((_ & _ & He & _) & _ & Hd) [Hnf ->]%file_marker_Ok. rewrite Hnf in Hd.
  destruct Hd as ((_ & Hid & Hg & _) & _). unfold marker_validate, is_nil. cbn.
  by rewrite !(proj2 (N.eqb_neq _ _)).
Qed.

Lemma marker_valid_later j m j' :
  file_inv j -> file_marker j = Ok m -> file_inv j' -> extends j j' ->
  wr_failed (fj_writer j') = None -> generation_of j' = generation_of j ->
  file_validate_marker m j' = Ok tt.
Proof.
  intros Hinv Hm Hinv' Hext Hnf' Hgen. pose proof (own_marker_valid _ _ Hinv Hm) as Hv.
  destruct Hext as [Hlt|(Hmd & Hpre & Hls & Hep)]; [lia|].
  destruct Hinv' as (_ & Hf' & Hd'). rewrite Hnf' in Hd'.
  apply file_marker_Ok in Hm as [Hnf ->].
  destruct Hinv as ((Hc & _) & Hf & Hd). rewrite Hnf in Hd.
  destruct Hd as (_ & _ & _ & rs & (Hs & _ & rec & Hrep & Hre & Hrl & _) & _ & _ & Hw).
  assert (Hw' : wal_content j = frames rs) by (unfold wal_content; by rewrite Hf, Hw, app_nil_r).
  unfold file_validate_marker, ensure_operation_writer_healthy. rewrite Hv, Hnf'. cbn [map_err rbind].
  cbn [authority_checkpoint_marker acm_journal_id acm_generation acm_last_seq acm_authority_epoch].
  rewrite Hmd, !N.eqb_refl. cbn [negb].
  rewrite !(proj2 (N.ltb_ge _ _)) by done. cbn [orb].
  replace (rv_last_seq (wr_recovery (fj_writer j)))
    with (rv_last_seq (rec, ops_map (rv_operations (wr_recovery (fj_writer j)))).1) by done.
  rewrite (recover_prefix rs); [|done|by rewrite <- Hw'| |done].
  - cbn [rbind]. rewrite marker_of_log by (done || by eapply indexed_NoDup).
    by rewrite bool_decide_eq_true_2.
  - destruct Hd' as (_ & _ & _ & rs' & _ & _ & Hsz & Hw2).
    unfold wal_content. by rewrite Hf', Hw2.
Qed.

(** ** Theorems *)

(** A checkpoint marker stays verifiable: take the marker of a healthy
    journal, run any further appends and compactions under any fault script,
    and the marker is still accepted as a verified prefix of the durable
    authority as long as the journal is healthy and in the same generation. *)
Theorem marker_stays_valid j m ops acked j' :
  file_inv j -> file_marker j = Ok m -> run_ops ops j = (acked, j') ->
  wr_failed (fj_writer j') = None -> generation_of j' = generation_of j ->
  file_validate_marker m j' = Ok tt.
Proof.
  intros Hinv Hm Hrun. pose proof (run_ops_extends _ _ _ _ Hinv Hrun).
  apply run_ops_inv in Hrun as [Hinv' _]; [|done]. by apply (marker_valid_later j).
Qed.

(** Compaction keeps the marker of the state it folds: after a successful
    compaction the marker the journal had just before is still accepted, the
    journal promises the same truth, and the marker returned is the marker of
    the new generation. *)
Theorem compaction_keeps_tip j m r j' :
  file_inv j -> file_marker j = Ok m -> compact_locked j = (Ok r, j') ->
  file_validate_marker m j' = Ok tt /\ file_truth j' = file_truth j /\
  file_marker j' = Ok r.
Proof.
  intros Hinv Hm Hc. pose proof (own_marker_valid _ _ Hinv Hm) as Hv.
  pose proof (compact_locked_inv _ _ _ Hinv Hc) as (_ & Ht & Hnf'). specialize (Hnf' eq_refl).
  pose proof (file_marker_Ok _ _ Hm) as [Hnf Heq].
  destruct (compact_locked_ok _ _ _ Hc) as [[-> H0]|(p & Hp & Hr & Hj & Hin & _ & _ & Hg & _)].
  - unfold compact_locked in Hc. rewrite Hnf, H0 in Hc. cbn in Hc. injection Hc as <-.
    rewrite <- Heq. split_and!; [|done..].
    by apply (marker_valid_later j); [..|apply extends_refl| |].
  - split; [|split; [done|]].
    + unfold file_validate_marker, ensure_operation_writer_healthy. rewrite Hv, Hnf'.
      cbn [map_err rbind]. subst m. cbn [authority_checkpoint_marker acm_journal_id acm_generation].
      rewrite Hj, N.eqb_refl. cbn [negb].
      apply checked_succ_Some in Hg as [Hg _].
      rewrite (proj2 (N.eqb_neq _ _)) by lia. cbn [negb].
      replace (existsb _ _) with true; [done|]. symmetry. apply existsb_exists.
      exists p. split; [by apply list_elem_of_In|]. rewrite Hp. by apply bool_decide_eq_true.
    + unfold file_marker, ensure_operation_writer_healthy. rewrite Hnf'. by rewrite Hr.
Qed.

(** A fenced writer serves nothing: after a write whose outcome is unknown,
    every append, compaction, recovery and marker request is refused and leaves
    the journal as it was, so nothing can be acknowledged on top of an
    ambiguous log; only a restart continues. *)
Theorem fenced_writer_refuses j e t m :
  wr_failed (fj_writer j) = Some e ->
  (exists x, file_append_and_sync t j = (Err x, j)) /\
  compact_locked j = (Err (Storage e), j) /\
  file_recover j = Err (Storage e) /\
  file_marker j = Err (Storage e) /\
  is_Ok (file_validate_marker m j) = false.
Proof.
  intros Hf. unfold compact_locked, file_recover, file_marker, file_validate_marker,
    ensure_operation_writer_healthy, file_append_and_sync. rewrite Hf.
  split; [|split_and!; [done..|]; by destruct (marker_validate m)].
  destruct (transition_validate t); [|by eexists]. by destruct t; eexists.
Qed.

(** The window of a failed first open: when the creation of a journal in an
    empty directory stops after the WAL file exists but before the metadata is
    published, every later open of that directory is refused, although no
    journal was ever published there. *)
Theorem open_crash_window io jid a c :
  io = NewWalSyncFails \/ io = OpenMetadataFails ->
  exists d, (exists e, file_open io jid a c
      {| dk_wals := ∅; dk_meta := None; dk_locked := false |} = (Err e, d)) /\
    dk_meta d = None /\
    forall io' jid' a' c', exists m,
      file_open io' jid' a' c' d = (Err (RecoveryRequired m), d).
Proof.
  assert (Hrec : recover_operation_file [] = Ok (recovery_default, [])) by apply recover_empty.
  intros [-> | ->].
  - eexists. split; [eexists; unfold file_open, open_locked; cbn; reflexivity|].
    split; [done|]. intros io' jid' a' c'. by eexists.
  - unfold file_open, open_locked.
    cbn -[recover_operation_file create_authority_metadata set_wal].
    rewrite !lookup_empty, bool_decide_eq_true_2 by done.
    cbn -[recover_operation_file create_authority_metadata set_wal]. rewrite Hrec.
    unfold create_authority_metadata, persist_authority_metadata.
    destruct (_ <? _)%N; (eexists; split; [eexists; reflexivity|]);
      (split; [done|]); intros io' jid' a' c'; by eexists.
Qed.

End markers.
