(* ===== verification/JournalWitness.v ===== *)
(** The journal theorems applied at concrete inputs.

    A concrete [Codec] that satisfies [CodecLaws], at which the theorems that
    assume a codec are applied: a self-delimiting serializer built from
    combinators (numbers in binary, a tag per alternative) and a constant hash.
    It is not the program's JSON; it shows that the laws are satisfiable. *)

From S2P Require Import Prelude Text Digest Operation Journal Wal FileJournal FileJournalLaws.
From S2P Require Import FileJournalMarker.

(** ** Combinators *)

Class Serial (A : Type) := {
  enc : A -> bytes;
  dec : bytes -> option (A * bytes);
  dec_enc : forall a rest, dec (enc a ++ rest) = Some (a, rest);
  enc_no_newline : forall a, NEWLINE ∉ enc a;
}.

Lemma dec_enc_nil `{Serial A} a : dec (enc a) = Some (a, []).
Proof. rewrite <- (app_nil_r (enc a)). apply dec_enc. Qed.

Fixpoint pos_bits (p : positive) : bytes :=
  match p with
  | xH => [49]
  | xO p' => 48 :: pos_bits p'
  | xI p' => 49 :: pos_bits p'
  end%N.

Definition enc_N (n : N) : bytes :=
  match n with N0 => [32] | Npos p => pos_bits p ++ [32] end%N.

Fixpoint dec_N (b : bytes) : option (N * bytes) :=
  match b with
  | [] => None
  | c :: rest =>
      if (c =? 32)%N then Some (0%N, rest)
      else
        '(x, rest') ← dec_N rest;
        Some ((if (c =? 49)%N then 2 * x + 1 else 2 * x)%N, rest')
  end.

#[export] Program Instance serial_N : Serial N := { enc := enc_N; dec := dec_N }.
Next Obligation.
  intros [|p] rest; [done|]. cbn [enc_N]. rewrite <- app_assoc.
  assert (Hp : dec_N (pos_bits p ++ 32%N :: rest) = Some (Npos p, rest)); [|exact Hp].
  induction p as [p IH|p IH|]; cbn; [by rewrite IH..|done].
Qed.
Next Obligation.
  intros [|p]; cbn [enc_N]; [set_solver|]. rewrite not_elem_of_app.
  split; [|set_solver]. induction p; cbn; rewrite ?not_elem_of_cons; (split; [done|]) || idtac; done || set_solver.
Qed.

Lemma enc_N_mono n n' : (n <= n')%N -> length (enc_N n) <= length (enc_N n').
Proof.
  assert (Hlen : forall p, length (pos_bits p) = Pos.size_nat p)
    by (induction p; cbn; congruence).
  intros Hle. destruct n as [|p], n' as [|p']; cbn; rewrite ?length_app, ?Hlen; cbn; try lia.
  destruct (decide (p = p')) as [->|Hne]; [done|].
  pose proof (Pos.size_nat_monotone p p' ltac:(lia)). lia.
Qed.

#[export] Program Instance serial_prod `{Serial A, Serial B} : Serial (A * B) := {
  enc ab := enc ab.1 ++ enc ab.2;
  dec b := '(x, r) ← dec b; '(y, r') ← dec r; Some ((x, y), r');
}.
Next Obligation.
  intros A SA B SB [a b] rest. cbn. by rewrite <- app_assoc, dec_enc; cbn; rewrite dec_enc.
Qed.
Next Obligation.
  intros A SA B SB [a b]. cbn. rewrite not_elem_of_app. split; apply enc_no_newline.
Qed.

#[export] Program Instance serial_sum `{Serial A, Serial B} : Serial (A + B) := {
  enc ab := match ab with inl a => 108%N :: enc a | inr b => 114%N :: enc b end;
  dec b := match b with
           | c :: r =>
               if (c =? 108)%N then '(x, r') ← dec r; Some (inl x, r')
               else '(y, r') ← dec r; Some (inr y, r')
           | [] => None
           end;
}.
Next Obligation. intros A SA B SB [a|b] rest; cbn; by rewrite dec_enc. Qed.
Next Obligation.
  intros A SA B SB [a|b]; cbn; rewrite not_elem_of_cons; (split; [done|apply enc_no_newline]).
Qed.

#[export] Program Instance serial_unit : Serial unit := {
  enc _ := []; dec b := Some (tt, b);
}.
Next Obligation. by intros [] rest. Qed.
Next Obligation. intros u. apply not_elem_of_nil. Qed.

(** Transport along a retraction. *)
Program Definition serial_via {A B} `{Serial B} (f : A -> B) (g : B -> A)
    (Hgf : forall a, g (f a) = a) : Serial A := {|
  enc a := enc (f a); dec b := '(x, r) ← dec b; Some (g x, r);
|}.
Next Obligation. intros A B SB f g Hgf a rest. cbn. by rewrite dec_enc; cbn; rewrite Hgf. Qed.
Next Obligation. intros A B SB f g Hgf a. apply enc_no_newline. Qed.

#[export] Instance serial_option `{Serial A} : Serial (option A).
Proof.
  refine (serial_via (B := unit + A)
    (fun o => match o with None => inl tt | Some a => inr a end)
    (fun s => match s with inl _ => None | inr a => Some a end) _).
  by intros [].
Defined.

Section list.
Context `{Serial A}.

Fixpoint enc_list (l : list A) : bytes :=
  match l with [] => [59%N] | a :: l' => 44%N :: enc a ++ enc_list l' end.

Fixpoint dec_list (fuel : nat) (b : bytes) : option (list A * bytes) :=
  match fuel, b with
  | S fuel', c :: r =>
      if (c =? 59)%N then Some ([], r)
      else
        '(x, r1) ← dec r; '(l, r2) ← dec_list fuel' r1; Some (x :: l, r2)
  | _, _ => None
  end.

Lemma dec_enc_list l fuel rest :
  length l < fuel -> dec_list fuel (enc_list l ++ rest) = Some (l, rest).
Proof.
  revert fuel. induction l as [|a l IH]; intros [|fuel] Hf; cbn in *; try lia; [done|].
  rewrite <- app_assoc, dec_enc. cbn. rewrite IH by lia. done.
Qed.

Lemma enc_list_length l : length l < length (enc_list l).
Proof. induction l; cbn; rewrite ?length_app; lia. Qed.

#[export] Program Instance serial_list : Serial (list A) := {
  enc := enc_list; dec b := dec_list (length b) b;
}.
Next Obligation.
  intros l rest. apply dec_enc_list. rewrite length_app. pose proof (enc_list_length l). lia.
Qed.
Next Obligation.
  intros l. induction l as [|a l IH]; cbn.
  - by rewrite list_elem_of_singleton.
  - rewrite not_elem_of_cons, not_elem_of_app. split_and!; [done|apply enc_no_newline|done].
Qed.
End list.

(** ** The journal's types *)

#[export] Instance serial_identity : Serial ToolOperationIdentity.
Proof.
  refine (serial_via
    (fun i => (ti_run_id i, ti_task_id i, ti_turn_id i, ti_scope_id i, ti_operation_id i,
               ti_generation i, ti_call_id i, ti_tool_name i, ti_argument_digest i))
    (fun '(a, b, c, d, e, f, g, h, i) =>
       {| ti_run_id := a; ti_task_id := b; ti_turn_id := c; ti_scope_id := d;
          ti_operation_id := e; ti_generation := f; ti_call_id := g; ti_tool_name := h;
          ti_argument_digest := i |}) _).
  by intros [].
Defined.

#[export] Instance serial_durability : Serial EffectDurability.
Proof.
  refine (serial_via
    (fun d => match d with Durable => None | DurabilityFailed e => Some e end)
    (fun o => match o with None => Durable | Some e => DurabilityFailed e end) _).
  by intros [].
Defined.

#[export] Instance serial_terminal : Serial OperationTerminal.
Proof.
  refine (serial_via
    (B := (unit + text) + (text + (EffectDurability * option text)) + (text + unit))
    (fun t => match t with
       | CompletedValue => inl (inl (inl tt)) | Refused e => inl (inl (inr e))
       | NotApplied e => inl (inr (inl e)) | Applied d e => inl (inr (inr (d, e)))
       | OutcomeUnknown e => inr (inl e) | CancelledBeforeCommit => inr (inr tt) end)
    (fun s => match s with
       | inl (inl (inl _)) => CompletedValue | inl (inl (inr e)) => Refused e
       | inl (inr (inl e)) => NotApplied e | inl (inr (inr (d, e))) => Applied d e
       | inr (inl e) => OutcomeUnknown e | inr (inr _) => CancelledBeforeCommit end) _).
  by intros [].
Defined.

#[export] Instance serial_state : Serial OperationState.
Proof.
  refine (serial_via (B := (unit + option N) + (N + N) + (option N * OperationTerminal))
    (fun s => match s with
       | Accepted => inl (inl (inl tt)) | Executing e => inl (inl (inr e))
       | Prepared e => inl (inr (inl e)) | CommitStarted e => inl (inr (inr e))
       | Terminal e t => inr (e, t) end)
    (fun s => match s with
       | inl (inl (inl _)) => Accepted | inl (inl (inr e)) => Executing e
       | inl (inr (inl e)) => Prepared e | inl (inr (inr e)) => CommitStarted e
       | inr (e, t) => Terminal e t end) _).
  by intros [].
Defined.

#[export] Instance serial_snapshot : Serial OperationSnapshot.
Proof.
  refine (serial_via (fun s => (os_identity s, os_state s))
    (fun '(i, s) => {| os_identity := i; os_state := s |}) _).
  by intros [].
Defined.

#[export] Instance serial_marker : Serial AuthorityCheckpointMarker.
Proof.
  refine (serial_via
    (fun m => (acm_journal_id m, acm_generation m, acm_authority_epoch m, acm_last_seq m,
               acm_state_digest m))
    (fun '(a, b, c, d, e) => {| acm_journal_id := a; acm_generation := b;
       acm_authority_epoch := c; acm_last_seq := d; acm_state_digest := e |}) _).
  by intros [].
Defined.

#[export] Instance serial_transition : Serial OperationJournalTransition.
Proof.
  refine (serial_via (B := (N * N) + (OperationSnapshot + AuthorityCheckpointMarker))
    (fun t => match t with
       | EpochAdvanced a b => inl (a, b) | OperationUpsert s => inr (inl s)
       | Compacted m => inr (inr m) end)
    (fun s => match s with
       | inl (a, b) => EpochAdvanced a b | inr (inl s) => OperationUpsert s
       | inr (inr m) => Compacted m end) _).
  by intros [].
Defined.

#[export] Instance serial_record : Serial OperationJournalRecord.
Proof.
  refine (serial_via (fun r => (or_version r, or_seq r, or_transition r))
    (fun '(v, s, t) => {| or_version := v; or_seq := s; or_transition := t |}) _).
  by intros [].
Defined.

#[export] Instance serial_frame : Serial StoredOperationFrame.
Proof.
  refine (serial_via (fun f => (sf_record f, sf_checksum f))
    (fun '(r, c) => {| sf_record := r; sf_checksum := c |}) _).
  by intros [].
Defined.

#[export] Instance serial_metadata : Serial AuthorityJournalMetadata.
Proof.
  refine (serial_via
    (fun m => (md_version m, md_journal_id m, md_generation m, md_ancestors m))
    (fun '(a, b, c, d) => {| md_version := a; md_journal_id := b; md_generation := c;
       md_ancestors := d |}) _).
  by intros [].
Defined.

#[export] Instance serial_stored_metadata : Serial StoredAuthorityJournalMetadata.
Proof.
  refine (serial_via (fun m => (sm_metadata m, sm_checksum m))
    (fun '(m, c) => {| sm_metadata := m; sm_checksum := c |}) _).
  by intros [].
Defined.

Definition sample_digest : Digest := replicate 32 0%N.

#[export] Instance sample_codec : Codec := {
  sha256 _ := sample_digest;
  record_to_vec := enc;
  frame_to_vec := enc;
  frame_from_slice b := fst <$> dec b;
  metadata_to_vec := enc;
  stored_metadata_to_vec := enc;
  stored_metadata_from_slice b := fst <$> dec b;
  truth_to_vec a b l := enc (a, b, l);
}.

Lemma enc_list_nonempty `{Serial A} (l : list A) : enc_list l <> [].
Proof. by destruct l. Qed.

#[export] Instance sample_codec_laws : CodecLaws.
Proof.
  split.
  - intros f. cbn [frame_from_slice frame_to_vec sample_codec]. by rewrite dec_enc_nil.
  - intros f. apply enc_no_newline.
  - intros m. cbn [stored_metadata_from_slice stored_metadata_to_vec sample_codec].
    by rewrite dec_enc_nil.
  - intros m. cbn -[enc_list enc_N]. intros [_ Hn]%app_nil.
    by apply enc_list_nonempty in Hn.
  - exists (fun v t => length (enc_N v) + length (enc t) + length (enc (digest_display sample_digest))),
      (fun n => length (enc_N n)). split; [exact enc_N_mono|].
    intros r. cbn -[enc_list enc_N digest_display sample_digest]. rewrite !length_app. cbn. lia.
Qed.

(** The journal theorems applied at concrete logs and scripts, with the
    concrete codec of [SampleCodec]. *)

Definition sample_identity (id : N) : ToolOperationIdentity := {|
  ti_run_id := 1; ti_task_id := None; ti_turn_id := 2; ti_scope_id := None;
  ti_operation_id := id; ti_generation := 1; ti_call_id := txt "call";
  ti_tool_name := txt "tool"; ti_argument_digest := sample_digest |}.

Definition sample_snapshot (id : N) (s : OperationState) : OperationSnapshot :=
  {| os_identity := sample_identity id; os_state := s |}.

Definition sample_upsert (id : N) (s : OperationState) : OperationJournalTransition :=
  OperationUpsert (sample_snapshot id s).

Definition sample_log : list OperationJournalRecord := [
  make_record 1 (EpochAdvanced 1 2);
  make_record 2 (sample_upsert 5 Accepted);
  make_record 3 (sample_upsert 5 (Executing (Some 9%N))) ].

Lemma sample_log_small : Forall small sample_log.
Proof.
  repeat first [apply Forall_nil_2 | apply Forall_cons_2];
    unfold small; apply Nat.leb_le; vm_compute; reflexivity.
Qed.

(** A log of three records cut after 700 bytes. *)
Lemma wal_crash_prefix_witness :
  exists n st' rv,
    n <= length sample_log /\
    length (frames (take n sample_log)) <= 700 /\
    (n = length sample_log \/ 700 < length (frames (take (S n) sample_log))) /\
    replay replay_start (take n sample_log) = Ok st' /\
    recover_operation_file (take 700 (frames sample_log)) = Ok (rv, frames (take n sample_log)) /\
    rv_last_seq rv = N.of_nat n /\
    rv_authority_epoch rv = rv_authority_epoch st'.1 /\
    rv_operations rv = sort_by_id (map_to_list st'.2).*2.
Proof.
  eapply wal_crash_prefix; [exact sample_log_small|vm_compute; discriminate|vm_compute; reflexivity].
Defined.

Definition empty_disk : Disk := {| dk_wals := ∅; dk_meta := None; dk_locked := false |}.

(** An epoch advance, two operations, a compaction and a torn append. *)
Definition sample_script : list JournalOp := [
  OpAppend (EpochAdvanced 1 2); OpAppend (sample_upsert 5 Accepted); OpCompact;
  OpAppend (sample_upsert 5 (Executing (Some 9%N)));
  OpAppend (sample_upsert 7 Accepted); OpAppend (sample_upsert 6 Accepted) ].

Definition sample_io : list AppendIo := [AppendDone; AppendDone; AppendDone; AppendDone; WriteStops 20].

Definition sample_acked : nat :=
  match file_open OpenDone 7 sample_io [CompactDone false] empty_disk with
  | (Ok (j, _), _) => length (run_ops sample_script j).1
  | _ => 0
  end.

(** The torn last append is not acknowledged. *)
Lemma sample_script_runs : sample_acked = 4.
Proof. vm_compute. reflexivity. Qed.


(** ** Markers and fences *)

Definition opened (append_io : list AppendIo) (compact_io : list CompactIo) : option FileJournal :=
  match file_open OpenDone 7 append_io compact_io empty_disk with
  | (Ok (j, _), _) => Some j
  | _ => None
  end.

Lemma opened_inv a c j : opened a c = Some j -> file_inv j.
Proof.
  unfold opened. destruct (file_open OpenDone 7 a c empty_disk) as [[[j0 rv]|e] d] eqn:Eo; [|done].
  intros [= <-]. by destruct (file_open_fresh OpenDone 7 a c j0 rv d ltac:(done) Eo) as (Hi & _).
Qed.

Definition first_ops : list JournalOp := [
  OpAppend (EpochAdvanced 1 2); OpAppend (sample_upsert 5 Accepted) ].
Definition later_ops : list JournalOp := [
  OpAppend (sample_upsert 5 (Executing None)); OpAppend (sample_upsert 6 Accepted) ].

Definition marked : option FileJournal := j ← opened [] []; Some (run_ops first_ops j).2.

Lemma marked_inv j : marked = Some j -> file_inv j.
Proof.
  unfold marked. destruct (opened [] []) as [j0|] eqn:Eo; [|done]. cbn [mbind option_bind].
  destruct (run_ops first_ops j0) as [acked j1] eqn:Er. intros [= <-].
  eapply run_ops_inv in Er; [apply Er|by eapply opened_inv].
Qed.

(** Evaluate [f] at the journal with two acknowledged appends. *)
Definition at_marked {A} (f : FileJournal -> A) : option A := f <$> marked.

Lemma marker_stays_valid_witness :
  match marked with
  | Some j =>
      match file_marker j with
      | Ok m => file_validate_marker m (run_ops later_ops j).2 = Ok tt
      | Err _ => False
      end
  | None => False
  end.
Proof.
  assert (Hm : at_marked (fun j => is_Ok (file_marker j)) = Some true) by (vm_compute; reflexivity).
  assert (Hf : at_marked (fun j => wr_failed (fj_writer (run_ops later_ops j).2)) = Some None)
    by (vm_compute; reflexivity).
  assert (Hg : at_marked (fun j => (generation_of (run_ops later_ops j).2 =? generation_of j)%N)
    = Some true) by (vm_compute; reflexivity).
  unfold at_marked in *. destruct marked as [j|] eqn:Ej; [|discriminate].
  cbn [fmap option_fmap option_map] in *.
  destruct (file_marker j) as [m|e] eqn:Em; [|discriminate].
  destruct (run_ops later_ops j) as [acked j'] eqn:Er. cbn [snd] in *.
  refine (marker_stays_valid j m later_ops acked j' (marked_inv j Ej) Em Er _ _).
  - congruence.
  - injection Hg as Hg. by apply N.eqb_eq.
Defined.

Lemma compaction_keeps_tip_witness :
  match marked with
  | Some j =>
      match file_marker j, compact_locked j with
      | Ok m, (Ok r, j') => file_validate_marker m j' = Ok tt /\ file_marker j' = Ok r
      | _, _ => False
      end
  | None => False
  end.
Proof.
  assert (Hm : at_marked (fun j => is_Ok (file_marker j)) = Some true) by (vm_compute; reflexivity).
  assert (Hc : at_marked (fun j => is_Ok (compact_locked j).1) = Some true) by (vm_compute; reflexivity).
  unfold at_marked in *. destruct marked as [j|] eqn:Ej; [|discriminate].
  cbn [fmap option_fmap option_map] in *.
  destruct (file_marker j) as [m|e] eqn:Em; [|discriminate].
  destruct (compact_locked j) as [[r|e] j'] eqn:Er; [|discriminate].
  destruct (compaction_keeps_tip j m r j' (marked_inv j Ej) Em Er) as (Hv & _ & Hr).
  exact (conj Hv Hr).
Defined.

Lemma fenced_writer_refuses_witness :
  match opened [WriteStops 20] [] with
  | Some j =>
      let j' := (run_ops first_ops j).2 in
      match wr_failed (fj_writer j') with
      | Some e => file_recover j' = Err (Storage e)
      | None => False
      end
  | None => False
  end.
Proof.
  assert (Hf : (fun j => bool_decide (wr_failed (fj_writer (run_ops first_ops j).2) = None))
    <$> opened [WriteStops 20] [] = Some false) by (vm_compute; reflexivity).
  destruct (opened [WriteStops 20] []) as [j|]; [|discriminate].
  cbn [fmap option_fmap option_map] in Hf. cbn zeta.
  destruct (wr_failed (fj_writer (run_ops first_ops j).2)) as [e|] eqn:Ef; [|discriminate].
  exact (proj1 (proj2 (proj2 (fenced_writer_refuses _ e (EpochAdvanced 1 2)
    (authority_checkpoint_marker (wr_metadata (fj_writer j)) (wr_recovery (fj_writer j))) Ef)))).
Defined.

Lemma open_crash_window_witness :
  exists d, (exists e, file_open NewWalSyncFails 7 [] [] empty_disk = (Err e, d)) /\
    dk_meta d = None /\
    forall io' jid' a' c', exists m,
      file_open io' jid' a' c' d = (Err (RecoveryRequired m), d).
Proof. exact (open_crash_window NewWalSyncFails 7 [] [] (or_introl eq_refl)). Defined.

Lemma digest_wire_exact_witness :
  digest_from_str (digest_display sample_digest) = Some (Ok sample_digest).
Proof.
  apply (proj1 digest_wire_exact). split; [reflexivity|].
  repeat first [apply Forall_nil_2|apply Forall_cons_2; [vm_compute; reflexivity|]].
Defined.
