(* ===== verification/Intent.v ===== *)
(** Effect intents and authority leases: agent-contracts/tool.rs
    ([ToolRisk], [EffectIntent], [WorkspaceWriteBound]) and agent-contracts/approval.rs
    ([ApprovalDecision], [ApprovalDenialReason], [ShadowVerdict],
    [AuthorityLease]). *)

From S2P Require Import Prelude Text Digest Operation Jcs Journal Wal.

Inductive ToolRisk : Type := RiskReadOnly | RiskWorkspaceWrite | RiskProcessExecution.

#[export] Instance ToolRisk_eq_dec : EqDecision ToolRisk.
Proof. solve_decision. Defined.

Record WorkspaceWriteBound : Type := {
  wb_path : text;
  wb_max_bytes : N;
}.

#[export] Instance WorkspaceWriteBound_eq_dec : EqDecision WorkspaceWriteBound.
Proof. solve_decision. Defined.

Inductive EffectIntent : Type :=
| ReadOnly
| WorkspaceWrite (path : text) (content_bytes : N)
| WorkspaceWriteSet (writes : list WorkspaceWriteBound)
| ExecArgv (program : text) (argv : list text)
| ShellExec (dialect command_digest : text).

#[export] Instance EffectIntent_eq_dec : EqDecision EffectIntent.
Proof. solve_decision. Defined.

Inductive ApprovalDecision : Type := Allow | Deny.

#[export] Instance ApprovalDecision_eq_dec : EqDecision ApprovalDecision.
Proof. solve_decision. Defined.

(** [ApprovalDenialReason::GrantExhausted]. *)
Record ApprovalDenialReason : Type := {
  ad_grant_id : text;
  ad_used : N;
  ad_max_runs : N;
}.

Inductive ShadowVerdict : Type :=
| ShadowGranted (grant_id reason : text)
| ShadowDenied (reason : text).

Record AuthorityLease : Type := {
  al_lease_id : text;
  al_operation_id : N;
  al_argument_digest : Digest;
  al_operation_generation : N;
  al_intent : EffectIntent;
  al_grant_id : option text;
  al_decision : ApprovalDecision;
  al_issued_at_ms : N;
  al_expires_at_ms : N;
  al_policy_revision : option N;
  al_binding_epoch : option N;
}.

#[export] Instance AuthorityLease_eq_dec : EqDecision AuthorityLease.
Proof. solve_decision. Defined.

(** [AuthorityLease::valid_at]. *)
Definition valid_at (l : AuthorityLease) (now_ms generation operation_id : N)
    (argument_digest : Digest) : bool :=
  (al_operation_generation l =? generation)%N
  && (al_operation_id l =? operation_id)%N
  && bool_decide (al_argument_digest l = argument_digest)
  && (now_ms <=? al_expires_at_ms l)%N.

(** Effect intents: what a tool call may do to the world. Paths, coverage of an
    actual effect by an approved one ([EffectIntent] of agent-contracts/tool.rs), and
    the host policies that derive an intent from a call's arguments
    (agent-contracts/host_policy.rs).

    [std::path::Path] is read as on Unix: a separator is a slash, there are no
    prefixes. *)

(** ** Paths *)

Definition SLASH : N := 47.
Definition DOT : N := 46.

(** [str::split]: the pieces between separators, at least one. *)
Fixpoint split_on (sep : N) (s : text) : list text :=
  match s with
  | [] => [[]]
  | c :: s' =>
      if (c =? sep)%N then [] :: split_on sep s'
      else match split_on sep s' with
           | [] => [[c]]
           | piece :: pieces => (c :: piece) :: pieces
           end
  end.

Inductive Component : Type := RootDir | CurDir | ParentDir | Normal (part : text).

(** A piece that is not the first: empty pieces and dots vanish. *)
Definition component (part : text) : option Component :=
  if bool_decide (part = []) || bool_decide (part = [DOT]) then None
  else if bool_decide (part = [DOT; DOT]) then Some ParentDir
  else Some (Normal part).

(** [Path::components]: a leading slash is the root, a leading dot is kept. *)
Definition components (path : text) : list Component :=
  match split_on SLASH path with
  | [] => []
  | first :: rest =>
      (if bool_decide (first = [])
       then match rest with [] => [] | _ => [RootDir] end
       else if bool_decide (first = [DOT]) then [CurDir]
       else option_list (component first)) ++ omap component rest
  end.

(** The loop over the components that [relative_components] (agent-core/approval.rs)
    and [canonical_workspace_relative_path] share. *)
Fixpoint normal_parts (cs : list Component) : option (list text) :=
  match cs with
  | [] => Some []
  | Normal part :: cs' => cons part <$> normal_parts cs'
  | CurDir :: cs' => normal_parts cs'
  | (ParentDir | RootDir) :: _ => None
  end.

Definition is_absolute (path : text) : bool :=
  match path with c :: _ => (c =? SLASH)%N | [] => false end.

Definition relative_components (path : text) : option (list text) :=
  if is_absolute path then None else normal_parts (components path).

(** [parts.join("/")]. *)
Fixpoint join_slash (parts : list text) : text :=
  match parts with
  | [] => []
  | [part] => part
  | part :: parts' => part ++ SLASH :: join_slash parts'
  end.

Definition canonical_workspace_relative_path (path : text) : option text :=
  if bool_decide (path = []) then None
  else
    match normal_parts (components path) with
    | None | Some [] => None
    | Some parts => Some (join_slash parts)
    end.

Definition path_within_prefix (path prefix : text) : bool :=
  match relative_components path, relative_components prefix with
  | Some path_parts, Some prefix_parts =>
      if length path_parts <? length prefix_parts then false
      else bool_decide (take (length prefix_parts) path_parts = prefix_parts)
  | _, _ => false
  end.

(** ** Coverage *)

(** [EffectIntent::risk]. *)
Definition intent_risk (i : EffectIntent) : ToolRisk :=
  match i with
  | ReadOnly => RiskReadOnly
  | WorkspaceWrite _ _ | WorkspaceWriteSet _ => RiskWorkspaceWrite
  | ExecArgv _ _ | ShellExec _ _ => RiskProcessExecution
  end.

Definition approved_workspace_paths (i : EffectIntent) : list text :=
  match i with
  | WorkspaceWrite path _ => option_list (canonical_workspace_relative_path path)
  | WorkspaceWriteSet writes =>
      omap (fun bound => canonical_workspace_relative_path (wb_path bound)) writes
  | _ => []
  end.

Definition write_set_covers (approved actual : list WorkspaceWriteBound) : bool :=
  if bool_decide (approved = []) || bool_decide (actual = []) then false
  else
    forallb (fun entry =>
      match canonical_workspace_relative_path (wb_path entry) with
      | None => false
      | Some path =>
          match List.find (fun bound => bool_decide
                  (canonical_workspace_relative_path (wb_path bound) = Some path)) approved with
          | Some bound => (wb_max_bytes entry <=? wb_max_bytes bound)%N
          | None => false
          end
      end) actual.

Definition covers (approved actual : EffectIntent) : bool :=
  match approved, actual with
  | ReadOnly, ReadOnly => true
  | WorkspaceWrite approved_path max_bytes, WorkspaceWrite path content_bytes =>
      match canonical_workspace_relative_path approved_path,
            canonical_workspace_relative_path path with
      | Some a, Some p => bool_decide (a = p) && (content_bytes <=? max_bytes)%N
      | _, _ => false
      end
  | WorkspaceWriteSet approved_writes, WorkspaceWriteSet writes =>
      write_set_covers approved_writes writes
  | WorkspaceWriteSet approved_writes, WorkspaceWrite path content_bytes =>
      write_set_covers approved_writes [{| wb_path := path; wb_max_bytes := content_bytes |}]
  | ExecArgv approved_program approved_argv, ExecArgv program argv =>
      negb (bool_decide (approved_program = []))
      && bool_decide (approved_program = program)
      && (length approved_argv <=? length argv)
      && bool_decide (take (length approved_argv) argv = approved_argv)
  | ShellExec approved_dialect approved_digest, ShellExec dialect command_digest =>
      negb (bool_decide (approved_digest = []))
      && bool_decide (approved_digest = command_digest)
      && (bool_decide (approved_dialect = []) || bool_decide (approved_dialect = dialect))
  | _, _ => false
  end.

Definition exec_argv_intent (argv : list text) : EffectIntent :=
  match argv with
  | program :: rest => if bool_decide (program = []) then ExecArgv [] [] else ExecArgv program rest
  | [] => ExecArgv [] []
  end.

(** ** Host policies *)

Definition MAX_WORKSPACE_WRITE_SET : nat := 16.

Record ToolSpec : Type := {
  tp_name : text;
  tp_risk : ToolRisk;
}.

Definition unbound_effect_intent (spec : ToolSpec) : EffectIntent :=
  match tp_risk spec with
  | RiskReadOnly => ReadOnly
  | RiskWorkspaceWrite => WorkspaceWrite [] 0
  | RiskProcessExecution => exec_argv_intent []
  end.

Record HostExecRecipe : Type := {
  er_id : text;
  er_argv : list text;
}.

Inductive HostEffectBinding : Type :=
| BindReadOnly
| BindWorkspaceWrite (path_arg : text) (content_args : list text)
| BindExecArgv (argv_arg : text)
| BindExecRecipe (recipe_arg : text) (recipes : list HostExecRecipe)
| BindShellExec (command_arg dialect_arg : text)
| BindSessionExec (argv_arg action_arg : text).

Record HostToolPolicy : Type := {
  hp_tool_name : text;
  hp_binding : HostEffectBinding;
}.

Section policies.
Context `{CD : Codec} `{JN : JsonNumber}.

(** A digest of a document without numbers always exists ([from_json]). *)
Definition shell_command_digest (command : text) : text :=
  let command := trim command in
  if bool_decide (command = []) then []
  else from_option digest_display [] (from_json sha256 (JObject [(txt "command", JString command)])).

Definition shell_exec_intent (dialect command : text) : EffectIntent :=
  ShellExec (trim dialect) (shell_command_digest command).

(** A missing, non-string or blank argument is the empty string. *)
Definition string_arg (arguments : Json) (key : text) : text :=
  default [] (trim <$> (get_field key arguments ≫= as_str)).

(** One bad token empties the list. *)
Fixpoint nonempty_tokens (items : list Json) : option (list text) :=
  match items with
  | [] => Some []
  | item :: items' =>
      match as_str item with
      | None | Some [] => None
      | Some token => cons token <$> nonempty_tokens items'
      end
  end.

Definition string_list (arguments : Json) (key : text) : list text :=
  match get_field key arguments ≫= as_array with
  | None => []
  | Some items => default [] (nonempty_tokens items)
  end.

Definition str_bytes (v : option Json) : N :=
  from_option (fun s => N.of_nat (str_len s)) 0%N (v ≫= as_str).

Definition patch_hunk_bytes (hunks : Json) : N :=
  match as_array hunks with
  | None => 0%N
  | Some hunks =>
      fold_left (fun sum hunk => saturating_add sum (str_bytes (get_field (txt "new") hunk)))
        hunks 0%N
  end.

Definition patch_file_bytes (file : Json) : N :=
  from_option patch_hunk_bytes 0%N (get_field (txt "hunks") file).

(** A repeated path adds to its first entry. *)
Fixpoint add_write (path : text) (bytes : N) (writes : list WorkspaceWriteBound) :
    list WorkspaceWriteBound :=
  match writes with
  | [] => [{| wb_path := path; wb_max_bytes := bytes |}]
  | bound :: writes' =>
      if bool_decide (wb_path bound = path)
      then {| wb_path := wb_path bound; wb_max_bytes := saturating_add (wb_max_bytes bound) bytes |}
             :: writes'
      else bound :: add_write path bytes writes'
  end.

(** The loop over [files]; a blank path skips the file, its bytes too. *)
Definition collect_file (acc : list WorkspaceWriteBound * N) (file : Json) :
    list WorkspaceWriteBound * N :=
  match trim <$> (get_field (txt "path") file ≫= as_str) with
  | Some [] => acc
  | Some path => (add_write path (patch_file_bytes file) acc.1,
                  saturating_add acc.2 (patch_file_bytes file))
  | None => (acc.1, saturating_add acc.2 (patch_file_bytes file))
  end.

Definition workspace_write_intent (arguments : Json) (path_arg : text)
    (content_args : list text) : EffectIntent :=
  let path := string_arg arguments path_arg in
  let content_bytes :=
    fold_left (fun sum key => saturating_add sum (str_bytes (get_field key arguments)))
      content_args 0%N in
  match get_field (txt "files") arguments ≫= as_array with
  | Some files =>
      let '(writes, content_bytes) := fold_left collect_file files ([], content_bytes) in
      match take MAX_WORKSPACE_WRITE_SET writes with
      | [] => WorkspaceWrite path content_bytes
      | [bound] => WorkspaceWrite (wb_path bound) content_bytes
      | writes => WorkspaceWriteSet writes
      end
  | None =>
      WorkspaceWrite path
        (from_option (fun hunks => saturating_add content_bytes (patch_hunk_bytes hunks))
           content_bytes (get_field (txt "hunks") arguments))
  end.

Definition intent_from (policy : HostToolPolicy) (arguments : Json) : EffectIntent :=
  match hp_binding policy with
  | BindReadOnly => ReadOnly
  | BindWorkspaceWrite path_arg content_args =>
      workspace_write_intent arguments path_arg content_args
  | BindExecArgv argv_arg => exec_argv_intent (string_list arguments argv_arg)
  | BindExecRecipe recipe_arg recipes =>
      let recipe_id := string_arg arguments recipe_arg in
      exec_argv_intent
        (from_option er_argv [] (List.find (fun r => bool_decide (er_id r = recipe_id)) recipes))
  | BindShellExec command_arg dialect_arg =>
      shell_exec_intent (string_arg arguments dialect_arg) (string_arg arguments command_arg)
  | BindSessionExec argv_arg action_arg =>
      let action := string_arg arguments action_arg in
      if bool_decide (action = txt "poll") || bool_decide (action = txt "stop") then ReadOnly
      else if bool_decide (action = txt "start")
      then exec_argv_intent (string_list arguments argv_arg)
      else exec_argv_intent []
  end.

(** [HostToolPolicies::effect_intent], from what [policy_for] finds. *)
Definition effect_intent (policy : option HostToolPolicy) (arguments : Json) (spec : ToolSpec) :
    EffectIntent :=
  match policy with
  | Some policy => intent_from policy arguments
  | None => unbound_effect_intent spec
  end.

End policies.

(** Canonical workspace paths, and the order that coverage puts on intents. *)

(** ** Pieces and components *)

(** A component that names a file or directory. *)
Definition piece_ok (part : text) : Prop :=
  part <> [] /\ (SLASH ∉ part) /\ part <> [DOT] /\ part <> [DOT; DOT].

Lemma split_on_cons sep s : exists piece pieces, split_on sep s = piece :: pieces.
Proof.
  destruct s as [|c s]; cbn; [by eexists _, _|]. destruct (c =? sep)%N; [by eexists _, _|].
  destruct (split_on sep s); by eexists _, _.
Qed.

Lemma split_on_clean sep s : Forall (fun piece => sep ∉ piece) (split_on sep s).
Proof.
  induction s as [|c s IH]; cbn; [constructor; [apply not_elem_of_nil|constructor]|].
  destruct (N.eqb_spec c sep) as [->|Hne]; [constructor; [apply not_elem_of_nil|done]|].
  destruct (split_on sep s) as [|piece pieces].
  - constructor; [by apply not_elem_of_cons; split; [|apply not_elem_of_nil]|constructor].
  - inversion IH; subst. constructor; [by apply not_elem_of_cons|done].
Qed.

Lemma split_on_app sep piece s :
  sep ∉ piece ->
  split_on sep (piece ++ sep :: s) = piece :: split_on sep s.
Proof.
  induction piece as [|c piece IH]; cbn; [by rewrite N.eqb_refl|].
  intros [Hc Hp]%not_elem_of_cons. rewrite (proj2 (N.eqb_neq _ _)) by done. by rewrite IH.
Qed.

Lemma split_on_piece sep piece : sep ∉ piece -> split_on sep piece = [piece].
Proof.
  induction piece as [|c piece IH]; cbn; [done|].
  intros [Hc Hp]%not_elem_of_cons. rewrite (proj2 (N.eqb_neq _ _)) by done. by rewrite IH.
Qed.

Lemma split_join parts :
  parts <> [] -> Forall (fun piece => SLASH ∉ piece) parts -> split_on SLASH (join_slash parts) = parts.
Proof.
  induction parts as [|p parts IH]; [done|]. intros _ [Hp Hps]%Forall_cons.
  destruct parts as [|q parts]; [by apply split_on_piece|].
  change (join_slash (p :: q :: parts)) with (p ++ SLASH :: join_slash (q :: parts)).
  rewrite split_on_app by done. by rewrite IH.
Qed.

Lemma component_ok part : piece_ok part -> component part = Some (Normal part).
Proof.
  intros (H1 & _ & H2 & H3). unfold component.
  by rewrite !bool_decide_eq_false_2.
Qed.

Lemma component_normal part p : component part = Some (Normal p) ->
  p = part /\ part <> [] /\ part <> [DOT] /\ part <> [DOT; DOT].
Proof. unfold component. repeat case_bool_decide; cbn; intros [= <-]; done. Qed.

Lemma normal_parts_Normal parts : normal_parts (Normal <$> parts) = Some parts.
Proof. induction parts as [|p parts IH]; cbn; [done|]. by rewrite IH. Qed.

Lemma components_join parts :
  parts <> [] -> Forall piece_ok parts -> components (join_slash parts) = Normal <$> parts.
Proof.
  intros Hne Hok. unfold components. rewrite split_join by (done || by eapply Forall_impl; [exact Hok|intros ? (_ & ? & _)]).
  destruct parts as [|p parts]; [done|]. apply Forall_cons in Hok as [Hp Hps].
  pose proof Hp as (H1 & _ & H2 & _). rewrite !bool_decide_eq_false_2 by done.
  rewrite component_ok by done. cbn. f_equal.
  induction Hps as [|q parts Hq Hps IH]; cbn; [done|]. rewrite component_ok by done. cbn. by rewrite IH.
Qed.

(** Every component that names something comes from a piece. *)
Lemma components_normal path p :
  Normal p ∈ components path -> piece_ok p.
Proof.
  unfold components. pose proof (split_on_clean SLASH path) as Hclean.
  destruct (split_on SLASH path) as [|first rest]; [by intros ?%elem_of_nil|].
  apply Forall_cons in Hclean as [Hfirst Hrest].
  assert (Hpiece : forall part, (SLASH ∉ part) -> component part = Some (Normal p) -> piece_ok p).
  { intros part Hs (-> & ? & ? & ?)%component_normal. by split_and!. }
  intros [Hin|Hin]%elem_of_app.
  - revert Hin. case_bool_decide.
    + destruct rest; [by intros ?%elem_of_nil|by intros [=]%list_elem_of_singleton].
    + case_bool_decide; [by intros [=]%list_elem_of_singleton|].
      destruct (component first) as [c|] eqn:E; cbn; [|by intros ?%elem_of_nil].
      intros <-%list_elem_of_singleton. by eapply Hpiece.
  - apply list_elem_of_omap in Hin as (part & Hin & Hc). rewrite Forall_forall in Hrest. eauto.
Qed.

Lemma normal_parts_elem cs parts p : normal_parts cs = Some parts -> p ∈ parts -> Normal p ∈ cs.
Proof.
  revert parts. induction cs as [|c cs IH]; intros parts; cbn.
  - intros [= <-] ?%elem_of_nil. done.
  - destruct c as [| | |part]; [done| |done|].
    + intros H1 H2. apply elem_of_cons. right. by eapply IH.
    + destruct (normal_parts cs) as [parts'|]; [|done]. intros [= <-].
      intros [->|Hin]%elem_of_cons; apply elem_of_cons; [by left|right]. by eapply IH.
Qed.

Lemma normal_parts_ok path parts : normal_parts (components path) = Some parts -> Forall piece_ok parts.
Proof.
  intros H. apply Forall_forall. intros p Hp. eapply components_normal, normal_parts_elem; done.
Qed.

(** An absolute path has no parts. *)
Lemma absolute_parts path : is_absolute path = true -> normal_parts (components path) = None.
Proof.
  destruct path as [|c path]; [done|]. cbn. intros Hc%N.eqb_eq. subst c. unfold components. cbn.
  destruct (split_on_cons SLASH path) as (piece & pieces & ->). done.
Qed.

Lemma relative_components_parts path : relative_components path = normal_parts (components path).
Proof.
  unfold relative_components. destruct (is_absolute path) eqn:E; [|done].
  by rewrite absolute_parts.
Qed.

Lemma canonical_iff path q :
  canonical_workspace_relative_path path = Some q <->
  exists parts, parts <> [] /\ relative_components path = Some parts /\ q = join_slash parts.
Proof.
  rewrite relative_components_parts. unfold canonical_workspace_relative_path.
  case_bool_decide as Hp; [subst path; split; [done|by intros (parts & Hne & [= <-] & _)]|].
  destruct (normal_parts (components path)) as [[|p parts]|]; split; try done.
  - by intros (parts & Hne & [= <-] & _).
  - intros [= <-]. by exists (p :: parts).
  - by intros (parts' & _ & [= <-] & ->).
  - by intros (parts' & _ & [=] & _).
Qed.

Lemma canonical_components path q :
  canonical_workspace_relative_path path = Some q -> relative_components q = relative_components path.
Proof.
  intros (parts & Hne & Hp & ->)%canonical_iff. rewrite Hp. rewrite !relative_components_parts in *.
  rewrite components_join; [apply normal_parts_Normal|done|by eapply normal_parts_ok].
Qed.

Lemma canonical_idemp path q :
  canonical_workspace_relative_path path = Some q -> canonical_workspace_relative_path q = Some q.
Proof.
  intros Hq. pose proof (canonical_components _ _ Hq) as Hc.
  apply canonical_iff in Hq as (parts & Hne & Hp & ->). apply canonical_iff.
  exists parts. by rewrite Hc.
Qed.

Lemma within_prefix_iff path prefix :
  path_within_prefix path prefix = true <->
  exists parts pre, relative_components path = Some parts /\ relative_components prefix = Some pre /\
    pre `prefix_of` parts.
Proof.
  unfold path_within_prefix.
  destruct (relative_components path) as [parts|], (relative_components prefix) as [pre|];
    try (split; [done|by intros (? & ? & [=] & [=] & _)]).
  destruct (Nat.ltb_spec (length parts) (length pre)).
  - split; [done|]. intros (? & ? & [= <-] & [= <-] & Hpre%prefix_length). lia.
  - rewrite bool_decide_eq_true. split.
    + intros Ht. exists parts, pre. split; [done|]. split; [done|]. rewrite <- Ht. apply prefix_take.
    + intros (? & ? & [= <-] & [= <-] & k & ->). by rewrite take_app_length.
Qed.

Lemma within_prefix_canonical path q prefix :
  canonical_workspace_relative_path path = Some q ->
  path_within_prefix q prefix = path_within_prefix path prefix.
Proof. intros Hq. unfold path_within_prefix. by rewrite (canonical_components _ _ Hq). Qed.

(** ** Coverage *)

(** The bound an approved set gives a canonical path. *)
Definition bound_for (writes : list WorkspaceWriteBound) (path : text) : option N :=
  wb_max_bytes <$>
    List.find (fun b => bool_decide (canonical_workspace_relative_path (wb_path b) = Some path)) writes.

Lemma bound_for_elem writes path n :
  bound_for writes path = Some n ->
  exists b, (b ∈ writes) /\ canonical_workspace_relative_path (wb_path b) = Some path /\
    wb_max_bytes b = n.
Proof.
  unfold bound_for. destruct (List.find _ _) as [b|] eqn:E; [|done]. intros [= <-].
  apply List.find_some in E as [Hin%list_elem_of_In Hp%bool_decide_eq_true]. by exists b.
Qed.

Lemma bound_for_None writes path b :
  bound_for writes path = None -> b ∈ writes ->
  canonical_workspace_relative_path (wb_path b) <> Some path.
Proof.
  unfold bound_for. destruct (List.find _ _) as [b'|] eqn:E; [done|]. intros _ Hin.
  by apply list_elem_of_In, (List.find_none _ _ E), bool_decide_eq_false in Hin.
Qed.

Definition entry_covered (approved : list WorkspaceWriteBound) (e : WorkspaceWriteBound) : Prop :=
  exists path n, canonical_workspace_relative_path (wb_path e) = Some path /\
    bound_for approved path = Some n /\ (wb_max_bytes e <= n)%N.

Lemma write_set_covers_iff approved actual :
  write_set_covers approved actual = true <-> actual <> [] /\ Forall (entry_covered approved) actual.
Proof.
  unfold write_set_covers.
  assert (Hentry : forall e, match canonical_workspace_relative_path (wb_path e) with
    | None => false
    | Some path => match List.find (fun b => bool_decide
          (canonical_workspace_relative_path (wb_path b) = Some path)) approved with
        | Some b => (wb_max_bytes e <=? wb_max_bytes b)%N | None => false end end = true
    <-> entry_covered approved e).
  { intros e. unfold entry_covered, bound_for.
    destruct (canonical_workspace_relative_path (wb_path e)) as [path|];
      [|split; [done|by intros (? & ? & [=] & _)]].
    destruct (List.find _ _) as [b|] eqn:E.
    - rewrite N.leb_le. split; [intros Hle; exists path, (wb_max_bytes b); by rewrite E|].
      intros (? & ? & [= <-] & H & Hle). rewrite E in H. by injection H as <-.
    - split; [done|]. intros (? & ? & [= <-] & H & _). by rewrite E in H. }
  case_bool_decide as Ha; cbn [orb]; [|case_bool_decide as Hb].
  - subst approved. split; [done|]. intros [Hne Hall]. destruct actual as [|e actual]; [done|].
    apply Forall_cons in Hall as [(? & ? & _ & [=] & _) _].
  - by split; [|intros [? _]].
  - rewrite forallb_forall, Forall_forall. split.
    + intros H. split; [done|]. intros e He%list_elem_of_In. by apply Hentry, H.
    + intros [_ H] e He%list_elem_of_In. by apply Hentry, H.
Qed.

(** A single write is a set of one. *)
Lemma covers_single writes path n :
  covers (WorkspaceWriteSet writes) (WorkspaceWrite path n) = true <->
  entry_covered writes {| wb_path := path; wb_max_bytes := n |}.
Proof.
  cbn [covers]. rewrite write_set_covers_iff, Forall_singleton. split; [by intros [_ ?]|done].
Qed.

Lemma entry_covered_trans a b e :
  Forall (entry_covered a) b -> entry_covered b e -> entry_covered a e.
Proof.
  intros Hall (path & n & Hp & Hb & Hle). apply bound_for_elem in Hb as (e' & Hin & Hp' & <-).
  rewrite Forall_forall in Hall. destruct (Hall e' Hin) as (path' & m & Hp'' & Ha & Hle').
  rewrite Hp' in Hp''. injection Hp'' as <-. exists path, m. split; [done|]. split; [done|]. lia.
Qed.

Lemma covers_write p n q m :
  covers (WorkspaceWrite p n) (WorkspaceWrite q m) = true <->
  exists path, canonical_workspace_relative_path p = Some path /\
    canonical_workspace_relative_path q = Some path /\ (m <= n)%N.
Proof.
  cbn [covers]. destruct (canonical_workspace_relative_path p) as [a|];
    [|split; [done|by intros (? & [=] & _)]].
  destruct (canonical_workspace_relative_path q) as [b|]; [|split; [done|by intros (? & _ & [=] & _)]].
  rewrite andb_true_iff, bool_decide_eq_true, N.leb_le. split.
  - intros [-> Hle]. by exists b.
  - by intros (? & [= <-] & [= <-] & ?).
Qed.

Lemma covers_exec p argv q argv' :
  covers (ExecArgv p argv) (ExecArgv q argv') = true <->
  p <> [] /\ p = q /\ argv `prefix_of` argv'.
Proof.
  cbn [covers]. rewrite !andb_true_iff, negb_true_iff, bool_decide_eq_false, !bool_decide_eq_true,
    Nat.leb_le. split.
  - intros [[[Hp ->] Hl] Ht]. split; [done|]. split; [done|]. rewrite <- Ht. apply prefix_take.
  - intros (Hp & -> & k & ->). rewrite take_app_length, length_app. split; [|done]. split; [done|lia].
Qed.

Lemma covers_trans a b c : covers a b = true -> covers b c = true -> covers a c = true.
Proof.
  destruct a as [|p n|writes|p argv|d g], b as [|p' n'|writes'|p' argv'|d' g'],
    c as [|q m|writes''|q argv''|d'' g'']; try done; rewrite ?covers_write, ?covers_exec, ?covers_single.
  - intros (path & H1 & H2 & H3) (path' & H4 & H5 & H6). rewrite H2 in H4. injection H4 as <-.
    exists path. split; [done|]. split; [done|]. lia.
  - intros (path & n1 & H1 & H2 & H3) (path' & H4 & H5 & H6). cbn in *. rewrite H4 in H1.
    injection H1 as <-. exists path', n1. split; [done|]. split; [done|]. cbn. lia.
  - cbn [covers]. intros [_ Hall]%write_set_covers_iff Hc. by eapply entry_covered_trans.
  - cbn [covers]. intros [_ Hall]%write_set_covers_iff [Hne Hall']%write_set_covers_iff.
    apply write_set_covers_iff. split; [done|]. eapply Forall_impl; [exact Hall'|].
    intros e. by apply entry_covered_trans.
  - intros (Hp & -> & H1) (_ & -> & H2). split; [done|]. split; [done|]. by trans argv'.
  - cbn [covers]. rewrite !andb_true_iff, !orb_true_iff, !bool_decide_eq_true.
    intros [[Hg ->] Hd] [[_ ->] Hd']. split; [split; [done|done]|].
    destruct Hd as [->| ->]; [by left|]. done.
Qed.

Lemma coverage_facts a b :
  covers (exec_argv_intent []) a = false /\
  (covers a b = true -> intent_risk a = intent_risk b /\
     approved_workspace_paths b ⊆ approved_workspace_paths a).
Proof.
  split; [by destruct a|].
  destruct a as [|p n|writes|p argv|d g], b as [|p' n'|writes'|p' argv'|d' g']; try done;
    rewrite ?covers_write, ?covers_single.
  - intros (path & H1 & H2 & _). split; [done|]. cbn. by rewrite H1, H2.
  - intros (path & n & H1 & H2 & _). split; [done|]. cbn in *. rewrite H1. cbn.
    intros x ->%list_elem_of_singleton. apply bound_for_elem in H2 as (b & Hin & Hp & _).
    apply list_elem_of_omap. by exists b.
  - cbn [covers]. intros [_ Hall]%write_set_covers_iff. split; [done|]. cbn.
    intros x (e & Hin & Hx)%list_elem_of_omap. rewrite Forall_forall in Hall.
    destruct (Hall e Hin) as (path & n & H1 & H2 & _). rewrite H1 in Hx. injection Hx as <-.
    apply bound_for_elem in H2 as (b & Hin' & Hp & _). apply list_elem_of_omap. by exists b.
Qed.

(** Coverage is an order on authority: it composes, so an effect covered by a
    bound covered by an approval is covered by the approval; it never crosses from
    one kind of effect to another; the workspace files a covered intent names are
    among the files its approval names, compared by canonical path (so [..], an
    absolute path or a sibling with a longer name never pass); and an empty
    program, shell digest or path covers nothing. *)
Theorem coverage_order a b c :
  (covers a b = true -> covers b c = true -> covers a c = true) /\
  (covers a b = true -> intent_risk a = intent_risk b /\
     approved_workspace_paths b ⊆ approved_workspace_paths a) /\
  covers (exec_argv_intent []) a = false /\ covers (ShellExec [] []) a = false /\
  covers (WorkspaceWrite [] u64_max) a = false.
Proof.
  split; [apply covers_trans|]. split; [apply coverage_facts|].
  split_and!; by destruct a.
Qed.
