(* ===== verification/Registry.v ===== *)
(** [OperationRegistry] of agent-core/operation.rs: the bounded authority state
    of Core. Every transition is written to the journal first and becomes
    visible in memory only when the journal acknowledged it.

    The registry's two locks make each method one atomic step on the record
    below; the journal is any implementation of [OperationJournal]. *)

From S2P Require Import Prelude Text Digest Operation Journal Intent.

(** ** The seen-operation filter *)

Definition SEEN_OPERATION_FILTER_BITS : N := 2097152.
Definition SEEN_OPERATION_FILTER_WORDS : N := 32768.

(** The words of the boxed slice; words never written are 0. *)
Abbreviation SeenOperationFilter := (gmap N N).

Definition SEEDS : list N :=
  [14695981039346656037; 11400714819323198485; 15485907386658061715;
   11562461410679940143]%N.

(** [Uuid::as_bytes]: sixteen bytes, most significant first. *)
Definition uuid_bytes (uuid : N) : list N :=
  (fun i => N.land (N.shiftr uuid (8 * (15 - N.of_nat i))) 255) <$> seq 0 16.

Definition seen_filter_hash (seed : N) (bytes : list N) : N :=
  foldl (fun hash byte => wrapping_mul (N.lxor hash byte) 1099511628211) seed bytes.

Definition seen_filter_indexes (operation_id : N) : list N :=
  (fun seed => N.land (seen_filter_hash seed (uuid_bytes operation_id))
                 (SEEN_OPERATION_FILTER_BITS - 1)) <$> SEEDS.

Definition word (f : SeenOperationFilter) (i : N) : N := default 0%N (f !! i).

Definition may_contain (f : SeenOperationFilter) (operation_id : N) : bool :=
  forallb (fun index => negb (N.land (word f (index / 64)) (N.shiftl 1 (index mod 64)) =? 0)%N)
    (seen_filter_indexes operation_id).

Definition seen_insert (f : SeenOperationFilter) (operation_id : N) : SeenOperationFilter :=
  foldl (fun f index =>
           <[(index / 64)%N := N.lor (word f (index / 64)) (N.shiftl 1 (index mod 64))]> f)
    f (seen_filter_indexes operation_id).

(** ** State *)

Record Registry (J : Type) : Type := {
  rg_capacity : nat;
  rg_journal : option J;
  rg_records : gmap N OperationSnapshot;
  rg_terminal_order : list N;
  rg_seen : SeenOperationFilter;
  rg_leases : gmap N AuthorityLease;
  rg_recovery_required : option text;
}.
Arguments rg_capacity {J}.
Arguments rg_journal {J}.
Arguments rg_records {J}.
Arguments rg_terminal_order {J}.
Arguments rg_seen {J}.
Arguments rg_leases {J}.
Arguments rg_recovery_required {J}.

Inductive OperationAdmission : Type :=
| AdmissionAccepted
| AdmissionDuplicate (snapshot : OperationSnapshot).

Inductive OperationCancelTransition : Type :=
| Cancelled (result : OperationQueryResult)
| AlreadySettled (result : OperationQueryResult).

(** ** Eviction *)

(** The loop of [evict_terminal_until_fit]: it pops [terminal_order] until the
    records fit or nothing is left to pop. *)
Fixpoint evict_loop (capacity : nat) (order : list N) (records : gmap N OperationSnapshot)
    (leases : gmap N AuthorityLease) :
    list N * gmap N OperationSnapshot * gmap N AuthorityLease :=
  if size records <? capacity then (order, records, leases)
  else
    match order with
    | [] => ([], records, leases)
    | operation_id :: order' =>
        if match records !! operation_id with
           | Some snapshot => is_terminal (os_state snapshot)
           | None => false
           end
        then evict_loop capacity order' (delete operation_id records)
               (delete operation_id leases)
        else evict_loop capacity order' records leases
    end.

Section registry.
Context {J : Type} `{OJ : OperationJournal J}.

Abbreviation R := (M (Registry J) AgentError).

Definition set_memory (r : Registry J) (records : gmap N OperationSnapshot)
    (order : list N) (seen : SeenOperationFilter) (leases : gmap N AuthorityLease) :
    Registry J :=
  {| rg_capacity := rg_capacity r; rg_journal := rg_journal r; rg_records := records;
     rg_terminal_order := order; rg_seen := seen; rg_leases := leases;
     rg_recovery_required := rg_recovery_required r |}.

Definition set_journal (r : Registry J) (j : J) : Registry J :=
  {| rg_capacity := rg_capacity r; rg_journal := Some j; rg_records := rg_records r;
     rg_terminal_order := rg_terminal_order r; rg_seen := rg_seen r;
     rg_leases := rg_leases r; rg_recovery_required := rg_recovery_required r |}.

Definition set_recovery_required (r : Registry J) (reason : text) : Registry J :=
  {| rg_capacity := rg_capacity r; rg_journal := rg_journal r; rg_records := rg_records r;
     rg_terminal_order := rg_terminal_order r; rg_seen := rg_seen r;
     rg_leases := rg_leases r; rg_recovery_required := Some reason |}.

Definition evict_terminal_until_fit (r : Registry J) : Registry J :=
  let '(order, records, leases) :=
    evict_loop (rg_capacity r) (rg_terminal_order r) (rg_records r) (rg_leases r) in
  set_memory r records order (rg_seen r) leases.

Definition has_capacity_or_evictable_terminal (r : Registry J) : bool :=
  (size (rg_records r) <? rg_capacity r)
  || existsb (fun operation_id =>
       match rg_records r !! operation_id with
       | Some snapshot => is_terminal (os_state snapshot)
       | None => false
       end) (rg_terminal_order r).

(** Install a snapshot that is not terminal. *)
Definition install (snapshot : OperationSnapshot) (r : Registry J) : Registry J :=
  set_memory r (<[os_id snapshot := snapshot]> (rg_records r)) (rg_terminal_order r)
    (rg_seen r) (rg_leases r).

(** Install a terminal snapshot: the lease goes, the id joins the order. *)
Definition install_terminal (snapshot : OperationSnapshot) (r : Registry J) : Registry J :=
  set_memory r (<[os_id snapshot := snapshot]> (rg_records r))
    (rg_terminal_order r ++ [os_id snapshot]) (rg_seen r)
    (delete (os_id snapshot) (rg_leases r)).

Definition mark_seen (operation_id : N) (r : Registry J) : Registry J :=
  set_memory r (rg_records r) (rg_terminal_order r) (seen_insert (rg_seen r) operation_id)
    (rg_leases r).

(** ** Health and the journal *)

Definition ensure_healthy : R unit := fun r =>
  match rg_recovery_required r with
  | Some error => (Err (RecoveryRequired error), r)
  | None => (Ok tt, r)
  end.

Definition append_transition (t : OperationJournalTransition) : R unit := fun r =>
  match rg_journal r with
  | None => (Ok tt, r)
  | Some j =>
      match append_and_sync t j with
      | (Ok _, j') => (Ok tt, set_journal r j')
      | (Err error, j') =>
          let message := txt "operation authority journal failed: " ++ display_error error in
          (Err (RecoveryRequired message), set_recovery_required (set_journal r j') message)
      end
  end.

Definition append_snapshot (snapshot : OperationSnapshot) : R unit :=
  append_transition (OperationUpsert snapshot).

Definition require_recovery (reason : text) (r : Registry J) : Registry J :=
  match rg_recovery_required r with
  | Some _ => r
  | None => set_recovery_required r (bounded_text reason MAX_OPERATION_DIAGNOSTIC_BYTES)
  end.

Definition recovery_status (r : Registry J) : AuthorityRecoveryStatus :=
  match rg_recovery_required r with
  | Some reason => StatusRecoveryRequired reason
  | None => Ready
  end.

(** ** Recovery *)

(** The loop of [recover] over the recovered operations. *)
Fixpoint recover_operations (ops : list OperationSnapshot) (r : Registry J) :
    AgentResult (Registry J) :=
  match ops with
  | [] => Ok r
  | snapshot :: rest =>
      let? _ := map_err InvalidRequest (snapshot_validate snapshot) in
      let r1 := mark_seen (os_id snapshot) r in
      recover_operations rest
        (if is_terminal (os_state snapshot)
         then set_memory r1 (<[os_id snapshot := snapshot]> (rg_records r1))
                (rg_terminal_order r1 ++ [os_id snapshot]) (rg_seen r1) (rg_leases r1)
         else install snapshot r1)
  end.

Definition recover (capacity : nat) (journal : option J)
    (recovery : OperationJournalRecovery) : AgentResult (Registry J) :=
  let unresolved :=
    length (filter (fun s => is_terminal (os_state s) = false) (rv_operations recovery)) in
  if capacity <? unresolved
  then Err (RecoveryRequired
              (txt "operation journal recovered unresolved operations, exceeding Core capacity"))
  else
    let? r := recover_operations (rv_operations recovery)
                {| rg_capacity := capacity; rg_journal := journal; rg_records := ∅;
                   rg_terminal_order := []; rg_seen := ∅; rg_leases := ∅;
                   rg_recovery_required := None |} in
    Ok (evict_terminal_until_fit r).

Definition recovered_snapshots (r : Registry J) : list OperationSnapshot :=
  sort_by_id (map_to_list (rg_records r)).*2.

Definition persist_epoch_advance (from to : N) : R unit :=
  do_ ensure_healthy ;;
  append_transition (EpochAdvanced from to).

(** The effect id a recovered state fixes for its terminal. *)
Definition expected_effect_id (expected : OperationState) : AgentResult (option N) :=
  match expected with
  | Accepted | Executing None => Ok None
  | Executing (Some e) | Prepared e | CommitStarted e => Ok (Some e)
  | Terminal _ _ =>
      Err (InvalidRequest (txt "startup recovery cannot rewrite a terminal operation"))
  end.

Definition recover_terminal (operation_id : N) (expected : OperationState)
    (effect_id : option N) (terminal : OperationTerminal) : R unit := fun r =>
  match map_err InvalidRequest (terminal_validate terminal) with
  | Err e => (Err e, r)
  | Ok _ =>
    match expected_effect_id expected with
    | Err e => (Err e, r)
    | Ok expected_id =>
      if negb (bool_decide (expected_id = effect_id))
      then (Err (InvalidRequest (txt
             "startup recovery terminal effect id does not match recovered authority state")), r)
      else
        match rg_records r !! operation_id with
        | None => (Err (InvalidRequest (txt "unknown operation")), r)
        | Some record =>
            if negb (bool_decide (os_state record = expected))
            then (Err (RecoveryRequired
                   (txt "operation changed while startup recovery was reconciling it")), r)
            else
              let next := {| os_identity := os_identity record;
                             os_state := Terminal effect_id terminal |} in
              match append_snapshot next r with
              | (Err e, r1) => (Err e, r1)
              | (Ok _, r1) => (Ok tt, install_terminal next r1)
              end
        end
    end
  end.

(** ** Checkpoint markers *)

Definition registry_checkpoint_marker : R (option AuthorityCheckpointMarker) :=
  do_ ensure_healthy ;;
  do r <- get ;;
  match rg_journal r with
  | None => ret None
  | Some j => do m <- lift (journal_marker j) ;; ret (Some m)
  end.

Definition registry_validate_marker (expected : AuthorityCheckpointMarker) : R unit :=
  do_ ensure_healthy ;;
  do r <- get ;;
  match rg_journal r with
  | None =>
      fail (RecoveryRequired (txt
        "Core has no durable operation journal for authority checkpoint validation"))
  | Some j => lift (journal_validate_marker expected j)
  end.

Definition compact_authority_journal : R (option AuthorityCheckpointMarker) :=
  do_ ensure_healthy ;;
  (fun r =>
    match rg_journal r with
    | None => (Ok None, r)
    | Some j =>
        match journal_compact j with
        | (Ok m, j') => (Ok (Some m), set_journal r j')
        | (Err e, j') => (Err e, set_journal r j')
        end
    end).

(** ** Admission *)

Definition accept (identity : ToolOperationIdentity) : R OperationAdmission := fun r =>
  match map_err InvalidRequest (identity_validate identity) with
  | Err e => (Err e, r)
  | Ok _ =>
    match ensure_healthy r with
    | (Err e, _) => (Err e, r)
    | (Ok _, _) =>
      let operation_id := ti_operation_id identity in
      let snapshot := {| os_identity := identity; os_state := Accepted |} in
      match rg_records r !! operation_id with
      | Some existing =>
          if bool_decide (os_identity existing = identity)
          then (Ok (AdmissionDuplicate existing), r)
          else (Err (InvalidRequest (txt
                 "operation was reused with a different identity or argument digest")), r)
      | None =>
          if may_contain (rg_seen r) operation_id
          then (Err (InvalidRequest (txt "operation was already admitted")), r)
          else if negb (has_capacity_or_evictable_terminal r)
          then (Err (RecoveryRequired (txt "operation registry is full")), r)
          else
            match append_snapshot snapshot r with
            | (Err e, r1) => (Err e, r1)
            | (Ok _, r1) =>
                (Ok AdmissionAccepted,
                 install snapshot (mark_seen operation_id (evict_terminal_until_fit r1)))
            end
      end
    end
  end.

(** ** Transitions *)

Definition transition (operation_id : N)
    (move_state : OperationState -> result OperationState text) : R unit := fun r =>
  match ensure_healthy r with
  | (Err e, _) => (Err e, r)
  | (Ok _, _) =>
    match rg_records r !! operation_id with
    | None => (Err (InvalidRequest (txt "unknown operation")), r)
    | Some record =>
        match move_state (os_state record) with
        | Err message => (Err (InvalidRequest message), r)
        | Ok next_state =>
            let next := {| os_identity := os_identity record; os_state := next_state |} in
            match append_snapshot next r with
            | (Err e, r1) => (Err e, r1)
            | (Ok _, r1) =>
                (Ok tt, set_memory r1 (<[operation_id := next]> (rg_records r1))
                          (rg_terminal_order r1) (rg_seen r1) (rg_leases r1))
            end
        end
    end
  end.

Definition mark_executing (operation_id : N) (effect_id : option N) : R unit :=
  if from_option is_nil false effect_id
  then fail (InvalidRequest (txt "operation cannot reserve a nil effect id"))
  else
    transition operation_id (fun state =>
      match state with
      | Accepted => Ok (Executing effect_id)
      | _ => Err (txt "operation is not accepted")
      end).

Definition mark_prepared (operation_id effect_id : N) : R unit :=
  transition operation_id (fun state =>
    match state with
    | Executing (Some expected) =>
        if (expected =? effect_id)%N then Ok (Prepared effect_id)
        else Err (txt "effect id does not match the executing operation")
    | Executing None => Err (txt "read-only operation has no reserved effect id")
    | _ => Err (txt "operation is not executing")
    end).

Definition begin_commit (operation_id effect_id : N) : R unit :=
  transition operation_id (fun state =>
    match state with
    | Prepared expected =>
        if (expected =? effect_id)%N then Ok (CommitStarted effect_id)
        else Err (txt "effect id does not match prepared operation")
    | _ => Err (txt "operation has no commit-ready prepared effect")
    end).

(** ** Leases *)

Definition record_lease (operation_id : N) (lease : AuthorityLease) : R unit := fun r =>
  match ensure_healthy r with
  | (Err e, _) => (Err e, r)
  | (Ok _, _) =>
    match rg_records r !! operation_id with
    | None => (Err (InvalidRequest (txt "unknown operation")), r)
    | Some record =>
        if negb (bool_decide (os_state record = Accepted))
           || negb (al_operation_id lease =? operation_id)%N
           || negb (bool_decide
                (al_argument_digest lease = ti_argument_digest (os_identity record)))
           || negb (al_operation_generation lease =? ti_generation (os_identity record))%N
        then (Err (InvalidRequest (txt "operation cannot record this authority lease")), r)
        else (Ok tt, set_memory r (rg_records r) (rg_terminal_order r) (rg_seen r)
                       (<[operation_id := lease]> (rg_leases r)))
    end
  end.

Definition issued_lease_matches (operation_id : N) (lease : AuthorityLease) (r : Registry J) :
    bool :=
  match rg_leases r !! operation_id with
  | Some issued => bool_decide (issued = lease)
  | None => false
  end.

(** ** Terminals *)

Definition query (operation_id : N) (r : Registry J) : OperationQueryResult :=
  match rg_records r !! operation_id with
  | Some snapshot => Found snapshot
  | None => if may_contain (rg_seen r) operation_id then ExpiredOrPossiblySeen else NotFound
  end.

Definition require_identity (operation_id : N) (argument_digest : Digest)
    (generation : option N) (r : Registry J) : AgentResult unit :=
  match rg_records r !! operation_id with
  | None => Err (InvalidRequest (txt "unknown operation"))
  | Some record =>
      if negb (bool_decide (ti_argument_digest (os_identity record) = argument_digest))
         || from_option (fun v => negb (ti_generation (os_identity record) =? v)%N) false generation
      then Err (InvalidRequest (txt "operation identity does not match admission"))
      else Ok tt
  end.

Definition finish_terminal (operation_id : N) (effect_id : option N)
    (terminal : OperationTerminal) (allowed : OperationState -> bool) : R unit := fun r =>
  match ensure_healthy r with
  | (Err e, _) => (Err e, r)
  | (Ok _, _) =>
    match rg_records r !! operation_id with
    | None => (Err (InvalidRequest (txt "unknown operation")), r)
    | Some record =>
        if negb (allowed (os_state record))
        then (Err (InvalidRequest (txt "operation cannot become terminal")), r)
        else
          let next := {| os_identity := os_identity record;
                         os_state := Terminal effect_id terminal |} in
          match append_snapshot next r with
          | (Err e, r1) => (Err e, r1)
          | (Ok _, r1) => (Ok tt, install_terminal next r1)
          end
    end
  end.

Definition finish_value (operation_id : N) (argument_digest : Digest) (generation : N) : R unit :=
  do r <- get ;;
  do_ lift (require_identity operation_id argument_digest (Some generation) r) ;;
  finish_terminal operation_id None CompletedValue
    (fun state => match state with Executing _ => true | _ => false end).

Definition finish_refused (operation_id : N) (error : text) : R unit :=
  finish_terminal operation_id None
    (Refused (bounded_text error MAX_OPERATION_DIAGNOSTIC_BYTES))
    (fun state => match state with Accepted => true | _ => false end).

(** The terminal [finish_effect] derives from a receipt. *)
Definition receipt_terminal (receipt : EffectReceipt) : OperationTerminal :=
  match receipt with
  | ReceiptNotApplied error => NotApplied (bounded_text error MAX_OPERATION_DIAGNOSTIC_BYTES)
  | ReceiptApplied durability evidence =>
      Applied
        (match durability with
         | Durable => Durable
         | DurabilityFailed error =>
             DurabilityFailed (bounded_text error MAX_OPERATION_DIAGNOSTIC_BYTES)
         end)
        ((fun value => bounded_text value MAX_OPERATION_EVIDENCE_BYTES) <$> evidence)
  | ReceiptUnknown error => OutcomeUnknown (bounded_text error MAX_OPERATION_DIAGNOSTIC_BYTES)
  end.

Definition finish_effect (operation_id : N) (receipt : EffectReceipt) : R unit :=
  let terminal := receipt_terminal receipt in
  do_ lift (map_err InvalidRequest (terminal_validate terminal)) ;;
  do r <- get ;;
  let effect_id :=
    match query operation_id r with
    | Found {| os_state := CommitStarted effect_id |} => Some effect_id
    | _ => None
    end in
  finish_terminal operation_id effect_id terminal
    (fun state => match state with CommitStarted _ => true | _ => false end).

(** ** Cancellation *)

Definition cancelled_snapshot (identity : ToolOperationIdentity) (effect_id : option N) :
    OperationSnapshot :=
  {| os_identity := identity; os_state := Terminal effect_id CancelledBeforeCommit |}.

(** The memory update after the cancellation terminal is durable. *)
Definition install_cancelled (next : OperationSnapshot) (r : Registry J) : Registry J :=
  install_terminal next (mark_seen (os_id next) (evict_terminal_until_fit r)).

Definition cancel (identity : ToolOperationIdentity) : R unit := fun r =>
  match map_err InvalidRequest (identity_validate identity) with
  | Err e => (Err e, r)
  | Ok _ =>
    match ensure_healthy r with
    | (Err e, _) => (Err e, r)
    | (Ok _, _) =>
      let operation_id := ti_operation_id identity in
      let commit next :=
        match append_snapshot next r with
        | (Err e, r1) => (Err e, r1)
        | (Ok _, r1) => (Ok tt, install_cancelled next r1)
        end in
      match rg_records r !! operation_id with
      | Some record =>
          if negb (bool_decide (os_identity record = identity))
          then (Err (InvalidRequest (txt
                 "operation cancellation identity does not match admission")), r)
          else
            match os_state record with
            | Accepted => commit (cancelled_snapshot (os_identity record) None)
            | Executing effect_id => commit (cancelled_snapshot (os_identity record) effect_id)
            | Prepared effect_id =>
                commit (cancelled_snapshot (os_identity record) (Some effect_id))
            | Terminal _ CancelledBeforeCommit => (Ok tt, r)
            | _ => (Err (InvalidRequest (txt "operation cannot be cancelled")), r)
            end
      | None =>
          if may_contain (rg_seen r) operation_id
          then (Err (InvalidRequest (txt
                 "operation was already admitted or conservatively seen")), r)
          else if negb (has_capacity_or_evictable_terminal r)
          then (Err (RecoveryRequired (txt "operation registry is full")), r)
          else commit (cancelled_snapshot identity None)
      end
    end
  end.

Definition cancel_and_persist_epoch (identity : ToolOperationIdentity) (from_epoch to_epoch : N) :
    R OperationCancelTransition := fun r =>
  match map_err InvalidRequest (identity_validate identity) with
  | Err e => (Err e, r)
  | Ok _ =>
    if (from_epoch =? 0)%N
       || negb (to_epoch =? from_option (fun n => n) 0 (checked_succ from_epoch))%N
    then (Err (InvalidRequest (txt
           "operation cancellation requires one non-zero authority-epoch advance")), r)
    else
      match ensure_healthy r with
      | (Err e, _) => (Err e, r)
      | (Ok _, _) =>
        let operation_id := ti_operation_id identity in
        let commit next :=
          match append_transition (EpochAdvanced from_epoch to_epoch) r with
          | (Err e, r1) => (Err e, r1)
          | (Ok _, r1) =>
              match append_snapshot next r1 with
              | (Err e, r2) => (Err e, r2)
              | (Ok _, r2) => (Ok (Cancelled (Found next)), install_cancelled next r2)
              end
          end in
        match rg_records r !! operation_id with
        | Some record =>
            if negb (bool_decide (os_identity record = identity))
            then (Err (InvalidRequest (txt
                   "operation cancellation identity does not match admission")), r)
            else
              match os_state record with
              | CommitStarted _ | Terminal _ _ => (Ok (AlreadySettled (Found record)), r)
              | Accepted => commit (cancelled_snapshot (os_identity record) None)
              | Executing effect_id =>
                  commit (cancelled_snapshot (os_identity record) effect_id)
              | Prepared effect_id =>
                  commit (cancelled_snapshot (os_identity record) (Some effect_id))
              end
        | None =>
            if may_contain (rg_seen r) operation_id
            then (Ok (AlreadySettled ExpiredOrPossiblySeen), r)
            else if negb (has_capacity_or_evictable_terminal r)
            then (Err (RecoveryRequired (txt "operation registry is full")), r)
            else commit (cancelled_snapshot identity None)
        end
      end
  end.

Definition abort_prepared (operation_id effect_id : N) (argument_digest : Digest) : R unit :=
  do r <- get ;;
  match query operation_id r with
  | Found snapshot =>
      if negb (bool_decide (ti_argument_digest (os_identity snapshot) = argument_digest))
      then fail (InvalidRequest (txt "operation prepared-effect identity does not match"))
      else
        match os_state snapshot with
        | Prepared expected =>
            if (expected =? effect_id)%N then cancel (os_identity snapshot)
            else fail (InvalidRequest (txt "operation prepared-effect identity does not match"))
        | Terminal (Some expected) CancelledBeforeCommit =>
            if (expected =? effect_id)%N then ret tt
            else fail (InvalidRequest (txt "operation prepared-effect identity does not match"))
        | _ => fail (InvalidRequest (txt "operation prepared-effect identity does not match"))
        end
  | _ => fail (InvalidRequest (txt "unknown or expired operation"))
  end.

End registry.
