(* ===== verification/RegistryFacts.v ===== *)
(** Facts about the operation registry: the seen filter has no false negatives
    and stays within its words; the memory invariant of the registry and its
    preservation by eviction, admission and installation; the coupling with the
    journal that every write-through keeps. *)

From S2P Require Import Prelude Text Digest Operation Journal Intent Registry.

(** ** The seen filter *)

Definition filter_bit (f : SeenOperationFilter) (index : N) : bool :=
  N.testbit (word f (index / 64)) (index mod 64).

Lemma land_bit w i : negb (N.land w (N.shiftl 1 i) =? 0)%N = N.testbit w i.
Proof.
  rewrite N.shiftl_1_l. destruct (N.testbit w i) eqn:E.
  - apply negb_true_iff, N.eqb_neq. intros H0.
    assert (Hb : N.testbit (N.land w (2 ^ i)) i = true)
      by (by rewrite N.land_spec, E, N.pow2_bits_true).
    by rewrite H0, N.bits_0 in Hb.
  - apply negb_false_iff, N.eqb_eq. apply N.bits_inj. intros k.
    rewrite N.land_spec, N.bits_0. destruct (decide (i = k)) as [<-|Hne].
    + by rewrite E.
    + rewrite N.pow2_bits_false by done. apply andb_false_r.
Qed.

Lemma may_contain_bits f id :
  may_contain f id = forallb (filter_bit f) (seen_filter_indexes id).
Proof.
  unfold may_contain. induction (seen_filter_indexes id) as [|i l IH]; [done|].
  cbn [forallb]. by rewrite land_bit, IH.
Qed.

Definition set_bit (f : SeenOperationFilter) (index : N) : SeenOperationFilter :=
  <[(index / 64)%N := N.lor (word f (index / 64)) (N.shiftl 1 (index mod 64))]> f.

Lemma set_bit_spec f i k : filter_bit (set_bit f i) k = filter_bit f k || (i =? k)%N.
Proof.
  unfold filter_bit, set_bit, word. destruct (decide (i / 64 = k / 64)%N) as [Hq|Hq].
  - rewrite <- Hq, lookup_insert_eq. cbn. rewrite N.lor_spec, N.shiftl_1_l. f_equal.
    destruct (N.eqb_spec i k) as [->|Hne]; [by rewrite N.pow2_bits_true|].
    rewrite N.pow2_bits_false; [done|]. intros Hr. apply Hne.
    rewrite (N.div_mod i 64), (N.div_mod k 64) by done. by rewrite Hq, Hr.
  - rewrite lookup_insert_ne by done. destruct (N.eqb_spec i k) as [->|]; [done|].
    by rewrite orb_false_r.
Qed.

Lemma set_bits_spec l f k :
  filter_bit (foldl set_bit f l) k = filter_bit f k || bool_decide (k ∈ l).
Proof.
  revert f. induction l as [|i l IH]; intros f; cbn.
  - rewrite bool_decide_eq_false_2 by set_solver. by rewrite orb_false_r.
  - rewrite IH, set_bit_spec, <- orb_assoc. f_equal.
    destruct (N.eqb_spec i k) as [->|Hne]; cbn.
    + by rewrite bool_decide_eq_true_2 by set_solver.
    + apply bool_decide_ext. set_solver.
Qed.

Lemma seen_insert_bit f id k :
  filter_bit (seen_insert f id) k = filter_bit f k || bool_decide (k ∈ seen_filter_indexes id).
Proof. apply set_bits_spec. Qed.

Lemma seen_insert_contains f id : may_contain (seen_insert f id) id = true.
Proof.
  rewrite may_contain_bits. apply forallb_forall. intros k Hk%list_elem_of_In.
  rewrite seen_insert_bit. by rewrite bool_decide_eq_true_2, orb_true_r.
Qed.

Lemma seen_insert_mono f id id' :
  may_contain f id = true -> may_contain (seen_insert f id') id = true.
Proof.
  rewrite !may_contain_bits, !forallb_forall. intros Hf k Hk.
  by rewrite seen_insert_bit, Hf.
Qed.

Lemma seen_index_bound id : Forall (fun i => (i < SEEN_OPERATION_FILTER_BITS)%N) (seen_filter_indexes id).
Proof.
  apply Forall_forall. intros i (seed & -> & _)%list_elem_of_fmap.
  change (SEEN_OPERATION_FILTER_BITS - 1)%N with (N.ones 21). rewrite N.land_ones.
  by apply N.mod_lt.
Qed.

(** Every word is a 64-bit word of the slice. *)
Definition filter_wf (f : SeenOperationFilter) : Prop :=
  forall i w, f !! i = Some w -> (i < SEEN_OPERATION_FILTER_WORDS)%N /\ (w < 2 ^ 64)%N.

Lemma word_bound f i : filter_wf f -> (word f i < 2 ^ 64)%N.
Proof. intros Hf. unfold word. destruct (f !! i) eqn:E; cbn; [by apply (Hf i)|done]. Qed.

Lemma lor_bound a b : (a < 2 ^ 64)%N -> (b < 2 ^ 64)%N -> (N.lor a b < 2 ^ 64)%N.
Proof.
  intros Ha Hb. destruct (decide (N.lor a b = 0)%N) as [->|Hne]; [done|].
  apply N.log2_lt_pow2; [lia|]. rewrite N.log2_lor.
  apply N.max_lub_lt.
  - destruct (decide (a = 0)%N) as [->|]; [done|]. apply N.log2_lt_pow2; lia.
  - destruct (decide (b = 0)%N) as [->|]; [done|]. apply N.log2_lt_pow2; lia.
Qed.

Lemma set_bit_wf f i : filter_wf f -> (i < SEEN_OPERATION_FILTER_BITS)%N -> filter_wf (set_bit f i).
Proof.
  intros Hf Hi k w. unfold set_bit. rewrite lookup_insert_Some. intros [[<- <-]|[_ Hk]].
  - split.
    + unfold SEEN_OPERATION_FILTER_BITS, SEEN_OPERATION_FILTER_WORDS in *.
      apply N.Div0.div_lt_upper_bound. lia.
    + apply lor_bound; [by apply word_bound|]. rewrite N.shiftl_1_l.
      apply N.pow_lt_mono_r; [lia|]. by apply N.mod_lt.
  - by apply Hf in Hk.
Qed.

Lemma seen_insert_wf f id : filter_wf f -> filter_wf (seen_insert f id).
Proof.
  intros Hf. unfold seen_insert. fold set_bit.
  change (filter_wf (foldl set_bit f (seen_filter_indexes id))).
  pose proof (seen_index_bound id) as Hb. revert f Hf.
  induction Hb as [|i l Hi Hb IH]; intros f Hf; cbn; [done|].
  apply IH. by apply set_bit_wf.
Qed.

(** From here on the filter is used through the lemmas above only. *)
#[global] Opaque may_contain seen_insert.

(** ** The memory invariant *)

Definition lease_for (s : OperationSnapshot) (l : AuthorityLease) : Prop :=
  al_operation_id l = os_id s /\
  al_argument_digest l = ti_argument_digest (os_identity s) /\
  al_operation_generation l = ti_generation (os_identity s).

Definition terminal_at (records : gmap N OperationSnapshot) (id : N) : Prop :=
  exists s, records !! id = Some s /\ is_terminal (os_state s) = true.

(** The records are keyed by their ids, valid, all seen and within capacity;
    the eviction order lists exactly the terminal records; leases exist only
    for records that are not terminal and match their identity. *)
Record mem_inv (capacity : nat) (records : gmap N OperationSnapshot) (order : list N)
    (seen : SeenOperationFilter) (leases : gmap N AuthorityLease) : Prop := {
  mi_wf : ops_wf records;
  mi_valid : forall id s, records !! id = Some s -> snapshot_validate s = Ok tt;
  mi_nodup : NoDup order;
  mi_order : forall id, id ∈ order <-> terminal_at records id;
  mi_fits : size records <= capacity;
  mi_filter : filter_wf seen;
  mi_seen : forall id, is_Some (records !! id) -> may_contain seen id = true;
  mi_lease : forall id l, leases !! id = Some l ->
    exists s, records !! id = Some s /\ is_terminal (os_state s) = false /\ lease_for s l;
}.

Lemma terminal_at_insert_ne records id s k :
  k <> id -> terminal_at (<[id := s]> records) k <-> terminal_at records k.
Proof. intros Hne. unfold terminal_at. by rewrite lookup_insert_ne. Qed.

Lemma terminal_at_insert_eq records id s :
  terminal_at (<[id := s]> records) id <-> is_terminal (os_state s) = true.
Proof. unfold terminal_at. rewrite lookup_insert_eq. naive_solver. Qed.

(** Replacing a record that is not terminal by one that is not either. *)
Lemma mem_inv_move cap records order seen leases id p s :
  mem_inv cap records order seen leases ->
  records !! id = Some p -> is_terminal (os_state p) = false ->
  os_identity s = os_identity p -> is_terminal (os_state s) = false ->
  snapshot_validate s = Ok tt ->
  mem_inv cap (<[id := s]> records) order seen leases.
Proof.
  intros [Hwf Hv Hnd Ho Hf Hfw Hs Hl] Hp Hpt Hid Hst Hval.
  assert (Hsid : os_id s = id) by (unfold os_id; rewrite Hid; by apply Hwf).
  split; try done.
  - intros k x [[<- <-]|[_ Hk]]%lookup_insert_Some; [done|by apply Hwf].
  - intros k x [[<- <-]|[_ Hk]]%lookup_insert_Some; [done|by eapply Hv].
  - intros k. rewrite (Ho k). destruct (decide (k = id)) as [->|Hne].
    + rewrite terminal_at_insert_eq, Hst. split; [|done].
      intros (x & Hx & Ht). congruence.
    + by rewrite terminal_at_insert_ne.
  - by rewrite map_size_insert_Some by eauto.
  - intros k. rewrite lookup_insert_is_Some'. intros [<-|Hk]; apply Hs; eauto.
  - intros k l Hk. destruct (Hl k l Hk) as (x & Hx & Hxt & Hxl).
    destruct (decide (k = id)) as [->|Hne].
    + exists s. rewrite lookup_insert_eq. simplify_eq. unfold lease_for, os_id in *.
      by rewrite Hid.
    + exists x. by rewrite lookup_insert_ne.
Qed.

(** Replacing a record that is not terminal by its terminal. *)
Lemma mem_inv_settle cap records order seen leases id p s :
  mem_inv cap records order seen leases ->
  records !! id = Some p -> is_terminal (os_state p) = false ->
  os_id s = id -> is_terminal (os_state s) = true -> snapshot_validate s = Ok tt ->
  mem_inv cap (<[id := s]> records) (order ++ [id]) seen (delete id leases).
Proof.
  intros [Hwf Hv Hnd Ho Hf Hfw Hs Hl] Hp Hpt Hsid Hst Hval.
  assert (Hni : id ∉ order).
  { intros (x & Hx & Ht)%Ho. congruence. }
  split; try done.
  - intros k x [[<- <-]|[_ Hk]]%lookup_insert_Some; [done|by apply Hwf].
  - intros k x [[<- <-]|[_ Hk]]%lookup_insert_Some; [done|by eapply Hv].
  - apply NoDup_app. split; [done|]. split; [|apply NoDup_singleton]. set_solver.
  - intros k. rewrite elem_of_app, list_elem_of_singleton, (Ho k).
    destruct (decide (k = id)) as [->|Hne].
    + rewrite terminal_at_insert_eq. naive_solver.
    + rewrite terminal_at_insert_ne by done. naive_solver.
  - by rewrite map_size_insert_Some by eauto.
  - intros k. rewrite lookup_insert_is_Some'. intros [<-|Hk]; apply Hs; eauto.
  - intros k l [Hne Hk]%lookup_delete_Some. destruct (Hl k l Hk) as (x & Hx & Hxt & Hxl).
    exists x. by rewrite lookup_insert_ne.
Qed.

(** A new record, terminal or not, in a registry with room. *)
Lemma mem_inv_new cap records order seen leases s :
  mem_inv cap records order seen leases ->
  records !! os_id s = None -> size records < cap -> snapshot_validate s = Ok tt ->
  mem_inv cap (<[os_id s := s]> records)
    (if is_terminal (os_state s) then order ++ [os_id s] else order)
    (seen_insert seen (os_id s)) leases.
Proof.
  intros [Hwf Hv Hnd Ho Hf Hfw Hs Hl] Hnone Hlt Hval.
  assert (Hni : os_id s ∉ order).
  { intros (x & Hx & Ht)%Ho. congruence. }
  split.
  - intros k x [[<- <-]|[_ Hk]]%lookup_insert_Some; [done|by apply Hwf].
  - intros k x [[<- <-]|[_ Hk]]%lookup_insert_Some; [done|by eapply Hv].
  - destruct (is_terminal _); [|done].
    apply NoDup_app. split; [done|]. split; [|apply NoDup_singleton]. set_solver.
  - intros k. destruct (decide (k = os_id s)) as [->|Hne].
    + rewrite terminal_at_insert_eq. destruct (is_terminal _); [set_solver|done].
    + rewrite terminal_at_insert_ne, <- (Ho k) by done.
      destruct (is_terminal _); [|done]. set_solver.
  - rewrite map_size_insert_None by done. lia.
  - by apply seen_insert_wf.
  - intros k. rewrite lookup_insert_is_Some'. intros [<-|Hk]; [apply seen_insert_contains|].
    apply seen_insert_mono. by apply Hs.
  - intros k l Hk. destruct (Hl k l Hk) as (x & Hx & Hxt & Hxl).
    exists x. rewrite lookup_insert_ne; [done|]. intros <-. congruence.
Qed.

Lemma mem_inv_seen cap records order seen leases id :
  mem_inv cap records order seen leases ->
  mem_inv cap records order (seen_insert seen id) leases.
Proof.
  intros [Hwf Hv Hnd Ho Hf Hfw Hs Hl]. split; try done.
  - by apply seen_insert_wf.
  - intros k Hk. apply seen_insert_mono. by apply Hs.
Qed.

Lemma mem_inv_lease cap records order seen leases id s l :
  mem_inv cap records order seen leases -> records !! id = Some s ->
  is_terminal (os_state s) = false -> lease_for s l ->
  mem_inv cap records order seen (<[id := l]> leases).
Proof.
  intros [Hwf Hv Hnd Ho Hf Hfw Hs Hl] Hk Ht Hls. split; try done.
  intros k x [[<- <-]|[_ Hx]]%lookup_insert_Some; [by exists s|by apply Hl].
Qed.

(** ** Eviction *)

(** Dropping the oldest terminal record. *)
Lemma mem_inv_evict cap records order seen leases id s :
  mem_inv cap records (id :: order) seen leases ->
  records !! id = Some s ->
  mem_inv cap (delete id records) order seen (delete id leases).
Proof.
  intros [Hwf Hv Hnd Ho Hf Hfw Hs Hl] Hk. apply NoDup_cons in Hnd as [Hni Hnd].
  split.
  - intros k x [_ Hx]%lookup_delete_Some. by apply Hwf.
  - intros k x [_ Hx]%lookup_delete_Some. by eapply Hv.
  - done.
  - intros k. unfold terminal_at. split.
    + intros Hin. assert (k <> id) by (intros ->; done).
      rewrite lookup_delete_ne by done. apply Ho. by right.
    + intros (x & [Hne Hx]%lookup_delete_Some & Ht).
      assert (Hin : k ∈ id :: order) by (apply Ho; by exists x).
      by apply elem_of_cons in Hin as [->|?].
  - rewrite map_size_delete_Some by eauto. lia.
  - done.
  - intros k [x [_ Hx]%lookup_delete_Some]. apply Hs. eauto.
  - intros k x [Hne Hx]%lookup_delete_Some. destruct (Hl k x Hx) as (y & Hy & ? & ?).
    exists y. by rewrite lookup_delete_ne.
Qed.

(** What eviction does to the memory: it keeps the invariant and every record
    that is not terminal, invents nothing, and makes room for one record when
    the registry has room or a terminal to drop. *)
Lemma evict_loop_ok cap order records seen leases order' records' leases' :
  mem_inv cap records order seen leases ->
  evict_loop cap order records leases = (order', records', leases') ->
  mem_inv cap records' order' seen leases' /\
  records' ⊆ records /\
  (forall id s, records !! id = Some s -> is_terminal (os_state s) = false ->
     records' !! id = Some s) /\
  (size records < cap \/ order <> [] -> size records' < cap).
Proof.
  revert records leases. induction order as [|id order IH]; intros records leases Hinv; cbn [evict_loop];
    (destruct (Nat.ltb_spec (size records) cap) as [Hlt|Hge];
     [intros [= <- <- <-]; refine (conj Hinv (conj _ (conj _ _))); done|]).
  - intros ?; simplify_eq. refine (conj Hinv (conj _ (conj _ _))); [done..|].
    intros [?|?]; [lia|done].
  - destruct (proj1 (mi_order _ _ _ _ _ Hinv id)) as (s & Hs & Ht); [by left|].
    rewrite Hs, Ht. intros He.
    pose proof (mi_fits _ _ _ _ _ Hinv) as Hfits.
    destruct (IH _ _ (mem_inv_evict _ _ _ _ _ _ _ Hinv Hs) He) as (Hinv' & Hsub & Hkeep & Hroom).
    refine (conj Hinv' (conj _ (conj _ _))).
    + etrans; [exact Hsub|apply delete_subseteq].
    + intros k x Hk Hx. apply Hkeep; [|done]. rewrite lookup_delete_ne; [done|].
      intros <-. congruence.
    + intros _. apply Hroom. left. rewrite map_size_delete_Some by eauto.
      assert (size records <> 0) by (apply map_size_non_empty_iff; intros ->; done). lia.
Qed.

Section registry_facts.
Context {J : Type} `{OL : OperationJournalLaws J}.

Definition registry_mem_inv (r : Registry J) : Prop :=
  mem_inv (rg_capacity r) (rg_records r) (rg_terminal_order r) (rg_seen r) (rg_leases r).

Lemma evict_ok r :
  registry_mem_inv r ->
  let r' := evict_terminal_until_fit r in
  registry_mem_inv r' /\
  rg_records r' ⊆ rg_records r /\
  (forall id s, rg_records r !! id = Some s -> is_terminal (os_state s) = false ->
     rg_records r' !! id = Some s) /\
  (has_capacity_or_evictable_terminal r = true -> size (rg_records r') < rg_capacity r) /\
  rg_seen r' = rg_seen r /\ rg_journal r' = rg_journal r /\
  rg_capacity r' = rg_capacity r /\ rg_recovery_required r' = rg_recovery_required r.
Proof.
  intros Hinv. cbn zeta. unfold evict_terminal_until_fit.
  destruct (evict_loop _ _ _ _) as [[order records] leases] eqn:E.
  destruct (evict_loop_ok _ _ _ _ _ _ _ _ Hinv E) as (Hinv' & Hsub & Hkeep & Hroom).
  refine (conj Hinv' (conj Hsub (conj Hkeep (conj _ _)))); [|done].
  unfold has_capacity_or_evictable_terminal. intros Hh. apply Hroom.
  apply orb_true_iff in Hh as [Hlt%Nat.ltb_lt|Hex]; [by left|right].
  apply existsb_exists in Hex as (id & Hid & _). intros Hnil. by rewrite Hnil in Hid.
Qed.

(** ** The journal coupling *)

(** The journal promises every snapshot of [m], and every operation it knows
    is in the filter. *)
Definition coupled (oj : option J) (m : gmap N OperationSnapshot) (seen : SeenOperationFilter) :
    Prop :=
  forall j, oj = Some j ->
    journal_inv j /\ m ⊆ tr_ops (journal_truth j) /\
    forall id, is_Some (tr_ops (journal_truth j) !! id) -> may_contain seen id = true.

Definition reg_inv (r : Registry J) : Prop :=
  registry_mem_inv r /\ coupled (rg_journal r) (rg_records r) (rg_seen r).

(** The outcomes of one write-through. *)
Lemma append_transition_cases t (r : Registry J) res r1 :
  append_transition t r = (res, r1) ->
  match res with
  | Ok _ =>
      rg_capacity r1 = rg_capacity r /\ rg_records r1 = rg_records r /\
      rg_terminal_order r1 = rg_terminal_order r /\ rg_seen r1 = rg_seen r /\
      rg_leases r1 = rg_leases r /\ rg_recovery_required r1 = rg_recovery_required r /\
      ((rg_journal r = None /\ rg_journal r1 = None) \/
       exists j j' rc, rg_journal r = Some j /\ append_and_sync t j = (Ok rc, j') /\
         rg_journal r1 = Some j')
  | Err e =>
      exists j j' m, rg_journal r = Some j /\ e = RecoveryRequired m /\
        (exists e0, append_and_sync t j = (Err e0, j')) /\
        r1 = set_recovery_required (set_journal r j') m
  end.
Proof.
  unfold append_transition. destruct (rg_journal r) as [j|] eqn:Ej.
  - destruct (append_and_sync t j) as [[rc|e0] j'] eqn:Ea; intros [= <- <-]; cbn.
    + refine (conj eq_refl (conj eq_refl (conj eq_refl (conj eq_refl (conj eq_refl (conj eq_refl _)))))).
      right. eauto 10.
    + eexists j, j', _. eauto.
  - intros [= <- <-]. rewrite Ej. eauto 10.
Qed.


Lemma reg_inv_fields r r1 :
  reg_inv r -> rg_capacity r1 = rg_capacity r -> rg_records r1 = rg_records r ->
  rg_terminal_order r1 = rg_terminal_order r -> rg_seen r1 = rg_seen r ->
  rg_leases r1 = rg_leases r ->
  coupled (rg_journal r1) (rg_records r) (rg_seen r) -> reg_inv r1.
Proof.
  intros [Hm _] Hc Hr Ho Hs Hl Hj. unfold reg_inv, registry_mem_inv.
  by rewrite Hc, Hr, Ho, Hs, Hl.
Qed.

(** A refused write-through keeps the invariant (and fences the registry). *)
Lemma append_refused t r e r1 :
  reg_inv r -> append_transition t r = (Err e, r1) ->
  reg_inv r1 /\ rg_recovery_required r1 <> None /\ rg_seen r1 = rg_seen r /\
  rg_records r1 = rg_records r.
Proof.
  intros Hinv Ha. apply append_transition_cases in Ha as (j & j' & m & Hj & -> & (e0 & Ha) & ->).
  split; [|done]. apply (reg_inv_fields r); try done. cbn.
  intros jx [= <-]. destruct Hinv as [_ Hc]. destruct (Hc j Hj) as (Hi & Hsub & Hseen).
  destruct (append_err _ _ _ _ Hi Ha) as [Hi' Ht]. by rewrite Ht.
Qed.

(** An acknowledged snapshot is promised by the journal, so any memory that
    shows at most it and the old records stays coupled. *)
Lemma append_snapshot_acked s r u r1 records' seen' :
  reg_inv r -> append_snapshot s r = (Ok u, r1) ->
  records' ⊆ <[os_id s := s]> (rg_records r) ->
  (forall id, may_contain (rg_seen r) id = true -> may_contain seen' id = true) ->
  may_contain seen' (os_id s) = true ->
  coupled (rg_journal r1) records' seen'.
Proof.
  intros [_ Hc] Ha Hsub Hmono Hseen.
  apply append_transition_cases in Ha as (_ & _ & _ & _ & _ & _ & [[_ ->]|(j & j' & rc & Hj & Ha & ->)]);
    [done|]. intros jx [= <-].
  destruct (Hc j Hj) as (Hi & Hsub0 & Hseen0).
  destruct (append_ok _ _ _ _ Hi Ha) as (Hi' & _ & _ & Ht & _).
  rewrite Ht. cbn. refine (conj Hi' (conj _ _)).
  - etrans; [exact Hsub|]. by apply insert_mono.
  - intros id Hid%lookup_insert_is_Some'. destruct Hid as [<-|Hid]; [exact Hseen|]. by apply Hmono, Hseen0.
Qed.

Lemma append_epoch_acked from to r u r1 :
  reg_inv r -> append_transition (EpochAdvanced from to) r = (Ok u, r1) -> reg_inv r1.
Proof.
  intros Hinv Ha. pose proof Hinv as [_ Hc].
  apply append_transition_cases in Ha as (H1 & H2 & H3 & H4 & H5 & _ & Hj).
  apply (reg_inv_fields r); try done. destruct Hj as [[_ ->]|(j & j' & rc & Hj & Ha & ->)]; [done|].
  intros jx [= <-]. destruct (Hc j Hj) as (Hi & Hsub0 & Hseen0).
  destruct (append_ok _ _ _ _ Hi Ha) as (Hi' & _ & _ & Ht & _). by rewrite Ht.
Qed.

(** ** Operations that move one record *)

Lemma ensure_healthy_cases (r : Registry J) :
  (exists e, rg_recovery_required r = Some e /\ ensure_healthy r = (Err (RecoveryRequired e), r)) \/
  (rg_recovery_required r = None /\ ensure_healthy r = (Ok tt, r)).
Proof. unfold ensure_healthy. destruct (rg_recovery_required r); eauto. Qed.

(** Install a moved, non-terminal record after its write-through. *)
Lemma install_moved_inv s p r r1 u :
  reg_inv r -> rg_records r !! os_id s = Some p -> is_terminal (os_state p) = false ->
  os_identity s = os_identity p -> is_terminal (os_state s) = false ->
  snapshot_validate s = Ok tt -> append_snapshot s r = (Ok u, r1) ->
  reg_inv (install s r1).
Proof.
  intros Hinv Hp Hpt Hid Hst Hv Ha. pose proof Hinv as [Hm _].
  pose proof (append_transition_cases _ _ _ _ Ha) as (H1 & H2 & H3 & H4 & H5 & _).
  split.
  - unfold registry_mem_inv. cbn. rewrite H1, H2, H3, H4, H5. by eapply mem_inv_move.
  - cbn. rewrite H2, H4. eapply append_snapshot_acked; try done.
    apply (mi_seen _ _ _ _ _ Hm). eauto.
Qed.

(** Install a terminal over a live record after its write-through. *)
Lemma install_terminal_inv s p r r1 u :
  reg_inv r -> rg_records r !! os_id s = Some p -> is_terminal (os_state p) = false ->
  is_terminal (os_state s) = true -> snapshot_validate s = Ok tt ->
  append_snapshot s r = (Ok u, r1) -> reg_inv (install_terminal s r1).
Proof.
  intros Hinv Hp Hpt Hst Hv Ha. pose proof Hinv as [Hm _].
  pose proof (append_transition_cases _ _ _ _ Ha) as (H1 & H2 & H3 & H4 & H5 & _).
  split.
  - unfold registry_mem_inv. cbn. rewrite H1, H2, H3, H4, H5. by eapply mem_inv_settle.
  - cbn. rewrite H2, H4. eapply append_snapshot_acked; try done.
    apply (mi_seen _ _ _ _ _ Hm). eauto.
Qed.

(** Admit a new record, live or cancelled, after its write-through. *)
Definition enroll (s : OperationSnapshot) (r : Registry J) : Registry J :=
  (if is_terminal (os_state s) then install_terminal s else install s)
    (mark_seen (os_id s) (evict_terminal_until_fit r)).

Lemma evict_after_append s r r1 u :
  registry_mem_inv r -> append_snapshot s r = (Ok u, r1) ->
  registry_mem_inv r1 /\ rg_records r1 = rg_records r /\ rg_seen r1 = rg_seen r /\
  has_capacity_or_evictable_terminal r1 = has_capacity_or_evictable_terminal r /\
  rg_recovery_required r1 = rg_recovery_required r.
Proof.
  intros Hm Ha. pose proof (append_transition_cases _ _ _ _ Ha) as (H1 & H2 & H3 & H4 & H5 & H6 & _).
  unfold registry_mem_inv, has_capacity_or_evictable_terminal. by rewrite H1, H2, H3, H4, H5.
Qed.

Lemma admit_inv s r r1 u :
  reg_inv r -> rg_records r !! os_id s = None ->
  has_capacity_or_evictable_terminal r = true -> snapshot_validate s = Ok tt ->
  append_snapshot s r = (Ok u, r1) -> reg_inv (enroll s r1).
Proof.
  intros Hinv Hnone Hroom Hv Ha. pose proof Hinv as [Hm _].
  destruct (evict_after_append _ _ _ _ Hm Ha) as (Hm1 & Hr1 & Hs1 & Hc1 & _).
  destruct (evict_ok r1 Hm1) as (Hm2 & Hsub & _ & Hlt & Hs2 & Hj2 & _).
  rewrite Hc1 in Hlt. specialize (Hlt Hroom).
  assert (Hnone2 : rg_records (evict_terminal_until_fit r1) !! os_id s = None).
  { rewrite Hr1 in Hsub. by eapply lookup_weaken_None. }
  destruct (evict_ok r1 Hm1) as (_ & _ & _ & _ & _ & _ & Hcap & _).
  assert (Hcoupled : coupled (rg_journal r1)
    (<[os_id s := s]> (rg_records (evict_terminal_until_fit r1)))
    (seen_insert (rg_seen (evict_terminal_until_fit r1)) (os_id s))).
  { rewrite Hs2, Hs1. eapply append_snapshot_acked; [done|done| | |].
    - rewrite <- Hr1. by apply insert_mono.
    - intros id. apply seen_insert_mono.
    - apply seen_insert_contains. }
  rewrite <- Hcap in Hlt.
  pose proof (mem_inv_new _ _ _ _ _ s Hm2 Hnone2 Hlt Hv) as Hnew.
  assert (Hl : rg_leases (evict_terminal_until_fit r1) !! os_id s = None).
  { destruct (rg_leases _ !! os_id s) as [l|] eqn:El; [|done].
    destruct (mi_lease _ _ _ _ _ Hm2 _ _ El) as (x & Hx & _). congruence. }
  unfold enroll. destruct (is_terminal _); (split; [|cbn; by rewrite Hj2]);
    unfold registry_mem_inv; cbn; [|exact Hnew]. by rewrite delete_id.
Qed.

(** Cancel a live record: the eviction before it leaves it alone. *)
Lemma install_cancelled_inv s p r r1 u :
  reg_inv r -> rg_records r !! os_id s = Some p -> is_terminal (os_state p) = false ->
  is_terminal (os_state s) = true -> snapshot_validate s = Ok tt ->
  append_snapshot s r = (Ok u, r1) -> reg_inv (install_cancelled s r1).
Proof.
  intros Hinv Hp Hpt Hst Hv Ha. pose proof Hinv as [Hm _].
  destruct (evict_after_append _ _ _ _ Hm Ha) as (Hm1 & Hr1 & Hs1 & Hc1 & _).
  destruct (evict_ok r1 Hm1) as (Hm2 & Hsub & Hkeep & _ & Hs2 & Hj2 & Hcap & _).
  rewrite Hr1 in Hkeep. specialize (Hkeep _ _ Hp Hpt).
  split.
  - unfold registry_mem_inv, install_cancelled. cbn.
    eapply mem_inv_settle; [apply mem_inv_seen; exact Hm2|exact Hkeep|done..].
  - unfold install_cancelled. cbn. rewrite Hj2, Hs2, Hs1.
    eapply append_snapshot_acked; [done|done| | |].
    + rewrite <- Hr1. by apply insert_mono.
    + intros id. apply seen_insert_mono.
    + apply seen_insert_contains.
Qed.

End registry_facts.
