(* ===== verification/RegistrySteps.v ===== *)
(** Every operation of the registry as a step: what it reports, that it keeps
    the registry's invariant, and how it moves the durable truth. *)

From S2P Require Import Prelude Text Digest Operation Journal Intent Registry RegistryFacts.

(** ** Validity of the snapshots Core builds *)

Lemma effect_not_nil s e :
  snapshot_validate s = Ok tt -> effect_of (os_state s) = Some e -> is_nil e = false.
Proof.
  unfold snapshot_validate, rbind. destruct (identity_validate _); [|done].
  destruct (os_state s) as [|[]| | |[] t]; cbn; intros Hv Heq; simplify_eq; by destruct (is_nil e).
Qed.

(** A terminal over a valid record: it keeps the record's effect or has none. *)
Lemma terminal_snapshot_valid p e t :
  snapshot_validate p = Ok tt -> e = effect_of (os_state p) \/ e = None ->
  terminal_validate t = Ok tt ->
  snapshot_validate {| os_identity := os_identity p; os_state := Terminal e t |} = Ok tt.
Proof.
  intros Hp He Ht. pose proof (snapshot_validate_identity _ Hp) as Hi.
  unfold snapshot_validate, rbind. cbn [os_identity os_state]. rewrite Hi.
  destruct e as [e|]; cbn; [|done].
  destruct He as [He|]; [|done]. by rewrite (effect_not_nil p e).
Qed.

(** The terminal derived from a receipt always passes validation. *)
Lemma receipt_terminal_validates rc : terminal_validate (receipt_terminal rc) = Ok tt.
Proof.
  pose proof max_diagnostic_ge. pose proof max_evidence_ge.
  destruct rc as [e|d ev|e]; cbn [receipt_terminal terminal_validate].
  - by apply bounded_text_validates.
  - assert (Hd : durability_validate (txt "operation durability error")
      match d with Durable => Durable | DurabilityFailed error =>
        DurabilityFailed (bounded_text error MAX_OPERATION_DIAGNOSTIC_BYTES) end = Ok tt)
      by (destruct d; cbn -[bounded_text]; [done|by apply bounded_text_validates]).
    rewrite Hd. cbn [rbind]. destruct ev; cbn -[bounded_text]; [by apply bounded_text_validates|done].
  - by apply bounded_text_validates.
Qed.

Section steps.
Context {J : Type} `{OL : OperationJournalLaws J}.

(** ** How a step may move the registry *)

Definition journal_le (oj oj' : option J) : Prop :=
  match oj, oj' with
  | None, None => True
  | Some j, Some j' => truth_le (journal_truth j) (journal_truth j')
  | _, _ => False
  end.

#[export] Instance journal_le_preorder : PreOrder journal_le.
Proof.
  split.
  - intros [j|]; cbn; [reflexivity|done].
  - intros [j1|] [j2|] [j3|]; cbn; try done. intros. by etrans.
Qed.

Record evolves (r r' : Registry J) : Prop := {
  ev_capacity : rg_capacity r' = rg_capacity r;
  ev_seen : forall id, may_contain (rg_seen r) id = true -> may_contain (rg_seen r') id = true;
  ev_journal : journal_le (rg_journal r) (rg_journal r');
  ev_fence : rg_recovery_required r <> None -> rg_recovery_required r' <> None;
}.

#[export] Instance evolves_preorder : PreOrder evolves.
Proof.
  split.
  - intros r. by split.
  - intros r1 r2 r3 [C1 S1 J1 F1] [C2 S2 J2 F2]. split; [congruence|auto|by etrans|auto].
Qed.

Definition keeps {A} (m : M (Registry J) AgentError A) : Prop :=
  forall r res r', reg_inv r -> m r = (res, r') -> reg_inv r' /\ evolves r r'.

Lemma append_evolves t r res r1 :
  reg_inv r -> append_transition t r = (res, r1) -> evolves r r1.
Proof.
  intros [_ Hc] Ha. apply append_transition_cases in Ha. destruct res as [u|e].
  - destruct Ha as (H1 & H2 & H3 & H4 & H5 & H6 & Hj). split; [done|by rewrite H4| |by rewrite H6].
    destruct Hj as [[-> ->]|(j & j' & rc & Hj & Ha & Hj')]; [done|]. rewrite Hj, Hj'. cbn.
    destruct (Hc j Hj) as (Hi & _). destruct (append_ok _ _ _ _ Hi Ha) as (_ & Hv & Hadm & -> & _).
    by apply admissible_truth_le.
  - destruct Ha as (j & j' & m & Hj & -> & (e0 & Ha) & ->). split; [done..| |done].
    cbn [rg_journal set_recovery_required set_journal]. rewrite Hj. cbn [journal_le].
    destruct (Hc j Hj) as (Hi & _). destruct (append_err _ _ _ _ Hi Ha) as [_ ->]. reflexivity.
Qed.

(** A memory update leaves the durable truth alone. *)
Lemma evolves_memory (r r' : Registry J) :
  rg_capacity r' = rg_capacity r -> rg_journal r' = rg_journal r ->
  rg_recovery_required r' = rg_recovery_required r ->
  (forall id, may_contain (rg_seen r) id = true -> may_contain (rg_seen r') id = true) ->
  evolves r r'.
Proof. intros Hc Hj Hf Hs. split; [done|done|by rewrite Hj|by rewrite Hf]. Qed.

Lemma evolves_install s r : evolves r (install s r).
Proof. by apply evolves_memory. Qed.

Lemma evolves_install_terminal s r : evolves r (install_terminal s r).
Proof. by apply evolves_memory. Qed.

Lemma evolves_mark_seen id r : evolves r (mark_seen id r).
Proof. apply evolves_memory; [done..|]. intros k. apply seen_insert_mono. Qed.

Lemma evolves_evict r : evolves r (evict_terminal_until_fit r).
Proof.
  unfold evict_terminal_until_fit. destruct (evict_loop _ _ _ _) as [[o rs] ls].
  by apply evolves_memory.
Qed.

Lemma evolves_admit s r : evolves r (enroll s r).
Proof.
  unfold enroll. etrans; [apply evolves_evict|]. etrans; [apply evolves_mark_seen|].
  destruct (is_terminal _); [apply evolves_install_terminal|apply evolves_install].
Qed.

Lemma evolves_install_cancelled s r : evolves r (install_cancelled s r).
Proof.
  unfold install_cancelled. etrans; [apply evolves_evict|]. etrans; [apply evolves_mark_seen|].
  apply evolves_install_terminal.
Qed.

(** A write-through followed by the installation [f] of the snapshot. *)
Lemma write_through_keeps s f r res r' :
  reg_inv r ->
  (forall u r1, append_snapshot s r = (Ok u, r1) -> reg_inv (f r1)) ->
  (forall r1, evolves r1 (f r1)) ->
  (match append_snapshot s r with
   | (Err e, r1) => (Err e, r1)
   | (Ok _, r1) => (Ok tt, f r1)
   end) = (res, r') ->
  reg_inv r' /\ evolves r r'.
Proof.
  intros Hinv Hf He. destruct (append_snapshot s r) as [[u|e] r1] eqn:Ea; intros [= <- <-].
  - split; [by eapply Hf|]. etrans; [by eapply append_evolves|apply He].
  - split; [by eapply append_refused in Ea as [? _]|by eapply append_evolves].
Qed.

Lemma keeps_here {A} (r : Registry J) (x y : result A AgentError) r' :
  reg_inv r -> (x, r) = (y, r') -> reg_inv r' /\ evolves r r'.
Proof. intros Hinv [= _ <-]. split; [done|reflexivity]. Qed.

Lemma records_id r id p : reg_inv r -> rg_records r !! id = Some p -> os_id p = id.
Proof. intros [Hm _]. apply (mi_wf _ _ _ _ _ Hm). Qed.

Lemma records_valid r id p :
  reg_inv r -> rg_records r !! id = Some p -> snapshot_validate p = Ok tt.
Proof. intros [Hm _]. apply (mi_valid _ _ _ _ _ Hm). Qed.

(** ** Each operation *)

Lemma transition_keeps id move :
  (forall p s, snapshot_validate p = Ok tt -> move (os_state p) = Ok s ->
     is_terminal (os_state p) = false /\ is_terminal s = false /\
     snapshot_validate {| os_identity := os_identity p; os_state := s |} = Ok tt) ->
  keeps (transition id move).
Proof.
  intros Hmove r res r' Hinv. unfold transition.
  destruct (ensure_healthy_cases r) as [(e & _ & ->)|[_ ->]]; [by apply keeps_here|].
  destruct (rg_records r !! id) as [p|] eqn:Ep; [|by apply keeps_here].
  destruct (move (os_state p)) as [s|m] eqn:Em; [|by apply keeps_here].
  destruct (Hmove p s (records_valid _ _ _ Hinv Ep) Em) as (Hpt & Hst & Hv).
  set (next := {| os_identity := os_identity p; os_state := s |}).
  assert (Hid : os_id next = id) by apply (records_id _ _ _ Hinv Ep).
  assert (Hp : rg_records r !! os_id next = Some p) by (by rewrite Hid).
  intros Heq. apply (write_through_keeps next (install next) r res r'); [done| |apply evolves_install|].
  - intros u r1 Ha. by eapply install_moved_inv.
  - unfold install. rewrite Hid. exact Heq.
Qed.

Lemma mark_executing_keeps id e : keeps (mark_executing id e).
Proof.
  unfold mark_executing. destruct (from_option is_nil false e) eqn:En.
  - intros r res r' Hinv. by apply keeps_here.
  - apply transition_keeps. intros p s Hv Hm.
    pose proof (snapshot_validate_identity _ Hv) as Hi.
    destruct (os_state p); simplify_eq. cbn. refine (conj eq_refl (conj eq_refl _)).
    unfold snapshot_validate. cbn. rewrite Hi. cbn. destruct e; cbn in *; by rewrite ?En.
Qed.

Lemma mark_prepared_keeps id e : keeps (mark_prepared id e).
Proof.
  apply transition_keeps. intros p s Hv Hm.
  pose proof (snapshot_validate_identity _ Hv) as Hi.
  destruct (os_state p) as [|[x|]| | |] eqn:Ep; simplify_eq.
  destruct (N.eqb_spec x e) as [->|]; simplify_eq. cbn. refine (conj eq_refl (conj eq_refl _)).
  unfold snapshot_validate. cbn. rewrite Hi. cbn.
  by rewrite (effect_not_nil p e) by (done || by rewrite Ep).
Qed.

Lemma begin_commit_keeps id e : keeps (begin_commit id e).
Proof.
  apply transition_keeps. intros p s Hv Hm.
  pose proof (snapshot_validate_identity _ Hv) as Hi.
  destruct (os_state p) as [|x|x| |] eqn:Ep; simplify_eq.
  destruct (N.eqb_spec x e) as [->|]; simplify_eq. cbn. refine (conj eq_refl (conj eq_refl _)).
  unfold snapshot_validate. cbn. rewrite Hi. cbn.
  by rewrite (effect_not_nil p e) by (done || by rewrite Ep).
Qed.

Lemma finish_terminal_keeps id e t allowed :
  (forall r p, reg_inv r -> rg_records r !! id = Some p -> allowed (os_state p) = true ->
     is_terminal (os_state p) = false) ->
  terminal_validate t = Ok tt ->
  forall r res r', reg_inv r ->
  (forall p, rg_records r !! id = Some p -> allowed (os_state p) = true ->
     e = effect_of (os_state p) \/ e = None) ->
  finish_terminal id e t allowed r = (res, r') -> reg_inv r' /\ evolves r r'.
Proof.
  intros Hal Ht r res r' Hinv He. unfold finish_terminal.
  destruct (ensure_healthy_cases r) as [(x & _ & ->)|[_ ->]]; [by apply keeps_here|].
  destruct (rg_records r !! id) as [p|] eqn:Ep; [|by apply keeps_here].
  destruct (allowed (os_state p)) eqn:Ea; cbn [negb]; [|by apply keeps_here].
  set (next := {| os_identity := os_identity p; os_state := Terminal e t |}).
  assert (Hid : os_id next = id) by apply (records_id _ _ _ Hinv Ep).
  intros Heq. apply (write_through_keeps next (install_terminal next) r res r');
    [done| |apply evolves_install_terminal|exact Heq].
  intros u r1 Hap. eapply install_terminal_inv; [done|by rewrite Hid| |done| |exact Hap].
  - by eapply Hal.
  - apply terminal_snapshot_valid; [by eapply records_valid|by apply He|done].
Qed.

Lemma finish_value_keeps id d g : keeps (finish_value id d g).
Proof.
  intros r res r' Hinv. unfold finish_value, bind, get, lift.
  destruct (require_identity _ _ _ r); [|by apply keeps_here].
  apply finish_terminal_keeps; [|done|done|by right].
  intros r0 p _ _. by destruct (os_state p).
Qed.

Lemma finish_refused_keeps id m : keeps (finish_refused id m).
Proof.
  intros r res r' Hinv. unfold finish_refused.
  apply finish_terminal_keeps; [| |done|by right].
  - intros r0 p _ _. by destruct (os_state p).
  - apply bounded_text_validates, max_diagnostic_ge.
Qed.

Lemma finish_effect_keeps id rc : keeps (finish_effect id rc).
Proof.
  intros r res r' Hinv. unfold finish_effect, bind, get, lift.
  rewrite receipt_terminal_validates. cbn [map_err].
  apply finish_terminal_keeps; [|apply receipt_terminal_validates|done|].
  - intros r0 p _ _. by destruct (os_state p).
  - intros p Hp. unfold query. rewrite Hp. destruct p as [i []]; try done. intros _. by left.
Qed.

Lemma record_lease_keeps id l : keeps (record_lease id l).
Proof.
  intros r res r' Hinv. unfold record_lease.
  destruct (ensure_healthy_cases r) as [(x & _ & ->)|[_ ->]]; [by apply keeps_here|].
  destruct (rg_records r !! id) as [p|] eqn:Ep; [|by apply keeps_here].
  destruct (_ || _ || _ || _) eqn:Eg; [by apply keeps_here|]. intros [= _ <-].
  apply orb_false_iff in Eg as [Eg Eg4]. apply orb_false_iff in Eg as [Eg Eg3].
  apply orb_false_iff in Eg as [Eg1 Eg2].
  apply negb_false_iff in Eg1, Eg2, Eg3, Eg4.
  apply bool_decide_eq_true in Eg1, Eg3. apply N.eqb_eq in Eg2, Eg4.
  destruct Hinv as [Hm Hc]. split; [split; [|done]|by apply evolves_memory].
  unfold registry_mem_inv. cbn. eapply mem_inv_lease; [done|done|by rewrite Eg1|].
  unfold lease_for. rewrite (mi_wf _ _ _ _ _ Hm _ _ Ep). done.
Qed.

Lemma accept_keeps i : keeps (accept i).
Proof.
  intros r res r' Hinv. unfold accept.
  destruct (identity_validate i) as [[]|] eqn:Ei; cbn [map_err]; [|by apply keeps_here].
  destruct (ensure_healthy_cases r) as [(x & _ & ->)|[_ ->]]; [by apply keeps_here|].
  destruct (rg_records r !! ti_operation_id i) as [p|] eqn:Ep.
  { destruct (bool_decide _); by apply keeps_here. }
  destruct (may_contain _ _) eqn:Es; [by apply keeps_here|].
  destruct (has_capacity_or_evictable_terminal r) eqn:Er; cbn [negb]; [|by apply keeps_here].
  set (s := {| os_identity := i; os_state := Accepted |}).
  destruct (append_snapshot s r) as [[u|e] r1] eqn:Ea; intros [= _ <-].
  - change (reg_inv (enroll s r1) /\ evolves r (enroll s r1)). split.
    + eapply admit_inv; [done|done|done| |exact Ea]. unfold snapshot_validate. cbn. by rewrite Ei.
    + etrans; [by eapply append_evolves|apply evolves_admit].
  - split; [by eapply append_refused in Ea as [? _]|by eapply append_evolves].
Qed.

(** The snapshot a cancellation writes over a live record, or as a first record. *)
Lemma cancelled_live_valid p e :
  snapshot_validate p = Ok tt -> e = effect_of (os_state p) \/ e = None ->
  snapshot_validate (cancelled_snapshot (os_identity p) e) = Ok tt.
Proof. intros Hv He. by apply terminal_snapshot_valid. Qed.

Lemma cancelled_new_valid i :
  identity_validate i = Ok tt -> snapshot_validate (cancelled_snapshot i None) = Ok tt.
Proof. intros Hi. unfold snapshot_validate. cbn. by rewrite Hi. Qed.

(** Cancellation of the record at an id, or the reservation of a new id: both
    keep the invariant once the terminal is durable. *)
Lemma cancel_live_inv r p e u r1 :
  reg_inv r -> rg_records r !! ti_operation_id (os_identity p) = Some p ->
  is_terminal (os_state p) = false -> e = effect_of (os_state p) \/ e = None ->
  append_snapshot (cancelled_snapshot (os_identity p) e) r = (Ok u, r1) ->
  reg_inv (install_cancelled (cancelled_snapshot (os_identity p) e) r1).
Proof.
  intros Hinv Hp Hpt He Ha. eapply install_cancelled_inv; [done|exact Hp|done|done| |exact Ha].
  apply cancelled_live_valid; [|done]. by eapply records_valid.
Qed.

Lemma cancel_new_inv r i u r1 :
  reg_inv r -> identity_validate i = Ok tt -> rg_records r !! ti_operation_id i = None ->
  has_capacity_or_evictable_terminal r = true ->
  append_snapshot (cancelled_snapshot i None) r = (Ok u, r1) ->
  reg_inv (install_cancelled (cancelled_snapshot i None) r1).
Proof.
  intros Hinv Hi Hnone Hroom Ha.
  change (reg_inv (enroll (cancelled_snapshot i None) r1)).
  eapply admit_inv; [done|done|done|by apply cancelled_new_valid|exact Ha].
Qed.

Lemma cancel_keeps i : keeps (cancel i).
Proof.
  intros r res r' Hinv. unfold cancel.
  destruct (identity_validate i) as [[]|] eqn:Ei; cbn [map_err]; [|by apply keeps_here].
  destruct (ensure_healthy_cases r) as [(x & _ & ->)|[_ ->]]; [by apply keeps_here|].
  destruct (rg_records r !! ti_operation_id i) as [p|] eqn:Ep.
  - destruct (bool_decide_reflect (os_identity p = i)) as [<-|]; cbn [negb]; [|by apply keeps_here].
    destruct (os_state p) as [|e|e|e|e []] eqn:Es; try (by apply keeps_here);
      (intros Heq; eapply write_through_keeps; [done| |apply evolves_install_cancelled|exact Heq];
       intros u r1 Ha; eapply cancel_live_inv; [done|done|by rewrite Es| |exact Ha];
       rewrite Es; by left).
  - destruct (may_contain _ _) eqn:Es; [by apply keeps_here|].
    destruct (has_capacity_or_evictable_terminal r) eqn:Er; cbn [negb]; [|by apply keeps_here].
    intros Heq; eapply write_through_keeps; [done| |apply evolves_install_cancelled|exact Heq].
    intros u r1 Ha. by eapply cancel_new_inv.
Qed.

(** The two durable appends of [cancel_and_persist_epoch]. *)
Lemma epoch_then_snapshot_keeps s from to r (res : AgentResult OperationCancelTransition) r' :
  reg_inv r ->
  (forall r1 u r2, rg_records r1 = rg_records r ->
     has_capacity_or_evictable_terminal r1 = has_capacity_or_evictable_terminal r ->
     reg_inv r1 -> append_snapshot s r1 = (Ok u, r2) -> reg_inv (install_cancelled s r2)) ->
  (match append_transition (EpochAdvanced from to) r with
   | (Err e, r1) => (Err e, r1)
   | (Ok _, r1) =>
       match append_snapshot s r1 with
       | (Err e, r2) => (Err e, r2)
       | (Ok _, r2) => (Ok (Cancelled (Found s)), install_cancelled s r2)
       end
   end) = (res, r') ->
  reg_inv r' /\ evolves r r'.
Proof.
  intros Hinv Hf. destruct (append_transition _ r) as [[u|e] r1] eqn:Ee.
  - pose proof (append_evolves _ _ _ _ Hinv Ee) as He1.
    pose proof (append_epoch_acked _ _ _ _ _ Hinv Ee) as Hinv1.
    pose proof (append_transition_cases _ _ _ _ Ee) as (H1 & H2 & H3 & _).
    destruct (append_snapshot s r1) as [[u2|e] r2] eqn:Ea; intros [= _ <-].
    + split.
      * eapply Hf; [done| |done|exact Ea].
        unfold has_capacity_or_evictable_terminal. by rewrite H1, H2, H3.
      * etrans; [exact He1|]. etrans; [by eapply append_evolves|apply evolves_install_cancelled].
    + split; [by eapply append_refused in Ea as [? _]|].
      etrans; [exact He1|by eapply append_evolves].
  - intros [= _ <-]. split; [by eapply append_refused in Ee as [? _]|by eapply append_evolves].
Qed.

Lemma cancel_and_persist_epoch_keeps i from to : keeps (cancel_and_persist_epoch i from to).
Proof.
  intros r res r' Hinv. unfold cancel_and_persist_epoch.
  destruct (identity_validate i) as [[]|] eqn:Ei; cbn [map_err]; [|by apply keeps_here].
  destruct (_ || _); [by apply keeps_here|].
  destruct (ensure_healthy_cases r) as [(x & _ & ->)|[_ ->]]; [by apply keeps_here|].
  destruct (rg_records r !! ti_operation_id i) as [p|] eqn:Ep.
  - destruct (bool_decide_reflect (os_identity p = i)) as [<-|]; cbn [negb]; [|by apply keeps_here].
    destruct (os_state p) as [|e|e|e|e t] eqn:Es; try (by apply keeps_here);
      (intros Heq; eapply epoch_then_snapshot_keeps; [done| |exact Heq];
       intros r1 u r2 Hr _ Hinv1 Ha; eapply cancel_live_inv; [done|by rewrite Hr|by rewrite Es| |exact Ha];
       rewrite Es; by left).
  - destruct (may_contain _ _) eqn:Es; [by apply keeps_here|].
    destruct (has_capacity_or_evictable_terminal r) eqn:Er; cbn [negb]; [|by apply keeps_here].
    intros Heq; eapply epoch_then_snapshot_keeps; [done| |exact Heq].
    intros r1 u r2 Hr Hroom Hinv1 Ha. eapply cancel_new_inv; [done|done| |by rewrite Hroom|exact Ha].
    by rewrite Hr.
Qed.

Lemma abort_prepared_keeps id e d : keeps (abort_prepared id e d).
Proof.
  intros r res r' Hinv. unfold abort_prepared, bind, get, fail, ret.
  destruct (query id r) as [p| |]; try (by apply keeps_here).
  destruct (bool_decide _); cbn [negb]; [|by apply keeps_here].
  destruct (os_state p) as [|?|x|?|[x|] []]; try (by apply keeps_here);
    (destruct (x =? e)%N; [|by apply keeps_here]); [by apply cancel_keeps|by apply keeps_here].
Qed.

Lemma persist_epoch_advance_keeps from to : keeps (persist_epoch_advance from to).
Proof.
  intros r res r' Hinv. unfold persist_epoch_advance, bind.
  destruct (ensure_healthy_cases r) as [(x & _ & ->)|[_ ->]]; [by apply keeps_here|].
  intros Ha. split; [|by eapply append_evolves]. destruct res.
  - by eapply append_epoch_acked.
  - by eapply append_refused in Ha as [? _].
Qed.

Lemma recover_terminal_keeps id expected e t : keeps (recover_terminal id expected e t).
Proof.
  intros r res r' Hinv. unfold recover_terminal.
  destruct (terminal_validate t) as [[]|] eqn:Et; cbn [map_err]; [|by apply keeps_here].
  destruct (expected_effect_id expected) as [x|] eqn:Ex; [|by apply keeps_here].
  destruct (bool_decide_reflect (x = e)) as [->|]; cbn [negb]; [|by apply keeps_here].
  destruct (rg_records r !! id) as [p|] eqn:Ep; [|by apply keeps_here].
  destruct (bool_decide_reflect (os_state p = expected)) as [<-|]; cbn [negb]; [|by apply keeps_here].
  set (next := {| os_identity := os_identity p; os_state := Terminal e t |}).
  assert (Hid : os_id next = id) by apply (records_id _ _ _ Hinv Ep).
  assert (Hpt : is_terminal (os_state p) = false /\ (e = effect_of (os_state p) \/ e = None)).
  { destruct (os_state p) as [|[]| | |]; cbn in Ex; simplify_eq; cbn; auto. }
  intros Heq. apply (write_through_keeps next (install_terminal next) r res r');
    [done| |apply evolves_install_terminal|exact Heq].
  intros u r1 Hap. eapply install_terminal_inv; [done|by rewrite Hid|apply Hpt|done| |exact Hap].
  apply terminal_snapshot_valid; [by eapply records_valid|apply Hpt|done].
Qed.

Lemma compact_authority_journal_keeps : keeps compact_authority_journal.
Proof.
  intros r res r' Hinv. unfold compact_authority_journal, bind.
  destruct (ensure_healthy_cases r) as [(x & _ & ->)|[_ ->]]; [by apply keeps_here|].
  destruct (rg_journal r) as [j|] eqn:Ej; [|by apply keeps_here].
  pose proof Hinv as [Hm Hc]. destruct (Hc j Ej) as (Hi & Hsub & Hseen).
  destruct (journal_compact j) as [[m|e] j'] eqn:Ec; intros [= _ <-];
    destruct (compact_ok _ _ _ Hi Ec) as [Hi' Ht];
    (split; [apply (reg_inv_fields r); [done..|]; intros jx [= <-]; by rewrite Ht|]);
    (split; [done..| |done]; cbn [rg_journal set_journal]; rewrite Ej; cbn [journal_le];
     by rewrite Ht).
Qed.

Lemma require_recovery_keeps reason r :
  reg_inv r -> reg_inv (require_recovery reason r) /\ evolves r (require_recovery reason r).
Proof.
  intros Hinv. unfold require_recovery.
  destruct (rg_recovery_required r) eqn:Er; [split; [done|reflexivity]|].
  split; [exact Hinv|]. split; [done..|reflexivity|done].
Qed.

(** ** Steps *)

Inductive RegistryOp : Type :=
| OpAccept (identity : ToolOperationIdentity)
| OpMarkExecuting (operation_id : N) (effect_id : option N)
| OpRecordLease (operation_id : N) (lease : AuthorityLease)
| OpMarkPrepared (operation_id effect_id : N)
| OpBeginCommit (operation_id effect_id : N)
| OpFinishValue (operation_id : N) (argument_digest : Digest) (generation : N)
| OpFinishRefused (operation_id : N) (error : text)
| OpFinishEffect (operation_id : N) (receipt : EffectReceipt)
| OpCancel (identity : ToolOperationIdentity)
| OpCancelEpoch (identity : ToolOperationIdentity) (from_epoch to_epoch : N)
| OpAbortPrepared (operation_id effect_id : N) (argument_digest : Digest)
| OpPersistEpoch (from to : N)
| OpCompactAuthority
| OpRecoverTerminal (operation_id : N) (expected : OperationState) (effect_id : option N)
    (terminal : OperationTerminal)
| OpRequireRecovery (reason : text).

(** What a client may do exactly once per operation. *)
Inductive RegistryEvent : Type :=
| EvAccepted (operation_id : N)
| EvCommit (operation_id : N).

Definition registry_step (op : RegistryOp) (r : Registry J) : list RegistryEvent * Registry J :=
  match op with
  | OpAccept i =>
      let '(res, r') := accept i r in
      (match res with Ok AdmissionAccepted => [EvAccepted (ti_operation_id i)] | _ => [] end, r')
  | OpBeginCommit id e =>
      let '(res, r') := begin_commit id e r in
      (if is_Ok res then [EvCommit id] else [], r')
  | OpMarkExecuting id e => ([], (mark_executing id e r).2)
  | OpRecordLease id l => ([], (record_lease id l r).2)
  | OpMarkPrepared id e => ([], (mark_prepared id e r).2)
  | OpFinishValue id d g => ([], (finish_value id d g r).2)
  | OpFinishRefused id m => ([], (finish_refused id m r).2)
  | OpFinishEffect id rc => ([], (finish_effect id rc r).2)
  | OpCancel i => ([], (cancel i r).2)
  | OpCancelEpoch i from to => ([], (cancel_and_persist_epoch i from to r).2)
  | OpAbortPrepared id e d => ([], (abort_prepared id e d r).2)
  | OpPersistEpoch from to => ([], (persist_epoch_advance from to r).2)
  | OpCompactAuthority => ([], (compact_authority_journal r).2)
  | OpRecoverTerminal id s e t => ([], (recover_terminal id s e t r).2)
  | OpRequireRecovery reason => ([], require_recovery reason r)
  end.

Lemma keeps_snd {A} (m : M (Registry J) AgentError A) r :
  keeps m -> reg_inv r -> reg_inv (m r).2 /\ evolves r (m r).2.
Proof. intros Hk Hinv. destruct (m r) as [res r'] eqn:E. by apply (Hk r res). Qed.

Lemma registry_step_keeps op r evs r' :
  reg_inv r -> registry_step op r = (evs, r') -> reg_inv r' /\ evolves r r'.
Proof.
  intros Hinv. destruct op; cbn [registry_step];
    try (intros [= _ <-]; apply keeps_snd; [|done]).
  - destruct (accept identity r) as [res r1] eqn:E. intros [= _ <-]. by eapply accept_keeps.
  - apply mark_executing_keeps.
  - apply record_lease_keeps.
  - apply mark_prepared_keeps.
  - destruct (begin_commit operation_id effect_id r) as [res r1] eqn:E. intros [= _ <-].
    by eapply begin_commit_keeps.
  - apply finish_value_keeps.
  - apply finish_refused_keeps.
  - apply finish_effect_keeps.
  - apply cancel_keeps.
  - apply cancel_and_persist_epoch_keeps.
  - apply abort_prepared_keeps.
  - apply persist_epoch_advance_keeps.
  - apply compact_authority_journal_keeps.
  - apply recover_terminal_keeps.
  - intros [= _ <-]. by apply require_recovery_keeps.
Qed.

End steps.
