(* ===== verification/RegistryTheorems.v ===== *)
(** The registry's recovery, then its properties.

    Recovery of the registry from what a journal recovered: it re-establishes
    the registry's invariant within capacity, never drops an unresolved
    operation, and remembers every recovered id. *)

From S2P Require Import Prelude Text Digest Operation Journal Intent Registry RegistryFacts RegistrySteps Wal.
From S2P Require Import FileJournal FileJournalLaws.

Lemma mem_inv_cap cap cap' records order seen leases :
  mem_inv cap records order seen leases -> size records <= cap' ->
  mem_inv cap' records order seen leases.
Proof. intros [] Hle. by split. Qed.

Lemma filter_wf_empty : filter_wf ∅.
Proof. intros i w. by rewrite lookup_empty. Qed.

Lemma mem_inv_empty cap : mem_inv cap ∅ [] ∅ ∅.
Proof.
  split.
  - intros id s Hs. by rewrite lookup_empty in Hs.
  - intros id s Hs. by rewrite lookup_empty in Hs.
  - constructor.
  - intros id. split; [intros Hin; by apply not_elem_of_nil in Hin|]. intros (s & Hs & _).
    by rewrite lookup_empty in Hs.
  - rewrite map_size_empty. lia.
  - apply filter_wf_empty.
  - intros id [s Hs]. by rewrite lookup_empty in Hs.
  - intros id l Hl. by rewrite lookup_empty in Hl.
Qed.

(** Eviction from a registry that may be over capacity. *)
Lemma evict_loop_over cap k order records seen leases order' records' leases' :
  mem_inv k records order seen leases ->
  evict_loop cap order records leases = (order', records', leases') ->
  mem_inv k records' order' seen leases' /\ records' ⊆ records /\
  (forall id s, records !! id = Some s -> is_terminal (os_state s) = false ->
     records' !! id = Some s) /\
  (size records' < cap \/ order' = []).
Proof.
  revert records leases. induction order as [|id order IH]; intros records leases Hinv;
    cbn [evict_loop];
    (destruct (Nat.ltb_spec (size records) cap) as [Hlt|Hge];
     [intros [= <- <- <-]; refine (conj Hinv (conj _ (conj _ (or_introl Hlt)))); done|]).
  - intros [= <- <- <-]. by refine (conj Hinv (conj _ (conj _ (or_intror eq_refl)))).
  - destruct (proj1 (mi_order _ _ _ _ _ Hinv id)) as (s & Hs & Ht); [by left|].
    rewrite Hs, Ht. intros He.
    destruct (IH _ _ (mem_inv_evict _ _ _ _ _ _ _ Hinv Hs) He) as (Hinv' & Hsub & Hkeep & Hroom).
    refine (conj Hinv' (conj _ (conj _ Hroom))).
    + etrans; [exact Hsub|apply delete_subseteq].
    + intros x y Hx Hy. apply Hkeep; [|done]. rewrite lookup_delete_ne; [done|].
      intros <-. congruence.
Qed.

Section recovery.
Context {J : Type} `{OL : OperationJournalLaws J}.

Lemma recover_operations_ok k ops (r r' : Registry J) :
  mem_inv k (rg_records r) (rg_terminal_order r) (rg_seen r) (rg_leases r) ->
  size (rg_records r) + length ops <= k -> NoDup (os_id <$> ops) ->
  (forall s, s ∈ ops -> rg_records r !! os_id s = None) ->
  recover_operations ops r = Ok r' ->
  mem_inv k (rg_records r') (rg_terminal_order r') (rg_seen r') (rg_leases r') /\
  rg_records r' = ops_map ops ∪ rg_records r /\
  (forall s, s ∈ ops -> may_contain (rg_seen r') (os_id s) = true) /\
  (forall id, may_contain (rg_seen r) id = true -> may_contain (rg_seen r') id = true) /\
  rg_capacity r' = rg_capacity r /\ rg_journal r' = rg_journal r /\
  rg_recovery_required r' = rg_recovery_required r.
Proof.
  revert r. induction ops as [|s ops IH]; intros r Hm Hsz Hnd Hnew; cbn [recover_operations].
  - intros [= <-]. refine (conj Hm (conj _ (conj _ (conj _ _)))); [|set_solver|done|done].
    unfold ops_map. cbn. by rewrite (left_id_L ∅ (∪)).
  - destruct (snapshot_validate s) as [[]|] eqn:Hv; [|done]. cbn [map_err rbind length] in *.
    apply NoDup_cons in Hnd as [Hni Hnd].
    set (r1 := if is_terminal _ then _ else _).
    assert (Hr1 : rg_records r1 = <[os_id s := s]> (rg_records r) /\
      rg_seen r1 = seen_insert (rg_seen r) (os_id s) /\ rg_leases r1 = rg_leases r /\
      rg_terminal_order r1 = (if is_terminal (os_state s)
        then rg_terminal_order r ++ [os_id s] else rg_terminal_order r) /\
      rg_capacity r1 = rg_capacity r /\ rg_journal r1 = rg_journal r /\
      rg_recovery_required r1 = rg_recovery_required r)
      by (unfold r1; by destruct (is_terminal _)).
    destruct Hr1 as (Hrec & Hseen & Hl & Ho & Hc & Hj & Hq).
    assert (Hnone : rg_records r !! os_id s = None) by (apply Hnew; by left).
    intros Hrest. destruct (IH r1) as (Hm' & Hrec' & Hs' & Hmono & Hc' & Hj' & Hq'); try done.
    + rewrite Hrec, Hseen, Hl, Ho. apply mem_inv_new; [done|done|lia|done].
    + rewrite Hrec, map_size_insert_None by done. lia.
    + intros x Hx. rewrite Hrec, lookup_insert_ne; [apply Hnew; by right|].
      intros Heq. apply Hni. rewrite Heq. by apply list_elem_of_fmap_2.
    + refine (conj Hm' (conj _ (conj _ (conj _ (conj _ (conj _ _)))))); try congruence.
      * rewrite Hrec', Hrec. unfold ops_map at 2. cbn [fmap list_fmap list_to_map foldr fst snd uncurry].
        fold (ops_map ops). change (list_to_map _) with (ops_map ops).
        rewrite <- insert_union_l, <- insert_union_r; [done|]. by apply ops_map_lookup_None.
      * intros x [->|Hx]%elem_of_cons; [|by apply Hs'].
        apply Hmono. rewrite Hseen. apply seen_insert_contains.
      * intros id Hid. apply Hmono. rewrite Hseen. by apply seen_insert_mono.
Qed.

(** When no terminal record is left, the records are recovered unresolved ones. *)
Lemma live_records_bound ops (records : gmap N OperationSnapshot) :
  NoDup (os_id <$> ops) -> records ⊆ ops_map ops ->
  (forall id s, records !! id = Some s -> is_terminal (os_state s) = false) ->
  size records <= length (filter (fun s => is_terminal (os_state s) = false) ops).
Proof.
  intros Hnd Hsub Hlive.
  rewrite <- length_map_to_list, <- (length_fmap snd).
  apply submseteq_length, NoDup_submseteq.
  - apply (NoDup_fmap_1 os_id). rewrite map_to_list_snd_ids_of; [apply NoDup_fst_map_to_list|].
    intros id s Hs. eapply (ops_map_wf ops); [done|]. by eapply lookup_weaken.
  - intros s ([id x] & -> & Hx%elem_of_map_to_list)%list_elem_of_fmap. cbn.
    apply list_elem_of_filter. split; [by eapply Hlive|].
    eapply lookup_weaken in Hx; [|exact Hsub]. by apply ops_map_lookup in Hx as [Hx _].
Qed.

Lemma recover_ok_inv cap oj rv (r : Registry J) :
  0 < cap -> NoDup (os_id <$> rv_operations rv) -> recover cap oj rv = Ok r ->
  registry_mem_inv r /\ rg_capacity r = cap /\ rg_journal r = oj /\
  rg_recovery_required r = None /\
  rg_records r ⊆ ops_map (rv_operations rv) /\
  (forall id s, ops_map (rv_operations rv) !! id = Some s ->
     may_contain (rg_seen r) id = true /\
     (is_terminal (os_state s) = false -> rg_records r !! id = Some s)).
Proof.
  intros Hcap Hnd. unfold recover.
  destruct (Nat.ltb_spec cap (length (filter (fun s => is_terminal (os_state s) = false)
    (rv_operations rv)))) as [|Hle]; [done|].
  destruct (recover_operations _ _) as [r0|] eqn:E; [|done]. cbn [rbind]. intros [= <-].
  apply (recover_operations_ok (length (rv_operations rv))) in E
    as (Hm & Hrec & Hs & _ & Hc & Hj & Hq);
    [|apply mem_inv_empty|cbn; rewrite map_size_empty; lia|done|intros s _; apply lookup_empty].
  cbn [rg_records rg_journal rg_capacity rg_recovery_required] in *. rewrite (right_id_L ∅ (∪)) in Hrec.
  unfold evict_terminal_until_fit.
  destruct (evict_loop _ _ _ _) as [[order records] leases] eqn:Ee.
  destruct (evict_loop_over _ _ _ _ _ _ _ _ _ Hm Ee) as (Hm' & Hsub & Hkeep & Hfit).
  rewrite Hc in Hfit. rewrite Hrec in Hsub.
  refine (conj _ (conj Hc (conj Hj (conj Hq (conj Hsub _))))).
  - unfold registry_mem_inv. cbn. rewrite Hc. eapply mem_inv_cap; [exact Hm'|].
    destruct Hfit as [|Hnil]; [lia|]. etrans; [|exact Hle]. apply live_records_bound; [done|done|].
    intros id s Hid. destruct (is_terminal (os_state s)) eqn:Ht; [|done].
    assert (Hin : id ∈ order) by (apply (mi_order _ _ _ _ _ Hm'); by exists s).
    rewrite Hnil in Hin. by apply not_elem_of_nil in Hin.
  - intros id s Hid. split.
    + pose proof (proj1 (ops_map_lookup _ _ _ Hnd) Hid) as [Hin <-]. by apply Hs.
    + intros Ht. cbn. apply Hkeep; [by rewrite Hrec|done].
Qed.

End recovery.

(** What the operation registry promises its clients: acceptance and commit
    happen at most once per operation, also across crashes; lifecycles only
    move forward; a fenced registry is frozen; cancellation wins the race with
    a delayed accept; receipts are recorded exactly. *)

(** ** Restarts *)

(** A journal that a new process can open after the old one died. *)
Class JournalRestart (J : Type) `{OL : OperationJournalLaws J} := {
  reopen : J -> AgentResult (J * OperationJournalRecovery);
  reopen_ok : forall j j' rv, journal_inv j -> reopen j = Ok (j', rv) ->
    journal_inv j' /\ truth_of rv = journal_truth j' /\ NoDup (os_id <$> rv_operations rv) /\
    truth_le (journal_truth j) (journal_truth j');
}.

#[export] Program Instance file_journal_restart `{CD : Codec, CL : !CodecLaws} :
  JournalRestart FileJournal := {
  reopen j := (file_open OpenDone 0 (fj_append_io j) (fj_compact_io j) (crashed j)).1;
}.
Next Obligation.
  intros CD CL j j' rv Hinv Hre.
  destruct (file_inv_restart OpenDone 0 (fj_append_io j) (fj_compact_io j) j Hinv)
    as (j2 & rv2 & Ho & Hi & _ & Hn & Hr & _ & Hs).
  cbn beta in Hre. rewrite Ho in Hre. injection Hre as <- <-. refine (conj Hi (conj Hr (conj Hn _))). cbn.
  destruct Hs as [-> |(t & Hv & Ha & ->)]; [reflexivity|by apply admissible_truth_le].
Qed.

Section theorems.
Context {J : Type} `{OL : OperationJournalLaws J}.

(** ** The invariant *)

(** C22. The registry's invariant is kept by every operation on every branch,
    errors and journal failures included: records keyed, valid and within
    capacity; the eviction order lists exactly the terminal records, once each;
    every record is in the filter; leases exist only for live records and match
    their identity; and every record is what the journal durably promises. *)
Theorem registry_invariant op r evs r' :
  reg_inv r -> registry_step op r = (evs, r') -> reg_inv r'.
Proof. intros Hinv Hs. by eapply registry_step_keeps. Qed.

(** The seen filter never forgets: it contains an inserted operation,
    insertion keeps what it contains, every bit index falls in the 2^21 bits of
    the slice, and every word stays a 64-bit word within the slice. *)
Theorem seen_filter_sound (f : SeenOperationFilter) id id' :
  filter_wf f ->
  may_contain (seen_insert f id) id = true /\
  (may_contain f id' = true -> may_contain (seen_insert f id) id' = true) /\
  Forall (fun i => (i < SEEN_OPERATION_FILTER_BITS)%N) (seen_filter_indexes id) /\
  filter_wf (seen_insert f id).
Proof.
  intros Hf. split; [apply seen_insert_contains|]. split; [apply seen_insert_mono|].
  split; [apply seen_index_bound|by apply seen_insert_wf].
Qed.

(** ** Fences *)

(** Operations of a running Core; startup recovery and the fence itself apart. *)
Definition is_runtime_op (op : RegistryOp) : bool :=
  match op with OpRecoverTerminal _ _ _ _ | OpRequireRecovery _ => false | _ => true end.

Lemma fenced_finish id e t al (r : Registry J) reason :
  rg_recovery_required r = Some reason -> (finish_terminal id e t al r).2 = r.
Proof. intros Hf. unfold finish_terminal, ensure_healthy. by rewrite Hf. Qed.

Lemma fenced_transition id move (r : Registry J) reason :
  rg_recovery_required r = Some reason ->
  transition id move r = (Err (RecoveryRequired reason), r).
Proof. intros Hf. unfold transition, ensure_healthy. by rewrite Hf. Qed.

Lemma fenced_cancel i (r : Registry J) reason :
  rg_recovery_required r = Some reason -> (cancel i r).2 = r.
Proof.
  intros Hf. unfold cancel, ensure_healthy. rewrite Hf.
  by destruct (map_err _ (identity_validate i)).
Qed.

(** Fail-closed authority: once a fence is installed (a journal failure or
    an explicit recovery requirement), every runtime operation leaves memory and
    journal exactly as they are and accepts or commits nothing. *)
Theorem fenced_registry_frozen op (r : Registry J) reason :
  rg_recovery_required r = Some reason -> is_runtime_op op = true ->
  registry_step op r = ([], r).
Proof.
  intros Hf Hop. destruct op; try done; cbn [registry_step].
  - unfold accept, ensure_healthy. rewrite Hf. by destruct (map_err _ _).
  - unfold mark_executing. destruct (from_option _ _ _); [done|]. by erewrite fenced_transition.
  - unfold record_lease, ensure_healthy. by rewrite Hf.
  - unfold mark_prepared. by erewrite fenced_transition.
  - unfold begin_commit. by erewrite fenced_transition.
  - unfold finish_value, bind, get, lift. destruct (require_identity _ _ _ r); [|done].
    by erewrite fenced_finish.
  - unfold finish_refused. by erewrite fenced_finish.
  - unfold finish_effect, bind, get, lift. destruct (map_err _ _); [|done].
    by erewrite fenced_finish.
  - by erewrite fenced_cancel.
  - unfold cancel_and_persist_epoch, ensure_healthy. rewrite Hf.
    destruct (map_err _ _); [|done]. by destruct (_ || _).
  - unfold abort_prepared, bind, get, fail, ret. destruct (query _ r) as [p| |]; [|done..].
    destruct (negb _); [done|]. destruct (os_state p) as [|?|x|?|[x|] []]; try done;
      (destruct (x =? _)%N; [|done]); [by erewrite fenced_cancel|done].
  - unfold persist_epoch_advance, bind, ensure_healthy. by rewrite Hf.
  - unfold compact_authority_journal, bind, ensure_healthy. by rewrite Hf.
Qed.

(** ** At most once *)

(** What the journal of [r] does not yet rule out. *)
Definition fresh (r : Registry J) (ev : RegistryEvent) : Prop :=
  forall j, rg_journal r = Some j ->
    match ev with
    | EvAccepted id => tr_ops (journal_truth j) !! id = None
    | EvCommit id => forall s, tr_ops (journal_truth j) !! id = Some s -> rank (os_state s) < 3
    end.

Lemma fresh_back (r r' : Registry J) ev :
  journal_le (rg_journal r) (rg_journal r') -> fresh r' ev -> fresh r ev.
Proof.
  intros Hle Hf j Hj. rewrite Hj in Hle. destruct (rg_journal r') as [j'|] eqn:Hj'; [|done].
  destruct Hle as [_ Hle]. specialize (Hf j' Hj'). destruct ev as [id|id].
  - destruct (tr_ops (journal_truth j) !! id) as [s|] eqn:Es; [|done].
    destruct (Hle id s Es) as (s' & Hs' & _). congruence.
  - intros s Hs. destruct (Hle id s Hs) as (s' & Hs' & _ & Hr & _).
    specialize (Hf s' Hs'). lia.
Qed.

Lemma accept_event r i r' j :
  reg_inv r -> rg_journal r = Some j -> accept i r = (Ok AdmissionAccepted, r') ->
  fresh r (EvAccepted (ti_operation_id i)) /\ ~ fresh r' (EvAccepted (ti_operation_id i)).
Proof.
  intros Hinv Hj. unfold accept. destruct (map_err _ _); [|done].
  destruct (ensure_healthy_cases r) as [(x & _ & ->)|[_ ->]]; [done|].
  destruct (rg_records r !! ti_operation_id i) as [p|] eqn:Ep; [by destruct (bool_decide _)|].
  destruct (may_contain (rg_seen r) _) eqn:Es; [done|]. destruct (negb _); [done|].
  set (s := {| os_identity := i; os_state := Accepted |}).
  destruct (append_snapshot s r) as [[u|e] r1] eqn:Ea; [|done]. intros [= <-].
  pose proof Hinv as [_ Hc]. destruct (Hc j Hj) as (Hi & _ & Hseen). split.
  - intros jx Hjx. rewrite Hj in Hjx. injection Hjx as <-.
    destruct (tr_ops (journal_truth j) !! _) as [y|] eqn:Ey; [|done].
    rewrite Hseen in Es by (rewrite Ey; eauto). done.
  - change (install s _) with (enroll s r1). intros Hf.
    apply append_transition_cases in Ea as (_ & _ & _ & _ & _ & _ & [[? _]|(j0 & j' & rc & Hj0 & Ha & Hj')]);
      [congruence|].
    rewrite Hj in Hj0. injection Hj0 as <-.
    destruct (append_ok _ _ _ _ Hi Ha) as (_ & _ & _ & Ht & _).
    assert (Hjr : rg_journal (enroll s r1) = Some j').
    { unfold enroll. cbn. unfold evict_terminal_until_fit. by destruct (evict_loop _ _ _ _) as [[??]?]. }
    specialize (Hf j' Hjr). cbn in Hf. rewrite Ht in Hf. cbn in Hf.
    rewrite lookup_insert_eq in Hf. done.
Qed.

Lemma commit_event r id e u r' j :
  reg_inv r -> rg_journal r = Some j -> begin_commit id e r = (Ok u, r') ->
  fresh r (EvCommit id) /\ ~ fresh r' (EvCommit id).
Proof.
  intros Hinv Hj. unfold begin_commit, transition.
  destruct (ensure_healthy_cases r) as [(x & _ & ->)|[_ ->]]; [done|].
  destruct (rg_records r !! id) as [p|] eqn:Ep; [|done].
  destruct (os_state p) as [| |x| |] eqn:Es; try done.
  destruct (N.eqb_spec x e) as [->|]; [|done].
  set (s := {| os_identity := os_identity p; os_state := CommitStarted e |}).
  destruct (append_snapshot s r) as [[v|err] r1] eqn:Ea; [|done]. intros [= _ <-].
  pose proof Hinv as [_ Hc]. destruct (Hc j Hj) as (Hi & Hsub & _).
  assert (Hid : os_id s = id) by apply (records_id _ _ _ Hinv Ep). split.
  - intros jx Hjx y Hy. rewrite Hj in Hjx. injection Hjx as <-.
    pose proof (lookup_weaken _ _ _ _ Ep Hsub) as Hp.
    rewrite Hp in Hy. injection Hy as <-. rewrite Es. cbn. lia.
  - intros Hf.
    apply append_transition_cases in Ea as (_ & _ & _ & _ & _ & _ & [[? _]|(j0 & j' & rc & Hj0 & Ha & Hj')]);
      [congruence|].
    rewrite Hj in Hj0. injection Hj0 as <-.
    destruct (append_ok _ _ _ _ Hi Ha) as (_ & _ & _ & Ht & _).
    specialize (Hf j' Hj' s). rewrite Ht in Hf. cbn [tr_ops truth_apply] in Hf.
    rewrite Hid, lookup_insert_eq in Hf. specialize (Hf eq_refl). cbn in Hf. lia.
Qed.

Lemma registry_step_events op r evs r' j :
  reg_inv r -> rg_journal r = Some j -> registry_step op r = (evs, r') ->
  evs = [] \/ exists ev, evs = [ev] /\ fresh r ev /\ ~ fresh r' ev.
Proof.
  intros Hinv Hj. destruct op; cbn [registry_step]; try (intros [= <- _]; by left).
  - destruct (accept identity r) as [[[|]|] r1] eqn:E; intros [= <- <-]; [right|by left..].
    eexists. split; [done|]. by eapply accept_event.
  - destruct (begin_commit _ _ r) as [[u|] r1] eqn:E; intros [= <- <-]; [right|by left].
    eexists. split; [done|]. by eapply commit_event.
Qed.

(** ** Histories with crashes *)

Context `{JR : !JournalRestart J}.

Inductive HistoryStep : Type :=
| HOp (op : RegistryOp)
| HRestart.

(** Run a history. A restart reopens the journal and rebuilds the registry from
    it; when either is refused no process comes up and the history ends. *)
Fixpoint run_history (steps : list HistoryStep) (r : Registry J) :
    list RegistryEvent * Registry J :=
  match steps with
  | [] => ([], r)
  | HOp op :: rest =>
      let '(evs, r1) := registry_step op r in
      let '(evs', r2) := run_history rest r1 in (evs ++ evs', r2)
  | HRestart :: rest =>
      match rg_journal r with
      | None => ([], r)
      | Some j =>
          match reopen j with
          | Err _ => ([], r)
          | Ok (j', rv) =>
              match recover (rg_capacity r) (Some j') rv with
              | Err _ => ([], r)
              | Ok r1 => run_history rest r1
              end
          end
      end
  end.

Lemma restart_inv r j j' rv r1 :
  reg_inv r -> 0 < rg_capacity r -> rg_journal r = Some j -> reopen j = Ok (j', rv) ->
  recover (rg_capacity r) (Some j') rv = Ok r1 ->
  reg_inv r1 /\ rg_capacity r1 = rg_capacity r /\ rg_journal r1 = Some j' /\
  journal_le (rg_journal r) (rg_journal r1).
Proof.
  intros [_ Hc] Hcap Hj Hre Hrec. destruct (Hc j Hj) as (Hi & _).
  destruct (reopen_ok _ _ _ Hi Hre) as (Hi' & Ht & Hnd & Hle).
  destruct (recover_ok_inv _ _ _ _ Hcap Hnd Hrec) as (Hm & Hc1 & Hj1 & _ & Hsub & Hall).
  refine (conj (conj Hm _) (conj Hc1 (conj Hj1 _))).
  - rewrite Hj1. intros jx [= <-]. rewrite <- Ht. refine (conj Hi' (conj Hsub _)).
    intros id [s Hs]. by eapply Hall.
  - by rewrite Hj, Hj1.
Qed.

Lemma run_history_inv steps r evs r' :
  reg_inv r -> 0 < rg_capacity r -> run_history steps r = (evs, r') -> reg_inv r'.
Proof.
  revert r evs. induction steps as [|[op|] steps IH]; intros r evs Hinv Hcap; cbn [run_history].
  - by intros [= _ <-].
  - destruct (registry_step op r) as [evs1 r1] eqn:E1.
    destruct (run_history steps r1) as [evs2 r2] eqn:E2. intros [= _ <-].
    destruct (registry_step_keeps _ _ _ _ Hinv E1) as [Hinv1 [Hcap1 _ _ _]].
    eapply IH; [exact Hinv1|lia|exact E2].
  - destruct (rg_journal r) as [j|] eqn:Hj; [|by intros [= _ <-]].
    destruct (reopen j) as [[j' rv]|] eqn:Er; [|by intros [= _ <-]].
    destruct (recover _ _ _) as [r1|] eqn:Ec; [|by intros [= _ <-]].
    destruct (restart_inv _ _ _ _ _ Hinv Hcap Hj Er Ec) as (Hinv1 & Hc1 & _).
    apply IH; [done|lia].
Qed.

Lemma run_history_events steps r evs r' j :
  reg_inv r -> 0 < rg_capacity r -> rg_journal r = Some j -> run_history steps r = (evs, r') ->
  NoDup evs /\ (forall ev, ev ∈ evs -> fresh r ev) /\
  journal_le (rg_journal r) (rg_journal r').
Proof.
  revert r evs j. induction steps as [|[op|] steps IH]; intros r evs j Hinv Hcap Hj; cbn [run_history].
  - intros [= <- <-]. split; [constructor|]. split; [set_solver|reflexivity].
  - destruct (registry_step op r) as [evs1 r1] eqn:E1.
    destruct (run_history steps r1) as [evs2 r2] eqn:E2. intros [= <- <-].
    destruct (registry_step_keeps _ _ _ _ Hinv E1) as [Hinv1 [Hcap1 _ Hle1 _]].
    pose proof Hle1 as Hle1'. rewrite Hj in Hle1'.
    destruct (rg_journal r1) as [j1|] eqn:Hj1; [|done].
    destruct (IH r1 evs2 j1 Hinv1 ltac:(lia) Hj1 E2) as (Hnd & Hfresh & Hle2).
    rewrite <- Hj1 in Hle1.
    assert (Hback : forall ev, ev ∈ evs2 -> fresh r ev)
      by (intros ev Hev; eapply fresh_back; [exact Hle1|by apply Hfresh]).
    split; [|split; [|by etrans]].
    + destruct (registry_step_events _ _ _ _ _ Hinv Hj E1) as [->|(ev & -> & _ & Hnf)]; [done|].
      cbn. apply NoDup_cons. split; [|done]. intros Hin. by apply Hnf, Hfresh.
    + intros ev [Hev|Hev]%elem_of_app; [|by apply Hback].
      destruct (registry_step_events _ _ _ _ _ Hinv Hj E1) as [->|(ev1 & -> & Hf & _)];
        [by apply not_elem_of_nil in Hev|].
      by apply list_elem_of_singleton in Hev as ->.
  - rewrite Hj. destruct (reopen j) as [[j' rv]|] eqn:Er;
      [|intros [= <- <-]; split; [constructor|split; [set_solver|by rewrite Hj]]].
    destruct (recover _ _ _) as [r1|] eqn:Ec;
      [|intros [= <- <-]; split; [constructor|split; [set_solver|by rewrite Hj]]].
    destruct (restart_inv _ _ _ _ _ Hinv Hcap Hj Er Ec) as (Hinv1 & Hc1 & Hj1 & Hle).
    intros Hrun. destruct (IH r1 evs j' Hinv1 ltac:(lia) Hj1 Hrun) as (Hnd & Hfresh & Hle2).
    split; [done|]. split.
    + intros ev Hev. eapply fresh_back; [exact Hle|by apply Hfresh].
    + rewrite <- Hj. by etrans.
Qed.

(** C1. At most once, across crashes: in any history of a journalled registry,
    with any interleaving of operations, journal failures and process restarts,
    no operation id is accepted twice and no operation claims its commit slot
    twice. *)
Theorem at_most_once steps r evs r' j :
  reg_inv r -> 0 < rg_capacity r -> rg_journal r = Some j ->
  run_history steps r = (evs, r') -> NoDup evs.
Proof. intros Hinv Hcap Hj Hrun. by eapply run_history_events. Qed.

(** Lifecycles only move forward, across crashes: whatever the journal
    promised at some point of a history it promises later under the same
    identity and at least as far in its lifecycle, a record that does not move on
    (a terminal never does) stays exactly as it was, and the authority epoch never goes back. *)
Theorem lifecycle_forward steps r evs r' j :
  reg_inv r -> 0 < rg_capacity r -> rg_journal r = Some j ->
  run_history steps r = (evs, r') ->
  exists j', rg_journal r' = Some j' /\ truth_le (journal_truth j) (journal_truth j').
Proof.
  intros Hinv Hcap Hj Hrun.
  destruct (run_history_events _ _ _ _ _ Hinv Hcap Hj Hrun) as (_ & _ & Hle).
  rewrite Hj in Hle. destruct (rg_journal r') as [j'|]; [eauto|done].
Qed.

End theorems.
