(* ===== verification/RegistryBehaviour.v ===== *)
(** The specification journal: an [OperationJournal] that never fails for a
    storage reason and refuses exactly the transitions the lifecycle does not
    admit. It is the abstract machine the file journal implements
    ([file_journal_refines_spec]) and the yardstick for Core's own guards. *)

From S2P Require Import Prelude Text Digest Operation Journal Wal FileJournal FileJournalLaws Intent Registry.
From S2P Require Import RegistryFacts RegistrySteps RegistryTheorems.

Record SpecJournal : Type := {
  sj_seq : N;
  sj_truth : Truth;
}.

#[export] Instance admissible_dec t tr : Decision (admissible t tr).
Proof. destruct tr as [from to|s|m]; cbn; [apply _| |apply _]. destruct (tr_ops t !! os_id s); apply _. Defined.

Definition spec_append (tr : OperationJournalTransition) :
    M SpecJournal AgentError OperationJournalRecord := fun j =>
  match transition_validate tr with
  | Err e => (Err (InvalidRequest e), j)
  | Ok _ =>
      if decide (admissible (sj_truth j) tr)
      then (Ok (make_record (sj_seq j + 1) tr),
            {| sj_seq := sj_seq j + 1; sj_truth := truth_apply (sj_truth j) tr |})
      else (Err (RecoveryRequired (txt "inadmissible transition")), j)
  end.

Definition spec_recover (j : SpecJournal) : AgentResult OperationJournalRecovery :=
  Ok {| rv_last_seq := sj_seq j; rv_authority_epoch := tr_epoch (sj_truth j);
        rv_operations := sort_by_id (map_to_list (tr_ops (sj_truth j))).*2;
        rv_truncated_tail := false; rv_compacted_from := None |}.

#[export] Instance spec_operation_journal : OperationJournal SpecJournal := {
  append_and_sync := spec_append;
  recover_journal := spec_recover;
  journal_marker j := default_authority_checkpoint_marker;
  journal_validate_marker m j :=
    default_validate_authority_checkpoint_marker default_authority_checkpoint_marker m;
  journal_compact j := (default_compact, j);
}.

Lemma truth_apply_wf t tr : ops_wf (tr_ops t) -> ops_wf (tr_ops (truth_apply t tr)).
Proof.
  intros Hwf. destruct tr as [from to|s|m]; cbn; try done.
  intros k x [[<- <-]|[_ Hk]]%lookup_insert_Some; [done|by apply Hwf].
Qed.

#[export] Program Instance spec_journal_laws : OperationJournalLaws SpecJournal := {
  journal_inv j := ops_wf (tr_ops (sj_truth j));
  journal_truth := sj_truth;
}.
Next Obligation. done. Qed.
Next Obligation.
  intros t j r j' Hwf Ha. cbn in *. unfold spec_append in Ha.
  destruct (transition_validate t) as [[]|]; [|done]. case_decide; [|done].
  injection Ha as <- <-. split; [by apply truth_apply_wf|done].
Qed.
Next Obligation.
  intros t j e j' Hwf Ha. cbn in *. unfold spec_append in Ha.
  destruct (transition_validate t) as [[]|]; [case_decide|]; by simplify_eq.
Qed.
Next Obligation.
  intros j rv Hwf Hr. cbn in *. injection Hr as <-. unfold truth_of. cbn.
  rewrite recovered_map by done. split; [by destruct (sj_truth j)|by apply recovered_ids].
Qed.
Next Obligation. intros j r j' Hwf Hc. cbn in *. by injection Hc as _ <-. Qed.

Lemma spec_append_admissible tr j :
  transition_validate tr = Ok tt -> admissible (sj_truth j) tr ->
  exists r, spec_append tr j =
    (Ok r, {| sj_seq := sj_seq j + 1; sj_truth := truth_apply (sj_truth j) tr |}).
Proof. intros Hv Ha. unfold spec_append. rewrite Hv. rewrite decide_True by done. by eexists. Qed.

Section refinement.
Context `{CD : Codec, CL : !CodecLaws}.

(** The abstraction of a file journal. *)
Definition abstracts (j : FileJournal) (a : SpecJournal) : Prop :=
  file_inv j /\ sj_truth a = file_truth j.

(** C23. The file journal refines the specification journal: every append it
    acknowledges is a step of the specification from any state that abstracts
    it, to a state that abstracts the file journal afterwards; a refused append
    and any compaction are no step at all. *)
Theorem file_journal_refines_spec (tr : OperationJournalTransition) j a res j' :
  abstracts j a -> file_append_and_sync tr j = (res, j') ->
  match res with
  | Ok r => or_transition r = tr /\
            exists ra a', spec_append tr a = (Ok ra, a') /\ abstracts j' a'
  | Err _ => abstracts j' a
  end /\
  forall c j2, compact_locked j' = (c, j2) ->
    exists a2, abstracts j2 a2 /\ sj_truth a2 = file_truth j'.
Proof.
  intros [Hinv Ht] Happ. apply file_append_appended in Happ as [[Hinv' Hr] Hv]; [|done]. split.
  - destruct res as [r|e]; [|by split; [|congruence]].
    destruct Hr as (Hadm & Htr & Hrt). split; [done|].
    destruct (spec_append_admissible tr a) as (ra & Hra); [by apply Hv|by rewrite Ht|].
    eexists ra, _. split; [exact Hra|]. split; [done|]. cbn. by rewrite Htr, Ht.
  - intros c j2 (Hi2 & Ht2 & _)%compact_locked_inv; [|done].
    exists {| sj_seq := 0; sj_truth := file_truth j' |}. split; [|done]. by split.
Qed.
End refinement.

(** The functional behaviour of the registry's operations: admission, receipts,
    cancellation and recovery on every branch, and the agreement of Core's
    lifecycle guards with the journal's transition table. *)

Section behaviour.
Context {J : Type} `{OL : OperationJournalLaws J}.

(** Admission: for a valid, unseen identity in a healthy registry with
    room, an acknowledged journal append makes [accept] report acceptance; the
    operation is then found as accepted, every live operation is still there
    unchanged, and nothing is evicted unless the registry was full. *)
Theorem accept_admits i (r : Registry J) u r1 :
  reg_inv r -> identity_validate i = Ok tt -> rg_recovery_required r = None ->
  may_contain (rg_seen r) (ti_operation_id i) = false ->
  has_capacity_or_evictable_terminal r = true ->
  append_snapshot {| os_identity := i; os_state := Accepted |} r = (Ok u, r1) ->
  exists r', accept i r = (Ok AdmissionAccepted, r') /\
    query (ti_operation_id i) r' = Found {| os_identity := i; os_state := Accepted |} /\
    (forall id s, rg_records r !! id = Some s -> is_terminal (os_state s) = false ->
       rg_records r' !! id = Some s) /\
    (size (rg_records r) < rg_capacity r ->
       forall id s, rg_records r !! id = Some s -> rg_records r' !! id = Some s).
Proof.
  intros Hinv Hi Hh Hs Hroom Ha. pose proof Hinv as [Hm _].
  assert (Hnone : rg_records r !! ti_operation_id i = None).
  { destruct (rg_records r !! _) eqn:E; [|done].
    rewrite (mi_seen _ _ _ _ _ Hm) in Hs by (rewrite E; eauto). done. }
  set (s0 := {| os_identity := i; os_state := Accepted |}) in *.
  exists (enroll s0 r1). split.
  { unfold accept, ensure_healthy. rewrite Hi, Hh. cbn [map_err].
    rewrite Hnone, Hs, Hroom. cbn [negb]. fold s0. by rewrite Ha. }
  destruct (evict_after_append _ _ _ _ Hm Ha) as (Hm1 & Hr1 & _).
  destruct (evict_ok r1 Hm1) as (_ & _ & Hkeep & _). rewrite Hr1 in Hkeep.
  assert (Hne : forall id s, rg_records r !! id = Some s -> os_id s0 <> id).
  { intros id s Hid Heq. cbn in Heq. unfold os_id in Heq. cbn in Heq. congruence. }
  split; [|split].
  - unfold query, enroll. cbn. by rewrite lookup_insert_eq.
  - intros id s Hid Ht. unfold enroll. cbn. rewrite lookup_insert_ne by (by eapply Hne).
    by apply Hkeep.
  - intros Hlt id s Hid. unfold enroll. cbn. rewrite lookup_insert_ne by (by eapply Hne).
    unfold evict_terminal_until_fit.
    apply append_transition_cases in Ha as (H1 & H2 & H3 & H4 & H5 & _).
    rewrite H1, H2, H3, H5. destruct (rg_terminal_order r); cbn [evict_loop];
      rewrite (proj2 (Nat.ltb_lt _ _) Hlt); done.
Qed.

(** Receipts are recorded exactly: a receipt for a started commit becomes,
    once durable, the operation's terminal under the same effect id, with the
    receipt's kind and its bounded diagnostics, and its lease is gone; for a
    known operation in any other state the receipt is refused and nothing
    changes. *)
Theorem finish_effect_exact id rc (r : Registry J) p :
  reg_inv r -> rg_recovery_required r = None -> rg_records r !! id = Some p ->
  match os_state p with
  | CommitStarted e =>
      let next := {| os_identity := os_identity p;
                     os_state := Terminal (Some e) (receipt_terminal rc) |} in
      forall u r1, append_snapshot next r = (Ok u, r1) ->
      exists r', finish_effect id rc r = (Ok tt, r') /\
        query id r' = Found next /\ snapshot_validate next = Ok tt /\ rg_leases r' !! id = None
  | _ => exists m, finish_effect id rc r = (Err (InvalidRequest m), r)
  end.
Proof.
  intros Hinv Hh Hp. pose proof (records_id _ _ _ Hinv Hp) as Hid.
  assert (Hrun : finish_effect id rc r =
    finish_terminal id (match os_state p with CommitStarted e => Some e | _ => None end)
      (receipt_terminal rc) (fun s => match s with CommitStarted _ => true | _ => false end) r).
  { unfold finish_effect, bind, get, lift. rewrite receipt_terminal_validates. cbn [map_err].
    unfold query. rewrite Hp. by destruct p as [i []]. }
  rewrite Hrun. unfold finish_terminal, ensure_healthy. rewrite Hh, Hp.
  destruct (os_state p) as [| | |e|] eqn:Es; try (by eexists).
  intros u r1 Ha. cbn [negb].
  set (next := {| os_identity := os_identity p; os_state := Terminal (Some e) _ |}) in *. rewrite Ha. eexists. split; [reflexivity|].
  assert (Hnid : os_id next = id) by exact Hid.
  unfold query. cbn. rewrite Hnid, lookup_insert_eq, lookup_delete_eq.
  split; [done|]. split; [|done]. apply terminal_snapshot_valid.
  - by eapply records_valid.
  - left. by rewrite Es.
  - apply receipt_terminal_validates.
Qed.

(** ** Cancellation *)

Lemma cancel_records i (r : Registry J) u r1 :
  reg_inv r -> cancel i r = (Ok u, r1) ->
  exists s e, rg_records r1 !! ti_operation_id i = Some s /\ os_identity s = i /\
    os_state s = Terminal e CancelledBeforeCommit.
Proof.
  intros Hinv. unfold cancel. destruct (map_err _ _); [|done].
  destruct (ensure_healthy_cases r) as [(x & _ & ->)|[_ ->]]; [done|].
  assert (Hcommit : forall e, (match append_snapshot (cancelled_snapshot i e) r with
      | (Err er, r2) => (Err er, r2)
      | (Ok _, r2) => (Ok tt, install_cancelled (cancelled_snapshot i e) r2)
      end) = (Ok u, r1) ->
    exists s e, rg_records r1 !! ti_operation_id i = Some s /\ os_identity s = i /\
      os_state s = Terminal e CancelledBeforeCommit).
  { intros e. destruct (append_snapshot _ r) as [[v|er] r2]; [|done]. intros [= _ <-].
    exists (cancelled_snapshot i e), e. cbn. rewrite lookup_insert_eq. done. }
  destruct (rg_records r !! ti_operation_id i) as [p|] eqn:Ep.
  - destruct (bool_decide_reflect (os_identity p = i)) as [<-|]; cbn [negb]; [|done].
    destruct (os_state p) as [|e|e|e|e []] eqn:Es; try done; try apply Hcommit.
    intros [= _ <-]. exists p, e. done.
  - destruct (may_contain _ _); [done|]. destruct (negb _); [done|]. apply Hcommit.
Qed.

Context `{JR : !JournalRestart J}.

(** Cancellation beats a delayed accept: after a successful [cancel] the
    operation reads as cancelled before commit, an immediate accept of the same
    identity is only told about that duplicate, and in every later history,
    restarts included, the operation is never accepted and never commits. *)
Theorem cancel_beats_accept i (r : Registry J) u r1 j steps evs r2 :
  reg_inv r -> 0 < rg_capacity r -> rg_journal r = Some j -> cancel i r = (Ok u, r1) ->
  run_history steps r1 = (evs, r2) ->
  (exists s e, query (ti_operation_id i) r1 = Found s /\ os_identity s = i /\
     os_state s = Terminal e CancelledBeforeCommit /\
     (rg_recovery_required r1 = None -> identity_validate i = Ok tt ->
      accept i r1 = (Ok (AdmissionDuplicate s), r1))) /\
  EvAccepted (ti_operation_id i) ∉ evs /\ EvCommit (ti_operation_id i) ∉ evs.
Proof.
  intros Hinv Hcap Hj Hc Hrun.
  destruct (cancel_keeps i r _ _ Hinv Hc) as [Hinv1 [Hcap1 _ Hle _]].
  destruct (cancel_records _ _ _ _ Hinv Hc) as (s & e & Hs & Hi & Hst).
  rewrite Hj in Hle. destruct (rg_journal r1) as [j1|] eqn:Hj1; [|done].
  pose proof Hinv1 as [_ Hcp]. destruct (Hcp j1 Hj1) as (_ & Hsub & _).
  pose proof (lookup_weaken _ _ _ _ Hs Hsub) as Htruth.
  destruct (run_history_events _ _ _ _ _ Hinv1 ltac:(lia) Hj1 Hrun) as (_ & Hfresh & _).
  split; [|split].
  - exists s, e. unfold query, accept, ensure_healthy. rewrite Hs.
    refine (conj eq_refl (conj Hi (conj Hst _))). intros Hh Hv. rewrite Hv, Hh. cbn [map_err].
    by rewrite bool_decide_eq_true_2.
  - intros Hin%Hfresh. specialize (Hin j1 Hj1). cbn in Hin. congruence.
  - intros Hin%Hfresh. specialize (Hin j1 Hj1 s Htruth). rewrite Hst in Hin. cbn in Hin. lia.
Qed.

End behaviour.

(** ** Recovery *)

Section recovery.
Context {J : Type} `{OL : OperationJournalLaws J}.

Lemma recover_operations_total ops (r : Registry J) :
  Forall (fun s => snapshot_validate s = Ok tt) ops -> exists r', recover_operations ops r = Ok r'.
Proof.
  intros Hv. revert r. induction Hv as [|s ops Hs Hv IH]; intros r; cbn [recover_operations]; [eauto|].
  rewrite Hs. cbn [map_err rbind]. apply IH.
Qed.

(** Recovery restores authority: from any recovered set of valid snapshots
    the registry comes up exactly when the unresolved ones fit; it then holds
    every unresolved operation as recovered, is within capacity and healthy,
    and no recovered operation can ever be accepted again. *)
Theorem recover_restores cap j rv :
  0 < cap -> NoDup (os_id <$> rv_operations rv) -> journal_inv j ->
  truth_of rv = journal_truth j ->
  Forall (fun s => snapshot_validate s = Ok tt) (rv_operations rv) ->
  if decide (length (filter (fun s => is_terminal (os_state s) = false) (rv_operations rv)) <= cap)
  then exists r : Registry J,
    recover cap (Some j) rv = Ok r /\ reg_inv r /\ rg_recovery_required r = None /\
    (forall s, s ∈ rv_operations rv -> is_terminal (os_state s) = false ->
       query (os_id s) r = Found s) /\
    (forall s i, s ∈ rv_operations rv -> ti_operation_id i = os_id s ->
       (accept i r).1 <> Ok AdmissionAccepted)
  else exists m, recover cap (Some j) rv = Err (RecoveryRequired m).
Proof.
  intros Hcap Hnd Hj Ht Hv. destruct (decide _) as [Hle|Hgt].
  - destruct (recover_operations_total (rv_operations rv)
      {| rg_capacity := cap; rg_journal := Some j; rg_records := ∅; rg_terminal_order := [];
         rg_seen := ∅; rg_leases := ∅; rg_recovery_required := None |} Hv) as [r0 Hr0].
    assert (Hrec : recover cap (Some j) rv = Ok (evict_terminal_until_fit r0)).
    { unfold recover. rewrite (proj2 (Nat.ltb_ge _ _)) by done. by rewrite Hr0. }
    destruct (recover_ok_inv cap (Some j) rv _ Hcap Hnd Hrec) as (Hm & _ & Hj1 & Hh & Hsub & Hall).
    eexists. split; [exact Hrec|]. split; [|split; [exact Hh|split]].
    + split; [exact Hm|]. rewrite Hj1. intros jx [= <-]. rewrite <- Ht.
      refine (conj Hj (conj Hsub _)). intros id [s Hs]. by eapply Hall.
    + intros s Hin Hlive. unfold query.
      assert (Hs : ops_map (rv_operations rv) !! os_id s = Some s) by (by apply ops_map_lookup).
      by rewrite (proj2 (Hall _ _ Hs) Hlive).
    + intros s i Hin Hi Hacc.
      assert (Hs : ops_map (rv_operations rv) !! os_id s = Some s) by (by apply ops_map_lookup).
      revert Hacc. unfold accept, ensure_healthy. rewrite Hh, Hi.
      destruct (map_err _ _); [|done].
      destruct (rg_records _ !! os_id s) as [x|]; [by destruct (bool_decide _)|].
      by rewrite (proj1 (Hall _ _ Hs)).
  - eexists. unfold recover. by rewrite (proj2 (Nat.ltb_lt _ _)) by lia.
Qed.
End recovery.

(** ** Core's guards and the journal's table *)

Section guards.

Abbreviation SR := (Registry SpecJournal).

(** A healthy registry over the specification journal. *)
Definition well (r : SR) (j : SpecJournal) : Prop :=
  reg_inv r /\ rg_journal r = Some j /\ rg_recovery_required r = None.

(** The transition is one the journal accepts, so the write-through succeeds. *)
Definition writable (s : OperationSnapshot) (r : SR) : Prop :=
  snapshot_validate s = Ok tt /\
  match rg_records r !! os_id s with
  | Some p => os_identity p = os_identity s /\
              valid_recovered_transition (os_state p) (os_state s) = true
  | None => may_contain (rg_seen r) (os_id s) = false /\ first_record_state (os_state s) = true
  end.

Lemma append_succeeds t r j :
  well r j -> transition_validate t = Ok tt -> admissible (sj_truth j) t ->
  exists r1, append_transition t r = (Ok tt, r1) /\ rg_recovery_required r1 = None.
Proof.
  intros (_ & Hj & Hh) Hv Ha. destruct (spec_append_admissible t j Hv Ha) as [rc Hrc].
  unfold append_transition. rewrite Hj. cbn [append_and_sync spec_operation_journal].
  rewrite Hrc. by eexists.
Qed.

Lemma writable_admissible s r j :
  well r j -> writable s r -> admissible (sj_truth j) (OperationUpsert s).
Proof.
  intros ([Hm Hc] & Hj & _) [_ Hw]. destruct (Hc j Hj) as (_ & Hsub & Hseen). cbn in *.
  destruct (rg_records r !! os_id s) as [p|] eqn:Ep.
  - by rewrite (lookup_weaken _ _ _ _ Ep Hsub).
  - destruct (tr_ops (sj_truth j) !! os_id s) as [p|] eqn:Et; [|apply Hw].
    destruct Hw as [Hns _]. rewrite Hseen in Hns by (rewrite Et; eauto). done.
Qed.

Lemma write_succeeds s r j :
  well r j -> writable s r ->
  exists r1, append_snapshot s r = (Ok tt, r1) /\ rg_recovery_required r1 = None.
Proof.
  intros Hw Hs. eapply append_succeeds; [exact Hw|apply Hs|].
  by eapply writable_admissible.
Qed.

Lemma evict_health (r : SR) :
  rg_recovery_required (evict_terminal_until_fit r) = rg_recovery_required r.
Proof. unfold evict_terminal_until_fit. by destruct (evict_loop _ _ _ _) as [[o rs] ls]. Qed.

(** A writable snapshot, written through and installed by [f], leaves the
    registry healthy. *)
Lemma written_healthy {A} (x : A) s f r j :
  well r j -> writable s r ->
  (forall r1 : SR, rg_recovery_required (f r1) = rg_recovery_required r1) ->
  rg_recovery_required
    (match append_snapshot s r with
     | (Err e, r1) => (Err e : AgentResult A, r1)
     | (Ok _, r1) => (Ok x, f r1)
     end).2 = None.
Proof.
  intros Hw Hs Hf. destruct (write_succeeds s r j Hw Hs) as (r1 & -> & Hh). cbn. by rewrite Hf.
Qed.

Lemma moved_writable r j id p st :
  well r j -> rg_records r !! id = Some p ->
  valid_recovered_transition (os_state p) st = true ->
  snapshot_validate {| os_identity := os_identity p; os_state := st |} = Ok tt ->
  writable {| os_identity := os_identity p; os_state := st |} r.
Proof.
  intros (Hinv & _) Hp Hv Hs. split; [done|].
  change (os_id {| os_identity := os_identity p; os_state := st |}) with (os_id p).
  rewrite (records_id _ _ _ Hinv Hp), Hp. done.
Qed.

Lemma transition_healthy id move r j :
  well r j ->
  (forall p s, snapshot_validate p = Ok tt -> move (os_state p) = Ok s ->
     valid_recovered_transition (os_state p) s = true /\
     snapshot_validate {| os_identity := os_identity p; os_state := s |} = Ok tt) ->
  rg_recovery_required (transition id move r).2 = None.
Proof.
  intros Hw Hmove. pose proof Hw as (Hinv & Hj & Hh). unfold transition, ensure_healthy. rewrite Hh.
  destruct (rg_records r !! id) as [p|] eqn:Ep; [|done].
  destruct (move (os_state p)) as [s|m] eqn:Em; [|done].
  destruct (Hmove p s (records_valid _ _ _ Hinv Ep) Em) as [Hv Hs].
  eapply written_healthy; [exact Hw|by eapply moved_writable|done].
Qed.

Lemma finish_healthy id e t allowed r j :
  well r j -> terminal_validate t = Ok tt ->
  (forall p, rg_records r !! id = Some p -> allowed (os_state p) = true ->
     valid_recovered_transition (os_state p) (Terminal e t) = true /\
     (e = effect_of (os_state p) \/ e = None)) ->
  rg_recovery_required (finish_terminal id e t allowed r).2 = None.
Proof.
  intros Hw Ht Hal. pose proof Hw as (Hinv & Hj & Hh).
  unfold finish_terminal, ensure_healthy. rewrite Hh.
  destruct (rg_records r !! id) as [p|] eqn:Ep; [|done].
  destruct (allowed (os_state p)) eqn:Ea; cbn [negb]; [|done].
  destruct (Hal p eq_refl Ea) as [Hv He].
  eapply written_healthy; [exact Hw|eapply moved_writable; [exact Hw|exact Ep|done|]|done].
  apply terminal_snapshot_valid; [by eapply records_valid|done|done].
Qed.

Lemma cancelled_transition s :
  is_terminal s = false ->
  valid_recovered_transition s (Terminal (effect_of s) CancelledBeforeCommit) = true.
Proof.
  intros Ht. unfold valid_recovered_transition.
  destruct s as [|[e|]|e|e|]; cbn; rewrite ?bool_decide_eq_true_2 by done; done.
Qed.

Lemma cancelled_writable r j id p :
  well r j -> rg_records r !! id = Some p -> is_terminal (os_state p) = false ->
  writable (cancelled_snapshot (os_identity p) (effect_of (os_state p))) r.
Proof.
  intros Hw Hp Ht. pose proof Hw as (Hinv & _).
  eapply moved_writable; [exact Hw|exact Hp|by apply cancelled_transition|].
  apply cancelled_live_valid; [by eapply records_valid|by left].
Qed.

Lemma reserved_writable (r : SR) i :
  identity_validate i = Ok tt -> rg_records r !! ti_operation_id i = None ->
  may_contain (rg_seen r) (ti_operation_id i) = false ->
  writable (cancelled_snapshot i None) r.
Proof.
  intros Hi Hp Hs. split; [by apply cancelled_new_valid|].
  change (os_id (cancelled_snapshot i None)) with (ti_operation_id i). by rewrite Hp, Hs.
Qed.

Lemma install_cancelled_health s (r : SR) :
  rg_recovery_required (install_cancelled s r) = rg_recovery_required r.
Proof. apply evict_health. Qed.

Lemma cancel_healthy i r j : well r j -> rg_recovery_required (cancel i r).2 = None.
Proof.
  intros Hw. pose proof Hw as (Hinv & Hj & Hh). unfold cancel, ensure_healthy.
  destruct (identity_validate i) as [[]|] eqn:Ei; cbn [map_err]; [|done]. rewrite Hh.
  destruct (rg_records r !! ti_operation_id i) as [p|] eqn:Ep.
  - destruct (bool_decide_reflect (os_identity p = i)) as [<-|]; cbn [negb]; [|done].
    pose proof (cancelled_writable r j _ p Hw Ep) as Hwr.
    destruct (os_state p) as [|e|e|e|e []] eqn:Es; try done;
      (eapply written_healthy; [exact Hw|by apply Hwr|intros; apply install_cancelled_health]).
  - destruct (may_contain _ _) eqn:Es; [done|]. destruct (negb _); [done|].
    eapply written_healthy; [exact Hw|by apply reserved_writable|intros; apply install_cancelled_health].
Qed.

Lemma cancel_epoch_healthy i from to r j :
  well r j -> tr_epoch (sj_truth j) = from -> (from < u64_max)%N ->
  rg_recovery_required (cancel_and_persist_epoch i from to r).2 = None.
Proof.
  intros Hw Hep Hmax. pose proof Hw as (Hinv & Hj & Hh).
  unfold cancel_and_persist_epoch, ensure_healthy.
  destruct (identity_validate i) as [[]|] eqn:Ei; cbn [map_err]; [|done].
  destruct (_ || _) eqn:Eg; [done|]. rewrite Hh.
  assert (Hv : transition_validate (EpochAdvanced from to) = Ok tt).
  { apply orb_false_iff in Eg as [E0 E1]. cbn. rewrite E0. cbn [orb].
    apply negb_false_iff, N.eqb_eq in E1. unfold checked_succ in *.
    rewrite decide_True in E1 |- * by done. cbn in E1. subst to.
    by rewrite bool_decide_eq_true_2. }
  destruct (append_succeeds _ r j Hw Hv Hep) as (r1 & Hr1 & Hh1).
  pose proof (append_epoch_acked _ _ _ _ _ Hinv Hr1) as Hinv1.
  pose proof (append_transition_cases _ _ _ _ Hr1) as (H1 & H2 & H3 & H4 & _ & _ & Hjs).
  assert (exists j1, well r1 j1) as [j1 Hw1].
  { destruct Hjs as [[? _]|(j0 & j1 & rc & _ & _ & Hj1)]; [congruence|]. by exists j1. }
  assert (Hsame : forall s, writable s r -> writable s r1)
    by (intros s; unfold writable; by rewrite H2, H4).
  rewrite Hr1. destruct (rg_records r !! ti_operation_id i) as [p|] eqn:Ep.
  - destruct (bool_decide_reflect (os_identity p = i)) as [<-|]; cbn [negb]; [|done].
    pose proof (cancelled_writable r j _ p Hw Ep) as Hwr.
    destruct (os_state p) as [|e|e|e|e t] eqn:Es; try done;
      (eapply written_healthy; [exact Hw1|by apply Hsame, Hwr|intros; apply install_cancelled_health]).
  - destruct (may_contain _ _) eqn:Es; [done|]. destruct (negb (has_capacity_or_evictable_terminal r)); [exact Hh|].
    eapply written_healthy; [exact Hw1| |intros; apply install_cancelled_health].
    by apply Hsame, reserved_writable.
Qed.

Lemma accept_healthy i r j : well r j -> rg_recovery_required (accept i r).2 = None.
Proof.
  intros Hw. pose proof Hw as (Hinv & Hj & Hh). unfold accept, ensure_healthy.
  destruct (identity_validate i) as [[]|] eqn:Ei; cbn [map_err]; [|done]. rewrite Hh.
  destruct (rg_records r !! ti_operation_id i) as [p|] eqn:Ep; [by destruct (bool_decide _)|].
  destruct (may_contain _ _) eqn:Es; [done|]. destruct (negb _); [done|].
  eapply written_healthy; [exact Hw| |intros; apply evict_health].
  split; [unfold snapshot_validate; cbn; by rewrite Ei|].
  change (os_id {| os_identity := i; os_state := Accepted |}) with (ti_operation_id i).
  by rewrite Ep, Es.
Qed.

Lemma recover_terminal_healthy id expected e t r j :
  well r j -> rg_recovery_required (recover_terminal id expected e t r).2 = None.
Proof.
  intros Hw. pose proof Hw as (Hinv & Hj & Hh). unfold recover_terminal.
  destruct (terminal_validate t) as [[]|] eqn:Et; cbn [map_err]; [|done].
  destruct (expected_effect_id expected) as [x|] eqn:Ex; [|done].
  destruct (bool_decide_reflect (x = e)) as [->|]; cbn [negb]; [|done].
  destruct (rg_records r !! id) as [p|] eqn:Ep; [|done].
  destruct (bool_decide_reflect (os_state p = expected)) as [<-|]; cbn [negb]; [|done].
  eapply written_healthy; [exact Hw|eapply moved_writable; [exact Hw|exact Ep| |]|done].
  - destruct (os_state p) as [|[y|]|y|y|]; cbn in Ex; simplify_eq;
      unfold valid_recovered_transition; cbn; rewrite ?bool_decide_eq_true_2 by done;
      by rewrite ?orb_true_r.
  - apply terminal_snapshot_valid; [by eapply records_valid| |done].
    destruct (os_state p) as [|[y|]|y|y|]; cbn in Ex; simplify_eq; cbn; auto.
Qed.

(** The operations a running Core issues at the journal's current epoch. *)
Definition at_current_epoch (op : RegistryOp) (j : SpecJournal) : Prop :=
  match op with
  | OpPersistEpoch from to =>
      tr_epoch (sj_truth j) = from /\ transition_validate (EpochAdvanced from to) = Ok tt
  | OpCancelEpoch _ from _ => tr_epoch (sj_truth j) = from /\ (from < u64_max)%N
  | OpRequireRecovery _ => False
  | _ => True
  end.

(** Core's guards agree with the journal's transition table: over a journal
    that refuses nothing but inadmissible transitions, no operation at the
    current epoch ever fences the registry, so Core submits only transitions
    that are admissible. *)
Theorem guards_match_journal op (r : SR) evs r' j :
  reg_inv r -> rg_journal r = Some j -> rg_recovery_required r = None ->
  at_current_epoch op j -> registry_step op r = (evs, r') ->
  rg_recovery_required r' = None.
Proof.
  intros Hinv Hj Hh Hop. assert (Hw : well r j) by done.
  destruct op; cbn [registry_step]; try (intros [= _ <-]).
  - intros Hs. pose proof (accept_healthy identity r j Hw).
    destruct (accept identity r). by injection Hs as _ <-.
  - unfold mark_executing. destruct (from_option _ _ _) eqn:En; [done|].
    eapply transition_healthy; [exact Hw|]. intros p s Hv Hm.
    pose proof (snapshot_validate_identity _ Hv) as Hi.
    destruct (os_state p); simplify_eq. split; [done|].
    unfold snapshot_validate. cbn. rewrite Hi. destruct effect_id; cbn in *; by rewrite ?En.
  - unfold record_lease, ensure_healthy. rewrite Hh.
    destruct (_ !! _); [|done]. by destruct (_ || _).
  - eapply transition_healthy; [exact Hw|]. intros p s Hv Hm.
    pose proof (snapshot_validate_identity _ Hv) as Hi.
    destruct (os_state p) as [|[x|]| | |] eqn:Es; simplify_eq.
    destruct (N.eqb_spec x effect_id) as [->|]; simplify_eq. split.
    + unfold valid_recovered_transition. by rewrite bool_decide_eq_true_2.
    + unfold snapshot_validate. cbn. rewrite Hi. cbn.
      by rewrite (effect_not_nil p effect_id) by (done || by rewrite Es).
  - intros Hs. destruct (begin_commit operation_id effect_id r) as [res r1] eqn:E.
    injection Hs as _ <-. change r1 with (res, r1).2. rewrite <- E.
    eapply transition_healthy; [exact Hw|]. intros p s Hv Hm.
    pose proof (snapshot_validate_identity _ Hv) as Hi.
    destruct (os_state p) as [|?|x| |] eqn:Es; simplify_eq.
    destruct (N.eqb_spec x effect_id) as [->|]; simplify_eq. split.
    + unfold valid_recovered_transition. by rewrite bool_decide_eq_true_2.
    + unfold snapshot_validate. cbn. rewrite Hi. cbn.
      by rewrite (effect_not_nil p effect_id) by (done || by rewrite Es).
  - unfold finish_value, bind, get, lift. destruct (require_identity _ _ _ r); [|done].
    eapply finish_healthy; [exact Hw|done|]. intros p Hp.
    destruct (os_state p) as [|[x|]| | |]; try done; intros _; (split; [done|by right]).
  - eapply finish_healthy; [exact Hw|apply bounded_text_validates, max_diagnostic_ge|].
    intros p Hp. destruct (os_state p); try done. intros _. split; [done|by right].
  - unfold finish_effect, bind, get, lift. rewrite receipt_terminal_validates. cbn [map_err].
    eapply finish_healthy; [exact Hw|apply receipt_terminal_validates|].
    intros p Hp. unfold query. rewrite Hp. destruct p as [i []]; try done. intros _. cbn [os_state].
    split; [|by left]. unfold valid_recovered_transition. rewrite !bool_decide_eq_true_2 by done.
    by rewrite ?orb_true_r.
  - by eapply cancel_healthy.
  - destruct Hop as [? ?]. by eapply cancel_epoch_healthy.
  - unfold abort_prepared, bind, get, fail, ret. destruct (query _ r) as [p| |]; try done.
    destruct (negb _); [done|]. destruct (os_state p) as [|?|x|?|[x|] []]; try done;
      (destruct (x =? _)%N; [|done]); [by eapply cancel_healthy|done].
  - unfold persist_epoch_advance, bind, ensure_healthy. rewrite Hh. destruct Hop as [Hep Hv].
    by destruct (append_succeeds _ r j Hw Hv Hep) as (r1 & -> & Hh1).
  - unfold compact_authority_journal, bind, ensure_healthy. rewrite Hh, Hj. done.
  - by eapply recover_terminal_healthy.
  - done.
Qed.
End guards.
