(* ===== verification/RegistryWitness.v ===== *)
(** The registry theorems applied at concrete registries: over the
    specification journal, and over a file journal with the concrete codec. *)

From S2P Require Import Prelude Text Digest Operation Journal Wal FileJournal FileJournalLaws.
From S2P Require Import FileJournalLaws JournalWitness Intent Registry RegistryFacts RegistrySteps.
From S2P Require Import RegistryTheorems RegistryBehaviour.

(** ** Registries to start from *)

Definition start_registry {J} (cap : nat) (j : J) : Registry J :=
  {| rg_capacity := cap; rg_journal := Some j; rg_records := ∅; rg_terminal_order := [];
     rg_seen := ∅; rg_leases := ∅; rg_recovery_required := None |}.

Lemma start_registry_inv `{OperationJournalLaws J} cap (j : J) :
  journal_inv j -> tr_ops (journal_truth j) = ∅ -> reg_inv (start_registry cap j).
Proof.
  intros Hi He. split; [apply mem_inv_empty|]. intros jx [= <-]. rewrite He.
  split; [done|]. split; [done|]. intros id [s Hs]. by rewrite lookup_empty in Hs.
Qed.

Definition spec_start : SpecJournal :=
  {| sj_seq := 0; sj_truth := {| tr_epoch := 1; tr_ops := ∅ |} |}.

Definition spec_registry : Registry SpecJournal := start_registry 2 spec_start.

Lemma spec_registry_inv : reg_inv spec_registry.
Proof.
  apply start_registry_inv; [|done]. intros id s Hs. cbn in Hs. by rewrite lookup_empty in Hs.
Qed.

#[export] Program Instance spec_journal_restart : JournalRestart SpecJournal := {
  reopen j := match spec_recover j with Ok rv => Ok (j, rv) | Err e => Err e end;
}.
Next Obligation.
  intros j j' rv Hi Hre. cbn in Hre. injection Hre as <- <-. split; [done|].
  destruct (recover_ok j _ Hi eq_refl) as [Ht Hn]. split; [exact Ht|]. split; [exact Hn|reflexivity].
Qed.

(** ** Witnesses *)

Definition sample_accept : RegistryOp := OpAccept (sample_identity 5).

Lemma registry_invariant_witness :
  reg_inv spec_registry /\ reg_inv (registry_step sample_accept spec_registry).2.
Proof.
  split; [exact spec_registry_inv|].
  destruct (registry_step sample_accept spec_registry) as [evs r'] eqn:E.
  exact (registry_invariant sample_accept spec_registry evs r' spec_registry_inv E).
Defined.

Lemma seen_filter_sound_witness :
  filter_wf ∅ /\ may_contain (seen_insert ∅ 5) 5 = true.
Proof.
  split; [exact filter_wf_empty|].
  exact (proj1 (seen_filter_sound ∅ 5 5 filter_wf_empty)).
Defined.

Definition fenced_registry : Registry SpecJournal :=
  require_recovery (txt "journal lost") spec_registry.

Lemma fenced_registry_frozen_witness :
  registry_step sample_accept fenced_registry = ([], fenced_registry).
Proof. eapply fenced_registry_frozen; vm_compute; reflexivity. Defined.

(** One operation from acceptance through its commit, with repeated attempts
    and a restart in between. *)
Definition sample_history : list HistoryStep := [
  HOp (OpAccept (sample_identity 5)); HOp (OpAccept (sample_identity 5));
  HOp (OpMarkExecuting 5 (Some 9%N)); HOp (OpMarkPrepared 5 9); HOp (OpBeginCommit 5 9);
  HOp (OpBeginCommit 5 9); HRestart; HOp (OpAccept (sample_identity 5));
  HOp (OpFinishEffect 5 (ReceiptApplied Durable None)); HOp (OpAccept (sample_identity 6)) ].

Definition sample_history_events : list RegistryEvent :=
  match file_open OpenDone 7 [] [] empty_disk with
  | (Ok (j, _), _) => (run_history sample_history (start_registry 2 j)).1
  | _ => []
  end.

Lemma sample_history_runs :
  sample_history_events = [EvAccepted 5; EvCommit 5; EvAccepted 6].
Proof. vm_compute. reflexivity. Qed.

(** The journal a first open creates. *)
Lemma opened_registry_inv j rv d :
  file_open OpenDone 7 [] [] empty_disk = (Ok (j, rv), d) -> reg_inv (start_registry 2 j).
Proof.
  intros Ho. destruct (file_open_fresh OpenDone 7 [] [] j rv d ltac:(done) Ho)
    as (Hi & _ & _ & _ & Ht).
  apply start_registry_inv; [exact Hi|].
  change (tr_ops (file_truth j) = ∅). by rewrite Ht.
Qed.

Lemma at_most_once_witness : NoDup sample_history_events.
Proof.
  unfold sample_history_events.
  destruct (file_open OpenDone 7 [] [] empty_disk) as [[[j rv]|e] d] eqn:Eo; [|constructor].
  destruct (run_history sample_history (start_registry 2 j)) as [evs r'] eqn:Er.
  exact (at_most_once sample_history (start_registry 2 j) evs r' j
    (opened_registry_inv j rv d Eo) (le_S 1 1 (le_n 1)) eq_refl Er).
Defined.

Lemma lifecycle_forward_witness :
  exists j', rg_journal (run_history sample_history spec_registry).2 = Some j' /\
    truth_le (sj_truth spec_start) (sj_truth j').
Proof.
  destruct (run_history sample_history spec_registry) as [evs r'] eqn:Er.
  exact (lifecycle_forward sample_history spec_registry evs r' spec_start
    spec_registry_inv (le_S 1 1 (le_n 1)) eq_refl Er).
Defined.

Definition sample_new : OperationSnapshot := sample_snapshot 5 Accepted.

Lemma accept_admits_witness :
  exists r', accept (sample_identity 5) spec_registry = (Ok AdmissionAccepted, r') /\
    query 5 r' = Found sample_new.
Proof.
  destruct (accept_admits (sample_identity 5) spec_registry tt
    (append_snapshot sample_new spec_registry).2) as (r' & Ha & Hq & _);
    [exact spec_registry_inv|vm_compute; reflexivity..|]. exact (ex_intro _ r' (conj Ha Hq)).
Defined.

Definition committing_ops : list HistoryStep := take 5 sample_history.
Definition committing_registry : Registry SpecJournal := (run_history committing_ops spec_registry).2.

Lemma committing_registry_inv : reg_inv committing_registry.
Proof.
  unfold committing_registry. destruct (run_history committing_ops spec_registry) as [evs r'] eqn:E.
  eapply run_history_inv; [exact spec_registry_inv| |exact E]. cbn. lia.
Qed.

Definition sample_receipt : EffectReceipt := ReceiptApplied Durable (Some (txt "sha256:1")).

Definition sample_finished : OperationSnapshot :=
  {| os_identity := sample_identity 5;
     os_state := Terminal (Some 9%N) (receipt_terminal sample_receipt) |}.

Lemma finish_effect_exact_witness :
  exists r', finish_effect 5 sample_receipt committing_registry = (Ok tt, r') /\
    query 5 r' = Found sample_finished.
Proof.
  destruct (finish_effect_exact 5 sample_receipt committing_registry
    (sample_snapshot 5 (CommitStarted 9%N)) committing_registry_inv ltac:(vm_compute; reflexivity)
    ltac:(vm_compute; reflexivity) tt (append_snapshot sample_finished committing_registry).2)
    as (r' & Hr & Hq & _); [vm_compute; reflexivity|].
  exact (ex_intro _ r' (conj Hr Hq)).
Defined.

Lemma cancel_beats_accept_witness :
  EvAccepted 5 ∉ (run_history sample_history (cancel (sample_identity 5) spec_registry).2).1.
Proof.
  destruct (cancel (sample_identity 5) spec_registry) as [[u|e] r1] eqn:Ec; [|vm_compute in Ec; discriminate].
  destruct (run_history sample_history r1) as [evs r2] eqn:Er.
  destruct (cancel_beats_accept (sample_identity 5) spec_registry u r1 spec_start sample_history evs r2
    spec_registry_inv (le_S 1 1 (le_n 1)) eq_refl Ec Er) as (_ & Hni & _).
  cbn [snd]. rewrite Er. exact Hni.
Defined.

Definition sample_recovery : OperationJournalRecovery :=
  {| rv_last_seq := 3; rv_authority_epoch := 2;
     rv_operations := [sample_snapshot 5 (Prepared 9); sample_snapshot 6 (Terminal None CancelledBeforeCommit)];
     rv_truncated_tail := false; rv_compacted_from := None |}.

Definition recovered_spec : SpecJournal := {| sj_seq := 3; sj_truth := truth_of sample_recovery |}.

Lemma sample_recovery_ids : NoDup (os_id <$> rv_operations sample_recovery).
Proof. apply (bool_decide_unpack _). vm_compute. exact I. Qed.

Lemma recover_restores_witness :
  exists r : Registry SpecJournal, recover 2 (Some recovered_spec) sample_recovery = Ok r /\
    query 5 r = Found (sample_snapshot 5 (Prepared 9)) /\
    (accept (sample_identity 6) r).1 <> Ok AdmissionAccepted.
Proof.
  destruct (recover_restores 2 recovered_spec sample_recovery) as (r & Hr & _ & _ & Hlive & Hdead).
  - lia.
  - exact sample_recovery_ids.
  - apply ops_map_wf, sample_recovery_ids.
  - reflexivity.
  - repeat constructor.
  - exists r. split; [exact Hr|]. split.
    + apply (Hlive (sample_snapshot 5 (Prepared 9))); [left|reflexivity].
    + apply (Hdead (sample_snapshot 6 (Terminal None CancelledBeforeCommit)));
        [right; left|reflexivity].
Defined.

Lemma guards_match_journal_witness :
  rg_recovery_required (registry_step (OpFinishEffect 5 sample_receipt) committing_registry).2 = None.
Proof.
  destruct (rg_journal committing_registry) as [j|] eqn:Ej; [|vm_compute in Ej; discriminate].
  destruct (registry_step (OpFinishEffect 5 sample_receipt) committing_registry) as [evs r'] eqn:E.
  eapply (guards_match_journal (OpFinishEffect 5 sample_receipt) committing_registry evs r' j);
    [exact committing_registry_inv|exact Ej|vm_compute; reflexivity|exact I|exact E].
Defined.

(** The file journal against the specification, on a first append. *)
Lemma sample_append_acknowledged :
  match file_open OpenDone 7 [] [] empty_disk with
  | (Ok (j, _), _) => is_Ok (file_append_and_sync (EpochAdvanced 1 2) j).1
  | _ => false
  end = true.
Proof. vm_compute. reflexivity. Qed.

Lemma file_journal_refines_spec_witness :
  match file_open OpenDone 7 [] [] empty_disk with
  | (Ok (j, _), _) =>
      match file_append_and_sync (EpochAdvanced 1 2) j with
      | (Ok r, j') => or_transition r = EpochAdvanced 1 2 /\
          exists ra a', spec_append (EpochAdvanced 1 2)
            {| sj_seq := 0; sj_truth := file_truth j |} = (Ok ra, a') /\ abstracts j' a'
      | (Err _, _) => False
      end
  | _ => False
  end.
Proof.
  pose proof sample_append_acknowledged as Hok.
  destruct (file_open OpenDone 7 [] [] empty_disk) as [[[j rv]|e] d] eqn:Eo; [|discriminate].
  destruct (file_append_and_sync (EpochAdvanced 1 2) j) as [[r|e] j'] eqn:Ea; [|discriminate].
  destruct (file_open_fresh OpenDone 7 [] [] j rv d ltac:(discriminate) Eo) as (Hi & _).
  exact (proj1 (file_journal_refines_spec (EpochAdvanced 1 2) j
    {| sj_seq := 0; sj_truth := file_truth j |} (Ok r) j' (conj Hi eq_refl) Ea)).
Defined.
