(* ===== verification/Kernel.v ===== *)
(** [CoreAuthority] of agent-core/kernel/mod.rs: the authority epoch over the
    operation registry, the epoch-gated operations of the port, and the
    startup reconciliation of what a journal recovered.

    The workspace reconciler and the effect broker are values of the traits
    Core calls; what they answer for one effect context is an argument. *)

From S2P Require Import Prelude Text Digest Jcs Operation Journal Wal Intent Registry.

Definition DEFAULT_OPERATION_REGISTRY_CAPACITY : nat := 1024.

(** [trait EffectReconciler] (agent-contracts/operation.rs). *)
Record EffectReconciler : Type := {
  reconcile : OperationEffectContext -> AgentResult EffectReconciliation;
  recover_orphans : AgentResult unit;
}.

(** [EffectBroker::reconcile_reservation] (agent-core/port.rs). *)
Abbreviation ReservationLookup :=
  (OperationEffectContext -> AgentResult (option EffectReconciliation)).

(** ** Startup reconciliation *)

(** The first half of [reconcile_recovered_effect]: the evidence the adapters
    give for one effect, or why the operation stays unresolved. *)
Definition resolve_evidence (reconciler : option EffectReconciler)
    (broker : option ReservationLookup) (context : OperationEffectContext) :
    result EffectReconciliation text :=
  match (fun r => reconcile r context) <$> reconciler with
  | Some (Ok RecNotManaged) | None =>
      match (fun b => b context) <$> broker with
      | None | Some (Ok None) =>
          match reconciler with
          | None => Err (txt "operation has an unresolved effect and no recovery adapter")
          | Some _ =>
              Err (txt "operation effect is not managed by the configured recovery adapter")
          end
      | Some (Ok (Some candidate)) =>
          match reconciliation_validate candidate with
          | Ok _ => Ok candidate
          | Err error =>
              Err (txt "operation broker reconciliation returned invalid evidence: " ++ error)
          end
      | Some (Err error) =>
          Err (txt "operation effect reconciliation failed: " ++ display_error error)
      end
  | Some (Ok result) => Ok result
  | Some (Err error) =>
      Err (txt "operation effect reconciliation failed: " ++ display_error error)
  end.

(** The second half: the terminal the evidence justifies for the recovered
    state and whether Core stays fenced, or why it justifies none. *)
Definition recovered_terminal (state : OperationState) (evidence : EffectReconciliation) :
    result (OperationTerminal * bool) text :=
  match evidence with
  | RecNotManaged =>
      Err (txt "operation effect is not managed by the configured recovery adapter")
  | RecAmbiguous reason => Err (txt "operation effect is ambiguous: " ++ reason)
  | RecNotApplied evidence =>
      Ok (NotApplied
            (match evidence with
             | Some evidence =>
                 txt "startup reconciliation proved the effect was not applied (" ++ evidence
                   ++ txt ")"
             | None => txt "startup reconciliation proved the effect was not applied"
             end), false)
  | RecApplied durability evidence =>
      let early_application :=
        match state with Executing _ | Prepared _ => true | _ => false end in
      let reconciler_reported_durability_failure :=
        match durability with DurabilityFailed _ => true | Durable => false end in
      let durability :=
        if early_application
        then DurabilityFailed (txt
          "recovery evidence shows the effect applied before Core durably recorded CommitStarted")
        else durability in
      Ok (Applied durability evidence,
          early_application || reconciler_reported_durability_failure)
  | RecCompletedValue _ =>
      match state with
      | Executing _ => Ok (CompletedValue, false)
      | _ => Err (txt
          "operation effect reported CompletedValue; that settlement is only valid from Executing for non-transactional process or remote tools")
      end
  end.

Section kernel.
Context {J : Type} `{OJ : OperationJournal J}.

(** [false] ends the pass: the journal no longer accepts transitions. *)
Definition reconcile_recovered_effect (reconciler : option EffectReconciler)
    (broker : option ReservationLookup) (snapshot : OperationSnapshot) (effect_id : N)
    (r : Registry J) : bool * Registry J :=
  let context := {| oc_identity := os_identity snapshot; oc_effect_id := effect_id |} in
  match resolve_evidence reconciler broker context with
  | Err reason => (true, require_recovery reason r)
  | Ok result =>
      match recovered_terminal (os_state snapshot) result with
      | Err reason => (true, require_recovery reason r)
      | Ok (terminal, keep_fenced) =>
          match recover_terminal (os_id snapshot) (os_state snapshot) (Some effect_id)
                  terminal r with
          | (Err error, r1) =>
              (false, require_recovery
                 (txt "operation reconciliation could not be recorded: "
                    ++ display_error error) r1)
          | (Ok _, r1) =>
              (true,
               if keep_fenced
               then require_recovery
                      (txt "operation effect applied before the Core commit boundary") r1
               else r1)
          end
      end
  end.

(** The body of the loop of [reconcile_recovered_operations] for one snapshot. *)
Definition reconcile_snapshot (reconciler : option EffectReconciler)
    (broker : option ReservationLookup) (snapshot : OperationSnapshot) (r : Registry J) :
    bool * Registry J :=
  match os_state snapshot with
  | Terminal _ (OutcomeUnknown error) | Terminal _ (Applied (DurabilityFailed error) _) =>
      (true, require_recovery
         (txt "operation recovered terminal truth that still requires recovery: " ++ error) r)
  | Terminal _ _ => (true, r)
  | Accepted | Executing None =>
      match recover_terminal (os_id snapshot) (os_state snapshot) None CancelledBeforeCommit r with
      | (Err error, r1) =>
          (false, require_recovery
             (txt "startup could not terminalize operation before commit: "
                ++ display_error error) r1)
      | (Ok _, r1) => (true, r1)
      end
  | Executing (Some effect_id) | Prepared effect_id | CommitStarted effect_id =>
      reconcile_recovered_effect reconciler broker snapshot effect_id r
  end.

Fixpoint reconcile_loop (reconciler : option EffectReconciler)
    (broker : option ReservationLookup) (snapshots : list OperationSnapshot)
    (r : Registry J) : Registry J :=
  match snapshots with
  | [] => r
  | snapshot :: rest =>
      match reconcile_snapshot reconciler broker snapshot r with
      | (true, r1) => reconcile_loop reconciler broker rest r1
      | (false, r1) => r1
      end
  end.

Definition reconcile_recovered_operations (reconciler : option EffectReconciler)
    (broker : option ReservationLookup) (r : Registry J) : Registry J :=
  let r1 := reconcile_loop reconciler broker (recovered_snapshots r) r in
  match recover_orphans <$> reconciler with
  | Some (Err error) =>
      require_recovery (txt "startup could not contain leftover process trees: "
                          ++ display_error error) r1
  | _ => r1
  end.

(** ** The Core authority *)

Record Core : Type := {
  co_run_id : N;
  co_epoch : N;
  co_operations : Registry J;
}.

Definition set_operations (c : Core) (r : Registry J) : Core :=
  {| co_run_id := co_run_id c; co_epoch := co_epoch c; co_operations := r |}.

Definition set_epoch (c : Core) (epoch : N) : Core :=
  {| co_run_id := co_run_id c; co_epoch := epoch; co_operations := co_operations c |}.

(** A method of the registry, called through Core. *)
Definition operations {A} (m : M (Registry J) AgentError A) : M Core AgentError A := fun c =>
  match m (co_operations c) with (res, r) => (res, set_operations c r) end.

(** [try_new]: [run_id] is the fresh [RunId]; the local broker of the default
    configuration manages no reservation. The registry of a failed construction
    is dropped with the Core, but what it appended stays in the journal. *)
Definition try_new (run_id : N) (operation_journal : option J)
    (reconciler : option EffectReconciler) (broker : ReservationLookup) :
    AgentResult Core :=
  let? recovery :=
    match operation_journal with
    | Some journal => recover_journal journal
    | None => Ok recovery_default
    end in
  let recovered_epoch := rv_authority_epoch recovery in
  let? operations := recover DEFAULT_OPERATION_REGISTRY_CAPACITY operation_journal recovery in
  let? started :=
    match operation_journal with
    | Some _ =>
        match checked_succ recovered_epoch with
        | None => Err (RecoveryRequired (txt "Core authority epoch is exhausted"))
        | Some next =>
            match persist_epoch_advance recovered_epoch next operations with
            | (Err error, _) => Err error
            | (Ok _, operations) => Ok (next, operations)
            end
        end
    | None => Ok (recovered_epoch, operations)
    end in
  Ok {| co_run_id := run_id; co_epoch := started.1;
        co_operations := reconcile_recovered_operations reconciler (Some broker) started.2 |}.

(** ** Operations of the port *)

Definition ensure_mutation_allowed : M Core AgentError unit := operations ensure_healthy.

Definition require_operation_recovery (reason : text) (c : Core) : Core :=
  set_operations c (require_recovery reason (co_operations c)).

(** The epoch comparison the gated operations share. *)
Definition require_current_epoch (expected_epoch : N) : M Core AgentError unit :=
  do c <- get ;;
  if (co_epoch c =? expected_epoch)%N then ret tt
  else fail (StaleEpoch expected_epoch (co_epoch c)).

Definition advance_authority_epoch (expected : N) : M Core AgentError N :=
  do_ ensure_mutation_allowed ;;
  do next <- lift (ok_or (checked_succ expected)
               (RecoveryRequired (txt "Core authority epoch is exhausted"))) ;;
  do c <- get ;;
  if negb (co_epoch c =? expected)%N
  then fail (RecoveryRequired (txt "Core authority epoch mismatch"))
  else
    do_ operations (persist_epoch_advance expected next) ;;
    do_ modify (fun c => set_epoch c next) ;;
    ret next.

Definition finish_value_operation_if_current (expected_epoch operation_id : N)
    (argument_digest : Digest) : M Core AgentError unit :=
  do_ ensure_mutation_allowed ;;
  do_ require_current_epoch expected_epoch ;;
  operations (finish_value operation_id argument_digest expected_epoch).

Definition cancel_operation (identity : ToolOperationIdentity) : M Core AgentError unit :=
  do_ ensure_mutation_allowed ;;
  operations (cancel identity).

Inductive OperationCancelDisposition : Type :=
| DispositionCancelled (effective_epoch : N) (result : OperationQueryResult)
| DispositionAlreadySettled (result : OperationQueryResult).

Definition cancel_operation_and_advance (identity : ToolOperationIdentity) (expected_epoch : N) :
    M Core AgentError OperationCancelDisposition :=
  do_ lift (map_err InvalidRequest (identity_validate identity)) ;;
  do_ ensure_mutation_allowed ;;
  do c <- get ;;
  if negb (co_epoch c =? expected_epoch)%N
  then fail (RecoveryRequired (txt "Core authority epoch mismatch"))
  else
    do next <- lift (ok_or (checked_succ expected_epoch)
                 (RecoveryRequired (txt "Core authority epoch is exhausted"))) ;;
    do cancelled <- operations (cancel_and_persist_epoch identity expected_epoch next) ;;
    match cancelled with
    | Registry.Cancelled result =>
        do_ modify (fun c => set_epoch c next) ;;
        ret (DispositionCancelled next result)
    | AlreadySettled result => ret (DispositionAlreadySettled result)
    end.

Definition begin_operation_commit (operation_id effect_id : N) (argument_digest : Digest) :
    M Core AgentError unit :=
  do_ ensure_mutation_allowed ;;
  do c <- get ;;
  match query operation_id (co_operations c) with
  | Found snapshot =>
      if negb (bool_decide (ti_argument_digest (os_identity snapshot) = argument_digest))
      then fail (InvalidRequest (txt "operation argument digest does not match admission"))
      else operations (begin_commit operation_id effect_id)
  | _ => fail (InvalidRequest (txt "unknown or expired operation"))
  end.

Definition begin_operation_commit_if_current (expected_epoch operation_id effect_id : N)
    (argument_digest : Digest) : M Core AgentError unit :=
  do_ ensure_mutation_allowed ;;
  do_ require_current_epoch expected_epoch ;;
  begin_operation_commit operation_id effect_id argument_digest.

Definition mark_operation_executing_if_current (expected_epoch operation_id : N)
    (effect_id : option N) : M Core AgentError unit :=
  do_ ensure_mutation_allowed ;;
  do_ require_current_epoch expected_epoch ;;
  operations (mark_executing operation_id effect_id).

Definition finish_operation_effect (operation_id : N) (receipt : EffectReceipt) :
    M Core AgentError unit :=
  do_ ensure_mutation_allowed ;;
  operations (finish_effect operation_id receipt).

Definition abort_prepared_operation (operation_id effect_id : N) (argument_digest : Digest) :
    M Core AgentError unit :=
  do_ ensure_mutation_allowed ;;
  operations (abort_prepared operation_id effect_id argument_digest).

End kernel.
Arguments Core : clear implicits.

(** ** Admission *)

Section admission.
Context {J : Type} `{OJ : OperationJournal J} `{CD : Codec} `{JN : JsonNumber}.

Record ToolCall : Type := {
  tl_id : text;
  tl_name : text;
  tl_arguments : Json;
}.

(** A permit is the identity it was minted for; permits are linear in the
    source, so a client consumes each at most once. *)
Inductive ToolOperationAdmission : Type :=
| ToolAccepted (snapshot : OperationSnapshot) (permit : ToolOperationIdentity)
| ToolAlreadyKnown (snapshot : OperationSnapshot).

(** [ArgumentDigest::from_json(&call.arguments)]. *)
Definition call_digest (call : ToolCall) : option Digest := from_json sha256 (tl_arguments call).

(** The negation of the guard that admission, publication and dispatch share. *)
Definition call_matches (run_id : N) (identity : ToolOperationIdentity) (call : ToolCall) : bool :=
  (ti_run_id identity =? run_id)%N
  && bool_decide (ti_call_id identity = tl_id call)
  && bool_decide (ti_tool_name identity = tl_name call)
  && bool_decide (Some (ti_argument_digest identity) = call_digest call).

Definition admit_tool_operation (identity : ToolOperationIdentity) (call : ToolCall)
    (generation : N) : M (Core J) AgentError ToolOperationAdmission :=
  do_ lift (map_err InvalidRequest (identity_validate identity)) ;;
  do_ ensure_mutation_allowed ;;
  do c <- get ;;
  if negb (call_matches (co_run_id c) identity call)
     || negb (ti_generation identity =? generation)%N
  then fail (InvalidRequest (txt
         "tool admission rejected: operation identity does not match the request"))
  else if negb (generation =? co_epoch c)%N
  then
    match query (ti_operation_id identity) (co_operations c) with
    | Found snapshot =>
        if bool_decide (os_identity snapshot = identity) then ret (ToolAlreadyKnown snapshot)
        else fail (InvalidRequest (txt
               "operation was reused with a different identity or argument digest"))
    | _ => fail (InvalidRequest (txt
             "tool admission rejected by the Core authority fence"))
    end
  else
    do admission <- operations (accept identity) ;;
    match admission with
    | AdmissionAccepted =>
        ret (ToolAccepted {| os_identity := identity; os_state := Accepted |} identity)
    | AdmissionDuplicate snapshot => ret (ToolAlreadyKnown snapshot)
    end.

End admission.
