(* ===== verification/KernelStartup.v ===== *)
(** Startup of Core: what reconciliation may write for a recovered operation,
    when Core comes up ready, and the epoch fence of a new process. *)

From S2P Require Import Prelude Text Digest Operation Journal Intent Registry RegistryFacts.
From S2P Require Import RegistrySteps RegistryTheorems Kernel.

(** ** What the evidence justifies *)

(** The terminal state startup may record for a recovered operation. *)
Definition startup_verdict (reconciler : option EffectReconciler)
    (broker : option ReservationLookup) (s : OperationSnapshot) : option OperationState :=
  match os_state s with
  | Terminal _ _ => None
  | Accepted | Executing None => Some (Terminal None CancelledBeforeCommit)
  | Executing (Some effect_id) | Prepared effect_id | CommitStarted effect_id =>
      match resolve_evidence reconciler broker
              {| oc_identity := os_identity s; oc_effect_id := effect_id |} with
      | Ok evidence =>
          match recovered_terminal (os_state s) evidence with
          | Ok (terminal, _) => Some (Terminal (Some effect_id) terminal)
          | Err _ => None
          end
      | Err _ => None
      end
  end.

(** Truth that needs no operator: terminal, with a known and durable outcome. *)
Definition settled (state : OperationState) : bool :=
  match state with
  | Terminal _ (OutcomeUnknown _) | Terminal _ (Applied (DurabilityFailed _) _) => false
  | Terminal _ _ => true
  | _ => false
  end.

(** The fence of the verdict covers exactly the outcomes that are not settled. *)
Lemma recovered_terminal_settled state evidence terminal keep e :
  recovered_terminal state evidence = Ok (terminal, keep) ->
  keep = negb (settled (Terminal e terminal)).
Proof.
  destruct evidence as [| |d ev| |]; cbn; try done.
  - by intros [= <- <-].
  - destruct state, d; cbn; by intros [= <- <-].
  - destruct state; by intros [= <- <-].
Qed.

Section startup.
Context {J : Type} `{OL : OperationJournalLaws J}.

Lemma require_recovery_fences reason (r : Registry J) :
  rg_recovery_required (require_recovery reason r) <> None.
Proof. unfold require_recovery. by destruct (rg_recovery_required r) eqn:E; [rewrite E|]. Qed.

Lemma require_recovery_records reason (r : Registry J) :
  rg_records (require_recovery reason r) = rg_records r.
Proof. unfold require_recovery. by destruct (rg_recovery_required r). Qed.

Lemma recover_terminal_records id expected e t (r r' : Registry J) res :
  reg_inv r -> recover_terminal id expected e t r = (res, r') ->
  match res with
  | Ok _ => exists p, rg_records r !! id = Some p /\ os_state p = expected /\
      rg_records r' =
        <[id := {| os_identity := os_identity p; os_state := Terminal e t |}]> (rg_records r)
  | Err _ => rg_records r' = rg_records r
  end.
Proof.
  intros Hinv. unfold recover_terminal.
  destruct (map_err _ _); [|by intros [= <- <-]].
  destruct (expected_effect_id expected); [|by intros [= <- <-]].
  destruct (negb (bool_decide (_ = e))); [by intros [= <- <-]|].
  destruct (rg_records r !! id) as [p|] eqn:Ep; [|by intros [= <- <-]].
  destruct (bool_decide_reflect (os_state p = expected)) as [Hst|]; cbn [negb];
    [|by intros [= <- <-]].
  destruct (append_snapshot _ r) as [[u|err] r1] eqn:Ea; intros [= <- <-].
  - exists p. refine (conj eq_refl (conj Hst _)).
    apply append_transition_cases in Ea as (_ & Hr & _).
    pose proof (records_id _ _ _ Hinv Ep) as <-.
    unfold install_terminal, set_memory. cbn [rg_records]. by rewrite Hr.
  - by eapply append_refused in Ea as (_ & _ & _ & ?).
Qed.

(** One recovered snapshot, reconciled. *)
Record snapshot_reconciled (reconciler : option EffectReconciler)
    (broker : option ReservationLookup) (s : OperationSnapshot) (ok : bool)
    (r r' : Registry J) : Prop := {
  sr_inv : reg_inv r';
  sr_evolves : evolves r r';
  sr_others : forall k, k <> os_id s -> rg_records r' !! k = rg_records r !! k;
  sr_here : exists s', rg_records r' !! os_id s = Some s' /\
    os_identity s' = os_identity s /\
    (s' = s \/ startup_verdict reconciler broker s = Some (os_state s')) /\
    (rg_recovery_required r' = None -> settled (os_state s') = true);
  sr_stopped : ok = false -> rg_recovery_required r' <> None;
}.

(** The three ways a snapshot can be left: as it is, fenced, or as the verdict. *)
Lemma reconciled_kept rec b s ok (r : Registry J) :
  reg_inv r -> rg_records r !! os_id s = Some s -> settled (os_state s) = true ->
  (ok = false -> rg_recovery_required r <> None) -> snapshot_reconciled rec b s ok r r.
Proof. intros Hinv Hs Ht Hok. split; [done|reflexivity|done| |done]. exists s. auto. Qed.

Lemma reconciled_fenced rec b s ok reason (r r1 : Registry J) :
  reg_inv r1 -> evolves r r1 -> rg_records r1 = rg_records r ->
  rg_records r !! os_id s = Some s ->
  snapshot_reconciled rec b s ok r (require_recovery reason r1).
Proof.
  intros Hinv He Hr Hs. destruct (require_recovery_keeps reason r1 Hinv) as [Hi He1].
  pose proof (require_recovery_fences reason r1) as Hf.
  split; [done|by etrans| | |done].
  - intros k _. by rewrite require_recovery_records, Hr.
  - exists s. rewrite require_recovery_records, Hr.
    refine (conj Hs (conj eq_refl (conj (or_introl eq_refl) _))). by intros Hn.
Qed.

Lemma reconciled_written rec b s e t (keep : bool) reason (r r1 : Registry J) u :
  reg_inv r -> rg_records r !! os_id s = Some s ->
  recover_terminal (os_id s) (os_state s) e t r = (Ok u, r1) ->
  startup_verdict rec b s = Some (Terminal e t) -> keep = negb (settled (Terminal e t)) ->
  snapshot_reconciled rec b s true r (if keep then require_recovery reason r1 else r1).
Proof.
  intros Hinv Hs Hrt Hv Hk.
  destruct (recover_terminal_keeps _ _ _ _ _ _ _ Hinv Hrt) as [Hi He].
  destruct (recover_terminal_records _ _ _ _ _ _ _ Hinv Hrt) as (p & Hp & _ & Hr).
  rewrite Hs in Hp. injection Hp as <-.
  destruct (require_recovery_keeps reason r1 Hi) as [Hi1 He1].
  assert (Hrk : rg_records (if keep then require_recovery reason r1 else r1) = rg_records r1)
    by (destruct keep; [apply require_recovery_records|done]).
  split.
  - by destruct keep.
  - destruct keep; [by etrans|done].
  - intros k Hne. by rewrite Hrk, Hr, lookup_insert_ne.
  - eexists. split; [rewrite Hrk, Hr; apply lookup_insert_eq|].
    split; [done|]. split; [by right|]. intros Hn. cbn [os_state].
    destruct keep; [by apply require_recovery_fences in Hn|].
    by destruct (settled (Terminal e t)).
  - done.
Qed.

Lemma reconcile_snapshot_ok rec b s (r r' : Registry J) ok :
  reg_inv r -> rg_records r !! os_id s = Some s ->
  reconcile_snapshot rec b s r = (ok, r') -> snapshot_reconciled rec b s ok r r'.
Proof.
  intros Hinv Hs.
  assert (Hfence : forall reason r1 (m : AgentResult unit) e t,
    recover_terminal (os_id s) (os_state s) e t r = (m, r1) -> is_Ok m = false ->
    snapshot_reconciled rec b s false r (require_recovery reason r1)).
  { intros reason r1 m e t Hrt Hm. destruct m as [|err]; [done|].
    destruct (recover_terminal_keeps _ _ _ _ _ _ _ Hinv Hrt) as [Hi He].
    by apply reconciled_fenced;
      [..|apply (recover_terminal_records _ _ _ _ _ _ _ Hinv Hrt)|]. }
  assert (Heff : forall effect_id, startup_verdict rec b s =
      match resolve_evidence rec b {| oc_identity := os_identity s; oc_effect_id := effect_id |} with
      | Ok ev => match recovered_terminal (os_state s) ev with
                 | Ok (t, _) => Some (Terminal (Some effect_id) t) | Err _ => None end
      | Err _ => None
      end ->
    reconcile_recovered_effect rec b s effect_id r = (ok, r') ->
    snapshot_reconciled rec b s ok r r').
  { intros e Hv. unfold reconcile_recovered_effect.
    destruct (resolve_evidence _ _ _) as [ev|reason];
      [|intros [= <- <-]; by apply reconciled_fenced].
    destruct (recovered_terminal _ ev) as [[t keep]|reason] eqn:Ert;
      [|intros [= <- <-]; by apply reconciled_fenced].
    destruct (recover_terminal _ _ _ t r) as [[u|err] r1] eqn:Ert1; intros [= <- <-].
    - eapply reconciled_written; [done..|by eapply recovered_terminal_settled].
    - by eapply Hfence. }
  assert (Hcancel : startup_verdict rec b s = Some (Terminal None CancelledBeforeCommit) ->
    match recover_terminal (os_id s) (os_state s) None CancelledBeforeCommit r with
    | (Err error, r1) => (false, require_recovery
         (txt "startup could not terminalize operation before commit: " ++ display_error error) r1)
    | (Ok _, r1) => (true, r1)
    end = (ok, r') -> snapshot_reconciled rec b s ok r r').
  { intros Hv. destruct (recover_terminal _ _ _ _ r) as [[u|err] r1] eqn:Ert; intros [= <- <-].
    - by apply (reconciled_written rec b s None CancelledBeforeCommit false [] r r1 u).
    - by eapply Hfence. }
  unfold reconcile_snapshot.
  destruct (os_state s) as [|[e|]|e|e|e t] eqn:Est.
  1, 3: apply Hcancel; unfold startup_verdict; by rewrite Est.
  1-3: apply Heff; unfold startup_verdict; by rewrite Est.
  destruct t as [| | |[|err] ev|err|]; intros [= <- <-];
    try (by apply reconciled_fenced); apply reconciled_kept; try done; by rewrite Est.
Qed.

(** ** The whole pass *)

Record pass_reconciled (reconciler : option EffectReconciler)
    (broker : option ReservationLookup) (ids : list N) (r r' : Registry J) : Prop := {
  pr_inv : reg_inv r';
  pr_evolves : evolves r r';
  pr_others : forall k, k ∉ ids -> rg_records r' !! k = rg_records r !! k;
  pr_here : forall k s, k ∈ ids -> rg_records r !! k = Some s ->
    exists s', rg_records r' !! k = Some s' /\ os_identity s' = os_identity s /\
      (s' = s \/ startup_verdict reconciler broker s = Some (os_state s')) /\
      (rg_recovery_required r' = None -> settled (os_state s') = true);
}.

Lemma reconcile_loop_ok rec b l (r : Registry J) :
  reg_inv r -> NoDup (os_id <$> l) ->
  (forall s, s ∈ l -> rg_records r !! os_id s = Some s) ->
  pass_reconciled rec b (os_id <$> l) r (reconcile_loop rec b l r).
Proof.
  revert r. induction l as [|s l IH]; intros r Hinv Hnd Hin; cbn [reconcile_loop].
  { split; [done|reflexivity|done|]. intros k x Hk. by apply not_elem_of_nil in Hk. }
  apply NoDup_cons in Hnd as [Hni Hnd].
  destruct (reconcile_snapshot rec b s r) as [ok r1] eqn:E.
  apply reconcile_snapshot_ok in E as [Hi He Ho (s1 & Hs1 & Hid1 & Hv1 & Hr1) Hst];
    [|done|apply Hin; by left].
  destruct ok.
  - assert (Hin1 : forall x, x ∈ l -> rg_records r1 !! os_id x = Some x).
    { intros x Hx. rewrite Ho; [apply Hin; by right|].
      intros Heq. apply Hni. rewrite <- Heq. by apply list_elem_of_fmap_2. }
    destruct (IH r1 Hi Hnd Hin1) as [Hi2 He2 Ho2 Hh2]. split; [done|by etrans| |].
    + intros k [Hk Hkl]%not_elem_of_cons. rewrite Ho2, Ho; done.
    + intros k x [->|Hk]%elem_of_cons Hx.
      * rewrite (Hin s) in Hx by (by left). injection Hx as <-. exists s1.
        rewrite Ho2 by done. split; [done|]. split; [done|]. split; [done|].
        intros Hf. apply Hr1. destruct (rg_recovery_required r1) eqn:Ef; [|done].
        by apply (ev_fence _ _ He2) in Hf; [|rewrite Ef].
      * apply (Hh2 k x Hk). rewrite Ho; [done|]. by intros ->.
  - specialize (Hst eq_refl). split; [done|done| |].
    + intros k [Hk _]%not_elem_of_cons. by apply Ho.
    + intros k x Hk Hx. destruct (decide (k = os_id s)) as [->|Hne].
      * rewrite (Hin s) in Hx by (by left). injection Hx as <-. by exists s1.
      * exists x. rewrite Ho by done.
        refine (conj Hx (conj eq_refl (conj (or_introl eq_refl) _))). by intros Hn.
Qed.

Lemma recovered_snapshots_elem (r : Registry J) s :
  reg_inv r -> s ∈ recovered_snapshots r <-> rg_records r !! os_id s = Some s.
Proof.
  intros Hinv. unfold recovered_snapshots, sort_by_id. rewrite merge_sort_Permutation.
  rewrite list_elem_of_fmap. split.
  - intros ([id x] & -> & Hx%elem_of_map_to_list). cbn.
    by rewrite (records_id _ _ _ Hinv Hx).
  - intros Hs. exists (os_id s, s). split; [done|]. by apply elem_of_map_to_list.
Qed.

Lemma recovered_snapshots_nodup (r : Registry J) :
  reg_inv r -> NoDup (os_id <$> recovered_snapshots r).
Proof.
  intros Hinv. unfold recovered_snapshots, sort_by_id. rewrite merge_sort_Permutation.
  rewrite map_to_list_snd_ids_of; [apply NoDup_fst_map_to_list|].
  intros id s Hs. by eapply records_id.
Qed.

Lemma startup_pass rec b (r : Registry J) :
  reg_inv r ->
  pass_reconciled rec b (os_id <$> recovered_snapshots r) r
    (reconcile_recovered_operations rec b r).
Proof.
  intros Hinv.
  destruct (reconcile_loop_ok rec b (recovered_snapshots r) r) as [Hi He Ho Hh];
    [done|by apply recovered_snapshots_nodup|by intros s Hs; apply recovered_snapshots_elem|].
  unfold reconcile_recovered_operations. set (r1 := reconcile_loop _ _ _ r) in *.
  destruct (recover_orphans <$> rec) as [[u|err]|]; [by split| |by split].
  set (reason := txt "startup could not contain leftover process trees: " ++ display_error err).
  destruct (require_recovery_keeps reason r1 Hi) as [Hi1 He1].
  split; [done|by etrans| |].
  - intros k Hk. rewrite require_recovery_records. by apply Ho.
  - intros k s Hk Hs. destruct (Hh k s Hk Hs) as (s' & Hs' & Hid & Hv & Hr).
    exists s'. rewrite require_recovery_records. split; [done|]. split; [done|]. split; [done|].
    intros Hn. by apply require_recovery_fences in Hn.
Qed.

Lemma startup_outcome rec b (r : Registry J) :
  reg_inv r ->
  let r' := reconcile_recovered_operations rec b r in
  reg_inv r' /\ dom (rg_records r') = dom (rg_records r) /\
  (forall id s, rg_records r !! id = Some s ->
     exists s', rg_records r' !! id = Some s' /\ os_identity s' = os_identity s /\
       (s' = s \/ startup_verdict rec b s = Some (os_state s'))) /\
  (recovery_status r' = Ready ->
   forall id s', rg_records r' !! id = Some s' -> settled (os_state s') = true).
Proof.
  intros Hinv r'. destruct (startup_pass rec b r Hinv) as [Hi He Ho Hh]. fold r' in Hi, He, Ho, Hh.
  assert (Hin : forall id s, rg_records r !! id = Some s -> id ∈ os_id <$> recovered_snapshots r).
  { intros id s Hs. pose proof (records_id _ _ _ Hinv Hs) as <-.
    apply list_elem_of_fmap_2. by apply recovered_snapshots_elem. }
  assert (Hdom : forall id, is_Some (rg_records r' !! id) <-> is_Some (rg_records r !! id)).
  { intros id. destruct (rg_records r !! id) as [s|] eqn:Es.
    - destruct (Hh id s (Hin id s Es) Es) as (s' & Hs' & _). rewrite Hs'. split; eauto.
    - rewrite Ho, Es; [done|]. intros ([x1] & -> & Hx)%list_elem_of_fmap.
      apply recovered_snapshots_elem in Hx; [congruence|done]. }
  refine (conj Hi (conj _ (conj _ _))).
  - apply set_eq. intros id. rewrite !elem_of_dom. apply Hdom.
  - intros id s Hs. destruct (Hh id s (Hin id s Hs) Hs) as (s' & ? & ? & ? & _). eauto.
  - intros Hready id s' Hs'. destruct (proj1 (Hdom id) (ex_intro _ _ Hs')) as [s Hs].
    destruct (Hh id s (Hin id s Hs) Hs) as (s2 & Hs2 & _ & _ & Hset).
    rewrite Hs' in Hs2. injection Hs2 as <-. apply Hset.
    unfold recovery_status in Hready. by destruct (rg_recovery_required r').
Qed.


End startup.
