(* ===== verification/KernelOps.v ===== *)
(** The authority epoch, then the operations it gates.

    The authority epoch of Core: the live epoch and the durable one move
    together, only forward and one step at a time, and a caller holding an old
    epoch is refused. *)

From S2P Require Import Prelude Text Digest Operation Journal Intent Registry RegistryFacts RegistrySteps.
From S2P Require Import RegistryTheorems Kernel KernelStartup Jcs Wal.

Section epoch.
Context {J : Type} `{OL : OperationJournalLaws J}.

(** The epoch the registry's journal promises. *)
Definition durable_epoch (r : Registry J) : option N :=
  (fun j => tr_epoch (journal_truth j)) <$> rg_journal r.

Definition epoch_stable {A} (m : M (Registry J) AgentError A) : Prop :=
  forall r res r', reg_inv r -> m r = (res, r') -> durable_epoch r' = durable_epoch r.

(** ** Operations that leave the durable epoch alone *)

Lemma append_snapshot_epoch s : epoch_stable (append_snapshot s).
Proof.
  intros r res r1 [_ Hc] Ha. apply append_transition_cases in Ha. unfold durable_epoch.
  destruct res as [u|e].
  - destruct Ha as (_ & _ & _ & _ & _ & _ & [[-> ->]|(j & j' & rc & Hj & Ha & ->)]); [done|].
    destruct (Hc j Hj) as (Hi & _). destruct (append_ok _ _ _ _ Hi Ha) as (_ & _ & _ & Ht & _).
    rewrite Hj. cbn. by rewrite Ht.
  - destruct Ha as (j & j' & m & Hj & _ & (e0 & Ha) & ->).
    destruct (Hc j Hj) as (Hi & _). destruct (append_err _ _ _ _ Hi Ha) as [_ Ht].
    rewrite Hj. cbn. by rewrite Ht.
Qed.

Lemma evict_journal (r : Registry J) : rg_journal (evict_terminal_until_fit r) = rg_journal r.
Proof. unfold evict_terminal_until_fit. by destruct (evict_loop _ _ _ _) as [[??]?]. Qed.

Lemma durable_epoch_journal (r r1 : Registry J) :
  rg_journal r1 = rg_journal r -> durable_epoch r1 = durable_epoch r.
Proof. unfold durable_epoch. by intros ->. Qed.

(** Follow a method through its branches; each ends unchanged or with one
    acknowledged or refused snapshot. *)
Ltac epoch_branch :=
  match goal with
  | Ha : append_snapshot ?s ?r = (_, ?r1) |- durable_epoch _ = durable_epoch ?r =>
      let H := fresh in
      pose proof (append_snapshot_epoch s r _ _ ltac:(eassumption) Ha) as H;
      rewrite <- H; apply durable_epoch_journal; try reflexivity;
      unfold install_cancelled, install_terminal, install, mark_seen, set_memory;
      cbn [rg_journal]; apply evict_journal
  | |- durable_epoch ?r = durable_epoch ?r => reflexivity
  end.

Lemma transition_epoch id move : epoch_stable (transition id move).
Proof.
  intros r res r' Hinv. unfold transition.
  destruct (ensure_healthy r) as [[] ?]; [|by intros [= <- <-]].
  destruct (rg_records r !! id); [|by intros [= <- <-]].
  destruct (move _); [|by intros [= <- <-]].
  destruct (append_snapshot _ r) as [[] r1] eqn:Ea; intros [= <- <-]; epoch_branch.
Qed.

Lemma finish_terminal_epoch id e t allowed : epoch_stable (finish_terminal id e t allowed).
Proof.
  intros r res r' Hinv. unfold finish_terminal.
  destruct (ensure_healthy r) as [[] ?]; [|by intros [= <- <-]].
  destruct (rg_records r !! id); [|by intros [= <- <-]].
  destruct (negb _); [by intros [= <- <-]|].
  destruct (append_snapshot _ r) as [[] r1] eqn:Ea; intros [= <- <-]; epoch_branch.
Qed.

Lemma recover_terminal_epoch id x e t : epoch_stable (recover_terminal id x e t).
Proof.
  intros r res r' Hinv. unfold recover_terminal.
  destruct (map_err _ _); [|by intros [= <- <-]].
  destruct (expected_effect_id _); [|by intros [= <- <-]].
  destruct (negb _); [by intros [= <- <-]|].
  destruct (rg_records r !! id); [|by intros [= <- <-]].
  destruct (negb _); [by intros [= <- <-]|].
  destruct (append_snapshot _ r) as [[] r1] eqn:Ea; intros [= <- <-]; epoch_branch.
Qed.

Lemma accept_epoch i : epoch_stable (accept i).
Proof.
  intros r res r' Hinv. unfold accept.
  destruct (map_err _ _); [|by intros [= <- <-]].
  destruct (ensure_healthy r) as [[] ?]; [|by intros [= <- <-]].
  destruct (rg_records r !! _); [destruct (bool_decide _); by intros [= <- <-]|].
  destruct (may_contain _ _); [by intros [= <- <-]|].
  destruct (negb _); [by intros [= <- <-]|].
  destruct (append_snapshot _ r) as [[] r1] eqn:Ea; intros [= <- <-]; epoch_branch.
Qed.

Lemma cancel_epoch i : epoch_stable (cancel i).
Proof.
  intros r res r' Hinv. unfold cancel.
  destruct (map_err _ _); [|by intros [= <- <-]].
  destruct (ensure_healthy r) as [[] ?]; [|by intros [= <- <-]].
  assert (Hc : forall next, match append_snapshot next r with
      | (Err e, r1) => (Err e, r1)
      | (Ok _, r1) => (Ok tt, install_cancelled next r1)
      end = (res, r') -> durable_epoch r' = durable_epoch r).
  { intros next. destruct (append_snapshot next r) as [[] r1] eqn:Ea; intros [= <- <-];
      epoch_branch. }
  destruct (rg_records r !! _) as [p|].
  - destruct (negb _); [by intros [= <- <-]|].
    destruct (os_state p) as [| | | |? []]; try apply Hc; by intros [= <- <-].
  - destruct (may_contain _ _); [by intros [= <- <-]|].
    destruct (negb _); [by intros [= <- <-]|apply Hc].
Qed.

Lemma record_lease_epoch id l : epoch_stable (record_lease id l).
Proof.
  intros r res r' _. unfold record_lease.
  destruct (ensure_healthy r) as [[] ?]; [|by intros [= <- <-]].
  destruct (rg_records r !! id); [|by intros [= <- <-]].
  destruct (_ || _); by intros [= <- <-].
Qed.

Lemma mark_executing_epoch id e : epoch_stable (mark_executing id e).
Proof.
  unfold mark_executing. destruct (from_option _ _ _); [|apply transition_epoch].
  by intros r res r' _ [= <- <-].
Qed.

Lemma finish_value_epoch id d g : epoch_stable (finish_value id d g).
Proof.
  intros r res r' Hinv. unfold finish_value, bind, get, lift.
  destruct (require_identity _ _ _ r); [by apply finish_terminal_epoch|by intros [= <- <-]].
Qed.

Lemma finish_effect_epoch id rc : epoch_stable (finish_effect id rc).
Proof.
  intros r res r' Hinv. unfold finish_effect, bind, get, lift.
  destruct (map_err _ _); [by apply finish_terminal_epoch|by intros [= <- <-]].
Qed.

Lemma abort_prepared_epoch id e d : epoch_stable (abort_prepared id e d).
Proof.
  intros r res r' Hinv. unfold abort_prepared, bind, get, fail, ret.
  destruct (query id r) as [p| |]; [|by intros [= <- <-]..].
  destruct (negb _); [by intros [= <- <-]|].
  destruct (os_state p) as [|?|x|?|[x|] []]; try by intros [= <- <-].
  - destruct (x =? e)%N; [by apply cancel_epoch|by intros [= <- <-]].
  - destruct (x =? e)%N; by intros [= <- <-].
Qed.

Lemma require_recovery_epoch reason (r : Registry J) :
  durable_epoch (require_recovery reason r) = durable_epoch r.
Proof. unfold require_recovery. by destruct (rg_recovery_required r). Qed.

Lemma compact_authority_epoch : epoch_stable compact_authority_journal.
Proof.
  intros r res r' [_ Hc]. unfold compact_authority_journal, bind, ensure_healthy, durable_epoch.
  destruct (rg_recovery_required r); [by intros [= <- <-]|].
  destruct (rg_journal r) as [j|] eqn:Ej; [|by intros [= <- <-]; rewrite Ej].
  destruct (Hc j eq_refl) as (Hi & _).
  destruct (journal_compact j) as [[m|e] j'] eqn:Ec; intros [= <- <-];
    cbn; by destruct (compact_ok _ _ _ Hi Ec) as [_ ->].
Qed.

Lemma recover_terminal_fenced_epoch id x e t reason (r r1 : Registry J) res :
  reg_inv r -> recover_terminal id x e t r = (res, r1) ->
  (reg_inv r1 /\ durable_epoch r1 = durable_epoch r) /\
  (reg_inv (require_recovery reason r1) /\
   durable_epoch (require_recovery reason r1) = durable_epoch r).
Proof.
  intros Hinv Hrt. rewrite require_recovery_epoch.
  destruct (recover_terminal_keeps _ _ _ _ _ _ _ Hinv Hrt) as [Hi _].
  pose proof (recover_terminal_epoch _ _ _ _ _ _ _ Hinv Hrt) as He.
  pose proof (proj1 (require_recovery_keeps reason r1 Hi)). done.
Qed.

Lemma reconcile_snapshot_epoch rec b s (r r1 : Registry J) ok :
  reg_inv r -> reconcile_snapshot rec b s r = (ok, r1) ->
  reg_inv r1 /\ durable_epoch r1 = durable_epoch r.
Proof.
  intros Hinv. unfold reconcile_snapshot, reconcile_recovered_effect.
  assert (Hrr : forall reason, reg_inv (require_recovery reason r) /\
    durable_epoch (require_recovery reason r) = durable_epoch r).
  { intros reason. split; [by apply require_recovery_keeps|apply require_recovery_epoch]. }
  repeat case_match; intros [= <- <-]; try apply Hrr; try done;
    match goal with
    | H : recover_terminal _ _ _ _ _ = _ |- _ =>
        first [ exact (proj1 (recover_terminal_fenced_epoch _ _ _ _ [] _ _ _ Hinv H))
              | exact (proj2 (recover_terminal_fenced_epoch _ _ _ _ _ _ _ _ Hinv H)) ]
    end.
Qed.

Lemma reconcile_loop_epoch rec b l (r : Registry J) :
  reg_inv r -> durable_epoch (reconcile_loop rec b l r) = durable_epoch r.
Proof.
  revert r. induction l as [|s l IH]; intros r Hinv; cbn [reconcile_loop]; [done|].
  destruct (reconcile_snapshot rec b s r) as [ok r1] eqn:E.
  destruct (reconcile_snapshot_epoch _ _ _ _ _ _ Hinv E) as [Hi He].
  destruct ok; [|done]. rewrite <- He. by apply IH.
Qed.

Lemma startup_epoch rec b (r : Registry J) :
  reg_inv r -> durable_epoch (reconcile_recovered_operations rec b r) = durable_epoch r.
Proof.
  intros Hinv. unfold reconcile_recovered_operations.
  destruct (recover_orphans <$> rec) as [[]|]; rewrite ?require_recovery_epoch;
    by apply reconcile_loop_epoch.
Qed.

End epoch.

(** The operations Core offers, as steps: Core's invariant, the authority fence
    against stale callers, and cancellation as a fence for the cancelled
    operation. *)

Section ops.
Context {J : Type} `{OL : OperationJournalLaws J} `{CD : Codec} `{JN : JsonNumber}.

(** The durable epoch is never behind the live one, and they agree while Core
    is healthy. *)
Definition core_inv (c : Core J) : Prop :=
  reg_inv (co_operations c) /\
  forall e, durable_epoch (co_operations c) = Some e ->
    (co_epoch c <= e)%N /\
    (rg_recovery_required (co_operations c) = None -> e = co_epoch c).

(** How a step may move Core. *)
Record core_evolves (c c' : Core J) : Prop := {
  ce_run : co_run_id c' = co_run_id c;
  ce_epoch : (co_epoch c <= co_epoch c')%N;
  ce_operations : evolves (co_operations c) (co_operations c');
}.

#[export] Instance core_evolves_preorder : PreOrder core_evolves.
Proof.
  split.
  - intros c. split; [done|lia|reflexivity].
  - intros c1 c2 c3 [R1 E1 O1] [R2 E2 O2]. split; [congruence|lia|by etrans].
Qed.

(** A method of Core keeps its invariant on every branch. *)
Definition core_keeps {A} (m : M (Core J) AgentError A) : Prop :=
  forall c res c', core_inv c -> m c = (res, c') -> core_inv c' /\ core_evolves c c'.

(** ** Building blocks *)

Lemma core_keeps_here {A} (c c' : Core J) (x y : result A AgentError) :
  core_inv c -> (x, c) = (y, c') -> core_inv c' /\ core_evolves c c'.
Proof. intros Hc [= _ <-]. by split. Qed.

Lemma keeps_ret {A} (a : A) : core_keeps (ret a).
Proof. intros c res c' Hc [= _ <-]. by split. Qed.

Lemma keeps_fail {A} e : core_keeps (A := A) (fail e).
Proof. intros c res c' Hc [= _ <-]. by split. Qed.

Lemma keeps_get : core_keeps get.
Proof. intros c res c' Hc [= _ <-]. by split. Qed.

Lemma keeps_lift {A} (r : result A AgentError) : core_keeps (lift r).
Proof. intros c res c' Hc [= _ <-]. by split. Qed.

Lemma keeps_bind {A B} (m : M (Core J) AgentError A) (f : A -> M (Core J) AgentError B) :
  core_keeps m -> (forall a, core_keeps (f a)) -> core_keeps (bind m f).
Proof.
  intros Hm Hf c res c' Hc. unfold bind. destruct (m c) as [[a|e] c1] eqn:E.
  - destruct (Hm _ _ _ Hc E) as [Hc1 He1]. intros Hrun. destruct (Hf a _ _ _ Hc1 Hrun) as [? ?].
    split; [done|by etrans].
  - intros [= _ <-]. by eapply Hm.
Qed.

Lemma keeps_registry {A} (m : M (Registry J) AgentError A) :
  keeps m -> epoch_stable m -> core_keeps (operations m).
Proof.
  intros Hk He c res c' [Hr Hd]. unfold operations. destruct (m (co_operations c)) as [x r] eqn:E.
  intros [= _ <-]. destruct (Hk _ _ _ Hr E) as [Hr' Hev]. pose proof (He _ _ _ Hr E) as Hde.
  split; [|split; [done|cbn; lia|done]]. split; [done|]. cbn. rewrite Hde. intros e Hdur.
  destruct (Hd e Hdur) as [Hle Heq]. split; [done|]. intros Hn. apply Heq.
  destruct (rg_recovery_required (co_operations c)) eqn:Ef; [|done].
  destruct (ev_fence _ _ Hev); [by rewrite Ef|done].
Qed.

Lemma ensure_healthy_steps : keeps (J := J) ensure_healthy /\ epoch_stable (J := J) ensure_healthy.
Proof.
  split; intros r res r' Hinv; unfold ensure_healthy; destruct (rg_recovery_required r);
    intros [= _ <-]; done.
Qed.

Lemma keeps_mutation_allowed : core_keeps ensure_mutation_allowed.
Proof. apply keeps_registry; apply ensure_healthy_steps. Qed.

Create HintDb core_keeps.
#[local] Hint Resolve keeps_ret keeps_fail keeps_get keeps_lift keeps_mutation_allowed
  transition_epoch finish_terminal_epoch accept_epoch cancel_epoch record_lease_epoch
  mark_executing_epoch finish_value_epoch finish_effect_epoch abort_prepared_epoch
  compact_authority_epoch mark_executing_keeps mark_prepared_keeps begin_commit_keeps
  finish_value_keeps finish_refused_keeps finish_effect_keeps record_lease_keeps accept_keeps
  cancel_keeps abort_prepared_keeps compact_authority_journal_keeps : core_keeps.
#[local] Hint Extern 1 (epoch_stable (begin_commit _ _)) => apply transition_epoch : core_keeps.
#[local] Hint Extern 1 (epoch_stable (mark_prepared _ _)) => apply transition_epoch : core_keeps.
#[local] Hint Extern 1 (epoch_stable (finish_refused _ _)) =>
  apply finish_terminal_epoch : core_keeps.
#[local] Hint Extern 1 (core_keeps (operations _)) => apply keeps_registry : core_keeps.
#[local] Hint Extern 1 (core_keeps (bind _ _)) => apply keeps_bind; [|intros ?] : core_keeps.
#[local] Hint Extern 1 (core_keeps (if ?b then _ else _)) => destruct b : core_keeps.
#[local] Hint Extern 1 (core_keeps (match ?x with _ => _ end)) => destruct x : core_keeps.

Ltac core_auto := solve [auto 20 with core_keeps].

(** ** The operations that leave the epoch alone *)

Lemma keeps_current expected : core_keeps (require_current_epoch expected).
Proof. unfold require_current_epoch. core_auto. Qed.
#[local] Hint Resolve keeps_current : core_keeps.

Lemma keeps_finish_value e id d : core_keeps (finish_value_operation_if_current e id d).
Proof. unfold finish_value_operation_if_current. core_auto. Qed.

Lemma keeps_cancel i : core_keeps (cancel_operation i).
Proof. unfold cancel_operation. core_auto. Qed.

Lemma keeps_begin_commit id e d : core_keeps (begin_operation_commit id e d).
Proof. unfold begin_operation_commit. core_auto. Qed.
#[local] Hint Resolve keeps_begin_commit : core_keeps.

Lemma keeps_begin_commit_current x id e d :
  core_keeps (begin_operation_commit_if_current x id e d).
Proof. unfold begin_operation_commit_if_current. core_auto. Qed.

Lemma keeps_mark_executing x id e : core_keeps (mark_operation_executing_if_current x id e).
Proof. unfold mark_operation_executing_if_current. core_auto. Qed.

Lemma keeps_finish_effect id rc : core_keeps (finish_operation_effect id rc).
Proof. unfold finish_operation_effect. core_auto. Qed.

Lemma keeps_abort id e d : core_keeps (abort_prepared_operation id e d).
Proof. unfold abort_prepared_operation. core_auto. Qed.

Lemma keeps_admit i call g : core_keeps (admit_tool_operation i call g).
Proof. unfold admit_tool_operation. core_auto. Qed.

(** ** The operations that move the epoch *)

Lemma append_epoch_durable from to (r r1 : Registry J) res :
  reg_inv r -> append_transition (EpochAdvanced from to) r = (res, r1) ->
  match res with
  | Ok _ => rg_recovery_required r1 = rg_recovery_required r /\
      match durable_epoch r with
      | Some e => e = from /\ durable_epoch r1 = Some to
      | None => durable_epoch r1 = None
      end
  | Err _ => durable_epoch r1 = durable_epoch r
  end.
Proof.
  intros [_ Hc] Ha. apply append_transition_cases in Ha. unfold durable_epoch. destruct res as [u|e].
  - destruct Ha as (_ & _ & _ & _ & _ & Hf & [[-> ->]|(j & j' & rc & Hj & Ha & ->)]); [done|].
    destruct (Hc j Hj) as (Hi & _). destruct (append_ok _ _ _ _ Hi Ha) as (_ & _ & Hadm & Ht & _).
    rewrite Hj. cbn. rewrite Ht. done.
  - destruct Ha as (j & j' & m & Hj & _ & (e0 & Ha) & ->).
    destruct (Hc j Hj) as (Hi & _). destruct (append_err _ _ _ _ Hi Ha) as [_ Ht].
    rewrite Hj. cbn. by rewrite Ht.
Qed.

(** Core after its registry durably moved the epoch to [next]. *)
Lemma core_inv_advanced c r next :
  core_inv c -> reg_inv r ->
  match durable_epoch (co_operations c) with
  | Some e => durable_epoch r = Some next
  | None => durable_epoch r = None
  end -> core_inv (set_epoch (set_operations c r) next).
Proof.
  intros [_ Hd] Hr Hn. split; [done|]. cbn. intros e He.
  destruct (durable_epoch (co_operations c)); [|congruence].
  rewrite Hn in He. injection He as <-. split; [lia|done].
Qed.

(** Core after the epoch moved durably but the operation failed and fenced. *)
Lemma core_inv_fenced c r :
  core_inv c -> reg_inv r -> rg_recovery_required r <> None ->
  (forall e', durable_epoch r = Some e' ->
     exists e, durable_epoch (co_operations c) = Some e /\ (e <= e')%N) ->
  core_inv (set_operations c r).
Proof.
  intros [_ Hd] Hr Hf Hle. split; [done|]. cbn. intros e' He'.
  destruct (Hle e' He') as (e & He & Hee). destruct (Hd e He) as [Hx _]. split; [lia|done].
Qed.

Lemma keeps_advance expected : core_keeps (advance_authority_epoch expected).
Proof.
  intros c res c' Hc. unfold advance_authority_epoch.
  unfold ensure_mutation_allowed, operations at 1, bind at 1, ensure_healthy.
  destruct (rg_recovery_required (co_operations c)) eqn:Ef.
  { intros [= _ <-]. destruct c. by split. }
  unfold bind at 1, lift. destruct (checked_succ expected) as [next|] eqn:En; cbn [ok_or];
    [|intros [= _ <-]; by destruct c].
  unfold bind at 1, get. replace (set_operations c (co_operations c)) with c by (by destruct c).
  destruct (N.eqb_spec (co_epoch c) expected) as [<-|]; cbn [negb]; [|by apply core_keeps_here].
  unfold bind at 1, operations. destruct (persist_epoch_advance _ _ _) as [[u|e] r1] eqn:Ep.
  - unfold bind, modify, ret. intros [= _ <-].
    destruct (persist_epoch_advance_keeps _ _ _ _ _ (proj1 Hc) Ep) as [Hr Hev].
    apply checked_succ_Some in En as [-> _].
    revert Ep. unfold persist_epoch_advance, bind, ensure_healthy. rewrite Ef. intros Ep.
    apply append_epoch_durable in Ep as [_ Hd]; [|apply Hc]. split.
    + apply core_inv_advanced; [done|done|].
      destruct (durable_epoch (co_operations c)); [apply Hd|done].
    + split; [done|cbn; lia|done].
  - intros [= _ <-].
    destruct (persist_epoch_advance_keeps _ _ _ _ _ (proj1 Hc) Ep) as [Hr Hev].
    revert Ep. unfold persist_epoch_advance, bind, ensure_healthy. rewrite Ef. intros Ep.
    pose proof (append_epoch_durable _ _ _ _ _ (proj1 Hc) Ep) as Hd. cbn in Hd.
    apply append_refused in Ep as (_ & Hf & _); [|apply Hc]. split.
    + apply core_inv_fenced; [done..|]. rewrite Hd. intros e' He'. exists e'. split; [done|lia].
    + split; [done|cbn; lia|done].
Qed.

(** The outcomes of [cancel_and_persist_epoch]. *)
Definition cancel_epoch_outcome (i : ToolOperationIdentity) (to : N) (r : Registry J)
    (res : AgentResult OperationCancelTransition) (r' : Registry J) : Prop :=
  match res with
  | Ok (Registry.Cancelled q) =>
      (exists e, q = Found (cancelled_snapshot i e) /\
         rg_records r' !! ti_operation_id i = Some (cancelled_snapshot i e)) /\
      match durable_epoch r with
      | Some e => durable_epoch r' = Some to
      | None => durable_epoch r' = None
      end
  | Ok (AlreadySettled _) => r' = r
  | Err _ =>
      r' = r \/
      (rg_recovery_required r' <> None /\
       forall e', durable_epoch r' = Some e' ->
         exists e, durable_epoch r = Some e /\ (e <= e')%N)
  end.

Lemma epoch_then_cancel i effect from to (r : Registry J) res r' :
  reg_inv r -> (from <= to)%N ->
  (match append_transition (EpochAdvanced from to) r with
   | (Err e, r1) => (Err e, r1)
   | (Ok _, r1) =>
       match append_snapshot (cancelled_snapshot i effect) r1 with
       | (Err e, r2) => (Err e, r2)
       | (Ok _, r2) =>
           (Ok (Registry.Cancelled (Found (cancelled_snapshot i effect))),
            install_cancelled (cancelled_snapshot i effect) r2)
       end
   end) = (res, r') -> cancel_epoch_outcome i to r res r'.
Proof.
  intros Hinv Hle. destruct (append_transition _ r) as [[u|e] r1] eqn:Ee.
  - pose proof (append_epoch_durable _ _ _ _ _ Hinv Ee) as [_ Hd].
    pose proof (append_epoch_acked _ _ _ _ _ Hinv Ee) as Hinv1.
    destruct (append_snapshot _ r1) as [[u2|e] r2] eqn:Ea; intros [= <- <-];
      cbn [cancel_epoch_outcome];
      pose proof (append_snapshot_epoch _ _ _ _ Hinv1 Ea) as Hs.
    + assert (Hj : durable_epoch (install_cancelled (cancelled_snapshot i effect) r2) =
        durable_epoch r2) by apply durable_epoch_journal, evict_journal.
      rewrite Hj, Hs. split; [exists effect; split; [done|apply lookup_insert_eq]|].
      destruct (durable_epoch r); [apply Hd|done].
    + right. split; [by apply append_refused in Ea as (_ & ? & _)|]. rewrite Hs. intros e' He'.
      destruct (durable_epoch r) as [x|]; [|congruence]. destruct Hd as [-> Hd].
      exists from. split; [done|]. rewrite Hd in He'. by injection He' as <-.
  - intros [= <- <-]. cbn. right. pose proof (append_epoch_durable _ _ _ _ _ Hinv Ee) as Hd.
    cbn in Hd. split; [by apply append_refused in Ee as (_ & ? & _)|]. rewrite Hd. intros e' He'.
    exists e'. split; [done|lia].
Qed.

Lemma cancel_and_persist_outcome i from to (r : Registry J) res r' :
  reg_inv r -> (from <= to)%N -> cancel_and_persist_epoch i from to r = (res, r') ->
  cancel_epoch_outcome i to r res r'.
Proof.
  intros Hinv Hle. unfold cancel_and_persist_epoch.
  assert (Hhere : forall e, (Err e, r) = (res, r') -> cancel_epoch_outcome i to r res r')
    by (intros e [= <- <-]; by left).
  assert (Hold : forall q, (Ok (AlreadySettled q), r) = (res, r') ->
    cancel_epoch_outcome i to r res r') by (by intros q [= <- <-]).
  destruct (map_err _ _); [|apply Hhere].
  destruct (_ || _); [apply Hhere|].
  destruct (ensure_healthy_cases r) as [(x & _ & ->)|[_ ->]]; [apply Hhere|].
  destruct (rg_records r !! ti_operation_id i) as [p|] eqn:Ep.
  - destruct (bool_decide_reflect (os_identity p = i)) as [<-|]; cbn [negb]; [|apply Hhere].
    destruct (os_state p); try apply Hold; by apply epoch_then_cancel.
  - destruct (may_contain _ _); [apply Hold|].
    destruct (negb _); [apply Hhere|by apply epoch_then_cancel].
Qed.

Lemma keeps_cancel_advance i expected : core_keeps (cancel_operation_and_advance i expected).
Proof.
  intros c res c' Hc. unfold cancel_operation_and_advance.
  unfold bind at 1, lift. destruct (map_err _ _); [|by apply core_keeps_here].
  unfold bind at 1, ensure_mutation_allowed, operations at 1, ensure_healthy.
  destruct (rg_recovery_required (co_operations c)) eqn:Ef.
  { intros [= _ <-]. destruct c. by split. }
  unfold bind at 1, get. replace (set_operations c (co_operations c)) with c by (by destruct c).
  destruct (N.eqb_spec (co_epoch c) expected) as [<-|]; cbn [negb]; [|by apply core_keeps_here].
  unfold bind at 1. destruct (checked_succ (co_epoch c)) as [next|] eqn:En; cbn [ok_or];
    [|by apply core_keeps_here]. apply checked_succ_Some in En as [-> _].
  unfold bind at 1, operations. destruct (cancel_and_persist_epoch _ _ _ _) as [x r1] eqn:Ex.
  destruct (cancel_and_persist_epoch_keeps _ _ _ _ _ _ (proj1 Hc) Ex) as [Hr Hev].
  apply cancel_and_persist_outcome in Ex as Hout; [|apply Hc|lia].
  destruct x as [[q|q]|e]; cbn in Hout; unfold bind, modify, ret; intros [= _ <-].
  - split; [apply core_inv_advanced; [done|done|apply Hout]|split; [done|cbn; lia|done]].
  - subst r1. destruct c. by split.
  - split; [|split; [done|cbn; lia|done]]. destruct Hout as [->|[Hf Hle]]; [by destruct c|].
    by apply core_inv_fenced.
Qed.

(** ** Steps *)

(** Every way a task, a client or startup changes Core; each is one atomic
    method of the registry under the guards of its port operation. *)
Inductive CoreOp : Type :=
| CoAdmit (identity : ToolOperationIdentity) (call : ToolCall) (generation : N)
| CoAdvance (expected : N)
| CoFinishValue (expected id : N) (digest : Digest)
| CoCancel (identity : ToolOperationIdentity)
| CoCancelAdvance (identity : ToolOperationIdentity) (expected : N)
| CoBeginCommit (id effect_id : N) (digest : Digest)
| CoBeginCommitIfCurrent (expected id effect_id : N) (digest : Digest)
| CoMarkExecuting (expected id : N) (effect_id : option N)
| CoFinishEffect (id : N) (receipt : EffectReceipt)
| CoAbortPrepared (id effect_id : N) (digest : Digest)
| CoRequireRecovery (reason : text)
| CoCompact
| CoRecordLease (id : N) (lease : AuthorityLease)
| CoMarkPrepared (id effect_id : N)
| CoFinishRefused (id : N) (message : text)
| CoRegistryCancel (identity : ToolOperationIdentity).

Definition core_step (op : CoreOp) (c : Core J) : Core J :=
  match op with
  | CoAdmit i call g => (admit_tool_operation i call g c).2
  | CoAdvance x => (advance_authority_epoch x c).2
  | CoFinishValue x id d => (finish_value_operation_if_current x id d c).2
  | CoCancel i => (cancel_operation i c).2
  | CoCancelAdvance i x => (cancel_operation_and_advance i x c).2
  | CoBeginCommit id e d => (begin_operation_commit id e d c).2
  | CoBeginCommitIfCurrent x id e d => (begin_operation_commit_if_current x id e d c).2
  | CoMarkExecuting x id e => (mark_operation_executing_if_current x id e c).2
  | CoFinishEffect id rc => (finish_operation_effect id rc c).2
  | CoAbortPrepared id e d => (abort_prepared_operation id e d c).2
  | CoRequireRecovery reason => require_operation_recovery reason c
  | CoCompact => (operations compact_authority_journal c).2
  | CoRecordLease id l => (operations (record_lease id l) c).2
  | CoMarkPrepared id e => (operations (mark_prepared id e) c).2
  | CoFinishRefused id m => (operations (finish_refused id m) c).2
  | CoRegistryCancel i => (operations (cancel i) c).2
  end.

Definition core_run (ops : list CoreOp) (c : Core J) : Core J :=
  foldl (fun c op => core_step op c) c ops.

Lemma core_keeps_snd {A} (m : M (Core J) AgentError A) c :
  core_keeps m -> core_inv c -> core_inv (m c).2 /\ core_evolves c (m c).2.
Proof. intros Hk Hc. destruct (m c) as [res c'] eqn:E. by apply (Hk c res). Qed.

Lemma core_step_keeps op c :
  core_inv c -> core_inv (core_step op c) /\ core_evolves c (core_step op c).
Proof.
  intros Hc. destruct op; cbn [core_step]; try (apply core_keeps_snd; [|done]).
  - apply keeps_admit.
  - apply keeps_advance.
  - apply keeps_finish_value.
  - apply keeps_cancel.
  - apply keeps_cancel_advance.
  - apply keeps_begin_commit.
  - apply keeps_begin_commit_current.
  - apply keeps_mark_executing.
  - apply keeps_finish_effect.
  - apply keeps_abort.
  - unfold require_operation_recovery.
    destruct (require_recovery_keeps reason _ (proj1 Hc)) as [Hr Hev].
    split; [|split; [done|cbn; lia|done]]. apply core_inv_fenced; [done..| |].
    + apply require_recovery_fences.
    + rewrite require_recovery_epoch. intros e' He'. exists e'. split; [done|lia].
  - core_auto.
  - core_auto.
  - core_auto.
  - core_auto.
  - core_auto.
Qed.

Lemma core_run_keeps ops c :
  core_inv c -> core_inv (core_run ops c) /\ core_evolves c (core_run ops c).
Proof.
  revert c. induction ops as [|op ops IH]; intros c Hc; cbn; [by split|].
  destruct (core_step_keeps op c Hc) as [H1 He1]. destruct (IH _ H1) as [H2 He2].
  split; [done|by etrans].
Qed.

End ops.
