(* ===== verification/KernelTheorems.v ===== *)
(** What Core's authority promises: its invariant over any interleaving of
    operations, the fence against stale callers, single-use admission,
    cancellation that no later step can commit past, and the epoch fence of a
    new process. *)

From S2P Require Import Prelude Text Digest Jcs Operation Journal Wal Intent Registry.
From S2P Require Import RegistryFacts RegistrySteps RegistryTheorems Kernel KernelStartup KernelOps.

Section theorems.
Context {J : Type} `{OL : OperationJournalLaws J} `{CD : Codec} `{JN : JsonNumber}.

Lemma same_core (c : Core J) : set_operations c (co_operations c) = c.
Proof. by destruct c. Qed.

(** C24. Core's invariant holds over any interleaving of its operations: the
    registry stays sound, the live epoch never moves back and never runs ahead of
    the durable one, a healthy Core's live epoch is the durable one, and what the
    journal promised stays promised. *)
Theorem core_invariant ops (c : Core J) :
  core_inv c ->
  core_inv (core_run ops c) /\ (co_epoch c <= co_epoch (core_run ops c))%N /\
  journal_le (rg_journal (co_operations c)) (rg_journal (co_operations (core_run ops c))).
Proof.
  intros Hc. destruct (core_run_keeps ops c Hc) as [Hc' [_ He [_ _ Hj _]]]. done.
Qed.

(** ** Stale callers *)

Lemma healthy_allowed (c : Core J) :
  rg_recovery_required (co_operations c) = None -> ensure_mutation_allowed c = (Ok tt, c).
Proof.
  intros Hf. unfold ensure_mutation_allowed, operations, ensure_healthy. by rewrite Hf, same_core.
Qed.

Lemma stale_gate {A} (c : Core J) x (m : M (Core J) AgentError A) :
  rg_recovery_required (co_operations c) = None -> co_epoch c <> x ->
  bind ensure_mutation_allowed (fun _ => bind (require_current_epoch x) (fun _ => m)) c =
  (Err (StaleEpoch x (co_epoch c)), c).
Proof.
  intros Hf Hx. unfold bind. rewrite healthy_allowed by done.
  unfold require_current_epoch, bind, get. by rewrite (proj2 (N.eqb_neq _ _) Hx).
Qed.

(** A caller holding another epoch changes nothing: value completion, commit
    and dispatch report the stale epoch, epoch advances and exact cancellation
    are refused, and admission at most tells it about the very operation it asks
    for; none of them touches memory or journal or yields a permit. *)
Theorem stale_epoch_refused (c : Core J) x :
  rg_recovery_required (co_operations c) = None -> co_epoch c <> x ->
  (forall id d, finish_value_operation_if_current x id d c =
     (Err (StaleEpoch x (co_epoch c)), c)) /\
  (forall id e d, begin_operation_commit_if_current x id e d c =
     (Err (StaleEpoch x (co_epoch c)), c)) /\
  (forall id e, mark_operation_executing_if_current x id e c =
     (Err (StaleEpoch x (co_epoch c)), c)) /\
  (exists m, advance_authority_epoch x c = (Err (RecoveryRequired m), c)) /\
  (forall i, exists e, cancel_operation_and_advance i x c = (Err e, c)) /\
  (forall i call, exists res, admit_tool_operation i call x c = (res, c) /\
     (forall a, res = Ok a ->
        exists s, a = ToolAlreadyKnown s /\ query (ti_operation_id i) (co_operations c) = Found s /\
          os_identity s = i)).
Proof.
  intros Hf Hx. refine (conj _ (conj _ (conj _ (conj _ (conj _ _))))).
  - intros. by apply stale_gate.
  - intros. by apply stale_gate.
  - intros. by apply stale_gate.
  - unfold advance_authority_epoch, bind. rewrite healthy_allowed by done. unfold lift, get.
    destruct (checked_succ x); cbn [ok_or]; [|eauto]. rewrite (proj2 (N.eqb_neq _ _) Hx). eauto.
  - intros i. unfold cancel_operation_and_advance, bind, lift.
    destruct (map_err _ _) as [[]|]; [|eauto]. rewrite healthy_allowed by done. unfold get.
    rewrite (proj2 (N.eqb_neq _ _) Hx). eauto.
  - intros i call. unfold admit_tool_operation, bind, lift.
    destruct (map_err _ _) as [[]|]; [|by eexists]. rewrite healthy_allowed by done. unfold get.
    destruct (_ || _); [by eexists|].
    rewrite (proj2 (N.eqb_neq _ _)) by congruence. cbn [negb].
    destruct (query _ _) as [s| |] eqn:Eq; [|by eexists..].
    destruct (bool_decide_reflect (os_identity s = i)) as [Hs|]; [|by eexists].
    eexists. split; [done|]. intros a [= <-]. eauto.
Qed.

(** ** Single-use admission *)

Lemma seen_not_accepted i (r : Registry J) r' :
  may_contain (rg_seen r) (ti_operation_id i) = true ->
  accept i r <> (Ok AdmissionAccepted, r').
Proof.
  intros Hs. unfold accept. destruct (map_err _ _); [|done].
  destruct (ensure_healthy_cases r) as [(x & _ & ->)|[_ ->]]; [done|].
  destruct (rg_records r !! _) as [p|]; [by destruct (bool_decide _)|]. by rewrite Hs.
Qed.

Lemma admit_accepts i call g (c c' : Core J) s p :
  admit_tool_operation i call g c = (Ok (ToolAccepted s p), c') ->
  p = i /\ s = {| os_identity := i; os_state := Accepted |} /\
  call_matches (co_run_id c) i call = true /\ ti_generation i = g /\ g = co_epoch c /\
  exists r', accept i (co_operations c) = (Ok AdmissionAccepted, r') /\ c' = set_operations c r'.
Proof.
  unfold admit_tool_operation, bind, lift, ensure_mutation_allowed, operations, get.
  destruct (map_err _ _) as [[]|]; [|done].
  destruct (ensure_healthy_cases (co_operations c)) as [(x & _ & ->)|[_ ->]]; [done|].
  rewrite same_core.
  destruct (call_matches _ _ _) eqn:Em; [|done]. cbn [negb orb].
  destruct (N.eqb_spec (ti_generation i) g) as [Hg|]; [|done]. cbn [negb].
  destruct (N.eqb_spec g (co_epoch c)) as [He|]; cbn [negb].
  - destruct (accept i _) as [[[|d]|e] r'] eqn:Ea; try done. intros [= <- <- <-].
    refine (conj eq_refl (conj eq_refl (conj eq_refl (conj Hg (conj He _))))). eauto.
  - destruct (query _ _); unfold fail, ret; [by destruct (bool_decide _)|done..].
Qed.

Lemma accept_seen i (r r' : Registry J) :
  reg_inv r -> accept i r = (Ok AdmissionAccepted, r') ->
  rg_records r !! ti_operation_id i = None /\
  rg_records r' !! ti_operation_id i = Some {| os_identity := i; os_state := Accepted |} /\
  may_contain (rg_seen r') (ti_operation_id i) = true.
Proof.
  intros Hinv Ha. pose proof (accept_keeps _ _ _ _ Hinv Ha) as [[Hm _] _]. revert Ha.
  unfold accept. destruct (map_err _ _); [|done].
  destruct (ensure_healthy_cases r) as [(x & _ & ->)|[_ ->]]; [done|].
  destruct (rg_records r !! _) as [p|] eqn:Ep; [by destruct (bool_decide _)|].
  destruct (may_contain _ _); [done|]. destruct (negb _); [done|].
  destruct (append_snapshot _ r) as [[u|e] r1]; [|done]. intros [= <-].
  assert (Hr : rg_records (install {| os_identity := i; os_state := Accepted |}
      (mark_seen (ti_operation_id i) (evict_terminal_until_fit r1))) !! ti_operation_id i =
    Some {| os_identity := i; os_state := Accepted |}) by apply lookup_insert_eq.
  split; [done|]. split; [exact Hr|]. apply (mi_seen _ _ _ _ _ Hm). by rewrite Hr.
Qed.

(** One permit per operation: admission hands out a permit only for the
    request it names, under the current epoch, as a durable [Accepted] record
    that did not exist before; and after any later interleaving no admission of
    the same operation id, by whichever caller, hands out another. *)
Theorem one_permit i call g (c c1 : Core J) s p :
  core_inv c -> admit_tool_operation i call g c = (Ok (ToolAccepted s p), c1) ->
  (p = i /\ call_matches (co_run_id c) i call = true /\ ti_generation i = co_epoch c /\
   query (ti_operation_id i) (co_operations c1) = Found s /\
   s = {| os_identity := i; os_state := Accepted |} /\
   rg_records (co_operations c) !! ti_operation_id i = None /\
   (forall j, rg_journal (co_operations c1) = Some j ->
      tr_ops (journal_truth j) !! ti_operation_id i = Some s)) /\
  (forall ops i2 call2 g2 s2 p2, ti_operation_id i2 = ti_operation_id i ->
     (admit_tool_operation i2 call2 g2 (core_run ops c1)).1 <> Ok (ToolAccepted s2 p2)).
Proof.
  intros Hc Ha. destruct (keeps_admit _ _ _ _ _ _ Hc Ha) as [Hc1 _].
  apply admit_accepts in Ha as (-> & -> & Hm & <- & Hg & r' & Hacc & ->).
  destruct (accept_seen _ _ _ (proj1 Hc) Hacc) as (Hn & Hr & Hs). split.
  - refine (conj eq_refl (conj Hm (conj Hg (conj _ (conj eq_refl (conj Hn _)))))).
    + unfold query. cbn. by rewrite Hr.
    + intros j Hj. destruct Hc1 as [[_ Hcp] _]. destruct (Hcp j Hj) as (_ & Hsub & _).
      by eapply lookup_weaken.
  - intros ops i2 call2 g2 s2 p2 Hid Hbad.
    destruct (admit_tool_operation i2 call2 g2 _) as [res c3] eqn:E. cbn in Hbad. subst res.
    apply admit_accepts in E as (_ & _ & _ & _ & _ & r3 & Hacc3 & _).
    destruct (core_run_keeps ops _ Hc1) as [_ [_ _ [_ Hseen _ _]]].
    revert Hacc3. apply seen_not_accepted. rewrite Hid. by apply Hseen.
Qed.

(** ** Cancellation *)

Lemma begin_commit_needs id e d (c : Core J) u c' :
  begin_operation_commit id e d c = (Ok u, c') ->
  exists s, rg_records (co_operations c) !! id = Some s /\ os_state s = Prepared e.
Proof.
  unfold begin_operation_commit, bind, ensure_mutation_allowed, operations, get.
  destruct (ensure_healthy_cases (co_operations c)) as [(x & _ & ->)|[_ ->]]; [done|].
  rewrite same_core. unfold query.
  destruct (rg_records (co_operations c) !! id) as [s|] eqn:Es; [|by destruct (may_contain _ _)].
  destruct (negb _); [done|]. unfold begin_commit, transition.
  destruct (ensure_healthy_cases (co_operations c)) as [(x & _ & ->)|[_ ->]]; [done|].
  rewrite Es. destruct (os_state s) as [| |y| |] eqn:Est; try done.
  destruct (N.eqb_spec y e) as [->|]; [|done]. intros _. eauto.
Qed.

Lemma cancel_advance_done i x (c c1 : Core J) e q :
  core_inv c -> cancel_operation_and_advance i x c = (Ok (DispositionCancelled e q), c1) ->
  x = co_epoch c /\ (e = x + 1)%N /\ co_epoch c1 = e /\
  exists effect, q = Found (cancelled_snapshot i effect) /\
    rg_records (co_operations c1) !! ti_operation_id i = Some (cancelled_snapshot i effect) /\
    (rg_journal (co_operations c) <> None -> durable_epoch (co_operations c1) = Some e).
Proof.
  intros Hc. unfold cancel_operation_and_advance, bind, lift, ensure_mutation_allowed, get.
  destruct (map_err _ _) as [[]|]; [|done]. unfold operations at 1.
  destruct (ensure_healthy_cases (co_operations c)) as [(y & _ & ->)|[_ ->]]; [done|].
  rewrite same_core. destruct (N.eqb_spec (co_epoch c) x) as [<-|]; [|done]. cbn [negb].
  destruct (checked_succ (co_epoch c)) as [next|] eqn:En; [|done]. cbn [ok_or].
  apply checked_succ_Some in En as [-> _]. unfold operations.
  destruct (cancel_and_persist_epoch _ _ _ _) as [y r1] eqn:Ex.
  apply cancel_and_persist_outcome in Ex as Hout; [|apply Hc|lia].
  destruct y as [[q'|q']|er]; try done. cbn in Hout. intros [= <- <- <-].
  destruct Hout as [(effect & -> & Hr) Hd].
  refine (conj eq_refl (conj eq_refl (conj eq_refl _))). exists effect.
  split; [done|]. split; [done|]. intros Hj. cbn. unfold durable_epoch in Hd at 1.
  by destruct (rg_journal (co_operations c)).
Qed.

(** C10. Cancellation is a fence: when an exact cancellation wins, the epoch moves
    one step, durably, together with the cancelled terminal; and after any later
    interleaving the operation can never claim a commit slot, while every
    dispatch, completion or commit under the old epoch is refused. *)
Theorem cancellation_fences i x (c c1 : Core J) e q ops :
  core_inv c -> rg_journal (co_operations c) <> None ->
  cancel_operation_and_advance i x c = (Ok (DispositionCancelled e q), c1) ->
  (x = co_epoch c /\ e = (x + 1)%N /\ co_epoch c1 = e /\
   durable_epoch (co_operations c1) = Some e /\
   (exists effect, q = Found (cancelled_snapshot i effect) /\
      query (ti_operation_id i) (co_operations c1) = q)) /\
  (forall f d, is_Ok (begin_operation_commit (ti_operation_id i) f d (core_run ops c1)).1 = false) /\
  (forall id f, is_Ok (mark_operation_executing_if_current x id f (core_run ops c1)).1 = false) /\
  (forall id d, is_Ok (finish_value_operation_if_current x id d (core_run ops c1)).1 = false) /\
  (forall id f d, is_Ok (begin_operation_commit_if_current x id f d (core_run ops c1)).1 = false).
Proof.
  intros Hc Hj Ha. destruct (keeps_cancel_advance _ _ _ _ _ Hc Ha) as [Hc1 [_ _ [_ _ Hjle _]]].
  apply cancel_advance_done in Ha as (Hx & -> & He & effect & -> & Hr & Hd); [|done].
  destruct (core_run_keeps ops c1 Hc1) as [Hc2 [_ He2 [_ _ Hj2 _]]].
  assert (Hstale : forall A (m : M (Core J) AgentError A), is_Ok (bind ensure_mutation_allowed
      (fun _ => bind (require_current_epoch x) (fun _ => m)) (core_run ops c1)).1 = false).
  { intros A m. destruct (rg_recovery_required (co_operations (core_run ops c1))) eqn:Ef.
    - unfold bind, ensure_mutation_allowed, operations, ensure_healthy. by rewrite Ef.
    - rewrite stale_gate; [done|done|lia]. }
  split; [|split; [|split; [|split]]].
  - refine (conj Hx (conj eq_refl (conj He (conj (Hd Hj) _)))). exists effect. split; [done|].
    unfold query. by rewrite Hr.
  - intros f d. destruct (begin_operation_commit _ f d _) as [[u|er] c3] eqn:Eb; [|done]. exfalso.
    apply begin_commit_needs in Eb as (s & Hs & Hst).
    destruct (rg_journal (co_operations c)) as [j0|]; [|done].
    destruct (rg_journal (co_operations c1)) as [j1|] eqn:Hj1; [|done].
    destruct (rg_journal (co_operations (core_run ops c1))) as [j2|] eqn:Hj2'; [|done].
    destruct Hc1 as [[_ Hcp1] _]. destruct (Hcp1 j1 Hj1) as (_ & Hsub1 & _).
    destruct Hc2 as [[_ Hcp2] _]. destruct (Hcp2 j2 Hj2') as (_ & Hsub2 & _).
    destruct Hj2 as [_ Hle]. destruct (Hle _ _ (lookup_weaken _ _ _ _ Hr Hsub1))
      as (s' & Hs' & _ & _ & Hterm).
    rewrite (Hterm (rank_terminal (Terminal effect CancelledBeforeCommit) _ eq_refl)) in Hs'. pose proof (lookup_weaken _ _ _ _ Hs Hsub2) as Hs2.
    rewrite Hs' in Hs2. injection Hs2 as <-. done.
  - intros. apply Hstale.
  - intros. apply Hstale.
  - intros. apply Hstale.
Qed.

(** ** A new process *)

Lemma registry_capacity_pos : 0 < DEFAULT_OPERATION_REGISTRY_CAPACITY.
Proof. by apply Nat.ltb_lt. Qed.

(** A new process fences the old one: when Core comes up over a journal, its
    epoch is one above everything the journal recovered and already durable; its
    invariant holds; every unresolved operation is still there, as recovered or
    with the terminal its evidence justifies; and if Core reports ready, nothing
    it holds is unresolved, unknown or undurable. *)
Theorem startup_fences_epoch run_id j rec b (c : Core J) :
  journal_inv j -> try_new run_id (Some j) rec b = Ok c ->
  core_inv c /\ (co_epoch c = tr_epoch (journal_truth j) + 1)%N /\
  durable_epoch (co_operations c) = Some (co_epoch c) /\
  (forall id s, tr_ops (journal_truth j) !! id = Some s -> is_terminal (os_state s) = false ->
     exists s', rg_records (co_operations c) !! id = Some s' /\ os_identity s' = os_identity s /\
       (s' = s \/ startup_verdict rec (Some b) s = Some (os_state s'))) /\
  (recovery_status (co_operations c) = Ready ->
   forall id s, rg_records (co_operations c) !! id = Some s -> settled (os_state s) = true).
Proof.
  intros Hj. unfold try_new. destruct (recover_journal j) as [rv|] eqn:Er; [|done]. cbn [rbind].
  destruct (recover_ok _ _ Hj Er) as [Ht Hnd].
  destruct (recover _ _ rv) as [r|] eqn:Erec; [|done]. cbn [rbind].
  destruct (recover_ok_inv _ _ _ _ registry_capacity_pos Hnd Erec)
    as (Hm & _ & Hj1 & Hh & Hsub & Hall).
  assert (Hinv : reg_inv r).
  { split; [exact Hm|]. rewrite Hj1. intros jx [= <-]. rewrite <- Ht.
    refine (conj Hj (conj Hsub _)). intros id [s Hs]. by eapply Hall. }
  destruct (checked_succ _) as [next|] eqn:En; [|done]. apply checked_succ_Some in En as [-> _].
  destruct (persist_epoch_advance _ _ r) as [[u|e] r1] eqn:Ep; [|done]. cbn [rbind].
  destruct (persist_epoch_advance_keeps _ _ _ _ _ Hinv Ep) as [Hinv1 _].
  assert (Hrec1 : rg_records r1 = rg_records r /\
    durable_epoch r1 = Some (rv_authority_epoch rv + 1)%N).
  { revert Ep. unfold persist_epoch_advance, bind, ensure_healthy. rewrite Hh. intros Ep.
    pose proof (append_transition_cases _ _ _ _ Ep) as (_ & Hr & _).
    apply append_epoch_durable in Ep as [_ Hd]; [|done]. unfold durable_epoch in Hd at 1.
    rewrite Hj1 in Hd. cbn in Hd. by destruct Hd. }
  destruct Hrec1 as [Hr1 Hd1]. intros [= <-].
  pose proof (startup_epoch rec (Some b) r1 Hinv1) as Hde.
  destruct (startup_outcome rec (Some b) r1 Hinv1) as (Hi & _ & Hrecs & Hready).
  assert (Hep : rv_authority_epoch rv = tr_epoch (journal_truth j)) by (by rewrite <- Ht).
  rewrite Hep in *. cbn [co_epoch co_operations fst snd].
  refine (conj _ (conj eq_refl (conj _ (conj _ Hready)))).
  - split; [exact Hi|]. cbn. rewrite Hde, Hd1. intros e [= <-]. split; [lia|done].
  - by rewrite Hde, Hd1.
  - intros id s Hs Hlive. rewrite <- Ht in Hs. destruct (Hall id s Hs) as [_ Hkept].
    apply Hrecs. rewrite Hr1. by apply Hkept.
Qed.

End theorems.
