(* ===== verification/Grants.v ===== *)
(** Standing grants: [TaskApprovalGate] of agent-core/approval.rs over any inner
    gate, and the fixed policy gate.

    The book of grants is a map; a hash map iterates in an order of its own, so an
    operation that iterates takes the order as an argument. The lock is held for the
    whole decision, which makes it one step; the clock is an argument. *)

From S2P Require Import Prelude Text Digest Jcs Operation Journal Wal Intent Registry Kernel JcsCanonical.

(** ** Grants (agent-contracts/approval.rs) *)

Record GrantTarget : Type := {
  gt_workspace_path_prefix : option text;
  gt_exec_argv_prefix : option (list text);
  gt_shell_command_digest : option text;
}.

Record GrantConstraint : Type := {
  gc_max_content_bytes : option N;
  gc_max_runs : option N;
}.

Record StandingGrant : Type := {
  sg_id : text;
  sg_risk : ToolRisk;
  sg_target : GrantTarget;
  sg_constraint : GrantConstraint;
  sg_expires_at_ms : N;
}.

Record ApprovalOutcome : Type := {
  ao_decision : ApprovalDecision;
  ao_denial : option ApprovalDenialReason;
}.

Definition outcome_of (decision : ApprovalDecision) : ApprovalOutcome :=
  {| ao_decision := decision; ao_denial := None |}.

(** ** The policy gate *)

Record PolicyApprovalGate : Type := {
  pg_allow_workspace_write : bool;
  pg_allow_process_execution : bool;
}.

Definition policy_authorize (g : PolicyApprovalGate) (spec : ToolSpec) : ApprovalDecision :=
  let allowed :=
    match tp_risk spec with
    | RiskReadOnly => true
    | RiskWorkspaceWrite => pg_allow_workspace_write g
    | RiskProcessExecution => pg_allow_process_execution g
    end in
  if allowed then Allow else Deny.

(** ** The grant gate *)

Definition GRANT_AUDIT_CAP : nat := 64.

Record GrantAuditEntry : Type := {
  ga_call_name : text;
  ga_risk : ToolRisk;
  ga_grant_id : option text;
}.

Record GrantEntry : Type := {
  ge_grant : StandingGrant;
  ge_runs_used : N;
}.

Record TaskApprovalGate : Type := {
  tg_grants : gmap text GrantEntry;
  tg_audit : list GrantAuditEntry;
}.

Definition gate_new : TaskApprovalGate := {| tg_grants := ∅; tg_audit := [] |}.

Definition set_grants (g : TaskApprovalGate) (grants : gmap text GrantEntry) : TaskApprovalGate :=
  {| tg_grants := grants; tg_audit := tg_audit g |}.

Definition blank (s : text) : bool := bool_decide (trim s = []).

(** The checks of [grant], before the clock is read. *)
Definition grant_target_check (grant : StandingGrant) : AgentResult unit :=
  if bool_decide (sg_id grant = [])
  then Err (InvalidRequest (txt "grant id must not be empty"))
  else
    match sg_risk grant with
    | RiskReadOnly => Err (InvalidRequest (txt
        "standing grants cover write/process effects, not read-only calls"))
    | RiskWorkspaceWrite =>
        match gt_workspace_path_prefix (sg_target grant) with
        | None => Err (InvalidRequest (txt
            "a workspace-write grant needs a workspace_path_prefix target"))
        | Some prefix =>
            match relative_components prefix with
            | None | Some [] => Err (InvalidRequest (txt
                "grant target must be a clean non-root workspace-relative path"))
            | Some _ => Ok tt
            end
        end
    | RiskProcessExecution =>
        let exec :=
          match gt_exec_argv_prefix (sg_target grant) with
          | Some tokens => existsb (fun token => negb (blank token)) tokens
          | None => false
          end in
        let shell :=
          match gt_shell_command_digest (sg_target grant) with
          | Some digest => negb (blank digest)
          | None => false
          end in
        match exec, shell with
        | true, false | false, true => Ok tt
        | true, true => Err (InvalidRequest (txt
            "a process grant cannot mix exec_argv_prefix and shell_command_digest"))
        | false, false => Err (InvalidRequest (txt
            "a process grant needs exec_argv_prefix or shell_command_digest"))
        end
    end.

(** [grant]: a grant with a known id replaces it, its runs too. *)
Definition establish (now : N) (grant : StandingGrant) : M TaskApprovalGate AgentError unit :=
  fun g =>
    match grant_target_check grant with
    | Err e => (Err e, g)
    | Ok _ =>
        if (sg_expires_at_ms grant <=? now)%N
        then (Err (InvalidRequest (txt "grant is already expired")), g)
        else (Ok tt, set_grants g
                (<[sg_id grant := {| ge_grant := grant; ge_runs_used := 0 |}]> (tg_grants g)))
    end.

Definition revoke (id : text) (g : TaskApprovalGate) : bool * TaskApprovalGate :=
  (bool_decide (is_Some (tg_grants g !! id)), set_grants g (delete id (tg_grants g))).

(** [book.retain]: expired grants go. *)
Definition prune (now : N) (book : gmap text GrantEntry) : gmap text GrantEntry :=
  filter (fun e => (now < sg_expires_at_ms (ge_grant e.2))%N) book.

(** The entries of a book in the order it iterates. *)
Definition entries (order : list text) (book : gmap text GrantEntry) : list (text * GrantEntry) :=
  omap (fun id => pair id <$> book !! id) order.

Definition active_grants (now : N) (order : list text) (g : TaskApprovalGate) :
    list StandingGrant * TaskApprovalGate :=
  let book := prune now (tg_grants g) in
  ((fun e => ge_grant e.2) <$> entries order book, set_grants g book).

Definition within_cap (cap : option N) (bytes : N) : bool :=
  match cap with Some max => (bytes <=? max)%N | None => true end.

Definition grant_matches (grant : StandingGrant) (intent : EffectIntent) : bool :=
  let target := sg_target grant in
  let cap := gc_max_content_bytes (sg_constraint grant) in
  bool_decide (sg_risk grant = intent_risk intent) &&
  match intent with
  | ReadOnly => false
  | WorkspaceWrite path content_bytes =>
      match gt_workspace_path_prefix target with
      | None => false
      | Some prefix => path_within_prefix path prefix && within_cap cap content_bytes
      end
  | WorkspaceWriteSet writes =>
      match gt_workspace_path_prefix target with
      | None => false
      | Some prefix =>
          negb (bool_decide (writes = []))
          && forallb (fun bound => path_within_prefix (wb_path bound) prefix) writes
          && within_cap cap
               (fold_left (fun total bound => saturating_add total (wb_max_bytes bound)) writes 0%N)
          && forallb (fun bound => within_cap cap (wb_max_bytes bound)) writes
      end
  | ExecArgv program argv =>
      match gt_exec_argv_prefix target with
      | None => false
      | Some prefix => covers (exec_argv_intent prefix) (ExecArgv program argv)
      end
  | ShellExec _ command_digest =>
      match gt_shell_command_digest target with
      | None => false
      | Some approved =>
          negb (bool_decide (approved = [])) && bool_decide (approved = command_digest)
      end
  end.

(** [record]: the oldest entry makes room. *)
Definition record (call_name : text) (risk : ToolRisk) (grant_id : option text)
    (g : TaskApprovalGate) : TaskApprovalGate :=
  let audit := if GRANT_AUDIT_CAP <=? length (tg_audit g) then drop 1 (tg_audit g) else tg_audit g in
  {| tg_grants := tg_grants g;
     tg_audit := audit ++ [{| ga_call_name := call_name; ga_risk := risk; ga_grant_id := grant_id |}] |}.

Definition exhausted (entry : GrantEntry) : bool :=
  match gc_max_runs (sg_constraint (ge_grant entry)) with
  | Some max => (max <=? ge_runs_used entry)%N
  | None => false
  end.

(** [id < grant_id], as strings. *)
Definition text_lt (a b : text) : bool := lex_le a b && negb (bool_decide (a = b)).

(** The denial kept is that of the least exhausted grant. *)
Definition note_exhausted (id : text) (entry : GrantEntry)
    (current : option ApprovalDenialReason) : option ApprovalDenialReason :=
  match gc_max_runs (sg_constraint (ge_grant entry)) with
  | None => current
  | Some max =>
      if match current with None => true | Some c => text_lt id (ad_grant_id c) end
      then Some {| ad_grant_id := id; ad_used := ge_runs_used entry; ad_max_runs := max |}
      else current
  end.

(** The loop of [authorize_with_grant_reason]: the grant that pays, or the denial. *)
Fixpoint scan_grants (intent : EffectIntent) (book : list (text * GrantEntry))
    (denial : option ApprovalDenialReason) : option text * option ApprovalDenialReason :=
  match book with
  | [] => (None, denial)
  | (id, entry) :: book' =>
      if negb (grant_matches (ge_grant entry) intent) then scan_grants intent book' denial
      else if exhausted entry then scan_grants intent book' (note_exhausted id entry denial)
      else (Some id, denial)
  end.

(** A run is consumed by process effects only; the count is a [u32]. *)
Definition is_exec (intent : EffectIntent) : bool :=
  match intent with ExecArgv _ _ | ShellExec _ _ => true | _ => false end.

Definition consume_run (id : text) (intent : EffectIntent) (g : TaskApprovalGate) :
    TaskApprovalGate :=
  if is_exec intent
  then set_grants g (alter (fun e => {| ge_grant := ge_grant e;
                                        ge_runs_used := (ge_runs_used e + 1) mod (u32_max + 1) |})
                       id (tg_grants g))
  else g.

Section gate.
Context `{CD : Codec} `{JN : JsonNumber}.

(** [host_policies.policy_for], when a policy source is installed. *)
Abbreviation Policies := (option (text -> option HostToolPolicy)).

Definition derive_effect_intent (policies : Policies) (call : ToolCall) (spec : ToolSpec) :
    EffectIntent :=
  match policies with
  | Some policy_for => effect_intent (policy_for (tl_name call)) (tl_arguments call) spec
  | None => unbound_effect_intent spec
  end.

(** [inner] is the answer of the underlying gate, should it be asked. *)
Definition authorize_with_grant_reason (policies : Policies) (now : N) (order : list text)
    (inner : AgentResult ApprovalDecision) (call : ToolCall) (spec : ToolSpec) :
    M TaskApprovalGate AgentError ApprovalOutcome := fun g =>
  if bool_decide (tp_risk spec = RiskReadOnly) then (Ok (outcome_of Allow), g)
  else
    let g := set_grants g (prune now (tg_grants g)) in
    let intent := derive_effect_intent policies call spec in
    if bool_decide (intent = ReadOnly)
    then (Ok (outcome_of Allow), record (tl_name call) (tp_risk spec) None g)
    else
      match scan_grants intent (entries order (tg_grants g)) None with
      | (Some id, _) =>
          (Ok (outcome_of Allow),
           record (tl_name call) (tp_risk spec) (Some id) (consume_run id intent g))
      | (None, denial) =>
          let g := record (tl_name call) (tp_risk spec) None g in
          match inner with
          | Err e => (Err e, g)
          | Ok decision =>
              (Ok {| ao_decision := decision;
                     ao_denial := if bool_decide (decision = Deny) then denial else None |}, g)
          end
      end.

Fixpoint shadow_scan (intent : EffectIntent) (book : list (text * GrantEntry)) : ShadowVerdict :=
  match book with
  | [] => ShadowDenied (txt "no live standing grant matches the derived intent")
  | (id, entry) :: book' =>
      if negb (grant_matches (ge_grant entry) intent) then shadow_scan intent book'
      else if exhausted entry then shadow_scan intent book'
      else ShadowGranted id (txt "derived intent matches standing grant")
  end.

Definition shadow_verdict (policies : Policies) (now : N) (order : list text) (call : ToolCall)
    (spec : ToolSpec) (g : TaskApprovalGate) : ShadowVerdict * TaskApprovalGate :=
  if bool_decide (tp_risk spec = RiskReadOnly)
  then (ShadowGranted (txt "read-only") (txt "read-only calls need no standing grant"), g)
  else
    let intent := derive_effect_intent policies call spec in
    if bool_decide (intent = ReadOnly)
    then (ShadowGranted (txt "session-control")
            (txt "process.session poll/stop do not spawn a new command"), g)
    else
      let book := prune now (tg_grants g) in
      (shadow_scan intent (entries order book), set_grants g book).

(** ** Histories of a gate *)

Inductive GateOp : Type :=
| GateGrant (now : N) (grant : StandingGrant)
| GateRevoke (id : text)
| GateList (now : N) (order : list text)
| GateAuthorize (now : N) (order : list text) (inner : AgentResult ApprovalDecision)
    (call : ToolCall) (spec : ToolSpec)
| GateShadow (now : N) (order : list text) (call : ToolCall) (spec : ToolSpec).

Definition gate_step (policies : Policies) (op : GateOp) (g : TaskApprovalGate) :
    TaskApprovalGate :=
  match op with
  | GateGrant now grant => (establish now grant g).2
  | GateRevoke id => (revoke id g).2
  | GateList now order => (active_grants now order g).2
  | GateAuthorize now order inner call spec =>
      (authorize_with_grant_reason policies now order inner call spec g).2
  | GateShadow now order call spec => (shadow_verdict policies now order call spec g).2
  end.

Definition gate_run (policies : Policies) (ops : list GateOp) (g : TaskApprovalGate) :
    TaskApprovalGate := fold_left (fun g op => gate_step policies op g) ops g.

End gate.

(** What standing grants can and cannot allow: the decision on every branch, the
    independence from the order the book iterates in, the shadow gate, and the
    envelope a grant can never leave. *)

(** ** Iteration *)

(** [order] is an order in which [book] iterates. *)
Definition iterates (order : list text) (book : gmap text GrantEntry) : Prop :=
  NoDup order /\ forall id, id ∈ order <-> is_Some (book !! id).

Lemma entries_elem order book id e :
  iterates order book -> (id, e) ∈ entries order book <-> book !! id = Some e.
Proof.
  intros [_ Hall]. unfold entries. rewrite list_elem_of_omap. split.
  - intros (id' & _ & H). destruct (book !! id') as [e'|] eqn:E; [|done]. cbn in H.
    by injection H as -> ->.
  - intros H. exists id. split; [apply Hall; by eexists|]. by rewrite H.
Qed.

Lemma prune_lookup now book id e :
  prune now book !! id = Some e <->
  book !! id = Some e /\ (now < sg_expires_at_ms (ge_grant e))%N.
Proof. unfold prune. by rewrite map_lookup_filter_Some. Qed.

Lemma prune_idemp now book : prune now (prune now book) = prune now book.
Proof.
  apply map_eq. intros id. apply option_eq. intros e. rewrite !prune_lookup. tauto.
Qed.

(** ** The scan *)

(** A grant of [book] that covers the intent; and one that can still pay for it. *)
Definition covering (intent : EffectIntent) (book : gmap text GrantEntry) (id : text)
    (e : GrantEntry) : Prop :=
  book !! id = Some e /\ grant_matches (ge_grant e) intent = true.

Definition can_pay (intent : EffectIntent) (book : gmap text GrantEntry) (id : text)
    (e : GrantEntry) : Prop :=
  covering intent book id e /\ exhausted e = false.

(** The denial to report: the least of the covering grants, all of them spent. *)
Definition least_denial (P : text -> GrantEntry -> Prop) (d : option ApprovalDenialReason) : Prop :=
  match d with
  | None => forall id e, ~ P id e
  | Some c => exists e max, P (ad_grant_id c) e /\
      gc_max_runs (sg_constraint (ge_grant e)) = Some max /\ ad_used c = ge_runs_used e /\
      ad_max_runs c = max /\ forall id' e', P id' e' -> lex_le (ad_grant_id c) id' = true
  end.

Lemma lex_le_refl a : lex_le a a = true.
Proof. by destruct (lex_le_total a a). Qed.

Lemma text_lt_false a b : text_lt a b = false -> lex_le b a = true.
Proof.
  unfold text_lt. rewrite andb_false_iff, negb_false_iff, bool_decide_eq_true.
  destruct (lex_le_total b a) as [|Hab]; [done|]. rewrite Hab. intros [[=]| ->]. apply lex_le_refl.
Qed.

Lemma text_lt_true a b : text_lt a b = true -> lex_le a b = true.
Proof. unfold text_lt. by intros [? _]%andb_true_iff. Qed.

Lemma least_extend (P Q : text -> GrantEntry -> Prop) id e d :
  least_denial P d -> exhausted e = true ->
  (forall id' e', Q id' e' <-> P id' e' \/ (id' = id /\ e' = e)) ->
  least_denial Q (note_exhausted id e d).
Proof.
  intros Hd He HQ. unfold exhausted in He. unfold note_exhausted.
  destruct (gc_max_runs (sg_constraint (ge_grant e))) as [max|] eqn:Em; [|done].
  assert (Hnew : (forall id' e', P id' e' -> lex_le id id' = true) ->
    least_denial Q (Some {| ad_grant_id := id; ad_used := ge_runs_used e; ad_max_runs := max |})).
  { intros Hle. exists e, max. split; [apply HQ; by right|]. split; [done|]. split; [done|].
    split; [done|]. intros id' e' [HP|[-> _]]%HQ; [by eapply Hle|apply lex_le_refl]. }
  destruct d as [c|].
  - destruct Hd as (ec & mc & HPc & Hmc & Hu & Hm & Hleast).
    destruct (text_lt id (ad_grant_id c)) eqn:Elt.
    + apply Hnew. intros id' e' HP. apply text_lt_true in Elt.
      eapply lex_le_trans; [exact Elt|by eapply Hleast].
    + exists ec, mc. split; [apply HQ; by left|]. split; [done|]. split; [done|]. split; [done|].
      intros id' e' [HP|[-> _]]%HQ; [by eapply Hleast|by apply text_lt_false].
  - apply Hnew. intros id' e' HP. by destruct (Hd id' e').
Qed.

Lemma least_ext (P Q : text -> GrantEntry -> Prop) d :
  (forall id e, P id e <-> Q id e) -> least_denial P d -> least_denial Q d.
Proof.
  intros HPQ. destruct d as [c|]; cbn; [|intros H id e HQ; by eapply H, HPQ].
  intros (e & max & HP & ? & ? & ? & Hl). exists e, max. split; [by apply HPQ|].
  do 3 (split; [done|]). intros id' e' HQ. by eapply Hl, HPQ.
Qed.

(** The covering entries of a list. *)
Definition covering_in (intent : EffectIntent) (es : list (text * GrantEntry)) (id : text)
    (e : GrantEntry) : Prop := (id, e) ∈ es /\ grant_matches (ge_grant e) intent = true.

Lemma covering_cons intent id e es id' e' :
  covering_in intent ((id, e) :: es) id' e' <->
  covering_in intent es id' e' \/ (grant_matches (ge_grant e) intent = true /\ id' = id /\ e' = e).
Proof.
  unfold covering_in. rewrite elem_of_cons. split.
  - intros [[[= -> ->]|Hin] Hm]; [by right|by left].
  - intros [[Hin Hm]|(Hm & -> & ->)]; (split; [|done]); [by right|by left].
Qed.

Lemma scan_spec intent es P d :
  least_denial P d ->
  match scan_grants intent es d with
  | (Some id, _) => exists e, covering_in intent es id e /\ exhausted e = false
  | (None, d') =>
      (forall id e, covering_in intent es id e -> exhausted e = true) /\
      least_denial (fun id e => P id e \/ covering_in intent es id e) d'
  end.
Proof.
  revert P d. induction es as [|[id e] es IH]; intros P d Hd; cbn [scan_grants].
  { split; [by intros ? ? [?%elem_of_nil _]|]. eapply least_ext; [|exact Hd].
    intros id e. split; [by left|]. by intros [?|[?%elem_of_nil _]]. }
  destruct (grant_matches (ge_grant e) intent) eqn:Em; cbn [negb].
  - destruct (exhausted e) eqn:Ee.
    2: { exists e. split; [|done]. apply covering_cons. right. done. }
    set (Q := fun id' e' => P id' e' \/ (id' = id /\ e' = e)).
    assert (HQ : least_denial Q (note_exhausted id e d)) by (by eapply least_extend).
    specialize (IH Q _ HQ). destruct (scan_grants intent es _) as [[id1|] d1].
    + destruct IH as (e1 & H1 & H2). exists e1. split; [|done]. apply covering_cons. by left.
    + destruct IH as [H1 H2]. split.
      * intros id' e' [Hc|(_ & -> & ->)]%covering_cons; [by eapply H1|done].
      * eapply least_ext; [|exact H2]. intros id' e'. rewrite covering_cons. unfold Q. tauto.
  - specialize (IH P d Hd). destruct (scan_grants intent es d) as [[id1|] d1].
    + destruct IH as (e1 & H1 & H2). exists e1. split; [|done]. apply covering_cons. by left.
    + destruct IH as [H1 H2]. split.
      * intros id' e' [Hc|(? & _)]%covering_cons; [by eapply H1|congruence].
      * eapply least_ext; [|exact H2]. intros id' e'. rewrite covering_cons, Em. intuition congruence.
Qed.

(** The scan of a book, from nothing. *)
Lemma scan_book intent order book :
  iterates order book ->
  match scan_grants intent (entries order book) None with
  | (Some id, _) => exists e, can_pay intent book id e
  | (None, d) => (forall id e, ~ can_pay intent book id e) /\ least_denial (covering intent book) d
  end.
Proof.
  intros Hit. assert (Hin : forall id e, covering_in intent (entries order book) id e <->
      covering intent book id e)
    by (intros id e; unfold covering_in, covering; by rewrite entries_elem).
  pose proof (scan_spec intent (entries order book) (fun _ _ => False) None) as H.
  destruct (scan_grants _ _ _) as [[id|] d].
  - destruct H as (e & Hc & He); [by intros ? ? []|]. exists e. by rewrite Hin in Hc.
  - destruct H as [H1 H2]; [by intros ? ? []|]. split.
    + intros id e [Hc He]. rewrite (H1 id e) in He; [done|by apply Hin].
    + eapply least_ext; [|exact H2]. intros id e. rewrite <- Hin. tauto.
Qed.

Lemma shadow_scan_spec intent es :
  shadow_scan intent es =
  match (scan_grants intent es None).1 with
  | Some id => ShadowGranted id (txt "derived intent matches standing grant")
  | None => ShadowDenied (txt "no live standing grant matches the derived intent")
  end.
Proof.
  generalize (@None ApprovalDenialReason). induction es as [|[id e] es IH]; intros d; cbn; [done|].
  destruct (grant_matches _ _); cbn; [|by apply IH]. destruct (exhausted e); [by apply IH|done].
Qed.

(** ** Decisions *)

Section gate.
Context `{CD : Codec} `{JN : JsonNumber}.
Implicit Types (policies : option (text -> option HostToolPolicy)) (g : TaskApprovalGate).

(** The entry after one more run. *)
Definition bumped (e : GrantEntry) : GrantEntry :=
  {| ge_grant := ge_grant e; ge_runs_used := (ge_runs_used e + 1) mod (u32_max + 1) |}.

Lemma record_grants name risk id g : tg_grants (record name risk id g) = tg_grants g.
Proof. done. Qed.

(** The decision of the grant gate on a call with an effect, for every order in
    which the book iterates. If some live grant covers the derived intent and has
    runs left, the call is allowed without asking the inner gate, exactly one such
    grant pays, and it pays a run exactly when the effect is a process; otherwise
    the inner gate's answer stands, and a denial is explained by the least spent
    grant that covers the intent, if there is one. Expired grants are gone either
    way. *)
Theorem grant_decision policies now order inner call spec g res g' :
  tp_risk spec <> RiskReadOnly ->
  derive_effect_intent policies call spec <> ReadOnly ->
  iterates order (prune now (tg_grants g)) ->
  authorize_with_grant_reason policies now order inner call spec g = (res, g') ->
  let intent := derive_effect_intent policies call spec in
  let book := prune now (tg_grants g) in
  ((exists id e, can_pay intent book id e) ->
     res = Ok (outcome_of Allow) /\ exists id e, can_pay intent book id e /\
     tg_grants g' = if is_exec intent then <[id := bumped e]> book else book) /\
  ((forall id e, ~ can_pay intent book id e) ->
     tg_grants g' = book /\
     match inner with
     | Err e => res = Err e
     | Ok decision => exists denial, least_denial (covering intent book) denial /\
         res = Ok {| ao_decision := decision;
                     ao_denial := if bool_decide (decision = Deny) then denial else None |}
     end).
Proof.
  intros Hrisk Hint Hit. unfold authorize_with_grant_reason.
  rewrite bool_decide_eq_false_2 by done. cbn zeta.
  rewrite bool_decide_eq_false_2 by done. cbn [tg_grants set_grants].
  set (intent := derive_effect_intent _ _ _). set (book := prune now _) in *.
  pose proof (scan_book intent order book Hit) as Hscan.
  destruct (scan_grants intent (entries order book) None) as [[id|] denial].
  - destruct Hscan as [e He]. intros [= <- <-]. split; [|by intros Hno; destruct (Hno id e)].
    intros _. split; [done|]. exists id, e. split; [done|]. rewrite record_grants.
    unfold consume_run. destruct (is_exec intent); [|done]. cbn [tg_grants set_grants].
    destruct He as [[Hb _] _]. apply map_eq. intros id'. destruct (decide (id' = id)) as [->|Hne].
    + by rewrite lookup_alter, lookup_insert, Hb, !decide_True.
    + by rewrite lookup_alter_ne, lookup_insert_ne.
  - destruct Hscan as [Hno Hleast]. intros Hres. split; [intros (id & e & He); by destruct (Hno id e)|].
    intros _. destruct inner as [decision|err]; injection Hres as <- <-; (split; [done|]); [|done].
    by exists denial.
Qed.

(** The shadow gate never grants what the legacy gate refuses: if the shadow
    verdict on a call is [Granted], then authorizing the same call at the same time,
    on the book as it was or as the shadow gate left it, whatever order each of the
    two iterates in and whatever the inner gate would say, allows it. *)
Theorem shadow_within_legacy policies now order order' inner call spec g id reason g1 :
  iterates order (prune now (tg_grants g)) -> iterates order' (prune now (tg_grants g)) ->
  shadow_verdict policies now order call spec g = (ShadowGranted id reason, g1) ->
  (authorize_with_grant_reason policies now order' inner call spec g).1 = Ok (outcome_of Allow) /\
  (authorize_with_grant_reason policies now order' inner call spec g1).1 = Ok (outcome_of Allow).
Proof.
  intros Hit Hit'. unfold shadow_verdict, authorize_with_grant_reason. cbn zeta.
  case_bool_decide as Hrisk; [done|]. case_bool_decide as Hint; [done|].
  set (intent := derive_effect_intent _ _ _) in *. cbn [tg_grants set_grants].
  set (book := prune now (tg_grants g)) in *. rewrite shadow_scan_spec.
  pose proof (scan_book intent order book Hit) as H1.
  pose proof (scan_book intent order' book Hit') as H2.
  destruct (scan_grants intent (entries order book) None) as [[id1|] d1]; [|done].
  destruct H1 as [e1 He1]. intros [= <- <- <-]. cbn [tg_grants set_grants].
  assert (Hidem : prune now book = book) by apply prune_idemp. rewrite Hidem.
  destruct (scan_grants intent (entries order' book) None) as [[id2|] d2]; [done|].
  destruct H2 as [Hno _]. by destruct (Hno id1 e1).
Qed.

(** ** Grants only shrink *)

(** The run an operation takes from a grant. *)
Definition paid_by policies (op : GateOp) g : option text :=
  match op with
  | GateAuthorize now order _ call spec =>
      let intent := derive_effect_intent policies call spec in
      if bool_decide (tp_risk spec = RiskReadOnly) || bool_decide (intent = ReadOnly)
         || negb (is_exec intent) then None
      else (scan_grants intent (entries order (prune now (tg_grants g))) None).1
  | _ => None
  end.

Fixpoint paid_runs policies (id : text) (ops : list GateOp) g : nat :=
  match ops with
  | [] => 0
  | op :: ops' =>
      (if bool_decide (paid_by policies op g = Some id) then 1 else 0)
      + paid_runs policies id ops' (gate_step policies op g)
  end.

Definition grants_id (op : GateOp) (id : text) : Prop :=
  match op with GateGrant _ grant => sg_id grant = id | _ => False end.

Definition orders_ok (op : GateOp) g : Prop :=
  match op with
  | GateAuthorize now order _ _ _ => iterates order (prune now (tg_grants g))
  | _ => True
  end.

(** What one operation does to the entry of an id it does not establish. *)
Lemma gate_step_entry policies op g id e' :
  ~ grants_id op id -> tg_grants (gate_step policies op g) !! id = Some e' ->
  exists e, tg_grants g !! id = Some e /\
    e' = if bool_decide (paid_by policies op g = Some id) then bumped e else e.
Proof.
  intros Hid. destruct op as [now grant|id'|now order|now order inner call spec|now order call spec];
    cbn [gate_step paid_by].
  - unfold establish. destruct (grant_target_check grant); [|by intros H; exists e'].
    destruct (_ <=? _)%N; [by intros H; exists e'|]. cbn. rewrite lookup_insert_ne by done.
    intros H; by exists e'.
  - cbn. intros [_ H]%lookup_delete_Some. by exists e'.
  - cbn. intros [H _]%prune_lookup. by exists e'.
  - unfold authorize_with_grant_reason. cbn zeta.
    destruct (bool_decide (tp_risk spec = RiskReadOnly)); [intros H; by exists e'|].
    destruct (bool_decide (_ = ReadOnly)); cbn [orb]; [intros [H _]%prune_lookup; by exists e'|].
    cbn [tg_grants set_grants]. unfold consume_run.
    destruct (scan_grants _ _ None) as [[id1|] d1] eqn:Es.
    + destruct (is_exec _); cbn [negb fst]; [|intros [H _]%prune_lookup; by exists e'].
      cbn [snd record tg_grants set_grants]. destruct (decide (id1 = id)) as [->|Hne].
      * rewrite lookup_alter, decide_True by done. intros (e & H & He)%fmap_Some.
        apply prune_lookup in H as [H _]. exists e. by rewrite bool_decide_eq_true_2.
      * rewrite lookup_alter_ne by done. intros [H _]%prune_lookup. exists e'.
        rewrite bool_decide_eq_false_2; [done|congruence].
    + cbn [fst]. replace (if negb _ then None else None) with (@None text) by by case_match.
      rewrite bool_decide_eq_false_2 by done.
      destruct inner; cbn [snd record tg_grants set_grants]; intros [H _]%prune_lookup; by exists e'.
  - unfold shadow_verdict. cbn zeta. destruct (bool_decide (tp_risk spec = RiskReadOnly)); [intros H; by exists e'|].
    destruct (bool_decide (_ = ReadOnly)); [intros H; by exists e'|].
    cbn. intros [H _]%prune_lookup. by exists e'.
Qed.

(** A grant that pays has a run left. *)
Lemma paid_by_left policies op g id :
  orders_ok op g -> paid_by policies op g = Some id ->
  exists e, tg_grants g !! id = Some e /\ exhausted e = false.
Proof.
  destruct op as [| | |now order inner call spec|]; cbn; try done. intros Hit.
  destruct (_ || _); [done|]. intros H.
  pose proof (scan_book (derive_effect_intent policies call spec) order _ Hit) as Hscan.
  destruct (scan_grants _ _ None) as [[id1|] d1]; [|done]. cbn in H. injection H as ->.
  destruct Hscan as (e & [Hb _] & He). apply prune_lookup in Hb as [Hb _]. by exists e.
Qed.

(** A run of the gate that does not establish [id], each decision iterating the
    book it finds. *)
Fixpoint well_run policies (id : text) (ops : list GateOp) g : Prop :=
  match ops with
  | [] => True
  | op :: ops' => ~ grants_id op id /\ orders_ok op g /\ well_run policies id ops' (gate_step policies op g)
  end.

Lemma gone_stays policies id ops g :
  well_run policies id ops g -> tg_grants g !! id = None -> paid_runs policies id ops g = 0.
Proof.
  revert g. induction ops as [|op ops IH]; intros g; cbn; [done|]. intros (Hid & Ho & Hw) Hg.
  rewrite bool_decide_eq_false_2.
  - apply IH; [done|]. destruct (tg_grants (gate_step policies op g) !! id) as [e'|] eqn:E; [|done].
    destruct (gate_step_entry _ _ _ _ _ Hid E) as (e & He & _). congruence.
  - intros Hp. destruct (paid_by_left _ _ _ _ Ho Hp) as (e & He & _). congruence.
Qed.

Lemma runs_left policies id ops g e max :
  well_run policies id ops g -> tg_grants g !! id = Some e ->
  gc_max_runs (sg_constraint (ge_grant e)) = Some max -> (max <= u32_max)%N ->
  (ge_runs_used e <= max)%N ->
  (ge_runs_used e + N.of_nat (paid_runs policies id ops g) <= max)%N.
Proof.
  revert g e. induction ops as [|op ops IH]; intros g e; cbn [paid_runs well_run]; [intros; lia|].
  intros (Hid & Ho & Hw) He Hmax Hu32 Hused.
  destruct (tg_grants (gate_step policies op g) !! id) as [e'|] eqn:E.
  - destruct (gate_step_entry _ _ _ _ _ Hid E) as (e0 & He0 & He').
    rewrite He in He0. injection He0 as <-.
    case_bool_decide as Hp.
    + destruct (paid_by_left _ _ _ _ Ho Hp) as (e0 & He0 & Hex).
      rewrite He in He0. injection He0 as <-. unfold exhausted in Hex. rewrite Hmax in Hex.
      apply N.leb_gt in Hex. subst e'.
      assert (Hb : ge_runs_used (bumped e) = (ge_runs_used e + 1)%N) by (cbn; apply N.mod_small; lia).
      specialize (IH _ _ Hw E Hmax Hu32). rewrite Hb in IH. lia.
    + subst e'. specialize (IH _ _ Hw E Hmax Hu32 Hused). lia.
  - rewrite (gone_stays policies id ops) by done. case_bool_decide as Hp; [|lia].
    destruct (paid_by_left _ _ _ _ Ho Hp) as (e0 & He0 & Hex).
    rewrite He in He0. injection He0 as <-. unfold exhausted in Hex. rewrite Hmax in Hex.
    apply N.leb_gt in Hex. lia.
Qed.

(** C9. A standing grant only shrinks: after it is established with a cap of [max]
    runs, at most [max] process effects are ever allowed on it, over any history of
    decisions, shadow verdicts, listings, revocations and other grants, until the
    same id is established again; and whatever the gate still holds under that id
    is the very grant that was established, not a wider one. *)
Theorem grant_only_shrinks policies now grant g u g1 max ops :
  establish now grant g = (Ok u, g1) ->
  gc_max_runs (sg_constraint grant) = Some max -> (max <= u32_max)%N ->
  well_run policies (sg_id grant) ops g1 ->
  (N.of_nat (paid_runs policies (sg_id grant) ops g1) <= max)%N /\
  forall e, tg_grants (gate_run policies ops g1) !! sg_id grant = Some e -> ge_grant e = grant.
Proof.
  unfold establish. destruct (grant_target_check grant); [|done].
  destruct (_ <=? _)%N; [done|]. intros [= _ <-] Hmax Hu32.
  set (e0 := {| ge_grant := grant; ge_runs_used := 0 |}).
  set (g1 := set_grants g _). intros Hw.
  assert (He0 : tg_grants g1 !! sg_id grant = Some e0)
    by (cbn; by rewrite lookup_insert, decide_True).
  split.
  - pose proof (runs_left policies _ ops g1 e0 max Hw He0 Hmax Hu32) as H. cbn in H. lia.
  - assert (Hg : forall e, tg_grants g1 !! sg_id grant = Some e -> ge_grant e = grant)
      by (intros e; rewrite He0; by intros [= <-]).
    clearbody g1. clear He0. revert g1 Hw Hg. induction ops as [|op ops IH]; intros g1; cbn; [done|].
    intros (Hid & _ & Hw) Hg. apply IH; [done|]. intros e' He'.
    destruct (gate_step_entry _ _ _ _ _ Hid He') as (e & He & ->).
    destruct (bool_decide _); cbn; by apply Hg.
Qed.

(** ** The envelope of a grant *)

(** What an effect of this intent may touch, for a grant. *)
Definition inside (grant : StandingGrant) (intent : EffectIntent) : Prop :=
  intent_risk intent = sg_risk grant /\
  (forall q, q ∈ approved_workspace_paths intent ->
     exists prefix pre parts, gt_workspace_path_prefix (sg_target grant) = Some prefix /\
       relative_components prefix = Some pre /\ relative_components q = Some parts /\
       pre `prefix_of` parts) /\
  match intent with
  | ReadOnly => False
  | ExecArgv program argv => exists rest,
      gt_exec_argv_prefix (sg_target grant) = Some (program :: rest) /\ program <> [] /\
      rest `prefix_of` argv
  | ShellExec _ digest => gt_shell_command_digest (sg_target grant) = Some digest /\ digest <> []
  | _ => True
  end.

Lemma within_inside path prefix q :
  path_within_prefix path prefix = true -> canonical_workspace_relative_path path = Some q ->
  exists pre parts, relative_components prefix = Some pre /\ relative_components q = Some parts /\
    pre `prefix_of` parts.
Proof.
  intros (parts & pre & H1 & H2 & H3)%within_prefix_iff Hq.
  exists pre, parts. by rewrite (canonical_components _ _ Hq).
Qed.

Lemma matches_inside grant intent : grant_matches grant intent = true -> inside grant intent.
Proof.
  unfold grant_matches. rewrite andb_true_iff, bool_decide_eq_true. intros [Hrisk Hm].
  split; [done|]. destruct intent as [|path n|writes|program argv|d digest]; [done| | | |].
  - destruct (gt_workspace_path_prefix _) as [prefix|]; [|done].
    apply andb_true_iff in Hm as [Hm _]. split; [|done]. cbn. intros q Hq.
    destruct (canonical_workspace_relative_path path) as [q'|] eqn:E; [|by apply elem_of_nil in Hq].
    apply list_elem_of_singleton in Hq as ->.
    destruct (within_inside _ _ _ Hm E) as (pre & parts & ?). by exists prefix, pre, parts.
  - destruct (gt_workspace_path_prefix _) as [prefix|]; [|done].
    rewrite !andb_true_iff in Hm. destruct Hm as [[[_ Hall] _] _]. split; [|done]. cbn.
    intros q (b & Hin & Hq)%list_elem_of_omap. rewrite forallb_forall in Hall.
    destruct (within_inside _ _ _ (Hall b ltac:(by apply list_elem_of_In)) Hq) as (pre & parts & ?).
    by exists prefix, pre, parts.
  - split; [by intros q ?%elem_of_nil|]. destruct (gt_exec_argv_prefix _) as [tokens|]; [|done].
    destruct tokens as [|p rest]; [done|]. unfold exec_argv_intent in Hm.
    case_bool_decide; [done|]. apply covers_exec in Hm as (Hp & -> & Hpre). by exists rest.
  - split; [by intros q ?%elem_of_nil|]. destruct (gt_shell_command_digest _) as [approved|]; [|done].
    rewrite andb_true_iff, negb_true_iff, bool_decide_eq_false, bool_decide_eq_true in Hm.
    by destruct Hm as [? ->].
Qed.

(** The envelope of a grant: an intent it matches is of the grant's own kind;
    every workspace file the intent names (by canonical path, all of a multi-file
    call) lies under the granted prefix, which for a grant the gate accepts is a
    proper directory or file and never the workspace root; a process must be the
    granted program, with the granted leading arguments, whole; a shell command
    must be the granted one. And what such an intent covers is in the same
    envelope. *)
Theorem grant_envelope now grant g u g1 intent actual :
  establish now grant g = (Ok u, g1) -> grant_matches grant intent = true ->
  covers intent actual = true ->
  inside grant intent /\ inside grant actual /\
  forall prefix, sg_risk grant = RiskWorkspaceWrite ->
    gt_workspace_path_prefix (sg_target grant) = Some prefix ->
    exists part parts, relative_components prefix = Some (part :: parts).
Proof.
  intros He Hm Hc. pose proof (matches_inside _ _ Hm) as Hin. split; [done|]. split.
  - destruct Hin as (Hr & Hp & Hk).
    destruct (proj2 (coverage_facts intent actual) Hc) as [Hrisk Hsub].
    split; [by rewrite <- Hrisk|]. split; [intros q Hq; by apply Hp, Hsub|].
    destruct intent as [|p n|writes|program argv|d digest], actual as [|p' n'|writes'|program' argv'|d' digest'];
      try done.
    + apply covers_exec in Hc as (Hne & <- & Hpre). destruct Hk as (rest & Ht & Hne' & Hpre').
      exists rest. split; [done|]. split; [done|]. by trans argv.
    + cbn [covers] in Hc. rewrite !andb_true_iff, !bool_decide_eq_true in Hc.
      destruct Hc as [[_ <-] _]. done.
  - intros prefix Hr Ht. unfold establish, grant_target_check in He. rewrite Hr, Ht in He.
    case_bool_decide; [done|]. destruct (relative_components prefix) as [[|part parts]|]; try done.
    by exists part, parts.
Qed.

End gate.
