(* ===== verification/Interactive.v ===== *)
(** The interactive approval gate: [ApprovalBroker] and [InteractiveApprovalGate] of
    agent-core/approval.rs, as a machine whose steps are the stretches of code between
    two awaits. Any number of calls wait for a decision while responders answer, calls
    are cancelled or time out, and a user interface subscribes and drains.

    A request id is a fresh UUID. A [oneshot] channel is what became of its sender: the
    value sent, or [None] when it was dropped; until then the sender is the entry of
    the decisions map, or in the hands of a responder. A call of [authorize] is polled
    until it returns; a call of [respond] may be dropped at an await. *)

From S2P Require Import Prelude Text Operation Intent Jcs Kernel.

Section interactive.
Context `{JN : JsonNumber}.

Record ApprovalRequest : Type := {
  aq_request_id : N;
  aq_call : ToolCall;
  aq_spec : ToolSpec;
}.

(** Where a call of [authorize] stands. *)
Inductive AuthorizePhase : Type :=
| Registered                                  (* its sender is in the decisions map *)
| Announced                                   (* the request was broadcast *)
| Waiting                                     (* and queued; in the select *)
| Received (answer : AgentResult ApprovalDecision)  (* its channel was settled *)
| Leaving (error : AgentError)                (* cancelled or timed out *)
| Forgotten (error : AgentError)              (* and its sender removed *)
| Returned (result : AgentResult ApprovalDecision).

Record AuthorizeCall : Type := {
  cl_request : ApprovalRequest;
  cl_phase : AuthorizePhase;
}.

(** Where a call of [respond] stands. *)
Inductive RespondPhase : Type :=
| Taken                      (* it took the sender *)
| Unqueued                   (* and removed the request *)
| Responded (known : bool)
| RespondDropped.

Record RespondCall : Type := {
  rp_request_id : N;
  rp_decision : ApprovalDecision;
  rp_phase : RespondPhase;
}.

Record Interactive : Type := {
  in_calls : gmap N AuthorizeCall;
  in_decisions : gset N;
  in_pending : list ApprovalRequest;
  in_broadcast : list ApprovalRequest;        (* everything ever announced *)
  in_sent : gmap N (option ApprovalDecision);
  in_responders : gmap N RespondCall;
  in_subscribed : option nat;                 (* what had been broadcast by then *)
  in_drained : list ApprovalRequest;
}.

Definition interactive_new : Interactive := {|
  in_calls := ∅; in_decisions := ∅; in_pending := []; in_broadcast := []; in_sent := ∅;
  in_responders := ∅; in_subscribed := None; in_drained := [] |}.

Definition set_calls (s : Interactive) calls := {|
  in_calls := calls; in_decisions := in_decisions s; in_pending := in_pending s;
  in_broadcast := in_broadcast s; in_sent := in_sent s; in_responders := in_responders s;
  in_subscribed := in_subscribed s; in_drained := in_drained s |}.

Definition set_decisions (s : Interactive) decisions := {|
  in_calls := in_calls s; in_decisions := decisions; in_pending := in_pending s;
  in_broadcast := in_broadcast s; in_sent := in_sent s; in_responders := in_responders s;
  in_subscribed := in_subscribed s; in_drained := in_drained s |}.

Definition set_pending (s : Interactive) pending := {|
  in_calls := in_calls s; in_decisions := in_decisions s; in_pending := pending;
  in_broadcast := in_broadcast s; in_sent := in_sent s; in_responders := in_responders s;
  in_subscribed := in_subscribed s; in_drained := in_drained s |}.

Definition set_broadcast (s : Interactive) broadcast := {|
  in_calls := in_calls s; in_decisions := in_decisions s; in_pending := in_pending s;
  in_broadcast := broadcast; in_sent := in_sent s; in_responders := in_responders s;
  in_subscribed := in_subscribed s; in_drained := in_drained s |}.

Definition set_sent (s : Interactive) sent := {|
  in_calls := in_calls s; in_decisions := in_decisions s; in_pending := in_pending s;
  in_broadcast := in_broadcast s; in_sent := sent; in_responders := in_responders s;
  in_subscribed := in_subscribed s; in_drained := in_drained s |}.

Definition set_responders (s : Interactive) responders := {|
  in_calls := in_calls s; in_decisions := in_decisions s; in_pending := in_pending s;
  in_broadcast := in_broadcast s; in_sent := in_sent s; in_responders := responders;
  in_subscribed := in_subscribed s; in_drained := in_drained s |}.

Definition set_view (s : Interactive) subscribed drained := {|
  in_calls := in_calls s; in_decisions := in_decisions s; in_pending := in_pending s;
  in_broadcast := in_broadcast s; in_sent := in_sent s; in_responders := in_responders s;
  in_subscribed := subscribed; in_drained := drained |}.

(** ** The broker *)

(** [push] is two steps: the broadcast, then the queue. *)
Definition broker_notify (request : ApprovalRequest) (s : Interactive) : Interactive :=
  set_broadcast s (in_broadcast s ++ [request]).

Definition broker_queue (request : ApprovalRequest) (s : Interactive) : Interactive :=
  set_pending s (in_pending s ++ [request]).

Definition broker_remove (request_id : N) (s : Interactive) : Interactive :=
  set_pending s (filter (fun request => aq_request_id request <> request_id) (in_pending s)).

(** ** Calls of [authorize] *)

Definition moved (call : AuthorizeCall) (phase : AuthorizePhase) (s : Interactive) : Interactive :=
  set_calls s (<[aq_request_id (cl_request call) := {| cl_request := cl_request call; cl_phase := phase |}]>
    (in_calls s)).

(** The entry: a read-only call never asks. *)
Definition authorize_start (request_id : N) (call : ToolCall) (spec : ToolSpec) (s : Interactive) :
    option Interactive :=
  match in_calls s !! request_id with
  | Some _ => None
  | None =>
      let fresh := {| cl_request := {| aq_request_id := request_id; aq_call := call; aq_spec := spec |};
                      cl_phase := Registered |} in
      if bool_decide (tp_risk spec = RiskReadOnly)
      then Some (moved fresh (Returned (Ok Allow)) s)
      else Some (moved fresh Registered (set_decisions s ({[ request_id ]} ∪ in_decisions s)))
  end.

(** The steps a call takes on its own, outside the select. *)
Definition authorize_move (call : AuthorizeCall) (s : Interactive) : option Interactive :=
  let request := cl_request call in
  match cl_phase call with
  | Registered => Some (moved call Announced (broker_notify request s))
  | Announced => Some (moved call Waiting (broker_queue request s))
  | Received answer => Some (moved call (Returned answer) (broker_remove (aq_request_id request) s))
  | Leaving error =>
      Some (moved call (Forgotten error)
              (set_decisions s (in_decisions s ∖ {[ aq_request_id request ]})))
  | Forgotten error => Some (moved call (Returned (Err error)) (broker_remove (aq_request_id request) s))
  | Waiting | Returned _ => None
  end.

(** The three branches of the select. *)
Inductive SelectBranch : Type := DecisionArrives | CancelFires | TimeoutFires.

Definition authorize_select (branch : SelectBranch) (call : AuthorizeCall) (s : Interactive) :
    option Interactive :=
  match cl_phase call with
  | Waiting =>
      match branch with
      | DecisionArrives =>
          match in_sent s !! aq_request_id (cl_request call) with
          | Some (Some decision) => Some (moved call (Received (Ok decision)) s)
          | Some None =>
              Some (moved call (Received (Err (ApprovalDenied
                (txt "approval request dropped (no responder)")))) s)
          | None => None
          end
      | CancelFires => Some (moved call (Leaving Cancelled) s)
      | TimeoutFires =>
          Some (moved call (Leaving (ApprovalDenied (txt "approval request timed out (no response)"))) s)
      end
  | _ => None
  end.

(** ** Calls of [respond] *)

Definition put_responder (k request_id : N) (decision : ApprovalDecision) (phase : RespondPhase)
    (s : Interactive) : Interactive :=
  set_responders s (<[k := {| rp_request_id := request_id; rp_decision := decision; rp_phase := phase |}]>
    (in_responders s)).

Definition respond_start (k request_id : N) (decision : ApprovalDecision) (s : Interactive) :
    option Interactive :=
  match in_responders s !! k with
  | Some _ => None
  | None =>
      if bool_decide (request_id ∈ in_decisions s)
      then Some (put_responder k request_id decision Taken
                   (set_decisions s (in_decisions s ∖ {[ request_id ]})))
      else Some (put_responder k request_id decision (Responded false) s)
  end.

Definition respond_move (k : N) (s : Interactive) : option Interactive :=
  match in_responders s !! k with
  | Some r =>
      let request_id := rp_request_id r in
      match rp_phase r with
      | Taken =>
          Some (put_responder k request_id (rp_decision r) Unqueued (broker_remove request_id s))
      | Unqueued =>
          Some (put_responder k request_id (rp_decision r) (Responded true)
                  (set_sent s (<[request_id := Some (rp_decision r)]> (in_sent s))))
      | Responded _ | RespondDropped => None
      end
  | None => None
  end.

(** The responder goes away, and the sender with it. *)
Definition respond_drop (k : N) (s : Interactive) : option Interactive :=
  match in_responders s !! k with
  | Some r =>
      match rp_phase r with
      | Taken | Unqueued =>
          Some (put_responder k (rp_request_id r) (rp_decision r) RespondDropped
                  (set_sent s (<[rp_request_id r := None]> (in_sent s))))
      | Responded _ | RespondDropped => None
      end
  | None => None
  end.

(** ** The machine *)

Inductive InteractiveStep : Type :=
| AuthorizeStarts (request_id : N) (call : ToolCall) (spec : ToolSpec)
| AuthorizeMoves (request_id : N)
| AuthorizeSelects (request_id : N) (branch : SelectBranch)
| RespondStarts (k request_id : N) (decision : ApprovalDecision)
| RespondMoves (k : N)
| RespondDrops (k : N)
| Subscribes
| Drains.

Definition interactive_step (step : InteractiveStep) (s : Interactive) : option Interactive :=
  match step with
  | AuthorizeStarts request_id call spec => authorize_start request_id call spec s
  | AuthorizeMoves request_id => in_calls s !! request_id ≫= (fun call => authorize_move call s)
  | AuthorizeSelects request_id branch =>
      in_calls s !! request_id ≫= (fun call => authorize_select branch call s)
  | RespondStarts k request_id decision => respond_start k request_id decision s
  | RespondMoves k => respond_move k s
  | RespondDrops k => respond_drop k s
  | Subscribes => Some (set_view s (Some (length (in_broadcast s))) (in_drained s))
  | Drains => Some (set_view s (in_subscribed s) (in_drained s ++ in_pending s))
  end.

Fixpoint interactive_run (steps : list InteractiveStep) (s : Interactive) : option Interactive :=
  match steps with
  | [] => Some s
  | step :: steps' => interactive_step step s ≫= interactive_run steps'
  end.

(** What the user interface was shown. *)
Definition shown (s : Interactive) : list ApprovalRequest :=
  in_drained s ++ match in_subscribed s with
                  | Some mark => drop mark (in_broadcast s)
                  | None => []
                  end.

End interactive.
