(* ===== verification/InteractiveTheorems.v ===== *)
(** The interactive gate: no call is allowed without an answer of its own, nothing is
    left behind, every call ends; and a window in which a request reaches nobody. *)

From S2P Require Import Prelude Text Operation Intent Jcs Kernel Interactive.

Section theorems.
Context `{JN : JsonNumber}.
Implicit Types (s : Interactive) (c : AuthorizeCall) (q : ApprovalRequest).

(** Phases in which the sender may still be in the decisions map. *)
Definition keeps_sender (phase : AuthorizePhase) : bool :=
  match phase with Registered | Announced | Waiting | Leaving _ => true | _ => false end.

(** Phases in which the request may be queued. *)
Definition keeps_request (phase : AuthorizePhase) : bool :=
  match phase with Waiting | Received _ | Leaving _ | Forgotten _ => true | _ => false end.

(** The responder took the sender. *)
Definition took (phase : RespondPhase) : bool :=
  match phase with Responded false => false | _ => true end.

Definition answer_of (phase : AuthorizePhase) : option ApprovalDecision :=
  match phase with Received (Ok d) | Returned (Ok d) => Some d | _ => None end.

Definition settled_as (o : option ApprovalDecision) (r : RespondCall) : Prop :=
  match o with
  | Some d => rp_phase r = Responded true /\ rp_decision r = d
  | None => rp_phase r = RespondDropped
  end.

Record interactive_inv s : Prop := {
  ii_id : forall id c, in_calls s !! id = Some c -> aq_request_id (cl_request c) = id;
  ii_decisions : forall id, id ∈ in_decisions s -> exists c, in_calls s !! id = Some c /\
    keeps_sender (cl_phase c) = true;
  ii_pending : forall q, q ∈ in_pending s -> exists c, in_calls s !! aq_request_id q = Some c /\
    cl_request c = q /\ keeps_request (cl_phase c) = true;
  ii_taken : forall k r, in_responders s !! k = Some r -> took (rp_phase r) = true ->
    rp_request_id r ∉ in_decisions s /\ is_Some (in_calls s !! rp_request_id r);
  ii_one : forall k k' r r', in_responders s !! k = Some r -> in_responders s !! k' = Some r' ->
    took (rp_phase r) = true -> took (rp_phase r') = true ->
    rp_request_id r = rp_request_id r' -> k = k';
  ii_sent : forall id o, in_sent s !! id = Some o -> exists k r, in_responders s !! k = Some r /\
    rp_request_id r = id /\ settled_as o r;
  ii_answer : forall id c d, in_calls s !! id = Some c -> answer_of (cl_phase c) = Some d ->
    (tp_risk (aq_spec (cl_request c)) = RiskReadOnly /\ d = Allow) \/ in_sent s !! id = Some (Some d);
}.

Lemma inv_new : interactive_inv interactive_new.
Proof.
  split; try done; cbn; intros *; try (by rewrite lookup_empty); by intros ?%elem_of_nil || set_solver.
Qed.

Lemma inv_notify q s : interactive_inv s -> interactive_inv (broker_notify q s).
Proof. by intros []. Qed.

Lemma inv_queue q s c :
  interactive_inv s -> in_calls s !! aq_request_id q = Some c -> cl_request c = q ->
  keeps_request (cl_phase c) = true -> interactive_inv (broker_queue q s).
Proof.
  intros [] Hc Hq Hk. split; try done. cbn. intros q' [Hin|Hin%list_elem_of_singleton]%elem_of_app.
  - by apply ii_pending0.
  - subst q'. by exists c.
Qed.

Lemma inv_remove id s : interactive_inv s -> interactive_inv (broker_remove id s).
Proof.
  intros []. split; try done. cbn. intros q [_ Hin]%list_elem_of_filter. by apply ii_pending0.
Qed.

Lemma inv_forget id s : interactive_inv s ->
  interactive_inv (set_decisions s (in_decisions s ∖ {[ id ]})).
Proof.
  intros []. split; try done; cbn.
  - intros id' [Hin _]%elem_of_difference. by apply ii_decisions0.
  - intros k r Hr Ht. destruct (ii_taken0 k r Hr Ht) as [Hn Hs]. split; [set_solver|done].
Qed.

(** A call moves to a phase that owns what is there. *)
Lemma inv_moved s c id phase :
  interactive_inv s -> in_calls s !! id = Some c ->
  (id ∈ in_decisions s -> keeps_sender phase = true) ->
  (forall q, q ∈ in_pending s -> aq_request_id q = id -> keeps_request phase = true) ->
  (forall d, answer_of phase = Some d ->
     (tp_risk (aq_spec (cl_request c)) = RiskReadOnly /\ d = Allow) \/ in_sent s !! id = Some (Some d)) ->
  interactive_inv (moved c phase s).
Proof.
  intros [] Hc Hd Hp Ha. pose proof (ii_id0 _ _ Hc) as Hid. unfold moved. rewrite Hid.
  split; cbn; try done.
  - intros id' c'. destruct (decide (id' = id)) as [->|Hne];
      [rewrite lookup_insert_eq; by intros [= <-]|rewrite lookup_insert_ne by done; apply ii_id0].
  - intros id' Hin. destruct (decide (id' = id)) as [->|Hne];
      [rewrite lookup_insert_eq; eexists; split; [done|by apply Hd]|].
    rewrite lookup_insert_ne by done. by apply ii_decisions0.
  - intros q Hin. destruct (ii_pending0 q Hin) as (c' & Hc' & Hq & Hk).
    destruct (decide (aq_request_id q = id)) as [He|Hne].
    + rewrite He, Hc in Hc'. injection Hc' as <-. rewrite He, lookup_insert_eq. eexists. split; [done|].
      split; [done|]. by eapply Hp.
    + rewrite lookup_insert_ne by done. by exists c'.
  - intros k r Hr Ht. destruct (ii_taken0 k r Hr Ht) as [Hn Hs]. split; [done|].
    destruct (decide (rp_request_id r = id)) as [->|Hne];
      [rewrite lookup_insert_eq; by eexists|by rewrite lookup_insert_ne].
  - intros id' c' d. destruct (decide (id' = id)) as [->|Hne];
      [rewrite lookup_insert_eq; intros [= <-]; apply Ha|rewrite lookup_insert_ne by done; apply ii_answer0].
Qed.

Lemma inv_start id call spec s s' :
  interactive_inv s -> authorize_start id call spec s = Some s' -> interactive_inv s'.
Proof.
  intros Hinv. unfold authorize_start. destruct (in_calls s !! id) eqn:Hc; [done|].
  set (req := {| aq_request_id := id; aq_call := call; aq_spec := spec |}).
  assert (Hnew : forall phase decs, (forall id', id' ∈ decs -> (id' = id /\ keeps_sender phase = true) \/ (id' ∈ in_decisions s)) ->
      (forall d, answer_of phase = Some d -> tp_risk spec = RiskReadOnly /\ d = Allow) ->
      interactive_inv (moved {| cl_request := req; cl_phase := Registered |} phase (set_decisions s decs))).
  { intros phase decs Hdecs Ha. destruct Hinv. split; cbn; try done.
    + intros id' c'. destruct (decide (id' = id)) as [->|Hne];
        [rewrite lookup_insert_eq; by intros [= <-]|rewrite lookup_insert_ne by done; apply ii_id0].
    + intros id' Hin. destruct (decide (id' = id)) as [->|Hne].
      * rewrite lookup_insert_eq. eexists. split; [done|].
        destruct (Hdecs _ Hin) as [[_ ?]|Hin']; [done|]. destruct (ii_decisions0 _ Hin') as (? & ? & _). congruence.
      * rewrite lookup_insert_ne by done. destruct (Hdecs _ Hin) as [[? _]|Hin']; [done|]. by apply ii_decisions0.
    + intros q Hin. destruct (ii_pending0 q Hin) as (c' & Hc' & Hq & Hk).
      rewrite lookup_insert_ne by congruence. by exists c'.
    + intros k r Hr Ht. destruct (ii_taken0 k r Hr Ht) as [Hn [c' Hs]].
      assert (rp_request_id r <> id) by congruence. split.
      * intros Hin. by destruct (Hdecs _ Hin) as [[? _]|?].
      * rewrite lookup_insert_ne by done. by eexists.
    + intros id' c' d. destruct (decide (id' = id)) as [->|Hne];
        [rewrite lookup_insert_eq; intros [= <-] Hd; left; by apply Ha
        |rewrite lookup_insert_ne by done; apply ii_answer0]. }
  case_bool_decide as Hrisk; intros [= <-].
  - apply (Hnew (Returned (Ok Allow)));
      [intros id' Hin; by right|by intros d [= <-]].
  - apply (Hnew Registered); [|done]. intros id' [->%elem_of_singleton|Hin]%elem_of_union; [by left|by right].
Qed.

(** ** Responders *)

Lemma inv_unknown k id d s :
  interactive_inv s -> in_responders s !! k = None ->
  interactive_inv (put_responder k id d (Responded false) s).
Proof.
  intros [] Hk. split; cbn; try done.
  - intros k' r. destruct (decide (k' = k)) as [->|Hne];
      [rewrite lookup_insert_eq; by intros [= <-]|rewrite lookup_insert_ne by done; apply ii_taken0].
  - intros k1 k2 r1 r2.
    destruct (decide (k1 = k)) as [->|H1]; [rewrite lookup_insert_eq; by intros [= <-]|].
    destruct (decide (k2 = k)) as [->|H2]; [rewrite lookup_insert_eq; by intros _ [= <-]|].
    rewrite !lookup_insert_ne by done. apply ii_one0.
  - intros id' o Ho. destruct (ii_sent0 _ _ Ho) as (k' & r & Hr & Hrest). exists k', r.
    rewrite lookup_insert_ne by congruence. done.
Qed.

Lemma inv_take k id d s :
  interactive_inv s -> in_responders s !! k = None -> id ∈ in_decisions s ->
  interactive_inv (put_responder k id d Taken (set_decisions s (in_decisions s ∖ {[ id ]}))).
Proof.
  intros [] Hk Hin. split; cbn; try done.
  - intros id' Hd. apply ii_decisions0. set_solver.
  - intros k' r. destruct (decide (k' = k)) as [->|Hne].
    + rewrite lookup_insert_eq. intros [= <-] _. cbn. split; [set_solver|].
      destruct (ii_decisions0 _ Hin) as (c & Hc & _). by eexists.
    + rewrite lookup_insert_ne by done. intros Hr Ht. destruct (ii_taken0 _ _ Hr Ht) as [Hn Hs].
      split; [set_solver|done].
  - intros k1 k2 r1 r2. destruct (decide (k1 = k)) as [->|H1], (decide (k2 = k)) as [->|H2];
      rewrite ?lookup_insert_eq, ?lookup_insert_ne by done; [done| | |apply ii_one0].
    + intros [= <-] Hr2 _ Ht2 He. cbn in He. subst id. by destruct (ii_taken0 _ _ Hr2 Ht2).
    + intros Hr1 [= <-] Ht1 _ He. cbn in He. subst id. by destruct (ii_taken0 _ _ Hr1 Ht1).
  - intros id' o Ho. destruct (ii_sent0 _ _ Ho) as (k' & r & Hr & Hrest). exists k', r.
    rewrite lookup_insert_ne by congruence. done.
Qed.

(** A responder in flight goes on; it may settle its channel. *)
Lemma inv_advance k r phase sent s :
  interactive_inv s -> in_responders s !! k = Some r -> took phase = true ->
  (rp_phase r = Taken \/ rp_phase r = Unqueued) ->
  (forall id o, sent !! id = Some o -> in_sent s !! id = Some o \/
     (id = rp_request_id r /\
      settled_as o {| rp_request_id := id; rp_decision := rp_decision r; rp_phase := phase |})) ->
  (forall id o, in_sent s !! id = Some o -> sent !! id = Some o \/ id = rp_request_id r) ->
  interactive_inv (put_responder k (rp_request_id r) (rp_decision r) phase (set_sent s sent)).
Proof.
  intros [] Hr Hph Hfl Hsent Hold.
  assert (Htr : took (rp_phase r) = true) by by destruct Hfl as [-> | ->].
  assert (Hfree : forall o, in_sent s !! rp_request_id r <> Some o).
  { intros o Ho. destruct (ii_sent0 _ _ Ho) as (k' & r' & Hr' & He & Hs).
    assert (took (rp_phase r') = true) as Ht' by (destruct o; [by destruct Hs as [-> _]|by rewrite Hs]).
    rewrite (ii_one0 _ _ _ _ Hr' Hr Ht' Htr He), Hr in Hr'. injection Hr' as <-.
    destruct o as [d|]; cbn in Hs; [destruct Hs as [Hs _]|]; destruct Hfl; congruence. }
  split; cbn; try done.
  - intros k' r'. destruct (decide (k' = k)) as [->|Hne].
    + rewrite lookup_insert_eq. intros [= <-] _. by apply (ii_taken0 k r).
    + rewrite lookup_insert_ne by done. apply ii_taken0.
  - intros k1 k2 r1 r2. destruct (decide (k1 = k)) as [->|H1], (decide (k2 = k)) as [->|H2];
      rewrite ?lookup_insert_eq, ?lookup_insert_ne by done; [done| | |apply ii_one0].
    + intros [= <-] Hr2 _ Ht2 He. by eapply (ii_one0 k k2 r r2).
    + intros Hr1 [= <-] Ht1 _ He. by eapply (ii_one0 k1 k r1 r).
  - intros id o Ho. destruct (Hsent _ _ Ho) as [Ho'|[-> Hs]].
    + destruct (ii_sent0 _ _ Ho') as (k' & r' & Hr' & He & Hs).
      destruct (decide (k' = k)) as [->|Hne].
      * rewrite Hr in Hr'. injection Hr' as <-. subst id. by destruct (Hfree o).
      * exists k', r'. by rewrite lookup_insert_ne.
    + exists k. eexists. rewrite lookup_insert_eq. split; [done|]. by split.
  - intros id c d Hc Ha. destruct (ii_answer0 _ _ _ Hc Ha) as [Hro|Hs]; [by left|right].
    destruct (Hold _ _ Hs) as [?| ->]; [done|by apply Hfree in Hs].
Qed.

Lemma inv_respond_start k id d s s' :
  interactive_inv s -> respond_start k id d s = Some s' -> interactive_inv s'.
Proof.
  intros Hinv. unfold respond_start. destruct (in_responders s !! k) eqn:Hk; [done|].
  case_bool_decide; intros [= <-]; [by apply inv_take|by apply inv_unknown].
Qed.

Lemma in_sent_same s : set_sent s (in_sent s) = s.
Proof. by destruct s. Qed.

Lemma inv_respond_move k s s' : interactive_inv s -> respond_move k s = Some s' -> interactive_inv s'.
Proof.
  intros Hinv. unfold respond_move. destruct (in_responders s !! k) as [r|] eqn:Hr; [|done].
  destruct (rp_phase r) eqn:Hp; intros [= <-].
  - change (put_responder k (rp_request_id r) (rp_decision r) Unqueued (broker_remove (rp_request_id r) s))
      with (broker_remove (rp_request_id r) (put_responder k (rp_request_id r) (rp_decision r) Unqueued s)).
    apply inv_remove. rewrite <- (in_sent_same s) at 1. apply inv_advance; [done|done|done|by left| |];
      intros; by left.
  - apply inv_advance; [done|done|done|by right| |]; intros id o.
    + destruct (decide (id = rp_request_id r)) as [->|Hne];
        [rewrite lookup_insert_eq; intros [= <-]; by right|rewrite lookup_insert_ne by done; by left].
    + destruct (decide (id = rp_request_id r)) as [->|Hne]; [by right|rewrite lookup_insert_ne by done; by left].
Qed.

Lemma inv_respond_drop k s s' : interactive_inv s -> respond_drop k s = Some s' -> interactive_inv s'.
Proof.
  intros Hinv. unfold respond_drop. destruct (in_responders s !! k) as [r|] eqn:Hr; [|done].
  destruct (rp_phase r) eqn:Hp; intros [= <-];
    (apply inv_advance; [done|done|done|by auto| |]; intros id o;
     (destruct (decide (id = rp_request_id r)) as [->|Hne];
       [rewrite ?lookup_insert_eq; try (by intros [= <-]; right); by right
       |rewrite ?lookup_insert_ne by done; by left])).
Qed.

(** ** Calls *)

Lemma not_listed s c id :
  interactive_inv s -> in_calls s !! id = Some c -> keeps_request (cl_phase c) = false ->
  forall q, q ∈ in_pending s -> aq_request_id q = id -> False.
Proof.
  intros [] Hc Hk q Hin <-. destruct (ii_pending0 q Hin) as (c' & Hc' & _ & Hk'). congruence.
Qed.

Lemma not_sending s c id :
  interactive_inv s -> in_calls s !! id = Some c -> keeps_sender (cl_phase c) = false ->
  id ∉ in_decisions s.
Proof.
  intros [] Hc Hk Hin. destruct (ii_decisions0 id Hin) as (c' & Hc' & Hk'). congruence.
Qed.

Lemma sent_taken s id o : interactive_inv s -> in_sent s !! id = Some o -> id ∉ in_decisions s.
Proof.
  intros Hinv Ho. destruct (ii_sent _ Hinv _ _ Ho) as (k & r & Hr & <- & Hs).
  apply (ii_taken _ Hinv k r Hr). destruct o; [by destruct Hs as [-> _]|by rewrite Hs].
Qed.

Lemma removed_none s id q : q ∈ in_pending (broker_remove id s) -> aq_request_id q <> id.
Proof. by intros [? _]%list_elem_of_filter. Qed.

Lemma inv_authorize_move id c s s' :
  interactive_inv s -> in_calls s !! id = Some c -> authorize_move c s = Some s' -> interactive_inv s'.
Proof.
  intros Hinv Hc. pose proof (ii_id _ Hinv _ _ Hc) as Hid. unfold authorize_move. rewrite Hid.
  destruct (cl_phase c) as [| | |answer|e|e|r] eqn:Hp; try done; intros [= <-].
  - eapply inv_moved; [by apply inv_notify|exact Hc|done| |done].
    intros q Hq He. exfalso. eapply (not_listed s c id); try done. by rewrite Hp.
  - change (moved c Waiting (broker_queue (cl_request c) s))
      with (broker_queue (cl_request c) (moved c Waiting s)).
    eapply (inv_queue _ _ {| cl_request := cl_request c; cl_phase := Waiting |});
      [|unfold moved; cbn; by rewrite lookup_insert_eq|done|done].
    by eapply inv_moved.
  - eapply inv_moved; [by apply inv_remove|exact Hc| | |].
    + intros Hd. exfalso. revert Hd. eapply (not_sending s c id); try done. by rewrite Hp.
    + intros q Hq He. by destruct (removed_none _ _ _ Hq).
    + intros d Ha. apply (ii_answer _ Hinv id c d Hc). rewrite Hp. by destruct answer.
  - eapply inv_moved; [by apply inv_forget|exact Hc| |done|done]. cbn. set_solver.
  - eapply inv_moved; [by apply inv_remove|exact Hc| | |done].
    + intros Hd. exfalso. revert Hd. eapply (not_sending s c id); try done. by rewrite Hp.
    + intros q Hq He. by destruct (removed_none _ _ _ Hq).
Qed.

Lemma inv_authorize_select branch id c s s' :
  interactive_inv s -> in_calls s !! id = Some c -> authorize_select branch c s = Some s' ->
  interactive_inv s'.
Proof.
  intros Hinv Hc. pose proof (ii_id _ Hinv _ _ Hc) as Hid. unfold authorize_select. rewrite Hid.
  destruct (cl_phase c) eqn:Hp; try done. destruct branch.
  - destruct (in_sent s !! id) as [[d|]|] eqn:Hs; intros [= <-];
      (eapply inv_moved; [done|exact Hc|by intros ?%(sent_taken s id _ Hinv Hs)|done|]); [|done].
    intros d' [= <-]. by right.
  - intros [= <-]. by eapply inv_moved.
  - intros [= <-]. by eapply inv_moved.
Qed.

Lemma inv_step step s s' : interactive_inv s -> interactive_step step s = Some s' -> interactive_inv s'.
Proof.
  intros Hinv. destruct step as [id call spec|id|id b|k id d|k|k| |]; cbn [interactive_step].
  - by apply inv_start.
  - destruct (in_calls s !! id) as [c|] eqn:Hc; [|done]. by eapply inv_authorize_move.
  - destruct (in_calls s !! id) as [c|] eqn:Hc; [|done]. by eapply inv_authorize_select.
  - by apply inv_respond_start.
  - by apply inv_respond_move.
  - by apply inv_respond_drop.
  - intros [= <-]. by destruct Hinv.
  - intros [= <-]. by destruct Hinv.
Qed.

Lemma inv_run steps s s' : interactive_inv s -> interactive_run steps s = Some s' -> interactive_inv s'.
Proof.
  revert s. induction steps as [|st steps IH]; intros s Hinv; cbn; [by intros [= <-]|].
  destruct (interactive_step st s) as [s1|] eqn:E; [|done]. apply IH. by eapply inv_step.
Qed.

(** ** The properties *)

(** Never a silent allow, never two answers, nothing left behind. In every history
    of the gate: a call that returned a decision is read-only and was allowed without
    asking, or its decision is exactly the one a responder sent for this very request
    id, and no other responder, whatever it answered, took the request; and every
    queued request and every held sender belongs to a call that has not returned, so
    when all calls have returned nothing is pending. *)
Theorem interactive_answers steps s :
  interactive_run steps interactive_new = Some s ->
  (forall id c d, in_calls s !! id = Some c -> cl_phase c = Returned (Ok d) ->
     (tp_risk (aq_spec (cl_request c)) = RiskReadOnly /\ d = Allow) \/
     exists k r, in_responders s !! k = Some r /\ rp_request_id r = id /\ rp_decision r = d /\
       rp_phase r = Responded true /\
       forall k' r', in_responders s !! k' = Some r' -> rp_request_id r' = id ->
         k' = k \/ rp_phase r' = Responded false) /\
  (forall id, (id ∈ in_decisions s \/ exists q, (q ∈ in_pending s) /\ aq_request_id q = id) ->
     exists c, in_calls s !! id = Some c /\ forall r, cl_phase c <> Returned r) /\
  ((forall id c, in_calls s !! id = Some c -> exists r, cl_phase c = Returned r) ->
     in_pending s = [] /\ in_decisions s = ∅).
Proof.
  intros Hrun. pose proof (inv_run _ _ _ inv_new Hrun) as Hinv.
  assert (Howner : forall id, (id ∈ in_decisions s \/ exists q, (q ∈ in_pending s) /\ aq_request_id q = id) ->
     exists c, in_calls s !! id = Some c /\ forall r, cl_phase c <> Returned r).
  { intros id [Hd|(q & Hq & <-)].
    - destruct (ii_decisions _ Hinv _ Hd) as (c & Hc & Hk). exists c. split; [done|]. intros r Hr.
      by rewrite Hr in Hk.
    - destruct (ii_pending _ Hinv _ Hq) as (c & Hc & _ & Hk). exists c. split; [done|]. intros r Hr.
      by rewrite Hr in Hk. }
  split; [|split; [done|]].
  - intros id c d Hc Hp.
    destruct (ii_answer _ Hinv id c d Hc ltac:(by rewrite Hp)) as [?|Hs]; [by left|right].
    destruct (ii_sent _ Hinv _ _ Hs) as (k & r & Hr & Hid & Hph & Hd). exists k, r.
    do 4 (split; [done|]). intros k' r' Hr' Hid'.
    destruct (took (rp_phase r')) eqn:Ht; [left|right; by destruct (rp_phase r') as [| |[]|]].
    eapply (ii_one _ Hinv k' k r' r); [done|done|done|by rewrite Hph|congruence].
  - intros Hall. assert (Hno : forall id, ~ (id ∈ in_decisions s \/ exists q, (q ∈ in_pending s) /\ aq_request_id q = id)).
    { intros id Hin. destruct (Howner id Hin) as (c & Hc & Hn). destruct (Hall _ _ Hc) as [r Hr].
      by apply (Hn r). }
    split.
    + destruct (in_pending s) as [|q l]; [done|]. destruct (Hno (aq_request_id q)). right. exists q.
      split; [by left|done].
    + apply set_eq. intros id. split; [|set_solver]. intros Hd. destruct (Hno id). by left.
Qed.

(** The call a step belongs to. *)
Definition owner (step : InteractiveStep) : option N :=
  match step with
  | AuthorizeStarts id _ _ | AuthorizeMoves id | AuthorizeSelects id _ => Some id
  | _ => None
  end.

(** How many of its own steps a call has left, at most. *)
Definition remaining (phase : AuthorizePhase) : nat :=
  match phase with
  | Registered => 5
  | Announced => 4
  | Waiting => 3
  | Leaving _ => 2
  | Received _ | Forgotten _ => 1
  | Returned _ => 0
  end.

Lemma moved_lookup s c phase id :
  in_calls (moved c phase s) !! id =
    if decide (id = aq_request_id (cl_request c))
    then Some {| cl_request := cl_request c; cl_phase := phase |} else in_calls s !! id.
Proof.
  unfold moved. cbn. case_decide as H; [subst; by rewrite lookup_insert_eq|by rewrite lookup_insert_ne].
Qed.

(** Every step of a call of [authorize] moves that call, and only that call. *)
Lemma step_calls step s s' :
  interactive_inv s -> interactive_step step s = Some s' ->
  forall id c, in_calls s !! id = Some c -> exists c', in_calls s' !! id = Some c' /\
    cl_request c' = cl_request c /\
    if decide (owner step = Some id) then remaining (cl_phase c') < remaining (cl_phase c) else c' = c.
Proof.
  intros Hinv Hstep id c Hc.
  assert (Hown : forall id' c1 phase s1, in_calls s !! id' = Some c1 -> owner step = Some id' ->
      in_calls s1 = in_calls s -> remaining phase < remaining (cl_phase c1) -> s' = moved c1 phase s1 ->
      exists c', in_calls s' !! id = Some c' /\ cl_request c' = cl_request c /\
        if decide (owner step = Some id) then remaining (cl_phase c') < remaining (cl_phase c) else c' = c).
  { intros id' c1 phase s1 Hc1 Ho Hs1 Hr ->. rewrite moved_lookup, Hs1, (ii_id _ Hinv _ _ Hc1), Ho.
    destruct (decide (id = id')) as [->|Hne].
    - rewrite Hc in Hc1. injection Hc1 as <-. eexists. split; [done|]. split; [done|].
      by rewrite decide_True.
    - exists c. rewrite decide_False by congruence. done. }
  destruct step as [id' call spec|id'|id' b|k id' d|k|k| |]; cbn [interactive_step owner] in *.
  - unfold authorize_start in Hstep. destruct (in_calls s !! id') eqn:E; [done|].
    assert (id <> id') by congruence. exists c. rewrite decide_False by congruence.
    case_bool_decide; injection Hstep as <-; cbn; by rewrite lookup_insert_ne.
  - destruct (in_calls s !! id') as [c1|] eqn:Hc1; [|done]. cbn in Hstep. unfold authorize_move in Hstep.
    destruct (cl_phase c1) eqn:Hp; try done; injection Hstep as <-;
      (eapply Hown; [exact Hc1|done| |rewrite Hp|reflexivity]; [done|cbn; lia]).
  - destruct (in_calls s !! id') as [c1|] eqn:Hc1; [|done]. cbn in Hstep. unfold authorize_select in Hstep.
    destruct (cl_phase c1) eqn:Hp; try done. destruct b;
      [destruct (in_sent s !! _) as [[|]|]; [| |done]|..]; injection Hstep as <-;
      (eapply Hown; [exact Hc1|done| |rewrite Hp|reflexivity]; [done|cbn; lia]).
  - exists c. unfold respond_start in Hstep. destruct (in_responders s !! k); [done|].
    case_bool_decide; by injection Hstep as <-.
  - exists c. unfold respond_move in Hstep. destruct (in_responders s !! k) as [r|]; [|done].
    destruct (rp_phase r); try done; by injection Hstep as <-.
  - exists c. unfold respond_drop in Hstep. destruct (in_responders s !! k) as [r|]; [|done].
    destruct (rp_phase r); try done; by injection Hstep as <-.
  - exists c. by injection Hstep as <-.
  - exists c. by injection Hstep as <-.
Qed.

Definition steps_of (id : N) (steps : list InteractiveStep) : nat :=
  length (List.filter (fun step => bool_decide (owner step = Some id)) steps).

Lemma run_calls steps s s' id c :
  interactive_inv s -> interactive_run steps s = Some s' -> in_calls s !! id = Some c ->
  exists c', in_calls s' !! id = Some c' /\ steps_of id steps + remaining (cl_phase c') <= remaining (cl_phase c).
Proof.
  revert s c. induction steps as [|st steps IH]; intros s c Hinv; cbn.
  - intros [= <-] Hc. by exists c.
  - destruct (interactive_step st s) as [s1|] eqn:E; [|done]. cbn. intros Hrun Hc.
    destruct (step_calls _ _ _ Hinv E id c Hc) as (c1 & Hc1 & _ & Hr).
    destruct (IH s1 c1 ltac:(by eapply inv_step) Hrun Hc1) as (c' & Hc' & Hle).
    exists c'. split; [done|]. unfold steps_of in *. cbn. case_decide as Ho.
    + rewrite bool_decide_eq_true_2 by done. cbn. lia.
    + rewrite bool_decide_eq_false_2 by done. subst c1. lia.
Qed.

(** A missing responder cannot hang a call. From any state of any history: over any
    continuation a call takes at most five more steps of its own, whatever the others
    do; and as long as it has not returned it has a step to take that needs nobody
    else (the timeout, when it waits). *)
Theorem interactive_call_ends steps s id c :
  interactive_run steps interactive_new = Some s -> in_calls s !! id = Some c ->
  (forall steps' s', interactive_run steps' s = Some s' -> steps_of id steps' <= 5) /\
  ((exists r, cl_phase c = Returned r) \/
   exists step s', owner step = Some id /\ step <> AuthorizeSelects id DecisionArrives /\
     interactive_step step s = Some s').
Proof.
  intros Hrun Hc. pose proof (inv_run _ _ _ inv_new Hrun) as Hinv. split.
  - intros steps' s' Hrun'. destruct (run_calls _ _ _ _ _ Hinv Hrun' Hc) as (c' & _ & Hle).
    assert (remaining (cl_phase c) <= 5) by (destruct (cl_phase c); cbn; lia). lia.
  - destruct (cl_phase c) as [| | |a|e|e|r] eqn:Hp; [..|left; by eexists]; right.
    3: { exists (AuthorizeSelects id TimeoutFires). eexists. split; [done|]. split; [done|].
         cbn. rewrite Hc. cbn. unfold authorize_select. by rewrite Hp. }
    all: exists (AuthorizeMoves id); eexists; split; [done|]; split; [done|];
      cbn; rewrite Hc; cbn; unfold authorize_move; by rewrite Hp.
Qed.

(** A request that reaches nobody. [push] broadcasts before it queues, so a user
    interface that subscribes and then drains between the two steps is shown nothing,
    and so is one that drains first and subscribes after, whatever the call: it waits,
    announced and queued, and [shown] is empty. *)
Theorem late_subscriber_misses_request id call spec :
  tp_risk spec <> RiskReadOnly ->
  let request := {| aq_request_id := id; aq_call := call; aq_spec := spec |} in
  Forall (fun steps => exists s, interactive_run steps interactive_new = Some s /\
      in_calls s !! id = Some {| cl_request := request; cl_phase := Waiting |} /\
      in_pending s = [request] /\ in_broadcast s = [request] /\ is_Some (in_subscribed s) /\ shown s = [])
    [ [AuthorizeStarts id call spec; AuthorizeMoves id; Subscribes; Drains; AuthorizeMoves id];
      [Drains; AuthorizeStarts id call spec; AuthorizeMoves id; AuthorizeMoves id; Subscribes] ].
Proof.
  intros Hrisk request.
  assert (Hstart : forall s, in_calls s !! id = None -> authorize_start id call spec s =
      Some (moved {| cl_request := request; cl_phase := Registered |} Registered
              (set_decisions s ({[ id ]} ∪ in_decisions s)))).
  { intros s Hs. unfold authorize_start. rewrite Hs. by rewrite bool_decide_eq_false_2. }
  apply Forall_cons_2; [|apply Forall_cons_2; [|apply Forall_nil_2]];
    cbn [interactive_run interactive_step mbind option_bind]; rewrite Hstart by done;
    cbn [mbind option_bind];
    repeat (cbn; rewrite lookup_insert_eq; cbn); eexists; (split; [reflexivity|]);
    cbn; rewrite lookup_insert_eq; by repeat split; eexists.
Qed.
End theorems.
