(* ===== verification/Dispatch.v ===== *)
(** Publication and execution of an admitted tool operation:
    [publish_tool_operation] and [execute_published_tool] of
    agent-core/kernel/mod.rs.

    Both await other components (events, approval, the tool itself), and other
    tasks use Core meanwhile. What the awaited components answer is recorded in
    [ToolEnv]; what other tasks do before each access to Core is a list of
    [CoreOp]s, so every interleaving of registry methods is some environment.
    Of a tool output's JSON metadata only the [approval_denial] key is kept. *)

From S2P Require Import Prelude Text Digest Jcs Operation Journal Wal Intent Registry Kernel.
From S2P Require Import KernelOps Intent.

(** ** Tools *)

Record SchemaViolation : Type := {
  sv_pointer : text;
  sv_expected : text;
  sv_actual : text;
}.

Inductive ApprovalVerdict : Type :=
| VerdictAllowed
| VerdictDenied (message : text)
| VerdictDeniedDetailed (message : text) (reason : ApprovalDenialReason)
| VerdictFailed (message : text).

Record ToolOutput : Type := {
  to_call_id : text;
  to_tool_name : text;
  to_ok : bool;
  to_summary : text;
  to_model_content : text;
  to_approval_denial : option ApprovalDenialReason;
}.

(** Staged effects, directives and queries are opaque to Core: handles. *)
Inductive ToolOutcome : Type :=
| Value (output : ToolOutput)
| PreparedEffect (output : ToolOutput) (effect : N)
| RuntimeDirective (output : ToolOutput) (directive : N)
| EngineQuery (output : ToolOutput) (query : N).

Definition map_output (f : ToolOutput -> ToolOutput) (outcome : ToolOutcome) : ToolOutcome :=
  match outcome with
  | Value output => Value (f output)
  | PreparedEffect output effect => PreparedEffect (f output) effect
  | RuntimeDirective output directive => RuntimeDirective (f output) directive
  | EngineQuery output query => EngineQuery (f output) query
  end.

Definition outcome_output (outcome : ToolOutcome) : ToolOutput :=
  match outcome with
  | Value output | PreparedEffect output _ | RuntimeDirective output _
  | EngineQuery output _ => output
  end.

Record CoreToolExecution : Type := {
  cx_outcome : ToolOutcome;
  cx_lease : option AuthorityLease;
  cx_effect_id : option N;
  cx_argument_digest : Digest;
  cx_value_completion_pending : bool;
  cx_recovery_required : option text;
}.

Section dispatch.
Context {J : Type} `{OJ : OperationJournal J} `{CD : Codec} `{JN : JsonNumber}.

Record ToolSurfaceSnapshot : Type := {
  ts_specs : list ToolSpec;
  ts_surface_revision : N;
  ts_omissions : list (text * text);  (* tool name, reason *)
  ts_schema_profiles : list (text * (Json -> option SchemaViolation));
}.

Record ToolExecutionRequest : Type := {
  tq_run_id : N;
  tq_call : ToolCall;
  tq_effect_context : option OperationEffectContext;
}.

(** [HostToolPolicies], as far as a lease records it. *)
Record HostPolicies : Type := {
  hp_effect_intent : ToolCall -> ToolSpec -> EffectIntent;
  hp_policy_revision : option N;
  hp_binding_epoch : text -> option N;
}.

(** What the awaited components answer and what other tasks do meanwhile. *)
Record ToolEnv : Type := {
  te_interfere : nat -> list CoreOp;
  te_events : nat -> AgentResult unit;
  te_verdict : ApprovalVerdict;
  te_has_shadow : bool;
  te_shadow_cancelled : bool;
  te_shadow : option ShadowVerdict;
  te_now_ms : N;
  te_lease_id : text;
  te_lease_ttl_ms : option N;
  te_host_policies : option HostPolicies;
  te_fresh_effect_id : N;
  te_execute : ToolExecutionRequest -> AgentResult ToolOutcome;
  te_rollback : AgentResult unit;
  te_bound : ToolOutput -> ToolOutput;
}.

(** Other tasks run before access [k]. *)
Definition sync (env : ToolEnv) (k : nat) (c : Core J) : Core J :=
  core_run (te_interfere env k) c.

(** ** Publication *)

Definition cancel_after_publication_failure (identity : ToolOperationIdentity) (event : text)
    (event_error : AgentError) (c : Core J) : AgentError * Core J :=
  match cancel_operation identity c with
  | (Ok _, c1) => (event_error, c1)
  | (Err cancel_error, c1) =>
      (RecoveryRequired
         (event ++ txt " publication failed for operation, and Core could not durably terminalize the undispatched operation: event="
          ++ display_error event_error ++ txt "; cancellation=" ++ display_error cancel_error), c1)
  end.

(** Accesses: 0 the query, 1 and 2 the cancellations after a failed event. *)
Definition publish_tool_operation (env : ToolEnv) (identity : ToolOperationIdentity)
    (call : ToolCall) (c : Core J) : AgentResult ToolOperationIdentity * Core J :=
  let failed event error c :=
    match cancel_after_publication_failure identity event error c with
    | (e, c1) => (Err e, c1)
    end in
  if negb (call_matches (co_run_id c) identity call)
  then failed (txt "tool-publication preflight")
         (InvalidRequest (txt
            "tool publication rejected: call does not match the admitted identity"))
         (sync env 0 c)
  else
    let c := sync env 0 c in
    match query (ti_operation_id identity) (co_operations c) with
    | Found snapshot =>
        if bool_decide (os_identity snapshot = identity) && bool_decide (os_state snapshot = Accepted)
        then
          match te_events env 0 with
          | Err error => failed (txt "OperationAccepted") error (sync env 1 c)
          | Ok _ =>
              match te_events env 1 with
              | Err error => failed (txt "ToolStarted") error (sync env 2 c)
              | Ok _ => (Ok identity, c)
              end
          end
        else (Err (RecoveryRequired (txt
                "tool publication rejected: admitted operation is no longer exactly Accepted")), c)
    | _ => (Err (RecoveryRequired (txt
             "tool publication rejected: admitted operation is no longer exactly Accepted")), c)
    end.

(** ** Validation before dispatch *)

Definition is_non_transactional_process_tool (name : text) : bool :=
  bool_decide (name = txt "shell.exec") || bool_decide (name = txt "process.run")
  || bool_decide (name = txt "process.session") || bool_decide (name = txt "verify.run").

Definition request_validate (request : ToolExecutionRequest) : result unit text :=
  match tq_effect_context request with
  | None =>
      if is_non_transactional_process_tool (tl_name (tq_call request))
      then Err (txt "non-transactional process tools require a Core-issued effect context")
      else Ok tt
  | Some context =>
      let? _ := effect_context_validate context in
      if negb (call_matches (tq_run_id request) (oc_identity context) (tq_call request))
      then Err (txt "operation effect context does not match the tool request")
      else Ok tt
  end.

(** [Value::get] with a key, [as_array], [first], [as_str]. *)
Definition json_get (key : text) (value : Json) : option Json :=
  match value with
  | JObject entries => snd <$> list_find (fun e => e.1 = key) entries ≫= fun p => Some p.2
  | _ => None
  end.

Definition first_string (value : Json) : option text :=
  match value with
  | JArray (JString s :: _) => Some s
  | _ => None
  end.

Definition quoted (quote : N) (s : text) : bool :=
  match head s, last s with
  | Some a, Some b => (a =? quote)%N && (b =? quote)%N
  | _, _ => false
  end.

Definition invalid_process_executable (call : ToolCall) (spec : ToolSpec) :
    option SchemaViolation :=
  if negb (bool_decide (tl_name call = txt "process.run"))
     || negb (bool_decide (tp_risk spec = RiskProcessExecution))
  then None
  else
    match json_get (txt "argv") (tl_arguments call) ≫= first_string with
    | None => None
    | Some executable =>
        let trimmed := trim executable in
        if bool_decide (trimmed = [])
        then Some {| sv_pointer := txt "/argv/0";
                     sv_expected := txt "a non-empty executable name";
                     sv_actual := txt "empty or whitespace-only string" |}
        else if (1 <? str_len trimmed) && (quoted 34 trimmed || quoted 39 trimmed)
        then Some {| sv_pointer := txt "/argv/0";
                     sv_expected := txt "an executable name without surrounding shell quotes";
                     sv_actual := txt "shell-quoted executable string" |}
        else None
    end.

Definition schema_violation (surface : ToolSurfaceSnapshot) (call : ToolCall) (spec : ToolSpec) :
    option SchemaViolation :=
  match list_find (fun p => p.1 = tl_name call) (ts_schema_profiles surface) with
  | Some (_, (_, validate)) =>
      match validate (tl_arguments call) with
      | Some violation => Some violation
      | None => invalid_process_executable call spec
      end
  | None => invalid_process_executable call spec
  end.

Definition schema_mismatch_message (call : ToolCall) (violation : SchemaViolation) : text :=
  txt "tool dispatch rejected: arguments do not match the " ++ tl_name call ++ txt " schema ("
    ++ sv_pointer violation ++ txt "): expected " ++ sv_expected violation ++ txt ", found "
    ++ sv_actual violation.

Definition tool_not_on_surface_message (call : ToolCall) (surface : ToolSurfaceSnapshot) : text :=
  let captured_surface :=
    if (ts_surface_revision surface =? 0)%N then txt "this round's captured model surface"
    else txt "model surface revision" in
  match list_find (fun o => o.1 = tl_name call) (ts_omissions surface) with
  | Some (_, (_, reason)) =>
      txt "tool '" ++ tl_name call ++ txt "' was not exposed on " ++ captured_surface ++ txt ": "
        ++ reason
  | None =>
      txt "tool '" ++ tl_name call ++ txt "' was not exposed on " ++ captured_surface
        ++ txt "; only schemas in that captured surface may be called"
  end.

(** [bound_utf8]. *)
Definition bound_utf8 (value : text) (max_bytes : nat) : text :=
  slice_to value (floor_boundary value (str_len value `min` max_bytes)).

(** ** Outputs *)

Definition tool_failure_output (call : ToolCall) (message : text)
    (denial : option ApprovalDenialReason) : ToolOutput :=
  {| to_call_id := tl_id call; to_tool_name := tl_name call; to_ok := false;
     to_summary := message; to_model_content := txt "tool error: " ++ message;
     to_approval_denial := denial |}.

Definition tool_error_output (call : ToolCall) (message : text) : ToolOutput :=
  tool_failure_output call message None.

Definition refused (identity : ToolOperationIdentity) (output : ToolOutput) : CoreToolExecution :=
  {| cx_outcome := Value output; cx_lease := None; cx_effect_id := None;
     cx_argument_digest := ti_argument_digest identity;
     cx_value_completion_pending := false; cx_recovery_required := None |}.

(** [metadata.remove("approval_denial")]. *)
Definition strip_denial (output : ToolOutput) : ToolOutput :=
  {| to_call_id := to_call_id output; to_tool_name := to_tool_name output;
     to_ok := to_ok output; to_summary := to_summary output;
     to_model_content := to_model_content output; to_approval_denial := None |}.

(** ** The lease *)

Definition DEFAULT_LEASE_TTL_MS : N := 120000.

Definition mint_lease (env : ToolEnv) (identity : ToolOperationIdentity) (call : ToolCall)
    (spec : ToolSpec) (shadow : option ShadowVerdict) : AuthorityLease :=
  let ttl := default DEFAULT_LEASE_TTL_MS (te_lease_ttl_ms env) in
  {| al_lease_id := te_lease_id env;
     al_operation_id := ti_operation_id identity;
     al_argument_digest := ti_argument_digest identity;
     al_operation_generation := ti_generation identity;
     al_intent :=
       match te_host_policies env with
       | Some policies => hp_effect_intent policies call spec
       | None => unbound_effect_intent spec
       end;
     al_grant_id :=
       match shadow with Some (ShadowGranted grant_id _) => Some grant_id | _ => None end;
     al_decision := Allow;
     al_issued_at_ms := te_now_ms env;
     al_expires_at_ms := saturating_add (te_now_ms env) ttl;
     al_policy_revision := te_host_policies env ≫= hp_policy_revision;
     al_binding_epoch := te_host_policies env ≫= fun p => hp_binding_epoch p (tl_name call) |}.

(** ** Execution *)

(** A refusal that terminalizes the operation as refused first. *)
Definition refuse (env : ToolEnv) (k : nat) (identity : ToolOperationIdentity) (call : ToolCall)
    (message : text) (output : ToolOutput) (c : Core J) : CoreToolExecution * Core J :=
  match operations (finish_refused (ti_operation_id identity) message) (sync env k c) with
  | (Err error, c1) => (refused identity (tool_error_output call (display_error error)), c1)
  | (Ok _, c1) => (refused identity output, c1)
  end.

(** A refusal that cancels the operation first, whatever becomes of that. *)
Definition refuse_cancelled (env : ToolEnv) (k : nat) (identity : ToolOperationIdentity)
    (output : ToolOutput) (c : Core J) : CoreToolExecution * Core J :=
  (refused identity output, (operations (cancel identity) (sync env k c)).2).

(** The checks before approval: the spec of an admissible call, or the refusal. *)
Definition preflight (env : ToolEnv) (identity : ToolOperationIdentity) (call : ToolCall)
    (surface : ToolSurfaceSnapshot) (c : Core J) :
    (ToolSpec + CoreToolExecution) * Core J :=
  let stop r := match r with (x, c1) => (inr x, c1) end in
  let c := sync env 0 c in
  match ensure_mutation_allowed c with
  | (Err error, c) => (inr (refused identity (tool_error_output call (display_error error))), c)
  | (Ok _, c) =>
    if negb (call_matches (co_run_id c) identity call)
    then
      let message := txt
        "tool dispatch rejected: operation identity does not match the admitted request" in
      stop (refuse env 1 identity call message (tool_error_output call message) c)
    else
      let c := sync env 1 c in
      if negb (ti_generation identity =? co_epoch c)%N
      then stop (refuse_cancelled env 2 identity
             (tool_error_output call (txt
                "tool dispatch rejected by the Core authority fence")) c)
      else
        match list_find (fun spec => tp_name spec = tl_name call) (ts_specs surface) with
        | None =>
            let message := tool_not_on_surface_message call surface in
            stop (refuse env 2 identity call message (tool_failure_output call message None) c)
        | Some (_, spec) =>
            match schema_violation surface call spec with
            | Some violation =>
                let message := schema_mismatch_message call violation in
                stop (refuse env 2 identity call message
                        (tool_failure_output call message None) c)
            | None => (inl spec, c)
            end
        end
  end.

(** Approval and the shadow verdict: [inl] is the shadow of an allowed call. *)
Definition authorize (env : ToolEnv) (identity : ToolOperationIdentity) (call : ToolCall)
    (c : Core J) : (option ShadowVerdict + CoreToolExecution) * Core J :=
  let stop r := match r with (x, c1) => (inr x, c1) end in
  match te_verdict env with
  | VerdictDenied message | VerdictFailed message =>
      stop (refuse env 3 identity call message (tool_failure_output call message None) c)
  | VerdictDeniedDetailed message reason =>
      stop (refuse env 3 identity call message (tool_failure_output call message (Some reason)) c)
  | VerdictAllowed =>
      if te_has_shadow env
      then
        if te_shadow_cancelled env
        then stop (refuse_cancelled env 3 identity
               (tool_error_output call (txt
                  "tool dispatch cancelled while evaluating shadow authorization")) c)
        else (inl (te_shadow env), c)
      else (inl None, c)
  end.

(** The last common point before dispatch: epoch, lease, the [Executing] record
    and the request. [inl] carries the lease and the request to dispatch. *)
Definition reserve (env : ToolEnv) (identity : ToolOperationIdentity) (call : ToolCall)
    (spec : ToolSpec) (shadow : option ShadowVerdict) (c : Core J) :
    ((option AuthorityLease * option N * ToolExecutionRequest) + CoreToolExecution) * Core J :=
  let stop r := match r with (x, c1) => (inr x, c1) end in
  let c := sync env 4 c in
  let generation := ti_generation identity in
  if negb (generation =? co_epoch c)%N
  then stop (refuse_cancelled env 5 identity
         (tool_error_output call (txt
            "tool dispatch rejected after approval because operation epoch is stale")) c)
  else
    let side_effecting := negb (bool_decide (tp_risk spec = RiskReadOnly)) in
    let lease := if side_effecting then Some (mint_lease env identity call spec shadow) else None in
    match
      match lease with
      | Some lease => operations (record_lease (ti_operation_id identity) lease) (sync env 5 c)
      | None => (Ok tt, sync env 5 c)
      end
    with
    | (Err error, c) => (inr (refused identity (tool_error_output call (display_error error))), c)
    | (Ok _, c) =>
        let effect_id := if side_effecting then Some (te_fresh_effect_id env) else None in
        match mark_operation_executing_if_current generation (ti_operation_id identity) effect_id
                (sync env 6 c) with
        | (Err error, c) =>
            stop (refuse_cancelled env 7 identity
                    (tool_error_output call (display_error error)) c)
        | (Ok _, c) =>
            let request :=
              {| tq_run_id := co_run_id c; tq_call := call;
                 tq_effect_context :=
                   (fun e => {| oc_identity := identity; oc_effect_id := e |}) <$> effect_id |} in
            match request_validate request with
            | Err error =>
                stop (refuse_cancelled env 7 identity
                        (tool_error_output call (txt "tool dispatch rejected: " ++ error)) c)
            | Ok _ => (inl (lease, effect_id, request), c)
            end
        end
    end.

(** Rolling a prepared effect back after the registry rejected it. *)
Definition reject_preparation (env : ToolEnv) (identity : ToolOperationIdentity)
    (call : ToolCall) (error : AgentError) (recovery : option text) (c : Core J) :
    (ToolOutcome * option N * bool * option text) * Core J :=
  let '(terminal, c) :=
    if is_Ok (te_rollback env) then operations (cancel identity) (sync env 10 c) else (Ok tt, c) in
  let cleanup := match te_rollback env with Ok _ => terminal | Err e => Err e end in
  let output := Value (tool_error_output call (display_error error)) in
  match cleanup with
  | Err cleanup_error =>
      let message := bound_utf8
        (txt "operation preparation rollback could not be confirmed: "
           ++ display_error cleanup_error) MAX_OPERATION_DIAGNOSTIC_BYTES in
      ((output, None, false, Some message), require_operation_recovery message (sync env 11 c))
  | Ok _ => ((output, None, false, recovery), c)
  end.

(** What becomes of the dispatched outcome: outcome, effect id, pending value
    completion and recovery signal. *)
Definition settle_outcome (env : ToolEnv) (identity : ToolOperationIdentity) (call : ToolCall)
    (effect_id : option N) (outcome : ToolOutcome) (recovery : option text) (c : Core J) :
    (ToolOutcome * option N * bool * option text) * Core J :=
  match outcome with
  | PreparedEffect output effect =>
      match
        match effect_id with
        | None => (Err (InvalidRequest (txt
                     "read-only operation unexpectedly returned a prepared effect")), c)
        | Some e =>
            match operations (mark_prepared (ti_operation_id identity) e) (sync env 9 c) with
            | (Err error, c1) => (Err error, c1)
            | (Ok _, c1) => (Ok e, c1)
            end
        end
      with
      | (Ok e, c) => ((PreparedEffect output effect, Some e, false, recovery), c)
      | (Err error, c) => reject_preparation env identity call error recovery c
      end
  | outcome => ((outcome, None, true, recovery), c)
  end.

(** Run the tool and record what it did. *)
Definition run_tool (env : ToolEnv) (identity : ToolOperationIdentity) (call : ToolCall)
    (lease : option AuthorityLease) (effect_id : option N) (request : ToolExecutionRequest)
    (c : Core J) : CoreToolExecution * Core J :=
  let '(outcome, recovery, c) :=
    match te_execute env request with
    | Ok outcome => (outcome, None, c)
    | Err (RecoveryRequired _ as error) =>
        let message := bound_utf8 (display_error error) MAX_OPERATION_DIAGNOSTIC_BYTES in
        (Value (tool_error_output call message), Some message,
         require_operation_recovery message (sync env 8 c))
    | Err error => (Value (tool_error_output call (display_error error)), None, c)
    end in
  match settle_outcome env identity call effect_id (map_output strip_denial outcome) recovery c with
  | ((outcome, effect_id, pending, recovery), c) =>
      ({| cx_outcome := map_output (te_bound env) outcome; cx_lease := lease;
          cx_effect_id := effect_id; cx_argument_digest := ti_argument_digest identity;
          cx_value_completion_pending := pending; cx_recovery_required := recovery |}, c)
  end.

(** The dispatched request, if any, is returned beside the execution. *)
Definition execute_published_tool (env : ToolEnv) (identity : ToolOperationIdentity)
    (call : ToolCall) (surface : ToolSurfaceSnapshot) (c : Core J) :
    (CoreToolExecution * option ToolExecutionRequest) * Core J :=
  match preflight env identity call surface c with
  | (inr execution, c) => ((execution, None), c)
  | (inl spec, c) =>
      match authorize env identity call c with
      | (inr execution, c) => ((execution, None), c)
      | (inl shadow, c) =>
          match reserve env identity call spec shadow c with
          | (inr execution, c) => ((execution, None), c)
          | (inl (lease, effect_id, request), c) =>
              match run_tool env identity call lease effect_id request c with
              | (execution, c) => ((execution, Some request), c)
              end
          end
      end
  end.

End dispatch.
