(* ===== verification/DispatchTheorems.v ===== *)
(** What execution promises: a tool runs only for an approved, admitted and
    durably reserved operation of the current epoch, at most once; and an
    operation that is not dispatched does not stay open. *)

From S2P Require Import Prelude Text Digest Jcs Operation Journal Wal Intent Registry RegistryFacts RegistrySteps.
From S2P Require Import RegistryTheorems Kernel KernelStartup KernelOps Intent Dispatch.

Section dispatch_facts.
Context {J : Type} `{OJ : OperationJournal J} `{OL : !OperationJournalLaws J} `{CD : Codec} `{JN : JsonNumber}.
Implicit Types (c : Core J) (env : ToolEnv).

(** A later state of Core. *)
Definition later c c' : Prop := core_inv c' /\ core_evolves c c'.

Lemma later_refl c : core_inv c -> later c c.
Proof. by split. Qed.

Lemma later_trans c1 c2 c3 : later c1 c2 -> later c2 c3 -> later c1 c3.
Proof. intros [_ H1] [H2 H3]. split; [done|by etrans]. Qed.

Lemma later_run ops c c' : later c c' -> later c (core_run ops c').
Proof.
  intros [H1 H2]. destruct (core_run_keeps ops c' H1) as [H3 H4]. split; [done|by etrans].
Qed.

Lemma later_sync env k c c' : later c c' -> later c (sync env k c').
Proof. apply later_run. Qed.

Lemma later_keeps {A} (m : M (Core J) AgentError A) c c1 res c2 :
  core_keeps m -> later c c1 -> m c1 = (res, c2) -> later c c2.
Proof.
  intros Hm [H1 H2] Hr. destruct (Hm _ _ _ H1 Hr) as [H3 H4]. split; [done|by etrans].
Qed.

Lemma keeps_op_refused id m : core_keeps (J := J) (operations (finish_refused id m)).
Proof. apply keeps_registry; [apply finish_refused_keeps|apply finish_terminal_epoch]. Qed.

Lemma keeps_op_cancel i : core_keeps (J := J) (operations (cancel i)).
Proof. apply keeps_registry; [apply cancel_keeps|apply cancel_epoch]. Qed.

Lemma keeps_op_lease id l : core_keeps (J := J) (operations (record_lease id l)).
Proof. apply keeps_registry; [apply record_lease_keeps|apply record_lease_epoch]. Qed.

Lemma keeps_op_prepared id e : core_keeps (J := J) (operations (mark_prepared id e)).
Proof. apply keeps_registry; [apply mark_prepared_keeps|apply transition_epoch]. Qed.

Lemma later_require reason c c1 : later c c1 -> later c (require_operation_recovery reason c1).
Proof. intros H. apply (later_run [CoRequireRecovery reason] c c1 H). Qed.

(** ** Each stage moves Core forward *)

Lemma refuse_later env k i call m o c c1 x c2 :
  later c c1 -> refuse env k i call m o c1 = (x, c2) -> later c c2.
Proof.
  intros H. unfold refuse. destruct (operations _ _) as [[u|e] c3] eqn:E; intros [= _ <-];
    (eapply later_keeps; [apply keeps_op_refused|by apply later_sync|exact E]).
Qed.

Lemma refuse_cancelled_later env k i o c c1 x c2 :
  later c c1 -> refuse_cancelled env k i o c1 = (x, c2) -> later c c2.
Proof.
  intros H. unfold refuse_cancelled. destruct (operations _ _) as [res c3] eqn:E. intros [= _ <-].
  eapply later_keeps; [apply keeps_op_cancel|by apply later_sync|exact E].
Qed.

Lemma preflight_later env i call surface c c1 x c2 :
  later c c1 -> preflight env i call surface c1 = (x, c2) ->
  later c c2 /\
  (forall spec, x = inl spec ->
     call_matches (co_run_id c1) i call = true /\ spec ∈ ts_specs surface /\
     tp_name spec = tl_name call /\ schema_violation surface call spec = None).
Proof.
  intros H. unfold preflight.
  destruct (ensure_mutation_allowed _) as [[u|e] c3] eqn:E;
    (assert (H3 : later c c3)
       by (eapply later_keeps; [apply keeps_mutation_allowed|by apply later_sync|exact E]));
    [|by intros [= <- <-]].
  assert (Hrun : co_run_id c3 = co_run_id c1).
  { assert (H31 : later c1 c3).
    { eapply later_keeps; [apply keeps_mutation_allowed| |exact E].
      apply later_sync, later_refl, H. }
    apply (ce_run _ _ (proj2 H31)). }
  rewrite Hrun. destruct (call_matches _ _ _) eqn:Em; cbn [negb].
  2: { destruct (refuse _ _ _ _ _ _ _) as [y c4] eqn:Er. intros [= <- <-].
       split; [by eapply refuse_later|done]. }
  assert (H4 : later c (sync env 1 c3)) by (by apply later_sync).
  destruct (negb _).
  { destruct (refuse_cancelled _ _ _ _ _) as [y c4] eqn:Er. intros [= <- <-].
    split; [by eapply refuse_cancelled_later|done]. }
  destruct (list_find _ _) as [[n spec]|] eqn:Ef.
  2: { destruct (refuse _ _ _ _ _ _ _) as [y c4] eqn:Er. intros [= <- <-].
       split; [by eapply refuse_later|done]. }
  destruct (schema_violation _ _ _) eqn:Es.
  { destruct (refuse _ _ _ _ _ _ _) as [y c4] eqn:Er. intros [= <- <-].
    split; [by eapply refuse_later|done]. }
  intros [= <- <-]. split; [done|]. intros s [= <-].
  apply list_find_Some in Ef as (Hl & Hn & _). split; [done|]. split; [|done].
  by eapply list_elem_of_lookup_2.
Qed.

Lemma authorize_later env i call c c1 x c2 :
  later c c1 -> authorize env i call c1 = (x, c2) ->
  later c c2 /\ (forall s, x = inl s -> te_verdict env = VerdictAllowed).
Proof.
  intros H. unfold authorize.
  destruct (te_verdict env) as [|m|m r|m].
  - destruct (te_has_shadow env); [destruct (te_shadow_cancelled env)|]; try by intros [= <- <-].
    destruct (refuse_cancelled _ _ _ _ _) as [y c4] eqn:Er. intros [= <- <-].
    split; [by eapply refuse_cancelled_later|done].
  - destruct (refuse _ _ _ _ _ _ _) as [y c4] eqn:Er. intros [= <- <-].
    split; [by eapply refuse_later|done].
  - destruct (refuse _ _ _ _ _ _ _) as [y c4] eqn:Er. intros [= <- <-].
    split; [by eapply refuse_later|done].
  - destruct (refuse _ _ _ _ _ _ _) as [y c4] eqn:Er. intros [= <- <-].
    split; [by eapply refuse_later|done].
Qed.

(** ** The reservation *)

Lemma mark_executing_done x id e c c' u :
  core_inv c -> mark_operation_executing_if_current x id e c = (Ok u, c') ->
  co_epoch c = x /\ co_epoch c' = x /\ rg_recovery_required (co_operations c') = None /\
  exists p, rg_records (co_operations c) !! id = Some p /\ os_state p = Accepted /\
    rg_records (co_operations c') !! id =
      Some {| os_identity := os_identity p; os_state := Executing e |} /\
    rg_leases (co_operations c') = rg_leases (co_operations c).
Proof.
  intros Hc. unfold mark_operation_executing_if_current, bind, ensure_mutation_allowed, operations.
  destruct (ensure_healthy_cases (co_operations c)) as [(y & _ & ->)|[Hh ->]]; [done|].
  unfold require_current_epoch, bind, get. cbn [co_epoch set_operations].
  destruct (N.eqb_spec (co_epoch c) x) as [<-|]; [|done]. unfold ret. cbn [co_operations set_operations].
  unfold mark_executing. destruct (from_option _ _ _); [done|]. unfold transition.
  destruct (ensure_healthy_cases (co_operations c)) as [(y & _ & ->)|[_ ->]]; [done|].
  destruct (rg_records (co_operations c) !! id) as [p|] eqn:Ep; [|done].
  destruct (os_state p) eqn:Es; try done.
  destruct (append_snapshot _ _) as [[v|er] r1] eqn:Ea; [|done]. intros [= _ <-].
  apply append_transition_cases in Ea as (_ & Hr & _ & _ & Hl & Hf & _).
  refine (conj eq_refl (conj eq_refl (conj _ _))); [by cbn; rewrite Hf|].
  exists p. refine (conj eq_refl (conj Es (conj _ _))); [apply lookup_insert_eq|done].
Qed.

Lemma record_lease_done id l c c' u :
  operations (record_lease id l) c = (Ok u, c') ->
  rg_leases (co_operations c') !! id = Some l.
Proof.
  unfold operations, record_lease.
  destruct (ensure_healthy_cases (co_operations c)) as [(y & _ & ->)|[_ ->]]; [done|].
  destruct (rg_records _ !! id); [|done]. destruct (_ || _); [done|]. intros [= _ <-].
  apply lookup_insert_eq.
Qed.

(** What holds in the state a tool is dispatched from. *)
Record dispatchable (env : ToolEnv) (identity : ToolOperationIdentity) (call : ToolCall)
    (spec : ToolSpec) (lease : option AuthorityLease) (effect_id : option N)
    (request : ToolExecutionRequest) (c : Core J) : Prop := {
  dp_epoch : co_epoch c = ti_generation identity;
  dp_healthy : rg_recovery_required (co_operations c) = None;
  dp_record : exists s, rg_records (co_operations c) !! ti_operation_id identity = Some s /\
    os_state s = Executing effect_id;
  dp_effect : effect_id = if bool_decide (tp_risk spec = RiskReadOnly) then None
                          else Some (te_fresh_effect_id env);
  dp_lease : match lease with
             | None => tp_risk spec = RiskReadOnly
             | Some l => tp_risk spec <> RiskReadOnly /\ al_decision l = Allow /\
                 al_operation_id l = ti_operation_id identity /\
                 al_argument_digest l = ti_argument_digest identity /\
                 al_operation_generation l = ti_generation identity /\
                 al_issued_at_ms l = te_now_ms env
             end;
  dp_request : request = {| tq_run_id := co_run_id c; tq_call := call;
    tq_effect_context :=
      (fun e => {| oc_identity := identity; oc_effect_id := e |}) <$> effect_id |};
  dp_valid : request_validate request = Ok tt;
}.

(** The operation was still only accepted when its reservation was written. *)
Definition was_accepted (c : Core J) (id : N) (c0 : Core J) : Prop :=
  exists cm p, later c cm /\ later cm c0 /\
    rg_records (co_operations cm) !! id = Some p /\ os_state p = Accepted.

Lemma reserve_later env i call spec shadow c c1 x c2 :
  later c c1 -> reserve env i call spec shadow c1 = (x, c2) ->
  later c c2 /\
  (forall lease e rq, x = inl (lease, e, rq) ->
     dispatchable env i call spec lease e rq c2 /\ was_accepted c (ti_operation_id i) c2).
Proof.
  intros H. unfold reserve. assert (H4 : later c (sync env 4 c1)) by (by apply later_sync).
  destruct (negb _).
  { destruct (refuse_cancelled _ _ _ _ _) as [y c4] eqn:Er. intros [= <- <-].
    split; [by eapply refuse_cancelled_later|done]. }
  set (side := negb _). set (lease := if side then _ else _). set (e := if side then _ else _).
  assert (H5 : later c (sync env 5 (sync env 4 c1))) by (by apply later_sync).
  destruct (match lease with Some _ => _ | None => _ end) as [[u|er] c3] eqn:El.
  2: { intros [= <- <-]. split; [|done]. destruct lease; [|done].
       eapply later_keeps; [apply keeps_op_lease|exact H5|exact El]. }
  assert (H6 : later c c3).
  { destruct lease; [|by injection El as _ <-].
    eapply later_keeps; [apply keeps_op_lease|exact H5|exact El]. }
  assert (H7 : later c (sync env 6 c3)) by (by apply later_sync).
  destruct (mark_operation_executing_if_current _ _ _ _) as [[v|er] c5] eqn:Em.
  2: { destruct (refuse_cancelled _ _ _ _ _) as [y c6] eqn:Er. intros [= <- <-].
       split; [|done]. eapply refuse_cancelled_later; [|exact Er].
       eapply later_keeps; [apply keeps_mark_executing|exact H7|exact Em]. }
  assert (H8 : later c c5)
    by (eapply later_keeps; [apply keeps_mark_executing|exact H7|exact Em]).
  destruct (request_validate _) as [[]|er] eqn:Ev.
  2: { destruct (refuse_cancelled _ _ _ _ _) as [y c6] eqn:Er. intros [= <- <-].
       split; [by eapply refuse_cancelled_later|done]. }
  intros [= <- <-]. split; [done|]. intros lease' e' rq [= <- <- <-].
  pose proof (later_keeps _ _ _ _ _ (keeps_mark_executing _ _ _) (later_refl _ (proj1 H7)) Em) as H9.
  apply mark_executing_done in Em as (_ & Hep & Hh & p & Hp & Hst & Hr & _); [|apply H7].
  split; [|exists (sync env 6 c3), p; done]. split; try done.
  - eauto.
  - subst e side. by destruct (bool_decide _).
  - subst lease side. case_bool_decide; [done|]. cbn. done.
Qed.

(** ** Running the tool *)

Lemma reject_preparation_later env i call er rec c c1 x c2 :
  later c c1 -> reject_preparation env i call er rec c1 = (x, c2) -> later c c2.
Proof.
  intros H. unfold reject_preparation.
  destruct (if is_Ok (te_rollback env) then _ else _) as [t c3] eqn:Et.
  assert (H3 : later c c3).
  { destruct (is_Ok _); [|by injection Et as _ <-].
    eapply later_keeps; [apply keeps_op_cancel|by apply later_sync|exact Et]. }
  destruct (match te_rollback env with Ok _ => t | Err e => Err e end); intros [= _ <-]; [done|].
  by apply later_require, later_sync.
Qed.

Lemma settle_outcome_later env i call e o rec c c1 x c2 :
  later c c1 -> settle_outcome env i call e o rec c1 = (x, c2) -> later c c2.
Proof.
  intros H. unfold settle_outcome. destruct o as [o|o eff|o d|o q]; try by intros [= _ <-].
  destruct e as [e|]; [|by apply reject_preparation_later].
  destruct (operations _ _) as [[u|er] c3] eqn:E;
    (assert (H3 : later c c3)
      by (eapply later_keeps; [apply keeps_op_prepared|by apply later_sync|exact E])).
  - by intros [= _ <-].
  - by apply reject_preparation_later.
Qed.

Lemma run_tool_later env i call lease e rq c c1 x c2 :
  later c c1 -> run_tool env i call lease e rq c1 = (x, c2) -> later c c2.
Proof.
  intros H. unfold run_tool.
  destruct (match te_execute env rq with Ok _ => _ | Err _ => _ end) as [[o rec] c3] eqn:Eo.
  assert (H3 : later c c3).
  { destruct (te_execute env rq) as [|[]]; injection Eo as _ _ <-; try done.
    by apply later_require, later_sync. }
  destruct (settle_outcome _ _ _ _ _ _ _) as [[[[o' e'] pend] rec'] c4] eqn:Es.
  intros [= _ <-]. by eapply settle_outcome_later.
Qed.

(** The whole execution, seen from its dispatch. *)
Lemma execute_dispatches env i call surface c x rq c' :
  core_inv c -> execute_published_tool env i call surface c = ((x, Some rq), c') ->
  exists spec lease e c0,
    later c c0 /\ later c0 c' /\ te_verdict env = VerdictAllowed /\
    call_matches (co_run_id c) i call = true /\ spec ∈ ts_specs surface /\
    tp_name spec = tl_name call /\ schema_violation surface call spec = None /\
    dispatchable env i call spec lease e rq c0 /\ was_accepted c (ti_operation_id i) c0 /\
    run_tool env i call lease e rq c0 = (x, c').
Proof.
  intros Hc. unfold execute_published_tool.
  destruct (preflight _ _ _ _ c) as [[spec|y] c1] eqn:Ep; [|done].
  destruct (preflight_later _ _ _ _ _ _ _ _ (later_refl _ Hc) Ep) as [H1 Hp].
  destruct (Hp spec eq_refl) as (Hm & Hin & Hn & Hs).
  destruct (authorize _ _ _ c1) as [[shadow|y] c2] eqn:Ea; [|done].
  destruct (authorize_later _ _ _ _ _ _ _ H1 Ea) as [H2 Hv].
  destruct (reserve _ _ _ _ _ c2) as [[[[lease e] rq']|y] c3] eqn:Er; [|done].
  destruct (reserve_later _ _ _ _ _ _ _ _ _ H2 Er) as [H3 Hd].
  destruct (run_tool _ _ _ _ _ _ c3) as [y c4] eqn:Et. intros [= <- <- <-].
  pose proof (run_tool_later _ _ _ _ _ _ _ _ _ _ (later_refl _ (proj1 H3)) Et) as H4.
  destruct (Hd _ _ _ eq_refl) as [Hdp Hacc].
  exists spec, lease, e, c3. repeat (split; [by eauto|]). done.
Qed.

End dispatch_facts.

(** The dispatch guarantees of Core. *)

Section theorems.
Context {J : Type} `{OJ : OperationJournal J} `{OL : !OperationJournalLaws J} `{CD : Codec}
  `{JN : JsonNumber}.
Implicit Types (c : Core J) (env : ToolEnv).

(** The durable record of an operation. *)
Definition durable_record c (id : N) (s : OperationSnapshot) : Prop :=
  exists j, rg_journal (co_operations c) = Some j /\ tr_ops (journal_truth j) !! id = Some s.

Lemma record_durable c id s :
  core_inv c -> rg_journal (co_operations c) <> None ->
  rg_records (co_operations c) !! id = Some s -> durable_record c id s.
Proof.
  intros [[_ Hcp] _] Hj Hs. destruct (rg_journal (co_operations c)) as [j|] eqn:E; [|done].
  destruct (Hcp j eq_refl) as (_ & Hsub & _). exists j. split; [done|]. by eapply lookup_weaken.
Qed.

(** A durable record persists: same identity, no earlier state, final if terminal. *)
Lemma durable_later c c' id s :
  later c c' -> durable_record c id s ->
  exists s', durable_record c' id s' /\ os_identity s' = os_identity s /\
    rank (os_state s) <= rank (os_state s') /\ (rank (os_state s') <= rank (os_state s) -> s' = s).
Proof.
  intros [_ [_ _ [_ _ Hle _]]] (j & Hj & Hs). rewrite Hj in Hle. unfold durable_record.
  destruct (rg_journal (co_operations c')) as [j'|]; [|done].
  destruct Hle as [_ Hle]. destruct (Hle id s Hs) as (s' & Hs' & ?). eauto 10.
Qed.

Lemma journal_later c c' :
  later c c' -> rg_journal (co_operations c) <> None -> rg_journal (co_operations c') <> None.
Proof.
  intros [_ [_ _ [_ _ Hle _]]] Hj. destruct (rg_journal (co_operations c)); [|done].
  by destruct (rg_journal (co_operations c')).
Qed.

Lemma durable_record_agree c id s s' : durable_record c id s -> durable_record c id s' -> s = s'.
Proof. intros (j & Hj & Hs) (j' & Hj' & Hs'). congruence. Qed.

Lemma run_tool_lease env i call lease e rq c x c' :
  run_tool env i call lease e rq c = (x, c') ->
  cx_lease x = lease /\ cx_argument_digest x = ti_argument_digest i.
Proof.
  unfold run_tool. destruct (match te_execute env rq with Ok _ => _ | Err _ => _ end) as [[o rec] c3].
  destruct (settle_outcome _ _ _ _ _ _ _) as [[[[o' e'] p] r'] c4]. by intros [= <- _].
Qed.

(** C4. A tool runs only with full authority: if a call reaches the tool at all
    then approval allowed it; the request is the admitted call of this run with
    its digest; its spec is on the captured surface and its arguments passed the
    schema; and in the state it is dispatched from Core is healthy, the epoch is
    the operation's generation, and the journal durably says [Executing] under
    the effect id the request carries, which a side-effecting call has together
    with a lease for exactly this operation and a read-only call has not. *)
Theorem dispatch_authorized env i call surface c x rq c' s0 :
  core_inv c -> durable_record c (ti_operation_id i) s0 -> os_identity s0 = i ->
  execute_published_tool env i call surface c = ((x, Some rq), c') ->
  te_verdict env = VerdictAllowed /\ tq_call rq = call /\ tq_run_id rq = co_run_id c /\
  call_matches (co_run_id c) i call = true /\
  exists spec effect_id c0,
    (spec ∈ ts_specs surface /\ tp_name spec = tl_name call /\
     schema_violation surface call spec = None) /\
    (later c c0 /\ later c0 c' /\ rg_recovery_required (co_operations c0) = None /\
     co_epoch c0 = ti_generation i /\
     durable_record c0 (ti_operation_id i) {| os_identity := i; os_state := Executing effect_id |}) /\
    (tq_effect_context rq =
       (fun e => {| oc_identity := i; oc_effect_id := e |}) <$> effect_id) /\
    (if bool_decide (tp_risk spec = RiskReadOnly)
     then effect_id = None /\ cx_lease x = None
     else effect_id = Some (te_fresh_effect_id env) /\
       exists l, cx_lease x = Some l /\ al_operation_id l = ti_operation_id i /\
         al_argument_digest l = ti_argument_digest i /\
         al_operation_generation l = ti_generation i /\ al_decision l = Allow).
Proof.
  intros Hc Hd Hi He.
  apply execute_dispatches in He
    as (spec & lease & e & c0 & H0 & H1 & Hv & Hm & Hin & Hn & Hs
      & [Hepoch Hhealthy Hrec ? Hlease ? ?] & _ & Hrun); [|done].
  apply run_tool_lease in Hrun as [Hl _]. subst rq. cbn [tq_call tq_run_id tq_effect_context].
  refine (conj Hv (conj eq_refl (conj _ (conj Hm _)))); [apply (ce_run _ _ (proj2 H0))|].
  exists spec, e, c0. refine (conj _ (conj _ (conj eq_refl _))); [done| |].
  - refine (conj H0 (conj H1 (conj Hhealthy (conj Hepoch _)))).
    destruct Hrec as (s & Hs0 & Hst).
    destruct (durable_later _ _ _ _ H0 Hd) as (s' & Hs' & Hid & _).
    apply record_durable in Hs0; [|apply H0|].
    + rewrite (durable_record_agree _ _ _ _ Hs' Hs0) in *.
      destruct s as [si st]. cbn in *. congruence.
    + destruct Hs' as (j & Hj & _). congruence.
  - destruct lease as [l|].
    + destruct Hlease as (Hne & Ha & Ho & Hg & Hgen & _). rewrite bool_decide_eq_false_2 in * by done.
      split; [done|]. exists l. done.
    + rewrite bool_decide_eq_true_2 in * by done. done.
Qed.

(** A tool runs at most once per operation: once a call was dispatched, no
    later execution of the same operation id, by whatever caller, environment and
    interleaving, dispatches again. *)
Theorem dispatch_at_most_once env i call surface c x rq c' ops env2 i2 call2 surface2 :
  core_inv c -> rg_journal (co_operations c) <> None ->
  execute_published_tool env i call surface c = ((x, Some rq), c') ->
  ti_operation_id i2 = ti_operation_id i ->
  (execute_published_tool env2 i2 call2 surface2 (core_run ops c')).1.2 = None.
Proof.
  intros Hc Hj He Hid.
  apply execute_dispatches in He as (spec & lease & e & c0 & H0 & H1 & _ & _ & _ & _ & _ & Hdp & _);
    [|done].
  destruct (execute_published_tool env2 _ _ _ _) as [[x2 [rq2|]] c2] eqn:E2; [|done]. exfalso.
  assert (H2 : later c0 (core_run ops c')) by (by apply later_run).
  apply execute_dispatches in E2 as (_ & _ & _ & c3 & _ & _ & _ & _ & _ & _ & _ & _ & Hacc & _);
    [|apply H2].
  destruct Hacc as (cm & p & Hcm & _ & Hp & Hst).
  assert (H3 : later c0 cm) by (by eapply later_trans).
  destruct (dp_record _ _ _ _ _ _ _ _ Hdp) as (s & Hs & Hex).
  apply record_durable in Hs; [|apply H0|by eapply journal_later].
  destruct (durable_later _ _ _ _ H3 Hs) as (s' & Hs' & _ & Hr & _).
  apply record_durable in Hp; [|apply H3|destruct Hs' as (j & Hj' & _); congruence].
  rewrite Hid in Hp. rewrite (durable_record_agree _ _ _ _ Hs' Hp), Hst, Hex in Hr. cbn in Hr. lia.
Qed.

(** ** Undispatched operations do not stay open *)

(** The operation is terminal, or Core is fenced. *)
Definition closed (i : ToolOperationIdentity) (r : Registry J) : Prop :=
  rg_recovery_required r <> None \/
  exists s, rg_records r !! ti_operation_id i = Some s /\ os_identity s = i /\
    is_terminal (os_state s) = true.

Lemma finish_refused_closes i m (r r' : Registry J) res st :
  rg_records r !! ti_operation_id i = Some {| os_identity := i; os_state := st |} ->
  st = Accepted -> finish_refused (ti_operation_id i) m r = (res, r') -> closed i r'.
Proof.
  intros Hr ->. unfold finish_refused, finish_terminal, closed.
  destruct (ensure_healthy_cases r) as [(y & Hf & ->)|[_ ->]]; [intros [= _ <-]; left; congruence|].
  rewrite Hr. cbn [os_state negb os_identity].
  destruct (append_snapshot _ r) as [[u|er] r1] eqn:Ea; intros [= _ <-].
  - right. eexists. split; [apply lookup_insert_eq|done].
  - left. by apply append_transition_cases in Ea as (j & j' & m' & _ & _ & _ & ->).
Qed.

Lemma cancel_closes i (r r' : Registry J) res st :
  reg_inv r -> rg_records r !! ti_operation_id i = Some {| os_identity := i; os_state := st |} ->
  rank st < 3 -> cancel i r = (res, r') -> closed i r'.
Proof.
  intros Hinv Hr Hst. unfold cancel, closed.
  pose proof (snapshot_validate_identity _ (records_valid _ _ _ Hinv Hr)) as Hv.
  cbn [os_identity] in Hv. rewrite Hv. cbn [map_err].
  destruct (ensure_healthy_cases r) as [(y & Hf & ->)|[_ ->]]; [intros [= _ <-]; left; congruence|].
  rewrite Hr. cbn [os_identity os_state]. rewrite bool_decide_eq_true_2 by done. cbn [negb].
  assert (Hcommit : forall e, match append_snapshot (cancelled_snapshot i e) r with
      | (Err er, r1) => (Err er, r1)
      | (Ok _, r1) => (Ok tt, install_cancelled (cancelled_snapshot i e) r1)
      end = (res, r') -> closed i r').
  { intros e. destruct (append_snapshot _ r) as [[u|er] r1] eqn:Ea; intros [= _ <-].
    - right. exists (cancelled_snapshot i e). split; [apply lookup_insert_eq|done].
    - left. by apply append_transition_cases in Ea as (j & j' & m' & _ & _ & _ & ->). }
  destruct st; try apply Hcommit; cbn in Hst; lia.
Qed.

(** A result that gives the caller nothing to act on. *)
Definition plain (x : CoreToolExecution) : Prop :=
  cx_lease x = None /\ cx_effect_id x = None /\ cx_value_completion_pending x = false.

(** No other task runs. *)
Definition alone env : Prop := forall k, te_interfere env k = [].

Lemma sync_alone env k c : alone env -> sync env k c = c.
Proof. intros Ha. unfold sync. by rewrite Ha. Qed.

Lemma refuse_closes env k i call m o c x c' :
  alone env ->
  rg_records (co_operations c) !! ti_operation_id i =
    Some {| os_identity := i; os_state := Accepted |} ->
  refuse env k i call m o c = (x, c') -> closed i (co_operations c') /\ plain x.
Proof.
  intros Ha Hr. unfold refuse, operations. rewrite sync_alone by done.
  destruct (finish_refused _ _ _) as [res r] eqn:E.
  apply (finish_refused_closes _ _ _ _ _ Accepted) in E; [|done|done].
  destruct res; intros [= <- <-]; by split.
Qed.

Lemma refuse_cancelled_closes env k i o c x c' st :
  alone env -> core_inv c ->
  rg_records (co_operations c) !! ti_operation_id i =
    Some {| os_identity := i; os_state := st |} -> rank st < 3 ->
  refuse_cancelled env k i o c = (x, c') -> closed i (co_operations c') /\ plain x.
Proof.
  intros Ha [Hinv _] Hr Hst. unfold refuse_cancelled, operations. rewrite sync_alone by done.
  destruct (cancel i _) as [res r] eqn:E. apply (cancel_closes _ _ _ _ st) in E; [|done..].
  intros [= <- <-]. by split.
Qed.

Lemma preflight_closes env i call surface c x c' :
  alone env -> core_inv c ->
  rg_records (co_operations c) !! ti_operation_id i =
    Some {| os_identity := i; os_state := Accepted |} ->
  preflight env i call surface c = (x, c') ->
  match x with
  | inl _ => c' = c
  | inr y => closed i (co_operations c') /\ plain y
  end.
Proof.
  intros Ha Hc Hr. unfold preflight. rewrite !sync_alone by done.
  unfold ensure_mutation_allowed, operations at 1.
  destruct (ensure_healthy_cases (co_operations c)) as [(y & Hf & ->)|[_ ->]].
  { intros [= <- <-]. split; [|by split]. left. cbn. congruence. }
  replace (set_operations c (co_operations c)) with c by (by destruct c).
  rewrite !sync_alone by done.
  destruct (negb (call_matches _ _ _)).
  { destruct (refuse _ _ _ _ _ _ _) as [y c4] eqn:Er. intros [= <- <-].
    by eapply refuse_closes. }
  destruct (negb _).
  { destruct (refuse_cancelled _ _ _ _ _) as [y c4] eqn:Er. intros [= <- <-].
    eapply refuse_cancelled_closes; [done|done|done| |exact Er]. cbn. lia. }
  destruct (list_find _ _) as [[n spec]|].
  2: { destruct (refuse _ _ _ _ _ _ _) as [y c4] eqn:Er. intros [= <- <-].
       by eapply refuse_closes. }
  destruct (schema_violation _ _ _); [|by intros [= <- <-]].
  destruct (refuse _ _ _ _ _ _ _) as [y c4] eqn:Er. intros [= <- <-].
  by eapply refuse_closes.
Qed.

Lemma authorize_closes env i call c x c' :
  alone env -> core_inv c ->
  rg_records (co_operations c) !! ti_operation_id i =
    Some {| os_identity := i; os_state := Accepted |} ->
  authorize env i call c = (x, c') ->
  match x with
  | inl _ => c' = c
  | inr y => closed i (co_operations c') /\ plain y
  end.
Proof.
  intros Ha Hc Hr. unfold authorize. destruct (te_verdict env) as [|m|m re|m].
  - destruct (te_has_shadow env); [destruct (te_shadow_cancelled env)|]; try by intros [= <- <-].
    destruct (refuse_cancelled _ _ _ _ _) as [y c4] eqn:Er. intros [= <- <-].
    eapply refuse_cancelled_closes; [done|done|done| |exact Er]. cbn. lia.
  - destruct (refuse _ _ _ _ _ _ _) as [y c4] eqn:Er. intros [= <- <-]. by eapply refuse_closes.
  - destruct (refuse _ _ _ _ _ _ _) as [y c4] eqn:Er. intros [= <- <-]. by eapply refuse_closes.
  - destruct (refuse _ _ _ _ _ _ _) as [y c4] eqn:Er. intros [= <- <-]. by eapply refuse_closes.
Qed.

(** Recording the minted lease can only fail because Core is fenced. *)
Lemma mint_recorded env i call spec shadow c res c' :
  rg_records (co_operations c) !! ti_operation_id i =
    Some {| os_identity := i; os_state := Accepted |} ->
  operations (record_lease (ti_operation_id i) (mint_lease env i call spec shadow)) c = (res, c') ->
  if is_Ok res
  then rg_records (co_operations c') = rg_records (co_operations c)
  else closed i (co_operations c').
Proof.
  intros Hr. unfold operations, record_lease.
  destruct (ensure_healthy_cases (co_operations c)) as [(y & Hf & ->)|[_ ->]].
  { intros [= <- <-]. left. cbn. congruence. }
  rewrite Hr. cbn [os_state os_identity mint_lease al_operation_id al_argument_digest
    al_operation_generation]. rewrite !N.eqb_refl, !bool_decide_eq_true_2 by done. cbn [negb orb].
  by intros [= <- <-].
Qed.

(** Reserving an accepted operation: acknowledged, or Core is fenced, or it is
    still accepted. *)
Lemma mark_executing_outcome x id e c c' res s :
  rg_records (co_operations c) !! id = Some s ->
  mark_operation_executing_if_current x id e c = (res, c') ->
  rg_recovery_required (co_operations c') <> None \/
  rg_records (co_operations c') !! id =
    Some (if is_Ok res then {| os_identity := os_identity s; os_state := Executing e |} else s).
Proof.
  intros Hr. unfold mark_operation_executing_if_current, bind, ensure_mutation_allowed, operations.
  destruct (ensure_healthy_cases (co_operations c)) as [(y & Hf & ->)|[_ ->]].
  { intros [= <- <-]. left. cbn. congruence. }
  unfold require_current_epoch, bind, get. cbn [co_epoch set_operations].
  destruct (_ =? _)%N; [|intros [= <- <-]; by right]. unfold ret. cbn [co_operations set_operations].
  unfold mark_executing. destruct (from_option _ _ _); [intros [= <- <-]; by right|].
  unfold transition.
  destruct (ensure_healthy_cases (co_operations c)) as [(y & Hf & ->)|[_ ->]].
  { intros [= <- <-]. left. cbn. congruence. }
  rewrite Hr. destruct (os_state s); try (intros [= <- <-]; by right).
  destruct (append_snapshot _ _) as [[v|er] r1] eqn:Ea; intros [= <- <-].
  - right. apply lookup_insert_eq.
  - left. by apply append_transition_cases in Ea as (j & j' & m' & _ & _ & _ & ->).
Qed.

Lemma reserve_closes env i call spec shadow c x c' :
  alone env -> core_inv c ->
  rg_records (co_operations c) !! ti_operation_id i =
    Some {| os_identity := i; os_state := Accepted |} ->
  reserve env i call spec shadow c = (inr x, c') -> closed i (co_operations c') /\ plain x.
Proof.
  intros Ha Hc Hr. unfold reserve. rewrite !sync_alone by done.
  destruct (negb (ti_generation i =? _)%N).
  { destruct (refuse_cancelled _ _ _ _ _) as [y c4] eqn:Er. intros [= <- <-].
    eapply refuse_cancelled_closes; [done|done|done| |exact Er]. cbn. lia. }
  set (side := negb _). set (lease := if side then _ else _). set (e := if side then _ else _).
  destruct (match lease with Some _ => _ | None => _ end) as [res c1] eqn:El.
  assert (H1 : core_inv c1 /\ if is_Ok res
    then rg_records (co_operations c1) = rg_records (co_operations c)
    else closed i (co_operations c1)).
  { subst lease. destruct side; [|by injection El as <- <-].
    split; [by eapply (keeps_op_lease _ _ c)|by eapply mint_recorded]. }
  destruct H1 as [Hc1 H1]. destruct res as [u|er]; cbn [is_Ok] in H1; [|by intros [= <- <-]].
  rewrite sync_alone by done. rewrite <- H1 in Hr.
  destruct (mark_operation_executing_if_current _ _ _ _) as [res c2] eqn:Em.
  destruct (keeps_mark_executing _ _ _ _ _ _ Hc1 Em) as [Hc2 _].
  apply (mark_executing_outcome _ _ _ _ _ _ _ Hr) in Em as Hout.
  assert (Hstop : forall k o y c3, refuse_cancelled env k i o c2 = (y, c3) ->
    closed i (co_operations c3) /\ plain y).
  { intros k o y c3 Er. destruct Hout as [Hf|Hr2].
    - unfold refuse_cancelled, operations in Er. rewrite sync_alone in Er by done.
      destruct (cancel i _) as [res' r3] eqn:Ecan. injection Er as <- <-. split; [|by split].
      destruct (cancel_keeps _ _ _ _ (proj1 Hc2) Ecan) as [_ Hev]. left. by apply (ev_fence _ _ Hev).
    - destruct res; (eapply refuse_cancelled_closes; [done|done|exact Hr2| |exact Er]); cbn; lia. }
  destruct res as [v|er].
  - destruct (request_validate _); [done|].
    destruct (refuse_cancelled _ _ _ _ _) as [y c4] eqn:Er. intros [= <- <-]. by eapply Hstop.
  - destruct (refuse_cancelled _ _ _ _ _) as [y c4] eqn:Er. intros [= <- <-]. by eapply Hstop.
Qed.

(** An operation that is not dispatched does not stay open: run without
    interference on a healthy Core that holds it as accepted, an execution that
    refuses to dispatch, whatever the reason, leaves the operation terminal or
    Core fenced, and its result carries no lease, effect or pending completion. *)
Theorem refusal_settles env i call surface c x c' :
  core_inv c -> alone env ->
  rg_records (co_operations c) !! ti_operation_id i =
    Some {| os_identity := i; os_state := Accepted |} ->
  execute_published_tool env i call surface c = ((x, None), c') ->
  closed i (co_operations c') /\
  plain x.
Proof.
  intros Hc Ha Hr. unfold execute_published_tool.
  destruct (preflight _ _ _ _ c) as [[spec|y] c1] eqn:Ep;
    pose proof (preflight_closes _ _ _ _ _ _ _ Ha Hc Hr Ep) as H1; [simpl in H1; subst c1|by intros [= <- <-]].
  destruct (authorize _ _ _ c) as [[shadow|y] c2] eqn:Ea;
    pose proof (authorize_closes _ _ _ _ _ _ Ha Hc Hr Ea) as H2; [simpl in H2; subst c2|by intros [= <- <-]].
  destruct (reserve _ _ _ _ _ c) as [[[[lease e] rq]|y] c3] eqn:Er.
  - by destruct (run_tool _ _ _ _ _ _ _).
  - intros [= <- <-]. by eapply reserve_closes.
Qed.

(** ** Publication *)

Lemma cancel_operation_closes i c c' res :
  core_inv c ->
  rg_records (co_operations c) !! ti_operation_id i =
    Some {| os_identity := i; os_state := Accepted |} ->
  cancel_operation i c = (res, c') -> closed i (co_operations c').
Proof.
  intros [Hinv _] Hr. unfold cancel_operation, bind, ensure_mutation_allowed, operations.
  destruct (ensure_healthy_cases (co_operations c)) as [(y & Hf & ->)|[_ ->]].
  { intros [= <- <-]. left. cbn. congruence. }
  cbn [co_operations set_operations]. destruct (cancel i _) as [x r] eqn:E. intros [= _ <-].
  apply (cancel_closes _ _ _ _ Accepted) in E; [done|done|done|cbn; lia].
Qed.

(** Publication is all or nothing: an accepted operation is either published,
    with both lifecycle events accepted by the event authority and the record
    untouched, or its permit is consumed, the caller gets an error and the
    operation is terminal or Core fenced, so it can never run unannounced. *)
Theorem publication_all_or_nothing env i call c res c' :
  core_inv c -> alone env ->
  rg_records (co_operations c) !! ti_operation_id i =
    Some {| os_identity := i; os_state := Accepted |} ->
  publish_tool_operation env i call c = (res, c') ->
  match res with
  | Ok permit => permit = i /\ call_matches (co_run_id c) i call = true /\
      te_events env 0 = Ok tt /\ te_events env 1 = Ok tt /\ c' = c
  | Err _ => closed i (co_operations c')
  end.
Proof.
  intros Hc Ha Hr. unfold publish_tool_operation. rewrite !sync_alone by done.
  assert (Hfail : forall ev er, match cancel_after_publication_failure i ev er c with
      | (e, c1) => (Err e, c1) end = (res, c') ->
    match res with
    | Ok permit => permit = i /\ call_matches (co_run_id c) i call = true /\
        te_events env 0 = Ok tt /\ te_events env 1 = Ok tt /\ c' = c
    | Err _ => closed i (co_operations c')
    end).
  { intros ev er. unfold cancel_after_publication_failure.
    destruct (cancel_operation i c) as [[u|e] c1] eqn:E; intros [= <- <-];
      by eapply cancel_operation_closes. }
  destruct (call_matches _ _ _) eqn:Em; cbn [negb]; [|apply Hfail].
  unfold query. rewrite Hr. cbn [os_identity os_state].
  rewrite !bool_decide_eq_true_2 by done. cbn [andb].
  destruct (te_events env 0) as [[]|er] eqn:E0; [|apply Hfail].
  destruct (te_events env 1) as [[]|er] eqn:E1; [|apply Hfail].
  by intros [= <- <-].
Qed.

(** ** What an execution leaves behind *)

Lemma mark_prepared_outcome id e (r r' : Registry J) res s :
  rg_recovery_required r = None -> rg_records r !! id = Some s ->
  os_state s = Executing (Some e) -> mark_prepared id e r = (res, r') ->
  match res with
  | Ok _ => rg_records r' !! id = Some {| os_identity := os_identity s; os_state := Prepared e |}
  | Err _ => rg_recovery_required r' <> None
  end.
Proof.
  intros Hf Hr Hst. unfold mark_prepared, transition, ensure_healthy. rewrite Hf, Hr, Hst, N.eqb_refl.
  destruct (append_snapshot _ r) as [[u|er] r1] eqn:Ea; intros [= <- <-].
  - apply lookup_insert_eq.
  - by apply append_transition_cases in Ea as (j & j' & m & _ & _ & _ & ->).
Qed.

Lemma reject_preparation_result env i call er rec c o id pending rec' c' :
  reject_preparation env i call er rec c = ((o, id, pending, rec'), c') ->
  o = Value (tool_error_output call (display_error er)) /\ id = None /\ pending = false.
Proof.
  unfold reject_preparation.
  destruct (if is_Ok (te_rollback env) then _ else _) as [t c3].
  destruct (match te_rollback env with Ok _ => t | Err e => Err e end); by intros [= <- <- <- _ _].
Qed.

Lemma reject_preparation_fenced env i call er rec c x c' :
  alone env -> core_inv c -> rg_recovery_required (co_operations c) <> None ->
  reject_preparation env i call er rec c = (x, c') ->
  rg_recovery_required (co_operations c') <> None.
Proof.
  intros Ha Hc Hf Hx.
  destruct (reject_preparation_later _ _ _ _ _ _ _ _ _ (later_refl _ Hc) Hx) as [_ [_ _ Hev]].
  by apply (ev_fence _ _ Hev).
Qed.

(** A dispatched operation is left in the state its result announces: a
    prepared effect is durably [Prepared] under the reserved id the caller gets
    to commit; any other outcome leaves the operation [Executing] with its value
    completion pending; a tool that reports it needs recovery, or a preparation
    the journal refused, fences Core; and no tool can forge the approval-denial
    mark of a pre-dispatch refusal. *)
Theorem execution_result env i call lease e rq c x c' s :
  alone env -> core_inv c -> rg_recovery_required (co_operations c) = None ->
  rg_records (co_operations c) !! ti_operation_id i = Some s -> os_state s = Executing e ->
  run_tool env i call lease e rq c = (x, c') ->
  (exists o, cx_outcome x = map_output (te_bound env) o /\
     to_approval_denial (outcome_output o) = None) /\
  match te_execute env rq with
  | Ok (PreparedEffect _ effect) =>
      rg_recovery_required (co_operations c') <> None \/
      match e with
      | Some id => cx_effect_id x = Some id /\ cx_value_completion_pending x = false /\
          cx_recovery_required x = None /\
          (exists o, cx_outcome x = PreparedEffect o effect) /\
          query (ti_operation_id i) (co_operations c') =
            Found {| os_identity := os_identity s; os_state := Prepared id |}
      | None => cx_effect_id x = None /\ cx_value_completion_pending x = false /\
          exists o, cx_outcome x = Value o
      end
  | Err (RecoveryRequired _) =>
      rg_recovery_required (co_operations c') <> None /\ cx_recovery_required x <> None
  | _ => c' = c /\ cx_effect_id x = None /\ cx_value_completion_pending x = true /\
      cx_recovery_required x = None
  end.
Proof.
  intros Ha Hc Hf Hr Hst. unfold run_tool. destruct (te_execute env rq) as [outcome|er].
  - destruct outcome as [o|o effect|o d|o q]; cbn [map_output settle_outcome];
      [intros [= <- <-]; by split; [exists (Value (strip_denial o))|]| |
       intros [= <- <-]; by split; [exists (RuntimeDirective (strip_denial o) d)|]|
       intros [= <- <-]; by split; [exists (EngineQuery (strip_denial o) q)|]].
    destruct e as [id|].
    + rewrite sync_alone by done. unfold operations at 1.
      destruct (mark_prepared _ id _) as [res r1] eqn:Em.
      pose proof (mark_prepared_outcome _ _ _ _ _ _ Hf Hr Hst Em) as Hout.
      destruct res as [u|er].
      * intros [= <- <-]. split; [by exists (PreparedEffect (strip_denial o) effect)|]. right.
        unfold query. cbn [co_operations set_operations]. rewrite Hout.
        repeat (split; [by eauto|]). done.
      * assert (Hc1 : core_inv (set_operations c r1)).
        { eapply (keeps_op_prepared _ id c (Err er)); [done|]. unfold operations. by rewrite Em. }
        destruct (reject_preparation _ _ _ _ _ _) as [[[[o' id'] pend] rec'] c4] eqn:Erp.
        pose proof (reject_preparation_fenced _ _ _ _ _ _ _ _ Ha Hc1 Hout Erp) as Hf4.
        apply reject_preparation_result in Erp as (-> & -> & ->). intros [= <- <-].
        split; [by exists (Value (tool_error_output call (display_error er)))|by left].
    + destruct (reject_preparation _ _ _ _ _ _) as [[[[o' id'] pend] rec'] c4] eqn:Erp.
      apply reject_preparation_result in Erp as (-> & -> & ->). intros [= <- <-].
      split; [by eexists (Value (tool_error_output call _))|]. right.
      split; [done|]. split; [done|]. by eexists.
  - destruct er; cbn [map_output settle_outcome]; intros [= <- <-];
      (split; [by eexists (Value (strip_denial (tool_error_output call _)))|]); try done.
    split; [|done]. cbn. apply require_recovery_fences.
Qed.

End theorems.
