(* ===== verification/Commit.v ===== *)
(** The commit and the rollback of a prepared effect: [commit_effect],
    [rollback_effect] and [settle_rejected_effect] of agent-core/port.rs, across the
    reserve/dispatch/ack barrier of the effect broker.

    As in [Dispatch], what the awaited components answer is an environment, and other
    tasks run before every access to Core. The effect itself is outside Core: what is
    modelled of it is the workspace writes it reports, and which of its two fates,
    rollback or dispatch, the commit chose. *)

From S2P Require Import Prelude Text Digest Jcs Operation Journal Wal Intent Registry Kernel KernelOps.
From S2P Require Import RegistryFacts RegistrySteps RegistryTheorems KernelStartup KernelTheorems Grants Dispatch.
From S2P Require Import DispatchTheorems.

Record ActualWorkspaceWrite : Type := {
  aw_path : text;
  aw_bytes : N;
}.

Record EffectCommitRequest : Type := {
  cr_run_id : N;
  cr_operation_id : N;
  cr_effect_id : N;
  cr_argument_digest : Digest;
  cr_generation : N;
  cr_lease : option AuthorityLease;
  cr_writes : option (list ActualWorkspaceWrite);  (* effect.actual_workspace_writes() *)
}.

Record EffectRollbackRequest : Type := {
  rr_run_id : N;
  rr_operation_id : N;
  rr_effect_id : option N;
  rr_argument_digest : Digest;
  rr_reason : text;
}.

Inductive EffectCommitRejection : Type :=
| ForeignRun
| StaleEpochRejection
| MissingLease
| InvalidLease
| InvalidOperation
| ActualExceedsApproved
| BrokerUnavailable
| BindingRevoked.

#[export] Instance EffectCommitRejection_eq_dec : EqDecision EffectCommitRejection.
Proof. solve_decision. Defined.

Inductive EffectAckSettlement : Type :=
| AckNotApplied
| AckApplied (durability : EffectDurability)
| AckUnknown.

Record EffectAckDebt : Type := {
  ad_operation_id : N;
  ad_effect_id : N;
  ad_reservation_id : text;
  ad_settlement : EffectAckSettlement;
  ad_error : text;
}.

Inductive EffectCommitDisposition : Type :=
| Receipt (receipt : EffectReceipt) (ack_debt : option EffectAckDebt)
| Rejected (rejection : EffectCommitRejection)
| AuthorityRecordFailed (receipt : EffectReceipt) (error : text).

(** The fate of the effect. *)
Inductive EffectAction : Type := RolledBack | Dispatched.

Definition bounded_effect_error (message : text) : text :=
  slice_to message (floor_boundary message (str_len message `min` MAX_OPERATION_DIAGNOSTIC_BYTES)).

(** What the broker persists of a receipt. *)
Definition settlement_of (receipt : EffectReceipt) : EffectAckSettlement :=
  match receipt with
  | ReceiptNotApplied _ => AckNotApplied
  | ReceiptApplied durability _ => AckApplied durability
  | ReceiptUnknown _ => AckUnknown
  end.

(** The first actual write outside the approved set; [None] also when the intent
    names no path, or the effect does not report. *)
Definition stray_write (intent : EffectIntent) (writes : option (list ActualWorkspaceWrite)) :
    option ActualWorkspaceWrite :=
  let approved := approved_workspace_paths intent in
  if bool_decide (approved = []) then None
  else
    writes ≫= List.find (fun write =>
      match canonical_workspace_relative_path (aw_path write) with
      | None => true
      | Some path => negb (bool_decide (path ∈ approved))
      end).

Section commit.
Context {J : Type} `{OJ : OperationJournal J} `{CD : Codec} `{JN : JsonNumber}.

Record CommitEnv : Type := {
  ke_interfere : nat -> list CoreOp;
  ke_now_ms : N;
  ke_binding_epoch : option (text -> option N);  (* the installed host policies *)
  ke_rollback : AgentResult unit;
  ke_reserve : AgentResult text;
  ke_dispatch : EffectReceipt;
  ke_ack : AgentResult unit;
}.

Implicit Types (c : Core J) (env : CommitEnv).

(** Other tasks run before access [k]. *)
Definition commit_sync env (k : nat) c : Core J := core_run (ke_interfere env k) c.

Definition operation_needs_rollback_terminal (operation_id effect_id : N)
    (argument_digest : Digest) c : bool :=
  match query operation_id (co_operations c) with
  | Found snapshot =>
      bool_decide (ti_argument_digest (os_identity snapshot) = argument_digest) &&
      match os_state snapshot with
      | Prepared recorded | Terminal (Some recorded) CancelledBeforeCommit =>
          (recorded =? effect_id)%N
      | _ => false
      end
  | _ => false
  end.

(** Accesses [k], [k + 1], [k + 2]. *)
Definition settle_rejected_effect env (k : nat) (operation_id effect_id : N) (argument_digest : Digest) c :
    result unit text * Core J :=
  let c := commit_sync env k c in
  let terminal_required :=
    operation_needs_rollback_terminal operation_id effect_id argument_digest c in
  match ke_rollback env with
  | Err error =>
      let message := bounded_effect_error
        (txt "prepared-effect rollback could not be confirmed: " ++ display_error error) in
      (Err message, require_operation_recovery message (commit_sync env (k + 1) c))
  | Ok _ =>
      if terminal_required
      then
        match abort_prepared_operation operation_id effect_id argument_digest
                (commit_sync env (k + 1) c) with
        | (Ok _, c) => (Ok tt, c)
        | (Err error, c) =>
            let message := bounded_effect_error
              (txt "rolled-back prepared operation could not be terminalized: "
                 ++ display_error error) in
            (Err message, require_operation_recovery message (commit_sync env (k + 2) c))
        end
      else (Ok tt, c)
  end.

(** A rejection settles the effect first; [failed] is the receipt's message when
    that cannot be confirmed. *)
Definition reject env (k : nat) (request : EffectCommitRequest)
    (rejection : EffectCommitRejection) (failed : text) c :
    (EffectCommitDisposition * EffectAction) * Core J :=
  match settle_rejected_effect env k (cr_operation_id request) (cr_effect_id request)
          (cr_argument_digest request) c with
  | (Err error, c) => ((AuthorityRecordFailed (ReceiptNotApplied failed) error, RolledBack), c)
  | (Ok _, c) => ((Rejected rejection, RolledBack), c)
  end.

Definition operation_tool_name (operation_id : N) c : option text :=
  match query operation_id (co_operations c) with
  | Found snapshot => Some (ti_tool_name (os_identity snapshot))
  | _ => None
  end.

Definition current_binding_epoch env (tool_name : text) : option N :=
  ke_binding_epoch env ≫= (fun epoch => epoch tool_name).

(** The revocation fence. *)
Definition binding_fenced env (operation_id : N) (lease : AuthorityLease) c : bool :=
  match al_binding_epoch lease with
  | None => false
  | Some leased_epoch =>
      match operation_tool_name operation_id c with
      | Some tool_name =>
          negb (bool_decide (current_binding_epoch env tool_name = Some leased_epoch))
      | None => true
      end
  end.

(** Accesses 1 and 2. *)
Definition commit_refusal env (request : EffectCommitRequest) c :
    option EffectCommitRejection * Core J :=
  if negb (cr_run_id request =? co_run_id c)%N then (Some ForeignRun, c)
  else
    match cr_lease request with
    | None => (Some MissingLease, c)
    | Some lease =>
        let c := commit_sync env 1 c in
        if bool_decide (al_decision lease <> Allow)
           || negb (issued_lease_matches (cr_operation_id request) lease (co_operations c))
           || negb (valid_at lease (ke_now_ms env) (cr_generation request)
                      (cr_operation_id request) (cr_argument_digest request))
        then (Some InvalidLease, c)
        else
          let c := commit_sync env 2 c in
          (if binding_fenced env (cr_operation_id request) lease c
           then Some BindingRevoked else None, c)
    end.

(** The broker barrier, once the commit slot is claimed. Accesses 8 to 11. *)
Definition dispatch_effect env (request : EffectCommitRequest) c :
    (EffectCommitDisposition * EffectAction) * Core J :=
  match ke_reserve env with
  | Err error =>
      reject env 8 request BrokerUnavailable
        (txt "effect commit was rejected because its broker reservation failed") c
  | Ok reservation_id =>
      let receipt := ke_dispatch env in
      let ack_debt :=
        match ke_ack env with
        | Ok _ => None
        | Err error =>
            Some {| ad_operation_id := cr_operation_id request;
                    ad_effect_id := cr_effect_id request;
                    ad_reservation_id := reservation_id;
                    ad_settlement := settlement_of receipt;
                    ad_error := bounded_effect_error (display_error error) |}
        end in
      match finish_operation_effect (cr_operation_id request) receipt (commit_sync env 11 c) with
      | (Err error, c) =>
          ((AuthorityRecordFailed receipt
              (txt "operation terminal record failed: " ++ display_error error), Dispatched), c)
      | (Ok _, c) => ((Receipt receipt ack_debt, Dispatched), c)
      end
  end.

Definition commit_effect env (request : EffectCommitRequest) c :
    (EffectCommitDisposition * EffectAction) * Core J :=
  match ensure_mutation_allowed (commit_sync env 0 c) with
  | (Err error, c) =>
      let rollback_error :=
        match ke_rollback env with
        | Ok _ => []
        | Err rollback => txt "; prepared-effect rollback failed: " ++ display_error rollback
        end in
      ((AuthorityRecordFailed
          (ReceiptNotApplied (txt "effect commit was blocked by the Core recovery fence"))
          (bounded_effect_error (display_error error ++ rollback_error)), RolledBack), c)
  | (Ok _, c) =>
      match commit_refusal env request c with
      | (Some rejection, c) =>
          reject env 3 request rejection
            (txt "effect commit was rejected before application") c
      | (None, c) =>
          match cr_lease request ≫= (fun lease => stray_write (al_intent lease) (cr_writes request)) with
          | Some stray =>
              reject env 3 request ActualExceedsApproved
                (txt "effect commit was rejected because its actual workspace write exceeded approved authority") c
          | None =>
              match begin_operation_commit_if_current (cr_generation request)
                      (cr_operation_id request) (cr_effect_id request)
                      (cr_argument_digest request) (commit_sync env 4 c) with
              | (Err error, c) =>
                  reject env 5 request
                    (match error with StaleEpoch _ _ => StaleEpochRejection | _ => InvalidOperation end)
                    (txt "effect commit was rejected before application") c
              | (Ok _, c) => dispatch_effect env request c
              end
          end
      end
  end.

(** [rollback_effect]: the rollback is always attempted. *)
Definition rollback_effect env (request : EffectRollbackRequest) c : AgentResult unit * Core J :=
  let identity_error :=
    if negb (rr_run_id request =? co_run_id c)%N
    then Err (InvalidRequest (txt "effect rollback run does not match Core run"))
    else Ok tt in
  let fence (message : text) c :=
    (Err (RecoveryRequired message), require_operation_recovery message c) in
  match ke_rollback env with
  | Err error =>
      fence (bounded_effect_error
        (txt "prepared-effect rollback could not be confirmed: " ++ display_error error))
        (commit_sync env 0 c)
  | Ok _ =>
      match rr_effect_id request with
      | None => (identity_error, c)
      | Some effect_id =>
          match abort_prepared_operation (rr_operation_id request) effect_id
                  (rr_argument_digest request) (commit_sync env 0 c) with
          | (Err error, c) =>
              fence (bounded_effect_error
                (txt "rollback cleanup succeeded, but its authority terminal could not be confirmed: "
                   ++ display_error error)) (commit_sync env 1 c)
          | (Ok _, c) => (identity_error, c)
          end
      end
  end.

End commit.

(** What the commit of a prepared effect promises: the authority it needs, that
    every effect meets exactly one fate, that receipts are recorded, and what the
    rejections leave behind. *)

Section theorems.
Context {J : Type} `{OJ : OperationJournal J} `{OL : !OperationJournalLaws J} `{CD : Codec}
  `{JN : JsonNumber}.
Implicit Types (c : Core J) (env : CommitEnv) (req : EffectCommitRequest).

(** ** Every step moves Core forward *)

Lemma later_commit_sync env k c c' : later c c' -> later c (commit_sync env k c').
Proof. apply later_run. Qed.

Lemma settle_later env k id e d c c1 x c2 :
  later c c1 -> settle_rejected_effect env k id e d c1 = (x, c2) -> later c c2.
Proof.
  intros H. unfold settle_rejected_effect.
  assert (H0 : later c (commit_sync env k c1)) by by apply later_commit_sync.
  destruct (ke_rollback env) as [u|er].
  - destruct (operation_needs_rollback_terminal _ _ _ _); [|by intros [= _ <-]].
    destruct (abort_prepared_operation _ _ _ _) as [[v|er] c3] eqn:Ea; intros [= _ <-].
    + eapply later_keeps; [apply keeps_abort|by apply later_commit_sync|exact Ea].
    + apply later_require, later_commit_sync.
      eapply later_keeps; [apply keeps_abort|by apply later_commit_sync|exact Ea].
  - intros [= _ <-]. by apply later_require, later_commit_sync.
Qed.

Lemma reject_later env k req rej m c c1 x c2 :
  later c c1 -> reject env k req rej m c1 = (x, c2) -> later c c2.
Proof.
  intros H. unfold reject. destruct (settle_rejected_effect _ _ _ _ _ _) as [[u|er] c3] eqn:Es;
    intros [= _ <-]; by eapply settle_later.
Qed.

Lemma reject_fate env k req rej m c d a c' :
  reject env k req rej m c = ((d, a), c') ->
  a = RolledBack /\ (d = Rejected rej \/ exists e, d = AuthorityRecordFailed (ReceiptNotApplied m) e).
Proof.
  unfold reject. destruct (settle_rejected_effect _ _ _ _ _ _) as [[u|er] c3]; intros [= <- <- _];
    (split; [done|]); [by left|right; by eexists].
Qed.

(** ** The lease check *)

(** The lease is one Core issued for this operation, still valid, and its binding is
    not revoked. *)
Record lease_checked env req c (l : AuthorityLease) c' : Prop := {
  lc_lease : cr_lease req = Some l;
  lc_run : cr_run_id req = co_run_id c;
  lc_allow : al_decision l = Allow;
  lc_valid : valid_at l (ke_now_ms env) (cr_generation req) (cr_operation_id req)
               (cr_argument_digest req) = true;
  lc_issued : exists ci, later c ci /\ later ci c' /\
    rg_leases (co_operations ci) !! cr_operation_id req = Some l;
  lc_binding : forall epoch, al_binding_epoch l = Some epoch -> exists s,
    rg_records (co_operations c') !! cr_operation_id req = Some s /\
    current_binding_epoch env (ti_tool_name (os_identity s)) = Some epoch;
}.

Lemma refusal_later env req c c1 x c2 :
  later c c1 -> commit_refusal env req c1 = (x, c2) -> later c c2.
Proof.
  intros H. unfold commit_refusal. destruct (negb _); [by intros [= _ <-]|].
  destruct (cr_lease req) as [l|]; [|by intros [= _ <-]].
  assert (H1 : later c (commit_sync env 1 c1)) by by apply later_commit_sync.
  destruct (_ || _); intros [= _ <-]; [done|by apply later_commit_sync].
Qed.

Lemma refusal_None env req c c' :
  core_inv c -> commit_refusal env req c = (None, c') -> exists l, lease_checked env req c l c'.
Proof.
  intros Hc. unfold commit_refusal. destruct (negb _) eqn:Er; [done|].
  apply negb_false_iff, N.eqb_eq in Er. destruct (cr_lease req) as [l|] eqn:El; [|done].
  set (c1 := commit_sync env 1 c). assert (H1 : later c c1) by by apply later_commit_sync, later_refl.
  destruct (_ || _) eqn:Ev; [done|].
  apply orb_false_iff in Ev as [[Hd Hi]%orb_false_iff Hv].
  apply bool_decide_eq_false in Hd. apply negb_false_iff in Hi, Hv.
  set (c2 := commit_sync env 2 c1). assert (H2 : later c1 c2) by (apply later_commit_sync, later_refl, H1).
  destruct (binding_fenced env _ l c2) eqn:Eb; [done|]. intros [= <-]. exists l.
  unfold issued_lease_matches in Hi.
  destruct (rg_leases (co_operations c1) !! cr_operation_id req) as [l'|] eqn:Ei; [|done].
  apply bool_decide_eq_true in Hi as ->. constructor; try done.
  - by apply dec_stable.
  - by exists c1.
  - intros epoch He. unfold binding_fenced, operation_tool_name, query in Eb. rewrite He in Eb.
    destruct (rg_records (co_operations c2) !! cr_operation_id req) as [s|];
      [|by destruct (may_contain _ _)].
    exists s. split; [done|]. by apply negb_false_iff, bool_decide_eq_true in Eb.
Qed.

(** ** The commit slot *)

Lemma mutation_allowed_cases c :
  (exists e, ensure_mutation_allowed c = (Err e, c)) \/
  (rg_recovery_required (co_operations c) = None /\ ensure_mutation_allowed c = (Ok tt, c)).
Proof.
  unfold ensure_mutation_allowed, operations.
  destruct (ensure_healthy_cases (co_operations c)) as [(y & _ & ->)|[Hh ->]]; rewrite same_core; eauto.
Qed.

Lemma begin_commit_done x id e d c u c' :
  begin_operation_commit_if_current x id e d c = (Ok u, c') ->
  co_epoch c' = x /\ rg_recovery_required (co_operations c') = None /\
  exists p, rg_records (co_operations c) !! id = Some p /\ os_state p = Prepared e /\
    ti_argument_digest (os_identity p) = d /\
    rg_records (co_operations c') !! id =
      Some {| os_identity := os_identity p; os_state := CommitStarted e |}.
Proof.
  unfold begin_operation_commit_if_current, begin_operation_commit, bind.
  destruct (mutation_allowed_cases c) as [[y ->]|[Hh Hok]]; [done|]. rewrite Hok.
  unfold require_current_epoch, bind, get.
  destruct (N.eqb_spec (co_epoch c) x) as [<-|]; [|done]. unfold ret. rewrite Hok. unfold query.
  destruct (rg_records (co_operations c) !! id) as [p|] eqn:Ep; [|by destruct (may_contain _ _)].
  destruct (bool_decide _) eqn:Ed; [|done]. apply bool_decide_eq_true in Ed. cbn [negb].
  unfold operations, begin_commit, transition.
  destruct (ensure_healthy_cases (co_operations c)) as [(y & _ & ->)|[_ ->]]; [done|]. rewrite Ep.
  destruct (os_state p) eqn:Es; try done. destruct (N.eqb_spec effect_id e) as [->|]; [|done].
  destruct (append_snapshot _ _) as [[v|er] r1] eqn:Ea; [|done]. intros [= _ <-].
  apply append_transition_cases in Ea as (_ & Hr & _ & _ & Hl & Hf & _).
  split; [done|]. split; [by cbn; rewrite Hf|].
  exists p. do 3 (split; [done|]). apply lookup_insert_eq.
Qed.

Lemma finish_effect_done id rc c u c' :
  core_inv c -> finish_operation_effect id rc c = (Ok u, c') ->
  exists p e, rg_records (co_operations c) !! id = Some p /\ os_state p = CommitStarted e /\
    rg_records (co_operations c') !! id =
      Some {| os_identity := os_identity p; os_state := Terminal (Some e) (receipt_terminal rc) |}.
Proof.
  intros [Hinv _]. unfold finish_operation_effect, bind.
  destruct (mutation_allowed_cases c) as [[y ->]|[Hh ->]]; [done|].
  unfold operations, finish_effect, bind, get, lift, map_err.
  rewrite receipt_terminal_validates. unfold finish_terminal.
  destruct (ensure_healthy_cases (co_operations c)) as [(y & _ & ->)|[_ ->]]; [done|].
  destruct (rg_records (co_operations c) !! id) as [p|] eqn:Ep; [|done].
  destruct (os_state p) as [| | |e|] eqn:Es; try done. cbn [negb].
  unfold query. rewrite Ep. destruct p as [i st]. cbn [os_state os_identity] in *. subst st.
  destruct (append_snapshot _ _) as [[v|er] r1] eqn:Ea; [|done]. intros [= _ <-].
  exists {| os_identity := i; os_state := CommitStarted e |}, e. split; [done|]. split; [done|].
  pose proof (records_id _ _ _ Hinv Ep) as Hid. cbn. change (os_id _) with (ti_operation_id i) in *.
  rewrite <- Hid. apply lookup_insert_eq.
Qed.

(** ** The whole commit *)

(** What a commit went through when it dispatched: the checks, the claimed slot in
    [c0], and the terminal record of the receipt. *)
Record dispatched env req c (l : AuthorityLease) c0 (p : OperationSnapshot)
    (d : EffectCommitDisposition) c' : Prop := {
  di_before : exists c1 c2, later c c1 /\ later c1 c2 /\ later c2 c0 /\
    lease_checked env req c1 l c2;
  di_epoch : co_epoch c0 = cr_generation req;
  di_healthy : rg_recovery_required (co_operations c0) = None;
  di_stray : stray_write (al_intent l) (cr_writes req) = None;
  di_prepared : exists cp, later c cp /\ rg_records (co_operations cp) !! cr_operation_id req = Some p /\
    os_state p = Prepared (cr_effect_id req);
  di_digest : ti_argument_digest (os_identity p) = cr_argument_digest req;
  di_record : rg_records (co_operations c0) !! cr_operation_id req =
    Some {| os_identity := os_identity p; os_state := CommitStarted (cr_effect_id req) |};
  di_after : later c0 c';
  di_end : (exists debt e p', d = Receipt (ke_dispatch env) debt /\
      rg_records (co_operations c') !! cr_operation_id req =
        Some {| os_identity := os_identity p';
                os_state := Terminal (Some e) (receipt_terminal (ke_dispatch env)) |} /\
      exists cf, later c0 cf /\ later cf c' /\
        rg_records (co_operations cf) !! cr_operation_id req = Some p' /\
        os_state p' = CommitStarted e) \/
    exists m, d = AuthorityRecordFailed (ke_dispatch env) m;
}.

Lemma commit_dispatched env req c d c' :
  core_inv c -> commit_effect env req c = ((d, Dispatched), c') ->
  exists l c0 p, dispatched env req c l c0 p d c'.
Proof.
  intros Hc. unfold commit_effect.
  assert (H0 : later c (commit_sync env 0 c)) by by apply later_commit_sync, later_refl.
  destruct (ensure_mutation_allowed _) as [[u|er] c1] eqn:Eh; [|done].
  assert (H1 : later c c1) by (eapply later_keeps; [apply keeps_mutation_allowed|exact H0|exact Eh]).
  destruct (commit_refusal env req c1) as [[rej|] c2] eqn:Er; [by intros [? _]%reject_fate|].
  destruct (refusal_None _ _ _ _ (proj1 H1) Er) as [l Hl].
  assert (H2 : later c1 c2) by (eapply refusal_later; [apply later_refl, H1|exact Er]).
  rewrite (lc_lease _ _ _ _ _ Hl). cbn [mbind option_bind].
  destruct (stray_write _ _) as [stray|] eqn:Es; [by intros [? _]%reject_fate|].
  assert (H3 : later c2 (commit_sync env 4 c2)) by (apply later_commit_sync, later_refl, H2).
  destruct (begin_operation_commit_if_current _ _ _ _ _) as [[v|er] c0] eqn:Eb;
    [|by intros [? _]%reject_fate].
  assert (H4 : later c2 c0) by (eapply later_keeps; [apply keeps_begin_commit_current|exact H3|exact Eb]).
  apply begin_commit_done in Eb as (He & Hh & p & Hp & Hst & Hd & Hrec).
  unfold dispatch_effect. destruct (ke_reserve env) as [rid|er]; [|by intros [? _]%reject_fate].
  assert (H5 : later c0 (commit_sync env 11 c0)) by (apply later_commit_sync, later_refl, H4).
  destruct (finish_operation_effect _ _ _) as [[w|er] c5] eqn:Ef; intros [= <- <-].
  - exists l, c0, p. assert (H6 : later (commit_sync env 11 c0) c5)
      by (eapply later_keeps; [apply keeps_finish_effect|apply later_refl, H5|exact Ef]).
    apply finish_effect_done in Ef as (p' & e & Hp' & Hst' & Hrec'); [|apply H5].
    split; try done; [by exists c1, c2| |by eapply later_trans|left].
    + exists (commit_sync env 4 c2). split; [|done]. eapply later_trans; [exact H1|].
      by eapply later_trans.
    + eexists _, e, p'. split; [reflexivity|]. split; [done|].
      by exists (commit_sync env 11 c0).
  - exists l, c0, p. split; try done; [by exists c1, c2| | |right; by eexists].
    + exists (commit_sync env 4 c2). split; [|done]. eapply later_trans; [exact H1|].
      by eapply later_trans.
    + eapply later_keeps; [apply keeps_finish_effect|exact H5|exact Ef].
Qed.

(** The claimed slot is durable before the broker sees the effect. *)
Lemma dispatched_started env req c l c0 p d c' :
  rg_journal (co_operations c) <> None -> dispatched env req c l c0 p d c' ->
  later c c0 /\
  durable_record c0 (cr_operation_id req)
    {| os_identity := os_identity p; os_state := CommitStarted (cr_effect_id req) |}.
Proof.
  intros Hj D. destruct (di_before _ _ _ _ _ _ _ _ D) as (c1 & c2 & H1 & H12 & H20 & _).
  assert (H0 : later c c0) by exact (later_trans _ _ _ (later_trans _ _ _ H1 H12) H20).
  split; [done|]. apply record_durable; [apply H0|by eapply journal_later|].
  exact (di_record _ _ _ _ _ _ _ _ D).
Qed.

(** A commit that did not dispatch says so. *)
Lemma undispatched env req c d c' :
  commit_effect env req c = ((d, RolledBack), c') ->
  match d with
  | Rejected _ => True
  | AuthorityRecordFailed receipt _ => exists m, receipt = ReceiptNotApplied m
  | Receipt _ _ => False
  end.
Proof.
  unfold commit_effect.
  assert (Hrej : forall k rej m c1, reject env k req rej m c1 = ((d, RolledBack), c') ->
    match d with
    | Rejected _ => True
    | AuthorityRecordFailed receipt _ => exists m, receipt = ReceiptNotApplied m
    | Receipt _ _ => False
    end).
  { intros k rej m c1 [_ [->|[e ->]]]%reject_fate; eauto. }
  destruct (ensure_mutation_allowed _) as [[u|er] c1]; [|intros [= <- _]; eauto].
  destruct (commit_refusal env req c1) as [[rej|] c2]; [apply Hrej|].
  destruct (_ ≫= _) as [stray|]; [apply Hrej|].
  destruct (begin_operation_commit_if_current _ _ _ _ _) as [[v|er] c3]; [|apply Hrej].
  unfold dispatch_effect. destruct (ke_reserve env) as [rid|er]; [|apply Hrej].
  by destruct (finish_operation_effect _ _ _) as [[w|er] c5].
Qed.

(** The debt of a receipt. *)
Lemma receipt_debt env req c receipt debt c' :
  commit_effect env req c = ((Receipt receipt debt, Dispatched), c') ->
  match debt with
  | None => is_Ok (ke_ack env) = true
  | Some debt => is_Ok (ke_ack env) = false /\ ad_settlement debt = settlement_of receipt /\
      ad_operation_id debt = cr_operation_id req /\ ad_effect_id debt = cr_effect_id req
  end.
Proof.
  unfold commit_effect, dispatch_effect, reject. repeat (case_match; try done); by intros [= <- <- _].
Qed.

(** A returned receipt is the recorded one. *)
Lemma receipt_recorded env req c l c0 p receipt debt c' :
  rg_journal (co_operations c) <> None -> dispatched env req c l c0 p (Receipt receipt debt) c' ->
  receipt = ke_dispatch env /\
  durable_record c' (cr_operation_id req)
    {| os_identity := os_identity p;
       os_state := Terminal (Some (cr_effect_id req)) (receipt_terminal receipt) |}.
Proof.
  intros Hj D. destruct (dispatched_started _ _ _ _ _ _ _ _ Hj D) as [H0 Hdur].
  destruct (di_end _ _ _ _ _ _ _ _ D) as [(debt' & e & p' & Hr & Hrec & cf & H0f & Hff & Hp' & Hst')|[m Hm]];
    [|done].
  injection Hr as -> _. split; [done|].
  destruct (durable_later _ _ _ _ H0f Hdur) as (s' & Hs' & Hid & _ & Heq).
  assert (Hjf : rg_journal (co_operations cf) <> None) by (destruct Hs' as (jf & ? & _); congruence).
  apply record_durable in Hp'; [|apply H0f|done].
  rewrite (durable_record_agree _ _ _ _ Hs' Hp'), Hst' in Heq.
  rewrite (Heq (le_n _)) in *. cbn in Hst'. injection Hst' as <-.
  apply record_durable in Hrec; [done|apply Hff|by eapply journal_later].
Qed.

(** C5. An effect is dispatched only with full authority: the request carries a lease
    that Core itself issued for this very operation, that allows it, is unexpired
    and of the request's generation and arguments, and whose tool binding was not
    revoked; every workspace write the effect reports is, by canonical path, one the
    leased intent names (when it names any); and before the broker sees the effect
    Core is healthy, its epoch is the request's generation, and the journal durably
    says that this operation, under this effect id and these arguments, has started
    its commit. *)
Theorem commit_authorized env req c d c' :
  core_inv c -> rg_journal (co_operations c) <> None ->
  commit_effect env req c = ((d, Dispatched), c') ->
  exists l c0 i,
    (cr_lease req = Some l /\ al_decision l = Allow /\ cr_run_id req = co_run_id c /\
     al_operation_id l = cr_operation_id req /\ al_operation_generation l = cr_generation req /\
     al_argument_digest l = cr_argument_digest req /\ (ke_now_ms env <= al_expires_at_ms l)%N /\
     exists ci, later c ci /\ later ci c0 /\
       rg_leases (co_operations ci) !! cr_operation_id req = Some l) /\
    (forall epoch, al_binding_epoch l = Some epoch ->
       current_binding_epoch env (ti_tool_name i) = Some epoch) /\
    (forall writes w, cr_writes req = Some writes -> approved_workspace_paths (al_intent l) <> [] ->
       w ∈ writes -> exists path, canonical_workspace_relative_path (aw_path w) = Some path /\
         path ∈ approved_workspace_paths (al_intent l)) /\
    (later c c0 /\ later c0 c' /\ rg_recovery_required (co_operations c0) = None /\
     co_epoch c0 = cr_generation req /\ ti_argument_digest i = cr_argument_digest req /\
     durable_record c0 (cr_operation_id req)
       {| os_identity := i; os_state := CommitStarted (cr_effect_id req) |}).
Proof.
  intros Hc Hj Hrun. destruct (commit_dispatched _ _ _ _ _ Hc Hrun) as (l & c0 & p & D).
  destruct (di_before _ _ _ _ _ _ _ _ D) as (c1 & c2 & H1 & H12 & H20 & L).
  assert (H2 : later c c2) by by eapply later_trans.
  destruct (dispatched_started _ _ _ _ _ _ _ _ Hj D) as [H0 Hdur].
  exists l, c0, (os_identity p). split; [|split; [|split]].
  - pose proof (lc_valid _ _ _ _ _ L) as Hv. unfold valid_at in Hv.
    rewrite !andb_true_iff, !N.eqb_eq, bool_decide_eq_true, N.leb_le in Hv.
    destruct Hv as [[[? ?] ?] ?]. pose proof (lc_run _ _ _ _ _ L) as Hr.
    rewrite (ce_run _ _ (proj2 H1)) in Hr.
    destruct (lc_issued _ _ _ _ _ L) as (ci & Hi1 & Hi2 & Hi3).
    pose proof (lc_lease _ _ _ _ _ L). pose proof (lc_allow _ _ _ _ _ L).
    do 7 (split; [done|]). exists ci. split; [exact (later_trans _ _ _ H1 Hi1)|].
    split; [exact (later_trans _ _ _ Hi2 H20)|done].
  - intros epoch He. destruct (lc_binding _ _ _ _ _ L epoch He) as (s & Hs & Hb).
    apply record_durable in Hs; [|apply H2|by eapply journal_later].
    destruct (durable_later _ _ _ _ H20 Hs) as (s' & Hs' & Hid & _).
    rewrite (durable_record_agree _ _ _ _ Hs' Hdur) in Hid. cbn in Hid. by rewrite Hid.
  - intros writes w Hw Hne Hin. pose proof (di_stray _ _ _ _ _ _ _ _ D) as Hs.
    unfold stray_write in Hs. rewrite bool_decide_eq_false_2, Hw in Hs by done. cbn in Hs.
    apply list_elem_of_In in Hin. apply (List.find_none _ _ Hs) in Hin.
    destruct (canonical_workspace_relative_path (aw_path w)) as [path|]; [|done].
    exists path. split; [done|]. by apply negb_false_iff, bool_decide_eq_true in Hin.
  - split; [done|]. split; [apply D|]. split; [apply D|]. split; [apply D|]. split; [apply D|done].
Qed.

(** C6. An effect is dispatched at most once: after a commit that dispatched, no commit
    request for the same operation, whatever it carries and whatever happened in
    between, dispatches again; its effect is rolled back. *)
Theorem commit_at_most_once env req c d c' ops env2 req2 :
  core_inv c -> rg_journal (co_operations c) <> None ->
  commit_effect env req c = ((d, Dispatched), c') ->
  cr_operation_id req2 = cr_operation_id req ->
  (commit_effect env2 req2 (core_run ops c')).1.2 = RolledBack.
Proof.
  intros Hc Hj Hrun Hid. destruct (commit_dispatched _ _ _ _ _ Hc Hrun) as (l & c0 & p & D).
  destruct (commit_effect env2 req2 _) as [[d2 [|]] c2] eqn:E2; [done|]. exfalso.
  destruct (dispatched_started _ _ _ _ _ _ _ _ Hj D) as [H0 Hdur].
  assert (H3 : later c0 (core_run ops c')) by (apply later_run, D).
  destruct (commit_dispatched _ _ _ _ _ (proj1 H3) E2) as (l2 & c02 & p2 & D2).
  destruct (di_prepared _ _ _ _ _ _ _ _ D2) as (cp & Hcp & Hp2 & Hst2). rewrite Hid in Hp2.
  assert (H4 : later c0 cp) by by eapply later_trans.
  destruct (durable_later _ _ _ _ H4 Hdur) as (s' & Hs' & _ & Hr & _).
  apply record_durable in Hp2; [|apply H4|destruct Hs' as (j & Hj' & _); congruence].
  rewrite (durable_record_agree _ _ _ _ Hs' Hp2), Hst2 in Hr. cbn in Hr. lia.
Qed.


(** ** Undispatched commits *)

(** No other task runs. *)
Definition commit_alone env : Prop := forall k, ke_interfere env k = [].

Lemma commit_sync_alone env k c : commit_alone env -> commit_sync env k c = c.
Proof. intros Ha. unfold commit_sync. by rewrite Ha. Qed.

Lemma fenced_require m c : rg_recovery_required (co_operations (require_operation_recovery m c)) <> None.
Proof.
  unfold require_operation_recovery, require_recovery.
  by destruct (rg_recovery_required (co_operations c)) eqn:E; cbn; rewrite ?E.
Qed.

Lemma fenced_later i c c' :
  later c c' -> rg_recovery_required (co_operations c) <> None -> closed i (co_operations c').
Proof. intros [_ He] Hf. left. by apply (ev_fence _ _ (ce_operations _ _ He)). Qed.

Lemma abort_closes i e d c res c' :
  core_inv c -> rg_records (co_operations c) !! ti_operation_id i =
    Some {| os_identity := i; os_state := Prepared e |} -> ti_argument_digest i = d ->
  abort_prepared_operation (ti_operation_id i) e d c = (res, c') -> closed i (co_operations c').
Proof.
  intros [Hinv _] Hr <-. unfold abort_prepared_operation, bind.
  destruct (ensure_healthy_cases (co_operations c)) as [(y & Hf & Heq)|[_ Heq]].
  - unfold ensure_mutation_allowed, operations at 1. rewrite Heq. intros [= _ <-]. left.
    by rewrite same_core, Hf.
  - unfold ensure_mutation_allowed, operations at 1. rewrite Heq, same_core.
    unfold operations, abort_prepared, bind, get, query. rewrite Hr.
    cbn [os_identity os_state]. rewrite bool_decide_eq_true_2, N.eqb_refl by done. cbn [negb].
    destruct (cancel i (co_operations c)) as [res' r'] eqn:Ec. intros [= _ <-].
    apply (cancel_closes _ _ _ _ (Prepared e) Hinv Hr) in Ec; [done|cbn; lia].
Qed.

(** A settled rejection of a prepared operation closes it. *)
Lemma reject_closes env k req rej m c i d a c' :
  commit_alone env -> core_inv c -> ti_operation_id i = cr_operation_id req ->
  ti_argument_digest i = cr_argument_digest req ->
  rg_records (co_operations c) !! ti_operation_id i =
    Some {| os_identity := i; os_state := Prepared (cr_effect_id req) |} ->
  reject env k req rej m c = ((d, a), c') -> closed i (co_operations c').
Proof.
  intros Ha Hc Hid Hd Hr. unfold reject, settle_rejected_effect. rewrite <- Hid, !commit_sync_alone by done.
  unfold operation_needs_rollback_terminal, query. rewrite Hr. cbn [os_identity os_state].
  rewrite bool_decide_eq_true_2, N.eqb_refl by done. cbn [andb].
  destruct (ke_rollback env) as [u|er].
  - destruct (abort_prepared_operation _ _ _ c) as [[v|er] c1] eqn:Eab; intros [= _ _ <-].
    + by eapply abort_closes.
    + rewrite commit_sync_alone by done. left. apply fenced_require.
  - intros [= _ _ <-]. left. apply fenced_require.
Qed.

(** A claim that fails leaves the record alone, or fences Core. *)
Lemma begin_commit_failed x id e d c er c' :
  begin_operation_commit_if_current x id e d c = (Err er, c') ->
  c' = c \/ rg_recovery_required (co_operations c') <> None.
Proof.
  unfold begin_operation_commit_if_current, begin_operation_commit, bind.
  destruct (mutation_allowed_cases c) as [[y ->]|[Hh Hok]]; [intros [= _ <-]; by left|]. rewrite Hok.
  unfold require_current_epoch, bind, get, fail.
  destruct (co_epoch c =? x)%N; [|intros [= _ <-]; by left]. unfold ret. rewrite Hok. unfold query.
  destruct (rg_records (co_operations c) !! id) as [p|] eqn:Ep;
    [|destruct (may_contain _ _); intros [= _ <-]; by left].
  destruct (negb _); [intros [= _ <-]; by left|].
  unfold operations, begin_commit, transition.
  destruct (ensure_healthy_cases (co_operations c)) as [(y & Hf & ->)|[_ ->]];
    [intros [= _ <-]; right; by rewrite same_core, Hf|]. rewrite Ep.
  destruct (match os_state p with Prepared _ => _ | _ => _ end) as [st|m];
    [|intros [= _ <-]; left; apply same_core].
  destruct (append_snapshot _ _) as [[v|er'] r1] eqn:Ea; intros [= _ <-].
  apply append_transition_cases in Ea as (j & j' & m & _ & _ & _ & ->). by right.
Qed.

Lemma refusal_same env req c x c' :
  commit_alone env -> commit_refusal env req c = (x, c') -> c' = c.
Proof.
  intros Ha. unfold commit_refusal. rewrite !commit_sync_alone by done.
  repeat (case_match; try by intros [= _ <-]); by intros [= _ <-].
Qed.

Lemma mutation_allowed_same c res c' :
  ensure_mutation_allowed c = (res, c') -> c' = c /\ (is_Ok res = false -> rg_recovery_required (co_operations c) <> None).
Proof.
  unfold ensure_mutation_allowed, operations.
  destruct (ensure_healthy_cases (co_operations c)) as [(y & Hf & ->)|[_ ->]];
    rewrite same_core; intros [= <- <-]; (split; [done|]); [by rewrite Hf|done].
Qed.

(** Once the slot is claimed, a failed reservation has nothing left to abort. *)
Lemma reject_started env k req rej m c i d a c' :
  commit_alone env -> rg_records (co_operations c) !! cr_operation_id req =
    Some {| os_identity := i; os_state := CommitStarted (cr_effect_id req) |} ->
  reject env k req rej m c = ((d, a), c') ->
  (d = Rejected rej /\ c' = c) \/
  (exists e, d = AuthorityRecordFailed (ReceiptNotApplied m) e) /\
    rg_recovery_required (co_operations c') <> None.
Proof.
  intros Ha Hr. unfold reject, settle_rejected_effect. rewrite !commit_sync_alone by done.
  unfold operation_needs_rollback_terminal, query. rewrite Hr. cbn [os_identity os_state].
  rewrite andb_false_r. destruct (ke_rollback env) as [u|er]; intros [= <- _ <-]; [by left|right].
  split; [by eexists|apply fenced_require].
Qed.

Lemma refusal_not_broker env req c rej c' :
  commit_refusal env req c = (Some rej, c') -> rej <> BrokerUnavailable.
Proof. unfold commit_refusal. repeat (case_match; try by intros [= <- _]); done. Qed.

(** A confirmed abort is a terminal. *)
Lemma abort_done id e d c u c' :
  core_inv c -> abort_prepared_operation id e d c = (Ok u, c') -> exists s,
    rg_records (co_operations c') !! id = Some s /\ ti_argument_digest (os_identity s) = d /\
    os_state s = Terminal (Some e) CancelledBeforeCommit.
Proof.
  intros [Hinv _]. unfold abort_prepared_operation, bind.
  destruct (mutation_allowed_cases c) as [[y ->]|[Hh ->]]; [done|].
  unfold operations, abort_prepared, bind, get, query, fail, ret.
  destruct (rg_records (co_operations c) !! id) as [p|] eqn:Ep; [|by destruct (may_contain _ _)].
  destruct (bool_decide _) eqn:Ed; cbn [negb]; [|done]. apply bool_decide_eq_true in Ed.
  destruct (os_state p) as [|?|x|?|[x|] []] eqn:Es; try done;
    (destruct (N.eqb_spec x e) as [->|]; [|done]).
  - intros Hcan. destruct (cancel _ _) as [[v|er] r1] eqn:Ec; [|done]. injection Hcan as _ <-.
    pose proof (records_id _ _ _ Hinv Ep) as <-. change (os_id p) with (ti_operation_id (os_identity p)) in *.
    revert Ec. unfold cancel.
    destruct (map_err _ _); [|done].
    destruct (ensure_healthy_cases (co_operations c)) as [(y & _ & ->)|[_ ->]]; [done|].
    rewrite Ep, Es.
    rewrite bool_decide_eq_true_2 by done. cbn [negb].
    destruct (append_snapshot _ _) as [[w|er] r2]; intros [= _ <-].
    exists (cancelled_snapshot (os_identity p) (Some e)). split; [|done]. apply lookup_insert_eq.
  - rewrite same_core. intros [= _ <-]. by exists p.
Qed.

(** What an undispatched commit leaves behind. Run alone over a prepared operation,
    a commit that rolled its effect back leaves the operation terminal, or Core
    fenced, with one exception: when the broker refuses the reservation and the
    rollback is confirmed, the disposition is a plain rejection although the record
    stays [CommitStarted], which no rollback closes, and Core stays healthy. *)
Theorem undispatched_commit_closes env req c i d c' :
  commit_alone env -> core_inv c -> ti_operation_id i = cr_operation_id req ->
  ti_argument_digest i = cr_argument_digest req ->
  rg_records (co_operations c) !! ti_operation_id i =
    Some {| os_identity := i; os_state := Prepared (cr_effect_id req) |} ->
  commit_effect env req c = ((d, RolledBack), c') ->
  (d <> Rejected BrokerUnavailable /\ closed i (co_operations c')) \/
  (d = Rejected BrokerUnavailable /\ is_Ok (ke_reserve env) = false /\
   rg_recovery_required (co_operations c') = None /\
   rg_records (co_operations c') !! ti_operation_id i =
     Some {| os_identity := i; os_state := CommitStarted (cr_effect_id req) |}).
Proof.
  intros Ha Hc Hid Hd Hr. unfold commit_effect. rewrite !commit_sync_alone by done.
  assert (Hrej : forall k rej m, rej <> BrokerUnavailable ->
      reject env k req rej m c = ((d, RolledBack), c') ->
      d <> Rejected BrokerUnavailable /\ closed i (co_operations c')).
  { intros k rej m Hne E. split; [|by eapply reject_closes].
    apply reject_fate in E as [_ [-> |[e ->]]]; congruence. }
  assert (Hfen : forall k rej m c1, rg_recovery_required (co_operations c1) <> None -> core_inv c1 ->
      rej <> BrokerUnavailable -> reject env k req rej m c1 = ((d, RolledBack), c') ->
      d <> Rejected BrokerUnavailable /\ closed i (co_operations c')).
  { intros k rej m c1 Hf Hc1 Hne E. split; [|eapply fenced_later, Hf; by eapply reject_later, E; apply later_refl].
    apply reject_fate in E as [_ [-> |[e ->]]]; congruence. }
  destruct (ensure_mutation_allowed c) as [[u|er] c1] eqn:Eh;
    apply mutation_allowed_same in Eh as [-> Hf];
    [|intros [= <- <-]; left; split; [done|left; by apply Hf]].
  destruct (commit_refusal env req c) as [x c2] eqn:Er. pose proof (refusal_same _ _ _ _ _ Ha Er) as ->.
  destruct x as [rej|].
  { intros E. left. eapply Hrej, E. by eapply refusal_not_broker. }
  destruct (_ ≫= _) as [stray|]; [intros E; left; by eapply Hrej, E|].
  rewrite commit_sync_alone by done.
  destruct (begin_operation_commit_if_current _ _ _ _ _) as [[v|er] c3] eqn:Eb.
  - apply begin_commit_done in Eb as (_ & Hh & p & Hp & _ & _ & Hrec).
    rewrite <- Hid, Hr in Hp. injection Hp as <-. unfold dispatch_effect.
    destruct (ke_reserve env) as [rid|er] eqn:Eres;
      [by destruct (finish_operation_effect _ _ _) as [[w|er] c5]|].
    intros E. destruct (reject_started _ _ _ _ _ _ i _ _ _ Ha Hrec E) as [[-> ->]|[[e ->] Hf']].
    + right. rewrite Hid. done.
    + left. split; [done|by left].
  - intros E. left. assert (Hc3 : core_inv c3)
      by (eapply later_keeps in Eb as [? _]; [done|apply keeps_begin_commit_current|by apply later_refl]).
    destruct (begin_commit_failed _ _ _ _ _ _ _ Eb) as [-> |Hf'].
    + eapply Hrej, E. by destruct er.
    + eapply Hfen, E; [done|done|by destruct er].
Qed.

(** ** Rollback *)

(** A rollback that reports success left nothing open: the prepared effect it
    names is durably cancelled before its commit. A rollback that could not be
    confirmed, or whose terminal could not be recorded, fences Core; a foreign run is
    refused only after the effect itself was rolled back. *)
Theorem rollback_settles env (req : EffectRollbackRequest) c res c' :
  core_inv c -> rg_journal (co_operations c) <> None -> rollback_effect env req c = (res, c') ->
  match res with
  | Ok _ => rr_run_id req = co_run_id c /\ is_Ok (ke_rollback env) = true /\
      forall e, rr_effect_id req = Some e -> exists i,
        ti_argument_digest i = rr_argument_digest req /\
        durable_record c' (rr_operation_id req)
          {| os_identity := i; os_state := Terminal (Some e) CancelledBeforeCommit |}
  | Err (RecoveryRequired _) => rg_recovery_required (co_operations c') <> None
  | Err _ => rr_run_id req <> co_run_id c /\ is_Ok (ke_rollback env) = true
  end.
Proof.
  intros Hc Hj. unfold rollback_effect. assert (H0 : later c (commit_sync env 0 c))
    by (apply later_commit_sync, later_refl, Hc).
  destruct (ke_rollback env) as [u|er]; [|intros [= <- <-]; apply fenced_require].
  destruct (rr_effect_id req) as [e|].
  - destruct (abort_prepared_operation _ _ _ _) as [[v|er] c1] eqn:Ea; intros [= <- <-];
      [|apply fenced_require].
    assert (H1 : later c c1) by (eapply later_keeps; [apply keeps_abort|exact H0|exact Ea]).
    destruct (N.eqb_spec (rr_run_id req) (co_run_id c)); [|done]. cbn [negb].
    split; [done|]. split; [done|]. intros e' [= <-]. apply abort_done in Ea as (s & Hs & Hd & Hst); [|apply H0].
    exists (os_identity s). split; [done|]. destruct s as [i st]. cbn in *. subst st.
    apply record_durable; [apply H1|by eapply journal_later|exact Hs].
  - intros [= <- <-]. by destruct (N.eqb_spec (rr_run_id req) (co_run_id c)).
Qed.

(** ** Grants and commits *)

(** An intent that an accepted write grant matches names at least one path, so its
    check at the commit is never skipped. *)
Lemma granted_names now grant g u g1 intent :
  establish now grant g = (Ok u, g1) -> sg_risk grant = RiskWorkspaceWrite ->
  grant_matches grant intent = true ->
  approved_workspace_paths intent <> [] /\
  exists prefix pre, gt_workspace_path_prefix (sg_target grant) = Some prefix /\
    relative_components prefix = Some pre /\ pre <> [].
Proof.
  intros He Hr Hm. unfold establish, grant_target_check in He. rewrite Hr in He.
  case_bool_decide; [done|]. destruct (gt_workspace_path_prefix _) as [prefix|] eqn:Hp; [|done].
  destruct (relative_components prefix) as [[|part parts]|] eqn:Hc; try done.
  split; [|by exists prefix, (part :: parts)].
  assert (Hname : forall path, path_within_prefix path prefix = true ->
      is_Some (canonical_workspace_relative_path path)).
  { intros path (q & pre & H1 & H2 & H3)%within_prefix_iff. rewrite Hc in H2. injection H2 as <-.
    eexists. apply canonical_iff. exists q. split; [|done].
    intros ->. by apply prefix_nil_inv in H3. }
  unfold grant_matches in Hm. rewrite Hr, Hp, andb_true_iff in Hm. destruct Hm as [Hk Hm].
  destruct intent as [|path n|writes|program argv|d digest]; [done| | |done|done].
  - apply andb_true_iff in Hm as [[q Hq]%Hname _]. cbn. by rewrite Hq.
  - rewrite !andb_true_iff in Hm. destruct Hm as [[[Hne Hall] _] _].
    destruct writes as [|w writes]; [done|]. cbn in Hall. apply andb_true_iff in Hall as [[q Hq]%Hname _].
    cbn. by rewrite Hq.
Qed.

(** C8. From the grant to the disk: when the lease of a commit was issued for an intent
    that an accepted workspace-write grant covers, a dispatched effect writes, of the
    files it reports, only files under the granted prefix, a proper directory or file
    below the workspace root; and the lease is the one Core issued for the operation,
    so the caller cannot substitute a wider intent. *)
Theorem granted_commit_contained env req c d c' now grant g u g1 l :
  core_inv c -> commit_effect env req c = ((d, Dispatched), c') ->
  establish now grant g = (Ok u, g1) -> sg_risk grant = RiskWorkspaceWrite ->
  cr_lease req = Some l -> grant_matches grant (al_intent l) = true ->
  (exists ci, later c ci /\ rg_leases (co_operations ci) !! cr_operation_id req = Some l) /\
  exists prefix pre, gt_workspace_path_prefix (sg_target grant) = Some prefix /\
    relative_components prefix = Some pre /\ pre <> [] /\
    forall writes w, cr_writes req = Some writes -> w ∈ writes ->
      exists parts, relative_components (aw_path w) = Some parts /\ pre `prefix_of` parts.
Proof.
  intros Hc Hrun He Hr Hl Hm. destruct (commit_dispatched _ _ _ _ _ Hc Hrun) as (l' & c0 & p & D).
  destruct (di_before _ _ _ _ _ _ _ _ D) as (c1 & c2 & H1 & _ & _ & L).
  pose proof (lc_lease _ _ _ _ _ L) as Hl'. rewrite Hl in Hl'. injection Hl' as <-.
  destruct (lc_issued _ _ _ _ _ L) as (ci & Hi1 & _ & Hi3).
  split; [exists ci; split; [exact (later_trans _ _ _ H1 Hi1)|done]|].
  destruct (granted_names _ _ _ _ _ _ He Hr Hm) as (Hne & prefix & pre & Hp & Hpre & Hpne).
  exists prefix, pre. do 3 (split; [done|]). intros writes w Hw Hin.
  pose proof (di_stray _ _ _ _ _ _ _ _ D) as Hs. unfold stray_write in Hs.
  rewrite bool_decide_eq_false_2, Hw in Hs by done. cbn in Hs.
  apply list_elem_of_In in Hin. apply (List.find_none _ _ Hs) in Hin.
  destruct (canonical_workspace_relative_path (aw_path w)) as [path|] eqn:Epath; [|done].
  apply negb_false_iff, bool_decide_eq_true in Hin.
  destruct (matches_inside _ _ Hm) as (_ & Hins & _).
  destruct (Hins _ Hin) as (prefix' & pre' & parts & Hp' & Hpre' & Hparts & Hpref).
  rewrite Hp in Hp'. injection Hp' as <-. rewrite Hpre in Hpre'. injection Hpre' as <-.
  exists parts. by rewrite <- (canonical_components _ _ Epath).
Qed.

End theorems.
