(* ===== verification/Composite.v ===== *)
(** Sequential composites of prepared effects: the [Effect] instance of a vector of
    effects, its bounded evidence and its bounded diagnostics (agent-contracts/tool.rs),
    and what its answers say of its children.

    A child effect is what its commit and its rollback answer. A commit or a rollback
    of the composite returns, next to its result, which child met which fate, in the
    order it happened. *)

From S2P Require Import Prelude Text Digest Jcs Operation Journal Wal Intent Registry Kernel Commit.

Record StagedEffect : Type := {
  sf_name : N;
  sf_commit : EffectReceipt;
  sf_rollback : AgentResult unit;
  sf_writes : option (list ActualWorkspaceWrite);
}.

Definition Fates : Type := list (EffectAction * N).

(** One child that does not report makes the composite silent. *)
Fixpoint actual_workspace_writes (effects : list StagedEffect) : option (list ActualWorkspaceWrite) :=
  match effects with
  | [] => Some []
  | effect :: effects' =>
      match sf_writes effect with
      | None => None
      | Some own => app own <$> actual_workspace_writes effects'
      end
  end.

(** ** Evidence *)

Definition MAX_COMPOSITE_EVIDENCE_CHARS : nat := N.to_nat 2000.
Definition COMPOSITE_EVIDENCE_TRUNCATED : text := txt "...[evidence truncated]".

Record CompositeEvidence : Type := {
  cv_value : text;
  cv_chars : nat;
  cv_truncated : bool;
}.

Definition evidence_default : CompositeEvidence :=
  {| cv_value := []; cv_chars := 0; cv_truncated := false |}.

(** [String::pop], so many times. *)
Fixpoint pop_times (n : nat) (value : text) : text :=
  match n with
  | O => value
  | S n' => pop_times n' (removelast value)
  end.

(** The loop pops while [chars > retained_chars]. *)
Definition mark_truncated (e : CompositeEvidence) : CompositeEvidence :=
  if cv_truncated e then e
  else
    let marker_chars := length COMPOSITE_EVIDENCE_TRUNCATED in
    let retained_chars := MAX_COMPOSITE_EVIDENCE_CHARS - marker_chars in
    {| cv_value := pop_times (cv_chars e - retained_chars) (cv_value e) ++ COMPOSITE_EVIDENCE_TRUNCATED;
       cv_chars := cv_chars e `min` retained_chars + marker_chars;
       cv_truncated := true |}.

Definition push_char (ch : N) (e : CompositeEvidence) : CompositeEvidence :=
  {| cv_value := cv_value e ++ [ch]; cv_chars := cv_chars e + 1; cv_truncated := cv_truncated e |}.

(** The loop over [value.chars()]. *)
Fixpoint push_chars (value : text) (e : CompositeEvidence) : CompositeEvidence :=
  match value with
  | [] => e
  | ch :: value' =>
      if cv_chars e =? MAX_COMPOSITE_EVIDENCE_CHARS then mark_truncated e
      else push_chars value' (push_char ch e)
  end.

Definition evidence_push (value : text) (e : CompositeEvidence) : CompositeEvidence :=
  if bool_decide (value = []) || cv_truncated e then e
  else if negb (bool_decide (cv_value e = []))
  then
    if cv_chars e =? MAX_COMPOSITE_EVIDENCE_CHARS then mark_truncated e
    else push_chars value (push_char 44 e)
  else push_chars value e.

Definition push_optional (value : option text) (e : CompositeEvidence) : CompositeEvidence :=
  match value with Some value => evidence_push value e | None => e end.

(** ** Diagnostics *)

Definition bounded_rollback_message (message : text) : text :=
  slice_to message (floor_boundary message (str_len message `min` MAX_OPERATION_DIAGNOSTIC_BYTES)).

Definition append_bounded_rollback_error (target error : text) : text :=
  if MAX_OPERATION_DIAGNOSTIC_BYTES <=? str_len target then target
  else
    let fill target :=
      let remaining := MAX_OPERATION_DIAGNOSTIC_BYTES - str_len target in
      target ++ slice_to error (floor_boundary error (str_len error `min` remaining)) in
    if bool_decide (target = []) then fill target
    else
      let separator := txt "; " in
      if MAX_OPERATION_DIAGNOSTIC_BYTES <? str_len target + str_len separator then target
      else fill (target ++ separator).

Definition merge_rollback_failure (error : text) (rollback : option AgentError) : text :=
  match rollback with
  | Some rollback =>
      bounded_rollback_message
        (error ++ txt "; remaining prepared-effect cleanup failed: " ++ display_error rollback)
  | None => bounded_rollback_message error
  end.

(** ** Rollback *)

Fixpoint rollback_loop (effects : list StagedEffect) (failed : nat) (errors : text) : nat * text :=
  match effects with
  | [] => (failed, errors)
  | effect :: effects' =>
      match sf_rollback effect with
      | Ok _ => rollback_loop effects' failed errors
      | Err error =>
          rollback_loop effects' (failed + 1) (append_bounded_rollback_error errors (display_error error))
      end
  end.

(** [rollback_all], which [rollback_remaining] calls on what is left of the iterator. *)
Definition rollback_all (effects : list StagedEffect) : AgentResult unit * Fates :=
  let '(failed, errors) := rollback_loop effects 0 [] in
  ((if failed =? 0 then Ok tt
    else Err (RecoveryRequired (bounded_rollback_message
           (txt " prepared effect rollback(s) could not be confirmed: " ++ errors)))),
   (fun effect => (RolledBack, sf_name effect)) <$> effects).

Definition composite_rollback (effects : list StagedEffect) : AgentResult unit * Fates :=
  rollback_all (reverse effects).

(** ** Commit *)

Definition err_of {A} (r : AgentResult A) : option AgentError :=
  match r with Ok _ => None | Err e => Some e end.

Definition cleanup_detail (rollback : AgentResult unit) : text :=
  match rollback with
  | Ok _ => []
  | Err e => txt "; remaining cleanup failed: " ++ display_error e
  end.

(** The receipt when a child was not applied, with what is left rolled back. *)
Definition stopped_not_applied (error : text) (applied_count : nat) (evidence : CompositeEvidence)
    (rollback : AgentResult unit) : EffectReceipt :=
  if applied_count =? 0
  then
    match rollback with
    | Err rollback_error =>
        ReceiptUnknown (bounded_rollback_message
          (txt "composite effect was not applied, but remaining prepared-effect cleanup could not be confirmed: "
             ++ display_error rollback_error ++ txt "; original refusal: " ++ error))
    | Ok _ => ReceiptNotApplied (bounded_rollback_message error)
    end
  else
    ReceiptApplied (DurabilityFailed (bounded_rollback_message
      (txt "composite partially applied: earlier sub-effect(s) landed before a later sub-effect was not applied ("
         ++ error ++ txt ")" ++ cleanup_detail rollback))) (Some (cv_value evidence)).

(** The receipt when a child is unknown. *)
Definition stopped_unknown (error : text) (applied_count : nat) (evidence : CompositeEvidence)
    (rollback : AgentResult unit) : EffectReceipt :=
  if applied_count =? 0
  then ReceiptUnknown (bounded_rollback_message (error ++ cleanup_detail rollback))
  else
    ReceiptApplied (DurabilityFailed (bounded_rollback_message
      (txt "composite partially applied: earlier sub-effect(s) definitely landed and a later sub-effect has unknown state ("
         ++ error ++ txt ")" ++ cleanup_detail rollback))) (Some (cv_value evidence)).

Fixpoint commit_loop (effects : list StagedEffect) (evidence : CompositeEvidence) (applied_count : nat) :
    EffectReceipt * Fates :=
  match effects with
  | [] => (ReceiptApplied Durable (Some (cv_value evidence)), [])
  | effect :: rest =>
      let stop (receipt : AgentResult unit -> EffectReceipt) :=
        let '(rollback, fates) := rollback_all rest in
        (receipt rollback, (Dispatched, sf_name effect) :: fates) in
      match sf_commit effect with
      | ReceiptApplied Durable own =>
          let '(receipt, fates) := commit_loop rest (push_optional own evidence) (applied_count + 1) in
          (receipt, (Dispatched, sf_name effect) :: fates)
      | ReceiptApplied (DurabilityFailed error) own =>
          stop (fun rollback => ReceiptApplied
            (DurabilityFailed (merge_rollback_failure error (err_of rollback)))
            (Some (cv_value (push_optional own evidence))))
      | ReceiptNotApplied error => stop (stopped_not_applied error applied_count evidence)
      | ReceiptUnknown error => stop (stopped_unknown error applied_count evidence)
      end
  end.

Definition composite_commit (effects : list StagedEffect) : EffectReceipt * Fates :=
  commit_loop effects evidence_default 0.

(** ** What it promises *)

(** The evidence in full, separated by commas. *)
Fixpoint join_comma (values : list text) : text :=
  match values with
  | [] => []
  | [value] => value
  | value :: values' => value ++ 44%N :: join_comma values'
  end.

Definition joined (values : list text) : text := join_comma (filter (fun value => value <> []) values).

(** Cut to the bound, with the marker at the end. *)
Definition clipped (value : text) : text :=
  if length value <=? MAX_COMPOSITE_EVIDENCE_CHARS then value
  else take (MAX_COMPOSITE_EVIDENCE_CHARS - length COMPOSITE_EVIDENCE_TRUNCATED) value
         ++ COMPOSITE_EVIDENCE_TRUNCATED.

Definition evidence_of (effect : StagedEffect) : option text :=
  match sf_commit effect with ReceiptApplied _ own => own | _ => None end.

Definition landed (effect : StagedEffect) : bool :=
  match sf_commit effect with ReceiptApplied Durable _ => true | _ => false end.

(** Composite effects: every child meets exactly one fate, the receipt is the truth
    about them, and evidence and diagnostics are bounded without losing what fits. *)

(** ** Evidence *)

Lemma pop_times_take n v : pop_times n v = take (length v - n) v.
Proof.
  revert v. induction n as [|n IH]; intros v; cbn [pop_times].
  - by rewrite Nat.sub_0_r, firstn_all.
  - rewrite IH. destruct v as [|c v'] using rev_ind; [done|]. rewrite removelast_last, length_app. cbn [length].
    replace (length v' + 1 - S n) with (length v' - n) by lia. rewrite take_app_le by lia. done.
Qed.

Lemma join_comma_snoc vs v : vs <> [] -> join_comma (vs ++ [v]) = join_comma vs ++ 44%N :: v.
Proof.
  induction vs as [|w vs IH]; [done|]. intros _. destruct vs as [|u vs]; [done|].
  cbn [app join_comma] in *. rewrite IH by done. by rewrite <- app_assoc.
Qed.

Lemma join_comma_nil vs : Forall (fun v => v <> []) vs -> join_comma vs = [] -> vs = [].
Proof. intros [|v l Hv _]; [done|]. destruct v; [done|]. by destruct l. Qed.

Lemma joined_snoc vs v :
  joined (vs ++ [v]) = match v with
                       | [] => joined vs
                       | _ => match joined vs with [] => v | full => full ++ 44%N :: v end
                       end.
Proof.
  unfold joined. rewrite filter_app. destruct v as [|ch v].
  - rewrite filter_cons_False by auto. by rewrite app_nil_r.
  - rewrite filter_cons_True by done. change (filter (fun w : text => w <> []) []) with (@nil text).
    set (l := filter _ vs). assert (Hl : Forall (fun w : text => w <> []) l) by (apply Forall_forall; intros w [Hw _]%list_elem_of_filter; done).
    destruct (decide (l = [])) as [Hn|Hne]; [by rewrite Hn|]. rewrite join_comma_snoc by done.
    destruct (join_comma l) eqn:E; [|done]. by apply join_comma_nil in E.
Qed.

(** The accumulator after some values. *)
Definition evidence_rep (full : text) (e : CompositeEvidence) : Prop :=
  cv_value e = clipped full /\
  cv_truncated e = negb (length full <=? MAX_COMPOSITE_EVIDENCE_CHARS) /\
  (cv_truncated e = false -> cv_chars e = length full).

Lemma clipped_short full : length full <= MAX_COMPOSITE_EVIDENCE_CHARS -> clipped full = full.
Proof. intros H. unfold clipped. by rewrite (proj2 (Nat.leb_le _ _)). Qed.

Lemma marker_fits : length COMPOSITE_EVIDENCE_TRUNCATED < MAX_COMPOSITE_EVIDENCE_CHARS.
Proof. apply Nat.ltb_lt. vm_compute. reflexivity. Qed.

Lemma clipped_long full more :
  length full <= MAX_COMPOSITE_EVIDENCE_CHARS -> MAX_COMPOSITE_EVIDENCE_CHARS < length (full ++ more) ->
  length full = MAX_COMPOSITE_EVIDENCE_CHARS ->
  clipped (full ++ more) =
    pop_times (length full - (MAX_COMPOSITE_EVIDENCE_CHARS - length COMPOSITE_EVIDENCE_TRUNCATED)) full
      ++ COMPOSITE_EVIDENCE_TRUNCATED.
Proof.
  intros H1 H2 H3. unfold clipped. rewrite (proj2 (Nat.leb_gt _ _)) by done. f_equal.
  rewrite pop_times_take, take_app_le by lia. f_equal. pose proof marker_fits. lia.
Qed.

Lemma rep_mark full more e :
  evidence_rep full e -> cv_truncated e = false -> cv_chars e = MAX_COMPOSITE_EVIDENCE_CHARS -> more <> [] ->
  evidence_rep (full ++ more) (mark_truncated e).
Proof.
  intros (Hv & Ht & Hc) Hf Hfull Hmore. rewrite Hf in Ht. symmetry in Ht.
  apply negb_false_iff, Nat.leb_le in Ht. specialize (Hc Hf). rewrite clipped_short in Hv by done.
  assert (Hlen : MAX_COMPOSITE_EVIDENCE_CHARS < length (full ++ more))
    by (rewrite length_app; destruct more; [done|cbn [length]; lia]).
  unfold mark_truncated. rewrite Hf. split; [|split]; cbn [cv_value cv_truncated cv_chars]; [|by rewrite (proj2 (Nat.leb_gt _ _))|done].
  rewrite Hv, Hc. symmetry. apply clipped_long; [done|done|lia].
Qed.

Lemma rep_char full ch e :
  evidence_rep full e -> cv_truncated e = false -> cv_chars e <> MAX_COMPOSITE_EVIDENCE_CHARS ->
  evidence_rep (full ++ [ch]) (push_char ch e) /\ cv_truncated (push_char ch e) = false.
Proof.
  intros (Hv & Ht & Hc) Hf Hfull. split; [|done]. rewrite Hf in Ht. symmetry in Ht.
  apply negb_false_iff, Nat.leb_le in Ht. specialize (Hc Hf). rewrite clipped_short in Hv by done.
  assert (Hlen : length (full ++ [ch]) <= MAX_COMPOSITE_EVIDENCE_CHARS) by (rewrite length_app; cbn [length]; lia).
  split; [|split]; cbn [push_char cv_value cv_truncated cv_chars].
  - by rewrite Hv, clipped_short.
  - by rewrite Hf, (proj2 (Nat.leb_le _ _)).
  - intros _. rewrite length_app. cbn [length]. lia.
Qed.

Lemma rep_chars full v e :
  evidence_rep full e -> cv_truncated e = false -> evidence_rep (full ++ v) (push_chars v e).
Proof.
  revert full e. induction v as [|ch v IH]; intros full e Hr Hf; cbn [push_chars]; [by rewrite app_nil_r|].
  destruct (Nat.eqb_spec (cv_chars e) MAX_COMPOSITE_EVIDENCE_CHARS) as [Hm|Hm].
  - by apply rep_mark.
  - destruct (rep_char full ch e Hr Hf Hm) as [Hr' Hf']. specialize (IH _ _ Hr' Hf').
    by rewrite <- app_assoc in IH.
Qed.

(** What is cut once stays cut. *)
Lemma rep_full full more e :
  evidence_rep full e -> cv_truncated e = true -> evidence_rep (full ++ more) e.
Proof.
  intros (Hv & Ht & Hc) Hf. rewrite Hf in Ht. symmetry in Ht. apply negb_true_iff, Nat.leb_gt in Ht.
  assert (Hlen : MAX_COMPOSITE_EVIDENCE_CHARS < length (full ++ more)) by (rewrite length_app; lia).
  split; [|split; [by rewrite (proj2 (Nat.leb_gt _ _))|congruence]].
  rewrite Hv. unfold clipped. rewrite !(proj2 (Nat.leb_gt _ _)) by done. f_equal.
  by rewrite take_app_le by lia.
Qed.

Lemma rep_push vs v e :
  evidence_rep (joined vs) e -> evidence_rep (joined (vs ++ [v])) (evidence_push v e).
Proof.
  intros Hr. rewrite joined_snoc. unfold evidence_push.
  destruct v as [|ch v]; [by rewrite bool_decide_eq_true_2|].
  rewrite bool_decide_eq_false_2 by done. cbn [orb].
  destruct (cv_truncated e) eqn:Hf.
  - destruct (joined vs) as [|c full] eqn:E; [|by apply rep_full].
    destruct Hr as (_ & Ht & _). rewrite Hf in Ht. by cbn in Ht.
  - pose proof Hr as (Hv & Ht & Hc). rewrite Hf in Ht. symmetry in Ht. apply negb_false_iff, Nat.leb_le in Ht.
    rewrite clipped_short in Hv by done. rewrite Hv. destruct (joined vs) as [|c full] eqn:E.
    + rewrite bool_decide_eq_true_2 by done. cbn [negb]. by apply (rep_chars [] (ch :: v)).
    + rewrite bool_decide_eq_false_2 by done. cbn [negb].
      destruct (Nat.eqb_spec (cv_chars e) MAX_COMPOSITE_EVIDENCE_CHARS) as [Hm|Hm]; [by apply rep_mark|].
      destruct (rep_char _ 44%N e Hr Hf Hm) as [Hr' Hf'].
      pose proof (rep_chars _ (ch :: v) _ Hr' Hf') as H. by rewrite <- app_assoc in H.
Qed.

Lemma rep_default : evidence_rep (joined []) evidence_default.
Proof. split; [done|]. split; [vm_compute; reflexivity|done]. Qed.

Lemma clipped_bounded full : length (clipped full) <= MAX_COMPOSITE_EVIDENCE_CHARS.
Proof.
  unfold clipped. destruct (Nat.leb_spec (length full) MAX_COMPOSITE_EVIDENCE_CHARS); [done|].
  rewrite length_app, length_take. pose proof marker_fits. lia.
Qed.

Lemma rep_push_optional vs o e :
  evidence_rep (joined vs) e -> evidence_rep (joined (vs ++ option_list o)) (push_optional o e).
Proof. intros Hr. destruct o as [v|]; [by apply rep_push|by rewrite app_nil_r]. Qed.

Lemma rep_value vs e : evidence_rep (joined vs) e -> cv_value e = clipped (joined vs).
Proof. by intros [H _]. Qed.

(** ** Diagnostics *)

Lemma bounded_prefix message n :
  str_len (slice_to message (floor_boundary message n)) <= n.
Proof. rewrite slice_to_len by apply floor_boundary_spec. apply floor_boundary_le. Qed.

Definition within (message : text) : Prop := str_len message <= MAX_OPERATION_DIAGNOSTIC_BYTES.

Lemma bounded_within message : within (bounded_rollback_message message).
Proof. unfold within. etrans; [apply bounded_prefix|lia]. Qed.

Lemma merge_within error rollback : within (merge_rollback_failure error rollback).
Proof. destruct rollback; apply bounded_within. Qed.

Lemma append_within target error : within target -> within (append_bounded_rollback_error target error).
Proof.
  intros Ht. unfold append_bounded_rollback_error.
  destruct (Nat.leb_spec MAX_OPERATION_DIAGNOSTIC_BYTES (str_len target)) as [|Hlt]; [done|].
  assert (Hfill : forall t, within t -> within (t ++ slice_to error
      (floor_boundary error (str_len error `min` (MAX_OPERATION_DIAGNOSTIC_BYTES - str_len t))))).
  { intros t Hw. unfold within in *. rewrite str_len_app.
    pose proof (bounded_prefix error (str_len error `min` (MAX_OPERATION_DIAGNOSTIC_BYTES - str_len t))). lia. }
  case_bool_decide; [by apply Hfill|].
  destruct (Nat.ltb_spec MAX_OPERATION_DIAGNOSTIC_BYTES (str_len target + str_len (txt "; "))); [done|].
  apply Hfill. unfold within. rewrite str_len_app. lia.
Qed.

(** ** Rollback *)

Definition refused_cleanup (effect : StagedEffect) : Prop := err_of (sf_rollback effect) <> None.

Definition cleaned (effect : StagedEffect) : Prop := err_of (sf_rollback effect) = None.

Lemma rollback_loop_spec effects failed errors n m :
  rollback_loop effects failed errors = (n, m) -> within errors ->
  within m /\ failed <= n /\ (n = failed <-> Forall cleaned effects).
Proof.
  revert failed errors. induction effects as [|e es IH]; intros failed errors; cbn [rollback_loop].
  - intros [= <- <-] Hw. done.
  - unfold cleaned at 1. rewrite Forall_cons. destruct (sf_rollback e) as [u|er] eqn:E; cbn [err_of]; intros Hr Hw.
    + destruct (IH _ _ Hr Hw) as (? & ? & Hiff). split; [done|]. split; [done|]. rewrite Hiff. naive_solver.
    + destruct (IH _ _ Hr (append_within _ _ Hw)) as (? & ? & _). split; [done|]. split; [lia|].
      split; [lia|intros [? _]; done].
Qed.

Definition rolled_back (effects : list StagedEffect) : Fates :=
  (fun effect => (RolledBack, sf_name effect)) <$> effects.

Definition dispatched_fates (effects : list StagedEffect) : Fates :=
  (fun effect => (Dispatched, sf_name effect)) <$> effects.

Lemma rollback_all_spec effects :
  exists res, rollback_all effects = (res, rolled_back effects) /\
    match res with
    | Ok _ => Forall cleaned effects
    | Err (RecoveryRequired m) => ~ Forall cleaned effects /\ within m
    | Err _ => False
    end.
Proof.
  unfold rollback_all. destruct (rollback_loop effects 0 []) as [n m] eqn:E.
  destruct (rollback_loop_spec _ _ _ _ _ E (Nat.le_0_l _)) as (_ & _ & Hiff).
  eexists. split; [reflexivity|]. destruct (Nat.eqb_spec n 0) as [Hn|Hn].
  - by apply Hiff.
  - split; [by rewrite <- Hiff|apply bounded_within].
Qed.

(** ** Commit *)

(** What the receipt of a composite says of the children it tried and of the rest. *)
Definition receipt_true (tried rest : list StagedEffect) (receipt : EffectReceipt) : Prop :=
  let evidence := Some (clipped (joined (omap evidence_of tried))) in
  match receipt with
  | ReceiptApplied Durable own => rest = [] /\ Forall (fun e => landed e = true) tried /\ own = evidence
  | ReceiptApplied (DurabilityFailed m) own =>
      own = evidence /\ within m /\ exists before last, tried = before ++ [last] /\
        Forall (fun e => landed e = true) before /\ landed last = false /\
        (before <> [] \/ exists why id, sf_commit last = ReceiptApplied (DurabilityFailed why) id)
  | ReceiptNotApplied m =>
      within m /\ Forall cleaned rest /\ exists e why, tried = [e] /\ sf_commit e = ReceiptNotApplied why
  | ReceiptUnknown m =>
      within m /\ exists e why, tried = [e] /\
        (sf_commit e = ReceiptUnknown why \/ (sf_commit e = ReceiptNotApplied why /\ ~ Forall cleaned rest))
  end.

(** A child that stops the composite. *)
Lemma stopped_true before last rest evidence (rollback : AgentResult unit) receipt :
  Forall (fun e => landed e = true) before -> evidence_rep (joined (omap evidence_of before)) evidence ->
  (err_of rollback = None <-> Forall cleaned rest) ->
  match sf_commit last with
  | ReceiptApplied Durable _ => False
  | ReceiptApplied (DurabilityFailed why) own =>
      receipt = ReceiptApplied (DurabilityFailed (merge_rollback_failure why (err_of rollback)))
                  (Some (cv_value (push_optional own evidence)))
  | ReceiptNotApplied why => receipt = stopped_not_applied why (length before) evidence rollback
  | ReceiptUnknown why => receipt = stopped_unknown why (length before) evidence rollback
  end -> receipt_true (before ++ [last]) rest receipt.
Proof.
  intros Hb Hev Hrb Hrec. destruct (sf_commit last) as [why|[|why] own|why] eqn:El; [|done| |]; subst receipt.
  - assert (Hev' : omap evidence_of (before ++ [last]) = omap evidence_of before)
      by (rewrite omap_app; cbn; unfold evidence_of at 2; by rewrite El, app_nil_r).
    unfold stopped_not_applied. destruct before as [|e0 before'] eqn:Eb; cbn [length Nat.eqb app].
    + destruct rollback as [u|er]; cbn [receipt_true err_of] in *.
      * split; [apply bounded_within|]. split; [by apply Hrb|]. by exists last, why.
      * split; [apply bounded_within|]. exists last, why. split; [done|]. right. split; [done|].
        intros Hall. by apply Hrb in Hall.
    + cbn [receipt_true]. rewrite (rep_value _ _ Hev). change (e0 :: before' ++ [last]) with ((e0 :: before') ++ [last]).
      rewrite Hev'. split; [done|]. split; [apply bounded_within|]. exists (e0 :: before'), last.
      split; [done|]. split; [done|]. split; [by unfold landed; rewrite El|by left].
  - cbn [receipt_true]. assert (Hev' : omap evidence_of (before ++ [last]) = omap evidence_of before ++ option_list own)
      by (rewrite omap_app; cbn; unfold evidence_of at 2; rewrite El; by destruct own).
    rewrite Hev', (rep_value _ _ (rep_push_optional _ own _ Hev)).
    split; [done|]. split; [apply merge_within|]. exists before, last. split; [done|]. split; [done|].
    split; [by unfold landed; rewrite El|]. right. by eexists _, _.
  - assert (Hev' : omap evidence_of (before ++ [last]) = omap evidence_of before)
      by (rewrite omap_app; cbn; unfold evidence_of at 2; by rewrite El, app_nil_r).
    unfold stopped_unknown. destruct before as [|e0 before'] eqn:Eb; cbn [length Nat.eqb app].
    + cbn [receipt_true]. split; [apply bounded_within|]. exists last, why. split; [done|]. by left.
    + cbn [receipt_true]. rewrite (rep_value _ _ Hev). change (e0 :: before' ++ [last]) with ((e0 :: before') ++ [last]).
      rewrite Hev'. split; [done|]. split; [apply bounded_within|]. exists (e0 :: before'), last.
      split; [done|]. split; [done|]. split; [by unfold landed; rewrite El|by left].
Qed.

Lemma commit_loop_spec effects before evidence :
  Forall (fun e => landed e = true) before -> evidence_rep (joined (omap evidence_of before)) evidence ->
  exists receipt tried rest, effects = tried ++ rest /\
    commit_loop effects evidence (length before) = (receipt, dispatched_fates tried ++ rolled_back rest) /\
    receipt_true (before ++ tried) rest receipt.
Proof.
  revert before evidence. induction effects as [|e es IH]; intros before evidence Hb Hev; cbn [commit_loop].
  - eexists _, [], []. split; [done|]. split; [done|]. rewrite app_nil_r. cbn. by rewrite (rep_value _ _ Hev).
  - destruct (rollback_all_spec es) as (res & Hroll & Hres).
    assert (Hiff : err_of res = None <-> Forall cleaned es).
    { destruct res as [u|[]]; cbn; try done. destruct Hres. naive_solver. }
    rewrite Hroll.
    destruct (sf_commit e) as [why|[|why] own|why] eqn:Ee.
    + eexists _, [e], es. split; [done|]. split; [done|]. eapply stopped_true; [done|done|done|by rewrite Ee].
    + destruct (IH (before ++ [e]) (push_optional own evidence)) as (receipt & tried & rest & Heq & Hrun & Ht).
      * apply Forall_app. split; [done|]. constructor; [by unfold landed; rewrite Ee|constructor].
      * rewrite omap_app. replace (omap evidence_of [e]) with (option_list own); [by apply rep_push_optional|].
        cbn. unfold evidence_of. rewrite Ee. by destruct own.
      * rewrite length_app in Hrun. cbn [length] in Hrun. rewrite Hrun.
        exists receipt, (e :: tried), rest. split; [by rewrite Heq|]. split; [done|]. by rewrite <- app_assoc in Ht.
    + eexists _, [e], es. split; [done|]. split; [done|]. eapply stopped_true; [done|done|done|by rewrite Ee].
    + eexists _, [e], es. split; [done|]. split; [done|]. eapply stopped_true; [done|done|done|by rewrite Ee].
Qed.

(** ** The properties *)


(** A composite rollback tries every child, the last prepared first, and never
    stops at a failure; it succeeds exactly when every child was cleaned up, and
    otherwise asks for recovery with a bounded message. *)
Theorem composite_rollback_complete effects :
  exists res, composite_rollback effects = (res, rolled_back (reverse effects)) /\
    match res with
    | Ok _ => Forall cleaned effects
    | Err (RecoveryRequired m) => Exists refused_cleanup effects /\ within m
    | Err _ => False
    end.
Proof.
  destruct (rollback_all_spec (reverse effects)) as (res & Hrun & Hres). exists res. split; [done|].
  destruct res as [u|[]]; try done.
  - by apply Forall_reverse.
  - destruct Hres as [Hn Hw]. split; [|done].
    assert (Hn' : ~ Forall cleaned effects) by (intros Hall; apply Hn; by apply Forall_reverse).
    apply not_Forall_Exists in Hn'; [|intros e; unfold cleaned; destruct (err_of (sf_rollback e)); [right|left]; done].
    by eapply Exists_impl.
Qed.
