(* ===== verification/OutputBroker.v ===== *)
(** The output broker of the composition root (agent-workspace/broker.rs): every
    model-facing field of a tool output is bounded, and what is cut is first spilled
    to the artifact store; and the bounds this keeps.

    serde_json's printer is a parameter, [json_text]; what the artifact store answers
    is an environment. Characters are counted with [length], bytes with [str_len]. *)

From S2P Require Import Prelude Text Digest Jcs.

(** The caps of agent-contracts/tool.rs and artifact.rs. *)
Definition MAX_TOOL_MODEL_CONTENT_CHARS : nat := N.to_nat 16000.
Definition MAX_TOOL_SUMMARY_CHARS : nat := N.to_nat 2000.
Definition MAX_TOOL_METADATA_BYTES : nat := N.to_nat 8000.
Definition MAX_TOOL_OUTPUT_TOTAL_CHARS : nat := N.to_nat 24000.
Definition MAX_ARTIFACT_REFERENCE_BYTES : nat := N.to_nat 256.

(** [serde_json::to_string]; [None] for a value it cannot print. *)
Class JsonText `{JN : JsonNumber} := {
  json_text : Json -> option text;
}.

(** [usize::to_string]. *)
Definition usize_text (n : nat) : text := uint_text (N.to_uint (N.of_nat n)).

(** ** Truncation *)

Definition truncation_marker (char_count limit : nat) (field : text) (location : option text) : text :=
  let reference :=
    match location with
    | Some reference => txt " Full output: " ++ take (N.to_nat 256) reference ++ txt "."
    | None => []
    end in
  10%N :: txt "...[output broker truncated " ++ field ++ txt " from " ++ usize_text char_count
    ++ txt " chars to the " ++ usize_text limit ++ txt "-char cap." ++ reference ++ txt "]..." ++ [10%N].

Definition truncate_with_marker (value : text) (limit : nat) (field : text) (location : option text) : text :=
  let char_count := length value in
  if char_count <=? limit then value
  else
    let marker := truncation_marker char_count limit field location in
    let marker_chars := length marker in
    if limit <? marker_chars then take limit marker
    else
      let content_budget := limit - marker_chars in
      let head_budget := content_budget / 2 in
      let tail_budget := content_budget - head_budget in
      take head_budget value ++ marker ++ drop (length value - tail_budget) value.

Section broker.
Context `{JT : JsonText}.

(** The fields of [ToolOutput] the broker bounds. *)
Record OutputView : Type := {
  ov_summary : text;
  ov_model_content : text;
  ov_artifact_ref : option text;
  ov_metadata : Json;
}.

(** ** Metadata *)

Definition WINDOW_TRUNCATED_METADATA_KEY : text := txt "window_truncated".

(** [Map::insert]; where a new key goes is the map's own matter. *)
Fixpoint insert_field (key : text) (value : Json) (entries : list (text * Json)) : list (text * Json) :=
  match entries with
  | [] => [(key, value)]
  | (k, v) :: entries' =>
      if bool_decide (k = key) then (key, value) :: entries' else (k, v) :: insert_field key value entries'
  end.

Definition claims_window (metadata : Json) : bool :=
  existsb (fun key => match get_field key metadata with Some _ => true | None => false end)
    [txt "start_line"; txt "end_line"; txt "covers_file"].

(** [invalidate_file_read_window_after_body_clip]. *)
Definition invalidate_window (metadata : Json) : Json :=
  if negb (claims_window metadata) then metadata
  else
    match metadata with
    | JObject entries => JObject (insert_field WINDOW_TRUNCATED_METADATA_KEY (JBool true) entries)
    | _ => metadata
    end.

(** The number is [original_bytes]; a number type must be able to hold it. *)
Definition oversized_marker (number : nat -> Number) (original_bytes : nat) : Json :=
  JObject [ (txt "truncated", JBool true); (txt "field", JString (txt "metadata"));
            (txt "original_bytes", JNumber (number original_bytes));
            (txt "cap_bytes", JNumber (number MAX_TOOL_METADATA_BYTES)) ].

Definition bound_metadata (number : nat -> Number) (metadata : Json) : Json :=
  match json_text metadata with
  | None => JString (txt "metadata is not serializable")
  | Some serialized =>
      if str_len serialized <=? MAX_TOOL_METADATA_BYTES then metadata
      else oversized_marker number (str_len serialized)
  end.

Definition metadata_chars (metadata : Json) : nat :=
  match json_text metadata with Some json => length json | None => 0 end.

(** ** The broker *)

Record BrokerEnv : Type := {
  be_number : nat -> Number;              (* serde_json's number of a usize *)
  be_write : nat -> option text;          (* what the k-th write_artifact answers *)
  be_open : text -> option text;          (* open_artifact_for_run: the normalized reference *)
}.

(** The writes to the artifact store: the content, and the reference it got. *)
Definition Spills : Type := list (text * option text).

Definition normalized_reference_for_run (env : BrokerEnv) (reference : text) : option text :=
  if MAX_ARTIFACT_REFERENCE_BYTES <? str_len reference then None else be_open env reference.

Definition content_cap (budget : option nat) : nat :=
  default MAX_TOOL_MODEL_CONTENT_CHARS budget `min` MAX_TOOL_MODEL_CONTENT_CHARS.

(** Steps 1 to 2b, and the metadata cap. *)
Definition bound_fields (env : BrokerEnv) (budget : option nat) (output : OutputView) :
    OutputView * Spills :=
  let summary := truncate_with_marker (ov_summary output) MAX_TOOL_SUMMARY_CHARS (txt "summary") None in
  if content_cap budget <? length (ov_model_content output)
  then
    let reference := be_write env 0 in
    ({| ov_summary := summary;
        ov_model_content := truncate_with_marker (ov_model_content output) (content_cap budget)
                              (txt "model_content") reference;
        ov_artifact_ref := reference;
        ov_metadata := bound_metadata (be_number env) (invalidate_window (ov_metadata output)) |},
     [(ov_model_content output, reference)])
  else
    ({| ov_summary := summary;
        ov_model_content := ov_model_content output;
        ov_artifact_ref := ov_artifact_ref output ≫= normalized_reference_for_run env;
        ov_metadata := bound_metadata (be_number env) (ov_metadata output) |}, []).

Definition total_chars (output : OutputView) : nat :=
  length (ov_summary output) + length (ov_model_content output) + metadata_chars (ov_metadata output).

(** Did the first step spill, with success? *)
Definition broker_spilled (spills : Spills) : bool :=
  match spills with [(_, Some _)] => true | _ => false end.

(** Step 3. *)
Definition bound_total (env : BrokerEnv) (output : OutputView) (spills : Spills) : OutputView * Spills :=
  if MAX_TOOL_OUTPUT_TOTAL_CHARS <? total_chars output
  then
    let '(reference, spills) :=
      if broker_spilled spills then (ov_artifact_ref output, spills)
      else let reference := be_write env (length spills) in
           (reference, spills ++ [(ov_model_content output, reference)]) in
    let content_allowance :=
      MAX_TOOL_OUTPUT_TOTAL_CHARS - (length (ov_summary output) + metadata_chars (ov_metadata output)) in
    ({| ov_summary := ov_summary output;
        ov_model_content := truncate_with_marker (ov_model_content output) content_allowance
                              (txt "model_content") reference;
        ov_artifact_ref := reference;
        ov_metadata := bound_metadata (be_number env) (invalidate_window (ov_metadata output)) |}, spills)
  else (output, spills).

Definition bound (env : BrokerEnv) (budget : option nat) (output : OutputView) : OutputView * Spills :=
  let '(output, spills) := bound_fields env budget output in
  bound_total env output spills.

(** What the broker relies on of the printer: the two small values it substitutes
    for metadata fit the cap. *)
Class JsonTextLaws (number : nat -> Number) : Prop := {
  marker_prints : forall n, exists t, json_text (oversized_marker number n) = Some t /\
    str_len t <= MAX_TOOL_METADATA_BYTES;
  refusal_prints : exists t, json_text (JString (txt "metadata is not serializable")) = Some t /\
    str_len t <= MAX_TOOL_METADATA_BYTES;
}.

End broker.

(** What the output broker promises: bounded fields, and full content behind the
    reference it gives; and the two corners in which it does not. *)

(** ** Truncation *)

Lemma truncate_length value limit field location :
  length (truncate_with_marker value limit field location) = length value `min` limit.
Proof.
  unfold truncate_with_marker. destruct (Nat.leb_spec (length value) limit) as [Hle|Hlt]; [lia|].
  set (marker := truncation_marker _ _ _ _). destruct (Nat.ltb_spec limit (length marker)) as [Hm|Hm].
  - rewrite length_take. lia.
  - assert ((limit - length marker) / 2 <= limit - length marker) by (apply Nat.Div0.div_le_upper_bound; lia).
    rewrite !length_app, length_take, length_drop. lia.
Qed.

Lemma truncate_same value limit field location :
  length value <= limit -> truncate_with_marker value limit field location = value.
Proof. intros H. unfold truncate_with_marker. by rewrite (proj2 (Nat.leb_le _ _)). Qed.

Section theorems.
Context `{JT : JsonText}.
Implicit Types (env : BrokerEnv) (o : OutputView).

(** ** Metadata *)

Definition metadata_fits (m : Json) : Prop :=
  exists t, json_text m = Some t /\ str_len t <= MAX_TOOL_METADATA_BYTES.

Lemma bound_metadata_fits number (JL : JsonTextLaws number) m : metadata_fits (bound_metadata number m).
Proof.
  unfold bound_metadata. destruct (json_text m) as [t|] eqn:E; [|apply refusal_prints].
  destruct (Nat.leb_spec (str_len t) MAX_TOOL_METADATA_BYTES); [by exists t|apply marker_prints].
Qed.

Lemma bound_metadata_id number m : metadata_fits m -> bound_metadata number m = m.
Proof. intros (t & E & H). unfold bound_metadata. by rewrite E, (proj2 (Nat.leb_le _ _)). Qed.

Lemma insert_field_find key key' value entries :
  key' <> key ->
  List.find (fun e => bool_decide (e.1 = key')) (insert_field key value entries) =
  List.find (fun e => bool_decide (e.1 = key')) entries.
Proof.
  intros Hne. induction entries as [|[k v] entries IH]; cbn [insert_field List.find].
  - by rewrite bool_decide_eq_false_2 by (cbn; congruence).
  - case_bool_decide; cbn [List.find fst].
    + subst k. by rewrite !bool_decide_eq_false_2 by (cbn; congruence).
    + cbn [fst]. by rewrite IH.
Qed.

Lemma invalidate_claims m : claims_window (invalidate_window m) = claims_window m.
Proof.
  unfold invalidate_window. destruct (claims_window m) eqn:E; [|done].
  destruct m as [| | | | |entries]; try done. cbn [negb]. rewrite <- E.
  unfold claims_window, get_field. cbn [existsb]. by rewrite !insert_field_find by (vm_compute; discriminate).
Qed.

Lemma invalidate_unclaimed m : claims_window m = false -> invalidate_window m = m.
Proof. intros H. unfold invalidate_window. by rewrite H. Qed.

Lemma unclaimed_marker number n : claims_window (oversized_marker number n) = false.
Proof. reflexivity. Qed.

Lemma bound_unclaimed number m : claims_window m = false -> claims_window (bound_metadata number m) = false.
Proof. unfold bound_metadata. intros H. by repeat case_match. Qed.

(** ** The fields *)

Lemma bound_fields_spec env budget o o1 spills (JL : JsonTextLaws (be_number env)) :
  bound_fields env budget o = (o1, spills) ->
  length (ov_summary o1) <= MAX_TOOL_SUMMARY_CHARS /\
  length (ov_model_content o1) = length (ov_model_content o) `min` content_cap budget /\
  metadata_fits (ov_metadata o1) /\
  (claims_window (ov_metadata o) = false -> claims_window (ov_metadata o1) = false).
Proof.
  unfold bound_fields. destruct (Nat.ltb_spec (content_cap budget) (length (ov_model_content o)));
    intros [= <- <-]; cbn [ov_summary ov_model_content ov_metadata]; rewrite !truncate_length.
  - split; [lia|]. split; [done|]. split; [by apply bound_metadata_fits|].
    intros Hc. apply bound_unclaimed. by rewrite invalidate_claims.
  - split; [lia|]. split; [lia|]. split; [by apply bound_metadata_fits|]. apply bound_unclaimed.
Qed.

Lemma fits_chars m : metadata_fits m -> metadata_chars m <= MAX_TOOL_METADATA_BYTES.
Proof.
  intros (t & E & H). unfold metadata_chars. rewrite E. pose proof (length_le_str_len t). lia.
Qed.

(** The fixed caps leave room for a summary and metadata of any size. *)
Lemma caps_fit : MAX_TOOL_SUMMARY_CHARS + MAX_TOOL_METADATA_BYTES <= MAX_TOOL_OUTPUT_TOTAL_CHARS.
Proof. apply Nat.leb_le. vm_compute. reflexivity. Qed.

Lemma bound_total_spec env o spills o2 spills2 (JL : JsonTextLaws (be_number env)) :
  length (ov_summary o) <= MAX_TOOL_SUMMARY_CHARS -> metadata_fits (ov_metadata o) ->
  bound_total env o spills = (o2, spills2) ->
  ov_summary o2 = ov_summary o /\
  length (ov_summary o2) + length (ov_model_content o2) + metadata_chars (ov_metadata o)
    = total_chars o `min` MAX_TOOL_OUTPUT_TOTAL_CHARS /\
  length (ov_model_content o2) <= length (ov_model_content o) /\
  ov_metadata o2 = if MAX_TOOL_OUTPUT_TOTAL_CHARS <? total_chars o
                   then bound_metadata (be_number env) (invalidate_window (ov_metadata o))
                   else ov_metadata o.
Proof.
  intros Hs Hm. unfold bound_total. destruct (Nat.ltb_spec MAX_TOOL_OUTPUT_TOTAL_CHARS (total_chars o)) as [Hlt|Hle].
  - pose proof (fits_chars _ Hm). pose proof caps_fit. unfold total_chars in *.
    destruct (if broker_spilled spills then _ else _) as [reference sp]. intros [= <- <-].
    cbn [ov_summary ov_model_content ov_metadata]. rewrite truncate_length.
    split; [done|]. split; [lia|]. split; [lia|done].
  - intros [= <- <-]. unfold total_chars in *. split; [done|]. split; [lia|]. done.
Qed.

(** The model-facing output is bounded, whatever a tool produced and whatever the
    artifact store answers: the summary, the content (by the tool's own budget, never
    above the global cap) and the printed metadata each within their cap; and the
    three together within the total, counted with the metadata as it was before the
    last stamp. They are within the total as shown when the output declares no
    file-read window; when it does, they may exceed it by what the stamp adds. *)
Theorem output_bounded env budget o o2 spills (JL : JsonTextLaws (be_number env)) :
  bound env budget o = (o2, spills) ->
  length (ov_summary o2) <= MAX_TOOL_SUMMARY_CHARS /\
  length (ov_model_content o2) <= content_cap budget /\
  (exists t, json_text (ov_metadata o2) = Some t /\ str_len t <= MAX_TOOL_METADATA_BYTES) /\
  (exists m, length (ov_summary o2) + length (ov_model_content o2) + metadata_chars m
       <= MAX_TOOL_OUTPUT_TOTAL_CHARS /\
     (ov_metadata o2 = m \/ ov_metadata o2 = bound_metadata (be_number env) (invalidate_window m))) /\
  (claims_window (ov_metadata o) = false -> total_chars o2 <= MAX_TOOL_OUTPUT_TOTAL_CHARS).
Proof.
  unfold bound. destruct (bound_fields env budget o) as [o1 sp] eqn:E1. intros E2.
  destruct (bound_fields_spec _ _ _ _ _ JL E1) as (Hs & Hc & Hm & Hw).
  destruct (bound_total_spec _ _ _ _ _ JL Hs Hm E2) as (Hs2 & Ht & Hc2 & Hm2).
  split; [by rewrite Hs2|]. split; [lia|]. split; [|split].
  - rewrite Hm2. case_match; [by apply bound_metadata_fits|exact Hm].
  - exists (ov_metadata o1). split; [lia|]. rewrite Hm2. case_match; [by right|by left].
  - intros Hno. specialize (Hw Hno). assert (Hsame : ov_metadata o2 = ov_metadata o1).
    { rewrite Hm2. case_match; [|done]. rewrite invalidate_unclaimed by done. by apply bound_metadata_id. }
    unfold total_chars. rewrite Hsame. lia.
Qed.

(** ** The reference *)

(** Nothing is lost silently: an output whose content the broker changed carries
    either no reference at all or one the broker itself got from the artifact store,
    never the producer's; and what was stored under it is the producer's whole
    content, unless the first attempt to store it failed. Content that is shown whole
    keeps only a reference that was opened and normalized for this run. *)
Theorem reference_is_ours env budget o o2 spills :
  bound env budget o = (o2, spills) ->
  (forall r, ov_artifact_ref o2 = Some r -> ov_model_content o2 <> ov_model_content o ->
     exists stored, (stored, Some r) ∈ spills /\
       (stored = ov_model_content o \/ (ov_model_content o, None) ∈ spills)) /\
  (forall r, ov_artifact_ref o2 = Some r -> spills = [] ->
     ov_model_content o2 = ov_model_content o /\
     exists own, ov_artifact_ref o = Some own /\ normalized_reference_for_run env own = Some r).
Proof.
  unfold bound, bound_fields, bound_total.
  destruct (Nat.ltb_spec (content_cap budget) (length (ov_model_content o))) as [Hlt|Hle].
  - destruct (be_write env 0) as [r0|] eqn:E0; cbn [broker_spilled ov_artifact_ref];
      (destruct (MAX_TOOL_OUTPUT_TOTAL_CHARS <? _); intros [= <- <-]); cbn [ov_artifact_ref ov_model_content];
      (split; [|done]); intros r Hr Hne.
    + injection Hr as <-. eexists. split; [by left|by left].
    + injection Hr as <-. eexists. split; [by left|by left].
    + eexists. split; [rewrite Hr; right; by left|]. right. by left.
    + done.
  - cbn [broker_spilled]. destruct (MAX_TOOL_OUTPUT_TOTAL_CHARS <? _); intros [= <- <-];
      cbn [ov_artifact_ref ov_model_content].
    + split; [|done]. intros r Hr _. exists (ov_model_content o). split; [rewrite Hr; by left|by left].
    + split; [done|]. intros r Hr _. split; [done|]. destruct (ov_artifact_ref o) as [own|]; [|done]. by exists own.
Qed.

(** ** Two corners *)

(** The stamp is not counted: when an output that declares a window is over the
    total and the stamped metadata still fits its own cap, what is shown is exactly
    the total plus what the stamp adds. *)
Theorem stamp_overruns_total env budget o o1 o2 spills spills2 (JL : JsonTextLaws (be_number env)) :
  bound_fields env budget o = (o1, spills) ->
  MAX_TOOL_OUTPUT_TOTAL_CHARS < total_chars o1 -> metadata_fits (invalidate_window (ov_metadata o1)) ->
  bound env budget o = (o2, spills2) ->
  total_chars o2 + metadata_chars (ov_metadata o1)
    = MAX_TOOL_OUTPUT_TOTAL_CHARS + metadata_chars (invalidate_window (ov_metadata o1)).
Proof.
  intros E1 Hlt Hfit. unfold bound. rewrite E1. intros E2.
  destruct (bound_fields_spec _ _ _ _ _ JL E1) as (Hs & Hc & Hm & Hw).
  destruct (bound_total_spec _ _ _ _ _ JL Hs Hm E2) as (Hs2 & Ht & Hc2 & Hm2).
  rewrite (proj2 (Nat.ltb_lt _ _)) in Hm2 by done. rewrite bound_metadata_id in Hm2 by done.
  unfold total_chars at 1. rewrite Hm2. lia.
Qed.

(** The retry stores the preview: when the content is over its budget, the first
    write to the store fails, the total is exceeded and the second write succeeds,
    the output refers, as its full output, to the truncated content. *)
Theorem retry_stores_preview env budget o o1 o2 spills spills2 r :
  content_cap budget < length (ov_model_content o) -> be_write env 0 = None -> be_write env 1 = Some r ->
  bound_fields env budget o = (o1, spills) -> MAX_TOOL_OUTPUT_TOTAL_CHARS < total_chars o1 ->
  bound env budget o = (o2, spills2) ->
  ov_artifact_ref o2 = Some r /\
  spills2 = [(ov_model_content o, None); (ov_model_content o1, Some r)] /\
  length (ov_model_content o1) = content_cap budget /\ ov_model_content o1 <> ov_model_content o.
Proof.
  intros Hlt H0 H1 E1 Htot. unfold bound. rewrite E1. revert E1.
  unfold bound_fields. rewrite (proj2 (Nat.ltb_lt _ _)) by done. rewrite H0. intros [= <- <-].
  unfold bound_total. rewrite (proj2 (Nat.ltb_lt _ _)) by done. cbn [broker_spilled length app ov_artifact_ref].
  rewrite H1. intros [= <- <-]. cbn [ov_artifact_ref ov_model_content]. split; [done|]. split; [done|].
  rewrite truncate_length. split; [lia|]. intros Heq. apply (f_equal length) in Heq.
  rewrite truncate_length in Heq. lia.
Qed.

End theorems.
