(* ===== verification/KernelWitness.v ===== *)
(** The Jcs, kernel and dispatch theorems applied at concrete inputs: a Core over
    the specification journal, a sample number type, and one tool call taken from
    admission to its prepared effect. *)

From S2P Require Import Prelude Text Digest Jcs JcsCanonical Operation Journal Wal FileJournal FileJournalLaws.
From S2P Require Import JournalWitness Intent Registry RegistryFacts RegistrySteps RegistryTheorems.
From S2P Require Import RegistryBehaviour RegistryWitness Kernel KernelStartup KernelOps KernelTheorems Dispatch.
From S2P Require Import DispatchTheorems Grants Interactive InteractiveTheorems Commit.
From S2P Require Import Commit.

(** ** Sample numbers: a sign and a one followed by binary digits *)

#[export] Instance sample_numbers : JsonNumber := {
  Number := bool * list bool;
  as_f64 n := Some (Finite n.1 (49%N :: ((fun b : bool => if b then 49%N else 48%N) <$> n.2)));
}.

#[export] Instance sample_number_laws : JsonNumberLaws.
Proof.
  split. intros [neg l] negative p [= <- <-]. eexists _, _. split; [reflexivity|].
  split; [done|]. apply Forall_fmap, Forall_forall. by intros [] _.
Qed.

Definition sample_json (flip : bool) : Json :=
  let a := (txt "path", JString (txt "a.rs")) in
  let b := (txt "lines", JArray [JNumber (true, [false; true]); JNull]) in
  JObject (if flip then [b; a] else [a; b]).

Lemma sample_json_wf flip : json_wf (sample_json flip).
Proof.
  assert (Hs : forall s, forallb (fun c => c <? 55296)%N (txt s) = true -> Forall is_scalar (txt s)).
  { intros s Hs. apply Forall_forall. intros c Hc. left.
    apply Is_true_true, forallb_True in Hs. rewrite Forall_forall in Hs.
    by apply N.ltb_lt, Is_true_true, Hs. }
  destruct flip; constructor; try (repeat constructor; fail).
  - split; [apply (bool_decide_unpack _); vm_compute; exact I|].
    constructor; [by apply Hs|]. constructor; [by apply Hs|constructor].
  - split; [apply (bool_decide_unpack _); vm_compute; exact I|].
    constructor; [by apply Hs|]. constructor; [by apply Hs|constructor].
Qed.

Lemma sample_json_same : same_json (sample_json false) (sample_json true).
Proof.
  apply (same_object _ (match sample_json true with JObject l => l | _ => [] end)).
  - apply Permutation_swap.
  - constructor; [split; [done|]|constructor; [split; [done|]|constructor]].
    + constructor. constructor; [by constructor|]. constructor; [by constructor|constructor].
    + constructor.
Qed.


(** ** A Core and one call *)

Definition sample_core : Core SpecJournal :=
  {| co_run_id := 1; co_epoch := 1; co_operations := spec_registry |}.

Lemma sample_core_inv : core_inv sample_core.
Proof. split; [exact spec_registry_inv|]. intros e [= <-]. done. Qed.

Definition sample_call : ToolCall :=
  {| tl_id := txt "call"; tl_name := txt "tool"; tl_arguments := sample_json false |}.

Definition admitted_core : Core SpecJournal :=
  (admit_tool_operation (sample_identity 5) sample_call 1 sample_core).2.

Lemma admitted_core_inv : core_inv admitted_core.
Proof.
  unfold admitted_core. destruct (admit_tool_operation _ _ _ _) as [res c] eqn:E.
  by eapply keeps_admit; [apply sample_core_inv|].
Qed.

Lemma admitted_ok :
  (admit_tool_operation (sample_identity 5) sample_call 1 sample_core).1 =
  Ok (ToolAccepted (sample_snapshot 5 Accepted) (sample_identity 5)).
Proof. vm_compute. reflexivity. Qed.

Lemma admitted_accepted :
  rg_records (co_operations admitted_core) !! ti_operation_id (sample_identity 5) =
  Some {| os_identity := sample_identity 5; os_state := Accepted |}.
Proof. vm_compute. reflexivity. Qed.

Lemma core_invariant_witness :
  core_inv (core_run [CoAdmit (sample_identity 5) sample_call 1; CoAdvance 1] sample_core) /\
  co_epoch (core_run [CoAdmit (sample_identity 5) sample_call 1; CoAdvance 1] sample_core) = 2%N.
Proof.
  split; [|vm_compute; reflexivity].
  exact (proj1 (core_invariant [CoAdmit (sample_identity 5) sample_call 1; CoAdvance 1]
    sample_core sample_core_inv)).
Defined.

Lemma stale_epoch_refused_witness :
  mark_operation_executing_if_current 7 5 None admitted_core =
  (Err (StaleEpoch 7 1), admitted_core).
Proof.
  destruct (stale_epoch_refused admitted_core 7) as (_ & _ & H & _);
    [vm_compute; reflexivity|vm_compute; discriminate|]. exact (H 5%N None).
Defined.

Lemma one_permit_witness :
  query 5 (co_operations admitted_core) = Found (sample_snapshot 5 Accepted) /\
  (admit_tool_operation (sample_identity 5) sample_call 1
     (core_run [CoAdvance 1] admitted_core)).1 <>
  Ok (ToolAccepted (sample_snapshot 5 Accepted) (sample_identity 5)).
Proof.
  destruct (admit_tool_operation (sample_identity 5) sample_call 1 sample_core) as [res c] eqn:E.
  pose proof admitted_ok as Hok. rewrite E in Hok. cbn [fst] in Hok. subst res.
  destruct (one_permit _ _ _ _ _ _ _ sample_core_inv E) as [(_ & _ & _ & Hq & _) Hone].
  unfold admitted_core. rewrite E. split; [exact Hq|]. exact (Hone [CoAdvance 1] _ _ _ _ _ eq_refl).
Defined.

Lemma sample_cancel_wins :
  match (cancel_operation_and_advance (sample_identity 5) 1 admitted_core).1 with
  | Ok (DispositionCancelled _ _) => true
  | _ => false
  end = true.
Proof. vm_compute. reflexivity. Qed.

Lemma cancellation_fences_witness :
  is_Ok (begin_operation_commit 5 9 sample_digest
    (core_run [CoMarkExecuting 2 5 (Some 9%N)]
      (cancel_operation_and_advance (sample_identity 5) 1 admitted_core).2)).1 = false.
Proof.
  pose proof sample_cancel_wins as Hw.
  destruct (cancel_operation_and_advance (sample_identity 5) 1 admitted_core)
    as [[[e q|q]|er] c1] eqn:E; [|discriminate..].
  destruct (cancellation_fences (sample_identity 5) 1 admitted_core c1 e q
    [CoMarkExecuting 2 5 (Some 9%N)] admitted_core_inv ltac:(vm_compute; discriminate) E)
    as (_ & H & _).
  exact (H 9%N sample_digest).
Defined.

(** ** Startup *)

Definition sample_reconciler : EffectReconciler :=
  {| reconcile _ := Ok (RecApplied Durable (Some (txt "sha256:1"))); recover_orphans := Ok tt |}.

Definition recovered_registry : Registry SpecJournal :=
  match recover 2 (Some recovered_spec) sample_recovery with
  | Ok r => r
  | Err _ => spec_registry
  end.

Lemma recovered_spec_inv : journal_inv recovered_spec.
Proof. apply ops_map_wf, sample_recovery_ids. Qed.

Lemma recovered_registry_inv : reg_inv recovered_registry.
Proof.
  unfold recovered_registry. destruct (recover _ _ _) as [r|] eqn:E; [|exact spec_registry_inv].
  destruct (recover_ok_inv _ _ _ _ (le_S 1 1 (le_n 1)) sample_recovery_ids E)
    as (Hm & _ & Hj & _ & Hsub & Hall).
  split; [exact Hm|]. rewrite Hj. intros jx [= <-].
  refine (conj recovered_spec_inv (conj Hsub _)). intros id [s Hs]. by eapply Hall.
Qed.


Definition no_reservation : ReservationLookup := fun _ => Ok None.

Lemma startup_fences_epoch_witness :
  match try_new 1 (Some recovered_spec) (Some sample_reconciler) no_reservation with
  | Ok c => core_inv c /\ co_epoch c = 3%N
  | Err _ => False
  end.
Proof.
  destruct (try_new 1 (Some recovered_spec) (Some sample_reconciler) no_reservation) as [c|e] eqn:E;
    [|vm_compute in E; discriminate].
  destruct (startup_fences_epoch 1 recovered_spec (Some sample_reconciler) no_reservation c
    recovered_spec_inv E) as (Hi & He & _).
  split; [exact Hi|exact He].
Defined.

(** ** Dispatch *)

Definition sample_surface : ToolSurfaceSnapshot :=
  {| ts_specs := [{| tp_name := txt "tool"; tp_risk := RiskWorkspaceWrite |}];
     ts_surface_revision := 3; ts_omissions := []; ts_schema_profiles := [] |}.

Definition sample_output : ToolOutput :=
  {| to_call_id := txt "call"; to_tool_name := txt "tool"; to_ok := true;
     to_summary := txt "done"; to_model_content := txt "done";
     to_approval_denial := Some {| ad_grant_id := txt "g"; ad_used := 1; ad_max_runs := 1 |} |}.

Definition sample_env (verdict : ApprovalVerdict) : ToolEnv :=
  {| te_interfere _ := []; te_events _ := Ok tt; te_verdict := verdict; te_has_shadow := false;
     te_shadow_cancelled := false; te_shadow := None; te_now_ms := 1000;
     te_lease_id := txt "lease-1"; te_lease_ttl_ms := None; te_host_policies := None;
     te_fresh_effect_id := 9; te_execute _ := Ok (PreparedEffect sample_output 70);
     te_rollback := Ok tt; te_bound o := o |}.

Definition sample_execution (verdict : ApprovalVerdict) :
    (CoreToolExecution * option ToolExecutionRequest) * Core SpecJournal :=
  execute_published_tool (sample_env verdict) (sample_identity 5) sample_call sample_surface
    admitted_core.

Lemma sample_dispatched : is_Some (sample_execution VerdictAllowed).1.2.
Proof. eexists. vm_compute. reflexivity. Qed.

Lemma sample_refused : (sample_execution (VerdictDenied (txt "no"))).1.2 = None.
Proof. vm_compute. reflexivity. Qed.

Lemma admitted_durable :
  durable_record admitted_core (ti_operation_id (sample_identity 5)) (sample_snapshot 5 Accepted).
Proof.
  apply record_durable; [exact admitted_core_inv|vm_compute; discriminate|exact admitted_accepted].
Qed.

Lemma dispatch_authorized_witness :
  exists rq, (sample_execution VerdictAllowed).1.2 = Some rq /\ tq_call rq = sample_call.
Proof.
  destruct sample_dispatched as [rq Hrq].
  destruct (sample_execution VerdictAllowed) as [[x o] c'] eqn:E. cbn [fst snd] in Hrq. subst o.
  destruct (dispatch_authorized _ _ _ _ _ _ _ _ _ admitted_core_inv admitted_durable eq_refl E)
    as (_ & Hc & _).
  exact (ex_intro _ rq (conj eq_refl Hc)).
Defined.

Lemma dispatch_at_most_once_witness :
  (execute_published_tool (sample_env VerdictAllowed) (sample_identity 5) sample_call
     sample_surface (core_run [CoAdvance 1] (sample_execution VerdictAllowed).2)).1.2 = None.
Proof.
  destruct sample_dispatched as [rq Hrq].
  destruct (sample_execution VerdictAllowed) as [[x o] c'] eqn:E. cbn [fst snd] in *. subst o.
  exact (dispatch_at_most_once _ _ _ _ _ _ _ _ [CoAdvance 1] _ _ _ _ admitted_core_inv
    ltac:(vm_compute; discriminate) E eq_refl).
Defined.

Lemma refusal_settles_witness :
  closed (sample_identity 5) (co_operations (sample_execution (VerdictDenied (txt "no"))).2).
Proof.
  pose proof sample_refused as Hn.
  destruct (sample_execution (VerdictDenied (txt "no"))) as [[x o] c'] eqn:E.
  cbn [fst snd] in *. subst o.
  exact (proj1 (refusal_settles (sample_env (VerdictDenied (txt "no"))) _ _ _ _ _ _ admitted_core_inv (fun _ => eq_refl)
    admitted_accepted E)).
Defined.

Definition failing_env : ToolEnv :=
  {| te_interfere _ := []; te_events k := if k is 1 then Err (Storage (txt "full")) else Ok tt;
     te_verdict := VerdictAllowed; te_has_shadow := false;
     te_shadow_cancelled := false; te_shadow := None; te_now_ms := 1000;
     te_lease_id := txt "lease-1"; te_lease_ttl_ms := None; te_host_policies := None;
     te_fresh_effect_id := 9; te_execute _ := Ok (PreparedEffect sample_output 70);
     te_rollback := Ok tt; te_bound o := o |}.

Lemma publication_all_or_nothing_witness :
  closed (sample_identity 5)
    (co_operations (publish_tool_operation failing_env (sample_identity 5) sample_call
       admitted_core).2).
Proof.
  destruct (publish_tool_operation failing_env (sample_identity 5) sample_call admitted_core)
    as [[p|e] c'] eqn:E; [vm_compute in E; discriminate|].
  exact (publication_all_or_nothing failing_env _ _ _ _ _ admitted_core_inv (fun _ => eq_refl)
    admitted_accepted E).
Defined.

Definition executing_core : Core SpecJournal :=
  (mark_operation_executing_if_current 1 5 (Some 9%N) admitted_core).2.

Lemma executing_core_inv : core_inv executing_core.
Proof.
  unfold executing_core. destruct (mark_operation_executing_if_current _ _ _ _) as [res c] eqn:E.
  by eapply keeps_mark_executing; [apply admitted_core_inv|].
Qed.

Definition sample_request : ToolExecutionRequest :=
  {| tq_run_id := 1; tq_call := sample_call;
     tq_effect_context := Some {| oc_identity := sample_identity 5; oc_effect_id := 9 |} |}.

Lemma execution_result_witness :
  query 5 (co_operations (run_tool (sample_env VerdictAllowed) (sample_identity 5) sample_call None
    (Some 9%N) sample_request executing_core).2) = Found (sample_snapshot 5 (Prepared 9)).
Proof.
  destruct (run_tool (sample_env VerdictAllowed) (sample_identity 5) sample_call None (Some 9%N)
    sample_request executing_core) as [x c'] eqn:E.
  destruct (execution_result (sample_env VerdictAllowed) (sample_identity 5) sample_call None
    (Some 9%N) sample_request executing_core x c' (sample_snapshot 5 (Executing (Some 9%N)))
    (fun _ => eq_refl) executing_core_inv ltac:(vm_compute; reflexivity)
    ltac:(vm_compute; reflexivity) eq_refl E) as [_ [Hf|(_ & _ & _ & _ & Hq)]].
  - exfalso. apply Hf. apply (f_equal (fun p => rg_recovery_required (co_operations p.2))) in E.
    refine (eq_trans (eq_sym E) _). vm_compute. reflexivity.
  - exact Hq.
Defined.

(** The grant and commit theorems applied at concrete inputs: a gate with one process
    grant, and one prepared effect taken through its commit. *)

(** ** One grant: two runs of the tests *)

Definition exec_spec : ToolSpec := {| tp_name := txt "process.run"; tp_risk := RiskProcessExecution |}.

Definition exec_call (args : list text) : ToolCall :=
  {| tl_id := txt "call"; tl_name := txt "process.run";
     tl_arguments := JObject [(txt "argv", JArray (JString <$> args))] |}.

Definition test_call : ToolCall := exec_call [txt "cargo"; txt "test"; txt "-q"].

Definition exec_policies : option (text -> option HostToolPolicy) :=
  Some (fun name => Some {| hp_tool_name := name; hp_binding := BindExecArgv (txt "argv") |}).

Definition exec_grant : StandingGrant := {|
  sg_id := txt "g1"; sg_risk := RiskProcessExecution;
  sg_target := {| gt_workspace_path_prefix := None;
                  gt_exec_argv_prefix := Some [txt "cargo"; txt "test"];
                  gt_shell_command_digest := None |};
  sg_constraint := {| gc_max_content_bytes := None; gc_max_runs := Some 1%N |};
  sg_expires_at_ms := 5000 |}.

Definition granted_gate : TaskApprovalGate := (establish 10 exec_grant gate_new).2.

Lemma granted_ok : establish 10 exec_grant gate_new = (Ok tt, granted_gate).
Proof. vm_compute. reflexivity. Qed.

Lemma granted_order : iterates [txt "g1"] (prune 20 (tg_grants granted_gate)).
Proof.
  assert (Hb : prune 20 (tg_grants granted_gate) =
    {[ txt "g1" := {| ge_grant := exec_grant; ge_runs_used := 0 |} ]}) by (vm_compute; reflexivity).
  rewrite Hb. split; [apply NoDup_singleton|]. intros id. rewrite list_elem_of_singleton. split.
  - intros ->. rewrite lookup_singleton_eq. by eexists.
  - intros [e [<- _]%lookup_singleton_Some]. done.
Qed.

Lemma grant_decision_witness :
  (authorize_with_grant_reason exec_policies 20 [txt "g1"] (Ok Deny) test_call exec_spec granted_gate).1
    = Ok (outcome_of Allow).
Proof.
  destruct (authorize_with_grant_reason exec_policies 20 [txt "g1"] (Ok Deny) test_call exec_spec
    granted_gate) as [res g'] eqn:E.
  destruct (grant_decision exec_policies 20 [txt "g1"] (Ok Deny) test_call exec_spec granted_gate res g'
    ltac:(discriminate) ltac:(vm_compute; discriminate) granted_order E) as [H _].
  refine (proj1 (H _)).
  exists (txt "g1"), {| ge_grant := exec_grant; ge_runs_used := 0 |}.
  split; [split|]; vm_compute; reflexivity.
Defined.

Lemma shadow_within_legacy_witness :
  (authorize_with_grant_reason exec_policies 20 [txt "g1"] (Ok Deny) test_call exec_spec
     (shadow_verdict exec_policies 20 [txt "g1"] test_call exec_spec granted_gate).2).1 = Ok (outcome_of Allow).
Proof.
  destruct (shadow_verdict exec_policies 20 [txt "g1"] test_call exec_spec granted_gate) as [[id why|why] g1] eqn:E;
    [|vm_compute in E; discriminate].
  exact (proj2 (shadow_within_legacy exec_policies 20 [txt "g1"] [txt "g1"] (Ok Deny) test_call exec_spec
    granted_gate id why g1 granted_order granted_order E)).
Defined.

(** The same call twice: the first is paid, the second is not. *)
Definition two_calls : list GateOp := [
  GateAuthorize 20 [txt "g1"] (Ok Deny) test_call exec_spec;
  GateAuthorize 21 [txt "g1"] (Ok Deny) test_call exec_spec ].

Lemma one_grant_order (now : N) (b : gmap text GrantEntry) (e : GrantEntry) :
  prune now b = {[ txt "g1" := e ]} -> iterates [txt "g1"] (prune now b).
Proof.
  intros ->. split; [apply NoDup_singleton|]. intros id. rewrite list_elem_of_singleton. split.
  - intros ->. rewrite lookup_singleton_eq. by eexists.
  - intros [x [<- _]%lookup_singleton_Some]. done.
Qed.

Lemma two_calls_run : well_run exec_policies (txt "g1") two_calls granted_gate.
Proof.
  cbn [well_run two_calls]. split; [by intros []|]. split; [exact granted_order|].
  split; [by intros []|]. split; [|done].
  apply (one_grant_order _ _ {| ge_grant := exec_grant; ge_runs_used := 1 |}). vm_compute. reflexivity.
Qed.

Lemma grant_only_shrinks_witness :
  paid_runs exec_policies (txt "g1") two_calls granted_gate = 1 /\
  (N.of_nat (paid_runs exec_policies (txt "g1") two_calls granted_gate) <= 1)%N.
Proof.
  split; [vm_compute; reflexivity|].
  exact (proj1 (grant_only_shrinks exec_policies 10 exec_grant gate_new tt granted_gate 1 two_calls
    granted_ok eq_refl ltac:(vm_compute; discriminate) two_calls_run)).
Defined.

(** ** A write grant *)

Definition write_grant : StandingGrant := {|
  sg_id := txt "g2"; sg_risk := RiskWorkspaceWrite;
  sg_target := {| gt_workspace_path_prefix := Some (txt "src/"); gt_exec_argv_prefix := None;
                  gt_shell_command_digest := None |};
  sg_constraint := {| gc_max_content_bytes := Some 100%N; gc_max_runs := None |};
  sg_expires_at_ms := 5000 |}.

Definition write_intent : EffectIntent := WorkspaceWrite (txt "src/a.rs") 100.

Definition write_gate : TaskApprovalGate := (establish 10 write_grant gate_new).2.

Lemma write_granted : establish 10 write_grant gate_new = (Ok tt, write_gate).
Proof. vm_compute. reflexivity. Qed.

Lemma grant_envelope_witness :
  inside write_grant (WorkspaceWrite (txt "./src/a.rs") 7).
Proof.
  exact (proj1 (proj2 (grant_envelope 10 write_grant gate_new tt write_gate write_intent
    (WorkspaceWrite (txt "./src/a.rs") 7) write_granted ltac:(vm_compute; reflexivity)
    ltac:(vm_compute; reflexivity)))).
Defined.

(** ** A prepared effect *)

Definition sample_lease : AuthorityLease := {|
  al_lease_id := txt "lease-1"; al_operation_id := 5; al_argument_digest := sample_digest;
  al_operation_generation := 1; al_intent := write_intent; al_grant_id := Some (txt "g2");
  al_decision := Allow; al_issued_at_ms := 900; al_expires_at_ms := 2000;
  al_policy_revision := None; al_binding_epoch := Some 4%N |}.

(** Admitted, leased, executing, prepared. *)
Definition prepared_core : Core SpecJournal :=
  let c := (operations (record_lease 5 sample_lease) admitted_core).2 in
  let c := (mark_operation_executing_if_current 1 5 (Some 9%N) c).2 in
  (operations (mark_prepared 5 9) c).2.

Lemma core_keeps_step {A} (m : M (Core SpecJournal) AgentError A) c :
  core_keeps m -> core_inv c -> core_inv (m c).2.
Proof. intros Hm Hc. destruct (m c) as [x c'] eqn:E. by destruct (Hm _ _ _ Hc E). Qed.

Lemma prepared_core_inv : core_inv prepared_core.
Proof.
  apply core_keeps_step; [apply keeps_op_prepared|].
  apply core_keeps_step; [apply keeps_mark_executing|].
  apply core_keeps_step; [apply keeps_op_lease|]. exact admitted_core_inv.
Qed.

Lemma prepared_record :
  rg_records (co_operations prepared_core) !! 5%N =
  Some {| os_identity := sample_identity 5; os_state := Prepared 9 |}.
Proof. vm_compute. reflexivity. Qed.

Definition commit_env (reserve : AgentResult text) : CommitEnv := {|
  ke_interfere _ := []; ke_now_ms := 1000; ke_binding_epoch := Some (fun _ => Some 4%N);
  ke_rollback := Ok tt; ke_reserve := reserve;
  ke_dispatch := ReceiptApplied Durable (Some (txt "sha256:1"));
  ke_ack := Err (Storage (txt "broker journal is full")) |}.

Definition commit_request : EffectCommitRequest := {|
  cr_run_id := 1; cr_operation_id := 5; cr_effect_id := 9; cr_argument_digest := sample_digest;
  cr_generation := 1; cr_lease := Some sample_lease;
  cr_writes := Some [{| aw_path := txt "./src//a.rs"; aw_bytes := 70 |}] |}.

Definition committed : (EffectCommitDisposition * EffectAction) * Core SpecJournal :=
  commit_effect (commit_env (Ok (txt "r1"))) commit_request prepared_core.

Lemma committed_dispatched : committed.1.2 = Dispatched.
Proof. vm_compute. reflexivity. Qed.

Lemma prepared_journal : rg_journal (co_operations prepared_core) <> None.
Proof. vm_compute. discriminate. Qed.

Lemma commit_authorized_witness :
  exists l, cr_lease commit_request = Some l /\ al_decision l = Allow.
Proof.
  pose proof committed_dispatched as Hd. unfold committed in Hd.
  destruct (commit_effect (commit_env (Ok (txt "r1"))) commit_request prepared_core) as [[d a] c'] eqn:E.
  cbn [fst snd] in Hd. subst a.
  destruct (commit_authorized _ _ _ _ _ prepared_core_inv prepared_journal E)
    as (l & c0 & i & (Hl & Ha & _) & _).
  exact (ex_intro _ l (conj Hl Ha)).
Defined.

Lemma commit_at_most_once_witness :
  (commit_effect (commit_env (Ok (txt "r2"))) commit_request (core_run [CoAdvance 1] committed.2)).1.2
    = RolledBack.
Proof.
  pose proof committed_dispatched as Hd. unfold committed in *.
  destruct (commit_effect (commit_env (Ok (txt "r1"))) commit_request prepared_core) as [[d a] c'] eqn:E.
  cbn [fst snd] in *. subst a.
  exact (commit_at_most_once _ _ _ _ _ [CoAdvance 1] (commit_env (Ok (txt "r2"))) commit_request
    prepared_core_inv prepared_journal E eq_refl).
Defined.


Definition no_broker : AgentResult text := Err (Storage (txt "broker journal is full")).

Lemma undispatched_commit_closes_witness :
  let c' := (commit_effect (commit_env no_broker) commit_request prepared_core).2 in
  rg_recovery_required (co_operations c') = None /\
  rg_records (co_operations c') !! 5%N =
    Some {| os_identity := sample_identity 5; os_state := CommitStarted 9 |}.
Proof.
  assert (Hd : (commit_effect (commit_env no_broker) commit_request prepared_core).1
    = (Rejected BrokerUnavailable, RolledBack)) by (vm_compute; reflexivity).
  cbv zeta. destruct (commit_effect (commit_env no_broker) commit_request prepared_core) as [da c'] eqn:E.
  cbn [fst snd] in *. subst da.
  destruct (undispatched_commit_closes (commit_env no_broker) commit_request prepared_core (sample_identity 5)
    (Rejected BrokerUnavailable) c' (fun _ => eq_refl) prepared_core_inv eq_refl eq_refl prepared_record E)
    as [[Hne _]|(_ & _ & Hh & Hr)]; [destruct (Hne eq_refl)|].
  exact (conj Hh Hr).
Defined.

Definition rollback_request : EffectRollbackRequest := {|
  rr_run_id := 1; rr_operation_id := 5; rr_effect_id := Some 9%N; rr_argument_digest := sample_digest;
  rr_reason := txt "turn cancelled" |}.

Lemma rollback_settles_witness :
  exists i, durable_record (rollback_effect (commit_env no_broker) rollback_request prepared_core).2 5
    {| os_identity := i; os_state := Terminal (Some 9%N) CancelledBeforeCommit |}.
Proof.
  assert (Hok : is_Ok (rollback_effect (commit_env no_broker) rollback_request prepared_core).1 = true)
    by (vm_compute; reflexivity).
  destruct (rollback_effect (commit_env no_broker) rollback_request prepared_core) as [res c'] eqn:E.
  cbn [fst snd] in *. destruct res as [u|e]; [|discriminate].
  destruct (rollback_settles _ _ _ _ _ prepared_core_inv prepared_journal E) as (_ & _ & H).
  destruct (H 9%N eq_refl) as (i & _ & Hd). exact (ex_intro _ i Hd).
Defined.

Lemma granted_commit_contained_witness :
  exists parts, relative_components (txt "./src//a.rs") = Some parts /\ [txt "src"] `prefix_of` parts.
Proof.
  pose proof committed_dispatched as Hd. unfold committed in Hd.
  destruct (commit_effect (commit_env (Ok (txt "r1"))) commit_request prepared_core) as [[d a] c'] eqn:E.
  cbn [fst snd] in Hd. subst a.
  destruct (granted_commit_contained _ _ _ _ _ 10 write_grant gate_new tt write_gate sample_lease
    prepared_core_inv E write_granted eq_refl eq_refl ltac:(vm_compute; reflexivity))
    as (_ & prefix & pre & Hp & Hpre & _ & H).
  injection Hp as <-. vm_compute in Hpre. injection Hpre as <-.
  exact (H _ _ eq_refl (list_elem_of_here _ _)).
Defined.

(** ** The interactive gate *)

Definition answered_steps : list InteractiveStep := [
  AuthorizeStarts 1 test_call exec_spec; AuthorizeMoves 1; AuthorizeMoves 1;
  RespondStarts 0 1 Allow; RespondMoves 0; RespondStarts 1 1 Deny; RespondMoves 0;
  AuthorizeSelects 1 DecisionArrives; AuthorizeMoves 1 ].

Definition answered : Interactive :=
  default interactive_new (interactive_run answered_steps interactive_new).

Lemma answered_run : interactive_run answered_steps interactive_new = Some answered.
Proof. vm_compute. reflexivity. Qed.

Definition asked : ApprovalRequest :=
  {| aq_request_id := 1; aq_call := test_call; aq_spec := exec_spec |}.

Lemma interactive_answers_witness :
  exists k r, in_responders answered !! k = Some r /\ rp_request_id r = 1%N /\ rp_decision r = Allow.
Proof.
  destruct (interactive_answers answered_steps answered answered_run) as [H _].
  destruct (H 1%N {| cl_request := asked; cl_phase := Returned (Ok Allow) |} Allow
    ltac:(vm_compute; reflexivity) eq_refl) as [[Hro _]|(k & r & Hr & Hid & Hd & _)]; [discriminate|].
  exact (ex_intro _ k (ex_intro _ r (conj Hr (conj Hid Hd)))).
Defined.

Definition waiting_steps : list InteractiveStep := take 3 answered_steps.

Definition waiting : Interactive :=
  default interactive_new (interactive_run waiting_steps interactive_new).

Lemma interactive_call_ends_witness :
  exists step s', owner step = Some 1%N /\ step <> AuthorizeSelects 1 DecisionArrives /\
    interactive_step step waiting = Some s'.
Proof.
  assert (Hrun : interactive_run waiting_steps interactive_new = Some waiting) by (vm_compute; reflexivity).
  destruct (interactive_call_ends waiting_steps waiting 1%N {| cl_request := asked; cl_phase := Waiting |}
    Hrun ltac:(vm_compute; reflexivity)) as [_ [[r Hr]|H]]; [discriminate|exact H].
Defined.

Lemma late_subscriber_misses_request_witness :
  exists s, in_pending s = [asked] /\ is_Some (in_subscribed s) /\ shown s = [].
Proof.
  pose proof (late_subscriber_misses_request 1 test_call exec_spec ltac:(discriminate)) as H.
  apply Forall_inv in H. destruct H as (s & _ & _ & Hp & _ & Hs & Hn).
  exact (ex_intro _ s (conj Hp (conj Hs Hn))).
Defined.
