(* ===== verification/Eol.v ===== *)
(** Line endings of edited text and exact anchors (tool-runtime/tools/mod.rs).

    A [str] is its UTF-8 bytes here: CR and LF are ASCII, so they never occur inside a
    longer code point, and offsets and lengths are the byte offsets of the code. An
    anchor is never empty ([edit.replace] and [edit.patch] refuse one). *)

From S2P Require Import Prelude Text.

Abbreviation utf8 := (list N).

Definition CR : N := 13.
Definition LF : N := 10.

(** ** [LineEnding] *)

Inductive LineEnding : Type := NoEnding | LfEnding | CrLfEnding | MixedEnding.

#[export] Instance LineEnding_eq_dec : EqDecision LineEnding.
Proof. solve_decision. Defined.

(** The loop of [detect] and its counters. *)
Fixpoint count_endings (text : utf8) (lf crlf lone_cr : nat) : nat * nat * nat :=
  match text with
  | [] => (lf, crlf, lone_cr)
  | c :: rest =>
      if (c =? CR)%N
      then
        match rest with
        | d :: rest' =>
            if (d =? LF)%N then count_endings rest' lf (crlf + 1) lone_cr
            else count_endings rest lf crlf (lone_cr + 1)
        | [] => (lf, crlf, lone_cr + 1)
        end
      else if (c =? LF)%N then count_endings rest (lf + 1) crlf lone_cr
      else count_endings rest lf crlf lone_cr
  end.

Definition detect (text : utf8) : LineEnding :=
  match count_endings text 0 0 0 with
  | (0, 0, 0) => NoEnding
  | (0, _, 0) => CrLfEnding
  | (_, 0, 0) => LfEnding
  | _ => MixedEnding
  end.

(** [text.replace("\r\n", "\n")]. *)
Fixpoint crlf_to_lf (text : utf8) : utf8 :=
  match text with
  | [] => []
  | c :: rest =>
      if (c =? CR)%N
      then
        match rest with
        | d :: rest' => if (d =? LF)%N then LF :: crlf_to_lf rest' else c :: crlf_to_lf rest
        | [] => [c]
        end
      else c :: crlf_to_lf rest
  end.

(** [text.replace('\n', "\r\n")]. *)
Fixpoint lf_to_crlf (text : utf8) : utf8 :=
  match text with
  | [] => []
  | c :: rest => if (c =? LF)%N then CR :: LF :: lf_to_crlf rest else c :: lf_to_crlf rest
  end.

Fixpoint contains_crlf (text : utf8) : bool :=
  match text with
  | c :: ((d :: _) as rest) => ((c =? CR) && (d =? LF))%N || contains_crlf rest
  | _ => false
  end.

Definition contains_lf (text : utf8) : bool := existsb (fun c => c =? LF)%N text.

Definition normalize_edit_line_endings (text : utf8) (target : LineEnding) : utf8 :=
  match target with
  | CrLfEnding =>
      if contains_lf text && negb (bool_decide (detect text = CrLfEnding))
      then lf_to_crlf (crlf_to_lf text)
      else text
  | LfEnding => if contains_crlf text then crlf_to_lf text else text
  | NoEnding | MixedEnding => text
  end.

Definition canonical_eol (text : utf8) : utf8 :=
  if contains_crlf text then crlf_to_lf text else text.

Fixpoint contains_lone_cr (text : utf8) : bool :=
  match text with
  | [] => false
  | c :: rest =>
      ((c =? CR)%N && negb (match rest with d :: _ => (d =? LF)%N | [] => false end))
      || contains_lone_cr rest
  end.

(** ** Exact matches *)

Record ExactMatch : Type := {
  em_start : nat;
  em_end : nat;
  em_count : nat;
}.

Inductive ExactMatchError : Type :=
| NoMatch (count : nat)
| Ambiguous (count : nat).

Fixpoint is_prefix (needle text : utf8) : bool :=
  match needle, text with
  | [], _ => true
  | c :: needle', d :: text' => (c =? d)%N && is_prefix needle' text'
  | _ :: _, [] => false
  end.

(** [str::match_indices]: the starts of the leftmost non-overlapping matches; [skip]
    bytes belong to the match before. *)
Fixpoint match_from (needle text : utf8) (pos skip : nat) : list nat :=
  match text with
  | [] => []
  | _ :: text' =>
      match skip with
      | S skip' => match_from needle text' (pos + 1) skip'
      | O =>
          if is_prefix needle text
          then pos :: match_from needle text' (pos + 1) (length needle - 1)
          else match_from needle text' (pos + 1) 0
      end
  end.

Definition match_indices (needle text : utf8) : list nat := match_from needle text 0 0.

(** The loop keeps the selected match and the count. *)
Fixpoint select_match (starts : list nat) (size : nat) (occurrence : option nat) (count : nat)
    (selected : option (nat * nat)) : option (nat * nat) * nat :=
  match starts with
  | [] => (selected, count)
  | start :: starts' =>
      let count := count + 1 in
      let selected :=
        match occurrence with
        | Some requested => if requested =? count then Some (start, start + size) else selected
        | None => if count =? 1 then Some (start, start + size) else selected
        end in
      select_match starts' size occurrence count selected
  end.

Definition exact_match (text needle : utf8) (occurrence : option nat) :
    result ExactMatch ExactMatchError :=
  let '(selected, count) := select_match (match_indices needle text) (length needle) occurrence 0 None in
  match occurrence, selected, count with
  | Some requested, Some (start, stop), _ =>
      if 0 <? requested then Ok {| em_start := start; em_end := stop; em_count := count |}
      else Err (NoMatch count)
  | Some _, None, _ => Err (NoMatch count)
  | None, None, 0 => Err (NoMatch count)
  | None, Some (start, stop), 1 => Ok {| em_start := start; em_end := stop; em_count := count |}
  | None, _, _ => Err (Ambiguous count)
  end.

(** ** From canonical offsets back to the text *)

Inductive EolStyle : Type := LfStyle | CrLfStyle.

#[export] Instance EolStyle_eq_dec : EqDecision EolStyle.
Proof. solve_decision. Defined.

Definition style_len (style : EolStyle) : nat :=
  match style with LfStyle => 1 | CrLfStyle => 2 end.

Definition style_bytes (style : EolStyle) : utf8 :=
  match style with LfStyle => [LF] | CrLfStyle => [CR; LF] end.

(** [CanonicalOffsetMapper], with the bytes it has not passed. *)
Record OffsetMapper : Type := {
  mp_rest : utf8;
  mp_raw : nat;
  mp_canonical : nat;
  mp_last_eol : option EolStyle;
}.

Definition mapper_new (text : utf8) : OffsetMapper :=
  {| mp_rest := text; mp_raw := 0; mp_canonical := 0; mp_last_eol := None |}.

Fixpoint advance (rest : utf8) (raw canonical : nat) (last_eol : option EolStyle) (target : nat) :
    OffsetMapper :=
  let stop := {| mp_rest := rest; mp_raw := raw; mp_canonical := canonical; mp_last_eol := last_eol |} in
  match rest with
  | [] => stop
  | c :: rest1 =>
      if canonical <? target
      then
        let one := advance rest1 (raw + 1) (canonical + 1)
                     (if (c =? LF)%N then Some LfStyle else last_eol) target in
        match rest1 with
        | d :: rest2 =>
            if ((c =? CR) && (d =? LF))%N
            then advance rest2 (raw + 2) (canonical + 1) (Some CrLfStyle) target
            else one
        | [] => one
        end
      else stop
  end.

Definition advance_to (target : nat) (m : OffsetMapper) : OffsetMapper :=
  advance (mp_rest m) (mp_raw m) (mp_canonical m) (mp_last_eol m) target.

Definition slice (text : utf8) (start stop : nat) : utf8 := take (stop - start) (drop start text).

Definition needs_logical_eol_match (needle : utf8) (target : LineEnding) : bool :=
  bool_decide (target = MixedEnding) || (bool_decide (target = CrLfEnding) && contains_lone_cr needle).

Definition exact_edit_match (text needle : utf8) (target : LineEnding) (occurrence : option nat) :
    result ExactMatch ExactMatchError :=
  if negb (needs_logical_eol_match needle target) then exact_match text needle occurrence
  else
    match exact_match (canonical_eol text) (canonical_eol needle) occurrence with
    | Err e => Err e
    | Ok found =>
        let mapper := advance_to (em_start found) (mapper_new text) in
        let start := mp_raw mapper in
        let mapper := advance_to (em_end found) mapper in
        Ok {| em_start := start; em_end := mp_raw mapper; em_count := em_count found |}
    end.

(** ** Line breaks of a replacement *)

Record EolToken : Type := {
  et_start : nat;
  et_end : nat;
  et_style : EolStyle;
}.

(** [EolTokens], from an index on. *)
Fixpoint eol_tokens_from (index : nat) (text : utf8) : list EolToken :=
  match text with
  | [] => []
  | c :: rest =>
      let one :=
        if (c =? LF)%N
        then {| et_start := index; et_end := index + 1; et_style := LfStyle |} :: eol_tokens_from (index + 1) rest
        else eol_tokens_from (index + 1) rest in
      match rest with
      | d :: rest' =>
          if ((c =? CR) && (d =? LF))%N
          then {| et_start := index; et_end := index + 2; et_style := CrLfStyle |}
                 :: eol_tokens_from (index + 2) rest'
          else one
      | [] => one
      end
  end.

Definition eol_tokens (text : utf8) : list EolToken := eol_tokens_from 0 text.

(** The style of the next line break: that of the matched one, then of the last one,
    then the neighbour's, then its own. *)
Definition select_style (matched_eols : list EolStyle) (last_matched fallback : option EolStyle)
    (own : EolStyle) : EolStyle :=
  match matched_eols, last_matched, fallback with
  | style :: _, _, _ => style
  | [], Some style, _ => style
  | [], None, Some style => style
  | [], None, None => own
  end.

Fixpoint metrics_loop (tokens : list EolToken) (matched_eols : list EolStyle)
    (last_matched fallback : option EolStyle) (size : nat) (changed : bool) : nat * bool :=
  match tokens with
  | [] => (size, changed)
  | token :: tokens' =>
      let selected := select_style matched_eols last_matched fallback (et_style token) in
      metrics_loop tokens' (drop 1 matched_eols) (Some selected) fallback
        (size - style_len (et_style token) + style_len selected)
        (changed || negb (bool_decide (selected = et_style token)))
  end.

Definition replacement_metrics (replacement matched : utf8) (fallback : option EolStyle) : nat * bool :=
  metrics_loop (eol_tokens replacement) (et_style <$> eol_tokens matched) None fallback
    (length replacement) false.

Fixpoint reconstruct_loop (replacement : utf8) (tokens : list EolToken) (matched_eols : list EolStyle)
    (last_matched fallback : option EolStyle) (cursor : nat) (output : utf8) (changed : bool) : utf8 * bool :=
  match tokens with
  | [] => (output ++ drop cursor replacement, changed)
  | token :: tokens' =>
      let selected := select_style matched_eols last_matched fallback (et_style token) in
      reconstruct_loop replacement tokens' (drop 1 matched_eols) (Some selected) fallback (et_end token)
        (output ++ slice replacement cursor (et_start token) ++ style_bytes selected)
        (changed || negb (bool_decide (selected = et_style token)))
  end.

Definition push_reconstructed_replacement (output replacement matched : utf8)
    (fallback : option EolStyle) : utf8 * bool :=
  reconstruct_loop replacement (eol_tokens replacement) (et_style <$> eol_tokens matched) None fallback
    0 output false.

Definition preceding_eol (text : utf8) (raw_offset : nat) : option EolStyle :=
  et_style <$> last (eol_tokens (take raw_offset text)).

Definition following_eol (text : utf8) (raw_offset : nat) : option EolStyle :=
  et_style <$> head (eol_tokens (drop raw_offset text)).

Definition option_or {A} (a b : option A) : option A := match a with Some _ => a | None => b end.

Definition adapt_edit_replacement (text : utf8) (found : ExactMatch) (replacement : utf8)
    (target : LineEnding) : utf8 :=
  if negb (bool_decide (target = MixedEnding)) || negb (contains_lf replacement) then replacement
  else
    let matched := slice text (em_start found) (em_end found) in
    let fallback := option_or (preceding_eol text (em_start found)) (following_eol text (em_end found)) in
    let '(rebuilt, changed) := push_reconstructed_replacement [] replacement matched fallback in
    if changed then rebuilt else replacement.

(** Facts of line endings: canonical text, the offset mapper, matches, and rebuilt
    replacements. *)

(** ** Reading a text break by break *)

Definition crlf_at (text : utf8) : bool :=
  match text with c :: d :: _ => ((c =? CR) && (d =? LF))%N | _ => false end.

Lemma eol_ind (P : utf8 -> Prop) :
  P [] -> (forall rest, P rest -> P (CR :: LF :: rest)) ->
  (forall c rest, crlf_at (c :: rest) = false -> P rest -> P (c :: rest)) -> forall text, P text.
Proof.
  intros Hnil Hcrlf Hone text.
  assert (H : forall n t, length t <= n -> P t); [|by apply (H (length text))].
  induction n as [|n IH]; intros [|c t] Hlen; cbn in Hlen; try lia; [done|done|].
  destruct (crlf_at (c :: t)) eqn:E.
  - destruct t as [|d t]; [done|]. cbn in E. apply andb_true_iff in E as [->%N.eqb_eq ->%N.eqb_eq].
    apply Hcrlf, IH. cbn in Hlen. lia.
  - apply Hone; [done|]. apply IH. lia.
Qed.

(** How each function reads a byte that does not start a CRLF. *)
Lemma crlf_to_lf_one c rest : crlf_at (c :: rest) = false -> crlf_to_lf (c :: rest) = c :: crlf_to_lf rest.
Proof.
  cbn. destruct (c =? CR)%N eqn:E; [|done]. destruct rest as [|d rest]; [done|]. cbn. by intros ->.
Qed.

Lemma tokens_one i c rest :
  crlf_at (c :: rest) = false ->
  eol_tokens_from i (c :: rest) =
    (if (c =? LF)%N then [ {| et_start := i; et_end := i + 1; et_style := LfStyle |} ] else [])
      ++ eol_tokens_from (i + 1) rest.
Proof.
  intros H. cbn. destruct rest as [|d rest]; [by destruct (c =? LF)%N|]. cbn in H. rewrite H.
  by destruct (c =? LF)%N.
Qed.

Lemma tokens_crlf i rest :
  eol_tokens_from i (CR :: LF :: rest) =
    {| et_start := i; et_end := i + 2; et_style := CrLfStyle |} :: eol_tokens_from (i + 2) rest.
Proof. done. Qed.

Lemma contains_crlf_one c rest : crlf_at (c :: rest) = false -> contains_crlf (c :: rest) = contains_crlf rest.
Proof. destruct rest as [|d rest]; [done|]. cbn. by intros ->. Qed.

Lemma crlf_to_lf_id text : contains_crlf text = false -> crlf_to_lf text = text.
Proof.
  induction text as [|rest IH|c rest Hc IH] using eol_ind; [done|done|].
  rewrite contains_crlf_one, crlf_to_lf_one by done. intros H. by rewrite IH.
Qed.

Lemma canonical_eol_eq text : canonical_eol text = crlf_to_lf text.
Proof. unfold canonical_eol. destruct (contains_crlf text) eqn:E; [done|]. by rewrite crlf_to_lf_id. Qed.

Lemma lf_to_crlf_head text c rest : lf_to_crlf text = c :: rest -> c <> LF.
Proof. destruct text as [|d t]; [done|]. cbn. by destruct (N.eqb_spec d LF); intros [= <- _]. Qed.

Lemma crlf_lf_inverse text : crlf_to_lf (lf_to_crlf text) = text.
Proof.
  induction text as [|c text IH]; [done|]. cbn [lf_to_crlf]. destruct (N.eqb_spec c LF) as [->|Hne].
  - cbn. by rewrite IH.
  - rewrite crlf_to_lf_one, IH; [done|]. destruct (lf_to_crlf text) as [|d t] eqn:E; [done|].
    cbn. apply lf_to_crlf_head in E. destruct (N.eqb_spec d LF); [done|]. by rewrite andb_false_r.
Qed.

(** A text without CR is its own canonical form, and so is every part of it. *)
Lemma no_cr_canonical text : CR ∉ text -> crlf_to_lf text = text.
Proof.
  intros H. apply crlf_to_lf_id. induction text as [|c text IH]; [done|].
  apply not_elem_of_cons in H as [Hc Ht]. cbn. destruct text as [|d text]; [done|].
  rewrite IH by done. destruct (N.eqb_spec c CR); [done|]. done.
Qed.

Lemma count_no_cr text lf crlf cr :
  (count_endings text lf crlf cr).1.2 = 0 -> (count_endings text lf crlf cr).2 = 0 ->
  crlf = 0 /\ cr = 0 /\ CR ∉ text.
Proof.
  revert lf crlf cr. induction text as [|rest IH|c rest Hc IH] using eol_ind; intros lf crlf cr.
  - cbn. intros -> ->. split_and!; [done|done|]. apply not_elem_of_nil.
  - cbn. intros H1 H2. destruct (IH _ _ _ H1 H2) as (? & _ & _). lia.
  - cbn [count_endings]. destruct (N.eqb_spec c CR) as [->|Hne].
    + destruct rest as [|d rest]; [cbn; lia|]. cbn in Hc. rewrite Hc. intros H1 H2.
      destruct (IH _ _ _ H1 H2) as (_ & ? & _). lia.
    + destruct (c =? LF)%N; intros H1 H2; destruct (IH _ _ _ H1 H2) as (-> & -> & Hr);
        (split_and!; [done|done|]); by apply not_elem_of_cons.
Qed.

Lemma detect_lf_no_cr text : detect text = LfEnding -> CR ∉ text.
Proof.
  unfold detect. intros H. pose proof (count_no_cr text 0 0 0) as Hc.
  destruct (count_endings text 0 0 0) as [[lf crlf] cr]. cbn in Hc.
  destruct lf, crlf, cr; try done; by apply Hc.
Qed.

(** What normalization keeps: the text up to the encoding of its line breaks, when no
    lone CR stands before a CRLF. *)
Definition clean (text : utf8) : bool := negb (contains_crlf (crlf_to_lf text)).

Lemma clean_idemp text : clean text = true -> crlf_to_lf (crlf_to_lf text) = crlf_to_lf text.
Proof. intros H%negb_true_iff. by apply crlf_to_lf_id. Qed.

Lemma normalize_canonical text target :
  clean text = true \/ target <> LfEnding ->
  crlf_to_lf (normalize_edit_line_endings text target) = crlf_to_lf text.
Proof.
  intros H. destruct target; cbn [normalize_edit_line_endings]; [done| | |done].
  - destruct (contains_crlf text); [|done]. destruct H; [by apply clean_idemp|done].
  - destruct (_ && _); [|done]. apply crlf_lf_inverse.
Qed.

(** ** The offset mapper *)

Lemma advance_one c rest raw canonical last_eol target :
  crlf_at (c :: rest) = false -> canonical < target ->
  advance (c :: rest) raw canonical last_eol target =
    advance rest (raw + 1) (canonical + 1) (if (c =? LF)%N then Some LfStyle else last_eol) target.
Proof.
  intros H Hlt. cbn [advance]. rewrite (proj2 (Nat.ltb_lt _ _)) by done.
  destruct rest as [|d rest]; [done|]. cbn in H. by rewrite H.
Qed.

Lemma advance_crlf rest raw canonical last_eol target :
  canonical < target ->
  advance (CR :: LF :: rest) raw canonical last_eol target =
    advance rest (raw + 2) (canonical + 1) (Some CrLfStyle) target.
Proof. intros Hlt. cbn [advance]. by rewrite (proj2 (Nat.ltb_lt _ _)). Qed.

Lemma advance_stop rest raw canonical last_eol target :
  target <= canonical ->
  advance rest raw canonical last_eol target =
    {| mp_rest := rest; mp_raw := raw; mp_canonical := canonical; mp_last_eol := last_eol |}.
Proof. intros Hle. destruct rest; cbn [advance]; [done|]. by rewrite (proj2 (Nat.ltb_ge _ _)). Qed.

(** The mapper consumes whole line breaks, and exactly what the canonical offset says. *)
Lemma advance_spec rest raw canonical last_eol target :
  canonical <= target <= canonical + length (crlf_to_lf rest) ->
  exists used, let m := advance rest raw canonical last_eol target in
    rest = used ++ mp_rest m /\ mp_raw m = raw + length used /\ mp_canonical m = target /\
    crlf_to_lf rest = crlf_to_lf used ++ crlf_to_lf (mp_rest m) /\
    length (crlf_to_lf used) = target - canonical.
Proof.
  revert raw canonical last_eol. induction rest as [|rest IH|c rest Hc IH] using eol_ind; intros raw canonical last_eol Hin.
  - cbn in Hin. exists []. cbn. split_and!; [done|lia|lia|done|lia].
  - destruct (decide (canonical < target)) as [Hlt|Hge].
    + rewrite advance_crlf by done. change (crlf_to_lf (CR :: LF :: rest)) with (LF :: crlf_to_lf rest) in *.
      cbn [length] in Hin.
      destruct (IH (raw + 2) (canonical + 1) (Some CrLfStyle) ltac:(lia)) as (used & H1 & H2 & H3 & H4 & H5).
      exists (CR :: LF :: used). split_and!; [by rewrite H1 at 1|cbn [length]; lia|done| |].
      * change (crlf_to_lf (CR :: LF :: used)) with (LF :: crlf_to_lf used). by rewrite H4 at 1.
      * change (crlf_to_lf (CR :: LF :: used)) with (LF :: crlf_to_lf used). cbn [length]. lia.
    + rewrite advance_stop by lia. exists []. cbn [app length mp_rest mp_raw mp_canonical crlf_to_lf].
      split_and!; [done|lia|lia|done|lia].
  - destruct (decide (canonical < target)) as [Hlt|Hge].
    + rewrite advance_one, crlf_to_lf_one in * by done. cbn [length] in Hin.
      destruct (IH (raw + 1) (canonical + 1) (if (c =? LF)%N then Some LfStyle else last_eol) ltac:(lia))
        as (used & H1 & H2 & H3 & H4 & H5).
      set (m := advance rest _ _ _ _) in *.
      assert (Hc' : crlf_at (c :: used) = false).
      { destruct used as [|d used]; [done|]. rewrite H1 in Hc. exact Hc. }
      exists (c :: used). rewrite crlf_to_lf_one by done.
      split_and!; [by rewrite H1 at 1|cbn [length]; lia|done|by rewrite H4 at 1|cbn [length]; lia].
    + rewrite advance_stop by lia. exists []. cbn [app length mp_rest mp_raw mp_canonical].
      split_and!; [done|lia|lia|done|cbn; lia].
Qed.

(** ** Matches *)

Lemma is_prefix_iff needle text : is_prefix needle text = true <-> needle `prefix_of` text.
Proof.
  revert text. induction needle as [|c needle IH]; intros [|d text]; cbn.
  - split; [intros _; apply prefix_nil|done].
  - split; [intros _; apply prefix_nil|done].
  - split; [done|]. by intros ?%prefix_nil_inv.
  - rewrite andb_true_iff, N.eqb_eq, IH. split.
    + intros [-> H]. by apply prefix_cons.
    + intros [k Hk]. injection Hk as -> ->. split; [done|]. by exists k.
Qed.

(** [needle] occurs in [text] at [q]. *)
Definition occurs (needle text : utf8) (q : nat) : Prop := needle `prefix_of` drop q text /\ q <= length text.

(** Starts in order, each match after the one before. *)
Fixpoint disjoint_from (low : nat) (starts : list nat) (size : nat) : Prop :=
  match starts with
  | [] => True
  | start :: starts' => low <= start /\ disjoint_from (start + size) starts' size
  end.

Lemma match_from_skip needle text pos skip :
  skip <= length text -> match_from needle text pos skip = match_from needle (drop skip text) (pos + skip) 0.
Proof.
  revert pos skip. induction text as [|c text IH]; intros pos [|skip] Hle; cbn [length] in Hle.
  - by rewrite Nat.add_0_r.
  - lia.
  - by rewrite Nat.add_0_r.
  - cbn [match_from drop]. rewrite IH by lia. f_equal. lia.
Qed.

Lemma occurs_cons needle c text q : occurs needle (c :: text) (S q) <-> occurs needle text q.
Proof. unfold occurs. cbn [drop length]. naive_solver lia. Qed.

Lemma match_from_spec needle text pos :
  needle <> [] ->
  disjoint_from pos (match_from needle text pos 0) (length needle) /\
  Forall (fun p => pos <= p /\ occurs needle text (p - pos) /\ p - pos + length needle <= length text)
    (match_from needle text pos 0) /\
  forall q, occurs needle text q -> exists p, p ∈ match_from needle text pos 0 /\
    p <= pos + q < p + length needle.
Proof.
  intros Hne. assert (Hsz : 0 < length needle) by (destruct needle; cbn; [done|lia]).
  remember (length text) as n eqn:Hn. revert text pos Hn.
  induction n as [n IH] using lt_wf_ind. intros [|c text] pos Hn.
  - cbn. split; [done|]. split; [constructor|]. intros q [Hp _].
    rewrite drop_nil in Hp. by apply prefix_nil_inv in Hp.
  - cbn [match_from]. destruct (is_prefix needle (c :: text)) eqn:Ep.
    + apply is_prefix_iff in Ep. pose proof (prefix_length _ _ Ep) as Hlen. cbn [length] in Hlen, Hn.
      rewrite match_from_skip by lia.
      replace (pos + 1 + (length needle - 1)) with (pos + length needle) by lia.
      destruct (IH (length (drop (length needle - 1) text)) ltac:(rewrite length_drop; lia) _
        (pos + length needle) eq_refl) as (Hd & Hf & Hall).
      assert (Hdrop : forall q, occurs needle (drop (length needle - 1) text) q ->
          occurs needle (c :: text) (q + length needle)).
      { intros q [Hq Hle]. split.
        - rewrite drop_drop in Hq. replace (q + length needle) with (S (length needle - 1 + q)) by lia. exact Hq.
        - rewrite length_drop in Hle. cbn. lia. }
      split; [split; [done|exact Hd]|]. split.
      * constructor.
        -- split; [done|]. rewrite Nat.sub_diag. split; [split; [done|lia]|cbn; lia].
        -- eapply Forall_impl; [exact Hf|]. intros p (H1 & H2 & H3). split; [lia|].
           apply Hdrop in H2. replace (p - (pos + length needle) + length needle) with (p - pos) in H2 by lia.
           split; [done|]. rewrite length_drop in H3. cbn [length]. lia.
      * intros q Hq. destruct (decide (q < length needle)).
        -- exists pos. split; [by left|lia].
        -- destruct (Hall (q - length needle)) as (p & Hp & Hin).
           { destruct Hq as [Hq Hle]. split.
             - rewrite drop_drop. replace (length needle - 1 + (q - length needle)) with (q - 1) by lia.
               destruct q; [lia|]. cbn in Hq. by replace (S q - 1) with q by lia.
             - rewrite length_drop. cbn in Hle. lia. }
           exists p. split; [by right|lia].
    + cbn [length] in Hn. destruct (IH (length text) ltac:(lia) text (pos + 1) eq_refl) as (Hd & Hf & Hall).
      split; [|split].
      * destruct (match_from needle text (pos + 1) 0) as [|p ps]; [done|]. destruct Hd as [Hd1 Hd2].
        split; [lia|done].
      * eapply Forall_impl; [exact Hf|]. intros p (H1 & H2 & H3). split; [lia|].
        replace (p - pos) with (S (p - (pos + 1))) by lia. split; [by apply occurs_cons|cbn [length]; lia].
      * intros [|q] Hq.
        -- destruct Hq as [Hq _]. cbn in Hq. apply is_prefix_iff in Hq. congruence.
        -- apply occurs_cons in Hq. destruct (Hall q Hq) as (p & Hp & Hin). exists p. split; [done|lia].
Qed.

(** A match, cut out of its text. *)
Lemma occurs_split needle text q :
  occurs needle text q -> q + length needle <= length text ->
  text = take q text ++ needle ++ drop (q + length needle) text /\ slice text q (q + length needle) = needle.
Proof.
  intros [[k Hk] Hq] Hle. assert (Hs : drop q text = needle ++ drop (q + length needle) text).
  { rewrite <- drop_drop, Hk, drop_app_length. done. }
  split; [by rewrite <- Hs, take_drop|]. unfold slice.
  replace (q + length needle - q) with (length needle) by lia. by rewrite Hs, take_app_length.
Qed.

(** The selection of [exact_match]. *)
Lemma select_match_spec starts size occurrence count selected r :
  select_match starts size occurrence count selected = r ->
  r.2 = count + length starts /\
  (r.1 = selected \/ exists p, p ∈ starts /\ r.1 = Some (p, p + size)).
Proof.
  revert count selected. induction starts as [|s starts IH]; intros count selected; cbn [select_match].
  - intros <-. cbn. split; [lia|by left].
  - intros Hr. destruct (IH _ _ Hr) as [H1 H2]. cbn [length]. split; [lia|].
    destruct H2 as [H2|(p & Hp & H2)]; [|right; exists p; split; [by right|done]].
    destruct occurrence as [k|]; case_match; try (by left); right; exists s; (split; [by left|done]).
Qed.

Lemma exact_match_ok text needle occurrence m :
  needle <> [] -> exact_match text needle occurrence = Ok m ->
  em_end m = em_start m + length needle /\ em_end m <= length text /\
  occurs needle text (em_start m) /\ em_count m = length (match_indices needle text) /\
  (occurrence = None -> forall q, occurs needle text q -> em_start m <= q < em_end m).
Proof.
  intros Hne. unfold exact_match.
  destruct (select_match _ _ _ _ _) as [selected count] eqn:E.
  destruct (select_match_spec _ _ _ _ _ _ E) as [Hcount Hsel]. cbn [fst snd] in Hcount, Hsel.
  destruct (match_from_spec needle text 0 Hne) as (_ & Hf & Hall). rewrite Forall_forall in Hf.
  assert (Hpick : forall start stop, selected = Some (start, stop) ->
      (start ∈ match_indices needle text) /\ stop = start + length needle).
  { intros start stop Hs. destruct Hsel as [Hsel|(p & Hp & Hsel)]; [congruence|].
    rewrite Hs in Hsel. injection Hsel as -> ->. done. }
  assert (Hok : forall start stop, selected = Some (start, stop) ->
      stop = start + length needle /\ stop <= length text /\ occurs needle text start).
  { intros start stop Hs. destruct (Hpick _ _ Hs) as [Hin ->]. destruct (Hf _ Hin) as (_ & Ho & Hl).
    rewrite Nat.sub_0_r in Ho, Hl. split; [done|]. split; [lia|done]. }
  destruct occurrence as [k|], selected as [[start stop]|]; try done.
  - destruct (0 <? k); [|done]. intros [= <-]. cbn. destruct (Hok _ _ eq_refl) as (? & ? & ?).
    split_and!; [done|done|done|exact Hcount|done].
  - destruct count as [|[|]] eqn:Ec; intros [= <-]. cbn. destruct (Hok _ _ eq_refl) as (Hst & ? & ?).
    split_and!; [done|done|done|exact Hcount|]. intros _ q Hq. destruct (Hall q Hq) as (p & Hp & Hin).
    destruct (Hpick _ _ eq_refl) as [Hs _]. unfold match_indices in *.
    destruct (match_from needle text 0 0) as [|p1 [|]]; cbn in Hcount; try lia.
    apply list_elem_of_singleton in Hp, Hs. subst. cbn in Hin. lia.
  - by destruct count.
Qed.

(** ** Anchors *)

Lemma crlf_to_lf_nil text : crlf_to_lf text = [] -> text = [].
Proof. by destruct text as [|rest _|c rest Hc _] using eol_ind; [|rewrite ?crlf_to_lf_one by done..]. Qed.

(** The part of the text an anchor selects. *)
Record anchored (text needle : utf8) (logical : bool) (m : ExactMatch) : Prop := {
  an_order : em_start m <= em_end m;
  an_bound : em_end m <= length text;
  an_split : text = take (em_start m) text ++ slice text (em_start m) (em_end m) ++ drop (em_end m) text;
  an_same : if logical then crlf_to_lf (slice text (em_start m) (em_end m)) = crlf_to_lf needle
            else slice text (em_start m) (em_end m) = needle;
}.

Lemma slice_split text start stop :
  start <= stop -> text = take start text ++ slice text start stop ++ drop stop text.
Proof.
  intros H. unfold slice. replace (drop stop text) with (drop (stop - start) (drop start text)).
  - by rewrite !take_drop.
  - rewrite drop_drop. f_equal. lia.
Qed.

(** Two canonical offsets of one text, in the text itself. *)
Lemma mapped_split text a b :
  a <= b <= length (crlf_to_lf text) ->
  let m1 := advance_to a (mapper_new text) in
  let m2 := advance_to b m1 in
  mp_raw m1 <= mp_raw m2 <= length text /\
  crlf_to_lf (slice text (mp_raw m1) (mp_raw m2)) = take (b - a) (drop a (crlf_to_lf text)).
Proof.
  intros Hab m1 m2.
  destruct (advance_spec text 0 0 None a ltac:(lia)) as (u1 & H1 & H2 & H3 & H4 & H5).
  fold (mapper_new text) in m1. unfold m1, advance_to, mapper_new in *. cbn [mp_rest mp_raw mp_canonical mp_last_eol] in *.
  set (n1 := advance text 0 0 None a) in *.
  assert (Hlen : length (crlf_to_lf text) = length (crlf_to_lf u1) + length (crlf_to_lf (mp_rest n1)))
    by (rewrite H4 at 1; apply length_app).
  destruct (advance_spec (mp_rest n1) (mp_raw n1) (mp_canonical n1) (mp_last_eol n1) b ltac:(lia))
    as (u2 & G1 & G2 & G3 & G4 & G5).
  set (n2 := advance (mp_rest n1) _ _ _ b) in *. fold n2 in m2. unfold m2.
  assert (Htext : length text = length u1 + length u2 + length (mp_rest n2)).
  { rewrite H1 at 1. rewrite length_app, G1 at 1. rewrite length_app. lia. }
  split; [lia|].
  assert (Hslice : slice text (mp_raw n1) (mp_raw n2) = u2).
  { unfold slice. rewrite H2, G2, H2. rewrite Nat.add_0_l. rewrite H1 at 1. rewrite drop_app_length, G1 at 1.
    replace (length u1 + length u2 - length u1) with (length u2) by lia. apply take_app_length. }
  rewrite Hslice, H4. rewrite drop_app_length' by lia. rewrite G4.
  replace (b - a) with (length (crlf_to_lf u2)) by lia. by rewrite take_app_length.
Qed.

Lemma exact_edit_match_ok text needle target occurrence m :
  needle <> [] -> exact_edit_match text needle target occurrence = Ok m ->
  anchored text needle (needs_logical_eol_match needle target) m.
Proof.
  intros Hne. unfold exact_edit_match. destruct (needs_logical_eol_match needle target); cbn [negb].
  - assert (Hne' : canonical_eol needle <> [])
      by (rewrite canonical_eol_eq; intros H; by apply crlf_to_lf_nil in H).
    destruct (exact_match (canonical_eol text) (canonical_eol needle) occurrence) as [found|e] eqn:E; [|done].
    intros [= <-]. apply exact_match_ok in E as (He & Hb & Ho & _ & _); [|done].
    rewrite !canonical_eol_eq in *.
    pose proof (mapped_split text (em_start found) (em_end found) ltac:(lia)) as [Hr Hs]. cbn zeta in Hs, Hr.
    split; cbn [em_start em_end]; [lia|lia|apply slice_split; lia|].
    rewrite Hs. apply occurs_split in Ho as [_ Ho]; [|lia]. unfold slice in Ho. by rewrite <- He in Ho.
  - intros E. apply exact_match_ok in E as (He & Hb & Ho & _ & _); [|done].
    split; [lia|done|apply slice_split; lia|]. apply occurs_split in Ho as [_ Ho]; [|lia]. by rewrite He.
Qed.

(** ** Rebuilt replacements *)

(** Rebuilding, byte by byte. *)
Fixpoint rebuild (text : utf8) (styles : list EolStyle) (last_matched fallback : option EolStyle) : utf8 :=
  match text with
  | [] => []
  | c :: rest =>
      let at_break own rest :=
        let selected := select_style styles last_matched fallback own in
        style_bytes selected ++ rebuild rest (drop 1 styles) (Some selected) fallback in
      let one := if (c =? LF)%N then at_break LfStyle rest else c :: rebuild rest styles last_matched fallback in
      match rest with
      | d :: rest' => if ((c =? CR) && (d =? LF))%N
                      then let selected := select_style styles last_matched fallback CrLfStyle in
                           style_bytes selected ++ rebuild rest' (drop 1 styles) (Some selected) fallback
                      else one
      | [] => one
      end
  end.

Definition differs (text : utf8) (styles : list EolStyle) (last_matched fallback : option EolStyle) : bool :=
  (metrics_loop (eol_tokens text) styles last_matched fallback 0 false).2.

Lemma rebuild_one c rest styles lm fb :
  crlf_at (c :: rest) = false ->
  rebuild (c :: rest) styles lm fb =
    if (c =? LF)%N
    then style_bytes (select_style styles lm fb LfStyle)
           ++ rebuild rest (drop 1 styles) (Some (select_style styles lm fb LfStyle)) fb
    else c :: rebuild rest styles lm fb.
Proof. intros H. cbn [rebuild]. destruct rest as [|d rest]; [done|]. cbn in H. by rewrite H. Qed.

Lemma rebuild_crlf rest styles lm fb :
  rebuild (CR :: LF :: rest) styles lm fb =
    style_bytes (select_style styles lm fb CrLfStyle)
      ++ rebuild rest (drop 1 styles) (Some (select_style styles lm fb CrLfStyle)) fb.
Proof. done. Qed.

Lemma style_len_bytes s : length (style_bytes s) = style_len s.
Proof. by destruct s. Qed.

Lemma metrics_size tokens styles lm fb n ch :
  (metrics_loop tokens styles lm fb n ch).2 = (ch || (metrics_loop tokens styles lm fb 0 false).2).
Proof.
  revert styles lm n ch. assert (H : forall tokens styles lm n n' ch,
      (metrics_loop tokens styles lm fb n ch).2 = (ch || (metrics_loop tokens styles lm fb n' false).2)).
  { induction tokens0 as [|t ts IH]; intros; cbn [metrics_loop snd]; [by rewrite orb_false_r|].
    rewrite IH with (n' := 0). rewrite (IH _ _ _ 0 (false || _)). cbn [orb]. by rewrite orb_assoc. }
  intros. apply H.
Qed.

(** The first pass measures what the second writes. *)
Lemma metrics_rebuild text i styles lm fb size ch :
  length text <= size ->
  metrics_loop (eol_tokens_from i text) styles lm fb size ch =
    (size - length text + length (rebuild text styles lm fb),
     (metrics_loop (eol_tokens_from i text) styles lm fb size ch).2).
Proof.
  revert i styles lm size ch. induction text as [|rest IH|c rest Hc IH] using eol_ind; intros i styles lm size ch Hle.
  - cbn in *. f_equal. lia.
  - rewrite tokens_crlf, rebuild_crlf. cbn [metrics_loop et_style style_len length] in *.
    rewrite IH at 1 by lia. rewrite length_app, style_len_bytes. cbn [snd]. f_equal. lia.
  - rewrite tokens_one, rebuild_one by done. cbn [length] in *. destruct (c =? LF)%N.
    + cbn [app metrics_loop et_style style_len]. rewrite IH at 1 by lia.
      rewrite length_app, style_len_bytes. cbn [snd]. f_equal. lia.
    + cbn [app]. rewrite IH at 1 by lia. cbn [length]. f_equal. lia.
Qed.

Lemma slice_nil text i : slice text i i = [].
Proof. unfold slice. by rewrite Nat.sub_diag. Qed.

Lemma slice_step text cursor i c rest :
  cursor <= i -> drop i text = c :: rest -> slice text cursor (i + 1) = slice text cursor i ++ [c].
Proof.
  intros Hle Hd. unfold slice. replace (i + 1 - cursor) with ((i - cursor) + 1) by lia.
  rewrite <- take_take_drop, drop_drop. replace (cursor + (i - cursor)) with i by lia. by rewrite Hd.
Qed.

Lemma drop_step (text : utf8) i c rest : drop i text = c :: rest -> drop (i + 1) text = rest.
Proof. intros Hd. rewrite <- drop_drop, Hd. done. Qed.

Lemma reconstruct_rebuild replacement rest i cursor styles lm fb output ch :
  drop i replacement = rest -> cursor <= i ->
  reconstruct_loop replacement (eol_tokens_from i rest) styles lm fb cursor output ch =
    (output ++ slice replacement cursor i ++ rebuild rest styles lm fb,
     (metrics_loop (eol_tokens_from i rest) styles lm fb 0 ch).2).
Proof.
  revert i cursor styles lm output ch.
  induction rest as [|rest IH|c rest Hc IH] using eol_ind; intros i cursor styles lm output ch Hd Hle.
  - cbn. f_equal. f_equal. rewrite app_nil_r. unfold slice. rewrite take_ge; [done|].
    apply (f_equal length) in Hd. rewrite length_drop in *. cbn in Hd. lia.
  - rewrite tokens_crlf, rebuild_crlf. cbn [reconstruct_loop metrics_loop et_style et_start et_end].
    assert (Hd2 : drop (i + 2) replacement = rest) by (rewrite <- drop_drop, Hd; done).
    rewrite IH by (done || lia). rewrite slice_nil. cbn [app]. rewrite <- !app_assoc. f_equal.
    by rewrite (metrics_size _ _ _ _ (0 - _ + _)), (metrics_size _ _ _ _ 0).
  - rewrite tokens_one, rebuild_one by done. pose proof (drop_step _ _ _ _ Hd) as Hd1.
    destruct (c =? LF)%N.
    + cbn [app reconstruct_loop metrics_loop et_style et_start et_end].
      rewrite IH by (done || lia). rewrite slice_nil. cbn [app]. rewrite <- !app_assoc. f_equal.
      by rewrite (metrics_size _ _ _ _ (0 - _ + _)), (metrics_size _ _ _ _ 0).
    + cbn [app]. rewrite IH by (done || lia). rewrite (slice_step _ _ _ _ _ Hle Hd), <- !app_assoc. done.
Qed.

(** The two passes agree, whatever the output so far. *)
Lemma push_reconstructed_eq output replacement matched fb :
  push_reconstructed_replacement output replacement matched fb =
    (output ++ rebuild replacement (et_style <$> eol_tokens matched) None fb,
     (replacement_metrics replacement matched fb).2) /\
  (replacement_metrics replacement matched fb).1 =
    length (rebuild replacement (et_style <$> eol_tokens matched) None fb).
Proof.
  unfold push_reconstructed_replacement, replacement_metrics, eol_tokens. split.
  - rewrite (reconstruct_rebuild replacement replacement 0 0) by done. rewrite slice_nil. cbn [app]. f_equal.
    by rewrite (metrics_size _ _ _ _ (length replacement)), (metrics_size _ _ _ _ 0).
  - rewrite metrics_rebuild by done. cbn [fst]. lia.
Qed.

(** Rebuilding changes the encoding of line breaks only. *)
Lemma clean_one c rest : crlf_at (c :: rest) = false -> clean (c :: rest) = true ->
  clean rest = true /\ (c = CR -> head (crlf_to_lf rest) <> Some LF).
Proof.
  intros Hc. unfold clean. rewrite crlf_to_lf_one by done. rewrite !negb_true_iff.
  destruct (crlf_to_lf rest) as [|d t]; [done|]. cbn [contains_crlf]. rewrite orb_false_iff.
  intros [H1 H2]. split; [done|]. intros -> [= ->]. by rewrite !N.eqb_refl in H1.
Qed.

Lemma clean_crlf rest : clean (CR :: LF :: rest) = true -> clean rest = true.
Proof.
  unfold clean. change (crlf_to_lf (CR :: LF :: rest)) with (LF :: crlf_to_lf rest).
  destruct (crlf_to_lf rest) as [|d t]; done.
Qed.

Lemma canonical_break s rest : crlf_to_lf (style_bytes s ++ rest) = LF :: crlf_to_lf rest.
Proof. by destruct s. Qed.

Lemma crlf_to_lf_app_one c t : (c = CR -> head t <> Some LF) -> crlf_to_lf (c :: t) = c :: crlf_to_lf t.
Proof.
  intros H. apply crlf_to_lf_one. destruct t as [|d t]; [done|]. cbn.
  destruct (N.eqb_spec c CR) as [Hc|]; [|done]. destruct (N.eqb_spec d LF) as [->|]; [|done].
  by destruct (H Hc).
Qed.

Lemma rebuild_head text styles lm fb :
  head (rebuild text styles lm fb) = Some LF -> head (crlf_to_lf text) = Some LF.
Proof.
  destruct text as [|rest _|c rest Hc _] using eol_ind; [done|done|].
  rewrite rebuild_one, crlf_to_lf_one by done. destruct (N.eqb_spec c LF) as [->|]; [done|]. cbn. congruence.
Qed.

Lemma rebuild_canonical text styles lm fb :
  clean text = true -> crlf_to_lf (rebuild text styles lm fb) = crlf_to_lf text.
Proof.
  revert styles lm. induction text as [|rest IH|c rest Hc IH] using eol_ind; intros styles lm Hcl; [done| |].
  - rewrite rebuild_crlf, canonical_break, IH by (by apply clean_crlf). done.
  - destruct (clean_one _ _ Hc Hcl) as [Hr Hcr]. rewrite rebuild_one, (crlf_to_lf_one c rest) by done.
    destruct (N.eqb_spec c LF) as [->|Hne].
    + by rewrite canonical_break, IH.
    + rewrite crlf_to_lf_app_one, IH; [done|done|].
      intros Hcr' Hh. apply rebuild_head in Hh. by apply Hcr.
Qed.

Lemma adapt_canonical text found replacement target :
  clean replacement = true ->
  crlf_to_lf (adapt_edit_replacement text found replacement target) = crlf_to_lf replacement.
Proof.
  intros Hcl. unfold adapt_edit_replacement. destruct (_ || _); [done|].
  destruct (push_reconstructed_replacement _ _ _ _) as [rebuilt changed] eqn:E.
  destruct changed; [|done]. destruct (push_reconstructed_eq [] replacement
    (slice text (em_start found) (em_end found))
    (option_or (preceding_eol text (em_start found)) (following_eol text (em_end found)))) as [H _].
  rewrite E in H. injection H as -> _. by apply rebuild_canonical.
Qed.
