(* ===== verification/Edit.v ===== *)
(** The two text editing tools: [edit.replace] (tool-runtime/tools/edit.rs) and
    [edit.patch] (tool-runtime/tools/patch.rs), from their arguments and the file
    snapshots to the prepared new contents.

    What the workspace answers (the snapshots of the requested files with their
    revisions, and the preparation and rollback of a staged file) is an environment.
    The wording of refusals, echoes and reports is left out; their class and count
    are kept. *)

From S2P Require Import Prelude Text Operation Eol.

(** [usize] arithmetic. *)
Definition checked_usize (n : nat) : option nat := if (N.of_nat n <=? u64_max)%N then Some n else None.
Definition checked_sub (a b : nat) : option nat := if b <=? a then Some (a - b) else None.

Definition MAX_FILE_BYTES : nat := N.to_nat (4 * 1024 * 1024).
Definition MAX_HUNKS : nat := 64.
Definition MAX_FILES : nat := 16.

Definition projected_replacement_len (current old new replacements : nat) : option nat :=
  if old <=? new
  then checked_usize ((new - old) * replacements) ≫= (fun more => checked_usize (current + more))
  else checked_usize ((old - new) * replacements) ≫= checked_sub current.

Definition within_file (size : option nat) : bool :=
  match size with Some size => size <=? MAX_FILE_BYTES | None => false end.

(** [String::replace_range]. *)
Definition replace_range (text : utf8) (start stop : nat) (replacement : utf8) : utf8 :=
  take start text ++ replacement ++ drop stop text.

(** ** Replacing every match *)

(** [str::replace], from the starts of the matches. *)
Fixpoint splice (text : utf8) (starts : list nat) (size : nat) (new : utf8) (cursor : nat) : utf8 :=
  match starts with
  | [] => drop cursor text
  | start :: starts' => slice text cursor start ++ new ++ splice text starts' size new (start + size)
  end.

Definition str_replace (text old new : utf8) : utf8 := splice text (match_indices old text) (length old) new 0.

(** The first pass of [replace_all_logical_eol]. *)
Record Measure : Type := {
  ms_count : nat;
  ms_removed : nat;
  ms_added : nat;
  ms_adapted : bool;
}.

Definition measure_match (text old new : utf8) (size : nat) (first_eol : option EolStyle) (max_output_bytes : nat)
    (canonical_start : nat) (mapper : OffsetMapper) (m : Measure) : option (OffsetMapper * Measure) :=
  let at_start := advance_to canonical_start mapper in
  let at_end := advance_to (canonical_start + size) at_start in
  let raw_match := slice text (mp_raw at_start) (mp_raw at_end) in
  let '(replacement_len, replacement_adapted) :=
    replacement_metrics new raw_match (option_or (mp_last_eol at_start) first_eol) in
  removed ← checked_usize (ms_removed m + (mp_raw at_end - mp_raw at_start));
  added ← checked_usize (ms_added m + replacement_len);
  if max_output_bytes <? added then None
  else Some (at_end,
    {| ms_count := ms_count m + 1; ms_removed := removed; ms_added := added;
       ms_adapted := ms_adapted m || negb (bool_decide (raw_match = old)) || replacement_adapted |}).

Fixpoint measure_all (text old new : utf8) (size : nat) (first_eol : option EolStyle) (max_output_bytes : nat)
    (starts : list nat) (mapper : OffsetMapper) (m : Measure) : option Measure :=
  match starts with
  | [] => Some m
  | start :: starts' =>
      '(mapper, m) ← measure_match text old new size first_eol max_output_bytes start mapper m;
      measure_all text old new size first_eol max_output_bytes starts' mapper m
  end.

(** The second pass. *)
Fixpoint emit_all (text new : utf8) (size : nat) (first_eol : option EolStyle) (starts : list nat)
    (mapper : OffsetMapper) (raw_cursor : nat) (output : utf8) : utf8 :=
  match starts with
  | [] => output ++ drop raw_cursor text
  | start :: starts' =>
      let at_start := advance_to start mapper in
      let at_end := advance_to (start + size) at_start in
      let output := output ++ slice text raw_cursor (mp_raw at_start) in
      let '(output, _) :=
        push_reconstructed_replacement output new (slice text (mp_raw at_start) (mp_raw at_end))
          (option_or (mp_last_eol at_start) first_eol) in
      emit_all text new size first_eol starts' at_end (mp_raw at_end) output
  end.

Record LogicalEolReplaceAll : Type := {
  la_count : nat;
  la_updated : option utf8;
  la_line_endings_adapted : bool;
}.

(** [None] is the unit error: the result would be too large. *)
Definition replace_all_logical_eol (text old new : utf8) (max_output_bytes : nat) :
    option LogicalEolReplaceAll :=
  let canonical_old := canonical_eol old in
  let starts := match_indices canonical_old (canonical_eol text) in
  let first_eol := et_style <$> head (eol_tokens text) in
  m ← measure_all text old new (length canonical_old) first_eol max_output_bytes starts (mapper_new text)
        {| ms_count := 0; ms_removed := 0; ms_added := 0; ms_adapted := false |};
  if ms_count m =? 0
  then Some {| la_count := 0; la_updated := None; la_line_endings_adapted := false |}
  else
    kept ← checked_sub (length text) (ms_removed m);
    projected ← checked_usize (kept + ms_added m);
    if max_output_bytes <? projected then None
    else Some {|
      la_count := ms_count m;
      la_updated := Some (emit_all text new (length canonical_old) first_eol starts (mapper_new text) 0 []);
      la_line_endings_adapted := ms_adapted m |}.

(** ** [edit.replace] *)

Inductive EditRefusal : Type :=
| TooLarge
| RefusedMatch (error : ExactMatchError).

Record EditDone : Type := {
  ed_count : nat;
  ed_replacements : nat;
  ed_updated : utf8;
}.

(** The new text of the file, or the refusal. *)
Definition replace_text (original old_arg new_arg : utf8) (occurrence : option nat) (replace_all : bool) :
    result EditDone EditRefusal :=
  let line_ending := detect original in
  let old := normalize_edit_line_endings old_arg line_ending in
  let new := normalize_edit_line_endings new_arg line_ending in
  if replace_all
  then
    if needs_logical_eol_match old line_ending
    then
      match replace_all_logical_eol original old new MAX_FILE_BYTES with
      | None => Err TooLarge
      | Some done =>
          match la_updated done with
          | None => Err (RefusedMatch (NoMatch 0))
          | Some updated =>
              Ok {| ed_count := la_count done; ed_replacements := la_count done; ed_updated := updated |}
          end
      end
    else
      let count := length (match_indices old original) in
      if count =? 0 then Err (RefusedMatch (NoMatch 0))
      else if negb (within_file (projected_replacement_len (length original) (length old) (length new) count))
      then Err TooLarge
      else Ok {| ed_count := count; ed_replacements := count; ed_updated := str_replace original old new |}
  else
    match exact_edit_match original old line_ending occurrence with
    | Err error => Err (RefusedMatch error)
    | Ok found =>
        let replacement := adapt_edit_replacement original found new line_ending in
        if negb (within_file (projected_replacement_len (length original) (em_end found - em_start found)
                                (length replacement) 1))
        then Err TooLarge
        else Ok {| ed_count := em_count found; ed_replacements := 1;
                   ed_updated := take (em_start found) original ++ replacement ++ drop (em_end found) original |}
    end.

(** ** [edit.patch] *)

Inductive HunkOp : Type := HunkReplace | InsertBefore | InsertAfter.

Record Hunk : Type := {
  hk_op : HunkOp;
  hk_old : utf8;
  hk_new : utf8;
  hk_occurrence : option nat;
}.

Record FilePatch : Type := {
  fp_path : text;
  fp_base_revision : option text;
  fp_hunks : list Hunk;
}.

Record PatchArgs : Type := {
  pa_files : list FilePatch;
  pa_path : option text;
  pa_base_revision : option text;
  pa_hunks : list Hunk;
}.

Definition set_base_revision (file : FilePatch) (revision : text) : FilePatch :=
  {| fp_path := fp_path file; fp_base_revision := Some revision; fp_hunks := fp_hunks file |}.

Definition resolved_files (args : PatchArgs) : AgentResult (list FilePatch) :=
  match pa_files args, pa_path args with
  | file :: rest, None =>
      if negb (bool_decide (length (pa_hunks args) = 0))
      then Err (InvalidRequest (txt "edit.patch: top-level `hunks` cannot be combined with `files`"))
      else
        match pa_base_revision args with
        | None => Ok (file :: rest)
        | Some top_revision =>
            if 1 <? length (file :: rest)
            then Err (InvalidRequest (txt
              "edit.patch: top-level `base_revision` is ambiguous for multiple files; pass one revision per files[] entry"))
            else
              match fp_base_revision file with
              | Some file_revision =>
                  if negb (bool_decide (file_revision = top_revision))
                  then Err (InvalidRequest (txt
                    "edit.patch: conflicting top-level and files[0] base_revision values"))
                  else Ok (file :: rest)
              | None => Ok (set_base_revision file top_revision :: rest)
              end
        end
  | [], Some path =>
      Ok [ {| fp_path := path; fp_base_revision := pa_base_revision args; fp_hunks := pa_hunks args |} ]
  | _, Some _ => Err (InvalidRequest (txt "edit.patch: use either `files` or `path`+`hunks`, not both"))
  | [], None => Err (InvalidRequest (txt "edit.patch requires either `files` or `path`+`hunks`"))
  end.

Inductive ApplyHunkError : Type :=
| HunkMatch (error : ExactMatchError)
| ResultTooLarge.

Definition apply_hunk (original : utf8) (op : HunkOp) (old new : utf8) (occurrence : option nat)
    (line_ending : LineEnding) : result utf8 ApplyHunkError :=
  match exact_edit_match original old line_ending occurrence with
  | Err error => Err (HunkMatch error)
  | Ok found =>
      let replacement := adapt_edit_replacement original found new line_ending in
      let '(start, stop) :=
        match op with
        | HunkReplace => (em_start found, em_end found)
        | InsertBefore => (em_start found, em_start found)
        | InsertAfter => (em_end found, em_end found)
        end in
      if negb (within_file (projected_replacement_len (length original) (stop - start) (length replacement) 1))
      then Err ResultTooLarge
      else Ok (replace_range original start stop replacement)
  end.

(** One hunk on the text the hunks before it left. *)
Definition hunk_step (updated : utf8) (hunk : Hunk) : result utf8 ApplyHunkError :=
  let line_ending := detect updated in
  apply_hunk updated (hk_op hunk) (normalize_edit_line_endings (hk_old hunk) line_ending)
    (normalize_edit_line_endings (hk_new hunk) line_ending) (hk_occurrence hunk) line_ending.

Inductive PatchStop : Type :=
| PatchInvalid (message : text)               (* an error of the call *)
| PatchRefused (path : text) (stale : bool) (error : option ExactMatchError).  (* a refusal shown to the model *)

Fixpoint patch_hunks (path : text) (updated : utf8) (hunks : list Hunk) : result utf8 PatchStop :=
  match hunks with
  | [] => Ok updated
  | hunk :: hunks' =>
      if bool_decide (hk_old hunk = [])
      then Err (PatchInvalid (txt "edit.patch hunk `old` must not be empty"))
      else
        match hunk_step updated hunk with
        | Ok updated => patch_hunks path updated hunks'
        | Err ResultTooLarge => Err (PatchInvalid (txt "edit.patch result exceeds the 4194304-byte file limit"))
        | Err (HunkMatch error) => Err (PatchRefused path false (Some error))
        end
  end.

(** A bounded snapshot of a requested file, with the lease on its path. *)
Record Snapshot : Type := {
  sn_relative : text;
  sn_revision : text;
  sn_bytes : list N;
}.

Record ResolvedPatch : Type := {
  rp_relative : text;
  rp_original : utf8;
  rp_updated : utf8;
}.

Definition patch_file (file : FilePatch) (snapshot : Snapshot) : result ResolvedPatch PatchStop :=
  match from_utf8 (sn_bytes snapshot) with
  | None => Err (PatchInvalid (txt "edit.patch target is not UTF-8 text"))
  | Some _ =>
      let original := sn_bytes snapshot in
      if match fp_base_revision file with
         | Some expected => negb (bool_decide (sn_revision snapshot = expected))
         | None => false
         end
      then Err (PatchRefused (sn_relative snapshot) true None)
      else
        match patch_hunks (sn_relative snapshot) original (fp_hunks file) with
        | Err stop => Err stop
        | Ok updated =>
            Ok {| rp_relative := sn_relative snapshot; rp_original := original; rp_updated := updated |}
        end
  end.

(** [files.iter().zip(snapshots)]: the first that stops, stops the call. *)
Fixpoint patch_files (files : list FilePatch) (snapshots : list Snapshot) : result (list ResolvedPatch) PatchStop :=
  match files, snapshots with
  | file :: files', snapshot :: snapshots' =>
      match patch_file file snapshot with
      | Err stop => Err stop
      | Ok patch =>
          match patch_files files' snapshots' with
          | Err stop => Err stop
          | Ok patches => Ok (patch :: patches)
          end
      end
  | _, _ => Ok []
  end.

(** ** Staging *)

Inductive StageEvent : Type :=
| Prepares (path : text) (content : utf8)
| RollsBack (path : text).

Record PatchEnv : Type := {
  pe_hidden : text -> bool;                                     (* ordinary_view_blocked *)
  pe_snapshots : list text -> AgentResult (list Snapshot);      (* begin_existing_mutations *)
  pe_prepare : text -> AgentResult unit;
  pe_rollback : text -> AgentResult unit;
}.

Inductive PatchOutcome : Type :=
| PatchError (error : AgentError)
| PatchHidden (path : text)
| PatchStopped (stop : PatchStop)
| PatchUnchanged
| PatchPrepared (staged : list (text * utf8)).                  (* in staging order *)

(** A failed preparation rolls back the staged files, the last first. *)
Definition rollback_staged (env : PatchEnv) (staged : list (text * utf8)) : bool * list StageEvent :=
  (forallb (fun file => match pe_rollback env file.1 with Ok _ => true | Err _ => false end) (reverse staged),
   (fun file => RollsBack file.1) <$> reverse staged).

Fixpoint stage_files (env : PatchEnv) (patches : list ResolvedPatch) (staged : list (text * utf8)) :
    PatchOutcome * list StageEvent :=
  match patches with
  | [] => (PatchPrepared staged, [])
  | patch :: patches' =>
      let prepares := Prepares (rp_relative patch) (rp_updated patch) in
      match pe_prepare env (rp_relative patch) with
      | Ok _ =>
          let '(outcome, events) :=
            stage_files env patches' (staged ++ [(rp_relative patch, rp_updated patch)]) in
          (outcome, prepares :: events)
      | Err error =>
          let '(clean, events) := rollback_staged env staged in
          (PatchError (if clean : bool then error
                       else RecoveryRequired (txt "edit.patch staging failed; prior staged cleanup failed")),
           prepares :: events)
      end
  end.

Definition changed (patch : ResolvedPatch) : bool := negb (bool_decide (rp_updated patch = rp_original patch)).

Definition patch_execute (env : PatchEnv) (args : PatchArgs) : PatchOutcome * list StageEvent :=
  match resolved_files args with
  | Err error => (PatchError error, [])
  | Ok files =>
      if MAX_FILES <? length files
      then (PatchError (InvalidRequest (txt "edit.patch is limited to 16 files per call")), [])
      else
        let total_hunks := sum_list_with (fun file => length (fp_hunks file)) files in
        if (total_hunks =? 0) || (MAX_HUNKS <? total_hunks)
        then (PatchError (InvalidRequest (txt "edit.patch requires between 1 and 64 hunks per call")), [])
        else
          match List.find (fun file => pe_hidden env (fp_path file)) files with
          | Some file => (PatchHidden (fp_path file), [])
          | None =>
              match pe_snapshots env (fp_path <$> files) with
              | Err error => (PatchError error, [])
              | Ok snapshots =>
                  match patch_files files snapshots with
                  | Err stop => (PatchStopped stop, [])
                  | Ok patches =>
                      if negb (existsb changed patches) then (PatchUnchanged, [])
                      else stage_files env (List.filter changed patches) []
                  end
              end
          end
  end.
