(* ===== verification/EditTheorems.v ===== *)
(** What the text editing tools promise: an edit changes the anchored part only, up to
    the encoding of line breaks, within the size limit; a patch is staged as a whole. *)

From S2P Require Import Prelude Text Operation Eol Edit.

(** ** The specification of an edit *)

(** [n] parts of a text that read as [old] give way to ones that read as [new]; what
    stands between them stays byte for byte. *)
Inductive Replaced (old new : utf8) : nat -> utf8 -> utf8 -> Prop :=
| Replaced_rest rest : Replaced old new 0 rest rest
| Replaced_next n keep matched written rest out :
    crlf_to_lf matched = crlf_to_lf old ->
    crlf_to_lf written = crlf_to_lf new ->
    Replaced old new n rest out ->
    Replaced old new (S n) (keep ++ matched ++ rest) (keep ++ written ++ out).

(** A hunk puts its new text in the place of, before, or after one part that reads as
    its old text. *)
Inductive HunkApplied (hunk : Hunk) : utf8 -> utf8 -> Prop :=
| Hunk_applied pre matched post written :
    crlf_to_lf matched = crlf_to_lf (hk_old hunk) ->
    crlf_to_lf written = crlf_to_lf (hk_new hunk) ->
    HunkApplied hunk (pre ++ matched ++ post)
      (pre ++ match hk_op hunk with
              | HunkReplace => written
              | InsertBefore => written ++ matched
              | InsertAfter => matched ++ written
              end ++ post).

Inductive HunksApplied : list Hunk -> utf8 -> utf8 -> Prop :=
| Hunks_done content : HunksApplied [] content content
| Hunks_next hunk hunks before between after :
    HunkApplied hunk before between ->
    length between <= MAX_FILE_BYTES ->
    HunksApplied hunks between after ->
    HunksApplied (hunk :: hunks) before after.

(** ** Normalized arguments *)

Lemma normalize_clean content target :
  clean content = true -> clean (normalize_edit_line_endings content target) = true.
Proof. intros H. unfold clean. rewrite normalize_canonical by (by left). exact H. Qed.

Lemma lf_to_crlf_nil content : lf_to_crlf content = [] -> content = [].
Proof. destruct content as [|c content]; [done|]. cbn. by destruct (c =? LF)%N. Qed.

Lemma normalize_nonempty content target :
  content <> [] -> normalize_edit_line_endings content target <> [].
Proof.
  intros Hne. destruct target; cbn; [done| | |done]; case_match; try done; intros Hn.
  - by apply crlf_to_lf_nil in Hn.
  - by apply lf_to_crlf_nil, crlf_to_lf_nil in Hn.
Qed.

Lemma slice_elem (content : utf8) start stop c : c ∈ slice content start stop -> c ∈ content.
Proof. unfold slice. intros H. eapply subseteq_drop, subseteq_take, H. Qed.

(** A literal match of the normalized anchor reads as the anchor. *)
Lemma literal_match_reads original start stop old :
  slice original start stop = normalize_edit_line_endings old (detect original) ->
  crlf_to_lf (slice original start stop) = crlf_to_lf old.
Proof.
  intros H. destruct (decide (detect original = LfEnding)) as [E|E].
  - assert (Hcr : CR ∉ slice original start stop)
      by (intros Hin%slice_elem; by apply (detect_lf_no_cr _ E)).
    rewrite no_cr_canonical by done. rewrite H, E. cbn.
    destruct (contains_crlf old) eqn:Ec; [done|]. by rewrite crlf_to_lf_id.
  - rewrite H. apply normalize_canonical. by right.
Qed.

Lemma logical_not_lf needle target : needs_logical_eol_match needle target = true -> target <> LfEnding.
Proof. by intros H ->. Qed.

(** Either way of matching. *)
Lemma anchored_reads original old m :
  let target := detect original in
  let needle := normalize_edit_line_endings old target in
  anchored original needle (needs_logical_eol_match needle target) m ->
  crlf_to_lf (slice original (em_start m) (em_end m)) = crlf_to_lf old.
Proof.
  intros target needle [_ _ _ Hsame]. destruct (needs_logical_eol_match needle target) eqn:E.
  - rewrite Hsame. apply normalize_canonical. right. by eapply logical_not_lf.
  - by apply literal_match_reads.
Qed.

Lemma adapt_reads original m new target :
  clean new = true ->
  crlf_to_lf (adapt_edit_replacement original m (normalize_edit_line_endings new target) target) =
    crlf_to_lf new.
Proof.
  intros Hcl. rewrite adapt_canonical by (by apply normalize_clean). apply normalize_canonical. by left.
Qed.

(** ** Sizes *)

Lemma checked_usize_some n m : checked_usize n = Some m -> m = n.
Proof. unfold checked_usize. case_match; by intros [= <-]. Qed.

Lemma checked_sub_some a b m : checked_sub a b = Some m -> b <= a /\ m = a - b.
Proof. unfold checked_sub. destruct (Nat.leb_spec b a); by intros [= <-]. Qed.

Lemma projected_len current old new n size :
  projected_replacement_len current old new n = Some size -> size + old * n = current + new * n.
Proof.
  unfold projected_replacement_len. destruct (Nat.leb_spec old new) as [Hle|Hlt]; intros H;
    apply bind_Some in H as (d & ->%checked_usize_some & H).
  - apply checked_usize_some in H as ->. nia.
  - apply checked_sub_some in H as [H ->]. nia.
Qed.

Lemma within_file_some size : within_file size = true -> exists n, size = Some n /\ n <= MAX_FILE_BYTES.
Proof. destruct size as [n|]; [|done]. intros H%Nat.leb_le. by exists n. Qed.

(** A single replacement that the size check let through. *)
Lemma single_size (original replacement : utf8) start stop :
  start <= stop -> stop <= length original ->
  negb (within_file (projected_replacement_len (length original) (stop - start) (length replacement) 1)) = false ->
  length (replace_range original start stop replacement) <= MAX_FILE_BYTES.
Proof.
  intros H1 H2 H. apply negb_false_iff, within_file_some in H as (n & Hn & Hle).
  apply projected_len in Hn. unfold replace_range. rewrite !length_app, length_take, length_drop. lia.
Qed.

(** ** Replacing every literal match *)

Lemma drop_at_match (content needle : utf8) cursor start :
  cursor <= start -> occurs needle content start -> start + length needle <= length content ->
  drop cursor content = slice content cursor start ++ needle ++ drop (start + length needle) content.
Proof.
  intros Hle Ho Hb. apply occurs_split in Ho as [Hs _]; [|done]. unfold slice.
  rewrite <- (take_drop (start - cursor) (drop cursor content)) at 1. f_equal.
  rewrite drop_drop. replace (cursor + (start - cursor)) with start by lia.
  apply (app_inv_head (take start content)). by rewrite take_drop.
Qed.

Definition found_at (content needle : utf8) (start : nat) : Prop :=
  occurs needle content start /\ start + length needle <= length content.

Lemma matches_found needle content :
  needle <> [] -> Forall (found_at content needle) (match_indices needle content).
Proof.
  intros Hne. destruct (match_from_spec needle content 0 Hne) as (_ & Hf & _).
  eapply Forall_impl; [exact Hf|]. intros p (_ & Ho & Hb). rewrite Nat.sub_0_r in Ho, Hb. done.
Qed.

Lemma matches_disjoint needle content :
  needle <> [] -> disjoint_from 0 (match_indices needle content) (length needle).
Proof. intros Hne. apply (match_from_spec needle content 0 Hne). Qed.

Lemma splice_replaced old new needle written content starts cursor :
  (forall start, found_at content needle start ->
     crlf_to_lf (slice content start (start + length needle)) = crlf_to_lf old) ->
  crlf_to_lf written = crlf_to_lf new ->
  Forall (found_at content needle) starts -> disjoint_from cursor starts (length needle) ->
  Replaced old new (length starts) (drop cursor content) (splice content starts (length needle) written cursor).
Proof.
  intros Hold Hnew Hf. revert cursor. induction Hf as [|s starts [Ho Hb] Hf IH]; intros cursor Hd; [constructor|].
  destruct Hd as [Hle Hd]. cbn [splice length]. rewrite (drop_at_match content needle cursor s) by done.
  constructor; [|done|by apply IH]. rewrite <- (Hold s) by done. by apply occurs_split in Ho as [_ ->].
Qed.

Lemma splice_length needle written content starts cursor :
  Forall (found_at content needle) starts -> disjoint_from cursor starts (length needle) ->
  length (splice content starts (length needle) written cursor) + length needle * length starts =
    length content - cursor + length written * length starts.
Proof.
  intros Hf. revert cursor. induction Hf as [|s starts [Ho Hb] Hf IH]; intros cursor Hd.
  - cbn. rewrite length_drop. lia.
  - destruct Hd as [Hle Hd]. cbn [splice length]. specialize (IH _ Hd). rewrite !length_app.
    assert (length (slice content cursor s) = s - cursor)
      by (unfold slice; rewrite length_take, length_drop; lia). nia.
Qed.

(** ** Replacing every logical match *)

(** A mapper inside [content]: where it stands, in the text and in its canonical form. *)
Record mapped (content : utf8) (m : OffsetMapper) : Prop := {
  md_raw : mp_raw m <= length content;
  md_rest : drop (mp_raw m) content = mp_rest m;
  md_canonical : mp_canonical m <= length (crlf_to_lf content);
  md_logical : drop (mp_canonical m) (crlf_to_lf content) = crlf_to_lf (mp_rest m);
}.

Lemma mapped_new content : mapped content (mapper_new content).
Proof. split; cbn; [lia|done|lia|done]. Qed.

Lemma mapped_advance content m target :
  mapped content m -> mp_canonical m <= target <= length (crlf_to_lf content) ->
  let m' := advance_to target m in
  mapped content m' /\ mp_canonical m' = target /\ mp_raw m <= mp_raw m' /\
  crlf_to_lf (slice content (mp_raw m) (mp_raw m')) = slice (crlf_to_lf content) (mp_canonical m) target.
Proof.
  intros [H1 H2 H3 H4] Hin m'.
  assert (Hlen : length (crlf_to_lf (mp_rest m)) = length (crlf_to_lf content) - mp_canonical m)
    by (rewrite <- H4; apply length_drop).
  destruct (advance_spec (mp_rest m) (mp_raw m) (mp_canonical m) (mp_last_eol m) target ltac:(lia))
    as (used & G1 & G2 & G3 & G4 & G5).
  fold (advance_to target m) in G1, G2, G3, G4. fold m' in G1, G2, G3, G4. cbn zeta in *.
  assert (Hraw : length (mp_rest m) = length content - mp_raw m) by (rewrite <- H2; apply length_drop).
  assert (Hused : length (mp_rest m) = length used + length (mp_rest m')) by (rewrite G1 at 1; apply length_app).
  assert (Hslice : slice content (mp_raw m) (mp_raw m') = used).
  { unfold slice. replace (mp_raw m' - mp_raw m) with (length used) by lia.
    rewrite H2, G1. apply take_app_length. }
  split; [split|split_and!].
  - lia.
  - rewrite G2, <- drop_drop, H2, G1 at 1. apply drop_app_length.
  - lia.
  - rewrite G3. replace target with (mp_canonical m + (target - mp_canonical m)) by lia.
    rewrite <- drop_drop, H4, G4, <- G5. apply drop_app_length.
  - exact G3.
  - lia.
  - rewrite Hslice. unfold slice. rewrite H4, G4, <- G5. by rewrite take_app_length.
Qed.

Lemma drop_in_three (content : utf8) a b c :
  a <= b <= c -> drop a content = slice content a b ++ slice content b c ++ drop c content.
Proof.
  intros H. unfold slice. replace (drop c content) with (drop (c - b) (drop b content))
    by (rewrite drop_drop; f_equal; lia).
  rewrite take_drop. replace (drop b content) with (drop (b - a) (drop a content))
    by (rewrite drop_drop; f_equal; lia).
  by rewrite take_drop.
Qed.

(** One match of the two passes. *)
Lemma logical_match content needle m start :
  mapped content m -> mp_canonical m <= start -> found_at (crlf_to_lf content) needle start ->
  let m1 := advance_to start m in
  let m2 := advance_to (start + length needle) m1 in
  mapped content m2 /\ mp_canonical m2 = start + length needle /\
  mp_raw m <= mp_raw m1 <= mp_raw m2 /\ crlf_to_lf (slice content (mp_raw m1) (mp_raw m2)) = needle.
Proof.
  intros Hm Hle [Ho Hb] m1 m2.
  destruct (mapped_advance content m start Hm ltac:(lia)) as (Hm1 & Hc1 & Hr1 & _). fold m1 in Hm1, Hc1, Hr1.
  destruct (mapped_advance content m1 (start + length needle) Hm1 ltac:(lia)) as (Hm2 & Hc2 & Hr2 & Hs2).
  fold m2 in Hm2, Hc2, Hr2, Hs2. split_and!; [done..|]. rewrite Hs2, Hc1.
  by apply occurs_split in Ho as [_ ->].
Qed.

Section Logical.
Context (content written needle : utf8) (first_eol : option EolStyle).
#[local] Abbreviation size := (length needle).

Lemma emit_output starts m raw output :
  emit_all content written size first_eol starts m raw output =
    output ++ emit_all content written size first_eol starts m raw [].
Proof.
  revert m raw output. induction starts as [|s starts IH]; intros m raw output; [done|].
  cbn [emit_all]. rewrite !(proj1 (push_reconstructed_eq _ _ _ _)). rewrite IH, (IH _ _ (([] ++ _) ++ _)).
  cbn [app]. by rewrite <- !app_assoc.
Qed.

Lemma emit_next s starts m raw :
  let m1 := advance_to s m in
  let m2 := advance_to (s + size) m1 in
  emit_all content written size first_eol (s :: starts) m raw [] =
    slice content raw (mp_raw m1) ++
    rebuild written (et_style <$> eol_tokens (slice content (mp_raw m1) (mp_raw m2))) None
      (option_or (mp_last_eol m1) first_eol) ++
    emit_all content written size first_eol starts m2 (mp_raw m2) [].
Proof.
  intros m1 m2. cbn [emit_all]. rewrite (proj1 (push_reconstructed_eq _ _ _ _)). cbn [app].
  rewrite emit_output, <- app_assoc. done.
Qed.

Lemma emit_replaced old new starts m :
  needle = crlf_to_lf old -> clean written = true -> crlf_to_lf written = crlf_to_lf new ->
  mapped content m -> Forall (found_at (crlf_to_lf content) needle) starts ->
  disjoint_from (mp_canonical m) starts size ->
  Replaced old new (length starts) (drop (mp_raw m) content)
    (emit_all content written size first_eol starts m (mp_raw m) []).
Proof.
  intros Hold Hcl Hnew Hm Hf. revert m Hm.
  induction Hf as [|s starts Hs Hf IH]; intros m Hm Hd; [constructor|].
  destruct Hd as [Hle Hd]. rewrite emit_next.
  destruct (logical_match content needle m s Hm Hle Hs) as (Hm2 & Hc2 & Hr & Hread).
 cbn [length].
  set (m1 := advance_to s m) in *. set (m2 := advance_to (s + size) m1) in *.
  rewrite (drop_in_three content (mp_raw m) (mp_raw m1) (mp_raw m2)) by done.
  constructor; [by rewrite Hread|by rewrite rebuild_canonical|]. apply IH; [done|by rewrite Hc2].
Qed.

(** The first pass predicts the size of what the second one writes. *)
Lemma measure_emit text_old limit starts m acc acc' :
  mapped content m -> Forall (found_at (crlf_to_lf content) needle) starts ->
  disjoint_from (mp_canonical m) starts size ->
  measure_all content text_old written size first_eol limit starts m acc = Some acc' ->
  ms_count acc' = ms_count acc + length starts /\
  length (emit_all content written size first_eol starts m (mp_raw m) []) + ms_removed acc' + ms_added acc =
    length content - mp_raw m + ms_added acc' + ms_removed acc.
Proof.
  intros Hm Hf. revert m acc Hm. induction Hf as [|s starts Hs Hf IH]; intros m acc Hm Hd.
  - intros [= <-]. cbn. rewrite length_drop. lia.
  - destruct Hd as [Hle Hd]. cbn [measure_all]. intros H.
    apply bind_Some in H as ([m2' acc2] & Hone & H).
    destruct (logical_match content needle m s Hm Hle Hs) as (Hm2 & Hc2 & Hr & _).
 unfold measure_match in Hone.
    set (m1 := advance_to s m) in *. set (m2 := advance_to (s + size) m1) in *.
    destruct (push_reconstructed_eq [] written (slice content (mp_raw m1) (mp_raw m2))
      (option_or (mp_last_eol m1) first_eol)) as [_ Hsize].
    destruct (replacement_metrics _ _ _) as [added adapted]. cbn [fst] in Hsize.
    apply bind_Some in Hone as (rem & ->%checked_usize_some & Hone).
    apply bind_Some in Hone as (add & ->%checked_usize_some & Hone).
    destruct (_ <? _); [done|]. injection Hone as <- <-.
    apply IH in H as [Hcount Hlen]; [|done|by rewrite Hc2]. cbn [ms_count ms_removed ms_added] in Hcount, Hlen.
    cbn [length]. split; [lia|]. rewrite emit_next. fold m1. fold m2. rewrite !length_app, <- Hsize.
    assert (length (slice content (mp_raw m) (mp_raw m1)) = mp_raw m1 - mp_raw m).
    { unfold slice. rewrite length_take, length_drop. destruct Hm2 as [Hb _ _ _]. lia. }
    destruct Hm2 as [Hb _ _ _]. lia.
Qed.
End Logical.

Lemma replace_all_logical_exact original old new old_arg new_arg limit done_all updated :
  old <> [] -> crlf_to_lf old = crlf_to_lf old_arg ->
  clean new = true -> crlf_to_lf new = crlf_to_lf new_arg ->
  replace_all_logical_eol original old new limit = Some done_all -> la_updated done_all = Some updated ->
  Replaced old_arg new_arg (la_count done_all) original updated /\ 0 < la_count done_all /\
  length updated <= limit.
Proof.
  intros Hne Hold Hcl Hnew. unfold replace_all_logical_eol. rewrite !canonical_eol_eq.
  assert (Hcn : crlf_to_lf old <> []) by (intros H; by apply crlf_to_lf_nil in H).
  pose proof (matches_found _ (crlf_to_lf original) Hcn) as Hf.
  pose proof (matches_disjoint _ (crlf_to_lf original) Hcn) as Hd.
  set (starts := match_indices (crlf_to_lf old) (crlf_to_lf original)) in *. intros H Hup.
  apply bind_Some in H as (acc & Hms & H).
  apply (measure_emit original new (crlf_to_lf old)) in Hms as [Hc Hl]; [|apply mapped_new|done|done].
  cbn [ms_count ms_removed ms_added mapper_new mp_raw] in Hc, Hl.
  destruct (Nat.eqb_spec (ms_count acc) 0) as [|Hpos]; [injection H as <-; done|].
  apply bind_Some in H as (kept & Hkept%checked_sub_some & H).
  apply bind_Some in H as (projected & ->%checked_usize_some & H).
  destruct (Nat.ltb_spec limit (kept + ms_added acc)) as [|Hlim]; [done|]. injection H as <-.
  cbn [la_updated la_count] in *. injection Hup as <-. split_and!; [|lia|lia].
  rewrite Hc. apply (emit_replaced original new (crlf_to_lf old) _ old_arg new_arg starts (mapper_new original));
    try done. apply mapped_new.
Qed.

Lemma replace_all_literal_exact original old new old_arg new_arg :
  old <> [] ->
  (forall start, found_at original old start ->
     crlf_to_lf (slice original start (start + length old)) = crlf_to_lf old_arg) ->
  crlf_to_lf new = crlf_to_lf new_arg ->
  within_file (projected_replacement_len (length original) (length old) (length new)
                 (length (match_indices old original))) = true ->
  Replaced old_arg new_arg (length (match_indices old original)) original (str_replace original old new) /\
  length (str_replace original old new) <= MAX_FILE_BYTES.
Proof.
  intros Hne Hold Hnew Hsize. pose proof (matches_found old original Hne) as Hf.
  pose proof (matches_disjoint old original Hne) as Hd. split.
  - by apply (splice_replaced old_arg new_arg old new original _ 0).
  - apply within_file_some in Hsize as (n & Hn%projected_len & Hle).
    pose proof (splice_length old new original _ 0 Hf Hd) as H. unfold str_replace. lia.
Qed.

Lemma replace_one_exact original old_arg new_arg occurrence m :
  let target := detect original in
  let replacement := adapt_edit_replacement original m (normalize_edit_line_endings new_arg target) target in
  old_arg <> [] -> clean new_arg = true ->
  exact_edit_match original (normalize_edit_line_endings old_arg target) target occurrence = Ok m ->
  em_start m <= em_end m /\ em_end m <= length original /\
  original = take (em_start m) original ++ slice original (em_start m) (em_end m) ++ drop (em_end m) original /\
  crlf_to_lf (slice original (em_start m) (em_end m)) = crlf_to_lf old_arg /\
  crlf_to_lf replacement = crlf_to_lf new_arg.
Proof.
  intros target replacement Hne Hcl Hm. apply exact_edit_match_ok in Hm; [|by apply normalize_nonempty].
  pose proof (anchored_reads _ _ _ Hm) as Hread. destruct Hm as [H1 H2 H3 _].
  split_and!; [done..|]. by apply adapt_reads.
Qed.


(** One hunk of [edit.patch] *)
Lemma hunk_exact content hunk after :
  hk_old hunk <> [] -> clean (hk_new hunk) = true -> hunk_step content hunk = Ok after ->
  HunkApplied hunk content after /\ length after <= MAX_FILE_BYTES.
Proof.
  intros Hne Hcl. unfold hunk_step, apply_hunk.
  destruct (exact_edit_match _ _ _ _) as [m|e] eqn:Em; [|done].
  apply (replace_one_exact _ _ (hk_new hunk)) in Em as (H1 & H2 & H3 & H4 & H5); [|done|done].
  set (written := adapt_edit_replacement _ _ _ _) in *.
  destruct (match hk_op hunk with HunkReplace => _ | InsertBefore => _ | InsertAfter => _ end)
    as [start stop] eqn:Ep.
  destruct (negb _) eqn:Ew; [done|]. intros [= <-].
  assert (Hpos : start <= stop <= length content) by (destruct (hk_op hunk); injection Ep as <- <-; lia).
  split; [|apply single_size; [lia|lia|done]].
  pose proof (Hunk_applied hunk (take (em_start m) content) _ (drop (em_end m) content) written H4 H5) as Happ.
  rewrite <- H3 in Happ. unfold replace_range.
  assert (Hs : drop (em_start m) content =
      slice content (em_start m) (em_end m) ++ drop (em_end m) content).
  { apply (app_inv_head (take (em_start m) content)). by rewrite take_drop, <- H3. }
  assert (Ht : take (em_end m) content =
      take (em_start m) content ++ slice content (em_start m) (em_end m)).
  { apply (app_inv_tail (drop (em_end m) content)). by rewrite take_drop, <- app_assoc, <- H3. }
  destruct (hk_op hunk); injection Ep as <- <-.
  - exact Happ.
  - rewrite Hs. by rewrite <- app_assoc in Happ.
  - rewrite Ht, <- app_assoc. by rewrite <- app_assoc in Happ.
Qed.

Lemma patch_hunks_exact path content hunks after :
  Forall (fun hunk => clean (hk_new hunk) = true) hunks ->
  patch_hunks path content hunks = Ok after -> HunksApplied hunks content after.
Proof.
  intros Hcl. revert content. induction Hcl as [|hunk hunks Hc Hcl IH]; intros content; cbn [patch_hunks].
  - intros [= <-]. constructor.
  - case_bool_decide; [done|]. destruct (hunk_step content hunk) as [between|e] eqn:E; [|by destruct e].
    intros H'. apply hunk_exact in E as [H1 H2]; [|done|done]. by econstructor; [..|apply IH].
Qed.

(** ** A patch, staged as a whole *)

(** What one file of a prepared patch went through: the revision its caller named, its
    snapshot, and its hunks in order. *)
Record FileApplied (file : FilePatch) (snapshot : Snapshot) (patch : ResolvedPatch) : Prop := {
  fa_revision : forall expected, fp_base_revision file = Some expected -> sn_revision snapshot = expected;
  fa_path : rp_relative patch = sn_relative snapshot;
  fa_original : rp_original patch = sn_bytes snapshot;
  fa_hunks : HunksApplied (fp_hunks file) (sn_bytes snapshot) (rp_updated patch);
}.

Definition clean_file (file : FilePatch) : Prop := Forall (fun hunk => clean (hk_new hunk) = true) (fp_hunks file).

Definition staged_of (patch : ResolvedPatch) : text * utf8 := (rp_relative patch, rp_updated patch).

Definition prepares (staged : list (text * utf8)) : list StageEvent :=
  (fun file => Prepares file.1 file.2) <$> staged.

Definition rolls_back (staged : list (text * utf8)) : list StageEvent := (fun file => RollsBack file.1) <$> staged.

Lemma patch_file_applied file snapshot patch :
  clean_file file -> patch_file file snapshot = Ok patch -> FileApplied file snapshot patch.
Proof.
  intros Hcl. unfold patch_file. destruct (from_utf8 _); [|done].
  destruct (match fp_base_revision file with Some _ => _ | None => _ end) eqn:Er; [done|].
  destruct (patch_hunks _ _ _) as [updated|stop] eqn:E; [|done]. intros [= <-].
  split; [|done|done|by eapply patch_hunks_exact].
  intros expected Hexp. rewrite Hexp in Er. by apply negb_false_iff, bool_decide_eq_true in Er.
Qed.

Lemma patch_files_applied files snapshots patches :
  Forall clean_file files -> patch_files files snapshots = Ok patches ->
  Forall2 (fun pair patch => FileApplied pair.1 pair.2 patch) (zip files snapshots) patches.
Proof.
  intros Hcl. revert snapshots patches. induction Hcl as [|file files Hc Hcl IH]; intros [|sn sns] patches;
    cbn [patch_files]; try (intros [= <-]; constructor).
  destruct (patch_file file sn) as [patch|stop] eqn:E; [|done].
  destruct (patch_files files sns) as [rest|stop] eqn:Er; [|done]. intros [= <-].
  constructor; [by apply patch_file_applied|by apply IH].
Qed.

Lemma stage_files_events env patches staged outcome events :
  stage_files env patches staged = (outcome, events) ->
  (outcome = PatchPrepared (staged ++ (staged_of <$> patches)) /\ events = prepares (staged_of <$> patches)) \/
  exists error finished failed rest, outcome = PatchError error /\
    staged_of <$> patches = finished ++ failed :: rest /\
    events = prepares (finished ++ [failed]) ++ rolls_back (reverse (staged ++ finished)).
Proof.
  revert staged outcome events. induction patches as [|patch patches IH]; intros staged outcome events;
    cbn [stage_files].
  - intros [= <- <-]. left. by rewrite fmap_nil, app_nil_r.
  - destruct (pe_prepare env (rp_relative patch)) as [u|error].
    + destruct (stage_files env patches _) as [outcome' events'] eqn:E. intros [= <- <-].
      destruct (IH _ _ _ E) as [[-> ->]|(err & finished & failed & rest & -> & Hp & ->)].
      * left. rewrite fmap_cons, <- app_assoc. done.
      * right. exists err, (staged_of patch :: finished), failed, rest.
        rewrite fmap_cons, Hp, <- app_assoc. done.
    + unfold rollback_staged. intros [= <- <-]. right.
      eexists _, [], (staged_of patch), (staged_of <$> patches). rewrite app_nil_r. done.
Qed.

(** [edit.patch]: what a prepared patch is *)
Theorem patch_applies_named_revision env args files staged events :
  resolved_files args = Ok files -> Forall clean_file files ->
  patch_execute env args = (PatchPrepared staged, events) ->
  exists snapshots patches,
    pe_snapshots env (fp_path <$> files) = Ok snapshots /\
    Forall (fun file => pe_hidden env (fp_path file) = false) files /\
    Forall2 (fun pair patch => FileApplied pair.1 pair.2 patch) (zip files snapshots) patches /\
    staged = staged_of <$> List.filter changed patches /\ staged <> [].
Proof.
  intros Hfiles Hcl. unfold patch_execute. rewrite Hfiles.
  destruct (_ <? _); [done|]. destruct (_ || _); [done|].
  destruct (List.find _ _) as [|] eqn:Ef; [done|].
  destruct (pe_snapshots _ _) as [snapshots|error] eqn:Es; [|done].
  destruct (patch_files _ _) as [patches|stop] eqn:Ep; [|done].
  destruct (existsb changed patches) eqn:Ec; [|done]. cbn [negb]. intros H.
  apply stage_files_events in H as [[[= ->] _]|(? & ? & ? & ? & ? & _)]; [|done].
  exists snapshots, patches. split_and!; [done| |by apply patch_files_applied|done|].
  - apply Forall_forall. intros file Hin%list_elem_of_In. exact (List.find_none _ _ Ef _ Hin).
  - apply existsb_exists in Ec as (p & Hin & Hp). cbn [app]. intros Hn%fmap_nil_inv.
    assert (Hin' : List.In p (List.filter changed patches)) by (by apply List.filter_In). by rewrite Hn in Hin'.
Qed.

