(* ===== verification/ToolWitness.v ===== *)
(** The output broker and editing theorems applied at concrete outputs, with a sample printer. *)

From S2P Require Import Prelude Text Digest Jcs OutputBroker KernelWitness Operation Eol Edit.
From S2P Require Import EditTheorems.

(** ** A printer *)

Definition number_text (n : bool * list bool) : text :=
  (if n.1 then [45%N] else []) ++ 49%N :: ((fun b : bool => if b then 49%N else 48%N) <$> n.2).

Definition quoted (s : text) : text := 34%N :: s ++ [34%N].

Fixpoint comma_separated (items : list text) : text :=
  match items with
  | [] => []
  | [item] => item
  | item :: items' => item ++ 44%N :: comma_separated items'
  end.

Fixpoint sample_print (v : Json) : text :=
  match v with
  | JNull => txt "null"
  | JBool b => if b then txt "true" else txt "false"
  | JNumber n => number_text n
  | JString s => quoted s
  | JArray items => 91%N :: comma_separated (sample_print <$> items) ++ [93%N]
  | JObject entries =>
      123%N :: comma_separated ((fun e => quoted e.1 ++ 58%N :: sample_print e.2) <$> entries) ++ [125%N]
  end.

#[export] Instance sample_json_text : JsonText := { json_text v := Some (sample_print v) }.

(** A [usize] as its 64 bits. *)
Definition sample_usize (n : nat) : @Number sample_numbers :=
  (false, (fun k => N.testbit (N.of_nat n) (N.of_nat k)) <$> seq 0 64).

Lemma str_len_le_4 s : str_len s <= 4 * length s.
Proof.
  induction s as [|c s IH]; [done|]. rewrite str_len_cons. cbn [length]. pose proof (utf8_len_pos c). lia.
Qed.

Lemma marker_length (l : list bool) :
  length l = 64 ->
  length (sample_print (JObject [ (txt "truncated", JBool true); (txt "field", JString (txt "metadata"));
    (txt "original_bytes", JNumber (false, l)); (txt "cap_bytes", JNumber (sample_usize MAX_TOOL_METADATA_BYTES)) ])) <= 500.
Proof.
  intros Hl. cbn [sample_print fmap list_fmap comma_separated fst snd].
  unfold number_text, quoted, sample_usize. cbn [fst snd app length].
  repeat (rewrite ?length_app, ?length_fmap, ?length_seq, ?Hl; cbn [length app]).
  apply Nat.leb_le. vm_compute. reflexivity.
Qed.

Lemma sample_text_laws : JsonTextLaws sample_usize.
Proof.
  split.
  - intros n. exists (sample_print (oversized_marker sample_usize n)). split; [reflexivity|].
    etrans; [apply str_len_le_4|]. assert (Hmax : 4 * 500 <= MAX_TOOL_METADATA_BYTES)
      by (apply Nat.leb_le; vm_compute; reflexivity).
    etrans; [|exact Hmax]. apply Nat.mul_le_mono_l.
    apply (marker_length ((fun k => N.testbit (N.of_nat n) (N.of_nat k)) <$> seq 0 64)).
    by rewrite length_fmap, length_seq.
  - eexists. split; [reflexivity|]. apply Nat.leb_le. vm_compute. reflexivity.
Qed.

(** ** A large read *)

Definition window_metadata : Json :=
  JObject [ (txt "start_line", JNumber (false, [])); (txt "pad", JString (replicate (N.to_nat 7000) 120%N)) ].

Definition large_output : OutputView := {|
  ov_summary := replicate (N.to_nat 2000) 115%N;
  ov_model_content := replicate (N.to_nat 16000) 97%N;
  ov_artifact_ref := None;
  ov_metadata := window_metadata |}.

Definition stored_env : BrokerEnv := {|
  be_number := sample_usize; be_write := fun _ => Some (txt "artifact://run/1"); be_open := fun r => Some r |}.

Definition shown_output : OutputView := (bound stored_env None large_output).1.

Lemma stamp_overruns_total_witness : total_chars shown_output = MAX_TOOL_OUTPUT_TOTAL_CHARS + 24.
Proof.
  unfold shown_output. destruct (bound_fields stored_env None large_output) as [o1 sp1] eqn:E1.
  destruct (bound stored_env None large_output) as [o2 sp2] eqn:E2.
  assert (Ho1 : o1 = (bound_fields stored_env None large_output).1) by (by rewrite E1).
  assert (Hlt : MAX_TOOL_OUTPUT_TOTAL_CHARS < total_chars o1)
    by (rewrite Ho1; apply Nat.ltb_lt; vm_compute; reflexivity).
  assert (Hfit : metadata_fits (invalidate_window (ov_metadata o1)))
    by (rewrite Ho1; eexists; split; [reflexivity|apply Nat.leb_le; vm_compute; reflexivity]).
  pose proof (stamp_overruns_total stored_env None large_output o1 o2 sp1 sp2 sample_text_laws E1 Hlt Hfit E2) as H.
  assert (Hg : metadata_chars (invalidate_window (ov_metadata o1)) = metadata_chars (ov_metadata o1) + 24)
    by (rewrite Ho1; apply Nat.eqb_eq; vm_compute; reflexivity).
  cbn [fst]. lia.
Defined.

Lemma output_bounded_witness : length (ov_model_content shown_output) <= content_cap None.
Proof.
  unfold shown_output. destruct (bound stored_env None large_output) as [o2 sp2] eqn:E2.
  exact (proj1 (proj2 (output_bounded stored_env None large_output o2 sp2 sample_text_laws E2))).
Defined.

Lemma reference_is_ours_witness :
  exists stored, (stored, Some (txt "artifact://run/1")) ∈ (bound stored_env (Some 10) large_output).2 /\
    (stored = ov_model_content large_output \/
     (ov_model_content large_output, None) ∈ (bound stored_env (Some 10) large_output).2).
Proof.
  assert (Hr : ov_artifact_ref (bound stored_env (Some 10) large_output).1 = Some (txt "artifact://run/1"))
    by (vm_compute; reflexivity).
  assert (Hn : length (ov_model_content (bound stored_env (Some 10) large_output).1) = 10)
    by (vm_compute; reflexivity).
  destruct (bound stored_env (Some 10) large_output) as [o2 sp2] eqn:E2. cbn [fst snd] in *.
  destruct (reference_is_ours stored_env (Some 10) large_output o2 sp2 E2) as [H _].
  refine (H _ Hr _). intros Heq. rewrite Heq in Hn. vm_compute in Hn. discriminate.
Defined.

Definition flaky_env : BrokerEnv := {|
  be_number := sample_usize; be_write := fun k => if k is 0 then None else Some (txt "artifact://run/2");
  be_open := fun r => Some r |}.

Definition larger_output : OutputView := {|
  ov_summary := ov_summary large_output; ov_model_content := replicate (N.to_nat 20000) 97%N;
  ov_artifact_ref := None; ov_metadata := window_metadata |}.

Lemma retry_stores_preview_witness :
  ov_artifact_ref (bound flaky_env None larger_output).1 = Some (txt "artifact://run/2").
Proof.
  destruct (bound_fields flaky_env None larger_output) as [o1 sp1] eqn:E1.
  destruct (bound flaky_env None larger_output) as [o2 sp2] eqn:E2.
  assert (Ho1 : o1 = (bound_fields flaky_env None larger_output).1) by (by rewrite E1).
  exact (proj1 (retry_stores_preview flaky_env None larger_output o1 o2 sp1 sp2 (txt "artifact://run/2")
    ltac:(apply Nat.ltb_lt; vm_compute; reflexivity) eq_refl eq_refl E1
    ltac:(rewrite Ho1; apply Nat.ltb_lt; vm_compute; reflexivity) E2)).
Defined.

(** The editing theorems applied to concrete files: a file with mixed line breaks, a
    patch of two hunks, and a patch whose second file cannot be staged. *)

Definition bytes_of (s : string) : utf8 := txt s.

(** "one CRLF two LF three CRLF": the anchor spans two kinds of line breaks. *)
Definition mixed_file : utf8 :=
  bytes_of "one" ++ [CR; LF] ++ bytes_of "two" ++ [LF] ++ bytes_of "three" ++ [CR; LF].

Definition anchor : utf8 := bytes_of "one" ++ [LF] ++ bytes_of "two" ++ [LF].
Definition new_lines : utf8 := bytes_of "uno" ++ [LF] ++ bytes_of "dos" ++ [LF] ++ bytes_of "tres" ++ [LF].

Definition mixed_result : utf8 :=
  bytes_of "uno" ++ [CR; LF] ++ bytes_of "dos" ++ [LF] ++ bytes_of "tres" ++ [LF] ++ bytes_of "three" ++ [CR; LF].


(** ** Patches *)

Definition two_hunks : list Hunk := [
  {| hk_op := InsertBefore; hk_old := bytes_of "two"; hk_new := bytes_of "half "; hk_occurrence := None |};
  {| hk_op := HunkReplace; hk_old := bytes_of "half two"; hk_new := bytes_of "2"; hk_occurrence := Some 1 |} ].

Definition named_file (path revision : string) : FilePatch :=
  {| fp_path := txt path; fp_base_revision := Some (txt revision); fp_hunks := two_hunks |}.

Definition sample_snapshot (path : text) : Snapshot :=
  {| sn_relative := path; sn_revision := txt "r1"; sn_bytes := mixed_file |}.

(** A workspace of equal files; [bad] cannot be staged. *)
Definition sample_env : PatchEnv := {|
  pe_hidden := fun path => bool_decide (path = txt ".env");
  pe_snapshots := fun paths => Ok (sample_snapshot <$> paths);
  pe_prepare := fun path => if bool_decide (path = txt "bad") then Err (InvalidRequest (txt "no space")) else Ok ();
  pe_rollback := fun _ => Ok () |}.

Definition sample_args (files : list FilePatch) : PatchArgs :=
  {| pa_files := files; pa_path := None; pa_base_revision := None; pa_hunks := [] |}.

Definition patched : utf8 :=
  bytes_of "one" ++ [CR; LF] ++ bytes_of "2" ++ [LF] ++ bytes_of "three" ++ [CR; LF].

Lemma patch_applies_named_revision_witness :
  exists snapshots patches,
    Forall2 (fun pair patch => FileApplied pair.1 pair.2 patch) (zip [named_file "a" "r1"] snapshots) patches /\
    [(txt "a", patched)] = staged_of <$> List.filter changed patches.
Proof.
  destruct (patch_applies_named_revision sample_env (sample_args [named_file "a" "r1"]) [named_file "a" "r1"]
    [(txt "a", patched)] [Prepares (txt "a") patched]) as (snapshots & patches & _ & _ & H & Hs & _).
  - reflexivity.
  - apply Forall_cons_2; [|apply Forall_nil_2]. apply Forall_cons_2; [reflexivity|].
    apply Forall_cons_2; [reflexivity|apply Forall_nil_2].
  - vm_compute. reflexivity.
  - by exists snapshots, patches.
Defined.


(** ** A lone CR in front of a line break *)

(** The CR of "x CR CR LF" is an ordinary byte, but in a file of LF line breaks the edit
    writes "x CR LF": a CRLF the file did not have. *)
Theorem lone_cr_becomes_crlf :
  match replace_text [97; LF; 98; LF]%N [97%N] [120; CR; CR; LF]%N None false with
  | Ok done_edit => ed_updated done_edit = [120; CR; LF; LF; 98; LF]%N
  | Err _ => False
  end.
Proof. reflexivity. Qed.
