(* ===== verification/Events.v ===== *)
(** Runtime events: the trace writer and the bounded tail read of
    agent-storage/lib.rs ([FileEventJournal]), and the single write path of
    agent-core/authority.rs ([EventAuthority]).

    The writer task drains a FIFO channel, so its commands run in the order they
    were sent; a run of it is a sequence of appends and barriers. Bytes written
    but not yet behind a successful [sync_all] are kept apart from the synced
    ones. What each I/O step does is a script. [RuntimeEvent] is carried
    unchanged and its JSON row comes from [serde_json]. *)

From S2P Require Import Prelude Text Operation Journal Wal.

(** ** Envelopes *)

Section events.
Context {Event : Type}.

Record RuntimeEventEnvelope : Type := {
  ev_run_id : N;
  ev_seq : N;
  ev_timestamp_ms : N;
  ev_event : Event;
}.

(** The JSON row of an envelope. *)
Class TraceCodec := {
  row_to_vec : RuntimeEventEnvelope -> bytes;
  row_from_str : text -> option RuntimeEventEnvelope;
}.

(** ** The trace writer *)

Inductive AppendOutcome : Type :=
| TraceAppends
| TraceOpenFails
| TraceWriteStops (written : nat).

(** On a failed barrier each run's first bytes may have reached the disk. *)
Inductive FlushOutcome : Type :=
| TraceFlushes
| TraceFlushFails (reached : N -> nat).

Record FileEventJournal : Type := {
  ew_synced : gmap N bytes;       (* the trace files, behind the last barrier *)
  ew_writers : gmap N bytes;      (* open writers and what they have not synced *)
  ew_failed : option text;
  ew_append_io : list AppendOutcome;
  ew_flush_io : list FlushOutcome;
}.

Context `{TC : TraceCodec}.

Definition trace_row (e : RuntimeEventEnvelope) : bytes := row_to_vec e ++ [NEWLINE].

Definition set_writer (w : FileEventJournal) (run : N) (pending : bytes) : FileEventJournal :=
  {| ew_synced := ew_synced w; ew_writers := <[run := pending]> (ew_writers w);
     ew_failed := ew_failed w; ew_append_io := ew_append_io w; ew_flush_io := ew_flush_io w |}.

Definition append_event (io : AppendOutcome) (e : RuntimeEventEnvelope) (w : FileEventJournal) :
    AgentResult unit * FileEventJournal :=
  let run := ev_run_id e in
  let opened :=
    match ew_writers w !! run, io with
    | Some pending, _ => Ok pending
    | None, TraceOpenFails => Err (Storage (txt "open trace"))
    | None, _ => Ok []
    end in
  match opened with
  | Err error => (Err error, w)
  | Ok pending =>
      match io with
      | TraceWriteStops n =>
          (Err (Storage (txt "append trace event")),
           set_writer w run (pending ++ take n (trace_row e)))
      | _ => (Ok tt, set_writer w run (pending ++ trace_row e))
      end
  end.

(** The bytes a barrier carries to the trace file of each open writer. *)
Definition sync_writers (reached : N -> bytes -> bytes) (w : FileEventJournal) : gmap N bytes :=
  merge (fun synced pending =>
      match pending with
      | Some pending => Some (default [] synced ++ pending)
      | None => synced
      end)
    (ew_synced w) (map_imap (fun run pending => Some (reached run pending)) (ew_writers w)).

Definition flush_all (io : FlushOutcome) (w : FileEventJournal) :
    AgentResult unit * FileEventJournal :=
  match io with
  | TraceFlushes =>
      (Ok tt, {| ew_synced := sync_writers (fun _ pending => pending) w;
                 ew_writers := (fun _ => []) <$> ew_writers w; ew_failed := ew_failed w;
                 ew_append_io := ew_append_io w; ew_flush_io := ew_flush_io w |})
  | TraceFlushFails reached =>
      (Err (Storage (txt "flush trace")),
       {| ew_synced := sync_writers (fun run pending => take (reached run) pending) w;
          ew_writers := map_imap (fun run pending => Some (drop (reached run) pending))
            (ew_writers w);
          ew_failed := ew_failed w;
          ew_append_io := ew_append_io w; ew_flush_io := ew_flush_io w |})
  end.

Definition set_failed (w : FileEventJournal) (error : AgentError) : FileEventJournal :=
  {| ew_synced := ew_synced w; ew_writers := ew_writers w;
     ew_failed := Some (display_error error); ew_append_io := ew_append_io w;
     ew_flush_io := ew_flush_io w |}.

Definition next_append (w : FileEventJournal) : AppendOutcome * FileEventJournal :=
  match ew_append_io w with
  | [] => (TraceAppends, w)
  | io :: rest =>
      (io, {| ew_synced := ew_synced w; ew_writers := ew_writers w; ew_failed := ew_failed w;
              ew_append_io := rest; ew_flush_io := ew_flush_io w |})
  end.

Definition next_flush (w : FileEventJournal) : FlushOutcome * FileEventJournal :=
  match ew_flush_io w with
  | [] => (TraceFlushes, w)
  | io :: rest =>
      (io, {| ew_synced := ew_synced w; ew_writers := ew_writers w; ew_failed := ew_failed w;
              ew_append_io := ew_append_io w; ew_flush_io := rest |})
  end.

(** [append]: the command is enqueued, so the caller sees success; the writer
    drops it once it has failed. *)
Definition trace_append (e : RuntimeEventEnvelope) : M FileEventJournal AgentError unit := fun w =>
  match ew_failed w with
  | Some _ => (Ok tt, w)
  | None =>
      let '(io, w) := next_append w in
      match append_event io e w with
      | (Ok _, w) => (Ok tt, w)
      | (Err error, w) => (Ok tt, set_failed w error)
      end
  end.

(** [flush]: the barrier, answered by the writer. *)
Definition trace_flush : M FileEventJournal AgentError unit := fun w =>
  match ew_failed w with
  | Some error => (Err (Storage error), w)
  | None =>
      let '(io, w) := next_flush w in
      match flush_all io w with
      | (Ok _, w) => (Ok tt, w)
      | (Err error, w) => (Err error, set_failed w error)
      end
  end.

(** ** The bounded tail read *)

Definition MAX_TAIL_SCAN_BYTES : nat := N.to_nat 8388608.
Definition MAX_TAIL_LINE_BYTES : nat := N.to_nat 1048576.

(** What [File::open] finds. *)
Inductive TraceFile : Type :=
| TraceData (data : bytes)
| TraceMissing
| TraceUnreadable.

(** [BufRead::read_line] up to and with the newline: the line and the rest. *)
Fixpoint read_line (input : bytes) : bytes * bytes :=
  match input with
  | [] => ([], [])
  | b :: input' =>
      if (b =? NEWLINE)%N then ([b], input')
      else let '(line, rest) := read_line input' in (b :: line, rest)
  end.

(** [BufRead::lines], before their decoding: each line without its newline and
    whether it had one. *)
Fixpoint split_lines (input : bytes) : list (bytes * bool) :=
  match input with
  | [] => []
  | b :: input' =>
      if (b =? NEWLINE)%N then ([], true) :: split_lines input'
      else match split_lines input' with
           | (line, ended) :: lines => (b :: line, ended) :: lines
           | [] => [([b], false)]
           end
  end.

(** The carriage return [lines] strips before a newline. *)
Definition strip_cr (line : bytes * bool) : bytes :=
  if line.2 && bool_decide (last line.1 = Some 13%N) then removelast line.1 else line.1.

(** The loop over the lines, with the ring of the newest [max] envelopes. *)
Fixpoint tail_rows (max : nat) (lines : list (bytes * bool)) (ring : list RuntimeEventEnvelope)
    (overflow : bool) : AgentResult (list RuntimeEventEnvelope * bool) :=
  match lines with
  | [] => Ok (ring, overflow)
  | line :: lines' =>
      match from_utf8 (strip_cr line) with
      | None => Err (Storage (txt "read trace"))
      | Some line =>
          if bool_decide (trim line = []) then tail_rows max lines' ring overflow
          else if MAX_TAIL_LINE_BYTES <? str_len line
          then Err (Storage (txt "trace holds a row above the single-row cap"))
          else
            match row_from_str line with
            | None => Err (Storage (txt "trace holds an undecodable row"))
            | Some envelope =>
                if length ring =? max
                then tail_rows max lines' (drop 1 ring ++ [envelope]) true
                else tail_rows max lines' (ring ++ [envelope]) overflow
            end
      end
  end.

Definition read_trace_tail (file : TraceFile) (max : nat) :
    AgentResult (option (list RuntimeEventEnvelope * bool)) :=
  if max =? 0 then Ok (Some ([], false))
  else
    match file with
    | TraceMissing | TraceUnreadable => Ok (Some ([], true))
    | TraceData data =>
        let file_len := length data in
        let window := file_len `min` MAX_TAIL_SCAN_BYTES in
        let window_starts_at_file_start := window =? file_len in
        let reader := drop (file_len - window) data in
        let? reader :=
          if window_starts_at_file_start then Ok reader
          else
            let '(first, rest) := read_line reader in
            match from_utf8 first with
            | Some _ => Ok rest
            | None => Err (Storage (txt "read trace"))
            end in
        let? rows := tail_rows max (split_lines reader) [] false in
        Ok (Some (rows.1, window_starts_at_file_start && negb rows.2))
    end.

(** [FileEventJournal::read_tail]: the barrier, then the scan of the run's trace
    file. *)
Definition read_tail (run : N) (max : nat) :
    M FileEventJournal AgentError (option (list RuntimeEventEnvelope * bool)) := fun w =>
  match trace_flush w with
  | (Err error, w) => (Err error, w)
  | (Ok _, w) =>
      let file := match ew_synced w !! run with
                  | Some data => TraceData data
                  | None => TraceMissing
                  end in
      (read_trace_tail file max, w)
  end.

(** ** The event authority *)

(** [trait EventJournal]. *)
Class EventJournal (J : Type) := {
  event_append : RuntimeEventEnvelope -> M J AgentError unit;
  event_flush : M J AgentError unit;
}.

(** The broadcast channel as the list of envelopes sent on it. *)
Record EventAuthority (J : Type) : Type := {
  ea_journal : option J;
  ea_sent : list RuntimeEventEnvelope;
  ea_seq : N;
}.
Arguments ea_journal {J}.
Arguments ea_sent {J}.
Arguments ea_seq {J}.

Section authority.
Context {J : Type} `{EJ : EventJournal J}.

Definition envelope (run_id now : N) (event : Event) (a : EventAuthority J) :
    RuntimeEventEnvelope :=
  {| ev_run_id := run_id; ev_seq := ea_seq a + 1; ev_timestamp_ms := now; ev_event := event |}.

Definition set_ea_journal (a : EventAuthority J) (j : option J) : EventAuthority J :=
  {| ea_journal := j; ea_sent := ea_sent a; ea_seq := ea_seq a |}.

Definition set_ea_seq (a : EventAuthority J) (seq : N) : EventAuthority J :=
  {| ea_journal := ea_journal a; ea_sent := ea_sent a; ea_seq := seq |}.

Definition send (a : EventAuthority J) (es : list RuntimeEventEnvelope) : EventAuthority J :=
  {| ea_journal := ea_journal a; ea_sent := ea_sent a ++ es; ea_seq := ea_seq a |}.

(** The journal append of one envelope, when a journal is attached. *)
Definition journal_envelope (e : RuntimeEventEnvelope) : M (EventAuthority J) AgentError unit :=
  fun a =>
    match ea_journal a with
    | None => (Ok tt, a)
    | Some j => match event_append e j with (res, j') => (res, set_ea_journal a (Some j')) end
    end.

Definition flush_events : M (EventAuthority J) AgentError unit := fun a =>
  match ea_journal a with
  | None => (Ok tt, a)
  | Some j => match event_flush j with (res, j') => (res, set_ea_journal a (Some j')) end
  end.

Definition emit (run_id now : N) (event : Event) : M (EventAuthority J) AgentError unit := fun a =>
  let e := envelope run_id now event a in
  match journal_envelope e a with
  | (Err error, a) => (Err error, a)
  | (Ok _, a) => (Ok tt, send (set_ea_seq a (ev_seq e)) [e])
  end.

Definition MAX_DURABLE_BATCH_EVENTS : nat := 64.

(** The append loop of [emit_batch_durable]; each event has its own timestamp. *)
Fixpoint append_batch (run_id : N) (events : list (N * Event))
    (envelopes : list RuntimeEventEnvelope) :
    M (EventAuthority J) AgentError (list RuntimeEventEnvelope) := fun a =>
  match events with
  | [] => (Ok envelopes, a)
  | (now, event) :: events' =>
      let e := envelope run_id now event a in
      match journal_envelope e a with
      | (Err error, a) => (Err error, a)
      | (Ok _, a) => append_batch run_id events' (envelopes ++ [e]) (set_ea_seq a (ev_seq e))
      end
  end.

Definition emit_batch_durable (run_id : N) (events : list (N * Event)) :
    M (EventAuthority J) AgentError unit := fun a =>
  if bool_decide (length events = 0) then (Ok tt, a)
  else if MAX_DURABLE_BATCH_EVENTS <? length events
  then (Err (InvalidRequest (txt "durable event batch is above the cap")), a)
  else
    match append_batch run_id events [] a with
    | (Err error, a) => (Err error, a)
    | (Ok envelopes, a) =>
        match flush_events a with
        | (Err error, a) => (Err error, a)
        | (Ok _, a) => (Ok tt, send a envelopes)
        end
    end.

Definition emit_durable (run_id now : N) (event : Event) : M (EventAuthority J) AgentError unit :=
  emit_batch_durable run_id [(now, event)].

End authority.
End events.
Arguments RuntimeEventEnvelope : clear implicits.
Arguments TraceCodec : clear implicits.
Arguments EventAuthority : clear implicits.
Arguments EventJournal : clear implicits.
Arguments ea_journal {Event J}.
Arguments ea_sent {Event J}.
Arguments ea_seq {Event J}.
