(* ===== verification/EventTheorems.v ===== *)
(** The trace barrier is a durability barrier, the event authority numbers its
    events without gaps and publishes durable batches only behind the barrier,
    and the bounded tail read never invents or misplaces history. *)

From S2P Require Import Prelude Text Operation Journal Wal Events.

(** ** What the row codec provides *)

Class TraceCodecLaws (Event : Type) `{TC : TraceCodec Event} := {
  row_decodes : forall e, exists t,
    from_utf8 (row_to_vec e) = Some t /\ row_from_str t = Some e /\ trim t <> [];
  row_no_newline : forall e, NEWLINE ∉ row_to_vec e;
  row_no_cr : forall e, last (row_to_vec e) <> Some 13%N;
}.

Section facts.
Context {Event : Type} `{TC : TraceCodec Event} `{TCL : !TraceCodecLaws Event}.
Implicit Types (l log dur : list (RuntimeEventEnvelope Event)).

Definition rows l : bytes := l ≫= trace_row.

Lemma rows_app l1 l2 : rows (l1 ++ l2) = rows l1 ++ rows l2.
Proof. apply bind_app. Qed.

(** ** The trace file *)

Definition of_run (run : N) l : list (RuntimeEventEnvelope Event) :=
  filter (fun e => ev_run_id e = run) l.

Lemma of_run_app run l1 l2 : of_run run (l1 ++ l2) = of_run run l1 ++ of_run run l2.
Proof. apply filter_app. Qed.

Lemma of_run_one run e : of_run run [e] = if decide (ev_run_id e = run) then [e] else [].
Proof. unfold of_run. rewrite filter_cons. by destruct (decide _). Qed.

Definition synced (w : FileEventJournal) (run : N) : bytes := default [] (ew_synced w !! run).
Definition pending (w : FileEventJournal) (run : N) : bytes := default [] (ew_writers w !! run).

(** [log] was handed to the journal, [dur] is behind a barrier. *)
Record trace_rep (w : FileEventJournal) log dur : Prop := {
  tr_prefix : dur `prefix_of` log;
  tr_synced : forall run, rows (of_run run dur) `prefix_of` synced w run;
  tr_written : ew_failed w = None ->
    forall run, synced w run ++ pending w run = rows (of_run run log);
}.

Lemma sync_writers_lookup reached w run :
  sync_writers reached w !! run =
  match ew_writers w !! run with
  | Some p => Some (synced w run ++ reached run p)
  | None => ew_synced w !! run
  end.
Proof.
  unfold sync_writers. rewrite lookup_merge, map_lookup_imap. unfold synced.
  destruct (ew_synced w !! run), (ew_writers w !! run); done.
Qed.

Lemma default_sync reached w run :
  (forall r, reached r [] = []) ->
  default [] (sync_writers reached w !! run) = synced w run ++ reached run (pending w run).
Proof.
  intros Hr. rewrite sync_writers_lookup. unfold pending.
  destruct (ew_writers w !! run); [done|]. cbn. by rewrite Hr, app_nil_r.
Qed.

Lemma default_cleared (m : gmap N bytes) run :
  default [] (((fun _ => []) <$> m : gmap N bytes) !! run) = [].
Proof. rewrite lookup_fmap. by destruct (m !! run). Qed.

Lemma rep_failed w log dur reason e :
  trace_rep w log dur -> ew_failed w = Some reason -> trace_rep w (log ++ [e]) dur.
Proof.
  intros [H1 H2 H3] Hf. split; [by apply prefix_app_r|done|congruence].
Qed.

(** Only the fields that matter. *)
Lemma rep_same w w' log dur :
  ew_synced w' = ew_synced w -> ew_writers w' = ew_writers w -> ew_failed w' = ew_failed w ->
  trace_rep w log dur -> trace_rep w' log dur.
Proof.
  intros Hs Hw Hf [H1 H2 H3]. unfold synced, pending in *.
  split; [done|by intros; unfold synced; rewrite Hs|].
  intros Hn run. unfold synced, pending. rewrite Hs, Hw. apply H3. congruence.
Qed.

Lemma rep_fails w log dur error e :
  trace_rep w log dur -> trace_rep (set_failed w error) (log ++ [e]) dur.
Proof. intros [H1 H2 H3]. split; [by apply prefix_app_r|exact H2|by intros Hn]. Qed.

Lemma rep_set_writer_failed w log dur error e run p :
  trace_rep w log dur -> trace_rep (set_failed (set_writer w run p) error) (log ++ [e]) dur.
Proof. intros [H1 H2 H3]. split; [by apply prefix_app_r|exact H2|by intros Hn]. Qed.

Lemma rep_written w log dur e :
  trace_rep w log dur -> ew_failed w = None ->
  trace_rep (set_writer w (ev_run_id e) (pending w (ev_run_id e) ++ trace_row e)) (log ++ [e]) dur.
Proof.
  intros [H1 H2 H3] Hf. split; [by apply prefix_app_r|exact H2|]. intros _ run.
  rewrite of_run_app, rows_app, <- H3, of_run_one by done. unfold synced, pending. cbn.
  destruct (decide (ev_run_id e = run)) as [<-|Hne].
  - rewrite lookup_insert_eq. cbn. by rewrite (assoc_L (++)), app_nil_r.
  - rewrite lookup_insert_ne by done. change (rows []) with (@nil N). by rewrite app_nil_r.
Qed.

Lemma trace_append_rep e w res w' log dur :
  trace_rep w log dur -> trace_append e w = (res, w') ->
  res = Ok tt /\ trace_rep w' (log ++ [e]) dur.
Proof.
  intros Hrep. unfold trace_append. destruct (ew_failed w) as [reason|] eqn:Ef.
  { intros [= <- <-]. split; [done|by eapply rep_failed]. }
  destruct (next_append w) as [io w1] eqn:En.
  assert (H1 : trace_rep w1 log dur /\ ew_failed w1 = None).
  { unfold next_append in En. destruct (ew_append_io w); injection En as _ <-; [done|].
    split; [by apply (rep_same w)|done]. }
  destruct H1 as [H1 Hf1]. unfold append_event.
  assert (Hp : forall p, ew_writers w1 !! ev_run_id e = Some p -> pending w1 (ev_run_id e) = p)
    by (by intros p Hp; unfold pending; rewrite Hp).
  assert (Hn : ew_writers w1 !! ev_run_id e = None -> pending w1 (ev_run_id e) = [])
    by (by intros Hn; unfold pending; rewrite Hn).
  destruct (ew_writers w1 !! ev_run_id e) as [p|], io; intros [= <- <-];
    (split; [done|]);
    first [by apply rep_fails | by apply rep_set_writer_failed
          | rewrite <- (Hp p eq_refl); by apply rep_written
          | pose proof (rep_written w1 log dur e H1 Hf1) as H; by rewrite (Hn eq_refl) in H].
Qed.

Lemma trace_flush_rep w res w' log dur :
  trace_rep w log dur -> trace_flush w = (res, w') ->
  match res with Ok _ => trace_rep w' log log | Err _ => trace_rep w' log dur end.
Proof.
  intros Hrep. unfold trace_flush. destruct (ew_failed w) as [reason|] eqn:Ef.
  { by intros [= <- <-]. }
  destruct (next_flush w) as [io w1] eqn:En.
  assert (H1 : trace_rep w1 log dur /\ ew_failed w1 = None).
  { unfold next_flush in En. destruct (ew_flush_io w); injection En as _ <-; [done|].
    split; [by apply (rep_same w)|done]. }
  destruct H1 as [[H1 H2 H3] Hf1]. specialize (H3 Hf1).
  destruct io as [|reached]; intros [= <- <-].
  - assert (Hs : forall run, default [] (sync_writers (fun _ p => p) w1 !! run) =
      rows (of_run run log)) by (intros run; rewrite default_sync by done; apply H3).
    split; [done| |].
    + intros run. unfold synced. cbn. by rewrite Hs.
    + intros _ run. unfold synced, pending. cbn. by rewrite Hs, default_cleared, app_nil_r.
  - split; [done| |done]. intros run. unfold synced. cbn.
    rewrite default_sync by (intros; apply take_nil). apply prefix_app_r, H2.
Qed.

(** ** The journal interface *)

Class EventJournalLaws (J : Type) `{EJ : EventJournal Event J} := {
  event_rep : J -> list (RuntimeEventEnvelope Event) -> list (RuntimeEventEnvelope Event) -> Prop;
  event_append_rep : forall e j res j' log dur,
    event_rep j log dur -> event_append e j = (res, j') ->
    event_rep j' (match res with Ok _ => log ++ [e] | Err _ => log end) dur;
  event_flush_rep : forall j res j' log dur,
    event_rep j log dur -> event_flush j = (res, j') ->
    match res with Ok _ => event_rep j' log log | Err _ => event_rep j' log dur end;
}.

#[export] Instance file_event_journal : EventJournal Event FileEventJournal := {
  event_append := trace_append;
  event_flush := trace_flush;
}.

#[export] Program Instance file_event_journal_laws : EventJournalLaws FileEventJournal := {
  event_rep := trace_rep;
}.
Next Obligation.
  intros e j res j' log dur Hrep Ha. cbn in Ha.
  by apply (trace_append_rep _ _ _ _ _ _ Hrep) in Ha as [-> ?].
Qed.
Next Obligation. intros j res j' log dur Hrep Hf. by apply (trace_flush_rep _ _ _ _ _ Hrep) in Hf. Qed.

End facts.

(** The event guarantees: the trace barrier, the durable batch, and the bounded
    tail read with its decoding window. *)

Section theorems.
Context {Event : Type} `{TC : TraceCodec Event} `{TCL : !TraceCodecLaws Event}.
Implicit Types (l log dur new : list (RuntimeEventEnvelope Event)).

(** ** The trace barrier *)

Inductive TraceCommand : Type :=
| TraceAppend (e : RuntimeEventEnvelope Event)
| TraceBarrier.

(** Run the writer's commands; the results of the barriers, in order. *)
Fixpoint run_trace (cmds : list TraceCommand) (w : FileEventJournal) :
    list (AgentResult unit) * FileEventJournal :=
  match cmds with
  | [] => ([], w)
  | TraceAppend e :: cmds' => run_trace cmds' (trace_append e w).2
  | TraceBarrier :: cmds' =>
      let '(res, w1) := trace_flush w in
      let '(rs, w2) := run_trace cmds' w1 in (res :: rs, w2)
  end.

Definition appended (cmds : list TraceCommand) : list (RuntimeEventEnvelope Event) :=
  cmds ≫= fun c => match c with TraceAppend e => [e] | TraceBarrier => [] end.

Definition fresh_writer (append_io : list AppendOutcome) (flush_io : list FlushOutcome) :
    FileEventJournal :=
  {| ew_synced := ∅; ew_writers := ∅; ew_failed := None; ew_append_io := append_io;
     ew_flush_io := flush_io |}.

Lemma fresh_rep aio fio : trace_rep (fresh_writer aio fio) [] [].
Proof.
  split; [done| |].
  - intros run. apply prefix_nil.
  - intros _ run. unfold synced, pending. cbn. by rewrite !lookup_empty.
Qed.

Lemma run_trace_rep cmds w rs w' log dur :
  trace_rep w log dur -> run_trace cmds w = (rs, w') ->
  exists dur', trace_rep w' (log ++ appended cmds) dur'.
Proof.
  revert w rs log dur. induction cmds as [|[e|] cmds IH]; intros w rs log dur Hrep; cbn.
  - intros [= <- <-]. exists dur. by rewrite app_nil_r.
  - destruct (trace_append e w) as [res w1] eqn:Ea. intros Hrun.
    destruct (trace_append_rep _ _ _ _ _ _ Hrep Ea) as [_ Hrep1].
    destruct (IH _ _ _ _ Hrep1 Hrun) as [dur' Hd]. exists dur'.
    by rewrite <- (assoc_L (++)) in Hd.
  - destruct (trace_flush w) as [res w1] eqn:Ef. destruct (run_trace cmds w1) as [rs2 w2] eqn:E2.
    intros [= <- <-]. pose proof (trace_flush_rep _ _ _ _ _ Hrep Ef) as Hrep1.
    by destruct res; destruct (IH _ _ _ _ Hrep1 E2) as [dur' Hd]; exists dur'.
Qed.

Lemma run_trace_app c1 c2 w rs1 w1 :
  run_trace c1 w = (rs1, w1) ->
  run_trace (c1 ++ c2) w = (rs1 ++ (run_trace c2 w1).1, (run_trace c2 w1).2).
Proof.
  revert w rs1. induction c1 as [|[e|] c1 IH]; intros w rs1; cbn.
  - intros [= <- <-]. by destruct (run_trace c2 w).
  - apply IH.
  - destruct (trace_flush w) as [res w2]. destruct (run_trace c1 w2) as [rs w3] eqn:E.
    intros [= <- <-]. by rewrite (IH _ _ E).
Qed.

Lemma failed_sticky cmds w reason rs w' :
  ew_failed w = Some reason -> run_trace cmds w = (rs, w') ->
  ew_failed w' = Some reason /\ Forall (fun r => is_Ok r = false) rs.
Proof.
  revert w rs. induction cmds as [|[e|] cmds IH]; intros w rs Hf; cbn.
  - by intros [= <- <-].
  - unfold trace_append. rewrite Hf. by apply IH.
  - unfold trace_flush. rewrite Hf. destruct (run_trace cmds w) as [rs2 w2] eqn:E.
    intros [= <- <-]. destruct (IH _ _ Hf E) as [? ?]. split; [done|by constructor].
Qed.

(** The trace barrier: however the disk behaves, when a barrier succeeds every
    envelope handed to the journal before it, of every run, is in its run's trace
    file behind stable storage, complete and in order; and a barrier that fails
    poisons the writer, so no later barrier ever reports success over the gap. *)
Theorem trace_barrier aio fio before after rs w :
  run_trace (before ++ TraceBarrier :: after) (fresh_writer aio fio) = (rs, w) ->
  let '(rs1, w1) := run_trace before (fresh_writer aio fio) in
  match trace_flush w1 with
  | (Ok _, w2) => forall run, synced w2 run = rows (of_run run (appended before))
  | (Err _, _) => Forall (fun r => is_Ok r = false) (drop (length rs1) rs)
  end.
Proof.
  destruct (run_trace before (fresh_writer aio fio)) as [rs1 w1] eqn:E1.
  rewrite (run_trace_app _ _ _ _ _ E1). cbn.
  destruct (run_trace_rep _ _ _ _ _ _ (fresh_rep aio fio) E1) as [dur Hrep]. cbn in Hrep.
  destruct (trace_flush w1) as [res w2] eqn:Ef.
  pose proof (trace_flush_rep _ _ _ _ _ Hrep Ef) as Hrep2.
  destruct (run_trace after w2) as [rs2 w3] eqn:E2. intros [= <- <-]. rewrite drop_app_length.
  destruct res as [u|error].
  - intros run. destruct Hrep2 as [_ Hs Hw].
    assert (Hf : ew_failed w2 = None /\ pending w2 run = []).
    { revert Ef. unfold trace_flush. destruct (ew_failed w1) eqn:Ef1; [done|].
      unfold next_flush. destruct (ew_flush_io w1) as [|[|reached] io]; cbn; intros [= _ <-]; cbn;
        (split; [done|]); unfold pending; cbn; by rewrite default_cleared. }
    destruct Hf as [Hf Hp]. by rewrite <- (Hw Hf run), Hp, app_nil_r.
  - assert (Hf : exists reason, ew_failed w2 = Some reason).
    { revert Ef. unfold trace_flush. destruct (ew_failed w1) eqn:Ef1.
      - intros [= _ <-]. eauto.
      - unfold next_flush. destruct (ew_flush_io w1) as [|[|reached] io]; cbn; intros [= <- <-];
          cbn; eauto. }
    destruct Hf as [reason Hf]. destruct (failed_sticky _ _ _ _ _ Hf E2) as [_ Hall].
    by constructor.
Qed.

(** ** The event authority *)

Context {J : Type} `{EJ : EventJournal Event J} `{EJL : !EventJournalLaws J}.

(** [log] is what the authority numbered and the journal accepted, [dur] what is
    behind a barrier. *)
Record ea_rep (a : EventAuthority Event J) log dur : Prop := {
  er_journal : forall j, ea_journal a = Some j -> event_rep j log dur;
  er_seq : ea_seq a = N.of_nat (length log);
  er_numbered : forall k e, log !! k = Some e -> ev_seq e = (N.of_nat k + 1)%N;
  er_sent : ea_sent a `sublist_of` log;
}.

Lemma journal_envelope_rep (a a' : EventAuthority Event J) e res log dur :
  ea_rep a log dur -> ev_seq e = (ea_seq a + 1)%N -> journal_envelope e a = (res, a') ->
  ea_sent a' = ea_sent a /\ ea_seq a' = ea_seq a /\
  match res with
  | Ok _ => ea_rep (set_ea_seq a' (ev_seq e)) (log ++ [e]) dur
  | Err _ => ea_rep a' log dur
  end.
Proof.
  intros [Hj Hs Hn Hsub] He. unfold journal_envelope.
  assert (Hnum : forall k x, (log ++ [e]) !! k = Some x -> ev_seq x = (N.of_nat k + 1)%N).
  { intros k x [Hk|[Hk Hx]]%lookup_app_Some; [by apply Hn|].
    apply list_lookup_singleton_Some in Hx as [Hk0 <-]. rewrite He, Hs. lia. }
  destruct (ea_journal a) as [j|] eqn:Ej.
  - destruct (event_append e j) as [r j'] eqn:Ea. intros [= <- <-].
    pose proof (event_append_rep _ _ _ _ _ _ (Hj j eq_refl) Ea) as Hrep.
    split; [done|]. split; [done|]. destruct r; split; cbn.
    + by intros jx [= <-].
    + rewrite He, Hs, length_app. cbn. lia.
    + exact Hnum.
    + by apply sublist_inserts_r.
    + by intros jx [= <-].
    + done.
    + done.
    + done.
  - intros [= <- <-]. split; [done|]. split; [done|]. split; cbn.
    + by rewrite Ej.
    + rewrite He, Hs, length_app. cbn. lia.
    + exact Hnum.
    + by apply sublist_inserts_r.
Qed.

Lemma append_batch_rep run events es (a a' : EventAuthority Event J) res log dur :
  ea_rep a log dur -> append_batch run events es a = (res, a') ->
  exists new, ea_rep a' (log ++ new) dur /\ ea_sent a' = ea_sent a /\
    Forall (fun e => ev_run_id e = run) new /\
    match res with
    | Ok es' => es' = es ++ new /\ ev_event <$> new = events.*2
    | Err _ => exists k, k < length events /\ ev_event <$> new = take k events.*2
    end.
Proof.
  revert a es log. induction events as [|[now ev] events IH]; intros a es log Hrep; cbn.
  { intros [= <- <-]. exists []. rewrite !app_nil_r. done. }
  set (e := envelope run now ev a).
  destruct (journal_envelope e a) as [r a1] eqn:Ej.
  destruct (journal_envelope_rep a a1 e r log dur Hrep eq_refl Ej) as (Hs & Hq & Hrep1).
  destruct r as [u|error].
  - intros Hb. destruct (IH _ _ _ Hrep1 Hb) as (new & Hrep2 & Hs2 & Hall & Hres).
    exists (e :: new). rewrite <- (assoc_L (++)) in Hrep2. split; [exact Hrep2|].
    split; [by rewrite Hs2|]. split; [by constructor|]. destruct res as [es'|error].
    + destruct Hres as [-> Hev]. by rewrite <- (assoc_L (++)), fmap_cons, Hev.
    + destruct Hres as (k & Hk & Hev). exists (S k). rewrite fmap_cons, Hev. cbn. split; [lia|done].
  - intros [= <- <-]. exists []. rewrite app_nil_r. split; [done|]. split; [done|].
    split; [done|]. exists 0. cbn. split; [lia|done].
Qed.

(** The durable batch: sequence numbers count the journal's envelopes from 1
    without gap or reuse; a batch that succeeds has all its events journaled in
    order under one run, behind the barrier together with everything before
    them, and only then published, in order; a batch that fails publishes
    nothing, keeps the numbers of the members the journal accepted, and an
    oversized one touches nothing. *)
Theorem durable_batch run events (a a' : EventAuthority Event J) res log dur :
  ea_rep a log dur -> emit_batch_durable run events a = (res, a') ->
  exists new dur', ea_rep a' (log ++ new) dur' /\ Forall (fun e => ev_run_id e = run) new /\
    match res with
    | Ok _ => ev_event <$> new = events.*2 /\ ea_sent a' = ea_sent a ++ new /\
        (events <> [] -> dur' = log ++ new)
    | Err _ => ea_sent a' = ea_sent a /\ (exists k, ev_event <$> new = take k events.*2) /\
        (MAX_DURABLE_BATCH_EVENTS < length events -> a' = a)
    end.
Proof.
  intros Hrep. unfold emit_batch_durable. case_bool_decide as Hz.
  { intros [= <- <-]. exists [], dur. rewrite !app_nil_r. destruct events; [|done].
    refine (conj Hrep (conj (Forall_nil_2 _) (conj eq_refl (conj eq_refl _)))). done. }
  destruct (Nat.ltb_spec MAX_DURABLE_BATCH_EVENTS (length events)) as [Hbig|Hfit].
  { intros [= <- <-]. exists [], dur. rewrite app_nil_r.
    refine (conj Hrep (conj (Forall_nil_2 _) (conj eq_refl (conj _ (fun _ => eq_refl))))).
    by exists 0. }
  destruct (append_batch run events [] a) as [[es|error] a1] eqn:Eb;
    destruct (append_batch_rep _ _ _ _ _ _ _ _ Hrep Eb) as (new & Hrep1 & Hs1 & Hall & Hres).
  - destruct Hres as [-> Hev]. cbn [app]. unfold flush_events. destruct Hrep1 as [Hj Hq Hn Hsub].
    assert (Hsend : ea_sent a1 ++ new `sublist_of` log ++ new).
    { rewrite Hs1. apply sublist_app; [apply Hrep|done]. }
    destruct (ea_journal a1) as [j|] eqn:Ej.
    + destruct (event_flush j) as [[u|error] j'] eqn:Ef; intros [= <- <-];
        pose proof (event_flush_rep _ _ _ _ _ (Hj j eq_refl) Ef) as Hfl; cbn in Hfl.
      * exists new, (log ++ new). split; [split; cbn; try done; by intros jx [= <-]|].
        cbn. by rewrite Hs1.
      * exists new, dur. split; [split; cbn; try done; by intros jx [= <-]|].
        split; [done|]. cbn. split; [done|]. split; [|lia].
        exists (length events.*2). by rewrite take_ge by done.
    + intros [= <- <-]. exists new, (log ++ new).
      split; [split; cbn; try done; by rewrite Ej|]. cbn. by rewrite Hs1.
  - intros [= <- <-]. exists new, dur. split; [done|]. split; [done|]. split; [done|].
    destruct Hres as (k & _ & Hev). split; [by exists k|lia].
Qed.

End theorems.

(** The bounded tail read: what it returns is always the newest rows of the
    trace, in order, and complete exactly when it says so; and the one way it
    loses a valid trace, a window that opens inside a character. *)

Section tail.
Context {Event : Type} `{TC : TraceCodec Event} `{TCL : !TraceCodecLaws Event}.
Implicit Types (l ring : list (RuntimeEventEnvelope Event)).

(** ** Lines of a trace *)

Lemma split_line line rest :
  NEWLINE ∉ line -> split_lines (line ++ NEWLINE :: rest) = (line, true) :: split_lines rest.
Proof.
  induction line as [|b line IH]; intros Hn; cbn; [done|].
  apply not_elem_of_cons in Hn as [Hb Hn]. rewrite (proj2 (N.eqb_neq b NEWLINE)) by done.
  by rewrite IH.
Qed.

Lemma split_rows l : split_lines (rows l) = (fun e => (row_to_vec e, true)) <$> l.
Proof.
  induction l as [|e l IH]; [done|]. unfold rows. cbn. fold (rows l).
  unfold trace_row. rewrite <- (assoc_L (++)). cbn.
  rewrite split_line by apply row_no_newline. by rewrite IH.
Qed.

Lemma read_line_through line rest :
  NEWLINE ∉ line -> (read_line (line ++ NEWLINE :: rest)).2 = rest.
Proof.
  induction line as [|b line IH]; intros Hn; cbn; [done|].
  apply not_elem_of_cons in Hn as [Hb Hn]. rewrite (proj2 (N.eqb_neq b NEWLINE)) by done.
  specialize (IH Hn). by destruct (read_line (line ++ NEWLINE :: rest)).
Qed.

(** Dropping any number of bytes and then one line leaves whole rows. *)
Lemma read_partial_row k l :
  exists l', l' `suffix_of` l /\ (read_line (drop k (rows l))).2 = rows l'.
Proof.
  revert k. induction l as [|e l IH]; intros k.
  - exists []. split; [done|]. change (rows []) with (@nil N). by rewrite drop_nil.
  - unfold rows. cbn. fold (rows l). destruct (decide (length (trace_row e) <= k)) as [Hle|Hlt].
    + rewrite drop_app_ge by lia. destruct (IH (k - length (trace_row e))) as (l' & Hs & Hr).
      exists l'. split; [by apply suffix_cons_r|done].
    + exists l. split; [by apply suffix_cons_r|]. unfold trace_row in *. rewrite length_app in Hlt.
      cbn in Hlt. rewrite <- (assoc_L (++)). cbn. rewrite drop_app_le by lia.
      apply read_line_through. intros Hin. apply (row_no_newline e).
      rewrite <- (take_drop k (row_to_vec e)). apply elem_of_app. by right.
Qed.

(** ** The ring *)

Definition newest (max : nat) l : list (RuntimeEventEnvelope Event) := drop (length l - max) l.

Lemma newest_snoc max l e :
  0 < max ->
  newest max (l ++ [e]) =
  if length (newest max l) =? max then drop 1 (newest max l) ++ [e] else newest max l ++ [e].
Proof.
  intros Hm. unfold newest. rewrite length_drop, length_app. cbn [length].
  destruct (Nat.eqb_spec (length l - (length l - max)) max) as [Heq|Hne].
  - rewrite drop_drop, <- drop_app_le by lia. f_equal. lia.
  - rewrite <- drop_app_le by lia. f_equal. lia.
Qed.

Lemma newest_length max l : length (newest max l) <= max.
Proof. unfold newest. rewrite length_drop. lia. Qed.

Lemma newest_full max l : length l <= max -> newest max l = l.
Proof. intros H. unfold newest. by replace (length l - max) with 0 by lia. Qed.

Lemma newest_suffix max l : newest max l `suffix_of` l.
Proof. apply suffix_drop. Qed.

Lemma row_line e :
  exists t, from_utf8 (strip_cr (row_to_vec e, true)) = Some t /\ row_from_str t = Some e /\
    trim t <> [].
Proof.
  unfold strip_cr. cbn. rewrite bool_decide_eq_false_2 by apply row_no_cr. apply row_decodes.
Qed.

(** The loop over whole rows keeps the newest ones of all it has seen. *)
Lemma tail_rows_newest max l seen res :
  0 < max ->
  tail_rows max ((fun e => (row_to_vec e, true)) <$> l) (newest max seen) (max <? length seen)
    = Ok res ->
  res = (newest max (seen ++ l), max <? length (seen ++ l)).
Proof.
  intros Hm. revert seen. induction l as [|e l IH]; intros seen; cbn [fmap list_fmap tail_rows].
  { intros [= <-]. by rewrite app_nil_r. }
  destruct (row_line e) as (t & -> & Hrow & Htrim).
  rewrite bool_decide_eq_false_2 by done. destruct (_ <? _) eqn:Ecap; [done|]. rewrite Hrow.
  specialize (IH (seen ++ [e])). rewrite <- (assoc_L (++)) in IH. cbn [app] in IH.
  rewrite newest_snoc in IH by done. rewrite (length_app seen [e]) in IH. cbn [length] in IH.
  destruct (length (newest max seen) =? max) eqn:E.
  - apply Nat.eqb_eq in E. unfold newest in E. rewrite length_drop in E.
    rewrite (proj2 (Nat.ltb_lt max (length seen + 1))) in IH by lia. exact IH.
  - apply Nat.eqb_neq in E. unfold newest in E. rewrite length_drop in E.
    rewrite (proj2 (Nat.ltb_ge max (length seen))) by lia.
    rewrite (proj2 (Nat.ltb_ge max (length seen + 1))) in IH by lia. exact IH.
Qed.

(** A row within the single-row cap. *)
Definition row_fits (e : RuntimeEventEnvelope Event) : Prop :=
  forall t, from_utf8 (row_to_vec e) = Some t -> str_len t <= MAX_TAIL_LINE_BYTES.

Lemma tail_rows_total max l ring ov :
  Forall row_fits l ->
  exists res, tail_rows max ((fun e => (row_to_vec e, true)) <$> l) ring ov = Ok res.
Proof.
  intros Hl. revert ring ov. induction Hl as [|e l He Hl IH]; intros ring ov; cbn [fmap list_fmap tail_rows];
    [eauto|].
  destruct (row_line e) as (t & Ht & Hrow & Htrim). rewrite Ht.
  rewrite bool_decide_eq_false_2 by done.
  assert (Hcap : str_len t <= MAX_TAIL_LINE_BYTES).
  { apply He. unfold strip_cr in Ht. cbn in Ht.
    by rewrite bool_decide_eq_false_2 in Ht by apply row_no_cr. }
  rewrite (proj2 (Nat.ltb_ge _ _) Hcap), Hrow. destruct (_ =? _); apply IH.
Qed.

(** Any answer is the newest rows, and complete only when it is all of them. *)
Lemma tail_read_window l max answer :
  0 < max -> read_trace_tail (TraceData (rows l)) max = Ok answer ->
  exists w complete, answer = Some (w, complete) /\
    w `suffix_of` l /\ length w <= max /\ (complete = true -> w = l).
Proof.
  intros Hm. unfold read_trace_tail. rewrite (proj2 (Nat.eqb_neq max 0)) by lia.
  destruct (Nat.eqb_spec (length (rows l) `min` MAX_TAIL_SCAN_BYTES)
    (length (rows l))) as [Hw|Hw]; cbn [rbind].
  - rewrite Hw, Nat.sub_diag, drop_0, split_rows.
    destruct (tail_rows _ _ _ _) as [res|] eqn:Et; [|done]. cbn [rbind].
    apply (tail_rows_newest max l [] res Hm) in Et as ->. cbn [fst snd app].
    intros [= <-]. eexists _, _. split; [done|]. split; [apply newest_suffix|].
    split; [apply newest_length|]. intros Hc. apply newest_full.
    by apply negb_true_iff, Nat.ltb_ge in Hc.
  - set (k := length (rows l) - _). destruct (read_partial_row k l) as (l' & Hs & Hr).
    destruct (read_line (drop k (rows l))) as [first rest]. cbn [snd] in Hr. subst rest.
    destruct (from_utf8 first); [|done]. cbn [rbind]. rewrite split_rows.
    destruct (tail_rows _ _ _ _) as [res|] eqn:Et; [|done]. cbn [rbind].
    apply (tail_rows_newest max l' [] res Hm) in Et as ->. cbn [fst snd app andb].
    intros [= <-]. eexists _, _. split; [done|]. split; [|split; [apply newest_length|done]].
    etrans; [apply newest_suffix|exact Hs].
Qed.

(** The bounded scan is total on what the journal writes: while a trace fits
    the scan window and its rows the row cap, the read answers, with exactly the
    newest rows asked for and completeness exactly when all of them fit. *)
Theorem tail_read_exact l max :
  0 < max -> length (rows l) <= MAX_TAIL_SCAN_BYTES -> Forall row_fits l ->
  read_trace_tail (TraceData (rows l)) max =
  Ok (Some (drop (length l - max) l, bool_decide (length l <= max))).
Proof.
  intros Hm Hfit Hrows. unfold read_trace_tail. rewrite (proj2 (Nat.eqb_neq max 0)) by lia.
  rewrite Nat.min_l by done. rewrite Nat.eqb_refl, Nat.sub_diag, drop_0.
  cbn [rbind]. rewrite split_rows.
  destruct (tail_rows_total max l [] false Hrows) as [res Hres].
  apply (tail_rows_newest max l [] res Hm) in Hres as Heq. rewrite Hres, Heq.
  cbn [rbind fst snd app andb].
  unfold newest. do 3 f_equal. rewrite Nat.ltb_antisym, negb_involutive.
  by case_bool_decide as Hc; [apply Nat.leb_le|apply Nat.leb_gt; lia].
Qed.

(** What a successful barrier leaves in a run's trace file. *)
Lemma flushed_trace w w' u log dur run :
  trace_rep w log dur -> trace_flush w = (Ok u, w') -> synced w' run = rows (of_run run log).
Proof.
  intros Hrep Hf. pose proof (trace_flush_rep _ _ _ _ _ Hrep Hf) as [_ _ Hw].
  assert (Hc : ew_failed w' = None /\ pending w' run = []).
  { revert Hf. unfold trace_flush. destruct (ew_failed w) eqn:Ef; [done|].
    unfold next_flush. destruct (ew_flush_io w) as [|[|reached] io]; cbn; intros [= _ <-]; cbn;
      (split; [done|]); unfold pending; cbn; by rewrite default_cleared. }
  destruct Hc as [Hc Hp]. by rewrite <- (Hw Hc run), Hp, app_nil_r.
Qed.

Lemma rows_nil l : rows l = [] -> l = [].
Proof.
  destruct l as [|e l]; [done|]. change (rows (e :: l)) with (trace_row e ++ rows l).
  unfold trace_row. by intros [[_ ?]%app_nil _]%app_nil.
Qed.

(** Reading a run back through the journal: after any appends and barriers, on
    any disk, a [read_tail] that answers gives the newest envelopes handed to the
    journal for that run, in order and no other run's, no more than asked for, and
    says the window is complete only when it holds every one of them; a journal
    whose writer failed answers with an error and never a shortened history. *)
Theorem read_tail_history aio fio cmds run max w w' res :
  0 < max -> (run_trace cmds (fresh_writer aio fio)).2 = w ->
  read_tail run max w = (res, w') ->
  match res with
  | Ok answer => exists window complete, answer = Some (window, complete) /\
      window `suffix_of` of_run run (appended cmds) /\ length window <= max /\
      (complete = true -> window = of_run run (appended cmds)) /\ ew_failed w = None
  | Err _ => True
  end /\
  (is_Some (ew_failed w) -> is_Ok res = false).
Proof.
  intros Hm Hw Hr. destruct (run_trace cmds (fresh_writer aio fio)) as [rs w0] eqn:Erun.
  cbn [snd] in Hw. subst w0.
  destruct (run_trace_rep _ _ _ _ _ _ (fresh_rep aio fio) Erun) as [dur Hrep]. cbn [app] in Hrep.
  revert Hr. unfold read_tail. destruct (trace_flush w) as [[u|error] w1] eqn:Ef;
    [|by intros [= <- <-]].
  assert (Hn : ew_failed w = None).
  { revert Ef. unfold trace_flush. by destruct (ew_failed w). }
  rewrite Hn. intros [= Hres <-]. split; [|by intros []].
  pose proof (flushed_trace _ _ _ _ _ run Hrep Ef) as Hs. unfold synced in Hs.
  destruct res as [answer|]; [|done].
  destruct (ew_synced w1 !! run) as [data|]; cbn [default from_option id] in Hs.
  - subst data. apply (tail_read_window _ _ _ Hm) in Hres as (win & c & -> & H1 & H2 & H3).
    by exists win, c.
  - symmetry in Hs. apply rows_nil in Hs. rewrite Hs.
    unfold read_trace_tail in Hres. rewrite (proj2 (Nat.eqb_neq max 0)) in Hres by lia.
    injection Hres as <-. exists [], true.
    split; [done|]. split; [done|]. split; [apply Nat.le_0_l|done].
Qed.

Lemma continuation_invalid b s : continuation b = true -> from_utf8 (b :: s) = None.
Proof.
  unfold continuation. intros [H1%N.leb_le H2%N.ltb_lt]%andb_prop. cbn [from_utf8].
  rewrite (proj2 (N.ltb_ge b 128)), (proj2 (N.leb_gt 194 b)), (proj2 (N.leb_gt 224 b)),
    (proj2 (N.leb_gt 240 b)) by lia. done.
Qed.

(** The window that opens inside a character: once a trace outgrows the scan
    window, the read fails for every request whenever the window's first byte
    continues a multi-byte character, however valid and small all its rows are. *)
Theorem tail_window_splits_character l max b :
  0 < max -> MAX_TAIL_SCAN_BYTES < length (rows l) ->
  rows l !! (length (rows l) - MAX_TAIL_SCAN_BYTES) = Some b -> continuation b = true ->
  read_trace_tail (TraceData (rows l)) max = Err (Storage (txt "read trace")).
Proof.
  intros Hm Hlen Hb Hc. unfold read_trace_tail. rewrite (proj2 (Nat.eqb_neq max 0)) by lia.
  rewrite Nat.min_r by lia.
  rewrite (proj2 (Nat.eqb_neq MAX_TAIL_SCAN_BYTES (length (rows l)))) by lia.
  rewrite (drop_S _ _ _ Hb). cbn [read_line].
  assert (Hnl : (b =? NEWLINE)%N = false).
  { apply N.eqb_neq. intros ->. done. }
  rewrite Hnl. destruct (read_line _) as [line rest]. by rewrite continuation_invalid.
Qed.

End tail.
