(* ===== verification/Frame.v ===== *)
(** The bounded newline frame of every process boundary (agent-process/frame.rs) and the framed
    session over it (agent-process/session.rs).

    A reader is its buffer and what its source will deliver: chunks of bytes, of
    any size the operating system likes, and read failures. An exhausted source
    is at end of file. *)

From S2P Require Import Prelude Text Operation Journal Wal.

Inductive FrameErrorKind : Type :=
| Oversize (limit : nat)
| Eof
| PartialEof
| FrameIo (message : text)
| Poisoned (reason : text).

#[export] Instance FrameErrorKind_eq_dec : EqDecision FrameErrorKind.
Proof. solve_decision. Defined.

Record FrameError : Type := {
  fe_kind : FrameErrorKind;
  fe_bytes : nat;
}.

(** [Display for FrameError]. *)
Definition frame_error_text (e : FrameError) : text :=
  match fe_kind e with
  | Oversize _ => txt "frame exceeded the byte limit"
  | Eof => txt "peer closed the connection before a frame"
  | PartialEof => txt "peer closed the connection mid-frame"
  | FrameIo message => txt "frame read failed: " ++ message
  | Poisoned reason => txt "session poisoned: " ++ reason
  end.

(** ** Writing *)

Definition encode_frame_bytes (payload : bytes) (max_frame_bytes : nat) : AgentResult bytes :=
  if decide (payload = []) then Err (InvalidRequest (txt "frame payload is empty"))
  else if decide (NEWLINE ∈ payload)
  then Err (InvalidRequest (txt "frame payload contains a newline"))
  else if decide (max_frame_bytes < length payload)
  then Err (InvalidRequest (txt "frame is above the byte bound"))
  else Ok (payload ++ [NEWLINE]).

(** ** Reading *)

Inductive ReadEvent : Type :=
| Delivered (chunk : bytes)
| ReadFails (message : text).

Record FrameReader : Type := {
  fr_buffer : bytes;
  fr_incoming : list ReadEvent;
}.

(** [buffer.iter().position(|byte| *byte == b'\n')]. *)
Fixpoint find_newline (buffer : bytes) : option nat :=
  match buffer with
  | [] => None
  | b :: buffer' => if (b =? NEWLINE)%N then Some 0 else S <$> find_newline buffer'
  end.

(** What one filled buffer does to the frame read so far: the frame and what
    stays buffered, a refusal (which consumes nothing), or more to read. *)
Inductive ChunkStep : Type :=
| Complete (frame rest : bytes)
| Refused (e : FrameError)
| More (frame : bytes).

Definition accept_chunk (max_frame_bytes : nat) (frame buffer : bytes) : ChunkStep :=
  match find_newline buffer with
  | Some newline =>
      let total := length frame + newline in
      if decide (max_frame_bytes < total)
      then Refused {| fe_kind := Oversize max_frame_bytes; fe_bytes := total |}
      else Complete (frame ++ take newline buffer) (drop (newline + 1) buffer)
  | None =>
      if decide (max_frame_bytes - length frame < length buffer)
      then Refused {| fe_kind := Oversize max_frame_bytes;
                      fe_bytes := length frame + length buffer |}
      else More (frame ++ buffer)
  end.

(** End of file: clean before the first byte of a frame, partial inside one. *)
Definition end_of_file (frame : bytes) : FrameError :=
  if decide (frame = []) then {| fe_kind := Eof; fe_bytes := 0 |}
  else {| fe_kind := PartialEof; fe_bytes := length frame |}.

(** The loop of [read_frame] once the buffer has been used up. *)
Fixpoint read_incoming (max_frame_bytes : nat) (frame : bytes) (incoming : list ReadEvent) :
    result bytes FrameError * FrameReader :=
  match incoming with
  | [] => (Err (end_of_file frame), {| fr_buffer := []; fr_incoming := [] |})
  | ReadFails message :: incoming' =>
      (Err {| fe_kind := FrameIo message; fe_bytes := length frame |},
       {| fr_buffer := []; fr_incoming := incoming' |})
  | Delivered [] :: incoming' =>
      (Err (end_of_file frame), {| fr_buffer := []; fr_incoming := incoming' |})
  | Delivered buffer :: incoming' =>
      match accept_chunk max_frame_bytes frame buffer with
      | Complete frame rest => (Ok frame, {| fr_buffer := rest; fr_incoming := incoming' |})
      | Refused e => (Err e, {| fr_buffer := buffer; fr_incoming := incoming' |})
      | More frame => read_incoming max_frame_bytes frame incoming'
      end
  end.

Definition read_frame (max_frame_bytes : nat) (r : FrameReader) :
    result bytes FrameError * FrameReader :=
  match fr_buffer r with
  | [] => read_incoming max_frame_bytes [] (fr_incoming r)
  | buffer =>
      match accept_chunk max_frame_bytes [] buffer with
      | Complete frame rest => (Ok frame, {| fr_buffer := rest; fr_incoming := fr_incoming r |})
      | Refused e => (Err e, r)
      | More frame => read_incoming max_frame_bytes frame (fr_incoming r)
      end
  end.

(** ** The frame of a byte stream *)

(** What a stream of bytes followed by end of file holds, without chunks: its
    first line when that fits the bound. *)
Definition first_frame (max_frame_bytes : nat) (s : bytes) :
    result (bytes * bytes) FrameErrorKind :=
  match find_newline s with
  | Some n =>
      if decide (max_frame_bytes < n) then Err (Oversize max_frame_bytes)
      else Ok (take n s, drop (n + 1) s)
  | None =>
      if decide (max_frame_bytes < length s) then Err (Oversize max_frame_bytes)
      else if decide (s = []) then Err Eof else Err PartialEof
  end.

(** A source that only delivers: no failed read, no empty read before the end. *)
Definition delivers (e : ReadEvent) : Prop :=
  match e with Delivered chunk => chunk <> [] | ReadFails _ => False end.

Definition chunk_of (e : ReadEvent) : bytes :=
  match e with Delivered chunk => chunk | ReadFails _ => [] end.

Definition incoming_bytes (incoming : list ReadEvent) : bytes := incoming ≫= chunk_of.

Definition stream (r : FrameReader) : bytes := fr_buffer r ++ incoming_bytes (fr_incoming r).

Definition clean (r : FrameReader) : Prop := Forall delivers (fr_incoming r).

(** ** Lemmas *)

Lemma find_newline_app s t :
  find_newline (s ++ t) =
  match find_newline s with
  | Some n => Some n
  | None => (fun n => length s + n) <$> find_newline t
  end.
Proof.
  induction s as [|b s IH]; cbn; [by destruct (find_newline t)|].
  destruct (b =? NEWLINE)%N; [done|]. rewrite IH.
  by destruct (find_newline s), (find_newline t).
Qed.

Lemma find_newline_lt s n : find_newline s = Some n -> n < length s.
Proof.
  revert n. induction s as [|b s IH]; intros n; cbn; [done|].
  destruct (b =? NEWLINE)%N; [intros [= <-]; lia|]. destruct (find_newline s) as [k|]; [|done].
  intros [= <-]. specialize (IH k eq_refl). lia.
Qed.

Lemma find_newline_None s : find_newline s = None <-> NEWLINE ∉ s.
Proof.
  induction s as [|b s IH]; cbn; [split; [intros _; apply not_elem_of_nil|done]|].
  rewrite not_elem_of_cons, <- IH. destruct (N.eqb_spec b NEWLINE) as [->|Hne];
    [split; [done|by intros []]|].
  destruct (find_newline s); cbn; (split; [|intros [_ ?]]); done.
Qed.

Lemma find_newline_here s t : NEWLINE ∉ s -> find_newline (s ++ NEWLINE :: t) = Some (length s).
Proof.
  intros Hs%find_newline_None. rewrite find_newline_app, Hs. cbn. f_equal. lia.
Qed.

(** Reading on, from a frame begun with bytes free of newlines. *)
Lemma read_incoming_spec max frame incoming res r' :
  Forall delivers incoming -> find_newline frame = None -> length frame <= max ->
  read_incoming max frame incoming = (res, r') ->
  match res with
  | Ok f => clean r' /\ first_frame max (frame ++ incoming_bytes incoming) = Ok (f, stream r')
  | Err e => first_frame max (frame ++ incoming_bytes incoming) = Err (fe_kind e)
  end.
Proof.
  intros Hin. revert frame. induction Hin as [|[buffer|] incoming Hev Hin IH]; intros frame Hf Hmax;
    [| |done]; cbn [read_incoming].
  - intros [= <- <-]. unfold incoming_bytes. cbn. rewrite app_nil_r. unfold first_frame, end_of_file.
    rewrite Hf. rewrite decide_False by lia. by destruct (decide (frame = [])).
  - cbn in Hev. destruct buffer as [|b buffer]; [done|]. set (chunk := b :: buffer) in *.
    assert (Hlen : length chunk = S (length buffer)) by reflexivity.
    change (incoming_bytes (Delivered chunk :: incoming)) with (chunk ++ incoming_bytes incoming).
    unfold accept_chunk. destruct (find_newline chunk) as [n|] eqn:En.
    + pose proof (find_newline_lt _ _ En) as Hlt. unfold first_frame.
      rewrite (find_newline_app frame), Hf, (find_newline_app chunk), En. cbn.
      case_decide; intros [= <- <-]; [done|]. split; [exact Hin|]. unfold stream. cbn [fr_buffer fr_incoming].
      rewrite take_app_ge, drop_app_ge by lia.
      change (b :: buffer ++ incoming_bytes incoming) with (chunk ++ incoming_bytes incoming).
      rewrite take_app_le, drop_app_le by lia.
      replace (length frame + n - length frame) with n by lia.
      by replace (length frame + n + 1 - length frame) with (n + 1) by lia.
    + case_decide as Hbig.
      * intros [= <- <-]. unfold first_frame.
        rewrite (find_newline_app frame), Hf, (find_newline_app chunk), En.
        destruct (find_newline (incoming_bytes incoming)) as [k|]; cbn.
        -- by rewrite decide_True by lia.
        -- rewrite length_app. cbn [length]. rewrite length_app. by rewrite decide_True by lia.
      * intros Hr. assert (Hf' : find_newline (frame ++ chunk) = None)
          by (by rewrite find_newline_app, Hf, En).
        specialize (IH (frame ++ chunk) Hf' ltac:(rewrite length_app; lia) Hr).
        by rewrite <- (assoc_L (++)) in IH.
Qed.

(** A buffered reader behaves as if its buffer were delivered first. *)
Lemma read_frame_incoming max r res r' :
  clean r -> read_frame max r = (res, r') ->
  match res with
  | Ok f => clean r' /\ first_frame max (stream r) = Ok (f, stream r')
  | Err e => first_frame max (stream r) = Err (fe_kind e)
  end.
Proof.
  unfold clean. destruct r as [[|b buffer] incoming]; cbn [fr_incoming]; intros Hc Hr.
  - by apply (read_incoming_spec max [] incoming res r' Hc eq_refl (Nat.le_0_l _)) in Hr.
  - assert (Hall : Forall delivers (Delivered (b :: buffer) :: incoming)) by (by constructor).
    exact (read_incoming_spec max [] _ res r' Hall eq_refl (Nat.le_0_l _) Hr).
Qed.

Lemma first_frame_line max payload rest :
  NEWLINE ∉ payload -> length payload <= max ->
  first_frame max (payload ++ NEWLINE :: rest) = Ok (payload, rest).
Proof.
  intros Hn Hl. unfold first_frame. rewrite find_newline_here by done.
  rewrite decide_False by lia. rewrite take_app_length. rewrite drop_app_ge by lia.
  by replace (length payload + 1 - length payload) with 1 by lia.
Qed.

Lemma encode_frame_bytes_Ok payload max line :
  encode_frame_bytes payload max = Ok line ->
  line = payload ++ [NEWLINE] /\ payload <> [] /\ (NEWLINE ∉ payload) /\ length payload <= max.
Proof.
  unfold encode_frame_bytes. repeat case_decide; intros [= <-]. split_and!; (done || lia).
Qed.

Lemma find_newline_split s n :
  find_newline s = Some n -> (NEWLINE ∉ take n s) /\ s = take n s ++ NEWLINE :: drop (n + 1) s.
Proof.
  revert n. induction s as [|b s IH]; intros n; cbn; [done|].
  destruct (N.eqb_spec b NEWLINE) as [->|Hne].
  - intros [= <-]. cbn. split; [apply not_elem_of_nil|by rewrite drop_0].
  - destruct (find_newline s) as [k|]; [|done]. intros [= <-].
    destruct (IH k eq_refl) as [Hn Hs]. cbn. split; [by rewrite not_elem_of_cons|by rewrite <- Hs].
Qed.

Lemma first_frame_Ok max s f rest :
  first_frame max s = Ok (f, rest) ->
  length f <= max /\ (NEWLINE ∉ f) /\ s = f ++ NEWLINE :: rest.
Proof.
  unfold first_frame. destruct (find_newline s) as [n|] eqn:En; [|by repeat case_decide].
  case_decide; [done|]. intros [= <- <-]. destruct (find_newline_split _ _ En) as [Hn Hs].
  split; [rewrite length_take; lia|]. by split.
Qed.

(** The framed session over a byte duplex: [FramedProtocolSession] of
    agent-process/session.rs. A session that half-consumed or half-wrote a frame
    is poisoned and never used again.

    The pipe's other end is the bytes it has received; each write takes its
    outcome from a script. *)

Inductive WriteOutcome : Type :=
| WriteDone
| WriteBreaks (written : nat) (message : text)
| FlushBreaks (message : text).

Record FramedProtocolSession : Type := {
  fs_reader : FrameReader;
  fs_wire : bytes;
  fs_writes : list WriteOutcome;
  fs_max_frame_bytes : nat;
  fs_poisoned : option text;
}.

Inductive BoundedSendError : Type :=
| Abandoned
| SendFailed (e : AgentError).

Definition session_new (reader : FrameReader) (writes : list WriteOutcome)
    (max_frame_bytes : nat) : AgentResult FramedProtocolSession :=
  if decide (max_frame_bytes = 0)
  then Err (InvalidRequest (txt "framed session byte bound must be positive"))
  else Ok {| fs_reader := reader; fs_wire := []; fs_writes := writes;
             fs_max_frame_bytes := max_frame_bytes; fs_poisoned := None |}.

Definition set_reader (s : FramedProtocolSession) (r : FrameReader) : FramedProtocolSession :=
  {| fs_reader := r; fs_wire := fs_wire s; fs_writes := fs_writes s;
     fs_max_frame_bytes := fs_max_frame_bytes s; fs_poisoned := fs_poisoned s |}.

(** The bytes that reached the pipe, and the rest of the script. *)
Definition put (s : FramedProtocolSession) (bs : bytes) (writes : list WriteOutcome) :
    FramedProtocolSession :=
  {| fs_reader := fs_reader s; fs_wire := fs_wire s ++ bs; fs_writes := writes;
     fs_max_frame_bytes := fs_max_frame_bytes s; fs_poisoned := fs_poisoned s |}.

(** [poison]: the first reason is kept. *)
Definition poison (reason : text) (s : FramedProtocolSession) : FramedProtocolSession :=
  {| fs_reader := fs_reader s; fs_wire := fs_wire s; fs_writes := fs_writes s;
     fs_max_frame_bytes := fs_max_frame_bytes s;
     fs_poisoned := Some (default reason (fs_poisoned s)) |}.

Definition recv (s : FramedProtocolSession) : result bytes FrameError * FramedProtocolSession :=
  match fs_poisoned s with
  | Some reason => (Err {| fe_kind := Poisoned reason; fe_bytes := 0 |}, s)
  | None =>
      match read_frame (fs_max_frame_bytes s) (fs_reader s) with
      | (Ok frame, r) => (Ok frame, set_reader s r)
      | (Err error, r) =>
          (Err error,
           if bool_decide (fe_kind error = Eof) then set_reader s r
           else poison (frame_error_text error) (set_reader s r))
      end
  end.

Definition ensure_writable (s : FramedProtocolSession) : AgentResult unit :=
  match fs_poisoned s with
  | Some reason => Err (InvalidRequest (txt "session poisoned: " ++ reason))
  | None => Ok tt
  end.

Definition write_line (line : bytes) : M FramedProtocolSession AgentError unit := fun s =>
  match fs_writes s with
  | [] => (Ok tt, put s line [])
  | WriteDone :: writes => (Ok tt, put s line writes)
  | WriteBreaks n message :: writes =>
      (Err (Io message), poison (txt "write failed: " ++ message) (put s (take n line) writes))
  | FlushBreaks message :: writes =>
      (Err (Io message), poison (txt "flush failed: " ++ message) (put s line writes))
  end.

Definition send_bytes (payload : bytes) : M FramedProtocolSession AgentError unit := fun s =>
  match ensure_writable s with
  | Err e => (Err e, s)
  | Ok _ =>
      match encode_frame_bytes payload (fs_max_frame_bytes s) with
      | Err e => (Err e, s)
      | Ok line => write_line line s
      end
  end.

Definition send_encoded_line (line : bytes) : M FramedProtocolSession AgentError unit := fun s =>
  match ensure_writable s with
  | Err e => (Err e, s)
  | Ok _ => write_line line s
  end.

(** [send_bounded]: [fired] is the number of bytes the pipe had taken when the
    cancel token or the deadline won the race, if one did. The abandoned write
    leaves a partial frame and poisoning is left to the caller. *)
Definition send_bounded (line : bytes) (fired : option nat) :
    M FramedProtocolSession BoundedSendError unit := fun s =>
  match ensure_writable s with
  | Err e => (Err (SendFailed e), s)
  | Ok _ =>
      match fired with
      | Some n => (Err Abandoned, put s (take n line) (fs_writes s))
      | None =>
          match write_line line s with
          | (Ok _, s) => (Ok tt, s)
          | (Err e, s) => (Err (SendFailed e), s)
          end
      end
  end.

(** ** Runs *)

(** Send payloads in order; the acknowledged ones, and the session. *)
Fixpoint send_all (payloads : list bytes) (s : FramedProtocolSession) :
    list bytes * FramedProtocolSession :=
  match payloads with
  | [] => ([], s)
  | p :: payloads' =>
      let '(res, s1) := send_bytes p s in
      let '(acked, s2) := send_all payloads' s1 in
      (if is_Ok res then p :: acked else acked, s2)
  end.

(** Receive until the first error, at most [n] frames. *)
Fixpoint recv_all (n : nat) (s : FramedProtocolSession) :
    list bytes * option FrameErrorKind * FramedProtocolSession :=
  match n with
  | O => ([], None, s)
  | S n' =>
      match recv s with
      | (Ok frame, s1) =>
          let '(frames, e, s2) := recv_all n' s1 in (frame :: frames, e, s2)
      | (Err error, s1) => ([], Some (fe_kind error), s1)
      end
  end.

Definition lines (payloads : list bytes) : bytes := payloads ≫= (fun p => p ++ [NEWLINE]).

Definition sendable (max : nat) (p : bytes) : Prop :=
  p <> [] /\ (NEWLINE ∉ p) /\ length p <= max.

Lemma lines_app ps qs : lines (ps ++ qs) = lines ps ++ lines qs.
Proof. apply bind_app. Qed.

(** What a sender leaves on the wire: the acknowledged lines, and after a
    failed write a part of one more. *)
Record wire_ok (s : FramedProtocolSession) (sent acked : list bytes) (part : bytes) : Prop := {
  wo_wire : fs_wire s = lines acked ++ part;
  wo_acked : acked `sublist_of` sent;
  wo_sendable : Forall (sendable (fs_max_frame_bytes s)) acked;
  wo_clean : fs_poisoned s = None -> part = [];
  wo_part : part = [] \/ exists p, (p ∈ sent) /\ sendable (fs_max_frame_bytes s) p /\
    part `prefix_of` (p ++ [NEWLINE]);
}.

(** The failed or refused send leaves what was acknowledged alone. *)
Lemma wire_ok_more s s' sent acked part p :
  wire_ok s sent acked part -> s' = s -> wire_ok s' (sent ++ [p]) acked part.
Proof.
  intros [Hw Ha Hs Hc Hp] ->. split; try done; [by apply sublist_inserts_r|].
  destruct Hp as [Hp|(q & Hq & Hp)]; [by left|right; exists q].
  split; [|done]. apply elem_of_app. by left.
Qed.

Lemma wire_ok_line s s' sent acked p :
  wire_ok s sent acked [] -> sendable (fs_max_frame_bytes s) p ->
  fs_wire s' = fs_wire s ++ p ++ [NEWLINE] -> fs_max_frame_bytes s' = fs_max_frame_bytes s ->
  wire_ok s' (sent ++ [p]) (acked ++ [p]) [].
Proof.
  intros [Hw Ha Hs Hc Hp] Hsend Hw' Hm. rewrite app_nil_r in Hw. split.
  - rewrite Hw', Hw, lines_app, app_nil_r. f_equal. unfold lines. cbn. by rewrite app_nil_r.
  - by apply sublist_app.
  - rewrite Hm. apply Forall_app. split; [done|by constructor].
  - done.
  - by left.
Qed.

Lemma wire_ok_part s s' sent acked p part :
  wire_ok s sent acked [] -> sendable (fs_max_frame_bytes s) p ->
  part `prefix_of` (p ++ [NEWLINE]) -> fs_poisoned s' <> None ->
  fs_wire s' = fs_wire s ++ part -> fs_max_frame_bytes s' = fs_max_frame_bytes s ->
  wire_ok s' (sent ++ [p]) acked part.
Proof.
  intros [Hw Ha Hs Hc Hp] Hsend Hpart Hpo Hw' Hm. rewrite app_nil_r in Hw. split.
  - by rewrite Hw', Hw.
  - by apply sublist_inserts_r.
  - by rewrite Hm.
  - done.
  - right. exists p. rewrite Hm. split; [apply elem_of_app; right; by constructor|done].
Qed.

Lemma send_bytes_wire p s res s' sent acked part :
  wire_ok s sent acked part -> send_bytes p s = (res, s') ->
  exists part', wire_ok s' (sent ++ [p]) (acked ++ if is_Ok res then [p] else []) part'.
Proof.
  intros Hw. unfold send_bytes, ensure_writable.
  destruct (fs_poisoned s) as [reason|] eqn:Epoison.
  { intros [= <- <-]. cbn. rewrite app_nil_r. exists part. by eapply wire_ok_more. }
  destruct (encode_frame_bytes p (fs_max_frame_bytes s)) as [line|e] eqn:Ee.
  2: { intros [= <- <-]. cbn. rewrite app_nil_r. exists part. by eapply wire_ok_more. }
  apply encode_frame_bytes_Ok in Ee as (-> & Hp1 & Hp2 & Hp3).
  assert (Hsend : sendable (fs_max_frame_bytes s) p) by (by split_and!).
  assert (part = []) as -> by (by apply (wo_clean _ _ _ _ Hw)).
  unfold write_line. destruct (fs_writes s) as [|[|n m|m] writes]; intros [= <- <-]; cbn [is_Ok];
    rewrite ?app_nil_r; eexists; (by eapply wire_ok_line) ||
    (eapply wire_ok_part; [done|done| |done|reflexivity|done]; (apply prefix_take || done)).
Qed.

Lemma send_all_wire ps s acked s' sent before part :
  wire_ok s sent before part -> send_all ps s = (acked, s') ->
  exists part', wire_ok s' (sent ++ ps) (before ++ acked) part'.
Proof.
  revert s acked sent before part. induction ps as [|p ps IH]; intros s acked sent before part Hw; cbn.
  - intros [= <- <-]. exists part. by rewrite !app_nil_r.
  - destruct (send_bytes p s) as [res s1] eqn:E1. destruct (send_all ps s1) as [acked2 s2] eqn:E2.
    intros [= <- <-]. destruct (send_bytes_wire _ _ _ _ _ _ _ Hw E1) as [part1 Hw1].
    destruct (IH _ _ _ _ _ Hw1 E2) as [part2 Hw2]. exists part2.
    rewrite <- !(assoc_L (++)) in Hw2. by destruct (is_Ok res).
Qed.

Lemma send_all_max ps s acked s' :
  send_all ps s = (acked, s') -> fs_max_frame_bytes s' = fs_max_frame_bytes s.
Proof.
  revert s acked. induction ps as [|p ps IH]; intros s acked; cbn; [by intros [= <- <-]|].
  destruct (send_bytes p s) as [res s1] eqn:E1. destruct (send_all ps s1) as [acked2 s2] eqn:E2.
  intros [= <- <-]. rewrite (IH _ _ E2). revert E1.
  unfold send_bytes, write_line. repeat case_match; by intros [= <- <-].
Qed.

(** ** Receiving *)

Lemma recv_line s p rest :
  fs_poisoned s = None -> clean (fs_reader s) -> sendable (fs_max_frame_bytes s) p ->
  stream (fs_reader s) = p ++ NEWLINE :: rest ->
  exists s', recv s = (Ok p, s') /\ fs_poisoned s' = None /\ clean (fs_reader s') /\
    fs_max_frame_bytes s' = fs_max_frame_bytes s /\ stream (fs_reader s') = rest.
Proof.
  intros Hpo Hc (_ & Hn & Hl) Hs. unfold recv. rewrite Hpo.
  destruct (read_frame _ (fs_reader s)) as [res r] eqn:Er.
  apply read_frame_incoming in Er; [|done]. rewrite Hs, first_frame_line in Er by done.
  destruct res as [f|e]; [|done]. destruct Er as [Hc' [= <- Hrest]].
  by exists (set_reader s r).
Qed.

Lemma recv_end s :
  fs_poisoned s = None -> clean (fs_reader s) -> NEWLINE ∉ stream (fs_reader s) ->
  length (stream (fs_reader s)) <= fs_max_frame_bytes s ->
  exists e s', recv s = (Err e, s') /\
    fe_kind e = (if decide (stream (fs_reader s) = []) then Eof else PartialEof) /\
    (fs_poisoned s' = None <-> stream (fs_reader s) = []).
Proof.
  intros Hpo Hc Hn Hl. unfold recv. rewrite Hpo.
  destruct (read_frame _ (fs_reader s)) as [res r] eqn:Er.
  apply read_frame_incoming in Er; [|done]. unfold first_frame in Er.
  rewrite (proj2 (find_newline_None _) Hn), decide_False in Er by lia.
  destruct res as [f|e]; [by destruct Er; case_decide|]. exists e. eexists. split; [done|].
  case_decide as Hz; injection Er as Hk; rewrite <- Hk; (split; [done|]).
  - by rewrite bool_decide_eq_true_2.
  - by rewrite bool_decide_eq_false_2.
Qed.

Lemma recv_lines ps s rest n :
  fs_poisoned s = None -> clean (fs_reader s) -> Forall (sendable (fs_max_frame_bytes s)) ps ->
  stream (fs_reader s) = lines ps ++ rest ->
  exists s', fs_poisoned s' = None /\ clean (fs_reader s') /\
    fs_max_frame_bytes s' = fs_max_frame_bytes s /\ stream (fs_reader s') = rest /\
    recv_all (length ps + n) s =
      let '(frames, e, s2) := recv_all n s' in (ps ++ frames, e, s2).
Proof.
  intros Hpo Hc Hps. revert s Hpo Hc Hps. induction ps as [|p ps IH]; intros s Hpo Hc Hps Hs.
  - exists s. split_and!; try done. cbn. by destruct (recv_all n s) as [[]].
  - apply Forall_cons in Hps as [Hp Hps].
    change (lines (p :: ps)) with ((p ++ [NEWLINE]) ++ lines ps) in Hs.
    rewrite <- !(assoc_L (++)) in Hs. cbn in Hs.
    destruct (recv_line s p (lines ps ++ rest) Hpo Hc Hp Hs) as (s1 & Hr & Hpo1 & Hc1 & Hm1 & Hs1).
    destruct (IH s1 Hpo1 Hc1 ltac:(by rewrite Hm1) Hs1) as (s' & ? & ? & Hm & ? & Hrec).
    exists s'. split_and!; try done; [by rewrite Hm|]. cbn [length Nat.add recv_all].
    rewrite Hr, Hrec. by destruct (recv_all n s') as [[]].
Qed.

(** ** The guarantees *)

(** The frame of a byte stream does not depend on how the bytes arrive: for
    every chunking of a stream by the operating system, and whatever earlier reads
    left buffered, [read_frame] returns exactly the stream's first line and leaves
    exactly the bytes after it, or refuses for the same reason (over the bound,
    clean end, end inside a frame); in particular no frame is ever above the
    bound, truncated or merged with the next. *)
Theorem read_frame_chunking max r res r' :
  clean r -> read_frame max r = (res, r') ->
  match res with
  | Ok f => clean r' /\ first_frame max (stream r) = Ok (f, stream r') /\
      length f <= max /\ (NEWLINE ∉ f) /\ stream r = f ++ NEWLINE :: stream r'
  | Err e => first_frame max (stream r) = Err (fe_kind e)
  end.
Proof.
  intros Hc Hr. pose proof (read_frame_incoming max r res r' Hc Hr) as H.
  destruct res as [f|e]; [|done]. destruct H as [Hc' H]. split; [done|]. split; [done|].
  by apply first_frame_Ok.
Qed.

Lemma prefix_snoc {A} (l p : list A) x :
  l `prefix_of` (p ++ [x]) -> l = p ++ [x] \/ l `prefix_of` p.
Proof.
  intros [k Hk]. destruct k as [|y k _] using rev_ind.
  - left. by rewrite app_nil_r in Hk.
  - right. rewrite (assoc_L (++)) in Hk. apply app_inj_tail in Hk as [-> _]. by exists k.
Qed.

(** The rest of a stream that holds no whole line, after a partial write. *)
Lemma recv_part s part p :
  fs_poisoned s = None -> clean (fs_reader s) -> stream (fs_reader s) = part ->
  sendable (fs_max_frame_bytes s) p -> part `prefix_of` (p ++ [NEWLINE]) ->
  exists extra e s', recv_all 2 s = (extra, Some e, s') /\
    (extra = [] \/ extra = [p]) /\ (e = Eof \/ e = PartialEof).
Proof.
  intros Hpo Hc Hs Hsend Hpre.
  destruct (decide (part = p ++ [NEWLINE])) as [->|Hne].
  - destruct (recv_line s p [] Hpo Hc Hsend Hs) as (s1 & Hr & Hpo1 & Hc1 & Hm1 & Hs1).
    assert (Hnil : NEWLINE ∉ stream (fs_reader s1)) by (rewrite Hs1; apply not_elem_of_nil).
    destruct (recv_end s1 Hpo1 Hc1 Hnil ltac:(rewrite Hs1; cbn; lia)) as (e & s2 & Hr2 & Hk & _).
    exists [p], (fe_kind e), s2. cbn [recv_all]. rewrite Hr, Hr2, Hk. split; [done|].
    split; [by right|]. case_decide; auto.
  - assert (Hp : part `prefix_of` p).
    { by destruct (prefix_snoc _ _ _ Hpre). }
    destruct Hsend as (_ & Hn & Hl).
    assert (Hnp : NEWLINE ∉ part) by (destruct Hp as [k ->]; by apply not_elem_of_app in Hn as [? _]).
    assert (Hlp : length part <= fs_max_frame_bytes s)
      by (apply prefix_length in Hp; lia).
    rewrite <- Hs in Hnp, Hlp.
    destruct (recv_end s Hpo Hc Hnp Hlp) as (e & s2 & Hr2 & Hk & _).
    exists [], (fe_kind e), s2. cbn [recv_all]. rewrite Hr2, Hk. split; [done|].
    split; [by left|]. case_decide; auto.
Qed.

(** The session at the end of one pipe reads what the session at the other end
    wrote. *)
Definition sender (max : nat) (writes : list WriteOutcome) : FramedProtocolSession :=
  {| fs_reader := {| fr_buffer := []; fr_incoming := [] |}; fs_wire := []; fs_writes := writes;
     fs_max_frame_bytes := max; fs_poisoned := None |}.

Definition receiver (max : nat) (r : FrameReader) : FramedProtocolSession :=
  {| fs_reader := r; fs_wire := []; fs_writes := []; fs_max_frame_bytes := max;
     fs_poisoned := None |}.

(** Frames cross a pipe intact: send any payloads, with any write or flush
    failing part way, and read the pipe at the other end in any chunking; the
    receiver gets exactly the acknowledged payloads, in order, then at most one
    more (whole) payload whose flush was not confirmed, and then the end. When no
    write failed it gets the acknowledged payloads and a clean end. *)
Theorem session_transfer max writes payloads acked s r :
  send_all payloads (sender max writes) = (acked, s) ->
  clean r -> stream r = fs_wire s ->
  exists extra e s', recv_all (length acked + 2) (receiver max r) = (acked ++ extra, Some e, s') /\
    acked `sublist_of` payloads /\ (e = Eof \/ e = PartialEof) /\
    (extra = [] \/ exists p, extra = [p] /\ p ∈ payloads) /\
    (fs_poisoned s = None -> extra = [] /\ e = Eof).
Proof.
  intros Hsend Hc Hs.
  assert (Hw0 : wire_ok (sender max writes) [] [] []) by (split; try done; by left).
  destruct (send_all_wire _ _ _ _ _ _ _ Hw0 Hsend) as [part [Hw Hsub Hsendable Hcl Hpart]].
  apply send_all_max in Hsend as Hmax. rewrite Hmax in Hsendable, Hpart. cbn [app] in *.
  cbn [fs_max_frame_bytes sender] in Hsendable, Hpart. rewrite Hw in Hs.
  destruct (recv_lines acked (receiver max r) part 2 eq_refl Hc Hsendable Hs)
    as (s1 & Hpo1 & Hc1 & Hm1 & Hs1 & Hrec). cbn [fs_max_frame_bytes receiver] in Hm1.
  rewrite Hrec. destruct (decide (part = [])) as [->|Hne].
  - assert (Hnil : NEWLINE ∉ stream (fs_reader s1)) by (rewrite Hs1; apply not_elem_of_nil).
    destruct (recv_end s1 Hpo1 Hc1 Hnil ltac:(rewrite Hs1; cbn; lia)) as (e & s2 & Hr2 & Hk & _).
    rewrite Hs1, decide_True in Hk by done.
    exists [], Eof, s2. cbn [recv_all]. rewrite Hr2, Hk. split_and!; auto.
  - destruct Hpart as [|(p & Hin & Hp & Hpre)]; [done|].
    rewrite <- Hm1 in Hp.
    destruct (recv_part s1 part p Hpo1 Hc1 Hs1 Hp Hpre) as (extra & e & s2 & Hr2 & Hextra & He).
    exists extra, e, s2. rewrite Hr2. split; [done|]. split; [done|]. split; [done|]. split.
    + destruct Hextra as [->| ->]; [by left|right; by exists p].
    + intros Hpo. by destruct (Hne (Hcl Hpo)).
Qed.

(** The operations of a session. *)
Inductive SessionOp : Type :=
| OpRecv
| OpSend (payload : bytes)
| OpSendLine (line : bytes)
| OpSendBounded (line : bytes) (fired : option nat)
| OpPoison (reason : text).

(** Whether the operation succeeded, and the next state. *)
Definition run_op (op : SessionOp) (s : FramedProtocolSession) : bool * FramedProtocolSession :=
  match op with
  | OpRecv => let '(r, s) := recv s in (is_Ok r, s)
  | OpSend p => let '(r, s) := send_bytes p s in (is_Ok r, s)
  | OpSendLine l => let '(r, s) := send_encoded_line l s in (is_Ok r, s)
  | OpSendBounded l fired => let '(r, s) := send_bounded l fired s in (is_Ok r, s)
  | OpPoison reason => (true, poison reason s)
  end.

Fixpoint run_ops (ops : list SessionOp) (s : FramedProtocolSession) :
    list bool * FramedProtocolSession :=
  match ops with
  | [] => ([], s)
  | op :: ops' =>
      let '(ok, s1) := run_op op s in
      let '(oks, s2) := run_ops ops' s1 in (ok :: oks, s2)
  end.

(** A poisoned session answers every operation with an error and does nothing. *)
Lemma run_op_poisoned op s reason ok s' :
  fs_poisoned s = Some reason -> run_op op s = (ok, s') ->
  s' = s /\ (ok = true -> exists why, op = OpPoison why).
Proof.
  intros Hp. destruct op; cbn; unfold recv, send_bytes, send_encoded_line, send_bounded, ensure_writable;
    rewrite ?Hp; intros [= <- <-]; (split; [|by eauto]); try done.
  unfold poison. rewrite Hp. cbn. rewrite <- Hp. by destruct s.
Qed.

Lemma run_ops_poisoned ops s reason oks s' :
  fs_poisoned s = Some reason -> run_ops ops s = (oks, s') ->
  s' = s /\ Forall2 (fun op ok => ok = true -> exists why, op = OpPoison why) ops oks.
Proof.
  intros Hp. revert oks. induction ops as [|op ops IH]; intros oks; cbn.
  - intros [= <- <-]. split; [done|constructor].
  - destruct (run_op op s) as [ok s1] eqn:E1. destruct (run_ops ops s1) as [oks2 s2] eqn:E2.
    intros [= <- <-]. destruct (run_op_poisoned _ _ _ _ _ Hp E1) as [-> Hok].
    destruct (IH _ E2) as [-> Hall]. split; [done|by constructor].
Qed.

(** What a failed operation of a healthy session leaves. *)
Definition settled (op : SessionOp) (s s' : FramedProtocolSession) : Prop :=
  fs_poisoned s' <> None \/          (* out of step: fenced *)
  s' = s \/                          (* refused before touching the pipe *)
  (op = OpRecv /\ fs_wire s' = fs_wire s /\
   fs_poisoned s' = None) \/         (* clean end of file *)
  exists line n, op = OpSendBounded line (Some n).

Lemma write_line_failed line s e s' :
  write_line line s = (Err e, s') -> fs_poisoned s' <> None.
Proof. unfold write_line. repeat case_match; by intros [= <- <-]. Qed.

Lemma run_op_failed op s s' :
  fs_poisoned s = None -> run_op op s = (false, s') -> settled op s s'.
Proof.
  intros Hp. unfold settled.
  destruct op as [|p|l|l fired|why]; cbn; unfold recv, send_bytes, send_encoded_line, send_bounded,
    ensure_writable; rewrite ?Hp; [| | | |done].
  - destruct (read_frame _ _) as [[f|e] r]; [done|]. intros [= <-].
    case_bool_decide; [right; right; left; by split_and!|by left].
  - destruct (encode_frame_bytes _ _) as [line|e]; [|intros [= <-]; by right; left].
    destruct (write_line line s) as [[|e] s1] eqn:E; [done|]. intros [= <-]. left.
    by eapply write_line_failed.
  - destruct (write_line l s) as [[|e] s1] eqn:E; [done|]. intros [= <-]. left.
    by eapply write_line_failed.
  - destruct fired as [n|]; [intros [= <-]; right; right; right; by exists l, n|].
    destruct (write_line l s) as [[|e] s1] eqn:E; [done|]. intros [= <-]. left.
    by eapply write_line_failed.
Qed.

(** The poison fence: an operation that fails with the pipe out of step (an
    oversized, partial or unreadable inbound frame, a write or flush that broke)
    poisons the session, and from then on no operation reads a frame, writes a
    byte or replaces the first reason; a failure that does not poison has left the
    pipe in step (a payload refused before writing, a clean end of file), except
    the abandoned bounded write, whose caller is told to poison. *)
Theorem poison_fence op s ok s1 ops oks s2 :
  run_op op s = (ok, s1) -> run_ops ops s1 = (oks, s2) ->
  (ok = false -> fs_poisoned s = None -> settled op s s1) /\
  (fs_poisoned s1 <> None -> s2 = s1 /\
     Forall2 (fun op ok => ok = true -> exists why, op = OpPoison why) ops oks).
Proof.
  intros H1 H2. split.
  - intros -> Hp. by apply run_op_failed.
  - intros Hp. destruct (fs_poisoned s1) as [reason|] eqn:E; [|done]. by eapply run_ops_poisoned.
Qed.
