(* ===== verification/Reservations.v ===== *)
(** The reservation journal of the effect broker (agent-core/broker.rs): which
    effects were reserved, dispatched and acknowledged, as an append-only file of
    checksummed frames that the next process folds back; and the facts of its recovery.

    As in [Wal], the file is its bytes and each append takes the fate of its I/O; the
    third-party serializer is the class [ReservationCodec]. A [HashMap] is iterated in
    an order nobody promises: the class [HashOrder]. *)

From S2P Require Import Prelude Text Digest Operation Journal Wal Intent Commit.

Definition JOURNAL_VERSION : N := 2.
Definition MAX_FRAME_BYTES : nat := N.to_nat 16384.
Definition MAX_FILE_BYTES : N := 67108864.
Definition MAX_RESERVATIONS : N := 65536.
Definition MAX_RESERVATION_ID_CHARS : nat := N.to_nat 256.

Record ReservedRecord : Type := {
  rd_reservation_id : text;
  rd_run_id : N;
  rd_operation_id : N;
  rd_argument_digest : Digest;
  rd_generation : N;
  rd_intent : option EffectIntent;
}.

(** What Core asks to reserve. *)
Record EffectReservation : Type := {
  es_run_id : N;
  es_operation_id : N;
  es_effect_id : N;
  es_argument_digest : Digest;
  es_generation : N;
  es_intent : option EffectIntent;
}.

Definition from_reservation (reservation_id : text) (reservation : EffectReservation) : ReservedRecord := {|
  rd_reservation_id := reservation_id;
  rd_run_id := es_run_id reservation;
  rd_operation_id := es_operation_id reservation;
  rd_argument_digest := es_argument_digest reservation;
  rd_generation := es_generation reservation;
  rd_intent := es_intent reservation |}.

(** [ReservedRecord::matches]. *)
Definition record_matches (record : ReservedRecord) (context : OperationEffectContext) : bool :=
  (rd_run_id record =? ti_run_id (oc_identity context))%N
  && (rd_operation_id record =? ti_operation_id (oc_identity context))%N
  && bool_decide (rd_argument_digest record = ti_argument_digest (oc_identity context))
  && (rd_generation record =? ti_generation (oc_identity context))%N.

Inductive ReservationTransition : Type :=
| Reserved (effect_id : N) (record : ReservedRecord)
| DispatchedEffect (effect_id : N)
| Acknowledged (effect_id : N) (settlement : EffectAckSettlement).

Record JournalFrame : Type := {
  jf_version : N;
  jf_seq : N;
  jf_transition : ReservationTransition;
}.

Record StoredFrame : Type := {
  st_frame : JournalFrame;
  st_checksum : text;
}.

Record ReservationEntry : Type := {
  en_effect_id : N;
  en_record : ReservedRecord;
  en_dispatched : bool;
  en_acked_settlement : option EffectAckSettlement;
}.

Record RecoveryState : Type := {
  rs_last_seq : N;
  rs_by_effect : gmap N ReservationEntry;
}.

Definition recovery_start : RecoveryState := {| rs_last_seq := 0; rs_by_effect := ∅ |}.

Class ReservationCodec := {
  jframe_to_vec : JournalFrame -> bytes;
  stored_to_vec : StoredFrame -> bytes;
  stored_from_slice : bytes -> option StoredFrame;
}.

Class ReservationCodecLaws `{RC : ReservationCodec} : Prop := {
  stored_roundtrip : forall f, stored_from_slice (stored_to_vec f) = Some f;
  stored_no_newline : forall f, NEWLINE ∉ stored_to_vec f;
}.

(** [HashMap::values]. *)
Class HashOrder := {
  hash_values : gmap N ReservationEntry -> list ReservationEntry;
  hash_values_all : forall m entry, entry ∈ hash_values m <-> exists id, m !! id = Some entry;
}.

(** ** Transitions *)

Definition transition_effect (transition : ReservationTransition) : N :=
  match transition with
  | Reserved effect_id _ | DispatchedEffect effect_id | Acknowledged effect_id _ => effect_id
  end.

Definition validate_transition (transition : ReservationTransition) : result unit text :=
  if is_nil (transition_effect transition) then Err (txt "broker reservation effect id is nil")
  else
    match transition with
    | Reserved _ record =>
        let id_chars := length (rd_reservation_id record) in
        if (id_chars =? 0) || (MAX_RESERVATION_ID_CHARS <? id_chars)
        then Err (txt "broker reservation id is empty or oversized") else Ok tt
    | _ => Ok tt
    end.

Definition validate_fold (state : RecoveryState) (transition : ReservationTransition) : result unit text :=
  match transition with
  | Reserved effect_id _ =>
      match rs_by_effect state !! effect_id with
      | Some _ => Err (txt "effect already has a broker reservation")
      | None =>
          if (MAX_RESERVATIONS <=? N.of_nat (size (rs_by_effect state)))%N
          then Err (txt "broker journal holds too many live reservations") else Ok tt
      end
  | DispatchedEffect effect_id =>
      match rs_by_effect state !! effect_id with
      | Some entry =>
          if negb (en_dispatched entry) && negb (bool_decide (is_Some (en_acked_settlement entry)))
          then Ok tt else Err (txt "effect is not waiting for dispatch")
      | None => Err (txt "effect has no broker reservation")
      end
  | Acknowledged effect_id _ =>
      match rs_by_effect state !! effect_id with
      | Some entry =>
          if en_dispatched entry && negb (bool_decide (is_Some (en_acked_settlement entry)))
          then Ok tt else Err (txt "effect is not waiting for acknowledgement")
      | None => Err (txt "effect has no broker reservation")
      end
  end.

Definition set_by_effect (state : RecoveryState) (m : gmap N ReservationEntry) : RecoveryState :=
  {| rs_last_seq := rs_last_seq state; rs_by_effect := m |}.

Definition apply_transition (state : RecoveryState) (transition : ReservationTransition) :
    result RecoveryState text :=
  match transition with
  | Reserved effect_id record =>
      Ok (set_by_effect state (<[effect_id := {| en_effect_id := effect_id; en_record := record;
            en_dispatched := false; en_acked_settlement := None |}]> (rs_by_effect state)))
  | DispatchedEffect effect_id =>
      match rs_by_effect state !! effect_id with
      | None => Err (txt "effect has no broker reservation")
      | Some entry =>
          Ok (set_by_effect state (<[effect_id := {| en_effect_id := en_effect_id entry;
                en_record := en_record entry; en_dispatched := true;
                en_acked_settlement := en_acked_settlement entry |}]> (rs_by_effect state)))
      end
  | Acknowledged effect_id settlement =>
      match rs_by_effect state !! effect_id with
      | None => Err (txt "effect has no broker reservation")
      | Some entry =>
          Ok (set_by_effect state (<[effect_id := {| en_effect_id := en_effect_id entry;
                en_record := en_record entry; en_dispatched := en_dispatched entry;
                en_acked_settlement := Some settlement |}]> (rs_by_effect state)))
      end
  end.

Definition set_seq (state : RecoveryState) (seq : N) : RecoveryState :=
  {| rs_last_seq := seq; rs_by_effect := rs_by_effect state |}.

(** Validation, fold and sequence number of one transition. *)
Definition fold_transition (state : RecoveryState) (transition : ReservationTransition) (seq : N) :
    result RecoveryState text :=
  let? _ := validate_transition transition in
  let? _ := validate_fold state transition in
  let? state := apply_transition state transition in
  Ok (set_seq state seq).

Section journal.
Context `{CD : Codec} `{RC : ReservationCodec} `{HO : HashOrder}.

Definition by_reservation_id (state : RecoveryState) (reservation_id : text) : option ReservationEntry :=
  List.find (fun entry => bool_decide (rd_reservation_id (en_record entry) = reservation_id))
    (hash_values (rs_by_effect state)).

(** ** Frames *)

Definition journal_frame (seq : N) (transition : ReservationTransition) : JournalFrame :=
  {| jf_version := JOURNAL_VERSION; jf_seq := seq; jf_transition := transition |}.

Definition encode_frame (frame : JournalFrame) : bytes :=
  stored_to_vec {| st_frame := frame; st_checksum := checksum_hex (jframe_to_vec frame) |}.

Definition append_frame (io : AppendIo) (file : bytes) (frame : JournalFrame) : AgentResult unit * bytes :=
  let encoded := encode_frame frame in
  if MAX_FRAME_BYTES <? length encoded
  then (Err (Storage (txt "broker journal frame exceeds its byte limit")), file)
  else
    match io with
    | StatFails => (Err (Storage (txt "stat broker journal")), file)
    | _ =>
        let projected := (N.of_nat (length file) + N.of_nat (length encoded) + 1)%N in
        if (u64_max <? projected)%N then (Err (Storage (txt "broker journal size overflow")), file)
        else if (MAX_FILE_BYTES <? projected)%N
        then (Err (RecoveryRequired (txt "broker journal reached its byte hard limit")), file)
        else
          match persist_operation_frame io file encoded with
          | (true, file) => (Ok tt, file)
          | (false, file) => (Err (Storage (txt "persist broker journal")), file)
          end
    end.

(** ** Recovery *)

Definition broker_corrupt (detail : text) : AgentError :=
  RecoveryRequired (txt "broker journal is corrupt: " ++ detail).

Definition parse_stored (line : bytes) : AgentResult JournalFrame :=
  match stored_from_slice line with
  | None => Err (broker_corrupt (txt "malformed frame"))
  | Some stored =>
      if bool_decide (checksum_hex (jframe_to_vec (st_frame stored)) = st_checksum stored)
      then Ok (st_frame stored)
      else Err (broker_corrupt (txt "checksum mismatch"))
  end.

Definition fold_frame (state : RecoveryState) (frame : JournalFrame) : AgentResult RecoveryState :=
  if negb (jf_version frame =? JOURNAL_VERSION)%N then Err (broker_corrupt (txt "unsupported version"))
  else if negb (jf_seq frame =? rs_last_seq state + 1)%N then Err (broker_corrupt (txt "sequence gap"))
  else map_err broker_corrupt (fold_transition state (jf_transition frame) (jf_seq frame)).

(** The loop of [recover_file]: the state, the end of the last whole frame, and
    whether a torn one follows. Each round reads at least one byte. *)
Fixpoint recover_frames (fuel : nat) (size : nat) (input : bytes) (state : RecoveryState) (offset : nat) :
    AgentResult (RecoveryState * nat * bool) :=
  match fuel with
  | O => Err (Internal (txt "out of fuel"))
  | S fuel =>
      let '(line, rest) := read_until (MAX_FRAME_BYTES + 2) input in
      if decide (line = []) then Ok (state, offset, false)
      else
        let next := offset + length line in
        if negb (ends_with_newline line)
        then if next =? size then Ok (state, offset, true)
             else Err (broker_corrupt (txt "partial middle frame"))
        else if MAX_FRAME_BYTES + 1 <? length line
        then Err (broker_corrupt (txt "frame exceeds bound"))
        else
          let? frame := parse_stored (removelast line) in
          let? state := fold_frame state frame in
          recover_frames fuel size rest state next
  end.

(** The recovered state, and the file after the repair of a torn tail. *)
Definition recover_file (file : bytes) : AgentResult (RecoveryState * bytes) :=
  if (MAX_FILE_BYTES <? N.of_nat (length file))%N
  then Err (broker_corrupt (txt "file exceeds hard limit"))
  else
    let? (state, last_good, torn_tail) :=
      recover_frames (S (length file)) (length file) file recovery_start 0 in
    Ok (state, if torn_tail : bool then take last_good file else file).

(** ** The journal *)

Record ReservationJournal : Type := {
  rj_file : bytes;
  rj_recovery : RecoveryState;
  rj_failed : option text;
}.

(** [ReservationJournal::open], holding the lock. *)
Definition open_journal (file : bytes) : AgentResult ReservationJournal :=
  let? (recovery, file) := recover_file file in
  Ok {| rj_file := file; rj_recovery := recovery; rj_failed := None |}.

Definition append (io : AppendIo) (transition : ReservationTransition) : M ReservationJournal AgentError unit :=
  fun j =>
  match validate_transition transition with
  | Err detail => (Err (InvalidRequest detail), j)
  | Ok _ =>
      match rj_failed j with
      | Some error => (Err (Storage error), j)
      | None =>
          match validate_fold (rj_recovery j) transition with
          | Err detail => (Err (InvalidRequest detail), j)
          | Ok _ =>
              if (MAX_RESERVATIONS <=? rs_last_seq (rj_recovery j))%N
              then (Err (RecoveryRequired (txt "broker journal reached its record limit")), j)
              else
                match checked_succ (rs_last_seq (rj_recovery j)) with
                | None => (Err (RecoveryRequired (txt "broker journal sequence exhausted")), j)
                | Some seq =>
                    match append_frame io (rj_file j) (journal_frame seq transition) with
                    | (Err error, file) =>
                        let message := txt "broker journal failed permanently: " ++ display_error error in
                        (Err (Storage message),
                         {| rj_file := file; rj_recovery := rj_recovery j; rj_failed := Some message |})
                    | (Ok _, file) =>
                        match apply_transition (rj_recovery j) transition with
                        | Ok recovery =>
                            (Ok tt, {| rj_file := file; rj_recovery := set_seq recovery seq; rj_failed := None |})
                        | Err detail => (Err (Internal detail), j)      (* expect: validated above *)
                        end
                    end
                end
          end
      end
  end.

Definition record_reserved (io : AppendIo) (effect_id : N) (record : ReservedRecord) :=
  append io (Reserved effect_id record).
Definition record_dispatched (io : AppendIo) (effect_id : N) := append io (DispatchedEffect effect_id).
Definition record_acked (io : AppendIo) (effect_id : N) (settlement : EffectAckSettlement) :=
  append io (Acknowledged effect_id settlement).

Definition effect_id_for (reservation_id : text) (j : ReservationJournal) : AgentResult (option N) :=
  match rj_failed j with
  | Some error => Err (Storage error)
  | None => Ok (en_effect_id <$> by_reservation_id (rj_recovery j) reservation_id)
  end.

(** ** Reconciliation *)

(** [ReservationJournal::reconcile] once the entry is known to be the effect's. *)
Definition classify (entry : ReservationEntry) : EffectReconciliation :=
  let id := rd_reservation_id (en_record entry) in
  match en_dispatched entry, en_acked_settlement entry with
  | false, _ => RecNotApplied (Some (txt "broker reservation was never dispatched"))
  | true, None =>
      RecAmbiguous (txt "broker reservation " ++ id ++ txt " was dispatched without a durable acknowledgement")
  | true, Some (AckApplied Durable) =>
      RecApplied Durable (Some (txt "broker:" ++ id ++ txt ":acked-applied"))
  | true, Some (AckApplied (DurabilityFailed reason)) =>
      RecApplied (DurabilityFailed reason) (Some (txt "broker:" ++ id ++ txt ":acked-applied-durability-failed"))
  | true, Some AckNotApplied =>
      RecNotApplied (Some (txt "broker acknowledged the dispatch as not applied"))
  | true, Some AckUnknown =>
      RecAmbiguous (txt "broker reservation " ++ id ++ txt " was acknowledged with an unknown settlement")
  end.

Definition reconcile (context : OperationEffectContext) (j : ReservationJournal) :
    AgentResult (option EffectReconciliation) :=
  match rj_failed j with
  | Some error => Err (Storage error)
  | None =>
      match rs_by_effect (rj_recovery j) !! oc_effect_id context with
      | None => Ok None
      | Some entry =>
          if negb (record_matches (en_record entry) context)
          then Ok (Some (RecAmbiguous (txt "broker reservation " ++ rd_reservation_id (en_record entry)
                                         ++ txt " drifted from the Core snapshot")))
          else Ok (Some (classify entry))
      end
  end.

(** [JournaledEffectBroker::reconcile_effect_id], for a debt that carries no snapshot. *)
Definition classify_debt (entry : ReservationEntry) : EffectReconciliation :=
  let id := rd_reservation_id (en_record entry) in
  match en_dispatched entry, en_acked_settlement entry with
  | false, _ => RecNotApplied (Some (txt "broker reservation was never dispatched"))
  | true, None =>
      RecAmbiguous (txt "broker reservation " ++ id ++ txt " was dispatched without a durable acknowledgement")
  | true, Some (AckApplied durability) =>
      RecApplied durability (Some (txt "broker:" ++ id ++ txt ":acked-applied"))
  | true, Some AckNotApplied =>
      RecNotApplied (Some (txt "broker acknowledged the dispatch as not applied"))
  | true, Some AckUnknown =>
      RecAmbiguous (txt "broker reservation " ++ id ++ txt " acknowledged the outcome as unknown")
  end.

Definition reconcile_effect_id (effect_id : N) (j : ReservationJournal) : AgentResult (option EffectReconciliation) :=
  match rj_failed j with
  | Some error => Err (Storage error)
  | None => Ok (classify_debt <$> rs_by_effect (rj_recovery j) !! effect_id)
  end.

End journal.

(** Facts of the reservation journal: recovery of whole frames and of a torn tail, what
    an append leaves behind, and what the fold of a history keeps. *)

(** ** The fold *)

(** Folding a history of transitions, numbered_frames on from the state. *)
Fixpoint fold_all (state : RecoveryState) (ts : list ReservationTransition) : result RecoveryState text :=
  match ts with
  | [] => Ok state
  | t :: ts' => let? state := fold_transition state t (rs_last_seq state + 1) in fold_all state ts'
  end.

Lemma fold_all_app state ts ts' :
  fold_all state (ts ++ ts') = let? state := fold_all state ts in fold_all state ts'.
Proof.
  revert state. induction ts as [|t ts IH]; intros state; [done|]. cbn [app fold_all]. unfold rbind.
  destruct (fold_transition state t _); [apply IH|done].
Qed.

Lemma fold_transition_seq state t seq state' : fold_transition state t seq = Ok state' -> rs_last_seq state' = seq.
Proof. unfold fold_transition, rbind. repeat (case_match; [|done]). by intros [= <-]. Qed.

Lemma fold_all_seq state ts state' :
  fold_all state ts = Ok state' -> rs_last_seq state' = (rs_last_seq state + N.of_nat (length ts))%N.
Proof.
  revert state. induction ts as [|t ts IH]; intros state; cbn [fold_all length]; [intros [= ->]; lia|].
  unfold rbind. destruct (fold_transition state t _) as [s|] eqn:E; [|done]. intros ->%IH.
  apply fold_transition_seq in E. lia.
Qed.

(** What one transition did. *)
Inductive folded (state : RecoveryState) : ReservationTransition -> gmap N ReservationEntry -> Prop :=
| Folded_reserved effect_id record :
    rs_by_effect state !! effect_id = None ->
    folded state (Reserved effect_id record)
      (<[effect_id := {| en_effect_id := effect_id; en_record := record; en_dispatched := false;
                         en_acked_settlement := None |}]> (rs_by_effect state))
| Folded_dispatched effect_id record entry_id :
    rs_by_effect state !! effect_id =
      Some {| en_effect_id := entry_id; en_record := record; en_dispatched := false; en_acked_settlement := None |} ->
    folded state (DispatchedEffect effect_id)
      (<[effect_id := {| en_effect_id := entry_id; en_record := record; en_dispatched := true;
                         en_acked_settlement := None |}]> (rs_by_effect state))
| Folded_acknowledged effect_id settlement record entry_id :
    rs_by_effect state !! effect_id =
      Some {| en_effect_id := entry_id; en_record := record; en_dispatched := true; en_acked_settlement := None |} ->
    folded state (Acknowledged effect_id settlement)
      (<[effect_id := {| en_effect_id := entry_id; en_record := record; en_dispatched := true;
                         en_acked_settlement := Some settlement |}]> (rs_by_effect state)).

Lemma fold_transition_folded state t seq state' :
  fold_transition state t seq = Ok state' ->
  folded state t (rs_by_effect state') /\ rs_last_seq state' = seq.
Proof.
  intros H. split; [|by eapply fold_transition_seq]. revert H. unfold fold_transition, rbind.
  destruct (validate_transition t) as [u|]; [|done].
  destruct t as [e record|e|e settlement]; cbn [validate_fold apply_transition].
  - destruct (rs_by_effect state !! e) eqn:E; [done|]. destruct (_ <=? _)%N; [done|]. intros [= <-]. by constructor.
  - destruct (rs_by_effect state !! e) as [[i r d a]|] eqn:E; [|done]. cbn [en_dispatched en_acked_settlement].
    destruct d; [done|]. destruct a; [done|]. cbn. intros [= <-]. by econstructor.
  - destruct (rs_by_effect state !! e) as [[i r d a]|] eqn:E; [|done]. cbn [en_dispatched en_acked_settlement].
    destruct d; [|done]. destruct a; [done|]. cbn. intros [= <-]. by econstructor.
Qed.

Lemma folded_others state t m e : folded state t m -> e <> transition_effect t -> m !! e = rs_by_effect state !! e.
Proof. intros [] Hne; cbn in Hne; by rewrite lookup_insert_ne. Qed.

(** The entry a transition leaves, and the one it found. *)
Lemma folded_entry state t m :
  folded state t m ->
  match t with
  | Reserved e record =>
      m !! e = Some {| en_effect_id := e; en_record := record; en_dispatched := false; en_acked_settlement := None |}
  | DispatchedEffect e => exists i record,
      rs_by_effect state !! e =
        Some {| en_effect_id := i; en_record := record; en_dispatched := false; en_acked_settlement := None |} /\
      m !! e = Some {| en_effect_id := i; en_record := record; en_dispatched := true; en_acked_settlement := None |}
  | Acknowledged e s => exists i record,
      rs_by_effect state !! e =
        Some {| en_effect_id := i; en_record := record; en_dispatched := true; en_acked_settlement := None |} /\
      m !! e = Some {| en_effect_id := i; en_record := record; en_dispatched := true; en_acked_settlement := Some s |}
  end.
Proof. intros []; [by rewrite lookup_insert_eq|eexists _, _; by rewrite lookup_insert_eq..]. Qed.

(** Later entries know at least as much. *)
Definition entry_le (entry entry' : ReservationEntry) : Prop :=
  en_record entry' = en_record entry /\ (en_dispatched entry = true -> en_dispatched entry' = true) /\
  (forall s, en_acked_settlement entry = Some s -> en_acked_settlement entry' = Some s /\
     en_dispatched entry' = en_dispatched entry).

Definition entries_le (m m' : gmap N ReservationEntry) : Prop :=
  forall e entry, m !! e = Some entry -> exists entry', m' !! e = Some entry' /\ entry_le entry entry'.

#[export] Instance entries_le_preorder : PreOrder entries_le.
Proof.
  split.
  - intros m e entry H. exists entry. by split_and!.
  - intros m1 m2 m3 H12 H23 e entry H. destruct (H12 _ _ H) as (e2 & H2 & R1 & D1 & A1).
    destruct (H23 _ _ H2) as (e3 & H3 & R2 & D2 & A2). exists e3. split; [done|]. split; [congruence|].
    split; [auto|]. intros s Hs. destruct (A1 s Hs) as [Hs2 Hd2]. destruct (A2 s Hs2) as [Hs3 Hd3].
    split; [done|congruence].
Qed.

Lemma folded_le state t m : folded state t m -> entries_le (rs_by_effect state) m.
Proof.
  intros H e entry He. destruct H as [i record Hn|i record entry_id Hi|i settlement record entry_id Hi];
    (destruct (decide (i = e)) as [->|Hne];
      [rewrite lookup_insert_eq|rewrite lookup_insert_ne by done; exists entry; by split_and!]).
  - congruence.
  - eexists. split; [done|]. rewrite Hi in He. injection He as <-. by split_and!.
  - eexists. split; [done|]. rewrite Hi in He. injection He as <-. by split_and!.
Qed.

(** A state whose entries are filed under their own effects. *)
Definition filed (m : gmap N ReservationEntry) : Prop := forall e entry, m !! e = Some entry -> en_effect_id entry = e.

Lemma folded_filed state t m : filed (rs_by_effect state) -> folded state t m -> filed m.
Proof.
  intros Hf H e entry.
  destruct H as [i record Hn|i record entry_id Hi|i settlement record entry_id Hi];
    (destruct (decide (i = e)) as [->|Hne];
      [rewrite lookup_insert_eq; intros [= <-]|rewrite lookup_insert_ne by done; exact (Hf e entry)]).
  - done.
  - by apply Hf in Hi.
  - by apply Hf in Hi.
Qed.

Section facts.
Context `{CD : Codec} `{RC : ReservationCodec} `{RL : !ReservationCodecLaws}.

(** ** Whole frames *)

Fixpoint numbered_frames (seq : N) (ts : list ReservationTransition) : list JournalFrame :=
  match ts with
  | [] => []
  | t :: ts' => journal_frame (seq + 1) t :: numbered_frames (seq + 1) ts'
  end.

Lemma numbered_frames_snoc seq ts t :
  numbered_frames seq (ts ++ [t]) = numbered_frames seq ts ++ [journal_frame (seq + N.of_nat (length ts) + 1) t].
Proof.
  revert seq. induction ts as [|t0 ts IH]; intros seq; cbn [app numbered_frames length].
  - by rewrite N.add_0_r.
  - rewrite IH. by replace (seq + N.of_nat (S (length ts)) + 1)%N with (seq + 1 + N.of_nat (length ts) + 1)%N by lia.
Qed.

Definition line_of (frame : JournalFrame) : bytes := encode_frame frame ++ [NEWLINE].
Definition lines_of (frames : list JournalFrame) : bytes := frames ≫= line_of.
Definition journal_bytes (ts : list ReservationTransition) : bytes := lines_of (numbered_frames 0 ts).
Definition fits (frame : JournalFrame) : Prop := length (encode_frame frame) <= MAX_FRAME_BYTES.

Lemma lines_of_cons frame frames : lines_of (frame :: frames) = line_of frame ++ lines_of frames.
Proof. done. Qed.

Lemma journal_bytes_snoc ts t :
  journal_bytes (ts ++ [t]) = journal_bytes ts ++ line_of (journal_frame (N.of_nat (length ts) + 1) t).
Proof.
  unfold journal_bytes, lines_of. rewrite numbered_frames_snoc, bind_app. cbn. by rewrite app_nil_r.
Qed.

Lemma parse_line frame : parse_stored (encode_frame frame) = Ok frame.
Proof. unfold parse_stored, encode_frame. rewrite stored_roundtrip. cbn. by rewrite bool_decide_eq_true_2. Qed.

Lemma recover_line fuel size frame rest state offset :
  fits frame ->
  recover_frames (S fuel) size (line_of frame ++ rest) state offset =
    let? state := fold_frame state frame in
    recover_frames fuel size rest state (offset + length (line_of frame)).
Proof.
  intros Hf. cbn [recover_frames]. unfold line_of. rewrite <- app_assoc. cbn [app].
  rewrite read_until_line; [|apply stored_no_newline|unfold fits in Hf; lia].
  rewrite decide_False by (by destruct (encode_frame frame)).
  unfold ends_with_newline. rewrite last_snoc, bool_decide_eq_true_2 by done. cbn [negb].
  rewrite (proj2 (Nat.ltb_ge _ _)) by (rewrite length_app; cbn; unfold fits in Hf; lia).
  by rewrite removelast_last, parse_line.
Qed.

Lemma fold_numbered state t :
  fold_frame state (journal_frame (rs_last_seq state + 1) t) =
    map_err broker_corrupt (fold_transition state t (rs_last_seq state + 1)).
Proof. unfold fold_frame. cbn [jf_version jf_seq jf_transition journal_frame]. by rewrite !N.eqb_refl. Qed.

Lemma recover_lines fuel size ts rest state offset :
  Forall fits (numbered_frames (rs_last_seq state) ts) ->
  recover_frames (length ts + fuel) size (lines_of (numbered_frames (rs_last_seq state) ts) ++ rest) state offset =
    let? state' := map_err broker_corrupt (fold_all state ts) in
    recover_frames fuel size rest state' (offset + length (lines_of (numbered_frames (rs_last_seq state) ts))).
Proof.
  revert state offset. induction ts as [|t ts IH]; intros state offset Hf.
  - cbn. by rewrite Nat.add_0_r.
  - cbn [numbered_frames] in *. apply Forall_cons in Hf as [Hf Hfs]. rewrite lines_of_cons, <- app_assoc.
    cbn [length Nat.add]. rewrite recover_line by done. rewrite fold_numbered. cbn [fold_all].
    unfold rbind, map_err. destruct (fold_transition state t _) as [state1|] eqn:E; [|done].
    pose proof (fold_transition_seq _ _ _ _ E) as Hs. rewrite <- Hs in *. rewrite IH by done.
    unfold rbind, map_err. destruct (fold_all state1 ts); [|done]. rewrite length_app. f_equal. lia.
Qed.

Lemma length_lines seq ts : length ts <= length (lines_of (numbered_frames seq ts)).
Proof.
  revert seq. induction ts as [|t ts IH]; intros seq; [done|]. cbn [numbered_frames]. rewrite lines_of_cons, length_app.
  unfold line_of. rewrite length_app. cbn [length]. specialize (IH (seq + 1)%N). lia.
Qed.

(** ** Torn tails *)

(** What an append that stopped part way leaves: no whole line. *)
Definition torn_frame (p : bytes) : Prop :=
  p = [] \/ exists frame k, fits frame /\ p = take k (line_of frame) /\ k <= length (encode_frame frame).

Lemma torn_frame_bytes p : torn_frame p -> NEWLINE ∉ p /\ length p <= MAX_FRAME_BYTES.
Proof.
  intros [->|(f & k & Hf & -> & Hk)]; [split; [apply not_elem_of_nil|cbn; lia]|].
  unfold line_of. rewrite take_app_le by done. split.
  - intros (i & Hi & _)%elem_of_take. apply (stored_no_newline {| st_frame := f;
      st_checksum := checksum_hex (jframe_to_vec f) |}). by eapply list_elem_of_lookup_2.
  - rewrite length_take. unfold fits in Hf. lia.
Qed.

(** A journal of whole frames and at most one torn one recovers to the fold of its
    frames, and the torn one is cut off. *)
Lemma recover_journal ts p state :
  Forall fits (numbered_frames 0 ts) -> torn_frame p ->
  (N.of_nat (length (journal_bytes ts ++ p)) <= MAX_FILE_BYTES)%N ->
  fold_all recovery_start ts = Ok state ->
  recover_file (journal_bytes ts ++ p) = Ok (state, journal_bytes ts).
Proof.
  intros Hf Ht Hsize Hfold. unfold recover_file.
  destruct (N.ltb_spec MAX_FILE_BYTES (N.of_nat (length (journal_bytes ts ++ p)))); [lia|].
  destruct (torn_frame_bytes p Ht) as [Hnl Hlen]. set (size := length (journal_bytes ts ++ p)) at 2.
  pose proof (length_lines 0 ts) as Hll. fold (journal_bytes ts) in Hll.
  assert (exists fuel, S (length (journal_bytes ts ++ p)) = length ts + S fuel) as [fuel ->].
  { exists (length (journal_bytes ts ++ p) - length ts). rewrite length_app in *. lia. }
  pose proof (recover_lines (S fuel) size ts p recovery_start 0 Hf) as Hr.
  cbn [rs_last_seq recovery_start] in Hr. fold (journal_bytes ts) in Hr. rewrite Hr, Hfold.
  unfold rbind at 2, map_err. cbn [Nat.add recover_frames].
  rewrite read_until_partial by (done || lia). case_decide as Hp.
  - subst p. cbn [rbind]. by rewrite app_nil_r.
  - unfold ends_with_newline. rewrite bool_decide_eq_false_2
      by (intros Hl; apply Hnl; by apply last_Some_elem_of in Hl).
    cbn [negb]. rewrite (proj2 (Nat.eqb_eq _ _)) by (unfold size; by rewrite length_app).
    cbn [rbind]. f_equal. f_equal. apply take_app_length.
Qed.

(** ** Appending *)

(** The file after an append: as before, with the whole line, or with a torn one. *)
Lemma append_frame_file io file frame r file' :
  append_frame io file frame = (r, file') ->
  (r = Ok tt /\ fits frame /\ file' = file ++ line_of frame /\
     (N.of_nat (length file') <= MAX_FILE_BYTES)%N) \/
  (exists error, r = Err error /\
     (file' = file \/
      (fits frame /\ (N.of_nat (length file + length (line_of frame)) <= MAX_FILE_BYTES)%N /\
       (file' = file ++ line_of frame \/
        exists k, file' = file ++ take k (line_of frame) /\ k <= length (encode_frame frame))))).
Proof.
  unfold append_frame. fold (line_of frame).
  destruct (Nat.ltb_spec MAX_FRAME_BYTES (length (encode_frame frame))) as [|Hfit];
    [intros [= <- <-]; right; eexists; split; [done|by left]|].
  assert (Hl : length (line_of frame) = length (encode_frame frame) + 1)
    by (unfold line_of; by rewrite length_app).
  destruct io as [| |n|]; try (intros [= <- <-]; right; eexists; split; [done|by left]);
    (destruct (_ <? _)%N; [intros [= <- <-]; right; eexists; split; [done|by left]|]);
    (destruct (N.ltb_spec MAX_FILE_BYTES (N.of_nat (length file) + N.of_nat (length (encode_frame frame)) + 1));
      [intros [= <- <-]; right; eexists; split; [done|by left]|]);
    cbn [persist_operation_frame]; intros [= <- <-].
  - left. unfold line_of in *. rewrite length_app. split_and!; [done..|lia].
  - right. eexists. split; [done|]. right. split; [done|]. split; [lia|].
    destruct (decide (n <= length (encode_frame frame))) as [Hn|Hn].
    + right. by exists n.
    + left. rewrite take_ge by (unfold line_of in Hl; lia). done.
  - right. eexists. split; [done|]. right. split; [done|]. split; [lia|]. by left.
Qed.
End facts.
