(* ===== verification/Broker.v ===== *)
(** The effect brokers of agent-core/broker.rs and port.rs: the broker that journals the
    three phases of another one in its own process, the coordinator process that keeps
    the same journal behind a pipe, and its client.

    What leaves the broker is a list of events: an effect handed to its executor, a
    staged effect rolled back, a settlement the caller asked to record. A remote call has
    a fate: the request may be lost, or only its answer. *)

From S2P Require Import Prelude Text Digest Jcs Operation Journal Wal Intent Commit Frame Reservations.

(** [Display for Uuid]. *)
Class UuidText := { uuid_text : N -> text }.

Definition u64_text (n : N) : text := uint_text (N.to_uint n).

Inductive BrokerEvent : Type :=
| Applies (effect_id : N)
| RollsBackStaged (effect_id : N)
| Settles (reservation_id : text) (settlement : EffectAckSettlement).

(** What the inner broker and the effect answer. *)
Record BrokerEnv : Type := {
  bk_reserve : AgentResult text;
  bk_dispatch : EffectReceipt;
  bk_ack : AgentResult unit;
  bk_rollback : AgentResult unit;
}.

Record BrokerWorld : Type := {
  bw_journal : ReservationJournal;
  bw_poisoned : option text;             (* of the client's connection *)
  bw_events : list BrokerEvent;
}.

Definition with_journal (w : BrokerWorld) (j : ReservationJournal) : BrokerWorld :=
  {| bw_journal := j; bw_poisoned := bw_poisoned w; bw_events := bw_events w |}.

Definition emit (w : BrokerWorld) (event : BrokerEvent) : BrokerWorld :=
  {| bw_journal := bw_journal w; bw_poisoned := bw_poisoned w; bw_events := bw_events w ++ [event] |}.

Definition poison_and_reap (w : BrokerWorld) (reason : text) : BrokerWorld :=
  {| bw_journal := bw_journal w; bw_poisoned := Some reason; bw_events := bw_events w |}.

Section brokers.
Context `{CD : Codec} `{RC : ReservationCodec} `{HO : HashOrder} `{UT : UuidText}.

(** ** [LocalEffectBroker] *)

Definition local_reserve (reservation : EffectReservation) : text :=
  txt "local/" ++ uuid_text (es_run_id reservation) ++ txt "/" ++ uuid_text (es_operation_id reservation)
    ++ txt "/g" ++ u64_text (es_generation reservation).

(** ** [JournaledEffectBroker] *)

Definition rollback_note (env : BrokerEnv) : text :=
  match bk_rollback env with
  | Ok _ => []
  | Err rollback => txt "; rollback failed: " ++ display_error rollback
  end.

Definition journaled_reserve (env : BrokerEnv) (io : AppendIo) (reservation : EffectReservation) :
    M BrokerWorld AgentError text := fun w =>
  match bk_reserve env with
  | Err error => (Err error, w)
  | Ok reservation_id =>
      match record_reserved io (es_effect_id reservation) (from_reservation reservation_id reservation)
              (bw_journal w) with
      | (Err error, j) => (Err error, with_journal w j)
      | (Ok _, j) => (Ok reservation_id, with_journal w j)
      end
  end.

Definition journaled_dispatch (env : BrokerEnv) (io : AppendIo) (effect_id : N) (w : BrokerWorld) :
    EffectReceipt * BrokerWorld :=
  match record_dispatched io effect_id (bw_journal w) with
  | (Err error, j) =>
      (ReceiptNotApplied (txt "broker journal refused the dispatch of effect: " ++ display_error error
                            ++ rollback_note env),
       emit (with_journal w j) (RollsBackStaged effect_id))
  | (Ok _, j) => (bk_dispatch env, emit (with_journal w j) (Applies effect_id))
  end.

Definition journaled_ack (env : BrokerEnv) (io : AppendIo) (reservation_id : text)
    (settlement : EffectAckSettlement) : M BrokerWorld AgentError unit := fun w =>
  let w := emit w (Settles reservation_id settlement) in
  match effect_id_for reservation_id (bw_journal w) with
  | Err error => (Err error, w)
  | Ok None => (Err (InvalidRequest (txt "acknowledgement references unknown broker reservation")), w)
  | Ok (Some effect_id) =>
      match record_acked io effect_id settlement (bw_journal w) with
      | (Err error, j) => (Err error, with_journal w j)
      | (Ok _, j) => (bk_ack env, with_journal w j)
      end
  end.

(** ** The coordinator process *)

Inductive CoordinatorRequest : Type :=
| ReqReserve (effect_id : N) (record : ReservedRecord)
| ReqDispatched (effect_id : N) (reservation_id : text)
| ReqAcknowledged (reservation_id : text) (settlement : EffectAckSettlement)
| ReqReconcile (context : OperationEffectContext)
| ReqShutdown.

Record CoordinatorReply : Type := {
  cy_ok : bool;
  cy_reservation_id : option text;
  cy_reconciliation : option (option EffectReconciliation);
  cy_error : option text;
}.

Definition reply_ok (reservation_id : option text) : CoordinatorReply :=
  {| cy_ok := true; cy_reservation_id := reservation_id; cy_reconciliation := None; cy_error := None |}.

Definition reply_error (error : text) : CoordinatorReply :=
  {| cy_ok := false; cy_reservation_id := None; cy_reconciliation := None; cy_error := Some error |}.

Definition set_reservation_id (record : ReservedRecord) (id : text) : ReservedRecord := {|
  rd_reservation_id := id; rd_run_id := rd_run_id record; rd_operation_id := rd_operation_id record;
  rd_argument_digest := rd_argument_digest record; rd_generation := rd_generation record;
  rd_intent := rd_intent record |}.

Definition coordinator_id (seq : N) (effect_id : N) : text :=
  txt "coord/" ++ u64_text seq ++ txt "/" ++ uuid_text effect_id.

Definition handle_coordinator_request (io : AppendIo) (request : CoordinatorRequest) (j : ReservationJournal) :
    CoordinatorReply * ReservationJournal :=
  let answer (reservation_id : option text) (r : AgentResult unit * ReservationJournal) :=
    match r with
    | (Ok _, j) => (reply_ok reservation_id, j)
    | (Err error, j) => (reply_error (display_error error), j)
    end in
  match request with
  | ReqReserve effect_id record =>
      let record :=
        if bool_decide (rd_reservation_id record = [])
        then set_reservation_id record (coordinator_id (rs_last_seq (rj_recovery j) + 1) effect_id)
        else record in
      answer (Some (rd_reservation_id record)) (record_reserved io effect_id record j)
  | ReqDispatched effect_id reservation_id => answer (Some reservation_id) (record_dispatched io effect_id j)
  | ReqAcknowledged reservation_id settlement =>
      match effect_id_for reservation_id j with
      | Ok (Some effect_id) => answer (Some reservation_id) (record_acked io effect_id settlement j)
      | Ok None => (reply_error (txt "acknowledgement references unknown broker reservation"), j)
      | Err error => (reply_error (display_error error), j)
      end
  | ReqReconcile context =>
      match reconcile context j with
      | Ok reconciliation =>
          ({| cy_ok := true; cy_reservation_id := None; cy_reconciliation := Some reconciliation;
              cy_error := None |}, j)
      | Err error => (reply_error (display_error error), j)
      end
  | ReqShutdown => (reply_ok None, j)
  end.

(** ** [ProcessEffectBroker] *)

(** The round trip of one call: answered within its bound; a request the host never
    served; a request it served whose answer was lost, late or malformed. *)
Inductive RpcFate : Type :=
| Answered (io : AppendIo)
| Unserved (reason : text)
| Unanswered (io : AppendIo) (reason : text).

Definition rpc (fate : RpcFate) (request : CoordinatorRequest) : M BrokerWorld AgentError CoordinatorReply := fun w =>
  match bw_poisoned w with
  | Some reason => (Err (Storage (txt "effect coordinator is poisoned: " ++ reason)), w)
  | None =>
      match fate with
      | Answered io =>
          let '(reply, j) := handle_coordinator_request io request (bw_journal w) in (Ok reply, with_journal w j)
      | Unserved reason => (Err (Storage reason), poison_and_reap w reason)
      | Unanswered io reason =>
          let '(_, j) := handle_coordinator_request io request (bw_journal w) in
          (Err (Storage reason), poison_and_reap (with_journal w j) reason)
      end
  end.

Definition require_ok (reply : CoordinatorReply) : AgentResult CoordinatorReply :=
  if cy_ok reply then Ok reply
  else Err (Storage (default (txt "coordinator refused") (cy_error reply))).

Definition process_reserve (fate : RpcFate) (reservation : EffectReservation) : M BrokerWorld AgentError text :=
  do reply <- rpc fate (ReqReserve (es_effect_id reservation) (from_reservation [] reservation)) ;;
  do reply <- lift (require_ok reply) ;;
  lift (ok_or (cy_reservation_id reply) (Storage (txt "coordinator reserve reply missing reservation id"))).

Definition process_dispatch (env : BrokerEnv) (fate : RpcFate) (effect_id : N) (reservation_id : text)
    (w : BrokerWorld) : EffectReceipt * BrokerWorld :=
  match (do reply <- rpc fate (ReqDispatched effect_id reservation_id) ;; lift (require_ok reply)) w with
  | (Err error, w) =>
      (ReceiptNotApplied (txt "coordinator refused the dispatch of effect: " ++ display_error error
                            ++ rollback_note env),
       emit w (RollsBackStaged effect_id))
  | (Ok _, w) => (bk_dispatch env, emit w (Applies effect_id))       (* reserved.effect.commit() *)
  end.

Definition process_ack (fate : RpcFate) (reservation_id : text) (settlement : EffectAckSettlement) :
    M BrokerWorld AgentError unit := fun w =>
  (do reply <- rpc fate (ReqAcknowledged reservation_id settlement) ;;
   do_ lift (require_ok reply) ;; ret tt) (emit w (Settles reservation_id settlement)).

Definition process_reconcile (fate : RpcFate) (context : OperationEffectContext) :
    M BrokerWorld AgentError (option EffectReconciliation) :=
  do reply <- rpc fate (ReqReconcile context) ;;
  do reply <- lift (require_ok reply) ;;
  ret (mjoin (cy_reconciliation reply)).

(** ** Histories *)

(** A process that dies leaves the file; the next one opens it. *)
Definition restart (w : BrokerWorld) : BrokerWorld :=
  match open_journal (rj_file (bw_journal w)) with
  | Ok j => {| bw_journal := j; bw_poisoned := None; bw_events := bw_events w |}
  | Err _ => w
  end.

Inductive BrokerOp : Type :=
| OpReserve (env : BrokerEnv) (io : AppendIo) (reservation : EffectReservation)
| OpDispatch (env : BrokerEnv) (io : AppendIo) (effect_id : N)
| OpDispatchDies (io : AppendIo) (effect_id : N)        (* between the record and the inner dispatch *)
| OpAck (env : BrokerEnv) (io : AppendIo) (reservation_id : text) (settlement : EffectAckSettlement)
| OpProcessReserve (fate : RpcFate) (reservation : EffectReservation)
| OpProcessDispatch (env : BrokerEnv) (fate : RpcFate) (effect_id : N) (reservation_id : text)
| OpProcessAck (fate : RpcFate) (reservation_id : text) (settlement : EffectAckSettlement)
| OpProcessReconcile (fate : RpcFate) (context : OperationEffectContext)
| OpRestart.

Definition broker_step (op : BrokerOp) (w : BrokerWorld) : BrokerWorld :=
  match op with
  | OpReserve env io reservation => (journaled_reserve env io reservation w).2
  | OpDispatch env io effect_id => (journaled_dispatch env io effect_id w).2
  | OpDispatchDies io effect_id => restart (with_journal w (record_dispatched io effect_id (bw_journal w)).2)
  | OpAck env io reservation_id settlement => (journaled_ack env io reservation_id settlement w).2
  | OpProcessReserve fate reservation => (process_reserve fate reservation w).2
  | OpProcessDispatch env fate effect_id reservation_id => (process_dispatch env fate effect_id reservation_id w).2
  | OpProcessAck fate reservation_id settlement => (process_ack fate reservation_id settlement w).2
  | OpProcessReconcile fate context => (process_reconcile fate context w).2
  | OpRestart => restart w
  end.

Definition broker_run (ops : list BrokerOp) (w : BrokerWorld) : BrokerWorld :=
  fold_left (fun w op => broker_step op w) ops w.

Definition fresh_world : BrokerWorld := {|
  bw_journal := {| rj_file := []; rj_recovery := recovery_start; rj_failed := None |};
  bw_poisoned := None; bw_events := [] |}.

End brokers.

(** What the effect brokers promise, across every history of calls, failed writes, lost
    answers and crashes: an effect is handed to its executor at most once and only after
    the journal says so, and what the journal later says of it is true. *)

(** The effects handed to their executors, in order. *)
Definition applied_effects (events : list BrokerEvent) : list N :=
  omap (fun event => match event with Applies e => Some e | _ => None end) events.

Lemma applied_app events events' : applied_effects (events ++ events') = applied_effects events ++ applied_effects events'.
Proof. apply omap_app. Qed.

Lemma applied_elem e events : e ∈ applied_effects events <-> Applies e ∈ events.
Proof.
  unfold applied_effects. rewrite list_elem_of_omap. split.
  - intros (event & Hin & He). destruct event; by simplify_eq.
  - intros Hin. by exists (Applies e).
Qed.

Section broker_theorems.
Context `{CD : Codec} `{RC : ReservationCodec} `{RL : !ReservationCodecLaws} `{HO : HashOrder} `{UT : UuidText}.

(** ** The journal on its disk *)

(** The file of the journal holds a history that folds to [st], and, when a write broke,
    at most one torn frame behind it. *)
Definition journal_at (j : ReservationJournal) (st : RecoveryState) : Prop :=
  exists ts p, rj_file j = journal_bytes ts ++ p /\ torn_frame p /\
    Forall fits (numbered_frames 0 ts) /\ (N.of_nat (length (rj_file j)) <= MAX_FILE_BYTES)%N /\
    fold_all recovery_start ts = Ok st /\ (rj_failed j = None -> p = [] /\ rj_recovery j = st).

Lemma journal_reopens j st :
  journal_at j st -> exists j', open_journal (rj_file j) = Ok j' /\ journal_at j' st /\ rj_failed j' = None.
Proof.
  intros (ts & p & Hfile & Htorn & Hfits & Hsize & Hfold & _). unfold open_journal. rewrite Hfile.
  rewrite (recover_journal ts p st) by (done || by rewrite <- Hfile). cbn [rbind].
  eexists. split; [done|]. split; [|done]. exists ts, []. cbn [rj_file rj_failed rj_recovery]. rewrite app_nil_r.
  split_and!; [done|by left|done| |done|done].
  rewrite Hfile, length_app in Hsize. lia.
Qed.

Lemma fold_snoc ts st t st' :
  fold_all recovery_start ts = Ok st -> fold_transition st t (N.of_nat (length ts) + 1) = Ok st' ->
  fold_all recovery_start (ts ++ [t]) = Ok st'.
Proof.
  intros Hf Ht. rewrite fold_all_app, Hf. cbn [rbind fold_all].
  apply fold_all_seq in Hf. cbn [rs_last_seq recovery_start] in Hf. rewrite Hf, N.add_0_l, Ht. done.
Qed.

(** An append writes its transition behind the history, or nothing whole. *)
Lemma append_at io t j st r j' :
  journal_at j st -> append io t j = (r, j') ->
  exists st', journal_at j' st' /\
    (st' = st \/ fold_transition st t (rs_last_seq st + 1) = Ok st') /\
    match r with
    | Ok _ => fold_transition st t (rs_last_seq st + 1) = Ok st' /\ rj_failed j' = None
    | Err _ => True
    end.
Proof.
  intros Hj. unfold append.
  assert (Hkeep : forall e, (Err e, j) = (r, j') -> exists st', journal_at j' st' /\
      (st' = st \/ fold_transition st t (rs_last_seq st + 1) = Ok st') /\
      match r with
      | Ok _ => fold_transition st t (rs_last_seq st + 1) = Ok st' /\ rj_failed j' = None
      | Err _ => True
      end) by (intros e [= <- <-]; exists st; split_and!; [done|by left|done]).
  destruct (validate_transition t) as [u|] eqn:Ev; [|apply Hkeep].
  destruct (rj_failed j) as [error|] eqn:Efail; [apply Hkeep|].
  destruct (validate_fold (rj_recovery j) t) as [u'|] eqn:Ef; [|apply Hkeep].
  destruct (MAX_RESERVATIONS <=? _)%N; [apply Hkeep|].
  destruct (checked_succ _) as [seq|] eqn:Es; [|apply Hkeep].
  apply checked_succ_Some in Es as [-> _].
  destruct Hj as (ts & p & Hfile & Htorn & Hfits & Hsize & Hfold & Hlive).
  destruct (Hlive Efail) as [-> Hrec]. rewrite app_nil_r in Hfile. rewrite Hrec in *. clear Hlive Hkeep.
  pose proof (fold_all_seq _ _ _ Hfold) as Hseq. cbn [rs_last_seq recovery_start] in Hseq. rewrite N.add_0_l in Hseq.
  destruct (apply_transition st t) as [st1|] eqn:Ea; cycle 1.
  { exfalso. destruct t; cbn in Ef, Ea; [done| |]; by destruct (rs_by_effect st !! effect_id). }
  assert (Hone : fold_transition st t (rs_last_seq st + 1) = Ok (set_seq st1 (rs_last_seq st + 1)))
    by (unfold fold_transition; by rewrite Ev, Ef; cbn [rbind]; rewrite Ea).
  assert (Hnext : fold_all recovery_start (ts ++ [t]) = Ok (set_seq st1 (rs_last_seq st + 1)))
    by (apply (fold_snoc ts st); [done|]; by rewrite <- Hseq).
  assert (Hsnoc : fits (journal_frame (rs_last_seq st + 1) t) -> Forall fits (numbered_frames 0 (ts ++ [t]))).
  { intros Hf. rewrite numbered_frames_snoc, N.add_0_l, <- Hseq. apply Forall_app. by split; [|constructor]. }
  assert (Hbytes : journal_bytes (ts ++ [t]) = journal_bytes ts ++ line_of (journal_frame (rs_last_seq st + 1) t))
    by (by rewrite journal_bytes_snoc, <- Hseq).
  destruct (append_frame io (rj_file j) (journal_frame (rs_last_seq st + 1) t)) as [[u2|error] file] eqn:Eio;
    apply append_frame_file in Eio as [(H1 & Hfit & -> & Hmax)|(error' & H1 & Hrest)]; try done.
  - intros [= <- <-]. exists (set_seq st1 (rs_last_seq st + 1)). split; [|split; [by right|done]].
    exists (ts ++ [t]), []. cbn [rj_file rj_failed rj_recovery]. rewrite app_nil_r, Hbytes, <- Hfile.
    split_and!; [done|by left|by apply Hsnoc|done|done|done].
  - intros [= <- <-]. destruct Hrest as [->|(Hfit & Hmax & [->|(k & -> & Hk)])].
    + exists st. split; [|split; [by left|done]]. exists ts, []. cbn [rj_file rj_failed rj_recovery].
      rewrite app_nil_r. split_and!; [done|by left|done..].
    + exists (set_seq st1 (rs_last_seq st + 1)). split; [|split; [by right|done]].
      exists (ts ++ [t]), []. cbn [rj_file rj_failed rj_recovery]. rewrite app_nil_r, Hbytes, <- Hfile.
      split_and!; [done|by left|by apply Hsnoc| |done|done]. by rewrite length_app.
    + exists st. split; [|split; [by left|done]].
      exists ts, (take k (line_of (journal_frame (rs_last_seq st + 1) t))).
      cbn [rj_file rj_failed rj_recovery]. rewrite <- Hfile.
      split_and!; [done|right; by exists (journal_frame (rs_last_seq st + 1) t), k|done| |done|done].
      rewrite length_app, length_take. lia.
Qed.

(** ** The world *)

(** What the journal knows agrees with what left the broker. *)
Record events_agree (m : gmap N ReservationEntry) (events : list BrokerEvent) : Prop := {
  ea_filed : filed m;
  ea_applied : forall e, Applies e ∈ events ->
    exists entry, m !! e = Some entry /\ en_dispatched entry = true;
  ea_settled : forall e entry s, m !! e = Some entry -> en_acked_settlement entry = Some s ->
    Settles (rd_reservation_id (en_record entry)) s ∈ events;
  ea_once : NoDup (applied_effects events);
}.

Definition world_at (w : BrokerWorld) (st : RecoveryState) : Prop :=
  journal_at (bw_journal w) st /\ events_agree (rs_by_effect st) (bw_events w).

Definition advances (st st' : RecoveryState) : Prop := entries_le (rs_by_effect st) (rs_by_effect st').

#[export] Instance advances_preorder : PreOrder advances.
Proof. split; [intros st; unfold advances; reflexivity|intros a b c; unfold advances; by etrans]. Qed.

(** A transition the journal may make: a settlement it records is one that was asked for. *)
Definition asked (st : RecoveryState) (t : ReservationTransition) (events : list BrokerEvent) : Prop :=
  match t with
  | Acknowledged e s => forall entry, rs_by_effect st !! e = Some entry ->
      Settles (rd_reservation_id (en_record entry)) s ∈ events
  | _ => True
  end.

Lemma events_agree_folded st t m events :
  folded st t m -> asked st t events -> events_agree (rs_by_effect st) events -> events_agree m events.
Proof.
  intros Hf Hask [Hfiled Happ Hset Honce]. split; [by eapply folded_filed| | |done].
  - intros e Hin. destruct (Happ e Hin) as (entry & He & Hd).
    destruct (folded_le _ _ _ Hf e entry He) as (entry' & He' & _ & Hd' & _). exists entry'. auto.
  - intros e entry s. destruct Hf as [i record Hn|i record entry_id Hi|i settlement record entry_id Hi];
      (destruct (decide (i = e)) as [->|Hne];
        [rewrite lookup_insert_eq; intros [= <-]|rewrite lookup_insert_ne by done; apply Hset]).
    + done.
    + done.
    + intros [= <-]. exact (Hask _ Hi).
Qed.

Lemma events_agree_emit m events event :
  (forall e, event <> Applies e) -> events_agree m events -> events_agree m (events ++ [event]).
Proof.
  intros Hev [Hfiled Happ Hset Honce]. split; [done| | |].
  - intros e [Hin|Hin%list_elem_of_singleton]%elem_of_app; [by apply Happ|]. by destruct (Hev e).
  - intros e entry s He Hs. apply elem_of_app. left. by eapply Hset.
  - rewrite applied_app. destruct event; cbn; rewrite ?app_nil_r; try done. by destruct (Hev effect_id).
Qed.

Lemma world_emit w st event :
  (forall e, event <> Applies e) -> world_at w st -> world_at (emit w event) st.
Proof. intros Hev [Hj He]. split; [done|]. by apply events_agree_emit. Qed.

(** One journal call of either broker: refused, or written, answered or not. *)
Lemma world_append_cases io t w st r j' :
  world_at w st -> asked st t (bw_events w) -> append io t (bw_journal w) = (r, j') ->
  exists st', world_at (with_journal w j') st' /\ (st' = st \/ folded st t (rs_by_effect st')) /\
    match r with Ok _ => folded st t (rs_by_effect st') /\ rj_failed j' = None | Err _ => True end.
Proof.
  intros [Hj He] Hask Ha. destruct (append_at _ _ _ _ _ _ Hj Ha) as (st' & Hj' & Hst & Hr).
  assert (Hf : st' = st \/ folded st t (rs_by_effect st'))
    by (destruct Hst as [->|Hst]; [by left|right; by eapply fold_transition_folded]).
  exists st'. split; [split; [done|]|split; [done|]].
  - destruct Hf as [->|Hf]; [done|]. by eapply events_agree_folded.
  - destruct r; [|done]. destruct Hr as [Hr ?]. split; [|done]. apply (fold_transition_folded _ _ _ _ Hr).
Qed.

Lemma world_append io t w st r j' :
  world_at w st -> asked st t (bw_events w) -> append io t (bw_journal w) = (r, j') ->
  exists st', world_at (with_journal w j') st' /\ advances st st' /\
    match r with Ok _ => folded st t (rs_by_effect st') | Err _ => True end.
Proof.
  intros Hw Hask Ha. destruct (world_append_cases _ _ _ _ _ _ Hw Hask Ha) as (st' & Hw' & Hf & Hr).
  exists st'. split_and!; [done| |].
  - destruct Hf as [->|Hf]; [done|]. by eapply folded_le.
  - destruct r; [by destruct Hr|done].
Qed.

Lemma world_restart w st : world_at w st -> world_at (restart w) st /\ rj_failed (bw_journal (restart w)) = None.
Proof.
  intros [Hj He]. unfold restart. destruct (journal_reopens _ _ Hj) as (j' & -> & Hj' & Hf). by split.
Qed.

Lemma folded_dispatched_inv st e m :
  folded st (DispatchedEffect e) m ->
  (exists entry, rs_by_effect st !! e = Some entry /\ en_dispatched entry = false) /\
  (exists entry, m !! e = Some entry /\ en_dispatched entry = true).
Proof.
  intros (i & record & Hb & Ha)%folded_entry. split; by eexists.
Qed.

(** Handing a journaled effect to its executor. *)
Lemma world_applies w st st' e :
  world_at w st -> folded st (DispatchedEffect e) (rs_by_effect st') -> forall w',
  world_at w' st' -> bw_events w' = bw_events w -> world_at (emit w' (Applies e)) st'.
Proof.
  intros [_ [_ Happ _ _]] Hf w' [Hj' [Hfiled' Happ' Hset' Honce']] Hev. split; [done|].
  apply folded_dispatched_inv in Hf as [(before & Hb & Hbd) Hafter]. split; [done| | |].
  - cbn [emit bw_events]. intros e' [Hin|[= ->]%list_elem_of_singleton]%elem_of_app; [by apply Happ'|exact Hafter].
  - cbn [emit bw_events]. intros e' entry s He Hs. apply elem_of_app. left. by eapply Hset'.
  - cbn [emit bw_events]. rewrite applied_app. apply NoDup_app. split_and!; [done| |apply NoDup_singleton].
    intros e' Hin Hlast. cbn in Hlast. apply list_elem_of_singleton in Hlast as ->.
    rewrite Hev in Hin. apply applied_elem, Happ in Hin as (entry & He & Hd).
    congruence.
Qed.

(** An acknowledgement goes to an effect with that reservation. *)
Lemma effect_id_for_asked w st id e s :
  world_at w st -> effect_id_for id (bw_journal w) = Ok (Some e) -> Settles id s ∈ bw_events w ->
  asked st (Acknowledged e s) (bw_events w).
Proof.
  intros [(ts & p & _ & _ & _ & _ & _ & Hlive) [Hfiled _ _ _]] Hid Hin entry He. unfold effect_id_for in Hid.
  destruct (rj_failed (bw_journal w)) eqn:Ef; [done|]. destruct (Hlive eq_refl) as [_ Hrec]. rewrite Hrec in Hid.
  destruct (by_reservation_id st id) as [found|] eqn:Eb; [|done]. injection Hid as <-.
  unfold by_reservation_id in Eb. apply List.find_some in Eb as [Hv Hb%bool_decide_eq_true].
  apply list_elem_of_In, hash_values_all in Hv as (k & Hk). pose proof (Hfiled _ _ Hk) as Hke.
  rewrite Hke, Hk in He. injection He as <-. by rewrite Hb.
Qed.
(** A reply that is [ok] to a dispatch: the journal has it. *)
Definition granted (st st' : RecoveryState) (request : CoordinatorRequest) (ok : bool) : Prop :=
  match request with
  | ReqDispatched e _ => ok = true -> folded st (DispatchedEffect e) (rs_by_effect st')
  | _ => True
  end.

Definition asked_remotely (request : CoordinatorRequest) (events : list BrokerEvent) : Prop :=
  match request with ReqAcknowledged id s => Settles id s ∈ events | _ => True end.

Lemma world_request io request w st reply j' :
  world_at w st -> asked_remotely request (bw_events w) ->
  handle_coordinator_request io request (bw_journal w) = (reply, j') ->
  exists st', world_at (with_journal w j') st' /\ advances st st' /\ granted st st' request (cy_ok reply).
Proof.
  intros Hw Hask.
  assert (Hsame : forall reply0, (reply0, bw_journal w) = (reply, j') -> (forall e id, request <> ReqDispatched e id) ->
      exists st', world_at (with_journal w j') st' /\ advances st st' /\ granted st st' request (cy_ok reply)).
  { intros reply0 [= <- <-] Hr. exists st. split_and!; [by destruct w|done|]. destruct request; try done.
    by destruct (Hr effect_id reservation_id). }
  destruct request as [e record|e id|id s|context|]; cbn [handle_coordinator_request].
  - destruct (record_reserved io e _ (bw_journal w)) as [r j] eqn:Ea.
    apply (world_append _ _ _ _ _ _ Hw) in Ea as (st' & Hw' & Hadv & _); [|done].
    intros H. exists st'. destruct r; injection H as <- <-; by split_and!.
  - destruct (record_dispatched io e (bw_journal w)) as [r j] eqn:Ea.
    apply (world_append _ _ _ _ _ _ Hw) in Ea as (st' & Hw' & Hadv & Hr); [|done].
    intros H. exists st'. destruct r; injection H as <- <-; (split_and!; [done|done|]).
    + by intros _.
    + done.
  - destruct (effect_id_for id (bw_journal w)) as [[e|]|error] eqn:Ee; [|by intros H; eapply Hsame..].
    destruct (record_acked io e s (bw_journal w)) as [r j] eqn:Ea.
    apply (world_append _ _ _ _ _ _ Hw) in Ea as (st' & Hw' & Hadv & _);
      [|by eapply effect_id_for_asked]. intros H. exists st'. destruct r; injection H as <- <-; by split_and!.
  - destruct (reconcile context (bw_journal w)); intros H; by eapply Hsame.
  - intros H. by eapply Hsame.
Qed.

Lemma world_poison w st reason : world_at w st -> world_at (poison_and_reap w reason) st.
Proof. by intros [Hj He]. Qed.

Lemma world_rpc fate request w st r w' :
  world_at w st -> asked_remotely request (bw_events w) -> rpc fate request w = (r, w') ->
  exists st', world_at w' st' /\ advances st st' /\ bw_events w' = bw_events w /\
    match r with Ok reply => granted st st' request (cy_ok reply) | Err _ => True end.
Proof.
  intros Hw Hask. unfold rpc. destruct (bw_poisoned w) as [reason|]; [intros [= <- <-]; exists st; by split_and!|].
  destruct fate as [io|reason|io reason].
  - destruct (handle_coordinator_request io request _) as [reply j] eqn:E. intros [= <- <-].
    destruct (world_request _ _ _ _ _ _ Hw Hask E) as (st' & ? & ? & ?). exists st'. by split_and!.
  - intros [= <- <-]. exists st. split_and!; [by apply world_poison|done..].
  - destruct (handle_coordinator_request io request _) as [reply j] eqn:E. intros [= <- <-].
    destruct (world_request _ _ _ _ _ _ Hw Hask E) as (st' & ? & ? & ?). exists st'.
    split_and!; [by apply world_poison|done..].
Qed.

Definition steps_to (w w' : BrokerWorld) (st : RecoveryState) : Prop :=
  exists st', world_at w' st' /\ advances st st'.

Lemma journaled_dispatch_ok env io e w st : world_at w st -> steps_to w (journaled_dispatch env io e w).2 st.
Proof.
  intros Hw. unfold journaled_dispatch. destruct (record_dispatched io e (bw_journal w)) as [r j] eqn:Ea.
  apply (world_append _ _ _ _ _ _ Hw) in Ea as (st' & Hw' & Hadv & Hr); [|done]. exists st'.
  destruct r as [u|error]; cbn [snd]; (split; [|done]).
  - by apply (world_applies w st st' e).
  - by apply world_emit.
Qed.

Lemma process_dispatch_ok env fate e id w st : world_at w st -> steps_to w (process_dispatch env fate e id w).2 st.
Proof.
  intros Hw. unfold process_dispatch, bind, lift.
  destruct (rpc fate (ReqDispatched e id) w) as [r w'] eqn:E.
  destruct (world_rpc _ (ReqDispatched e id) _ _ _ _ Hw I E) as (st' & Hw' & Hadv & Hev & Hr). exists st'.
  destruct r as [reply|error]; [|cbn [snd]; split; [by apply world_emit|done]].
  unfold require_ok. cbn [granted] in Hr. destruct (cy_ok reply); cbn [snd]; (split; [|done]).
  - apply (world_applies w st st' e); [done|by apply Hr|done|done].
  - by apply world_emit.
Qed.

Lemma journaled_ack_ok env io id s w st : world_at w st -> steps_to w (journaled_ack env io id s w).2 st.
Proof.
  intros Hw. unfold journaled_ack. pose proof (world_emit w st (Settles id s) ltac:(done) Hw) as Hw1.
  destruct (effect_id_for id _) as [[e|]|error] eqn:Ee; cbn [snd]; [|by exists st..].
  assert (Hin : Settles id s ∈ bw_events (emit w (Settles id s)))
    by (cbn; apply elem_of_app; right; by apply list_elem_of_singleton).
  destruct (record_acked io e s _) as [r j] eqn:Ea.
  apply (world_append _ _ _ _ _ _ Hw1) in Ea as (st' & Hw' & Hadv & _); [|by eapply effect_id_for_asked].
  exists st'. by destruct r.
Qed.

Lemma broker_step_ok op w st : world_at w st -> steps_to w (broker_step op w) st.
Proof.
  intros Hw. destruct op as [env io reservation|env io e|io e|env io id s|fate reservation|env fate e id|fate id s|fate context|];
    cbn [broker_step].
  - unfold journaled_reserve. destruct (bk_reserve env) as [id|]; [|by exists st].
    destruct (record_reserved io _ _ _) as [r j] eqn:Ea.
    apply (world_append _ _ _ _ _ _ Hw) in Ea as (st' & ? & ? & _); [|done]. exists st'. by destruct r.
  - by apply journaled_dispatch_ok.
  - destruct (record_dispatched io e (bw_journal w)) as [r j] eqn:Ea.
    apply (world_append _ _ _ _ _ _ Hw) in Ea as (st' & Hw' & ? & _); [|done]. exists st'.
    split; [by apply world_restart|done].
  - by apply journaled_ack_ok.
  - unfold process_reserve, bind, lift.
    destruct (rpc _ _ w) as [r w'] eqn:E.
    apply (world_rpc _ _ _ _ _ _ Hw) in E as (st' & ? & ? & _); [|done].
    exists st'. destruct r as [reply|]; [|done]. by destruct (require_ok reply).
  - by apply process_dispatch_ok.
  - unfold process_ack, bind, lift. pose proof (world_emit w st (Settles id s) ltac:(done) Hw) as Hw1.
    destruct (rpc _ _ _) as [r w'] eqn:E.
    apply (world_rpc _ _ _ _ _ _ Hw1) in E as (st' & ? & ? & _);
      [|cbn; apply elem_of_app; right; by apply list_elem_of_singleton].
    exists st'. destruct r as [reply|]; [|done]. by destruct (require_ok reply).
  - unfold process_reconcile, bind, lift.
    destruct (rpc _ _ w) as [r w'] eqn:E.
    apply (world_rpc _ _ _ _ _ _ Hw) in E as (st' & ? & ? & _); [|done].
    exists st'. destruct r as [reply|]; [|done]. by destruct (require_ok reply).
  - exists st. split; [by apply world_restart|done].
Qed.

Lemma broker_run_ok ops w st : world_at w st -> steps_to w (broker_run ops w) st.
Proof.
  revert w st. induction ops as [|op ops IH]; intros w st Hw; [by exists st|].
  destruct (broker_step_ok op w st Hw) as (st1 & Hw1 & H1).
  destruct (IH _ _ Hw1) as (st2 & Hw2 & H2). exists st2. split; [exact Hw2|by etrans].
Qed.

Lemma fresh_world_at : world_at fresh_world recovery_start.
Proof.
  split.
  - exists [], []. cbn. split_and!; [done|by left|constructor|done|done|done].
  - split; [done| |done|constructor]. intros e Hin. by apply not_elem_of_nil in Hin.
Qed.

Lemma live_recovery w st : world_at w st -> rj_failed (bw_journal w) = None -> rj_recovery (bw_journal w) = st.
Proof. intros [(ts & p & _ & _ & _ & _ & _ & Hlive) _] Hf. by apply Hlive. Qed.

(** ** The promises *)

(** An effect is handed to its executor at most once, and never unless the journal on
    the disk has its dispatch: opening that journal at any later time shows it. *)
Theorem effect_applied_at_most_once ops :
  let w := broker_run ops fresh_world in
  NoDup (applied_effects (bw_events w)) /\
  forall e, Applies e ∈ bw_events w ->
    exists j entry, open_journal (rj_file (bw_journal w)) = Ok j /\
      rs_by_effect (rj_recovery j) !! e = Some entry /\ en_dispatched entry = true.
Proof.
  intros w. destruct (broker_run_ok ops _ _ fresh_world_at) as (st & Hw & _). fold w in Hw.
  pose proof Hw as [Hj [_ Happ _ Honce]]. split; [done|]. intros e Hin.
  destruct (journal_reopens _ _ Hj) as (j & Hopen & (ts & p & _ & _ & _ & _ & _ & Hlive) & Hf).
  destruct (Hlive Hf) as [_ Hrec]. destruct (Happ e Hin) as (entry & He & Hd).
  exists j, entry. by rewrite Hrec.
Qed.


(** An acknowledgement the journal has is kept: what reconciliation answers for a
    settled effect is what it answers after any further calls, failures and crashes,
    or it refuses to answer; and after a restart it answers. *)
Theorem settlement_is_durable ops later context entry settlement :
  let w := broker_run ops fresh_world in
  let w' := broker_run later w in
  rj_failed (bw_journal w) = None ->
  rs_by_effect (rj_recovery (bw_journal w)) !! oc_effect_id context = Some entry ->
  en_acked_settlement entry = Some settlement ->
  (is_Ok (reconcile context (bw_journal w')) = true ->
     reconcile context (bw_journal w') = reconcile context (bw_journal w)) /\
  reconcile context (bw_journal (restart w')) = reconcile context (bw_journal w).
Proof.
  intros w w' Hf He Hs. destruct (broker_run_ok ops _ _ fresh_world_at) as (st & Hw & _). fold w in Hw.
  destruct (broker_run_ok later w st Hw) as (st' & Hw' & Hadv). fold w' in Hw'.
  pose proof (live_recovery _ _ Hw Hf) as Hrec. rewrite Hrec in He.
  destruct (Hadv _ _ He) as (entry' & He' & Hr & _ & Hack). destruct (Hack _ Hs) as [Hs' Hd'].
  assert (Hsame : forall v, world_at v st' -> rj_failed (bw_journal v) = None ->
      reconcile context (bw_journal v) = reconcile context (bw_journal w)).
  { intros v Hv Hfv. unfold reconcile. rewrite Hf, Hfv, (live_recovery _ _ Hv Hfv), Hrec, He, He'.
    unfold classify. by rewrite Hr, Hd', Hs, Hs'. }
  destruct (world_restart _ _ Hw') as [Hwr Hfr]. split; [|by apply Hsame].
  intros Hok. apply Hsame; [done|]. unfold reconcile in Hok. by destruct (rj_failed (bw_journal w')).
Qed.

(** Recovery of arbitrary bytes ends. *)
Lemma fold_frame_error state frame error : fold_frame state frame = Err error -> error <> Internal (txt "out of fuel").
Proof.
  unfold fold_frame. case_match; [by intros [= <-]|]. case_match; [by intros [= <-]|].
  unfold map_err. destruct (fold_transition _ _ _); by intros [= <-].
Qed.

Lemma recover_frames_total fuel size input state offset error :
  length input < fuel -> recover_frames fuel size input state offset = Err error ->
  error <> Internal (txt "out of fuel").
Proof.
  revert input state offset. induction fuel as [|fuel IH]; intros input state offset Hf; [lia|].
  cbn [recover_frames]. destruct (read_until _ input) as [line rest] eqn:Er.
  apply Wal.read_until_split in Er as ->. rewrite length_app in Hf.
  case_decide as Hline; [done|]. assert (0 < length line) by (destruct line; cbn; [done|lia]).
  case_match; [case_match; [done|by intros [= <-]]|]. case_match; [by intros [= <-]|].
  destruct (parse_stored _) as [frame|e1] eqn:Ep; cbn [rbind];
    [|intros [= <-]; unfold parse_stored in Ep; repeat case_match; by simplify_eq].
  destruct (fold_frame _ _) as [state'|e1] eqn:Es; cbn [rbind];
    [|intros [= <-]; by eapply fold_frame_error].
  apply IH. lia.
Qed.

Theorem broker_recovery_total file :
  recover_file file <> Err (Internal (txt "out of fuel")).
Proof.
  unfold recover_file. case_match; [done|].
  destruct (recover_frames _ _ _ _ _) as [[[state n] torn]|error] eqn:E; cbn [rbind]; [done|].
  apply recover_frames_total in E; [|lia]. congruence.
Qed.

End broker_theorems.
