(* ===== verification/Coordinator.v ===== *)
(** Core and its broker together: [commit_effect] of agent-core/port.rs over the journaled
    broker of agent-core/broker.rs. What Core returned of an effect and what the broker's
    journal says of it after a crash never contradict each other. *)

From S2P Require Import Prelude Text Digest Jcs Operation Journal Wal Intent Registry Kernel KernelOps Commit.
From S2P Require Import Frame Reservations Broker.

Section broker_commit.
Context {J : Type} `{OJ : OperationJournal J} `{CD : Codec} `{JN : JsonNumber}.
Context `{RC : ReservationCodec} `{RL : !ReservationCodecLaws} `{HO : HashOrder} `{UT : UuidText}.

(** The three broker calls of one commit, each with the fate of its write. *)
Record BrokerScript : Type := {
  sc_env : BrokerEnv;
  sc_reserve : AppendIo;
  sc_dispatch : AppendIo;
  sc_ack : AppendIo;
}.

Definition reservation_of (request : EffectCommitRequest) (intent : option EffectIntent) : EffectReservation := {|
  es_run_id := cr_run_id request; es_operation_id := cr_operation_id request;
  es_effect_id := cr_effect_id request; es_argument_digest := cr_argument_digest request;
  es_generation := cr_generation request; es_intent := intent |}.

(** The world after each phase. *)
Definition reserved_world (s : BrokerScript) request (w : BrokerWorld) : AgentResult text * BrokerWorld :=
  journaled_reserve (sc_env s) (sc_reserve s) (reservation_of request (al_intent <$> cr_lease request)) w.

Definition dispatched_world (s : BrokerScript) request (w : BrokerWorld) : EffectReceipt * BrokerWorld :=
  journaled_dispatch (sc_env s) (sc_dispatch s) (cr_effect_id request) (reserved_world s request w).2.

Definition acked_world (s : BrokerScript) request (w : BrokerWorld) : AgentResult unit * BrokerWorld :=
  let '(receipt, w1) := dispatched_world s request w in
  journaled_ack (sc_env s) (sc_ack s) (match (reserved_world s request w).1 with Ok id => id | Err _ => [] end)
    (settlement_of receipt) w1.

(** The commit whose broker is the journaled one in world [w]. *)
Definition over_broker (s : BrokerScript) request (w : BrokerWorld) (env : CommitEnv) : CommitEnv := {|
  ke_interfere := ke_interfere env; ke_now_ms := ke_now_ms env; ke_binding_epoch := ke_binding_epoch env;
  ke_rollback := ke_rollback env;
  ke_reserve := (reserved_world s request w).1;
  ke_dispatch := (dispatched_world s request w).1;
  ke_ack := (acked_world s request w).1 |}.

(** The answer of a broker that does not contradict a receipt. *)
Definition agrees (receipt : EffectReceipt) (answer : EffectReconciliation) : Prop :=
  match answer with
  | RecAmbiguous _ => True
  | RecNotApplied _ => exists error, receipt = ReceiptNotApplied error
  | RecApplied durability _ => exists evidence, receipt = ReceiptApplied durability evidence
  | _ => False
  end.

Definition receipt_of (d : EffectCommitDisposition) : option EffectReceipt :=
  match d with
  | Receipt receipt _ | AuthorityRecordFailed receipt _ => Some receipt
  | Rejected _ => None
  end.

Lemma commit_dispatched_receipt env (request : EffectCommitRequest) (c c' : Core J) d :
  commit_effect env request c = ((d, Dispatched), c') ->
  is_Ok (ke_reserve env) = true /\ receipt_of d = Some (ke_dispatch env).
Proof.
  unfold commit_effect, dispatch_effect, reject. intros H. repeat (case_match; try done); by simplify_eq.
Qed.

(** ** The entry of the effect, phase by phase *)

(** The effect is the only one reserved under [id]. *)
Definition sole (st : RecoveryState) (e : N) (id : text) : Prop :=
  forall e' entry, rs_by_effect st !! e' = Some entry -> rd_reservation_id (en_record entry) = id -> e' = e.

Record entry_at (st : RecoveryState) (e : N) (id : text) (entry : ReservationEntry) : Prop := {
  at_lookup : rs_by_effect st !! e = Some entry;
  at_id : rd_reservation_id (en_record entry) = id;
  at_sole : sole st e id;
}.

Lemma reserved_entry st e record m id st1 :
  rd_reservation_id record = id -> rs_by_effect st1 = m ->
  (forall e' entry, rs_by_effect st !! e' = Some entry -> rd_reservation_id (en_record entry) <> id) ->
  folded st (Reserved e record) m ->
  exists entry, entry_at st1 e id entry /\ en_dispatched entry = false /\ en_acked_settlement entry = None.
Proof.
  intros Hid <- Hfresh Hf.
  eexists. split; [split; [exact (folded_entry _ _ _ Hf)|done|]|done]. intros e' entry He' Hi'.
  destruct (decide (e' = e)) as [|Hne]; [done|].
  rewrite (folded_others _ _ _ _ Hf) in He' by done. by destruct (Hfresh _ _ He').
Qed.

Lemma sole_folded st t st' e id entry :
  entry_at st e id entry -> transition_effect t = e -> folded st t (rs_by_effect st') ->
  (forall record, t <> Reserved e record) ->
  exists entry', entry_at st' e id entry' /\
    match t with
    | Reserved _ _ => False
    | DispatchedEffect _ => en_dispatched entry = false /\ en_dispatched entry' = true /\
        en_acked_settlement entry' = en_acked_settlement entry
    | Acknowledged _ s => en_dispatched entry' = true /\ en_dispatched entry = true /\
        en_acked_settlement entry' = Some s
    end.
Proof.
  intros [Hl Hid Hs] Ht Hf Hnot.
  assert (Hsole : sole st' e id).
  { intros e' entry' He' Hi'. destruct (decide (e' = e)) as [|Hne]; [done|].
    rewrite (folded_others _ _ _ _ Hf) in He' by (by rewrite Ht). by eapply Hs. }
  apply folded_entry in Hf. destruct t as [i record|i|i s]; cbn in Ht; subst i; [by destruct (Hnot record)|..];
    destruct Hf as (i & record & Hb & Hm); rewrite Hb in Hl; injection Hl as <-;
    (eexists; split; [split; [exact Hm|exact Hid|exact Hsole]|done]).
Qed.

Lemma reserved_phase s request w st id :
  world_at w st -> (reserved_world s request w).1 = Ok id ->
  (forall e entry, rs_by_effect st !! e = Some entry -> rd_reservation_id (en_record entry) <> id) ->
  exists st1 entry, world_at (reserved_world s request w).2 st1 /\
    entry_at st1 (cr_effect_id request) id entry /\ en_dispatched entry = false /\ en_acked_settlement entry = None.
Proof.
  intros Hw. unfold reserved_world, journaled_reserve. destruct (bk_reserve (sc_env s)) as [id'|]; [|done].
  destruct (record_reserved _ _ _ _) as [r j] eqn:Ea.
  apply (world_append _ _ _ _ _ _ Hw) in Ea as (st1 & Hw1 & _ & Hr); [|done].
  destruct r as [u|]; [|done]. cbn [fst snd]. intros [= ->] Hfresh. exists st1.
  destruct (reserved_entry st _ (from_reservation id _) _ id st1 eq_refl eq_refl Hfresh Hr) as (entry & ? & ? & ?).
  by exists entry.
Qed.

(** What the receipt says when the journal has no dispatch. *)
Definition dispatch_known (entry : ReservationEntry) (receipt : EffectReceipt) : Prop :=
  en_dispatched entry = false -> exists error, receipt = ReceiptNotApplied error.

Lemma dispatched_phase s request w st entry id :
  world_at (reserved_world s request w).2 st -> entry_at st (cr_effect_id request) id entry ->
  en_dispatched entry = false -> en_acked_settlement entry = None ->
  exists st2 entry2, world_at (dispatched_world s request w).2 st2 /\
    entry_at st2 (cr_effect_id request) id entry2 /\ en_acked_settlement entry2 = None /\
    dispatch_known entry2 (dispatched_world s request w).1.
Proof.
  intros Hw He Hd Ha. unfold dispatched_world, journaled_dispatch, dispatch_known.
  destruct (record_dispatched _ _ _) as [r j] eqn:Er.
  apply (world_append_cases _ _ _ _ _ _ Hw) in Er as (st2 & Hw2 & Hf & Hr); [|done].
  destruct r as [u|error]; cbn [fst snd].
  - destruct Hr as [Hr _]. destruct (sole_folded _ (DispatchedEffect _) _ _ _ _ He eq_refl Hr ltac:(done)) as (entry2 & He2 & _ & Hd2 & Ha2).
    exists st2, entry2. split_and!; [|done|congruence|congruence].
    by apply (world_applies _ st st2 _ Hw Hr).
  - assert (Hw2' : world_at (emit (with_journal (reserved_world s request w).2 j)
        (RollsBackStaged (cr_effect_id request))) st2) by (by apply world_emit).
    destruct Hf as [->|Hf].
    + exists st, entry. split_and!; [done..|]. intros _. by eexists.
    + destruct (sole_folded _ (DispatchedEffect _) _ _ _ _ He eq_refl Hf ltac:(done)) as (entry2 & He2 & _ & Hd2 & Ha2).
      exists st2, entry2. split_and!; [done|done|congruence|congruence].
Qed.

(** A live journal resolves a sole reservation to its effect. *)
Lemma effect_id_for_sole w st e id entry e' :
  world_at w st -> entry_at st e id entry -> effect_id_for id (bw_journal w) = Ok (Some e') -> e' = e.
Proof.
  intros Hw [_ _ Hs] Hid. unfold effect_id_for in Hid. destruct (rj_failed _) eqn:Ef; [done|].
  rewrite (live_recovery _ _ Hw Ef) in Hid.
  destruct (by_reservation_id st id) as [found|] eqn:Eb; [|done]. injection Hid as <-.
  apply List.find_some in Eb as [Hv Hb%bool_decide_eq_true].
  apply list_elem_of_In, hash_values_all in Hv as (k & Hk). destruct Hw as [_ [Hfiled _ _ _]].
  rewrite (Hfiled _ _ Hk). by eapply Hs.
Qed.

Lemma acked_phase s request w st entry id :
  world_at (dispatched_world s request w).2 st -> entry_at st (cr_effect_id request) id entry ->
  en_acked_settlement entry = None -> (reserved_world s request w).1 = Ok id ->
  exists st3 entry3, world_at (acked_world s request w).2 st3 /\
    rs_by_effect st3 !! cr_effect_id request = Some entry3 /\
    (entry3 = entry \/ en_dispatched entry3 = true /\
       en_acked_settlement entry3 = Some (settlement_of (dispatched_world s request w).1)).
Proof.
  intros Hw He Ha Hid. unfold acked_world. destruct (dispatched_world s request w) as [receipt w1]. cbn [fst snd] in *.
  rewrite Hid. unfold journaled_ack.
  pose proof (world_emit w1 st (Settles id (settlement_of receipt)) ltac:(done) Hw) as Hw1.
  assert (Hsame : exists st3 entry3, world_at (emit w1 (Settles id (settlement_of receipt))) st3 /\
      rs_by_effect st3 !! cr_effect_id request = Some entry3 /\
      (entry3 = entry \/ en_dispatched entry3 = true /\ en_acked_settlement entry3 = Some (settlement_of receipt)))
    by (exists st, entry; split_and!; [done|apply He|by left]).
  destruct (effect_id_for id _) as [[e'|]|error] eqn:Ee; cbn [snd]; [|exact Hsame..].
  pose proof (effect_id_for_sole _ _ _ _ _ _ Hw1 He Ee) as ->.
  destruct (record_acked _ _ _ _) as [r j] eqn:Er.
  apply (world_append_cases _ _ _ _ _ _ Hw1) in Er as (st3 & Hw3 & Hf & _);
    [|eapply effect_id_for_asked; [exact Hw1|exact Ee|cbn; apply elem_of_app; right; by apply list_elem_of_singleton]].
  assert (Hend : exists entry3, rs_by_effect st3 !! cr_effect_id request = Some entry3 /\
      (entry3 = entry \/ en_dispatched entry3 = true /\ en_acked_settlement entry3 = Some (settlement_of receipt))).
  { destruct Hf as [->|Hf]; [exists entry; split; [apply He|by left]|].
    destruct (sole_folded _ (Acknowledged _ _) _ _ _ _ He eq_refl Hf ltac:(done)) as (entry3 & [Hl _ _] & Hd & _ & Hs).
    exists entry3. split; [done|by right]. }
  destruct Hend as (entry3 & Hl & Hcase). exists st3, entry3. by destruct r.
Qed.

Lemma classified_agrees entry receipt :
  dispatch_known entry receipt ->
  en_acked_settlement entry = None \/
    (en_dispatched entry = true /\ en_acked_settlement entry = Some (settlement_of receipt)) ->
  agrees receipt (classify_debt entry).
Proof.
  unfold dispatch_known, classify_debt. intros Hk [Ha|[Hd Ha]]; rewrite Ha.
  - destruct (en_dispatched entry); [done|]. by apply Hk.
  - rewrite Hd. destruct receipt; cbn; [by eexists..|done].
Qed.

(** C38. Whatever a commit over the journaled broker returned, and however its journal writes
    failed: the next process finds in that journal an answer for the effect, and the
    answer does not contradict the receipt Core reported. The reservation must be a new
    one, as those of [LocalEffectBroker] are for the operations of one Core. *)
Theorem core_and_broker_agree ops s env request (c c' : Core J) d id :
  let w := broker_run ops fresh_world in
  (reserved_world s request w).1 = Ok id ->
  (forall e entry, rs_by_effect (rj_recovery (bw_journal w)) !! e = Some entry ->
     rd_reservation_id (en_record entry) <> id) ->
  commit_effect (over_broker s request w env) request c = ((d, Dispatched), c') ->
  exists receipt answer,
    receipt_of d = Some receipt /\
    reconcile_effect_id (cr_effect_id request) (bw_journal (restart (acked_world s request w).2)) = Ok (Some answer) /\
    agrees receipt answer.
Proof.
  intros w Hid Hfresh Hcommit. apply commit_dispatched_receipt in Hcommit as [_ Hreceipt].
  destruct (broker_run_ok ops _ _ fresh_world_at) as (st & Hw & _). fold w in Hw.
  assert (Hlive : rj_failed (bw_journal w) = None).
  { destruct (rj_failed (bw_journal w)) eqn:Ef; [|done]. exfalso. revert Hid.
    unfold reserved_world, journaled_reserve, record_reserved, append. destruct (bk_reserve _); [|done].
    destruct (validate_transition _); [|done]. by rewrite Ef. }
  rewrite (live_recovery _ _ Hw Hlive) in Hfresh.
  destruct (reserved_phase s request w st id Hw Hid Hfresh) as (st1 & e1 & Hw1 & He1 & Hd1 & Ha1).
  destruct (dispatched_phase s request w st1 e1 id Hw1 He1 Hd1 Ha1) as (st2 & e2 & Hw2 & He2 & Ha2 & Hk2).
  destruct (acked_phase s request w st2 e2 id Hw2 He2 Ha2 Hid) as (st3 & e3 & Hw3 & Hl3 & Hcase).
  destruct (world_restart _ _ Hw3) as [Hwr Hfr].
  eexists _, (classify_debt e3). split; [exact Hreceipt|]. split.
  - unfold reconcile_effect_id. by rewrite Hfr, (live_recovery _ _ Hwr Hfr), Hl3.
  - cbn [over_broker ke_dispatch]. apply classified_agrees.
    + destruct Hcase as [->|[Hd _]]; [done|]. unfold dispatch_known. congruence.
    + destruct Hcase as [->|Hcase]; [by left|by right].
Qed.
End broker_commit.

(** The coordinator host of agent-core/broker.rs, [serve_broker_frames]: requests as
    bounded frames on a pipe, one journal call and one reply each.

    A frame is read and written as in [Frame]; the serde decoding of requests and
    encoding of replies is the class [CoordinatorCodec]. *)

Definition MAX_COORDINATOR_LINE_BYTES : nat := N.to_nat 65536.

Class CoordinatorCodec := {
  request_from_str : bytes -> option CoordinatorRequest;
  reply_to_vec : CoordinatorReply -> bytes;
}.

Section coordinator.
Context `{CD : Codec} `{RC : ReservationCodec} `{RL : !ReservationCodecLaws} `{HO : HashOrder}
  `{UT : UuidText} `{CC : CoordinatorCodec}.

Record Host : Type := {
  ho_reader : FrameReader;
  ho_written : bytes;
  ho_journal : ReservationJournal;
}.

(** What one round meets: the fate of its journal write, and of its reply. *)
Record RoundIo : Type := {
  ri_append : AppendIo;
  ri_written : bool;
}.

Definition after_read (h : Host) (r : FrameReader) : Host :=
  {| ho_reader := r; ho_written := ho_written h; ho_journal := ho_journal h |}.

(** The frame functions of the module are those of [Frame] at the coordinator's bound. *)
Definition read_coordinator_frame (r : FrameReader) : result bytes FrameError * FrameReader :=
  read_frame MAX_COORDINATOR_LINE_BYTES r.

Definition write_coordinator_frame (written : bool) (payload output : bytes) : AgentResult bytes :=
  match encode_frame_bytes payload MAX_COORDINATOR_LINE_BYTES with
  | Err error => Err error
  | Ok line => if written then Ok (output ++ line) else Err (Storage (txt "write coordinator frame"))
  end.

(** One round of the loop: [Some] is the end of the session. *)
Definition serve_round (io : RoundIo) (h : Host) : option (AgentResult unit) * Host :=
  match read_coordinator_frame (ho_reader h) with
  | (Err error, r) =>
      (Some (match fe_kind error with
             | Eof => Ok tt
             | _ => Err (Storage (txt "read coordinator request: " ++ frame_error_text error))
             end), after_read h r)
  | (Ok frame, r) =>
      let h := after_read h r in
      if decide (frame = []) then (Some (Err (InvalidRequest (txt "coordinator sent an empty frame"))), h)
      else
        match from_utf8 frame with
        | None => (Some (Err (Storage (txt "coordinator request is not utf-8"))), h)
        | Some _ =>
            match request_from_str frame with
            | Some ReqShutdown => (Some (Ok tt), h)
            | None => (Some (Err (InvalidRequest (txt "malformed coordinator request"))), h)
            | Some request =>
                let '(reply, j) := handle_coordinator_request (ri_append io) request (ho_journal h) in
                let served := {| ho_reader := r; ho_written := ho_written h; ho_journal := j |} in
                match write_coordinator_frame (ri_written io) (reply_to_vec reply) (ho_written h) with
                | Err error => (Some (Err error), served)
                | Ok output => (None, {| ho_reader := r; ho_written := output; ho_journal := j |})
                end
            end
        end
  end.

(** [serve_broker_frames]. *)
Fixpoint serve_broker_frames (fuel : nat) (ios : nat -> RoundIo) (h : Host) : AgentResult unit * Host :=
  match fuel with
  | O => (Err (Internal (txt "out of fuel")), h)
  | S fuel' =>
      match serve_round (ios fuel') h with
      | (Some r, h) => (r, h)
      | (None, h) => serve_broker_frames fuel' ios h
      end
  end.

(** ** Facts *)

Lemma accept_chunk_consumes max frame buffer frame' rest :
  accept_chunk max frame buffer = Complete frame' rest -> length rest < length buffer.
Proof.
  unfold accept_chunk. destruct (find_newline buffer) as [n|] eqn:E; [|by case_decide].
  case_decide; [done|]. intros [= _ <-]. apply find_newline_lt in E. rewrite length_drop. lia.
Qed.

Lemma stream_length buffer incoming :
  length (stream {| fr_buffer := buffer; fr_incoming := incoming |}) = length buffer + length (incoming_bytes incoming).
Proof. unfold stream. apply length_app. Qed.

(** Every frame read takes bytes off the stream. *)
Lemma read_incoming_consumes max frame incoming frame' r :
  read_incoming max frame incoming = (Ok frame', r) -> length (stream r) < length (incoming_bytes incoming).
Proof.
  revert frame. induction incoming as [|[chunk|message] incoming IH]; intros frame; cbn [read_incoming]; [done| |done].
  destruct chunk as [|b chunk]; [done|]. set (buffer := b :: chunk).
  assert (Hl : length (incoming_bytes (Delivered buffer :: incoming)) = length buffer + length (incoming_bytes incoming))
    by apply length_app.
  destruct (accept_chunk max frame buffer) as [f rest|e|f] eqn:E; [|done|].
  - intros [= _ <-]. apply accept_chunk_consumes in E. rewrite stream_length. lia.
  - intros ?%IH. lia.
Qed.

Lemma read_frame_consumes max r frame r' :
  read_frame max r = (Ok frame, r') -> length (stream r') < length (stream r).
Proof.
  destruct r as [buffer incoming]. unfold read_frame. cbn [fr_buffer fr_incoming]. rewrite stream_length.
  destruct buffer as [|b buffer]; [intros ?%read_incoming_consumes; cbn; lia|].
  destruct (accept_chunk max [] (b :: buffer)) as [f rest|e|f] eqn:E; [|done|].
  - intros [= _ <-]. apply accept_chunk_consumes in E. rewrite stream_length. lia.
  - intros ?%read_incoming_consumes. lia.
Qed.

(** What a round may do to the host: nothing to the journal, or one request. *)
Lemma serve_round_journal io h r h' :
  serve_round io h = (r, h') ->
  (r = None -> length (stream (ho_reader h')) < length (stream (ho_reader h))) /\
  (ho_journal h' = ho_journal h \/ exists request reply,
     handle_coordinator_request (ri_append io) request (ho_journal h) = (reply, ho_journal h')).
Proof.
  unfold serve_round, read_coordinator_frame. destruct (read_frame _ _) as [[frame|error] reader] eqn:Er.
  - apply read_frame_consumes in Er. case_decide; [by intros [= <- <-]; split; [|left]|].
    destruct (from_utf8 frame); [|by intros [= <- <-]; split; [|left]].
    destruct (request_from_str frame) as [request|]; [|by intros [= <- <-]; split; [|left]].
    destruct (handle_coordinator_request (ri_append io) request (ho_journal (after_read h reader)))
      as [reply j] eqn:Eh.
    assert (Hone : ho_journal (after_read h reader) = ho_journal h) by done. rewrite Hone in Eh.
    destruct request; try (intros [= <- <-]; by split; [|left]);
      (destruct (write_coordinator_frame _ _ _) as [output|]);
      intros [= <- <-]; (split; [done|right; eexists _, reply; exact Eh]).
  - intros [= <- <-]. by split; [|left].
Qed.

Lemma serve_round_ends io h r h' : serve_round io h = (Some r, h') -> r <> Err (Internal (txt "out of fuel")).
Proof.
  intros H. enough (match r with Err (Internal _) => False | _ => True end) by (by intros ->).
  revert H. unfold serve_round, read_coordinator_frame. destruct (read_frame _ _) as [[frame|[kind n]] reader].
  - case_decide; [by intros [= <- _]|]. destruct (from_utf8 frame); [|by intros [= <- _]].
    destruct (request_from_str frame) as [request|]; [|by intros [= <- _]].
    destruct (handle_coordinator_request _ _ _) as [reply j].
    unfold write_coordinator_frame, encode_frame_bytes. destruct request; try (by intros [= <- _]);
      repeat case_decide; try (by intros [= <- _]); destruct (ri_written io); by intros [= <- _].
  - destruct kind; by intros [= <- _].
Qed.

Lemma handle_at io request j st reply j' :
  journal_at j st -> handle_coordinator_request io request j = (reply, j') -> exists st', journal_at j' st'.
Proof.
  intros Hj. assert (Hsame : forall r, (r, j) = (reply, j') -> exists st', journal_at j' st')
    by (intros r [= _ <-]; by exists st).
  destruct request as [e record|e id|id s|context|]; cbn [handle_coordinator_request].
  - destruct (record_reserved io e _ j) as [r j1] eqn:Ea.
    destruct (append_at _ _ _ _ _ _ Hj Ea) as (st' & Hj' & _). intros H. exists st'. by destruct r; injection H as _ <-.
  - destruct (record_dispatched io e j) as [r j1] eqn:Ea.
    destruct (append_at _ _ _ _ _ _ Hj Ea) as (st' & Hj' & _). intros H. exists st'. by destruct r; injection H as _ <-.
  - destruct (effect_id_for id j) as [[e|]|error]; [|exact (Hsame _)..].
    destruct (record_acked io e s j) as [r j1] eqn:Ea.
    destruct (append_at _ _ _ _ _ _ Hj Ea) as (st' & Hj' & _). intros H. exists st'. by destruct r; injection H as _ <-.
  - destruct (reconcile context j); exact (Hsame _).
  - exact (Hsame _).
Qed.

(** A session ends whatever the client sends, in at most one round per byte and one, and
    its journal stays one that the next process opens. *)
Theorem coordinator_session_safe ios h st fuel r h' :
  journal_at (ho_journal h) st -> length (stream (ho_reader h)) < fuel ->
  serve_broker_frames fuel ios h = (r, h') ->
  r <> Err (Internal (txt "out of fuel")) /\
  exists st', journal_at (ho_journal h') st' /\ is_Ok (open_journal (rj_file (ho_journal h'))) = true.
Proof.
  revert h st. induction fuel as [|fuel IH]; intros h st Hj Hlt; [lia|]. cbn [serve_broker_frames].
  destruct (serve_round (ios fuel) h) as [[r1|] h1] eqn:Er; destruct (serve_round_journal _ _ _ _ Er) as [Hc Hone];
    (assert (Hj1 : exists st1, journal_at (ho_journal h1) st1)
      by (destruct Hone as [->|(request & reply & Hh)]; [by exists st|by eapply handle_at]));
    destruct Hj1 as [st1 Hj1].
  - intros [= <- <-]. split; [by eapply serve_round_ends|].
    exists st1. split; [done|]. by destruct (journal_reopens _ _ Hj1) as (j & -> & _).
  - intros H. eapply IH; [exact Hj1|specialize (Hc eq_refl); lia|exact H].
Qed.
End coordinator.
