(* ===== verification/EventWitness.v ===== *)
(** The event theorems applied at concrete traces, with a row codec that meets
    [TraceCodecLaws] and puts multi-byte characters in every row. *)

From S2P Require Import Prelude Text Operation Journal Wal JournalWitness Events EventTheorems Digest Jcs Intent.
From S2P Require Import Intent Registry RegistryBehaviour Kernel KernelOps Commit Frame Reservations Broker.
From S2P Require Import Broker Coordinator KernelWitness.

(** ** A row codec *)

Definition env_tuple (e : RuntimeEventEnvelope N) : N * N * N * N :=
  (ev_run_id e, ev_seq e, ev_timestamp_ms e, ev_event e).

Definition tuple_env (x : N * N * N * N) : RuntimeEventEnvelope N :=
  let '(run, seq, ts, ev) := x in
  {| ev_run_id := run; ev_seq := seq; ev_timestamp_ms := ts; ev_event := ev |}.

Fixpoint accents (n : nat) : bytes :=
  match n with 0 => [] | S n' => 195%N :: 169%N :: accents n' end.

#[export] Instance sample_trace_codec : TraceCodec N := {
  row_to_vec e := accents 64 ++ enc (env_tuple e) ++ [125%N];
  row_from_str t := (fun x => tuple_env x.1) <$> dec (drop 64 t);
}.

Definition ascii (b : N) : bool := (b <? 128)%N.

Lemma enc_N_ascii n : Forall (fun b => ascii b = true) (enc_N n).
Proof.
  destruct n as [|p]; [by repeat constructor|]. cbn. apply Forall_app. split; [|by repeat constructor].
  induction p; cbn; by repeat constructor.
Qed.

Lemma enc_env_ascii e : Forall (fun b => ascii b = true) (enc (env_tuple e) ++ [125%N]).
Proof.
  rewrite Forall_app. split; [|by repeat constructor]. cbn -[enc_N].
  rewrite !Forall_app. split_and!; apply enc_N_ascii.
Qed.

Lemma from_utf8_ascii s : Forall (fun b => ascii b = true) s -> from_utf8 s = Some s.
Proof.
  unfold ascii. induction 1 as [|b s Hb _ IH]; cbn [from_utf8]; [done|]. by rewrite Hb, IH.
Qed.

Lemma from_utf8_accents n s t :
  from_utf8 s = Some t -> from_utf8 (accents n ++ s) = Some (replicate n 233%N ++ t).
Proof. intros Hs. induction n as [|n IH]; cbn; [done|]. by rewrite IH. Qed.

Lemma trim_closed c s d :
  is_whitespace c = false -> is_whitespace d = false -> trim (c :: s ++ [d]) = c :: s ++ [d].
Proof.
  intros Hc Hd. unfold trim, trim_end. rewrite trim_start_id by done.
  rewrite (app_comm_cons s [d] c), reverse_snoc, trim_start_id by done.
  by rewrite reverse_cons, reverse_involutive.
Qed.

#[export] Instance sample_trace_codec_laws : TraceCodecLaws N.
Proof.
  split.
  - intros e. exists (replicate 64 233%N ++ enc (env_tuple e) ++ [125%N]). split; [|split].
    + apply from_utf8_accents, from_utf8_ascii, enc_env_ascii.
    + unfold row_from_str, sample_trace_codec. rewrite drop_app_length', dec_enc by done.
      by destruct e.
    + rewrite (assoc_L (++)). change (replicate 64 233%N) with (233%N :: replicate 63 233%N).
      cbn [app]. by rewrite trim_closed.
  - intros e. unfold row_to_vec, sample_trace_codec. rewrite !not_elem_of_app.
    split_and!; [|apply enc_no_newline|by apply not_elem_of_cons; split; [done|apply not_elem_of_nil]].
    by apply (bool_decide_unpack (NEWLINE ∉ accents 64)).
  - intros e. unfold row_to_vec, sample_trace_codec. by rewrite !(assoc_L (++)), last_snoc.
Qed.

Definition sample_event (run seq ev : N) : RuntimeEventEnvelope N :=
  {| ev_run_id := run; ev_seq := seq; ev_timestamp_ms := 0; ev_event := ev |}.

(** ** The barrier and the batch *)

Definition sample_before : list (TraceCommand (Event := N)) :=
  [TraceAppend (sample_event 1 1 5); TraceAppend (sample_event 2 2 6);
   TraceAppend (sample_event 1 3 7)].

(** The second barrier fails after 20 bytes of each writer. *)
Lemma trace_barrier_witness :
  exists rs w,
    run_trace (sample_before ++ TraceBarrier :: [TraceAppend (sample_event 1 4 8); TraceBarrier])
      (fresh_writer [] [TraceFlushes; TraceFlushFails (fun _ => 20)]) = (rs, w) /\
    is_Ok <$> rs = [true; false] /\
    let '(rs1, w1) := run_trace sample_before
      (fresh_writer [] [TraceFlushes; TraceFlushFails (fun _ => 20)]) in
    match trace_flush w1 with
    | (Ok _, w2) => forall run, synced w2 run = rows (of_run run (appended sample_before))
    | (Err _, _) => Forall (fun r => is_Ok r = false) (drop (length rs1) rs)
    end.
Proof.
  destruct (run_trace (sample_before ++ TraceBarrier :: [TraceAppend (sample_event 1 4 8); TraceBarrier])
      (fresh_writer [] [TraceFlushes; TraceFlushFails (fun _ => 20)])) as [rs w] eqn:E.
  exists rs, w. split; [reflexivity|]. split.
  - change rs with (rs, w).1. rewrite <- E. vm_compute. reflexivity.
  - exact (trace_barrier _ _ sample_before _ rs w E).
Defined.

Definition fresh_authority (aio : list AppendOutcome) (fio : list FlushOutcome) :
    EventAuthority N FileEventJournal :=
  {| ea_journal := Some (fresh_writer aio fio); ea_sent := []; ea_seq := 0 |}.

Lemma fresh_authority_rep aio fio : ea_rep (fresh_authority aio fio) [] [].
Proof. split; [by intros j [= <-]; apply fresh_rep|done|by intros []|done]. Qed.

(** A batch of two succeeds and is published. *)
Lemma durable_batch_witness :
  exists new dur',
    ea_rep (emit_batch_durable 3 [(10, 5); (11, 6)]%N (fresh_authority [] [])).2 ([] ++ new) dur' /\
    Forall (fun e => ev_run_id e = 3%N) new /\ ev_event <$> new = [5; 6]%N /\ dur' = new.
Proof.
  destruct (emit_batch_durable 3 [(10, 5); (11, 6)]%N (fresh_authority [] [])) as [res a] eqn:E.
  assert (Hok : is_Ok res = true)
    by (change res with (res, a).1; rewrite <- E; vm_compute; reflexivity).
  destruct (durable_batch 3 [(10, 5); (11, 6)]%N (fresh_authority [] []) a res [] []
    (fresh_authority_rep [] []) E) as (new & dur' & Hrep & Hrun & Hres).
  destruct res; [|discriminate Hok]. destruct Hres as (Hev & _ & Hdur).
  exists new, dur'. split; [exact Hrep|]. split; [exact Hrun|]. split; [exact Hev|].
  apply Hdur. discriminate.
Defined.

(** ** The tail read *)

Lemma sample_row_fits run seq ev :
  (run < 1000)%N -> (seq < 1000)%N -> (ev < 1000)%N -> row_fits (sample_event run seq ev).
Proof.
  intros H1 H2 H3 t. unfold row_to_vec, sample_trace_codec.
  rewrite (from_utf8_accents 64 _ _ (from_utf8_ascii _ (enc_env_ascii _))). intros <-%(inj Some).
  rewrite !str_len_app. change (str_len (replicate 64 233%N)) with 128.
  assert (Hn : forall n, (n < 1000)%N -> length (enc_N n) <= 11)
    by (intros n Hn; etrans; [apply (enc_N_mono n 1000); lia|apply Nat.leb_le; reflexivity]).
  assert (Hl : forall s, Forall (fun b => ascii b = true) s -> str_len s = length s).
  { induction 1 as [|b s Hb _ IH]; [done|]. rewrite str_len_cons, IH.
    unfold utf8_len. unfold ascii in Hb. by rewrite Hb. }
  rewrite <- str_len_app, Hl by apply enc_env_ascii. cbn -[enc_N]. rewrite !length_app.
  pose proof (Hn run H1). pose proof (Hn seq H2). pose proof (Hn ev H3).
  pose proof (Hn 0%N ltac:(lia)).
  unfold MAX_TAIL_LINE_BYTES. cbn [length]. lia.
Qed.

Definition sample_trace : list (RuntimeEventEnvelope N) :=
  [sample_event 1 1 5; sample_event 1 2 6; sample_event 1 3 7].

(** Two of three rows. *)
Lemma tail_read_exact_witness :
  0 < 2 /\
  read_trace_tail (TraceData (rows sample_trace)) 2 =
    Ok (Some ([sample_event 1 2 6; sample_event 1 3 7], false)).
Proof.
  split; [lia|].
  refine (tail_read_exact sample_trace 2 ltac:(lia) _ _).
  - assert (Hl : length (rows sample_trace) <= 1000) by (apply Nat.leb_le; vm_compute; reflexivity).
    unfold MAX_TAIL_SCAN_BYTES. lia.
  - repeat apply Forall_cons_2; [apply sample_row_fits; lia..|apply Forall_nil_2].
Defined.

(** The newest two of run 1 among two runs. *)
Lemma read_tail_history_witness :
  exists w w' res, (run_trace sample_before (fresh_writer [] [])).2 = w /\
    read_tail 1 1 w = (res, w') /\ is_Ok res = true /\
    match res with
    | Ok answer => exists window complete, answer = Some (window, complete) /\
        window `suffix_of` of_run 1 (appended sample_before) /\ length window <= 1 /\
        (complete = true -> window = of_run 1 (appended sample_before)) /\ ew_failed w = None
    | Err _ => True
    end.
Proof.
  destruct (read_tail 1 1 (run_trace sample_before (fresh_writer [] [])).2) as [res w'] eqn:E.
  exists (run_trace sample_before (fresh_writer [] [])).2, w', res.
  split; [reflexivity|]. split; [exact E|]. split.
  - change res with (res, w').1. rewrite <- E. unfold read_tail, trace_flush.
    vm_compute. reflexivity.
  - exact (proj1 (read_tail_history [] [] sample_before 1 1 _ w' res ltac:(lia) eq_refl E)).
Defined.

(** The bytes of a repeated row. *)
Lemma rows_replicate_length n e : length (rows (replicate n e)) = n * length (trace_row e).
Proof.
  induction n as [|n IH]; [done|].
  change (rows (replicate (S n) e)) with (trace_row e ++ rows (replicate n e)).
  rewrite length_app, IH. lia.
Qed.

Lemma rows_replicate_lookup n e q r :
  q < n -> r < length (trace_row e) ->
  rows (replicate n e) !! (q * length (trace_row e) + r) = trace_row e !! r.
Proof.
  revert q. induction n as [|n IH]; intros q Hq Hr; [lia|].
  change (rows (replicate (S n) e)) with (trace_row e ++ rows (replicate n e)).
  destruct q as [|q]; [by rewrite lookup_app_l by lia|].
  rewrite lookup_app_r by lia. replace (_ - _) with (q * length (trace_row e) + r) by lia.
  apply IH; lia.
Qed.

(** 61232 rows of 137 bytes: the last 8 MiB start at byte 39 of the second row,
    the second byte of an accent. *)
Definition long_trace : list (RuntimeEventEnvelope N) :=
  replicate (N.to_nat 61232) (sample_event 1 1 1).

Lemma tail_window_splits_character_witness :
  0 < 5 /\ Forall row_fits long_trace /\
  read_trace_tail (TraceData (rows long_trace)) 5 = Err (Storage (txt "read trace")).
Proof.
  split; [lia|]. split; [apply Forall_replicate, sample_row_fits; lia|].
  assert (Hrow : length (trace_row (sample_event 1 1 1)) = 137) by (vm_compute; reflexivity).
  assert (Hlen : length (rows long_trace) = N.to_nat 61232 * 137)
    by (unfold long_trace; by rewrite rows_replicate_length, Hrow).
  apply (tail_window_splits_character long_trace 5 169%N); [lia| | |reflexivity].
  - rewrite Hlen. unfold MAX_TAIL_SCAN_BYTES. lia.
  - pose proof (rows_replicate_lookup (N.to_nat 61232) (sample_event 1 1 1) 1 39) as Hbyte.
    rewrite Hrow in Hbyte. fold long_trace in Hbyte.
    assert (Hat : 1 * 137 + 39 = length (rows long_trace) - MAX_TAIL_SCAN_BYTES)
      by (rewrite Hlen; unfold MAX_TAIL_SCAN_BYTES; lia).
    rewrite Hat in Hbyte. rewrite Hbyte by lia. reflexivity.
Defined.

(** The broker theorems applied to concrete histories, with a sample serializer: a
    dispatch whose acknowledgement is torn off by a crash, one that is kept, and a commit
    over the journaled broker. *)

#[export] Instance serial_intent : Serial EffectIntent.
Proof.
  refine (serial_via (B := (unit + (text * N)) + (list (text * N) + ((text * list text) + (text * text))))
    (fun i => match i with
       | ReadOnly => inl (inl tt) | WorkspaceWrite p n => inl (inr (p, n))
       | WorkspaceWriteSet ws => inr (inl ((fun w => (wb_path w, wb_max_bytes w)) <$> ws))
       | ExecArgv p a => inr (inr (inl (p, a))) | ShellExec d c => inr (inr (inr (d, c))) end)
    (fun s => match s with
       | inl (inl _) => ReadOnly | inl (inr (p, n)) => WorkspaceWrite p n
       | inr (inl ws) => WorkspaceWriteSet ((fun w => {| wb_path := w.1; wb_max_bytes := w.2 |}) <$> ws)
       | inr (inr (inl (p, a))) => ExecArgv p a | inr (inr (inr (d, c))) => ShellExec d c end) _).
  intros [| |ws| |]; try done. f_equal. induction ws as [|[] ws IH]; [done|]. rewrite !fmap_cons, IH. done.
Defined.

#[export] Instance serial_reserved : Serial ReservedRecord.
Proof.
  refine (serial_via
    (fun r => (rd_reservation_id r, rd_run_id r, rd_operation_id r, rd_argument_digest r, rd_generation r, rd_intent r))
    (fun '(a, b, c, d, e, f) => {| rd_reservation_id := a; rd_run_id := b; rd_operation_id := c;
       rd_argument_digest := d; rd_generation := e; rd_intent := f |}) _).
  by intros [].
Defined.

#[export] Instance serial_settlement : Serial EffectAckSettlement.
Proof.
  refine (serial_via (B := (unit + EffectDurability) + unit)
    (fun s => match s with AckNotApplied => inl (inl tt) | AckApplied d => inl (inr d) | AckUnknown => inr tt end)
    (fun s => match s with inl (inl _) => AckNotApplied | inl (inr d) => AckApplied d | inr _ => AckUnknown end) _).
  by intros [].
Defined.

#[export] Instance serial_reservation_transition : Serial ReservationTransition.
Proof.
  refine (serial_via (B := (N * ReservedRecord) + (N + (N * EffectAckSettlement)))
    (fun t => match t with
       | Reserved e r => inl (e, r) | DispatchedEffect e => inr (inl e) | Acknowledged e s => inr (inr (e, s)) end)
    (fun s => match s with
       | inl (e, r) => Reserved e r | inr (inl e) => DispatchedEffect e | inr (inr (e, s)) => Acknowledged e s end) _).
  by intros [].
Defined.

#[export] Instance serial_stored_frame : Serial StoredFrame.
Proof.
  refine (serial_via (fun f => (jf_version (st_frame f), jf_seq (st_frame f), jf_transition (st_frame f), st_checksum f))
    (fun '(v, n, t, c) => {| st_frame := {| jf_version := v; jf_seq := n; jf_transition := t |}; st_checksum := c |}) _).
  by intros [[]].
Defined.

#[export] Instance sample_reservation_codec : ReservationCodec := {
  jframe_to_vec f := enc (jf_version f, jf_seq f, jf_transition f);
  stored_to_vec := enc;
  stored_from_slice b := fst <$> dec b;
}.

#[export] Instance sample_reservation_laws : ReservationCodecLaws.
Proof.
  split.
  - intros f. cbn [stored_from_slice stored_to_vec sample_reservation_codec]. by rewrite dec_enc_nil.
  - intros f. apply enc_no_newline.
Qed.

#[export] Program Instance sample_hash_order : HashOrder := {
  hash_values m := (map_to_list m).*2;
}.
Next Obligation.
  intros m entry. rewrite list_elem_of_fmap. split.
  - intros ([id e] & -> & Hin). apply elem_of_map_to_list in Hin. by exists id.
  - intros [id Hid]. exists (id, entry). split; [done|]. by apply elem_of_map_to_list.
Qed.

#[export] Instance sample_uuid_text : UuidText := { uuid_text := u64_text }.

(** ** A history *)

Definition sample_reservation : EffectReservation := {|
  es_run_id := 1; es_operation_id := 5; es_effect_id := 9; es_argument_digest := sample_digest;
  es_generation := 1; es_intent := Some (WorkspaceWrite (txt "src/a.rs") 100) |}.

Definition sample_broker (id : string) : BrokerEnv := {|
  bk_reserve := Ok (txt id); bk_dispatch := ReceiptApplied Durable None; bk_ack := Ok tt; bk_rollback := Ok tt |}.

Definition sample_context : OperationEffectContext :=
  {| oc_identity := sample_identity 5; oc_effect_id := 9 |}.

(** Reserved and dispatched; the write of the acknowledgement stops after 10 bytes and
    the process restarts. *)
Definition torn_ack : list BrokerOp := [
  OpReserve (sample_broker "r1") AppendDone sample_reservation;
  OpDispatch (sample_broker "r1") AppendDone 9;
  OpAck (sample_broker "r1") (WriteStops 10) (txt "r1") (AckApplied Durable);
  OpRestart ].

(** The next process is told the settlement again. *)
Definition kept_ack : list BrokerOp := torn_ack ++ [OpAck (sample_broker "r1") AppendDone (txt "r1") (AckApplied Durable)].

Lemma torn_ack_ambiguous :
  reconcile sample_context (bw_journal (broker_run torn_ack fresh_world)) =
    Ok (Some (RecAmbiguous (txt "broker reservation r1 was dispatched without a durable acknowledgement"))).
Proof. vm_compute. reflexivity. Qed.

Definition told : EffectReconciliation := RecApplied Durable (Some (txt "broker:r1:acked-applied")).


Definition settled_entry : ReservationEntry := {|
  en_effect_id := 9; en_record := from_reservation (txt "r1") sample_reservation; en_dispatched := true;
  en_acked_settlement := Some (AckApplied Durable) |}.

(** Another effect, a failed write and a crash later the answer is the same. *)
Lemma settlement_is_durable_witness :
  reconcile sample_context (bw_journal (restart (broker_run
    [OpProcessReserve (Answered SyncFails) sample_reservation; OpDispatchDies (WriteStops 3) 9; OpRestart]
    (broker_run kept_ack fresh_world)))) =
  reconcile sample_context (bw_journal (broker_run kept_ack fresh_world)).
Proof.
  apply (settlement_is_durable kept_ack
    [OpProcessReserve (Answered SyncFails) sample_reservation; OpDispatchDies (WriteStops 3) 9; OpRestart]
    sample_context settled_entry (AckApplied Durable)).
  - vm_compute. reflexivity.
  - vm_compute. reflexivity.
  - reflexivity.
Defined.

(** ** A commit over the broker *)

(** The journal write of the dispatch fails: Core reports the effect as not applied. *)
Definition sample_script : BrokerScript := {|
  sc_env := sample_broker "local/1/5/g1"; sc_reserve := AppendDone; sc_dispatch := SyncFails; sc_ack := AppendDone |}.

Definition brokered_env : CommitEnv := over_broker sample_script commit_request fresh_world (commit_env (Ok (txt "r1"))).

Definition brokered := commit_effect brokered_env commit_request prepared_core.

Lemma brokered_dispatched : brokered.1.2 = Dispatched.
Proof. vm_compute. reflexivity. Qed.

Lemma core_and_broker_agree_witness :
  exists receipt answer, receipt_of brokered.1.1 = Some receipt /\
    reconcile_effect_id 9 (bw_journal (restart (acked_world sample_script commit_request fresh_world).2)) = Ok (Some answer) /\
    agrees receipt answer.
Proof.
  pose proof brokered_dispatched as Hd. unfold brokered in *.
  destruct (commit_effect brokered_env commit_request prepared_core) as [[d a] c'] eqn:E.
  cbn [fst snd] in *. subst a.
  apply (core_and_broker_agree [] sample_script (commit_env (Ok (txt "r1"))) commit_request prepared_core c' d
    (txt "local/1/5/g1")).
  - vm_compute. reflexivity.
  - intros e entry He. cbn in He. rewrite lookup_empty in He. discriminate He.
  - exact E.
Defined.

(** ** A session *)

#[export] Instance sample_coordinator_codec : CoordinatorCodec := {
  request_from_str b := if bool_decide (b = [83%N]) then Some ReqShutdown else Some (ReqDispatched 9 (txt "r1"));
  reply_to_vec reply := if cy_ok reply then [111%N] else [101%N];
}.

Definition sample_host : Host := {|
  ho_reader := {| fr_buffer := []; fr_incoming := [Delivered [68; 10; 83; 10]%N] |};
  ho_written := []; ho_journal := bw_journal fresh_world |}.

Lemma coordinator_session_safe_witness :
  exists r h', serve_broker_frames 5 (fun _ => {| ri_append := AppendDone; ri_written := true |}) sample_host = (r, h') /\
    r <> Err (Internal (txt "out of fuel")).
Proof.
  destruct (serve_broker_frames 5 (fun _ => {| ri_append := AppendDone; ri_written := true |}) sample_host)
    as [r h'] eqn:E.
  exists r, h'. split; [reflexivity|].
  refine (proj1 (coordinator_session_safe (fun _ => {| ri_append := AppendDone; ri_written := true |})
    sample_host recovery_start 5 r h' _ _ E)).
  - exact (proj1 fresh_world_at).
  - apply Nat.leb_le. vm_compute. reflexivity.
Defined.
