(* ===== verification/Capability.v ===== *)
(** Dynamic capabilities: what a manifest may declare (agent-contracts/capability.rs),
    its admission (agent-core/capability_admission.rs) and the authority over its state
    afterwards (agent-core/capability_state.rs).

    [serde_json::to_vec] is the printer [json_text] of [OutputBroker]; the registry's
    live state reaches the collision pass as two functions and a set, as in the code. *)

From stdpp Require Import sorting.
From S2P Require Import Prelude Text Digest Jcs Operation Intent OutputBroker.

(** ** Permissions and ids *)

Definition WORKSPACE_READ : text := txt "workspace:read".
Definition WORKSPACE_WRITE : text := txt "workspace:write".
Definition PROCESS_RUN : text := txt "process:run".
Definition RUNTIME_CONTEXT_CONTROL : text := txt "runtime:context-control".
Definition ARTIFACT_WRITE : text := txt "artifact:write".

(** [str::starts_with]. *)
Fixpoint starts_with (prefix s : text) : bool :=
  match prefix, s with
  | [], _ => true
  | c :: prefix', d :: s' => (c =? d)%N && starts_with prefix' s'
  | _, [] => false
  end.

Definition is_known_permission (permission : text) : bool :=
  bool_decide (permission = WORKSPACE_READ) || bool_decide (permission = WORKSPACE_WRITE)
  || bool_decide (permission = PROCESS_RUN) || bool_decide (permission = RUNTIME_CONTEXT_CONTROL)
  || starts_with ARTIFACT_WRITE permission.

Definition permission_is_side_effecting (permission : text) : bool :=
  negb (bool_decide (permission = WORKSPACE_READ)).

Definition is_ascii_lowercase (c : N) : bool := ((97 <=? c) && (c <=? 122))%N.
Definition is_ascii_uppercase (c : N) : bool := ((65 <=? c) && (c <=? 90))%N.
Definition is_ascii_digit (c : N) : bool := ((48 <=? c) && (c <=? 57))%N.
Definition is_ascii_alphanumeric (c : N) : bool :=
  is_ascii_lowercase c || is_ascii_uppercase c || is_ascii_digit c.

(** The characters of an identifier after its first. *)
Definition id_char (c : N) : bool :=
  is_ascii_lowercase c || is_ascii_digit c || (c =? 46)%N || (c =? 95)%N || (c =? 45)%N.

Definition validate_capability_id (id : text) : result unit text :=
  match id with
  | [] => Err (txt "capability id is empty")
  | first :: rest =>
      if 64 <? str_len id then Err (txt "capability id is over 64 chars")
      else if negb (is_ascii_lowercase first || is_ascii_digit first)
      then Err (txt "capability id must start with a lowercase letter or digit")
      else if negb (forallb id_char rest)
      then Err (txt "capability id may only contain lowercase [a-z0-9._-]")
      else Ok tt
  end.

(** ** Manifests *)

Inductive CapabilityStatus : Type := Experimental | Tested | Validated | Stable | Deprecated.
Inductive CapabilityActivation : Type := ActivationDisabled | ActivationEnabled | ActivationQuarantined.
Inductive CapabilityLifecycle : Type := Eager | Lazy.
Inductive CapabilityTransport : Type := Builtin | ProcessTransport (program : text).

#[export] Instance CapabilityStatus_eq_dec : EqDecision CapabilityStatus.
Proof. solve_decision. Defined.
#[export] Instance CapabilityActivation_eq_dec : EqDecision CapabilityActivation.
Proof. solve_decision. Defined.
#[export] Instance CapabilityTransport_eq_dec : EqDecision CapabilityTransport.
Proof. solve_decision. Defined.

#[export] Instance CapabilityLifecycle_eq_dec : EqDecision CapabilityLifecycle.
Proof. solve_decision. Defined.

(** [CapabilityActivation::usable]. *)
Definition usable (activation : CapabilityActivation) : bool :=
  match activation with ActivationEnabled => true | _ => false end.

Record CapabilityManifest : Type := {
  cm_id : text;
  cm_status : CapabilityStatus;
  cm_permissions : list text;
  cm_requires : list text;
  cm_lifecycle : CapabilityLifecycle;
  cm_transport : CapabilityTransport;
}.

Definition MAX_TOOLS_PER_CAPABILITY : nat := 32.
Definition MAX_TOOL_NAME_CHARS : nat := 64.
Definition MAX_TOOL_DESCRIPTION_CHARS : nat := N.to_nat 200.
Definition MAX_TOOL_SCHEMA_BYTES : nat := N.to_nat 4096.

Definition invalid {A} (message : string) : AgentResult A := Err (InvalidRequest (txt message)).

(** [for item in items { check(item)?; }]. *)
Fixpoint check_each {A E} (check : A -> result unit E) (items : list A) : result unit E :=
  match items with
  | [] => Ok tt
  | item :: items' => let? _ := check item in check_each check items'
  end.

(** The loops that also refuse a name they have [seen]. *)
Fixpoint check_distinct {A} (key : A -> text) (before : A -> AgentResult unit) (twice : string)
    (after : A -> AgentResult unit) (seen : list text) (items : list A) : AgentResult unit :=
  match items with
  | [] => Ok tt
  | item :: items' =>
      let? _ := before item in
      if bool_decide (key item ∈ seen) then invalid twice
      else let? _ := after item in check_distinct key before twice after (key item :: seen) items'
  end.

Section admission.
Context `{JT : JsonText}.

(** [ToolSpec], as a capability or a package declares it. *)
Record DeclaredTool : Type := {
  dt_name : text;
  dt_description : text;
  dt_input_schema : Json;
  dt_risk : ToolRisk;
}.

Definition tool_name_char (c : N) : bool :=
  is_ascii_alphanumeric c || (c =? 46)%N || (c =? 95)%N || (c =? 45)%N || (c =? 58)%N.

Definition schema_bytes (schema : Json) : nat :=
  match json_text schema with Some json => str_len json | None => 0 end.

Definition check_tool_name (spec : DeclaredTool) : AgentResult unit :=
  if bool_decide (dt_name spec = []) || (MAX_TOOL_NAME_CHARS <? str_len (dt_name spec))
  then invalid "capability declares a tool name outside its length"
  else if negb (forallb tool_name_char (dt_name spec))
  then invalid "capability declares a tool name: only [A-Za-z0-9._:-] are allowed"
  else Ok tt.

Definition check_tool_size (spec : DeclaredTool) : AgentResult unit :=
  if MAX_TOOL_DESCRIPTION_CHARS <? str_len (dt_description spec)
  then invalid "capability tool description is above the cap"
  else if MAX_TOOL_SCHEMA_BYTES <? schema_bytes (dt_input_schema spec)
  then invalid "capability tool input schema is above the cap"
  else Ok tt.

Definition validate_tool_specs (specs : list DeclaredTool) : AgentResult unit :=
  if MAX_TOOLS_PER_CAPABILITY <? length specs
  then invalid "capability declares tools above the per-capability cap"
  else check_distinct dt_name check_tool_name "capability declares a tool twice" check_tool_size [] specs.

Definition declares (permission : text) (manifest : CapabilityManifest) : bool :=
  bool_decide (permission ∈ cm_permissions manifest).

Definition check_tool_grant (manifest : CapabilityManifest) (spec : DeclaredTool) : AgentResult unit :=
  match dt_risk spec with
  | RiskWorkspaceWrite =>
      if declares WORKSPACE_WRITE manifest then Ok tt
      else invalid "capability tool needs the workspace:write permission, which is not declared"
  | RiskProcessExecution =>
      if declares PROCESS_RUN manifest then Ok tt
      else invalid "capability tool needs the process:run permission, which is not declared"
  | RiskReadOnly => Ok tt
  end.

Definition validate_manifest_authority (manifest : CapabilityManifest) (specs : list DeclaredTool) :
    AgentResult unit :=
  let? _ := check_each (fun permission =>
      if is_known_permission permission then Ok tt else invalid "capability declares unknown permission")
    (cm_permissions manifest) in
  let? _ :=
    if declares WORKSPACE_WRITE manifest || declares PROCESS_RUN manifest
    then check_each (fun spec =>
        if bool_decide (dt_risk spec = RiskReadOnly)
        then invalid "capability declares workspace-write/process-run authority but a tool self-declares ReadOnly"
        else Ok tt) specs
    else Ok tt in
  check_each (check_tool_grant manifest) specs.

Definition validate_static (manifest : CapabilityManifest) (specs : list DeclaredTool) : AgentResult unit :=
  let? _ := map_err InvalidRequest (validate_capability_id (cm_id manifest)) in
  let? _ := validate_tool_specs specs in
  validate_manifest_authority manifest specs.

(** [AdmissionContext]. *)
Record AdmissionContext : Type := {
  ax_is_registered : text -> bool;
  ax_reserved_names : gset text;
  ax_owner_of_tool : text -> option text;
}.

Definition validate_collisions (manifest : CapabilityManifest) (tool_names : list text) (ctx : AdmissionContext) :
    AgentResult unit :=
  if ax_is_registered ctx (cm_id manifest) then invalid "capability is already registered"
  else
    let? _ := check_each (fun requirement =>
        if ax_is_registered ctx requirement then Ok tt else invalid "capability requires one which is not registered")
      (cm_requires manifest) in
    let? _ := check_each (fun name =>
        if bool_decide (name ∈ ax_reserved_names ctx)
        then invalid "capability declares a tool which is reserved by the runtime; capabilities cannot shadow core tools"
        else Ok tt) tool_names in
    check_each (fun name =>
        match ax_owner_of_tool ctx name with
        | Some _ => invalid "capability declares a tool which is already owned by another capability"
        | None => Ok tt
        end) tool_names.
End admission.

Definition initial_status (manifest : CapabilityManifest) : CapabilityStatus :=
  if bool_decide (cm_transport manifest <> Builtin) && bool_decide (cm_status manifest <> Experimental)
  then Experimental else cm_status manifest.

Definition initial_activation (manifest : CapabilityManifest) : CapabilityActivation :=
  if bool_decide (cm_transport manifest = Builtin) then ActivationEnabled else ActivationDisabled.

(** ** The state authority *)

Record CapabilityState : Type := {
  cs_status : CapabilityStatus;
  cs_activation : CapabilityActivation;
}.

#[export] Instance CapabilityState_eq_dec : EqDecision CapabilityState.
Proof. solve_decision. Defined.

Record CapabilityStateAuthority : Type := {
  ca_inner : gmap text CapabilityState;
  ca_grants : gmap text (list text);
}.

Definition authority_new : CapabilityStateAuthority := {| ca_inner := ∅; ca_grants := ∅ |}.

Definition register_state (id : text) (state : CapabilityState) (permissions : list text) :
    M CapabilityStateAuthority AgentError unit := fun a =>
  match ca_inner a !! id with
  | Some _ => (invalid "capability is already registered", a)
  | None => (Ok tt, {| ca_inner := <[id := state]> (ca_inner a); ca_grants := <[id := permissions]> (ca_grants a) |})
  end.

Definition granted_permissions (id : text) (a : CapabilityStateAuthority) : option (list text) := ca_grants a !! id.
Definition status (id : text) (a : CapabilityStateAuthority) : option CapabilityStatus := cs_status <$> ca_inner a !! id.
Definition activation (id : text) (a : CapabilityStateAuthority) : option CapabilityActivation :=
  cs_activation <$> ca_inner a !! id.

Definition set_activation (id : text) (next : CapabilityActivation) :
    M CapabilityStateAuthority AgentError unit := fun a =>
  match ca_inner a !! id with
  | None => (invalid "capability is not registered", a)
  | Some state =>
      (Ok tt, {| ca_inner := <[id := {| cs_status := cs_status state; cs_activation := next |}]> (ca_inner a);
                 ca_grants := ca_grants a |})
  end.

(** [str::cmp] on UTF-8 is the order of code points. *)
Fixpoint text_le (a b : text) : bool :=
  match a, b with
  | [], _ => true
  | _ :: _, [] => false
  | c :: a', d :: b' => (c <? d)%N || ((c =? d)%N && text_le a' b')
  end.

(** The map is copied out and sorted by id. *)
Definition by_id (x y : text * CapabilityState) : Prop := text_le x.1 y.1 = true.

#[export] Instance by_id_dec : RelDecision by_id.
Proof. intros x y. unfold by_id. apply _. Defined.

Definition snapshot (a : CapabilityStateAuthority) : list (text * CapabilityState) :=
  merge_sort by_id (map_to_list (ca_inner a)).

Definition restore_one (inner : gmap text CapabilityState) (entry : text * CapabilityState) :
    gmap text CapabilityState :=
  match inner !! entry.1 with Some _ => <[entry.1 := entry.2]> inner | None => inner end.

Definition restore (states : list (text * CapabilityState)) (a : CapabilityStateAuthority) : CapabilityStateAuthority :=
  {| ca_inner := fold_left restore_one states (ca_inner a); ca_grants := ca_grants a |}.

(** The ids and states a run of calls goes through. *)
Inductive CapabilityOp : Type :=
| OpRegister (manifest : CapabilityManifest)
| OpSetActivation (id : text) (next : CapabilityActivation)
| OpRestore (states : list (text * CapabilityState)).

Definition capability_step (op : CapabilityOp) (a : CapabilityStateAuthority) : CapabilityStateAuthority :=
  match op with
  | OpRegister manifest =>
      (register_state (cm_id manifest)
         {| cs_status := initial_status manifest; cs_activation := initial_activation manifest |}
         (cm_permissions manifest) a).2
  | OpSetActivation id next => (set_activation id next a).2
  | OpRestore states => restore states a
  end.

Definition capability_run (ops : list CapabilityOp) (a : CapabilityStateAuthority) : CapabilityStateAuthority :=
  fold_left (fun a op => capability_step op a) ops a.
