(* ===== verification/Plugin.v ===== *)
(** Plugin packages: the manifest (agent-contracts/plugin.rs), the checks that decide whether
    a package may be installed at all (agent-core/plugin_admission.rs) and the activation of an
    installed one (agent-core/plugin_state.rs).  Messages keep what a check found wrong and leave
    out the values the code formats into them. *)

From S2P Require Import Prelude Text Jcs Operation Intent OutputBroker Capability.

(** ** The manifest *)

Inductive HookMode : Type := Observe | Gate.
Inductive HookFailurePolicy : Type := RecordAndContinue | DenyOnFailure.
Inductive PluginActivation : Type := Installed | PluginActive | PluginDisabled | PluginQuarantined.

#[export] Instance HookFailurePolicy_eq_dec : EqDecision HookFailurePolicy.
Proof. solve_decision. Defined.
#[export] Instance PluginActivation_eq_dec : EqDecision PluginActivation.
Proof. solve_decision. Defined.

Definition KNOWN_HOOK_EVENTS : list text :=
  [txt "user_input"; txt "before_model"; txt "after_model"; txt "after_tool"; txt "focus_changed";
   txt "task_completed"; txt "checkpoint"].

Record HookDeclaration : Type := {
  hk_id : text;
  hk_event : text;
  hk_mode : HookMode;
  hk_order : N;
  hk_timeout_ms : option N;
  hk_output_budget_chars : option nat;
  hk_failure : HookFailurePolicy;
  hk_permissions : list text;
}.

Inductive SkillSource : Type := SkillBuiltin | SkillPackage | SkillOperator.
Inductive SkillActivation : Type := SkillInactive | SkillActive.

#[export] Instance SkillActivation_eq_dec : EqDecision SkillActivation.
Proof. solve_decision. Defined.

Record SkillDeclaration : Type := {
  sk_id : text;
  sk_version : text;
  sk_summary : text;
  sk_reference : text;
  sk_provenance : SkillSource;
  sk_activation : SkillActivation;
}.

Record AdapterDeclaration : Type := { ad_id : text; ad_protocol : text; ad_endpoint : text }.
Record PackageDependency : Type := { pd_id : text; pd_range : text }.
Record TestDeclaration : Type := { td_id : text; td_command : list text }.

Section manifest.
Context `{JT : JsonText}.

Record PluginPackageManifest : Type := {
  pp_id : text;
  pp_version : text;
  pp_name : text;
  pp_summary : text;
  pp_api : text;
  pp_tools : list DeclaredTool;
  pp_skills : list SkillDeclaration;
  pp_hooks : list HookDeclaration;
  pp_adapters : list AdapterDeclaration;
  pp_dependencies : list PackageDependency;
  pp_permissions : list text;
  pp_tests : list TestDeclaration;
}.

(** ** Caps *)

Definition MAX_SKILLS_PER_PACKAGE : nat := 16.
Definition MAX_HOOKS_PER_PACKAGE : nat := 16.
Definition MAX_ADAPTERS_PER_PACKAGE : nat := 8.
Definition MAX_DEPENDENCIES_PER_PACKAGE : nat := 16.
Definition MAX_TESTS_PER_PACKAGE : nat := 16.
Definition MAX_HOOK_TIMEOUT_MS : N := 30000.
Definition MAX_HOOK_OUTPUT_CHARS : nat := N.to_nat 16000.
Definition MAX_PACKAGE_NAME_CHARS : nat := 100.
Definition MAX_PACKAGE_SUMMARY_CHARS : nat := N.to_nat 500.
Definition MAX_VERSION_CHARS : nat := 64.
Definition MAX_RANGE_CHARS : nat := 64.
Definition MAX_COMPONENT_ID_CHARS : nat := 64.
Definition MAX_COMPONENT_SUMMARY_CHARS : nat := N.to_nat 200.
Definition MAX_REFERENCE_CHARS : nat := N.to_nat 256.
Definition MAX_EVENT_CHARS : nat := 64.
Definition MAX_PROTOCOL_CHARS : nat := 32.
Definition MAX_ENDPOINT_CHARS : nat := N.to_nat 256.
Definition MAX_COMMAND_ARGS : nat := 16.
Definition MAX_COMMAND_ARG_CHARS : nat := N.to_nat 256.

(** ** Fields *)

(** [char::is_control]: the general category Cc. *)
Definition is_control (c : N) : bool := ((c <=? 31) || ((127 <=? c) && (c <=? 159)))%N.

(** [field.is_empty() || field.len() > cap], refused. *)
Definition within (cap : nat) (field : text) : bool :=
  negb (bool_decide (field = []) || (cap <? str_len field)).

Definition require (ok : bool) (message : string) : AgentResult unit :=
  if ok then Ok tt else invalid message.

Definition validate_component_id (id : text) : AgentResult unit :=
  let? _ := require (within MAX_COMPONENT_ID_CHARS id) "component id outside its length" in
  require (forallb id_char id) "component id may only contain lowercase [a-z0-9._-]".

Definition version_char (c : N) : bool :=
  is_ascii_alphanumeric c || (c =? 46)%N || (c =? 95)%N || (c =? 45)%N || (c =? 43)%N.

Definition validate_version (version : text) : AgentResult unit :=
  let? _ := require (within MAX_VERSION_CHARS version) "version outside its length" in
  require (forallb version_char version) "version may only contain [a-zA-Z0-9._-+]".

Definition validate_range (range : text) : AgentResult unit :=
  let? _ := require (within MAX_RANGE_CHARS range) "version range outside its length" in
  require (negb (existsb is_control range)) "version range contains control characters".

(** ** Components *)

Definition package_relative (reference : text) : bool :=
  negb (starts_with (txt "/") reference || starts_with (txt "..") reference
        || existsb (N.eqb 92) reference || existsb is_control reference).

Definition check_skill (skill : SkillDeclaration) : AgentResult unit :=
  let? _ := validate_version (sk_version skill) in
  let? _ := require (within MAX_COMPONENT_SUMMARY_CHARS (sk_summary skill)) "skill summary outside its length" in
  let? _ := require (within MAX_REFERENCE_CHARS (sk_reference skill)) "skill reference outside its length" in
  require (package_relative (sk_reference skill)) "skill reference must be a package-relative path".

Definition validate_skills (package : PluginPackageManifest) : AgentResult unit :=
  if MAX_SKILLS_PER_PACKAGE <? length (pp_skills package) then invalid "skills above the per-package cap"
  else check_distinct sk_id (fun skill => validate_component_id (sk_id skill)) "package declares a skill twice"
         check_skill [] (pp_skills package).

(** [== Some(0) || is_some_and(|n| n > cap)], refused. *)
Definition timeout_ok (timeout : option N) : bool :=
  match timeout with None => true | Some ms => negb ((ms =? 0) || (MAX_HOOK_TIMEOUT_MS <? ms))%N end.
Definition budget_ok (budget : option nat) : bool :=
  match budget with None => true | Some n => negb ((n =? 0) || (MAX_HOOK_OUTPUT_CHARS <? n)) end.

Definition policy_ok (mode : HookMode) (failure : HookFailurePolicy) : bool :=
  match mode with
  | Observe => bool_decide (failure = RecordAndContinue)
  | Gate => bool_decide (failure = DenyOnFailure)
  end.

Definition check_hook (package_permissions : list text) (hook : HookDeclaration) : AgentResult unit :=
  let? _ := require (within MAX_EVENT_CHARS (hk_event hook)) "hook event outside its length" in
  let? _ := require (bool_decide (hk_event hook ∈ KNOWN_HOOK_EVENTS)) "hook targets unknown event" in
  let? _ := require (timeout_ok (hk_timeout_ms hook)) "hook timeout outside its range" in
  let? _ := require (budget_ok (hk_output_budget_chars hook)) "hook output budget outside its range" in
  let? _ := require (policy_ok (hk_mode hook) (hk_failure hook)) "hook must use another failure policy" in
  check_distinct (fun permission => permission)
    (fun permission => require (is_known_permission permission) "hook declares unknown permission")
    "hook declares a permission twice"
    (fun permission => require (bool_decide (permission ∈ package_permissions))
                         "hook permission is not a subset of the package permissions")
    [] (hk_permissions hook).

Definition validate_hooks (package : PluginPackageManifest) : AgentResult unit :=
  if MAX_HOOKS_PER_PACKAGE <? length (pp_hooks package) then invalid "hooks above the per-package cap"
  else check_distinct hk_id (fun hook => validate_component_id (hk_id hook)) "package declares a hook twice"
         (check_hook (pp_permissions package)) [] (pp_hooks package).

Definition check_adapter (adapter : AdapterDeclaration) : AgentResult unit :=
  let? _ := require (within MAX_PROTOCOL_CHARS (ad_protocol adapter)) "adapter protocol outside its length" in
  let? _ := require (within MAX_ENDPOINT_CHARS (ad_endpoint adapter)) "adapter endpoint outside its length" in
  require (negb (existsb is_control (ad_endpoint adapter))) "adapter endpoint contains control characters".

Definition validate_adapters (package : PluginPackageManifest) : AgentResult unit :=
  if MAX_ADAPTERS_PER_PACKAGE <? length (pp_adapters package) then invalid "adapters above the per-package cap"
  else check_distinct ad_id (fun adapter => validate_component_id (ad_id adapter)) "package declares an adapter twice"
         check_adapter [] (pp_adapters package).

Definition validate_dependencies (package : PluginPackageManifest) : AgentResult unit :=
  if MAX_DEPENDENCIES_PER_PACKAGE <? length (pp_dependencies package)
  then invalid "dependencies above the per-package cap"
  else check_distinct pd_id (fun dependency => map_err InvalidRequest (validate_capability_id (pd_id dependency)))
         "package depends on another twice" (fun dependency => validate_range (pd_range dependency))
         [] (pp_dependencies package).

Definition validate_permissions (package : PluginPackageManifest) : AgentResult unit :=
  check_distinct (fun permission => permission)
    (fun permission => require (is_known_permission permission) "package declares unknown permission")
    "package declares a permission twice" (fun _ => Ok tt) [] (pp_permissions package).

Definition check_test (test : TestDeclaration) : AgentResult unit :=
  let? _ := require (negb (bool_decide (td_command test = []) || (MAX_COMMAND_ARGS <? length (td_command test))))
              "test command must be 1..=16 argv items" in
  check_each (fun arg => require (within MAX_COMMAND_ARG_CHARS arg) "test has an argv item outside its length")
    (td_command test).

Definition validate_tests (package : PluginPackageManifest) : AgentResult unit :=
  if MAX_TESTS_PER_PACKAGE <? length (pp_tests package) then invalid "tests above the per-package cap"
  else check_distinct td_id (fun test => validate_component_id (td_id test)) "package declares a test twice"
         check_test [] (pp_tests package).

Definition validate_package (package : PluginPackageManifest) : AgentResult unit :=
  let? _ := map_err InvalidRequest (validate_capability_id (pp_id package)) in
  let? _ := validate_version (pp_version package) in
  let? _ := validate_range (pp_api package) in
  let? _ := require (within MAX_PACKAGE_NAME_CHARS (pp_name package)) "package name outside its length" in
  let? _ := require (within MAX_PACKAGE_SUMMARY_CHARS (pp_summary package)) "package summary outside its length" in
  let? _ := validate_tool_specs (pp_tools package) in
  let? _ := validate_skills package in
  let? _ := validate_hooks package in
  let? _ := validate_adapters package in
  let? _ := validate_dependencies package in
  let? _ := validate_permissions package in
  validate_tests package.
End manifest.

(** ** Activation of an installed package *)

Definition can_transition (from to : PluginActivation) : bool :=
  match to with
  | PluginActive => match from with Installed | PluginDisabled => true | _ => false end
  | PluginDisabled => match from with PluginActive | PluginQuarantined => true | _ => false end
  | PluginQuarantined => match from with Installed | PluginActive | PluginDisabled => true | _ => false end
  | Installed => false
  end.


Definition install (id : text) (states : gmap text PluginActivation) : gmap text PluginActivation := <[id := Installed]> states.

Definition package_set_activation (id : text) (next : PluginActivation) : M (gmap text PluginActivation) text unit := fun states =>
  match states !! id with
  | None => (Err (txt "package is not installed"), states)
  | Some current =>
      if can_transition current next then (Ok tt, <[id := next]> states)
      else (Err (txt "package cannot move"), states)
  end.

Definition uninstall (id : text) (states : gmap text PluginActivation) : gmap text PluginActivation := delete id states.

(** The calls an installer and an operator make. *)
Inductive PackageOp : Type :=
| PkInstall (id : text)
| PkSet (id : text) (next : PluginActivation)
| PkUninstall (id : text).

Definition package_step (states : gmap text PluginActivation) (op : PackageOp) : gmap text PluginActivation :=
  match op with
  | PkInstall id => install id states
  | PkSet id next => (package_set_activation id next states).2
  | PkUninstall id => uninstall id states
  end.

Definition package_run (ops : list PackageOp) (states : gmap text PluginActivation) : gmap text PluginActivation := fold_left package_step ops states.
