(* ===== verification/CapabilityTheorems.v ===== *)
(** Admission decides a declarative well-formedness: what [validate_static] and
    [validate_package] accept is stated here field by field, and the checkers are proved
    sound and complete for it. *)

From S2P Require Import Prelude Text Jcs Operation Intent OutputBroker Capability Plugin.

(** ** Checkers that return unit *)

Lemma seq_Ok {E} (r k : result unit E) : (let? _ := r in k) = Ok tt <-> r = Ok tt /\ k = Ok tt.
Proof. destruct r as [[]|e]; cbn; intuition congruence. Qed.

Lemma require_Ok ok message : require ok message = Ok tt <-> ok = true.
Proof. unfold require, invalid. destruct ok; naive_solver. Qed.

Lemma if_Err_Ok {A E} (b : bool) (e : E) (r : result A E) a : (if b then Err e else r) = Ok a <-> b = false /\ r = Ok a.
Proof. destruct b; naive_solver. Qed.

Lemma if_invalid_Ok (b : bool) message (r : AgentResult unit) :
  (if b then invalid message else r) = Ok tt <-> b = false /\ r = Ok tt.
Proof. apply if_Err_Ok. Qed.

Lemma map_err_Ok {A E F} (f : E -> F) (r : result A E) a : map_err f r = Ok a <-> r = Ok a.
Proof. destruct r; cbn; naive_solver. Qed.

Lemma check_each_Ok {A E} (check : A -> result unit E) items :
  check_each check items = Ok tt <-> Forall (fun item => check item = Ok tt) items.
Proof.
  induction items as [|item items IH]; cbn [check_each].
  - split; [constructor|done].
  - rewrite seq_Ok, IH, Forall_cons. done.
Qed.

Lemma check_distinct_Ok {A} (key : A -> text) before twice after seen items :
  check_distinct key before twice after seen items = Ok tt <->
  NoDup (key <$> items) /\ Forall (fun item => key item ∉ seen) items
  /\ Forall (fun item => before item = Ok tt /\ after item = Ok tt) items.
Proof.
  revert seen. induction items as [|item items IH]; intros seen; cbn [check_distinct fmap list_fmap].
  - repeat split; constructor.
  - rewrite seq_Ok, if_invalid_Ok, bool_decide_eq_false, seq_Ok, IH, !Forall_cons, NoDup_cons.
    assert (Forall (fun i => key i ∉ key item :: seen) items
            <-> key item ∉ key <$> items /\ Forall (fun i => key i ∉ seen) items) as ->.
    { rewrite !Forall_forall, list_elem_of_fmap. setoid_rewrite not_elem_of_cons. split.
      - intros H. split; [intros (i & Hi & Hin); destruct (H i Hin); congruence|].
        intros i Hin. apply (H i Hin).
      - intros [Hn Hs] i Hin. split; [|by apply Hs]. intros Heq. apply Hn. by exists i. }
    tauto.
Qed.

Lemma within_true cap field : within cap field = true <-> field <> [] /\ str_len field <= cap.
Proof.
  unfold within. rewrite negb_true_iff, orb_false_iff, bool_decide_eq_false, Nat.ltb_ge. done.
Qed.

Lemma over_false cap n : (cap <? n) = false <-> n <= cap.
Proof. apply Nat.ltb_ge. Qed.

Lemma existsb_false_Forall {A} (f : A -> bool) l : negb (existsb f l) = true <-> Forall (fun x => f x = false) l.
Proof.
  induction l as [|x l IH]; cbn [existsb]; [by split; [constructor|]|].
  rewrite negb_true_iff, orb_false_iff, Forall_cons, <- IH, negb_true_iff. done.
Qed.

Lemma forallb_true_Forall {A} (f : A -> bool) l : forallb f l = true <-> Forall (fun x => f x = true) l.
Proof.
  induction l as [|x l IH]; cbn [forallb]; [by split; [constructor|]|].
  rewrite andb_true_iff, Forall_cons, <- IH. done.
Qed.

(** One rewriting step per way a checker is put together. *)
Ltac checker :=
  repeat first
    [ rewrite seq_Ok | rewrite require_Ok | rewrite if_invalid_Ok | rewrite map_err_Ok
    | rewrite check_each_Ok | rewrite check_distinct_Ok | rewrite within_true | rewrite over_false
    | rewrite existsb_false_Forall | rewrite forallb_true_Forall | rewrite bool_decide_eq_true ].

Lemma Forall_nil_seen {A} (key : A -> text) items : Forall (fun item => key item ∉ []) items.
Proof. apply Forall_true. intros. apply not_elem_of_nil. Qed.

(** ** What may be declared *)

(** An identifier: 1 to 64 bytes of [a-z0-9._-], the first a letter or a digit. *)
Definition IdWf (id : text) : Prop :=
  exists first rest, id = first :: rest /\ str_len id <= 64
    /\ (is_ascii_lowercase first || is_ascii_digit first) = true
    /\ Forall (fun c => id_char c = true) rest.

Lemma validate_capability_id_Ok id : validate_capability_id id = Ok tt <-> IdWf id.
Proof.
  unfold IdWf, validate_capability_id. destruct id as [|first rest].
  - split; [discriminate|]. intros (? & ? & ? & _). discriminate.
  - rewrite !if_Err_Ok, over_false, !negb_false_iff, forallb_true_Forall. split.
    + intros (? & ? & ? & _). by exists first, rest.
    + intros (? & ? & [= <- <-] & ? & ? & ?). done.
Qed.

Section tools.
Context `{JT : JsonText}.

Record ToolWf (spec : DeclaredTool) : Prop := {
  tw_named : dt_name spec <> [] /\ str_len (dt_name spec) <= MAX_TOOL_NAME_CHARS;
  tw_chars : Forall (fun c => tool_name_char c = true) (dt_name spec);
  tw_description : str_len (dt_description spec) <= MAX_TOOL_DESCRIPTION_CHARS;
  tw_schema : schema_bytes (dt_input_schema spec) <= MAX_TOOL_SCHEMA_BYTES;
}.

Record ToolsWf (specs : list DeclaredTool) : Prop := {
  tsw_count : length specs <= MAX_TOOLS_PER_CAPABILITY;
  tsw_distinct : NoDup (dt_name <$> specs);
  tsw_each : Forall ToolWf specs;
}.

Lemma check_tool_Ok spec : check_tool_name spec = Ok tt /\ check_tool_size spec = Ok tt <-> ToolWf spec.
Proof.
  unfold check_tool_name, check_tool_size. checker.
  rewrite orb_false_iff, bool_decide_eq_false, negb_false_iff. checker.
  split; [intros [([? ?] & ? & _) (? & ? & _)]|intros [[? ?] ? ? ?]]; [constructor|]; auto.
Qed.

Lemma validate_tool_specs_Ok specs : validate_tool_specs specs = Ok tt <-> ToolsWf specs.
Proof.
  unfold validate_tool_specs. checker.
  setoid_rewrite check_tool_Ok. split; [intros (? & ? & _ & ?)|intros []]; [constructor|]; auto using Forall_nil_seen.
Qed.

(** What a tool's risk label asks of the manifest that declares it. *)
Definition RiskGranted (manifest : CapabilityManifest) (spec : DeclaredTool) : Prop :=
  match dt_risk spec with
  | RiskReadOnly => WORKSPACE_WRITE ∉ cm_permissions manifest /\ PROCESS_RUN ∉ cm_permissions manifest
  | RiskWorkspaceWrite => WORKSPACE_WRITE ∈ cm_permissions manifest
  | RiskProcessExecution => PROCESS_RUN ∈ cm_permissions manifest
  end.

Record Admissible (manifest : CapabilityManifest) (specs : list DeclaredTool) : Prop := {
  am_id : IdWf (cm_id manifest);
  am_tools : ToolsWf specs;
  am_known : Forall (fun permission => is_known_permission permission = true) (cm_permissions manifest);
  am_risk : Forall (RiskGranted manifest) specs;
}.

Lemma RiskGranted_check manifest spec :
  RiskGranted manifest spec <->
  (declares WORKSPACE_WRITE manifest || declares PROCESS_RUN manifest = true -> dt_risk spec <> RiskReadOnly)
  /\ check_tool_grant manifest spec = Ok tt.
Proof.
  unfold RiskGranted, check_tool_grant, declares, invalid. rewrite orb_true_iff, !bool_decide_eq_true.
  destruct (dt_risk spec).
  - intuition congruence.
  - case_bool_decide; intuition congruence.
  - case_bool_decide; intuition congruence.
Qed.

Lemma validate_manifest_authority_Ok manifest specs :
  validate_manifest_authority manifest specs = Ok tt <->
  Forall (fun permission => is_known_permission permission = true) (cm_permissions manifest)
  /\ Forall (RiskGranted manifest) specs.
Proof.
  unfold validate_manifest_authority. checker.
  rewrite (Forall_iff _ specs _ (RiskGranted_check manifest)), Forall_and.
  assert (forall l, Forall (fun p => (if is_known_permission p then Ok tt
      else invalid "capability declares unknown permission") = Ok tt) l
      <-> Forall (fun p => is_known_permission p = true) l) as Hknown.
  { intros l. apply Forall_iff. intros p. unfold invalid. destruct (is_known_permission p); intuition discriminate. }
  rewrite Hknown. apply and_iff_compat_l.
  destruct (declares WORKSPACE_WRITE manifest || declares PROCESS_RUN manifest); checker.
  - apply and_iff_compat_r, Forall_iff. intros spec. unfold invalid. case_bool_decide; intuition congruence.
  - split; [|tauto]. intros [_ ?]. split; [|done]. apply Forall_true. discriminate.
Qed.

(** Capability admission decides exactly the declared discipline: [validate_static] accepts a
    manifest with its tools if and only if the id is well formed, there are at most 32 tools with
    distinct well-formed names and bounded descriptions and schemas, every permission is known, and
    every tool's risk label is backed by the permissions (no ReadOnly tool beside workspace:write or
    process:run). *)
Theorem admission_exact manifest specs :
  validate_static manifest specs = Ok tt <-> Admissible manifest specs.
Proof.
  unfold validate_static. checker.
  rewrite validate_capability_id_Ok, validate_tool_specs_Ok, validate_manifest_authority_Ok.
  split; [intros (? & ? & ? & ?)|intros []]; [constructor|]; auto.
Qed.
End tools.

(** ** Packages *)

Definition VersionWf (version : text) : Prop :=
  (version <> [] /\ str_len version <= MAX_VERSION_CHARS) /\ Forall (fun c => version_char c = true) version.

Definition RangeWf (range : text) : Prop :=
  (range <> [] /\ str_len range <= MAX_RANGE_CHARS) /\ Forall (fun c => is_control c = false) range.

Definition ComponentIdWf (id : text) : Prop :=
  (id <> [] /\ str_len id <= MAX_COMPONENT_ID_CHARS) /\ Forall (fun c => id_char c = true) id.

(** The components of one kind: at most [cap], with distinct ids, each well formed. *)
Record ComponentsWf {A} (cap : nat) (key : A -> text) (wf : A -> Prop) (items : list A) : Prop := {
  co_count : length items <= cap;
  co_distinct : NoDup (key <$> items);
  co_each : Forall wf items;
}.

Record SkillWf (skill : SkillDeclaration) : Prop := {
  sw_id : ComponentIdWf (sk_id skill);
  sw_version : VersionWf (sk_version skill);
  sw_summary : sk_summary skill <> [] /\ str_len (sk_summary skill) <= MAX_COMPONENT_SUMMARY_CHARS;
  sw_reference : sk_reference skill <> [] /\ str_len (sk_reference skill) <= MAX_REFERENCE_CHARS;
  sw_relative : package_relative (sk_reference skill) = true;
}.

Record HookWf (granted : list text) (hook : HookDeclaration) : Prop := {
  hw_id : ComponentIdWf (hk_id hook);
  hw_event_bound : hk_event hook <> [] /\ str_len (hk_event hook) <= MAX_EVENT_CHARS;
  hw_event : hk_event hook ∈ KNOWN_HOOK_EVENTS;
  hw_timeout : forall ms, hk_timeout_ms hook = Some ms -> (1 <= ms <= MAX_HOOK_TIMEOUT_MS)%N;
  hw_budget : forall n, hk_output_budget_chars hook = Some n -> 1 <= n <= MAX_HOOK_OUTPUT_CHARS;
  hw_policy : hk_failure hook = match hk_mode hook with Observe => RecordAndContinue | Gate => DenyOnFailure end;
  hw_distinct : NoDup (hk_permissions hook);
  hw_subset : hk_permissions hook ⊆ granted;
  hw_known : Forall (fun permission => is_known_permission permission = true) (hk_permissions hook);
}.

Record AdapterWf (adapter : AdapterDeclaration) : Prop := {
  aw_id : ComponentIdWf (ad_id adapter);
  aw_protocol : ad_protocol adapter <> [] /\ str_len (ad_protocol adapter) <= MAX_PROTOCOL_CHARS;
  aw_endpoint : ad_endpoint adapter <> [] /\ str_len (ad_endpoint adapter) <= MAX_ENDPOINT_CHARS;
  aw_printable : Forall (fun c => is_control c = false) (ad_endpoint adapter);
}.

Record TestWf (test : TestDeclaration) : Prop := {
  te_id : ComponentIdWf (td_id test);
  te_count : td_command test <> [] /\ length (td_command test) <= MAX_COMMAND_ARGS;
  te_args : Forall (fun arg => arg <> [] /\ str_len arg <= MAX_COMMAND_ARG_CHARS) (td_command test);
}.

Lemma validate_version_Ok version : validate_version version = Ok tt <-> VersionWf version.
Proof. unfold validate_version, VersionWf. by checker. Qed.

Lemma validate_range_Ok range : validate_range range = Ok tt <-> RangeWf range.
Proof. unfold validate_range, RangeWf. by checker. Qed.

Lemma validate_component_id_Ok id : validate_component_id id = Ok tt <-> ComponentIdWf id.
Proof. unfold validate_component_id, ComponentIdWf. by checker. Qed.

Lemma timeout_ok_true timeout :
  timeout_ok timeout = true <-> forall ms, timeout = Some ms -> (1 <= ms <= MAX_HOOK_TIMEOUT_MS)%N.
Proof.
  destruct timeout as [ms|]; cbn [timeout_ok]; [|by split].
  rewrite negb_true_iff, orb_false_iff, N.eqb_neq, N.ltb_ge. split.
  - intros [? ?] ? [= <-]. lia.
  - intros H. specialize (H ms eq_refl). lia.
Qed.

Lemma budget_ok_true budget :
  budget_ok budget = true <-> forall n, budget = Some n -> 1 <= n <= MAX_HOOK_OUTPUT_CHARS.
Proof.
  destruct budget as [n|]; cbn [budget_ok]; [|by split].
  rewrite negb_true_iff, orb_false_iff, Nat.eqb_neq, Nat.ltb_ge. split.
  - intros [? ?] ? [= <-]. lia.
  - intros H. specialize (H n eq_refl). lia.
Qed.

Lemma policy_ok_true mode failure :
  policy_ok mode failure = true <-> failure = match mode with Observe => RecordAndContinue | Gate => DenyOnFailure end.
Proof. destruct mode; apply bool_decide_eq_true. Qed.

(** The shape the six component checks share. *)
Lemma components_Ok {A} cap (key : A -> text) before after (wf : A -> Prop) items over twice :
  (forall item, before item = Ok tt /\ after item = Ok tt <-> wf item) ->
  (if cap <? length items then invalid over else check_distinct key before twice after [] items) = Ok tt
  <-> ComponentsWf cap key wf items.
Proof.
  intros H. checker. rewrite (Forall_iff _ items _ H).
  split; [intros (? & ? & _ & ?)|intros []]; [constructor|]; auto using Forall_nil_seen.
Qed.

Lemma validate_skills_Ok `{JT : JsonText} package :
  validate_skills package = Ok tt <-> ComponentsWf MAX_SKILLS_PER_PACKAGE sk_id SkillWf (pp_skills package).
Proof.
  apply components_Ok. intros skill. unfold check_skill. checker.
  rewrite validate_component_id_Ok, validate_version_Ok. split; [intros (? & ? & ? & ? & ?)|intros []]; [constructor|]; auto.
Qed.

Lemma check_hook_Ok granted hook :
  validate_component_id (hk_id hook) = Ok tt /\ check_hook granted hook = Ok tt <-> HookWf granted hook.
Proof.
  unfold check_hook. checker.
  rewrite validate_component_id_Ok, timeout_ok_true, budget_ok_true, policy_ok_true, list_fmap_id.
  setoid_rewrite require_Ok. setoid_rewrite bool_decide_eq_true. rewrite Forall_and.
  assert (Forall (fun permission => permission ∈ granted) (hk_permissions hook) <-> hk_permissions hook ⊆ granted)
    as Hsub by apply Forall_forall.
  rewrite Hsub. split.
  - intros (? & ? & ? & ? & ? & ? & ? & ? & ? & ?). by constructor.
  - intros []. do 9 (split; [by auto using Forall_nil_seen|]). done.
Qed.

Lemma validate_hooks_Ok `{JT : JsonText} package :
  validate_hooks package = Ok tt <->
  ComponentsWf MAX_HOOKS_PER_PACKAGE hk_id (HookWf (pp_permissions package)) (pp_hooks package).
Proof. apply components_Ok, check_hook_Ok. Qed.

Lemma validate_adapters_Ok `{JT : JsonText} package :
  validate_adapters package = Ok tt <-> ComponentsWf MAX_ADAPTERS_PER_PACKAGE ad_id AdapterWf (pp_adapters package).
Proof.
  apply components_Ok. intros adapter. unfold check_adapter. checker. rewrite validate_component_id_Ok.
  split; [intros (? & ? & ? & ?)|intros []]; [constructor|]; auto.
Qed.

Lemma validate_dependencies_Ok `{JT : JsonText} package :
  validate_dependencies package = Ok tt <->
  ComponentsWf MAX_DEPENDENCIES_PER_PACKAGE pd_id (fun dependency => IdWf (pd_id dependency) /\ RangeWf (pd_range dependency))
    (pp_dependencies package).
Proof. apply components_Ok. intros dependency. checker. by rewrite validate_capability_id_Ok, validate_range_Ok. Qed.

Lemma validate_permissions_Ok `{JT : JsonText} package :
  validate_permissions package = Ok tt <->
  NoDup (pp_permissions package)
  /\ Forall (fun permission => is_known_permission permission = true) (pp_permissions package).
Proof.
  unfold validate_permissions. checker. rewrite list_fmap_id. setoid_rewrite require_Ok. rewrite Forall_and.
  split; [tauto|]. intros [? ?]. repeat split; auto using Forall_nil_seen. by apply Forall_true.
Qed.

Lemma validate_tests_Ok `{JT : JsonText} package :
  validate_tests package = Ok tt <-> ComponentsWf MAX_TESTS_PER_PACKAGE td_id TestWf (pp_tests package).
Proof.
  apply components_Ok. intros test. unfold check_test. checker. setoid_rewrite require_Ok. setoid_rewrite within_true.
  rewrite validate_component_id_Ok, negb_true_iff, orb_false_iff, bool_decide_eq_false. checker.
  split; [intros (? & ? & ?)|intros []]; [constructor|]; auto.
Qed.

Record PackageWf `{JT : JsonText} (package : PluginPackageManifest) : Prop := {
  pw_id : IdWf (pp_id package);
  pw_version : VersionWf (pp_version package);
  pw_api : RangeWf (pp_api package);
  pw_name : pp_name package <> [] /\ str_len (pp_name package) <= MAX_PACKAGE_NAME_CHARS;
  pw_summary : pp_summary package <> [] /\ str_len (pp_summary package) <= MAX_PACKAGE_SUMMARY_CHARS;
  pw_tools : ToolsWf (pp_tools package);
  pw_skills : ComponentsWf MAX_SKILLS_PER_PACKAGE sk_id SkillWf (pp_skills package);
  pw_hooks : ComponentsWf MAX_HOOKS_PER_PACKAGE hk_id (HookWf (pp_permissions package)) (pp_hooks package);
  pw_adapters : ComponentsWf MAX_ADAPTERS_PER_PACKAGE ad_id AdapterWf (pp_adapters package);
  pw_dependencies : ComponentsWf MAX_DEPENDENCIES_PER_PACKAGE pd_id
      (fun dependency => IdWf (pd_id dependency) /\ RangeWf (pd_range dependency)) (pp_dependencies package);
  pw_permissions : NoDup (pp_permissions package)
      /\ Forall (fun permission => is_known_permission permission = true) (pp_permissions package);
  pw_tests : ComponentsWf MAX_TESTS_PER_PACKAGE td_id TestWf (pp_tests package);
}.

(** Package admission decides exactly the declared discipline: [validate_package] accepts a
    manifest if and only if every field and every component is well formed, each kind within its cap
    and with distinct ids, hooks naming known events with budgets in range, the failure policy their
    mode fixes and no permission outside the package's. *)
Theorem package_admission_exact `{JT : JsonText} package :
  validate_package package = Ok tt <-> PackageWf package.
Proof.
  unfold validate_package. checker.
  rewrite validate_capability_id_Ok, validate_version_Ok, validate_range_Ok, validate_tool_specs_Ok, validate_skills_Ok,
    validate_hooks_Ok, validate_adapters_Ok, validate_dependencies_Ok, validate_permissions_Ok, validate_tests_Ok.
  split; [intros (? & ? & ? & ? & ? & ? & ? & ? & ? & ? & ? & ?)|intros []]; [constructor|]; tauto.
Qed.
