(* ===== verification/CapabilityRegistry.v ===== *)
(** The runtime's capability registry (agent-runtime/capability/mod.rs): the registered manifests,
    the per-tool surface lifecycle with its idle clock and byte pressure, and the service
    lifecycle under the per-capability [run_lock].

    What a capability object answers ([start], [stop], [is_live]) is an argument of the step that
    asks.  Iteration over a [HashMap] is in the order of [map_to_list]; no result below depends on it
    once ownership is unique.  A method that awaits while it holds [run_lock] is two steps, with the
    lock held between them. *)

From stdpp Require Import sorting.
From S2P Require Import Prelude Text Jcs Operation Intent OutputBroker Capability.

Inductive ToolLifecycle : Type := LcAvailable | LcLoaded | LcActive | LcWarm | LcUnloaded.
Inductive CapabilityRunState : Type := RsStopped | RsStarting | RsStarted | RsStopping | RsFailed.

#[export] Instance ToolLifecycle_eq_dec : EqDecision ToolLifecycle.
Proof. solve_decision. Defined.
#[export] Instance CapabilityRunState_eq_dec : EqDecision CapabilityRunState.
Proof. solve_decision. Defined.

Definition SURFACE_SOFT_HIGH_BYTES : nat := N.to_nat 18000.
Definition SURFACE_LOW_WATERMARK_BYTES : nat := N.to_nat 9000.
Definition MAX_TOOL_LEASE_REPORT_NAMES : nat := 16.
Definition MAX_TOOL_REQUIREMENT_NAME_CHARS : nat := 96.

(** [AtomicU64::fetch_add(1)] wraps. *)
Definition wrapping_succ (n : N) : N := ((n + 1) mod (u64_max + 1))%N.

Record CapabilityToolState : Type := {
  ts_lifecycle : ToolLifecycle;
  ts_last_used_tick : N;
  ts_persistent_load : bool;
}.

(** [CapabilitySnapshot] of a checkpoint. *)
Record CapabilitySnapshot : Type := {
  sn_id : text;
  sn_activation : CapabilityActivation;
  sn_loaded : bool;
  sn_loaded_tools : list text;
}.

Definition restore_activation_meet (current checkpoint : CapabilityActivation) : CapabilityActivation :=
  match current, checkpoint with
  | ActivationQuarantined, _ | _, ActivationQuarantined => ActivationQuarantined
  | ActivationDisabled, _ | _, ActivationDisabled => ActivationDisabled
  | ActivationEnabled, ActivationEnabled => ActivationEnabled
  end.

(** [ToolLeaseReconcileReport]; the counters count tools, far below [usize::MAX]. *)
Record ToolLeaseReconcileReport : Type := {
  lr_examined_loaded_optional : nat;
  lr_retained_by_root : nat;
  lr_retained_by_persistent_source : nat;
  lr_released_to_warm : nat;
  lr_released_tools : list text;
  lr_released_tools_truncated : nat;
}.

Definition empty_report : ToolLeaseReconcileReport :=
  {| lr_examined_loaded_optional := 0; lr_retained_by_root := 0; lr_retained_by_persistent_source := 0;
     lr_released_to_warm := 0; lr_released_tools := []; lr_released_tools_truncated := 0 |}.

Definition record_retained (r : ToolLeaseReconcileReport) : ToolLeaseReconcileReport :=
  {| lr_examined_loaded_optional := S (lr_examined_loaded_optional r);
     lr_retained_by_root := S (lr_retained_by_root r);
     lr_retained_by_persistent_source := lr_retained_by_persistent_source r;
     lr_released_to_warm := lr_released_to_warm r; lr_released_tools := lr_released_tools r;
     lr_released_tools_truncated := lr_released_tools_truncated r |}.

Definition record_retained_persistent (r : ToolLeaseReconcileReport) : ToolLeaseReconcileReport :=
  {| lr_examined_loaded_optional := S (lr_examined_loaded_optional r);
     lr_retained_by_root := lr_retained_by_root r;
     lr_retained_by_persistent_source := S (lr_retained_by_persistent_source r);
     lr_released_to_warm := lr_released_to_warm r; lr_released_tools := lr_released_tools r;
     lr_released_tools_truncated := lr_released_tools_truncated r |}.

(** [discovery::truncate_chars]. *)
Definition truncate_chars (s : text) (max_chars : nat) : text :=
  if length s <=? max_chars then s else take (max_chars - 1) s ++ [8230%N].

Definition record_released (tool_name : text) (r : ToolLeaseReconcileReport) : ToolLeaseReconcileReport :=
  let room := length (lr_released_tools r) <? MAX_TOOL_LEASE_REPORT_NAMES in
  {| lr_examined_loaded_optional := S (lr_examined_loaded_optional r);
     lr_retained_by_root := lr_retained_by_root r;
     lr_retained_by_persistent_source := lr_retained_by_persistent_source r;
     lr_released_to_warm := S (lr_released_to_warm r);
     lr_released_tools :=
       if room then lr_released_tools r ++ [truncate_chars tool_name MAX_TOOL_REQUIREMENT_NAME_CHARS]
       else lr_released_tools r;
     lr_released_tools_truncated :=
       if room then lr_released_tools_truncated r else S (lr_released_tools_truncated r) |}.

Section registry.
Context `{JT : JsonText}.

(** [inflight] holds the cancellation tokens by number. *)
Record Entry : Type := {
  en_manifest : CapabilityManifest;
  en_tool_specs : list DeclaredTool;
  en_run_state : CapabilityRunState;
  en_run_lock : bool;
  en_tool_states : gmap text CapabilityToolState;
  en_active : bool;
  en_inflight : list N;
}.

Record CapabilityRegistry : Type := {
  cr_inner : gmap text Entry;
  cr_state : CapabilityStateAuthority;
  cr_reserved : gset text;
  cr_generation : N;
  cr_catalog_version : N;
  cr_tick : N;
  cr_idle_to_warm_ticks : N;
  cr_warm_to_unload_ticks : N;
}.

Definition with_idle_thresholds (idle_to_warm_ticks warm_to_unload_ticks : N) : CapabilityRegistry :=
  {| cr_inner := ∅; cr_state := authority_new; cr_reserved := ∅; cr_generation := 0; cr_catalog_version := 0;
     cr_tick := 0; cr_idle_to_warm_ticks := idle_to_warm_ticks; cr_warm_to_unload_ticks := warm_to_unload_ticks |}.

Definition registry_default : CapabilityRegistry := with_idle_thresholds 8 24.

(** ** Record updates *)

Definition set_inner (inner : gmap text Entry) (r : CapabilityRegistry) : CapabilityRegistry :=
  {| cr_inner := inner; cr_state := cr_state r; cr_reserved := cr_reserved r; cr_generation := cr_generation r;
     cr_catalog_version := cr_catalog_version r; cr_tick := cr_tick r;
     cr_idle_to_warm_ticks := cr_idle_to_warm_ticks r; cr_warm_to_unload_ticks := cr_warm_to_unload_ticks r |}.

Definition set_state (state : CapabilityStateAuthority) (r : CapabilityRegistry) : CapabilityRegistry :=
  {| cr_inner := cr_inner r; cr_state := state; cr_reserved := cr_reserved r; cr_generation := cr_generation r;
     cr_catalog_version := cr_catalog_version r; cr_tick := cr_tick r;
     cr_idle_to_warm_ticks := cr_idle_to_warm_ticks r; cr_warm_to_unload_ticks := cr_warm_to_unload_ticks r |}.

Definition set_tick (tick : N) (r : CapabilityRegistry) : CapabilityRegistry :=
  {| cr_inner := cr_inner r; cr_state := cr_state r; cr_reserved := cr_reserved r; cr_generation := cr_generation r;
     cr_catalog_version := cr_catalog_version r; cr_tick := tick;
     cr_idle_to_warm_ticks := cr_idle_to_warm_ticks r; cr_warm_to_unload_ticks := cr_warm_to_unload_ticks r |}.

(** [self.generation.fetch_add(1); self.catalog_version.fetch_add(1)]. *)
Definition bump (r : CapabilityRegistry) : CapabilityRegistry :=
  {| cr_inner := cr_inner r; cr_state := cr_state r; cr_reserved := cr_reserved r;
     cr_generation := wrapping_succ (cr_generation r);
     cr_catalog_version := wrapping_succ (cr_catalog_version r); cr_tick := cr_tick r;
     cr_idle_to_warm_ticks := cr_idle_to_warm_ticks r; cr_warm_to_unload_ticks := cr_warm_to_unload_ticks r |}.

Definition bump_catalog (r : CapabilityRegistry) : CapabilityRegistry :=
  {| cr_inner := cr_inner r; cr_state := cr_state r; cr_reserved := cr_reserved r; cr_generation := cr_generation r;
     cr_catalog_version := wrapping_succ (cr_catalog_version r); cr_tick := cr_tick r;
     cr_idle_to_warm_ticks := cr_idle_to_warm_ticks r; cr_warm_to_unload_ticks := cr_warm_to_unload_ticks r |}.

Definition update_entry (f : Entry -> Entry) (id : text) (r : CapabilityRegistry) : CapabilityRegistry :=
  set_inner (alter f id (cr_inner r)) r.

Definition set_tool_states (states : gmap text CapabilityToolState) (e : Entry) : Entry :=
  {| en_manifest := en_manifest e; en_tool_specs := en_tool_specs e; en_run_state := en_run_state e;
     en_run_lock := en_run_lock e; en_tool_states := states; en_active := en_active e; en_inflight := en_inflight e |}.

Definition set_run (run_state : CapabilityRunState) (locked : bool) (e : Entry) : Entry :=
  {| en_manifest := en_manifest e; en_tool_specs := en_tool_specs e; en_run_state := run_state;
     en_run_lock := locked; en_tool_states := en_tool_states e; en_active := en_active e; en_inflight := en_inflight e |}.

Definition set_calls (active : bool) (inflight : list N) (e : Entry) : Entry :=
  {| en_manifest := en_manifest e; en_tool_specs := en_tool_specs e; en_run_state := en_run_state e;
     en_run_lock := en_run_lock e; en_tool_states := en_tool_states e; en_active := active; en_inflight := inflight |}.

(** ** Lookup and registration *)

Definition entry_owns (tool_name : text) (e : Entry) : bool := bool_decide (tool_name ∈ dt_name <$> en_tool_specs e).

Definition owner_in (inner : gmap text Entry) (tool_name : text) : option text :=
  (fun found => found.2.1) <$> list_find (fun p => Is_true (entry_owns tool_name p.2)) (map_to_list inner).

Definition owner_of (tool_name : text) (r : CapabilityRegistry) : option text := owner_in (cr_inner r) tool_name.

Definition spec_named (tool_name : text) (specs : list DeclaredTool) : option DeclaredTool :=
  snd <$> list_find (fun spec => dt_name spec = tool_name) specs.

Definition tool_spec (tool_name : text) (r : CapabilityRegistry) : option DeclaredTool :=
  head (omap (fun p => spec_named tool_name (en_tool_specs p.2)) (map_to_list (cr_inner r))).

Definition reserve_names (names : list text) (r : CapabilityRegistry) : CapabilityRegistry :=
  {| cr_inner := cr_inner r; cr_state := cr_state r; cr_reserved := cr_reserved r ∪ list_to_set names;
     cr_generation := cr_generation r; cr_catalog_version := cr_catalog_version r; cr_tick := cr_tick r;
     cr_idle_to_warm_ticks := cr_idle_to_warm_ticks r; cr_warm_to_unload_ticks := cr_warm_to_unload_ticks r |}.

Definition admission_context (r : CapabilityRegistry) : AdmissionContext :=
  {| ax_is_registered := fun id => bool_decide (is_Some (cr_inner r !! id));
     ax_reserved_names := cr_reserved r;
     ax_owner_of_tool := owner_in (cr_inner r) |}.

Definition new_entry (manifest : CapabilityManifest) (tool_specs : list DeclaredTool) : Entry :=
  {| en_manifest := manifest; en_tool_specs := tool_specs; en_run_state := RsStopped; en_run_lock := false;
     en_tool_states := ∅; en_active := false; en_inflight := [] |}.

Definition register (manifest : CapabilityManifest) (tool_specs : list DeclaredTool) :
    M CapabilityRegistry AgentError unit := fun r =>
  match validate_static manifest tool_specs with
  | Err error => (Err error, r)
  | Ok _ =>
      match validate_collisions manifest (dt_name <$> tool_specs) (admission_context r) with
      | Err error => (Err error, r)
      | Ok _ =>
          match register_state (cm_id manifest)
                  {| cs_status := initial_status manifest; cs_activation := initial_activation manifest |}
                  (cm_permissions manifest) (cr_state r) with
          | (Err error, state) => (Err error, set_state state r)
          | (Ok _, state) =>
              (Ok tt, bump (set_inner (<[cm_id manifest := new_entry manifest tool_specs]> (cr_inner r)) (set_state state r)))
          end
      end
  end.

Definition activation_of (id : text) (r : CapabilityRegistry) : CapabilityActivation :=
  default ActivationDisabled (activation id (cr_state r)).

(** [.is_some_and(|state| state.activation.usable())]. *)
Definition is_usable (id : text) (r : CapabilityRegistry) : bool :=
  match activation id (cr_state r) with Some a => usable a | None => false end.

(** ** Activation

    The critical section that records the transition; the answer is whether the service must
    settle, with the tokens to cancel.  A settling transition keeps [run_lock] until
    [set_activation_settle]. *)

Definition set_activation_record (id : text) (next : CapabilityActivation) :
    M CapabilityRegistry AgentError (bool * list N) := fun r =>
  match cr_inner r !! id with
  | None => (invalid "capability is not registered", r)
  | Some entry =>
      match set_activation id next (cr_state r) with
      | (Err error, state) => (Err error, set_state state r)
      | (Ok _, state) =>
          let becoming_unusable := negb (usable next) in
          let entry' := set_run (en_run_state entry) becoming_unusable
            (set_calls (en_active entry) []
              (if becoming_unusable then set_tool_states ∅ entry else entry)) in
          (Ok (becoming_unusable, en_inflight entry),
           bump (set_inner (<[id := entry']> (cr_inner r)) (set_state state r)))
      end
  end.

(** After [capability.stop().await]. *)
Definition set_activation_settle (id : text) (outcome : AgentResult unit) (r : CapabilityRegistry) : CapabilityRegistry :=
  update_entry (set_run (if is_Ok outcome then RsStopped else RsFailed) false) id r.

(** The whole method when nothing interleaves, [stop]'s answer given. *)
Definition set_registry_activation (id : text) (next : CapabilityActivation) (stop : AgentResult unit) :
    M CapabilityRegistry AgentError (list N) := fun r =>
  match set_activation_record id next r with
  | (Err error, r') => (Err error, r')
  | (Ok (false, _), r') => (Ok [], r')
  | (Ok (true, inflight), r') =>
      let r'' := set_activation_settle id stop r' in
      match stop with Ok _ => (Ok inflight, r'') | Err error => (Err error, r'') end
  end.

(** ** The model surface *)

Definition is_loaded (e : Entry) (name : text) : bool :=
  match en_tool_states e !! name with
  | Some state => bool_decide (ts_lifecycle state = LcLoaded)
  | None => false
  end.

(** The specs and generation that one snapshot of the state map and [inner] give. *)
Definition loaded_surface (r : CapabilityRegistry) : list DeclaredTool * N :=
  (map_to_list (cr_inner r) ≫= (fun p =>
     if is_usable (cm_id (en_manifest p.2)) r && bool_decide (en_tool_states p.2 <> ∅)
     then filter (fun spec => Is_true (is_loaded p.2 (dt_name spec))) (en_tool_specs p.2)
     else []),
   cr_generation r).

Definition loaded_tool_specs (r : CapabilityRegistry) : list DeclaredTool := (loaded_surface r).1.

(** [load_tool_with_source] reads the owner and its activation before it takes the surface gate; the
    rest is one critical section. *)
Definition load_apply (owner : text) (activation : CapabilityActivation) (tool_name : text) (persistent : bool) :
    M CapabilityRegistry AgentError unit := fun r =>
  match cr_inner r !! owner with
  | None => (Err (Tool (txt "unknown tool")), r)
  | Some entry =>
      if negb (usable activation) then (invalid "capability is not enabled; enable it before loading its tools", r)
      else
        let source := match en_tool_states entry !! tool_name with
                      | Some state => ts_persistent_load state | None => false end in
        let state := {| ts_lifecycle := LcLoaded; ts_last_used_tick := cr_tick r;
                        ts_persistent_load := source || persistent |} in
        (Ok tt, bump (update_entry (fun e => set_tool_states (<[tool_name := state]> (en_tool_states e)) e) owner r))
  end.

Definition load_tool_with_source (tool_name : text) (persistent : bool) : M CapabilityRegistry AgentError unit := fun r =>
  match owner_of tool_name r with
  | None => (Err (Tool (txt "unknown tool")), r)
  | Some owner => load_apply owner (activation_of owner r) tool_name persistent r
  end.

Definition load_tool (tool_name : text) : M CapabilityRegistry AgentError unit := load_tool_with_source tool_name true.
Definition load_tool_for_lease (tool_name : text) : M CapabilityRegistry AgentError unit :=
  load_tool_with_source tool_name false.

Definition unload_tool (tool_name : text) : M CapabilityRegistry AgentError unit := fun r =>
  match owner_of tool_name r with
  | None => (Err (Tool (txt "unknown tool")), r)
  | Some owner =>
      (Ok tt, bump (update_entry (fun e => set_tool_states (delete tool_name (en_tool_states e)) e) owner r))
  end.

Definition entry_tool_state (r : CapabilityRegistry) (e : Entry) (tool_name : text) : ToolLifecycle :=
  if en_active e then LcActive
  else if is_usable (cm_id (en_manifest e)) r
       then from_option ts_lifecycle LcAvailable (en_tool_states e !! tool_name)
       else LcAvailable.

Definition tool_state (tool_name : text) (r : CapabilityRegistry) : option ToolLifecycle :=
  (fun found => entry_tool_state r found.2.2 tool_name)
  <$> list_find (fun p => Is_true (entry_owns tool_name p.2)) (map_to_list (cr_inner r)).

(** ** Invocations *)

Definition mark_active (tool_name : text) (cancel : N) : M CapabilityRegistry AgentError bool := fun r =>
  match owner_of tool_name r with
  | None => (Ok false, r)
  | Some owner =>
      if negb (is_usable owner r) then (Ok false, r)
      else
        let touch state := {| ts_lifecycle := ts_lifecycle state; ts_last_used_tick := cr_tick r;
                              ts_persistent_load := ts_persistent_load state |} in
        (Ok true,
         bump_catalog (update_entry (fun e =>
           set_tool_states (alter touch tool_name (en_tool_states e)) (set_calls true (en_inflight e ++ [cancel]) e))
           owner r))
  end.

Definition mark_idle (tool_name : text) (cancel : N) : M CapabilityRegistry AgentError unit := fun r =>
  match owner_of tool_name r with
  | None => (Ok tt, r)
  | Some owner =>
      (Ok tt, bump_catalog (update_entry (fun e => set_calls false (filter (fun token => token <> cancel) (en_inflight e)) e)
                owner r))
  end.

(** ** Ageing *)

Definition spec_schema_bytes (spec : DeclaredTool) : nat := schema_bytes (dt_input_schema spec).

(** [bytes_by_name]: the names of one entry are distinct. *)
Definition bytes_by_name (e : Entry) (name : text) : option nat := spec_schema_bytes <$> spec_named name (en_tool_specs e).

Definition loaded_names (e : Entry) : list text :=
  (filter (fun p => ts_lifecycle p.2 = LcLoaded) (map_to_list (en_tool_states e))).*1.

Definition loaded_bytes_locked (r : CapabilityRegistry) : nat :=
  sum_list (map_to_list (cr_inner r) ≫= (fun p =>
    omap (fun name => spec_schema_bytes <$> tool_spec name r) (loaded_names p.2))).

(** A tool the pressure path may cool: not a root, not pinned by the host, loaded, idle long enough. *)
Definition may_cool (tick idle_to_warm : N) (roots : list text) (name : text) (state : CapabilityToolState) : bool :=
  negb (bool_decide (name ∈ roots) || ts_persistent_load state || negb (bool_decide (ts_lifecycle state = LcLoaded)))
  && negb (tick - ts_last_used_tick state <? idle_to_warm)%N.

(** [(name, idle, bytes)]. *)
Definition aging_row (tick idle_to_warm : N) (roots : list text) (e : Entry) (p : text * CapabilityToolState) :
    option (text * N * nat) :=
  if may_cool tick idle_to_warm roots p.1 p.2
  then (fun bytes => (p.1, (tick - ts_last_used_tick p.2)%N, bytes)) <$> bytes_by_name e p.1
  else None.

Definition aging_le (a b : text * N * nat) : Prop :=
  ((b.1.2 <? a.1.2)%N || ((a.1.2 =? b.1.2)%N && text_le a.1.1 b.1.1)) = true.

#[export] Instance aging_le_dec : RelDecision aging_le.
Proof. intros a b. unfold aging_le. apply _. Defined.

Definition aging (tick idle_to_warm : N) (roots : list text) (inner : gmap text Entry) : list (text * N * nat) :=
  merge_sort aging_le (map_to_list inner ≫= (fun p =>
    omap (aging_row tick idle_to_warm roots p.2) (map_to_list (en_tool_states p.2)))).

Definition with_lifecycle (lifecycle : ToolLifecycle) (state : CapabilityToolState) : CapabilityToolState :=
  {| ts_lifecycle := lifecycle; ts_last_used_tick := ts_last_used_tick state;
     ts_persistent_load := ts_persistent_load state |}.

Definition cool_in (name : text) (e : Entry) : Entry := set_tool_states (alter (with_lifecycle LcWarm) name (en_tool_states e)) e.

Definition set_tool_warm (inner : gmap text Entry) (name : text) : option (gmap text Entry) :=
  (fun found => alter (cool_in name) found.2.1 inner)
  <$> list_find (fun p => Is_true (is_loaded p.2 name)) (map_to_list inner).

Fixpoint cool_down (inner : gmap text Entry) (running_total : nat) (rows : list (text * N * nat)) : gmap text Entry * bool :=
  match rows with
  | [] => (inner, false)
  | (name, _, bytes) :: rows' =>
      if running_total <=? SURFACE_LOW_WATERMARK_BYTES then (inner, false)
      else match set_tool_warm inner name with
           | Some inner' => ((cool_down inner' (running_total - bytes) rows').1, true)
           | None => cool_down inner running_total rows'
           end
  end.

(** A warm tool the idle path unloads. *)
Definition may_unload (tick warm_to_unload : N) (roots : list text) (name : text) (state : CapabilityToolState) : bool :=
  negb (bool_decide (name ∈ roots)) && negb (ts_persistent_load state) && bool_decide (ts_lifecycle state = LcWarm)
  && (warm_to_unload <=? tick - ts_last_used_tick state)%N.

Definition unload_entry (tick warm_to_unload : N) (roots : list text) (e : Entry) : Entry :=
  set_tool_states (map_imap (fun name state =>
    Some (if may_unload tick warm_to_unload roots name state then with_lifecycle LcUnloaded state else state))
    (en_tool_states e)) e.

Definition any_unload (tick warm_to_unload : N) (roots : list text) (inner : gmap text Entry) : bool :=
  existsb (fun p => existsb (fun q => may_unload tick warm_to_unload roots q.1 q.2) (map_to_list (en_tool_states p.2)))
    (map_to_list inner).

(** The pressure path of the safe point. *)
Definition relieve_pressure (tick : N) (roots : list text) (total : nat) (r : CapabilityRegistry) : gmap text Entry * bool :=
  if (0 <? SURFACE_SOFT_HIGH_BYTES) && (SURFACE_SOFT_HIGH_BYTES <? total)
  then cool_down (cr_inner r) total (aging tick (cr_idle_to_warm_ticks r) roots (cr_inner r))
  else (cr_inner r, false).

(** Byte counts are sums of schema lengths in memory, far below [usize::MAX]: [saturating_add] is [+]. *)
Definition gc_with_pressure (roots : list text) (external_loaded_bytes : nat) (r : CapabilityRegistry) : CapabilityRegistry :=
  let tick := wrapping_succ (cr_tick r) in
  let '(inner, cooled) := relieve_pressure tick roots (loaded_bytes_locked r + external_loaded_bytes) r in
  let unloading := any_unload tick (cr_warm_to_unload_ticks r) roots inner in
  let r' := set_inner (unload_entry tick (cr_warm_to_unload_ticks r) roots <$> inner) (set_tick tick r) in
  if cooled || unloading then bump r' else r'.

Definition gc (roots : list text) (r : CapabilityRegistry) : CapabilityRegistry := gc_with_pressure roots 0 r.

(** ** Lease reconciliation *)

(** [(owner, name)] by name, then owner. *)
Definition candidate_le (a b : text * text) : Prop :=
  (bool_decide (a.2 = b.2) && text_le a.1 b.1) || (negb (bool_decide (a.2 = b.2)) && text_le a.2 b.2) = true.

#[export] Instance candidate_le_dec : RelDecision candidate_le.
Proof. intros a b. unfold candidate_le. apply _. Defined.

Definition lease_candidates (inner : gmap text Entry) : list (text * text) :=
  merge_sort candidate_le (map_to_list inner ≫= (fun p => (fun name => (p.1, name)) <$> loaded_names p.2)).

Definition pinned (inner : gmap text Entry) (owner name : text) : bool :=
  match inner !! owner ≫= (fun e => en_tool_states e !! name) with
  | Some state => ts_persistent_load state
  | None => false
  end.

Definition reconcile_candidate (roots : list text) (acc : gmap text Entry * bool * ToolLeaseReconcileReport)
    (candidate : text * text) : gmap text Entry * bool * ToolLeaseReconcileReport :=
  let '(inner, changed, report) := acc in
  let '(owner, name) := candidate in
  if pinned inner owner name then (inner, changed, record_retained_persistent report)
  else if bool_decide (name ∈ roots) then (inner, changed, record_retained report)
  else match inner !! owner ≫= (fun e => en_tool_states e !! name) with
       | Some _ => (alter (cool_in name) owner inner, true, record_released name report)
       | None => (inner, changed, report)
       end.

Definition reconcile_leases (roots : list text) (r : CapabilityRegistry) : ToolLeaseReconcileReport * CapabilityRegistry :=
  let '(inner, changed, report) :=
    fold_left (reconcile_candidate roots) (lease_candidates (cr_inner r)) (cr_inner r, false, empty_report) in
  (report, if changed : bool then bump (set_inner inner r) else r).

(** ** Checkpoints *)

Definition retained_names (e : Entry) : list text :=
  (filter (fun p => ts_lifecycle p.2 = LcLoaded \/ ts_lifecycle p.2 = LcWarm) (map_to_list (en_tool_states e))).*1.

Definition name_le (a b : text) : Prop := text_le a b = true.

#[export] Instance name_le_dec : RelDecision name_le.
Proof. intros a b. unfold name_le. apply _. Defined.

Definition snapshot_le (a b : CapabilitySnapshot) : Prop := name_le (sn_id a) (sn_id b).

#[export] Instance snapshot_le_dec : RelDecision snapshot_le.
Proof. intros a b. unfold snapshot_le. apply _. Defined.

Definition entry_snapshot (r : CapabilityRegistry) (p : text * Entry) : CapabilitySnapshot :=
  let loaded_tools := merge_sort name_le (retained_names p.2) in
  {| sn_id := p.1; sn_activation := activation_of p.1 r; sn_loaded := bool_decide (loaded_tools <> []);
     sn_loaded_tools := loaded_tools |}.

Definition registry_snapshot (r : CapabilityRegistry) : list CapabilitySnapshot :=
  merge_sort snapshot_le (entry_snapshot r <$> map_to_list (cr_inner r)).

Definition declared (e : Entry) (name : text) : Prop := name ∈ dt_name <$> en_tool_specs e.

#[export] Instance declared_dec e name : Decision (declared e name).
Proof. unfold declared. apply _. Defined.

Definition persistent_tools (e : Entry) : list text :=
  (filter (fun p => ts_persistent_load p.2 = true) (map_to_list (en_tool_states e))).*1.

Definition restored_tool (persistent : list text) (name : text) : text * CapabilityToolState :=
  (name, {| ts_lifecycle := LcLoaded; ts_last_used_tick := 0; ts_persistent_load := bool_decide (name ∈ persistent) |}).

(** The surface one row rebuilds, for the activation that results. *)
Definition restored_states (effective : CapabilityActivation) (row : CapabilitySnapshot) (e : Entry) :
    gmap text CapabilityToolState :=
  let persistent := persistent_tools e in
  if negb (usable effective) then ∅
  else
    let states : gmap text CapabilityToolState :=
      if bool_decide (sn_loaded_tools row <> [])
      then list_to_map (restored_tool persistent <$> filter (declared e) (sn_loaded_tools row))
      else if sn_loaded row
      then list_to_map (restored_tool persistent <$> (dt_name <$> en_tool_specs e))
      else ∅ in
    (* [entry(name).or_insert] keeps what is there. *)
    states ∪ list_to_map (restored_tool persistent <$> filter (declared e) persistent).

Definition restore_row (live : gmap text CapabilityState) (acc : gmap text Entry * list (text * CapabilityState))
    (row : CapabilitySnapshot) : gmap text Entry * list (text * CapabilityState) :=
  let '(inner, restored) := acc in
  match inner !! sn_id row with
  | None => (inner, restored)
  | Some e =>
      match live !! sn_id row with
      | None => (<[sn_id row := set_tool_states ∅ e]> inner, restored)
      | Some state =>
          let effective := restore_activation_meet (cs_activation state) (sn_activation row) in
          (<[sn_id row := set_tool_states (restored_states effective row e) e]> inner,
           restored ++ [(sn_id row, {| cs_status := cs_status state; cs_activation := effective |})])
      end
  end.

Definition registry_restore (rows : list CapabilitySnapshot) (r : CapabilityRegistry) : nat * CapabilityRegistry :=
  let '(inner, restored) := fold_left (restore_row (ca_inner (cr_state r))) rows (cr_inner r, []) in
  (length restored, bump (set_inner inner (set_state (restore restored (cr_state r)) r))).

(** ** Service lifecycle *)

Definition startable (run_state : CapabilityRunState) : bool :=
  match run_state with RsStopped | RsFailed => true | _ => false end.

(** [ensure_started] up to [capability.start()]: whether it has to be called.  [live] is the probe. *)
Definition ensure_started_begin (id : text) (live : bool) : M CapabilityRegistry AgentError bool := fun r =>
  match cr_inner r !! id with
  | None => (invalid "capability is not registered", r)
  | Some entry =>
      match en_run_state entry with
      | RsStarting | RsStopping => (invalid "capability cannot start now", r)
      | run_state =>
          if bool_decide (run_state = RsStarted) && live then (Ok false, r)
          else
            let r' := if bool_decide (run_state = RsStarted)
                      then update_entry (set_run RsFailed (en_run_lock entry)) id r else r in
            if negb (usable (activation_of id r)) then (invalid "capability is not enabled; enable it before use", r')
            else (Ok true, update_entry (set_run RsStarting true) id r')
      end
  end.

Definition ensure_started_finish (id : text) (outcome : AgentResult unit) (r : CapabilityRegistry) : CapabilityRegistry :=
  update_entry (set_run (if is_Ok outcome then RsStarted else RsFailed) false) id r.

Definition ensure_started (id : text) (live : bool) (start : AgentResult unit) : M CapabilityRegistry AgentError unit := fun r =>
  match ensure_started_begin id live r with
  | (Err error, r') => (Err error, r')
  | (Ok false, r') => (Ok tt, r')
  | (Ok true, r') => (start, ensure_started_finish id start r')
  end.

Definition eager_ids (r : CapabilityRegistry) : list text :=
  (filter (fun p => Is_true (is_usable (cm_id (en_manifest p.2)) r && bool_decide (cm_lifecycle (en_manifest p.2) = Eager)
                             && startable (en_run_state p.2))) (map_to_list (cr_inner r))).*1.

Fixpoint start_each (ids : list text) (live : text -> bool) (start : text -> AgentResult unit) :
    M CapabilityRegistry AgentError unit :=
  match ids with
  | [] => ret tt
  | id :: ids' => do_ ensure_started id (live id) (start id);; start_each ids' live start
  end.

Definition start_eager (live : text -> bool) (start : text -> AgentResult unit) : M CapabilityRegistry AgentError unit :=
  fun r => start_each (eager_ids r) live start r.

Definition record_poisoned (id : text) (r : CapabilityRegistry) : CapabilityRegistry :=
  if negb (is_usable id r) then r
  else update_entry (fun e => if bool_decide (en_run_state e = RsStarted) then set_run RsFailed (en_run_lock e) e else e) id r.

Definition stop_begin (id : text) (r : CapabilityRegistry) : CapabilityRegistry := update_entry (set_run RsStopping true) id r.
Definition stop_finish (id : text) (outcome : AgentResult unit) (r : CapabilityRegistry) : CapabilityRegistry :=
  update_entry (set_run (if is_Ok outcome then RsStopped else RsFailed) false) id r.

Definition stop_all (stop : text -> AgentResult unit) (r : CapabilityRegistry) : list AgentError * CapabilityRegistry :=
  fold_left (fun acc id =>
      (match stop id with Ok _ => acc.1 | Err error => acc.1 ++ [error] end,
       stop_finish id (stop id) (stop_begin id acc.2)))
    (map_to_list (cr_inner r)).*1 ([], r).

(** ** One tool call

    [CapabilityAwareDispatcher::execute] for a tool a capability owns, up to the invocation; what the
    call may touch is fixed here from the registered grant. *)

Inductive WorkspaceView : Type := NoWorkspace | ReadOnlyWorkspace | StagedOnlyWorkspace.

Record CapabilityInvocationContext : Type := {
  ic_granted_permissions : list text;
  ic_workspace : WorkspaceView;
  ic_artifacts : bool;
}.

Definition workspace_view (wired : bool) (grant : list text) : WorkspaceView :=
  if negb wired then NoWorkspace
  else if bool_decide (WORKSPACE_WRITE ∈ grant) then StagedOnlyWorkspace
  else if bool_decide (WORKSPACE_READ ∈ grant) then ReadOnlyWorkspace
  else NoWorkspace.

Definition invocation_context (wired : bool) (grant : list text) : CapabilityInvocationContext :=
  {| ic_granted_permissions := grant; ic_workspace := workspace_view wired grant;
     ic_artifacts := wired && existsb (starts_with (txt "artifact")) grant |}.

Definition admit_call (wired : bool) (tool_name : text) (has_effect_context : bool) (cancel : N) (live : bool)
    (start : AgentResult unit) : M CapabilityRegistry AgentError CapabilityInvocationContext := fun r =>
  match owner_of tool_name r with
  | None => (Err (Tool (txt "unknown tool")), r)
  | Some id =>
      let effectful := match tool_spec tool_name r with
                       | Some spec => negb (bool_decide (dt_risk spec = RiskReadOnly)) | None => false end in
      if negb (eqb effectful has_effect_context) then (invalid "capability tool and Core-issued effect context disagree", r)
      else match granted_permissions id (cr_state r), activation id (cr_state r) with
           | None, _ | _, None => (Err (Tool (txt "unknown tool")), r)
           | Some grant, Some a =>
               if negb (usable a) then (Err (Tool (txt "capability is not enabled; enable it before invoking its tools")), r)
               else match ensure_started id live start r with
                    | (Err error, r') => (Err error, r')
                    | (Ok _, r') =>
                        match mark_active tool_name cancel r' with
                        | (Err error, r'') => (Err error, r'')
                        | (Ok false, r'') => (Err (Tool (txt "capability became unusable while its tool was starting")), r'')
                        | (Ok true, r'') => (Ok (invocation_context wired grant), r'')
                        end
                    end
           end
  end.
End registry.
