(* ===== verification/CapabilitySurface.v ===== *)
(** The invariant of the capability registry and what it says of the model surface: every tool on
    it was declared under admission by the one capability that owns its name, which is enabled. *)

From S2P Require Import Prelude Text Jcs Operation Intent OutputBroker Capability Plugin CapabilityTheorems CapabilityRegistry.

(** ** The calls that reach a registry

    Each is one critical section.  [RoLoadStale] is a load whose activation was read before other
    calls, as [load_tool_with_source] reads it before it takes the surface gate. *)

Section steps.
Context `{JT : JsonText}.

Inductive RegistryOp : Type :=
| RoRegister (manifest : CapabilityManifest) (specs : list DeclaredTool)
| RoReserve (names : list text)
| RoActivate (id : text) (next : CapabilityActivation)
| RoSettle (id : text) (outcome : AgentResult unit)
| RoLoad (name : text) (persistent : bool)
| RoLoadStale (name : text) (seen : CapabilityActivation) (persistent : bool)
| RoUnload (name : text)
| RoMarkActive (name : text) (cancel : N)
| RoMarkIdle (name : text) (cancel : N)
| RoGc (roots : list text) (external_loaded_bytes : nat)
| RoReconcile (roots : list text)
| RoRestore (rows : list CapabilitySnapshot)
| RoStart (id : text) (live : bool)
| RoStarted (id : text) (outcome : AgentResult unit)
| RoStop (id : text)
| RoStopped (id : text) (outcome : AgentResult unit)
| RoPoisoned (id : text).

Definition registry_step (op : RegistryOp) (r : CapabilityRegistry) : CapabilityRegistry :=
  match op with
  | RoRegister manifest specs => (register manifest specs r).2
  | RoReserve names => reserve_names names r
  | RoActivate id next => (set_activation_record id next r).2
  | RoSettle id outcome => set_activation_settle id outcome r
  | RoLoad name persistent => (load_tool_with_source name persistent r).2
  | RoLoadStale name seen persistent =>
      match owner_of name r with Some owner => (load_apply owner seen name persistent r).2 | None => r end
  | RoUnload name => (unload_tool name r).2
  | RoMarkActive name cancel => (mark_active name cancel r).2
  | RoMarkIdle name cancel => (mark_idle name cancel r).2
  | RoGc roots external => gc_with_pressure roots external r
  | RoReconcile roots => (reconcile_leases roots r).2
  | RoRestore rows => (registry_restore rows r).2
  | RoStart id live => (ensure_started_begin id live r).2
  | RoStarted id outcome => ensure_started_finish id outcome r
  | RoStop id => stop_begin id r
  | RoStopped id outcome => stop_finish id outcome r
  | RoPoisoned id => record_poisoned id r
  end.

Definition registry_run (ops : list RegistryOp) (r : CapabilityRegistry) : CapabilityRegistry :=
  fold_left (fun r op => registry_step op r) ops r.

(** ** Entries that only change their mechanics

    Under [quiet] the calls in flight stay too. *)

Section quiet.
Context (quiet : Prop).

Record kin (e e' : Entry) : Prop := {
  kin_inflight : quiet -> en_inflight e' = en_inflight e;
  kin_manifest : en_manifest e' = en_manifest e;
  kin_specs : en_tool_specs e' = en_tool_specs e;
  kin_states : forall name, is_Some (en_tool_states e' !! name) ->
      is_Some (en_tool_states e !! name) \/ declared e name;
}.

Lemma kin_refl e : kin e e.
Proof. split; auto. Qed.

Lemma kin_trans e1 e2 e3 : kin e1 e2 -> kin e2 e3 -> kin e1 e3.
Proof.
  intros [I1 M1 S1 T1] [I2 M2 S2 T2]. split; [intros q; rewrite I2, I1 by done; done|congruence..|]. intros name H.
  destruct (T2 name H) as [H2|H2]; [by apply T1|]. right. unfold declared in *. congruence.
Qed.

Definition kin_inner (m m' : gmap text Entry) : Prop := forall id, option_Forall2 kin (m !! id) (m' !! id).

Lemma option_kin_refl o : option_Forall2 kin o o.
Proof. destruct o; constructor. apply kin_refl. Qed.

Lemma kin_inner_refl m : kin_inner m m.
Proof. intros id. apply option_kin_refl. Qed.

Lemma kin_inner_trans m1 m2 m3 : kin_inner m1 m2 -> kin_inner m2 m3 -> kin_inner m1 m3.
Proof.
  intros H1 H2 id. specialize (H1 id). specialize (H2 id). destruct H1; inversion H2; subst; constructor.
  by eapply kin_trans.
Qed.

Lemma kin_inner_alter f id m : (forall e, m !! id = Some e -> kin e (f e)) -> kin_inner m (alter f id m).
Proof.
  intros H id'. destruct (decide (id' = id)) as [->|Hne].
  - rewrite lookup_alter_eq. destruct (m !! id) eqn:E; constructor. by apply H.
  - rewrite lookup_alter_ne by done. apply option_kin_refl.
Qed.

Lemma kin_inner_insert id e e' m : m !! id = Some e -> kin e e' -> kin_inner m (<[id := e']> m).
Proof.
  intros Hid H id'. destruct (decide (id' = id)) as [->|Hne].
  - rewrite lookup_insert_eq, Hid. by constructor.
  - rewrite lookup_insert_ne by done. apply option_kin_refl.
Qed.

Lemma kin_inner_fmap f m : (forall e, kin e (f e)) -> kin_inner m (f <$> m).
Proof. intros H id. rewrite lookup_fmap. destruct (m !! id); constructor. apply H. Qed.

Lemma kin_set_states states e :
  (forall name, is_Some (states !! name) -> is_Some (en_tool_states e !! name) \/ declared e name) ->
  kin e (set_tool_states states e).
Proof. by split. Qed.

Lemma kin_set_run run_state locked e : kin e (set_run run_state locked e).
Proof. by split; [..|auto]. Qed.

Lemma kin_set_calls active inflight e : ~ quiet -> kin e (set_calls active inflight e).
Proof. intros Hq. split; [by intros ?|done..|auto]. Qed.

Lemma kin_cool name e : kin e (cool_in name e).
Proof.
  apply kin_set_states. intros name'. left. destruct (decide (name' = name)) as [->|].
  - rewrite lookup_alter_eq, fmap_is_Some in H. done.
  - by rewrite lookup_alter_ne in H.
Qed.

Lemma kin_unload_entry tick threshold roots e : kin e (unload_entry tick threshold roots e).
Proof.
  apply kin_set_states. intros name H. left. rewrite map_lookup_imap in H.
  destruct (en_tool_states e !! name); [by eexists|by destruct H].
Qed.

(** ** The invariant *)

Record RegistryInv (r : CapabilityRegistry) : Prop := {
  ri_entry : forall id e, cr_inner r !! id = Some e ->
      cm_id (en_manifest e) = id /\ Admissible (en_manifest e) (en_tool_specs e);
  ri_state : forall id, is_Some (ca_inner (cr_state r) !! id) <-> is_Some (cr_inner r !! id);
  ri_grant : forall id e, cr_inner r !! id = Some e ->
      ca_grants (cr_state r) !! id = Some (cm_permissions (en_manifest e));
  ri_owner : forall id1 id2 e1 e2 name, cr_inner r !! id1 = Some e1 -> cr_inner r !! id2 = Some e2 ->
      declared e1 name -> declared e2 name -> id1 = id2;
  ri_states : forall id e name, cr_inner r !! id = Some e -> is_Some (en_tool_states e !! name) -> declared e name;
}.

(** A step that registers nothing. *)
Record mechanical (r r' : CapabilityRegistry) : Prop := {
  me_inner : kin_inner (cr_inner r) (cr_inner r');
  me_state : forall id, is_Some (ca_inner (cr_state r') !! id) <-> is_Some (ca_inner (cr_state r) !! id);
  me_grants : ca_grants (cr_state r') = ca_grants (cr_state r);
}.

Lemma kin_inner_Some m m' id e' : kin_inner m m' -> m' !! id = Some e' -> exists e, m !! id = Some e /\ kin e e'.
Proof. intros H Hid. specialize (H id). rewrite Hid in H. inversion H; subst. eauto. Qed.

Lemma kin_inner_dom m m' id : kin_inner m m' -> is_Some (m' !! id) <-> is_Some (m !! id).
Proof. intros H. specialize (H id). destruct H; split; intros [? ?]; eauto; discriminate. Qed.

Lemma declared_kin e e' name : kin e e' -> declared e' name <-> declared e name.
Proof. intros [_ _ H _]. unfold declared. by rewrite H. Qed.

Lemma mechanical_inv r r' : mechanical r r' -> RegistryInv r -> RegistryInv r'.
Proof.
  intros [Hk Hs Hg] [E S G O T]. split.
  - intros id e' He. destruct (kin_inner_Some _ _ _ _ Hk He) as (e & Hid & [_ M Sp _]).
    rewrite M, Sp. by apply E.
  - intros id. rewrite Hs, S. symmetry. by apply kin_inner_dom.
  - intros id e' He. destruct (kin_inner_Some _ _ _ _ Hk He) as (e & Hid & [_ M _ _]). rewrite Hg, M. by apply G.
  - intros id1 id2 e1' e2' name H1 H2.
    destruct (kin_inner_Some _ _ _ _ Hk H1) as (e1 & Hid1 & K1), (kin_inner_Some _ _ _ _ Hk H2) as (e2 & Hid2 & K2).
    rewrite (declared_kin _ _ _ K1), (declared_kin _ _ _ K2). by apply O.
  - intros id e' name He Hn. destruct (kin_inner_Some _ _ _ _ Hk He) as (e & Hid & K).
    rewrite (declared_kin _ _ _ K). destruct (kin_states _ _ K name Hn); eauto.
Qed.

Lemma mechanical_refl r : mechanical r r.
Proof. split; [apply kin_inner_refl|done..]. Qed.

Lemma mechanical_inner r r' : cr_state r' = cr_state r -> kin_inner (cr_inner r) (cr_inner r') -> mechanical r r'.
Proof. intros Hs Hk. split; [done|by rewrite Hs..]. Qed.

(** ** Every step is mechanical but a registration *)

Lemma update_mechanical f id r r' :
  cr_state r' = cr_state r -> cr_inner r' = alter f id (cr_inner r) ->
  (forall e, cr_inner r !! id = Some e -> kin e (f e)) -> mechanical r r'.
Proof. intros Hs Hi H. apply mechanical_inner; [done|]. rewrite Hi. by apply kin_inner_alter. Qed.

Lemma owner_in_Some inner name id :
  owner_in inner name = Some id -> exists e, inner !! id = Some e /\ declared e name.
Proof.
  unfold owner_in. intros H. apply fmap_Some in H as ([i p] & Hf & ->).
  apply list_find_Some in Hf as (Hl & Hown & _). apply list_elem_of_lookup_2, elem_of_map_to_list' in Hl.
  exists p.2. split; [done|]. by apply bool_decide_unpack in Hown.
Qed.

Lemma owner_in_None inner name id e : owner_in inner name = None -> inner !! id = Some e -> ~ declared e name.
Proof.
  unfold owner_in. intros H Hid Hd. apply fmap_None, list_find_None in H.
  rewrite Forall_forall in H. apply (H (id, e)); [by apply elem_of_map_to_list|]. cbn. by apply bool_decide_pack.
Qed.

Lemma load_apply_mechanical owner seen name persistent r :
  (forall e, cr_inner r !! owner = Some e -> declared e name) -> mechanical r (load_apply owner seen name persistent r).2.
Proof.
  intros Hd. unfold load_apply. destruct (cr_inner r !! owner) as [entry|] eqn:E; [|apply mechanical_refl].
  case_match; [apply mechanical_refl|].
  eapply update_mechanical; [done|done|]. cbn. intros e He. apply kin_set_states. intros name' Hn.
  destruct (decide (name' = name)) as [->|Hne]; [right; apply Hd; congruence|].
  rewrite lookup_insert_ne in Hn by done. by left.
Qed.

Lemma activate_mechanical id next r : ~ quiet -> mechanical r (set_activation_record id next r).2.
Proof.
  intros Hq. unfold set_activation_record. destruct (cr_inner r !! id) as [entry|] eqn:E; [|apply mechanical_refl].
  unfold set_activation. destruct (ca_inner (cr_state r) !! id) as [state|] eqn:Es; cbn [snd].
  - split; cbn.
    + eapply kin_inner_insert; [done|].
      eapply kin_trans; [|apply kin_set_run]. destruct (negb (usable next)).
      * eapply kin_trans; [|by apply kin_set_calls]. apply kin_set_states. intros name. rewrite lookup_empty. by intros [].
      * by apply kin_set_calls.
    + intros id'. destruct (decide (id' = id)) as [->|]; [rewrite lookup_insert_eq, Es; by split|].
      by rewrite lookup_insert_ne.
    + done.
  - by split; [apply kin_inner_refl|..].
Qed.

Lemma set_tool_warm_kin inner name inner' : set_tool_warm inner name = Some inner' -> kin_inner inner inner'.
Proof.
  unfold set_tool_warm. intros H. apply fmap_Some in H as (found & _ & ->). apply kin_inner_alter. intros. apply kin_cool.
Qed.

Lemma cool_down_kin rows inner total : kin_inner inner (cool_down inner total rows).1.
Proof.
  revert inner total. induction rows as [|[[name idle] bytes] rows IH]; intros inner total; cbn [cool_down].
  - apply kin_inner_refl.
  - case_match; [apply kin_inner_refl|]. destruct (set_tool_warm inner name) eqn:E; [|apply IH].
    eapply kin_inner_trans; [by eapply set_tool_warm_kin|apply IH].
Qed.

Lemma relieve_pressure_kin tick roots total r : kin_inner (cr_inner r) (relieve_pressure tick roots total r).1.
Proof. unfold relieve_pressure. case_match; [apply cool_down_kin|apply kin_inner_refl]. Qed.

Lemma gc_mechanical roots external r : mechanical r (gc_with_pressure roots external r).
Proof.
  apply mechanical_inner; unfold gc_with_pressure.
  - by repeat case_match.
  - pose proof (relieve_pressure_kin (wrapping_succ (cr_tick r)) roots (loaded_bytes_locked r + external) r) as Hk.
    destruct (relieve_pressure _ _ _ _) as [inner cooled]. cbn in Hk. eapply kin_inner_trans; [exact Hk|].
    case_match; apply kin_inner_fmap; intros e; apply kin_unload_entry.
Qed.

Lemma reconcile_kin roots candidates acc :
  kin_inner acc.1.1 (fold_left (reconcile_candidate roots) candidates acc).1.1.
Proof.
  revert acc. induction candidates as [|[owner name] candidates IH]; intros [[inner changed] report];
    cbn [fold_left]; [apply kin_inner_refl|].
  eapply kin_inner_trans; [|apply IH]. unfold reconcile_candidate. repeat case_match; try apply kin_inner_refl.
  apply kin_inner_alter. intros. apply kin_cool.
Qed.

Lemma reconcile_mechanical roots r : mechanical r (reconcile_leases roots r).2.
Proof.
  pose proof (reconcile_kin roots (lease_candidates (cr_inner r)) (cr_inner r, false, empty_report)) as H.
  unfold reconcile_leases. destruct (fold_left _ _ _) as [[inner changed] report]. cbn in H |- *.
  destruct changed; [|apply mechanical_refl]. by apply mechanical_inner.
Qed.

(** *** Restoring a checkpoint *)

Lemma list_to_map_restored_dom persistent names name :
  is_Some ((list_to_map (restored_tool persistent <$> names) : gmap text CapabilityToolState) !! name) -> name ∈ names.
Proof.
  intros [state H]. apply elem_of_list_to_map_2, list_elem_of_fmap in H as (name' & [= -> _] & Hin). done.
Qed.

Lemma restored_states_declared effective row e name : is_Some (restored_states effective row e !! name) -> declared e name.
Proof.
  unfold restored_states. destruct (negb (usable effective)); [rewrite lookup_empty; by intros []|].
  rewrite lookup_union_is_Some. intros [H|H].
  - case_bool_decide; [|destruct (sn_loaded row)].
    + by apply list_to_map_restored_dom, list_elem_of_filter in H as [? _].
    + by apply list_to_map_restored_dom in H.
    + rewrite lookup_empty in H. by destruct H.
  - by apply list_to_map_restored_dom, list_elem_of_filter in H as [? _].
Qed.

Lemma restore_row_kin live acc row : kin_inner acc.1 (restore_row live acc row).1.
Proof.
  destruct acc as [inner restored]. unfold restore_row. cbn [fst].
  destruct (inner !! sn_id row) as [e|] eqn:E; [|apply kin_inner_refl].
  destruct (live !! sn_id row) as [state|]; eapply kin_inner_insert; try done; apply kin_set_states; intros name Hn.
  - right. by apply restored_states_declared in Hn.
  - rewrite lookup_empty in Hn. by destruct Hn.
Qed.

Lemma restore_rows_kin live rows acc : kin_inner acc.1 (fold_left (restore_row live) rows acc).1.
Proof.
  revert acc. induction rows as [|row rows IH]; intros acc; cbn [fold_left]; [apply kin_inner_refl|].
  eapply kin_inner_trans; [apply restore_row_kin|apply IH].
Qed.

Lemma restore_one_dom inner entry id : is_Some (restore_one inner entry !! id) <-> is_Some (inner !! id).
Proof.
  unfold restore_one. destruct (inner !! entry.1) as [s|] eqn:E; [|done].
  destruct (decide (id = entry.1)) as [->|Hne]; [rewrite lookup_insert_eq, E|rewrite lookup_insert_ne by done]; split; eauto.
Qed.

Lemma restore_dom states a id : is_Some (ca_inner (restore states a) !! id) <-> is_Some (ca_inner a !! id).
Proof.
  unfold restore. cbn. generalize (ca_inner a) as inner. induction states as [|entry states IH]; intros inner; [done|].
  cbn [fold_left]. by rewrite IH, restore_one_dom.
Qed.

Lemma restore_mechanical rows r : mechanical r (registry_restore rows r).2.
Proof.
  pose proof (restore_rows_kin (ca_inner (cr_state r)) rows (cr_inner r, [])) as H.
  unfold registry_restore. destruct (fold_left _ _ _) as [inner restored]. cbn in H |- *.
  split; cbn; [done|intros; apply restore_dom|done].
Qed.

(** *** The service lifecycle *)

Lemma kin_update_mechanical f id r : (forall e, kin e (f e)) -> mechanical r (update_entry f id r).
Proof. intros H. by eapply update_mechanical. Qed.

Lemma mechanical_trans r1 r2 r3 : mechanical r1 r2 -> mechanical r2 r3 -> mechanical r1 r3.
Proof.
  intros [K1 S1 G1] [K2 S2 G2]. split; [by eapply kin_inner_trans|intros id; by rewrite S2, S1|congruence].
Qed.

Lemma start_mechanical id live r : mechanical r (ensure_started_begin id live r).2.
Proof.
  unfold ensure_started_begin. destruct (cr_inner r !! id) as [e|]; [|apply mechanical_refl].
  destruct (en_run_state e); cbn [bool_decide]; repeat case_match; try apply mechanical_refl;
    repeat (first [eapply mechanical_trans; [|apply kin_update_mechanical; intros; apply kin_set_run]
                  | apply mechanical_refl]).
Qed.

Lemma mark_active_mechanical name cancel r : ~ quiet -> mechanical r (mark_active name cancel r).2.
Proof.
  intros Hq. unfold mark_active. destruct (owner_of name r) as [owner|]; [|apply mechanical_refl].
  case_match; [apply mechanical_refl|]. eapply update_mechanical; [done|done|]. intros e _.
  eapply kin_trans; [by apply kin_set_calls|]. apply kin_set_states. cbn. intros name' [s Hs]. left.
  destruct (decide (name' = name)) as [->|Hne].
  - rewrite lookup_alter_eq in Hs. by destruct (en_tool_states e !! name).
  - rewrite lookup_alter_ne in Hs by done. eauto.
Qed.

Lemma mark_idle_mechanical name cancel r : ~ quiet -> mechanical r (mark_idle name cancel r).2.
Proof.
  intros Hq. unfold mark_idle. destruct (owner_of name r) as [owner|]; [|apply mechanical_refl].
  eapply update_mechanical; [done|done|]. intros. by apply kin_set_calls.
Qed.

Lemma unload_mechanical name r : mechanical r (unload_tool name r).2.
Proof.
  unfold unload_tool. destruct (owner_of name r) as [owner|]; [|apply mechanical_refl].
  eapply update_mechanical; [done|done|]. intros e _. apply kin_set_states. intros name' H. left.
  destruct (decide (name' = name)) as [->|Hne]; [rewrite lookup_delete_eq in H; by destruct H|].
  by rewrite lookup_delete_ne in H.
Qed.

Lemma poisoned_mechanical id r : mechanical r (record_poisoned id r).
Proof.
  unfold record_poisoned. case_match; [apply mechanical_refl|]. apply kin_update_mechanical. intros e.
  case_bool_decide; [apply kin_set_run|apply kin_refl].
Qed.

Lemma owned_declared name r owner e : owner_of name r = Some owner -> cr_inner r !! owner = Some e -> declared e name.
Proof. intros H He. apply owner_in_Some in H as (e' & He' & Hd). congruence. Qed.

Definition registers (op : RegistryOp) : Prop := exists manifest specs, op = RoRegister manifest specs.

#[export] Instance registers_dec op : Decision (registers op).
Proof. destruct op; try (right; intros (? & ? & ?); discriminate). left. by eexists _, _. Defined.

(** The steps that move the calls in flight. *)
Definition moves_calls (op : RegistryOp) : Prop :=
  match op with RoActivate _ _ | RoMarkActive _ _ | RoMarkIdle _ _ => True | _ => False end.

Lemma step_mechanical op r : ~ registers op -> (quiet -> ~ moves_calls op) -> mechanical r (registry_step op r).
Proof.
  intros Hn Hq. destruct op; cbn [registry_step].
  - destruct Hn. by eexists _, _.
  - by apply mechanical_inner, kin_inner_refl.
  - apply activate_mechanical; intros Hx; by apply Hq in Hx.
  - apply kin_update_mechanical. intros. apply kin_set_run.
  - unfold load_tool_with_source. destruct (owner_of name r) eqn:E; [|apply mechanical_refl].
    apply load_apply_mechanical. intros. by eapply owned_declared.
  - destruct (owner_of name r) eqn:E; [|apply mechanical_refl].
    apply load_apply_mechanical. intros. by eapply owned_declared.
  - apply unload_mechanical.
  - apply mark_active_mechanical; intros Hx; by apply Hq in Hx.
  - apply mark_idle_mechanical; intros Hx; by apply Hq in Hx.
  - apply gc_mechanical.
  - apply reconcile_mechanical.
  - apply restore_mechanical.
  - apply start_mechanical.
  - apply kin_update_mechanical. intros. apply kin_set_run.
  - apply kin_update_mechanical. intros. apply kin_set_run.
  - apply kin_update_mechanical. intros. apply kin_set_run.
  - apply poisoned_mechanical.
Qed.
End quiet.

(** ** Registration *)

Lemma and_iff_compat (A B C D : Prop) : (A <-> C) -> (B <-> D) -> A /\ B <-> C /\ D.
Proof. tauto. Qed.

Lemma validate_collisions_Ok manifest names ctx :
  validate_collisions manifest names ctx = Ok tt <->
  ax_is_registered ctx (cm_id manifest) = false
  /\ Forall (fun requirement => ax_is_registered ctx requirement = true) (cm_requires manifest)
  /\ Forall (fun name => name ∉ ax_reserved_names ctx) names
  /\ Forall (fun name => ax_owner_of_tool ctx name = None) names.
Proof.
  unfold validate_collisions. checker.
  apply and_iff_compat_l, and_iff_compat; [|apply and_iff_compat]; apply Forall_iff; intros x; unfold invalid.
  - destruct (ax_is_registered ctx x); intuition congruence.
  - case_bool_decide; intuition congruence.
  - destruct (ax_owner_of_tool ctx x); intuition congruence.
Qed.

(** What an accepted registration has checked, and the registry it leaves. *)
Record Registered (manifest : CapabilityManifest) (specs : list DeclaredTool) (r r' : CapabilityRegistry) : Prop := {
  rg_admissible : Admissible manifest specs;
  rg_fresh : cr_inner r !! cm_id manifest = None;
  rg_requires : Forall (fun requirement => is_Some (cr_inner r !! requirement)) (cm_requires manifest);
  rg_reserved : Forall (fun spec => dt_name spec ∉ cr_reserved r) specs;
  rg_unowned : Forall (fun spec => owner_in (cr_inner r) (dt_name spec) = None) specs;
  rg_inner : cr_inner r' = <[cm_id manifest := new_entry manifest specs]> (cr_inner r);
  rg_state : ca_inner (cr_state r') = <[cm_id manifest :=
      {| cs_status := initial_status manifest; cs_activation := initial_activation manifest |}]> (ca_inner (cr_state r));
  rg_grants : ca_grants (cr_state r') = <[cm_id manifest := cm_permissions manifest]> (ca_grants (cr_state r));
}.

Lemma register_cases manifest specs r :
  (exists error r', register manifest specs r = (Err error, r') /\ mechanical True r r' /\ cr_inner r' = cr_inner r
                    /\ cr_state r' = cr_state r)
  \/ (exists r', register manifest specs r = (Ok tt, r') /\ Registered manifest specs r r').
Proof.
  unfold register. destruct (validate_static manifest specs) as [[]|error] eqn:Hs.
  2: { left. eexists _, _. split; [done|]. split; [apply mechanical_refl|done]. }
  destruct (validate_collisions _ _ _) as [[]|error] eqn:Hc.
  2: { left. eexists _, _. split; [done|]. split; [apply mechanical_refl|done]. }
  unfold register_state. destruct (ca_inner (cr_state r) !! cm_id manifest).
  { left. eexists _, _. split; [done|]. split; [|done]. by apply mechanical_inner, kin_inner_refl. }
  right. eexists. split; [done|]. apply admission_exact in Hs.
  apply validate_collisions_Ok in Hc as (Hid & Hreq & Hres & Hown). cbn in Hid, Hreq, Hres, Hown.
  rewrite bool_decide_eq_false, <- eq_None_not_Some in Hid.
  rewrite Forall_fmap in Hres, Hown. split; try done.
  eapply Forall_impl; [exact Hreq|]. intros requirement H. by apply bool_decide_eq_true in H.
Qed.

Lemma registered_inv manifest specs r r' : Registered manifest specs r r' -> RegistryInv r -> RegistryInv r'.
Proof.
  intros [Ha Hf _ _ Hu Hi Hs Hg] [E S G O T]. set (id0 := cm_id manifest) in *.
  assert (forall id e, cr_inner r' !! id = Some e ->
            (id = id0 /\ e = new_entry manifest specs) \/ (id <> id0 /\ cr_inner r !! id = Some e)) as Hcase.
  { intros id e. rewrite Hi. destruct (decide (id = id0)) as [->|Hne].
    - rewrite lookup_insert_eq. intros [= <-]. by left.
    - rewrite lookup_insert_ne by done. by right. }
  assert (forall id e name, cr_inner r !! id = Some e -> declared e name -> name ∈ dt_name <$> specs -> False) as Hnew.
  { intros id e name He Hd Hin. apply list_elem_of_fmap in Hin as (spec & -> & Hin).
    rewrite Forall_forall in Hu. eapply owner_in_None; eauto. }
  split.
  - intros id e He. destruct (Hcase id e He) as [[-> ->]|[_ He']]; [done|by apply E].
  - intros id. rewrite Hs, Hi. destruct (decide (id = id0)) as [->|Hne].
    + rewrite !lookup_insert_eq. split; eauto.
    + rewrite !lookup_insert_ne by done. apply S.
  - intros id e He. rewrite Hg. destruct (Hcase id e He) as [[-> ->]|[Hne He']].
    + by rewrite lookup_insert_eq.
    + rewrite lookup_insert_ne by done. by apply G.
  - intros id1 id2 e1 e2 name H1 H2 D1 D2.
    destruct (Hcase id1 e1 H1) as [[-> ->]|[Hne1 H1']], (Hcase id2 e2 H2) as [[-> ->]|[Hne2 H2']].
    + done.
    + destruct (Hnew id2 e2 name H2' D2 D1).
    + destruct (Hnew id1 e1 name H1' D1 D2).
    + by eapply O.
  - intros id e name He [s Hn]. destruct (Hcase id e He) as [[-> ->]|[Hne He']]; [|by eapply T; eauto].
    cbn in Hn. by rewrite lookup_empty in Hn.
Qed.

Lemma registry_step_inv op r : RegistryInv r -> RegistryInv (registry_step op r).
Proof.
  intros H. destruct (decide (registers op)) as [(manifest & specs & ->)|Hn].
  - cbn [registry_step]. destruct (register_cases manifest specs r) as [(? & r' & -> & Hm & _)|(r' & -> & Hr)].
    + by eapply mechanical_inv.
    + by eapply registered_inv.
  - by eapply mechanical_inv; [apply (step_mechanical False)|].
Qed.

Lemma registry_inv_empty idle unload : RegistryInv (with_idle_thresholds idle unload).
Proof. split; cbn; intros *; try (rewrite lookup_empty; intros; discriminate). rewrite !lookup_empty. done. Qed.

Lemma registry_run_ind (P : CapabilityRegistry -> Prop) ops r :
  P r -> (forall op r, P r -> P (registry_step op r)) -> P (registry_run ops r).
Proof.
  intros H0 Hs. revert r H0. induction ops as [|op ops IH]; intros r H0; [done|]. apply IH, Hs, H0.
Qed.

Lemma registry_run_inv ops r : RegistryInv r -> RegistryInv (registry_run ops r).
Proof. intros H. apply registry_run_ind; [done|]. intros. by apply registry_step_inv. Qed.

(** ** What is on the surface *)

Lemma is_usable_activation id r : is_usable id r = true <-> activation id (cr_state r) = Some ActivationEnabled.
Proof. unfold is_usable. destruct (activation id (cr_state r)) as [[]|]; cbn; split; congruence. Qed.

Lemma elem_of_surface spec r :
  RegistryInv r ->
  spec ∈ loaded_tool_specs r <->
  exists id e, cr_inner r !! id = Some e /\ is_usable id r = true /\ spec ∈ en_tool_specs e
               /\ is_loaded e (dt_name spec) = true.
Proof.
  intros Hinv. unfold loaded_tool_specs, loaded_surface. cbn [fst]. rewrite list_elem_of_bind. split.
  - intros ([id e] & Hin & He). apply elem_of_map_to_list in He. exists id, e. cbn [snd] in Hin.
    destruct (is_usable _ _ && _) eqn:Hb; [|by apply not_elem_of_nil in Hin].
    apply andb_prop in Hb as [Hu _]. rewrite (proj1 (ri_entry _ Hinv _ _ He)) in Hu.
    apply list_elem_of_filter in Hin as [Hl Hin]. by apply Is_true_true in Hl.
  - intros (id & e & He & Hu & Hin & Hl). exists (id, e). split; [|by apply elem_of_map_to_list]. cbn [snd].
    rewrite (proj1 (ri_entry _ Hinv _ _ He)), Hu. rewrite bool_decide_eq_true_2.
    + cbn. apply list_elem_of_filter. by rewrite Is_true_true.
    + intros Heq. unfold is_loaded in Hl. by rewrite Heq, lookup_empty in Hl.
Qed.

Lemma declared_spec e spec : spec ∈ en_tool_specs e -> declared e (dt_name spec).
Proof. intros H. apply list_elem_of_fmap. by exists spec. Qed.

Lemma owner_of_declared r id e name :
  RegistryInv r -> cr_inner r !! id = Some e -> declared e name -> owner_of name r = Some id.
Proof.
  intros Hinv He Hd. destruct (owner_of name r) as [owner|] eqn:Ho.
  - apply owner_in_Some in Ho as (e' & He' & Hd'). f_equal. by eapply (ri_owner _ Hinv owner id).
  - destruct (owner_in_None _ _ _ _ Ho He Hd).
Qed.

Lemma NoDup_bind_key {A B} (key : B -> text) (l : list A) (f : A -> list B) :
  (forall p, p ∈ l -> NoDup (key <$> f p)) ->
  (forall p q x y, p ∈ l -> q ∈ l -> x ∈ f p -> y ∈ f q -> key x = key y -> p = q) ->
  NoDup l -> NoDup (key <$> (l ≫= f)).
Proof.
  induction l as [|p l IH]; intros Hd Hu Hn; [constructor|]. cbn [mbind list_bind]. rewrite fmap_app.
  apply NoDup_cons in Hn as [Hp Hn]. apply NoDup_app. split; [apply Hd; left|]. split.
  - intros name H1 H2. apply list_elem_of_fmap in H1 as (s1 & -> & H1), H2 as (s2 & Heq & H2).
    apply list_elem_of_bind in H2 as (q & H2 & Hq). apply Hp.
    rewrite (Hu p q s1 s2); [done|left|by right|done..].
  - apply IH; [|intros; eapply Hu; eauto; by right|done]. intros; apply Hd; by right.
Qed.

Lemma surface_distinct r : RegistryInv r -> NoDup (dt_name <$> loaded_tool_specs r).
Proof.
  intros Hinv. apply NoDup_bind_key.
  - intros [id e] He. apply elem_of_map_to_list in He. cbn [snd]. case_match; [|constructor].
    destruct (ri_entry _ Hinv _ _ He) as [_ Ha]. pose proof (tsw_distinct _ (am_tools _ _ Ha)) as Hd.
    eapply sublist_NoDup; [exact Hd|]. apply fmap_sublist, sublist_filter.
  - intros [id1 e1] [id2 e2] s1 s2 H1 H2 Hs1 Hs2 Heq. apply elem_of_map_to_list in H1, H2. cbn [snd] in Hs1, Hs2.
    assert (forall e s, s ∈ (if is_usable (cm_id (en_manifest e)) r && bool_decide (en_tool_states e <> ∅)
        then filter (fun spec => Is_true (is_loaded e (dt_name spec))) (en_tool_specs e) else []) -> s ∈ en_tool_specs e)
      as Hsub.
    { intros e s. match goal with |- context [if ?b then _ else _] => destruct b end.
      - by intros [_ ?]%list_elem_of_filter.
      - by intros ?%not_elem_of_nil. }
    apply Hsub in Hs1, Hs2. apply declared_spec in Hs1, Hs2. rewrite Heq in Hs1.
    assert (id1 = id2) as -> by (by eapply (ri_owner _ Hinv id1 id2)). congruence.
  - apply NoDup_map_to_list.
Qed.

(** C40. The model surface is authorized: after any sequence of registrations, activations, loads
    (also with a stale reading of the activation), calls, ageing and restores, the tools offered to
    the model have distinct names, and each belongs to exactly one registered capability, which is
    enabled, whose admitted declaration holds it, and whose recorded grant backs the tool's risk. *)
Theorem surface_authorized ops idle unload :
  let r := registry_run ops (with_idle_thresholds idle unload) in
  NoDup (dt_name <$> loaded_tool_specs r)
  /\ forall spec, spec ∈ loaded_tool_specs r ->
     exists id e, owner_of (dt_name spec) r = Some id /\ cr_inner r !! id = Some e /\ spec ∈ en_tool_specs e
       /\ activation id (cr_state r) = Some ActivationEnabled
       /\ granted_permissions id (cr_state r) = Some (cm_permissions (en_manifest e))
       /\ Admissible (en_manifest e) (en_tool_specs e) /\ RiskGranted (en_manifest e) spec.
Proof.
  intros r. assert (RegistryInv r) as Hinv by apply registry_run_inv, registry_inv_empty.
  split; [by apply surface_distinct|]. intros spec Hin.
  apply elem_of_surface in Hin as (id & e & He & Hu & Hin & _); [|done]. exists id, e.
  destruct (ri_entry _ Hinv _ _ He) as [_ Ha]. split; [eapply owner_of_declared; eauto using declared_spec|].
  do 2 (split; [done|]). split; [by apply is_usable_activation|]. split; [by apply (ri_grant _ Hinv)|]. split; [done|].
  pose proof (am_risk _ _ Ha) as Hr. rewrite Forall_forall in Hr. auto.
Qed.
End steps.
