(* ===== verification/CapabilityLife.v ===== *)
(** What moves a capability's authority: its activation and maturity over a run of the registry, and
    the calls in flight a transition settles. *)

From S2P Require Import Prelude Text Jcs Operation Intent OutputBroker Capability Plugin CapabilityTheorems.
From S2P Require Import CapabilityRegistry CapabilitySurface.

Section life.
Context `{JT : JsonText}.

(** ** Activation rises only by an explicit enable *)

(** One step for one capability: the maturity stays, and it becomes usable only when [allowed]. *)
Definition no_rise (allowed : Prop) (s s' : CapabilityState) : Prop :=
  cs_status s' = cs_status s /\ (usable (cs_activation s') = true -> usable (cs_activation s) = true \/ allowed).

Definition state_falls (m m' : gmap text CapabilityState) : Prop :=
  forall id s', m' !! id = Some s' -> exists s, m !! id = Some s /\ no_rise False s s'.

Lemma no_rise_refl allowed s : no_rise allowed s s.
Proof. split; auto. Qed.

Lemma state_falls_refl m : state_falls m m.
Proof. intros id s' H. exists s'. split; [done|apply no_rise_refl]. Qed.

Lemma meet_usable current checkpoint :
  usable (restore_activation_meet current checkpoint) = true -> usable current = true.
Proof. by destruct current, checkpoint. Qed.

(** Everything a restore writes back stands below what is live. *)
Definition below (live : gmap text CapabilityState) (entry : text * CapabilityState) : Prop :=
  exists s, live !! entry.1 = Some s /\ no_rise False s entry.2.

Lemma restore_rows_below live rows acc :
  Forall (below live) acc.2 -> Forall (below live) (fold_left (restore_row live) rows acc).2.
Proof.
  revert acc. induction rows as [|row rows IH]; intros [inner restored] H; [done|]. cbn [fold_left]. apply IH.
  cbn [snd] in H. unfold restore_row. destruct (inner !! sn_id row); [|done].
  destruct (live !! sn_id row) as [s|] eqn:El; [|done]. cbn [snd]. apply Forall_app. split; [done|].
  constructor; [|constructor]. exists s. split; [done|]. split; [done|]. cbn. intros Hu. left. by eapply meet_usable.
Qed.

Lemma restore_falls live states m :
  Forall (below live) states -> (forall id s', m !! id = Some s' -> below live (id, s')) ->
  forall id s', fold_left restore_one states m !! id = Some s' -> below live (id, s').
Proof.
  revert m. induction states as [|[i s0] states IH]; intros m Hf Hm; [done|]. cbn [fold_left].
  apply Forall_cons in Hf as [H0 Hf]. apply IH; [done|]. intros id s'. unfold restore_one. cbn [fst snd].
  destruct (m !! i); [|apply Hm]. destruct (decide (id = i)) as [->|Hne].
  - rewrite lookup_insert_eq. by intros [= <-].
  - rewrite lookup_insert_ne by done. apply Hm.
Qed.

Lemma registry_restore_falls rows r :
  state_falls (ca_inner (cr_state r)) (ca_inner (cr_state (registry_restore rows r).2)).
Proof.
  pose proof (restore_rows_below (ca_inner (cr_state r)) rows (cr_inner r, []) (List.Forall_nil _)) as H.
  unfold registry_restore. destruct (fold_left _ _ _) as [inner restored]. cbn in H |- *.
  intros id s' Hs. eapply restore_falls in Hs; [exact Hs|done|].
  intros i s Hi. exists s. split; [done|apply no_rise_refl].
Qed.

(** The steps that leave the authority alone. *)
Definition authority_step (op : RegistryOp) : Prop :=
  match op with RoRegister _ _ | RoActivate _ _ | RoRestore _ => True | _ => False end.

#[export] Instance authority_step_dec op : Decision (authority_step op).
Proof. destruct op; cbn; apply _. Defined.

Lemma load_apply_state owner seen name persistent r : cr_state (load_apply owner seen name persistent r).2 = cr_state r.
Proof. unfold load_apply. by repeat case_match. Qed.

Lemma reconcile_state roots r : cr_state (reconcile_leases roots r).2 = cr_state r.
Proof. unfold reconcile_leases. by repeat case_match. Qed.

Lemma gc_state roots external r : cr_state (gc_with_pressure roots external r) = cr_state r.
Proof. unfold gc_with_pressure. by repeat case_match. Qed.

Lemma start_state id live r : cr_state (ensure_started_begin id live r).2 = cr_state r.
Proof. unfold ensure_started_begin. by repeat case_match; simplify_eq. Qed.

Lemma step_state op r : ~ authority_step op -> cr_state (registry_step op r) = cr_state r.
Proof.
  intros Hn. destruct op; cbn [authority_step] in Hn; try (destruct (Hn I)); cbn [registry_step]; try done.
  - unfold load_tool_with_source. destruct (owner_of name r); [apply load_apply_state|done].
  - destruct (owner_of name r); [apply load_apply_state|done].
  - unfold unload_tool. by case_match.
  - unfold mark_active. by repeat case_match.
  - unfold mark_idle. by case_match.
  - apply gc_state.
  - apply reconcile_state.
  - apply start_state.
  - unfold record_poisoned. by case_match.
Qed.

Definition enables (id : text) (op : RegistryOp) : Prop := op = RoActivate id ActivationEnabled.

Lemma activate_rise id next r id' s' :
  ca_inner (cr_state (set_activation_record id next r).2) !! id' = Some s' ->
  exists s, ca_inner (cr_state r) !! id' = Some s /\ no_rise (id' = id /\ next = ActivationEnabled) s s'.
Proof.
  unfold set_activation_record, set_activation. intros H.
  destruct (cr_inner r !! id); [|exists s'; split; [done|apply no_rise_refl]].
  destruct (ca_inner (cr_state r) !! id) as [s|] eqn:E; cbn in H; [|exists s'; split; [done|apply no_rise_refl]].
  destruct (decide (id' = id)) as [->|Hne].
  - rewrite lookup_insert_eq in H. injection H as <-. exists s. split; [done|]. split; [done|]. cbn.
    destruct next; cbn; try discriminate. auto.
  - rewrite lookup_insert_ne in H by done. exists s'. split; [done|apply no_rise_refl].
Qed.

(** A capability's record after a step: fresh from its registration, or the old one without a rise
    the step does not make explicit. *)
Lemma step_rise op r id s' :
  ca_inner (cr_state (registry_step op r)) !! id = Some s' ->
  (exists s, ca_inner (cr_state r) !! id = Some s /\ no_rise (enables id op) s s')
  \/ (exists manifest specs, op = RoRegister manifest specs /\ cm_id manifest = id
        /\ cr_inner (registry_step op r) !! id = Some (new_entry manifest specs)
        /\ s' = {| cs_status := initial_status manifest; cs_activation := initial_activation manifest |}).
Proof.
  intros H. destruct (decide (authority_step op)) as [Ha|Hn].
  2: { rewrite step_state in H by done. left. exists s'. split; [done|apply no_rise_refl]. }
  destruct op; try destruct Ha; cbn [registry_step] in H |- *.
  - destruct (register_cases manifest specs r) as [(? & r' & Hr & _ & _ & Hs)|(r' & Hr & Hreg)]; rewrite Hr in H |- *;
      cbn [snd] in H |- *.
    + rewrite Hs in H. left. exists s'. split; [done|apply no_rise_refl].
    + rewrite (rg_state _ _ _ _ Hreg) in H. destruct (decide (id = cm_id manifest)) as [->|Hne].
      * rewrite lookup_insert_eq in H. injection H as <-. right. exists manifest, specs.
        by rewrite (rg_inner _ _ _ _ Hreg), lookup_insert_eq.
      * rewrite lookup_insert_ne in H by done. left. exists s'. split; [done|apply no_rise_refl].
  - left. apply activate_rise in H as (s & Hs & Heq & Hu). exists s. split; [done|]. split; [done|].
    intros Hx. destruct (Hu Hx) as [|[-> ->]]; [by left|by right].
  - left. apply registry_restore_falls in H as (s & Hs & Heq & Hu). exists s. split; [done|]. split; [done|].
    intros Hx. destruct (Hu Hx) as [|[]]. by left.
Qed.

(** A step keeps the manifest an id is registered under. *)
Lemma step_manifest op r id e :
  RegistryInv r -> is_Some (cr_inner r !! id) -> cr_inner (registry_step op r) !! id = Some e ->
  exists e0, cr_inner r !! id = Some e0 /\ en_manifest e = en_manifest e0.
Proof.
  intros Hinv [e0 H0] He. destruct (decide (registers op)) as [(manifest & specs & ->)|Hn].
  - cbn [registry_step] in He.
    destruct (register_cases manifest specs r) as [(? & r' & Hr & _ & Hi & _)|(r' & Hr & Hreg)]; rewrite Hr in He; cbn in He.
    + rewrite Hi in He. eauto.
    + rewrite (rg_inner _ _ _ _ Hreg) in He. destruct (decide (id = cm_id manifest)) as [->|Hne].
      * pose proof (rg_fresh _ _ _ _ Hreg). congruence.
      * rewrite lookup_insert_ne in He by done. eauto.
  - destruct (kin_inner_Some _ _ _ _ _ (me_inner _ _ _ (step_mechanical False op r Hn (fun no _ => no))) He)
      as (e1 & He1 & [_ Hm _ _]). eauto.
Qed.

(** What is known of an external capability after [ops]. *)
Definition Inert (ops : list RegistryOp) (r : CapabilityRegistry) : Prop :=
  forall id e, cr_inner r !! id = Some e -> cm_transport (en_manifest e) <> Builtin ->
  exists s, ca_inner (cr_state r) !! id = Some s /\ cs_status s = Experimental
    /\ (usable (cs_activation s) = true -> RoActivate id ActivationEnabled ∈ ops).

Lemma external_initial manifest :
  cm_transport manifest <> Builtin ->
  initial_status manifest = Experimental /\ initial_activation manifest = ActivationDisabled.
Proof.
  intros H. unfold initial_status, initial_activation. split; [|by rewrite bool_decide_eq_false_2].
  rewrite (bool_decide_eq_true_2 (cm_transport manifest <> Builtin)) by done. cbn. by case_bool_decide.
Qed.

Lemma inert_step ops op r : RegistryInv r -> Inert ops r -> Inert (ops ++ [op]) (registry_step op r).
Proof.
  intros Hinv Hi id e He Hext. pose proof (registry_step_inv op r Hinv) as Hinv'.
  destruct (proj2 (ri_state _ Hinv' id) (ex_intro _ e He)) as [s' Hs']. exists s'. split; [done|].
  destruct (step_rise op r id s' Hs') as [(s & Hs & Heq & Hu)|(manifest & specs & -> & <- & Hnew & ->)].
  - destruct (step_manifest op r id e Hinv) as (e0 & H0 & Hm); [by apply (ri_state _ Hinv); eauto|done|].
    destruct (Hi id e0 H0) as (s1 & Hs1 & Hst & Hen); [by rewrite <- Hm|]. simplify_eq.
    split; [congruence|]. intros Hx. apply elem_of_app. destruct (Hu Hx) as [Hy|Hy]; [left; auto|right].
    rewrite Hy. left.
  - rewrite Hnew in He. injection He as <-. destruct (external_initial manifest Hext) as [-> ->]. done.
Qed.

Lemma registry_run_snoc ops op r : registry_run (ops ++ [op]) r = registry_step op (registry_run ops r).
Proof. unfold registry_run. by rewrite fold_left_app. Qed.

Lemma inert_run ops idle unload : Inert ops (registry_run ops (with_idle_thresholds idle unload)).
Proof.
  induction ops as [|op ops IH] using rev_ind; [intros id e He; cbn in He; by rewrite lookup_empty in He|].
  rewrite registry_run_snoc. apply inert_step; [|done]. apply registry_run_inv, registry_inv_empty.
Qed.

(** An external capability is inert until an operator enables it: over any run of the registry,
    restores of checkpoints included, a capability that is not built in keeps maturity Experimental
    whatever its manifest declares, and its tools are on the surface only after an explicit enable of
    that capability. *)
Theorem external_capability_inert ops idle unload id e :
  let r := registry_run ops (with_idle_thresholds idle unload) in
  cr_inner r !! id = Some e -> cm_transport (en_manifest e) <> Builtin ->
  status id (cr_state r) = Some Experimental
  /\ (RoActivate id ActivationEnabled ∉ ops ->
      is_usable id r = false /\ forall spec, spec ∈ en_tool_specs e -> spec ∉ loaded_tool_specs r).
Proof.
  intros r He Hext. destruct (inert_run ops idle unload id e He Hext) as (s & Hs & Hst & Hen).
  split; [unfold status; fold r in Hs; by rewrite Hs; cbn; rewrite Hst|]. intros Hno.
  assert (is_usable id r = false) as Hu.
  { unfold is_usable, activation. fold r in Hs. rewrite Hs. cbn. destruct (usable (cs_activation s)); [|done].
    destruct Hno. by apply Hen. }
  split; [done|]. intros spec Hspec Hin.
  assert (RegistryInv r) as Hinv by apply registry_run_inv, registry_inv_empty.
  apply elem_of_surface in Hin as (id' & e' & He' & Hu' & Hin' & _); [|done].
  assert (id = id') as <- by (eapply (ri_owner _ Hinv id id'); eauto using declared_spec). congruence.
Qed.
End life.

(** Calls in flight against transitions of the capability they run on.

    A transition waits for the capability's [run_lock], as admission ([mark_active]) and
    completion ([mark_idle]) do; the steps below are guarded by it.  A world adds to the registry the
    tokens cancelled so far and the calls that run. *)

Section calls.
Context `{JT : JsonText}.

Record CallWorld : Type := {
  cw_registry : CapabilityRegistry;
  cw_cancelled : gset N;
  cw_calls : gmap N text;
}.

Definition lock_free (id : text) (r : CapabilityRegistry) : Prop :=
  forall e, cr_inner r !! id = Some e -> en_run_lock e = false.

Definition calls_of (id : text) (r : CapabilityRegistry) : list N := from_option en_inflight [] (cr_inner r !! id).

(** [set_activation] up to [stop]: the recorded tokens are cancelled when it settles. *)
Definition activate (id : text) (next : CapabilityActivation) (w : CallWorld) : CallWorld :=
  match set_activation_record id next (cw_registry w) with
  | (Ok (settles, inflight), r') =>
      {| cw_registry := r';
         cw_cancelled := cw_cancelled w ∪ (if settles then list_to_set inflight else ∅);
         cw_calls := cw_calls w |}
  | (Err _, r') => {| cw_registry := r'; cw_cancelled := cw_cancelled w; cw_calls := cw_calls w |}
  end.

Definition start_call (name : text) (owner : text) (token : N) (w : CallWorld) : CallWorld :=
  {| cw_registry := (mark_active name token (cw_registry w)).2; cw_cancelled := cw_cancelled w;
     cw_calls := <[token := owner]> (cw_calls w) |}.

Definition end_call (name : text) (token : N) (w : CallWorld) : CallWorld :=
  {| cw_registry := (mark_idle name token (cw_registry w)).2; cw_cancelled := cw_cancelled w;
     cw_calls := delete token (cw_calls w) |}.

Definition other (op : RegistryOp) (w : CallWorld) : CallWorld :=
  {| cw_registry := registry_step op (cw_registry w); cw_cancelled := cw_cancelled w; cw_calls := cw_calls w |}.

(** Each call brings its own token.  A checkpoint is restored while no call runs.  [strict] leaves
    out enabling a capability that has calls in flight. *)
Inductive call_step (strict : Prop) (w : CallWorld) : CallWorld -> Prop :=
| CsActivate id next :
    lock_free id (cw_registry w) ->
    (strict -> usable next = true -> calls_of id (cw_registry w) = []) ->
    call_step strict w (activate id next w)
| CsStart name owner token :
    cw_calls w !! token = None -> owner_of name (cw_registry w) = Some owner -> lock_free owner (cw_registry w) ->
    (mark_active name token (cw_registry w)).1 = Ok true ->
    call_step strict w (start_call name owner token w)
| CsEnd name owner token :
    cw_calls w !! token = Some owner -> owner_of name (cw_registry w) = Some owner -> lock_free owner (cw_registry w) ->
    call_step strict w (end_call name token w)
| CsOther op :
    ~ moves_calls op -> (forall rows, op = RoRestore rows -> cw_calls w = ∅) ->
    call_step strict w (other op w).

Definition call_world (r : CapabilityRegistry) : CallWorld := {| cw_registry := r; cw_cancelled := ∅; cw_calls := ∅ |}.

(** A running call was cancelled, or its capability is enabled and holds its token. *)
Record Tracked (w : CallWorld) : Prop := {
  tr_registry : RegistryInv (cw_registry w);
  tr_call : forall token owner, cw_calls w !! token = Some owner ->
      token ∈ cw_cancelled w \/ (is_usable owner (cw_registry w) = true /\ token ∈ calls_of owner (cw_registry w));
}.

Lemma calls_of_insert id e e' r r' id' :
  cr_inner r !! id = Some e -> cr_inner r' = <[id := e']> (cr_inner r) ->
  calls_of id' r' = if decide (id' = id) then en_inflight e' else calls_of id' r.
Proof.
  intros He Hi. unfold calls_of. rewrite Hi. case_decide as Hd; [subst; by rewrite lookup_insert_eq|].
  by rewrite lookup_insert_ne.
Qed.

Lemma is_usable_state id r r' : cr_state r' = cr_state r -> is_usable id r' = is_usable id r.
Proof. unfold is_usable. by intros ->. Qed.

(** *** A transition *)

Lemma activate_tracked strict id next w :
  strict -> lock_free id (cw_registry w) -> (strict -> usable next = true -> calls_of id (cw_registry w) = []) ->
  Tracked w -> Tracked (activate id next w).
Proof.
  intros Hstrict Hlock Hquiet [Hinv Hcall]. pose proof (registry_step_inv (RoActivate id next) _ Hinv) as Hinv'.
  cbn [registry_step] in Hinv'. unfold activate, set_activation_record, set_activation in *.
  destruct (cr_inner (cw_registry w) !! id) as [e|] eqn:He; [|by split].
  destruct (ca_inner (cr_state (cw_registry w)) !! id) as [s|] eqn:Es; [|by split].
  split; [exact Hinv'|]. cbn [cw_calls cw_cancelled cw_registry]. intros token owner Hc.
  rewrite elem_of_union. destruct (Hcall token owner Hc) as [Hx|[Hu Hin]]; [by left; left|].
  destruct (decide (owner = id)) as [->|Hne].
  - assert (token ∈ en_inflight e) as Hin' by (unfold calls_of in Hin; by rewrite He in Hin).
    destruct (usable next) eqn:Hn.
    + pose proof (Hquiet Hstrict eq_refl) as Hq. rewrite Hq in Hin. by apply not_elem_of_nil in Hin.
    + left. right. by apply elem_of_list_to_set.
  - right. unfold is_usable, activation, calls_of. cbn [cr_state bump set_inner set_state ca_inner cr_inner].
    rewrite !lookup_insert_ne by done. done.
Qed.

(** *** Admission and completion *)

Lemma mark_active_Ok name token r :
  (mark_active name token r).1 = Ok true ->
  exists owner, owner_of name r = Some owner /\ is_usable owner r = true
    /\ forall id, calls_of id (mark_active name token r).2
         = if decide (id = owner) then (match cr_inner r !! id with Some e => en_inflight e ++ [token] | None => [] end)
           else calls_of id r.
Proof.
  unfold mark_active. destruct (owner_of name r) as [owner|] eqn:Ho; [|discriminate].
  destruct (is_usable owner r) eqn:Hu; [|discriminate]. intros _. exists owner. split; [done|]. split; [done|].
  intros id. unfold calls_of. cbn [snd bump_catalog update_entry set_inner cr_inner negb].
  case_decide as Hd; [subst; rewrite lookup_alter_eq|by rewrite lookup_alter_ne].
  by destruct (cr_inner r !! owner).
Qed.

Lemma start_call_tracked name owner token w :
  owner_of name (cw_registry w) = Some owner -> (mark_active name token (cw_registry w)).1 = Ok true ->
  Tracked w -> Tracked (start_call name owner token w).
Proof.
  intros Ho Hm [Hinv Hcall]. pose proof (registry_step_inv (RoMarkActive name token) _ Hinv) as Hinv'.
  split; [exact Hinv'|]. unfold start_call. cbn [cw_calls cw_cancelled cw_registry].
  assert (cr_state (mark_active name token (cw_registry w)).2 = cr_state (cw_registry w)) as Hst
    by (apply (step_state (RoMarkActive name token)); by intros []).
  destruct (mark_active_Ok _ _ _ Hm) as (owner' & Ho' & Hu & Hcalls). rewrite Ho in Ho'. injection Ho' as <-.
  destruct (owner_in_Some _ _ _ Ho) as (e & He & _).
  intros t o Ht. rewrite Hcalls, (is_usable_state o _ _ Hst). destruct (decide (t = token)) as [->|Hne].
  - rewrite lookup_insert_eq in Ht. injection Ht as <-. right. split; [done|].
    rewrite decide_True, He by done. apply elem_of_app. right. by apply list_elem_of_singleton.
  - rewrite lookup_insert_ne in Ht by done. destruct (Hcall t o Ht) as [|[Hu' Hin]]; [by left|]. right. split; [done|].
    case_decide as Hd; [|done]. subst. unfold calls_of in Hin. rewrite He in Hin |- *. apply elem_of_app. by left.
Qed.

Lemma mark_idle_calls name token r id :
  forall t, t <> token -> t ∈ calls_of id r -> t ∈ calls_of id (mark_idle name token r).2.
Proof.
  intros t Hne Hin. unfold mark_idle. destruct (owner_of name r) as [owner|]; [|done].
  unfold calls_of in *. cbn [snd bump_catalog update_entry set_inner cr_inner].
  destruct (decide (id = owner)) as [->|]; [rewrite lookup_alter_eq|by rewrite lookup_alter_ne].
  destruct (cr_inner r !! owner); [|done]. cbn in *. by apply list_elem_of_filter.
Qed.

Lemma end_call_tracked name token w : Tracked w -> Tracked (end_call name token w).
Proof.
  intros [Hinv Hcall]. pose proof (registry_step_inv (RoMarkIdle name token) _ Hinv) as Hinv'.
  split; [exact Hinv'|]. unfold end_call. cbn [cw_calls cw_cancelled cw_registry].
  assert (cr_state (mark_idle name token (cw_registry w)).2 = cr_state (cw_registry w)) as Hst
    by (apply (step_state (RoMarkIdle name token)); by intros []).
  intros t o Ht. apply lookup_delete_Some in Ht as [Hne Ht]. rewrite (is_usable_state o _ _ Hst).
  destruct (Hcall t o Ht) as [|[Hu Hin]]; [by left|right]. split; [done|]. by apply mark_idle_calls.
Qed.

(** *** The other steps *)

Lemma kin_inner_calls m m' id e :
  kin_inner True m m' -> m !! id = Some e -> from_option en_inflight [] (m' !! id) = en_inflight e.
Proof.
  intros H He. specialize (H id). rewrite He in H. inversion H as [? e' Hk Heq|]; subst. cbn.
  by apply (kin_inflight _ _ _ Hk).
Qed.

Lemma other_calls op r id e :
  ~ moves_calls op -> cr_inner r !! id = Some e -> calls_of id (registry_step op r) = en_inflight e.
Proof.
  intros Hm He. unfold calls_of. destruct (decide (registers op)) as [(manifest & specs & ->)|Hn].
  - cbn [registry_step]. destruct (register_cases manifest specs r) as [(? & r' & -> & _ & Hi & _)|(r' & -> & Hr)]; cbn [snd].
    + by rewrite Hi, He.
    + rewrite (rg_inner _ _ _ _ Hr). destruct (decide (id = cm_id manifest)) as [->|Hne].
      * pose proof (rg_fresh _ _ _ _ Hr). congruence.
      * by rewrite lookup_insert_ne, He.
  - eapply kin_inner_calls; [|done]. apply me_inner, step_mechanical; auto.
Qed.

Lemma other_usable op r id :
  RegistryInv r -> ~ moves_calls op -> (forall rows, op <> RoRestore rows) -> is_usable id r = true ->
  is_usable id (registry_step op r) = true.
Proof.
  intros Hinv Hm Hr Hu. destruct (decide (authority_step op)) as [Ha|Hn]; [|by rewrite (is_usable_state _ _ _ (step_state op r Hn))].
  destruct op; try destruct Ha; try (by destruct Hm); [|by edestruct Hr]. cbn [registry_step].
  destruct (register_cases manifest specs r) as [(? & r' & -> & _ & _ & Hs)|(r' & -> & Hreg)]; cbn [snd].
  - by rewrite (is_usable_state _ _ _ Hs).
  - unfold is_usable, activation in *. rewrite (rg_state _ _ _ _ Hreg).
    destruct (decide (id = cm_id manifest)) as [->|Hne]; [|by rewrite lookup_insert_ne].
    pose proof (rg_fresh _ _ _ _ Hreg) as Hf. destruct (ca_inner (cr_state r) !! cm_id manifest) as [s|] eqn:E; [|done].
    assert (is_Some (cr_inner r !! cm_id manifest)) as [e He] by (apply (ri_state _ Hinv); eauto). congruence.
Qed.

Lemma other_tracked op w :
  ~ moves_calls op -> (forall rows, op = RoRestore rows -> cw_calls w = ∅) -> Tracked w -> Tracked (other op w).
Proof.
  intros Hm Hr [Hinv Hcall]. split; [by apply registry_step_inv|]. unfold other. cbn [cw_calls cw_cancelled cw_registry].
  intros t o Ht. destruct (Hcall t o Ht) as [|[Hu Hin]]; [by left|right].
  assert (forall rows, op <> RoRestore rows) as Hr' by (intros rows Heq; rewrite (Hr rows Heq) in Ht; discriminate).
  split; [by apply other_usable|]. unfold calls_of in Hin. destruct (cr_inner (cw_registry w) !! o) as [e|] eqn:He.
  - by rewrite (other_calls op _ _ e).
  - by apply not_elem_of_nil in Hin.
Qed.

Lemma call_step_tracked (strict : Prop) w w' : strict -> call_step strict w w' -> Tracked w -> Tracked w'.
Proof.
  intros Hs Hstep Hw. destruct Hstep.
  - by apply (activate_tracked strict).
  - by eapply start_call_tracked.
  - by apply end_call_tracked.
  - by apply other_tracked.
Qed.

(** A transition to disabled or quarantined settles every call: in any interleaving of
    activations, admissions, completions and other registry steps, whenever a capability is not
    enabled, each call still running on it has been cancelled.  (Steps that enable a capability with
    calls in flight are left out; see [reenable_loses_calls].) *)
Theorem disable_settles_calls r w :
  RegistryInv r -> rtc (call_step True) (call_world r) w ->
  forall token owner, cw_calls w !! token = Some owner -> is_usable owner (cw_registry w) = false ->
  token ∈ cw_cancelled w.
Proof.
  intros Hinv Hrun. assert (Tracked w) as [_ Hcall].
  { assert (Tracked (call_world r)) as H0 by (split; [done|]; cbn; intros *; by rewrite lookup_empty).
    clear Hinv. revert H0. induction Hrun as [|w1 w2 w3 Hstep _ IH]; [done|]. intros H. apply IH.
    by apply (call_step_tracked True w1). }
  intros token owner Hc Hu. destruct (Hcall token owner Hc) as [|[Hu' _]]; [done|congruence].
Qed.
End calls.
