(* ===== verification/CapabilityRestore.v ===== *)
(** The safe point of the capability surface: what [gc_with_pressure] may cool, that it relieves the
    byte pressure as far as it may, and what [reconcile_leases] leaves on the surface. *)

From stdpp Require Import sorting.
From S2P Require Import Prelude Text Jcs Operation Intent OutputBroker Capability Plugin CapabilityTheorems.
From S2P Require Import CapabilityRegistry CapabilitySurface CapabilityLife.

(** ** Sums over a map *)

Section sums.
Context {A : Type}.

Definition map_sum (v : text -> A -> nat) (m : gmap text A) : nat :=
  sum_list_with (fun p => v p.1 p.2) (map_to_list m).

Lemma map_sum_delete v m k x : m !! k = Some x -> map_sum v m = v k x + map_sum v (delete k m).
Proof. intros H. unfold map_sum. by rewrite <- (map_to_list_delete m k x H). Qed.

Lemma map_sum_empty v : map_sum v ∅ = 0.
Proof. unfold map_sum. by rewrite map_to_list_empty. Qed.

(** Maps with the same keys and equal values of [v] at each have the same sum. *)
Lemma map_sum_ext v m1 m2 :
  (forall k, from_option (v k) 0 (m1 !! k) = from_option (v k) 0 (m2 !! k)
             /\ (m1 !! k = None <-> m2 !! k = None)) ->
  map_sum v m1 = map_sum v m2.
Proof.
  revert m2. induction m1 as [|k x m1 Hk IH] using map_ind; intros m2 H.
  - assert (m2 = ∅) as ->; [|done]. apply map_eq. intros k. rewrite lookup_empty.
    apply (proj1 (proj2 (H k))), lookup_empty.
  - destruct (H k) as [Hv Hd]. rewrite lookup_insert_eq in Hv, Hd.
    destruct (m2 !! k) as [y|] eqn:Hy; [|discriminate (proj2 Hd eq_refl)].
    rewrite (map_sum_delete v _ k x) by apply lookup_insert_eq. rewrite (map_sum_delete v m2 k y) by done.
    rewrite delete_insert_id by done. f_equal; [done|]. apply IH. intros k'.
    destruct (decide (k' = k)) as [->|Hne]; [by rewrite Hk, lookup_delete_eq|].
    rewrite lookup_delete_ne by done. specialize (H k'). by rewrite lookup_insert_ne in H by done.
Qed.

Lemma map_sum_alter v f m k x :
  m !! k = Some x -> map_sum v (alter f k m) + v k x = map_sum v m + v k (f x).
Proof.
  intros H. rewrite (map_sum_delete v (alter f k m) k (f x)), (map_sum_delete v m k x) by (rewrite ?lookup_alter_eq, ?H; done).
  assert (delete k (alter f k m) = delete k m) as ->; [|lia].
  apply map_eq. intros k'. destruct (decide (k' = k)) as [->|Hne]; [by rewrite !lookup_delete_eq|].
  by rewrite !lookup_delete_ne, lookup_alter_ne.
Qed.
End sums.

Section gc.
Context `{JT : JsonText}.

(** ** Bytes on the surface *)

Definition tool_bytes (e : Entry) (name : text) (state : CapabilityToolState) : nat :=
  if bool_decide (ts_lifecycle state = LcLoaded) then default 0 (bytes_by_name e name) else 0.

Definition entry_bytes (e : Entry) : nat := map_sum (tool_bytes e) (en_tool_states e).

Definition surface_bytes (inner : gmap text Entry) : nat := map_sum (fun _ e => entry_bytes e) inner.

Lemma spec_named_Some name specs spec : spec_named name specs = Some spec -> spec ∈ specs /\ dt_name spec = name.
Proof.
  unfold spec_named. intros ([i s] & Hf & ->)%fmap_Some. apply list_find_Some in Hf as (Hl & Hn & _).
  split; [by eapply list_elem_of_lookup_2|done].
Qed.

Lemma spec_named_declared e name : declared e name -> is_Some (spec_named name (en_tool_specs e)).
Proof.
  intros (spec & -> & Hin)%list_elem_of_fmap. unfold spec_named. rewrite fmap_is_Some.
  by eapply list_find_elem_of.
Qed.

Lemma head_omap_unique {A B} (f : A -> option B) l p b :
  p ∈ l -> f p = Some b -> (forall q, q ∈ l -> is_Some (f q) -> q = p) -> head (omap f l) = Some b.
Proof.
  intros Hp Hb. induction l as [|q l IH]; intros Hu; [by apply not_elem_of_nil in Hp|]. cbn [omap list_omap].
  destruct (f q) as [c|] eqn:Hq.
  - cbn. rewrite <- Hq, <- Hb. f_equal. apply Hu; [left|by rewrite Hq].
  - apply elem_of_cons in Hp as [->|Hp]; [congruence|]. apply IH; [done|]. intros q' Hq'. apply Hu. by right.
Qed.

(** A name has one owner, so the registry-wide search is the owner's. *)
Lemma tool_spec_owner r id e name :
  RegistryInv r -> cr_inner r !! id = Some e -> declared e name -> tool_spec name r = spec_named name (en_tool_specs e).
Proof.
  intros Hinv He Hd. destruct (spec_named_declared e name Hd) as [spec Hs]. rewrite Hs.
  eapply (head_omap_unique _ _ (id, e)); [by apply elem_of_map_to_list|done|].
  intros [id' e'] He' [spec' Hs']. apply elem_of_map_to_list in He'. cbn in Hs'.
  apply spec_named_Some in Hs' as [Hin <-].
  assert (id' = id) as -> by (eapply (ri_owner _ Hinv); eauto using declared_spec). congruence.
Qed.

Lemma sum_list_omap_filter {A} (g : A -> option nat) (l : list A) :
  sum_list (omap g l) = sum_list_with (fun a => default 0 (g a)) l.
Proof.
  induction l as [|a l IH]; [done|]. cbn. destruct (g a); cbn; [by rewrite <- IH|done].
Qed.

Lemma loaded_entry_bytes r id e :
  RegistryInv r -> cr_inner r !! id = Some e ->
  sum_list (omap (fun name => spec_schema_bytes <$> tool_spec name r) (loaded_names e)) = entry_bytes e.
Proof.
  intros Hinv He. rewrite sum_list_omap_filter. unfold loaded_names, entry_bytes, map_sum.
  assert (forall l, (forall p, p ∈ l -> en_tool_states e !! p.1 = Some p.2) ->
    sum_list_with (fun name => default 0 (spec_schema_bytes <$> tool_spec name r))
      (filter (fun p => ts_lifecycle p.2 = LcLoaded) l).*1
    = sum_list_with (fun p => tool_bytes e p.1 p.2) l) as Hl.
  { induction l as [|[name state] l IH]; intros Hp; [done|]. rewrite filter_cons. cbn [fst snd].
    assert (declared e name) as Hd by (eapply (ri_states _ Hinv); [done|]; eexists; apply (Hp (name, state)); left).
    specialize (IH (fun p Hin => Hp p (list_elem_of_further _ _ _ Hin))).
    cbn [sum_list_with fst snd]. unfold tool_bytes at 1. case_decide as Hc; [rewrite bool_decide_eq_true_2 by done|rewrite bool_decide_eq_false_2 by done]; cbn; [|done].
    rewrite IH, (tool_spec_owner r id e) by done. done. }
  apply Hl. intros [k x] Hin. by apply elem_of_map_to_list in Hin.
Qed.

Lemma loaded_bytes_surface r : RegistryInv r -> loaded_bytes_locked r = surface_bytes (cr_inner r).
Proof.
  intros Hinv. unfold loaded_bytes_locked, surface_bytes, map_sum.
  assert (forall l, (forall p, p ∈ l -> cr_inner r !! p.1 = Some p.2) ->
    sum_list (l ≫= (fun p => omap (fun name => spec_schema_bytes <$> tool_spec name r) (loaded_names p.2)))
    = sum_list_with (fun p => entry_bytes p.2) l) as Hl.
  { induction l as [|[id e] l IH]; intros Hp; [done|]. cbn [mbind list_bind]. rewrite sum_list_with_app.
    cbn [sum_list_with snd]. f_equal; [|apply IH; intros p Hin; apply Hp; by right].
    apply (loaded_entry_bytes r id); [done|]. apply (Hp (id, e)). left. }
  apply Hl. intros [k x] Hin. by apply elem_of_map_to_list in Hin.
Qed.

(** ** Cooling one tool *)

Definition state_at (inner : gmap text Entry) (id name : text) : option CapabilityToolState :=
  inner !! id ≫= fun e => en_tool_states e !! name.

Lemma is_loaded_at e name :
  is_loaded e name = true <-> exists state, en_tool_states e !! name = Some state /\ ts_lifecycle state = LcLoaded.
Proof.
  unfold is_loaded. destruct (en_tool_states e !! name) as [state|]; [|naive_solver].
  rewrite bool_decide_eq_true. naive_solver.
Qed.

Lemma is_loaded_declared r id e name : RegistryInv r -> cr_inner r !! id = Some e -> is_loaded e name = true -> declared e name.
Proof. intros Hinv He (state & Hs & _)%is_loaded_at. by eapply (ri_states _ Hinv); eauto. Qed.

Lemma set_tool_warm_owner r id e name :
  RegistryInv r -> cr_inner r !! id = Some e -> is_loaded e name = true ->
  set_tool_warm (cr_inner r) name = Some (alter (cool_in name) id (cr_inner r)).
Proof.
  intros Hinv He Hl. unfold set_tool_warm.
  destruct (list_find_elem_of (fun p : text * Entry => Is_true (is_loaded p.2 name)) (map_to_list (cr_inner r)) (id, e))
    as [[i [id' e']] Hf]; [by apply elem_of_map_to_list|by apply Is_true_true|].
  rewrite Hf. cbn [fmap option_fmap option_map snd fst]. apply list_find_Some in Hf as (Hin & Hl' & _).
  apply list_elem_of_lookup_2, elem_of_map_to_list in Hin. apply Is_true_true in Hl'. cbn in Hl'.
  assert (id' = id) as ->; [|done]. eapply (ri_owner _ Hinv); eauto using is_loaded_declared.
Qed.

Lemma cool_bytes e name bytes :
  is_loaded e name = true -> bytes_by_name e name = Some bytes -> entry_bytes (cool_in name e) + bytes = entry_bytes e.
Proof.
  intros (state & Hs & Hl)%is_loaded_at Hb.
  pose proof (map_sum_alter (tool_bytes e) (with_lifecycle LcWarm) _ _ _ Hs) as H.
  unfold entry_bytes, cool_in. cbn [en_tool_states set_tool_states].
  assert (forall m, map_sum (tool_bytes (set_tool_states (alter (with_lifecycle LcWarm) name (en_tool_states e)) e)) m
    = map_sum (tool_bytes e) m) as -> by done.
  assert (tool_bytes e name state = bytes) as H1 by (unfold tool_bytes; by rewrite bool_decide_eq_true_2, Hb).
  assert (tool_bytes e name (with_lifecycle LcWarm state) = 0) as H2 by done. lia.
Qed.

Lemma cool_surface_bytes inner id e name bytes :
  inner !! id = Some e -> is_loaded e name = true -> bytes_by_name e name = Some bytes ->
  surface_bytes (alter (cool_in name) id inner) + bytes = surface_bytes inner.
Proof.
  intros He Hl Hb. pose proof (map_sum_alter (fun _ e => entry_bytes e) (cool_in name) _ _ _ He) as H. cbn in H.
  pose proof (cool_bytes e name bytes Hl Hb). unfold surface_bytes. lia.
Qed.

Definition cooled_state (names : list text) (name : text) (state : CapabilityToolState) : CapabilityToolState :=
  if bool_decide (name ∈ names) && bool_decide (ts_lifecycle state = LcLoaded) then with_lifecycle LcWarm state else state.

Lemma cool_state_at r id e name :
  RegistryInv r -> cr_inner r !! id = Some e -> is_loaded e name = true ->
  forall id' name', state_at (alter (cool_in name) id (cr_inner r)) id' name'
    = cooled_state [name] name' <$> state_at (cr_inner r) id' name'.
Proof.
  intros Hinv He Hl id' name'. unfold state_at.
  assert (forall state, name' <> name -> cooled_state [name] name' state = state) as Hother.
  { intros state Hne. unfold cooled_state. by rewrite bool_decide_eq_false_2 by (by rewrite list_elem_of_singleton). }
  destruct (decide (id' = id)) as [->|Hne].
  - rewrite lookup_alter_eq, He. cbn. destruct (decide (name' = name)) as [->|Hn].
    + rewrite lookup_alter_eq. apply is_loaded_at in Hl as (state & -> & Hl). cbn. unfold cooled_state.
      by rewrite !bool_decide_eq_true_2 by (done || by rewrite list_elem_of_singleton).
    + rewrite lookup_alter_ne by done. destruct (en_tool_states e !! name') as [state|]; cbn; [|done]. by rewrite Hother.
  - rewrite lookup_alter_ne by done. destruct (cr_inner r !! id') as [e'|] eqn:He'; cbn; [|done].
    destruct (en_tool_states e' !! name') as [state|] eqn:Hs; cbn; [|done]. rewrite Hother; [done|]. intros ->.
    apply Hne. eapply (ri_owner _ Hinv); eauto using is_loaded_declared. eapply (ri_states _ Hinv); eauto.
Qed.
(** ** The pressure path *)

Definition row_name (row : text * N * nat) : text := row.1.1.

(** A row of [aging] that the registry still supports. *)
Definition row_ok (r : CapabilityRegistry) (row : text * N * nat) : Prop :=
  exists id e, cr_inner r !! id = Some e /\ is_loaded e (row_name row) = true
    /\ bytes_by_name e (row_name row) = Some row.2.

Lemma set_inner_inv r inner : RegistryInv r -> kin_inner False (cr_inner r) inner -> RegistryInv (set_inner inner r).
Proof. intros Hinv Hk. eapply (mechanical_inv False r); [|done]. by apply mechanical_inner. Qed.

Lemma cooled_states names1 names2 name state :
  cooled_state names2 name (cooled_state names1 name state) = cooled_state (names1 ++ names2) name state.
Proof.
  unfold cooled_state at 2. destruct (decide (name ∈ names1)) as [H1|H1].
  - rewrite (bool_decide_eq_true_2 _ H1). cbn. case_bool_decide as Hl.
    + unfold cooled_state. rewrite (bool_decide_eq_true_2 (name ∈ names1 ++ names2)) by (apply elem_of_app; by left).
      rewrite (bool_decide_eq_true_2 _ Hl). cbn. by rewrite andb_false_r.
    + unfold cooled_state. rewrite (bool_decide_eq_false_2 _ Hl). by rewrite !andb_false_r.
  - rewrite (bool_decide_eq_false_2 _ H1). cbn. unfold cooled_state.
    rewrite (bool_decide_ext (name ∈ names1 ++ names2) (name ∈ names2)); [done|]. rewrite elem_of_app. tauto.
Qed.

Lemma cooled_state_nil name state : cooled_state [] name state = state.
Proof. unfold cooled_state. by rewrite bool_decide_eq_false_2 by apply not_elem_of_nil. Qed.

Lemma state_at_nil inner id name : state_at inner id name = cooled_state [] name <$> state_at inner id name.
Proof. destruct (state_at inner id name); cbn; [by rewrite cooled_state_nil|done]. Qed.

Lemma row_ok_cool r row id e name :
  RegistryInv r -> cr_inner r !! id = Some e -> is_loaded e name = true -> row_name row <> name -> row_ok r row ->
  row_ok (set_inner (alter (cool_in name) id (cr_inner r)) r) row.
Proof.
  intros Hinv He Hl Hne (id' & e' & He' & Hl' & Hb). unfold row_ok. cbn [cr_inner set_inner].
  exists id'. destruct (decide (id' = id)) as [->|Hid].
  - exists (cool_in name e'). rewrite lookup_alter_eq, He'. split; [done|]. split; [|done].
    unfold is_loaded, cool_in in *. cbn [en_tool_states set_tool_states]. by rewrite lookup_alter_ne.
  - exists e'. by rewrite lookup_alter_ne.
Qed.

(** The loop cools a prefix of its rows, and stops early only below the low watermark. *)
Lemma cool_down_spec rows r external :
  RegistryInv r -> NoDup (row_name <$> rows) -> Forall (row_ok r) rows ->
  exists cooled rest, rows = cooled ++ rest
    /\ (forall id name, state_at (cool_down (cr_inner r) (surface_bytes (cr_inner r) + external) rows).1 id name
          = cooled_state (row_name <$> cooled) name <$> state_at (cr_inner r) id name)
    /\ (rest = [] \/ surface_bytes (cool_down (cr_inner r) (surface_bytes (cr_inner r) + external) rows).1 + external
          <= SURFACE_LOW_WATERMARK_BYTES).
Proof.
  revert r. induction rows as [|[[name idle] bytes] rows IH]; intros r Hinv Hnd Hok.
  { exists [], []. repeat split; [|by left]. intros. apply state_at_nil. }
  cbn [cool_down]. destruct (surface_bytes (cr_inner r) + external <=? SURFACE_LOW_WATERMARK_BYTES) eqn:Hlow.
  { apply Nat.leb_le in Hlow. exists [], ((name, idle, bytes) :: rows). split; [done|]. split; [|by right].
    intros. apply state_at_nil. }
  apply Forall_cons in Hok as [(id & e & He & Hl & Hb) Hok]. cbn in Hl, Hb. apply NoDup_cons in Hnd as [Hn Hnd].
  rewrite (set_tool_warm_owner r id e name) by done. cbn [fst].
  pose proof (cool_surface_bytes _ _ _ _ _ He Hl Hb) as Hbytes.
  set (r1 := set_inner (alter (cool_in name) id (cr_inner r)) r).
  replace (surface_bytes (cr_inner r) + external - bytes) with (surface_bytes (cr_inner r1) + external) by (cbn; lia).
  destruct (IH r1) as (cooled & rest & -> & Hstate & Hrest).
  - apply set_inner_inv; [done|]. apply kin_inner_alter. intros. apply kin_cool.
  - done.
  - rewrite Forall_forall in Hok |- *. intros row Hrow. apply row_ok_cool with e; auto.
    intros Heq. apply Hn. change (name ∈ row_name <$> rows). rewrite <- Heq. by apply list_elem_of_fmap_2.
  - exists ((name, idle, bytes) :: cooled), rest. split; [done|]. split; [|exact Hrest].
    intros id' name'. etransitivity; [exact (Hstate id' name')|]. cbn [r1 cr_inner set_inner].
    rewrite (cool_state_at r id e) by done. rewrite <- option_fmap_compose.
    apply option_fmap_ext. intros state. cbn [compose]. apply cooled_states.
Qed.

(** *** The rows *)

Lemma elem_of_aging tick idle roots inner row :
  row ∈ aging tick idle roots inner <->
  exists id e state, inner !! id = Some e /\ en_tool_states e !! row_name row = Some state
    /\ aging_row tick idle roots e (row_name row, state) = Some row.
Proof.
  unfold aging. rewrite merge_sort_Permutation, list_elem_of_bind. split.
  - intros ([id e] & Hin & He). apply elem_of_map_to_list in He. cbn [snd] in Hin.
    apply list_elem_of_omap in Hin as ([name state] & Hin & Hr). apply elem_of_map_to_list in Hin.
    assert (row_name row = name) as ->.
    { unfold aging_row in Hr. case_match; [|done]. apply fmap_Some in Hr as (b & _ & ->). done. }
    by exists id, e, state.
  - intros (id & e & state & He & Hs & Hr). exists (id, e). split; [|by apply elem_of_map_to_list].
    apply list_elem_of_omap. exists (row_name row, state). split; [by apply elem_of_map_to_list|done].
Qed.

Lemma aging_row_Some tick idle roots e name state row :
  aging_row tick idle roots e (name, state) = Some row ->
  may_cool tick idle roots name state = true /\ bytes_by_name e name = Some row.2 /\ row_name row = name.
Proof.
  unfold aging_row. cbn [fst snd]. destruct (may_cool tick idle roots name state); [|done].
  intros (b & Hb & ->)%fmap_Some. done.
Qed.

Lemma may_cool_loaded tick idle roots name state : may_cool tick idle roots name state = true -> ts_lifecycle state = LcLoaded.
Proof.
  unfold may_cool. rewrite andb_true_iff, negb_true_iff, !orb_false_iff, negb_false_iff, bool_decide_eq_true. tauto.
Qed.

Lemma aging_rows_ok tick idle roots r : Forall (row_ok r) (aging tick idle roots (cr_inner r)).
Proof.
  apply Forall_forall. intros row (id & e & state & He & Hs & Hr)%elem_of_aging.
  apply aging_row_Some in Hr as (Hm & Hb & _). apply may_cool_loaded in Hm. exists id, e.
  split; [done|]. split; [|done]. apply is_loaded_at. eauto.
Qed.

Lemma NoDup_omap_rows tick idle roots e l :
  NoDup l.*1 -> NoDup (row_name <$> omap (aging_row tick idle roots e) l).
Proof.
  induction l as [|[name state] l IH]; cbn [fmap list_fmap omap list_omap fst]; [constructor|].
  intros [Hn Hd]%NoDup_cons. destruct (aging_row tick idle roots e (name, state)) as [row|] eqn:Hr; [|by apply IH].
  cbn [fmap list_fmap]. apply NoDup_cons. split; [|by apply IH].
  apply aging_row_Some in Hr as (_ & _ & ->). intros Hin. apply Hn.
  apply list_elem_of_fmap in Hin as (row' & -> & Hin). apply list_elem_of_omap in Hin as ([name' state'] & Hin & Hr').
  apply aging_row_Some in Hr' as (_ & _ & ->). by apply (list_elem_of_fmap_2 fst) in Hin.
Qed.

Lemma aging_NoDup tick idle roots r : RegistryInv r -> NoDup (row_name <$> aging tick idle roots (cr_inner r)).
Proof.
  intros Hinv. unfold aging. rewrite merge_sort_Permutation. apply NoDup_bind_key.
  - intros [id e] _. apply NoDup_omap_rows, NoDup_fst_map_to_list.
  - intros [id1 e1] [id2 e2] row1 row2 H1 H2 Hr1 Hr2 Heq. apply elem_of_map_to_list in H1, H2.
    apply list_elem_of_omap in Hr1 as ([n1 s1] & Hs1 & Hr1), Hr2 as ([n2 s2] & Hs2 & Hr2).
    apply elem_of_map_to_list in Hs1, Hs2. apply aging_row_Some in Hr1 as (_ & _ & <-), Hr2 as (_ & _ & <-).
    rewrite Heq in Hs1. assert (id1 = id2) as -> by (eapply (ri_owner _ Hinv); eauto; eapply (ri_states _ Hinv); eauto).
    congruence.
  - apply NoDup_map_to_list.
Qed.
(** ** The idle path *)

Definition unloaded_state (tick threshold : N) (roots : list text) (name : text) (state : CapabilityToolState) : CapabilityToolState :=
  if may_unload tick threshold roots name state then with_lifecycle LcUnloaded state else state.

Lemma unload_state_at tick threshold roots inner id name :
  state_at (unload_entry tick threshold roots <$> inner) id name
  = unloaded_state tick threshold roots name <$> state_at inner id name.
Proof.
  unfold state_at. rewrite lookup_fmap. destruct (inner !! id) as [e|]; [|done]. cbn. rewrite map_lookup_imap.
  by destruct (en_tool_states e !! name).
Qed.

Lemma may_unload_warm tick threshold roots name state :
  may_unload tick threshold roots name state = true -> ts_lifecycle state = LcWarm.
Proof. unfold may_unload. rewrite !andb_true_iff, bool_decide_eq_true. tauto. Qed.

Lemma unload_bytes tick threshold roots e : entry_bytes (unload_entry tick threshold roots e) = entry_bytes e.
Proof.
  unfold entry_bytes, unload_entry. cbn [en_tool_states set_tool_states]. symmetry. apply map_sum_ext. intros name.
  rewrite map_lookup_imap. destruct (en_tool_states e !! name) as [state|]; cbn; [|done]. split; [|done].
  destruct (may_unload tick threshold roots name state) eqn:Hm; [|done].
  apply may_unload_warm in Hm. unfold tool_bytes. rewrite Hm. done.
Qed.

Lemma unload_surface_bytes tick threshold roots inner :
  surface_bytes (unload_entry tick threshold roots <$> inner) = surface_bytes inner.
Proof.
  symmetry. apply map_sum_ext. intros id. rewrite lookup_fmap. destruct (inner !! id) as [e|]; cbn; [|done].
  by rewrite unload_bytes.
Qed.

(** ** The whole safe point *)

Lemma gc_fields roots external r :
  let r' := gc_with_pressure roots external r in
  let tick := wrapping_succ (cr_tick r) in
  cr_tick r' = tick /\ cr_idle_to_warm_ticks r' = cr_idle_to_warm_ticks r
  /\ cr_inner r' = unload_entry tick (cr_warm_to_unload_ticks r) roots
                    <$> (relieve_pressure tick roots (loaded_bytes_locked r + external) r).1.
Proof.
  cbn zeta. unfold gc_with_pressure. destruct (relieve_pressure _ _ _ _) as [inner cooled]. by destruct (cooled || _).
Qed.

(** What the pressure path does, whether or not it runs. *)
Lemma relieve_pressure_spec tick roots external r :
  RegistryInv r ->
  let total := loaded_bytes_locked r + external in
  exists cooled, (forall id name, state_at (relieve_pressure tick roots total r).1 id name
        = cooled_state cooled name <$> state_at (cr_inner r) id name)
    /\ (forall name, name ∈ cooled -> SURFACE_SOFT_HIGH_BYTES < total /\ exists id state,
          state_at (cr_inner r) id name = Some state /\ may_cool tick (cr_idle_to_warm_ticks r) roots name state = true)
    /\ (SURFACE_SOFT_HIGH_BYTES < total ->
        surface_bytes (relieve_pressure tick roots total r).1 + external <= SURFACE_LOW_WATERMARK_BYTES
        \/ forall id name state, state_at (cr_inner r) id name = Some state ->
             may_cool tick (cr_idle_to_warm_ticks r) roots name state = true -> name ∈ cooled).
Proof.
  intros Hinv total. unfold relieve_pressure. destruct (SURFACE_SOFT_HIGH_BYTES <? total) eqn:Ht.
  2: { apply Nat.ltb_ge in Ht. rewrite andb_false_r. exists []. split; [intros; apply state_at_nil|]. split.
       - intros name Hin. by apply not_elem_of_nil in Hin.
       - lia. }
  apply Nat.ltb_lt in Ht. change (0 <? SURFACE_SOFT_HIGH_BYTES) with true. cbn [andb].
  set (rows := aging tick (cr_idle_to_warm_ticks r) roots (cr_inner r)).
  destruct (cool_down_spec rows r external Hinv (aging_NoDup _ _ _ _ Hinv) (aging_rows_ok _ _ _ _))
    as (cooled & rest & Hrows & Hstate & Hstop).
  unfold total. rewrite loaded_bytes_surface by done. exists (row_name <$> cooled). split; [done|]. split.
  - intros name (row & -> & Hrow)%list_elem_of_fmap. split; [by rewrite <- loaded_bytes_surface|].
    assert (row ∈ rows) as Hin by (rewrite Hrows; apply elem_of_app; by left).
    apply elem_of_aging in Hin as (id & e & state & He & Hs & Hr). apply aging_row_Some in Hr as (Hm & _ & _).
    exists id, state. split; [|done]. unfold state_at. by rewrite He.
  - intros _. destruct Hstop as [->|Hlow]; [right|by left]. rewrite app_nil_r in Hrows. subst cooled.
    intros id name state Hs Hm. unfold state_at in Hs. destruct (cr_inner r !! id) as [e|] eqn:He; [|done]. cbn in Hs.
    assert (declared e name) as Hd by (eapply (ri_states _ Hinv); eauto).
    destruct (spec_named_declared e name Hd) as [spec Hspec].
    apply list_elem_of_fmap. exists (name, (tick - ts_last_used_tick state)%N, spec_schema_bytes spec). split; [done|].
    apply elem_of_aging. exists id, e, state. split; [done|]. split; [done|]. unfold aging_row. cbn [fst snd row_name].
    rewrite Hm. unfold bytes_by_name. by rewrite Hspec.
Qed.

Lemma may_cool_cooled tick idle roots cooled name state :
  may_cool tick idle roots name (cooled_state cooled name state) = true ->
  may_cool tick idle roots name state = true /\ name ∉ cooled.
Proof.
  intros H. pose proof (may_cool_loaded _ _ _ _ _ H) as Hl. unfold cooled_state in *.
  destruct (bool_decide (name ∈ cooled)) eqn:Hc; cbn in *.
  - case_bool_decide; [done|]. split; [done|]. congruence.
  - apply bool_decide_eq_false in Hc. done.
Qed.

Lemma may_cool_unloaded tick idle threshold roots name state :
  may_cool tick idle roots name (unloaded_state tick threshold roots name state) = true ->
  may_cool tick idle roots name state = true.
Proof.
  intros H. pose proof (may_cool_loaded _ _ _ _ _ H) as Hl. unfold unloaded_state in *.
  by destruct (may_unload tick threshold roots name state).
Qed.

Lemma state_at_owner r id1 id2 name s1 s2 :
  RegistryInv r -> state_at (cr_inner r) id1 name = Some s1 -> state_at (cr_inner r) id2 name = Some s2 -> s1 = s2.
Proof.
  intros Hinv H1 H2. unfold state_at in *.
  destruct (cr_inner r !! id1) as [e1|] eqn:E1, (cr_inner r !! id2) as [e2|] eqn:E2; try done. cbn in H1, H2.
  assert (id1 = id2) as -> by (eapply (ri_owner _ Hinv); eauto; eapply (ri_states _ Hinv); eauto). congruence.
Qed.

Lemma may_cool_facts tick idle roots name state :
  may_cool tick idle roots name state = true ->
  name ∉ roots /\ ts_persistent_load state = false /\ ts_lifecycle state = LcLoaded
  /\ (idle <= tick - ts_last_used_tick state)%N.
Proof.
  unfold may_cool. rewrite andb_true_iff, !negb_true_iff, !orb_false_iff, negb_false_iff, bool_decide_eq_true,
    bool_decide_eq_false, N.ltb_ge. tauto.
Qed.

Lemma with_lifecycle_same state : with_lifecycle (ts_lifecycle state) state = state.
Proof. by destruct state. Qed.

(** What happens to one tool, given why it may be among the cooled. *)
Lemma gc_state_cases tick idle threshold roots cooled name state (over : Prop) :
  (name ∈ cooled -> over /\ may_cool tick idle roots name state = true) ->
  exists lifecycle, Some (unloaded_state tick threshold roots name (cooled_state cooled name state))
      = Some (with_lifecycle lifecycle state)
    /\ (lifecycle = ts_lifecycle state
        \/ ((lifecycle = LcWarm \/ lifecycle = LcUnloaded) /\ name ∉ roots /\ ts_persistent_load state = false
            /\ (ts_lifecycle state = LcWarm \/
                (ts_lifecycle state = LcLoaded /\ over /\ (idle <= tick - ts_last_used_tick state)%N)))).
Proof.
  intros Hc. unfold cooled_state.
  destruct (bool_decide (name ∈ cooled) && bool_decide (ts_lifecycle state = LcLoaded)) eqn:Hb.
  - apply andb_prop in Hb as [Hin _]. apply bool_decide_eq_true in Hin. destruct (Hc Hin) as [Hover Hm].
    apply may_cool_facts in Hm as (Hr & Hp & Hl & Hi). unfold unloaded_state.
    destruct (may_unload _ _ _ _ _); [exists LcUnloaded|exists LcWarm]; (split; [done|right]); auto 10.
  - unfold unloaded_state. destruct (may_unload tick threshold roots name state) eqn:Hm.
    + exists LcUnloaded. split; [done|]. right. pose proof (may_unload_warm _ _ _ _ _ Hm) as Hw.
      unfold may_unload in Hm. rewrite !andb_true_iff, !negb_true_iff, bool_decide_eq_false in Hm. intuition.
    + exists (ts_lifecycle state). rewrite with_lifecycle_same. auto.
Qed.

(** The safe point relieves the surface's byte pressure and nothing else: it advances the clock by
    one; it changes a tool only by cooling or unloading it, never one the task roots or the host
    pinned, and a loaded one only above the high watermark and after its idle threshold; and when the
    total was above it, the bytes left are within the low watermark or no tool that may be cooled
    is still loaded. *)
Theorem gc_relieves_pressure roots external r :
  RegistryInv r ->
  let tick := wrapping_succ (cr_tick r) in
  let total := loaded_bytes_locked r + external in
  let r' := gc_with_pressure roots external r in
  cr_tick r' = tick
  /\ (forall id name state, state_at (cr_inner r) id name = Some state ->
      exists lifecycle, state_at (cr_inner r') id name = Some (with_lifecycle lifecycle state)
        /\ (lifecycle = ts_lifecycle state
            \/ ((lifecycle = LcWarm \/ lifecycle = LcUnloaded) /\ name ∉ roots /\ ts_persistent_load state = false
                /\ (ts_lifecycle state = LcWarm \/
                    (ts_lifecycle state = LcLoaded /\ SURFACE_SOFT_HIGH_BYTES < total
                     /\ (cr_idle_to_warm_ticks r <= tick - ts_last_used_tick state)%N)))))
  /\ (SURFACE_SOFT_HIGH_BYTES < total ->
      loaded_bytes_locked r' + external <= SURFACE_LOW_WATERMARK_BYTES
      \/ forall id name state, state_at (cr_inner r') id name = Some state ->
           may_cool tick (cr_idle_to_warm_ticks r) roots name state = false).
Proof.
  intros Hinv tick total r'.
  destruct (relieve_pressure_spec tick roots external r Hinv) as (cooled & Hstate & Hcooled & Hrelief).
  destruct (gc_fields roots external r) as (Htick & _ & Hinner). fold tick total r' in Htick, Hinner, Hstate, Hrelief, Hcooled.
  assert (RegistryInv r') as Hinv' by (eapply (mechanical_inv False r), Hinv; apply gc_mechanical).
  split; [done|]. rewrite loaded_bytes_surface by done. rewrite Hinner, unload_surface_bytes. split.
  - intros id name state Hs. rewrite unload_state_at, Hstate, Hs. cbn [fmap option_fmap option_map].
    apply gc_state_cases. intros Hin. destruct (Hcooled name Hin) as (Hht & id' & state' & Hs' & Hm).
    assert (state' = state) as -> by exact (state_at_owner r _ _ _ _ _ Hinv Hs' Hs).
    split; [exact Hht|exact Hm].
  - intros Ht. destruct (Hrelief Ht) as [Hlow|Hall]; [by left|right]. intros id name state Hs.
    rewrite unload_state_at, Hstate in Hs. apply fmap_Some in Hs as (s1 & Hs & ->). apply fmap_Some in Hs as (s0 & Hs & ->).
    apply not_true_iff_false. intros Hm. apply may_cool_unloaded, may_cool_cooled in Hm as [Hm Hn].
    apply Hn. by eapply Hall.
Qed.
End gc.

(** Lease reconciliation, and checkpoints of the capability surface: what a restored snapshot leaves
    on the surface of a registry with the same declarations, and with which authority. *)

Section restore.
Context `{JT : JsonText}.

(** ** Leases *)

(** A loaded tool neither the host nor the task holds. *)
Definition releasable (roots : list text) (name : text) (state : CapabilityToolState) : bool :=
  bool_decide (ts_lifecycle state = LcLoaded) && negb (ts_persistent_load state) && negb (bool_decide (name ∈ roots)).

Definition released_state (roots : list text) (name : text) (state : CapabilityToolState) : CapabilityToolState :=
  if releasable roots name state then with_lifecycle LcWarm state else state.

Lemma alter_cool_state_at inner owner name id' name' :
  state_at (alter (cool_in name) owner inner) id' name'
  = (if bool_decide (id' = owner /\ name' = name) then with_lifecycle LcWarm else (fun state => state))
    <$> state_at inner id' name'.
Proof.
  unfold state_at. destruct (decide (id' = owner)) as [->|Hid].
  - rewrite lookup_alter_eq. destruct (inner !! owner) as [e|]; [|done]. cbn.
    destruct (decide (name' = name)) as [->|Hn].
    + by rewrite lookup_alter_eq, bool_decide_eq_true_2.
    + rewrite lookup_alter_ne, bool_decide_eq_false_2 by (done || by intros [_ ?]). by rewrite option_fmap_id.
  - rewrite lookup_alter_ne, bool_decide_eq_false_2 by (done || by intros [? _]).
    destruct (inner !! id') as [e|]; [|done]. cbn. by rewrite option_fmap_id.
Qed.

Definition touched {A} (b : bool) (f : A -> A) (a : A) : A := if b then f a else a.

Lemma fmap_touched {A} b (f : A -> A) (o : option A) : touched b f <$> o = (if b then f <$> o else o).
Proof. destruct b; [done|]. by destruct o. Qed.

Definition settled_count (r : ToolLeaseReconcileReport) : nat :=
  lr_retained_by_root r + lr_retained_by_persistent_source r + lr_released_to_warm r.

(** What one accumulator says of the next, when [here] marks the candidates between them. *)
Record reconciled (roots : list text) (here : text -> text -> bool) (n : nat)
    (acc acc' : gmap text Entry * bool * ToolLeaseReconcileReport) : Prop := {
  rc_state : forall id name, state_at acc'.1.1 id name
      = touched (here id name) (released_state roots name) <$> state_at acc.1.1 id name;
  rc_changed : acc'.1.2 = false -> acc'.1.1 = acc.1.1;
  rc_sticky : acc.1.2 = true -> acc'.1.2 = true;
  rc_examined : lr_examined_loaded_optional acc'.2 = lr_examined_loaded_optional acc.2 + n;
  rc_settled : settled_count acc'.2 = settled_count acc.2 + n;
}.

Lemma reconcile_step roots owner name inner changed report state :
  state_at inner owner name = Some state -> ts_lifecycle state = LcLoaded ->
  reconciled roots (fun id n => bool_decide ((id, n) = (owner, name))) 1 (inner, changed, report)
    (reconcile_candidate roots (inner, changed, report) (owner, name)).
Proof.
  intros Hs Hl. assert (Hat := Hs). unfold state_at in Hs. unfold reconcile_candidate, pinned. rewrite Hs.
  assert (Hstay : releasable roots name state = false -> forall id n, state_at inner id n
    = touched (bool_decide ((id, n) = (owner, name))) (released_state roots n) <$> state_at inner id n).
  { intros Hr id n. rewrite fmap_touched. case_bool_decide as Hd; [|done]. injection Hd as -> ->.
    rewrite Hat. cbn. unfold released_state. by rewrite Hr. }
  destruct (ts_persistent_load state) eqn:Hp; [|case_bool_decide as Hr].
  - split; [|unfold settled_count; cbn; (done || lia)..]. apply Hstay. unfold releasable. by rewrite Hp, andb_false_r.
  - split; [|unfold settled_count; cbn; (done || lia)..]. apply Hstay. unfold releasable.
    rewrite (bool_decide_eq_true_2 _ Hr). apply andb_false_r.
  - split; [|unfold settled_count; cbn; (done || lia)..]. cbn [fst]. intros id n. rewrite alter_cool_state_at, fmap_touched.
    destruct (decide ((id, n) = (owner, name))) as [[= -> ->]|Hne].
    + rewrite !bool_decide_eq_true_2, Hat by done. cbn. unfold released_state, releasable.
      by rewrite Hl, Hp, (bool_decide_eq_false_2 _ Hr).
    + rewrite !bool_decide_eq_false_2 by (congruence || by intros [-> ->]). apply option_fmap_id.
Qed.

Lemma reconciled_trans roots here1 here2 n1 n2 acc1 acc2 acc3 :
  (forall id name, here1 id name = true -> here2 id name = true -> False) ->
  reconciled roots here1 n1 acc1 acc2 -> reconciled roots here2 n2 acc2 acc3 ->
  reconciled roots (fun id name => here1 id name || here2 id name) (n1 + n2) acc1 acc3.
Proof.
  intros Hdisj [S1 C1 T1 E1 W1] [S2 C2 T2 E2 W2]. split; [|..].
  - intros id name. rewrite S2, S1, !fmap_touched. specialize (Hdisj id name).
    destruct (here1 id name), (here2 id name); cbn; try done. by destruct Hdisj.
  - intros H3. rewrite C2 by done. apply C1. destruct acc2.1.2 eqn:H2; [|done]. rewrite T2 in H3; done.
  - auto.
  - rewrite E2, E1. lia.
  - rewrite W2, W1. lia.
Qed.

Lemma reconciled_ext roots here1 here2 n acc acc' :
  (forall id name, here1 id name = here2 id name) -> reconciled roots here1 n acc acc' -> reconciled roots here2 n acc acc'.
Proof. intros H [S C T E W]. split; [|done..]. intros id name. rewrite S. by rewrite H. Qed.

Lemma reconcile_fold roots candidates acc :
  NoDup candidates ->
  (forall owner name, (owner, name) ∈ candidates ->
     exists state, state_at acc.1.1 owner name = Some state /\ ts_lifecycle state = LcLoaded) ->
  reconciled roots (fun id name => bool_decide ((id, name) ∈ candidates)) (length candidates) acc
    (fold_left (reconcile_candidate roots) candidates acc).
Proof.
  revert acc. induction candidates as [|[owner name] candidates IH]; intros [[inner changed] report] Hnd Hst.
  { split; cbn; try done; try lia. intros id n. rewrite fmap_touched, bool_decide_eq_false_2 by apply not_elem_of_nil. done. }
  apply NoDup_cons in Hnd as [Hn Hnd]. destruct (Hst owner name) as (state & Hs & Hl); [left|].
  pose proof (reconcile_step roots owner name inner changed report state Hs Hl) as Hstep. cbn [fold_left length].
  eapply reconciled_ext; [|eapply (reconciled_trans _ _ _ 1); [|exact Hstep|apply IH]].
  - intros id n. cbn. rewrite <- bool_decide_or. apply bool_decide_ext. by rewrite elem_of_cons.
  - intros id n H1 H2. apply bool_decide_eq_true in H1, H2. congruence.
  - done.
  - intros o n Hin. rewrite (rc_state _ _ _ _ _ Hstep), fmap_touched, bool_decide_eq_false_2 by congruence.
    apply Hst. by right.
Qed.

Lemma elem_of_loaded_names e name : name ∈ loaded_names e <-> is_loaded e name = true.
Proof.
  unfold loaded_names. rewrite is_loaded_at, list_elem_of_fmap. split.
  - intros ([n s] & -> & [Hl Hin]%list_elem_of_filter). apply elem_of_map_to_list in Hin. eauto.
  - intros (s & Hs & Hl). exists (name, s). split; [done|]. apply list_elem_of_filter. by rewrite elem_of_map_to_list.
Qed.

Lemma elem_of_candidates inner owner name :
  (owner, name) ∈ lease_candidates inner <->
  exists state, state_at inner owner name = Some state /\ ts_lifecycle state = LcLoaded.
Proof.
  unfold lease_candidates. rewrite merge_sort_Permutation, list_elem_of_bind. unfold state_at. split.
  - intros ([id e] & Hin & He). apply elem_of_map_to_list in He. cbn in Hin.
    apply list_elem_of_fmap in Hin as (n & [= -> ->] & Hin). apply elem_of_loaded_names, is_loaded_at in Hin.
    by rewrite He.
  - intros (state & Hs & Hl). destruct (inner !! owner) as [e|] eqn:He; [|done]. exists (owner, e).
    split; [|by apply elem_of_map_to_list]. apply list_elem_of_fmap. exists name. split; [done|].
    apply elem_of_loaded_names, is_loaded_at. eauto.
Qed.

Lemma candidates_NoDup inner : NoDup (lease_candidates inner).
Proof.
  unfold lease_candidates. rewrite merge_sort_Permutation.
  apply NoDup_bind.
  - intros [id1 e1] [id2 e2] [o n] H1 H2 Hn1 Hn2. apply elem_of_map_to_list in H1, H2. cbn in Hn1, Hn2.
    apply list_elem_of_fmap in Hn1 as (? & [= -> ->] & _), Hn2 as (? & [= -> ->] & _). congruence.
  - intros [id e] _. cbn. apply NoDup_fmap_2; [by intros ? ? [=]|]. unfold loaded_names.
    eapply sublist_NoDup; [apply (NoDup_fst_map_to_list (en_tool_states e))|]. apply fmap_sublist, sublist_filter.
  - apply NoDup_map_to_list.
Qed.

(** Lease reconciliation leaves on the surface exactly what is held: every tool the registry has
    keeps its state, but a loaded one that neither the host pinned nor the task roots becomes warm;
    the idle clock stands still, the report accounts for each loaded tool once, and the generation
    moves only with the surface. *)
Theorem reconcile_leases_exact roots r :
  let '(report, r') := reconcile_leases roots r in
  (forall id name, state_at (cr_inner r') id name = released_state roots name <$> state_at (cr_inner r) id name)
  /\ cr_tick r' = cr_tick r /\ cr_state r' = cr_state r
  /\ lr_examined_loaded_optional report = length (lease_candidates (cr_inner r))
  /\ settled_count report = lr_examined_loaded_optional report
  /\ (cr_inner r' = cr_inner r \/ cr_generation r' = wrapping_succ (cr_generation r)).
Proof.
  pose proof (reconcile_fold roots (lease_candidates (cr_inner r)) (cr_inner r, false, empty_report)
    (candidates_NoDup _) (fun owner name => proj1 (elem_of_candidates _ _ _))) as [Hs Hc _ He Hw].
  unfold reconcile_leases. destruct (fold_left _ _ _) as [[inner changed] report]. cbn [fst snd] in Hs, Hc, He, Hw.
  assert (Hstate : forall id name, state_at inner id name = released_state roots name <$> state_at (cr_inner r) id name).
  { intros id name. rewrite Hs, fmap_touched. case_bool_decide as Hin; [done|]. rewrite elem_of_candidates in Hin.
    destruct (state_at (cr_inner r) id name) as [state|] eqn:Hat; [|done]. cbn. unfold released_state, releasable.
    rewrite (bool_decide_eq_false_2 (ts_lifecycle state = LcLoaded)); [done|]. intros Hl. apply Hin. eauto. }
  unfold settled_count in *. cbn in He, Hw. destruct changed.
  - split; [exact Hstate|]. repeat split; [done|lia|by right].
  - rewrite (Hc eq_refl) in Hstate. repeat split; [exact Hstate|done|lia|by left].
Qed.
(** ** Checkpoints *)

Lemma lookup_restored persistent names name :
  (list_to_map (restored_tool persistent <$> names) : gmap text CapabilityToolState) !! name
  = if decide (name ∈ names) then Some (restored_tool persistent name).2 else None.
Proof.
  induction names as [|n names IH]; cbn [fmap list_fmap list_to_map foldr].
  - by rewrite lookup_empty.
  - cbn [restored_tool fst snd uncurry]. destruct (decide (name = n)) as [->|Hne].
    + rewrite lookup_insert_eq, decide_True by left. done.
    + rewrite lookup_insert_ne by done. etransitivity; [exact IH|]. apply decide_ext. rewrite elem_of_cons. tauto.
Qed.

(** Which tools a row puts back. *)
Definition row_restores (row : CapabilitySnapshot) (e : Entry) (name : text) : Prop :=
  declared e name
  /\ (name ∈ sn_loaded_tools row \/ (sn_loaded_tools row = [] /\ sn_loaded row = true) \/ name ∈ persistent_tools e).

Lemma restored_states_lookup effective row e name state :
  restored_states effective row e !! name = Some state <->
  usable effective = true /\ row_restores row e name /\ state = (restored_tool (persistent_tools e) name).2.
Proof.
  unfold restored_states, row_restores. destruct (usable effective); cbn [negb]; [|rewrite lookup_empty; naive_solver].
  rewrite lookup_union, lookup_restored.
  assert (forall l, name ∈ filter (declared e) l <-> declared e name /\ name ∈ l) as Hf by (intros; apply list_elem_of_filter).
  destruct (decide (name ∈ filter (declared e) (persistent_tools e))) as [Hp|Hp]; rewrite Hf in Hp.
  - case_bool_decide as Hl; [rewrite lookup_restored; case_decide as Hd|destruct (sn_loaded row);
      [rewrite lookup_restored; case_decide as Hd|rewrite lookup_empty]]; cbn; naive_solver.
  - rewrite (right_id None _). case_bool_decide as Hl.
    + rewrite lookup_restored. case_decide as Hd; rewrite Hf in Hd; naive_solver.
    + rewrite Hl. destruct (sn_loaded row).
      * rewrite lookup_restored. unfold declared in *. case_decide as Hd; naive_solver.
      * rewrite lookup_empty. split; [done|]. intros (_ & [? [H|[[_ H]|H]]] & _); [by apply not_elem_of_nil in H|done|].
        by destruct Hp.
Qed.

Definition restored_entry (live : gmap text CapabilityState) (row : CapabilitySnapshot) (e : Entry) : Entry :=
  match live !! sn_id row with
  | Some s => set_tool_states (restored_states (restore_activation_meet (cs_activation s) (sn_activation row)) row e) e
  | None => set_tool_states ∅ e
  end.

Definition row_state (live : gmap text CapabilityState) (inner : gmap text Entry) (row : CapabilitySnapshot) :
    option (text * CapabilityState) :=
  match inner !! sn_id row, live !! sn_id row with
  | Some _, Some s => Some (sn_id row, {| cs_status := cs_status s;
                                          cs_activation := restore_activation_meet (cs_activation s) (sn_activation row) |})
  | _, _ => None
  end.

Lemma restore_row_eq live inner restored row :
  restore_row live (inner, restored) row
  = (alter (restored_entry live row) (sn_id row) inner,
     restored ++ match row_state live inner row with Some entry => [entry] | None => [] end).
Proof.
  unfold restore_row, row_state, restored_entry. destruct (inner !! sn_id row) as [e|] eqn:He.
  - destruct (live !! sn_id row) as [s|]; f_equal; try by rewrite app_nil_r.
    all: apply map_eq; intros id; destruct (decide (id = sn_id row)) as [->|Hne];
      [rewrite lookup_insert_eq, lookup_alter_eq, He|rewrite lookup_insert_ne, lookup_alter_ne by done]; done.
  - rewrite app_nil_r. f_equal. apply map_eq. intros id. destruct (decide (id = sn_id row)) as [->|Hne].
    + by rewrite lookup_alter_eq, He.
    + by rewrite lookup_alter_ne.
Qed.

Lemma restore_rows_fold live rows inner restored :
  NoDup (sn_id <$> rows) ->
  let final := fold_left (restore_row live) rows (inner, restored) in
  (forall id, id ∉ sn_id <$> rows -> final.1 !! id = inner !! id)
  /\ (forall row, row ∈ rows -> final.1 !! sn_id row = restored_entry live row <$> inner !! sn_id row)
  /\ final.2 = restored ++ omap (row_state live inner) rows.
Proof.
  revert inner restored. induction rows as [|row rows IH]; intros inner restored Hnd; cbn [fold_left].
  { split; [done|]. split; [intros row Hin; by apply not_elem_of_nil in Hin|by rewrite app_nil_r]. }
  cbn [fmap list_fmap] in Hnd. apply NoDup_cons in Hnd as [Hn Hnd]. rewrite restore_row_eq.
  destruct (IH (alter (restored_entry live row) (sn_id row) inner)
    (restored ++ match row_state live inner row with Some entry => [entry] | None => [] end) Hnd) as (H1 & H2 & H3).
  split; [|split].
  - intros id [Hne Hid]%not_elem_of_cons. rewrite H1 by done. by rewrite lookup_alter_ne.
  - intros row' [->|Hin]%elem_of_cons.
    + rewrite H1 by done. by rewrite lookup_alter_eq.
    + rewrite H2 by done. rewrite lookup_alter_ne; [done|]. intros Heq. apply Hn. rewrite Heq. by apply list_elem_of_fmap_2.
  - rewrite H3, <- app_assoc. f_equal. cbn [omap list_omap].
    assert (omap (row_state live (alter (restored_entry live row) (sn_id row) inner)) rows = omap (row_state live inner) rows)
      as ->.
    { apply list_omap_ext, Forall_Forall2_diag, Forall_forall. intros row' Hin. unfold row_state.
      rewrite lookup_alter_ne; [done|]. intros Heq. apply Hn. rewrite Heq. by apply list_elem_of_fmap_2. }
    by destruct (row_state live inner row).
Qed.

Lemma restore_states_fold states m :
  NoDup states.*1 ->
  forall id, fold_left restore_one states m !! id
    = match m !! id with
      | Some s => Some (default s ((list_to_map states : gmap text CapabilityState) !! id))
      | None => None
      end.
Proof.
  revert m. induction states as [|[i s0] states IH]; intros m Hnd id; cbn [fold_left].
  { cbn. rewrite lookup_empty. by destruct (m !! id). }
  cbn [fmap list_fmap] in Hnd. apply NoDup_cons in Hnd as [Hn Hnd]. rewrite IH by done. cbn [list_to_map foldr uncurry fst snd].
  unfold restore_one. cbn [fst snd]. destruct (decide (id = i)) as [->|Hne].
  - rewrite lookup_insert_eq. destruct (m !! i) as [s|] eqn:Hm; [|by rewrite Hm]. rewrite lookup_insert_eq. cbn.
    by rewrite (proj1 (not_elem_of_list_to_map states i)) by done.
  - rewrite lookup_insert_ne by done. destruct (m !! i); [rewrite lookup_insert_ne by done|]; done.
Qed.
Lemma elem_of_snapshot r row :
  row ∈ registry_snapshot r <-> exists id e, cr_inner r !! id = Some e /\ row = entry_snapshot r (id, e).
Proof.
  unfold registry_snapshot. rewrite merge_sort_Permutation, list_elem_of_fmap. split.
  - intros ([id e] & -> & Hin). apply elem_of_map_to_list in Hin. eauto.
  - intros (id & e & He & ->). exists (id, e). by rewrite elem_of_map_to_list.
Qed.

Lemma snapshot_NoDup r : NoDup (sn_id <$> registry_snapshot r).
Proof.
  unfold registry_snapshot. rewrite merge_sort_Permutation, <- list_fmap_compose. apply NoDup_fst_map_to_list.
Qed.

Lemma row_state_keys live inner rows : (omap (row_state live inner) rows).*1 `sublist_of` (sn_id <$> rows).
Proof.
  induction rows as [|row rows IH]; cbn [omap list_omap fmap list_fmap]; [done|].
  destruct (row_state live inner row) as [[i s]|] eqn:E; [|by apply sublist_cons].
  assert (i = sn_id row) as -> by (unfold row_state in E; repeat case_match; by simplify_eq).
  cbn [fmap list_fmap fst]. by apply sublist_skip.
Qed.

Lemma omap_length_all {A B} (f : A -> option B) l : (forall a, a ∈ l -> is_Some (f a)) -> length (omap f l) = length l.
Proof.
  induction l as [|a l IH]; intros H; [done|]. cbn [omap list_omap].
  destruct (H a) as [b ->]; [left|]. cbn. f_equal. apply IH. intros x Hx. apply H. by right.
Qed.

Lemma retained_elem e name :
  name ∈ merge_sort name_le (retained_names e) <->
  exists state, en_tool_states e !! name = Some state /\ (ts_lifecycle state = LcLoaded \/ ts_lifecycle state = LcWarm).
Proof.
  unfold retained_names. rewrite merge_sort_Permutation, list_elem_of_fmap. split.
  - intros ([n state] & -> & [Hl Hin]%list_elem_of_filter). apply elem_of_map_to_list in Hin. eauto.
  - intros (state & Hs & Hl). exists (name, state). split; [done|]. apply list_elem_of_filter. by rewrite elem_of_map_to_list.
Qed.

Lemma elem_of_persistent e name :
  name ∈ persistent_tools e <-> exists state, en_tool_states e !! name = Some state /\ ts_persistent_load state = true.
Proof.
  unfold persistent_tools. rewrite list_elem_of_fmap. split.
  - intros ([n state] & -> & [Hp Hin]%list_elem_of_filter). apply elem_of_map_to_list in Hin. eauto.
  - intros (state & Hs & Hp). exists (name, state). split; [done|]. apply list_elem_of_filter. by rewrite elem_of_map_to_list.
Qed.

(** The run that restores declares what the run that saved did. *)
Definition redeclared (saved live : CapabilityRegistry) : Prop :=
  forall id e, cr_inner saved !! id = Some e ->
  exists e', cr_inner live !! id = Some e' /\ en_tool_specs e' = en_tool_specs e.

(** A tool the checkpoint or the live host asks for. *)
Definition wanted (saved live : CapabilityRegistry) (id name : text) : Prop :=
  (exists state, state_at (cr_inner saved) id name = Some state
     /\ (ts_lifecycle state = LcLoaded \/ ts_lifecycle state = LcWarm))
  \/ pinned (cr_inner live) id name = true.

Lemma pinned_persistent inner id e name : inner !! id = Some e -> pinned inner id name = true <-> name ∈ persistent_tools e.
Proof.
  intros He. rewrite elem_of_persistent. unfold pinned. rewrite He. cbn.
  destruct (en_tool_states e !! name) as [state|]; naive_solver.
Qed.

Lemma row_restores_wanted saved live id e e' name :
  RegistryInv saved -> RegistryInv live -> cr_inner saved !! id = Some e -> cr_inner live !! id = Some e' ->
  en_tool_specs e' = en_tool_specs e ->
  row_restores (entry_snapshot saved (id, e)) e' name <-> wanted saved live id name.
Proof.
  intros Hs Hl He He' Hspecs. unfold row_restores, wanted, entry_snapshot. cbn [sn_loaded_tools sn_loaded snd].
  rewrite retained_elem, (pinned_persistent _ id e') by done. unfold state_at. rewrite He. cbn.
  assert (forall state, en_tool_states e !! name = Some state -> declared e' name) as Hd.
  { intros state Hst. unfold declared. rewrite Hspecs. by eapply (ri_states _ Hs); eauto. }
  assert (name ∈ persistent_tools e' -> declared e' name) as Hd'.
  { rewrite elem_of_persistent. intros (state & Hst & _). by eapply (ri_states _ Hl); eauto. }
  rewrite bool_decide_eq_true. naive_solver.
Qed.

Lemma redeclared_live saved live id e :
  RegistryInv live -> redeclared saved live -> cr_inner saved !! id = Some e ->
  exists e' s, cr_inner live !! id = Some e' /\ en_tool_specs e' = en_tool_specs e
    /\ ca_inner (cr_state live) !! id = Some s.
Proof.
  intros Hl Hre He. destruct (Hre id e He) as (e' & He' & Hsp).
  destruct (proj2 (ri_state _ Hl id) (ex_intro _ e' He')) as [s Hst]. eauto.
Qed.

Lemma snapshot_rows_apply saved live row :
  RegistryInv live -> redeclared saved live -> row ∈ registry_snapshot saved ->
  is_Some (row_state (ca_inner (cr_state live)) (cr_inner live) row).
Proof.
  intros Hl Hre (id & e & He & ->)%elem_of_snapshot.
  destruct (redeclared_live saved live id e Hl Hre He) as (e' & s & He' & _ & Hst).
  unfold row_state. cbn [entry_snapshot sn_id fst]. rewrite He', Hst. by eexists.
Qed.

(** The authority a restore of [saved] leaves for one capability. *)
Lemma restored_authority saved live id e e' s :
  cr_inner saved !! id = Some e -> cr_inner live !! id = Some e' -> ca_inner (cr_state live) !! id = Some s ->
  ca_inner (restore (omap (row_state (ca_inner (cr_state live)) (cr_inner live)) (registry_snapshot saved)) (cr_state live)) !! id
  = Some {| cs_status := cs_status s;
            cs_activation := restore_activation_meet (activation_of id live) (activation_of id saved) |}.
Proof.
  intros He He' Hst. set (states := omap _ _).
  assert (NoDup states.*1) as Hnd by (eapply sublist_NoDup; [apply snapshot_NoDup|apply row_state_keys]).
  unfold restore. cbn [ca_inner]. rewrite restore_states_fold, Hst by done. f_equal.
  erewrite elem_of_list_to_map_1; [cbn; reflexivity|done|].
  apply list_elem_of_omap. exists (entry_snapshot saved (id, e)). split; [apply elem_of_snapshot; eauto|].
  unfold row_state, activation_of at 1, activation. cbn [entry_snapshot sn_id fst]. by rewrite He', Hst.
Qed.

(** A restored checkpoint gives back the surface it saved, under the authority that is live:
    every saved capability counts as applied; its activation becomes the meet of the live and the
    saved one, with its maturity unchanged; and a tool of it is on the surface exactly when that
    activation is usable and the checkpoint held it loaded or warm or the live host pins it. *)
Theorem snapshot_restores saved live :
  RegistryInv saved -> RegistryInv live -> redeclared saved live ->
  let '(applied, r') := registry_restore (registry_snapshot saved) live in
  applied = size (cr_inner saved)
  /\ forall id, is_Some (cr_inner saved !! id) ->
     let effective := restore_activation_meet (activation_of id live) (activation_of id saved) in
     activation id (cr_state r') = Some effective /\ status id (cr_state r') = status id (cr_state live)
     /\ forall name state, state_at (cr_inner r') id name = Some state <->
          usable effective = true /\ wanted saved live id name
          /\ state = {| ts_lifecycle := LcLoaded; ts_last_used_tick := 0;
                        ts_persistent_load := pinned (cr_inner live) id name |}.
Proof.
  intros Hs Hl Hre. pose proof (restore_rows_fold (ca_inner (cr_state live)) (registry_snapshot saved) (cr_inner live) []
    (snapshot_NoDup saved)) as (_ & Hrow & Hstates).
  unfold registry_restore. destruct (fold_left (restore_row _) _ _) as [inner restored]. cbn [fst snd] in Hrow, Hstates.
  rewrite app_nil_l in Hstates. subst restored. split.
  - rewrite omap_length_all by (intros; by apply (snapshot_rows_apply saved)). unfold registry_snapshot.
    by rewrite merge_sort_Permutation, length_fmap, length_map_to_list.
  - intros id [e He]. destruct (redeclared_live saved live id e Hl Hre He) as (e' & s & He' & Hsp & Hst).
    cbn [cr_state set_inner set_state bump cr_inner]. unfold activation, status.
    rewrite (restored_authority saved live id e e' s), Hst by done. split; [done|]. split; [done|].
    intros name state. unfold state_at.
    change (inner !! id) with (inner !! sn_id (entry_snapshot saved (id, e))).
    rewrite Hrow by (apply elem_of_snapshot; eauto).
    cbn [sn_id entry_snapshot fst]. rewrite He'. cbn [fmap option_fmap option_map mbind option_bind].
    unfold restored_entry. cbn [sn_id entry_snapshot fst sn_activation]. rewrite Hst. cbn [en_tool_states set_tool_states].
    rewrite restored_states_lookup. change (sn_activation _) with (activation_of id saved).
    assert (cs_activation s = activation_of id live) as -> by (unfold activation_of, activation; by rewrite Hst).
    rewrite (row_restores_wanted saved live id e e') by done. cbn [restored_tool snd].
    rewrite (bool_decide_ext _ (pinned (cr_inner live) id name = true)) by (symmetry; by apply pinned_persistent).
    by destruct (pinned (cr_inner live) id name).
Qed.
End restore.
