(* ===== verification/PluginRegistry.v ===== *)
(** The runtime's plugin package catalog (agent-runtime/plugin.rs): install, uninstall, the activation
    flows, the firing order of hooks and the bounded read of a skill body; then their properties.

    The package root is a tree of plain directories, regular files and everything else (links, devices,
    FIFOs), which does not change during a read; paths are Unix paths.  The runner of a package's self
    checks is process I/O and is left out. *)

From stdpp Require Import sorting.
From S2P Require Import Prelude Text Jcs Operation Intent OutputBroker Capability Plugin CapabilityRegistry.
From S2P Require Import CapabilityTheorems.

(** ** Confinement of a reference *)

Definition confined (path : text) : bool :=
  negb (is_absolute path)
  && forallb (fun component => match component with Normal _ | CurDir => true | _ => false end) (components path).

(** ** The package root *)

Inductive Node : Type :=
| Dir (entries : list (text * Node))
| File (bytes : list N)
| Special.

Fixpoint entry_named (name : text) (entries : list (text * Node)) : option Node :=
  match entries with
  | [] => None
  | (n, node) :: entries' => if bool_decide (n = name) then Some node else entry_named name entries'
  end.

(** [confined_open_regular], then what the handle reads: every directory on the way is plain, the last
    entry a regular file. *)
Fixpoint open_regular (node : Node) (path : list Component) : option (list N) :=
  match path, node with
  | [], File bytes => Some bytes
  | CurDir :: path', Dir _ => open_regular node path'
  | Normal name :: path', Dir entries =>
      match entry_named name entries with Some node' => open_regular node' path' | None => None end
  | _, _ => None
  end.

Definition MAX_SKILL_BODY_BYTES : nat := N.to_nat 65536.

Record SkillBody : Type := {
  sb_package : text;
  sb_skill : text;
  sb_version : text;
  sb_provenance : SkillSource;
  sb_reference : text;
  sb_body : text;
}.

Section plugins.
Context `{JT : JsonText}.

Record PackageEntry : Type := {
  pe_manifest : PluginPackageManifest;
  pe_installed_at : N;
  pe_root : option Node;
}.

Record PluginRegistry : Type := {
  pr_packages : gmap text PackageEntry;
  pr_state : gmap text PluginActivation;
  pr_next_install : N;
}.

Definition plugin_registry_new : PluginRegistry := {| pr_packages := ∅; pr_state := ∅; pr_next_install := 0 |}.

Definition install_inner (manifest : PluginPackageManifest) (root : option Node) : M PluginRegistry AgentError unit := fun r =>
  match validate_package manifest with
  | Err error => (Err error, r)
  | Ok _ =>
      match pr_packages r !! pp_id manifest with
      | Some _ => (invalid "package is already installed", r)
      | None =>
          let entry := {| pe_manifest := manifest; pe_installed_at := pr_next_install r; pe_root := root |} in
          (Ok tt, {| pr_packages := <[pp_id manifest := entry]> (pr_packages r);
                     pr_state := install (pp_id manifest) (pr_state r);
                     pr_next_install := wrapping_succ (pr_next_install r) |})
      end
  end.

Definition install_from_root (manifest : PluginPackageManifest) (root : Node) : M PluginRegistry AgentError unit :=
  match root with
  | Dir _ => install_inner manifest (Some root)
  | _ => fail (InvalidRequest (txt "plugin package root is not a directory"))
  end.

Definition uninstall_package (id : text) : M PluginRegistry AgentError unit := fun r =>
  match pr_packages r !! id with
  | None => (invalid "package is not installed", r)
  | Some _ => (Ok tt, {| pr_packages := delete id (pr_packages r); pr_state := uninstall id (pr_state r);
                         pr_next_install := pr_next_install r |})
  end.

(** [enable], [disable], [quarantine] and [unquarantine] differ in their target alone. *)
Definition move_package (id : text) (next : PluginActivation) : M PluginRegistry AgentError unit := fun r =>
  match pr_packages r !! id with
  | None => (invalid "package is not installed", r)
  | Some _ =>
      let '(answer, state) := package_set_activation id next (pr_state r) in
      (map_err InvalidRequest answer,
       {| pr_packages := pr_packages r; pr_state := state; pr_next_install := pr_next_install r |})
  end.

Definition enable_package (id : text) : M PluginRegistry AgentError unit := move_package id PluginActive.
Definition disable_package (id : text) : M PluginRegistry AgentError unit := move_package id PluginDisabled.
Definition quarantine_package (id : text) : M PluginRegistry AgentError unit := move_package id PluginQuarantined.
Definition unquarantine_package (id : text) : M PluginRegistry AgentError unit := move_package id PluginDisabled.

(** ** Hooks *)

Record HookRow : Type := {
  hr_order : N;
  hr_installed_at : N;
  hr_index : nat;
  hr_package : text;
  hr_id : text;
}.

(** The tuple order of [sort_by_key]. *)
Definition hook_row_le (a b : HookRow) : Prop :=
  (hr_order a < hr_order b)%N
  \/ (hr_order a = hr_order b
      /\ ((hr_installed_at a < hr_installed_at b)%N
          \/ (hr_installed_at a = hr_installed_at b /\ hr_index a <= hr_index b))).

#[export] Instance hook_row_le_dec : RelDecision hook_row_le.
Proof. intros a b. unfold hook_row_le. apply _. Defined.

Definition package_hook_rows (event : text) (id : text) (entry : PackageEntry) : list HookRow :=
  omap (fun p : nat * HookDeclaration =>
      if bool_decide (hk_event p.2 = event)
      then Some {| hr_order := hk_order p.2; hr_installed_at := pe_installed_at entry; hr_index := p.1;
                   hr_package := id; hr_id := hk_id p.2 |}
      else None)
    (zip (seq 0 (length (pp_hooks (pe_manifest entry)))) (pp_hooks (pe_manifest entry))).

Definition hook_rows (event : text) (r : PluginRegistry) : list HookRow :=
  map_to_list (pr_packages r) ≫= fun p =>
    if bool_decide (pr_state r !! p.1 = Some PluginActive) then package_hook_rows event p.1 p.2 else [].

(** [(package, id)] of the hooks that would fire. *)
Definition hook_order (event : text) (r : PluginRegistry) : list (text * text) :=
  (fun row => (hr_package row, hr_id row)) <$> merge_sort hook_row_le (hook_rows event r).

(** ** Skills *)

Definition skill_named (skill_id : text) (manifest : PluginPackageManifest) : option (nat * SkillDeclaration) :=
  list_find (fun skill => sk_id skill = skill_id) (pp_skills manifest).

Definition with_skill_activation (next : SkillActivation) (skill : SkillDeclaration) : SkillDeclaration :=
  {| sk_id := sk_id skill; sk_version := sk_version skill; sk_summary := sk_summary skill;
     sk_reference := sk_reference skill; sk_provenance := sk_provenance skill; sk_activation := next |}.

Definition with_skills (skills : list SkillDeclaration) (manifest : PluginPackageManifest) : PluginPackageManifest :=
  {| pp_id := pp_id manifest; pp_version := pp_version manifest; pp_name := pp_name manifest;
     pp_summary := pp_summary manifest; pp_api := pp_api manifest; pp_tools := pp_tools manifest;
     pp_skills := skills; pp_hooks := pp_hooks manifest; pp_adapters := pp_adapters manifest;
     pp_dependencies := pp_dependencies manifest; pp_permissions := pp_permissions manifest;
     pp_tests := pp_tests manifest |}.

Definition set_skill_activation (package skill_id : text) (next : SkillActivation) : M PluginRegistry AgentError unit := fun r =>
  match pr_packages r !! package with
  | None => (invalid "package is not installed", r)
  | Some entry =>
      match skill_named skill_id (pe_manifest entry) with
      | None => (invalid "package declares no such skill", r)
      | Some (i, skill) =>
          let skills := <[i := with_skill_activation next skill]> (pp_skills (pe_manifest entry)) in
          let entry' := {| pe_manifest := with_skills skills (pe_manifest entry);
                           pe_installed_at := pe_installed_at entry; pe_root := pe_root entry |} in
          (Ok tt, {| pr_packages := <[package := entry']> (pr_packages r); pr_state := pr_state r;
                     pr_next_install := pr_next_install r |})
      end
  end.

Definition skill_read (package skill_id : text) (r : PluginRegistry) : AgentResult SkillBody :=
  let? entry := ok_or (pr_packages r !! package) (InvalidRequest (txt "package is not installed")) in
  let? found := ok_or (skill_named skill_id (pe_manifest entry)) (InvalidRequest (txt "package declares no such skill")) in
  let skill := found.2 in
  if negb (bool_decide (pr_state r !! package = Some PluginActive))
  then invalid "package is not active; enable it before reading its skills"
  else if negb (bool_decide (sk_activation skill = SkillActive))
  then invalid "skill is not active; activate it before reading it"
  else
    let? root := ok_or (pe_root entry) (InvalidRequest (txt "package was installed without a root")) in
    if negb (confined (sk_reference skill)) then invalid "skill reference escapes its package root"
    else
      let? contents := ok_or (open_regular root (components (sk_reference skill))) (Tool (txt "read skill")) in
      let bytes := take (MAX_SKILL_BODY_BYTES + 1) contents in
      if MAX_SKILL_BODY_BYTES <? length bytes
      then Err (Tool (txt "skill body exceeds the byte cap; refused (never truncated)"))
      else
        let? body := ok_or (from_utf8 bytes) (Tool (txt "skill body is not valid UTF-8")) in
        Ok {| sb_package := package; sb_skill := skill_id; sb_version := sk_version skill;
              sb_provenance := sk_provenance skill; sb_reference := sk_reference skill; sb_body := body |}.

(** The calls an installer and an operator make. *)
Inductive PluginOp : Type :=
| PoInstall (manifest : PluginPackageManifest) (root : option Node)
| PoUninstall (id : text)
| PoMove (id : text) (next : PluginActivation)
| PoSkill (package skill_id : text) (next : SkillActivation).

Definition plugin_step (r : PluginRegistry) (op : PluginOp) : PluginRegistry :=
  match op with
  | PoInstall manifest None => (install_inner manifest None r).2
  | PoInstall manifest (Some root) => (install_from_root manifest root r).2
  | PoUninstall id => (uninstall_package id r).2
  | PoMove id next => (move_package id next r).2
  | PoSkill package skill_id next => (set_skill_activation package skill_id next r).2
  end.

Definition plugin_run (ops : list PluginOp) (r : PluginRegistry) : PluginRegistry := fold_left plugin_step ops r.
End plugins.

(** Installed packages: the catalog's invariant, when a package is active, the order its hooks would
    fire in and what a skill read may return. *)

Section plugins.
Context `{JT : JsonText}.

(** ** The catalog *)

Record PluginInv (r : PluginRegistry) : Prop := {
  pi_entry : forall id entry, pr_packages r !! id = Some entry ->
      pp_id (pe_manifest entry) = id /\ PackageWf (pe_manifest entry) /\ (pe_installed_at entry < pr_next_install r)%N;
  pi_state : forall id, is_Some (pr_state r !! id) <-> is_Some (pr_packages r !! id);
  pi_order : forall id1 id2 e1 e2, pr_packages r !! id1 = Some e1 -> pr_packages r !! id2 = Some e2 ->
      pe_installed_at e1 = pe_installed_at e2 -> id1 = id2;
}.

Lemma wrapping_succ_small n : (n < u64_max)%N -> wrapping_succ n = (n + 1)%N.
Proof. intros H. unfold wrapping_succ. apply N.mod_small. lia. Qed.

Lemma skill_named_Some skill_id manifest i skill :
  skill_named skill_id manifest = Some (i, skill) -> pp_skills manifest !! i = Some skill /\ sk_id skill = skill_id.
Proof. intros (H & Hid & _)%list_find_Some. done. Qed.

Lemma with_skill_wf manifest i skill next :
  pp_skills manifest !! i = Some skill -> PackageWf manifest ->
  PackageWf (with_skills (<[i := with_skill_activation next skill]> (pp_skills manifest)) manifest).
Proof.
  intros Hi []. constructor; try done. cbn. destruct pw_skills as [Hc Hd He]. constructor.
  - by rewrite length_insert.
  - rewrite list_fmap_insert, list_insert_id; [done|]. by rewrite list_lookup_fmap, Hi.
  - apply Forall_insert; [done|]. rewrite Forall_lookup in He. destruct (He i skill Hi). by constructor.
Qed.

Lemma can_transition_install from : can_transition from Installed = false.
Proof. by destruct from. Qed.

Lemma install_inner_cases manifest root r :
  (exists error, install_inner manifest root r = (Err error, r))
  \/ (PackageWf manifest /\ pr_packages r !! pp_id manifest = None
      /\ install_inner manifest root r = (Ok tt,
           {| pr_packages := <[pp_id manifest := {| pe_manifest := manifest; pe_installed_at := pr_next_install r;
                                                    pe_root := root |}]> (pr_packages r);
              pr_state := <[pp_id manifest := Installed]> (pr_state r);
              pr_next_install := wrapping_succ (pr_next_install r) |})).
Proof.
  unfold install_inner. destruct (validate_package manifest) as [[]|error] eqn:Hv; [|by left; eexists].
  apply package_admission_exact in Hv. destruct (pr_packages r !! pp_id manifest) eqn:E; [by left; eexists|]. by right.
Qed.

Lemma install_inner_inv manifest root r :
  (pr_next_install r < u64_max)%N -> PluginInv r -> PluginInv (install_inner manifest root r).2.
Proof.
  intros Hlt Hinv. destruct (install_inner_cases manifest root r) as [[? ->]|(Hwf & Hnone & ->)]; [done|].
  destruct Hinv as [E S O]. split; cbn [snd pr_packages pr_state pr_next_install].
  - intros id entry He. rewrite wrapping_succ_small by done. destruct (decide (id = pp_id manifest)) as [->|Hne].
    + rewrite lookup_insert_eq in He. injection He as <-. cbn. split; [done|]. split; [done|]. lia.
    + rewrite lookup_insert_ne in He by done. destruct (E id entry He) as (? & ? & ?). split; [done|]. split; [done|]. lia.
  - intros id. destruct (decide (id = pp_id manifest)) as [->|Hne].
    + rewrite !lookup_insert_eq. split; intros _; by eexists.
    + rewrite !lookup_insert_ne by done. apply S.
  - intros id1 id2 e1 e2 H1 H2 Heq.
    destruct (decide (id1 = pp_id manifest)) as [->|N1]; [rewrite lookup_insert_eq in H1|rewrite lookup_insert_ne in H1 by done];
    (destruct (decide (id2 = pp_id manifest)) as [->|N2]; [rewrite lookup_insert_eq in H2|rewrite lookup_insert_ne in H2 by done]).
    + done.
    + injection H1 as <-. cbn in Heq. destruct (E id2 e2 H2) as (_ & _ & ?). lia.
    + injection H2 as <-. cbn in Heq. destruct (E id1 e1 H1) as (_ & _ & ?). lia.
    + by eapply O.
Qed.

Lemma set_state_dom id next states id' :
  is_Some ((package_set_activation id next states).2 !! id') <-> is_Some (states !! id').
Proof.
  unfold package_set_activation. destruct (states !! id) as [current|] eqn:E; [|done].
  destruct (can_transition current next); [|done]. cbn. destruct (decide (id' = id)) as [->|Hne].
  - rewrite lookup_insert_eq, E. split; intros _; by eexists.
  - by rewrite lookup_insert_ne.
Qed.

Lemma move_inv id next r : PluginInv r -> PluginInv (move_package id next r).2.
Proof.
  intros [E S O]. unfold move_package. destruct (pr_packages r !! id) eqn:He; [|done].
  pose proof (set_state_dom id next (pr_state r)) as Hd.
  destruct (package_set_activation id next (pr_state r)) as [answer state]. split; cbn in *; [done| |done].
  intros id'. by rewrite Hd.
Qed.

Lemma uninstall_inv id r : PluginInv r -> PluginInv (uninstall_package id r).2.
Proof.
  intros [E S O]. unfold uninstall_package. destruct (pr_packages r !! id) eqn:He; [|done].
  split; cbn [snd pr_packages pr_state pr_next_install].
  - intros id' entry [_ H]%lookup_delete_Some. by apply E.
  - intros id'. unfold uninstall. destruct (decide (id' = id)) as [->|Hne]; [by rewrite !lookup_delete_eq|].
    rewrite !lookup_delete_ne by done. apply S.
  - intros id1 id2 e1 e2 [_ H1]%lookup_delete_Some [_ H2]%lookup_delete_Some. by apply O.
Qed.

Lemma skill_inv package skill_id next r : PluginInv r -> PluginInv (set_skill_activation package skill_id next r).2.
Proof.
  intros Hinv. unfold set_skill_activation. destruct (pr_packages r !! package) as [entry|] eqn:He; [|done].
  destruct (skill_named skill_id (pe_manifest entry)) as [[i skill]|] eqn:Hs; [|done].
  apply skill_named_Some in Hs as [Hi _]. destruct Hinv as [E S O].
  assert (Hlook : forall id e, (<[package := {| pe_manifest :=
      with_skills (<[i := with_skill_activation next skill]> (pp_skills (pe_manifest entry))) (pe_manifest entry);
      pe_installed_at := pe_installed_at entry; pe_root := pe_root entry |}]> (pr_packages r)) !! id = Some e ->
    exists e0, pr_packages r !! id = Some e0 /\ pe_installed_at e = pe_installed_at e0
      /\ pp_id (pe_manifest e) = pp_id (pe_manifest e0) /\ (PackageWf (pe_manifest e0) -> PackageWf (pe_manifest e))).
  { intros id e. destruct (decide (id = package)) as [->|Hne].
    - rewrite lookup_insert_eq. intros [= <-]. exists entry. do 3 (split; [done|]). by apply with_skill_wf.
    - rewrite lookup_insert_ne by done. eauto. }
  split; cbn [snd pr_packages pr_state pr_next_install].
  - intros id e H. destruct (Hlook id e H) as (e0 & H0 & Hat & Hid & Hwf). destruct (E id e0 H0) as (? & ? & ?).
    rewrite Hid, Hat. auto.
  - intros id. rewrite S. destruct (decide (id = package)) as [->|Hne]; [rewrite lookup_insert_eq, He; split; intros _; by eexists|].
    by rewrite lookup_insert_ne.
  - intros id1 id2 e1 e2 H1 H2. destruct (Hlook id1 e1 H1) as (f1 & F1 & -> & _), (Hlook id2 e2 H2) as (f2 & F2 & -> & _).
    by apply O.
Qed.

Lemma plugin_step_inv op r : (pr_next_install r < u64_max)%N -> PluginInv r -> PluginInv (plugin_step r op).
Proof.
  intros Hlt Hinv. destruct op as [manifest [[]|]| | |]; cbn [plugin_step install_from_root];
    auto using install_inner_inv, uninstall_inv, move_inv, skill_inv.
Qed.

Lemma plugin_step_next op r : (pr_next_install r < u64_max)%N -> (pr_next_install (plugin_step r op) <= pr_next_install r + 1)%N.
Proof.
  intros Hlt. assert (forall manifest root, (pr_next_install (install_inner manifest root r).2 <= pr_next_install r + 1)%N) as Hi.
  { intros manifest root. destruct (install_inner_cases manifest root r) as [[? ->]|(_ & _ & ->)]; cbn; [lia|].
    rewrite wrapping_succ_small; lia. }
  destruct op as [manifest [[]|]| | |]; cbn [plugin_step install_from_root]; auto; try (cbn; lia).
  - unfold uninstall_package. case_match; cbn; lia.
  - unfold move_package. case_match; [|cbn; lia]. destruct (package_set_activation _ _ _). cbn. lia.
  - unfold set_skill_activation. repeat case_match; cbn; lia.
Qed.

Lemma plugin_run_inv ops r n :
  PluginInv r -> (pr_next_install r <= n)%N -> (n + N.of_nat (length ops) <= u64_max)%N -> PluginInv (plugin_run ops r).
Proof.
  revert r n. induction ops as [|op ops IH]; intros r n Hinv Hn Hlen; [done|]. cbn [plugin_run fold_left length] in *.
  pose proof (plugin_step_next op r). apply (IH _ (n + 1)%N); [apply plugin_step_inv; [lia|done]|lia|lia].
Qed.

Lemma plugin_inv_new : PluginInv plugin_registry_new.
Proof. split; cbn; intros *; rewrite ?lookup_empty; try done. Qed.
(** ** When a package is active *)

Lemma plugin_step_active op r id :
  pr_state (plugin_step r op) !! id = Some PluginActive ->
  pr_state r !! id = Some PluginActive
  \/ (op = PoMove id PluginActive
      /\ (pr_state r !! id = Some Installed \/ pr_state r !! id = Some PluginDisabled)).
Proof.
  assert (forall manifest root, pr_state (install_inner manifest root r).2 !! id = Some PluginActive ->
    pr_state r !! id = Some PluginActive) as Hi.
  { intros manifest root. destruct (install_inner_cases manifest root r) as [[? ->]|(_ & _ & ->)]; [done|]. cbn.
    destruct (decide (id = pp_id manifest)) as [->|Hne]; [by rewrite lookup_insert_eq|by rewrite lookup_insert_ne]. }
  destruct op as [manifest [[]|]|id'|id' next|]; cbn [plugin_step install_from_root]; eauto.
  - unfold uninstall_package, uninstall. case_match; [|by left]. cbn. intros [_ Hd]%lookup_delete_Some. by left.
  - unfold move_package, package_set_activation. destruct (pr_packages r !! id'); [|by left].
    destruct (pr_state r !! id') as [current|] eqn:Hc; cbn; [|by left].
    destruct (can_transition current next) eqn:Ht; cbn; [|by left].
    destruct (decide (id = id')) as [->|Hne]; [|rewrite lookup_insert_ne by done; by left].
    rewrite lookup_insert_eq. intros [= ->]. right. split; [done|]. rewrite Hc.
    destruct current; cbn in Ht; try discriminate; auto.
  - unfold set_skill_activation. repeat case_match; cbn; by left.
Qed.

Lemma plugin_run_snoc ops op r : plugin_run (ops ++ [op]) r = plugin_step (plugin_run ops r) op.
Proof. unfold plugin_run. by rewrite fold_left_app. Qed.

(** A package runs only by an explicit enable: whenever a package is active after a run of
    installs, uninstalls and moves, there is an enable of that package since which it has been active
    throughout, and which found it installed or disabled; so a quarantined package becomes active
    again only through disabled, or a fresh install. *)
Theorem package_active_by_enable ops id :
  pr_state (plugin_run ops plugin_registry_new) !! id = Some PluginActive ->
  exists before after, ops = before ++ PoMove id PluginActive :: after
    /\ (pr_state (plugin_run before plugin_registry_new) !! id = Some Installed
        \/ pr_state (plugin_run before plugin_registry_new) !! id = Some PluginDisabled)
    /\ forall some rest, after = some ++ rest ->
         pr_state (plugin_run (before ++ PoMove id PluginActive :: some) plugin_registry_new) !! id = Some PluginActive.
Proof.
  induction ops as [|op ops IH] using rev_ind; [cbn; by rewrite lookup_empty|].
  rewrite plugin_run_snoc. intros H. assert (Hnow := H). apply plugin_step_active in H as [H|[-> Hfrom]].
  - destruct (IH H) as (before & after & -> & Hfrom & Hthrough). exists before, (after ++ [op]).
    split; [by rewrite <- app_assoc|]. split; [done|]. intros some rest Heq.
    destruct rest as [|x rest _] using rev_ind.
    + rewrite app_nil_r in Heq. subst some. rewrite app_comm_cons, app_assoc, plugin_run_snoc. done.
    + rewrite app_assoc in Heq. apply app_inj_tail in Heq as [Heq _]. by eapply Hthrough.
  - exists ops, []. split; [done|]. split; [done|]. intros some rest Heq. symmetry in Heq. apply app_nil in Heq as [-> _].
    by rewrite plugin_run_snoc.
Qed.

(** ** The order of hooks *)

Definition hook_row_lt (a b : HookRow) : Prop := hook_row_le a b /\ ~ hook_row_le b a.

#[export] Instance hook_row_le_trans : Transitive hook_row_le.
Proof. intros a b c. unfold hook_row_le. lia. Qed.

#[export] Instance hook_row_le_total : Total hook_row_le.
Proof. intros a b. unfold hook_row_le. lia. Qed.

(** The hook a row stands for. *)
Definition row_declared (event : text) (r : PluginRegistry) (row : HookRow) : Prop :=
  exists entry hook, pr_packages r !! hr_package row = Some entry /\ pr_state r !! hr_package row = Some PluginActive
    /\ pp_hooks (pe_manifest entry) !! hr_index row = Some hook /\ hk_event hook = event
    /\ row = {| hr_order := hk_order hook; hr_installed_at := pe_installed_at entry; hr_index := hr_index row;
                hr_package := hr_package row; hr_id := hk_id hook |}.

Lemma elem_of_zip_seq {A} (l : list A) i x : (i, x) ∈ zip (seq 0 (length l)) l <-> l !! i = Some x.
Proof.
  rewrite list_elem_of_lookup. split.
  - intros (j & Hj). apply lookup_zip_with_Some in Hj as (a & b & [= -> ->] & Ha & Hb).
    apply lookup_seq in Ha as [-> _]. done.
  - intros H. exists i. apply lookup_zip_with_Some. exists i, x. split; [done|]. split; [|done].
    apply lookup_seq. split; [done|]. by eapply lookup_lt_Some.
Qed.

Lemma elem_of_package_rows event id entry row :
  row ∈ package_hook_rows event id entry <->
  exists hook, pp_hooks (pe_manifest entry) !! hr_index row = Some hook /\ hk_event hook = event
    /\ row = {| hr_order := hk_order hook; hr_installed_at := pe_installed_at entry; hr_index := hr_index row;
                hr_package := id; hr_id := hk_id hook |}.
Proof.
  unfold package_hook_rows. rewrite list_elem_of_omap. split.
  - intros ([i hook] & Hin & Hr). apply elem_of_zip_seq in Hin. cbn in Hr. case_bool_decide as He; [|done].
    injection Hr as <-. cbn. eauto.
  - intros (hook & Hh & He & Hrow). exists (hr_index row, hook). split; [by apply elem_of_zip_seq|]. cbn.
    rewrite bool_decide_eq_true_2 by done. by rewrite <- Hrow.
Qed.

Lemma elem_of_if {A} (b : bool) (x : A) l : x ∈ (if b then l else []) <-> b = true /\ x ∈ l.
Proof. destruct b; rewrite ?elem_of_nil; intuition discriminate. Qed.

Lemma elem_of_hook_rows event r row : row ∈ hook_rows event r <-> row_declared event r row.
Proof.
  unfold hook_rows, row_declared. rewrite list_elem_of_bind. split.
  - intros ([id entry] & Hin & He). apply elem_of_map_to_list in He. cbn [fst snd] in Hin.
    apply elem_of_if in Hin as [Ha%bool_decide_eq_true Hin].
    apply elem_of_package_rows in Hin as (hook & Hh & Hev & Hrow).
    assert (hr_package row = id) as Hp by (by rewrite Hrow). exists entry, hook. rewrite Hp. auto.
  - intros (entry & hook & He & Ha & Hh & Hev & Hrow). exists (hr_package row, entry).
    split; [|by apply elem_of_map_to_list]. cbn [fst snd]. rewrite bool_decide_eq_true_2 by done.
    apply elem_of_package_rows. eauto.
Qed.

Lemma NoDup_hook_rows event r : NoDup (hook_rows event r).
Proof.
  apply NoDup_bind; [..|apply NoDup_map_to_list].
  - intros [id1 e1] [id2 e2] row H1 H2 Hr1 Hr2. apply elem_of_map_to_list in H1, H2. cbn [fst snd] in Hr1, Hr2.
    apply elem_of_if in Hr1 as [_ Hr1], Hr2 as [_ Hr2].
    apply elem_of_package_rows in Hr1 as (? & _ & _ & Hr1), Hr2 as (? & _ & _ & Hr2).
    apply (f_equal hr_package) in Hr1, Hr2. cbn in Hr1, Hr2. congruence.
  - intros [id entry] _. cbn [fst snd]. case_bool_decide; [|constructor]. unfold package_hook_rows.
    generalize (pp_hooks (pe_manifest entry)) as hooks. intros hooks. generalize 0 as k.
    induction hooks as [|hook hooks IH]; intros k; cbn [length seq zip_with omap list_omap fst snd]; [constructor|].
    case_bool_decide; [|apply IH]. apply NoDup_cons. split; [|apply IH].
    rewrite list_elem_of_omap. intros ([j h] & Hin & Hr). cbn in Hr. case_bool_decide; [|done]. injection Hr as _ <- _.
    apply elem_of_zip_l, elem_of_seq in Hin. lia.
Qed.

Lemma hook_row_antisym event r a b :
  PluginInv r -> row_declared event r a -> row_declared event r b -> hook_row_le a b -> hook_row_le b a -> a = b.
Proof.
  intros Hinv (ea & ha & Pa & _ & Ha & _ & Ra) (eb & hb & Pb & _ & Hb & _ & Rb) Hab Hba.
  assert (hr_installed_at a = hr_installed_at b /\ hr_index a = hr_index b) as [Hat Hix] by (unfold hook_row_le in *; lia).
  assert (hr_package a = hr_package b) as Hp.
  { apply (pi_order _ Hinv _ _ _ _ Pa Pb). rewrite Ra, Rb in Hat. done. }
  rewrite Ra, Rb, Hp, Hix. rewrite Hp in Pa. rewrite Hix in Ha. by simplify_eq.
Qed.

Lemma StronglySorted_strict {A} (R : A -> A -> Prop) l :
  StronglySorted R l -> NoDup l -> (forall a b, a ∈ l -> b ∈ l -> R a b -> R b a -> a = b) ->
  StronglySorted (fun a b => R a b /\ ~ R b a) l.
Proof.
  induction 1 as [|a l Hs IH Hf]; intros Hnd Hanti; [constructor|]. apply NoDup_cons in Hnd as [Hn Hnd].
  constructor; [apply IH; [done|]; intros x y Hx Hy; apply Hanti; by right|].
  rewrite Forall_forall in Hf |- *. intros b Hb. split; [auto|]. intros Hba. apply Hn.
  rewrite (Hanti a b); [done|left|by right|auto|done].
Qed.

(** The firing order of an event is determined by the catalog: it lists exactly the hooks for the
    event of the packages that are active, strictly increasing in declared order, then install order,
    then declaration order, so no two are tied. *)
Theorem hook_order_exact ops event :
  (N.of_nat (length ops) <= u64_max)%N ->
  let r := plugin_run ops plugin_registry_new in
  exists rows, hook_order event r = ((fun row => (hr_package row, hr_id row)) <$> rows)
    /\ StronglySorted hook_row_lt rows
    /\ forall row, row ∈ rows <-> row_declared event r row.
Proof.
  intros Hlen r. assert (PluginInv r) as Hinv.
  { apply (plugin_run_inv ops plugin_registry_new 0); [apply plugin_inv_new|cbn; lia|lia]. }
  assert (forall row, row ∈ merge_sort hook_row_le (hook_rows event r) <-> row_declared event r row) as Hel.
  { intros row. by rewrite merge_sort_Permutation, elem_of_hook_rows. }
  exists (merge_sort hook_row_le (hook_rows event r)). split; [done|]. split; [|done].
  apply StronglySorted_strict.
  - apply (StronglySorted_merge_sort _).
  - rewrite merge_sort_Permutation. apply NoDup_hook_rows.
  - intros a b Ha Hb. apply (hook_row_antisym event r); [done|by apply Hel..].
Qed.

(** ** Reading a skill *)

(** What [open_regular] follows. *)
Fixpoint under (node : Node) (names : list text) (bytes : list N) : Prop :=
  match names with
  | [] => node = File bytes
  | name :: names' => exists entries node', node = Dir entries /\ entry_named name entries = Some node' /\ under node' names' bytes
  end.

Lemma open_regular_under path node bytes :
  open_regular node path = Some bytes -> exists names, normal_parts path = Some names /\ under node names bytes.
Proof.
  revert node. induction path as [|c path IH]; intros node H.
  - destruct node; cbn in H; try done. injection H as <-. exists []. done.
  - destruct c as [| | |name]; destruct node as [entries| |]; cbn in H; try done.
    + destruct (IH _ H) as (names & Hn & Hu). exists names. done.
    + destruct (entry_named name entries) as [node'|] eqn:He; [|done]. destruct (IH _ H) as (names & Hn & Hu).
      exists (name :: names). cbn. rewrite Hn. split; [done|]. by exists entries, node'.
Qed.

Lemma ok_or_Ok {A E} (o : option A) (e : E) a : ok_or o e = Ok a <-> o = Some a.
Proof. destruct o; cbn; split; congruence. Qed.

Lemma rbind_Ok {A B E} (r : result A E) (f : A -> result B E) b : rbind r f = Ok b <-> exists a, r = Ok a /\ f a = Ok b.
Proof. destruct r; cbn; split; [eauto|by intros (? & [= ->] & ?)|done|by intros (? & ? & _)]. Qed.

(** A skill body is served only from an active package, for an active skill, from inside the
    package's own root, whole and bounded: a successful read returns exactly the text of the regular
    file the declared reference names, reached through plain directories of the root without a parent
    step, of at most 64 KiB. *)
Theorem skill_read_gated r package skill_id body :
  skill_read package skill_id r = Ok body ->
  exists entry skill root names bytes,
    pr_packages r !! package = Some entry /\ pr_state r !! package = Some PluginActive
    /\ skill ∈ pp_skills (pe_manifest entry) /\ sk_id skill = skill_id /\ sk_activation skill = SkillActive
    /\ pe_root entry = Some root /\ relative_components (sk_reference skill) = Some names /\ under root names bytes
    /\ length bytes <= MAX_SKILL_BODY_BYTES /\ from_utf8 bytes = Some (sb_body body)
    /\ sb_reference body = sk_reference skill /\ sb_version body = sk_version skill
    /\ sb_provenance body = sk_provenance skill.
Proof.
  unfold skill_read. intros (entry & He & H)%rbind_Ok. apply ok_or_Ok in He.
  apply rbind_Ok in H as ([i skill] & Hs & H). apply ok_or_Ok, skill_named_Some in Hs as [Hs Hid]. cbn [snd] in H.
  apply if_Err_Ok in H as [Ha H]. apply negb_false_iff, bool_decide_eq_true in Ha.
  apply if_Err_Ok in H as [Hact H]. apply negb_false_iff, bool_decide_eq_true in Hact.
  apply rbind_Ok in H as (root & Hroot & H). apply ok_or_Ok in Hroot.
  apply if_Err_Ok in H as [Hc H]. apply negb_false_iff in Hc.
  apply rbind_Ok in H as (contents & Ho & H). apply ok_or_Ok in Ho.
  apply if_Err_Ok in H as [Hlen H]. apply Nat.ltb_ge in Hlen.
  apply rbind_Ok in H as (text & Hu & [= <-]). apply ok_or_Ok in Hu.
  assert (take (MAX_SKILL_BODY_BYTES + 1) contents = contents) as Htake.
  { rewrite length_take in Hlen. apply take_ge. lia. }
  rewrite Htake in Hu, Hlen. apply open_regular_under in Ho as (names & Hn & Hunder).
  exists entry, skill, root, names, contents. cbn. split; [done|]. split; [done|].
  split; [by eapply list_elem_of_lookup_2|]. do 3 (split; [done|]). split; [|done].
  unfold relative_components. unfold confined in Hc. apply andb_prop in Hc as [Hc _]. apply negb_true_iff in Hc.
  by rewrite Hc.
Qed.
End plugins.
