(* ===== verification/Artifact.v ===== *)
(** Artifact identity of agent-contracts/artifact.rs: the two locator forms, their
    strict parser and printer, the owner rules; and what makes a locator an identity:
    every accepted string is the printed form of exactly one locator.

    The [uuid] crate stays a parameter: how it reads and prints an id. *)

From S2P Require Import Prelude Text Digest Operation Intent OutputBroker Capability.

(** [Uuid::parse_str] and its [Display]. *)
Class UuidCodec := {
  uuid_parse : text -> option N;
  uuid_to_string : N -> text;
}.

(** What the crate documents of the hyphenated form: it reads back, and it holds
    36 characters, hexadecimal digits and hyphens. *)
Class UuidCodecLaws `{UuidCodec} := {
  uuid_roundtrip id : uuid_parse (uuid_to_string id) = Some id;
  uuid_chars id : Forall (fun c => is_lower_hex c = true \/ c = 45%N) (uuid_to_string id);
  uuid_len id : length (uuid_to_string id) = 36;
}.

Definition ARTIFACT_SCHEME : text := txt "artifact".
Definition ARTIFACT_LOCATOR_VERSION : text := txt "v1".
Definition MAX_ARTIFACT_OWNER_BYTES : nat := 64.
Definition ARTIFACT_DIGEST_BYTES : nat := 32.
Definition ARTIFACT_DIGEST_HEX_BYTES : nat := ARTIFACT_DIGEST_BYTES * 2.
Definition DRAFT_SEGMENT : text := txt "draft".

(** [ContentDigest] has the wire form of [Digest]: [from_str], and [fmt]. *)
Definition content_digest_parse (value : text) : result Digest text :=
  match digest_from_str value with
  | Some (Ok digest) => Ok digest
  | _ => Err (txt "artifact digest must be exactly 64 lowercase hexadecimal characters")
  end.

Definition is_content_digest (value : text) : bool := is_Ok (content_digest_parse value).

Inductive ArtifactBody : Type :=
| BodySealed (digest : Digest)
| BodyDraft (staging_id : N).

Record ArtifactLocator : Type := {
  al_run_id : N;
  al_owner : text;
  al_body : ArtifactBody;
}.

(** [str::strip_prefix]. *)
Fixpoint strip_prefix (prefix s : text) : option text :=
  match prefix, s with
  | [], _ => Some s
  | c :: prefix', d :: s' => if (c =? d)%N then strip_prefix prefix' s' else None
  | _, [] => None
  end.

Definition owner_char (c : N) : bool :=
  is_ascii_lowercase c || is_ascii_digit c || (c =? 46)%N || (c =? 95)%N || (c =? 45)%N.

Definition validate_owner (owner : text) : result unit text :=
  match owner with
  | [] => Err (txt "artifact owner must not be empty")
  | first :: rest =>
      if MAX_ARTIFACT_OWNER_BYTES <? str_len owner
      then Err (txt "artifact owner is " ++ usize_text (str_len owner) ++ txt " bytes; maximum is 64")
      else if negb (is_ascii_lowercase first)
      then Err (txt "artifact owner must start with a lowercase ASCII letter")
      else if negb (forallb owner_char rest)
      then Err (txt "artifact owner must contain only lowercase ASCII letters, digits, '.', '_' or '-'")
      else Ok tt
  end.

(** [artifact_owner_from_prefix]; [char::to_lowercase] on the characters the filter
    keeps is the ASCII one, and it yields no other ASCII character but for U+0130
    and U+212A, which it sends to [i] (and a dot) and [k]. *)
Definition lowercase_ascii (c : N) : N :=
  if is_ascii_uppercase c then (c + 32)%N
  else if (c =? 304)%N then 105%N
  else if (c =? 8490)%N then 107%N
  else c.

Definition artifact_owner_from_prefix (prefix : text) : result text text :=
  let owner := take MAX_ARTIFACT_OWNER_BYTES (List.filter owner_char (lowercase_ascii <$> prefix)) in
  let owner :=
    match owner with
    | [] => txt "artifact"
    | first :: _ =>
        if negb (is_ascii_lowercase first) then take MAX_ARTIFACT_OWNER_BYTES (txt "a-" ++ owner) else owner
    end in
  let? _ := validate_owner owner in Ok owner.

Section locators.
Context `{UC : UuidCodec}.

Definition sealed (run_id : N) (owner : text) (digest : Digest) : result ArtifactLocator text :=
  let? _ := validate_owner owner in
  Ok {| al_run_id := run_id; al_owner := owner; al_body := BodySealed digest |}.

Definition draft (run_id : N) (owner : text) (staging_id : N) : result ArtifactLocator text :=
  let? _ := validate_owner owner in
  Ok {| al_run_id := run_id; al_owner := owner; al_body := BodyDraft staging_id |}.

(** [Display]. *)
Definition locator_to_string (l : ArtifactLocator) : text :=
  match al_body l with
  | BodySealed digest =>
      txt "artifact://v1/" ++ uuid_to_string (al_run_id l) ++ txt "/" ++ al_owner l ++ txt "/"
        ++ digest_display digest
  | BodyDraft staging_id =>
      txt "artifact://v1/" ++ uuid_to_string (al_run_id l) ++ txt "/" ++ al_owner l ++ txt "/"
        ++ DRAFT_SEGMENT ++ txt "/" ++ uuid_to_string staging_id
  end.

Definition parse_canonical_uuid (value field : text) : result N text :=
  match uuid_parse value with
  | None => Err (field ++ txt " must be a UUID")
  | Some parsed =>
      if bool_decide (uuid_to_string parsed = value) then Ok parsed
      else Err (field ++ txt " must use the canonical lowercase hyphenated UUID form")
  end.

Definition canonical (value : text) (l : ArtifactLocator) : result ArtifactLocator text :=
  if bool_decide (locator_to_string l = value) then Ok l
  else Err (txt "artifact reference is not in canonical identity form").

(** [ArtifactLocator::parse]. *)
Definition parse_locator (value : text) : result ArtifactLocator text :=
  if MAX_ARTIFACT_REFERENCE_BYTES <? str_len value
  then Err (txt "artifact reference is " ++ usize_text (str_len value) ++ txt " bytes; maximum is 256")
  else if existsb (fun c => (c =? 63) || (c =? 35))%N value
  then Err (txt "artifact references cannot carry query/fragment components")
  else if existsb (fun c => (c =? 92) || (c =? 0))%N value
  then Err (txt "artifact references cannot contain '\' or NUL")
  else
    let? rest := ok_or (strip_prefix (txt "artifact://") value)
                   (txt "artifact references must start with artifact://") in
    let parts := split_on SLASH rest in
    if existsb (fun part => bool_decide (part = [])) parts
    then Err (txt "artifact references cannot contain empty path segments")
    else if negb (bool_decide (head parts = Some ARTIFACT_LOCATOR_VERSION))
    then Err (txt "artifact references must use v1 identity form")
    else
      match parts with
      | [_; run; owner; digest] =>
          let? run_id := parse_canonical_uuid run (txt "run id") in
          let? digest := content_digest_parse digest in
          let? l := sealed run_id owner digest in
          canonical value l
      | [_; run; owner; segment; staging] =>
          if bool_decide (segment = DRAFT_SEGMENT) then
            let? staging_id := parse_canonical_uuid staging (txt "draft staging id") in
            let? run_id := parse_canonical_uuid run (txt "run id") in
            let? l := draft run_id owner staging_id in
            canonical value l
          else Err (txt "artifact references must be artifact://v1/<run>/<owner>/<digest> or .../draft/<id>")
      | _ => Err (txt "artifact references must be artifact://v1/<run>/<owner>/<digest> or .../draft/<id>")
      end.

Definition is_sealed (l : ArtifactLocator) : bool :=
  match al_body l with BodySealed _ => true | BodyDraft _ => false end.

Definition locator_digest (l : ArtifactLocator) : option Digest :=
  match al_body l with BodySealed digest => Some digest | BodyDraft _ => None end.

Definition parse_sealed (value : text) : result ArtifactLocator text :=
  let? l := parse_locator value in
  if negb (is_sealed l)
  then Err (txt "completion and immutable admissions require a sealed owner/digest locator")
  else Ok l.

Definition ensure_run (l : ArtifactLocator) (run_id : N) : result unit text :=
  if negb (al_run_id l =? run_id)%N
  then Err (txt "artifact reference does not belong to run " ++ uuid_to_string run_id)
  else Ok tt.

End locators.

(** ** Theorems *)

Lemma strip_prefix_app prefix s : strip_prefix prefix (prefix ++ s) = Some s.
Proof. induction prefix as [|c prefix IH]; [done|]. cbn. by rewrite N.eqb_refl. Qed.

Lemma owner_chars owner :
  validate_owner owner = Ok tt ->
  owner <> [] /\ str_len owner <= MAX_ARTIFACT_OWNER_BYTES /\ Forall (fun c => owner_char c = true) owner.
Proof.
  destruct owner as [|c rest]; [done|]. unfold validate_owner.
  destruct (_ <? _) eqn:E1; [done|]. destruct (negb (is_ascii_lowercase c)) eqn:E2; [done|].
  destruct (negb (forallb _ _)) eqn:E3; [done|]. intros _.
  apply Nat.ltb_ge in E1. apply negb_false_iff in E2, E3. split; [done|]. split; [done|].
  constructor.
  - unfold owner_char. by rewrite E2.
  - rewrite forallb_forall in E3. apply Forall_forall. intros x Hx. apply E3. by apply list_elem_of_In.
Qed.

(** A refusal never changes the owner; what is derived from a prefix is an owner. *)
Lemma owner_from_prefix_ok prefix owner :
  artifact_owner_from_prefix prefix = Ok owner -> validate_owner owner = Ok tt.
Proof.
  unfold artifact_owner_from_prefix, rbind. destruct (validate_owner _) as [[]|] eqn:E; [|done].
  by intros [= <-].
Qed.

Section theorems.
Context {UC : UuidCodec} {UL : UuidCodecLaws}.

(** A locator as the constructors make them. *)
Definition locator_wf (l : ArtifactLocator) : Prop :=
  validate_owner (al_owner l) = Ok tt /\
  match al_body l with BodySealed digest => digest_wf digest | BodyDraft _ => True end.

Definition plain_char (c : N) : bool :=
  is_ascii_lowercase c || is_ascii_digit c || (c =? 46)%N || (c =? 95)%N || (c =? 45)%N
  || (c =? 47)%N || (c =? 58)%N.

Lemma plain_ascii s : Forall (fun c => plain_char c = true) s ->
  str_len s = length s /\
  existsb (fun c => (c =? 63) || (c =? 35))%N s = false /\
  existsb (fun c => (c =? 92) || (c =? 0))%N s = false.
Proof.
  induction 1 as [|c s Hc Hs (IH1 & IH2 & IH3)]; [done|].
  rewrite str_len_cons. cbn [length existsb]. rewrite IH1, IH2, IH3.
  unfold plain_char, is_ascii_lowercase, is_ascii_digit in Hc.
  repeat (apply orb_prop in Hc as [Hc|Hc]);
    try apply andb_prop in Hc as [Hc1%N.leb_le Hc2%N.leb_le]; try apply N.eqb_eq in Hc;
    (split_and!; [unfold utf8_len; destruct (c <? 128)%N eqn:E; [done|apply N.ltb_ge in E; lia]
                 |rewrite orb_false_r; apply orb_false_intro; apply N.eqb_neq; lia
                 |rewrite orb_false_r; apply orb_false_intro; apply N.eqb_neq; lia]).
Qed.

Lemma hex_plain c : is_lower_hex c = true -> plain_char c = true /\ c <> SLASH.
Proof.
  unfold is_lower_hex, plain_char, is_ascii_lowercase, is_ascii_digit, SLASH. intros H.
  split.
  - rewrite !orb_true_iff, !andb_true_iff, !N.leb_le in *. lia.
  - intros ->. done.
Qed.

Lemma owner_plain c : owner_char c = true -> plain_char c = true /\ c <> SLASH.
Proof.
  unfold owner_char, plain_char. intros H. split; [by rewrite H|]. intros ->. done.
Qed.

Lemma uuid_plain id :
  Forall (fun c => plain_char c = true) (uuid_to_string id) /\ SLASH ∉ uuid_to_string id /\
  uuid_to_string id <> [].
Proof.
  split_and!.
  - eapply Forall_impl; [apply uuid_chars|]. intros c [Hc|Hc]; [by apply hex_plain|by rewrite Hc].
  - intros Hin. pose proof (proj1 (Forall_forall _ _) (uuid_chars id) _ Hin) as [Hc|Hc]; done.
  - intros E. pose proof (uuid_len id) as Hl. by rewrite E in Hl.
Qed.

Lemma digest_display_props d : digest_wf d ->
  digest_from_str (digest_display d) = Some (Ok d) /\ length (digest_display d) = 64 /\
  Forall (fun c => plain_char c = true) (digest_display d) /\ SLASH ∉ digest_display d.
Proof.
  intros [Hlen Hwf]. destruct (decode_display d Hwf) as (Hd & Hf & Hb & Hs).
  assert (Hx : Forall (fun c => is_lower_hex c = true) (digest_display d)).
  { apply Forall_forall. rewrite forallb_forall in Hf. intros x Hx. apply Hf.
    by apply list_elem_of_In. }
  split_and!.
  - unfold digest_from_str. by rewrite Hb, Hf, Hs, Hlen, Hd.
  - rewrite <- Hb, length_as_bytes, Hs, Hlen. done.
  - eapply Forall_impl; [exact Hx|]. intros c Hc. by apply hex_plain.
  - intros Hin. pose proof (proj1 (Forall_forall _ _) Hx _ Hin) as Hc. by apply hex_plain in Hc as [_ []].
Qed.

Lemma content_digest_exact d value :
  content_digest_parse value = Ok d <-> digest_wf d /\ digest_display d = value.
Proof.
  unfold content_digest_parse. split.
  - destruct (proj2 digest_wire_exact value) as (r & Hr & Hok). rewrite Hr.
    destruct r as [d'|]; [|done]. intros [= ->]. by apply Hok.
  - intros [Hwf <-]. by rewrite (proj1 digest_wire_exact d Hwf).
Qed.

Lemma canonical_uuid_iff value field id :
  parse_canonical_uuid value field = Ok id <-> uuid_to_string id = value.
Proof.
  unfold parse_canonical_uuid. split.
  - destruct (uuid_parse value) as [parsed|]; [|done]. case_bool_decide; [|done]. by intros [= <-].
  - intros <-. rewrite uuid_roundtrip. by rewrite bool_decide_true.
Qed.

Lemma slash_app s : txt "/" ++ s = SLASH :: s.
Proof. done. Qed.

(** The printed form split at its slashes, and its length. *)
Lemma locator_string_parts l : locator_wf l ->
  exists rest, strip_prefix (txt "artifact://") (locator_to_string l) = Some rest /\
    Forall (fun c => plain_char c = true) (locator_to_string l) /\
    length (locator_to_string l) <= MAX_ARTIFACT_REFERENCE_BYTES /\
    split_on SLASH rest =
      txt "v1" :: uuid_to_string (al_run_id l) :: al_owner l ::
      match al_body l with
      | BodySealed digest => [digest_display digest]
      | BodyDraft id => [DRAFT_SEGMENT; uuid_to_string id]
      end.
Proof.
  destruct l as [run owner body]; unfold locator_wf, locator_to_string; cbn [al_owner al_body al_run_id].
  intros [Ho Hb]. apply owner_chars in Ho as (_ & Hlen & Hchars).
  destruct (uuid_plain run) as (Hp1 & Hs1 & _). pose proof (uuid_len run) as Hl1.
  assert (Hp2 : Forall (fun c => plain_char c = true) owner).
  { eapply Forall_impl; [exact Hchars|]. intros c Hc. by apply owner_plain. }
  assert (Hs2 : SLASH ∉ owner).
  { intros Hin. pose proof (proj1 (Forall_forall _ _) Hchars _ Hin) as Hc. by apply owner_plain in Hc as [_ []]. }
  pose proof (length_le_str_len owner) as Hlo.
  assert (Hmax : MAX_ARTIFACT_OWNER_BYTES = 64) by done.
  destruct body as [digest|id].
  - destruct (digest_display_props digest Hb) as (_ & Hl3 & Hp3 & Hs3).
    exists (txt "v1/" ++ uuid_to_string run ++ txt "/" ++ owner ++ txt "/" ++ digest_display digest).
    split_and!.
    + exact (strip_prefix_app (txt "artifact://") _).
    + rewrite !Forall_app. split_and!; [by repeat constructor|done|by repeat constructor|done|by repeat constructor|done].
    + rewrite !length_app, Hl1, Hl3.
      change (length (txt "artifact://v1/")) with 14. change (length (txt "/")) with 1.
      change MAX_ARTIFACT_REFERENCE_BYTES with 256. lia.
    + change (txt "v1/" ++ ?r) with (txt "v1" ++ SLASH :: r).
      rewrite split_on_app by (by apply (bool_decide_unpack (SLASH ∉ _)); vm_compute).
      rewrite !slash_app, (split_on_app SLASH (uuid_to_string run)) by done.
      rewrite (split_on_app SLASH owner) by done. by rewrite split_on_piece.
  - destruct (uuid_plain id) as (Hp3 & Hs3 & _). pose proof (uuid_len id) as Hl3.
    exists (txt "v1/" ++ uuid_to_string run ++ txt "/" ++ owner ++ txt "/" ++ DRAFT_SEGMENT ++ txt "/"
              ++ uuid_to_string id).
    split_and!.
    + exact (strip_prefix_app (txt "artifact://") _).
    + rewrite !Forall_app. split_and!;
        [by repeat constructor|done|by repeat constructor|done|by repeat constructor|by repeat constructor
        |by repeat constructor|done].
    + rewrite !length_app, Hl1, Hl3.
      change (length (txt "artifact://v1/")) with 14. change (length (txt "/")) with 1.
      change (length DRAFT_SEGMENT) with 5. change MAX_ARTIFACT_REFERENCE_BYTES with 256. lia.
    + change (txt "v1/" ++ ?r) with (txt "v1" ++ SLASH :: r).
      rewrite split_on_app by (by apply (bool_decide_unpack (SLASH ∉ _)); vm_compute).
      rewrite !slash_app, (split_on_app SLASH (uuid_to_string run)) by done.
      rewrite (split_on_app SLASH owner) by done.
      rewrite (split_on_app SLASH DRAFT_SEGMENT) by (by apply (bool_decide_unpack (SLASH ∉ _)); vm_compute).
      by rewrite split_on_piece.
Qed.

(** An artifact reference names exactly one locator and one way: the printed form of
    every sealed or draft locator with a valid owner parses back to it, and whatever the
    parser accepts is the printed form of the well-formed locator it returns, so no two
    accepted strings name the same artifact. *)
Theorem artifact_identity_exact :
  (forall l, locator_wf l -> parse_locator (locator_to_string l) = Ok l) /\
  (forall value l, parse_locator value = Ok l -> locator_wf l /\ locator_to_string l = value).
Proof.
  split.
  - intros l Hwf. destruct (locator_string_parts l Hwf) as (rest & Hrest & Hplain & Hlen & Hsplit).
    destruct (plain_ascii _ Hplain) as (Hbytes & Hq & Hn). unfold parse_locator.
    rewrite Hbytes, Hq, Hn, Hrest, (proj2 (Nat.ltb_ge _ _)) by done. cbn [ok_or rbind]. rewrite Hsplit.
    destruct Hwf as [Ho Hb]. pose proof (owner_chars _ Ho) as (Hne & _).
    destruct (uuid_plain (al_run_id l)) as (_ & _ & Hne1).
    destruct (al_body l) as [digest|id] eqn:Eb.
    + destruct (digest_display_props digest Hb) as (_ & Hl3 & _ & _).
      assert (Hne3 : digest_display digest <> []) by (intros E; by rewrite E in Hl3).
      cbn [existsb head]. rewrite !bool_decide_false by done.
      rewrite bool_decide_true by done. cbn [orb negb].
      rewrite (proj2 (canonical_uuid_iff _ _ _) eq_refl). cbn [rbind].
      rewrite (proj2 (content_digest_exact digest _)) by done. cbn [rbind].
      unfold sealed. rewrite Ho. cbn [rbind]. unfold canonical.
      replace {| al_run_id := al_run_id l; al_owner := al_owner l; al_body := BodySealed digest |} with l
        by (destruct l; cbn in *; congruence).
      by rewrite bool_decide_true.
    + destruct (uuid_plain id) as (_ & _ & Hne3).
      cbn [existsb head]. rewrite !bool_decide_false by done.
      rewrite !bool_decide_true by done. cbn [orb negb].
      rewrite !(proj2 (canonical_uuid_iff _ _ _) eq_refl). cbn [rbind].
      unfold draft. rewrite Ho. cbn [rbind]. unfold canonical.
      replace {| al_run_id := al_run_id l; al_owner := al_owner l; al_body := BodyDraft id |} with l
        by (destruct l; cbn in *; congruence).
      by rewrite bool_decide_true.
  - intros value l. unfold parse_locator, rbind, ok_or, canonical, sealed, draft, rbind.
    repeat case_match; simplify_eq/=; intros [= <-]; case_bool_decide; simplify_eq; split; try done;
      unfold locator_wf; cbn [al_owner al_body]; 
      (split; [match goal with H : validate_owner _ = Ok ?a |- _ => destruct a; exact H end|]); [|done].
    match goal with H : content_digest_parse _ = Ok _ |- _ => by apply content_digest_exact in H as [? _] end.
Qed.

End theorems.
