(* ===== verification/WorkspaceJournal.v ===== *)
(** The effect journal of the workspace (agent-workspace/journal.rs): what it records
    of every file and directory effect before the effect touches a file, the checks on
    one transition and on the history, the log of frames with its recovery, and the
    append with its write fence.

    serde_json, SHA-256 and the uuid crate are parameters. A failing append leaves some
    prefix of its line in the file; a crash does the same. *)

From stdpp Require Import gmap.
From S2P Require Import Prelude Text Digest Jcs Operation Journal Wal Intent OutputBroker Capability Artifact.

Definition LEGACY_JOURNAL_VERSION : N := 1.
Definition FILE_DIGEST_JOURNAL_VERSION : N := 2.
Definition JOURNAL_VERSION : N := 3.
Definition MAX_FRAME_BYTES : nat := N.to_nat 16384.
Definition MAX_WORKSPACE_JOURNAL_BYTES : N := (256 * 1024 * 1024)%N.
Definition MAX_RECORDS : N := 65536.
Definition MAX_EFFECT_TRANSACTIONS : nat := 16.
Definition MAX_MUTATION_BYTES : N := (4 * 1024 * 1024)%N.

(** ** Transitions *)

Inductive WorkspaceEntryKind : Type := EntryFile | EntryDirectory.

#[export] Instance WorkspaceEntryKind_eq_dec : EqDecision WorkspaceEntryKind.
Proof. solve_decision. Defined.

#[export] Instance Component_eq_dec : EqDecision Component.
Proof. solve_decision. Defined.

#[export] Instance OperationEffectContext_eq_dec : EqDecision OperationEffectContext.
Proof. solve_decision. Defined.

(** The fields of [JournalTransition::Prepared]; those of [TxEvidence] but for the
    version and the terminal. *)
Record Prepared : Type := {
  pr_context : OperationEffectContext;
  pr_relative_target : text;
  pr_temp_name : text;
  pr_target_existed : bool;
  pr_before_hash : text;
  pr_after_hash : text;
  pr_bytes_before : option N;
  pr_bytes_after : option N;
  pr_entry_kind : WorkspaceEntryKind;
}.

Inductive JournalTransition : Type :=
| JPrepared (tx_id : text) (p : Prepared)
| JCommitted (tx_id : text) (entry_identity : option text)
| JRolledBack (tx_id : text).

Record JournalRecord : Type := {
  jr_version : N;
  jr_seq : N;
  jr_transition : JournalTransition;
}.

Record StoredFrame : Type := { st_record : JournalRecord; st_checksum : text }.

Inductive TxTerminal : Type := TxCommitted (entry_identity : option text) | TxRolledBack.

Record TxEvidence : Type := {
  te_journal_version : N;
  te_prepared : Prepared;
  te_terminal : option TxTerminal;
}.

Record RecoveryState : Type := {
  rs_last_seq : N;
  rs_transactions : gmap text TxEvidence;
}.

Definition default_recovery : RecoveryState := {| rs_last_seq := 0; rs_transactions := ∅ |}.

Class WorkspaceCodec := {
  content_sha256 : bytes -> Digest;
  journal_record_to_vec : JournalRecord -> bytes;
  stored_frame_to_vec : StoredFrame -> bytes;
  stored_frame_from_slice : bytes -> option StoredFrame;
}.

(** What the code relies on: a frame reads back and is one line, and a digest has 32
    bytes. *)
Class WorkspaceCodecLaws `{WC : WorkspaceCodec} := {
  stored_frame_roundtrip f : stored_frame_from_slice (stored_frame_to_vec f) = Some f;
  stored_frame_line f : NEWLINE ∉ stored_frame_to_vec f;
  content_sha256_wf b : digest_wf (content_sha256 b);
}.

Section journal.
Context `{WC : WorkspaceCodec} `{UC : UuidCodec}.

Definition parses_as_uuid (tx_id : text) : bool := bool_decide (is_Some (uuid_parse tx_id)).

Definition valid_hex_digest (value : text) (expected_len : nat) : bool :=
  (str_len value =? expected_len) && forallb is_lower_hex (as_bytes value).

(** [u8::is_ascii_alphanumeric]. *)
Definition is_alphanumeric (b : N) : bool :=
  (((48 <=? b) && (b <=? 57)) || ((65 <=? b) && (b <=? 90)) || ((97 <=? b) && (b <=? 122)))%N.

Definition valid_entry_identity (value : text) : bool :=
  negb (bool_decide (value = [])) && (str_len value <=? 160)
  && forallb (fun b => is_alphanumeric b || (b =? 58)%N || (b =? 45)%N) (as_bytes value).

Definition known_version (version : N) : bool :=
  ((version =? LEGACY_JOURNAL_VERSION) || (version =? FILE_DIGEST_JOURNAL_VERSION) || (version =? JOURNAL_VERSION))%N.

(** [clean_relative] accepts the target, and gives it back unchanged. *)
Definition clean_target (relative_target : text) : result unit text :=
  match normal_parts (components relative_target) with
  | None => Err (display_error (InvalidRequest (txt "path must stay inside workspace: " ++ relative_target)))
  | Some parts =>
      if bool_decide (parts = []) || negb (bool_decide (Normal <$> parts = components relative_target))
         || (4000 <? str_len relative_target)
      then Err (txt "workspace effect path/hash exceeds its bound") else Ok tt
  end.

Definition ends_with (s suffix : text) : bool :=
  bool_decide (drop (length s - length suffix) s = suffix) && (length suffix <=? length s).

Definition temp_name_ok (temp_name : text) : bool :=
  (str_len temp_name <=? 255) && ends_with temp_name (txt ".tmp") && (length (components temp_name) =? 1).

(** [format!(".fa-{tx_id}.tmp")]. *)
Definition staging_name (tx_id : text) : text := txt ".fa-" ++ tx_id ++ txt ".tmp".

Definition within_mutation (bytes : N) : bool := (bytes <=? MAX_MUTATION_BYTES)%N.

Definition validate_prepared (version : N) (tx_id : text) (p : Prepared) : result unit text :=
  let? _ := effect_context_validate (pr_context p) in
  if negb (parses_as_uuid tx_id) then Err (txt "invalid workspace effect transaction identity")
  else
    let? _ := clean_target (pr_relative_target p) in
    if (version <? JOURNAL_VERSION)%N && negb (bool_decide (pr_entry_kind p = EntryFile))
    then Err (txt "legacy workspace effect cannot contain a directory entry")
    else
      match pr_entry_kind p with
      | EntryDirectory =>
          if negb (version =? JOURNAL_VERSION)%N || negb (bool_decide (pr_temp_name p = [])) || pr_target_existed p
             || negb (bool_decide (pr_before_hash p = [])) || negb (bool_decide (pr_after_hash p = []))
             || negb (bool_decide (pr_bytes_before p = Some 0%N)) || negb (bool_decide (pr_bytes_after p = Some 0%N))
          then Err (txt "invalid workspace directory effect evidence") else Ok tt
      | EntryFile =>
          if negb (temp_name_ok (pr_temp_name p)) then Err (txt "invalid workspace effect temp identity")
          else if (version =? LEGACY_JOURNAL_VERSION)%N then
            if bool_decide (is_Some (pr_bytes_before p)) || bool_decide (is_Some (pr_bytes_after p))
               || negb (valid_hex_digest (pr_before_hash p) 16) || negb (valid_hex_digest (pr_after_hash p) 16)
            then Err (txt "invalid legacy workspace effect hash/length") else Ok tt
          else
            match pr_bytes_before p, pr_bytes_after p with
            | Some bytes_before, Some bytes_after =>
                if negb (bool_decide (pr_temp_name p = staging_name tx_id))
                   || negb (within_mutation bytes_before) || negb (within_mutation bytes_after)
                   || negb (valid_hex_digest (pr_before_hash p) 64) || negb (valid_hex_digest (pr_after_hash p) 64)
                then Err (txt "invalid workspace file effect digest/length") else Ok tt
            | _, _ => Err (txt "workspace file effect requires byte lengths")
            end
      end.

Definition validate_transition (version : N) (t : JournalTransition) : result unit text :=
  if negb (known_version version) then Err (txt "unsupported workspace effect journal version")
  else
    match t with
    | JPrepared tx_id p => validate_prepared version tx_id p
    | JCommitted tx_id entry_identity =>
        if negb (parses_as_uuid tx_id) || from_option (fun identity => negb (valid_entry_identity identity)) false entry_identity
        then Err (txt "invalid workspace committed transaction") else Ok tt
    | JRolledBack tx_id =>
        if parses_as_uuid tx_id then Ok tt else Err (txt "invalid workspace transaction id")
    end.

(** ** The history *)

Definition same_effect (a b : OperationEffectContext) : bool :=
  (ti_operation_id (oc_identity a) =? ti_operation_id (oc_identity b))%N || (oc_effect_id a =? oc_effect_id b)%N.

Definition of_context (c : OperationEffectContext) (state : RecoveryState) : list (text * TxEvidence) :=
  List.filter (fun tx => bool_decide (pr_context (te_prepared tx.2) = c)) (map_to_list (rs_transactions state)).

Definition open_transaction (state : RecoveryState) (tx_id : text) : result TxEvidence text :=
  match rs_transactions state !! tx_id with
  | None => Err (txt "terminal workspace transaction " ++ tx_id ++ txt " has no prepared record")
  | Some evidence =>
      match te_terminal evidence with
      | Some _ => Err (txt "workspace transaction " ++ tx_id ++ txt " has duplicate/conflicting terminal state")
      | None => Ok evidence
      end
  end.

Definition validate_fold (state : RecoveryState) (t : JournalTransition) : result unit text :=
  match t with
  | JPrepared tx_id p =>
      if bool_decide (is_Some (rs_transactions state !! tx_id))
      then Err (txt "duplicate workspace prepared transaction " ++ tx_id)
      else if MAX_EFFECT_TRANSACTIONS <=? length (of_context (pr_context p) state)
      then Err (txt "effect exceeds 16 transactions")
      else if existsb (fun tx => same_effect (pr_context (te_prepared tx.2)) (pr_context p)
                                 && negb (bool_decide (pr_context (te_prepared tx.2) = pr_context p)))
                (map_to_list (rs_transactions state))
      then Err (txt "operation has conflicting workspace effect identity")
      else Ok tt
  | JCommitted tx_id entry_identity =>
      let? evidence := open_transaction state tx_id in
      if negb (Bool.eqb (bool_decide (pr_entry_kind (te_prepared evidence) = EntryDirectory))
                 (bool_decide (is_Some entry_identity)))
      then Err (txt "workspace transaction " ++ tx_id ++ txt " committed identity does not match its entry kind")
      else Ok tt
  | JRolledBack tx_id => let? _ := open_transaction state tx_id in Ok tt
  end.

Definition set_terminal (terminal : TxTerminal) (e : TxEvidence) : TxEvidence :=
  {| te_journal_version := te_journal_version e; te_prepared := te_prepared e; te_terminal := Some terminal |}.

Definition end_transaction (tx_id : text) (terminal : TxTerminal) (state : RecoveryState) : result RecoveryState text :=
  match rs_transactions state !! tx_id with
  | None => Err (txt "missing prepared transaction")
  | Some e =>
      Ok {| rs_last_seq := rs_last_seq state; rs_transactions := <[tx_id := set_terminal terminal e]> (rs_transactions state) |}
  end.

Definition apply_transition (journal_version : N) (t : JournalTransition) (state : RecoveryState) :
    result RecoveryState text :=
  match t with
  | JPrepared tx_id p =>
      Ok {| rs_last_seq := rs_last_seq state;
            rs_transactions :=
              <[tx_id := {| te_journal_version := journal_version; te_prepared := p; te_terminal := None |}]>
                (rs_transactions state) |}
  | JCommitted tx_id entry_identity => end_transaction tx_id (TxCommitted entry_identity) state
  | JRolledBack tx_id => end_transaction tx_id TxRolledBack state
  end.

Definition at_seq (seq : N) (state : RecoveryState) : RecoveryState :=
  {| rs_last_seq := seq; rs_transactions := rs_transactions state |}.

(** ** The log *)

Definition content_checksum (payload : bytes) : text := digest_display (content_sha256 payload).

Definition journal_corrupt (detail : text) : AgentError :=
  RecoveryRequired (txt "workspace effect journal is corrupt: " ++ detail).

Definition journal_frame (r : JournalRecord) : bytes :=
  stored_frame_to_vec {| st_record := r; st_checksum := content_checksum (journal_record_to_vec r) |}.

(** What [recover_file] does with one record whose checksum matches. *)
Definition replay_entry (r : JournalRecord) (state : RecoveryState) : AgentResult RecoveryState :=
  if negb (known_version (jr_version r)) then Err (journal_corrupt (txt "unsupported version"))
  else if negb (jr_seq r =? rs_last_seq state + 1)%N then Err (journal_corrupt (txt "non-contiguous sequence"))
  else
    let? _ := map_err journal_corrupt (validate_transition (jr_version r) (jr_transition r)) in
    let? _ := map_err journal_corrupt (validate_fold state (jr_transition r)) in
    let? state := map_err journal_corrupt (apply_transition (jr_version r) (jr_transition r) state) in
    if (MAX_RECORDS <? jr_seq r)%N then Err (journal_corrupt (txt "record recovery limit exceeded"))
    else Ok (at_seq (jr_seq r) state).

(** One frame of [recover_file]: from its line, without the newline, to the next state. *)
Definition recover_frame (line : bytes) (state : RecoveryState) : AgentResult RecoveryState :=
  match stored_frame_from_slice line with
  | None => Err (journal_corrupt (txt "invalid JSON"))
  | Some frame =>
      if negb (bool_decide (st_checksum frame = content_checksum (journal_record_to_vec (st_record frame))))
      then Err (journal_corrupt (txt "checksum mismatch"))
      else replay_entry (st_record frame) state
  end.

(** The loop of [recover_file], and the offset behind the last good frame; every round
    reads at least one byte. *)
Fixpoint recover_frames (fuel size : nat) (input : bytes) (offset last_good : nat) (state : RecoveryState) :
    AgentResult (RecoveryState * nat) :=
  match fuel with
  | O => Err (Internal (txt "out of fuel"))
  | S fuel =>
      let '(line, rest) := read_until (MAX_FRAME_BYTES + 2) input in
      if bool_decide (line = []) then Ok (state, last_good)
      else
        let offset := offset + length line in
        if negb (ends_with_newline line) then
          if offset =? size then Ok (state, last_good) else Err (journal_corrupt (txt "partial middle frame"))
        else if MAX_FRAME_BYTES + 1 <? length line then Err (journal_corrupt (txt "oversized complete frame"))
        else
          let? state := recover_frame (removelast line) state in
          recover_frames fuel size rest offset offset state
  end.

(** [recover_file]: the state, and the file without its torn tail. *)
Definition recover_file (file : bytes) : AgentResult (RecoveryState * bytes) :=
  if (MAX_WORKSPACE_JOURNAL_BYTES <? N.of_nat (length file))%N then Err (journal_corrupt (txt "file exceeds hard limit"))
  else
    let? found := recover_frames (S (length file)) (length file) file 0 0 default_recovery in
    Ok (found.1, take found.2 file).

(** ** The writer *)

Record WriterState : Type := {
  wr_file : bytes;
  wr_recovery : RecoveryState;
  wr_failed : option text;
}.

(** How the writes of one append end: all of them succeed, or one fails, or the process
    dies, with so many bytes of the line in the file. *)
Inductive WriteOutcome : Type :=
| Written
| WriteFails (reached : nat) (error : text)
| WriteDies (reached : nat).

(** [append_record]: the checks, then the write; [None] where the process died. *)
Definition append_record (outcome : WriteOutcome) (r : JournalRecord) (file : bytes) :
    option (AgentResult unit) * bytes :=
  let encoded := journal_frame r in
  if MAX_FRAME_BYTES <? length encoded
  then (Some (Err (Storage (txt "workspace effect journal frame exceeds 16384 bytes"))), file)
  else if (MAX_WORKSPACE_JOURNAL_BYTES <? N.of_nat (length file) + (N.of_nat (length encoded) + 1))%N
  then (Some (Err (RecoveryRequired (txt "workspace effect journal reached its 268435456 byte hard limit"))), file)
  else
    let line := encoded ++ [NEWLINE] in
    match outcome with
    | Written => (Some (Ok tt), file ++ line)
    | WriteFails n error => (Some (Err (Storage (txt "persist workspace effect journal: " ++ error))), file ++ take n line)
    | WriteDies n => (None, file ++ take n line)
    end.

Definition failed_permanently (error : AgentError) : text :=
  txt "workspace effect journal failed permanently: " ++ display_error error.

(** [WorkspaceEffectJournal::append]. *)
Definition journal_append (outcome : WriteOutcome) (t : JournalTransition) (w : WriterState) :
    option (AgentResult unit) * WriterState :=
  let refuse error := (Some (Err error), w) in
  match validate_transition JOURNAL_VERSION t with
  | Err error => refuse (InvalidRequest error)
  | Ok _ =>
      match wr_failed w with
      | Some error => refuse (Storage error)
      | None =>
          let state := wr_recovery w in
          if (MAX_RECORDS <=? rs_last_seq state)%N
          then refuse (RecoveryRequired (txt "workspace effect journal reached its 65536 record recovery limit"))
          else
            match validate_fold state t with
            | Err error => refuse (RecoveryRequired error)
            | Ok _ =>
                match checked_succ (rs_last_seq state) with
                | None => refuse (RecoveryRequired (txt "workspace effect journal sequence exhausted"))
                | Some seq =>
                    let r := {| jr_version := JOURNAL_VERSION; jr_seq := seq; jr_transition := t |} in
                    match append_record outcome r (wr_file w) with
                    | (None, file) =>
                        (None, {| wr_file := file; wr_recovery := state; wr_failed := wr_failed w |})
                    | (Some (Err error), file) =>
                        let message := failed_permanently error in
                        (Some (Err (Storage message)),
                         {| wr_file := file; wr_recovery := state; wr_failed := Some message |})
                    | (Some (Ok _), file) =>
                        match apply_transition JOURNAL_VERSION t state with
                        | Err error => (Some (Err (Internal error)),
                            {| wr_file := file; wr_recovery := state; wr_failed := wr_failed w |})
                        | Ok state =>
                            (Some (Ok tt),
                             {| wr_file := file; wr_recovery := at_seq seq state; wr_failed := wr_failed w |})
                        end
                    end
                end
            end
      end
  end.

(** [WorkspaceEffectJournal::open] on the bytes it finds. *)
Definition journal_open (file : bytes) : AgentResult WriterState :=
  let? found := recover_file file in
  Ok {| wr_file := found.2; wr_recovery := found.1; wr_failed := None |}.

Definition by_tx_id (a b : text * TxEvidence) : Prop := text_le a.1 b.1 = true.

#[export] Instance by_tx_id_dec : RelDecision by_tx_id.
Proof. intros a b. unfold by_tx_id. apply _. Defined.

(** [evidence_for]: the transactions of one effect, by transaction id. *)
Definition evidence_for (context : OperationEffectContext) (w : WriterState) : AgentResult (list (text * TxEvidence)) :=
  let? _ := map_err InvalidRequest (effect_context_validate context) in
  match wr_failed w with
  | Some error => Err (Storage error)
  | None =>
      let found := merge_sort by_tx_id (of_context context (wr_recovery w)) in
      if MAX_EFFECT_TRANSACTIONS <? length found
      then Err (RecoveryRequired (txt "effect owns more than 16 workspace transactions")) else Ok found
  end.

(** ** What the log promises *)

(** One acknowledged transition, on the state that recovery folds. *)
Definition journal_next (t : JournalTransition) (state : RecoveryState) : option RecoveryState :=
  match replay_entry {| jr_version := JOURNAL_VERSION; jr_seq := rs_last_seq state + 1; jr_transition := t |} state with
  | Ok state => Some state
  | Err _ => None
  end.

Fixpoint journal_after (ts : list JournalTransition) (state : RecoveryState) : option RecoveryState :=
  match ts with
  | [] => Some state
  | t :: ts => state ← journal_next t state; journal_after ts state
  end.

(** An append of the history: how its writes end, the transition, and whether the
    process is restarted behind it (one that died always is). *)
Definition AppendAttempt : Type := WriteOutcome * JournalTransition * bool.

(** The transitions that were tried, each with whether it was acknowledged. *)
Fixpoint run_attempts (attempts : list AppendAttempt) (w : WriterState) : AgentResult (list (JournalTransition * bool) * WriterState) :=
  match attempts with
  | [] => Ok ([], w)
  | (outcome, t, restart) :: attempts =>
      let '(answer, w) := journal_append outcome t w in
      let? w := if bool_decide (answer = None) || restart then journal_open (wr_file w) else Ok w in
      let? found := run_attempts attempts w in
      Ok ((t, match answer with Some (Ok _) => true | _ => false end) :: found.1, found.2)
  end.

(** Of the transitions that were tried, those that are on disk: all the acknowledged
    ones, in order, with any of the others. *)
Inductive survivors : list (JournalTransition * bool) -> list JournalTransition -> Prop :=
| survivors_nil : survivors [] []
| survivors_kept t acknowledged tried ts : survivors tried ts -> survivors ((t, acknowledged) :: tried) (t :: ts)
| survivors_lost t tried ts : survivors tried ts -> survivors ((t, false) :: tried) ts.

End journal.

Section durability.
Context `{WC : WorkspaceCodec} `{WL : !WorkspaceCodecLaws} `{UC : UuidCodec}.

Definition journal_line (r : JournalRecord) : bytes := journal_frame r ++ [NEWLINE].
Definition journal_log (rs : list JournalRecord) : bytes := rs ≫= journal_line.
Definition frame_fits (r : JournalRecord) : Prop := length (journal_frame r) <= MAX_FRAME_BYTES.

Fixpoint replay_entries (rs : list JournalRecord) (state : RecoveryState) : AgentResult RecoveryState :=
  match rs with
  | [] => Ok state
  | r :: rs => let? state := replay_entry r state in replay_entries rs state
  end.

Lemma replay_entry_seq r state state' : replay_entry r state = Ok state' -> rs_last_seq state' = jr_seq r.
Proof. unfold replay_entry, rbind, map_err. intros H. by repeat (case_match; simplify_eq/=). Qed.

Lemma replay_entries_snoc rs r state :
  replay_entries (rs ++ [r]) state = let? state := replay_entries rs state in replay_entry r state.
Proof.
  revert state. induction rs as [|r' rs IH]; intros state; cbn [app replay_entries].
  - cbn. destruct (replay_entry r state); done.
  - unfold rbind. destruct (replay_entry r' state); [apply IH|done].
Qed.

Lemma journal_log_snoc rs r : journal_log (rs ++ [r]) = journal_log rs ++ journal_line r.
Proof. unfold journal_log. rewrite bind_app. cbn. by rewrite app_nil_r. Qed.

Lemma recover_frame_own r state : recover_frame (journal_frame r) state = replay_entry r state.
Proof.
  unfold recover_frame, journal_frame. rewrite stored_frame_roundtrip. cbn.
  by rewrite bool_decide_eq_true_2.
Qed.

(** A torn end: at most one line, without its newline. *)
Definition torn_end (p : bytes) : Prop := NEWLINE ∉ p /\ length p <= MAX_FRAME_BYTES.

Lemma recover_frames_log fuel size rs p off state :
  Forall frame_fits rs -> torn_end p -> size = off + length (journal_log rs ++ p) ->
  recover_frames (length rs + S fuel) size (journal_log rs ++ p) off off state =
    let? state := replay_entries rs state in Ok (state, off + length (journal_log rs)).
Proof.
  intros Hs [Hni Hp]. revert off state. induction Hs as [|r rs Hr Hs IH]; intros off state Hsize.
  - cbn [length Nat.add recover_frames journal_log mbind list_bind app replay_entries rbind].
    rewrite read_until_partial by (done || lia). rewrite Nat.add_0_r. case_bool_decide; [done|].
    unfold ends_with_newline. rewrite bool_decide_eq_false_2 by
      (intros Hl; apply Hni; by apply last_Some_elem_of in Hl).
    cbn [negb]. rewrite (proj2 (Nat.eqb_eq _ _)) by done. done.
  - change (journal_log (r :: rs)) with (journal_line r ++ journal_log rs).
    cbn [length Nat.add recover_frames replay_entries]. unfold journal_line. rewrite <- !app_assoc. cbn [app].
    unfold frame_fits in Hr.
    rewrite read_until_line; [|apply stored_frame_line|lia].
    rewrite bool_decide_eq_false_2 by (by destruct (journal_frame r)).
    unfold ends_with_newline. rewrite last_snoc, bool_decide_eq_true_2 by done. cbn [negb].
    destruct (Nat.ltb_spec (MAX_FRAME_BYTES + 1) (length (journal_frame r ++ [NEWLINE]))) as [Hl|_];
      [rewrite length_app in Hl; cbn in Hl; lia|].
    rewrite removelast_last, recover_frame_own. unfold rbind.
    destruct (replay_entry r state) as [state1|]; [|done].
    change (journal_log (r :: rs)) with (journal_line r ++ journal_log rs) in Hsize. unfold journal_line in Hsize.
    rewrite !length_app in Hsize. cbn [length] in Hsize.
    rewrite IH.
    + unfold rbind. destruct (replay_entries rs state1); [|done]. rewrite !length_app. cbn [length].
      do 2 f_equal. lia.
    + rewrite !length_app. cbn [length]. lia.
Qed.

Lemma journal_log_length rs : length rs <= length (journal_log rs).
Proof.
  induction rs as [|r rs IH]; [done|].
  change (journal_log (r :: rs)) with (journal_line r ++ journal_log rs).
  unfold journal_line. rewrite !length_app. cbn. lia.
Qed.

(** The file holds the log of records that replay to [state], and a torn end. *)
Definition recoverable (file : bytes) (state : RecoveryState) : Prop :=
  exists rs p, Forall frame_fits rs /\ torn_end p /\ file = journal_log rs ++ p /\
    replay_entries rs default_recovery = Ok state /\ (N.of_nat (length file) <= MAX_WORKSPACE_JOURNAL_BYTES)%N.

(** A whole log, without a torn end. *)
Definition whole_log (file : bytes) (state : RecoveryState) : Prop :=
  exists rs, Forall frame_fits rs /\ file = journal_log rs /\
    replay_entries rs default_recovery = Ok state /\ (N.of_nat (length file) <= MAX_WORKSPACE_JOURNAL_BYTES)%N.

(** What is on disk, and, until the writer fails, in memory. *)
Definition journal_at (state : RecoveryState) (w : WriterState) : Prop :=
  recoverable (wr_file w) state /\
  (wr_failed w = None -> whole_log (wr_file w) state /\ wr_recovery w = state).

Lemma torn_nil : torn_end [].
Proof. split; [apply not_elem_of_nil|cbn; lia]. Qed.

Lemma whole_recoverable file state : whole_log file state -> recoverable file state.
Proof.
  intros (rs & Hs & -> & Hr & Hl). exists rs, []. rewrite app_nil_r. split_and!; try done. apply torn_nil.
Qed.

Lemma recover_file_log file state :
  recoverable file state ->
  exists kept, recover_file file = Ok (state, kept) /\ whole_log kept state.
Proof.
  intros (rs & p & Hs & Hp & -> & Hr & Hl). exists (journal_log rs). split.
  - unfold recover_file. destruct (N.ltb_spec MAX_WORKSPACE_JOURNAL_BYTES (N.of_nat (length (journal_log rs ++ p)))); [lia|].
    pose proof (journal_log_length rs).
    assert (exists fuel, S (length (journal_log rs ++ p)) = length rs + S fuel) as [fuel ->].
    { exists (length (journal_log rs ++ p) - length rs). rewrite length_app. lia. }
    rewrite recover_frames_log by done. rewrite Hr. cbn [rbind fst snd]. by rewrite Nat.add_0_l, take_app_length.
  - exists rs. split_and!; try done. rewrite length_app in Hl. lia.
Qed.

(** A journal opens on whatever a history of appends left. *)
Lemma journal_open_recoverable file state :
  recoverable file state ->
  exists w, journal_open file = Ok w /\ journal_at state w /\ wr_failed w = None /\ wr_recovery w = state.
Proof.
  intros (kept & Hf & Hk)%recover_file_log. unfold journal_open. rewrite Hf. cbn [rbind fst snd].
  eexists. split; [done|]. split_and!; try done. split; [by apply whole_recoverable|done].
Qed.

Lemma apply_validated version t state :
  validate_fold state t = Ok tt -> exists state', apply_transition version t state = Ok state'.
Proof.
  destruct t; cbn [validate_fold apply_transition]; [by eauto| |];
    unfold open_transaction, end_transaction; destruct (rs_transactions state !! tx_id); cbn [rbind]; eauto; done.
Qed.

Lemma checked_succ_seq n : (n < MAX_RECORDS)%N -> checked_succ n = Some (n + 1)%N.
Proof.
  intros Hn. apply checked_succ_Some. split; [done|]. assert (MAX_RECORDS < u64_max)%N by done. lia.
Qed.

Lemma whole_log_more file state p :
  whole_log file state -> torn_end p ->
  (N.of_nat (length file) + N.of_nat (length p) <= MAX_WORKSPACE_JOURNAL_BYTES)%N -> recoverable (file ++ p) state.
Proof.
  intros (rs & Hs & -> & Hr & Hl) Hp Hlen. exists rs, p. split_and!; try done. rewrite length_app. lia.
Qed.

Lemma whole_log_snoc file state r state' :
  whole_log file state -> frame_fits r -> replay_entry r state = Ok state' ->
  (N.of_nat (length file) + (N.of_nat (length (journal_frame r)) + 1) <= MAX_WORKSPACE_JOURNAL_BYTES)%N ->
  whole_log (file ++ journal_line r) state'.
Proof.
  intros (rs & Hs & -> & Hr & Hl) Hf He Hlen. exists (rs ++ [r]). split_and!.
  - apply Forall_app. split; [done|]. by apply Forall_singleton.
  - by rewrite journal_log_snoc.
  - rewrite replay_entries_snoc, Hr. done.
  - unfold journal_line. rewrite !length_app. cbn [length]. lia.
Qed.

(** Any part of a line leaves the log as it was, or one record longer. *)
Lemma whole_log_part file state r state' n :
  whole_log file state -> frame_fits r -> replay_entry r state = Ok state' ->
  (N.of_nat (length file) + (N.of_nat (length (journal_frame r)) + 1) <= MAX_WORKSPACE_JOURNAL_BYTES)%N ->
  exists left, (left = state \/ left = state') /\ recoverable (file ++ take n (journal_line r)) left.
Proof.
  intros Hw Hf He Hlen. destruct (decide (n <= length (journal_frame r))) as [Hn|Hn].
  - exists state. split; [by left|]. unfold journal_line. rewrite take_app_le by done.
    apply whole_log_more; [done| |rewrite length_take; lia]. split.
    + intros (i & Hi & _)%elem_of_take. eapply (stored_frame_line _), list_elem_of_lookup_2, Hi.
    + rewrite length_take. unfold frame_fits in Hf. lia.
  - exists state'. split; [by right|]. rewrite take_ge by (unfold journal_line; rewrite length_app; cbn; lia).
    apply whole_recoverable. by eapply whole_log_snoc.
Qed.

(** One append: the log keeps its state or holds one more record; an acknowledged one
    is in it. *)
Lemma journal_append_spec outcome t state w answer w' :
  journal_at state w -> journal_append outcome t w = (answer, w') ->
  exists left, (left = state \/ journal_next t state = Some left) /\ recoverable (wr_file w') left /\
    (answer <> None -> journal_at left w') /\ (answer = Some (Ok tt) -> journal_next t state = Some left).
Proof.
  intros [Hr Hl] Ha.
  assert (Hsame : forall error, (Some (Err error), w) = (answer, w') ->
    exists left, (left = state \/ journal_next t state = Some left) /\ recoverable (wr_file w') left /\
      (answer <> None -> journal_at left w') /\ (answer = Some (Ok tt) -> journal_next t state = Some left)).
  { intros error [= <- <-]. exists state. split_and!; [by left|done|by intros _|done]. }
  unfold journal_append in Ha.
  destruct (validate_transition JOURNAL_VERSION t) as [[]|] eqn:Ev; [|by eapply Hsame].
  destruct (wr_failed w) eqn:Ef; [by eapply Hsame|].
  destruct (Hl eq_refl) as [Hw Hm]. rewrite Hm in Ha.
  destruct (N.leb_spec MAX_RECORDS (rs_last_seq state)) as [|Hseq]; [by eapply Hsame|].
  destruct (validate_fold state t) as [[]|] eqn:Efold; [|by eapply Hsame].
  rewrite checked_succ_seq in Ha by done.
  destruct (apply_validated JOURNAL_VERSION t state Efold) as [state1 Es1]. rewrite Es1 in Ha.
  set (r := {| jr_version := JOURNAL_VERSION; jr_seq := rs_last_seq state + 1; jr_transition := t |}) in *.
  assert (Hreplay : replay_entry r state = Ok (at_seq (rs_last_seq state + 1) state1)).
  { unfold replay_entry. cbn [jr_version jr_seq jr_transition r]. rewrite N.eqb_refl, Ev, Efold, Es1. cbn.
    destruct (N.ltb_spec MAX_RECORDS (rs_last_seq state + 1)); [lia|done]. }
  assert (Hnext : journal_next t state = Some (at_seq (rs_last_seq state + 1) state1)).
  { unfold journal_next. fold r. by rewrite Hreplay. }
  unfold append_record in Ha.
  destruct (Nat.ltb_spec MAX_FRAME_BYTES (length (journal_frame r))) as [|Hfit].
  { injection Ha as <- <-. exists state. split_and!; [by left|done|by intros _; split|done]. }
  destruct (N.ltb_spec MAX_WORKSPACE_JOURNAL_BYTES (N.of_nat (length (wr_file w)) + (N.of_nat (length (journal_frame r)) + 1)))
    as [|Hsize].
  { injection Ha as <- <-. exists state. split_and!; [by left|done|by intros _; split|done]. }
  change (journal_frame r ++ [NEWLINE]) with (journal_line r) in Ha.
  pose proof (whole_log_part _ _ r _ (match outcome with Written => 0 | WriteFails n _ | WriteDies n => n end)
                Hw Hfit Hreplay Hsize) as (left & Hleft & Hrec).
  assert (Hin : left = state \/ journal_next t state = Some left) by (destruct Hleft as [->| ->]; [by left|by right]).
  destruct outcome; injection Ha as <- <-.
  - exists (at_seq (rs_last_seq state + 1) state1).
    pose proof (whole_log_snoc _ _ _ _ Hw Hfit Hreplay Hsize) as Hsnoc.
    split_and!; [by right|by apply whole_recoverable| |done]. intros _. split; [by apply whole_recoverable|done].
  - exists left. split_and!; [done|done| |done]. intros _. split; [done|]. done.
  - exists left. split_and!; [done|done|done|done].
Qed.

Lemma journal_start : journal_at default_recovery {| wr_file := []; wr_recovery := default_recovery; wr_failed := None |}.
Proof.
  assert (Hw : whole_log [] default_recovery) by (exists []; split_and!; done).
  split; [by apply whole_recoverable|done].
Qed.

Lemma run_attempts_durable attempts state w :
  journal_at state w ->
  exists tried w' ts last, run_attempts attempts w = Ok (tried, w') /\ survivors tried ts /\
    journal_after ts state = Some last /\ journal_at last w'.
Proof.
  revert state w. induction attempts as [|[[outcome t] restart] attempts IH]; intros state w Hw.
  { exists [], w, [], state. split_and!; try done. constructor. }
  cbn [run_attempts]. destruct (journal_append outcome t w) as [answer w1] eqn:Ea.
  destruct (journal_append_spec _ _ _ _ _ _ Hw Ea) as (left & Hleft & Hrec & Hat & Hack).
  assert (exists w2, (if bool_decide (answer = None) || restart then journal_open (wr_file w1) else Ok w1) = Ok w2 /\
            journal_at left w2) as (w2 & -> & Hw2).
  { destruct (bool_decide (answer = None) || restart) eqn:Eb.
    - destruct (journal_open_recoverable _ _ Hrec) as (w2 & ? & ? & _). by exists w2.
    - apply orb_false_iff in Eb as [Eb _]. apply bool_decide_eq_false in Eb. exists w1. auto. }
  cbn [rbind]. destruct (IH left w2 Hw2) as (tried & w' & ts & last & -> & Hs & Hafter & Hlast). cbn [rbind fst snd].
  destruct Hleft as [->|Hnext].
  - destruct answer as [[[]|]|].
    + specialize (Hack eq_refl). exfalso. revert Hack. unfold journal_next.
      destruct (replay_entry _ state) as [st|] eqn:Er; [|done]. intros [= ->].
      apply replay_entry_seq in Er. cbn [jr_seq] in Er. lia.
    + exists ((t, false) :: tried), w', ts, last. split_and!; try done. by constructor.
    + exists ((t, false) :: tried), w', ts, last. split_and!; try done. by constructor.
  - eexists _, w', (t :: ts), last. split_and!; [done|by constructor| |done].
    cbn [journal_after]. by rewrite Hnext.
Qed.

(** C17. The effect journal is durable at every byte. Whatever is appended to a new
    journal, however each append ends (all of it is written, a write fails after some
    bytes, the process dies after some bytes) and wherever the process is restarted,
    every restart opens the journal, and what it recovers at the end are exactly the
    acknowledged transitions, in order, with none lost and none invented: the others
    on disk are appends that were tried and not acknowledged. *)
Theorem effect_journal_durable attempts :
  exists tried w ts last w',
    run_attempts attempts {| wr_file := []; wr_recovery := default_recovery; wr_failed := None |} = Ok (tried, w) /\
    survivors tried ts /\ journal_after ts default_recovery = Some last /\
    journal_open (wr_file w) = Ok w' /\ wr_recovery w' = last.
Proof.
  destruct (run_attempts_durable attempts _ _ journal_start) as (tried & w & ts & last & Hr & Hs & Ha & [Hf _]).
  destruct (journal_open_recoverable _ _ Hf) as (w' & Ho & _ & _ & Hl).
  by exists tried, w, ts, last, w'.
Qed.

End durability.

