(* ===== verification/WorkspaceEffects.v ===== *)
(** File effects of the workspace (agent-workspace/lib.rs: staging, commit, rollback and
    drop of a mutation) over a file system and the effect journal, and the
    reconciliation of an effect from the journal and the files (journal.rs).

    A directory is a path of components; an entry is a file, by its inode, or a
    directory, by its identity, and reads as on Unix. Every system call takes its
    outcome from a script: it succeeds, fails, or the process dies at it; the script's
    end is a crash too. Handles are pinned directories and open inodes. Nobody else
    writes while a function runs (the leases of the in-process writers). *)

From stdpp Require Import gmap.
From S2P Require Import Prelude Text Digest Jcs Operation Journal Wal Intent Composite OutputBroker Capability Artifact.
From S2P Require Import WorkspaceJournal.

(** ** The world *)

Inductive Node : Type := NFile (inode : N) | NDir (identity : text).

#[export] Instance Node_eq_dec : EqDecision Node.
Proof. solve_decision. Defined.

Record Files : Type := {
  fs_entries : gmap (list text) Node;
  fs_data : gmap N bytes;
  fs_next : N;
}.

Inductive Syscall : Type :=
| Good
| Bad (reached : nat) (error : text)
| Dies (reached : nat).

(** [changes.jsonl], the review journal; without its timestamps. *)
Inductive ChangeRecord : Type :=
| MutationPrepared (tx_id tool path action : text) (bytes_before bytes_after : N) (before_hash after_hash : text)
    (old_content : option text)
| MutationCommitted (tx_id : text)
| MutationRolledBack (tx_id reason : text)
| DirectoryPrepared (tx_id tool path : text)
| DirectoryCommitted (tx_id entry_identity : text)
| DirectoryRolledBack (tx_id reason : text).

Record World : Type := {
  wd_files : Files;
  wd_journal : WriterState;
  wd_changes : list ChangeRecord;
  wd_script : list Syscall;
}.

Definition copy_world (w : World) : World :=
  {| wd_files := wd_files w; wd_journal := wd_journal w; wd_changes := wd_changes w; wd_script := wd_script w |}.
Definition set_files : Files -> World -> World := ltac:(setter copy_world wd_files).
Definition set_journal : WriterState -> World -> World := ltac:(setter copy_world wd_journal).
Definition set_changes : list ChangeRecord -> World -> World := ltac:(setter copy_world wd_changes).
Definition set_script : list Syscall -> World -> World := ltac:(setter copy_world wd_script).

(** A computation that may fail, or not live to answer. *)
Definition IO (E A : Type) : Type := World -> option (result A E) * World.

Definition io_ret {E A} (a : A) : IO E A := fun w => (Some (Ok a), w).
Definition io_fail {E A} (e : E) : IO E A := fun w => (Some (Err e), w).
Definition io_lift {E A} (r : result A E) : IO E A := fun w => (Some r, w).
Definition io_bind {E A B} (m : IO E A) (k : A -> IO E B) : IO E B := fun w =>
  match m w with
  | (Some (Ok a), w) => k a w
  | (Some (Err e), w) => (Some (Err e), w)
  | (None, w) => (None, w)
  end.
(** The result as a value, for the code that looks at it. *)
Definition io_catch {E F A} (m : IO E A) : IO F (result A E) := fun w =>
  match m w with
  | (Some r, w) => (Some (Ok r), w)
  | (None, w) => (None, w)
  end.
Definition io_map_err {E F A} (f : E -> F) (m : IO E A) : IO F A := fun w =>
  match m w with
  | (Some r, w) => (Some (map_err f r), w)
  | (None, w) => (None, w)
  end.

Notation "'act' x '<-' m ';;' k" := (io_bind m (fun x => k))
  (at level 10, x pattern, m at level 99, k at level 200, only parsing) : agent_scope.
Notation "'act_' m ';;' k" := (io_bind m (fun _ => k))
  (at level 10, m at level 99, k at level 200, only parsing) : agent_scope.

(** One system call: what it does, and what a failed or fatal one leaves. *)
Definition call {A} (does : World -> result A text * World) (leaves : nat -> World -> World) : IO text A := fun w =>
  match wd_script w with
  | [] => (None, w)
  | Good :: s => let '(r, w) := does (set_script s w) in (Some r, w)
  | Bad n error :: s => (Some (Err error), leaves n (set_script s w))
  | Dies n :: _ => (None, leaves n (set_script [] w))
  end.

Definition nothing (n : nat) (w : World) : World := w.
Definition look {A} (f : Files -> result A text) : IO text A := call (fun w => (f (wd_files w), w)) nothing.
Definition change (f : Files -> result Files text) : IO text unit :=
  call (fun w => match f (wd_files w) with Ok fs => (Ok tt, set_files fs w) | Err e => (Err e, w) end) nothing.

(** ** The file system *)

Section fs.
Context `{WC : WorkspaceCodec}.

Definition entry_of (dir : list text) (name : text) (fs : Files) : option Node := fs_entries fs !! (dir ++ [name]).
Definition data_of (inode : N) (fs : Files) : bytes := default [] (fs_data fs !! inode).

Definition with_entry (dir : list text) (name : text) (node : option Node) (fs : Files) : Files :=
  {| fs_entries := partial_alter (fun _ => node) (dir ++ [name]) (fs_entries fs); fs_data := fs_data fs; fs_next := fs_next fs |}.
Definition with_data (inode : N) (content : bytes) (fs : Files) : Files :=
  {| fs_entries := fs_entries fs; fs_data := <[inode := content]> (fs_data fs); fs_next := fs_next fs |}.

(** [open_child_dir]; [None] is NotFound. *)
Definition open_child_dir (dir : list text) (name : text) : IO text (option text) :=
  look (fun fs => match entry_of dir name fs with
                  | None => Ok None
                  | Some (NDir identity) => Ok (Some identity)
                  | Some (NFile _) => Err (txt "not a directory")
                  end).

(** [open_existing]. *)
Definition open_existing (dir : list text) (name : text) : IO text (option Node) :=
  look (fun fs => Ok (entry_of dir name fs)).

(** [open_recovery_target], [open_staged_for_cleanup]: regular files only. *)
Definition open_regular (dir : list text) (name : text) : IO text (option N) :=
  look (fun fs => match entry_of dir name fs with
                  | None => Ok None
                  | Some (NFile inode) => Ok (Some inode)
                  | Some (NDir _) => Err (txt "not a regular file")
                  end).

Definition named_entry_matches_file (dir : list text) (name : text) (inode : N) : IO text bool :=
  look (fun fs => match entry_of dir name fs with
                  | None => Err (txt "not found")
                  | Some node => Ok (bool_decide (node = NFile inode))
                  end).

Definition create_new_file (dir : list text) (name : text) : IO text N :=
  call (fun w =>
    let fs := wd_files w in
    match entry_of dir name fs with
    | Some _ => (Err (txt "already exists"), w)
    | None =>
        let inode := fs_next fs in
        let fs := with_entry dir name (Some (NFile inode)) (with_data inode [] fs) in
        (Ok inode, set_files {| fs_entries := fs_entries fs; fs_data := fs_data fs; fs_next := inode + 1 |} w)
    end) nothing.

(** [write_all], [flush], the permissions and [sync_all] of the stage. *)
Definition write_file (inode : N) (content : bytes) : IO text unit :=
  call (fun w => (Ok tt, set_files (with_data inode content (wd_files w)) w))
    (fun n w => set_files (with_data inode (take n content) (wd_files w)) w).

Definition sync_dir : IO text unit := look (fun _ => Ok tt).

Definition remove_file (dir : list text) (name : text) : IO text bool :=
  call (fun w => match entry_of dir name (wd_files w) with
                 | Some _ => (Ok true, set_files (with_entry dir name None (wd_files w)) w)
                 | None => (Ok false, w)
                 end) nothing.

Definition remove_open_file (dir : list text) (inode : N) (name : text) : IO text unit :=
  act matches <- named_entry_matches_file dir name inode ;;
  if matches : bool
  then change (fun fs => Ok (with_entry dir name None fs))
  else io_fail (txt "staged file name no longer identifies its open handle").

(** [renameat] within one directory. *)
Definition rename (dir : list text) (from to : text) (fs : Files) : result Files text :=
  match entry_of dir from fs, entry_of dir to fs with
  | None, _ => Err (txt "not found")
  | Some _, Some (NDir _) => Err (txt "is a directory")
  | Some node, _ =>
      Ok (if decide (from = to) then fs else with_entry dir to (Some node) (with_entry dir from None fs))
  end.

Definition replace_file (dir : list text) (inode : N) (from to : text) : IO text unit :=
  act matches <- named_entry_matches_file dir from inode ;;
  if matches : bool
  then change (rename dir from to)
  else io_fail (txt "staged file name no longer identifies its open handle").

(** A directory's identity is made of its inode; a handle of one holds it. *)
Definition identity_of (inode : N) : text := txt "unix:1:" ++ uint_text (N.to_uint inode).

Definition entry_identity (child : text) : IO text text := look (fun _ => Ok child).

(** [mkdirat]. *)
Definition make_dir (dir : list text) (name : text) : IO text unit :=
  change (fun fs =>
    match entry_of dir name fs with
    | Some _ => Err (txt "already exists")
    | None =>
        let fs' := with_entry dir name (Some (NDir (identity_of (fs_next fs)))) fs in
        Ok {| fs_entries := fs_entries fs'; fs_data := fs_data fs'; fs_next := fs_next fs + 1 |}
    end).

(** A directory that must be there. *)
Definition open_present_dir (dir : list text) (name : text) : IO text text :=
  act found <- open_child_dir dir name ;;
  match found with Some identity => io_ret identity | None => io_fail (txt "not found") end.

Definition named_entry_matches_dir (dir : list text) (name child : text) : IO text bool :=
  act named <- open_present_dir dir name ;;
  act named_identity <- entry_identity named ;;
  act child_identity <- entry_identity child ;;
  io_ret (bool_decide (named_identity = child_identity)).

(** [DirectoryCreateError]: whether the directory may be there, and the source. *)
Definition DirectoryCreateError : Type := bool * text.

Definition create_workspace_child_dir (dir : list text) (name : text) : IO DirectoryCreateError text :=
  act_ (io_map_err (fun error => (false, error)) (make_dir dir name)) ;;
  act child <- io_map_err (fun error => (true, error)) (open_present_dir dir name) ;;
  act matches <- io_map_err (fun error => (true, error)) (named_entry_matches_dir dir name child) ;;
  if matches : bool then io_ret child
  else io_fail (true, txt "created directory name no longer identifies its open handle").

(** The entries directly below a directory. *)
Definition is_empty_dir (path : list text) (fs : Files) : bool :=
  forallb (fun entry => negb (bool_decide (removelast entry.1 = path /\ entry.1 <> []))) (map_to_list (fs_entries fs)).

Definition remove_open_dir (dir : list text) (child name : text) : IO text unit :=
  act matches <- named_entry_matches_dir dir name child ;;
  if matches : bool
  then change (fun fs => if is_empty_dir (dir ++ [name]) fs then Ok (with_entry dir name None fs)
                         else Err (txt "directory not empty"))
  else io_fail (txt "directory name no longer identifies its open handle").

Definition bounded_open_file_revision (inode : N) : IO text (N * Digest) :=
  look (fun fs =>
    let content := data_of inode fs in
    if (MAX_MUTATION_BYTES <? N.of_nat (length content))%N then Err (txt "file is over the mutation limit")
    else Ok (N.of_nat (length content), content_sha256 content)).

End fs.

(** ** Journals *)

Section effects.
Context `{WC : WorkspaceCodec} `{UC : UuidCodec}.

Definition outcome_of (i : Syscall) : WriteOutcome :=
  match i with Good => Written | Bad n error => WriteFails n error | Dies n => WriteDies n end.

Definition append (t : JournalTransition) : IO AgentError unit := fun w =>
  match wd_script w with
  | [] => (None, w)
  | i :: s =>
      let '(r, j) := journal_append (outcome_of i) t (wd_journal w) in
      (r, set_journal j (set_script s w))
  end.

Definition append_rolled_back (tx_id : text) : IO AgentError unit := append (JRolledBack tx_id).
Definition append_directory_committed (tx_id entry_identity : text) : IO AgentError unit :=
  append (JCommitted tx_id (Some entry_identity)).
Definition append_committed (tx_id : text) : IO AgentError unit := append (JCommitted tx_id None).

Definition record_change (c : ChangeRecord) : IO AgentError unit :=
  io_map_err (fun error => Storage (txt "append change journal: " ++ error))
    (call (fun w => (Ok tt, set_changes (wd_changes w ++ [c]) w)) nothing).

(** FNV-1a, [content_hash], in sixteen digits. *)
Definition fnv64 (content : bytes) : N :=
  foldl (fun hash b => wrapping_mul (N.lxor hash b) 1099511628211) 14695981039346656037%N content.
Fixpoint hex_fixed (digits : nat) (n : N) : text :=
  match digits with O => [] | S digits => hex_fixed digits (n / 16) ++ [hex_digit (n mod 16)%N] end.
Definition content_hash (content : bytes) : text := hex_fixed 16 (fnv64 content).

(** ** Preparing *)

(** The parts of [MutationTransaction] that matter to the effect; [old_content] is the
    captured text, if it is text and small enough. *)
Record MutationTransaction : Type := {
  mt_parent : list text;
  mt_target_name : text;
  mt_tool : text;
  mt_action : text;
  mt_bytes_before : N;
  mt_target_existed : bool;
  mt_before_hash : text;
  mt_before_revision : option Digest;
  mt_old_content : option text;
  mt_tx_id : text;
}.

Record PreparedMutation : Type := {
  pm_parent : list text;
  pm_target_name : text;
  pm_tx_id : text;
  pm_temp_name : option text;
  pm_temp_file : option N;
  pm_effect_context : option OperationEffectContext;
  pm_finished : bool;
  pm_staged_bytes : N;
  pm_staged_revision : Digest;
  pm_bytes_before : N;
  pm_target_existed : bool;
  pm_before_revision : option Digest;
}.

Definition copy_pm (m : PreparedMutation) : PreparedMutation :=
  {| pm_parent := pm_parent m; pm_target_name := pm_target_name m; pm_tx_id := pm_tx_id m;
     pm_temp_name := pm_temp_name m; pm_temp_file := pm_temp_file m; pm_effect_context := pm_effect_context m;
     pm_finished := pm_finished m; pm_staged_bytes := pm_staged_bytes m;
     pm_staged_revision := pm_staged_revision m; pm_bytes_before := pm_bytes_before m;
     pm_target_existed := pm_target_existed m; pm_before_revision := pm_before_revision m |}.
Definition set_temp_name : option text -> PreparedMutation -> PreparedMutation := ltac:(setter copy_pm pm_temp_name).
Definition set_temp_file : option N -> PreparedMutation -> PreparedMutation := ltac:(setter copy_pm pm_temp_file).
Definition set_finished : bool -> PreparedMutation -> PreparedMutation := ltac:(setter copy_pm pm_finished).

Definition relative_of (parent : list text) (name : text) : text := join_slash (parent ++ [name]).

(** [begin_mutation] from the pinned parent on: the snapshot of the target. *)
Definition begin_mutation (parent : list text) (name tool action tx_id : text) : IO AgentError MutationTransaction :=
  act found <- io_map_err (fun e => Io (txt "inspect: " ++ e)) (open_existing parent name) ;;
  let transaction existed bytes_before hash revision old :=
    {| mt_parent := parent; mt_target_name := name; mt_tool := tool; mt_action := action;
       mt_bytes_before := bytes_before; mt_target_existed := existed; mt_before_hash := hash;
       mt_before_revision := revision; mt_old_content := old; mt_tx_id := tx_id |} in
  match found with
  | None => io_ret (transaction false 0%N (content_hash []) None None)
  | Some (NDir _) => io_ret (transaction true 0%N (content_hash []) None None)
  | Some (NFile inode) =>
      act content <- io_map_err (fun e => Io (txt "read: " ++ e)) (look (fun fs => Ok (data_of inode fs))) ;;
      if (MAX_MUTATION_BYTES <? N.of_nat (length content))%N
      then io_fail (InvalidRequest (txt "file is over the workspace mutation limit"))
      else
        io_ret (transaction true (N.of_nat (length content)) (content_hash content) (Some (content_sha256 content))
                  (if (N.of_nat (length content) <=? 262144)%N then from_utf8 content else None))
  end.

(** [cleanup_staged_file]. *)
Definition cleanup_staged_file {E} (parent : list text) (temp_name : text) (open_file : option N) : IO E bool :=
  match open_file with
  | Some inode =>
      act removal <- io_catch (remove_open_file parent inode temp_name) ;;
      match removal with
      | Ok _ => act synced <- io_catch sync_dir ;; io_ret (is_Ok synced)
      | Err _ => io_ret false
      end
  | None =>
      act removal <- io_catch (remove_file parent temp_name) ;;
      match removal with
      | Ok true => act synced <- io_catch sync_dir ;; io_ret (is_Ok synced)
      | Ok false => io_ret true
      | Err _ => io_ret false
      end
  end.

(** Closes the authority intent of a preparation that failed with [error], described as
    [detail]. *)
Definition close_intent {A} (effect_context : option OperationEffectContext) (tx_id detail : text) (error : AgentError) :
    IO AgentError A :=
  match effect_context with
  | None => io_fail error
  | Some _ =>
      act closed <- io_catch (append_rolled_back tx_id) ;;
      match closed with
      | Ok _ => io_fail error
      | Err rollback_error =>
          io_fail (RecoveryRequired (detail ++ txt "; close workspace authority intent: "
                                     ++ display_error rollback_error))
      end
  end.

(** Cleans the stage of a preparation that failed with [error], described as [detail], and
    closes its intent. *)
Definition abandon_stage {A} (t : MutationTransaction) (inode : N) (effect_context : option OperationEffectContext)
    (detail : text) (error : AgentError) : IO AgentError A :=
  act cleaned <- cleanup_staged_file (mt_parent t) (staging_name (mt_tx_id t)) (Some inode) ;;
  if cleaned : bool then close_intent effect_context (mt_tx_id t) detail error
  else
    (* the guard is still armed: its drop tries once more *)
    act_ (cleanup_staged_file (mt_parent t) (staging_name (mt_tx_id t)) (Some inode)) ;;
    io_fail (RecoveryRequired (detail ++ txt "; staged file cleanup could not be confirmed")).

Definition prepared_of (t : MutationTransaction) (content : bytes) (context : OperationEffectContext) : Prepared :=
  {| pr_context := context; pr_relative_target := relative_of (mt_parent t) (mt_target_name t);
     pr_temp_name := staging_name (mt_tx_id t); pr_target_existed := mt_target_existed t;
     pr_before_hash := digest_display (default (content_sha256 []) (mt_before_revision t));
     pr_after_hash := digest_display (content_sha256 content);
     pr_bytes_before := Some (mt_bytes_before t); pr_bytes_after := Some (N.of_nat (length content));
     pr_entry_kind := EntryFile |}.

Definition prepare_inner (t : MutationTransaction) (content : bytes) (effect_context : option OperationEffectContext) :
    IO AgentError PreparedMutation :=
  if (MAX_MUTATION_BYTES <? N.of_nat (length content))%N
  then io_fail (InvalidRequest (txt "workspace mutation is over the limit"))
  else
    let temp_name := staging_name (mt_tx_id t) in
    act_ (match effect_context with
          | Some context => append (JPrepared (mt_tx_id t) (prepared_of t content context))
          | None => io_ret tt
          end) ;;
    act created <- io_catch (create_new_file (mt_parent t) temp_name) ;;
    match created with
    | Err error =>
        let create_error := Io (txt "create temp: " ++ error) in
        close_intent effect_context (mt_tx_id t) (display_error create_error) create_error
    | Ok inode =>
        act staged <- io_catch (write_file inode content) ;;
        match staged with
        | Err error =>
            abandon_stage t inode effect_context (txt "stage mutation failed (" ++ error ++ txt ")")
              (Io (txt "stage temp file: " ++ error))
        | Ok _ =>
            act recorded <- io_catch (record_change
              (MutationPrepared (mt_tx_id t) (mt_tool t) (relative_of (mt_parent t) (mt_target_name t)) (mt_action t)
                 (mt_bytes_before t) (N.of_nat (length content)) (mt_before_hash t) (content_hash content)
                 (mt_old_content t))) ;;
            match recorded with
            | Err error =>
                abandon_stage t inode effect_context
                  (txt "record mutation prepare failed (" ++ display_error error ++ txt ")") error
            | Ok _ =>
                io_ret
                  {| pm_parent := mt_parent t; pm_target_name := mt_target_name t; pm_tx_id := mt_tx_id t;
                     pm_temp_name := Some temp_name; pm_temp_file := Some inode; pm_effect_context := effect_context;
                     pm_finished := false; pm_staged_bytes := N.of_nat (length content);
                     pm_staged_revision := content_sha256 content; pm_bytes_before := mt_bytes_before t;
                     pm_target_existed := mt_target_existed t; pm_before_revision := mt_before_revision t |}
            end
        end
    end.

(** [prepare_with_effect_context]. *)
Definition prepare_with_effect_context (t : MutationTransaction) (content : bytes) (context : OperationEffectContext) :
    IO AgentError PreparedMutation :=
  match effect_context_validate context with
  | Err error => io_fail (InvalidRequest error)
  | Ok _ => prepare_inner t content (Some context)
  end.

(** ** Settling *)

(** [PreparedMutation::cleanup_staged]. *)
Definition cleanup_staged {E} (temp_name : text) (m : PreparedMutation) : IO E (bool * PreparedMutation) :=
  act cleaned <- cleanup_staged_file (pm_parent m) temp_name (pm_temp_file m) ;;
  io_ret (cleaned, if cleaned : bool then set_temp_file None m else m).

(** [PreparedMutation::record_rolled_back]. *)
Definition record_rolled_back (m : PreparedMutation) (reason : text) : IO AgentError unit :=
  act_ (match pm_effect_context m with Some _ => append_rolled_back (pm_tx_id m) | None => io_ret tt end) ;;
  record_change (MutationRolledBack (pm_tx_id m) reason).

(** What an effect answers, and the value that is dropped then. *)
Definition settle_not_applied {E} (temp_name : text) (reason : text) (m : PreparedMutation) :
    IO E (EffectReceipt * PreparedMutation) :=
  act (cleaned, m) <- cleanup_staged temp_name m ;;
  if cleaned : bool
  then
    let m := set_finished true (set_temp_name None m) in
    act recorded <- io_catch (record_rolled_back m reason) ;;
    io_ret (match recorded with
            | Ok _ => ReceiptNotApplied reason
            | Err error => ReceiptUnknown (reason ++ txt "; rollback journal could not be confirmed and recovery is required: "
                                            ++ display_error error)
            end, m)
  else io_ret (ReceiptUnknown (reason ++ txt "; staged temp cleanup could not be confirmed and recovery is required"), m).

Definition target_still_matches_snapshot (m : PreparedMutation) : IO text bool :=
  act found <- open_existing (pm_parent m) (pm_target_name m) ;;
  match found with
  | None => io_ret (negb (pm_target_existed m))
  | Some node =>
      if negb (pm_target_existed m) then io_ret false
      else
        match node with
        | NDir _ => io_ret (bool_decide (pm_before_revision m = None))
        | NFile inode =>
            act (size, current) <- bounded_open_file_revision inode ;;
            io_ret ((size =? pm_bytes_before m)%N && bool_decide (pm_before_revision m = Some current))
        end
  end.

(** The staged file still is the entry [name], with the staged bytes. *)
Definition holds_staged (name : text) (m : PreparedMutation) : IO text bool :=
  match pm_temp_file m with
  | None => io_fail (txt "staged file handle is missing")
  | Some inode =>
      act before <- named_entry_matches_file (pm_parent m) name inode ;;
      if negb before then io_ret false
      else
        act (size, revision) <- bounded_open_file_revision inode ;;
        act after <- named_entry_matches_file (pm_parent m) name inode ;;
        if negb after then io_ret false
        else io_ret ((size =? pm_staged_bytes m)%N && bool_decide (revision = pm_staged_revision m))
  end.

Definition staged_file_matches_expected (temp_name : text) (m : PreparedMutation) : IO text bool :=
  holds_staged temp_name m.
Definition committed_target_matches_staged (m : PreparedMutation) : IO text bool :=
  holds_staged (pm_target_name m) m.

Definition applied (durability : EffectDurability) (m : PreparedMutation) : EffectReceipt :=
  ReceiptApplied durability (Some (pm_tx_id m)).
Definition not_durable (error : text) (m : PreparedMutation) : EffectReceipt := applied (DurabilityFailed error) m.

(** From the landed replace on. *)
Definition acknowledge {E} (m : PreparedMutation) : IO E EffectReceipt :=
  act verified <- io_catch (committed_target_matches_staged m) ;;
  match verified with
  | Ok false =>
      io_ret (ReceiptUnknown (txt "atomic replace returned success but the target does not contain the staged bytes"))
  | Err error =>
      io_ret (ReceiptUnknown (txt "atomic replace returned success but committed target verification failed: " ++ error))
  | Ok true =>
      act synced <- io_catch sync_dir ;;
      match synced with
      | Err error => io_ret (not_durable (txt "sync committed mutation parent: " ++ error) m)
      | Ok _ =>
          act committed <- io_catch
            (match pm_effect_context m with Some _ => append_committed (pm_tx_id m) | None => io_ret tt end) ;;
          match committed with
          | Err error => io_ret (not_durable (display_error error) m)
          | Ok _ =>
              act recorded <- io_catch (record_change (MutationCommitted (pm_tx_id m))) ;;
              match recorded with
              | Err error => io_ret (not_durable (display_error error) m)
              | Ok _ =>
                  act final <- io_catch (committed_target_matches_staged m) ;;
                  io_ret (match final with
                          | Ok true => applied Durable m
                          | Ok false => not_durable (txt "committed target changed before durable acknowledgement") m
                          | Err error => not_durable (txt "final committed target verification failed: " ++ error) m
                          end)
              end
          end
      end
  end.

Definition commit_body {E} (m : PreparedMutation) : IO E (EffectReceipt * PreparedMutation) :=
  match pm_temp_name m with
  | None => io_ret (ReceiptUnknown (txt "prepared mutation lost its staged temp identity"), m)
  | Some temp_name =>
      act current <- io_catch (target_still_matches_snapshot m) ;;
      match current with
      | Ok false =>
          settle_not_applied temp_name
            (txt "stale_revision: target changed after mutation preflight; staged content was not applied") m
      | Err error =>
          settle_not_applied temp_name
            (txt "commit precondition could not inspect current target; staged content was not applied: " ++ error) m
      | Ok true =>
          act staged <- io_catch (staged_file_matches_expected temp_name m) ;;
          match staged with
          | Ok false =>
              settle_not_applied temp_name
                (txt "staged_integrity: staged name, length, or content changed before commit") m
          | Err error =>
              settle_not_applied temp_name (txt "staged_integrity: could not verify staged content: " ++ error) m
          | Ok true =>
              act replaced <- io_catch
                (replace_file (pm_parent m) (default 0%N (pm_temp_file m)) temp_name (pm_target_name m)) ;;
              match replaced with
              | Err error => settle_not_applied temp_name (txt "commit failed: " ++ error) m
              | Ok _ =>
                  let m := set_finished true (set_temp_name None m) in
                  act receipt <- acknowledge m ;;
                  io_ret (receipt, m)
              end
          end
      end
  end.

(** [Drop for PreparedMutation]. *)
Definition drop_mutation {E} (m : PreparedMutation) : IO E unit :=
  match pm_finished m, pm_temp_name m with
  | false, Some temp_name => act_ (cleanup_staged temp_name m) ;; io_ret tt
  | _, _ => io_ret tt
  end.

(** [commit] consumes the mutation: it is dropped at the end. *)
Definition mutation_commit {E} (m : PreparedMutation) : IO E EffectReceipt :=
  act (receipt, m) <- commit_body m ;;
  act_ (drop_mutation m) ;;
  io_ret receipt.

Definition rollback_body (m : PreparedMutation) (reason : text) : IO AgentError (AgentResult unit * PreparedMutation) :=
  act (cleaned, m) <- (match pm_temp_name m with
                        | Some temp_name => cleanup_staged temp_name m
                        | None => io_ret (true, m)
                        end) ;;
  if negb cleaned
  then io_ret (Err (RecoveryRequired (txt "workspace mutation " ++ pm_tx_id m
                     ++ txt " staged temp cleanup could not be confirmed")), m)
  else
    let m := set_finished true (set_temp_name None m) in
    act recorded <- io_catch (record_rolled_back m reason) ;;
    io_ret (map_err (fun error => RecoveryRequired (txt "workspace mutation " ++ pm_tx_id m
              ++ txt " rollback journal could not be confirmed: " ++ display_error error)) recorded, m).

Definition mutation_rollback (m : PreparedMutation) (reason : text) : IO AgentError unit :=
  act (answer, m) <- rollback_body m reason ;;
  act_ (drop_mutation m) ;;
  match answer with Ok _ => io_ret tt | Err error => io_fail error end.

(** ** Directories *)

Record PreparedDirectoryCreation : Type := {
  pd_parent : list text;
  pd_target_name : text;
  pd_tx_id : text;
  pd_effect_context : option OperationEffectContext;
}.

Inductive DirectoryCreationPreparation : Type :=
| AlreadyExists (relative : text)
| DirectoryReady (prepared : PreparedDirectoryCreation).

Definition directory_plan (parent : list text) (name : text) (context : OperationEffectContext) : Prepared :=
  {| pr_context := context; pr_relative_target := relative_of parent name; pr_temp_name := []; pr_target_existed := false;
     pr_before_hash := []; pr_after_hash := []; pr_bytes_before := Some 0%N; pr_bytes_after := Some 0%N;
     pr_entry_kind := EntryDirectory |}.

(** [prepare_directory_creation] from the pinned parent on. *)
Definition prepare_directory_creation (tool : text) (parent : list text) (name tx_id : text)
    (effect_context : option OperationEffectContext) : IO AgentError DirectoryCreationPreparation :=
  act_ (io_lift (match effect_context with
                 | Some context => map_err InvalidRequest (effect_context_validate context)
                 | None => Ok tt
                 end)) ;;
  act found <- io_catch (open_child_dir parent name) ;;
  match found with
  | Ok (Some _) => io_ret (AlreadyExists (relative_of parent name))
  | Err error =>
      act entry <- io_catch (open_existing parent name) ;;
      match entry with
      | Ok (Some (NFile _)) =>
          io_fail (InvalidRequest (txt "directory target is an existing file: " ++ relative_of parent name))
      | _ => io_fail (Io (txt "inspect directory: " ++ error))
      end
  | Ok None =>
      act_ (match effect_context with
            | Some context => append (JPrepared tx_id (directory_plan parent name context))
            | None => io_ret tt
            end) ;;
      act recorded <- io_catch (record_change (DirectoryPrepared tx_id tool (relative_of parent name))) ;;
      match recorded with
      | Err error =>
          close_intent effect_context tx_id (txt "record directory prepare failed (" ++ display_error error ++ txt ")") error
      | Ok _ =>
          io_ret (DirectoryReady {| pd_parent := parent; pd_target_name := name; pd_tx_id := tx_id;
                                    pd_effect_context := effect_context |})
      end
  end.

Definition directory_rolled_back (d : PreparedDirectoryCreation) (reason : text) : IO AgentError unit :=
  act_ (match pd_effect_context d with Some _ => append_rolled_back (pd_tx_id d) | None => io_ret tt end) ;;
  record_change (DirectoryRolledBack (pd_tx_id d) reason).

Definition directory_not_applied {E} (reason : text) (d : PreparedDirectoryCreation) : IO E EffectReceipt :=
  act recorded <- io_catch (directory_rolled_back d reason) ;;
  io_ret (match recorded with
          | Ok _ => ReceiptNotApplied reason
          | Err error => ReceiptUnknown (reason ++ txt "; directory rollback journal could not be confirmed: " ++ display_error error)
          end).

Definition remove_created {E} (child reason : text) (d : PreparedDirectoryCreation) : IO E EffectReceipt :=
  act removed <- io_catch (remove_open_dir (pd_parent d) child (pd_target_name d)) ;;
  match removed with
  | Err error => io_ret (ReceiptUnknown (reason ++ txt "; created directory cleanup could not be confirmed: " ++ error))
  | Ok _ =>
      act synced <- io_catch sync_dir ;;
      match synced with
      | Err error => io_ret (ReceiptUnknown (reason ++ txt "; sync directory cleanup: " ++ error))
      | Ok _ => directory_not_applied reason d
      end
  end.

(** The end of a directory commit, from the durable directory on. *)
Definition acknowledge_directory {E} (child identity : text) (d : PreparedDirectoryCreation) : IO E EffectReceipt :=
  let landed durability := io_ret (ReceiptApplied durability (Some (pd_tx_id d))) in
  act committed <- io_catch
    (match pd_effect_context d with Some _ => append_directory_committed (pd_tx_id d) identity | None => io_ret tt end) ;;
  match committed with
  | Err error => landed (DurabilityFailed (display_error error))
  | Ok _ =>
      act recorded <- io_catch (record_change (DirectoryCommitted (pd_tx_id d) identity)) ;;
      match recorded with
      | Err error => landed (DurabilityFailed (display_error error))
      | Ok _ =>
          act final <- io_catch (named_entry_matches_dir (pd_parent d) (pd_target_name d) child) ;;
          match final with
          | Err error => landed (DurabilityFailed (txt "final created directory identity verification failed: " ++ error))
          | Ok matches =>
              act current <- (if matches : bool then io_catch (entry_identity child) else io_ret (Err [])) ;;
              landed (if decide (current = Ok identity) then Durable
                      else DurabilityFailed (txt "created directory identity changed before durable acknowledgement"))
          end
      end
  end.

Definition directory_commit {E} (d : PreparedDirectoryCreation) : IO E EffectReceipt :=
  let relative := relative_of (pd_parent d) (pd_target_name d) in
  act found <- io_catch (open_child_dir (pd_parent d) (pd_target_name d)) ;;
  match found with
  | Ok (Some _) =>
      directory_not_applied (txt "stale_precondition: directory appeared after prepare: " ++ relative) d
  | Err error =>
      directory_not_applied (txt "directory precondition could not be verified for " ++ relative ++ txt ": " ++ error) d
  | Ok None =>
      act created <- io_catch (create_workspace_child_dir (pd_parent d) (pd_target_name d)) ;;
      match created with
      | Err (true, error) =>
          io_ret (ReceiptUnknown (txt "create directory " ++ relative
            ++ txt " reached the filesystem but its identity could not be bound: directory was created but could not be bound: "
            ++ error))
      | Err (false, error) => directory_not_applied (txt "create directory " ++ relative ++ txt ": " ++ error) d
      | Ok child =>
          act identified <- io_catch (entry_identity child) ;;
          match identified with
          | Err error =>
              remove_created child (txt "created directory identity unavailable for " ++ relative ++ txt ": " ++ error) d
          | Ok identity =>
              act bound <- io_catch (named_entry_matches_dir (pd_parent d) (pd_target_name d) child) ;;
              match bound with
              | Ok false =>
                  remove_created child (txt "created directory identity changed before commit: " ++ relative) d
              | Err error =>
                  remove_created child
                    (txt "created directory identity could not be rebound for " ++ relative ++ txt ": " ++ error) d
              | Ok true =>
                  act synced <- io_catch (act_ sync_dir ;; sync_dir) ;;
                  match synced with
                  | Err error => remove_created child (txt "sync created directory " ++ relative ++ txt ": " ++ error) d
                  | Ok _ => acknowledge_directory child identity d
                  end
              end
          end
      end
  end.

Definition directory_rollback (d : PreparedDirectoryCreation) (reason : text) : IO AgentError unit :=
  io_map_err (fun error => RecoveryRequired (txt "directory creation " ++ pd_tx_id d
                             ++ txt " rollback could not be confirmed: " ++ display_error error))
    (directory_rolled_back d reason).

(** ** Reconciliation *)

Inductive WorkspaceEffectRecovery : Type :=
| WNotManaged
| WNotApplied (tx_ids : list text)
| WApplied (tx_ids : list text) (complete : bool)
| WAmbiguous (tx_ids : list text) (reason : text).

Inductive CurrentTarget : Type :=
| TargetMissing
| TargetFile (size : N) (hash : text)
| TargetDirectory (identity : text).

Inductive RecoveryHash : Type := LegacyFnv64 | HashSha256.

Definition recovery_hash_for (e : TxEvidence) : RecoveryHash :=
  if (te_journal_version e =? LEGACY_JOURNAL_VERSION)%N then LegacyFnv64 else HashSha256.

(** Two files for each of at most sixteen transactions. *)
Definition MAX_RECONCILIATION_READ_BYTES : N := (16 * 2 * (MAX_MUTATION_BYTES + 1))%N.

(** [hash_reader_bounded]: the whole file within the limit of one file, and within what
    is left of the budget (the end of the file is only seen with some budget left). *)
Definition hash_reader_bounded (inode : N) (algorithm : RecoveryHash) (budget : N) : IO AgentError (N * text * N) :=
  act content <- io_map_err (fun e => Io (txt "hash reconciliation target: " ++ e))
    (look (fun fs => Ok (data_of inode fs))) ;;
  let size := N.of_nat (length content) in
  if (MAX_MUTATION_BYTES <? size)%N then io_fail (RecoveryRequired (txt "workspace recovery file is over its limit"))
  else if (budget <=? size)%N
  then io_fail (RecoveryRequired (txt "workspace effect reconciliation exceeded its read budget"))
  else io_ret (size, match algorithm with
                     | LegacyFnv64 => content_hash content
                     | HashSha256 => digest_display (content_sha256 content)
                     end, budget - size)%N.

(** The walk to the parent from the root; [None] where a component is missing. *)
Fixpoint descend (dir parts : list text) : IO text (option (list text)) :=
  match parts with
  | [] => io_ret (Some dir)
  | part :: parts =>
      act found <- open_child_dir dir part ;;
      match found with Some _ => descend (dir ++ [part]) parts | None => io_ret None end
  end.

Definition recovery_required (detail : text) (error : text) : AgentError := RecoveryRequired (detail ++ error).

(** The parent's components and the name of a recorded target. *)
Definition target_parts (relative : text) : AgentResult (list text * text) :=
  match normal_parts (components relative) with
  | None => Err (InvalidRequest (txt "path must stay inside workspace: " ++ relative))
  | Some parts =>
      match last parts with
      | None => Err (RecoveryRequired (txt "workspace evidence has empty target"))
      | Some name => Ok (removelast parts, name)
      end
  end.

Definition inspect_target (e : TxEvidence) (budget : N) : IO AgentError (CurrentTarget * N) :=
  act (parents, name) <- io_lift (target_parts (pr_relative_target (te_prepared e))) ;;
  act parent <- io_map_err (recovery_required (txt "open reconciliation parent: ")) (descend [] parents) ;;
  match parent with
  | None => io_ret (TargetMissing, budget)
  | Some dir =>
      if decide (pr_entry_kind (te_prepared e) = EntryDirectory)
      then
        act found <- io_map_err (recovery_required (txt "open reconciliation directory: ")) (open_child_dir dir name) ;;
        io_ret (match found with Some identity => TargetDirectory identity | None => TargetMissing end, budget)
      else
        act found <- io_map_err (recovery_required (txt "open reconciliation target: ")) (open_regular dir name) ;;
        match found with
        | None => io_ret (TargetMissing, budget)
        | Some inode =>
            act bound <- io_map_err (recovery_required (txt "bind reconciliation target to its name: "))
              (named_entry_matches_file dir name inode) ;;
            if negb bound
            then io_fail (RecoveryRequired (txt "workspace effect target name does not identify its opened file"))
            else
              act (size, hash, budget) <- hash_reader_bounded inode (recovery_hash_for e) budget ;;
              act rebound <- io_map_err (recovery_required (txt "rebind reconciliation target after verification: "))
                (named_entry_matches_file dir name inode) ;;
              if negb rebound
              then io_fail (RecoveryRequired (txt "workspace effect target changed while it was verified"))
              else io_ret (TargetFile size hash, budget)
        end
  end.

(** [recorded_state_matches]. *)
Definition recorded_state_matches (e : TxEvidence) (size : N) (hash : text) (after : bool) : bool :=
  let p := te_prepared e in
  if negb (bool_decide (hash = if after then pr_after_hash p else pr_before_hash p)) then false
  else if (te_journal_version e =? LEGACY_JOURNAL_VERSION)%N then true
  else bool_decide ((if after then pr_bytes_after p else pr_bytes_before p) = Some size).

(** [remove_verified_staged_file]; its error is a reason. *)
Definition remove_verified_staged_file (dir : list text) (tx_id : text) (e : TxEvidence) (budget : N) : IO text N :=
  let temp_name := pr_temp_name (te_prepared e) in
  let because (detail : text) {A} (m : IO text A) := io_map_err (fun error => detail ++ tx_id ++ txt ": " ++ error) m in
  act found <- because (txt "could not open staged transaction ") (open_regular dir temp_name) ;;
  match found with
  | None => io_ret budget
  | Some inode =>
      act bound <- because (txt "could not bind staged transaction ") (named_entry_matches_file dir temp_name inode) ;;
      if negb bound then io_fail (txt "staged transaction " ++ tx_id ++ txt " name does not identify its opened file")
      else
        act (size, hash, budget) <- io_map_err (fun error => txt "could not verify staged transaction " ++ tx_id ++ txt ": " ++ display_error error)
          (hash_reader_bounded inode (recovery_hash_for e) budget) ;;
        if negb (recorded_state_matches e size hash true)
        then io_fail (txt "staged transaction " ++ tx_id ++ txt " does not match its expected content")
        else
          act rebound <- because (txt "could not rebind staged transaction ") (named_entry_matches_file dir temp_name inode) ;;
          if negb rebound then io_fail (txt "staged transaction " ++ tx_id ++ txt " changed while it was verified")
          else
            act_ (because (txt "could not clean staged transaction ") (remove_open_file dir inode temp_name)) ;;
            act_ (because (txt "could not sync staged cleanup for ") sync_dir) ;;
            io_ret budget
  end.

(** The tally of the first pass. *)
Record Tally : Type := {
  tl_applied : nat;
  tl_durably_committed : nat;
  tl_not_applied : list (text * TxEvidence);
  tl_budget : N;
}.

(** What one transaction and its target say. *)
Inductive Verdict : Type :=
| DidLand (durably : bool)
| Settled
| DidNotLand
| Contradicts (reason : text).

Definition directory_verdict (tx_id : text) (e : TxEvidence) (state : CurrentTarget) : Verdict :=
  match te_terminal e, state with
  | Some (TxCommitted (Some expected)), TargetDirectory identity =>
      if decide (expected = identity) then DidLand true
      else Contradicts (txt "committed directory transaction " ++ tx_id ++ txt " target identity does not match")
  | Some TxRolledBack, _ => Settled
  | None, TargetMissing => DidNotLand
  | None, TargetDirectory _ =>
      Contradicts (txt "prepared directory transaction " ++ tx_id ++ txt " exists without a committed identity")
  | Some (TxCommitted _), _ => Contradicts (txt "committed directory transaction " ++ tx_id ++ txt " target identity does not match")
  | None, TargetFile _ _ => Contradicts (txt "directory transaction " ++ tx_id ++ txt " target is a file")
  end.

Definition file_verdict (tx_id : text) (e : TxEvidence) (state : CurrentTarget) : Verdict :=
  let existed := pr_target_existed (te_prepared e) in
  let is_after :=
    match state with TargetFile size hash => recorded_state_matches e size hash true | _ => false end in
  let is_before :=
    match state with
    | TargetMissing => negb existed
    | TargetFile size hash => existed && recorded_state_matches e size hash false
    | TargetDirectory _ => false
    end in
  match te_terminal e with
  | Some (TxCommitted _) =>
      if is_after then DidLand true
      else Contradicts (txt "committed transaction " ++ tx_id ++ txt " target does not match after hash")
  | Some TxRolledBack =>
      if is_before then Settled
      else Contradicts (txt "rolled-back transaction " ++ tx_id ++ txt " target does not match before state")
  | None =>
      if is_after && negb is_before then DidLand false
      else if is_before then DidNotLand
      else Contradicts (txt "prepared transaction " ++ tx_id ++ txt " target matches neither before nor after state")
  end.

Definition verdict (tx_id : text) (e : TxEvidence) (state : CurrentTarget) : Verdict :=
  if decide (pr_entry_kind (te_prepared e) = EntryDirectory) then directory_verdict tx_id e state else file_verdict tx_id e state.

(** The first pass: a tally, or the reason of an ambiguity. *)
Fixpoint tally (entries : list (text * TxEvidence)) (t : Tally) : IO AgentError (result Tally text) :=
  match entries with
  | [] => io_ret (Ok t)
  | (tx_id, e) :: entries =>
      act (state, budget) <- inspect_target e (tl_budget t) ;;
      match verdict tx_id e state with
      | Contradicts reason => io_ret (Err reason)
      | DidLand durably =>
          tally entries {| tl_applied := S (tl_applied t);
            tl_durably_committed := if durably then S (tl_durably_committed t) else tl_durably_committed t;
            tl_not_applied := tl_not_applied t; tl_budget := budget |}
      | Settled =>
          tally entries {| tl_applied := tl_applied t; tl_durably_committed := tl_durably_committed t;
            tl_not_applied := tl_not_applied t; tl_budget := budget |}
      | DidNotLand =>
          tally entries {| tl_applied := tl_applied t; tl_durably_committed := tl_durably_committed t;
            tl_not_applied := tl_not_applied t ++ [(tx_id, e)]; tl_budget := budget |}
      end
  end.

(** [pinned_parent]. *)
Definition pinned_parent (relative : text) : IO AgentError (list text) :=
  act (parents, _) <- io_lift (target_parts relative) ;;
  act parent <- io_map_err (recovery_required (txt "open cleanup parent: ")) (descend [] parents) ;;
  match parent with
  | Some dir => io_ret dir
  | None => io_fail (RecoveryRequired (txt "open cleanup parent: not found"))
  end.

(** The second pass: the stages are removed and the rollbacks recorded, or the reason
    why one could not be. *)
Fixpoint close_unlanded (entries : list (text * TxEvidence)) (budget : N) : IO AgentError (result unit text) :=
  match entries with
  | [] => io_ret (Ok tt)
  | (tx_id, e) :: entries =>
      act removed <- (if decide (pr_entry_kind (te_prepared e) = EntryFile)
                      then
                        act dir <- pinned_parent (pr_relative_target (te_prepared e)) ;;
                        io_catch (remove_verified_staged_file dir tx_id e budget)
                      else io_ret (Ok budget)) ;;
      match removed with
      | Err reason => io_ret (Err reason)
      | Ok budget =>
          act closed <- io_catch (append_rolled_back tx_id) ;;
          match closed with
          | Err error => io_ret (Err (txt "could not persist staged cleanup for " ++ tx_id ++ txt ": " ++ display_error error))
          | Ok _ => close_unlanded entries budget
          end
      end
  end.

Definition ambiguous (tx_ids : list text) (reason : text) : WorkspaceEffectRecovery :=
  WAmbiguous tx_ids (slice_to reason (floor_boundary reason (N.to_nat 4000))).

Definition reconcile_workspace_effect (context : OperationEffectContext) : IO AgentError WorkspaceEffectRecovery := fun w =>
  match evidence_for context (wd_journal w) with
  | Err error => (Some (Err error), w)
  | Ok [] => (Some (Ok WNotManaged), w)
  | Ok entries =>
      let tx_ids := entries.*1 in
      (act tallied <- tally entries {| tl_applied := 0; tl_durably_committed := 0; tl_not_applied := [];
                                       tl_budget := MAX_RECONCILIATION_READ_BYTES |} ;;
       match tallied with
       | Err reason => io_ret (ambiguous tx_ids reason)
       | Ok t =>
           act closed <- close_unlanded (tl_not_applied t) (tl_budget t) ;;
           io_ret
             match closed with
             | Err reason => ambiguous tx_ids reason
             | Ok _ =>
                 if 0 <? tl_applied t
                 then WApplied tx_ids ((tl_applied t =? length entries) && (tl_durably_committed t =? length entries))
                 else WNotApplied tx_ids
             end
       end) w
  end.

(** [Workspace::reconcile], where the process and remote journals answer [others] for an
    effect that has no transaction here. *)
Definition workspace_reconcile (others : IO AgentError EffectReconciliation) (context : OperationEffectContext) :
    IO AgentError EffectReconciliation :=
  act recovery <- reconcile_workspace_effect context ;;
  let evidence (ids : list text) := Some (let s := txt "workspace-tx:" ++ join_comma ids in slice_to s (floor_boundary s 512)) in
  match recovery with
  | WNotManaged => others
  | WNotApplied ids => io_ret (RecNotApplied (evidence ids))
  | WApplied ids true => io_ret (RecApplied Durable (evidence ids))
  | WApplied ids false =>
      io_ret (RecApplied (DurabilityFailed (txt "workspace composite effect was only partially applied")) (evidence ids))
  | WAmbiguous _ reason => io_ret (RecAmbiguous reason)
  end.

End effects.
