(* ===== verification/WorkspaceHistory.v ===== *)
(** Histories of file effects (agent-workspace/lib.rs and journal.rs): preparing,
    committing, rolling back and dropping the writes of one effect, with calls that fail,
    deaths at any call, restarts and reconciliations.

    A small program logic over [IO]: [runs] states what holds when a computation returns
    and what holds when the process dies in it, [reads] is the case of a computation
    that only looks. The invariant [consistent] relates the files, the status of every
    write and what the journal holds of it. *)

From stdpp Require Import gmap.
From S2P Require Import Prelude Text Digest Jcs Operation Journal Wal Intent OutputBroker Capability Artifact.
From S2P Require Import WorkspaceJournal WorkspaceEffects.

(** ** Histories *)

(** One write of the effect: where it goes, and the content before and after. *)
Record Write : Type := {
  wt_parent : list text;
  wt_name : text;
  wt_tx_id : text;
  wt_tool : text;
  wt_action : text;
  wt_before : option bytes;
  wt_after : bytes;
}.

Definition target_path (x : Write) : list text := wt_parent x ++ [wt_name x].
Definition stage_path (x : Write) : list text := wt_parent x ++ [staging_name (wt_tx_id x)].

(** What is done about the effect: [DoPrepare] begins and prepares a write, the next
    three consume what it prepared; every action brings the outcomes of its calls. *)
Inductive Action : Type :=
| DoPrepare (x : Write) (s : list Syscall)
| DoCommit (tx_id : text) (s : list Syscall)
| DoRollback (tx_id reason : text) (s : list Syscall)
| DoDrop (tx_id : text) (s : list Syscall)
| DoCrash
| DoRestart
| DoReconcile (s : list Syscall).

Record System : Type := {
  sy_world : World;
  sy_handles : gmap text PreparedMutation;
  sy_begun : gset text;
  sy_alive : bool;
}.

(** What an action answers, where it lives to answer. *)
Inductive Observation : Type :=
| Prepared_ (tx_id : text) (answer : AgentResult PreparedMutation)
| Receipt (tx_id : text) (receipt : EffectReceipt)
| RolledBack_ (tx_id : text) (answer : AgentResult unit)
| Restarted (answer : AgentResult WriterState)
| Reconciled (answer : AgentResult WorkspaceEffectRecovery)
| Silent.

Section histories.
Context `{WC : WorkspaceCodec} `{UC : UuidCodec}.
Context (ctx : OperationEffectContext).

Definition begin_and_prepare (x : Write) : IO AgentError PreparedMutation :=
  act t <- begin_mutation (wt_parent x) (wt_name x) (wt_tool x) (wt_action x) (wt_tx_id x) ;;
  prepare_with_effect_context t (wt_after x) ctx.

(** A run on the system: a process that dies takes its handles along. *)
Definition run_on {E A} (m : IO E A) (s : list Syscall) (handles : gmap text PreparedMutation) (begun : gset text)
    (sys : System) (then_ : result A E -> gmap text PreparedMutation * Observation) : System * Observation :=
  match m (set_script s (sy_world sys)) with
  | (Some r, w) =>
      ({| sy_world := w; sy_handles := (then_ r).1; sy_begun := begun; sy_alive := true |}, (then_ r).2)
  | (None, w) => ({| sy_world := w; sy_handles := ∅; sy_begun := begun; sy_alive := false |}, Silent)
  end.

(** An action that is not possible does nothing: a transaction id is fresh, a handle is
    used once, and reconciliation runs when nothing is in flight. *)
Definition do_action (a : Action) (sys : System) : System * Observation :=
  let handles := sy_handles sys in
  match a with
  | DoPrepare x s =>
      if negb (sy_alive sys) || bool_decide (wt_tx_id x ∈ sy_begun sys) then (sys, Silent)
      else
        run_on (begin_and_prepare x) s handles ({[wt_tx_id x]} ∪ sy_begun sys) sys
          (fun r => (match r with Ok m => <[wt_tx_id x := m]> handles | Err _ => handles end, Prepared_ (wt_tx_id x) r))
  | DoCommit tx_id s =>
      match handles !! tx_id with
      | None => (sys, Silent)
      | Some m =>
          run_on (mutation_commit (E := AgentError) m) s (delete tx_id handles) (sy_begun sys) sys
            (fun r => (delete tx_id handles, match r with Ok receipt => Receipt tx_id receipt | Err _ => Silent end))
      end
  | DoRollback tx_id reason s =>
      match handles !! tx_id with
      | None => (sys, Silent)
      | Some m =>
          run_on (mutation_rollback m reason) s (delete tx_id handles) (sy_begun sys) sys
            (fun r => (delete tx_id handles, RolledBack_ tx_id r))
      end
  | DoDrop tx_id s =>
      match handles !! tx_id with
      | None => (sys, Silent)
      | Some m =>
          run_on (drop_mutation (E := AgentError) m) s (delete tx_id handles) (sy_begun sys) sys
            (fun _ => (delete tx_id handles, Silent))
      end
  | DoCrash =>
      ({| sy_world := sy_world sys; sy_handles := ∅; sy_begun := sy_begun sys; sy_alive := false |}, Silent)
  | DoRestart =>
      if sy_alive sys then (sys, Silent)
      else
        match journal_open (wr_file (wd_journal (sy_world sys))) with
        | Ok j =>
            ({| sy_world := set_journal j (sy_world sys); sy_handles := ∅; sy_begun := sy_begun sys; sy_alive := true |},
             Restarted (Ok j))
        | Err error => (sys, Restarted (Err error))
        end
  | DoReconcile s =>
      if negb (sy_alive sys) || negb (bool_decide (handles = ∅)) then (sys, Silent)
      else run_on (reconcile_workspace_effect ctx) s handles (sy_begun sys) sys (fun r => (handles, Reconciled r))
  end.

Fixpoint do_actions (actions : list Action) (sys : System) : System :=
  match actions with
  | [] => sys
  | a :: actions => do_actions actions (do_action a sys).1
  end.

End histories.

(** ** The logic *)

Section logic.

(** [Q] where the computation returns, [C] where the process dies in it. *)
Definition runs {E A} (m : IO E A) (Q : result A E -> World -> Prop) (C : World -> Prop) (w : World) : Prop :=
  match m w with
  | (Some r, w) => Q r w
  | (None, w) => C w
  end.

Lemma runs_mono {E A} (m : IO E A) (Q Q' : result A E -> World -> Prop) C w :
  runs m Q C w -> (forall r w, Q r w -> Q' r w) -> runs m Q' C w.
Proof. unfold runs. destruct (m w) as [[r|] w']; auto. Qed.

Lemma runs_bind {E A B} (m : IO E A) (k : A -> IO E B) Q C w :
  runs m (fun r w => match r with Ok a => runs (k a) Q C w | Err e => Q (Err e) w end) C w ->
  runs (io_bind m k) Q C w.
Proof. unfold runs, io_bind. by destruct (m w) as [[[a|e]|] w']. Qed.

Lemma runs_catch {E F A} (m : IO E A) (Q : result (result A E) F -> World -> Prop) C w :
  runs m (fun r w => Q (Ok r) w) C w -> runs (io_catch m) Q C w.
Proof. unfold runs, io_catch. by destruct (m w) as [[r|] w']. Qed.

Lemma runs_map_err {E F A} (f : E -> F) (m : IO E A) Q C w :
  runs m (fun r w => Q (map_err f r) w) C w -> runs (io_map_err f m) Q C w.
Proof. unfold runs, io_map_err. by destruct (m w) as [[r|] w']. Qed.

(** The same files and effect journal. *)
Definition same_disk (w w' : World) : Prop :=
  wd_files w' = wd_files w /\ wd_journal w' = wd_journal w.

Lemma same_disk_trans w1 w2 w3 : same_disk w1 w2 -> same_disk w2 w3 -> same_disk w1 w3.
Proof. intros [H1 H2] [H3 H4]. split; [by rewrite H3|by rewrite H4]. Qed.

(** A computation that changes neither, and answers [P] on the files [fs]. *)
Definition reads {E A} (m : IO E A) (fs : Files) (P : result A E -> Prop) : Prop :=
  forall w, wd_files w = fs -> runs m (fun r w' => same_disk w w' /\ P r) (same_disk w) w.

Lemma reads_ret {E A} (a : A) fs (P : result A E -> Prop) : P (Ok a) -> reads (io_ret a) fs P.
Proof. intros H w _. unfold runs. cbn. split; [done|exact H]. Qed.

Lemma reads_fail {E A} (e : E) fs (P : result A E -> Prop) : P (Err e) -> reads (io_fail e) fs P.
Proof. intros H w _. unfold runs. cbn. split; [done|exact H]. Qed.

Lemma reads_lift {E A} (r : result A E) fs (P : result A E -> Prop) : P r -> reads (io_lift r) fs P.
Proof. intros H w _. unfold runs. cbn. split; [done|exact H]. Qed.

Lemma reads_mono {E A} (m : IO E A) fs (P P' : result A E -> Prop) :
  reads m fs P -> (forall r, P r -> P' r) -> reads m fs P'.
Proof. intros H HP w Hw. eapply runs_mono; [by apply H|]. cbn. naive_solver. Qed.

Lemma reads_bind {E A B} (m : IO E A) (k : A -> IO E B) fs P :
  reads m fs (fun r => match r with Ok a => reads (k a) fs P | Err e => P (Err e) end) ->
  reads (io_bind m k) fs P.
Proof.
  intros H w Hw. specialize (H w Hw). unfold runs, io_bind in *.
  destruct (m w) as [[[a|e]|] w1]; [|done|done]. destruct H as [Hs Hk].
  specialize (Hk w1). unfold runs in Hk. destruct Hs as [Hf Hj].
  specialize (Hk ltac:(by rewrite Hf)).
  destruct (k a w1) as [[r|] w2].
  - destruct Hk as [Hs Hp]. split; [|done]. by eapply same_disk_trans.
  - by eapply same_disk_trans.
Qed.

Lemma reads_catch {E F A} (m : IO E A) fs (P : result (result A E) F -> Prop) :
  reads m fs (fun r => P (Ok r)) -> reads (io_catch m) fs P.
Proof. intros H w Hw. apply runs_catch. by apply H. Qed.

Lemma reads_map_err {E F A} (f : E -> F) (m : IO E A) fs P :
  reads m fs (fun r => P (map_err f r)) -> reads (io_map_err f m) fs P.
Proof. intros H w Hw. apply runs_map_err. by apply H. Qed.

Lemma reads_look {A} (f : Files -> result A text) fs (P : result A text -> Prop) :
  P (f fs) -> (forall e, P (Err e)) -> reads (look f) fs P.
Proof.
  intros Hf He w <-. unfold runs, look, call.
  destruct (wd_script w) as [|[| |] s]; cbn; [done|by split|by split|done].
Qed.

Lemma reads_any {E A} (m : IO E A) fs : reads m fs (fun _ => True) -> forall P : result A E -> Prop, (forall r, P r) -> reads m fs P.
Proof. intros H P HP. eapply reads_mono; [exact H|auto]. Qed.

End logic.

(** ** The invariant *)

(** How far a write has come: [Staged] is its stage, whole or in part. *)
Inductive Status : Type :=
| Untouched
| Staged (inode : N) (content : bytes)
| Landed.

#[export] Instance Status_eq_dec : EqDecision Status.
Proof. solve_decision. Defined.

Definition set_status (tx_id : text) (s : Status) (st : text -> Status) : text -> Status :=
  fun id => if decide (id = tx_id) then s else st id.

Lemma set_status_eq tx_id s st : set_status tx_id s st tx_id = s.
Proof. unfold set_status. by rewrite decide_True. Qed.

Lemma set_status_ne tx_id s st id : id <> tx_id -> set_status tx_id s st id = st id.
Proof. intros H. unfold set_status. by rewrite decide_False. Qed.

(** The target has this content, or is missing. *)
Definition target_is (fs : Files) (x : Write) (content : option bytes) : Prop :=
  match content with
  | None => fs_entries fs !! target_path x = None
  | Some b => exists inode, fs_entries fs !! target_path x = Some (NFile inode) /\ data_of inode fs = b
  end.

Definition stage_gone (fs : Files) (x : Write) : Prop := fs_entries fs !! stage_path x = None.

Definition file_ok (fs : Files) (x : Write) (s : Status) : Prop :=
  match s with
  | Untouched => target_is fs x (wt_before x) /\ stage_gone fs x
  | Staged inode content =>
      target_is fs x (wt_before x) /\ fs_entries fs !! stage_path x = Some (NFile inode) /\
      data_of inode fs = content /\ (forall p, fs_entries fs !! p = Some (NFile inode) -> p = stage_path x)
  | Landed => target_is fs x (Some (wt_after x)) /\ stage_gone fs x
  end.

Definition inodes_known (fs : Files) : Prop :=
  forall p inode, fs_entries fs !! p = Some (NFile inode) -> (inode < fs_next fs)%N.

(** Every directory on the way is there. *)
Definition parents_exist (fs : Files) (dir parts : list text) : Prop :=
  forall p part q, parts = p ++ part :: q -> exists identity, fs_entries fs !! (dir ++ p ++ [part]) = Some (NDir identity).

(** ** Paths and evidence *)

Lemma descend_reads fs dir parts :
  parents_exist fs dir parts ->
  reads (descend dir parts) fs (fun r => forall o, r = Ok o -> o = Some (dir ++ parts)).
Proof.
  revert dir. induction parts as [|part parts IH]; intros dir Hp; cbn [descend].
  - apply reads_ret. intros o [= <-]. by rewrite app_nil_r.
  - apply reads_bind. unfold open_child_dir. apply reads_look; [|done].
    destruct (Hp [] part parts eq_refl) as [identity Hd]. cbn [app] in Hd. unfold entry_of. rewrite Hd.
    replace (dir ++ part :: parts) with ((dir ++ [part]) ++ parts) by (by rewrite <- (assoc_L (++))).
    apply IH. intros p q r ->. destruct (Hp (part :: p) q r eq_refl) as [identity' Hd'].
    exists identity'. rewrite <- Hd'. by rewrite <- !(assoc_L (++)).
Qed.

(** A clean path is its own components. *)
Lemma target_parts_clean parent name :
  Forall piece_ok (parent ++ [name]) -> target_parts (relative_of parent name) = Ok (parent, name).
Proof.
  intros Hclean. unfold target_parts, relative_of. rewrite components_join; [|by destruct parent|exact Hclean].
  rewrite normal_parts_Normal, last_snoc. by rewrite removelast_last.
Qed.

Lemma of_context_elem ctx state en :
  en ∈ of_context ctx state <-> rs_transactions state !! en.1 = Some en.2 /\ pr_context (te_prepared en.2) = ctx.
Proof.
  unfold of_context. rewrite list_elem_of_In, filter_In, <- list_elem_of_In, bool_decide_eq_true.
  destruct en as [tx_id e]. by rewrite elem_of_map_to_list.
Qed.

Lemma of_context_nodup ctx state : NoDup (of_context ctx state).*1.
Proof.
  apply NoDup_fmap_fst.
  - intros tx_id e1 e2 [H1 _]%of_context_elem [H2 _]%of_context_elem. cbn in *. congruence.
  - apply NoDup_ListNoDup, List.NoDup_filter, NoDup_ListNoDup, NoDup_map_to_list.
Qed.

Section invariant.
Context `{WC : WorkspaceCodec} `{UC : UuidCodec}.
Context (ctx : OperationEffectContext) (xs : list Write).

(** What the journal says of a write. *)
Definition plan (x : Write) : Prepared :=
  {| pr_context := ctx; pr_relative_target := relative_of (wt_parent x) (wt_name x);
     pr_temp_name := staging_name (wt_tx_id x); pr_target_existed := bool_decide (is_Some (wt_before x));
     pr_before_hash := digest_display (content_sha256 (default [] (wt_before x)));
     pr_after_hash := digest_display (content_sha256 (wt_after x));
     pr_bytes_before := Some (N.of_nat (length (default [] (wt_before x))));
     pr_bytes_after := Some (N.of_nat (length (wt_after x))); pr_entry_kind := EntryFile |}.

Definition write_record (state : RecoveryState) (x : Write) : option TxEvidence := rs_transactions state !! wt_tx_id x.

Definition planned (x : Write) (terminal : option TxTerminal) : TxEvidence :=
  {| te_journal_version := JOURNAL_VERSION; te_prepared := plan x; te_terminal := terminal |}.

Definition record_ok (state : RecoveryState) (x : Write) (s : Status) : Prop :=
  match write_record state x with
  | None => s = Untouched
  | Some e =>
      e = planned x (te_terminal e) /\
      match te_terminal e with
      | None => True
      | Some (TxCommitted identity) => identity = None /\ s = Landed
      | Some TxRolledBack => s = Untouched
      end
  end.

Record consistent (state : RecoveryState) (st : text -> Status) (fs : Files) : Prop := {
  cs_inodes : inodes_known fs;
  cs_parents x : x ∈ xs -> parents_exist fs [] (wt_parent x);
  cs_files x : x ∈ xs -> file_ok fs x (st (wt_tx_id x));
  cs_records x : x ∈ xs -> record_ok state x (st (wt_tx_id x));
  cs_managed tx_id e : rs_transactions state !! tx_id = Some e -> pr_context (te_prepared e) = ctx ->
    exists x, x ∈ xs /\ tx_id = wt_tx_id x;
}.

(** The writes are apart, in clean places, and SHA-256 tells their contents before and
    after apart where these have the same length. *)
Record apart : Prop := {
  ap_ids x y : x ∈ xs -> y ∈ xs -> wt_tx_id x = wt_tx_id y -> x = y;
  ap_targets x y : x ∈ xs -> y ∈ xs -> target_path x = target_path y -> x = y;
  ap_stages x y : x ∈ xs -> y ∈ xs -> target_path x <> stage_path y;
  ap_clean x : x ∈ xs -> Forall piece_ok (target_path x);
  ap_hashes x b : x ∈ xs -> wt_before x = Some b -> length b = length (wt_after x) ->
    content_sha256 b = content_sha256 (wt_after x) -> b = wt_after x;
}.

Context (Hapart : apart).

Lemma staging_name_inj a b : staging_name a = staging_name b -> a = b.
Proof. unfold staging_name. intros H%app_inv_head. by apply app_inv_tail in H. Qed.

Lemma stage_path_inj x y : x ∈ xs -> y ∈ xs -> stage_path x = stage_path y -> x = y.
Proof.
  intros Hx Hy H. apply app_inj_tail in H as [_ H%staging_name_inj]. by apply (ap_ids Hapart).
Qed.

(** What one write does to the files: only its target and its stage change, only fresh
    inodes and its own are written to. *)
Record evolves (x : Write) (fs fs' : Files) : Prop := {
  ev_inodes : inodes_known fs';
  ev_next : (fs_next fs <= fs_next fs')%N;
  ev_entries p : p <> target_path x -> p <> stage_path x -> fs_entries fs' !! p = fs_entries fs !! p;
  ev_data p inode : p <> target_path x -> p <> stage_path x -> fs_entries fs !! p = Some (NFile inode) ->
    data_of inode fs' = data_of inode fs;
  ev_origin p inode : fs_entries fs' !! p = Some (NFile inode) ->
    (fs_next fs <= inode)%N \/
    exists q, fs_entries fs !! q = Some (NFile inode) /\ (q = p \/ q = target_path x \/ q = stage_path x);
}.

Lemma no_directory fs x s : file_ok fs x s ->
  (forall identity, fs_entries fs !! target_path x <> Some (NDir identity)) /\
  (forall identity, fs_entries fs !! stage_path x <> Some (NDir identity)).
Proof.
  intros H. unfold file_ok, target_is, stage_gone in H. split; intros identity Hd; rewrite Hd in H;
    destruct s; destruct (wt_before x); naive_solver.
Qed.

Lemma evolves_other fs fs' x y s :
  x ∈ xs -> y ∈ xs -> x <> y -> inodes_known fs -> evolves x fs fs' -> file_ok fs y s -> file_ok fs' y s.
Proof.
  intros Hx Hy Hne Hknown Hev Hok.
  assert (Ht1 : target_path y <> target_path x) by (intros H; apply Hne; symmetry; by apply (ap_targets Hapart)).
  assert (Ht2 : target_path y <> stage_path x) by (by apply (ap_stages Hapart)).
  assert (Hs1 : stage_path y <> target_path x) by (intros H; by apply (ap_stages Hapart x y)).
  assert (Hs2 : stage_path y <> stage_path x) by (intros H; apply Hne; symmetry; by apply stage_path_inj).
  assert (Htarget : forall c, target_is fs y c -> target_is fs' y c).
  { intros [b|]; unfold target_is; rewrite (ev_entries _ _ _ Hev) by done; [|done].
    intros (inode & Hi & Hd). exists inode. split; [done|]. by rewrite (ev_data _ _ _ Hev (target_path y)). }
  assert (Hgone : stage_gone fs y -> stage_gone fs' y).
  { unfold stage_gone. by rewrite (ev_entries _ _ _ Hev). }
  unfold file_ok in *. destruct s as [|inode content|]; [destruct Hok; by auto| |destruct Hok; by auto].
  destruct Hok as (Ht & Hs & Hd & Hp). split_and!; [by apply Htarget|by rewrite (ev_entries _ _ _ Hev)| |].
  - by rewrite (ev_data _ _ _ Hev (stage_path y)).
  - intros p Hi. apply (ev_origin _ _ _ Hev) in Hi as [Hfresh|(q & Hq & Hin)].
    + apply Hknown in Hs. lia.
    + apply Hp in Hq. subst q. destruct Hin as [->|[H|H]]; [done| |]; congruence.
Qed.

Lemma consistent_evolves state st fs fs' x s :
  x ∈ xs -> consistent state st fs -> evolves x fs fs' -> file_ok fs' x s -> record_ok state x s ->
  consistent state (set_status (wt_tx_id x) s st) fs'.
Proof.
  intros Hx [Hi Hp Hf Hr Hm] Hev Hfile Hrec. split; [by eapply ev_inodes| | | |done].
  - intros y Hy p part q Hpq. destruct (Hp y Hy p part q Hpq) as [identity Hd]. exists identity.
    destruct (no_directory fs x _ (Hf x Hx)) as [Hnt Hns].
    rewrite (ev_entries _ _ _ Hev); [done| |]; intros He; rewrite He in Hd; [by eapply Hnt|by eapply Hns].
  - intros y Hy. destruct (decide (wt_tx_id y = wt_tx_id x)) as [He|Hne].
    + assert (y = x) as -> by (by apply (ap_ids Hapart)). by rewrite set_status_eq.
    + rewrite set_status_ne by done. eapply evolves_other; [exact Hx|exact Hy|congruence|exact Hi|exact Hev|by apply Hf].
  - intros y Hy. destruct (decide (wt_tx_id y = wt_tx_id x)) as [He|Hne].
    + assert (y = x) as -> by (by apply (ap_ids Hapart)). by rewrite set_status_eq.
    + rewrite set_status_ne by done. by apply Hr.
Qed.

(** One record more. *)
Lemma consistent_records state state' st fs x e :
  x ∈ xs -> consistent state st fs ->
  rs_transactions state' = <[wt_tx_id x := e]> (rs_transactions state) ->
  record_ok state' x (st (wt_tx_id x)) -> consistent state' st fs.
Proof.
  intros Hx [Hi Hp Hf Hr Hm] Ht Hrec. split; [done..| |].
  - intros y Hy. destruct (decide (wt_tx_id y = wt_tx_id x)) as [He|Hne].
    + by assert (y = x) as -> by (by apply (ap_ids Hapart)).
    + specialize (Hr y Hy). unfold record_ok, write_record in *. by rewrite Ht, lookup_insert_ne.
  - intros tx_id e'. rewrite Ht. destruct (decide (tx_id = wt_tx_id x)) as [->|Hne]; [by eauto|].
    rewrite lookup_insert_ne by done. apply Hm.
Qed.

End invariant.

(** ** What one call does *)

Lemma entry_with_entry dir name node fs p :
  fs_entries (with_entry dir name node fs) !! p = if decide (p = dir ++ [name]) then node else fs_entries fs !! p.
Proof.
  unfold with_entry. cbn [fs_entries]. case_decide as Hp.
  - subst p. by rewrite lookup_partial_alter_eq.
  - by rewrite lookup_partial_alter_ne.
Qed.

Lemma data_of_with_data i content fs j :
  data_of j (with_data i content fs) = if decide (j = i) then content else data_of j fs.
Proof.
  unfold data_of, with_data. cbn [fs_data]. case_decide as Hj.
  - subst j. by rewrite lookup_insert_eq.
  - by rewrite lookup_insert_ne.
Qed.

(** A new empty file at the stage. *)
Definition created (x : Write) (fs : Files) : Files :=
  let fs' := with_entry (wt_parent x) (staging_name (wt_tx_id x)) (Some (NFile (fs_next fs))) (with_data (fs_next fs) [] fs) in
  {| fs_entries := fs_entries fs'; fs_data := fs_data fs'; fs_next := fs_next fs + 1 |}.

Definition unstaged (x : Write) (fs : Files) : Files := with_entry (wt_parent x) (staging_name (wt_tx_id x)) None fs.

Definition renamed (x : Write) (inode : N) (fs : Files) : Files :=
  with_entry (wt_parent x) (wt_name x) (Some (NFile inode)) (unstaged x fs).

Section steps.
Context (x : Write) (fs : Files).
Context (Hknown : inodes_known fs) (Happart : target_path x <> stage_path x).

Lemma created_entry p : fs_entries (created x fs) !! p = if decide (p = stage_path x) then Some (NFile (fs_next fs)) else fs_entries fs !! p.
Proof. unfold created. cbn [fs_entries]. rewrite entry_with_entry. done. Qed.

Lemma created_data i : data_of i (created x fs) = if decide (i = fs_next fs) then [] else data_of i fs.
Proof. apply (data_of_with_data (fs_next fs) [] fs i). Qed.

Lemma unstaged_entry p : fs_entries (unstaged x fs) !! p = if decide (p = stage_path x) then None else fs_entries fs !! p.
Proof. apply entry_with_entry. Qed.

Lemma renamed_entry inode p :
  fs_entries (renamed x inode fs) !! p =
  if decide (p = target_path x) then Some (NFile inode) else if decide (p = stage_path x) then None else fs_entries fs !! p.
Proof. unfold renamed. by rewrite entry_with_entry, unstaged_entry. Qed.

Lemma target_is_same fs' content :
  fs_entries fs' !! target_path x = fs_entries fs !! target_path x ->
  (forall inode, fs_entries fs !! target_path x = Some (NFile inode) -> data_of inode fs' = data_of inode fs) ->
  target_is fs x content -> target_is fs' x content.
Proof.
  intros He Hd. destruct content as [b|]; unfold target_is; rewrite He; [|done].
  intros (inode & Hi & Hb). exists inode. split; [done|]. by rewrite Hd.
Qed.

Lemma created_step :
  file_ok fs x Untouched ->
  evolves x fs (created x fs) /\ file_ok (created x fs) x (Staged (fs_next fs) []).
Proof.
  intros [Ht Hs]. split.
  - split.
    + intros p inode. rewrite created_entry. cbn [created fs_next]. case_decide; [intros [= <-]; lia|].
      intros Hi%Hknown. lia.
    + cbn. lia.
    + intros p _ Hp. rewrite created_entry. by rewrite decide_False.
    + intros p inode _ _ Hi%Hknown. rewrite created_data. rewrite decide_False; [done|lia].
    + intros p inode. rewrite created_entry. case_decide; [intros [= <-]; left; lia|].
      intros Hi. right. exists p. auto.
  - split_and!.
    + apply target_is_same; [by rewrite created_entry, decide_False| |done].
      intros inode Hi%Hknown. rewrite created_data. rewrite decide_False; [done|lia].
    + by rewrite created_entry, decide_True.
    + by rewrite created_data, decide_True.
    + intros p. rewrite created_entry. case_decide; [done|]. intros Hi%Hknown. lia.
Qed.

Lemma written_step inode content content' :
  file_ok fs x (Staged inode content) ->
  evolves x fs (with_data inode content' fs) /\ file_ok (with_data inode content' fs) x (Staged inode content').
Proof.
  intros (Ht & Hs & Hd & Hp). assert (Hother : forall p i, p <> stage_path x -> fs_entries fs !! p = Some (NFile i) ->
    data_of i (with_data inode content' fs) = data_of i fs).
  { intros p i Hne Hi. rewrite data_of_with_data. case_decide; [subst i|done]. by apply Hp in Hi. }
  split.
  - split; [done|done|done| |].
    + intros p i _ Hne. by apply Hother.
    + intros p i Hi. right. exists p. auto.
  - split_and!; [|done| |done].
    + apply target_is_same; [done| |done]. intros i. by apply Hother.
    + by rewrite data_of_with_data, decide_True.
Qed.

Lemma unstaged_step inode content :
  file_ok fs x (Staged inode content) ->
  evolves x fs (unstaged x fs) /\ file_ok (unstaged x fs) x Untouched.
Proof.
  intros (Ht & Hs & Hd & Hp). split.
  - split.
    + intros p i. rewrite unstaged_entry. case_decide; [done|]. apply Hknown.
    + cbn. lia.
    + intros p _ Hne. by rewrite unstaged_entry, decide_False.
    + done.
    + intros p i. rewrite unstaged_entry. case_decide; [done|]. intros Hi. right. exists p. auto.
  - split; [|unfold stage_gone; by rewrite unstaged_entry, decide_True].
    apply target_is_same; [by rewrite unstaged_entry, decide_False|done|done].
Qed.

Lemma renamed_step inode :
  file_ok fs x (Staged inode (wt_after x)) ->
  evolves x fs (renamed x inode fs) /\ file_ok (renamed x inode fs) x Landed.
Proof.
  intros (Ht & Hs & Hd & Hp). split.
  - split.
    + intros p i. rewrite renamed_entry. cbn [renamed unstaged with_entry fs_next]. case_decide; [intros [= <-]; by eapply Hknown|].
      case_decide; [done|]. apply Hknown.
    + cbn. lia.
    + intros p Hn1 Hn2. rewrite renamed_entry. by rewrite !decide_False.
    + done.
    + intros p i. rewrite renamed_entry. case_decide; [intros [= <-]; right; exists (stage_path x); by auto|].
      case_decide; [done|]. intros Hi. right. exists p. auto.
  - split.
    + exists inode. split; [|done]. by rewrite renamed_entry, decide_True.
    + unfold stage_gone. rewrite renamed_entry. rewrite decide_False by congruence. by rewrite decide_True.
Qed.

End steps.
