(* ===== verification/WorkspaceDirectory.v ===== *)
(** Directory effects (agent-workspace/lib.rs, [PreparedDirectoryCreation]): what the
    creation of one directory answers, and what reconciliation answers for it after a
    death at any call and a restart, is true of the directory. *)

From stdpp Require Import gmap.
From S2P Require Import Prelude Text Digest Jcs Operation Journal Wal Intent OutputBroker Capability Artifact.
From S2P Require Import WorkspaceJournal WorkspaceEffects WorkspaceHistory.

(** One directory to create. *)
Record Creation : Type := {
  cr_parent : list text;
  cr_name : text;
  cr_tx_id : text;
  cr_tool : text;
}.

Definition creation_path (x : Creation) : list text := cr_parent x ++ [cr_name x].

Section directory.
Context `{WC : WorkspaceCodec} `{WL : !WorkspaceCodecLaws} `{UC : UuidCodec}.
Context (ctx : OperationEffectContext) (x : Creation).

(** The whole life of the effect: preparing, and, where it is needed, committing. *)
Definition create_directory : IO AgentError (option EffectReceipt) :=
  act prepared <- prepare_directory_creation (cr_tool x) (cr_parent x) (cr_name x) (cr_tx_id x) (Some ctx) ;;
  match prepared with
  | AlreadyExists _ => io_ret None
  | DirectoryReady d => act receipt <- directory_commit d ;; io_ret (Some receipt)
  end.

Notation id := (cr_tx_id x).
Notation path := (creation_path x).

Definition directory_evidence (terminal : option TxTerminal) : TxEvidence :=
  {| te_journal_version := JOURNAL_VERSION; te_prepared := directory_plan (cr_parent x) (cr_name x) ctx;
     te_terminal := terminal |}.

Definition creation_record (state : RecoveryState) : option TxEvidence := rs_transactions state !! id.

(** [present] is the identity of the directory, where it is there. *)
Definition creation_ok (state : RecoveryState) (present : option text) : Prop :=
  match creation_record state with
  | None => present = None
  | Some e =>
      e = directory_evidence (te_terminal e) /\
      match te_terminal e with
      | None => True
      | Some (TxCommitted identity) => is_Some identity /\ identity = present
      | Some TxRolledBack => present = None
      end
  end.

Record creation_at (state : RecoveryState) (present : option text) (fs : Files) : Prop := {
  ca_entry : fs_entries fs !! path = NDir <$> present;
  ca_parents : parents_exist fs [] (cr_parent x);
  ca_record : creation_ok state present;
  ca_only tx_id e : rs_transactions state !! tx_id = Some e -> pr_context (te_prepared e) = ctx -> tx_id = id;
}.

Context (Hclean : Forall piece_ok path).

Definition alive_at (state : RecoveryState) (present : option text) (w : World) : Prop :=
  journal_at state (wd_journal w) /\ creation_at state present (wd_files w).

Definition dead_at (w : World) : Prop :=
  exists state present, recoverable (wr_file (wd_journal w)) state /\ creation_at state present (wd_files w).

Abbreviation run m Q := (runs m Q dead_at).

Lemma alive_dead state present w : alive_at state present w -> dead_at w.
Proof. intros [[Hr _] Hc]. by exists state, present. Qed.

Lemma alive_same state present w w' : same_disk w w' -> alive_at state present w -> alive_at state present w'.
Proof. intros [Hf Hj] [H1 H2]. unfold alive_at. by rewrite Hf, Hj. Qed.

Lemma step_reads {E A} (m : IO E A) P (Q : result A E -> World -> Prop) state present w :
  reads m (wd_files w) P -> alive_at state present w ->
  (forall r w', alive_at state present w' -> wd_files w' = wd_files w -> P r -> Q r w') ->
  run m Q w.
Proof.
  intros Hm Hl Hq. specialize (Hm w eq_refl). unfold runs in *. destruct (m w) as [[r|] w'].
  - destruct Hm as [Hs Hp]. apply Hq; [by eapply alive_same|by apply Hs|done].
  - eapply alive_dead, alive_same; done.
Qed.

Lemma step_change f (Q : result unit text -> World -> Prop) state present w :
  alive_at state present w ->
  (forall w1, same_disk w w1 -> Q (match f (wd_files w1) with Ok _ => Ok tt | Err e => Err e end)
     (match f (wd_files w1) with Ok fs => set_files fs w1 | Err _ => w1 end)) ->
  (forall e w1, alive_at state present w1 -> Q (Err e) w1) ->
  run (change f) Q w.
Proof.
  intros Hl Hf He. unfold runs, change, call, nothing. destruct (wd_script w) as [|[|n e|n] s]; [by eapply alive_dead| | |].
  - specialize (Hf (set_script s w) ltac:(done)). cbn [wd_files set_script] in *. by destruct (f (wd_files w)).
  - apply He. eapply alive_same; [|exact Hl]. done.
  - eapply alive_dead, alive_same; [|exact Hl]. done.
Qed.

(** The record is prepared, without an end. *)
Definition record_open (state : RecoveryState) : Prop := creation_record state = Some (directory_evidence None).

Lemma record_open_ok state present : record_open state -> creation_ok state present.
Proof. unfold record_open, creation_ok. by intros ->. Qed.

(** An append that gives the transaction the record [e]. *)
Lemma step_append t e (Q : result unit AgentError -> World -> Prop) state present w :
  alive_at state present w ->
  (forall state1, apply_transition JOURNAL_VERSION t state = Ok state1 ->
     rs_transactions state1 = <[id := e]> (rs_transactions state)) ->
  (forall state', creation_record state' = Some e -> creation_ok state' present) ->
  (forall state' w', alive_at state' present w' -> creation_record state' = Some e -> Q (Ok tt) w') ->
  (forall error state' w', alive_at state' present w' -> Q (Err error) w') ->
  run (append t) Q w.
Proof.
  intros [Hj Hc] Ht He Hok Herr. unfold runs, append. destruct (wd_script w) as [|i s]; [by eapply alive_dead|].
  destruct (journal_append (outcome_of i) t (wd_journal w)) as [answer j] eqn:Ea.
  destruct (journal_append_spec _ _ _ _ _ _ Hj Ea) as (state' & Hin & Hr & Hat & Hack).
  assert (Hnext : journal_next t state = Some state' -> rs_transactions state' = <[id := e]> (rs_transactions state)).
  { unfold journal_next, replay_entry, rbind, map_err. cbn [jr_version jr_seq jr_transition]. intros Hn.
    repeat (case_match; simplify_eq). exact (Ht _ eq_refl). }
  assert (Hrec : journal_next t state = Some state' -> creation_record state' = Some e).
  { intros Hn. unfold creation_record. rewrite (Hnext Hn). by rewrite lookup_insert_eq. }
  assert (Hc' : creation_at state' present (wd_files w)).
  { destruct Hin as [->|Hn]; [done|]. destruct Hc as [H1 H2 H3 H4]. split; [done|done|by apply He, Hrec|].
    intros tx_id e'. rewrite (Hnext Hn). destruct (decide (tx_id = id)) as [->|Hne]; [done|].
    rewrite lookup_insert_ne by done. apply H4. }
  destruct answer as [[[]|error]|].
  - apply (Hok state'); [split; [by apply Hat|done]|by apply Hrec, Hack].
  - apply (Herr error state'). split; [by apply Hat|done].
  - by exists state', present.
Qed.

Lemma rolled_back_applies state state1 :
  record_open state -> apply_transition JOURNAL_VERSION (JRolledBack id) state = Ok state1 ->
  rs_transactions state1 = <[id := directory_evidence (Some TxRolledBack)]> (rs_transactions state).
Proof.
  unfold record_open, creation_record. cbn. unfold end_transaction. intros Ho Ha. rewrite Ho in Ha. by injection Ha as <-.
Qed.

Lemma step_rolled_back (Q : result unit AgentError -> World -> Prop) state w :
  alive_at state None w -> record_open state ->
  (forall state' w', alive_at state' None w' -> creation_record state' = Some (directory_evidence (Some TxRolledBack)) -> Q (Ok tt) w') ->
  (forall error state' w', alive_at state' None w' -> Q (Err error) w') ->
  run (append_rolled_back id) Q w.
Proof.
  intros Hl Ho. apply (step_append _ (directory_evidence (Some TxRolledBack)) _ state None); [done| |].
  - intros state1. by apply rolled_back_applies.
  - intros state' Hr. unfold creation_ok. by rewrite Hr.
Qed.

Lemma step_record c (Q : result unit AgentError -> World -> Prop) state present w :
  alive_at state present w -> (forall r w', alive_at state present w' -> Q r w') -> run (record_change c) Q w.
Proof.
  intros Hl HQ. unfold record_change. apply runs_map_err. unfold runs, call, nothing.
  destruct (wd_script w) as [|[|n e|n] s]; [by eapply alive_dead|by apply HQ|by apply HQ|by eapply alive_dead].
Qed.

(** ** The directory *)

Lemma entry_other name node fs p :
  p <> cr_parent x ++ [name] -> fs_entries (with_entry (cr_parent x) name node fs) !! p = fs_entries fs !! p.
Proof. intros Hp. by rewrite entry_with_entry, decide_False. Qed.

(** Another entry at the path leaves the parents in place. *)
Lemma creation_changes state present present' fs fs' :
  creation_at state present fs -> record_open state ->
  fs_entries fs' !! path = NDir <$> present' -> (forall p, p <> path -> fs_entries fs' !! p = fs_entries fs !! p) ->
  creation_at state present' fs'.
Proof.
  intros [H1 H2 H3 H4] Ho He Hother. split; [done| |by apply record_open_ok|done].
  intros p part q Hp. destruct (H2 p part q Hp) as [identity Hd]. exists identity. rewrite Hother; [done|].
  cbn [app]. intros Heq. apply (f_equal length) in Heq, Hp. unfold creation_path in Heq.
  rewrite length_app in Hp. rewrite !length_app in Heq. cbn in Heq, Hp. lia.
Qed.

Lemma step_make (Q : result unit text -> World -> Prop) state w :
  alive_at state None w -> record_open state ->
  (forall identity w', alive_at state (Some identity) w' -> Q (Ok tt) w') ->
  (forall e w', alive_at state None w' -> Q (Err e) w') ->
  run (make_dir (cr_parent x) (cr_name x)) Q w.
Proof.
  intros Hl Ho Hok Herr. unfold make_dir. eapply step_change; [exact Hl| |done]. intros w1 Hw1.
  destruct (alive_same _ _ _ _ Hw1 Hl) as [Hj Hc]. unfold entry_of.
  pose proof (ca_entry _ _ _ Hc) as He. unfold creation_path in He. rewrite He. cbn [fmap option_fmap option_map].
  eapply Hok. split; [done|]. eapply creation_changes; [exact Hc|done| |].
  - cbn [wd_files set_files fs_entries]. rewrite entry_with_entry. by rewrite decide_True.
  - intros p Hp. cbn [wd_files set_files fs_entries]. by apply entry_other.
Qed.

Lemma present_reads state present w :
  alive_at state present w ->
  reads (open_present_dir (cr_parent x) (cr_name x)) (wd_files w) (fun r => forall child, r = Ok child -> present = Some child).
Proof.
  intros [_ Hc]. unfold open_present_dir. apply reads_bind. unfold open_child_dir. apply reads_look; [|done].
  unfold entry_of. pose proof (ca_entry _ _ _ Hc) as He. unfold creation_path in He. rewrite He.
  destruct present as [identity|]; cbn; [|by apply reads_fail]. apply reads_ret. by intros child [= <-].
Qed.

Lemma child_reads state present w :
  alive_at state present w ->
  reads (open_child_dir (cr_parent x) (cr_name x)) (wd_files w) (fun r => forall o, r = Ok o -> o = present).
Proof.
  intros [_ Hc]. unfold open_child_dir. apply reads_look; [|done].
  unfold entry_of. pose proof (ca_entry _ _ _ Hc) as He. unfold creation_path in He. rewrite He.
  destruct present; by intros o [= <-].
Qed.

Lemma identity_reads child fs : reads (entry_identity child) fs (fun r => forall i, r = Ok i -> i = child).
Proof. apply reads_look; [by intros i [= <-]|done]. Qed.

Lemma matches_reads child fs : reads (named_entry_matches_dir (cr_parent x) (cr_name x) child) fs (fun _ => True).
Proof.
  unfold named_entry_matches_dir, open_present_dir, open_child_dir, entry_identity.
  repeat first [apply reads_bind | apply reads_ret | apply reads_fail | apply reads_look; [|intros ?] | case_match | exact I | intros ? ].
Qed.

(** Creating reports the identity, that nothing was created, or that it may be there. *)
Lemma step_create (Q : result text DirectoryCreateError -> World -> Prop) state w :
  alive_at state None w -> record_open state ->
  (forall child w', alive_at state (Some child) w' -> Q (Ok child) w') ->
  (forall e w', alive_at state None w' -> Q (Err (false, e)) w') ->
  (forall e present w', alive_at state present w' -> Q (Err (true, e)) w') ->
  run (create_workspace_child_dir (cr_parent x) (cr_name x)) Q w.
Proof.
  intros Hl Ho Hok Hnot Hmay. unfold create_workspace_child_dir. apply runs_bind, runs_map_err.
  eapply step_make; [exact Hl|done| |by intros e w' ?; apply Hnot].
  intros identity w1 Hl1. cbn [map_err]. apply runs_bind, runs_map_err.
  eapply step_reads; [by eapply present_reads|exact Hl1|]. intros [child|e] w2 Hl2 _ Hc; cbn [map_err]; [|by eapply Hmay].
  specialize (Hc child eq_refl). injection Hc as ->. apply runs_bind, runs_map_err.
  eapply step_reads; [apply matches_reads|exact Hl2|]. intros [[]|e] w3 Hl3 _ _; cbn [map_err]; [by apply Hok|by eapply Hmay..].
Qed.

Lemma step_sync (Q : result unit text -> World -> Prop) state present w :
  alive_at state present w -> (forall r w', alive_at state present w' -> Q r w') -> run sync_dir Q w.
Proof. intros Hl HQ. eapply (step_reads _ (fun _ => True)); [by apply reads_look|exact Hl|auto]. Qed.

Lemma step_remove (Q : result unit text -> World -> Prop) child state present w :
  alive_at state present w -> record_open state ->
  (forall w', alive_at state None w' -> Q (Ok tt) w') ->
  (forall e w', alive_at state present w' -> Q (Err e) w') ->
  run (remove_open_dir (cr_parent x) child (cr_name x)) Q w.
Proof.
  intros Hl Ho Hok Herr. unfold remove_open_dir. apply runs_bind.
  eapply step_reads; [apply matches_reads|exact Hl|]. intros [[]|e] w1 Hl1 _ _; [|by apply Herr..].
  eapply step_change; [exact Hl1| |done]. intros w2 Hw2. destruct (alive_same _ _ _ _ Hw2 Hl1) as [Hj Hc].
  destruct (is_empty_dir _ _); [|by apply Herr]. apply Hok. split; [done|].
  eapply creation_changes; [exact Hc|done| |].
  - cbn [wd_files set_files]. rewrite entry_with_entry. by rewrite decide_True.
  - intros p Hp. cbn [wd_files set_files]. by apply entry_other.
Qed.

(** ** The effect *)

(** A receipt is true: applied is of a directory that is there, durable of one whose
    identity the journal holds, not applied of one that is not there. *)
Definition creation_true (receipt : EffectReceipt) (state : RecoveryState) (present : option text) : Prop :=
  match receipt with
  | ReceiptApplied durability _ =>
      exists identity, present = Some identity /\
        (durability = Durable -> creation_record state = Some (directory_evidence (Some (TxCommitted (Some identity)))))
  | ReceiptNotApplied _ => present = None /\ creation_record state = Some (directory_evidence (Some TxRolledBack))
  | ReceiptUnknown _ => True
  end.

Definition creation_post {E} (r : result EffectReceipt E) (w : World) : Prop :=
  exists state present, alive_at state present w /\
    match r with Ok receipt => creation_true receipt state present | Err _ => True end.

Definition own (d : PreparedDirectoryCreation) : Prop :=
  d = {| pd_parent := cr_parent x; pd_target_name := cr_name x; pd_tx_id := id; pd_effect_context := Some ctx |}.

Lemma step_not_applied {E} reason d state w :
  own d -> alive_at state None w -> record_open state ->
  run (directory_not_applied (E := E) reason d) creation_post w.
Proof.
  intros -> Hl Ho. unfold directory_not_applied, directory_rolled_back. cbn [pd_effect_context pd_tx_id].
  apply runs_bind, runs_catch, runs_bind. eapply step_rolled_back; [exact Hl|done| |].
  - intros state' w1 Hl1 Hr. eapply step_record; [exact Hl1|]. intros r w2 Hl2. destruct r; by exists state', None.
  - intros e state' w1 Hl1. by exists state', None.
Qed.

Lemma step_remove_created {E} child reason d state present w :
  own d -> alive_at state present w -> record_open state ->
  run (remove_created (E := E) child reason d) creation_post w.
Proof.
  intros Hd Hl Ho. unfold remove_created. rewrite Hd. cbn [pd_parent pd_target_name]. rewrite <- Hd.
  apply runs_bind, runs_catch. eapply step_remove; [exact Hl|done| |].
  - intros w1 Hl1. apply runs_bind, runs_catch. eapply step_sync; [exact Hl1|]. intros [[]|e] w2 Hl2.
    + by eapply step_not_applied.
    + by exists state, None.
  - intros e w1 Hl1. by exists state, present.
Qed.

Lemma step_acknowledge {E} child d state w :
  own d -> alive_at state (Some child) w -> record_open state ->
  run (acknowledge_directory (E := E) child child d) creation_post w.
Proof.
  intros -> Hl Ho. unfold acknowledge_directory. cbn [pd_effect_context pd_tx_id pd_parent pd_target_name].
  assert (Hnot : forall error evidence state' w', alive_at state' (Some child) w' ->
    creation_post (E := E) (Ok (ReceiptApplied (DurabilityFailed error) evidence)) w').
  { intros error evidence state' w' Hl'. exists state', (Some child). split; [done|]. exists child. split; [done|].
    intros Hx'. discriminate Hx'. }
  apply runs_bind, runs_catch.
  eapply (step_append _ (directory_evidence (Some (TxCommitted (Some child))))); [exact Hl| | | |].
  - intros state1. cbn. unfold end_transaction. unfold record_open, creation_record in Ho. rewrite Ho. by intros [= <-].
  - intros state' Hr. unfold creation_ok. rewrite Hr. split; [done|]. by split; [eexists|].
  - intros state1 w1 Hl1 Hr. apply runs_bind, runs_catch. eapply step_record; [exact Hl1|].
    intros [[]|e] w2 Hl2; [|by eapply Hnot]. apply runs_bind, runs_catch.
    eapply step_reads; [apply matches_reads|exact Hl2|]. intros [matches|e] w3 Hl3 _ _; [|by eapply Hnot].
    apply runs_bind. destruct matches; [|by eapply Hnot]. apply runs_catch.
    eapply step_reads; [apply identity_reads|exact Hl3|]. intros r w4 Hl4 _ _.
    case_decide; [|by eapply Hnot]. exists state1, (Some child). split; [done|]. by exists child.
  - intros e state1 w1 Hl1. by eapply Hnot.
Qed.

Lemma step_commit {E} d state w :
  own d -> alive_at state None w -> record_open state ->
  run (directory_commit (E := E) d) creation_post w.
Proof.
  intros Hd Hl Ho. unfold directory_commit. rewrite Hd. cbn [pd_parent pd_target_name]. rewrite <- Hd.
  apply runs_bind, runs_catch. eapply step_reads; [by eapply child_reads|exact Hl|].
  intros [found|e] w1 Hl1 _ Hf; [|by eapply step_not_applied]. rewrite (Hf found eq_refl).
  apply runs_bind, runs_catch. eapply step_create; [exact Hl1|done| | |].
  2: { intros e w2 Hl2. by eapply step_not_applied. }
  2: { intros e present w2 Hl2. by exists state, present. }
  intros child w2 Hl2. apply runs_bind, runs_catch.
  eapply step_reads; [apply identity_reads|exact Hl2|]. intros [identity|e] w3 Hl3 _ Hi; [|by eapply step_remove_created].
  rewrite (Hi identity eq_refl). apply runs_bind, runs_catch.
  eapply step_reads; [apply matches_reads|exact Hl3|].
  intros [[]|e] w4 Hl4 _ _; [|by eapply step_remove_created|by eapply step_remove_created].
  apply runs_bind, runs_catch, runs_bind. eapply step_sync; [exact Hl4|]. intros [[]|e] w5 Hl5; [|by eapply step_remove_created].
  eapply step_sync; [exact Hl5|]. intros [[]|e] w6 Hl6; [by eapply step_acknowledge|by eapply step_remove_created].
Qed.

Definition life_post (r : AgentResult (option EffectReceipt)) (w : World) : Prop :=
  exists state present, alive_at state present w /\
    match r with Ok (Some receipt) => creation_true receipt state present | _ => True end.

Lemma life_error e state present w : alive_at state present w -> life_post (Err e) w.
Proof. intros Hl. by exists state, present. Qed.

Lemma step_life state w :
  alive_at state None w -> creation_record state = None -> run create_directory life_post w.
Proof.
  intros Hl Hn. unfold create_directory, prepare_directory_creation. apply runs_bind, runs_bind.
  unfold runs at 1, io_lift. destruct (effect_context_validate ctx) as [[]|e]; cbn [map_err]; [|by exists state, None].
  apply runs_bind, runs_catch. eapply step_reads; [by eapply child_reads|exact Hl|].
  intros [found|e] w1 Hl1 _ Hf.
  2: { apply runs_bind, runs_catch. eapply (step_reads _ (fun _ => True)); [by apply reads_look|exact Hl1|].
       intros r w2 Hl2 _ _. destruct r as [[[inode|identity]|]|e2]; by exists state, None. }
  rewrite (Hf found eq_refl). apply runs_bind.
  eapply (step_append _ (directory_evidence None)); [exact Hl1|by intros state1 [= <-]| | |].
  { intros state' Hr. unfold creation_ok. by rewrite Hr. }
  2: { intros e state' w2 Hl2. by exists state', None. }
  intros state2 w2 Hl2 Ho. apply runs_bind, runs_catch. eapply step_record; [exact Hl2|]. intros [[]|e] w3 Hl3.
  - unfold runs at 1, io_ret. apply runs_bind. eapply runs_mono; [by eapply step_commit|].
    intros r w4 (state4 & present & Hl4 & Hr). destruct r as [receipt|e]; by exists state4, present.
  - unfold close_intent. apply runs_bind, runs_catch. eapply step_rolled_back; [exact Hl3|done| |].
    + intros state4 w4 Hl4 _. by exists state4, None.
    + intros e4 state4 w4 Hl4. by exists state4, None.
Qed.

(** ** Reconciliation *)

(** The answer is true: not managed or not applied only of a directory that is not there,
    applied only of one that is, and then completely. *)
Definition creation_answer (answer : WorkspaceEffectRecovery) (present : option text) : Prop :=
  match answer with
  | WNotManaged | WNotApplied _ => present = None
  | WApplied _ complete => is_Some present /\ complete = true
  | WAmbiguous _ _ => True
  end.

Definition answer_post (r : AgentResult WorkspaceEffectRecovery) (w : World) : Prop :=
  exists state present, alive_at state present w /\
    match r with Ok answer => creation_answer answer present | Err _ => True end.

Lemma own_evidence state present w found :
  alive_at state present w -> evidence_for ctx (wd_journal w) = Ok found ->
  (found = [] /\ creation_record state = None) \/ (exists e, found = [(id, e)] /\ creation_record state = Some e).
Proof.
  intros [[_ Hmem] [_ _ Hok Honly]] He. unfold evidence_for, rbind, map_err in He.
  destruct (effect_context_validate ctx); [|done]. destruct (wr_failed (wd_journal w)) eqn:Ef; [done|].
  destruct (Hmem eq_refl) as [_ Hrec]. rewrite Hrec in He. destruct (_ <? _); [done|]. injection He as <-.
  pose proof (merge_sort_Permutation by_tx_id (of_context ctx state)) as Hp.
  assert (Hall : forall en, en ∈ of_context ctx state -> en.1 = id /\ creation_record state = Some en.2).
  { intros [tx_id e] [Hr Hc]%of_context_elem. cbn in *. by pose proof (Honly _ _ Hr Hc) as ->. }
  pose proof (of_context_nodup ctx state) as Hnd.
  destruct (of_context ctx state) as [|[i e] rest] eqn:Eof.
  - left. apply Permutation_nil_r in Hp. split; [done|]. destruct (creation_record state) as [e|] eqn:Er; [|done].
    exfalso. assert ((id, e) ∈ of_context ctx state) as Hin.
    { apply of_context_elem. split; [exact Er|]. unfold creation_ok in Hok. rewrite Er in Hok. destruct Hok as [-> _]. done. }
    rewrite Eof in Hin. by apply elem_of_nil in Hin.
  - right. destruct (Hall (i, e)) as [Hi Hr]; [apply list_elem_of_here|]. cbn in Hi, Hr. subst i. exists e. split; [|done].
    destruct rest as [|[i' e'] rest].
    + by apply Permutation_singleton_r in Hp.
    + exfalso. destruct (Hall (i', e')) as [Hi' Hr']; [apply list_elem_of_further, list_elem_of_here|]. cbn in Hi', Hr'. subst i'.
      apply NoDup_cons in Hnd as [Hnd _]. apply Hnd, list_elem_of_here.
Qed.

Definition current_dir (present : option text) : CurrentTarget :=
  match present with Some identity => TargetDirectory identity | None => TargetMissing end.

Lemma inspect_dir_reads terminal budget state present w :
  alive_at state present w ->
  reads (inspect_target (directory_evidence terminal) budget) (wd_files w)
    (fun r => forall current left, r = Ok (current, left) -> current = current_dir present).
Proof.
  intros Hl. pose proof (ca_parents _ _ _ (proj2 Hl)) as Hp. unfold inspect_target.
  cbn [directory_evidence te_prepared directory_plan pr_relative_target pr_entry_kind].
  rewrite target_parts_clean by exact Hclean. apply reads_bind, reads_lift. cbn [fst snd].
  apply reads_bind, reads_map_err. eapply reads_mono; [by apply descend_reads|].
  intros [o|e] Ho; cbn [map_err]; [|done]. rewrite (Ho o eq_refl). cbn [app].
  rewrite decide_True by done. apply reads_bind, reads_map_err. eapply reads_mono; [by eapply child_reads|].
  intros [found|e] Hf; cbn [map_err]; [|done]. rewrite (Hf found eq_refl). apply reads_ret.
  by intros current left [= <- <-]; destruct present.
Qed.

Lemma step_reconcile state present w :
  alive_at state present w -> run (reconcile_workspace_effect ctx) answer_post w.
Proof.
  intros Hl. unfold runs, reconcile_workspace_effect.
  destruct (evidence_for ctx (wd_journal w)) as [found|e] eqn:Ee; [|by exists state, present].
  pose proof (ca_record _ _ _ (proj2 Hl)) as Hok. unfold creation_ok in Hok.
  destruct (own_evidence _ _ _ _ Hl Ee) as [[-> Hn]|(e & -> & Hr)].
  { exists state, present. split; [done|]. by rewrite Hn in Hok. }
  rewrite Hr in Hok. destruct Hok as [He Hterm]. set (terminal := te_terminal e) in *. clearbody terminal. subst e.
  match goal with |- match io_bind ?m ?k w with _ => _ end => change (run (io_bind m k) answer_post w) end.
  cbn [tally]. apply runs_bind, runs_bind.
  eapply step_reads; [by eapply inspect_dir_reads|exact Hl|]. intros [[current left]|error] w1 Hl1 _ Hc; [|by exists state, present].
  rewrite (Hc _ _ eq_refl). unfold verdict. cbn [directory_evidence te_prepared directory_plan pr_entry_kind].
  rewrite decide_True by done. unfold directory_verdict. cbn [directory_evidence te_terminal].
  destruct terminal as [[[expected|]|]|].
  - destruct Hterm as [_ <-]. cbn [current_dir]. rewrite decide_True by done.
    exists state, (Some expected). split; [done|]. split; [by eexists|done].
  - by destruct Hterm as [[] _].
  - exists state, present. split; [done|]. exact Hterm.
  - destruct present as [identity|]; cbn [current_dir]; [by exists state, (Some identity)|].
    unfold runs at 1, io_ret. apply runs_bind. cbn [tl_not_applied tl_budget app close_unlanded].
    apply runs_bind. cbn [directory_evidence te_prepared directory_plan pr_entry_kind].
    rewrite decide_False by done. unfold runs at 1, io_ret. apply runs_bind, runs_catch.
    eapply step_rolled_back; [exact Hl1|exact Hr| |].
    + intros state2 w2 Hl2 _. by exists state2, None.
    + intros error state2 w2 Hl2. by exists state2, None.
Qed.

End directory.

(** C19. The creation of a directory is reported truthfully across a crash. Let one
    directory effect be prepared and committed, where any system call or journal append
    may fail or be the last one before the process dies, and let nobody else write the
    name. A receipt that says applied is of a directory that is there, a durable one of a
    directory whose identity the journal on disk holds, and one that says not applied of a
    directory that is not there. The journal always opens again; and whatever
    reconciliation then answers, over calls that may fail as well, is true: not managed or
    not applied only if the directory is not there, applied only if it is. *)
Theorem directory_effect_truthful `{WC : WorkspaceCodec} `{WL : !WorkspaceCodecLaws} `{UC : UuidCodec}
    ctx x state w :
  Forall piece_ok (creation_path x) -> journal_at state (wd_journal w) ->
  creation_at ctx x state None (wd_files w) -> creation_record x state = None ->
  let present_in fs identity := fs_entries fs !! creation_path x = Some (NDir identity) in
  let absent_in fs := fs_entries fs !! creation_path x = None in
  let '(answer, w1) := create_directory ctx x w in
  exists j, journal_open (wr_file (wd_journal w1)) = Ok j /\
    match answer with
    | Some (Ok (Some (ReceiptApplied durability _))) =>
        exists identity, present_in (wd_files w1) identity /\
          (durability = Durable ->
           te_terminal <$> creation_record x (wr_recovery j) = Some (Some (TxCommitted (Some identity))))
    | Some (Ok (Some (ReceiptNotApplied _))) => absent_in (wd_files w1)
    | _ => True
    end /\
    forall s, let '(found, w2) := reconcile_workspace_effect ctx (set_script s (set_journal j w1)) in
      match found with
      | Some (Ok (WNotManaged | WNotApplied _)) => absent_in (wd_files w2)
      | Some (Ok (WApplied _ _)) => exists identity, present_in (wd_files w2) identity
      | _ => True
      end.
Proof.
  intros Hclean Hj Hat Hnone. cbn zeta.
  pose proof (step_life ctx x state w (conj Hj Hat) Hnone) as Hlife. unfold runs in Hlife.
  destruct (create_directory ctx x w) as [answer w1].
  assert (Hdisk : exists state1 present, recoverable (wr_file (wd_journal w1)) state1 /\ creation_at ctx x state1 present (wd_files w1) /\
    match answer with Some (Ok (Some receipt)) => creation_true ctx x receipt state1 present | _ => True end).
  { destruct answer as [r|].
    - destruct Hlife as (state1 & present & [[Hr _] Hc] & Hpost). exists state1, present. split; [done|]. split; [done|].
      by destruct r.
    - destruct Hlife as (state1 & present & Hr & Hc). by exists state1, present. }
  destruct Hdisk as (state1 & present & Hrec & Hc & Hreceipt).
  destruct (journal_open_recoverable _ _ Hrec) as (j & Hopen & Hjat & _ & Hm). exists j. split; [done|]. split.
  - pose proof (ca_entry _ _ _ _ _ Hc) as Hentry.
    destruct answer as [[[[error|durability evidence|error]|]|e]|]; cbn [creation_true] in Hreceipt; try done.
    + destruct Hreceipt as [-> _]. done.
    + destruct Hreceipt as (identity & -> & Hd). exists identity. split; [done|]. intros Hdur. by rewrite Hm, (Hd Hdur).
  - intros s. pose proof (step_reconcile ctx x Hclean state1 present (set_script s (set_journal j w1)) (conj Hjat Hc)) as Hre.
    unfold runs in Hre. destruct (reconcile_workspace_effect ctx _) as [[[answer2|e]|] w2]; try done.
    destruct Hre as (state2 & present2 & [_ Hc2] & Ha). pose proof (ca_entry _ _ _ _ _ Hc2) as Hentry.
    destruct answer2; cbn [creation_answer] in Ha; try done; try (by subst present2).
    destruct Ha as [[identity ->] _]. by exists identity.
Qed.
