(* ===== verification/WorkspaceTheorems.v ===== *)
(** The crash truth of file effects (agent-workspace/lib.rs and journal.rs): over every
    history of [WorkspaceHistory], the receipts, and what reconciliation answers for the
    effect, are true of the files; and a commit overwrites no change it has not seen. *)

From stdpp Require Import gmap.
From S2P Require Import Prelude Text Digest Jcs Operation Journal Wal Intent OutputBroker Capability Artifact.
From S2P Require Import WorkspaceJournal WorkspaceEffects WorkspaceHistory.

(** ** Calls under the invariant *)

Section calls.
Context `{WC : WorkspaceCodec} `{WL : !WorkspaceCodecLaws} `{UC : UuidCodec}.
Context (ctx : OperationEffectContext) (xs : list Write) (Hapart : apart xs).

(** A computation that owns some transactions started in [state0] and [st0]. *)
Context (owned : text -> Prop) (state0 : RecoveryState) (st0 : text -> Status).

Definition keeps (state : RecoveryState) (st : text -> Status) : Prop :=
  forall tx_id, ~ owned tx_id ->
    rs_transactions state !! tx_id = rs_transactions state0 !! tx_id /\ st tx_id = st0 tx_id.

(** The process lives, and the world is as [state] and [st] say. *)
Definition lives (state : RecoveryState) (st : text -> Status) (w : World) : Prop :=
  journal_at state (wd_journal w) /\ consistent ctx xs state st (wd_files w) /\ keeps state st.

(** The process died, and what it left is as some [state] and [st] say. *)
Definition died (w : World) : Prop :=
  exists state st, recoverable (wr_file (wd_journal w)) state /\ consistent ctx xs state st (wd_files w) /\ keeps state st.

Lemma lives_died state st w : lives state st w -> died w.
Proof. intros ([Hr _] & Hc & Hk). by exists state, st. Qed.

Lemma lives_same state st w w' : same_disk w w' -> lives state st w -> lives state st w'.
Proof. intros [Hf Hj] (Hr & Hc & Hk). unfold lives. rewrite Hf, Hj. done. Qed.

Abbreviation run m Q := (runs m Q died).

Lemma run_mono {E A} (m : IO E A) (Q Q' : result A E -> World -> Prop) w :
  run m Q w -> (forall r w, Q r w -> Q' r w) -> run m Q' w.
Proof. apply runs_mono. Qed.

Lemma run_ret {E A} (a : A) (Q : result A E -> World -> Prop) w : Q (Ok a) w -> run (io_ret a) Q w.
Proof. done. Qed.

Lemma run_fail {E A} (e : E) (Q : result A E -> World -> Prop) w : Q (Err e) w -> run (io_fail e) Q w.
Proof. done. Qed.

(** A computation that only looks. *)
Lemma run_reads {E A} (m : IO E A) P (Q : result A E -> World -> Prop) state st w :
  reads m (wd_files w) P -> lives state st w ->
  (forall r w', lives state st w' -> wd_files w' = wd_files w -> P r -> Q r w') ->
  run m Q w.
Proof.
  intros Hm Hl Hq. specialize (Hm w eq_refl). unfold runs in *. destruct (m w) as [[r|] w'].
  - destruct Hm as [Hs Hp]. apply Hq; [by eapply lives_same|by apply Hs|done].
  - eapply lives_died, lives_same; done.
Qed.

(** A call that may change the files. *)
Lemma run_call {A} (does : World -> result A text * World) leaves (Q : result A text -> World -> Prop) w :
  died w ->
  (forall w1, same_disk w w1 -> Q (does w1).1 (does w1).2) ->
  (forall n e w1, same_disk w w1 -> Q (Err e) (leaves n w1)) ->
  (forall n w1, same_disk w w1 -> died (leaves n w1)) ->
  run (call does leaves) Q w.
Proof.
  intros Hd Hdoes Hbad Hdies. unfold runs, call. destruct (wd_script w) as [|[|n e|n] s]; [done| | |].
  - specialize (Hdoes (set_script s w)). destruct (does (set_script s w)) as [r w']. by apply Hdoes.
  - by apply Hbad.
  - by apply Hdies.
Qed.

Lemma same_disk_refl w : same_disk w w.
Proof. done. Qed.

(** The record of [x] is prepared, without an end. *)
Definition open_record (state : RecoveryState) (x : Write) : Prop :=
  write_record state x = Some (planned ctx x None).

Lemma open_record_ok state x s : open_record state x -> record_ok ctx state x s.
Proof. unfold open_record, record_ok. intros ->. done. Qed.

Section write.
Context (x : Write) (Hx : x ∈ xs) (Howned : owned (wt_tx_id x)).
Notation id := (wt_tx_id x).
Notation stage := (staging_name (wt_tx_id x)).

Lemma keeps_set state st s : keeps state st -> keeps state (set_status id s st).
Proof.
  intros Hk tx_id Hn. destruct (Hk tx_id Hn) as [H1 H2]. split; [done|].
  rewrite set_status_ne; [done|]. intros ->. done.
Qed.

Lemma lives_evolves state st w w' s :
  lives state st w -> wd_journal w' = wd_journal w ->
  evolves x (wd_files w) (wd_files w') -> file_ok (wd_files w') x s -> record_ok ctx state x s ->
  lives state (set_status id s st) w'.
Proof.
  intros (Hj & Hc & Hk) Hw Hev Hf Hr. split; [by rewrite Hw|]. split; [|by apply keeps_set].
  by eapply consistent_evolves.
Qed.

Lemma lives_file state st w : lives state st w -> file_ok (wd_files w) x (st id).
Proof. intros (_ & Hc & _). by apply (cs_files _ _ _ _ _ Hc). Qed.

Lemma lives_inodes state st w : lives state st w -> inodes_known (wd_files w).
Proof. intros (_ & Hc & _). by apply (cs_inodes _ _ _ _ _ Hc). Qed.

Lemma own_apart : target_path x <> stage_path x.
Proof. by apply (ap_stages xs Hapart). Qed.

Lemma run_create (Q : result N text -> World -> Prop) state st w :
  lives state st w -> st id = Untouched -> open_record state x ->
  (forall inode w', lives state (set_status id (Staged inode []) st) w' -> Q (Ok inode) w') ->
  (forall e w', lives state st w' -> Q (Err e) w') ->
  run (create_new_file (wt_parent x) stage) Q w.
Proof.
  intros Hl Hs Ho Hok Herr. apply run_call; [by eapply lives_died| | |].
  - intros w1 Hw1. pose proof (lives_same _ _ _ _ Hw1 Hl) as Hl1.
    pose proof (lives_file _ _ _ Hl1) as Hf. rewrite Hs in Hf. pose proof Hf as [_ Hgone].
    unfold stage_gone, stage_path in Hgone. unfold entry_of. rewrite Hgone. cbn [fst snd]. apply Hok.
    destruct (created_step x (wd_files w1) (lives_inodes _ _ _ Hl1) own_apart Hf) as [Hev Hf'].
    eapply lives_evolves; [exact Hl1|done|exact Hev|exact Hf'|by apply open_record_ok].
  - intros n e w1 Hw1. apply Herr. by eapply lives_same.
  - intros n w1 Hw1. by eapply lives_died, lives_same.
Qed.

Lemma run_write (Q : result unit text -> World -> Prop) state st w inode content0 content :
  lives state st w -> st id = Staged inode content0 -> open_record state x ->
  (forall r content' w', lives state (set_status id (Staged inode content') st) w' ->
     (r = Ok tt -> content' = content) -> Q r w') ->
  run (write_file inode content) Q w.
Proof.
  intros Hl Hs Ho HQ.
  assert (Hgen : forall w1 content', same_disk w w1 ->
    lives state (set_status id (Staged inode content') st) (set_files (with_data inode content' (wd_files w1)) w1)).
  { intros w1 content' Hw1. pose proof (lives_same _ _ _ _ Hw1 Hl) as Hl1.
    pose proof (lives_file _ _ _ Hl1) as Hf. rewrite Hs in Hf.
    destruct (written_step x (wd_files w1) (lives_inodes _ _ _ Hl1) own_apart inode _ content' Hf) as [Hev Hf'].
    eapply lives_evolves; [exact Hl1|done|exact Hev|exact Hf'|by apply open_record_ok]. }
  apply run_call; [by eapply lives_died| | |].
  - intros w1 Hw1. cbn [fst snd]. eapply HQ; [by apply Hgen|done].
  - intros n e w1 Hw1. eapply HQ; [by apply Hgen|done].
  - intros n w1 Hw1. by eapply lives_died, Hgen.
Qed.

(** The stage is still in its place, or already gone. *)
Definition staged_or_gone (st : text -> Status) (inode : N) : Prop :=
  st id = Untouched \/ exists content, st id = Staged inode content.

Lemma run_remove_stage (Q : result unit text -> World -> Prop) state st w inode :
  lives state st w -> staged_or_gone st inode -> open_record state x ->
  (forall w', lives state (set_status id Untouched st) w' -> Q (Ok tt) w') ->
  (forall e w', lives state st w' -> Q (Err e) w') ->
  run (remove_open_file (wt_parent x) inode stage) Q w.
Proof.
  intros Hl Hs Ho Hok Herr. unfold remove_open_file. apply runs_bind.
  eapply (run_reads _ (fun r => forall b, r = Ok b -> exists content, st id = Staged inode content)); [|exact Hl|].
  - apply reads_look; [|done]. intros b Hb. destruct Hs as [Hu|Hs]; [|done]. exfalso.
    pose proof (lives_file _ _ _ Hl) as Hf. rewrite Hu in Hf. destruct Hf as [_ Hgone].
    unfold stage_gone, stage_path in Hgone. unfold entry_of in Hb. by rewrite Hgone in Hb.
  - intros [matches|e] w1 Hl1 _ HP; [|by apply Herr]. destruct (HP matches eq_refl) as [content Hc].
    destruct matches; [|by apply run_fail, Herr].
    apply run_call; [by eapply lives_died| | |].
    + intros w2 Hw2. cbn [fst snd]. apply Hok. pose proof (lives_same _ _ _ _ Hw2 Hl1) as Hl2.
      pose proof (lives_file _ _ _ Hl2) as Hf. rewrite Hc in Hf.
      destruct (unstaged_step x (wd_files w2) (lives_inodes _ _ _ Hl2) own_apart inode _ Hf) as [Hev Hf'].
      eapply lives_evolves; [exact Hl2|done|exact Hev|exact Hf'|by apply open_record_ok].
    + intros n e w2 Hw2. apply Herr. by eapply lives_same.
    + intros n w2 Hw2. by eapply lives_died, lives_same.
Qed.

Lemma run_replace (Q : result unit text -> World -> Prop) state st w inode :
  lives state st w -> st id = Staged inode (wt_after x) -> open_record state x ->
  (forall w', lives state (set_status id Landed st) w' -> Q (Ok tt) w') ->
  (forall e w', lives state st w' -> Q (Err e) w') ->
  run (replace_file (wt_parent x) inode stage (wt_name x)) Q w.
Proof.
  intros Hl Hs Ho Hok Herr. unfold replace_file. apply runs_bind.
  eapply (run_reads _ (fun _ => True)); [|exact Hl|].
  { by apply reads_look. }
  intros [matches|e] w1 Hl1 _ _; [|by apply Herr]. destruct matches; [|by apply run_fail, Herr].
  apply run_call; [by eapply lives_died| | |].
  - intros w2 Hw2. pose proof (lives_same _ _ _ _ Hw2 Hl1) as Hl2.
    pose proof (lives_file _ _ _ Hl2) as Hf. rewrite Hs in Hf. pose proof Hf as (Ht & Hst & _ & _).
    unfold rename, entry_of. unfold stage_path in Hst. rewrite Hst.
    destruct (renamed_step x (wd_files w2) (lives_inodes _ _ _ Hl2) own_apart inode Hf) as [Hev Hf'].
    assert (Hne : stage <> wt_name x) by (intros He; apply own_apart; unfold target_path, stage_path; by rewrite He).
    assert (Hgo : Q (Ok tt) (set_files (renamed x inode (wd_files w2)) w2)).
    { apply Hok. eapply lives_evolves; [exact Hl2|done|exact Hev|exact Hf'|by apply open_record_ok]. }
    unfold target_is, target_path in Ht.
    destruct (fs_entries (wd_files w2) !! (wt_parent x ++ [wt_name x])) as [[other|identity]|];
      [|exfalso; destruct (wt_before x); naive_solver|]; rewrite decide_False by done; exact Hgo.
  - intros n e w2 Hw2. apply Herr. by eapply lives_same.
  - intros n w2 Hw2. by eapply lives_died, lives_same.
Qed.

(** *** Appends *)

Lemma journal_next_inv t state state' :
  journal_next t state = Some state' ->
  validate_fold state t = Ok tt /\
  exists state1, apply_transition JOURNAL_VERSION t state = Ok state1 /\ rs_transactions state' = rs_transactions state1.
Proof.
  unfold journal_next, replay_entry, rbind, map_err. intros H. cbn [jr_version jr_seq jr_transition] in H.
  repeat (case_match; simplify_eq); repeat match goal with a : () |- _ => destruct a end.
  split; [done|]. by eexists.
Qed.

(** [t] gives [x] the record [e]. *)
Definition records (t : JournalTransition) (state : RecoveryState) (e : TxEvidence) : Prop :=
  forall state', journal_next t state = Some state' -> rs_transactions state' = <[id := e]> (rs_transactions state).

Lemma prepared_records state : records (JPrepared id (plan ctx x)) state (planned ctx x None).
Proof. intros state' (_ & state1 & [= <-] & ->)%journal_next_inv. done. Qed.

Lemma rolled_back_records state : open_record state x -> records (JRolledBack id) state (planned ctx x (Some TxRolledBack)).
Proof.
  unfold open_record, write_record. intros Ho state' (_ & state1 & Ha & ->)%journal_next_inv.
  cbn in Ha. unfold end_transaction in Ha. rewrite Ho in Ha. by injection Ha as <-.
Qed.

Lemma committed_records state :
  open_record state x -> records (JCommitted id None) state (planned ctx x (Some (TxCommitted None))).
Proof.
  unfold open_record, write_record. intros Ho state' (_ & state1 & Ha & ->)%journal_next_inv.
  cbn in Ha. unfold end_transaction in Ha. rewrite Ho in Ha. by injection Ha as <-.
Qed.

(** No other record changed. *)
Definition elsewhere (state state' : RecoveryState) : Prop :=
  forall tx_id, tx_id <> id -> rs_transactions state' !! tx_id = rs_transactions state !! tx_id.

Lemma run_append t e (Q : result unit AgentError -> World -> Prop) state st w :
  lives state st w -> records t state e ->
  (forall state', write_record state' x = Some e -> record_ok ctx state' x (st id)) ->
  (forall state' w', lives state' st w' -> write_record state' x = Some e -> elsewhere state state' -> Q (Ok tt) w') ->
  (forall error state' w', lives state' st w' -> Q (Err error) w') ->
  run (append t) Q w.
Proof.
  intros Hl Ht He Hok Herr. unfold runs, append. destruct (wd_script w) as [|i s]; [by eapply lives_died|].
  destruct (journal_append (outcome_of i) t (wd_journal w)) as [answer j] eqn:Ea.
  destruct Hl as (Hj & Hc & Hk). destruct (journal_append_spec _ _ _ _ _ _ Hj Ea) as (state' & Hin & Hr & Hat & Hack).
  assert (Hrec : journal_next t state = Some state' -> write_record state' x = Some e).
  { intros Hn. unfold write_record. rewrite (Ht _ Hn). by rewrite lookup_insert_eq. }
  assert (consistent ctx xs state' st (wd_files w) /\ keeps state' st) as [Hc' Hk'].
  { destruct Hin as [->|Hn]; [done|]. split.
    - eapply consistent_records; [exact Hapart|exact Hx|exact Hc|by apply Ht|by apply He, Hrec].
    - intros tx_id Hnot. rewrite (Ht _ Hn). rewrite lookup_insert_ne by (intros <-; done). by apply Hk. }
  assert (Hlives : journal_at state' j -> lives state' st (set_journal j (set_script s w))) by (intros; split_and!; done).
  destruct answer as [[[]|error]|].
  - apply (Hok state'); [by apply Hlives, Hat|by apply Hrec, Hack|].
    intros tx_id Hne. rewrite (Ht _ (Hack eq_refl)). by rewrite lookup_insert_ne.
  - apply (Herr error state'). by apply Hlives, Hat.
  - exists state', st. done.
Qed.

Lemma run_rolled_back (Q : result unit AgentError -> World -> Prop) state st w :
  lives state st w -> open_record state x -> st id = Untouched ->
  (forall state' w', lives state' st w' -> write_record state' x = Some (planned ctx x (Some TxRolledBack)) ->
     elsewhere state state' -> Q (Ok tt) w') ->
  (forall error state' w', lives state' st w' -> Q (Err error) w') ->
  run (append_rolled_back id) Q w.
Proof.
  intros Hl Ho Hs. apply (run_append _ (planned ctx x (Some TxRolledBack)) _ state); [done|by apply rolled_back_records|].
  intros state' Hr. unfold record_ok. rewrite Hr. done.
Qed.

Lemma run_record_change c (Q : result unit AgentError -> World -> Prop) state st w :
  lives state st w -> (forall r w', lives state st w' -> Q r w') -> run (record_change c) Q w.
Proof.
  intros Hl HQ. unfold record_change. apply runs_map_err. apply run_call; [by eapply lives_died| | |].
  - intros w1 Hw1. apply HQ. by eapply lives_same; [exact Hw1|].
  - intros n e w1 Hw1. apply HQ. by eapply lives_same.
  - intros n w1 Hw1. by eapply lives_died, lives_same.
Qed.

Lemma run_sync (Q : result unit text -> World -> Prop) state st w :
  lives state st w -> (forall r w', lives state st w' -> Q r w') -> run sync_dir Q w.
Proof.
  intros Hl HQ. eapply (run_reads _ (fun _ => True)); [|exact Hl|auto].
  by apply reads_look.
Qed.

(** *** Preparing *)

(** The snapshot of [begin_mutation], taken before the write is touched. *)
Record begun_as (t : MutationTransaction) : Prop := {
  ba_parent : mt_parent t = wt_parent x;
  ba_name : mt_target_name t = wt_name x;
  ba_tx_id : mt_tx_id t = id;
  ba_bytes : mt_bytes_before t = N.of_nat (length (default [] (wt_before x)));
  ba_existed : mt_target_existed t = bool_decide (is_Some (wt_before x));
  ba_revision : mt_before_revision t = content_sha256 <$> wt_before x;
}.

Lemma begin_reads fs :
  file_ok fs x Untouched ->
  reads (begin_mutation (wt_parent x) (wt_name x) (wt_tool x) (wt_action x) id) fs
    (fun r => forall t, r = Ok t -> begun_as t).
Proof.
  intros [Ht _]. unfold begin_mutation. apply reads_bind, reads_map_err, reads_look; [|done]. cbn [map_err].
  unfold entry_of. unfold target_is, target_path in Ht.
  destruct (wt_before x) as [b|] eqn:Eb.
  - destruct Ht as (inode & -> & Hd). apply reads_bind, reads_map_err, reads_look; [|done]. cbn [map_err].
    rewrite Hd. destruct (_ <? _)%N; [by apply reads_fail|]. apply reads_ret. intros t [= <-].
    by split; rewrite ?Eb.
  - rewrite Ht. apply reads_ret. intros t [= <-]. by split; rewrite ?Eb.
Qed.

Lemma prepared_plan t : begun_as t -> prepared_of t (wt_after x) ctx = plan ctx x.
Proof.
  intros [H1 H2 H3 H4 H5 H6]. unfold prepared_of, plan. rewrite H1, H2, H3, H4, H5, H6.
  by destruct (wt_before x).
Qed.

Lemma run_cleanup {E} (Q : result bool E -> World -> Prop) state st w inode :
  lives state st w -> staged_or_gone st inode -> open_record state x ->
  (forall cleaned st' w', lives state st' w' -> staged_or_gone st' inode ->
     (cleaned = true -> st' id = Untouched) -> Q (Ok cleaned) w') ->
  run (cleanup_staged_file (wt_parent x) stage (Some inode)) Q w.
Proof.
  intros Hl Hs Ho HQ. unfold cleanup_staged_file. apply runs_bind, runs_catch.
  eapply run_remove_stage; [exact Hl|exact Hs|exact Ho| |].
  - intros w1 Hl1. apply runs_bind, runs_catch. eapply run_sync; [exact Hl1|]. intros r w2 Hl2.
    apply run_ret. eapply HQ; [exact Hl2|left; by rewrite set_status_eq|]. intros _. by rewrite set_status_eq.
  - intros e w1 Hl1. apply run_ret. eapply HQ; [exact Hl1|exact Hs|done].
Qed.

(** What a preparation hands out. *)
Record handle_ok (m : PreparedMutation) (inode : N) : Prop := {
  hd_parent : pm_parent m = wt_parent x;
  hd_name : pm_target_name m = wt_name x;
  hd_tx_id : pm_tx_id m = id;
  hd_temp_name : pm_temp_name m = Some stage;
  hd_temp_file : pm_temp_file m = Some inode;
  hd_context : pm_effect_context m = Some ctx;
  hd_finished : pm_finished m = false;
}.

Definition prepared_answer (r : AgentResult PreparedMutation) (state : RecoveryState) (st : text -> Status) : Prop :=
  forall m, r = Ok m -> exists inode, handle_ok m inode /\ st id = Staged inode (wt_after x) /\ open_record state x.

Definition prepared_post (r : AgentResult PreparedMutation) (w : World) : Prop :=
  exists state st, lives state st w /\ prepared_answer r state st.

Lemma prepared_error error state st w : lives state st w -> prepared_post (Err error) w.
Proof. intros Hl. by exists state, st. Qed.

Lemma run_close_intent detail error state st w :
  lives state st w -> open_record state x -> st id = Untouched ->
  run (close_intent (Some ctx) id detail error) prepared_post w.
Proof.
  intros Hl Ho Hs. unfold close_intent. apply runs_bind, runs_catch.
  eapply run_rolled_back; [exact Hl|exact Ho|exact Hs| |].
  - intros state' w1 Hl1 _ _. apply run_fail. by eapply prepared_error.
  - intros e state' w1 Hl1. apply run_fail. by eapply prepared_error.
Qed.

Lemma run_abandon t detail error state st w inode :
  begun_as t -> lives state st w -> staged_or_gone st inode -> open_record state x ->
  run (abandon_stage t inode (Some ctx) detail error) prepared_post w.
Proof.
  intros Hb Hl Hs Ho. unfold abandon_stage. rewrite (ba_parent _ Hb), (ba_tx_id _ Hb). apply runs_bind.
  eapply run_cleanup; [exact Hl|exact Hs|exact Ho|]. intros cleaned st1 w1 Hl1 Hs1 Hc. destruct cleaned.
  - eapply run_close_intent; [exact Hl1|exact Ho|by apply Hc].
  - apply runs_bind. eapply run_cleanup; [exact Hl1|exact Hs1|exact Ho|]. intros cleaned st2 w2 Hl2 _ _.
    apply run_fail. by eapply prepared_error.
Qed.

Lemma run_prepare state st w :
  lives state st w -> st id = Untouched ->
  run (begin_and_prepare ctx x) prepared_post w.
Proof.
  intros Hl Hs. unfold begin_and_prepare. apply runs_bind.
  pose proof (lives_file _ _ _ Hl) as Hf. rewrite Hs in Hf.
  eapply run_reads; [by apply begin_reads|exact Hl|]. intros [t|e] w1 Hl1 _ Hb; [|by eapply prepared_error].
  specialize (Hb t eq_refl). unfold prepare_with_effect_context.
  destruct (effect_context_validate ctx); [|by eapply run_fail, prepared_error].
  unfold prepare_inner. destruct (_ <? _)%N; [by eapply run_fail, prepared_error|].
  rewrite (ba_parent _ Hb), (ba_tx_id _ Hb). apply runs_bind.
  eapply (run_append _ (planned ctx x None)); [exact Hl1|rewrite (prepared_plan _ Hb); apply prepared_records| | |].
  { intros state' Hr. unfold record_ok. by rewrite Hr. }
  2: { intros error state' w2 Hl2. by eapply prepared_error. }
  intros state1 w2 Hl2 Ho _. apply runs_bind, runs_catch.
  eapply run_create; [exact Hl2|exact Hs|exact Ho| |].
  2: { intros e w3 Hl3. by eapply run_close_intent. }
  intros inode w3 Hl3. apply runs_bind, runs_catch.
  eapply run_write; [exact Hl3|by rewrite set_status_eq|exact Ho|].
  intros r content w4 Hl4 Hr. destruct r as [[]|e].
  2: { eapply run_abandon; [exact Hb|exact Hl4| |exact Ho]. right. exists content. by rewrite set_status_eq. }
  specialize (Hr eq_refl). subst content. apply runs_bind, runs_catch.
  eapply run_record_change; [exact Hl4|]. intros r w5 Hl5. destruct r as [[]|e].
  2: { eapply run_abandon; [exact Hb|exact Hl5| |exact Ho]. right. exists (wt_after x). by rewrite set_status_eq. }
  apply run_ret. eexists _, _. split; [exact Hl5|]. intros m [= <-]. exists inode.
  split; [|by rewrite set_status_eq]. split; cbn; by destruct Hb.
Qed.

(** *** Settling *)

Ltac looks :=
  repeat first
    [ apply reads_bind | apply reads_ret | apply reads_fail | apply reads_map_err
    | apply reads_look; [|intros ?] | case_match | exact I | intros ? ].

Lemma snapshot_reads m fs : reads (target_still_matches_snapshot m) fs (fun _ => True).
Proof. unfold target_still_matches_snapshot, open_existing, bounded_open_file_revision. looks. Qed.

Lemma holds_reads name m fs : reads (holds_staged name m) fs (fun _ => True).
Proof. unfold holds_staged, named_entry_matches_file, bounded_open_file_revision. looks. Qed.

(** A receipt tells the truth about the write. *)
Definition receipt_true (receipt : EffectReceipt) (state : RecoveryState) (st : text -> Status) : Prop :=
  match receipt with
  | ReceiptApplied durability _ =>
      st id = Landed /\
      (durability = Durable -> write_record state x = Some (planned ctx x (Some (TxCommitted None))))
  | ReceiptNotApplied _ => st id = Untouched /\ write_record state x = Some (planned ctx x (Some TxRolledBack))
  | ReceiptUnknown _ => True
  end.

(** What is left to drop: a settled mutation, or one whose stage may still be there. *)
Definition droppable (m : PreparedMutation) (inode : N) (state : RecoveryState) (st : text -> Status) : Prop :=
  pm_finished m = true \/ (handle_ok m inode /\ staged_or_gone st inode /\ open_record state x).

Definition receipt_post {E} (r : result EffectReceipt E) (w : World) : Prop :=
  exists state st, lives state st w /\ match r with Ok receipt => receipt_true receipt state st | Err _ => True end.

Definition settled_post {E} (inode : N) (r : result (EffectReceipt * PreparedMutation) E) (w : World) : Prop :=
  exists state st, lives state st w /\
    match r with
    | Ok (receipt, m) =>
        (pm_finished m = true /\ receipt_true receipt state st) \/
        (exists e, receipt = ReceiptUnknown e /\ droppable m inode state st)
    | Err _ => True
    end.

Lemma run_cleanup_staged {E} (Q : result (bool * PreparedMutation) E -> World -> Prop) state st w m inode :
  handle_ok m inode -> lives state st w -> staged_or_gone st inode -> open_record state x ->
  (forall m' st' w', lives state st' w' -> st' id = Untouched -> pm_tx_id m' = id -> pm_effect_context m' = Some ctx ->
     Q (Ok (true, m')) w') ->
  (forall st' w', lives state st' w' -> staged_or_gone st' inode -> Q (Ok (false, m)) w') ->
  run (cleanup_staged stage m) Q w.
Proof.
  intros Hm Hl Hs Ho Ht Hf. unfold cleanup_staged. rewrite (hd_parent _ _ Hm), (hd_temp_file _ _ Hm). apply runs_bind.
  eapply run_cleanup; [exact Hl|exact Hs|exact Ho|]. intros cleaned st1 w1 Hl1 Hs1 Hc. apply run_ret. destruct cleaned.
  - eapply Ht; [exact Hl1|by apply Hc|by destruct Hm|by destruct Hm].
  - by eapply Hf.
Qed.

Lemma run_record_rolled_back m reason (Q : result unit AgentError -> World -> Prop) state st w :
  pm_tx_id m = id -> pm_effect_context m = Some ctx ->
  lives state st w -> open_record state x -> st id = Untouched ->
  (forall state' w', lives state' st w' -> write_record state' x = Some (planned ctx x (Some TxRolledBack)) -> Q (Ok tt) w') ->
  (forall error state' w', lives state' st w' -> Q (Err error) w') ->
  run (record_rolled_back m reason) Q w.
Proof.
  intros Hi Hc Hl Ho Hs Hok Herr. unfold record_rolled_back. rewrite Hc, Hi. apply runs_bind.
  eapply run_rolled_back; [exact Hl|exact Ho|exact Hs| |].
  - intros state' w1 Hl1 Hr _. eapply run_record_change; [exact Hl1|]. intros [[]|e] w2 Hl2; [by eapply Hok|by eapply Herr].
  - intros e state' w1 Hl1. by eapply Herr.
Qed.

Lemma run_settle {E} state st w m inode reason :
  handle_ok m inode -> lives state st w -> staged_or_gone st inode -> open_record state x ->
  run (settle_not_applied (E := E) stage reason m) (settled_post inode) w.
Proof.
  intros Hm Hl Hs Ho. unfold settle_not_applied. apply runs_bind.
  eapply run_cleanup_staged; [exact Hm|exact Hl|exact Hs|exact Ho| |].
  - intros m1 st1 w1 Hl1 Hu Hid Hctx. apply runs_bind, runs_catch.
    eapply run_record_rolled_back; [exact Hid|exact Hctx|exact Hl1|exact Ho|exact Hu| |].
    + intros state2 w2 Hl2 Hr. apply run_ret. eexists _, _. split; [exact Hl2|]. left. done.
    + intros e state2 w2 Hl2. apply run_ret. eexists _, _. split; [exact Hl2|]. left. done.
  - intros st1 w1 Hl1 Hs1. apply run_ret. eexists _, _. split; [exact Hl1|]. right. eexists. split; [done|]. by right.
Qed.

Lemma run_acknowledge {E} state st w m inode (Q : result EffectReceipt E -> World -> Prop) :
  pm_tx_id m = id -> pm_effect_context m = Some ctx -> pm_temp_file m = Some inode ->
  lives state st w -> st id = Landed -> open_record state x ->
  (forall receipt state' w', lives state' st w' -> receipt_true receipt state' st -> Q (Ok receipt) w') ->
  run (acknowledge m) Q w.
Proof.
  intros Hid Hctx Hfile Hl Hs Ho HQ. unfold acknowledge.
  assert (Hnot : forall error state' w', lives state' st w' -> Q (Ok (not_durable error m)) w').
  { intros error state' w' Hl'. eapply HQ; [exact Hl'|]. split; [done|]. intros Hx'. discriminate Hx'. }
  assert (Hunknown : forall error state' w', lives state' st w' -> Q (Ok (ReceiptUnknown error)) w').
  { intros error state' w' Hl'. by eapply HQ. }
  apply runs_bind, runs_catch. eapply run_reads; [apply holds_reads|exact Hl|].
  intros [[]|e] w1 Hl1 _ _; [|by eapply run_ret, Hunknown|by eapply run_ret, Hunknown].
  apply runs_bind, runs_catch. eapply run_sync; [exact Hl1|]. intros [[]|e] w2 Hl2; [|by eapply run_ret, Hnot].
  rewrite Hctx, Hid. apply runs_bind, runs_catch.
  eapply (run_append _ (planned ctx x (Some (TxCommitted None)))); [exact Hl2|by apply committed_records| | |].
  { intros state' Hr. unfold record_ok. by rewrite Hr. }
  2: { intros error state' w3 Hl3. by eapply run_ret, Hnot. }
  intros state3 w3 Hl3 Hr _. apply runs_bind, runs_catch. eapply run_record_change; [exact Hl3|].
  intros [[]|e] w4 Hl4; [|by eapply run_ret, Hnot].
  apply runs_bind, runs_catch. eapply run_reads; [apply holds_reads|exact Hl4|].
  intros [[]|e] w5 Hl5 _ _; apply run_ret; [|by eapply Hnot|by eapply Hnot].
  eapply HQ; [exact Hl5|]. done.
Qed.

Lemma run_commit_body {E} state st w m inode :
  handle_ok m inode -> lives state st w -> st id = Staged inode (wt_after x) -> open_record state x ->
  run (commit_body (E := E) m) (settled_post inode) w.
Proof.
  intros Hm Hl Hs Ho. unfold commit_body. rewrite (hd_temp_name _ _ Hm).
  assert (Hsg : staged_or_gone st inode) by (right; by eexists).
  apply runs_bind, runs_catch. eapply run_reads; [apply snapshot_reads|exact Hl|].
  intros [[]|e] w1 Hl1 _ _; [|by eapply run_settle|by eapply run_settle].
  apply runs_bind, runs_catch. eapply run_reads; [apply holds_reads|exact Hl1|].
  intros [[]|e] w2 Hl2 _ _; [|by eapply run_settle|by eapply run_settle].
  rewrite (hd_parent _ _ Hm), (hd_name _ _ Hm), (hd_temp_file _ _ Hm). cbn [from_option].
  apply runs_bind, runs_catch. eapply run_replace; [exact Hl2|exact Hs|exact Ho| |].
  2: { intros e w3 Hl3. by eapply run_settle. }
  intros w3 Hl3. apply runs_bind.
  eapply run_acknowledge; [exact (hd_tx_id _ _ Hm)|exact (hd_context _ _ Hm)|exact (hd_temp_file _ _ Hm)|exact Hl3|by rewrite set_status_eq|exact Ho|].
  intros receipt state4 w4 Hl4 Hr. apply run_ret. eexists _, _. split; [exact Hl4|]. left. done.
Qed.

Lemma run_drop {E} state st w m inode (Q : result unit E -> World -> Prop) :
  droppable m inode state st -> lives state st w ->
  (forall r st' w', lives state st' w' -> (pm_finished m = true -> st' = st) -> Q r w') ->
  run (drop_mutation m) Q w.
Proof.
  intros Hd Hl HQ. unfold drop_mutation. destruct Hd as [Hd|(Hm & Hs & Ho)].
  - rewrite Hd. by apply run_ret, (HQ _ st).
  - rewrite (hd_finished _ _ Hm), (hd_temp_name _ _ Hm). apply runs_bind.
    eapply run_cleanup_staged; [exact Hm|exact Hl|exact Hs|exact Ho| |]; intros; apply run_ret;
      (eapply HQ; [done|]); rewrite (hd_finished _ _ Hm); done.
Qed.

Lemma run_commit {E} state st w m inode :
  handle_ok m inode -> lives state st w -> st id = Staged inode (wt_after x) -> open_record state x ->
  run (mutation_commit (E := E) m) receipt_post w.
Proof.
  intros Hm Hl Hs Ho. unfold mutation_commit. apply runs_bind. eapply run_mono; [by eapply run_commit_body|].
  intros r w1 (state1 & st1 & Hl1 & Hr). destruct r as [[receipt m1]|e]; [|by exists state1, st1].
  apply runs_bind. destruct Hr as [[Hfin Hr]|(e & -> & Hd)].
  - eapply (run_drop _ _ _ _ inode); [by left|exact Hl1|]. intros r2 st2 w2 Hl2 Heq. rewrite (Heq Hfin) in Hl2.
    destruct r2; exists state1, st1; done.
  - eapply run_drop; [exact Hd|exact Hl1|]. intros r2 st2 w2 Hl2 _. destruct r2; exists state1, st2; done.
Qed.

Definition rollback_post (r : AgentResult unit) (w : World) : Prop :=
  exists state st, lives state st w /\
    (r = Ok tt -> st id = Untouched /\ write_record state x = Some (planned ctx x (Some TxRolledBack))).

Lemma run_rollback state st w m inode reason :
  handle_ok m inode -> lives state st w -> staged_or_gone st inode -> open_record state x ->
  run (mutation_rollback m reason) rollback_post w.
Proof.
  intros Hm Hl Hs Ho. unfold mutation_rollback, rollback_body. rewrite (hd_temp_name _ _ Hm). do 2 apply runs_bind.
  eapply run_cleanup_staged; [exact Hm|exact Hl|exact Hs|exact Ho| |].
  - intros m1 st1 w1 Hl1 Hu Hid Hctx. cbn [negb]. apply runs_bind, runs_catch.
    eapply run_record_rolled_back; [exact Hid|exact Hctx|exact Hl1|exact Ho|exact Hu| |].
    + intros state2 w2 Hl2 Hr. apply run_ret. apply runs_bind.
      eapply (run_drop _ _ _ _ inode); [by left|exact Hl2|]. intros r3 st3 w3 Hl3 Heq. rewrite (Heq eq_refl) in Hl3.
      destruct r3; cbn [map_err]; exists state2, st1; done.
    + intros e state2 w2 Hl2. apply run_ret. apply runs_bind.
      eapply (run_drop _ _ _ _ inode); [by left|exact Hl2|]. intros r3 st3 w3 Hl3 Heq.
      destruct r3; cbn [map_err]; exists state2, st3; split; try done; intros Hx'; discriminate Hx'.
  - intros st1 w1 Hl1 Hs1. cbn [negb]. apply run_ret. apply runs_bind.
    eapply run_drop; [right; done|exact Hl1|]. intros r2 st2 w2 Hl2 _.
    destruct r2; exists state, st2; split; try done; intros Hx'; discriminate Hx'.
Qed.

End write.

(** *** Reconciling *)

Lemma lives_cs state st w : lives state st w -> consistent ctx xs state st (wd_files w).
Proof. by intros (_ & Hc & _). Qed.

(** What inspection says is so. *)
Definition current_is (fs : Files) (x : Write) (current : CurrentTarget) : Prop :=
  match current with
  | TargetMissing => fs_entries fs !! target_path x = None
  | TargetFile size hash =>
      exists b, target_is fs x (Some b) /\ size = N.of_nat (length b) /\ hash = digest_display (content_sha256 b)
  | TargetDirectory _ => False
  end.

Lemma hash_reads inode algorithm budget fs :
  reads (hash_reader_bounded inode algorithm budget) fs
    (fun r => forall size hash left, r = Ok (size, hash, left) ->
       size = N.of_nat (length (data_of inode fs)) /\
       hash = match algorithm with LegacyFnv64 => content_hash (data_of inode fs)
              | HashSha256 => digest_display (content_sha256 (data_of inode fs)) end).
Proof.
  unfold hash_reader_bounded. apply reads_bind, reads_map_err, reads_look; [|done]. cbn [map_err].
  destruct (_ <? _)%N; [by apply reads_fail|]. destruct (_ <=? _)%N; [by apply reads_fail|].
  apply reads_ret. by intros size hash left [= <- <- <-].
Qed.

Lemma planned_algorithm x terminal : recovery_hash_for (planned ctx x terminal) = HashSha256.
Proof. done. Qed.

Lemma inspect_reads x terminal budget state st w :
  x ∈ xs -> lives state st w ->
  reads (inspect_target (planned ctx x terminal) budget) (wd_files w)
    (fun r => forall current left, r = Ok (current, left) -> current_is (wd_files w) x current).
Proof.
  intros Hx Hl%lives_cs. unfold inspect_target. cbn [planned te_prepared plan pr_relative_target pr_entry_kind].
  rewrite (target_parts_clean (wt_parent x)) by (by apply (ap_clean _ Hapart)). apply reads_bind, reads_lift. cbn [fst snd].
  apply reads_bind, reads_map_err. eapply reads_mono; [apply descend_reads; by apply (cs_parents _ _ _ _ _ Hl)|].
  intros [o|e] Ho; cbn [map_err]; [|done]. rewrite (Ho o eq_refl). cbn [app].
  rewrite decide_False by done. apply reads_bind, reads_map_err. unfold open_regular. apply reads_look; [|done].
  unfold entry_of. fold (target_path x). destruct (fs_entries (wd_files w) !! target_path x) as [[inode|identity]|] eqn:Et.
  - cbn [map_err]. apply reads_bind, reads_map_err. unfold named_entry_matches_file. apply reads_look; [|done].
    unfold entry_of. fold (target_path x). rewrite Et. cbn [map_err]. rewrite bool_decide_eq_true_2 by done. cbn [negb].
    apply reads_bind. eapply reads_mono; [apply hash_reads|]. intros [[[size hash] left]|e] Hh; [|done].
    destruct (Hh _ _ _ eq_refl) as [-> ->]. rewrite planned_algorithm.
    apply reads_bind, reads_map_err, reads_look; [|done]. unfold entry_of. fold (target_path x). rewrite Et. cbn [map_err].
    rewrite bool_decide_eq_true_2 by done. cbn [negb]. apply reads_ret. intros current left' [= <- <-].
    exists (data_of inode (wd_files w)). split; [by exists inode|done].
  - cbn. done.
  - cbn [map_err]. apply reads_ret. by intros current left [= <- <-].
Qed.

(** The write is as it was before, seen from its target alone. *)
Definition unlanded (x : Write) (s : Status) : Prop := s = Landed -> wt_before x = Some (wt_after x).

Definition verdict_true (x : Write) (terminal : option TxTerminal) (s : Status) (v : Verdict) : Prop :=
  match v with
  | DidLand durably => s = Landed /\ (durably = true -> terminal = Some (TxCommitted None))
  | Settled => s = Untouched
  | DidNotLand => terminal = None /\ unlanded x s
  | Contradicts _ => True
  end.

Lemma same_display a b : digest_display (content_sha256 a) = digest_display (content_sha256 b) -> content_sha256 a = content_sha256 b.
Proof.
  intros H. pose proof (proj1 (digest_display_props _ (content_sha256_wf a))) as Ha.
  pose proof (proj1 (digest_display_props _ (content_sha256_wf b))) as Hb. rewrite H in Ha. congruence.
Qed.

Lemma target_is_fun fs x c c' : target_is fs x c -> target_is fs x c' -> c = c'.
Proof.
  destruct c as [b|], c' as [b'|]; unfold target_is; [|naive_solver..].
  intros (i & Hi & Hd) (i' & Hi' & Hd'). rewrite Hi in Hi'. injection Hi' as <-. by rewrite Hd in Hd'; subst.
Qed.

Lemma status_target fs x s : file_ok fs x s ->
  (s = Landed -> target_is fs x (Some (wt_after x))) /\ (s <> Landed -> target_is fs x (wt_before x)).
Proof. destruct s; cbn [file_ok]; intuition congruence. Qed.

Definition content_of (x : Write) (after : bool) : bytes := if after then wt_after x else default [] (wt_before x).

Lemma matches_planned x terminal b after :
  recorded_state_matches (planned ctx x terminal) (N.of_nat (length b)) (digest_display (content_sha256 b)) after = true <->
  content_sha256 b = content_sha256 (content_of x after) /\ length b = length (content_of x after).
Proof.
  unfold recorded_state_matches, planned, plan, content_of.
  cbn [te_prepared pr_after_hash pr_before_hash te_journal_version pr_bytes_after pr_bytes_before].
  change (JOURNAL_VERSION =? LEGACY_JOURNAL_VERSION)%N with false.
  destruct after; case_bool_decide as Hh; cbn [negb]; rewrite ?bool_decide_eq_true; split; try done.
  - intros [= Hn]. apply same_display in Hh. split; [done|lia].
  - intros [_ ->]. done.
  - intros [Hs _]. by rewrite Hs in Hh.
  - intros [= Hn]. apply same_display in Hh. split; [done|lia].
  - intros [_ ->]. done.
  - intros [Hs _]. by rewrite Hs in Hh.
Qed.

(** Prepared without an end: the content decides. *)
Lemma content_verdict x s fs b :
  x ∈ xs -> file_ok fs x s -> target_is fs x (Some b) ->
  let matches after := recorded_state_matches (planned ctx x None) (N.of_nat (length b)) (digest_display (content_sha256 b)) after in
  let is_before := bool_decide (is_Some (wt_before x)) && matches false in
  (matches true = true -> is_before = false -> s = Landed) /\ (is_before = true -> unlanded x s).
Proof.
  intros Hx [Hland Hnot]%status_target Hb. cbn zeta. split.
  - rewrite matches_planned. intros [Hs Hlen] Hfalse. destruct (decide (s = Landed)) as [|Hne]; [done|exfalso].
    pose proof (target_is_fun _ _ _ _ Hb (Hnot Hne)) as Hbefore. rewrite <- Hbefore in Hfalse. cbn in Hfalse.
    apply not_true_iff_false in Hfalse. apply Hfalse. apply matches_planned. unfold content_of. by rewrite <- Hbefore.
  - intros [Hex Hm]%andb_true_iff Hs. apply bool_decide_eq_true in Hex as [b0 Hb0].
    apply matches_planned in Hm as [Hsha Hlen]. unfold content_of in Hsha, Hlen. rewrite Hb0 in Hsha, Hlen |- *. cbn in Hsha, Hlen.
    pose proof (target_is_fun _ _ _ _ Hb (Hland Hs)) as [= ->].
    f_equal. by apply (ap_hashes _ Hapart x b0 Hx Hb0).
Qed.

Lemma prepared_verdict x s fs current :
  x ∈ xs -> file_ok fs x s -> current_is fs x current ->
  verdict_true x None s (file_verdict (wt_tx_id x) (planned ctx x None) current).
Proof.
  intros Hx Hf Hcur. unfold file_verdict. cbn [planned te_prepared te_terminal plan pr_target_existed].
  destruct current as [|size hash|identity]; cbn [current_is] in Hcur; [|destruct Hcur as (b & Hb & -> & ->)|done].
  - cbn [negb andb]. destruct (negb (bool_decide (is_Some (wt_before x)))); cbn [andb]; [|done]. split; [done|].
    intros Hs. exfalso. destruct (proj1 (status_target _ _ _ Hf) Hs) as (i & Hi & _). by rewrite Hi in Hcur.
  - destruct (content_verdict x s fs b Hx Hf Hb) as [H1 H2].
    destruct (recorded_state_matches _ _ _ true) eqn:Ea; cbn [andb];
      destruct (_ && recorded_state_matches _ _ _ false) eqn:Eb; cbn [negb]; try done;
      first [split; [done|by apply H2] | split; [by apply H1|done]].
Qed.

Lemma verdict_truth x e state st w current :
  x ∈ xs -> lives state st w -> write_record state x = Some e -> current_is (wd_files w) x current ->
  verdict_true x (te_terminal e) (st (wt_tx_id x)) (verdict (wt_tx_id x) e current).
Proof.
  intros Hx Hl%lives_cs Hrec Hcur. pose proof (cs_records _ _ _ _ _ Hl x Hx) as Hr.
  pose proof (cs_files _ _ _ _ _ Hl x Hx) as Hf.
  set (s := st (wt_tx_id x)) in *. clearbody s. unfold record_ok in Hr. rewrite Hrec in Hr. destruct Hr as [He Hr].
  unfold verdict. rewrite He. cbn [planned te_prepared plan pr_entry_kind]. rewrite decide_False by done.
  destruct (te_terminal e) as [[identity|]|].
  - destruct Hr as [-> ->]. by destruct current as [|size hash|]; [done|cbn; destruct (recorded_state_matches _ _ _ _)|done].
  - subst s. cbn. by destruct current; [destruct (negb _)|destruct (_ && _)|].
  - by apply (prepared_verdict x s (wd_files w)).
Qed.

(** *** The first pass *)

(** An entry is the record of a write. *)
Definition entry_ok (state : RecoveryState) (en : text * TxEvidence) : Prop :=
  exists x, x ∈ xs /\ en.1 = wt_tx_id x /\ write_record state x = Some en.2.

(** The entries, sorted by what became of them. *)
Definition tallied (st : text -> Status) (entries : list (text * TxEvidence)) (t t' : Tally) : Prop :=
  exists landed settled left,
    entries ≡ₚ landed ++ settled ++ left /\
    Forall (fun en => st en.1 = Landed) landed /\ Forall (fun en => st en.1 = Untouched) settled /\
    Forall (fun en => te_terminal en.2 = None /\ forall x, x ∈ xs -> en.1 = wt_tx_id x -> unlanded x (st en.1)) left /\
    tl_applied t' = tl_applied t + length landed /\ tl_not_applied t' = tl_not_applied t ++ left.

Lemma tallied_more st entries t t' en t1 :
  tallied st entries t1 t' ->
  (st en.1 = Landed /\ tl_applied t1 = S (tl_applied t) /\ tl_not_applied t1 = tl_not_applied t \/
   st en.1 = Untouched /\ tl_applied t1 = tl_applied t /\ tl_not_applied t1 = tl_not_applied t \/
   (te_terminal en.2 = None /\ forall x, x ∈ xs -> en.1 = wt_tx_id x -> unlanded x (st en.1)) /\
     tl_applied t1 = tl_applied t /\ tl_not_applied t1 = tl_not_applied t ++ [en]) ->
  tallied st (en :: entries) t t'.
Proof.
  intros (landed & settled & left & Hp & H1 & H2 & H3 & Ha & Hn) [(Hs & Ea & En)|[(Hs & Ea & En)|(Hs & Ea & En)]];
    rewrite Ea in Ha; rewrite En in Hn.
  - exists (en :: landed), settled, left. split_and!; [by rewrite Hp|by constructor|done|done|cbn; lia|done].
  - exists landed, (en :: settled), left. split_and!; [cbn; by rewrite Hp, <- Permutation_middle|done|by constructor|done|lia|done].
  - exists landed, settled, (en :: left). split_and!; [|done|done|by constructor|lia|by rewrite Hn, <- (assoc_L (++))].
    rewrite Hp, !(assoc_L (++)). by rewrite <- Permutation_middle.
Qed.

Lemma tally_reads entries t state st w :
  lives state st w -> Forall (entry_ok state) entries ->
  reads (tally entries t) (wd_files w) (fun r => forall t', r = Ok (Ok t') -> tallied st entries t t').
Proof.
  intros Hl He. revert t. induction He as [|[tx_id e] entries (x & Hx & Hid & Hr) He IH]; intros t; cbn [tally].
  - apply reads_ret. intros t' [= <-]. exists [], [], []. split_and!; try done; rewrite ?app_nil_r; cbn; first [done|lia].
  - cbn [fst snd] in Hid, Hr. subst tx_id.
    pose proof (cs_records _ _ _ _ _ (lives_cs _ _ _ Hl) x Hx) as Hok. unfold record_ok in Hok. rewrite Hr in Hok.
    destruct Hok as [Heq _]. apply reads_bind. rewrite Heq at 1.
    eapply reads_mono; [by eapply inspect_reads|]. intros [[current left]|error] Hcur; [|done].
    pose proof (verdict_truth x e state st w current Hx Hl Hr (Hcur _ _ eq_refl)) as Hv.
    destruct (verdict (wt_tx_id x) e current) as [durably| | |reason]; cbn [verdict_true] in Hv.
    + eapply reads_mono; [apply IH|]. intros r Ht t' Hr'. eapply tallied_more; [by apply Ht|]. left. cbn. by destruct Hv.
    + eapply reads_mono; [apply IH|]. intros r Ht t' Hr'. eapply tallied_more; [by apply Ht|]. right; left. done.
    + eapply reads_mono; [apply IH|]. intros r Ht t' Hr'. eapply tallied_more; [by apply Ht|]. right; right.
      split; [|done]. destruct Hv as [Hterm Hun]. split; [done|]. intros y Hy Hid'.
      cbn in Hid'. apply (ap_ids _ Hapart) in Hid' as ->; done.
    + apply reads_ret. by intros t'.
Qed.

(** *** The second pass *)

Section close.
Context (x : Write) (Hx : x ∈ xs) (Howned : owned (wt_tx_id x)).
Notation id := (wt_tx_id x).

Lemma evolves_refl fs : inodes_known fs -> evolves x fs fs.
Proof. intros Hk. split; try done. intros p inode Hi. right. exists p. auto. Qed.

Definition only (st st' : text -> Status) : Prop := forall tx_id, tx_id <> id -> st' tx_id = st tx_id.

Lemma only_set st s : only st (set_status id s st).
Proof. intros tx_id Hne. by apply set_status_ne. Qed.

Lemma lives_unlanded state st w :
  lives state st w -> unlanded x (st id) -> open_record state x ->
  exists st', lives state st' w /\ only st st' /\ st' id <> Landed.
Proof.
  intros Hl Hu Ho. destruct (decide (st id = Landed)) as [Hs|Hs]; [|by exists st].
  exists (set_status id Untouched st). split_and!; [|apply only_set|by rewrite set_status_eq].
  pose proof (lives_file x Hx _ _ _ Hl) as Hf. rewrite Hs in Hf.
  eapply lives_evolves; [exact Hx|exact Howned|exact Hl|done| | |by apply open_record_ok].
  - apply evolves_refl. by eapply lives_inodes.
  - cbn in *. by rewrite (Hu Hs).
Qed.

Lemma run_verified state st w budget (Q : result N text -> World -> Prop) :
  lives state st w -> st id <> Landed -> open_record state x ->
  (forall r st' w', lives state st' w' -> only st st' -> (forall left, r = Ok left -> st' id = Untouched) -> Q r w') ->
  run (remove_verified_staged_file (wt_parent x) id (planned ctx x None) budget) Q w.
Proof.
  intros Hl Hs Ho HQ. unfold remove_verified_staged_file. cbn [planned te_prepared plan pr_temp_name].
  assert (Herr : forall e w', lives state st w' -> Q (Err e) w') by (intros e w' Hl'; by eapply HQ).
  pose proof (lives_file x Hx _ _ _ Hl) as Hf.
  apply runs_bind, runs_map_err.
  eapply (run_reads _ (fun r => match r with
    | Ok None => st id = Untouched | Ok (Some inode) => staged_or_gone x st inode | Err _ => True end)); [|exact Hl|].
  { unfold open_regular. apply reads_look; [|done]. unfold entry_of.
    change (wt_parent x ++ [staging_name id]) with (stage_path x).
    destruct (st id) as [|inode content|] eqn:Es; [|destruct Hf as (_ & -> & _); right; by eexists|done].
    destruct Hf as [_ Hg]. unfold stage_gone in Hg. by rewrite Hg. }
  intros [[inode|]|e] w1 Hl1 _ Hr; cbn [map_err]; [|by eapply run_ret, HQ|by apply Herr].
  apply runs_bind, runs_map_err. eapply (run_reads _ (fun _ => True)); [by apply reads_look|exact Hl1|].
  intros [bound|e] w2 Hl2 _ _; cbn [map_err]; [|by apply Herr]. destruct (negb bound); [by apply run_fail, Herr|].
  apply runs_bind, runs_map_err. eapply run_reads; [apply hash_reads|exact Hl2|].
  intros [[[size hash] left]|e] w3 Hl3 _ _; cbn [map_err]; [|by apply Herr].
  destruct (negb _); [by apply run_fail, Herr|].
  apply runs_bind, runs_map_err. eapply (run_reads _ (fun _ => True)); [by apply reads_look|exact Hl3|].
  intros [rebound|e] w4 Hl4 _ _; cbn [map_err]; [|by apply Herr]. destruct (negb rebound); [by apply run_fail, Herr|].
  apply runs_bind, runs_map_err. eapply run_remove_stage; [exact Hx|exact Howned|exact Hl4|exact Hr|exact Ho| |].
  2: { intros e w5 Hl5. by apply Herr. }
  intros w5 Hl5. cbn [map_err]. apply runs_bind, runs_map_err. eapply run_sync; [exact Hl5|].
  intros [[]|e] w6 Hl6; cbn [map_err]; [apply run_ret|]; eapply HQ; first [exact Hl6|apply only_set|done|idtac].
  intros left' _. by rewrite set_status_eq.
Qed.

Lemma pinned_reads state st w terminal :
  lives state st w ->
  reads (pinned_parent (pr_relative_target (te_prepared (planned ctx x terminal)))) (wd_files w)
    (fun r => forall dir, r = Ok dir -> dir = wt_parent x).
Proof.
  intros Hl%lives_cs. unfold pinned_parent. cbn [planned te_prepared plan pr_relative_target].
  rewrite (target_parts_clean (wt_parent x)) by (by apply (ap_clean _ Hapart)). apply reads_bind, reads_lift. cbn [fst snd].
  apply reads_bind, reads_map_err. eapply reads_mono; [apply descend_reads; by apply (cs_parents _ _ _ _ _ Hl)|].
  intros [o|e] Ho; cbn [map_err]; [|done]. rewrite (Ho o eq_refl). apply reads_ret. by intros dir [= <-].
Qed.

End close.

(** Another set of transactions than those of [entries] is as it was. *)
Definition outside (ids : list text) (state state' : RecoveryState) (st st' : text -> Status) : Prop :=
  forall tx_id, tx_id ∉ ids -> st' tx_id = st tx_id /\ rs_transactions state' !! tx_id = rs_transactions state !! tx_id.

Definition to_close (state : RecoveryState) (st : text -> Status) (en : text * TxEvidence) : Prop :=
  exists x, x ∈ xs /\ owned (wt_tx_id x) /\ en = (wt_tx_id x, planned ctx x None) /\ open_record state x /\
    unlanded x (st (wt_tx_id x)).

Definition close_post (ids : list text) (state : RecoveryState) (st : text -> Status) (r : AgentResult (result unit text))
    (w : World) : Prop :=
  exists state' st', lives state' st' w /\
    (r = Ok (Ok tt) -> outside ids state state' st st' /\ forall tx_id, tx_id ∈ ids -> st' tx_id = Untouched).

Lemma close_error ids state st state' st' r w :
  lives state' st' w -> r <> Ok (Ok tt) -> close_post ids state st r w.
Proof. intros Hl Hr. by exists state', st'. Qed.

Lemma to_close_outside ids state state' st st' en :
  outside ids state state' st st' -> en.1 ∉ ids -> to_close state st en -> to_close state' st' en.
Proof.
  intros Ho Hn (x & Hx & Hown & -> & Hopen & Hun). destruct (Ho _ Hn) as [Hs Hr].
  exists x. unfold open_record, write_record in *. cbn [fst] in Hr, Hs. by rewrite Hr, Hs.
Qed.

Lemma run_close_unlanded entries budget state st w :
  lives state st w -> NoDup entries.*1 -> Forall (to_close state st) entries ->
  run (close_unlanded entries budget) (close_post entries.*1 state st) w.
Proof.
  intros Hl Hnd He. revert budget state st w Hl He. induction entries as [|en entries IH]; intros budget state st w Hl He.
  { apply run_ret. exists state, st. split; [done|]. intros _. split; [done|]. by intros tx_id ?%elem_of_nil. }
  apply Forall_cons in He as [(x & Hx & Hown & -> & Ho & Hun) He]. cbn [fmap list_fmap fst] in *.
  apply NoDup_cons in Hnd as [Hni Hnd]. cbn [close_unlanded].
  rewrite decide_True by done. apply runs_bind.
  destruct (lives_unlanded x Hx Hown _ _ _ Hl Hun Ho) as (st1 & Hl1 & Honly1 & Hne).
  apply runs_bind. eapply run_reads; [by eapply (pinned_reads x Hx _ _ _ None)|exact Hl1|].
  intros [dir|e] w2 Hl2 _ Hdir; [|by eapply close_error]. rewrite (Hdir dir eq_refl). apply runs_catch.
  eapply run_verified; [exact Hx|exact Hown|exact Hl2|exact Hne|exact Ho|].
  intros r st3 w3 Hl3 Honly3 Hr. destruct r as [left|reason]; [|apply run_ret; by eapply close_error].
  specialize (Hr left eq_refl). apply runs_bind, runs_catch.
  eapply run_rolled_back; [exact Hx|exact Hown|exact Hl3|exact Ho|exact Hr| |].
  2: { intros error state4 w4 Hl4. apply run_ret. by eapply close_error. }
  intros state4 w4 Hl4 Hrec Helse.
  assert (Hout : outside [wt_tx_id x] state state4 st st3).
  { intros tx_id Hn. rewrite list_elem_of_singleton in Hn. rewrite (Helse _ Hn).
    by rewrite (Honly3 _ Hn), (Honly1 _ Hn). }
  eapply run_mono; [apply IH; [done|exact Hl4|]|].
  - rewrite Forall_forall in He |- *. intros en Hen. eapply to_close_outside; [exact Hout| |by apply He].
    intros Heq%list_elem_of_singleton. apply Hni. rewrite <- Heq. by apply list_elem_of_fmap_2.
  - intros r w5 (state5 & st5 & Hl5 & Hpost). exists state5, st5. split; [done|]. intros Hr5.
    destruct (Hpost Hr5) as [Hout5 Hdone]. split.
    + intros tx_id [Hn1 Hn2]%not_elem_of_cons. destruct (Hout5 _ Hn2) as [-> ->].
      apply Hout. by intros ->%list_elem_of_singleton.
    + intros tx_id [->|Hin]%elem_of_cons; [|by apply Hdone].
      destruct (Hout5 _ Hni) as [-> _]. exact Hr.
Qed.

(** *** The answer *)

Definition as_before (fs : Files) (x : Write) : Prop := target_is fs x (wt_before x) /\ stage_gone fs x.
Definition as_after (fs : Files) (x : Write) : Prop := target_is fs x (Some (wt_after x)) /\ stage_gone fs x.

(** An answer is true of the files: where the effect is not managed or was not applied,
    every target is as before and no stage is left; where it was applied, some write
    landed, each target is as before or as after, without a stage, the writes the answer
    does not name are as before, and of a complete one all that it names landed. *)
Definition answer_true (answer : WorkspaceEffectRecovery) (fs : Files) : Prop :=
  match answer with
  | WNotManaged | WNotApplied _ => forall x, x ∈ xs -> as_before fs x
  | WApplied tx_ids complete =>
      (exists x, x ∈ xs /\ wt_tx_id x ∈ tx_ids /\ as_after fs x) /\
      forall x, x ∈ xs ->
        (as_before fs x \/ as_after fs x) /\ (wt_tx_id x ∉ tx_ids -> as_before fs x) /\
        (complete = true -> wt_tx_id x ∈ tx_ids -> as_after fs x)
  | WAmbiguous _ _ => True
  end.

Lemma consistent_before state st fs x :
  consistent ctx xs state st fs -> x ∈ xs -> st (wt_tx_id x) = Untouched -> as_before fs x.
Proof. intros Hc Hx Hs. pose proof (cs_files _ _ _ _ _ Hc x Hx) as Hf. by rewrite Hs in Hf. Qed.

Lemma consistent_after state st fs x :
  consistent ctx xs state st fs -> x ∈ xs -> st (wt_tx_id x) = Landed -> as_after fs x.
Proof. intros Hc Hx Hs. pose proof (cs_files _ _ _ _ _ Hc x Hx) as Hf. by rewrite Hs in Hf. Qed.

Lemma unrecorded state st fs x :
  consistent ctx xs state st fs -> x ∈ xs -> write_record state x = None -> st (wt_tx_id x) = Untouched.
Proof. intros Hc Hx Hn. pose proof (cs_records _ _ _ _ _ Hc x Hx) as Hr. unfold record_ok in Hr. by rewrite Hn in Hr. Qed.

Lemma evidence_entries state st w found :
  lives state st w -> evidence_for ctx (wd_journal w) = Ok found ->
  Forall (entry_ok state) found /\ NoDup found.*1 /\
  (forall x, x ∈ xs -> wt_tx_id x ∉ found.*1 -> write_record state x = None).
Proof.
  intros ((_ & Hmem) & Hc & _) He. unfold evidence_for, rbind, map_err in He.
  destruct (effect_context_validate ctx); [|done]. destruct (wr_failed (wd_journal w)) eqn:Ef; [done|].
  destruct (Hmem eq_refl) as [_ Hrec]. rewrite Hrec in He. destruct (_ <? _); [done|]. injection He as <-.
  pose proof (merge_sort_Permutation by_tx_id (of_context ctx state)) as Hp. split_and!.
  - rewrite Hp. apply Forall_forall. intros en [Hr Hctx]%of_context_elem.
    destruct (cs_managed _ _ _ _ _ Hc _ _ Hr Hctx) as (x & Hx & Hid). exists x. unfold write_record. rewrite <- Hid. done.
  - rewrite Hp. apply of_context_nodup.
  - intros x Hx Hn. destruct (write_record state x) as [e|] eqn:Er; [exfalso|done]. apply Hn. rewrite Hp.
    pose proof (cs_records _ _ _ _ _ Hc x Hx) as Hr. unfold record_ok in Hr. rewrite Er in Hr. destruct Hr as [Heq _].
    change (wt_tx_id x) with (wt_tx_id x, e).1. apply list_elem_of_fmap_2, of_context_elem. split; [exact Er|].
    by rewrite Heq.
Qed.

(** After both passes every write landed or is untouched. *)
Lemma closed_statuses (entries landed settled left : list (text * TxEvidence)) state st state' st' w :
  lives state st w -> NoDup entries.*1 -> entries ≡ₚ landed ++ settled ++ left ->
  (forall x, x ∈ xs -> wt_tx_id x ∉ entries.*1 -> write_record state x = None) ->
  Forall (fun en => st en.1 = Landed) landed -> Forall (fun en => st en.1 = Untouched) settled ->
  outside left.*1 state state' st st' -> (forall tx_id, tx_id ∈ left.*1 -> st' tx_id = Untouched) ->
  forall x, x ∈ xs -> if decide (wt_tx_id x ∈ landed.*1) then st' (wt_tx_id x) = Landed else st' (wt_tx_id x) = Untouched.
Proof.
  intros Hl Hnd Hp Hnone H1 H2 Hout Hleft x Hx. rewrite Forall_forall in H1, H2.
  assert (Hin : forall l P, (forall en : text * TxEvidence, en ∈ l -> st en.1 = P) -> wt_tx_id x ∈ l.*1 -> st (wt_tx_id x) = P).
  { intros l P Hl' (en & -> & Hen)%list_elem_of_fmap. by apply Hl'. }
  rewrite Hp, !fmap_app, !NoDup_app in Hnd. destruct Hnd as (_ & Hd1 & _ & Hd2 & _).
  case_decide as Hland.
  - assert (wt_tx_id x ∉ left.*1) as Hn by (intros Hx'; apply (Hd1 _ Hland), elem_of_app; by right).
    rewrite (proj1 (Hout _ Hn)). by apply (Hin landed).
  - destruct (decide (wt_tx_id x ∈ left.*1)) as [Hleft'|Hn]; [by apply Hleft|].
    rewrite (proj1 (Hout _ Hn)).
    destruct (decide (wt_tx_id x ∈ settled.*1)) as [Hs|Hs]; [by apply (Hin settled)|].
    apply lives_cs in Hl. eapply unrecorded; [exact Hl|exact Hx|]. apply (Hnone x Hx).
    rewrite Hp, !fmap_app, !elem_of_app. tauto.
Qed.

Definition reconcile_post (r : AgentResult WorkspaceEffectRecovery) (w : World) : Prop :=
  exists state st, lives state st w /\ match r with Ok answer => answer_true answer (wd_files w) | Err _ => True end.

Lemma reconcile_answer (entries landed : list (text * TxEvidence)) state st state' st' w w' durably :
  lives state st w -> NoDup entries.*1 -> Forall (entry_ok state) entries -> lives state' st' w' ->
  (forall x, x ∈ xs -> if decide (wt_tx_id x ∈ landed.*1) then st' (wt_tx_id x) = Landed else st' (wt_tx_id x) = Untouched) ->
  landed ⊆+ entries ->
  answer_true
    (if 0 <? length landed
     then WApplied entries.*1 ((length landed =? length entries) && durably)
     else WNotApplied entries.*1) (wd_files w').
Proof.
  intros Hl Hnd He Hl' Hst Hsub. apply lives_cs in Hl'.
  assert (Hcase : forall x, x ∈ xs -> if decide (wt_tx_id x ∈ landed.*1) then as_after (wd_files w') x else as_before (wd_files w') x).
  { intros x Hx. specialize (Hst x Hx). case_decide; [by eapply consistent_after|by eapply consistent_before]. }
  destruct landed as [|en landed]; cbn [length].
  - intros x Hx. specialize (Hcase x Hx). by rewrite decide_False in Hcase by (apply not_elem_of_nil).
  - cbn [Nat.ltb Nat.leb answer_true]. split.
    + assert (en ∈ entries) as Hen by (eapply elem_of_submseteq; [apply list_elem_of_here|exact Hsub]).
      rewrite Forall_forall in He. destruct (He en Hen) as (x & Hx & Hid & _). exists x. split; [done|].
      rewrite <- Hid. split; [by apply list_elem_of_fmap_2|]. specialize (Hcase x Hx).
      rewrite decide_True in Hcase; [done|]. rewrite <- Hid. apply list_elem_of_here.
    + intros x Hx. specialize (Hcase x Hx).
      assert (Hids : (en :: landed).*1 ⊆+ entries.*1) by (by apply fmap_submseteq).
      split_and!.
      * case_decide; auto.
      * intros Hn. rewrite decide_False in Hcase; [done|]. intros Hin. apply Hn. by eapply elem_of_submseteq.
      * intros [Hlen%Nat.eqb_eq _]%andb_true_iff Hin.
        assert (en :: landed ≡ₚ entries) as Hperm.
        { apply submseteq_length_Permutation; [done|]. cbn [length]. lia. }
        rewrite decide_True in Hcase; [done|]. by rewrite Hperm.
Qed.

Lemma run_reconcile state st w :
  lives state st w -> (forall x, x ∈ xs -> is_Some (write_record state x) -> owned (wt_tx_id x)) ->
  run (reconcile_workspace_effect ctx) reconcile_post w.
Proof.
  intros Hl Hown. unfold runs, reconcile_workspace_effect.
  destruct (evidence_for ctx (wd_journal w)) as [found|e] eqn:Ee; [|by exists state, st].
  destruct (evidence_entries _ _ _ _ Hl Ee) as (Hentries & Hnd & Hnone).
  destruct found as [|en0 found0] eqn:Efound.
  { exists state, st. split; [done|]. intros x Hx. eapply consistent_before; [by apply lives_cs|done|].
    eapply unrecorded; [by apply lives_cs|done|]. apply (Hnone x Hx), not_elem_of_nil. }
  rewrite <- Efound in *. clear Efound en0 found0.
  match goal with |- match io_bind ?m ?k w with _ => _ end => change (run (io_bind m k) reconcile_post w) end.
  apply runs_bind. eapply run_reads; [by eapply tally_reads|exact Hl|].
  intros [[t|reason]|e] w1 Hl1 _ Ht; [|apply run_ret; by exists state, st|by exists state, st].
  destruct (Ht t eq_refl) as (landed & settled & left & Hp & H1 & H2 & H3 & Ha & Hn). cbn in Ha, Hn.
  apply runs_bind.
  assert (Hclose : NoDup left.*1 /\ Forall (to_close state st) left).
  { split.
    - rewrite Hp, !fmap_app, !NoDup_app in Hnd. tauto.
    - rewrite Forall_forall in H3 |- *. intros en Hen. destruct (H3 en Hen) as [Hterm Hun].
      rewrite Hp, !Forall_app, !Forall_forall in Hentries. destruct Hentries as (_ & _ & Hentries).
      destruct (Hentries en Hen) as (x & Hx & Hid & Hrec). exists x.
      pose proof (cs_records _ _ _ _ _ (lives_cs _ _ _ Hl) x Hx) as Hr. unfold record_ok in Hr. rewrite Hrec in Hr.
      destruct Hr as [Heq _]. rewrite Hterm in Heq. split_and!; [done|by eapply Hown| | |].
      + destruct en as [tx_id e]. cbn in *. by subst.
      + unfold open_record. by rewrite Hrec, Heq.
      + rewrite <- Hid. by apply Hun. }
  destruct Hclose as [Hnd' Hclose]. rewrite Hn.
  eapply run_mono; [by eapply run_close_unlanded|].
  intros r w2 (state2 & st2 & Hl2 & Hpost). destruct r as [[[]|reason]|e]; [|by exists state2, st2..].
  destruct (Hpost eq_refl) as [Hout Hdone]. exists state2, st2. split; [done|]. rewrite Ha.
  eapply (reconcile_answer _ landed); [exact Hl|done|done|exact Hl2| |].
  - exact (closed_statuses found landed settled left _ _ _ _ _ Hl Hnd Hp Hnone H1 H2 Hout Hdone).
  - rewrite Hp. by apply submseteq_inserts_r.
Qed.

End calls.

(** ** Histories keep the invariant *)

Section system.
Context `{WC : WorkspaceCodec} `{WL : !WorkspaceCodecLaws} `{UC : UuidCodec}.
Context (ctx : OperationEffectContext) (xs : list Write) (Hapart : apart xs).

(** A handle stands for a write that is staged in full, with an open record. *)
Definition handles_ok (handles : gmap text PreparedMutation) (state : RecoveryState) (st : text -> Status) : Prop :=
  forall tx_id m, handles !! tx_id = Some m ->
    exists x inode, x ∈ xs /\ tx_id = wt_tx_id x /\ handle_ok ctx x m inode /\
      st (wt_tx_id x) = Staged inode (wt_after x) /\ open_record ctx state x.

Definition unbegun (begun : gset text) (state : RecoveryState) : Prop :=
  forall x, x ∈ xs -> wt_tx_id x ∉ begun -> write_record state x = None.

Definition system_inv (sys : System) : Prop :=
  exists state st,
    (if sy_alive sys then journal_at state (wd_journal (sy_world sys))
     else recoverable (wr_file (wd_journal (sy_world sys))) state) /\
    consistent ctx xs state st (wd_files (sy_world sys)) /\ unbegun (sy_begun sys) state /\
    handles_ok (sy_handles sys) state st /\ (sy_alive sys = false -> sy_handles sys = ∅).

Definition of_effect (a : Action) : Prop := match a with DoPrepare x _ => x ∈ xs | _ => True end.

(** What an action answers is true of what it leaves. A durable receipt is of a write
    that the journal, read back from its file, holds as committed. *)
Definition observation_true (o : Observation) (sys : System) : Prop :=
  let fs := wd_files (sy_world sys) in
  match o with
  | Receipt tx_id (ReceiptApplied durability _) =>
      forall x, x ∈ xs -> wt_tx_id x = tx_id ->
        as_after fs x /\
        (durability = Durable ->
         exists j e, journal_open (wr_file (wd_journal (sy_world sys))) = Ok j /\
           rs_transactions (wr_recovery j) !! tx_id = Some e /\ te_terminal e = Some (TxCommitted None))
  | Receipt tx_id (ReceiptNotApplied _) | RolledBack_ tx_id (Ok _) =>
      forall x, x ∈ xs -> wt_tx_id x = tx_id -> as_before fs x
  | Restarted answer => is_Ok answer = true
  | Reconciled (Ok answer) => answer_true xs answer fs
  | _ => True
  end.

(** An operation on one write, or on several: what it must establish where it returns. *)
Lemma run_on_inv {E A} (owned : text -> Prop) (m : IO E A) s handles begun sys then_ state st :
  consistent ctx xs state st (wd_files (sy_world sys)) ->
  journal_at state (wd_journal (sy_world sys)) ->
  (forall x, x ∈ xs -> wt_tx_id x ∉ begun -> ~ owned (wt_tx_id x) /\ write_record state x = None) ->
  (forall w, lives ctx xs owned state st state st w ->
     runs m (fun r w' => exists state' st', lives ctx xs owned state st state' st' w' /\
               handles_ok (then_ r).1 state' st' /\
               forall sys', sy_world sys' = w' -> observation_true (then_ r).2 sys')
       (died ctx xs owned state st) w) ->
  system_inv (run_on m s handles begun sys then_).1 /\
  observation_true (run_on m s handles begun sys then_).2 (run_on m s handles begun sys then_).1.
Proof.
  intros Hc Hj Hun Hm. specialize (Hm (set_script s (sy_world sys)) ltac:(split_and!; done)).
  assert (Hkeep : forall state' st', keeps owned state st state' st' -> unbegun begun state').
  { intros state' st' Hk x Hx Hn. destruct (Hun x Hx Hn) as [Hnot Hr]. unfold write_record in *.
    by rewrite (proj1 (Hk _ Hnot)). }
  unfold runs, run_on in *. destruct (m _) as [[r|] w'].
  - destruct Hm as (state' & st' & (Hj' & Hc' & Hk) & Hh & Ho). split; [|by apply Ho].
    exists state', st'. cbn. split_and!; try done. by eapply Hkeep.
  - destruct Hm as (state' & st' & Hr & Hc' & Hk). split; [|done].
    exists state', st'. cbn. split_and!; try done. by eapply Hkeep.
Qed.

Lemma handles_keep (x : Write) handles state st state' st' :
  keeps (fun tx_id => tx_id = wt_tx_id x) state st state' st' ->
  handles_ok handles state st -> handles_ok (delete (wt_tx_id x) handles) state' st'.
Proof.
  intros Hk Hh tx_id m [Hne Hm]%lookup_delete_Some. destruct (Hh _ _ Hm) as (y & inode & Hy & -> & Hok & Hs & Ho).
  exists y, inode. destruct (Hk (wt_tx_id y)) as [Hr Hst]; [congruence|].
  unfold open_record, write_record in *. by rewrite Hr, Hst.
Qed.

Lemma handles_insert (x : Write) m handles state st :
  handles_ok (delete (wt_tx_id x) handles) state st ->
  (exists inode, x ∈ xs /\ handle_ok ctx x m inode /\ st (wt_tx_id x) = Staged inode (wt_after x) /\ open_record ctx state x) ->
  handles_ok (<[wt_tx_id x := m]> handles) state st.
Proof.
  intros Hh (inode & Hx & Hm) tx_id m'. destruct (decide (tx_id = wt_tx_id x)) as [->|Hne].
  - rewrite lookup_insert_eq. intros [= <-]. exists x, inode. tauto.
  - rewrite lookup_insert_ne by done. intros Hl. apply Hh. by rewrite lookup_delete_ne.
Qed.

Lemma unbegun_apart begun state x :
  unbegun begun state -> (x ∈ xs -> wt_tx_id x ∈ begun) -> x ∈ xs ->
  forall y, y ∈ xs -> wt_tx_id y ∉ begun -> ~ (wt_tx_id y = wt_tx_id x) /\ write_record state y = None.
Proof.
  intros Hun Hin Hx y Hy Hn. split; [|by apply Hun]. intros Heq. apply Hn. rewrite Heq. by apply Hin.
Qed.

(** An operation that consumes the handle of a write. *)
Lemma consume_inv {E A} (op : PreparedMutation -> IO E A) tx_id m s sys (obs : result A E -> Observation) :
  system_inv sys -> sy_alive sys = true -> sy_handles sys !! tx_id = Some m ->
  (forall x state st w inode, x ∈ xs -> tx_id = wt_tx_id x ->
     handle_ok ctx x m inode -> st (wt_tx_id x) = Staged inode (wt_after x) -> open_record ctx state x ->
     lives ctx xs (fun id => id = wt_tx_id x) state st state st w ->
     runs (op m) (fun r w' => exists state' st', lives ctx xs (fun id => id = wt_tx_id x) state st state' st' w' /\
                    forall sys', sy_world sys' = w' -> observation_true (obs r) sys')
       (died ctx xs (fun id => id = wt_tx_id x) state st) w) ->
  let result := run_on (op m) s (delete tx_id (sy_handles sys)) (sy_begun sys) sys
                  (fun r => (delete tx_id (sy_handles sys), obs r)) in
  system_inv result.1 /\ observation_true result.2 result.1.
Proof.
  intros (state & st & Hj & Hc & Hun & Hh & Hdead) Halive Hm Hop. rewrite Halive in Hj. cbn zeta.
  destruct (Hh _ _ Hm) as (x & inode & Hx & -> & Hok & Hs & Ho).
  apply (run_on_inv (fun id => id = wt_tx_id x) _ _ _ _ _ _ state st Hc Hj).
  - apply unbegun_apart; [done| |done]. intros _. destruct (decide (wt_tx_id x ∈ sy_begun sys)) as [|Hn]; [done|].
    specialize (Hun x Hx Hn). unfold open_record in Ho. by rewrite Hun in Ho.
  - intros w Hw. eapply runs_mono; [by eapply Hop|]. intros r w' (state' & st' & Hl & Hobs).
    exists state', st'. split; [done|]. split; [|done]. cbn [fst]. eapply handles_keep; [|exact Hh].
    by destruct Hl as (_ & _ & Hk).
Qed.

Lemma receipt_observed x receipt state0 st0 state st w sys' :
  x ∈ xs -> lives ctx xs (fun id => id = wt_tx_id x) state0 st0 state st w -> receipt_true ctx x receipt state st ->
  sy_world sys' = w -> observation_true (Receipt (wt_tx_id x) receipt) sys'.
Proof.
  intros Hx Hl Hr <-. destruct Hl as ([Hrec _] & Hc & _).
  destruct receipt as [error|durability evidence|error]; cbn [observation_true receipt_true] in *; [| |done].
  - destruct Hr as [Hs _]. intros y Hy Heq. apply (ap_ids _ Hapart) in Heq as ->; [|done..]. by eapply consistent_before.
  - destruct Hr as [Hs Hd]. intros y Hy Heq. apply (ap_ids _ Hapart) in Heq as ->; [|done..].
    split; [by eapply consistent_after|]. intros Hdur.
    destruct (journal_open_recoverable _ _ Hrec) as (j & Hj & _ & _ & Hm).
    exists j, (planned ctx x (Some (TxCommitted None))). rewrite Hm. by split_and!; [|apply Hd|].
Qed.

Lemma commit_inv tx_id s sys :
  system_inv sys -> sy_alive sys = true ->
  system_inv (do_action ctx (DoCommit tx_id s) sys).1 /\
  observation_true (do_action ctx (DoCommit tx_id s) sys).2 (do_action ctx (DoCommit tx_id s) sys).1.
Proof.
  intros Hi Ha. cbn [do_action]. destruct (sy_handles sys !! tx_id) as [m|] eqn:Em; [|by split].
  apply (consume_inv (E := AgentError) mutation_commit); [done..|].
  intros x state st w inode Hx -> Hok Hs Ho Hl. eapply runs_mono; [by eapply run_commit|].
  intros r w' (state' & st' & Hl' & Hr). exists state', st'. split; [done|]. intros sys' Hw.
  destruct r as [receipt|e]; [|done]. by eapply receipt_observed.
Qed.

Lemma rollback_inv tx_id reason s sys :
  system_inv sys -> sy_alive sys = true ->
  system_inv (do_action ctx (DoRollback tx_id reason s) sys).1 /\
  observation_true (do_action ctx (DoRollback tx_id reason s) sys).2 (do_action ctx (DoRollback tx_id reason s) sys).1.
Proof.
  intros Hi Ha. cbn [do_action]. destruct (sy_handles sys !! tx_id) as [m|] eqn:Em; [|by split].
  apply (consume_inv (fun m => mutation_rollback m reason)); [done..|].
  intros x state st w inode Hx -> Hok Hs Ho Hl. eapply runs_mono; [eapply run_rollback; try done; right; by eexists|].
  intros r w' (state' & st' & Hl' & Hr). exists state', st'. split; [done|]. intros sys' <-.
  destruct r as [[]|e]; [|done]. destruct (Hr eq_refl) as [Hu _]. intros y Hy Heq.
  apply (ap_ids _ Hapart) in Heq as ->; [|done..]. destruct Hl' as (_ & Hc & _). by eapply consistent_before.
Qed.

Lemma drop_inv tx_id s sys :
  system_inv sys -> sy_alive sys = true ->
  system_inv (do_action ctx (DoDrop tx_id s) sys).1 /\
  observation_true (do_action ctx (DoDrop tx_id s) sys).2 (do_action ctx (DoDrop tx_id s) sys).1.
Proof.
  intros Hi Ha. cbn [do_action]. destruct (sy_handles sys !! tx_id) as [m|] eqn:Em; [|by split].
  apply (consume_inv (E := AgentError) drop_mutation _ _ _ _ (fun _ => Silent)); [done..|].
  intros x state st w inode Hx -> Hok Hs Ho Hl.
  eapply (run_drop _ _ Hapart); [exact Hx|done| |exact Hl|].
  - right. split_and!; [exact Hok|right; by eexists|done].
  - intros r st' w' Hl' _. by exists state, st'.
Qed.

Lemma prepare_inv x s sys :
  x ∈ xs -> system_inv sys ->
  system_inv (do_action ctx (DoPrepare x s) sys).1 /\
  observation_true (do_action ctx (DoPrepare x s) sys).2 (do_action ctx (DoPrepare x s) sys).1.
Proof.
  intros Hx Hi. cbn [do_action]. destruct (sy_alive sys) eqn:Ha; cbn [negb orb]; [|by split].
  case_bool_decide as Hbegun; [by split|].
  destruct Hi as (state & st & Hj & Hc & Hun & Hh & _). rewrite Ha in Hj.
  pose proof (Hun x Hx Hbegun) as Hnone. pose proof (unrecorded ctx xs _ _ _ _ Hc Hx Hnone) as Hs.
  apply (run_on_inv (fun id => id = wt_tx_id x) _ _ _ _ _ _ state st Hc Hj).
  - apply unbegun_apart; [|set_solver|done]. intros y Hy Hn. apply Hun; [done|]. set_solver.
  - intros w Hw. eapply runs_mono; [by eapply run_prepare|].
    intros r w' (state' & st' & Hl & Hr). exists state', st'. split; [done|]. split; [|by destruct r].
    assert (Hdel : handles_ok (delete (wt_tx_id x) (sy_handles sys)) state' st').
    { eapply handles_keep; [|exact Hh]. by destruct Hl as (_ & _ & Hk). }
    cbn [fst]. destruct r as [m|e].
    + apply handles_insert; [done|]. destruct (Hr m eq_refl) as (inode & Hm). by exists inode.
    + rewrite delete_id in Hdel; [done|]. destruct (sy_handles sys !! wt_tx_id x) as [m|] eqn:Em; [|done].
      destruct (Hh _ _ Em) as (y & inode & Hy & Heq & _ & _ & Ho). apply (ap_ids _ Hapart) in Heq as ->; [|done..].
      unfold open_record in Ho. by rewrite Hnone in Ho.
Qed.

Lemma reconcile_inv s sys :
  system_inv sys ->
  system_inv (do_action ctx (DoReconcile s) sys).1 /\
  observation_true (do_action ctx (DoReconcile s) sys).2 (do_action ctx (DoReconcile s) sys).1.
Proof.
  intros Hi. cbn [do_action]. destruct (sy_alive sys) eqn:Ha; cbn [negb orb]; [|by split].
  case_bool_decide as Hempty; cbn [negb]; [|by split].
  destruct Hi as (state & st & Hj & Hc & Hun & Hh & _). rewrite Ha in Hj.
  apply (run_on_inv (fun id => is_Some (rs_transactions state !! id)) _ _ _ _ _ _ state st Hc Hj).
  - intros x Hx Hn. specialize (Hun x Hx Hn). split; [|done]. unfold write_record in Hun. rewrite Hun. by intros [].
  - intros w Hw. eapply runs_mono; [eapply run_reconcile; [exact Hapart|exact Hw|done]|].
    intros r w' (state' & st' & Hl & Hr). exists state', st'. split; [done|]. split.
    + cbn [fst]. rewrite Hempty. intros tx_id m Hm. by rewrite lookup_empty in Hm.
    + intros sys' <-. by destruct r.
Qed.

Lemma reopen_inv sys :
  system_inv sys ->
  system_inv (do_action ctx DoRestart sys).1 /\
  observation_true (do_action ctx DoRestart sys).2 (do_action ctx DoRestart sys).1.
Proof.
  intros Hi. cbn [do_action]. destruct (sy_alive sys) eqn:Ha; [by split|].
  destruct Hi as (state & st & Hj & Hc & Hun & Hh & _). rewrite Ha in Hj.
  destruct (journal_open_recoverable _ _ Hj) as (j & -> & Hat & _). split; [|done].
  exists state, st. cbn. split_and!; done.
Qed.

Lemma crash_inv sys :
  system_inv sys -> system_inv (do_action ctx DoCrash sys).1.
Proof.
  intros (state & st & Hj & Hc & Hun & Hh & _). exists state, st. cbn. split_and!; try done.
  destruct (sy_alive sys); [by destruct Hj|done].
Qed.

Lemma dead_handles tx_id sys :
  system_inv sys -> sy_alive sys = false ->
  sy_handles sys !! tx_id = None.
Proof. intros (state & st & _ & _ & _ & _ & Hd) Ha. rewrite (Hd Ha). apply lookup_empty. Qed.

Lemma action_inv a sys :
  of_effect a -> system_inv sys ->
  system_inv (do_action ctx a sys).1 /\ observation_true (do_action ctx a sys).2 (do_action ctx a sys).1.
Proof.
  intros Hof Hi. destruct a as [x s|tx_id s|tx_id reason s|tx_id s| | |s].
  - by apply prepare_inv.
  - destruct (sy_alive sys) eqn:Ha; [by apply commit_inv|]. cbn [do_action]. by rewrite (dead_handles tx_id).
  - destruct (sy_alive sys) eqn:Ha; [by apply rollback_inv|]. cbn [do_action]. by rewrite (dead_handles tx_id).
  - destruct (sy_alive sys) eqn:Ha; [by apply drop_inv|]. cbn [do_action]. by rewrite (dead_handles tx_id).
  - split; [by apply crash_inv|done].
  - by apply reopen_inv.
  - by apply reconcile_inv.
Qed.

Lemma actions_inv actions sys : Forall of_effect actions -> system_inv sys -> system_inv (do_actions ctx actions sys).
Proof.
  intros Ha. revert sys. induction Ha as [|a actions Hof Ha IH]; intros sys Hi; [done|].
  cbn [do_actions]. apply IH. by apply action_inv.
Qed.

(** A world in which the effect has not begun. *)
Record fresh (state : RecoveryState) (w : World) : Prop := {
  fr_journal : journal_at state (wd_journal w);
  fr_inodes : inodes_known (wd_files w);
  fr_writes x : x ∈ xs -> as_before (wd_files w) x /\ parents_exist (wd_files w) [] (wt_parent x);
  fr_records x : x ∈ xs -> write_record state x = None;
  fr_context tx_id e : rs_transactions state !! tx_id = Some e -> pr_context (te_prepared e) <> ctx;
}.

Definition start (w : World) : System :=
  {| sy_world := w; sy_handles := ∅; sy_begun := ∅; sy_alive := true |}.

Lemma fresh_inv state w : fresh state w -> system_inv (start w).
Proof.
  intros [Hj Hi Hw Hr Hctx]. exists state, (fun _ => Untouched). cbn. split_and!; try done.
  - split; [done|by intros x Hx; apply Hw|by intros x Hx; apply Hw| |].
    + intros x Hx. unfold record_ok. by rewrite (Hr x Hx).
    + intros tx_id e He Hc. by apply Hctx in He.
  - intros x Hx _. by apply Hr.
Qed.

End system.

(** C3. What the workspace says of a file effect is true, whatever happens. Take any
    history of preparing, committing, rolling back and dropping the writes of one effect,
    in any order, where any system call or journal append may fail or be the last one
    before the process dies, with restarts and reconciliations in between; nobody else
    writes the targets, and SHA-256 tells the two contents of a write apart. Then every
    restart opens the journal; a write reported applied has its new content in place, and
    one reported durable is committed in the journal on disk; a write reported not
    applied or rolled back has its old content and no stage; and reconciliation answers
    not managed or not applied only if every target is as it was and no stage is left,
    applied only if some write landed and each target is wholly old or wholly new, and
    completely applied only if all that it names landed. *)
Theorem workspace_effects_truthful `{WC : WorkspaceCodec} `{WL : !WorkspaceCodecLaws} `{UC : UuidCodec}
    ctx xs state w actions a :
  apart xs -> fresh ctx xs state w -> Forall (of_effect xs) (actions ++ [a]) ->
  let before := do_actions ctx actions (start w) in
  let '(after, observation) := do_action ctx a before in
  observation_true xs observation after.
Proof.
  intros Hapart Hfresh [Hof [Ha _]%Forall_cons]%Forall_app. cbn zeta.
  destruct (action_inv ctx xs Hapart a (do_actions ctx actions (start w)) Ha) as [_ Ho].
  { apply actions_inv; [done..|]. by eapply fresh_inv. }
  by destruct (do_action ctx a _).
Qed.

(** ** The guard against lost updates *)

Section guard.
Context `{WC : WorkspaceCodec} `{UC : UuidCodec}.

(** The target is what the snapshot of the mutation says. *)
Definition snapshot_matches (m : PreparedMutation) (fs : Files) : Prop :=
  match entry_of (pm_parent m) (pm_target_name m) fs with
  | None => pm_target_existed m = false
  | Some (NDir _) => pm_target_existed m = true /\ pm_before_revision m = None
  | Some (NFile inode) =>
      pm_target_existed m = true /\ N.of_nat (length (data_of inode fs)) = pm_bytes_before m /\
      pm_before_revision m = Some (content_sha256 (data_of inode fs))
  end.

Lemma snapshot_checked m fs :
  reads (target_still_matches_snapshot m) fs (fun r => r = Ok true -> snapshot_matches m fs).
Proof.
  unfold target_still_matches_snapshot, snapshot_matches. apply reads_bind. unfold open_existing. apply reads_look; [|done].
  destruct (entry_of (pm_parent m) (pm_target_name m) fs) as [[inode|identity]|].
  - destruct (pm_target_existed m); cbn [negb]; [|by apply reads_ret]. apply reads_bind.
    unfold bounded_open_file_revision. apply reads_look; [|done]. destruct (_ <? _)%N; [done|]. apply reads_ret.
    intros [= [Hs%N.eqb_eq Hr%bool_decide_eq_true]%andb_true_iff]. done.
  - destruct (pm_target_existed m); cbn [negb]; apply reads_ret; [|done].
    intros [= Hr%bool_decide_eq_true]. done.
  - apply reads_ret. intros [= Hr%negb_true_iff]. done.
Qed.

(** At most the entry [p] changed, and no file's content. *)
Definition spares (p : list text) (w w' : World) : Prop :=
  fs_data (wd_files w') = fs_data (wd_files w) /\
  forall q, q <> p -> fs_entries (wd_files w') !! q = fs_entries (wd_files w) !! q.

Lemma spares_trans p w1 w2 w3 : spares p w1 w2 -> spares p w2 w3 -> spares p w1 w3.
Proof. intros [H1 H2] [H3 H4]. split; [by rewrite H3|]. intros q Hq. by rewrite H4, H2. Qed.

(** A computation that changes at most that entry. *)
Definition sparing {E A} (p : list text) (m : IO E A) : Prop := forall w, runs m (fun _ => spares p w) (spares p w) w.

Lemma sparing_reads {E A} p (m : IO E A) : (forall fs, reads m fs (fun _ => True)) -> sparing p m.
Proof.
  intros Hm w. specialize (Hm _ w eq_refl). unfold runs in *. destruct (m w) as [[r|] w'].
  - destruct Hm as [[Hf _] _]. unfold spares. by rewrite Hf.
  - destruct Hm as [Hf _]. unfold spares. by rewrite Hf.
Qed.

Lemma sparing_bind {E A B} p (m : IO E A) (k : A -> IO E B) : sparing p m -> (forall a, sparing p (k a)) -> sparing p (io_bind m k).
Proof.
  intros Hm Hk w. specialize (Hm w). unfold runs, io_bind in *. destruct (m w) as [[[a|e]|] w1]; try done.
  specialize (Hk a w1). unfold runs in Hk. destruct (k a w1) as [[r|] w2]; by eapply spares_trans.
Qed.

Lemma sparing_catch {E F A} p (m : IO E A) : sparing p m -> sparing (E := F) p (io_catch m).
Proof. intros Hm w. apply runs_catch. apply Hm. Qed.

Lemma sparing_map_err {E F A} p (f : E -> F) (m : IO E A) : sparing p m -> sparing p (io_map_err f m).
Proof. intros Hm w. apply runs_map_err. apply Hm. Qed.

Lemma sparing_ret {E A} p (a : A) : sparing (E := E) p (io_ret a).
Proof. by intros w. Qed.

Lemma sparing_fail {E A} p (e : E) : sparing (A := A) p (io_fail e).
Proof. by intros w. Qed.

Lemma sparing_append p t : sparing p (append t).
Proof.
  intros w. unfold runs, append. destruct (wd_script w) as [|i s]; [done|].
  by destruct (journal_append (outcome_of i) t (wd_journal w)) as [[r|] j].
Qed.

Lemma sparing_record p c : sparing p (record_change c).
Proof. apply sparing_map_err. intros w. unfold runs, call. by destruct (wd_script w) as [|[| |] s]. Qed.

Lemma spares_unlink dir name w : spares (dir ++ [name]) w (set_files (with_entry dir name None (wd_files w)) w).
Proof. split; [done|]. intros q Hq. cbn [wd_files set_files]. by rewrite entry_with_entry, decide_False. Qed.

Lemma sparing_remove dir inode name : sparing (dir ++ [name]) (remove_open_file dir inode name).
Proof.
  apply sparing_bind; [apply sparing_reads; intros fs; by apply reads_look|]. intros [|]; [|apply sparing_fail].
  intros w. unfold runs, change, call. destruct (wd_script w) as [|[| |] s]; [done| |done|done].
  apply (spares_unlink dir name w).
Qed.

Lemma sparing_remove_file dir name : sparing (dir ++ [name]) (remove_file dir name).
Proof.
  intros w. unfold runs, remove_file, call. destruct (wd_script w) as [|[| |] s]; [done| |done|done].
  cbn [wd_files set_script]. destruct (entry_of dir name (wd_files w)); [|done]. apply (spares_unlink dir name w).
Qed.

Lemma sparing_sync p : sparing p sync_dir.
Proof. apply sparing_reads. intros fs. by apply reads_look. Qed.

Lemma sparing_cleanup {E} dir name handle : sparing (E := E) (dir ++ [name]) (cleanup_staged_file dir name handle).
Proof.
  unfold cleanup_staged_file. destruct handle as [inode|].
  - apply sparing_bind; [apply sparing_catch, sparing_remove|]. intros [[]|e]; [|apply sparing_ret].
    apply sparing_bind; [apply sparing_catch, sparing_sync|]. intros r. apply sparing_ret.
  - apply sparing_bind; [apply sparing_catch, sparing_remove_file|]. intros [[|]|e]; [|apply sparing_ret..].
    apply sparing_bind; [apply sparing_catch, sparing_sync|]. intros r. apply sparing_ret.
Qed.

Lemma sparing_cleanup_staged {E} name m : sparing (E := E) (pm_parent m ++ [name]) (cleanup_staged name m).
Proof. unfold cleanup_staged. apply sparing_bind; [apply sparing_cleanup|]. intros b. apply sparing_ret. Qed.

Lemma sparing_rolled_back p m reason : sparing p (record_rolled_back m reason).
Proof.
  unfold record_rolled_back. apply sparing_bind; [|intros []; apply sparing_record].
  destruct (pm_effect_context m); [apply sparing_append|apply sparing_ret].
Qed.

Lemma settle_spares {E} name reason m w :
  pm_temp_name m = Some name -> pm_finished m = false ->
  runs (settle_not_applied (E := E) name reason m)
    (fun r w' => spares (pm_parent m ++ [name]) w w' /\
       match r with
       | Ok (receipt, m') => (forall d e, receipt <> ReceiptApplied d e) /\ (pm_finished m' = true \/ m' = m)
       | Err _ => True
       end) (spares (pm_parent m ++ [name]) w) w.
Proof.
  intros Hname Hfin. unfold settle_not_applied. apply runs_bind. unfold cleanup_staged. apply runs_bind.
  eapply runs_mono; [apply sparing_cleanup|]. intros [[|]|e] w1 Hw1; [| |done].
  - unfold runs at 1. cbn. apply runs_bind, runs_catch.
    pose proof (sparing_rolled_back (pm_parent m ++ [name]) (set_finished true (set_temp_name None (set_temp_file None m))) reason w1) as Hr.
    unfold runs in *. destruct (record_rolled_back _ _ w1) as [[r|] w2]; [|by eapply spares_trans].
    cbn. split; [by eapply spares_trans|]. split; [by destruct r|by left].
  - unfold runs. cbn. split; [done|]. split; [done|by right].
Qed.

(** The stage at most is touched, and the answer is not that the write was applied. *)
Definition not_written {E} (p : list text) (w : World) (r : result EffectReceipt E) (w' : World) : Prop :=
  spares p w w' /\ forall d e, r <> Ok (ReceiptApplied d e).

Lemma settle_and_drop {E} name reason m w :
  pm_temp_name m = Some name -> pm_finished m = false ->
  runs (act (receipt, m) <- settle_not_applied (E := E) name reason m ;; act_ (drop_mutation m) ;; io_ret receipt)
    (not_written (pm_parent m ++ [name]) w) (spares (pm_parent m ++ [name]) w) w.
Proof.
  intros Hname Hfin. apply runs_bind. eapply runs_mono; [by apply settle_spares|].
  intros [[receipt m']|e] w1 [Hs Hr]; [|by split].
  destruct Hr as [Hn Hm]. apply runs_bind. unfold drop_mutation. destruct Hm as [Hm|Hm].
  - rewrite Hm. unfold runs. cbn. split; [done|]. intros d e [= ->]. by eapply Hn.
  - subst m'. rewrite Hfin, Hname. apply runs_bind.
    pose proof (sparing_cleanup_staged (E := E) name m w1) as Hc. unfold runs in *.
    destruct (cleanup_staged name m w1) as [[[b|e]|] w2]; [|split; [by eapply spares_trans|done]|by eapply spares_trans].
    cbn. split; [by eapply spares_trans|]. intros d e [= ->]. by eapply Hn.
Qed.

(** C18. A commit never overwrites a change it has not seen. If the target is no longer
    what the mutation's snapshot says (another length or SHA-256, it vanished, or it
    appeared), then whatever the calls of the commit return, and also where the process
    dies in it, no file's content changes and no directory entry but the mutation's own
    stage, and the receipt does not say applied. *)
Theorem commit_never_clobbers {E} m name w :
  pm_temp_name m = Some name -> pm_finished m = false -> ~ snapshot_matches m (wd_files w) ->
  let '(answer, w') := mutation_commit (E := E) m w in
  spares (pm_parent m ++ [name]) w w' /\
  forall d e, answer <> Some (Ok (ReceiptApplied d e)).
Proof.
  intros Hname Hfin Hno.
  assert (Hrun : runs (mutation_commit (E := E) m) (not_written (pm_parent m ++ [name]) w) (spares (pm_parent m ++ [name]) w) w).
  2: { unfold runs, not_written in Hrun. destruct (mutation_commit m w) as [[r|] w']; [|by split].
       destruct Hrun as [Hs Hr]. split; [done|]. intros d e [= ->]. by eapply Hr. }
  pose proof (snapshot_checked m (wd_files w) w eq_refl) as Hc.
  unfold mutation_commit, commit_body. rewrite Hname. unfold runs in Hc |- *. unfold io_bind at 1 2, io_catch at 1.
  destruct (target_still_matches_snapshot m w) as [[r|] w1].
  2: { destruct Hc as [Hf _]. unfold spares. by rewrite Hf. }
  destruct Hc as [[Hf _] Hr].
  assert (Hrest : forall reason, runs (act (receipt, m) <- settle_not_applied (E := E) name reason m ;; act_ (drop_mutation m) ;; io_ret receipt)
    (not_written (pm_parent m ++ [name]) w) (spares (pm_parent m ++ [name]) w) w1).
  { intros reason. pose proof (settle_and_drop (E := E) name reason m w1 Hname Hfin) as H. unfold runs, not_written, spares in *. by rewrite Hf in H. }
  destruct r as [[|]|e]; [exfalso; by apply Hno, Hr|exact (Hrest _)|exact (Hrest _)].
Qed.

End guard.
