(* ===== verification/WorkspaceWitness.v ===== *)
(** The workspace theorems applied at a concrete file tree, effect and scripts, with the
    serialization of [JournalWitness] and stand-ins for SHA-256 and the uuid crate; and
    runs that show what the model does: a durable commit, a death in the middle of a
    commit, and what reconciliation answers for it. *)

From stdpp Require Import gmap.
From S2P Require Import Prelude Text Digest Operation Journal Wal Intent Capability Artifact JournalWitness.
From S2P Require Import WorkspaceJournal WorkspaceEffects WorkspaceHistory WorkspaceDirectory WorkspaceTheorems.

#[export] Instance serial_bool : Serial bool.
Proof.
  refine (serial_via (B := unit + unit) (fun b : bool => if b then inl tt else inr tt)
    (fun s => match s with inl _ => true | inr _ => false end) _).
  by intros [].
Defined.

#[export] Instance serial_context : Serial OperationEffectContext.
Proof.
  refine (serial_via (fun c => (oc_identity c, oc_effect_id c))
    (fun '(i, e) => {| oc_identity := i; oc_effect_id := e |}) _).
  by intros [].
Defined.

#[export] Instance serial_kind : Serial WorkspaceEntryKind.
Proof.
  refine (serial_via (fun k => match k with EntryFile => true | EntryDirectory => false end)
    (fun b : bool => if b then EntryFile else EntryDirectory) _).
  by intros [].
Defined.

#[export] Instance serial_prepared : Serial Prepared.
Proof.
  refine (serial_via
    (fun p => (pr_context p, pr_relative_target p, pr_temp_name p, pr_target_existed p, pr_before_hash p,
               pr_after_hash p, pr_bytes_before p, pr_bytes_after p, pr_entry_kind p))
    (fun '(a, b, c, d, e, f, g, h, i) =>
       {| pr_context := a; pr_relative_target := b; pr_temp_name := c; pr_target_existed := d; pr_before_hash := e;
          pr_after_hash := f; pr_bytes_before := g; pr_bytes_after := h; pr_entry_kind := i |}) _).
  by intros [].
Defined.

#[export] Instance serial_workspace_transition : Serial JournalTransition.
Proof.
  refine (serial_via (B := (text * Prepared) + ((text * option text) + text))
    (fun t => match t with
       | JPrepared i p => inl (i, p) | JCommitted i e => inr (inl (i, e)) | JRolledBack i => inr (inr i) end)
    (fun s => match s with
       | inl (i, p) => JPrepared i p | inr (inl (i, e)) => JCommitted i e | inr (inr i) => JRolledBack i end) _).
  by intros [].
Defined.

#[export] Instance serial_workspace_frame : Serial StoredFrame.
Proof.
  refine (serial_via
    (fun f => (jr_version (st_record f), jr_seq (st_record f), jr_transition (st_record f), st_checksum f))
    (fun '(v, s, t, c) =>
       {| st_record := {| jr_version := v; jr_seq := s; jr_transition := t |}; st_checksum := c |}) _).
  by intros [[] ?].
Defined.

Definition sample_sha (b : bytes) : Digest := take 32 (((fun c => c mod 256)%N <$> b) ++ replicate 32 0%N).

#[export] Instance sample_workspace_codec : WorkspaceCodec := {
  content_sha256 := sample_sha;
  journal_record_to_vec r := enc (jr_version r, jr_seq r, jr_transition r);
  stored_frame_to_vec := enc;
  stored_frame_from_slice b := fst <$> dec b;
}.

#[export] Instance sample_workspace_laws : WorkspaceCodecLaws.
Proof.
  split.
  - intros f. cbn [stored_frame_from_slice stored_frame_to_vec sample_workspace_codec]. by rewrite dec_enc_nil.
  - intros f. apply enc_no_newline.
  - intros b. cbn. unfold sample_sha. split.
    + rewrite length_take, length_app, length_replicate. unfold OPERATION_DIGEST_BYTES. lia.
    + apply Forall_take, Forall_app. split; [|apply Forall_replicate; lia].
      apply Forall_fmap, Forall_true. intros c. cbn. apply N.mod_lt. done.
Qed.

#[export] Instance plain_uuid : UuidCodec := {
  uuid_parse s := if bool_decide (s = []) then None else Some (foldl (fun acc c => 10 * acc + (c - 48))%N 0%N s);
  uuid_to_string id := [id];
}.

(** ** The tree and the effect *)

Definition sample_context : OperationEffectContext := {| oc_identity := sample_identity 7; oc_effect_id := 9 |}.

Definition write_a : Write :=
  {| wt_parent := [txt "src"]; wt_name := txt "a.rs"; wt_tx_id := txt "11"; wt_tool := txt "fs.write";
     wt_action := txt "update"; wt_before := Some (txt "old"); wt_after := txt "new text" |}.
Definition write_b : Write :=
  {| wt_parent := [txt "src"]; wt_name := txt "b.rs"; wt_tx_id := txt "12"; wt_tool := txt "fs.write";
     wt_action := txt "create"; wt_before := None; wt_after := txt "b" |}.
Definition both : list Write := [write_a; write_b].

Definition sample_files : Files :=
  {| fs_entries := <[[txt "src"] := NDir (txt "1:2")]> {[[txt "src"; txt "a.rs"] := NFile 1]};
     fs_data := {[1%N := txt "old"]}; fs_next := 2 |}.

Definition empty_journal : WriterState := {| wr_file := []; wr_recovery := default_recovery; wr_failed := None |}.

Definition sample_world : World :=
  {| wd_files := sample_files; wd_journal := empty_journal; wd_changes := []; wd_script := [] |}.

Definition goods (n : nat) : list Syscall := replicate n Good.

Lemma both_apart : apart both.
Proof.
  split.
  - intros x y. unfold both. rewrite !elem_of_cons, !elem_of_nil. intros [->|[->|[]]] [->|[->|[]]] H; done.
  - intros x y. unfold both. rewrite !elem_of_cons, !elem_of_nil. intros [->|[->|[]]] [->|[->|[]]] H; done.
  - intros x y. unfold both. rewrite !elem_of_cons, !elem_of_nil. intros [->|[->|[]]] [->|[->|[]]]; by vm_compute.
  - intros x. unfold both. rewrite !elem_of_cons, !elem_of_nil. intros [->|[->|[]]];
      repeat constructor; try (intros H; by vm_compute in H); vm_compute; set_solver.
  - intros x b. unfold both. rewrite !elem_of_cons, !elem_of_nil. intros [->|[->|[]]] [= <-] H; done.
Qed.

Lemma sample_fresh : fresh sample_context both default_recovery sample_world.
Proof.
  split; [apply journal_start| | |done|done].
  - intros p inode. cbn. intros [[_ ?]|[_ [_ [= <-]]%lookup_singleton_Some]]%lookup_insert_Some; [done|]. lia.
  - intros x. unfold both. rewrite !elem_of_cons, !elem_of_nil.
    assert (Hsrc : parents_exist sample_files [] [txt "src"]).
    { intros [|p' p] part q [= <- Hq]; [by exists (txt "1:2")|]. by destruct p. }
    intros [->|[->|[]]].
    + split; [split; [by exists 1%N|done]|exact Hsrc].
    + split; [split; done|exact Hsrc].
Qed.

Definition run_history (actions : list Action) (a : Action) : System * Observation :=
  do_action sample_context a (do_actions sample_context actions (start sample_world)).

Definition content_at (path : list text) (sys : System) : option bytes :=
  match fs_entries (wd_files (sy_world sys)) !! path with
  | Some (NFile inode) => Some (data_of inode (wd_files (sy_world sys)))
  | _ => None
  end.

(** Both writes are prepared and committed, with a restart in between. *)
Definition good_history : list Action :=
  [DoPrepare write_a (goods 20); DoPrepare write_b (goods 20); DoCommit (txt "11") (goods 20)].

Example good_commit :
  (run_history good_history (DoCommit (txt "12") (goods 20))).2 = Receipt (txt "12") (ReceiptApplied Durable (Some (txt "12"))).
Proof. vm_compute. reflexivity. Qed.

(** The process dies at call [k] of the second commit, and restarts. *)
Definition interrupted (k : nat) : list Action :=
  good_history ++ [DoCommit (txt "12") (goods k ++ [Dies 0]); DoRestart].

(** What reconciliation answers then, and the second target. *)
Definition after_death (k : nat) : option bool * option bytes :=
  let '(sys, o) := run_history (interrupted k) (DoReconcile (goods 60)) in
  (match o with Reconciled (Ok (WApplied _ complete)) => Some complete | _ => None end,
   content_at (target_path write_b) sys).

(** Before the replace the effect is partial, behind the committed record it is complete.
    In between, all of it landed, but it is called partially applied. *)
Example landed_but_called_partial :
  after_death 5 = (Some false, None) /\ after_death 10 = (Some false, Some (txt "b")) /\
  after_death 11 = (Some true, Some (txt "b")).
Proof. vm_compute. repeat split. Qed.

(** A stage that was written in part is never removed: the answer stays ambiguous. *)
Example partial_stage_is_kept :
  match run_history [DoPrepare write_b (goods 3 ++ [Dies 0]); DoRestart] (DoReconcile (goods 60)) with
  | (sys, Reconciled (Ok (WAmbiguous _ reason))) =>
      reason = txt "staged transaction 12 does not match its expected content" /\
      content_at (stage_path write_b) sys = Some []
  | _ => False
  end.
Proof. vm_compute. repeat split. Qed.

(** ** Witnesses *)

Lemma history_of_both k : Forall (of_effect both) (interrupted k ++ [DoReconcile (goods 60)]).
Proof.
  unfold interrupted, good_history. repeat (apply Forall_cons; split; [|]); try exact I; try apply Forall_nil_2;
    cbn; unfold both; rewrite !elem_of_cons; tauto.
Qed.

(** A death behind the replace: the answer is that the effect was applied, and both
    targets have their new contents. *)
Lemma workspace_effects_truthful_witness :
  let '(sys, o) := run_history (interrupted 8) (DoReconcile (goods 60)) in
  observation_true both o sys /\ o = Reconciled (Ok (WApplied [txt "11"; txt "12"] false)).
Proof.
  pose proof (workspace_effects_truthful sample_context both default_recovery sample_world (interrupted 8)
                (DoReconcile (goods 60)) both_apart sample_fresh (history_of_both 8)) as H.
  cbn zeta in H. unfold run_history. destruct (do_action sample_context _ _) as [sys o] eqn:E.
  split; [exact H|]. assert (Ho : o = (run_history (interrupted 8) (DoReconcile (goods 60))).2) by (unfold run_history; by rewrite E).
  rewrite Ho. vm_compute. reflexivity.
Defined.

(** Two appends, the second one torn, the third one behind a restart. *)
Definition sample_attempts : list AppendAttempt :=
  [(Written, JPrepared (txt "11") (plan sample_context write_a), false);
   (WriteDies 40, JRolledBack (txt "11"), false);
   (Written, JCommitted (txt "11") None, true)].

Lemma effect_journal_durable_witness :
  exists tried w ts last w',
    run_attempts sample_attempts empty_journal = Ok (tried, w) /\
    survivors tried ts /\ journal_after ts default_recovery = Some last /\
    journal_open (wr_file w) = Ok w' /\ wr_recovery w' = last /\ tried.*2 = [true; false; true].
Proof.
  destruct (effect_journal_durable sample_attempts) as (tried & w & ts & last & w' & H1 & H2 & H3 & H4 & H5).
  exists tried, w, ts, last, w'. split_and!; try assumption.
  assert (Ht : (match run_attempts sample_attempts empty_journal with Ok (t, _) => t.*2 | Err _ => [] end) = [true; false; true])
    by (vm_compute; reflexivity).
  unfold empty_journal in Ht. rewrite H1 in Ht. exact Ht.
Defined.

(** The handle of [write_a], and a target that another writer has changed since. *)
Definition stale_handle : PreparedMutation :=
  {| pm_parent := [txt "src"]; pm_target_name := txt "a.rs"; pm_tx_id := txt "11";
     pm_temp_name := Some (staging_name (txt "11")); pm_temp_file := Some 2%N; pm_effect_context := Some sample_context;
     pm_finished := false; pm_staged_bytes := 8; pm_staged_revision := sample_sha (txt "new text");
     pm_bytes_before := 5; pm_target_existed := true; pm_before_revision := Some (sample_sha (txt "other")) |}.

Lemma commit_never_clobbers_witness :
  let '(answer, w') := mutation_commit (E := AgentError) stale_handle (set_script (goods 20) sample_world) in
  spares ([txt "src"] ++ [staging_name (txt "11")]) (set_script (goods 20) sample_world) w' /\
  (forall d e, answer <> Some (Ok (ReceiptApplied d e))) /\ fs_data (wd_files w') !! 1%N = Some (txt "old").
Proof.
  assert (Hno : ~ snapshot_matches stale_handle (wd_files (set_script (goods 20) sample_world))).
  { intros (_ & Hlen & _). vm_compute in Hlen. discriminate Hlen. }
  pose proof (commit_never_clobbers (E := AgentError) stale_handle (staging_name (txt "11")) (set_script (goods 20) sample_world)
                eq_refl eq_refl Hno) as H.
  destruct (mutation_commit stale_handle (set_script (goods 20) sample_world)) as [answer w'].
  destruct H as [Hs Ha]. split; [exact Hs|]. split; [exact Ha|]. destruct Hs as [-> _]. reflexivity.
Defined.

(** A directory, created with a death at call [k] and reconciled behind a restart. *)
Definition sample_creation : Creation :=
  {| cr_parent := [txt "src"]; cr_name := txt "lib"; cr_tx_id := txt "13"; cr_tool := txt "fs.mkdir" |}.

Lemma sample_creation_at : creation_at sample_context sample_creation default_recovery None sample_files.
Proof.
  split; [done| |done|done].
  intros [|p' p] part q [= <- Hq]; [by exists (txt "1:2")|]. by destruct p.
Qed.

Lemma sample_creation_clean : Forall piece_ok (creation_path sample_creation).
Proof. repeat constructor; try (intros H; by vm_compute in H); vm_compute; set_solver. Qed.

Definition creation_script (k : nat) : World := set_script (goods k ++ [Dies 0]) sample_world.

(** The death behind the directory's creation and before its committed record: the
    directory is there, and the answer stays ambiguous. *)
Example orphaned_directory :
  match create_directory sample_context sample_creation (creation_script 6) with
  | (None, w) =>
      match journal_open (wr_file (wd_journal w)) with
      | Ok j =>
          match (reconcile_workspace_effect sample_context (set_script (goods 20) (set_journal j w))).1 with
          | Some (Ok (WAmbiguous _ reason)) => reason = txt "prepared directory transaction 13 exists without a committed identity"
          | _ => False
          end
      | Err _ => False
      end
  | _ => False
  end.
Proof. vm_compute. reflexivity. Qed.

Lemma directory_effect_truthful_witness :
  exists identity j w1,
    create_directory sample_context sample_creation (set_script (goods 40) sample_world) =
      (Some (Ok (Some (ReceiptApplied Durable (Some (txt "13"))))), w1) /\
    fs_entries (wd_files w1) !! creation_path sample_creation = Some (NDir identity) /\
    journal_open (wr_file (wd_journal w1)) = Ok j /\
    te_terminal <$> creation_record sample_creation (wr_recovery j) = Some (Some (TxCommitted (Some identity))).
Proof.
  pose proof (directory_effect_truthful sample_context sample_creation default_recovery (set_script (goods 40) sample_world)
                sample_creation_clean journal_start sample_creation_at eq_refl) as H.
  cbn zeta in H. destruct (create_directory sample_context sample_creation _) as [answer w1] eqn:E.
  assert (Ha : answer = Some (Ok (Some (ReceiptApplied Durable (Some (txt "13")))))).
  { change answer with (answer, w1).1. rewrite <- E. vm_compute. reflexivity. }
  subst answer. destruct H as (j & Hj & (identity & Hp & Hd) & _). exists identity, j, w1.
  split; [reflexivity|]. split; [exact Hp|]. split; [exact Hj|]. apply Hd. reflexivity.
Defined.
