(* ===== verification/ToolFacts.v ===== *)
(** What the runtime may believe of a tool result: the structured facts that
    agent-contracts/tool.rs and context.rs read off a [ToolOutput], the failure classes
    and their domains, the attribution a trusted host makes before dispatch, and the
    body windows a request already shows.

    [serde_json::Number::as_u64], SHA-256 and the non-ASCII part of
    [char::is_alphanumeric] are parameters; metadata is the [Json] of [Jcs]. *)

From stdpp Require Import sorting.
From S2P Require Import Prelude Text Digest Jcs Operation Intent OutputBroker Capability Artifact.

Class JsonU64 `{JN : JsonNumber} := {
  number_u64 : Number -> option N;
}.

(** [sha2], and the Unicode tables behind [char::is_alphanumeric]. *)
Class TextCrypto := {
  sha256_text : list N -> Digest;
  unicode_alphanumeric : N -> bool;
}.

Definition nonempty_text (s : text) : option text := if bool_decide (s = []) then None else Some s.

(** [Option<String>] as [Option<&str>] then [unwrap_or_default]. *)
Definition or_empty (o : option text) : text := default [] o.

(** [str::contains]. *)
Fixpoint text_contains (needle haystack : text) : bool :=
  starts_with needle haystack ||
  match haystack with [] => false | _ :: haystack' => text_contains needle haystack' end.

(** [replace('\\', "/")]. *)
Definition forward_slashes (s : text) : text := (fun c => if (c =? 92)%N then 47%N else c) <$> s.

(** ** Resource paths (context.rs) *)

Definition MAX_RESOURCE_TOUCHES : nat := 8.
Definition MAX_RESOURCE_PATH_CHARS : nat := N.to_nat 256.

(** [trim_start_matches('/')]. *)
Fixpoint trim_slashes (s : text) : text :=
  match s with
  | c :: s' => if (c =? 47)%N then trim_slashes s' else s
  | [] => []
  end.

Definition normalize_resource_path (path : text) : text :=
  let trimmed := forward_slashes (trim path) in
  let stripped := trim_slashes (default trimmed (strip_prefix (txt "./") trimmed)) in
  take MAX_RESOURCE_PATH_CHARS stripped.

(** [Path::file_name]. *)
Definition path_file_name (path : text) : option text :=
  match last (components path) with
  | Some (Normal part) => Some part
  | _ => None
  end.

Definition is_path_token_boundary (byte : N) : bool :=
  bool_decide (byte ∈ txt "/\ '`:,;()[]{}<>") || (byte =? 34)%N || (byte =? 9)%N || (byte =? 10)%N || (byte =? 13)%N.

Section tokens.
Context {TC : TextCrypto}.

Definition is_path_token_boundary_char (ch : N) : bool :=
  if (ch <? 128)%N then is_path_token_boundary ch else negb (unicode_alphanumeric ch).

Definition boundary_or_end (c : option N) : bool :=
  match c with Some c => is_path_token_boundary_char c | None => true end.

(** The loop of [contains_as_path_token] visits every occurrence in turn; [before] is
    the character before the haystack that is left. *)
Fixpoint token_from (before : option N) (haystack needle : text) : bool :=
  (starts_with needle haystack && boundary_or_end before
     && boundary_or_end (head (drop (length needle) haystack)))
  || match haystack with
     | [] => false
     | c :: haystack' => token_from (Some c) haystack' needle
     end.

Definition contains_as_path_token (haystack needle : text) : bool :=
  if bool_decide (needle = []) then false else token_from None haystack needle.

Definition path_exactly_in_directive (directive path : text) : bool :=
  let path := normalize_resource_path path in
  if bool_decide (path = []) then false
  else
    let directive := forward_slashes directive in
    contains_as_path_token directive path
    || match path_file_name path with
       | Some name =>
           if bool_decide (name = []) || bool_decide (name = path) then false
           else contains_as_path_token directive name
       | None => false
       end.

End tokens.

Record ResourceTouch : Type := {
  rt_path : text;
  rt_revision : option text;
}.

#[export] Instance ResourceTouch_eq_dec : EqDecision ResourceTouch.
Proof. solve_decision. Defined.

Inductive MutationFootprint : Type :=
| FootprintNone
| FootprintKnown (touches : list ResourceTouch)
| FootprintUnknown.

(** ** Failure classes and domains *)

Inductive ToolFailureClass : Type :=
| ShellDialectMismatch | CommandUnavailable | MissingProjectMarker | StaleRevision | NoExactMatch
| AmbiguousMatch | NoSearchMatch | ProcessExit | VerificationFailure | Timeout | Cancellation | HiddenPath
| PathNotFound | SurfaceUnavailable | SchemaMismatch | ClassInvalidRequest | DuplicateNoProgress
| ClassApprovalDenied | ClassIo.

#[export] Instance ToolFailureClass_eq_dec : EqDecision ToolFailureClass.
Proof. solve_decision. Defined.

Definition class_str (c : ToolFailureClass) : text :=
  match c with
  | ShellDialectMismatch => txt "shell_dialect_mismatch"
  | CommandUnavailable => txt "command_unavailable"
  | MissingProjectMarker => txt "missing_project_marker"
  | StaleRevision => txt "stale_revision"
  | NoExactMatch => txt "no_exact_match"
  | AmbiguousMatch => txt "ambiguous_match"
  | NoSearchMatch => txt "no_search_match"
  | ProcessExit => txt "process_exit"
  | VerificationFailure => txt "verification_failure"
  | Timeout => txt "timeout"
  | Cancellation => txt "cancellation"
  | HiddenPath => txt "hidden_path"
  | PathNotFound => txt "path_not_found"
  | SurfaceUnavailable => txt "surface_unavailable"
  | SchemaMismatch => txt "schema_mismatch"
  | ClassInvalidRequest => txt "invalid_request"
  | DuplicateNoProgress => txt "duplicate_no_progress"
  | ClassApprovalDenied => txt "approval_denied"
  | ClassIo => txt "io"
  end.

(** The arms of [ToolFailureClass::parse]. *)
Definition class_arms : list (text * ToolFailureClass) :=
  [ (txt "shell_dialect_mismatch", ShellDialectMismatch);
    (txt "command_unavailable", CommandUnavailable);
    (txt "missing_project_marker", MissingProjectMarker);
    (txt "stale_revision", StaleRevision);
    (txt "no_exact_match", NoExactMatch);
    (txt "ambiguous_match", AmbiguousMatch);
    (txt "no_search_match", NoSearchMatch);
    (txt "process_exit", ProcessExit);
    (txt "verification_failure", VerificationFailure);
    (txt "timeout", Timeout);
    (txt "cancellation", Cancellation);
    (txt "hidden_path", HiddenPath);
    (txt "path_not_found", PathNotFound);
    (txt "surface_unavailable", SurfaceUnavailable);
    (txt "schema_mismatch", SchemaMismatch);
    (txt "invalid_request", ClassInvalidRequest);
    (txt "duplicate_no_progress", DuplicateNoProgress);
    (txt "approval_denied", ClassApprovalDenied);
    (txt "io", ClassIo) ].

Definition class_parse (value : text) : option ToolFailureClass :=
  snd <$> find (fun arm => bool_decide (arm.1 = value)) class_arms.

Definition proves_no_effect (c : ToolFailureClass) : bool :=
  match c with NoExactMatch | AmbiguousMatch | NoSearchMatch | HiddenPath => true | _ => false end.

Definition nothing_executed (c : ToolFailureClass) : bool :=
  match c with
  | ShellDialectMismatch | CommandUnavailable | MissingProjectMarker | StaleRevision | NoExactMatch
  | AmbiguousMatch | PathNotFound | SurfaceUnavailable | SchemaMismatch | ClassInvalidRequest | HiddenPath
  | DuplicateNoProgress => true
  | _ => false
  end.

Inductive ToolFailureDomain : Type :=
| ExecutableResolution | EditTarget | ResourcePath | ProjectMarker | NonDeterministic.

#[export] Instance ToolFailureDomain_eq_dec : EqDecision ToolFailureDomain.
Proof. solve_decision. Defined.

Definition class_domain (c : ToolFailureClass) : ToolFailureDomain :=
  match c with
  | ShellDialectMismatch | CommandUnavailable => ExecutableResolution
  | MissingProjectMarker => ProjectMarker
  | StaleRevision => EditTarget
  | NoExactMatch | AmbiguousMatch | NoSearchMatch | HiddenPath | PathNotFound => ResourcePath
  | SurfaceUnavailable => NonDeterministic
  | ProcessExit | VerificationFailure | Timeout | Cancellation | DuplicateNoProgress
  | ClassInvalidRequest | SchemaMismatch | ClassApprovalDenied | ClassIo => NonDeterministic
  end.

(** ** Tool outputs *)

Definition RUNTIME_METADATA_KEY : text := txt "_runtime".
Definition TOOL_FAILURE_CLASS_KEY : text := txt "failure_class".

Section outputs.
Context `{JN : JsonNumber}.

Record ToolOutput : Type := {
  out_call_id : text;
  out_tool_name : text;
  out_ok : bool;
  out_summary : text;
  out_model_content : text;
  out_artifact_ref : option text;
  out_metadata : Json;
}.

(** [.get(key).and_then(as_str).map(str::trim).filter(non-empty)]. *)
Definition stamped_text (key : text) (v : Json) : option text :=
  (get_field key v ≫= as_str) ≫= fun s => nonempty_text (trim s).

Definition file_path (o : ToolOutput) : option text := stamped_text (txt "path") (out_metadata o).
Definition file_revision (o : ToolOutput) : option text := stamped_text (txt "revision") (out_metadata o).

Definition first_file (metadata : Json) : option Json :=
  match get_field (txt "files") metadata ≫= as_array with
  | Some (file :: _) => Some file
  | _ => None
  end.

Definition operation_target (o : ToolOutput) : option text :=
  match file_path o with
  | Some path => Some path
  | None =>
      match first_file (out_metadata o) ≫= stamped_text (txt "path") with
      | Some path => Some path
      | None =>
          match stamped_text (txt "command") (out_metadata o) with
          | Some command => Some command
          | None => stamped_text (txt "argv") (out_metadata o)
          end
      end
  end.

Definition is_verification (o : ToolOutput) : bool :=
  bool_decide ((get_field (txt "verification") (out_metadata o) ≫= as_bool) = Some true)
  || bool_decide ((get_field (txt "intent") (out_metadata o) ≫= as_str) = Some (txt "verify")).

Definition builtin_may_mutate (name : text) : bool :=
  bool_decide (name ∈ [txt "fs.write"; txt "fs.mkdir"; txt "edit.replace"; txt "edit.patch"; txt "shell.exec";
                       txt "process.run"; txt "process.session"])
  || (starts_with (txt "git.") name
      && negb (bool_decide (name ∈ [txt "git.status"; txt "git.diff"; txt "git.log"]))).

Definition may_mutate_workspace (o : ToolOutput) : bool :=
  match get_field (txt "mutates_workspace") (out_metadata o) ≫= as_bool with
  | Some flag => flag
  | None =>
      match (get_field RUNTIME_METADATA_KEY (out_metadata o) ≫= get_field (txt "effect_intent")) ≫= as_str with
      | Some intent => negb (bool_decide (intent ∈ [txt "read_only"; txt "ReadOnly"]))
      | None => builtin_may_mutate (out_tool_name o)
      end
  end.

(** The [push] of [resource_touches]. *)
Definition push_touch (touches : list ResourceTouch) (raw : text) (revision : option text) : list ResourceTouch :=
  if MAX_RESOURCE_TOUCHES <=? length touches then touches
  else
    let path := normalize_resource_path raw in
    if bool_decide (path = []) || existsb (fun t => bool_decide (rt_path t = path)) touches then touches
    else touches ++ [{| rt_path := path; rt_revision := revision |}].

Definition push_file (touches : list ResourceTouch) (file : Json) : list ResourceTouch :=
  match get_field (txt "path") file ≫= as_str with
  | Some raw => push_touch touches raw (stamped_text (txt "revision") file)
  | None => touches
  end.

Definition resource_touches (o : ToolOutput) : list ResourceTouch :=
  let touches :=
    match file_path o with Some raw => push_touch [] raw (file_revision o) | None => [] end in
  match get_field (txt "files") (out_metadata o) ≫= as_array with
  | Some files => foldl push_file touches files
  | None => touches
  end.

Definition failure_class (o : ToolOutput) : option ToolFailureClass :=
  match ((get_field RUNTIME_METADATA_KEY (out_metadata o) ≫= get_field TOOL_FAILURE_CLASS_KEY) ≫= as_str)
          ≫= class_parse with
  | Some class => Some class
  | None => (get_field TOOL_FAILURE_CLASS_KEY (out_metadata o) ≫= as_str) ≫= class_parse
  end.

Definition heats_working_set (o : ToolOutput) : bool :=
  out_ok o && bool_decide (failure_class o = None) && negb (bool_decide (resource_touches o = [])).

Definition mutation_footprint (o : ToolOutput) : MutationFootprint :=
  if negb (may_mutate_workspace o) then FootprintNone
  else if negb (out_ok o) && from_option nothing_executed false (failure_class o) then FootprintNone
  else
    match resource_touches o with
    | [] => FootprintUnknown
    | touches => FootprintKnown touches
    end.

Definition failure_domain (o : ToolOutput) : ToolFailureDomain :=
  match failure_class o with
  | None => NonDeterministic
  | Some class =>
      if bool_decide (class = PathNotFound)
         && bool_decide (out_tool_name o ∈ [txt "process.run"; txt "shell.exec"; txt "process.session"; txt "verify.run"])
      then ExecutableResolution
      else class_domain class
  end.

End outputs.

(** ** Attribution made before dispatch *)

Inductive ToolExecutionPurpose : Type :=
| Unattributed | PurposeObserve | PurposeSearch | PurposeMutate | PurposeVerify | PurposeControl | Opaque.

#[export] Instance ToolExecutionPurpose_eq_dec : EqDecision ToolExecutionPurpose.
Proof. solve_decision. Defined.

Inductive VerificationReuse : Type := ReuseNone | TaskScoped | ExactCurrentWorld.

#[export] Instance VerificationReuse_eq_dec : EqDecision VerificationReuse.
Proof. solve_decision. Defined.

Record VerificationRecipeProvenance : Type := {
  vp_recipe_id : text;
  vp_recipe_revision : text;
  vp_coverage_domain : option text;
  vp_domain_declaration_revision : option N;
  vp_domain_source_digest : text;
  vp_class_identity_digest : text;
}.

#[export] Instance VerificationRecipeProvenance_eq_dec : EqDecision VerificationRecipeProvenance.
Proof. solve_decision. Defined.

Record ToolExecutionAttribution : Type := {
  ta_purpose : ToolExecutionPurpose;
  ta_targets : list text;
  ta_outcome_equivalence_key : text;
  ta_verification_reuse : VerificationReuse;
  ta_verification_identity : text;
  ta_verification_recipe : option VerificationRecipeProvenance;
}.

(** [Vec::dedup]: consecutive repeats. *)
Fixpoint dedup (l : list text) : list text :=
  match l with
  | x :: l' =>
      match dedup l' with
      | y :: l'' => if bool_decide (x = y) then y :: l'' else x :: y :: l''
      | [] => [x]
      end
  | [] => []
  end.

Definition text_order (a b : text) : Prop := text_le a b = true.

#[export] Instance text_order_dec : RelDecision text_order.
Proof. intros a b. unfold text_order. apply _. Defined.

Definition attribution_bounded (purpose : ToolExecutionPurpose) (targets : list text)
    (reuse : VerificationReuse) : ToolExecutionAttribution :=
  let targets := List.filter (fun t => negb (bool_decide (t = []))) (normalize_resource_path <$> targets) in
  {| ta_purpose := purpose;
     ta_targets := take MAX_RESOURCE_TOUCHES (dedup (merge_sort text_order targets));
     ta_outcome_equivalence_key := [];
     ta_verification_reuse := if bool_decide (purpose = PurposeVerify) then reuse else ReuseNone;
     ta_verification_identity := [];
     ta_verification_recipe := None |}.

Definition outcome_equivalence_key (a : ToolExecutionAttribution) : option text :=
  if is_content_digest (ta_outcome_equivalence_key a) then Some (ta_outcome_equivalence_key a) else None.

Definition attr_reusable_verification (a : ToolExecutionAttribution) : bool :=
  bool_decide (ta_purpose a = PurposeVerify)
  && match ta_verification_reuse a with TaskScoped | ExactCurrentWorld => true | ReuseNone => false end.

Definition attr_exact_identity (a : ToolExecutionAttribution) : option text :=
  if bool_decide (ta_purpose a = PurposeVerify)
     && bool_decide (ta_verification_reuse a = ExactCurrentWorld)
     && negb (bool_decide (ta_verification_identity a = []))
     && is_content_digest (ta_verification_identity a)
  then Some (ta_verification_identity a)
  else None.

Section digests.
Context {TC : TextCrypto}.

Definition with_outcome_equivalence_material (material : text) (a : ToolExecutionAttribution) :
    ToolExecutionAttribution :=
  let material := trim material in
  if bool_decide (material = []) then a
  else
    {| ta_purpose := ta_purpose a; ta_targets := ta_targets a;
       ta_outcome_equivalence_key := digest_display (sha256_text (as_bytes material));
       ta_verification_reuse := ta_verification_reuse a;
       ta_verification_identity := ta_verification_identity a;
       ta_verification_recipe := ta_verification_recipe a |}.

Definition with_verification_identity_material (material : text) (a : ToolExecutionAttribution) :
    ToolExecutionAttribution :=
  if bool_decide (ta_purpose a = PurposeVerify)
     && bool_decide (ta_verification_reuse a = ExactCurrentWorld)
     && negb (bool_decide (trim material = []))
  then
    {| ta_purpose := ta_purpose a; ta_targets := ta_targets a;
       ta_outcome_equivalence_key := ta_outcome_equivalence_key a;
       ta_verification_reuse := ta_verification_reuse a;
       ta_verification_identity := digest_display (sha256_text (as_bytes (trim material)));
       ta_verification_recipe := ta_verification_recipe a |}
  else a.

End digests.

Definition with_verification_recipe (p : VerificationRecipeProvenance) (a : ToolExecutionAttribution) :
    ToolExecutionAttribution :=
  if bool_decide (ta_purpose a = PurposeVerify)
     && bool_decide (ta_verification_reuse a = ExactCurrentWorld)
     && bool_decide (is_Some (attr_exact_identity a))
  then
    {| ta_purpose := ta_purpose a; ta_targets := ta_targets a;
       ta_outcome_equivalence_key := ta_outcome_equivalence_key a;
       ta_verification_reuse := ta_verification_reuse a;
       ta_verification_identity := ta_verification_identity a;
       ta_verification_recipe := Some p |}
  else a.

Definition MAX_VERIFICATION_COVERAGE_DECLARATIONS : nat := 16.
Definition MAX_VERIFICATION_COVERAGE_DOMAIN_BYTES : nat := 96.

Record VerificationCoverageDeclaration : Type := {
  vd_domain_id : text;
  vd_declaration_revision : N;
  vd_source_digest : text;
}.

(** [[A-Za-z0-9._:-]]. *)
Definition domain_char (c : N) : bool :=
  is_ascii_alphanumeric c || (c =? 46)%N || (c =? 95)%N || (c =? 58)%N || (c =? 45)%N.

(** The bytes of a character outside ASCII are none of these. *)
Definition declaration_is_valid (d : VerificationCoverageDeclaration) : bool :=
  negb (bool_decide (vd_domain_id d = []))
  && (str_len (vd_domain_id d) <=? MAX_VERIFICATION_COVERAGE_DOMAIN_BYTES)
  && forallb domain_char (vd_domain_id d)
  && (0 <? vd_declaration_revision d)%N
  && is_content_digest (vd_source_digest d).

(** ** Body windows a request already shows (context.rs) *)

Record FileBodyWindow : Type := {
  fw_path : text;
  fw_revision : option text;
  fw_start_line : option N;
  fw_end_line : option N;
  fw_covers_file : bool;
  fw_complete : bool;
}.

#[export] Instance FileBodyWindow_eq_dec : EqDecision FileBodyWindow.
Proof. solve_decision. Defined.

Definition MAX_VISIBLE_BODY_HINTS : nat := 16.
Definition MAX_VISIBLE_BODY_WINDOWS : nat := MAX_VISIBLE_BODY_HINTS.

Definition interval_order (a b : N * N) : Prop :=
  ((a.1 <? b.1) || ((a.1 =? b.1) && (a.2 <=? b.2)))%N = true.

#[export] Instance interval_order_dec : RelDecision interval_order.
Proof. intros a b. unfold interval_order. apply _. Defined.

(** Whether the window speaks of this version of the file, captured whole. *)
Definition window_matches (path revision : text) (w : FileBodyWindow) : bool :=
  bool_decide (fw_revision w = Some revision)
  && bool_decide (normalize_resource_path (fw_path w) = path)
  && fw_complete w.

Definition window_interval (w : FileBodyWindow) : option (N * N) :=
  match fw_start_line w, fw_end_line w with
  | Some s, Some e => Some (s, e)
  | _, _ => None
  end.

(** The merge loop, the last merged interval at the head; line numbers below
    [u32::MAX], where [prev_end + 1] does not overflow. *)
Definition merge_step (merged : list (N * N)) (i : N * N) : list (N * N) :=
  match merged with
  | (ms, me) :: rest =>
      if (i.1 <=? me + 1)%N then (ms, N.max me i.2) :: rest else i :: merged
  | [] => [i]
  end.

Definition merge_intervals (intervals : list (N * N)) : list (N * N) :=
  reverse (foldl merge_step [] intervals).

Definition visible_body_windows_cover (visible : list FileBodyWindow) (path : text) (revision : option text)
    (record_start record_end : option N) : bool :=
  match (trim <$> revision) ≫= nonempty_text with
  | None => false
  | Some revision =>
      let path := normalize_resource_path path in
      let matching := List.filter (window_matches path revision) (take MAX_VISIBLE_BODY_WINDOWS visible) in
      if existsb fw_covers_file matching then true
      else
        match record_start, record_end with
        | Some rs, Some re =>
            let covering := merge_sort interval_order (omap window_interval matching) in
            let filtered := List.filter (fun i => (i.1 <=? re) && (rs <=? i.2))%N covering in
            existsb (fun i => (i.1 <=? rs) && (re <=? i.2))%N (merge_intervals filtered)
        | _, _ => false
        end
  end.

(** ** Touches *)

Section touches.
Context `{JN : JsonNumber}.

(** Bounded, with distinct, non-empty, bounded paths. *)
Definition touches_ok (touches : list ResourceTouch) : Prop :=
  length touches <= MAX_RESOURCE_TOUCHES /\ NoDup (rt_path <$> touches) /\
  Forall (fun t => rt_path t <> [] /\ length (rt_path t) <= MAX_RESOURCE_PATH_CHARS) touches.

Lemma normalize_bounded path : length (normalize_resource_path path) <= MAX_RESOURCE_PATH_CHARS.
Proof. unfold normalize_resource_path. rewrite length_take. lia. Qed.

Lemma push_touch_ok touches raw revision : touches_ok touches -> touches_ok (push_touch touches raw revision).
Proof.
  intros (Hlen & Hnd & Hall). unfold push_touch. destruct (_ <=? _) eqn:E; [done|].
  apply Nat.leb_gt in E. destruct (bool_decide _ || existsb _ _) eqn:E2; [done|].
  apply orb_false_elim in E2 as [E2%bool_decide_eq_false E3].
  split_and!.
  - rewrite length_app. cbn. lia.
  - rewrite fmap_app. apply NoDup_app. split_and!; [done| |apply NoDup_singleton].
    intros p Hp%list_elem_of_fmap Hin. cbn in Hin. apply list_elem_of_singleton in Hin as ->.
    destruct Hp as (t & Heq & Ht). apply Bool.not_true_iff_false in E3. apply E3.
    apply existsb_exists. exists t. split; [by apply list_elem_of_In|]. by apply bool_decide_eq_true.
  - apply Forall_app. split; [done|]. constructor; [|done]. cbn. split; [done|apply normalize_bounded].
Qed.

Lemma resource_touches_ok o : touches_ok (resource_touches o).
Proof.
  assert (Hnil : touches_ok []).
  { split_and!; [cbn; lia|constructor|constructor]. }
  unfold resource_touches.
  assert (Hfold : forall files ts, touches_ok ts -> touches_ok (foldl push_file ts files)).
  { induction files as [|file files IH]; intros ts Hts; [done|]. cbn. apply IH. unfold push_file.
    destruct (_ ≫= as_str); [by apply push_touch_ok|done]. }
  assert (Hstart : touches_ok match file_path o with
                              | Some raw => push_touch [] raw (file_revision o) | None => [] end).
  { destruct (file_path o); [by apply push_touch_ok|done]. }
  destruct (_ ≫= as_array); [by apply Hfold|done].
Qed.

End touches.

(** The wire names are exact. *)
Lemma class_parse_exact value c : class_parse value = Some c <-> class_str c = value.
Proof.
  split.
  - unfold class_parse. intros H. apply fmap_Some in H as (arm & Hfind & ->).
    apply find_some in Hfind as [Hin Heq%bool_decide_eq_true]. subst value.
    cbn in Hin. repeat (destruct Hin as [<-|Hin]; [done|]). done.
  - intros <-. by destruct c.
Qed.

#[export] Instance interval_order_trans : Transitive interval_order.
Proof.
  intros a b c. unfold interval_order. rewrite !orb_true_iff, !andb_true_iff, !N.ltb_lt, !N.eqb_eq, !N.leb_le. lia.
Qed.

#[export] Instance interval_order_total : Total interval_order.
Proof.
  intros a b. unfold interval_order. rewrite !orb_true_iff, !andb_true_iff, !N.ltb_lt, !N.eqb_eq, !N.leb_le. lia.
Qed.

(** ** Covered lines *)

Definition in_interval (n : N) (i : N * N) : Prop := (i.1 <= n <= i.2)%N.

(** Later merged intervals start past a gap. *)
Definition gap (later earlier : N * N) : Prop := (earlier.2 + 1 < later.1)%N.

Definition merged_ok (acc : list (N * N)) : Prop :=
  StronglySorted gap acc /\ forall a b rest, acc = a :: rest -> b ∈ rest -> (b.1 <= a.1)%N.

Lemma merge_step_ok acc i :
  merged_ok acc -> (forall a rest, acc = a :: rest -> a.1 <= i.1)%N ->
  merged_ok (merge_step acc i) /\
  (forall a rest, merge_step acc i = a :: rest -> a.1 <= i.1)%N /\
  (forall n, (exists m, m ∈ merge_step acc i /\ in_interval n m) ->
     in_interval n i \/ exists m, m ∈ acc /\ in_interval n m) /\
  (forall k, k = i \/ k ∈ acc -> (exists m, m ∈ merge_step acc i /\ m.1 <= k.1 /\ k.2 <= m.2)%N).
Proof.
  intros [Hs Hstart] Htop. unfold merge_step. destruct acc as [|[ms me] rest].
  - split_and!.
    + split; [repeat constructor|]. by intros a b r [= <- <-] ?%not_elem_of_nil.
    + intros a r [= <- <-]. done.
    + intros n (m & ->%list_elem_of_singleton & H). by left.
    + intros k [->|?%not_elem_of_nil]; [|done]. exists i. split; [by left|]. lia.
  - specialize (Htop _ _ eq_refl) as Hle. cbn in Hle.
    destruct (i.1 <=? me + 1)%N eqn:E; [apply N.leb_le in E|apply N.leb_gt in E].
    + split_and!.
      * split; [|intros a b r [= <- <-] Hb; by apply (Hstart (ms, me) b rest)].
        apply StronglySorted_inv in Hs as [Hs Hall]. constructor; [done|].
        eapply Forall_impl; [exact Hall|]. intros x. unfold gap. done.
      * intros a r [= <- <-]. done.
      * intros n (m & [->|Hm]%elem_of_cons & H); [|right; exists m; split; [by right|done]].
        unfold in_interval in H. cbn in H.
        destruct (decide (n <= me)%N) as [Hn|Hn].
        -- right. exists (ms, me). split; [by left|]. unfold in_interval; cbn. lia.
        -- left. unfold in_interval. lia.
      * intros k [->|[->|Hk]%elem_of_cons].
        -- exists (ms, N.max me i.2). split; [by left|]. cbn. lia.
        -- exists (ms, N.max me i.2). split; [by left|]. cbn. lia.
        -- exists k. split; [by right|]. lia.
    + split_and!.
      * split.
        -- constructor; [done|]. constructor; [done|].
           apply StronglySorted_inv in Hs as [_ Hall]. eapply Forall_impl; [exact Hall|].
           intros x Hx. unfold gap in *. cbn in *. lia.
        -- intros a b r [= <- <-] [->|Hb]%elem_of_cons; [done|].
           specialize (Hstart _ _ _ eq_refl Hb). cbn in Hstart. lia.
      * intros a r [= <- <-]. done.
      * intros n (m & [->|Hm]%elem_of_cons & H); [by left|right; by exists m].
      * intros k [->|Hk]; [exists i; split; [by left|lia]|exists k; split; [by right|lia]].
Qed.

Lemma merge_fold_ok intervals : forall acc,
  merged_ok acc -> Forall (fun i => forall a rest, acc = a :: rest -> a.1 <= i.1)%N intervals ->
  StronglySorted interval_order intervals ->
  let out := foldl merge_step acc intervals in
  StronglySorted gap out /\
  (forall n, (exists m, m ∈ out /\ in_interval n m) ->
     (exists i, i ∈ intervals /\ in_interval n i) \/ exists m, m ∈ acc /\ in_interval n m) /\
  (forall k, k ∈ intervals \/ k ∈ acc -> exists m, m ∈ out /\ m.1 <= k.1 /\ k.2 <= m.2)%N.
Proof.
  induction intervals as [|i intervals IH]; intros acc Hacc Htop Hsort; cbn.
  - split_and!; [apply Hacc|by right|]. intros k [?%not_elem_of_nil|Hk]; [done|]. exists k. split; [done|lia].
  - apply Forall_cons in Htop as [Htop Htops]. apply StronglySorted_inv in Hsort as [Hsort Hle].
    destruct (merge_step_ok acc i Hacc Htop) as (Hok & Htop' & Hsound & Hkeep).
    destruct (IH (merge_step acc i) Hok) as (H1 & H2 & H3); [|done|].
    { apply Forall_forall. intros j Hj a rest Ha. specialize (Htop' _ _ Ha).
      pose proof (proj1 (Forall_forall _ _) Hle _ Hj) as Hij. unfold interval_order in Hij.
      rewrite orb_true_iff, andb_true_iff, N.ltb_lt, N.eqb_eq in Hij. lia. }
    split_and!; [done| |].
    + intros n Hn. destruct (H2 n Hn) as [(j & Hj & Hin)|Hm].
      * left. exists j. split; [by right|done].
      * apply Hsound in Hm as [Hi|Hm]; [|by right]. left. exists i. split; [by left|done].
    + intros k Hk.
      assert (Hcase : k ∈ intervals \/ (k = i \/ k ∈ acc)) by (rewrite elem_of_cons in Hk; tauto).
      destruct Hcase as [Hin|Hk']; [by apply H3; left|].
      destruct (Hkeep k Hk') as (m & Hm & Hm1 & Hm2). destruct (H3 m ltac:(by right)) as (m' & Hm' & ? & ?).
      exists m'. split; [done|lia].
Qed.

(** Merging sorted intervals: one of the results contains a range exactly when every
    line of the range is in one of the intervals. *)
Lemma merge_intervals_cover intervals rs re :
  StronglySorted interval_order intervals -> (rs <= re)%N ->
  existsb (fun i => (i.1 <=? rs) && (re <=? i.2))%N (merge_intervals intervals) = true <->
  forall n, (rs <= n <= re)%N -> exists i, i ∈ intervals /\ in_interval n i.
Proof.
  intros Hsort Hle. unfold merge_intervals.
  destruct (merge_fold_ok intervals []) as (Hgap & Hsound & Hkeep); [| |done|].
  { split; [constructor|]. by intros a b rest [=]. }
  { apply Forall_forall. by intros i _ a rest [=]. }
  cbn zeta in *. set (out := foldl merge_step [] intervals) in *.
  rewrite existsb_exists. split.
  - intros (m & Hm%list_elem_of_In & Hb) n Hn. rewrite elem_of_reverse in Hm.
    rewrite andb_true_iff, !N.leb_le in Hb.
    destruct (Hsound n) as [H|(m' & ?%not_elem_of_nil & _)]; [|done|done].
    exists m. split; [done|]. unfold in_interval. lia.
  - intros Hall. destruct (Hall rs ltac:(lia)) as (i & Hi & Hin).
    destruct (Hkeep i (or_introl Hi)) as (m & Hm & Hm1 & Hm2). unfold in_interval in Hin.
    exists m. split; [by apply list_elem_of_In; rewrite elem_of_reverse|].
    rewrite andb_true_iff, !N.leb_le. split; [lia|].
    destruct (decide (re <= m.2)%N) as [|Hn]; [done|]. exfalso.
    destruct (Hall (m.2 + 1)%N ltac:(lia)) as (j & Hj & Hjn). unfold in_interval in Hjn.
    destruct (Hkeep j (or_introl Hj)) as (m' & Hm' & Hm'1 & Hm'2).
    clear -Hgap Hm Hm' Hm1 Hm2 Hm'1 Hm'2 Hin Hjn. induction Hgap as [|x out Hs IH Hall]; [by apply not_elem_of_nil in Hm|].
    rewrite Forall_forall in Hall. unfold gap in Hall.
    apply elem_of_cons in Hm as [->|Hm], Hm' as [->|Hm'].
    + lia.
    + specialize (Hall _ Hm'). lia.
    + specialize (Hall _ Hm). lia.
    + by apply IH.
Qed.

(** Whether a request already shows a recorded interval is decided exactly: for a named
    revision, either one of the first 16 complete windows of that path and revision covers
    the whole file, or the record's range is known and every one of its lines lies in such
    a window; a clipped window, another revision and an unknown range prove nothing. *)
Theorem windows_cover_exact visible path revision rs re :
  (forall s e, rs = Some s -> re = Some e -> s <= e)%N ->
  visible_body_windows_cover visible path revision rs re = true <->
  exists r, revision = Some r /\ trim r <> [] /\
    let matching := fun w => w ∈ take MAX_VISIBLE_BODY_WINDOWS visible /\
      fw_revision w = Some (trim r) /\ normalize_resource_path (fw_path w) = normalize_resource_path path /\
      fw_complete w = true in
    (exists w, matching w /\ fw_covers_file w = true) \/
    (exists s e, rs = Some s /\ re = Some e /\
       forall n, (s <= n <= e)%N -> exists w ws we, matching w /\ fw_start_line w = Some ws /\
         fw_end_line w = Some we /\ (ws <= n <= we)%N).
Proof.
  intros Hle. unfold visible_body_windows_cover. destruct revision as [r|]; cbn [fmap option_fmap option_map mbind option_bind].
  2: { split; [done|]. by intros (r & [=] & _). }
  unfold nonempty_text. case_bool_decide as Hr; cbn [mbind option_bind].
  { split; [done|]. by intros (r' & [= <-] & ? & _). }
  set (matching := List.filter _ _).
  assert (Hmatch : forall w, w ∈ matching <-> w ∈ take MAX_VISIBLE_BODY_WINDOWS visible /\
      fw_revision w = Some (trim r) /\ normalize_resource_path (fw_path w) = normalize_resource_path path /\
      fw_complete w = true).
  { intros w. unfold matching. rewrite list_elem_of_In, filter_In, <- list_elem_of_In.
    unfold window_matches. rewrite !andb_true_iff, !bool_decide_eq_true. tauto. }
  destruct (existsb fw_covers_file matching) eqn:Ecov.
  { split; [|done]. intros _. exists r. split_and!; [done..|]. left.
    apply existsb_exists in Ecov as (w & Hw%list_elem_of_In & Hc). exists w. by rewrite <- Hmatch. }
  assert (Hno : forall w, w ∈ matching -> fw_covers_file w = true -> False).
  { intros w Hw Hc. apply Bool.not_true_iff_false in Ecov. apply Ecov, existsb_exists. exists w.
    by rewrite <- list_elem_of_In. }
  destruct rs as [s|]; [destruct re as [e|]|].
  2,3: split; [done|]; intros (r' & [= <-] & _ & [(w & Hw & Hc)|(s' & e' & Hs' & He' & _)]);
    [apply Hmatch in Hw; by exfalso; eapply Hno|done].
  set (sorted := merge_sort interval_order (omap window_interval matching)).
  assert (Hsorted : StronglySorted interval_order (List.filter (fun i => (i.1 <=? e) && (s <=? i.2))%N sorted)).
  { assert (Hs : StronglySorted interval_order sorted) by (apply (StronglySorted_merge_sort _)).
    clear -Hs. induction Hs as [|i l Hs IH Hall]; [constructor|]. cbn. destruct (_ && _); [|done].
    constructor; [done|]. apply Forall_forall. intros j Hj. rewrite list_elem_of_In, filter_In in Hj.
    rewrite Forall_forall in Hall. apply Hall. by apply list_elem_of_In, Hj. }
  rewrite merge_intervals_cover; [|done|by apply Hle].
  assert (Hin : forall n, (s <= n <= e)%N ->
    (exists i, i ∈ List.filter (fun i => (i.1 <=? e) && (s <=? i.2))%N sorted /\ in_interval n i) <->
    exists w ws we, w ∈ matching /\ fw_start_line w = Some ws /\ fw_end_line w = Some we /\ (ws <= n <= we)%N).
  { intros n Hn. split.
    - intros (i & Hi & Hni). rewrite list_elem_of_In, filter_In, <- list_elem_of_In in Hi.
      destruct Hi as [Hi _]. unfold sorted in Hi. rewrite merge_sort_Permutation, list_elem_of_omap in Hi.
      destruct Hi as (w & Hw & Hwi). unfold window_interval in Hwi.
      destruct (fw_start_line w) as [ws|] eqn:E1; [|done]. destruct (fw_end_line w) as [we|] eqn:E2; [|done].
      injection Hwi as <-. by exists w, ws, we.
    - intros (w & ws & we & Hw & E1 & E2 & Hw'). exists (ws, we). split; [|done].
      rewrite list_elem_of_In, filter_In, <- list_elem_of_In, andb_true_iff, !N.leb_le. cbn. split; [|lia].
      unfold sorted. rewrite merge_sort_Permutation, list_elem_of_omap. exists w. split; [done|].
      unfold window_interval. by rewrite E1, E2. }
  split.
  - intros Hall. exists r. split_and!; [done..|]. right. exists s, e. split_and!; [done..|].
    intros n Hn. specialize (Hall n Hn). apply Hin in Hall as (w & ws & we & Hw & Hrest); [|done].
    exists w, ws, we. split; [by apply Hmatch|exact Hrest].
  - intros (r' & [= <-] & _ & [(w & Hw & Hc)|(s' & e' & [= <-] & [= <-] & Hall)]).
    + apply Hmatch in Hw. by exfalso; eapply Hno.
    + intros n Hn. apply Hin; [done|]. destruct (Hall n Hn) as (w & ws & we & Hw & Hrest). exists w, ws, we.
      split; [by apply Hmatch|exact Hrest].
Qed.
