(* ===== verification/Execution.v ===== *)
(** The execution state of a task (agent-runtime/execution/state.rs): resource and
    verification facts, failures and obligations, evidence and convergence, all bounded,
    with what the runtime derives from them; and the validation of a restored state.

    Recording an observation is [Observe]. The model-facing renderings ([view], the
    warning lines) are not modelled. *)

From S2P Require Import Prelude Text Digest Jcs Operation OutputBroker Capability Artifact ToolFacts.

Definition MAX_TASK_ANCHOR_ITEM_CHARS : nat := N.to_nat 200.
Definition MAX_RESUME_FILES : nat := 32.
Definition MAX_RESUME_FAILURES : nat := 32.
Definition MAX_VERIFICATION_FACTS : nat := MAX_VERIFICATION_COVERAGE_DECLARATIONS.
Definition MAX_REVALIDATE_PER_ROUND : nat := 8.
Definition MAX_COVERAGE_PATHS : nat := 8.
Definition MAX_EVIDENCE_ROWS : nat := 16.
Definition MAX_EVIDENCE_COVERAGE_WINDOWS : nat := MAX_VISIBLE_BODY_WINDOWS.
Definition MAX_COMPLETION_REPAIR_PLAN_BYTES : nat := N.to_nat 16384.
Definition MAX_RECENT_DELTAS : nat := 8.
Definition EVIDENCE_TEXT_CHARS : nat := N.to_nat 80.
Definition MAX_OBLIGATIONS : nat := MAX_RESUME_FAILURES.
Definition MAX_OBLIGATION_TARGETS : nat := 8.
Definition MAX_NEGATIVE_FACTS : nat := 8.
Definition MAX_VERIFICATION_SOURCES : nat := 4.
Definition MAX_FOREGROUND_RESOURCES : nat := 2.

(** Of agent-runtime/task.rs. *)
Definition COMPLETION_REPAIR_VIEW_CHARS : nat := N.to_nat 768.
Definition MAX_COMPLETION_REPAIR_REFUSALS : N := 64.
Definition MAX_COMPLETION_REPAIR_STEPS : N := 64.
Definition COMPLETION_REPAIR_TERMINAL_REFUSALS : N := 3.
Definition COMPLETION_REPAIR_NO_PROGRESS_STEPS : N := 6.

(** [text.chars().take(n).collect()]. *)
Definition bound_item (s : text) : text := take MAX_TASK_ANCHOR_ITEM_CHARS s.
Definition bound_evidence_text (s : text) : text := take EVIDENCE_TEXT_CHARS s.

(** [u32::saturating_add]. *)
Definition saturating_add32 (a b : N) : N := N.min (a + b) u32_max.

(** ** Facts *)

Inductive ResourceFreshness : Type := Fresh | NeedsRevalidation | Missing.
Inductive ResourceProvenance : Type := ProvRead | MutationResult | MutationRefusal | ProvVerification.
Inductive ResourceFactKind : Type := FileBody | DirectoryListing | MetadataOnly.
Inductive VerificationState : Type := NotRun | Pending | VCurrent | Stale | VFailed.
Inductive VerificationCause : Type :=
| CauseNone | SourceChanged | UserRequested | FailureRepair | AcceptanceGate | SpecChanged.
Inductive VerificationCoverage : Type :=
| Unspecified | CoverWorkspace | CoverResources (paths : list text).

#[export] Instance ResourceFreshness_eq_dec : EqDecision ResourceFreshness.
Proof. solve_decision. Defined.
#[export] Instance ResourceProvenance_eq_dec : EqDecision ResourceProvenance.
Proof. solve_decision. Defined.
#[export] Instance ResourceFactKind_eq_dec : EqDecision ResourceFactKind.
Proof. solve_decision. Defined.
#[export] Instance VerificationState_eq_dec : EqDecision VerificationState.
Proof. solve_decision. Defined.
#[export] Instance VerificationCause_eq_dec : EqDecision VerificationCause.
Proof. solve_decision. Defined.

Record ResourceFact : Type := {
  rf_path : text;
  rf_digest : text;
  rf_freshness : ResourceFreshness;
  rf_turn : N;
  rf_provenance : ResourceProvenance;
  rf_kind : ResourceFactKind;
}.

Record VerificationObligation : Type := {
  vo_spec_revision : N;
  vo_state : VerificationState;
  vo_cause : VerificationCause;
  vo_coverage : VerificationCoverage;
  vo_source_changed : bool;
  vo_unknown_pending : bool;
  vo_failed_open : bool;
  vo_required_for_completion : bool;
}.

Definition default_obligation : VerificationObligation :=
  {| vo_spec_revision := 0; vo_state := NotRun; vo_cause := CauseNone; vo_coverage := Unspecified;
     vo_source_changed := false; vo_unknown_pending := false; vo_failed_open := false;
     vo_required_for_completion := false |}.

Definition copy_obligation (o : VerificationObligation) : VerificationObligation :=
  {| vo_spec_revision := vo_spec_revision o; vo_state := vo_state o; vo_cause := vo_cause o;
     vo_coverage := vo_coverage o; vo_source_changed := vo_source_changed o;
     vo_unknown_pending := vo_unknown_pending o; vo_failed_open := vo_failed_open o;
     vo_required_for_completion := vo_required_for_completion o |}.

Definition set_spec_revision : N -> VerificationObligation -> VerificationObligation :=
  ltac:(setter copy_obligation vo_spec_revision).
Definition set_state : VerificationState -> VerificationObligation -> VerificationObligation :=
  ltac:(setter copy_obligation vo_state).
Definition set_cause : VerificationCause -> VerificationObligation -> VerificationObligation :=
  ltac:(setter copy_obligation vo_cause).
Definition set_coverage : VerificationCoverage -> VerificationObligation -> VerificationObligation :=
  ltac:(setter copy_obligation vo_coverage).
Definition set_source_changed : bool -> VerificationObligation -> VerificationObligation :=
  ltac:(setter copy_obligation vo_source_changed).
Definition set_unknown_pending : bool -> VerificationObligation -> VerificationObligation :=
  ltac:(setter copy_obligation vo_unknown_pending).
Definition set_failed_open : bool -> VerificationObligation -> VerificationObligation :=
  ltac:(setter copy_obligation vo_failed_open).

Record VerificationFact : Type := {
  vf_summary : text;
  vf_ok : bool;
  vf_turn : N;
  vf_anchor_revision : N;
  vf_workspace_revision : N;
  vf_source_tool_name : text;
  vf_argument_digest : text;
  vf_verification_identity : text;
  vf_directive_revision : N;
  vf_evidence_ref : option text;
  vf_recipe_provenance : option VerificationRecipeProvenance;
}.

Record FailedCommandFact : Type := {
  fc_tool_name : text;
  fc_target : text;
  fc_argument_digest : text;
  fc_outcome_equivalence_key : text;
  fc_domain : ToolFailureDomain;
  fc_scope_key : text;
  fc_precondition : text;
  fc_summary : text;
  fc_turn : N;
}.

Record NegativeExecutionFact : Type := {
  nf_tool_name : text;
  nf_target : text;
  nf_argument_digest : text;
  nf_failure : ToolFailureClass;
  nf_workspace_revision : N;
  nf_turn : N;
}.

Record VerificationSourceLease : Type := {
  sl_tool_name : text;
  sl_argument_digest : text;
  sl_anchor_revision : N;
}.

(** ** Convergence *)

Inductive FrontierDelta : Type :=
| ObservedWorldChange | WorldInvalidatedUnknown | EvidenceAdvanced | EvidenceReconfirmed
| ObligationResolved | RedundantEvidence | NoProgress.

#[export] Instance FrontierDelta_eq_dec : EqDecision FrontierDelta.
Proof. solve_decision. Defined.

Definition advances_frontier (d : FrontierDelta) : bool :=
  match d with ObservedWorldChange | EvidenceAdvanced | ObligationResolved => true | _ => false end.

Record StallState : Type := {
  st_consecutive_no_progress : N;
  st_tool : text;
  st_target : text;
  st_failure : option ToolFailureClass;
}.

Definition default_stall : StallState :=
  {| st_consecutive_no_progress := 0; st_tool := []; st_target := []; st_failure := None |}.

Record FailureCluster : Type := {
  cl_tool : text;
  cl_failure : option ToolFailureClass;
  cl_tried_targets : list text;
}.

Definition default_cluster : FailureCluster :=
  {| cl_tool := []; cl_failure := None; cl_tried_targets := [] |}.

Record ConvergenceState : Type := {
  cv_evidence_revision : N;
  cv_actions_since_frontier_advance : N;
  cv_actions_since_delivery_advance : N;
  cv_recent_deltas : list FrontierDelta;
  cv_untracked_observations : N;
}.

Definition default_convergence : ConvergenceState :=
  {| cv_evidence_revision := 0; cv_actions_since_frontier_advance := 0;
     cv_actions_since_delivery_advance := 0; cv_recent_deltas := []; cv_untracked_observations := 0 |}.

Definition copy_convergence (c : ConvergenceState) : ConvergenceState :=
  {| cv_evidence_revision := cv_evidence_revision c;
     cv_actions_since_frontier_advance := cv_actions_since_frontier_advance c;
     cv_actions_since_delivery_advance := cv_actions_since_delivery_advance c;
     cv_recent_deltas := cv_recent_deltas c; cv_untracked_observations := cv_untracked_observations c |}.

Definition set_evidence_revision : N -> ConvergenceState -> ConvergenceState :=
  ltac:(setter copy_convergence cv_evidence_revision).
Definition set_frontier_debt : N -> ConvergenceState -> ConvergenceState :=
  ltac:(setter copy_convergence cv_actions_since_frontier_advance).
Definition set_delivery_debt : N -> ConvergenceState -> ConvergenceState :=
  ltac:(setter copy_convergence cv_actions_since_delivery_advance).
Definition set_recent_deltas : list FrontierDelta -> ConvergenceState -> ConvergenceState :=
  ltac:(setter copy_convergence cv_recent_deltas).
Definition set_untracked : N -> ConvergenceState -> ConvergenceState :=
  ltac:(setter copy_convergence cv_untracked_observations).

(** ** Evidence *)

Inductive EvidenceValidity : Type :=
| ValidTurn
| ValidWorkspaceRevision (at_revision : N)
| ValidResource (path digest : text).

#[export] Instance EvidenceValidity_eq_dec : EqDecision EvidenceValidity.
Proof. solve_decision. Defined.

Record ExecutionEvidence : Type := {
  ev_key : text;
  ev_outcome : text;
  ev_observed_world_revision : N;
  ev_validity : EvidenceValidity;
  ev_argument_digest : text;
  ev_outcome_digest : text;
  ev_current : bool;
  ev_turn : N;
  ev_evidence_ref : option text;
  ev_coverage : list FileBodyWindow;
}.

(** ** Failures *)

Record ExecutionObligation : Type := {
  ob_domain : ToolFailureDomain;
  ob_scope_key : text;
  ob_precondition : text;
  ob_attempts : N;
  ob_epoch : N;
  ob_total_attempts : N;
  ob_tried_targets : list text;
  ob_opened_at_evidence_revision : N;
  ob_source_tool_name : text;
}.

Definition effective_total (o : ExecutionObligation) : N := N.max (ob_total_attempts o) (ob_attempts o).

Record UnresolvedFailureOverflow : Type := {
  uo_directive_revision : N;
  uo_omitted_obligations : N;
  uo_omitted_failed_commands : N;
}.

Definition default_overflow : UnresolvedFailureOverflow :=
  {| uo_directive_revision := 0; uo_omitted_obligations := 0; uo_omitted_failed_commands := 0 |}.

Definition overflow_is_empty (o : UnresolvedFailureOverflow) : bool :=
  (uo_omitted_obligations o =? 0)%N && (uo_omitted_failed_commands o =? 0)%N.

Record CompletionCommitFailure : Type := {
  cc_reason : text;
  cc_attempts : N;
}.

(** Lexicographic, as the derived [Ord]. *)
Record CompletionRepairPotential : Type := {
  rp_operator : N;
  rp_progress : N;
  rp_execution : N;
  rp_proof : N;
}.

Definition potential_le (a b : CompletionRepairPotential) : bool :=
  ((rp_operator a <? rp_operator b)
   || ((rp_operator a =? rp_operator b)
       && ((rp_progress a <? rp_progress b)
           || ((rp_progress a =? rp_progress b)
               && ((rp_execution a <? rp_execution b)
                   || ((rp_execution a =? rp_execution b) && (rp_proof a <=? rp_proof b)))))))%N.

(** ** Attribution joined with task authority *)

Record RuntimeExecutionAttribution : Type := {
  ra_host : ToolExecutionAttribution;
  ra_rooted_targets : list text;
}.

Definition target_is_rooted (a : RuntimeExecutionAttribution) (target : text) : bool :=
  bool_decide (normalize_resource_path target ∈ ra_rooted_targets a).

Section attribution.
Context `{JN : JsonNumber}.

Definition observation_target (a : RuntimeExecutionAttribution) (o : ToolOutput) : option text :=
  match ta_purpose (ra_host a) with
  | PurposeObserve | PurposeSearch =>
      match normalize_resource_path <$> file_path o with
      | Some target => if bool_decide (target ∈ ta_targets (ra_host a)) then Some target else None
      | None => None
      end
  | _ => None
  end.

Definition speculative_negative_target (a : RuntimeExecutionAttribution) (o : ToolOutput) : option text :=
  if out_ok o || negb (bool_decide (failure_class o = Some PathNotFound)) then None
  else
    match observation_target a o with
    | Some target => if target_is_rooted a target then None else Some target
    | None => None
    end.

End attribution.

Definition reusable_verification (a : RuntimeExecutionAttribution) : bool :=
  attr_reusable_verification (ra_host a).
Definition exact_verification_identity (a : RuntimeExecutionAttribution) : option text :=
  attr_exact_identity (ra_host a).
Definition verification_recipe (a : RuntimeExecutionAttribution) : option VerificationRecipeProvenance :=
  ta_verification_recipe (ra_host a).

(** ** The state *)

Section state.
Context `{JN : JsonNumber}.

Record CompletionRepairRecord : Type := {
  rr_basis_anchor_revision : option N;
  rr_basis_verification_revision : option N;
  rr_basis_directive_revision : option N;
  rr_basis_workspace_revision : option N;
  rr_plan : Json;
  rr_text : text;
  rr_refused_at_ms : N;
  rr_refusal_count : N;
  rr_blocker_fingerprint : text;
  rr_same_blocker_refusals : N;
  rr_no_progress_steps : N;
  rr_best_potential : option CompletionRepairPotential;
  rr_terminal : bool;
}.

Record ExecutionState : Type := {
  ex_anchor_revision : N;
  ex_directive_revision : N;
  ex_directive_has_rooted_evidence : bool;
  ex_workspace_revision : N;
  ex_checked_files : list ResourceFact;
  ex_verifications : list VerificationFact;
  ex_failed_commands : list FailedCommandFact;
  ex_completion_commit_failure : option CompletionCommitFailure;
  ex_verification : VerificationObligation;
  ex_stall : StallState;
  ex_failure_cluster : FailureCluster;
  ex_stall_advice_emitted : bool;
  ex_frontier_advice_emitted : bool;
  ex_evidence : list ExecutionEvidence;
  ex_convergence : ConvergenceState;
  ex_last_turn : N;
  ex_obligations : list ExecutionObligation;
  ex_failure_overflow : UnresolvedFailureOverflow;
  ex_negative_facts : list NegativeExecutionFact;
  ex_verification_sources : list VerificationSourceLease;
  ex_last_offered_opportunity : option text;
  ex_completion_repair : option CompletionRepairRecord;
}.

Definition default_execution : ExecutionState :=
  {| ex_anchor_revision := 0%N; ex_directive_revision := 0%N; ex_directive_has_rooted_evidence := false;
     ex_workspace_revision := 0%N; ex_checked_files := []; ex_verifications := [];
     ex_failed_commands := []; ex_completion_commit_failure := None;
     ex_verification := default_obligation; ex_stall := default_stall;
     ex_failure_cluster := default_cluster; ex_stall_advice_emitted := false;
     ex_frontier_advice_emitted := false; ex_evidence := []; ex_convergence := default_convergence;
     ex_last_turn := 0%N; ex_obligations := []; ex_failure_overflow := default_overflow;
     ex_negative_facts := []; ex_verification_sources := []; ex_last_offered_opportunity := None;
     ex_completion_repair := None |}.

Definition copy_execution (s : ExecutionState) : ExecutionState :=
  {| ex_anchor_revision := ex_anchor_revision s; ex_directive_revision := ex_directive_revision s;
     ex_directive_has_rooted_evidence := ex_directive_has_rooted_evidence s;
     ex_workspace_revision := ex_workspace_revision s; ex_checked_files := ex_checked_files s;
     ex_verifications := ex_verifications s; ex_failed_commands := ex_failed_commands s;
     ex_completion_commit_failure := ex_completion_commit_failure s;
     ex_verification := ex_verification s; ex_stall := ex_stall s;
     ex_failure_cluster := ex_failure_cluster s; ex_stall_advice_emitted := ex_stall_advice_emitted s;
     ex_frontier_advice_emitted := ex_frontier_advice_emitted s; ex_evidence := ex_evidence s;
     ex_convergence := ex_convergence s; ex_last_turn := ex_last_turn s;
     ex_obligations := ex_obligations s; ex_failure_overflow := ex_failure_overflow s;
     ex_negative_facts := ex_negative_facts s; ex_verification_sources := ex_verification_sources s;
     ex_last_offered_opportunity := ex_last_offered_opportunity s;
     ex_completion_repair := ex_completion_repair s |}.

Definition set_anchor_revision : N -> ExecutionState -> ExecutionState :=
  ltac:(setter copy_execution ex_anchor_revision).
Definition set_directive_revision : N -> ExecutionState -> ExecutionState :=
  ltac:(setter copy_execution ex_directive_revision).
Definition set_directive_has_rooted_evidence : bool -> ExecutionState -> ExecutionState :=
  ltac:(setter copy_execution ex_directive_has_rooted_evidence).
Definition set_workspace_revision : N -> ExecutionState -> ExecutionState :=
  ltac:(setter copy_execution ex_workspace_revision).
Definition set_checked_files : list ResourceFact -> ExecutionState -> ExecutionState :=
  ltac:(setter copy_execution ex_checked_files).
Definition set_verifications : list VerificationFact -> ExecutionState -> ExecutionState :=
  ltac:(setter copy_execution ex_verifications).
Definition set_failed_commands : list FailedCommandFact -> ExecutionState -> ExecutionState :=
  ltac:(setter copy_execution ex_failed_commands).
Definition set_completion_commit_failure : option CompletionCommitFailure -> ExecutionState -> ExecutionState :=
  ltac:(setter copy_execution ex_completion_commit_failure).
Definition set_verification : VerificationObligation -> ExecutionState -> ExecutionState :=
  ltac:(setter copy_execution ex_verification).
Definition set_stall : StallState -> ExecutionState -> ExecutionState :=
  ltac:(setter copy_execution ex_stall).
Definition set_failure_cluster : FailureCluster -> ExecutionState -> ExecutionState :=
  ltac:(setter copy_execution ex_failure_cluster).
Definition set_stall_advice_emitted : bool -> ExecutionState -> ExecutionState :=
  ltac:(setter copy_execution ex_stall_advice_emitted).
Definition set_frontier_advice_emitted : bool -> ExecutionState -> ExecutionState :=
  ltac:(setter copy_execution ex_frontier_advice_emitted).
Definition set_evidence : list ExecutionEvidence -> ExecutionState -> ExecutionState :=
  ltac:(setter copy_execution ex_evidence).
Definition set_convergence : ConvergenceState -> ExecutionState -> ExecutionState :=
  ltac:(setter copy_execution ex_convergence).
Definition set_last_turn : N -> ExecutionState -> ExecutionState :=
  ltac:(setter copy_execution ex_last_turn).
Definition set_obligations : list ExecutionObligation -> ExecutionState -> ExecutionState :=
  ltac:(setter copy_execution ex_obligations).
Definition set_failure_overflow : UnresolvedFailureOverflow -> ExecutionState -> ExecutionState :=
  ltac:(setter copy_execution ex_failure_overflow).
Definition set_negative_facts : list NegativeExecutionFact -> ExecutionState -> ExecutionState :=
  ltac:(setter copy_execution ex_negative_facts).
Definition set_verification_sources : list VerificationSourceLease -> ExecutionState -> ExecutionState :=
  ltac:(setter copy_execution ex_verification_sources).
Definition set_last_offered_opportunity : option text -> ExecutionState -> ExecutionState :=
  ltac:(setter copy_execution ex_last_offered_opportunity).
Definition set_completion_repair : option CompletionRepairRecord -> ExecutionState -> ExecutionState :=
  ltac:(setter copy_execution ex_completion_repair).

End state.

(** ** Queries and directive turns *)

Section queries.
Context `{JN : JsonNumber} {TC : TextCrypto}.

(** The limit of agent-runtime/opportunity.rs. *)
Definition MAX_OPPORTUNITY_KEY_CHARS : nat := N.to_nat 160.

Definition record_completion_commit_failure (reason : text) (s : ExecutionState) : ExecutionState :=
  let attempts :=
    match ex_completion_commit_failure s with
    | Some failure => saturating_add32 (cc_attempts failure) 1
    | None => 1%N
    end in
  set_completion_commit_failure
    (Some {| cc_reason := take MAX_TASK_ANCHOR_ITEM_CHARS reason; cc_attempts := attempts |}) s.

Definition clear_completion_commit_failure (s : ExecutionState) : ExecutionState :=
  set_completion_commit_failure None s.

(** [ExecutionState::on_user_turn]. *)
Definition ex_on_user_turn (message : text) (s : ExecutionState) : ExecutionState :=
  set_directive_has_rooted_evidence
    (existsb (fun row => bool_decide (rf_freshness row = Fresh)
                         && path_exactly_in_directive message (rf_path row)) (ex_checked_files s))
    (set_completion_repair None
      (set_directive_revision (saturating_add (ex_directive_revision s) 1) s)).

Definition open_obligation_count (s : ExecutionState) : N :=
  (N.of_nat (length (ex_obligations s)) + uo_omitted_obligations (ex_failure_overflow s))%N.

Definition unresolved_failed_command_count (s : ExecutionState) : N :=
  (N.of_nat (length (ex_failed_commands s)) + uo_omitted_failed_commands (ex_failure_overflow s))%N.

Definition has_failures (s : ExecutionState) : bool := (0 <? unresolved_failed_command_count s)%N.

Definition last_evidence (s : ExecutionState) : option VerificationFact := last (ex_verifications s).

Definition covered_resources_identity_confirmed (paths : list text) (s : ExecutionState) : bool :=
  negb (vo_source_changed (ex_verification s))
  && forallb (fun path => existsb (fun fact => bool_decide (rf_path fact = path)
                                               && bool_decide (rf_freshness fact = Fresh))
                            (ex_checked_files s)) paths.

Definition unknown_blocks_current (s : ExecutionState) : bool :=
  if negb (vo_unknown_pending (ex_verification s)) then false
  else
    match vo_coverage (ex_verification s) with
    | CoverResources (path :: paths) => negb (covered_resources_identity_confirmed (path :: paths) s)
    | _ => true
    end.

Definition last_failed (s : ExecutionState) : bool :=
  match last_evidence s with Some ev => negb (vf_ok ev) | None => false end.

Definition validity (s : ExecutionState) : VerificationState :=
  let v := ex_verification s in
  if vo_failed_open v || last_failed s then VFailed
  else
    match last_evidence s with
    | None =>
        if negb (bool_decide (vo_cause v = CauseNone)) || vo_required_for_completion v then Pending else NotRun
    | Some last =>
        if vo_source_changed v || unknown_blocks_current s || bool_decide (vo_cause v = SpecChanged)
           || negb (vf_anchor_revision last =? vo_spec_revision v)%N
        then Stale
        else VCurrent
    end.

Definition has_unmet_obligation (s : ExecutionState) : bool :=
  match validity s with Pending | Stale | VFailed => true | _ => false end || last_failed s.

Definition refresh_validity (s : ExecutionState) : ExecutionState :=
  set_verification (set_state (validity s) (ex_verification s)) s.

Definition record_opportunity_offer (key : text) (s : ExecutionState) : ExecutionState :=
  let key := if MAX_OPPORTUNITY_KEY_CHARS <? length key then take MAX_OPPORTUNITY_KEY_CHARS key else key in
  set_last_offered_opportunity (Some key) s.

(** [str::to_ascii_lowercase]. *)
Definition to_ascii_lowercase (s : text) : text :=
  (fun c => if is_ascii_uppercase c then (c + 32)%N else c) <$> s.

Definition turn_requests_verify (message : text) : bool :=
  let lower := to_ascii_lowercase message in
  text_contains (txt "run the tests") lower || text_contains (txt "run tests") lower
  || text_contains (txt "verify that") lower || text_contains (txt "check that tests") lower.

Definition turn_requests_complete (message : text) : bool :=
  let lower := to_ascii_lowercase message in
  text_contains (txt "task.complete") lower || text_contains (txt "complete the task") lower
  || text_contains (txt "mark this done") lower.

Definition path_mentioned_in_query (query path : text) : bool :=
  if bool_decide (path = []) then false
  else
    let query := forward_slashes query in
    text_contains path query
    || match path_file_name path with Some name => text_contains name query | None => false end.

Definition coverage_mentioned (turn_intent : text) (s : ExecutionState) : bool :=
  match vo_coverage (ex_verification s) with
  | CoverResources paths => existsb (path_mentioned_in_query turn_intent) paths
  | CoverWorkspace | Unspecified =>
      vo_source_changed (ex_verification s)
      && existsb (fun fact => path_mentioned_in_query turn_intent (rf_path fact)) (ex_checked_files s)
  end.

Definition verification_due_now (turn_intent : text) (s : ExecutionState) : bool :=
  if vo_failed_open (ex_verification s) || last_failed s then true
  else if negb (has_unmet_obligation s) then false
  else if turn_requests_complete turn_intent then true
  else if coverage_mentioned turn_intent s then true
  else turn_requests_verify turn_intent.

Definition mark_spec_changed (s : ExecutionState) : ExecutionState :=
  let v := ex_verification s in
  let v := if bool_decide (vo_state v = VFailed) then v else set_cause SpecChanged v in
  refresh_validity (set_verification (set_coverage CoverWorkspace v) s).

(** [v.drain(0..len - max)] when over. *)
Definition keep_newest {A} (max : nat) (l : list A) : list A := drop (length l - max) l.

Definition add_coverage_path (path : text) (v : VerificationObligation) : VerificationObligation :=
  match vo_coverage v with
  | CoverWorkspace => v
  | coverage =>
      let path := bound_item path in
      if bool_decide (path = []) then v
      else
        match coverage with
        | CoverResources paths =>
            if bool_decide (path ∈ paths) then v
            else set_coverage (CoverResources (keep_newest MAX_COVERAGE_PATHS (paths ++ [path]))) v
        | _ => set_coverage (CoverResources [path]) v
        end
  end.

Definition mark_source_changed (path : text) (s : ExecutionState) : ExecutionState :=
  let v := set_source_changed true (ex_verification s) in
  let v := match vo_state v with VFailed => v | _ => set_cause SourceChanged v end in
  refresh_validity (set_verification (add_coverage_path path v) s).

(** [iter().rev().find]. *)
Definition rfind {A} (f : A -> bool) (l : list A) : option A := find f (reverse l).

Definition trusted_verification_identity (s : ExecutionState) : option text :=
  if negb (bool_decide (validity s = VCurrent)) then None
  else
    vf_verification_identity <$>
      rfind (fun fact =>
        vf_ok fact
        && negb (bool_decide (vf_source_tool_name fact = []))
        && negb (bool_decide (vf_verification_identity fact = []))
        && (vf_anchor_revision fact =? vo_spec_revision (ex_verification s))%N
        && (vf_directive_revision fact =? ex_directive_revision s)%N
        && (vf_workspace_revision fact =? ex_workspace_revision s)%N) (ex_verifications s).

Definition execution_ready (s : ExecutionState) : bool :=
  bool_decide (is_Some (trusted_verification_identity s))
  && (open_obligation_count s =? 0)%N && (unresolved_failed_command_count s =? 0)%N.

Inductive SettlementLabel : Type := Working | VerificationDue | VerifiedCurrent | SettledCandidate.

Definition settlement (s : ExecutionState) : SettlementLabel :=
  match trusted_verification_identity s with
  | None => if has_unmet_obligation s then VerificationDue else Working
  | Some _ => if (0 <? open_obligation_count s)%N || has_failures s then Working else VerifiedCurrent
  end.

Definition fact_for (path : text) (s : ExecutionState) : option ResourceFact :=
  find (fun row => bool_decide (rf_path row = path)) (ex_checked_files s).

(** [split_once('@')] and [rsplit_once('@')]. *)
Fixpoint split_at_sign (s : text) : option (text * text) :=
  match s with
  | [] => None
  | c :: s' =>
      if (c =? 64)%N then Some ([], s')
      else (fun p => (c :: p.1, p.2)) <$> split_at_sign s'
  end.

Definition rsplit_at_sign (s : text) : option (text * text) :=
  (fun p => (reverse p.2, reverse p.1)) <$> split_at_sign (reverse s).

Definition path_is_execution_rooted (path : text) (s : ExecutionState) : bool :=
  let path := normalize_resource_path path in
  if bool_decide (path = []) then false
  else
    existsb (fun fact => bool_decide (rf_path fact = path)) (ex_checked_files s)
    || match vo_coverage (ex_verification s) with
       | CoverResources paths => bool_decide (path ∈ paths)
       | _ => false
       end
    || existsb (fun row =>
         bool_decide (ob_scope_key row = path)
         || match split_at_sign (ob_precondition row) with
            | Some (candidate, _) => bool_decide (candidate = path)
            | None => bool_decide (ob_precondition row = path)
            end) (ex_obligations s).

Definition sorted_names (names : list text) : list text := dedup (sorting.merge_sort text_order names).

Definition obligation_source_tools (s : ExecutionState) : list text :=
  sorted_names (ob_source_tool_name <$>
    List.filter (fun row => negb (bool_decide (ob_source_tool_name row = []))) (ex_obligations s)).

Definition verification_source_tools (verification_revision : N) (s : ExecutionState) : list text :=
  sorted_names (sl_tool_name <$>
    List.filter (fun source => (sl_anchor_revision source =? verification_revision)%N)
      (ex_verification_sources s)).

(** The fact's basis tuple is the current one. *)
Definition fact_on_basis (verification_revision : N) (s : ExecutionState) (fact : VerificationFact) : bool :=
  (vf_anchor_revision fact =? verification_revision)%N
  && (vf_directive_revision fact =? ex_directive_revision s)%N
  && (vf_workspace_revision fact =? ex_workspace_revision s)%N.

Definition current_exact_verification_pass (tool_name argument_digest : text) (verification_revision : N)
    (a : RuntimeExecutionAttribution) (s : ExecutionState) : option VerificationFact :=
  match exact_verification_identity a with
  | None => None
  | Some identity =>
      if negb (vo_spec_revision (ex_verification s) =? verification_revision)%N
         || negb (bool_decide (validity s = VCurrent))
      then None
      else
        rfind (fun fact =>
          vf_ok fact && fact_on_basis verification_revision s fact
          && bool_decide (vf_source_tool_name fact = tool_name)
          && bool_decide (vf_argument_digest fact = argument_digest)
          && bool_decide (vf_verification_identity fact = identity)) (ex_verifications s)
  end.

Definition current_exact_verification_failure (tool_name argument_digest : text) (verification_revision : N)
    (a : RuntimeExecutionAttribution) (s : ExecutionState) : option VerificationFact :=
  match exact_verification_identity a with
  | None => None
  | Some identity =>
      rfind (fun fact =>
        negb (vf_ok fact) && fact_on_basis verification_revision s fact
        && bool_decide (vf_source_tool_name fact = tool_name)
        && bool_decide (vf_argument_digest fact = argument_digest)
        && bool_decide (vf_verification_identity fact = identity)) (ex_verifications s)
  end.

Definition current_domain_verification_pass (verification_revision : N) (a : RuntimeExecutionAttribution)
    (s : ExecutionState) : option VerificationFact :=
  match exact_verification_identity a, verification_recipe a with
  | Some _, Some requested =>
      match vp_coverage_domain requested with
      | None => None
      | Some domain =>
          if match vp_domain_declaration_revision requested with
             | Some revision => (revision =? 0)%N
             | None => true
             end
             || negb (is_content_digest (vp_domain_source_digest requested))
             || bool_decide (vp_class_identity_digest requested = [])
          then None
          else if negb (vo_spec_revision (ex_verification s) =? verification_revision)%N
                  || negb (bool_decide (validity s = VCurrent))
          then None
          else
            rfind (fun fact =>
              vf_ok fact && fact_on_basis verification_revision s fact
              && match vf_recipe_provenance fact with
                 | Some recorded =>
                     bool_decide (vp_class_identity_digest recorded = vp_class_identity_digest requested)
                     && bool_decide (vp_coverage_domain recorded = Some domain)
                     && bool_decide (vp_domain_declaration_revision recorded
                                     = vp_domain_declaration_revision requested)
                     && bool_decide (vp_domain_source_digest recorded = vp_domain_source_digest requested)
                 | None => false
                 end) (ex_verifications s)
      end
  | _, _ => None
  end.

Definition current_negative_fact (tool_name : text) (a : RuntimeExecutionAttribution) (s : ExecutionState) :
    option NegativeExecutionFact :=
  match ta_purpose (ra_host a) with
  | PurposeObserve | PurposeSearch =>
      head (omap (fun target =>
        if target_is_rooted a target then None
        else
          find (fun fact =>
            bool_decide (nf_tool_name fact = tool_name) && bool_decide (nf_target fact = target)
            && bool_decide (nf_failure fact = PathNotFound)
            && (nf_workspace_revision fact =? ex_workspace_revision s)%N) (ex_negative_facts s))
        (ta_targets (ra_host a)))
  | _ => None
  end.

Definition fact_recency (x y : ResourceFact) : Prop :=
  ((rf_turn y <? rf_turn x)%N || ((rf_turn x =? rf_turn y)%N && text_le (rf_path x) (rf_path y))) = true.

#[export] Instance fact_recency_dec : RelDecision fact_recency.
Proof. intros x y. unfold fact_recency. apply _. Defined.

(** [ResourceKey]: path and revision. *)
Definition foreground_resources (turn_intent : text) (s : ExecutionState) : list (text * option text) :=
  let hits := List.filter (fun row =>
      negb (bool_decide (rf_freshness row = Missing))
      && (bool_decide (rf_kind row = FileBody) && bool_decide (rf_provenance row = ProvRead))
      && path_exactly_in_directive turn_intent (rf_path row)) (ex_checked_files s) in
  (fun row => (rf_path row, nonempty_text (rf_digest row))) <$>
    take MAX_FOREGROUND_RESOURCES (sorting.merge_sort fact_recency hits).

End queries.
