(* ===== verification/Observe.v ===== *)
(** What one tool observation does to the execution state: [observe_tool_inner] and the
    before-model revalidation of agent-runtime/execution/freshness.rs, over the ledgers of
    execution/state.rs; and the bounds a restored state is held to.

    What the version oracle answers for a path is an environment. *)

From stdpp Require Import sorting.
From S2P Require Import Prelude Text Digest Jcs Operation OutputBroker Capability Artifact ToolFacts Execution.

Inductive NegativeFactEventKind : Type := NegRecorded | NegReused | NegInvalidated | NegPromoted | NegResolved.

Record NegativeFactTransition : Type := {
  nt_kind : NegativeFactEventKind;
  nt_tool_name : text;
  nt_target : text;
  nt_failure : ToolFailureClass;
  nt_workspace_revision : N;
}.

(** The kind is always [Recorded] here. *)
Record VerificationPassTransition : Type := {
  pt_tool_name : text;
  pt_argument_digest : text;
  pt_verification_identity : text;
  pt_anchor_revision : N;
  pt_directive_revision : N;
  pt_workspace_revision : N;
}.

Inductive ObligationEventKind : Type :=
| ObOpened | ObAttempted | ObPreconditionChanged | ObResolved | ObDropped | ObOverflowed.

Record ExecutionObligationEvent : Type := {
  oe_kind : ObligationEventKind;
  oe_domain : ToolFailureDomain;
  oe_scope_digest : text;
  oe_epoch : N;
  oe_attempts_in_epoch : N;
  oe_total_attempts : N;
}.

Inductive ObservationEvidence : Type :=
| ObsAdvanced | ObsReconfirmed | ObsRepeated | ObsUntrackedNovelty | ObsNone.

#[export] Instance ObservationEvidence_eq_dec : EqDecision ObservationEvidence.
Proof. solve_decision. Defined.

Inductive ResourceObservation : Type := ResNone | ResReconfirmed | ResAdvanced.

#[export] Instance ResourceObservation_eq_dec : EqDecision ResourceObservation.
Proof. solve_decision. Defined.

Inductive FrontierProgress : Type := ProgNone | ProgKnowledge | ProgDelivery.

(** [ResourceObservation::merge]. *)
Definition merge_observation (self other : ResourceObservation) : ResourceObservation :=
  match other, self with
  | ResAdvanced, _ => ResAdvanced
  | ResReconfirmed, ResNone => ResReconfirmed
  | _, _ => self
  end.

Record OperationIdentity : Type := {
  oi_tool_name : text;
  oi_target : text;
  oi_argument_digest : text;
  oi_outcome_equivalence_key : text;
}.

Record FailureBlockerIdentity : Type := {
  fb_domain : ToolFailureDomain;
  fb_scope_key : text;
  fb_precondition : text;
}.

Record FailureResolutionEvidence : Type := {
  fe_observation_ok : bool;
  fe_incoming_failure : option FailureBlockerIdentity;
  fe_launch_ok : bool;
  fe_launch_scope : text;
  fe_mutated_paths : list text;
  fe_observed_resources : list (text * text);
  fe_verified_resources : list text;
}.

Definition is_command_tool (name : text) : bool :=
  bool_decide (name = txt "shell.exec") || bool_decide (name = txt "process.run")
  || bool_decide (name = txt "verify.run") || starts_with (txt "git.") name.

Section identity.
Context `{JN : JsonNumber}.

Definition operation_identity (o : ToolOutput) (argument_digest : text)
    (attribution : option RuntimeExecutionAttribution) : OperationIdentity :=
  {| oi_tool_name := out_tool_name o;
     oi_target := or_empty (operation_target o);
     oi_argument_digest := argument_digest;
     oi_outcome_equivalence_key := or_empty (attribution ≫= fun a => outcome_equivalence_key (ra_host a)) |}.

Definition same_operation (row : FailedCommandFact) (identity : OperationIdentity) : bool :=
  if negb (bool_decide (fc_tool_name row = oi_tool_name identity)) then false
  else if negb (bool_decide (fc_outcome_equivalence_key row = []))
          && negb (bool_decide (oi_outcome_equivalence_key identity = []))
  then bool_decide (fc_outcome_equivalence_key row = oi_outcome_equivalence_key identity)
  else
    negb (bool_decide (fc_argument_digest row = []))
    && negb (bool_decide (oi_argument_digest identity = []))
    && bool_decide (fc_argument_digest row = oi_argument_digest identity).

(** [metadata.get(key).and_then(as_str).map(bound_evidence_text).unwrap_or_default()]. *)
Definition metadata_identity (o : ToolOutput) (key : text) : text :=
  or_empty (bound_evidence_text <$> (get_field key (out_metadata o) ≫= as_str)).

Definition failure_blocker_identity (o : ToolOutput) : option FailureBlockerIdentity :=
  let domain := failure_domain o in
  let made (scope_key precondition : text) :=
    if bool_decide (scope_key = []) && bool_decide (precondition = []) then None
    else Some {| fb_domain := domain; fb_scope_key := scope_key; fb_precondition := precondition |} in
  match domain with
  | NonDeterministic => None
  | ExecutableResolution =>
      made (metadata_identity o (txt "resolution_scope_key")) (metadata_identity o (txt "resolution_fingerprint"))
  | EditTarget | ResourcePath =>
      match resource_touches o with
      | [] => None
      | touch :: _ =>
          let precondition :=
            match domain, rt_revision touch with
            | EditTarget, Some (c :: revision) =>
                bound_evidence_text (rt_path touch ++ txt "@" ++ c :: revision)
            | _, _ => []
            end in
          made (bound_evidence_text (rt_path touch)) precondition
      end
  | ProjectMarker => made (metadata_identity o (txt "missing_marker")) []
  end.

(** The [HashMap] of the observed resources; paths are distinct. *)
Definition observed_revision (path : text) (e : FailureResolutionEvidence) : option text :=
  snd <$> find (fun p => bool_decide (p.1 = path)) (fe_observed_resources e).

(** [failure_resolution]: whether the observation resolves the blocker. *)
Definition failure_resolves (domain : ToolFailureDomain) (scope_key precondition : text)
    (e : FailureResolutionEvidence) : bool :=
  if match fe_incoming_failure e with
     | Some incoming => bool_decide (fb_domain incoming = domain) && bool_decide (fb_scope_key incoming = scope_key)
     | None => false
     end
  then false
  else
    match domain with
    | ExecutableResolution => fe_launch_ok e && bool_decide (scope_key = fe_launch_scope e)
    | EditTarget =>
        let path :=
          if bool_decide (scope_key = [])
          then default precondition (fst <$> split_at_sign precondition) else scope_key in
        let old_revision := or_empty (snd <$> rsplit_at_sign precondition) in
        let identity_moved :=
          fe_observation_ok e && negb (bool_decide (old_revision = []))
          && match observed_revision path e with
             | Some digest => negb (bool_decide (digest = [])) && negb (bool_decide (digest = old_revision))
             | None => false
             end in
        let covered_by_verifier := bool_decide (path ∈ fe_verified_resources e) in
        negb (bool_decide (path = [])) && (identity_moved || covered_by_verifier)
    | ResourcePath | ProjectMarker =>
        bool_decide (scope_key ∈ fe_mutated_paths e) || bool_decide (is_Some (observed_revision scope_key e))
    | NonDeterministic => false
    end.

Definition same_failure_slot (row : FailedCommandFact) (operation : OperationIdentity)
    (blocker : option FailureBlockerIdentity) : bool :=
  match blocker with
  | Some blocker =>
      negb (bool_decide (fb_domain blocker = NonDeterministic))
      && bool_decide (fc_domain row = fb_domain blocker) && bool_decide (fc_scope_key row = fb_scope_key blocker)
  | None => same_operation row operation
  end.

End identity.

(** ** Replacing or removing the first row a predicate finds *)

Fixpoint update_first {A} (f : A -> bool) (g : A -> A) (l : list A) : option (list A) :=
  match l with
  | [] => None
  | x :: l' => if f x then Some (g x :: l') else (fun r => x :: r) <$> update_first f g l'
  end.

Fixpoint remove_first {A} (f : A -> bool) (l : list A) : option (A * list A) :=
  match l with
  | [] => None
  | x :: l' => if f x then Some (x, l') else (fun r => (r.1, x :: r.2)) <$> remove_first f l'
  end.

Section ledgers.
Context `{JN : JsonNumber} {JU : JsonU64} {TC : TextCrypto} {UC : UuidCodec}.

(** ** Resource facts *)

Definition mark_facts_needs_revalidation (s : ExecutionState) : ExecutionState :=
  set_checked_files
    ((fun fact =>
       if bool_decide (rf_freshness fact = Missing) then fact
       else {| rf_path := rf_path fact; rf_digest := rf_digest fact; rf_freshness := NeedsRevalidation;
               rf_turn := rf_turn fact; rf_provenance := rf_provenance fact; rf_kind := rf_kind fact |})
     <$> ex_checked_files s) s.

Definition upsert_file (path digest : text) (turn : N) (provenance : ResourceProvenance)
    (kind : ResourceFactKind) (s : ExecutionState) : ResourceObservation * ExecutionState :=
  let path := bound_item path in
  let digest := bound_item digest in
  let is_row (row : ResourceFact) := bool_decide (rf_path row = path) in
  let digest_changed := existsb (fun row =>
      is_row row && negb (bool_decide (rf_digest row = [])) && negb (bool_decide (digest = []))
      && negb (bool_decide (rf_digest row = digest))) (ex_checked_files s) in
  let s := if digest_changed then mark_source_changed path s else s in
  let fresh := {| rf_path := path; rf_digest := digest; rf_freshness := Fresh; rf_turn := turn;
                  rf_provenance := provenance; rf_kind := kind |} in
  match find is_row (ex_checked_files s), update_first is_row (fun _ => fresh) (ex_checked_files s) with
  | Some existing, Some rows =>
      let semantic_changed := digest_changed || negb (bool_decide (rf_digest existing = digest)) in
      let currentness_repaired := negb semantic_changed && negb (bool_decide (rf_freshness existing = Fresh)) in
      (if semantic_changed then ResAdvanced else if currentness_repaired then ResReconfirmed else ResNone,
       set_checked_files rows s)
  | _, _ => (ResAdvanced, set_checked_files (ex_checked_files s ++ [fresh]) s)
  end.

(** ** Failed commands *)

Definition push_failure (o : ToolOutput) (identity : OperationIdentity) (summary : text) (turn : N)
    (s : ExecutionState) : ExecutionState :=
  let blocker := failure_blocker_identity o in
  let kept := List.filter (fun row => negb (same_failure_slot row identity blocker)) (ex_failed_commands s) in
  let blocker := default {| fb_domain := NonDeterministic; fb_scope_key := []; fb_precondition := [] |} blocker in
  set_failed_commands
    (kept ++ [{| fc_tool_name := bound_item (oi_tool_name identity);
                 fc_target := bound_item (oi_target identity);
                 fc_argument_digest := bound_item (oi_argument_digest identity);
                 fc_outcome_equivalence_key := bound_item (oi_outcome_equivalence_key identity);
                 fc_domain := fb_domain blocker; fc_scope_key := fb_scope_key blocker;
                 fc_precondition := fb_precondition blocker;
                 fc_summary := bound_item summary; fc_turn := turn |}]) s.

(** ** Verifications *)

Definition push_verification (o : ToolOutput) (argument_digest : text)
    (attribution : option RuntimeExecutionAttribution) (turn : N) (s : ExecutionState) :
    option VerificationPassTransition * ExecutionState :=
  let identity := or_empty (bound_item <$> (attribution ≫= exact_verification_identity)) in
  let exact := negb (bool_decide (identity = [])) in
  let source_tool_name := if exact then bound_item (out_tool_name o) else [] in
  let argument_digest := if exact then bound_item argument_digest else [] in
  let basis := vo_spec_revision (ex_verification s) in
  let fact :=
    {| vf_summary := bound_item (out_summary o); vf_ok := out_ok o; vf_turn := turn;
       vf_anchor_revision := basis; vf_workspace_revision := ex_workspace_revision s;
       vf_source_tool_name := source_tool_name; vf_argument_digest := argument_digest;
       vf_verification_identity := identity; vf_directive_revision := ex_directive_revision s;
       vf_evidence_ref := bound_item <$> out_artifact_ref o;
       vf_recipe_provenance := attribution ≫= verification_recipe |} in
  (if out_ok o && exact
   then Some {| pt_tool_name := source_tool_name; pt_argument_digest := argument_digest;
                pt_verification_identity := identity; pt_anchor_revision := basis;
                pt_directive_revision := ex_directive_revision s;
                pt_workspace_revision := ex_workspace_revision s |}
   else None,
   set_verifications (ex_verifications s ++ [fact]) s).

Definition record_verification_source (tool_name argument_digest : text)
    (attribution : option RuntimeExecutionAttribution) (s : ExecutionState) : ExecutionState :=
  if negb (from_option reusable_verification false attribution) then s
  else
    let tool_name := bound_item tool_name in
    set_verification_sources
      (List.filter (fun source => negb (bool_decide (sl_tool_name source = tool_name))) (ex_verification_sources s)
       ++ [{| sl_tool_name := tool_name; sl_argument_digest := bound_item argument_digest;
              sl_anchor_revision := vo_spec_revision (ex_verification s) |}]) s.

(** ** Negative facts *)

Definition negative_transition (kind : NegativeFactEventKind) (s : ExecutionState) (fact : NegativeExecutionFact) :
    NegativeFactTransition :=
  {| nt_kind := kind; nt_tool_name := nf_tool_name fact; nt_target := nf_target fact;
     nt_failure := nf_failure fact; nt_workspace_revision := ex_workspace_revision s |}.

Definition invalidate_negative_facts_for_world_change (s : ExecutionState) :
    list NegativeFactTransition * ExecutionState :=
  (negative_transition NegInvalidated s <$> ex_negative_facts s, set_negative_facts [] s).

Definition negative_row (tool_name target : text) (fact : NegativeExecutionFact) : bool :=
  bool_decide (nf_tool_name fact = tool_name) && bool_decide (nf_target fact = target).

(** Remove the row of this tool and target, if there is one. *)
Definition drop_negative (kind : NegativeFactEventKind) (tool_name target : text) (s : ExecutionState) :
    list NegativeFactTransition * ExecutionState :=
  match remove_first (negative_row tool_name target) (ex_negative_facts s) with
  | Some (fact, rows) => ([negative_transition kind s fact], set_negative_facts rows s)
  | None => ([], s)
  end.

Definition invalidate_negative_fact (tool_name target : text) (s : ExecutionState) :
    option NegativeFactTransition * ExecutionState :=
  let r := drop_negative NegInvalidated tool_name (normalize_resource_path target) s in
  (head r.1, r.2).

Definition observe_negative_fact (o : ToolOutput) (argument_digest : text) (turn : N)
    (attribution : option RuntimeExecutionAttribution) (s : ExecutionState) :
    bool * list NegativeFactTransition * ExecutionState :=
  match attribution with
  | None => (false, [], s)
  | Some attribution =>
      match observation_target attribution o with
      | None => (false, [], s)
      | Some target =>
          if out_ok o then
            let r := drop_negative NegResolved (out_tool_name o) target s in (false, r.1, r.2)
          else if negb (bool_decide (failure_class o = Some PathNotFound)) then (false, [], s)
          else if target_is_rooted attribution target then
            let r := drop_negative NegPromoted (out_tool_name o) target s in (false, r.1, r.2)
          else
            let argument_digest := bound_item argument_digest in
            match update_first (negative_row (out_tool_name o) target)
                    (fun fact => {| nf_tool_name := nf_tool_name fact; nf_target := nf_target fact;
                                    nf_argument_digest := argument_digest; nf_failure := nf_failure fact;
                                    nf_workspace_revision := ex_workspace_revision s; nf_turn := turn |})
                    (ex_negative_facts s) with
            | Some rows => (true, [], set_negative_facts rows s)
            | None =>
                let fact := {| nf_tool_name := bound_item (out_tool_name o); nf_target := target;
                               nf_argument_digest := argument_digest; nf_failure := PathNotFound;
                               nf_workspace_revision := ex_workspace_revision s; nf_turn := turn |} in
                (true, [negative_transition NegRecorded s fact],
                 set_negative_facts (ex_negative_facts s ++ [fact]) s)
            end
      end
  end.

(** ** Obligations *)

Definition obligation_event (kind : ObligationEventKind) (o : ExecutionObligation) : ExecutionObligationEvent :=
  {| oe_kind := kind; oe_domain := ob_domain o; oe_scope_digest := ob_scope_key o; oe_epoch := ob_epoch o;
     oe_attempts_in_epoch := ob_attempts o; oe_total_attempts := ob_total_attempts o |}.

(** The row's next attempt: the same precondition counts in its epoch, another one
    opens the next epoch. *)
Definition attempt_obligation (fingerprint target : text) (row : ExecutionObligation) :
    ObligationEventKind * ExecutionObligation :=
  let same := bool_decide (ob_precondition row = fingerprint) in
  let tried :=
    if bool_decide (target ∈ ob_tried_targets row) || (MAX_OBLIGATION_TARGETS <=? length (ob_tried_targets row))
    then ob_tried_targets row else ob_tried_targets row ++ [target] in
  (if same then ObAttempted else ObPreconditionChanged,
   {| ob_domain := ob_domain row; ob_scope_key := ob_scope_key row; ob_precondition := fingerprint;
      ob_attempts := if same then saturating_add32 (ob_attempts row) 1 else 1%N;
      ob_epoch := if same then ob_epoch row else saturating_add32 (ob_epoch row) 1;
      ob_total_attempts := saturating_add32 (ob_total_attempts row) 1;
      ob_tried_targets := tried;
      ob_opened_at_evidence_revision := ob_opened_at_evidence_revision row;
      ob_source_tool_name := ob_source_tool_name row |}).

(** The epoch the overflow sentinel is stamped with when it first fills. *)
Definition overflow_epoch (s : ExecutionState) : N :=
  if overflow_is_empty (ex_failure_overflow s) then ex_directive_revision s
  else uo_directive_revision (ex_failure_overflow s).

Definition record_obligation (o : ToolOutput) (identity : OperationIdentity) (speculative_negative : bool)
    (s : ExecutionState) : list ExecutionObligationEvent * ExecutionState :=
  if out_ok o || speculative_negative then ([], s)
  else
    match failure_blocker_identity o with
    | None => ([], s)
    | Some blocker =>
        let target := bound_evidence_text (oi_target identity) in
        let is_row row := bool_decide (ob_domain row = fb_domain blocker)
                          && bool_decide (ob_scope_key row = fb_scope_key blocker) in
        match find is_row (ex_obligations s),
              update_first is_row (fun row => (attempt_obligation (fb_precondition blocker) target row).2)
                (ex_obligations s) with
        | Some row, Some rows =>
            let next := attempt_obligation (fb_precondition blocker) target row in
            ([obligation_event next.1 next.2], set_obligations rows s)
        | _, _ =>
            if MAX_OBLIGATIONS <=? length (ex_obligations s) then
              ([], set_failure_overflow
                     {| uo_directive_revision := overflow_epoch s;
                        uo_omitted_obligations :=
                          saturating_add32 (uo_omitted_obligations (ex_failure_overflow s)) 1;
                        uo_omitted_failed_commands := uo_omitted_failed_commands (ex_failure_overflow s) |} s)
            else
              let row := {| ob_domain := fb_domain blocker; ob_scope_key := fb_scope_key blocker;
                            ob_precondition := fb_precondition blocker; ob_attempts := 1; ob_epoch := 1;
                            ob_total_attempts := 1; ob_tried_targets := [target];
                            ob_opened_at_evidence_revision := cv_evidence_revision (ex_convergence s);
                            ob_source_tool_name := bound_evidence_text (out_tool_name o) |} in
              ([obligation_event ObOpened row], set_obligations (ex_obligations s ++ [row]) s)
        end
    end.

Definition resolution_evidence (o : ToolOutput) (attribution : option RuntimeExecutionAttribution) :
    FailureResolutionEvidence :=
  let launch_ok := out_ok o && is_command_tool (out_tool_name o) in
  let touches := if out_ok o then resource_touches o else [] in
  {| fe_observation_ok := out_ok o;
     fe_incoming_failure := if out_ok o then None else failure_blocker_identity o;
     fe_launch_ok := launch_ok;
     fe_launch_scope := if launch_ok then metadata_identity o (txt "resolution_scope_key") else [];
     fe_mutated_paths :=
       match mutation_footprint o with
       | FootprintKnown _ => rt_path <$> touches
       | _ => []
       end;
     fe_observed_resources := (fun touch => (rt_path touch, or_empty (rt_revision touch))) <$> touches;
     fe_verified_resources :=
       if out_ok o then
         match attribution with
         | Some a => if reusable_verification a then ra_rooted_targets a else []
         | None => []
         end
       else [] |}.

Definition resolve_failure_blockers (o : ToolOutput) (attribution : option RuntimeExecutionAttribution)
    (s : ExecutionState) : list ExecutionObligationEvent * ExecutionState :=
  let e := resolution_evidence o attribution in
  let resolves row := failure_resolves (ob_domain row) (ob_scope_key row) (ob_precondition row) e in
  let events := (fun row =>
      {| oe_kind := ObResolved; oe_domain := ob_domain row; oe_scope_digest := ob_scope_key row;
         oe_epoch := ob_epoch row; oe_attempts_in_epoch := ob_attempts row;
         oe_total_attempts := effective_total row |}) <$> List.filter resolves (ex_obligations s) in
  (events,
   set_failed_commands
     (List.filter (fun row => negb (failure_resolves (fc_domain row) (fc_scope_key row) (fc_precondition row) e))
        (ex_failed_commands s))
     (set_obligations (List.filter (fun row => negb (resolves row)) (ex_obligations s)) s)).

(** ** Evidence *)

Definition evidence_coverage_covers (existing : list FileBodyWindow) (w : FileBodyWindow) : bool :=
  visible_body_windows_cover existing (fw_path w) (fw_revision w) (fw_start_line w) (fw_end_line w)
  || bool_decide (w ∈ existing).

(** [None] where the function returns [false], leaving the ledger unchanged. *)
Definition merge_evidence_coverage (existing : list FileBodyWindow) (w : FileBodyWindow) :
    option (list FileBodyWindow) :=
  if evidence_coverage_covers existing w then None
  else if MAX_EVIDENCE_COVERAGE_WINDOWS <=? length existing then None
  else Some (existing ++ [w]).

Definition merge_identity (w : FileBodyWindow) : option (text * text) :=
  if negb (fw_complete w) then None
  else
    match (trim <$> fw_revision w) ≫= nonempty_text with
    | Some revision => Some (normalize_resource_path (fw_path w), revision)
    | None => None
    end.

(** A window of the new window's identity with a known, non-inverted range. *)
Definition group_interval (identity : text * text) (w : FileBodyWindow) : option (N * N) :=
  if bool_decide (merge_identity w = Some identity) then
    match window_interval w with
    | Some (s, e) => if (s <=? e)%N then Some (s, e) else None
    | None => None
    end
  else None.

(** The intervals are sorted, so the loop's [prev_start <= start] holds. *)
Definition consolidate_evidence_coverage (existing : list FileBodyWindow) (w : FileBodyWindow) :
    option (list FileBodyWindow) :=
  match merge_identity w with
  | None => None
  | Some identity =>
      if existsb (fun c => bool_decide (merge_identity c = Some identity) && fw_covers_file c) existing
      then Some existing
      else
        let group := omap (group_interval identity) existing in
        let kept := List.filter (fun c => bool_decide (group_interval identity c = None)) existing in
        if fw_covers_file w then
          if bool_decide (group = []) then None
          else if MAX_EVIDENCE_COVERAGE_WINDOWS <? length kept + 1 then None
          else Some (kept ++ [w])
        else
          match window_interval w with
          | Some (s, e) =>
              if negb (s <=? e)%N then None
              else
                let merged := merge_intervals (merge_sort interval_order (group ++ [(s, e)])) in
                if MAX_EVIDENCE_COVERAGE_WINDOWS <? length kept + length merged then None
                else
                  Some (kept ++ ((fun i =>
                    {| fw_path := fw_path w; fw_revision := fw_revision w; fw_start_line := Some i.1;
                       fw_end_line := Some i.2; fw_covers_file := false; fw_complete := true |}) <$> merged))
          | None => None
          end
  end.

Definition observation_outcome_digest (o : ToolOutput) : text :=
  match (out_artifact_ref o ≫= fun reference =>
           match parse_sealed reference with Ok l => locator_digest l | Err _ => None end) with
  | Some digest => digest_display digest
  | None =>
      digest_display (sha256_text (as_bytes
        (if bool_decide (out_model_content o = []) then out_summary o else out_model_content o)))
  end.

(** [as_u64] then [u32::try_from]. *)
Definition metadata_u32 (key : text) (o : ToolOutput) : option N :=
  match get_field key (out_metadata o) with
  | Some (JNumber n) =>
      match number_u64 n with
      | Some line => if (line <=? u32_max)%N then Some line else None
      | None => None
      end
  | _ => None
  end.

Definition metadata_flag (key : text) (o : ToolOutput) : bool :=
  default false (get_field key (out_metadata o) ≫= as_bool).

Definition observation_coverage_window (o : ToolOutput) (touch : option ResourceTouch) : option FileBodyWindow :=
  if negb (bool_decide (out_tool_name o = txt "fs.read")) then None
  else
    match touch with
    | None => None
    | Some touch =>
        let start_line := metadata_u32 (txt "start_line") o in
        let end_line := metadata_u32 (txt "end_line") o in
        let covers_file := metadata_flag (txt "covers_file") o in
        let clipped := metadata_flag (txt "truncated") o || metadata_flag (txt "window_truncated") o in
        if clipped || (bool_decide (start_line = None) && bool_decide (end_line = None) && negb covers_file)
        then None
        else Some {| fw_path := rt_path touch; fw_revision := rt_revision touch; fw_start_line := start_line;
                     fw_end_line := end_line; fw_covers_file := covers_file; fw_complete := true |}
    end.

Definition evidence_key (o : ToolOutput) (s : ExecutionState) : option (text * EvidenceValidity) :=
  let target := or_empty (operation_target o) in
  if bool_decide (out_tool_name o ∈ [txt "git.status"; txt "git.diff"; txt "git.log"])
  then Some (out_tool_name o, ValidWorkspaceRevision (ex_workspace_revision s))
  else
    match resource_touches o with
    | touch :: _ =>
        Some (out_tool_name o ++ txt ":" ++ bound_item (rt_path touch),
              ValidResource (rt_path touch) (or_empty (rt_revision touch)))
    | [] =>
        if is_command_tool (out_tool_name o) && negb (bool_decide (target = []))
        then Some (out_tool_name o ++ txt ":" ++ bound_item target,
                   ValidWorkspaceRevision (ex_workspace_revision s))
        else None
    end.

Definition bump_evidence_revision (s : ExecutionState) : ExecutionState :=
  set_convergence
    (set_evidence_revision (saturating_add (cv_evidence_revision (ex_convergence s)) 1) (ex_convergence s)) s.

(** What the window does to the row's ledger: whether coverage advanced, whether it is
    untracked, and the ledger. *)
Definition advance_coverage (coverage : option FileBodyWindow) (coverage_known same_validity : bool)
    (ledger : list FileBodyWindow) : bool * bool * list FileBodyWindow :=
  match coverage with
  | Some w =>
      if same_validity && negb coverage_known then
        match merge_evidence_coverage ledger w with
        | Some ledger' => (true, false, ledger')
        | None =>
            match consolidate_evidence_coverage ledger w with
            | Some ledger' => (true, false, ledger')
            | None => (false, true, ledger)
            end
        end
      else (false, false, ledger)
  | None => (false, false, ledger)
  end.

Definition record_observation_evidence (o : ToolOutput) (turn : N) (argument_digest : text) (s : ExecutionState) :
    ObservationEvidence * ExecutionState :=
  match evidence_key o s with
  | None => (ObsNone, s)
  | Some (key, validity) =>
      let outcome := bound_evidence_text (trim (out_summary o)) in
      let outcome_digest := observation_outcome_digest o in
      let argument_digest :=
        bound_evidence_text (if bool_decide (argument_digest = []) then or_empty (operation_target o)
                             else argument_digest) in
      let coverage := observation_coverage_window o (head (resource_touches o)) in
      let row (cov : list FileBodyWindow) :=
        {| ev_key := key; ev_outcome := outcome; ev_observed_world_revision := ex_workspace_revision s;
           ev_validity := validity; ev_argument_digest := argument_digest; ev_outcome_digest := outcome_digest;
           ev_current := true; ev_turn := turn; ev_evidence_ref := out_artifact_ref o; ev_coverage := cov |} in
      match find (fun row => bool_decide (ev_key row = key)) (ex_evidence s) with
      | None =>
          (ObsAdvanced,
           bump_evidence_revision
             (set_evidence (take MAX_EVIDENCE_ROWS (row (option_list coverage) :: ex_evidence s)) s))
      | Some existing =>
          let same_semantic := negb (bool_decide (ev_outcome_digest existing = []))
            && bool_decide (ev_outcome_digest existing = outcome_digest)
            && bool_decide (ev_argument_digest existing = argument_digest) in
          let same_validity := bool_decide (ev_validity existing = validity) in
          let coverage_known := from_option (evidence_coverage_covers (ev_coverage existing)) false coverage in
          let '(coverage_advanced, coverage_untracked, ledger) :=
            advance_coverage coverage coverage_known same_validity (ev_coverage existing) in
          let equivalent := same_semantic || coverage_known in
          if equivalent && ev_current existing && same_validity && negb coverage_advanced then (ObsRepeated, s)
          else
            let reconfirmed := equivalent && negb (ev_current existing) && negb coverage_advanced in
            let ledger := if same_validity then ledger else option_list coverage in
            let rows := default (ex_evidence s)
              (update_first (fun row => bool_decide (ev_key row = key)) (fun _ => row ledger) (ex_evidence s)) in
            let s := bump_evidence_revision (set_evidence rows s) in
            if coverage_untracked then
              (ObsUntrackedNovelty,
               set_convergence
                 (set_untracked (saturating_add32 (cv_untracked_observations (ex_convergence s)) 1)
                    (ex_convergence s)) s)
            else (if reconfirmed then ObsReconfirmed else ObsAdvanced, s)
      end
  end.

Definition invalidates (s : ExecutionState) (row : ExecutionEvidence) : bool :=
  let binding_current :=
    match ev_validity row with
    | ValidWorkspaceRevision at_revision => (at_revision =? ex_workspace_revision s)%N
    | ValidResource path digest =>
        match rfind (fun fact => bool_decide (rf_freshness fact = Fresh) && bool_decide (rf_path fact = path))
                (ex_checked_files s) with
        | Some fact => bool_decide (rf_digest fact = digest)
        | None => false
        end
    | ValidTurn => negb (ev_turn row =? 0)%N && (ev_turn row =? ex_last_turn s)%N
    end in
  ev_current row && negb binding_current.

Definition set_not_current (row : ExecutionEvidence) : ExecutionEvidence :=
  {| ev_key := ev_key row; ev_outcome := ev_outcome row;
     ev_observed_world_revision := ev_observed_world_revision row; ev_validity := ev_validity row;
     ev_argument_digest := ev_argument_digest row; ev_outcome_digest := ev_outcome_digest row;
     ev_current := false; ev_turn := ev_turn row; ev_evidence_ref := ev_evidence_ref row;
     ev_coverage := ev_coverage row |}.

Definition invalidate_stale_evidence (s : ExecutionState) : N * ExecutionState :=
  let invalidated := N.of_nat (length (List.filter (invalidates s) (ex_evidence s))) in
  let s := set_evidence ((fun row => if invalidates s row then set_not_current row else row) <$> ex_evidence s) s in
  (invalidated,
   if (0 <? invalidated)%N then
     set_convergence
       (set_evidence_revision (saturating_add (cv_evidence_revision (ex_convergence s)) invalidated)
          (ex_convergence s)) s
   else s).

Definition evidence_is_current (s : ExecutionState) (row : ExecutionEvidence) : bool :=
  ev_current row &&
  match ev_validity row with
  | ValidWorkspaceRevision at_revision => (at_revision =? ex_workspace_revision s)%N
  | ValidResource path digest =>
      match fact_for path s with
      | Some fact => bool_decide (rf_freshness fact = Fresh) && bool_decide (rf_digest fact = digest)
      | None => false
      end
  | ValidTurn => negb (ev_turn row =? 0)%N && (ev_turn row =? ex_last_turn s)%N
  end.

(** ** Convergence *)

Definition push_delta (delta : FrontierDelta) (c : ConvergenceState) : ConvergenceState :=
  set_recent_deltas (keep_newest MAX_RECENT_DELTAS (cv_recent_deltas c ++ [delta])) c.

Definition update_cluster (identity : OperationIdentity) (class : ToolFailureClass) (c : FailureCluster) :
    FailureCluster :=
  if bool_decide (cl_tool c = oi_tool_name identity) && bool_decide (cl_failure c = Some class) then
    if bool_decide (oi_target identity ∈ cl_tried_targets c) || (8 <=? length (cl_tried_targets c)) then c
    else {| cl_tool := cl_tool c; cl_failure := cl_failure c;
            cl_tried_targets := cl_tried_targets c ++ [oi_target identity] |}
  else {| cl_tool := oi_tool_name identity; cl_failure := Some class; cl_tried_targets := [oi_target identity] |}.

Definition update_stall (identity : OperationIdentity) (failure : option ToolFailureClass) (st : StallState) :
    StallState :=
  let same := bool_decide (st_tool st = oi_tool_name identity) && bool_decide (st_target st = oi_target identity)
              && bool_decide (st_failure st = failure) in
  let count := if same then st_consecutive_no_progress st else 0%N in
  {| st_consecutive_no_progress := saturating_add32 count 1; st_tool := oi_tool_name identity;
     st_target := oi_target identity; st_failure := failure |}.

Definition repeats (delta : FrontierDelta) : bool :=
  match delta with NoProgress | RedundantEvidence | EvidenceReconfirmed => true | _ => false end.

Definition update_convergence (identity : OperationIdentity) (failure : option ToolFailureClass)
    (delta : FrontierDelta) (evidence : ObservationEvidence) (progress : FrontierProgress)
    (s : ExecutionState) : ExecutionState :=
  let c := push_delta delta (ex_convergence s) in
  let delivered := match progress with ProgDelivery => true | _ => false end in
  let delivery_debt := saturating_add32 (cv_actions_since_delivery_advance c) 1 in
  if advances_frontier delta then
    set_frontier_advice_emitted false (set_stall_advice_emitted false
      (set_convergence
        (set_delivery_debt (if delivered then 0%N else delivery_debt)
          (set_untracked 0%N (set_frontier_debt 0%N c)))
        (set_failure_cluster default_cluster (set_stall default_stall s))))
  else
    let c := set_delivery_debt delivery_debt
               (set_frontier_debt (saturating_add32 (cv_actions_since_frontier_advance c) 1) c) in
    let s := set_convergence c s in
    let s := match failure with
             | Some class => set_failure_cluster (update_cluster identity class (ex_failure_cluster s)) s
             | None => s
             end in
    if negb (repeats delta) || bool_decide (evidence = ObsUntrackedNovelty) then s
    else set_stall (update_stall identity failure (ex_stall s)) s.

(** ** Caps *)

(** The first loop of [cap], newest first: the latest fact of each distinct identity. *)
Fixpoint latest_per_identity (kept : nat) (seen : list text) (rows : list VerificationFact) :
    list bool * nat * list text :=
  match rows with
  | [] => ([], kept, seen)
  | fact :: rows =>
      if MAX_VERIFICATION_FACTS <=? kept then (replicate (S (length rows)) false, kept, seen)
      else
        let skip := bool_decide (vf_verification_identity fact = [])
                    || bool_decide (vf_verification_identity fact ∈ seen) in
        let '(flags, kept, seen) :=
          if skip then latest_per_identity kept seen rows
          else latest_per_identity (S kept) (vf_verification_identity fact :: seen) rows in
        (negb skip :: flags, kept, seen)
  end.

(** The second loop, newest first: the free slots by recency. *)
Fixpoint fill_by_recency (kept : nat) (seen : list text) (rows : list (VerificationFact * bool)) : list bool :=
  match rows with
  | [] => []
  | (fact, survivor) :: rows =>
      if MAX_VERIFICATION_FACTS <=? kept then survivor :: (snd <$> rows)
      else if survivor then true :: fill_by_recency kept seen rows
      else if negb (bool_decide (vf_verification_identity fact = []))
              && bool_decide (vf_verification_identity fact ∈ seen)
      then false :: fill_by_recency kept seen rows
      else true :: fill_by_recency (S kept) seen rows
  end.

Definition retain_verifications (rows : list VerificationFact) : list VerificationFact :=
  let newest_first := reverse rows in
  let '(flags, kept, seen) := latest_per_identity 0 [] newest_first in
  let survivors := fill_by_recency kept seen (zip newest_first flags) in
  reverse (omap (fun p : VerificationFact * bool => if p.2 then Some p.1 else None) (zip newest_first survivors)).

Definition cap_verifications (s : ExecutionState) : ExecutionState :=
  if MAX_VERIFICATION_FACTS <? length (ex_verifications s)
  then set_verifications (retain_verifications (ex_verifications s)) s else s.

Definition cap_failed_commands (s : ExecutionState) : list ExecutionObligationEvent * ExecutionState :=
  if MAX_RESUME_FAILURES <? length (ex_failed_commands s) then
    let overflowed := drop MAX_RESUME_FAILURES (ex_failed_commands s) in
    ((fun row => {| oe_kind := ObOverflowed; oe_domain := fc_domain row; oe_scope_digest := fc_scope_key row;
                    oe_epoch := 0; oe_attempts_in_epoch := 0; oe_total_attempts := 1 |}) <$> overflowed,
     set_failure_overflow
       {| uo_directive_revision := overflow_epoch s;
          uo_omitted_obligations := uo_omitted_obligations (ex_failure_overflow s);
          uo_omitted_failed_commands :=
            saturating_add32 (uo_omitted_failed_commands (ex_failure_overflow s))
              (N.min (N.of_nat (length overflowed)) u32_max) |}
       (set_failed_commands (take MAX_RESUME_FAILURES (ex_failed_commands s)) s))
  else ([], s).

Definition cap (s : ExecutionState) : list ExecutionObligationEvent * ExecutionState :=
  let s := set_checked_files (keep_newest MAX_RESUME_FILES (ex_checked_files s)) s in
  let r := cap_failed_commands (cap_verifications s) in
  (r.1,
   set_verification_sources (keep_newest MAX_VERIFICATION_SOURCES (ex_verification_sources r.2))
     (set_negative_facts (keep_newest MAX_NEGATIVE_FACTS (ex_negative_facts r.2)) r.2)).

(** ** One observation *)

Record FrontierObservation : Type := {
  fo_delta : FrontierDelta;
  fo_actions_since_frontier_advance : N;
  fo_actions_since_delivery_advance : N;
  fo_evidence_revision : N;
  fo_invalidated : N;
  fo_obligation_events : list ExecutionObligationEvent;
  fo_negative_fact_events : list NegativeFactTransition;
  fo_verification_pass_events : list VerificationPassTransition;
}.

Definition frontier_observation (delta : FrontierDelta) (invalidated : N)
    (obligations : list ExecutionObligationEvent) (negatives : list NegativeFactTransition)
    (passes : list VerificationPassTransition) (s : ExecutionState) : FrontierObservation :=
  {| fo_delta := delta;
     fo_actions_since_frontier_advance := cv_actions_since_frontier_advance (ex_convergence s);
     fo_actions_since_delivery_advance := cv_actions_since_delivery_advance (ex_convergence s);
     fo_evidence_revision := cv_evidence_revision (ex_convergence s);
     fo_invalidated := invalidated; fo_obligation_events := obligations;
     fo_negative_fact_events := negatives; fo_verification_pass_events := passes |}.

Definition observe_reused_verification (o : ToolOutput) (anchor_revision turn : N) (s : ExecutionState) :
    FrontierObservation * ExecutionState :=
  let s := set_last_turn turn (set_anchor_revision anchor_revision s) in
  let s := update_convergence (operation_identity o [] None) None RedundantEvidence ObsNone ProgNone s in
  let s := refresh_validity s in
  (frontier_observation RedundantEvidence 0 [] [] [] s, s).

(** The world clock: a mutation advances it and drops the absence claims; one with an
    unknown footprint leaves every known identity to be checked again. *)
Definition advance_world (o : ToolOutput) (s : ExecutionState) : list NegativeFactTransition * ExecutionState :=
  match mutation_footprint o with
  | FootprintNone => ([], s)
  | FootprintKnown _ =>
      invalidate_negative_facts_for_world_change
        (set_workspace_revision (saturating_add (ex_workspace_revision s) 1) s)
  | FootprintUnknown =>
      let r := invalidate_negative_facts_for_world_change
                 (set_workspace_revision (saturating_add (ex_workspace_revision s) 1) s) in
      (r.1, mark_facts_needs_revalidation r.2)
  end.

Definition upsert_touches (touches : list ResourceTouch) (turn : N) (provenance : ResourceProvenance)
    (kind : ResourceFactKind) (r : ResourceObservation * ExecutionState) : ResourceObservation * ExecutionState :=
  foldl (fun acc touch =>
    let u := upsert_file (rt_path touch) (or_empty (rt_revision touch)) turn provenance kind acc.2 in
    (merge_observation acc.1 u.1, u.2)) r touches.

(** The successful branch. *)
Definition observe_success (o : ToolOutput) (identity : OperationIdentity) (argument_digest : text)
    (attribution : option RuntimeExecutionAttribution) (is_verification : bool) (turn : N) (s : ExecutionState) :
    ResourceObservation * list VerificationPassTransition * ExecutionState :=
  let provenance := if is_verification then ProvVerification
                    else if may_mutate_workspace o then MutationResult else ProvRead in
  let kind := if bool_decide (out_tool_name o = txt "fs.read") then FileBody
              else if bool_decide (out_tool_name o = txt "fs.list") then DirectoryListing else MetadataOnly in
  let r := upsert_touches (resource_touches o) turn provenance kind (ResNone, s) in
  let s := set_failed_commands
             (List.filter (fun row => negb (bool_decide (fc_domain row = NonDeterministic))
                                      || negb (same_operation row identity)) (ex_failed_commands r.2)) r.2 in
  if is_verification then
    let p := push_verification o argument_digest attribution turn s in
    let v := set_failed_open false (set_unknown_pending false (set_source_changed false
               (set_cause CauseNone (ex_verification p.2)))) in
    let v := match vo_coverage v with Unspecified => set_coverage CoverWorkspace v | _ => v end in
    (r.1, option_list p.1, set_verification v p.2)
  else (r.1, [], s).

(** The failed branch. *)
Definition observe_refusal (o : ToolOutput) (identity : OperationIdentity)
    (attribution : option RuntimeExecutionAttribution) (turn : N) (s : ExecutionState) :
    ResourceObservation * ExecutionState :=
  let stamped := List.filter (fun touch => negb (bool_decide (or_empty (rt_revision touch) = [])))
                   (resource_touches o) in
  let r := if may_mutate_workspace o
           then upsert_touches stamped turn MutationRefusal MetadataOnly (ResNone, s) else (ResNone, s) in
  match resource_touches o with
  | touch :: _ =>
      let proven_no_effect := may_mutate_workspace o && from_option proves_no_effect false (failure_class o) in
      let unrooted_exploratory_read :=
        negb (may_mutate_workspace o)
        && match attribution with
           | Some a => bool_decide (is_Some (speculative_negative_target a o))
           | None => false
           end in
      if negb proven_no_effect && negb unrooted_exploratory_read
      then (r.1, push_failure o identity (txt "failed observation " ++ rt_path touch) turn r.2)
      else r
  | [] =>
      if is_command_tool (out_tool_name o) then (r.1, push_failure o identity (out_summary o) turn r.2) else r
  end.

Definition last_result (s : ExecutionState) : option (bool * text) :=
  (fun row => (vf_ok row, vf_summary row)) <$> last (ex_verifications s).

Definition classify_delta (o : ToolOutput) (is_verification evidence_gained evidence_advances_task failure_resolved
    facts_reconfirmed : bool) (obs : ObservationEvidence) : FrontierDelta :=
  if is_verification && out_ok o then
    if evidence_gained then EvidenceAdvanced else RedundantEvidence
  else
    match mutation_footprint o with
    | FootprintKnown _ => ObservedWorldChange
    | FootprintUnknown => WorldInvalidatedUnknown
    | FootprintNone =>
        if evidence_advances_task then EvidenceAdvanced
        else if failure_resolved then ObligationResolved
        else if facts_reconfirmed || bool_decide (obs = ObsReconfirmed) then EvidenceReconfirmed
        else if bool_decide (obs = ObsRepeated) then RedundantEvidence
        else NoProgress
    end.

Definition progress_of (delta : FrontierDelta) (is_verification : bool) : FrontierProgress :=
  match delta with
  | ObservedWorldChange | ObligationResolved => ProgDelivery
  | EvidenceAdvanced => if is_verification then ProgDelivery else ProgKnowledge
  | EvidenceReconfirmed => ProgKnowledge
  | WorldInvalidatedUnknown | RedundantEvidence | NoProgress => ProgNone
  end.

Definition observe_tool_inner (o : ToolOutput) (anchor_revision turn : N) (argument_digest : text)
    (attribution : option RuntimeExecutionAttribution) (is_verification : bool) (s : ExecutionState) :
    FrontierObservation * ExecutionState :=
  let s := set_last_turn turn (set_anchor_revision anchor_revision s) in
  let before_failures := unresolved_failed_command_count s in
  let before_verifications := length (ex_verifications s) in
  let before_last_evidence := last_result s in
  let world := advance_world o s in
  let s := world.2 in
  let identity := operation_identity o argument_digest attribution in
  let had_prior_verification_evidence := bool_decide (is_Some (last_evidence s)) in
  let '(resource_observation, passes, s) :=
    if out_ok o then observe_success o identity argument_digest attribution is_verification turn s
    else let r := observe_refusal o identity attribution turn s in (r.1, [], r.2) in
  let s := if is_verification && negb (out_ok o) then
             let p := push_verification o argument_digest attribution turn s in
             set_verification (set_failed_open true (set_cause FailureRepair (ex_verification p.2))) p.2
           else s in
  let s := match mutation_footprint o with
           | FootprintUnknown =>
               if had_prior_verification_evidence
               then set_verification (set_unknown_pending true (ex_verification s)) s else s
           | _ => s
           end in
  let s := record_verification_source (out_tool_name o) argument_digest attribution s in
  let '(speculative_negative, negatives, s) := observe_negative_fact o argument_digest turn attribution s in
  let '(invalidated, s) := invalidate_stale_evidence s in
  let '(resolved_events, s) := resolve_failure_blockers o attribution s in
  let '(recorded_events, s) := record_obligation o identity speculative_negative s in
  let '(capped_events, s) := cap s in
  let s := refresh_validity s in
  let evidence_gained :=
    (before_verifications <? length (ex_verifications s)) && negb (bool_decide (last_result s = before_last_evidence)) in
  let failure_resolved := (unresolved_failed_command_count s <? before_failures)%N in
  let '(obs, s) :=
    if out_ok o && negb is_verification && negb (may_mutate_workspace o)
    then record_observation_evidence o turn argument_digest s else (ObsNone, s) in
  let rooted_observation :=
    out_ok o && match attribution with
                | Some a => negb (bool_decide (ra_rooted_targets a = []))
                | None => false
                end in
  let read_only_evidence_gained :=
    bool_decide (resource_observation = ResAdvanced) || evidence_gained || bool_decide (obs = ObsAdvanced) in
  let evidence_advances_task :=
    read_only_evidence_gained && (negb (ex_directive_has_rooted_evidence s) || rooted_observation) in
  let s := if rooted_observation then set_directive_has_rooted_evidence true s else s in
  let delta := classify_delta o is_verification evidence_gained evidence_advances_task failure_resolved
                 (bool_decide (resource_observation = ResReconfirmed)) obs in
  let s := update_convergence identity (failure_class o) delta obs (progress_of delta is_verification) s in
  (frontier_observation delta invalidated (resolved_events ++ recorded_events ++ capped_events)
     (world.1 ++ negatives) passes s, s).

Definition observe_tool_with_digest (o : ToolOutput) (anchor_revision turn : N) (argument_digest : text)
    (s : ExecutionState) : FrontierObservation * ExecutionState :=
  observe_tool_inner o anchor_revision turn argument_digest None (is_verification o) s.

Definition observe_tool (o : ToolOutput) (anchor_revision turn : N) (s : ExecutionState) :
    FrontierObservation * ExecutionState :=
  observe_tool_with_digest o anchor_revision turn [] s.

Definition observe_tool_attributed (o : ToolOutput) (anchor_revision turn : N) (argument_digest : text)
    (attribution : RuntimeExecutionAttribution) (s : ExecutionState) : FrontierObservation * ExecutionState :=
  observe_tool_inner o anchor_revision turn argument_digest (Some attribution)
    (reusable_verification attribution) s.

(** ** Revalidation *)

Definition file_body_identity (path revision : text) : option text :=
  let path := normalize_resource_path path in
  let revision := trim revision in
  if bool_decide (path = []) || bool_decide (revision = []) then None else Some (path ++ txt "@" ++ revision).

(** [position]; the rank of no position is past every position. *)
Fixpoint position (x : text) (l : list text) : option nat :=
  match l with
  | [] => None
  | y :: l' => if bool_decide (y = x) then Some 0 else S <$> position x l'
  end.

(** The sort key: body rank, covered, mentioned, turn, index. *)
Record PendingKey : Type := {
  pk_body_rank : option nat;
  pk_covered : bool;
  pk_mentioned : bool;
  pk_turn : N;
  pk_index : nat;
}.

Definition pending_key (query : text) (priority : list text) (s : ExecutionState) (index : nat)
    (fact : ResourceFact) : PendingKey :=
  {| pk_body_rank :=
       file_body_identity (rf_path fact) (rf_digest fact)
         ≫= fun identity => position identity (take MAX_VISIBLE_BODY_HINTS priority);
     pk_covered := match vo_coverage (ex_verification s) with
                   | CoverResources paths => bool_decide (rf_path fact ∈ paths)
                   | _ => false
                   end;
     pk_mentioned := path_mentioned_in_query query (rf_path fact);
     pk_turn := rf_turn fact;
     pk_index := index |}.

Definition rank_compare (a b : option nat) : comparison :=
  match a, b with
  | Some x, Some y => Nat.compare x y
  | Some _, None => Lt
  | None, Some _ => Gt
  | None, None => Eq
  end.

(** [Reverse] of a [bool]: [true] first. *)
Definition flag_compare (a b : bool) : comparison :=
  match a, b with true, false => Lt | false, true => Gt | _, _ => Eq end.

Definition then_compare (a b : comparison) : comparison := match a with Eq => b | _ => a end.

Definition pending_compare (a b : PendingKey) : comparison :=
  then_compare (rank_compare (pk_body_rank a) (pk_body_rank b))
    (then_compare (flag_compare (pk_covered a) (pk_covered b))
      (then_compare (flag_compare (pk_mentioned a) (pk_mentioned b))
        (then_compare (N.compare (pk_turn b) (pk_turn a)) (Nat.compare (pk_index a) (pk_index b))))).

Definition pending_order (a b : PendingKey) : Prop := pending_compare a b <> Gt.

#[export] Instance pending_order_dec : RelDecision pending_order.
Proof. intros a b. unfold pending_order. destruct (pending_compare a b); [left|left|right]; congruence. Defined.

Definition pending_indices (query : text) (priority : list text) (s : ExecutionState) : list nat :=
  let keys := imap (fun index fact => (fact, pending_key query priority s index fact)) (ex_checked_files s) in
  pk_index <$> take MAX_REVALIDATE_PER_ROUND (merge_sort pending_order
    (snd <$> List.filter (fun p => bool_decide (rf_freshness p.1 = NeedsRevalidation)) keys)).

(** What [oracle.revision] answers: an error is [None], an absent path [Some None]. *)
Definition Oracle : Type := text -> option (option text).

Definition revalidate_one (oracle : Oracle) (index : nat) (s : ExecutionState) : ExecutionState :=
  match ex_checked_files s !! index with
  | None => s
  | Some fact =>
      match oracle (rf_path fact) with
      | Some (Some revision) =>
          let s :=
            if negb (bool_decide (rf_digest fact = [])) && negb (bool_decide (revision = rf_digest fact)) then
              let s := mark_source_changed (rf_path fact) s in
              set_verification (set_unknown_pending false (ex_verification s)) s
            else s in
          set_checked_files
            (<[index := {| rf_path := rf_path fact; rf_digest := bound_item revision; rf_freshness := Fresh;
                           rf_turn := rf_turn fact; rf_provenance := ProvRead; rf_kind := rf_kind fact |}]>
               (ex_checked_files s)) s
      | Some None =>
          set_checked_files
            (<[index := {| rf_path := rf_path fact; rf_digest := rf_digest fact; rf_freshness := Missing;
                           rf_turn := rf_turn fact; rf_provenance := rf_provenance fact;
                           rf_kind := rf_kind fact |}]> (ex_checked_files s)) s
      | None => s
      end
  end.

Definition revalidate_with_priority (oracle : Oracle) (query : text) (priority : list text) (s : ExecutionState) :
    ExecutionState :=
  let s := foldl (fun s index => revalidate_one oracle index s) s (pending_indices query priority s) in
  let v := ex_verification s in
  let s :=
    if vo_unknown_pending v && negb (vo_source_changed v) then
      match vo_coverage v with
      | CoverResources (path :: paths) =>
          if covered_resources_identity_confirmed (path :: paths) s
          then set_verification (set_unknown_pending false v) s else s
      | _ => s
      end
    else s in
  refresh_validity s.

Definition revalidate (oracle : Oracle) (query : text) (s : ExecutionState) : ExecutionState :=
  revalidate_with_priority oracle query [] s.

End ledgers.

(** ** Validation of a restored state *)

Section validate.
Context `{JT : JsonText}.

Definition over (n : nat) (s : text) : bool := n <? length s.
Definition over_item (s : text) : bool := over MAX_TASK_ANCHOR_ITEM_CHARS s.

Definition repair_invalid (r : CompletionRepairRecord) (plan_bytes : nat) : bool :=
  let fingerprint_invalid :=
    negb (bool_decide (rr_blocker_fingerprint r = [])) && negb (is_content_digest (rr_blocker_fingerprint r)) in
  let counters_invalid :=
    ((rr_refusal_count r =? 0) || (MAX_COMPLETION_REPAIR_REFUSALS <? rr_refusal_count r)
     || (rr_refusal_count r <? rr_same_blocker_refusals r)
     || (MAX_COMPLETION_REPAIR_STEPS <? rr_no_progress_steps r))%N in
  let terminal_unproved :=
    rr_terminal r && (rr_same_blocker_refusals r <? COMPLETION_REPAIR_TERMINAL_REFUSALS)%N
    && (rr_no_progress_steps r <? COMPLETION_REPAIR_NO_PROGRESS_STEPS)%N in
  (MAX_COMPLETION_REPAIR_PLAN_BYTES <? plan_bytes) || over COMPLETION_REPAIR_VIEW_CHARS (rr_text r)
  || fingerprint_invalid || counters_invalid || terminal_unproved.

Definition window_over (w : FileBodyWindow) : bool :=
  over MAX_RESOURCE_PATH_CHARS (fw_path w) || from_option over_item false (fw_revision w).

Definition evidence_over (row : ExecutionEvidence) : bool :=
  over_item (ev_key row) || over_item (ev_outcome row) || over_item (ev_argument_digest row)
  || over_item (ev_outcome_digest row) || (MAX_EVIDENCE_COVERAGE_WINDOWS <? length (ev_coverage row)).

Definition verification_over (row : VerificationFact) : bool :=
  over_item (vf_summary row) || over_item (vf_source_tool_name row) || over_item (vf_argument_digest row)
  || over_item (vf_verification_identity row)
  || (negb (bool_decide (vf_verification_identity row = [])) && negb (is_content_digest (vf_verification_identity row)))
  || from_option over_item false (vf_evidence_ref row).

Definition failed_command_over (row : FailedCommandFact) : bool :=
  over_item (fc_tool_name row) || over_item (fc_target row) || over_item (fc_argument_digest row)
  || over_item (fc_outcome_equivalence_key row)
  || (negb (bool_decide (fc_outcome_equivalence_key row = []))
      && negb (is_content_digest (fc_outcome_equivalence_key row)))
  || over_item (fc_scope_key row) || over_item (fc_precondition row) || over_item (fc_summary row).

Definition negative_over (row : NegativeExecutionFact) : bool :=
  over_item (nf_tool_name row) || over MAX_RESOURCE_PATH_CHARS (nf_target row) || over_item (nf_argument_digest row).

Definition source_over (row : VerificationSourceLease) : bool :=
  over_item (sl_tool_name row) || over_item (sl_argument_digest row).

(** The evidence loop: a row's own bounds, then its windows'. *)
Fixpoint validate_evidence (rows : list ExecutionEvidence) : result unit text :=
  match rows with
  | [] => Ok tt
  | row :: rows =>
      if evidence_over row then Err (txt "evidence row exceeds its text bound")
      else if existsb window_over (ev_coverage row) then Err (txt "evidence coverage exceeds its bound")
      else validate_evidence rows
  end.

Definition check (bad : bool) (message : text) : result unit text := if bad then Err message else Ok tt.

Definition validate_execution_state (s : ExecutionState) : result unit text :=
  let? _ := check ((MAX_RESUME_FILES <? length (ex_checked_files s))
                   || (MAX_VERIFICATION_FACTS <? length (ex_verifications s))
                   || (MAX_RESUME_FAILURES <? length (ex_failed_commands s))
                   || (MAX_NEGATIVE_FACTS <? length (ex_negative_facts s))
                   || (MAX_VERIFICATION_SOURCES <? length (ex_verification_sources s)))
              (txt "resume list exceeds its cap") in
  let? _ := check (match ex_completion_commit_failure s with
                   | Some failure => over_item (cc_reason failure) || (cc_attempts failure =? 0)%N
                   | None => false
                   end) (txt "completion commit failure is invalid or exceeds its text bound") in
  let? _ := match ex_completion_repair s with
            | Some repair =>
                match json_text (rr_plan repair) with
                | None => Err (txt "completion repair plan is not serializable")
                | Some plan => check (repair_invalid repair (str_len plan))
                                 (txt "completion repair state is invalid or exceeds its bound")
                end
            | None => Ok tt
            end in
  let o := ex_failure_overflow s in
  let? _ := if overflow_is_empty o
            then check (negb (uo_directive_revision o =? 0)%N) (txt "empty failure overflow carries an epoch")
            else check (ex_directive_revision s <? uo_directive_revision o)%N
                   (txt "failure overflow is inconsistent with its directive epoch") in
  let? _ := check ((MAX_EVIDENCE_ROWS <? length (ex_evidence s))
                   || (MAX_RECENT_DELTAS <? length (cv_recent_deltas (ex_convergence s)))
                   || (8 <? length (cl_tried_targets (ex_failure_cluster s)))
                   || (MAX_OBLIGATIONS <? length (ex_obligations s)))
              (txt "execution frontier exceeds its cap") in
  let? _ := validate_evidence (ex_evidence s) in
  let? _ := check (existsb verification_over (ex_verifications s)) (txt "verification fact exceeds its text bound") in
  let? _ := check (existsb failed_command_over (ex_failed_commands s))
              (txt "failed command fact exceeds its text bound") in
  let? _ := check (existsb negative_over (ex_negative_facts s)) (txt "negative fact exceeds its text bound") in
  check (existsb source_over (ex_verification_sources s)) (txt "verification source exceeds its text bound").

End validate.
