(* ===== verification/ObserveFacts.v ===== *)
(** Which parts of the execution state each stage of an observation can change, and the
    histories of a state: the sequences of turns, observations, revalidations and anchor
    commits that the runtime puts it through. *)

From S2P Require Import Prelude Text Digest Jcs Operation OutputBroker Capability Artifact ToolFacts Execution Observe.

Section facts.
Context `{JN : JsonNumber} {JU : JsonU64} {TC : TextCrypto} {UC : UuidCodec}.

(** The two clocks and the verification ledger. *)
Definition same_clocks (s s' : ExecutionState) : Prop :=
  ex_workspace_revision s' = ex_workspace_revision s /\ ex_directive_revision s' = ex_directive_revision s.

Definition same_proofs (s s' : ExecutionState) : Prop :=
  same_clocks s s' /\ ex_verifications s' = ex_verifications s.

#[export] Instance same_clocks_preorder : PreOrder same_clocks.
Proof. split; [done|]. intros a b c [? ?] [? ?]. split; congruence. Qed.

#[export] Instance same_proofs_preorder : PreOrder same_proofs.
Proof. split; [done|]. intros a b c [H1 ?] [H2 ?]. split; [by etrans|congruence]. Qed.

Lemma refresh_validity_proofs s : same_proofs s (refresh_validity s).
Proof. done. Qed.

Lemma mark_source_changed_proofs path s : same_proofs s (mark_source_changed path s).
Proof. done. Qed.

Lemma mark_spec_changed_proofs s : same_proofs s (mark_spec_changed s).
Proof. done. Qed.

Lemma upsert_file_proofs path digest turn p k s : same_proofs s (upsert_file path digest turn p k s).2.
Proof.
  unfold upsert_file. cbn zeta. destruct (existsb _ _); destruct (find _ _); try done;
    destruct (update_first _ _ _); done.
Qed.

Lemma upsert_touches_proofs touches turn p k : forall r, same_proofs r.2 (upsert_touches touches turn p k r).2.
Proof.
  induction touches as [|t touches IH]; intros r; [done|]. cbn. etrans; [|apply IH]. apply upsert_file_proofs.
Qed.

Lemma advance_world_spec o s :
  ex_directive_revision (advance_world o s).2 = ex_directive_revision s /\
  ex_verifications (advance_world o s).2 = ex_verifications s /\
  ex_workspace_revision (advance_world o s).2 =
    match mutation_footprint o with
    | FootprintNone => ex_workspace_revision s
    | _ => saturating_add (ex_workspace_revision s) 1
    end.
Proof. unfold advance_world. by destruct (mutation_footprint o). Qed.

Lemma push_failure_proofs o i m t s : same_proofs s (push_failure o i m t s).
Proof. done. Qed.

Lemma observe_refusal_proofs o i a t s : same_proofs s (observe_refusal o i a t s).2.
Proof.
  unfold observe_refusal.
  assert (H : same_proofs s (if may_mutate_workspace o
     then upsert_touches (List.filter (fun touch => negb (bool_decide (or_empty (rt_revision touch) = [])))
            (resource_touches o)) t MutationRefusal MetadataOnly (ResNone, s) else (ResNone, s)).2).
  { destruct (may_mutate_workspace o); [|done]. apply (upsert_touches_proofs _ _ _ _ (ResNone, s)). }
  cbn zeta. set (r := if may_mutate_workspace o then _ else _) in *. clearbody r.
  destruct (resource_touches o) as [|touch ts].
  - destruct (is_command_tool _); [|done]. by etrans; [exact H|apply push_failure_proofs].
  - destruct (negb _ && negb _); [|done]. by etrans; [exact H|apply push_failure_proofs].
Qed.

Lemma record_verification_source_proofs n d a s : same_proofs s (record_verification_source n d a s).
Proof. unfold record_verification_source. by destruct (negb _). Qed.

Lemma drop_negative_proofs k n t s : same_proofs s (drop_negative k n t s).2.
Proof. unfold drop_negative. by destruct (remove_first _ _) as [[??]|]. Qed.

Lemma observe_negative_fact_proofs o d t a s : same_proofs s (observe_negative_fact o d t a s).2.
Proof.
  unfold observe_negative_fact. destruct a as [a|]; [|done]. destruct (observation_target a o) as [target|]; [|done].
  destruct (out_ok o); [apply drop_negative_proofs|]. destruct (negb _); [done|].
  destruct (target_is_rooted a target); [apply drop_negative_proofs|].
  by destruct (update_first _ _ _).
Qed.

Lemma invalidate_stale_evidence_proofs s : same_proofs s (invalidate_stale_evidence s).2.
Proof. unfold invalidate_stale_evidence. cbn. by destruct (0 <? _)%N. Qed.

Lemma resolve_failure_blockers_proofs o a s : same_proofs s (resolve_failure_blockers o a s).2.
Proof. done. Qed.

Lemma record_obligation_proofs o i sp s : same_proofs s (record_obligation o i sp s).2.
Proof.
  unfold record_obligation. destruct (out_ok o || sp); [done|].
  destruct (failure_blocker_identity o) as [b|]; [|done]. cbn zeta.
  destruct (find _ _); [destruct (update_first _ _ _); [done|]|]; by destruct (MAX_OBLIGATIONS <=? _).
Qed.

Lemma record_observation_evidence_proofs o t d s : same_proofs s (record_observation_evidence o t d s).2.
Proof.
  unfold record_observation_evidence. destruct (evidence_key o s) as [[key v]|]; [|done]. cbn zeta.
  destruct (find _ _) as [row|]; [|done].
  destruct (advance_coverage _ _ _ _) as [[adv unt] ledger].
  destruct (_ && negb adv); [done|]. by destruct unt.
Qed.

Lemma update_convergence_proofs i f d e p s : same_proofs s (update_convergence i f d e p s).
Proof.
  unfold update_convergence. cbn zeta. destruct (advances_frontier d); [done|].
  destruct f; destruct (negb _ || _); done.
Qed.

(** ** Retention *)

Lemma length_latest_per_identity rows : forall kept seen,
  length (latest_per_identity kept seen rows).1.1 = length rows.
Proof.
  induction rows as [|fact rows IH]; intros kept seen; [done|].
  cbn [latest_per_identity]. destruct (_ <=? _); [cbn; by rewrite length_replicate|]. cbn zeta.
  destruct (bool_decide _ || bool_decide _).
  - specialize (IH kept seen). destruct (latest_per_identity kept seen rows) as [[flags k] sn]. cbn in *. by rewrite IH.
  - specialize (IH (S kept) (vf_verification_identity fact :: seen)).
    destruct (latest_per_identity (S kept) _ rows) as [[flags k] sn]. cbn in *. by rewrite IH.
Qed.

Lemma length_fill rows : forall kept seen, length (fill_by_recency kept seen rows) = length rows.
Proof.
  induction rows as [|[fact b] rows IH]; intros kept seen; [done|].
  cbn [fill_by_recency]. destruct (_ <=? _); [cbn; by rewrite length_fmap|].
  destruct b; [cbn; by rewrite IH|]. destruct (negb _ && _); cbn; by rewrite IH.
Qed.

Lemma flagged_sublist {A} (l : list A) : forall (flags : list bool), length flags = length l ->
  omap (fun p : A * bool => if p.2 then Some p.1 else None) (zip l flags) `sublist_of` l.
Proof.
  induction l as [|x l IH]; intros [|b flags] Hlen; try done.
  cbn. injection Hlen as Hlen. destruct b; cbn.
  - by apply sublist_skip, IH.
  - by apply sublist_cons, IH.
Qed.

Lemma sublist_rev {A} (l k : list A) : l `sublist_of` k -> reverse l `sublist_of` reverse k.
Proof.
  induction 1 as [|x l k H IH|x l k H IH]; [done|..]; rewrite !reverse_cons.
  - by apply sublist_app.
  - by apply sublist_inserts_r.
Qed.

Lemma retain_sublist rows : retain_verifications rows `sublist_of` rows.
Proof.
  unfold retain_verifications. pose proof (length_latest_per_identity (reverse rows) 0 []) as Hl.
  destruct (latest_per_identity 0 [] (reverse rows)) as [[flags kept] seen]. cbn in Hl.
  assert (H : omap (fun p : VerificationFact * bool => if p.2 then Some p.1 else None)
                (zip (reverse rows) (fill_by_recency kept seen (zip (reverse rows) flags))) `sublist_of` reverse rows).
  { apply flagged_sublist. rewrite length_fill, length_zip_with, Hl. by rewrite Nat.min_id. }
  apply sublist_rev in H. by rewrite reverse_involutive in H.
Qed.

Lemma cap_failed_proofs s : same_proofs s (cap_failed_commands s).2.
Proof. unfold cap_failed_commands. by case_match. Qed.

Lemma cap_spec s :
  same_clocks s (cap s).2 /\ ex_verifications (cap s).2 `sublist_of` ex_verifications s.
Proof.
  unfold cap. cbn zeta. cbn [snd].
  set (s1 := cap_verifications _).
  assert (H1 : same_clocks s s1 /\ ex_verifications s1 `sublist_of` ex_verifications s).
  { unfold s1, cap_verifications. case_match; [|done]. split; [done|apply retain_sublist]. }
  destruct (cap_failed_proofs s1) as [Hc Hv]. destruct H1 as [Hc1 Hv1].
  split; [|cbn; by rewrite Hv]. etrans; [exact Hc1|exact Hc].
Qed.

(** ** One observation *)

(** The clock after the observation. *)
Definition world_after (o : ToolOutput) (s : ExecutionState) : N :=
  match mutation_footprint o with
  | FootprintNone => ex_workspace_revision s
  | _ => saturating_add (ex_workspace_revision s) 1
  end.

(** What a fact pushed by an observation says. *)
Definition stamped_by (o : ToolOutput) (attribution : option RuntimeExecutionAttribution) (s : ExecutionState)
    (f : VerificationFact) : Prop :=
  vf_workspace_revision f = ex_workspace_revision s /\ vf_directive_revision f = ex_directive_revision s /\
  vf_ok f = out_ok o /\
  vf_verification_identity f = or_empty (bound_item <$> (attribution ≫= exact_verification_identity)) /\
  vf_recipe_provenance f = (attribution ≫= verification_recipe).

Lemma push_verification_spec o d a t s :
  same_clocks s (push_verification o d a t s).2 /\
  exists f, ex_verifications (push_verification o d a t s).2 = ex_verifications s ++ [f] /\ stamped_by o a s f /\
    vf_anchor_revision f = vo_spec_revision (ex_verification s).
Proof. split; [done|]. by eexists. Qed.

Lemma observe_success_spec o i d a isv t s :
  same_clocks s (observe_success o i d a isv t s).2 /\
  exists pushed, ex_verifications (observe_success o i d a isv t s).2 = ex_verifications s ++ pushed /\
    Forall (fun f => isv = true /\ stamped_by o a s f) pushed /\ (isv = true -> length pushed = 1).
Proof.
  unfold observe_success. cbn zeta.
  match goal with |- context [upsert_touches ?ts ?tt ?pp ?kk ?r] =>
    pose proof (upsert_touches_proofs ts tt pp kk r) as [[Hw Hd] Hv];
    set (u := upsert_touches ts tt pp kk r) in * end.
  clearbody u. cbn [snd] in Hw, Hd, Hv. destruct isv.
  - cbn. split; [done|]. eexists [_]. split; [by rewrite Hv|]. split; [|done].
    constructor; [|done]. split; [done|]. unfold stamped_by. cbn. by rewrite Hw, Hd.
  - cbn. split; [done|]. exists []. split; [by rewrite app_nil_r|]. split; [constructor|done].
Qed.

Lemma observe_spec o ar t d a isv s :
  let s' := (observe_tool_inner o ar t d a isv s).2 in
  ex_directive_revision s' = ex_directive_revision s /\
  ex_workspace_revision s' = world_after o s /\
  exists pushed, ex_verifications s' `sublist_of` ex_verifications s ++ pushed /\
    Forall (fun f => isv = true /\ stamped_by o a s' f) pushed.
Proof.
  cbn zeta. unfold observe_tool_inner. cbn zeta.
  set (s0 := set_last_turn t (set_anchor_revision ar s)).
  pose proof (advance_world_spec o s0) as (Hd1 & Hv1 & Hw1).
  set (world := advance_world o s0) in *. clearbody world.
  set (stage1 := if out_ok o then _ else _).
  assert (H1 : same_clocks world.2 stage1.2 /\
    exists pushed, ex_verifications stage1.2 = ex_verifications world.2 ++ pushed /\
      Forall (fun f => isv = true /\ stamped_by o a world.2 f) pushed).
  { unfold stage1. destruct (out_ok o).
    - pose proof (observe_success_spec o (operation_identity o d a) d a isv t world.2) as (Hc & p & Hp & Hf & _).
      by split; [|exists p].
    - cbn [snd]. destruct (observe_refusal_proofs o (operation_identity o d a) a t world.2) as [Hc Hv].
      split; [done|]. exists []. rewrite app_nil_r. by split; [|constructor]. }
  clearbody stage1. destruct stage1 as [[obs passes] s1]. cbn [snd] in H1.
  set (s2 := if isv && negb (out_ok o) then _ else s1).
  assert (H2 : same_clocks world.2 s2 /\
    exists pushed, ex_verifications s2 = ex_verifications world.2 ++ pushed /\
      Forall (fun f => isv = true /\ stamped_by o a world.2 f) pushed).
  { destruct H1 as ([Hw Hd] & p & Hp & Hf). unfold s2. destruct isv; cbn [andb]; [|by split; [|exists p]].
    destruct (negb (out_ok o)) eqn:Eok; [|by split; [|exists p]].
    destruct (push_verification_spec o d a t s1) as ([Hw2 Hd2] & f & Hf2 & Hst & _). split.
    - split; cbn; congruence.
    - exists (p ++ [f]). cbn in Hf2 |- *. rewrite Hf2, Hp, <- app_assoc. split; [done|]. apply Forall_app. split; [done|].
      constructor; [|done]. split; [done|]. unfold stamped_by in *. destruct Hst as (? & ? & ?).
      split_and!; [congruence|congruence|naive_solver..]. }
  clearbody s2. clear H1.
  set (s3 := match mutation_footprint o with FootprintUnknown => _ | _ => s2 end).
  assert (H3 : same_proofs s2 s3).
  { unfold s3. destruct (mutation_footprint o); try done. by destruct (bool_decide _). }
  clearbody s3.
  pose proof (record_verification_source_proofs (out_tool_name o) d a s3) as H4.
  set (s4 := record_verification_source _ _ _ s3) in *. clearbody s4.
  pose proof (observe_negative_fact_proofs o d t a s4) as H5.
  destruct (observe_negative_fact o d t a s4) as [[sp negs] s5]. cbn [snd] in H5.
  pose proof (invalidate_stale_evidence_proofs s5) as H6.
  destruct (invalidate_stale_evidence s5) as [inv s6]. cbn [snd] in H6.
  pose proof (resolve_failure_blockers_proofs o a s6) as H7.
  destruct (resolve_failure_blockers o a s6) as [ev1 s7]. cbn [snd] in H7.
  pose proof (record_obligation_proofs o (operation_identity o d a) sp s7) as H8.
  destruct (record_obligation o (operation_identity o d a) sp s7) as [ev2 s8]. cbn [snd] in H8.
  pose proof (cap_spec s8) as [H9 H9v]. destruct (cap s8) as [ev3 s9]. cbn [snd] in H9, H9v.
  pose proof (refresh_validity_proofs s9) as H10. set (s10 := refresh_validity s9) in *. clearbody s10.
  set (stage2 := if out_ok o && negb isv && negb (may_mutate_workspace o) then _ else _).
  assert (H11 : same_proofs s10 stage2.2).
  { unfold stage2. destruct (_ && _); [apply record_observation_evidence_proofs|done]. }
  clearbody stage2. destruct stage2 as [oe s11]. cbn [snd] in H11.
  set (s12 := if _ : bool then set_directive_has_rooted_evidence true s11 else s11).
  assert (H12 : same_proofs s11 s12) by (unfold s12; by destruct (out_ok o && _)).
  clearbody s12. cbn [snd].
  match goal with |- context [update_convergence ?i ?f ?dl ?e ?p s12] =>
    pose proof (update_convergence_proofs i f dl e p s12) as H13;
    set (s13 := update_convergence i f dl e p s12) in *; clearbody s13 end.
  assert (Hpre : same_proofs s2 s8) by (do 6 (etrans; [eassumption|]); reflexivity || (repeat (etrans; [eassumption|]); reflexivity)).
  assert (Hpost : same_proofs s9 s13) by (repeat (etrans; [eassumption|]); reflexivity).
  destruct H2 as ([Hw2 Hd2] & p & Hp & Hf), Hpre as [[Hw8 Hd8] Hv8], H9 as [Hw9 Hd9], Hpost as [[Hw13 Hd13] Hv13].
  assert (Hw : ex_workspace_revision s13 = ex_workspace_revision world.2) by congruence.
  assert (Hd : ex_directive_revision s13 = ex_directive_revision world.2) by congruence.
  split; [|split].
  - rewrite Hd, Hd1. done.
  - rewrite Hw, Hw1. done.
  - exists p. split.
    + rewrite Hv13. etrans; [exact H9v|]. rewrite Hv8, Hp, Hv1. done.
    + eapply Forall_impl; [exact Hf|]. intros f [? Hst]. split; [done|]. unfold stamped_by in *. by rewrite Hw, Hd.
Qed.

(** ** Histories *)

Lemma revalidate_one_proofs oracle i s : same_proofs s (revalidate_one oracle i s).
Proof.
  unfold revalidate_one. destruct (_ !! i) as [fact|]; [|done]. destruct (oracle _) as [[revision|]|]; [|done..].
  cbn zeta. by destruct (negb _ && negb _).
Qed.

Lemma revalidate_proofs oracle query priority s : same_proofs s (revalidate_with_priority oracle query priority s).
Proof.
  unfold revalidate_with_priority. cbn zeta.
  assert (H : forall l s, same_proofs s (foldl (fun s i => revalidate_one oracle i s) s l)).
  { induction l as [|i l IH]; intros s'; [done|]. cbn. etrans; [apply revalidate_one_proofs|apply IH]. }
  specialize (H (pending_indices query priority s) s).
  set (s1 := foldl _ _ _) in *. clearbody s1.
  match goal with |- same_proofs s (refresh_validity ?x) => assert (Hx : same_proofs s1 x) end.
  { destruct (_ && negb _); [|done]. destruct (vo_coverage _) as [| |[|p ps]]; try done. by destruct (covered_resources_identity_confirmed _ _). }
  etrans; [exact H|]. etrans; [exact Hx|]. apply refresh_validity_proofs.
Qed.

(** What the runtime does to a task's execution state. *)
Inductive ExecOp : Type :=
| OpTurn (message : text)
| OpObserve (o : ToolOutput) (anchor_revision turn : N) (argument_digest : text)
    (attribution : option RuntimeExecutionAttribution) (is_verification : bool)
| OpReused (o : ToolOutput) (anchor_revision turn : N)
| OpRevalidate (oracle : Oracle) (query : text) (priority : list text)
| OpAnchor (anchor_revision spec_revision : N) (spec_changed : bool)
| OpCommitFailed (reason : text).

Definition exec_step (s : ExecutionState) (op : ExecOp) : ExecutionState :=
  match op with
  | OpTurn message => ex_on_user_turn message s
  | OpObserve o ar t d a isv => (observe_tool_inner o ar t d a isv s).2
  | OpReused o ar t => (observe_reused_verification o ar t s).2
  | OpRevalidate oracle query priority => revalidate_with_priority oracle query priority s
  | OpAnchor ar spec changed =>
      let s := set_anchor_revision ar (if changed then mark_spec_changed s else s) in
      set_verification (set_spec_revision spec (ex_verification s)) s
  | OpCommitFailed reason => record_completion_commit_failure reason s
  end.

Definition exec_run (ops : list ExecOp) (s : ExecutionState) : ExecutionState := foldl exec_step s ops.

(** Neither a new directive nor a mutation. *)
Definition quiet (op : ExecOp) : Prop :=
  match op with
  | OpTurn _ => False
  | OpObserve o _ _ _ _ _ => mutation_footprint o = FootprintNone
  | _ => True
  end.

Definition clocks_bounded (s : ExecutionState) : Prop :=
  (ex_workspace_revision s <= u64_max /\ ex_directive_revision s <= u64_max)%N.

Lemma exec_step_proofs s op :
  match op with OpTurn _ | OpObserve _ _ _ _ _ _ => True | _ => same_proofs s (exec_step s op) end.
Proof.
  destruct op; try done; cbn [exec_step].
  - apply revalidate_proofs.
  - by destruct spec_changed.
Qed.

Lemma saturating_succ n : (n <= u64_max)%N ->
  (n <= saturating_add n 1 <= u64_max)%N /\ (saturating_add n 1 < u64_max -> n < saturating_add n 1)%N.
Proof. unfold saturating_add. lia. Qed.

Lemma exec_step_clocks s op : clocks_bounded s ->
  clocks_bounded (exec_step s op) /\
  (ex_workspace_revision s <= ex_workspace_revision (exec_step s op))%N /\
  (ex_directive_revision s <= ex_directive_revision (exec_step s op))%N /\
  (ex_workspace_revision (exec_step s op) < u64_max -> ex_directive_revision (exec_step s op) < u64_max ->
   ~ quiet op ->
   ex_workspace_revision s < ex_workspace_revision (exec_step s op) \/
   ex_directive_revision s < ex_directive_revision (exec_step s op))%N.
Proof.
  intros [Hw Hd]. pose proof (exec_step_proofs s op) as Hp. unfold clocks_bounded.
  destruct op; try (destruct Hp as [[-> ->] _]; cbn; split_and!; first [lia | naive_solver]).
  - cbn [exec_step]. unfold ex_on_user_turn. cbn. pose proof (saturating_succ _ Hd). split_and!; try lia.
  - cbn [exec_step quiet]. destruct (observe_spec o anchor_revision turn argument_digest attribution is_verification s)
      as (Hd' & Hw' & _). rewrite Hd', Hw'. unfold world_after.
    pose proof (saturating_succ _ Hw). destruct (mutation_footprint o); split_and!; try lia; naive_solver lia.
Qed.

Lemma exec_run_snoc ops op s : exec_run (ops ++ [op]) s = exec_step (exec_run ops s) op.
Proof. unfold exec_run. by rewrite foldl_app. Qed.

Lemma exec_run_app ops1 ops2 s : exec_run (ops1 ++ ops2) s = exec_run ops2 (exec_run ops1 s).
Proof. unfold exec_run. by rewrite foldl_app. Qed.

Lemma exec_run_clocks ops : forall s, clocks_bounded s ->
  clocks_bounded (exec_run ops s) /\
  (ex_workspace_revision s <= ex_workspace_revision (exec_run ops s))%N /\
  (ex_directive_revision s <= ex_directive_revision (exec_run ops s))%N /\
  (ex_workspace_revision (exec_run ops s) < u64_max -> ex_directive_revision (exec_run ops s) < u64_max ->
   ex_workspace_revision (exec_run ops s) = ex_workspace_revision s ->
   ex_directive_revision (exec_run ops s) = ex_directive_revision s -> Forall quiet ops)%N.
Proof.
  induction ops as [|op ops IH]; intros s Hb; [by split_and!|].
  change (exec_run (op :: ops) s) with (exec_run ops (exec_step s op)).
  destruct (exec_step_clocks s op Hb) as (Hb1 & Hw1 & Hd1 & Hq).
  destruct (IH _ Hb1) as (Hb2 & Hw2 & Hd2 & Hall). split_and!; [done|lia|lia|].
  intros Hw Hd Hwe Hde. constructor.
  - assert (Hdec : quiet op \/ ~ quiet op).
    { destruct op; cbn; try tauto. destruct (mutation_footprint o); [by left|by right..]. }
    destruct Hdec as [|Hn]; [done|]. specialize (Hq ltac:(lia) ltac:(lia) Hn). lia.
  - apply Hall; [done..| |]; lia.
Qed.

(** Every fact in the ledger was pushed by an observation of the history, with the
    clocks it then had. *)
Lemma fact_recorded ops : forall f, f ∈ ex_verifications (exec_run ops default_execution) ->
  exists before o ar t d a after, ops = before ++ OpObserve o ar t d a true :: after /\
    stamped_by o a (exec_run (before ++ [OpObserve o ar t d a true]) default_execution) f.
Proof.
  induction ops as [|op ops IH] using rev_ind; intros f Hf; [by apply not_elem_of_nil in Hf|].
  rewrite exec_run_snoc in Hf.
  assert (Hold : f ∈ ex_verifications (exec_run ops default_execution) ->
    exists before o ar t d a after, ops ++ [op] = before ++ OpObserve o ar t d a true :: after /\
      stamped_by o a (exec_run (before ++ [OpObserve o ar t d a true]) default_execution) f).
  { intros H. destruct (IH f H) as (b & o & ar & t & d & a & af & -> & Hst).
    exists b, o, ar, t, d, a, (af ++ [op]). by rewrite <- app_assoc. }
  pose proof (exec_step_proofs (exec_run ops default_execution) op) as Hp.
  destruct op as [m|o ar t d a isv|o ar t|oracle q pr|ar sp ch|reason].
  - by apply Hold.
  - cbn [exec_step] in Hf.
    destruct (observe_spec o ar t d a isv (exec_run ops default_execution)) as (_ & _ & p & Hsub & Hall).
    assert (Hin : f ∈ ex_verifications (exec_run ops default_execution) ++ p).
    { apply sublist_submseteq in Hsub. by eapply elem_of_submseteq. }
    apply elem_of_app in Hin as [Hin|Hin]; [by apply Hold|].
    rewrite Forall_forall in Hall. destruct (Hall f Hin) as [-> Hst].
    exists ops, o, ar, t, d, a, []. split; [done|]. by rewrite exec_run_snoc.
  - apply Hold. by destruct Hp as [_ <-].
  - apply Hold. by destruct Hp as [_ <-].
  - apply Hold. by destruct Hp as [_ <-].
  - apply Hold. by destruct Hp as [_ <-].
Qed.

Lemma rfind_Some {A} (g : A -> bool) (l : list A) x : rfind g l = Some x -> x ∈ l /\ g x = true.
Proof.
  unfold rfind. intros H. apply find_some in H as [Hin Hg]. split; [|done].
  apply list_elem_of_In in Hin. by rewrite elem_of_reverse in Hin.
Qed.

(** The fact whose stamps are the current clocks has only quiet operations after it. *)
Lemma current_fact_quiet ops f :
  let s := exec_run ops default_execution in
  (ex_workspace_revision s < u64_max)%N -> (ex_directive_revision s < u64_max)%N ->
  f ∈ ex_verifications s -> vf_workspace_revision f = ex_workspace_revision s ->
  vf_directive_revision f = ex_directive_revision s ->
  exists before o ar t d a after, ops = before ++ OpObserve o ar t d a true :: after /\
    stamped_by o a (exec_run (before ++ [OpObserve o ar t d a true]) default_execution) f /\ Forall quiet after.
Proof.
  intros s Hw Hd Hf Hfw Hfd.
  destruct (fact_recorded ops f Hf) as (before & o & ar & t & d & a & after & Hops & Hst).
  exists before, o, ar, t, d, a, after. split; [done|]. split; [done|].
  assert (Hs : s = exec_run after (exec_run (before ++ [OpObserve o ar t d a true]) default_execution)).
  { unfold s. rewrite Hops, <- exec_run_app, <- app_assoc. done. }
  assert (Hb : clocks_bounded (exec_run (before ++ [OpObserve o ar t d a true]) default_execution)).
  { apply exec_run_clocks. split; vm_compute; congruence. }
  destruct (exec_run_clocks after _ Hb) as (_ & _ & _ & Hq). destruct Hst as (Hstw & Hstd & _).
  apply Hq; rewrite <- Hs; [done|done|congruence|congruence].
Qed.

(** ** The obligation ledger *)

Definition same_debts (s s' : ExecutionState) : Prop :=
  ex_obligations s' = ex_obligations s /\ ex_failure_overflow s' = ex_failure_overflow s.

#[export] Instance same_debts_preorder : PreOrder same_debts.
Proof. split; [done|]. intros a b c [? ?] [? ?]. split; congruence. Qed.

Lemma upsert_file_debts path digest turn p k s : same_debts s (upsert_file path digest turn p k s).2.
Proof.
  unfold upsert_file. cbn zeta. destruct (existsb _ _); destruct (find _ _); try done;
    destruct (update_first _ _ _); done.
Qed.

Lemma upsert_touches_debts touches turn p k : forall r, same_debts r.2 (upsert_touches touches turn p k r).2.
Proof.
  induction touches as [|t touches IH]; intros r; [done|]. cbn. etrans; [|apply IH]. apply upsert_file_debts.
Qed.

Lemma advance_world_debts o s : same_debts s (advance_world o s).2.
Proof. unfold advance_world. by destruct (mutation_footprint o). Qed.

Lemma observe_success_debts o i d a isv t s : same_debts s (observe_success o i d a isv t s).2.
Proof.
  unfold observe_success. cbn zeta.
  match goal with |- context [upsert_touches ?ts ?tt ?pp ?kk ?r] =>
    pose proof (upsert_touches_debts ts tt pp kk r) as H; set (u := upsert_touches ts tt pp kk r) in * end.
  clearbody u. by destruct isv.
Qed.

Lemma observe_refusal_debts o i a t s : same_debts s (observe_refusal o i a t s).2.
Proof.
  unfold observe_refusal. cbn zeta.
  assert (H : same_debts s (if may_mutate_workspace o
     then upsert_touches (List.filter (fun touch => negb (bool_decide (or_empty (rt_revision touch) = [])))
            (resource_touches o)) t MutationRefusal MetadataOnly (ResNone, s) else (ResNone, s)).2).
  { destruct (may_mutate_workspace o); [|done]. apply (upsert_touches_debts _ _ _ _ (ResNone, s)). }
  set (r := if may_mutate_workspace o then _ else _) in *. clearbody r.
  destruct (resource_touches o) as [|touch ts]; [by destruct (is_command_tool _)|by destruct (negb _ && negb _)].
Qed.

Lemma record_verification_source_debts n d a s : same_debts s (record_verification_source n d a s).
Proof. unfold record_verification_source. by destruct (negb _). Qed.

Lemma drop_negative_debts k n t s : same_debts s (drop_negative k n t s).2.
Proof. unfold drop_negative. by destruct (remove_first _ _) as [[??]|]. Qed.

Lemma observe_negative_fact_debts o d t a s : same_debts s (observe_negative_fact o d t a s).2.
Proof.
  unfold observe_negative_fact. destruct a as [a|]; [|done]. destruct (observation_target a o) as [target|]; [|done].
  destruct (out_ok o); [apply drop_negative_debts|]. destruct (negb _); [done|].
  destruct (target_is_rooted a target); [apply drop_negative_debts|]. by destruct (update_first _ _ _).
Qed.

Lemma invalidate_stale_evidence_debts s : same_debts s (invalidate_stale_evidence s).2.
Proof. unfold invalidate_stale_evidence. cbn. by destruct (0 <? _)%N. Qed.

Lemma record_observation_evidence_debts o t d s : same_debts s (record_observation_evidence o t d s).2.
Proof.
  unfold record_observation_evidence. destruct (evidence_key o s) as [[key v]|]; [|done]. cbn zeta.
  destruct (find _ _) as [row|]; [|done].
  destruct (advance_coverage _ _ _ _) as [[adv unt] ledger].
  destruct (_ && negb adv); [done|]. by destruct unt.
Qed.

Lemma update_convergence_debts i f d e p s : same_debts s (update_convergence i f d e p s).
Proof.
  unfold update_convergence. cbn zeta. destruct (advances_frontier d); [done|].
  destruct f; destruct (negb _ || _); done.
Qed.

Lemma revalidate_debts oracle query priority s : same_debts s (revalidate_with_priority oracle query priority s).
Proof.
  unfold revalidate_with_priority. cbn zeta.
  assert (H1 : forall i s, same_debts s (revalidate_one oracle i s)).
  { intros i s'. unfold revalidate_one. destruct (_ !! i) as [fact|]; [|done].
    destruct (oracle _) as [[revision|]|]; [|done..]. cbn zeta. by destruct (negb _ && negb _). }
  assert (H : forall l s, same_debts s (foldl (fun s i => revalidate_one oracle i s) s l)).
  { induction l as [|i l IH]; intros s'; [done|]. cbn. etrans; [apply H1|apply IH]. }
  specialize (H (pending_indices query priority s) s).
  set (s1 := foldl _ _ _) in *. clearbody s1.
  match goal with |- same_debts s (refresh_validity ?x) => assert (Hx : same_debts s1 x) end.
  { destruct (_ && negb _); [|done]. destruct (vo_coverage _) as [| |[|p ps]]; try done.
    by destruct (covered_resources_identity_confirmed _ _). }
  etrans; [exact H|]. exact Hx.
Qed.

(** The lineage of a row. *)
Definition same_lineage (domain : ToolFailureDomain) (scope : text) (row : ExecutionObligation) : Prop :=
  ob_domain row = domain /\ ob_scope_key row = scope.

(** An observation whose own evidence resolves the lineage, and reports it. *)
Definition resolves_lineage (o : ToolOutput) (a : option RuntimeExecutionAttribution) (domain : ToolFailureDomain)
    (scope : text) (events : list ExecutionObligationEvent) : Prop :=
  (exists precondition, failure_resolves domain scope precondition (resolution_evidence o a) = true) /\
  exists e, e ∈ events /\ oe_kind e = ObResolved /\ oe_domain e = domain /\ oe_scope_digest e = scope.

Lemma resolve_obligations o a s row :
  row ∈ ex_obligations s ->
  row ∈ ex_obligations (resolve_failure_blockers o a s).2 \/
  resolves_lineage o a (ob_domain row) (ob_scope_key row) (resolve_failure_blockers o a s).1.
Proof.
  intros Hrow. unfold resolve_failure_blockers. cbn.
  destruct (failure_resolves (ob_domain row) (ob_scope_key row) (ob_precondition row) (resolution_evidence o a)) eqn:E.
  - right. split; [by eexists|].
    eexists. split; [apply list_elem_of_fmap; exists row; split; [reflexivity|]|by split_and!].
    apply list_elem_of_In, filter_In. by rewrite <- list_elem_of_In.
  - left. apply list_elem_of_In, filter_In. rewrite <- list_elem_of_In. by rewrite E.
Qed.

Lemma resolves_lineage_more o a domain scope events more :
  resolves_lineage o a domain scope events -> resolves_lineage o a domain scope (events ++ more).
Proof. intros [H (e & He & Hk)]. split; [done|]. exists e. split; [by apply elem_of_app; left|done]. Qed.

Lemma update_first_elem {A} (f : A -> bool) (g : A -> A) l l' x :
  update_first f g l = Some l' -> x ∈ l -> x ∈ l' \/ (f x = true /\ g x ∈ l').
Proof.
  revert l'. induction l as [|y l IH]; intros l'; [done|]. cbn. destruct (f y) eqn:Ef.
  - intros [= <-] [->|Hx]%elem_of_cons; [right; split; [done|by left]|left; by right].
  - destruct (update_first f g l) as [r|] eqn:Er; [|done]. intros [= <-] [->|Hx]%elem_of_cons; [left; by left|].
    destruct (IH r eq_refl Hx) as [H|[H1 H2]]; [left; by right|right; split; [done|by right]].
Qed.

Lemma update_first_row {A} (f : A -> bool) (g : A -> A) l l' :
  update_first f g l = Some l' -> exists y, f y = true /\ g y ∈ l'.
Proof.
  revert l'. induction l as [|y l IH]; intros l'; [done|]. cbn. destruct (f y) eqn:Ef.
  - intros [= <-]. exists y. split; [done|by left].
  - destruct (update_first f g l) as [r|] eqn:Er; [|done]. intros [= <-].
    destruct (IH r eq_refl) as (z & ? & ?). exists z. split; [done|by right].
Qed.

Lemma record_obligation_keeps o i sp s row :
  row ∈ ex_obligations s ->
  exists row', row' ∈ ex_obligations (record_obligation o i sp s).2 /\
    same_lineage (ob_domain row) (ob_scope_key row) row'.
Proof.
  intros Hrow. unfold record_obligation. destruct (out_ok o || sp); [by exists row|].
  destruct (failure_blocker_identity o) as [b|]; [|by exists row]. cbn zeta.
  destruct (find _ _) as [x|] eqn:Ef.
  - destruct (update_first _ _ _) as [rows|] eqn:Eu.
    + destruct (update_first_elem _ _ _ _ row Eu Hrow) as [H|[H1 H2]]; [by exists row|].
      eexists. split; [exact H2|]. done.
    + by destruct (MAX_OBLIGATIONS <=? _); exists row; [|split; [apply elem_of_app; left|]].
  - destruct (MAX_OBLIGATIONS <=? _); exists row; [done|]. split; [apply elem_of_app; by left|done].
Qed.

Lemma record_obligation_overflow o i sp s :
  (uo_omitted_obligations (ex_failure_overflow s) <= u32_max)%N ->
  (uo_omitted_obligations (ex_failure_overflow s) <=
   uo_omitted_obligations (ex_failure_overflow (record_obligation o i sp s).2) <= u32_max)%N.
Proof.
  intros Hle. unfold record_obligation. destruct (out_ok o || sp); [cbn [snd]; lia|].
  destruct (failure_blocker_identity o) as [b|]; [|cbn [snd]; lia]. cbn zeta.
  destruct (find _ _) as [x|]; [destruct (update_first _ _ _)|];
    try destruct (MAX_OBLIGATIONS <=? _); cbn; unfold saturating_add32; lia.
Qed.

Lemma cap_debts s :
  ex_obligations (cap s).2 = ex_obligations s /\
  uo_omitted_obligations (ex_failure_overflow (cap s).2) = uo_omitted_obligations (ex_failure_overflow s).
Proof.
  unfold cap, cap_failed_commands, cap_verifications. cbn zeta. repeat case_match; done.
Qed.

(** A failed probe for a file nobody named is speculative, and opens no obligation. *)
Definition speculative (o : ToolOutput) (a : option RuntimeExecutionAttribution) : bool :=
  bool_decide (is_Some (a ≫= fun a => speculative_negative_target a o)).

Lemma observe_negative_fact_speculative o d t a s : (observe_negative_fact o d t a s).1.1 = speculative o a.
Proof.
  unfold observe_negative_fact, speculative. destruct a as [a|]; [|done]. cbn [mbind option_bind].
  unfold speculative_negative_target. destruct (out_ok o); cbn [orb].
  - by destruct (observation_target a o).
  - destruct (bool_decide _) eqn:E; cbn [negb];
      destruct (observation_target a o) as [target|]; try done; rewrite ?E; cbn [negb]; try done.
    destruct (target_is_rooted a target); [done|]. by destruct (update_first _ _ _).
Qed.

(** The obligation ledger of one observation: it resolves, then records. *)
Lemma observe_ledger o ar t d a isv s : exists s6,
  let r := observe_tool_inner o ar t d a isv s in
  let resolved := resolve_failure_blockers o a s6 in
  let recorded := record_obligation o (operation_identity o d a) (speculative o a) resolved.2 in
  same_debts s s6 /\
  ex_obligations r.2 = ex_obligations recorded.2 /\
  uo_omitted_obligations (ex_failure_overflow r.2) = uo_omitted_obligations (ex_failure_overflow recorded.2) /\
  exists more, fo_obligation_events r.1 = resolved.1 ++ more.
Proof.
  cbn zeta. unfold observe_tool_inner. cbn zeta.
  set (s0 := set_last_turn t (set_anchor_revision ar s)).
  pose proof (advance_world_debts o s0) as H1.
  set (world := advance_world o s0) in *. clearbody world.
  set (stage1 := if out_ok o then _ else _).
  assert (H2 : same_debts world.2 stage1.2).
  { unfold stage1. destruct (out_ok o); [apply observe_success_debts|cbn [snd]; apply observe_refusal_debts]. }
  clearbody stage1. destruct stage1 as [[obs passes] s1]. cbn [snd] in H2.
  set (s2 := if isv && negb (out_ok o) then _ else s1).
  assert (H3 : same_debts s1 s2) by (unfold s2; by destruct (isv && _)). clearbody s2.
  set (s3 := match mutation_footprint o with FootprintUnknown => _ | _ => s2 end).
  assert (H4 : same_debts s2 s3).
  { unfold s3. destruct (mutation_footprint o); try done. by destruct (bool_decide _). }
  clearbody s3.
  pose proof (record_verification_source_debts (out_tool_name o) d a s3) as H5.
  set (s4 := record_verification_source _ _ _ s3) in *. clearbody s4.
  pose proof (observe_negative_fact_debts o d t a s4) as H6.
  pose proof (observe_negative_fact_speculative o d t a s4) as Hsp.
  destruct (observe_negative_fact o d t a s4) as [[sp negs] s5]. cbn [fst snd] in H6, Hsp. subst sp.
  pose proof (invalidate_stale_evidence_debts s5) as H7.
  destruct (invalidate_stale_evidence s5) as [inv s6]. cbn [snd] in H7.
  assert (Hpre : same_debts s s6) by (do 7 (etrans; [eassumption|]); reflexivity).
  exists s6. split; [done|]. clear - Hpre.
  destruct (resolve_failure_blockers o a s6) as [ev1 s7].
  cbn [fst snd].
  destruct (record_obligation o (operation_identity o d a) (speculative o a) s7) as [ev2 s8].
  pose proof (cap_debts s8) as [H10 H10o]. destruct (cap s8) as [ev3 s9]. cbn [snd] in H10, H10o.
  set (stage2 := if out_ok o && negb isv && negb (may_mutate_workspace o) then _ else _).
  assert (H11 : same_debts (refresh_validity s9) stage2.2).
  { unfold stage2. destruct (_ && _); [apply record_observation_evidence_debts|done]. }
  clearbody stage2. destruct stage2 as [oe s11]. cbn [snd] in H11.
  set (s12 := if _ : bool then set_directive_has_rooted_evidence true s11 else s11).
  assert (H12 : same_debts s11 s12) by (unfold s12; by destruct (out_ok o && _)).
  clearbody s12. cbn [fst snd].
  match goal with |- context [update_convergence ?i ?f ?dl ?e ?p s12] =>
    pose proof (update_convergence_debts i f dl e p s12) as H13;
    set (s13 := update_convergence i f dl e p s12) in *; clearbody s13 end.
  destruct H11 as [H11 H11o], H12 as [H12 H12o], H13 as [H13 H13o].
  split_and!; [by rewrite H13, H12, H11|by rewrite H13o, H12o, H11o|].
  by exists (ev2 ++ ev3).
Qed.

Lemma observe_obligations o ar t d a isv s row :
  let r := observe_tool_inner o ar t d a isv s in
  row ∈ ex_obligations s ->
  (exists row', row' ∈ ex_obligations r.2 /\ same_lineage (ob_domain row) (ob_scope_key row) row') \/
  resolves_lineage o a (ob_domain row) (ob_scope_key row) (fo_obligation_events r.1).
Proof.
  intros r Hrow. destruct (observe_ledger o ar t d a isv s) as (s6 & Hpre & Hob & _ & more & Hev).
  fold r in Hob, Hev. rewrite Hob, Hev. rewrite <- (proj1 Hpre) in Hrow.
  destruct (resolve_obligations o a s6 row Hrow) as [H|H]; [left|right; by apply resolves_lineage_more].
  by apply record_obligation_keeps.
Qed.

(** A failure that names its blocker is on the ledger, or counted past it. *)
Definition debt_of (domain : ToolFailureDomain) (scope : text) (s : ExecutionState) : Prop :=
  (exists row, row ∈ ex_obligations s /\ same_lineage domain scope row) \/
  (0 < uo_omitted_obligations (ex_failure_overflow s))%N.

Lemma record_obligation_opens o i s b :
  out_ok o = false -> failure_blocker_identity o = Some b ->
  debt_of (fb_domain b) (fb_scope_key b) (record_obligation o i false s).2.
Proof.
  intros Hok Hb. unfold record_obligation. rewrite Hok, Hb. cbn [orb]. cbn zeta. unfold debt_of.
  destruct (find _ _) as [x|] eqn:Ef; [destruct (update_first _ _ _) as [rows|] eqn:Eu|].
  - left. apply find_some in Ef as [Hin Hx]. apply list_elem_of_In in Hin. cbn.
    destruct (update_first_row _ _ _ _ Eu) as (y & Hy & Hrow). eexists. split; [exact Hrow|].
    unfold same_lineage. cbn. apply andb_true_iff in Hy as [H1 H2].
    split; by eapply bool_decide_eq_true_1.
  - case_match; cbn; [right; unfold saturating_add32; unfold u32_max; lia|left].
    eexists. split; [apply elem_of_app; right; by apply list_elem_of_singleton|done].
  - case_match; cbn; [right; unfold saturating_add32; unfold u32_max; lia|left].
    eexists. split; [apply elem_of_app; right; by apply list_elem_of_singleton|done].
Qed.

Lemma observe_failure_opens o ar t d a isv s b :
  out_ok o = false -> failure_blocker_identity o = Some b -> speculative o a = false ->
  debt_of (fb_domain b) (fb_scope_key b) (observe_tool_inner o ar t d a isv s).2.
Proof.
  intros Hok Hb Hsp. destruct (observe_ledger o ar t d a isv s) as (s6 & _ & Hob & Hov & _).
  unfold debt_of. rewrite Hob, Hov, Hsp. by apply record_obligation_opens.
Qed.

(** A step that resolves a lineage. *)
Definition step_resolves (s : ExecutionState) (op : ExecOp) (domain : ToolFailureDomain) (scope : text) : Prop :=
  match op with
  | OpObserve o ar t d a isv =>
      resolves_lineage o a domain scope (fo_obligation_events (observe_tool_inner o ar t d a isv s).1)
  | _ => False
  end.

Lemma exec_step_obligations s op row :
  row ∈ ex_obligations s ->
  (exists row', row' ∈ ex_obligations (exec_step s op) /\ same_lineage (ob_domain row) (ob_scope_key row) row') \/
  step_resolves s op (ob_domain row) (ob_scope_key row).
Proof.
  intros Hrow. destruct op; cbn [exec_step step_resolves];
    [left; by exists row|by apply observe_obligations| | |left; destruct spec_changed; by exists row|left; by exists row].
  - left. exists row. split; [|done]. unfold observe_reused_verification. cbn zeta. cbn [snd].
    pose proof (update_convergence_debts (operation_identity o [] None) None RedundantEvidence ObsNone ProgNone
      (set_last_turn turn (set_anchor_revision anchor_revision s))) as [H _].
    by match goal with |- row ∈ ex_obligations (refresh_validity ?x) =>
      change (row ∈ ex_obligations x); rewrite H end.
  - left. exists row. split; [|done]. by rewrite (proj1 (revalidate_debts oracle query priority s)).
Qed.

Lemma run_obligations ops : forall s row,
  row ∈ ex_obligations s ->
  (exists row', row' ∈ ex_obligations (exec_run ops s) /\ same_lineage (ob_domain row) (ob_scope_key row) row') \/
  exists before op after, ops = before ++ op :: after /\
    step_resolves (exec_run before s) op (ob_domain row) (ob_scope_key row).
Proof.
  induction ops as [|op ops IH]; intros s row Hrow; [left; by exists row|].
  destruct (exec_step_obligations s op row Hrow) as [(row' & Hrow' & Hd & Hs)|Hr].
  - destruct (IH (exec_step s op) row' Hrow') as [(row'' & ? & Hd2 & Hs2)|(b & op' & af & -> & Hr)].
    + left. exists row''. split; [done|]. split; congruence.
    + right. exists (op :: b), op', af. split; [done|]. rewrite <- Hd, <- Hs. exact Hr.
  - right. by exists [], op, ops.
Qed.

End facts.
