(* ===== verification/ExecutionTheorems.v ===== *)
(** What the execution state of a task promises: a verification that is not run again is
    still the verdict on the current world and directive, a failure that names its
    blocker keeps the task from being ready until an observation resolves it, and the
    bounded ledger of proofs keeps the newest proof of each identity. *)

From S2P Require Import Prelude Text Digest Jcs Operation OutputBroker Capability Artifact ToolFacts Execution Observe.
From S2P Require Import ObserveFacts.

(** ** Which facts a full ledger keeps *)

Section ledger.
Context `{JN : JsonNumber} {TC : TextCrypto}.

Definition trues (flags : list bool) : nat := length (List.filter (fun b => b) flags).

Lemma trues_false n : trues (replicate n false) = 0.
Proof. by induction n. Qed.

Lemma trues_cons b l : trues (b :: l) = (if b then 1 else 0) + trues l.
Proof. by destruct b. Qed.

(** The identities that name something, and their number. *)
Definition identities (rows : list VerificationFact) : list text :=
  List.filter (fun i => negb (bool_decide (i = []))) (vf_verification_identity <$> rows).

Definition distinct (l : list text) : nat := size (list_to_set l : gset text).

Lemma distinct_mono l l' : (forall x, x ∈ l -> x ∈ l') -> distinct l <= distinct l'.
Proof. intros H. unfold distinct. apply (subseteq_size (C:=gset text)). intros x. rewrite !elem_of_list_to_set. apply H. Qed.

Lemma distinct_nodup l : NoDup l -> distinct l = length l.
Proof. intros H. unfold distinct. by apply (size_list_to_set (C:=gset text)). Qed.

Lemma identities_cons f rows :
  identities (f :: rows) =
  (if bool_decide (vf_verification_identity f = []) then [] else [vf_verification_identity f]) ++ identities rows.
Proof. unfold identities. cbn. by destruct (bool_decide _). Qed.

Lemma latest_count rows : forall kept seen,
  kept <= MAX_VERIFICATION_FACTS ->
  let r := latest_per_identity kept seen rows in
  r.1.2 = kept + trues r.1.1 /\ r.1.2 <= MAX_VERIFICATION_FACTS.
Proof.
  induction rows as [|f rows IH]; intros kept seen Hk; cbn [latest_per_identity]; [cbn; lia|].
  destruct (MAX_VERIFICATION_FACTS <=? kept) eqn:Ek.
  { cbn [fst snd]. rewrite trues_false. lia. }
  apply Nat.leb_gt in Ek. cbn zeta. destruct (_ || _).
  - specialize (IH kept seen Hk). destruct (latest_per_identity kept seen rows) as [[fl k] se].
    cbn [fst snd negb] in *. rewrite trues_cons. lia.
  - specialize (IH (S kept) (vf_verification_identity f :: seen) ltac:(lia)).
    destruct (latest_per_identity _ _ rows) as [[fl k] se]. cbn [fst snd negb] in *. rewrite trues_cons. lia.
Qed.

(** The newest fact of an identity gets its flag while fewer than the bound came before. *)
Lemma latest_flags post : forall f pre kept seen,
  NoDup seen -> length seen = kept ->
  vf_verification_identity f <> [] -> vf_verification_identity f ∉ identities post ->
  vf_verification_identity f ∉ seen ->
  distinct (seen ++ identities post) < MAX_VERIFICATION_FACTS ->
  (latest_per_identity kept seen (post ++ f :: pre)).1.1 !! length post = Some true.
Proof.
  induction post as [|g post IH]; intros f pre kept seen Hnd Hlen Hne Hpost Hseen Hlt.
  - cbn [app latest_per_identity length]. unfold identities in Hlt. cbn in Hlt. rewrite app_nil_r in Hlt.
    rewrite (distinct_nodup _ Hnd), Hlen in Hlt.
    rewrite (proj2 (Nat.leb_gt _ _) Hlt). cbn zeta.
    rewrite bool_decide_eq_false_2 by done. rewrite bool_decide_eq_false_2 by done. cbn [orb].
    by destruct (latest_per_identity _ _ pre) as [[fl k] se].
  - cbn [app latest_per_identity length].
    assert (Hk : kept < MAX_VERIFICATION_FACTS).
    { rewrite <- Hlen, <- (distinct_nodup _ Hnd). eapply Nat.le_lt_trans; [|exact Hlt].
      apply distinct_mono. intros x Hx. apply elem_of_app. by left. }
    rewrite (proj2 (Nat.leb_gt _ _) Hk). cbn zeta. rewrite identities_cons in Hpost, Hlt.
    apply not_elem_of_app in Hpost as [Hg Hpost].
    destruct (bool_decide (vf_verification_identity g = [])) eqn:Eg; cbn [orb].
    + specialize (IH f pre kept seen Hnd Hlen Hne Hpost Hseen Hlt).
      by destruct (latest_per_identity kept seen (post ++ f :: pre)) as [[fl k] se].
    + destruct (bool_decide (vf_verification_identity g ∈ seen)) eqn:Es.
      * specialize (IH f pre kept seen Hnd Hlen Hne Hpost Hseen).
        destruct (latest_per_identity kept seen (post ++ f :: pre)) as [[fl k] se]. cbn [fst] in *. apply IH.
        eapply Nat.le_lt_trans; [|exact Hlt]. apply distinct_mono. intros x. rewrite !elem_of_app. tauto.
      * apply bool_decide_eq_false_1 in Es.
        assert (Hg2 : vf_verification_identity f <> vf_verification_identity g).
        { intros He. apply Hg. rewrite He. by left. }
        specialize (IH f pre (S kept) (vf_verification_identity g :: seen)).
        destruct (latest_per_identity (S kept) _ (post ++ f :: pre)) as [[fl k] se]. cbn [fst] in *. apply IH.
        -- by constructor.
        -- cbn. by rewrite Hlen.
        -- done.
        -- done.
        -- by apply not_elem_of_cons.
        -- eapply Nat.le_lt_trans; [|exact Hlt]. apply distinct_mono. intros x.
           cbn. rewrite !elem_of_cons, !elem_of_app, elem_of_cons. tauto.
Qed.

Lemma fill_count rows : forall kept seen,
  trues (fill_by_recency kept seen rows) <= trues (snd <$> rows) + (MAX_VERIFICATION_FACTS - kept).
Proof.
  induction rows as [|[f b] rows IH]; intros kept seen; cbn [fill_by_recency fmap list_fmap]; [cbn; lia|].
  destruct (MAX_VERIFICATION_FACTS <=? kept) eqn:Ek; cbn [snd]; [rewrite !trues_cons; lia|].
  apply Nat.leb_gt in Ek. destruct b; [rewrite !trues_cons; specialize (IH kept seen); lia|].
  destruct (_ && _); rewrite !trues_cons;
    [specialize (IH kept seen); lia|specialize (IH (S kept) seen)]; lia.
Qed.

Lemma fill_keeps rows : forall kept seen i,
  (snd <$> rows) !! i = Some true -> fill_by_recency kept seen rows !! i = Some true.
Proof.
  induction rows as [|[f b] rows IH]; intros kept seen i; [done|].
  cbn [fill_by_recency fmap list_fmap]. destruct (MAX_VERIFICATION_FACTS <=? kept); [done|].
  destruct i as [|i]; cbn.
  - intros [= ->]. done.
  - intros Hi. destruct b; [by apply IH|]. destruct (_ && _); by apply IH.
Qed.

Definition flagged (p : VerificationFact * bool) : option VerificationFact := if p.2 then Some p.1 else None.

Lemma flagged_count (rows : list VerificationFact) : forall flags,
  length (omap flagged (zip rows flags)) <= trues flags.
Proof.
  induction rows as [|f rows IH]; intros [|b flags]; cbn; try lia.
  specialize (IH flags). destruct b; cbn in *; unfold trues in *; cbn; lia.
Qed.

Lemma flagged_elem (rows : list VerificationFact) : forall flags i f,
  rows !! i = Some f -> flags !! i = Some true -> f ∈ omap flagged (zip rows flags).
Proof.
  induction rows as [|g rows IH]; intros [|b flags] [|i] f; cbn; try done.
  - intros [= ->] [= ->]. cbn. by left.
  - intros Hf Hb. specialize (IH flags i f Hf Hb). destruct b; cbn; [by right|done].
Qed.

Lemma zip_snd (rows : list VerificationFact) : forall flags : list bool,
  length flags = length rows -> snd <$> zip rows flags = flags.
Proof. induction rows as [|f rows IH]; intros [|b flags]; cbn; try done. intros [= H]. by rewrite IH. Qed.

Lemma retain_bounded rows : length (retain_verifications rows) <= MAX_VERIFICATION_FACTS.
Proof.
  unfold retain_verifications. pose proof (length_latest_per_identity (reverse rows) 0 []) as Hl.
  pose proof (latest_count (reverse rows) 0 [] ltac:(lia)) as [Hk Hm].
  destruct (latest_per_identity 0 [] (reverse rows)) as [[flags kept] seen]. cbn [fst snd] in *.
  rewrite length_reverse. etrans; [apply flagged_count|]. etrans; [apply fill_count|].
  rewrite zip_snd by done. lia.
Qed.

Lemma identities_reverse rows x : x ∈ identities (reverse rows) <-> x ∈ identities rows.
Proof.
  unfold identities. rewrite !list_elem_of_In, !filter_In, <- !list_elem_of_In.
  rewrite fmap_reverse, elem_of_reverse. done.
Qed.

Lemma retain_keeps_newest pre f post :
  vf_verification_identity f <> [] -> vf_verification_identity f ∉ identities post ->
  distinct (identities post) < MAX_VERIFICATION_FACTS ->
  f ∈ retain_verifications (pre ++ f :: post).
Proof.
  intros Hne Hpost Hlt. unfold retain_verifications.
  assert (Hrev : reverse (pre ++ f :: post) = reverse post ++ f :: reverse pre).
  { by rewrite reverse_app, reverse_cons, <- app_assoc. }
  rewrite Hrev. pose proof (length_latest_per_identity (reverse post ++ f :: reverse pre) 0 []) as Hl.
  pose proof (latest_flags (reverse post) f (reverse pre) 0 []) as Hf.
  destruct (latest_per_identity 0 [] _) as [[flags kept] seen]. cbn [fst snd] in *.
  rewrite elem_of_reverse. eapply (flagged_elem _ _ (length (reverse post))).
  - by rewrite lookup_app_r, Nat.sub_diag by lia.
  - apply fill_keeps. rewrite zip_snd by done. apply Hf; [constructor|done|done| | |].
    + by rewrite identities_reverse.
    + apply not_elem_of_nil.
    + eapply Nat.le_lt_trans; [|exact Hlt]. apply distinct_mono. intros x. by rewrite app_nil_l, identities_reverse.
Qed.

End ledger.

Section theorems.
Context `{JN : JsonNumber} {JU : JsonU64} {TC : TextCrypto} {UC : UuidCodec}.

(** ** Failures *)

Lemma record_obligation_overflows o i sp s :
  (0 < uo_omitted_obligations (ex_failure_overflow s))%N ->
  (0 < uo_omitted_obligations (ex_failure_overflow (record_obligation o i sp s).2))%N.
Proof.
  intros Hlt. unfold record_obligation. destruct (out_ok o || sp); [done|].
  destruct (failure_blocker_identity o) as [b|]; [|done]. cbn zeta.
  destruct (find _ _) as [x|]; [destruct (update_first _ _ _)|];
    try destruct (MAX_OBLIGATIONS <=? _); cbn; unfold saturating_add32, u32_max in *; lia.
Qed.

Lemma exec_step_overflow s op :
  (0 < uo_omitted_obligations (ex_failure_overflow s))%N ->
  (0 < uo_omitted_obligations (ex_failure_overflow (exec_step s op)))%N.
Proof.
  intros Hlt. destruct op; cbn [exec_step]; [done| | | |by destruct spec_changed|done].
  - destruct (observe_ledger o anchor_revision turn argument_digest attribution is_verification s)
      as (s6 & Hpre & _ & Hov & _).
    rewrite Hov. apply record_obligation_overflows. unfold resolve_failure_blockers. cbn. by rewrite (proj2 Hpre).
  - unfold observe_reused_verification. cbn zeta. cbn [snd].
    pose proof (update_convergence_debts (operation_identity o [] None) None RedundantEvidence ObsNone ProgNone
      (set_last_turn turn (set_anchor_revision anchor_revision s))) as [_ H].
    match goal with |- context [refresh_validity ?x] =>
      change (0 < uo_omitted_obligations (ex_failure_overflow x))%N; by rewrite H end.
  - by rewrite (proj2 (revalidate_debts oracle query priority s)).
Qed.

Lemma exec_run_overflow ops : forall s,
  (0 < uo_omitted_obligations (ex_failure_overflow s))%N ->
  (0 < uo_omitted_obligations (ex_failure_overflow (exec_run ops s)))%N.
Proof. induction ops as [|op ops IH]; intros s H; [exact H|].
  change (exec_run (op :: ops) s) with (exec_run ops (exec_step s op)). apply IH. by apply exec_step_overflow.
Qed.

(** Only a successful observation resolves anything. *)
Lemma failed_resolves_nothing o a domain scope precondition :
  out_ok o = false -> failure_resolves domain scope precondition (resolution_evidence o a) = false.
Proof.
  intros Hok. unfold failure_resolves, resolution_evidence, observed_revision. rewrite Hok. cbn.
  destruct (match failure_blocker_identity o with Some _ => _ | None => _ end); [done|].
  destruct domain; try done; destruct (mutation_footprint o); try done; by rewrite andb_false_r.
Qed.

Lemma ready_no_debts s : execution_ready s = true ->
  ex_obligations s = [] /\ uo_omitted_obligations (ex_failure_overflow s) = 0%N.
Proof.
  unfold execution_ready, open_obligation_count. intros H.
  apply andb_true_iff in H as [H _]. apply andb_true_iff in H as [_ H]. apply N.eqb_eq in H.
  destruct (ex_obligations s); cbn in H; [split; [done|lia]|lia].
Qed.


(** ** Reused verifications *)

Lemma fact_on_basis_current rev s f : fact_on_basis rev s f = true ->
  vf_anchor_revision f = rev /\ vf_directive_revision f = ex_directive_revision s /\
  vf_workspace_revision f = ex_workspace_revision s.
Proof. unfold fact_on_basis. rewrite !andb_true_iff, !N.eqb_eq. tauto. Qed.

Definition reusable_pass (rev : N) (s : ExecutionState) (f : VerificationFact) : Prop :=
  f ∈ ex_verifications s /\ vf_ok f = true /\ fact_on_basis rev s f = true /\ validity s = VCurrent /\
  vo_spec_revision (ex_verification s) = rev.

Lemma exact_pass_inv tool digest rev a s f :
  current_exact_verification_pass tool digest rev a s = Some f ->
  reusable_pass rev s f /\ exact_verification_identity a = Some (vf_verification_identity f) /\
  vf_source_tool_name f = tool /\ vf_argument_digest f = digest.
Proof.
  unfold current_exact_verification_pass. destruct (exact_verification_identity a) as [i|]; [|done].
  destruct (_ || _) eqn:E; [done|]. apply orb_false_iff in E as [E1 E2].
  apply negb_false_iff, N.eqb_eq in E1. apply negb_false_iff, bool_decide_eq_true_1 in E2.
  intros H. apply rfind_Some in H as [Hin H]. rewrite !andb_true_iff, !bool_decide_eq_true in H.
  destruct H as ((((? & ?) & ?) & ?) & <-). done.
Qed.

Lemma domain_pass_inv rev a s f :
  current_domain_verification_pass rev a s = Some f ->
  reusable_pass rev s f /\
  exists requested recorded domain, verification_recipe a = Some requested /\ vf_recipe_provenance f = Some recorded /\
    vp_coverage_domain requested = Some domain /\ vp_coverage_domain recorded = Some domain /\
    vp_class_identity_digest recorded = vp_class_identity_digest requested /\
    vp_domain_source_digest recorded = vp_domain_source_digest requested.
Proof.
  unfold current_domain_verification_pass. destruct (exact_verification_identity a) as [i|]; [|done].
  destruct (verification_recipe a) as [q|]; [|done]. destruct (vp_coverage_domain q) as [dom|] eqn:Ed; [|done].
  destruct (_ || _ || _); [done|]. destruct (_ || _) eqn:E; [done|]. apply orb_false_iff in E as [E1 E2].
  apply negb_false_iff, N.eqb_eq in E1. apply negb_false_iff, bool_decide_eq_true_1 in E2.
  intros H. apply rfind_Some in H as [Hin H]. apply andb_true_iff in H as [H Hp].
  apply andb_true_iff in H as [Hok Hb]. split; [done|].
  destruct (vf_recipe_provenance f) as [r|] eqn:Er; [|done].
  rewrite !andb_true_iff, !bool_decide_eq_true in Hp. destruct Hp as (((? & ?) & ?) & ?). by exists q, r, dom.
Qed.

Lemma trusted_pass_inv s i : trusted_verification_identity s = Some i ->
  exists f, reusable_pass (vo_spec_revision (ex_verification s)) s f /\ vf_verification_identity f = i /\ i <> [].
Proof.
  unfold trusted_verification_identity. destruct (bool_decide (validity s = VCurrent)) eqn:E; [|done].
  apply bool_decide_eq_true_1 in E. cbn [negb]. intros H. apply fmap_Some in H as (f & H & ->).
  apply rfind_Some in H as [Hin H]. rewrite !andb_true_iff, !negb_true_iff, !bool_decide_eq_false in H.
  destruct H as (((((? & ?) & ?) & Ha) & Hd) & Hw). exists f. split; [|done]. split_and!; try done.
  unfold fact_on_basis. by rewrite Ha, Hd, Hw.
Qed.

(** Where a reusable pass comes from. *)
Definition verified_by (ops : list ExecOp) (f : VerificationFact) : Prop :=
  exists before o ar t d att after,
    ops = before ++ OpObserve o ar t d att true :: after /\ out_ok o = true /\ Forall quiet after /\
    vf_verification_identity f = or_empty (bound_item <$> (att ≫= exact_verification_identity)) /\
    vf_recipe_provenance f = (att ≫= verification_recipe).

Lemma reusable_pass_verified ops rev f :
  let s := exec_run ops default_execution in
  (ex_workspace_revision s < u64_max)%N -> (ex_directive_revision s < u64_max)%N ->
  reusable_pass rev s f -> verified_by ops f.
Proof.
  intros s Hw Hd (Hin & Hok & Hb & _ & _). apply fact_on_basis_current in Hb as (_ & Hbd & Hbw).
  destruct (current_fact_quiet ops f Hw Hd Hin Hbw Hbd)
    as (before & o & ar & t & d & a & after & -> & (_ & _ & Ho & Hi & Hr) & Hq).
  exists before, o, ar, t, d, a, after. split_and!; try done. congruence.
Qed.

(** C15. A verification that the runtime answers from its ledger instead of running it
    again (an exact pass, a pass of the same declared domain, or the proof the task is
    ready by) is the verdict on the present: in any history of the task from its
    start, the pass was recorded by a successful verification of that identity (or of that
    domain and recipe class), after which no user turn and no mutation of the workspace
    was observed; and no verification has failed since, no source was seen to change and
    no acceptance was respecified. The clocks are 64-bit and saturate, so the claim is
    for histories that do not exhaust them. *)
Theorem reused_pass_is_current ops rev tool digest a f i :
  let s := exec_run ops default_execution in
  (ex_workspace_revision s < u64_max)%N -> (ex_directive_revision s < u64_max)%N ->
  (current_exact_verification_pass tool digest rev a s = Some f ->
     verified_by ops f /\ reusable_pass rev s f /\ exact_verification_identity a = Some (vf_verification_identity f)) /\
  (current_domain_verification_pass rev a s = Some f ->
     verified_by ops f /\ reusable_pass rev s f /\
     (vp_class_identity_digest <$> vf_recipe_provenance f) = (vp_class_identity_digest <$> verification_recipe a) /\
     (vp_coverage_domain <$> vf_recipe_provenance f) = (vp_coverage_domain <$> verification_recipe a)) /\
  (trusted_verification_identity s = Some i ->
     exists g, verified_by ops g /\ reusable_pass (vo_spec_revision (ex_verification s)) s g /\
       vf_verification_identity g = i).
Proof.
  intros s Hw Hd. split; [|split]; intros H.
  - apply exact_pass_inv in H as (Hr & Hi & _). by split; [eapply reusable_pass_verified|].
  - apply domain_pass_inv in H as (Hr & q & r & dom & Hq & Hrec & Hdq & Hdr & Hc & _).
    split; [by eapply reusable_pass_verified|]. split; [done|]. rewrite Hq, Hrec. cbn. by rewrite Hc, Hdq, Hdr.
  - apply trusted_pass_inv in H as (g & Hr & Hi & _). exists g. by split; [eapply reusable_pass_verified|].
Qed.

(** What "current" excludes. *)
Lemma validity_current s : validity s = VCurrent ->
  last_failed s = false /\ vo_failed_open (ex_verification s) = false /\
  vo_source_changed (ex_verification s) = false /\ vo_cause (ex_verification s) <> SpecChanged.
Proof.
  unfold validity. destruct (vo_failed_open _); [done|]. destruct (last_failed s); [done|]. cbn [orb].
  destruct (last_evidence s); [|by destruct (_ || _)].
  destruct (vo_source_changed _); [done|]. destruct (unknown_blocks_current s); [done|]. cbn [orb].
  destruct (bool_decide _) eqn:E; [done|]. by apply bool_decide_eq_false_1 in E.
Qed.

(** The verification ledger is bounded and forgets the right facts: whatever an
    observation recorded, it keeps at most sixteen facts, invents none, and never drops
    the newest fact of a verification identity while fewer than sixteen other identities
    were recorded after it. *)
Theorem capped_ledger_keeps_newest s :
  let kept := ex_verifications (cap s).2 in
  length kept <= MAX_VERIFICATION_FACTS /\ kept `sublist_of` ex_verifications s /\
  forall pre f post, ex_verifications s = pre ++ f :: post ->
    vf_verification_identity f <> [] -> vf_verification_identity f ∉ identities post ->
    distinct (identities post) < MAX_VERIFICATION_FACTS -> f ∈ kept.
Proof.
  cbn zeta. split; [|split; [apply cap_spec|]].
  - unfold cap. cbn zeta. cbn [snd]. set (s1 := cap_verifications _).
    destruct (cap_failed_proofs s1) as [_ Hv]. cbn. rewrite Hv. unfold s1, cap_verifications.
    case_match eqn:E; [apply retain_bounded|]. apply Nat.ltb_ge in E. exact E.
  - intros pre f post Hs Hne Hpost Hlt. unfold cap. cbn zeta. cbn [snd]. set (s1 := cap_verifications _).
    destruct (cap_failed_proofs s1) as [_ Hv]. cbn. rewrite Hv. unfold s1, cap_verifications.
    case_match; cbn; rewrite Hs; [by apply retain_keeps_newest|]. apply elem_of_app. right. by left.
Qed.

End theorems.
