(* ===== verification/TaskAnchor.v ===== *)
(** The authority of one task (agent-runtime/task.rs): its anchor with constraints,
    acceptance criteria and receipts, its tool requirements, their validation and
    normal form, field-level patches, and the projection of root claims.

    Serde's decoding of legacy rows is not modelled: criteria are the structured form. *)

From stdpp Require Import sorting.
From S2P Require Import Prelude Text Digest Jcs Operation OutputBroker Capability Artifact ToolFacts Execution.

Definition MAX_TASK_TOOL_REQUIREMENTS : nat := 32.
Definition MAX_TOOL_REQUIREMENT_NAME_CHARS : nat := 96.
Definition MAX_TOOL_REQUIREMENT_REASON_CHARS : nat := N.to_nat 160.
Definition MAX_TASK_ANCHOR_TEXT_CHARS : nat := N.to_nat 2000.
Definition MAX_TASK_ANCHOR_LIST_ITEMS : nat := 32.
Definition MAX_TASK_ANCHOR_CLAIMS : nat := 32.
Definition MAX_TASK_ANCHOR_CHANGED_FIELDS : nat := 8.
Definition MAX_ANCHOR_ROOT_CLAIMS : nat := 64.

Definition invalid_request {A} (message : text) : AgentResult A := Err (InvalidRequest message).

(** A loop of early returns. *)
Fixpoint check_all {A} (f : A -> AgentResult unit) (l : list A) : AgentResult unit :=
  match l with
  | [] => Ok tt
  | x :: l => let? _ := f x in check_all f l
  end.

(** [windows(2).any(f)]. *)
Fixpoint any_adjacent {A} (f : A -> A -> bool) (l : list A) : bool :=
  match l with
  | x :: ((y :: _) as l') => f x y || any_adjacent f l'
  | _ => false
  end.

(** ** Tool requirements *)

Inductive ToolSurfaceDemand : Type := KeepReady | PreferSurface | MustSurface.

#[export] Instance ToolSurfaceDemand_eq_dec : EqDecision ToolSurfaceDemand.
Proof. solve_decision. Defined.

Record ToolSurfaceRequirement : Type := {
  sr_tool_name : text;
  sr_demand : ToolSurfaceDemand;
  sr_reason : text;
}.

#[export] Instance ToolSurfaceRequirement_eq_dec : EqDecision ToolSurfaceRequirement.
Proof. solve_decision. Defined.

Record TaskToolRequirementSet : Type := {
  tr_revision : N;
  tr_entries : list ToolSurfaceRequirement;
}.

Definition default_requirements : TaskToolRequirementSet := {| tr_revision := 0; tr_entries := [] |}.

Definition check_requirement (r : ToolSurfaceRequirement) : AgentResult unit :=
  let name_chars := length (sr_tool_name r) in
  if (name_chars =? 0) || (MAX_TOOL_REQUIREMENT_NAME_CHARS <? name_chars)
  then invalid_request (txt "tool-requirement name has " ++ usize_text name_chars ++ txt " chars (allowed 1..=96)")
  else if negb (forallb domain_char (sr_tool_name r))
  then invalid_request (txt "tool-requirement name '" ++ sr_tool_name r ++ txt "': only [A-Za-z0-9._:-] are allowed")
  else if MAX_TOOL_REQUIREMENT_REASON_CHARS <? length (sr_reason r)
  then invalid_request (txt "tool requirement '" ++ sr_tool_name r ++ txt "' has a "
                          ++ usize_text (length (sr_reason r)) ++ txt "-char reason, above the 160 cap")
  else Ok tt.

Definition requirement_order (a b : ToolSurfaceRequirement) : Prop := text_order (sr_tool_name a) (sr_tool_name b).

#[export] Instance requirement_order_dec : RelDecision requirement_order.
Proof. intros a b. unfold requirement_order. apply _. Defined.

(** The first adjacent pair of equal names. *)
Fixpoint duplicate_name (l : list ToolSurfaceRequirement) : option text :=
  match l with
  | x :: ((y :: _) as l') =>
      if bool_decide (sr_tool_name x = sr_tool_name y) then Some (sr_tool_name x) else duplicate_name l'
  | _ => None
  end.

Definition normalize_tool_requirements (entries : list ToolSurfaceRequirement) :
    AgentResult (list ToolSurfaceRequirement) :=
  if MAX_TASK_TOOL_REQUIREMENTS <? length entries
  then invalid_request (txt "task declares " ++ usize_text (length entries)
                          ++ txt " tool requirements, above the 32 cap")
  else
    let? _ := check_all check_requirement entries in
    let entries := merge_sort requirement_order entries in
    match duplicate_name entries with
    | Some duplicate =>
        invalid_request (txt "task declares tool requirement '" ++ duplicate ++ txt "' more than once")
    | None => Ok entries
    end.

Definition validate_tool_requirement_set (r : TaskToolRequirementSet) : AgentResult unit :=
  let? normalized := normalize_tool_requirements (tr_entries r) in
  if negb (bool_decide (normalized = tr_entries r))
  then invalid_request (txt "task tool requirements are not normalized by tool name")
  else if (tr_revision r =? 0)%N && negb (bool_decide (tr_entries r = []))
  then invalid_request (txt "task tool requirements at revision 0 must be empty")
  else Ok tt.

(** ** The anchor *)

Inductive TaskCompletionPolicy : Type := OperatorClosureOnly | EvidenceRequired.

#[export] Instance TaskCompletionPolicy_eq_dec : EqDecision TaskCompletionPolicy.
Proof. solve_decision. Defined.

Record AcceptanceCriterion : Type := {
  ac_description : text;
  ac_coverage_domain : text;
  ac_domain_declaration_revision : N;
  ac_domain_source_digest : text;
}.

#[export] Instance AcceptanceCriterion_eq_dec : EqDecision AcceptanceCriterion.
Proof. solve_decision. Defined.

Definition criterion_declared (description : text) (d : VerificationCoverageDeclaration) : AcceptanceCriterion :=
  {| ac_description := description; ac_coverage_domain := vd_domain_id d;
     ac_domain_declaration_revision := vd_declaration_revision d;
     ac_domain_source_digest := vd_source_digest d |}.

Definition view_line (c : AcceptanceCriterion) : text :=
  if bool_decide (ac_coverage_domain c = []) then ac_description c
  else ac_description c ++ txt " (requires domain " ++ ac_coverage_domain c ++ txt ")".

Record AcceptanceCoverage : Type := {
  cov_task_id : option N;
  cov_verification_revision : N;
  cov_criterion_index : N;
  cov_coverage_domain : text;
  cov_domain_declaration_revision : N;
  cov_domain_source_digest : text;
  cov_directive_revision : N;
  cov_workspace_revision : N;
  cov_verification_identity : text;
}.

#[export] Instance AcceptanceCoverage_eq_dec : EqDecision AcceptanceCoverage.
Proof. solve_decision. Defined.

Inductive RootClaimRole : Type :=
| ConstraintSource | AcceptanceEvidence | ActiveDecision | OpenLoopEvidence | WorkingArtifact | RoleVerification.
Inductive RootClaimStrength : Type := PromptRequired | ResidentRequired | StorageRequired | Recallable.

#[export] Instance RootClaimRole_eq_dec : EqDecision RootClaimRole.
Proof. solve_decision. Defined.
#[export] Instance RootClaimStrength_eq_dec : EqDecision RootClaimStrength.
Proof. solve_decision. Defined.

Record ContextRootClaim : Type := {
  rc_item_ref : text;
  rc_role : RootClaimRole;
  rc_strength : RootClaimStrength;
  rc_source_field_id : text;
}.

#[export] Instance ContextRootClaim_eq_dec : EqDecision ContextRootClaim.
Proof. solve_decision. Defined.

Record TaskAnchor : Type := {
  an_revision : N;
  an_verification_revision : N;
  an_original_goal : text;
  an_current_interpretation : text;
  an_constraints : list text;
  an_completion_policy : TaskCompletionPolicy;
  an_acceptance_criteria : list AcceptanceCriterion;
  an_acceptance_coverage : list AcceptanceCoverage;
  an_plan_progress : list text;
  an_open_loops : list text;
  an_next_action : text;
  an_working_refs : list ContextRootClaim;
  an_evidence_refs : list ContextRootClaim;
}.

#[export] Instance TaskAnchor_eq_dec : EqDecision TaskAnchor.
Proof. solve_decision. Defined.

(** [TaskAnchor { original_goal, ..TaskAnchor::default() }]. *)
Definition empty_anchor (original_goal : text) : TaskAnchor :=
  {| an_revision := 0; an_verification_revision := 0; an_original_goal := original_goal;
     an_current_interpretation := []; an_constraints := []; an_completion_policy := OperatorClosureOnly;
     an_acceptance_criteria := []; an_acceptance_coverage := []; an_plan_progress := []; an_open_loops := [];
     an_next_action := []; an_working_refs := []; an_evidence_refs := [] |}.

Definition copy_anchor (a : TaskAnchor) : TaskAnchor :=
  {| an_revision := an_revision a; an_verification_revision := an_verification_revision a;
     an_original_goal := an_original_goal a; an_current_interpretation := an_current_interpretation a;
     an_constraints := an_constraints a; an_completion_policy := an_completion_policy a;
     an_acceptance_criteria := an_acceptance_criteria a; an_acceptance_coverage := an_acceptance_coverage a;
     an_plan_progress := an_plan_progress a; an_open_loops := an_open_loops a;
     an_next_action := an_next_action a; an_working_refs := an_working_refs a;
     an_evidence_refs := an_evidence_refs a |}.

Definition set_revision : N -> TaskAnchor -> TaskAnchor := ltac:(setter copy_anchor an_revision).
Definition set_verification_revision : N -> TaskAnchor -> TaskAnchor :=
  ltac:(setter copy_anchor an_verification_revision).
Definition set_acceptance_coverage : list AcceptanceCoverage -> TaskAnchor -> TaskAnchor :=
  ltac:(setter copy_anchor an_acceptance_coverage).

(** ** Validation and normal form *)

Definition check_bounded_text (field value : text) : AgentResult unit :=
  if MAX_TASK_ANCHOR_TEXT_CHARS <? length value
  then invalid_request (field ++ txt " has " ++ usize_text (length value) ++ txt " chars, above the 2000 cap")
  else Ok tt.

Definition check_entry (field entry : text) : AgentResult unit :=
  if length entry =? 0 then invalid_request (field ++ txt " contains an empty entry")
  else if MAX_TASK_ANCHOR_ITEM_CHARS <? length entry
  then invalid_request (field ++ txt " entry has " ++ usize_text (length entry) ++ txt " chars, above the 200 cap")
  else Ok tt.

Definition check_bounded_list (field : text) (entries : list text) : AgentResult unit :=
  if MAX_TASK_ANCHOR_LIST_ITEMS <? length entries
  then invalid_request (field ++ txt " carries " ++ usize_text (length entries) ++ txt " entries, above the 32 cap")
  else check_all (check_entry field) entries.

Definition check_coverage_domain (domain : text) : AgentResult unit :=
  if (length domain =? 0) || (MAX_TASK_ANCHOR_ITEM_CHARS <? length domain)
  then invalid_request (txt "acceptance coverage domain has " ++ usize_text (length domain)
                          ++ txt " chars (allowed 1..=200)")
  else if negb (forallb domain_char domain)
  then invalid_request (txt "acceptance coverage domain '" ++ domain ++ txt "': only [A-Za-z0-9._:-] are allowed")
  else Ok tt.

Definition check_criterion (policy : TaskCompletionPolicy) (c : AcceptanceCriterion) : AgentResult unit :=
  let? _ := check_bounded_text (txt "anchor acceptance criterion") (ac_description c) in
  let? _ := if bool_decide (policy = EvidenceRequired) || negb (bool_decide (ac_coverage_domain c = []))
            then check_coverage_domain (ac_coverage_domain c) else Ok tt in
  if negb (bool_decide (ac_domain_source_digest c = [])) && negb (is_content_digest (ac_domain_source_digest c))
  then invalid_request (txt "anchor acceptance criterion has an invalid coverage-domain source digest")
  else Ok tt.

Definition receipt_order (a b : AcceptanceCoverage) : Prop :=
  (cov_criterion_index a <=? cov_criterion_index b)%N = true.

#[export] Instance receipt_order_dec : RelDecision receipt_order.
Proof. intros a b. unfold receipt_order. apply _. Defined.

(** One turn of the loop over the receipts; the index is in range where it is used. *)
Definition check_receipt (a : TaskAnchor) (r : AcceptanceCoverage) : AgentResult unit :=
  let? _ := check_bounded_text (txt "anchor acceptance_coverage identity") (cov_verification_identity r) in
  match an_acceptance_criteria a !! N.to_nat (cov_criterion_index r) with
  | None =>
      invalid_request (txt "anchor acceptance_coverage addresses criterion "
        ++ usize_text (N.to_nat (cov_criterion_index r)) ++ txt ", beyond the "
        ++ usize_text (length (an_acceptance_criteria a)) ++ txt " declared criteria")
  | Some criterion =>
      if bool_decide (an_completion_policy a = OperatorClosureOnly) then Ok tt
      else
        let? _ := check_coverage_domain (cov_coverage_domain r) in
        if negb (bool_decide (cov_coverage_domain r = ac_coverage_domain criterion))
        then invalid_request (txt "anchor acceptance receipt domain '" ++ cov_coverage_domain r
               ++ txt "' does not match criterion " ++ usize_text (N.to_nat (cov_criterion_index r))
               ++ txt " domain '" ++ ac_coverage_domain criterion ++ txt "'")
        else if negb (cov_verification_revision r =? an_verification_revision a)%N
        then invalid_request (txt "anchor acceptance receipt for criterion "
               ++ usize_text (N.to_nat (cov_criterion_index r)) ++ txt " names verification revision "
               ++ uint_text (N.to_uint (cov_verification_revision r)) ++ txt ", expected "
               ++ uint_text (N.to_uint (an_verification_revision a)))
        else if negb (bool_decide (cov_domain_source_digest r = []))
                && negb (is_content_digest (cov_domain_source_digest r))
        then invalid_request (txt "anchor acceptance receipt has an invalid coverage-domain source digest")
        else
          let criterion_fully_bound :=
            (0 <? ac_domain_declaration_revision criterion)%N
            && negb (bool_decide (ac_domain_source_digest criterion = [])) in
          let receipt_fully_bound :=
            (0 <? cov_domain_declaration_revision r)%N && negb (bool_decide (cov_domain_source_digest r = [])) in
          if criterion_fully_bound && receipt_fully_bound
             && (negb (cov_domain_declaration_revision r =? ac_domain_declaration_revision criterion)%N
                 || negb (bool_decide (cov_domain_source_digest r = ac_domain_source_digest criterion)))
          then invalid_request (txt "anchor acceptance receipt declaration identity does not match criterion "
                 ++ usize_text (N.to_nat (cov_criterion_index r)))
          else if negb (is_content_digest (cov_verification_identity r))
          then invalid_request (txt "anchor acceptance receipt has an invalid verification identity")
          else Ok tt
  end.

Definition check_claim (field : text) (c : ContextRootClaim) : AgentResult unit :=
  let? _ := check_bounded_text (field ++ txt ".item_ref") (rc_item_ref c) in
  check_bounded_text (field ++ txt ".source_field_id") (rc_source_field_id c).

Definition check_claims (field : text) (claims : list ContextRootClaim) : AgentResult unit :=
  if MAX_TASK_ANCHOR_CLAIMS <? length claims
  then invalid_request (txt "anchor " ++ field ++ txt " carries " ++ usize_text (length claims)
                          ++ txt " claims, above the 32 cap")
  else check_all (check_claim field) claims.

(** The checks before the receipts are sorted. *)
Definition check_fields (a : TaskAnchor) : AgentResult unit :=
  let? _ := check_bounded_text (txt "anchor original_goal") (an_original_goal a) in
  let? _ := check_bounded_text (txt "anchor current_interpretation") (an_current_interpretation a) in
  let? _ := check_bounded_list (txt "constraints") (an_constraints a) in
  let? _ := check_bounded_list (txt "plan_progress") (an_plan_progress a) in
  let? _ := check_bounded_list (txt "open_loops") (an_open_loops a) in
  let? _ := if MAX_TASK_ANCHOR_LIST_ITEMS <? length (an_acceptance_criteria a)
            then invalid_request (txt "anchor acceptance_criteria carries "
                   ++ usize_text (length (an_acceptance_criteria a)) ++ txt " entries, above the 32 cap")
            else Ok tt in
  let? _ := check_all (check_criterion (an_completion_policy a)) (an_acceptance_criteria a) in
  let? _ := if bool_decide (an_completion_policy a = EvidenceRequired)
               && bool_decide (an_acceptance_criteria a = [])
            then invalid_request (txt "evidence-required tasks must declare at least one acceptance criterion")
            else Ok tt in
  if MAX_TASK_ANCHOR_LIST_ITEMS <? length (an_acceptance_coverage a)
  then invalid_request (txt "anchor acceptance_coverage carries "
         ++ usize_text (length (an_acceptance_coverage a)) ++ txt " claims, above the 32 cap")
  else Ok tt.

Definition normalize_anchor (a : TaskAnchor) : AgentResult TaskAnchor :=
  let? _ := check_fields a in
  let a := set_acceptance_coverage (merge_sort receipt_order (an_acceptance_coverage a)) a in
  let? _ := if any_adjacent (fun x y => (cov_criterion_index x =? cov_criterion_index y)%N)
                 (an_acceptance_coverage a)
            then invalid_request (txt "anchor acceptance_coverage contains duplicate criterion receipts")
            else Ok tt in
  let? _ := check_all (check_receipt a) (an_acceptance_coverage a) in
  let? _ := check_bounded_text (txt "anchor next_action") (an_next_action a) in
  let? _ := check_claims (txt "working_refs") (an_working_refs a) in
  let? _ := check_claims (txt "evidence_refs") (an_evidence_refs a) in
  Ok a.

Definition validate_anchor (task_id : N) (a : TaskAnchor) : AgentResult unit :=
  let? _ := normalize_anchor a in
  if bool_decide (an_completion_policy a = EvidenceRequired)
     && existsb (fun r => negb (bool_decide (cov_task_id r = Some task_id))) (an_acceptance_coverage a)
  then invalid_request (txt "task anchor contains an acceptance receipt for a different task")
  else if (an_revision a =? 0)%N && negb (bool_decide (a = empty_anchor (an_original_goal a)))
  then invalid_request (txt "task anchor at revision 0 must carry only the original goal")
  else Ok tt.

(** ** Changes *)

Inductive AnchorPatchKind : Type := Autonomous | Boundary.

#[export] Instance AnchorPatchKind_eq_dec : EqDecision AnchorPatchKind.
Proof. solve_decision. Defined.

Record AnchorPatch : Type := {
  ap_original_goal : option text;
  ap_constraints : option (list text);
  ap_current_interpretation : option text;
  ap_completion_policy : option TaskCompletionPolicy;
  ap_acceptance_criteria : option (list AcceptanceCriterion);
  ap_acceptance_coverage : option (list AcceptanceCoverage);
  ap_plan_progress : option (list text);
  ap_open_loops : option (list text);
  ap_next_action : option text;
  ap_working_refs : option (list ContextRootClaim);
  ap_evidence_refs : option (list ContextRootClaim);
}.

(** [AnchorPatch::kind]. *)
Definition patch_kind (p : AnchorPatch) : AnchorPatchKind :=
  if bool_decide (is_Some (ap_original_goal p)) || bool_decide (is_Some (ap_constraints p))
  then Boundary else Autonomous.

Definition apply_to (p : AnchorPatch) (a : TaskAnchor) : TaskAnchor :=
  {| an_revision := an_revision a; an_verification_revision := an_verification_revision a;
     an_original_goal := default (an_original_goal a) (ap_original_goal p);
     an_current_interpretation := default (an_current_interpretation a) (ap_current_interpretation p);
     an_constraints := default (an_constraints a) (ap_constraints p);
     an_completion_policy := default (an_completion_policy a) (ap_completion_policy p);
     an_acceptance_criteria := default (an_acceptance_criteria a) (ap_acceptance_criteria p);
     an_acceptance_coverage := default (an_acceptance_coverage a) (ap_acceptance_coverage p);
     an_plan_progress := default (an_plan_progress a) (ap_plan_progress p);
     an_open_loops := default (an_open_loops a) (ap_open_loops p);
     an_next_action := default (an_next_action a) (ap_next_action p);
     an_working_refs := default (an_working_refs a) (ap_working_refs p);
     an_evidence_refs := default (an_evidence_refs a) (ap_evidence_refs p) |}.

Definition is_authority_field (field : text) : bool :=
  bool_decide (field ∈ [txt "original_goal"; txt "constraints"; txt "completion_policy"; txt "acceptance_criteria"]).

(** The calls of [consider], in order; the cap drops the later ones. *)
Definition field_differences (old new : TaskAnchor) : list (text * bool) :=
  [ (txt "original_goal", negb (bool_decide (an_original_goal old = an_original_goal new)));
    (txt "current_interpretation",
       negb (bool_decide (an_current_interpretation old = an_current_interpretation new)));
    (txt "constraints", negb (bool_decide (an_constraints old = an_constraints new)));
    (txt "completion_policy", negb (bool_decide (an_completion_policy old = an_completion_policy new)));
    (txt "acceptance_criteria", negb (bool_decide (an_acceptance_criteria old = an_acceptance_criteria new)));
    (txt "acceptance_coverage", negb (bool_decide (an_acceptance_coverage old = an_acceptance_coverage new)));
    (txt "plan_progress", negb (bool_decide (an_plan_progress old = an_plan_progress new)));
    (txt "open_loops", negb (bool_decide (an_open_loops old = an_open_loops new)));
    (txt "next_action", negb (bool_decide (an_next_action old = an_next_action new)));
    (txt "working_refs", negb (bool_decide (an_working_refs old = an_working_refs new)));
    (txt "evidence_refs", negb (bool_decide (an_evidence_refs old = an_evidence_refs new))) ].

Definition consider (changed : list text) (field : text * bool) : list text :=
  if field.2 && (length changed <? MAX_TASK_ANCHOR_CHANGED_FIELDS) then changed ++ [field.1] else changed.

Definition anchor_changed_fields (old new : TaskAnchor) : list text :=
  foldl consider [] (field_differences old new).

Definition changed_fields_kind (changed : list text) : AnchorPatchKind :=
  if existsb (fun field => bool_decide (field = txt "original_goal") || bool_decide (field = txt "constraints")) changed
  then Boundary else Autonomous.

(** ** Root claims *)

Inductive RootReason : Type :=
| ReasonTaskAnchor | CurrentEpisode | ReasonOpenLoop | HardConstraint | CompletionEvidence.

Record AnchorRootClaim : Type := {
  arc_item_ref : text;
  arc_strength : RootClaimStrength;
  arc_source_field_id : text;
  arc_anchor_revision : N;
  arc_reason : RootReason;
}.

Definition root_reason_for_role (role : RootClaimRole) : RootReason :=
  match role with
  | ConstraintSource => HardConstraint
  | AcceptanceEvidence => CompletionEvidence
  | ActiveDecision => ReasonTaskAnchor
  | OpenLoopEvidence => ReasonOpenLoop
  | WorkingArtifact => CurrentEpisode
  | RoleVerification => CompletionEvidence
  end.

(** The strengths map one to one onto the context policy's. *)
Definition anchor_root_claims (a : TaskAnchor) : list AnchorRootClaim :=
  take MAX_ANCHOR_ROOT_CLAIMS
    ((fun c => {| arc_item_ref := rc_item_ref c; arc_strength := rc_strength c;
                  arc_source_field_id := rc_source_field_id c; arc_anchor_revision := an_revision a;
                  arc_reason := root_reason_for_role (rc_role c) |})
     <$> (an_working_refs a ++ an_evidence_refs a)).
