(* ===== verification/Task.v ===== *)
(** The task manager (agent-runtime/task.rs): the task table with its active slot, the
    two-phase transitions ([prepare_*] then [commit]), the bounded window of completed
    tasks, and the snapshots a checkpoint carries (agent-runtime/checkpoint.rs).

    A fresh task id and the clock are arguments; a task's directive is an opaque type
    with its validation. *)

From stdpp Require Import sorting.
From S2P Require Import Prelude Text Digest Jcs Operation OutputBroker Capability Artifact ToolFacts Execution Observe TaskAnchor.

Definition MAX_TASK_RECORDS : nat := N.to_nat 256.
Definition MAX_HOT_COMPLETED_TASK_RECORDS : nat := 64.
Definition MAX_COMPLETION_BLOCKERS : nat := 16.
Definition MAX_COMPLETION_SUMMARY_CHARS : nat := N.to_nat 2000.
Definition MAX_COMPLETION_REF_CHARS : nat := N.to_nat 256.
Definition MAX_COMPLETION_ARTIFACTS : nat := 32.

Inductive TaskStatus : Type := Active | Suspended | Completed.

#[export] Instance TaskStatus_eq_dec : EqDecision TaskStatus.
Proof. solve_decision. Defined.

(** ** Completion outcomes *)

Inductive CompletionVerificationStatus : Type := CvUnverified | CvCurrent | CvFailed.
Inductive CompletionDisposition : Type := LegacyUnclassified | DispVerified | OperatorOverride.

#[export] Instance CompletionVerificationStatus_eq_dec : EqDecision CompletionVerificationStatus.
Proof. solve_decision. Defined.
#[export] Instance CompletionDisposition_eq_dec : EqDecision CompletionDisposition.
Proof. solve_decision. Defined.

Inductive CompletionBlocker : Type :=
| NoActiveTask | TaskIdentityMismatch | TaskNotActive | TaskStateStale | VerificationBasisStale
| VerificationNotCurrent | BlockerOperatorClosureOnly | AcceptanceUndeclared
| AcceptanceDeclarationStale (remaining : N) | AcceptanceUncovered (remaining : N)
| OpenLoops (remaining : N) | NextActionPending | RequiredContextUnavailable (remaining : N)
| ExecutionObligations (remaining : N) | FailedCommands (remaining : N) | BlockerRecoveryRequired
| CancelCleanupPending | OperationInFlight | PendingToolWork.

#[export] Instance CompletionBlocker_eq_dec : EqDecision CompletionBlocker.
Proof. solve_decision. Defined.

Record CompletionRecord : Type := {
  cr_task_id : N;
  cr_anchor_revision : N;
  cr_summary : text;
  cr_completed_at_ms : N;
  cr_final_output_ref : option text;
  cr_final_output_digest : option text;
  cr_artifacts : list text;
  cr_verification_status : CompletionVerificationStatus;
  cr_verification_refs : list text;
  cr_disposition : CompletionDisposition;
  cr_unmet_reasons : list CompletionBlocker;
}.

Record CompletionRecordDraft : Type := {
  cd_summary : text;
  cd_final_output_ref : option text;
  cd_final_output_digest : option text;
  cd_artifacts : list text;
  cd_verification_status : CompletionVerificationStatus;
  cd_verification_refs : list text;
  cd_disposition : CompletionDisposition;
  cd_unmet_reasons : list CompletionBlocker;
}.

(** ** The bounded window of completed rows and their records *)

(** The trait [HotTaskRow]. *)
Class HotTaskRow (R : Type) := {
  hot_id : R -> N;
  hot_status : R -> TaskStatus;
  hot_order_key : R -> N * N;
}.

Section window.
Context {R : Type} `{HotTaskRow R}.

Definition is_completed (row : R) : bool := bool_decide (hot_status row = Completed).
Definition completed_rows (rows : list R) : list R := List.filter is_completed rows.

Definition key_le (a b : N * N) : bool := ((a.1 <? b.1) || ((a.1 =? b.1) && (a.2 <=? b.2)))%N.

(** [min_by_key]: the first of the least rows. *)
Fixpoint min_by_key (rows : list R) : option R :=
  match rows with
  | [] => None
  | row :: rows =>
      match min_by_key rows with
      | Some best => if key_le (hot_order_key row) (hot_order_key best) then Some row else Some best
      | None => Some row
      end
  end.

Definition record_of (id : N) (record : CompletionRecord) : bool := (cr_task_id record =? id)%N.

(** The loop; each turn drops a completed row, so the number of rows is fuel enough. *)
Fixpoint evict_oldest (fuel : nat) (rows : list R) (completed : list CompletionRecord) (evicted_rows evicted_records : N) :
    list R * list CompletionRecord * N * N :=
  match fuel with
  | O => (rows, completed, evicted_rows, evicted_records)
  | S fuel =>
      if length (completed_rows rows) <=? MAX_HOT_COMPLETED_TASK_RECORDS
      then (rows, completed, evicted_rows, evicted_records)
      else
        match hot_id <$> min_by_key (completed_rows rows) with
        | None => (rows, completed, evicted_rows, evicted_records)
        | Some oldest =>
            let rows := List.filter (fun row => negb (hot_id row =? oldest)%N) rows in
            match remove_first (record_of oldest) completed with
            | Some (_, completed) => evict_oldest fuel rows completed (evicted_rows + 1)%N (evicted_records + 1)%N
            | None => evict_oldest fuel rows completed (evicted_rows + 1)%N evicted_records
            end
        end
  end.

Definition bounded_hot_pair_window (rows : list R) (completed : list CompletionRecord) :
    list R * list CompletionRecord * N * N :=
  let '(rows, completed, evicted_rows, evicted_records) := evict_oldest (length rows) rows completed 0 0 in
  let live := hot_id <$> completed_rows rows in
  let kept := List.filter (fun record => bool_decide (cr_task_id record ∈ live)) completed in
  (rows, kept, evicted_rows, (evicted_records + N.of_nat (length completed - length kept))%N).

End window.

(** ** The manager *)

(** [TaskDirective] with its [validate] (agent-runtime/directive.rs), and the context
    reference that a turn's text is kept by. *)
Class Directives := {
  TaskDirective : Type;
  directive_validate : N -> TaskDirective -> AgentResult unit;
}.

Section manager.
Context `{JN : JsonNumber} {JU : JsonU64} {TC : TextCrypto} {UC : UuidCodec} {DV : Directives}.

Record TaskRecord : Type := {
  tk_id : N;
  tk_goal : text;
  tk_status : TaskStatus;
  tk_created_at_ms : N;
  tk_last_active_ms : N;
  tk_tool_requirements : TaskToolRequirementSet;
  tk_anchor : TaskAnchor;
  tk_resume : ExecutionState;
  tk_turn_intent : text;
  tk_current_directive : option TaskDirective;
}.

Definition copy_task (t : TaskRecord) : TaskRecord :=
  {| tk_id := tk_id t; tk_goal := tk_goal t; tk_status := tk_status t; tk_created_at_ms := tk_created_at_ms t;
     tk_last_active_ms := tk_last_active_ms t; tk_tool_requirements := tk_tool_requirements t;
     tk_anchor := tk_anchor t; tk_resume := tk_resume t; tk_turn_intent := tk_turn_intent t;
     tk_current_directive := tk_current_directive t |}.

Definition set_status : TaskStatus -> TaskRecord -> TaskRecord := ltac:(setter copy_task tk_status).
Definition set_last_active_ms : N -> TaskRecord -> TaskRecord := ltac:(setter copy_task tk_last_active_ms).
Definition set_tool_requirements : TaskToolRequirementSet -> TaskRecord -> TaskRecord :=
  ltac:(setter copy_task tk_tool_requirements).
Definition set_anchor : TaskAnchor -> TaskRecord -> TaskRecord := ltac:(setter copy_task tk_anchor).
Definition set_resume : ExecutionState -> TaskRecord -> TaskRecord := ltac:(setter copy_task tk_resume).
Definition set_turn_intent : text -> TaskRecord -> TaskRecord := ltac:(setter copy_task tk_turn_intent).
Definition set_current_directive : option TaskDirective -> TaskRecord -> TaskRecord :=
  ltac:(setter copy_task tk_current_directive).

(** The rows of a checkpoint have the same fields: [TaskRecordSnapshot]. *)
Record TaskRecordSnapshot : Type := {
  ts_id : N;
  ts_goal : text;
  ts_status : TaskStatus;
  ts_created_at_ms : N;
  ts_last_active_ms : N;
  ts_tool_requirements : TaskToolRequirementSet;
  ts_anchor : TaskAnchor;
  ts_resume : ExecutionState;
  ts_turn_intent : text;
  ts_current_directive : option TaskDirective;
}.

#[export] Instance task_record_hot : HotTaskRow TaskRecord :=
  {| hot_id := tk_id; hot_status := tk_status; hot_order_key := fun t => (tk_last_active_ms t, tk_created_at_ms t) |}.

#[export] Instance task_snapshot_hot : HotTaskRow TaskRecordSnapshot :=
  {| hot_id := ts_id; hot_status := ts_status; hot_order_key := fun t => (ts_last_active_ms t, ts_created_at_ms t) |}.

Record TaskManager : Type := {
  tm_tasks : list TaskRecord;
  tm_active : option N;
  tm_completed : list CompletionRecord;
  tm_evicted_completed_task_records : N;
  tm_evicted_completion_records : N;
}.

Definition new_manager : TaskManager :=
  {| tm_tasks := []; tm_active := None; tm_completed := []; tm_evicted_completed_task_records := 0;
     tm_evicted_completion_records := 0 |}.

Definition copy_manager (m : TaskManager) : TaskManager :=
  {| tm_tasks := tm_tasks m; tm_active := tm_active m; tm_completed := tm_completed m;
     tm_evicted_completed_task_records := tm_evicted_completed_task_records m;
     tm_evicted_completion_records := tm_evicted_completion_records m |}.

Definition set_tasks : list TaskRecord -> TaskManager -> TaskManager := ltac:(setter copy_manager tm_tasks).
Definition set_active : option N -> TaskManager -> TaskManager := ltac:(setter copy_manager tm_active).
Definition set_completed : list CompletionRecord -> TaskManager -> TaskManager :=
  ltac:(setter copy_manager tm_completed).

(** [iter().find(|task| task.id == id)] and its mutable form. *)
Definition has_id (id : N) (t : TaskRecord) : bool := (tk_id t =? id)%N.
Definition get_task (id : N) (m : TaskManager) : option TaskRecord := find (has_id id) (tm_tasks m).
Definition update_task (id : N) (f : TaskRecord -> TaskRecord) (m : TaskManager) : TaskManager :=
  match update_first (has_id id) f (tm_tasks m) with
  | Some tasks => set_tasks tasks m
  | None => m
  end.

Definition is_open (t : TaskRecord) : bool := negb (bool_decide (tk_status t = Completed)).

(** ** Turn traffic on the active task *)

(** The active task, unless it is completed. *)
Definition on_active (f : TaskRecord -> TaskRecord) (m : TaskManager) : TaskManager :=
  match tm_active m with
  | None => m
  | Some id => update_task id (fun t => if is_open t then f t else t) m
  end.

Definition on_user_turn (message : text) (m : TaskManager) : TaskManager :=
  on_active (fun t =>
    set_resume (ex_on_user_turn message (tk_resume t))
      (set_current_directive None (set_turn_intent (take MAX_TASK_ANCHOR_TEXT_CHARS message) t))) m.

Definition apply_user_directive (message : text) (directive : TaskDirective) (m : TaskManager) : TaskManager :=
  let m := on_user_turn message m in
  match tm_active m with
  | Some id => update_task id (set_current_directive (Some directive)) m
  | None => m
  end.

Definition tm_observe_tool (o : ToolOutput) (turn : N) (m : TaskManager) : TaskManager :=
  on_active (fun t => set_resume (observe_tool o (an_revision (tk_anchor t)) turn (tk_resume t)).2 t) m.

Definition install_resume (task_id : N) (resume : ExecutionState) (m : TaskManager) : TaskManager :=
  update_task task_id (fun t => if is_open t then set_resume resume t else t) m.

(** ** Plans *)

Inductive TaskPlan : Type :=
| PlanCreate (target : N) (goal : text) (prev_active : option N)
| PlanActivate (target : N) (prev_active : option N)
| PlanSuspend (active : N)
| PlanComplete (active : N) (completion : CompletionRecord)
| PlanReplaceToolRequirements (target : N) (replacement : TaskToolRequirementSet)
| PlanReplaceAnchor (target : N) (replacement : TaskAnchor) (authority_changed : bool).

(** [self.active.filter(|active| *active != id)]. *)
Definition other_active (id : N) (m : TaskManager) : option N :=
  match tm_active m with
  | Some active => if (active =? id)%N then None else Some active
  | None => None
  end.

Definition resumable (m : TaskManager) : list TaskRecord := List.filter is_open (tm_tasks m).

Definition prepare_create (fresh : N) (goal : text) (m : TaskManager) : AgentResult (TaskPlan * N) :=
  if MAX_TASK_ANCHOR_TEXT_CHARS <? length goal
  then invalid_request (txt "task goal has " ++ usize_text (length goal) ++ txt " chars, above the 2000 cap")
  else
    match find (fun t => bool_decide (tk_goal t = goal) && is_open t) (tm_tasks m) with
    | Some t => Ok (PlanActivate (tk_id t) (other_active (tk_id t) m), tk_id t)
    | None =>
        if MAX_TASK_RECORDS <=? length (resumable m)
        then invalid_request (txt "task catalog is full (" ++ usize_text (length (resumable m))
                                ++ txt " resumable records, cap 256)")
        else Ok (PlanCreate fresh goal (tm_active m), fresh)
    end.

Definition prepare_activate (id : N) (m : TaskManager) : option TaskPlan :=
  if existsb (fun t => has_id id t && is_open t) (tm_tasks m)
  then Some (PlanActivate id (other_active id m)) else None.

Definition prepare_suspend (m : TaskManager) : option TaskPlan := PlanSuspend <$> tm_active m.

Definition prepare_complete (now : N) (draft : CompletionRecordDraft) (m : TaskManager) :
    option (TaskPlan * CompletionRecord) :=
  match tm_active m with
  | None => None
  | Some active =>
      let record :=
        {| cr_task_id := active;
           cr_anchor_revision := default 0%N ((fun t => an_revision (tk_anchor t)) <$> get_task active m);
           cr_summary := cd_summary draft; cr_completed_at_ms := now;
           cr_final_output_ref := cd_final_output_ref draft;
           cr_final_output_digest := cd_final_output_digest draft;
           cr_artifacts := cd_artifacts draft;
           cr_verification_status := cd_verification_status draft;
           cr_verification_refs := cd_verification_refs draft;
           cr_disposition := cd_disposition draft;
           cr_unmet_reasons := take MAX_COMPLETION_BLOCKERS (cd_unmet_reasons draft) |} in
      Some (PlanComplete active record, record)
  end.

(** The refusals the compare-and-swap replacements share. *)
Definition task_text (id : N) : text := txt "task " ++ uuid_to_string id.

Definition open_task (task_id : N) (immutable : text) (m : TaskManager) : AgentResult TaskRecord :=
  match get_task task_id m with
  | None => invalid_request (task_text task_id ++ txt " is not registered")
  | Some t =>
      if is_open t then Ok t
      else invalid_request (task_text task_id ++ txt " is completed and its " ++ immutable)
  end.

Definition at_revision (task_id : N) (what : text) (current base : N) : AgentResult unit :=
  if (current =? base)%N then Ok tt
  else invalid_request (task_text task_id ++ txt " " ++ what ++ txt " revision mismatch: expected "
         ++ uint_text (N.to_uint current) ++ txt ", got " ++ uint_text (N.to_uint base)).

Definition next_revision (task_id : N) (what : text) (base : N) : AgentResult N :=
  ok_or (checked_succ base) (InvalidRequest (task_text task_id ++ txt " " ++ what ++ txt " revision is exhausted")).

Definition prepare_replace_tool_requirements (task_id base_revision : N) (entries : list ToolSurfaceRequirement)
    (m : TaskManager) : AgentResult (TaskPlan * N) :=
  let? task := open_task task_id (txt "tool requirements are immutable") m in
  let? _ := at_revision task_id (txt "tool-requirement") (tr_revision (tk_tool_requirements task)) base_revision in
  let? entries := normalize_tool_requirements entries in
  let? revision := if bool_decide (entries = tr_entries (tk_tool_requirements task)) then Ok base_revision
                   else next_revision task_id (txt "tool-requirement") base_revision in
  Ok (PlanReplaceToolRequirements task_id {| tr_revision := revision; tr_entries := entries |}, revision).

Definition acceptance_boundary_changed (old new : TaskAnchor) : bool :=
  negb (bool_decide (an_completion_policy new = an_completion_policy old))
  || negb (bool_decide (an_acceptance_criteria new = an_acceptance_criteria old)).

(** The revisions of the replacement. *)
Definition stamp_revisions (task_id base_revision : N) (old : TaskAnchor) (changed : list text)
    (authority_changed : bool) (a : TaskAnchor) : AgentResult TaskAnchor :=
  let? revision := if bool_decide (changed = []) then Ok base_revision
                   else next_revision task_id (txt "anchor") base_revision in
  let? verification_revision :=
    if authority_changed then next_revision task_id (txt "verification") (an_verification_revision old)
    else Ok (an_verification_revision old) in
  Ok (set_verification_revision verification_revision (set_revision revision a)).

Definition prepare_replace_anchor (task_id base_revision : N) (anchor : TaskAnchor) (m : TaskManager) :
    AgentResult (TaskPlan * N * list text) :=
  let? task := open_task task_id (txt "anchor is immutable") m in
  let old := tk_anchor task in
  let? _ := at_revision task_id (txt "anchor") (an_revision old) base_revision in
  let anchor := set_verification_revision (an_verification_revision old) (set_revision (an_revision old) anchor) in
  let? anchor :=
    if acceptance_boundary_changed old anchor then
      if negb (bool_decide (an_acceptance_coverage anchor = []))
         && negb (bool_decide (an_acceptance_coverage anchor = an_acceptance_coverage old))
      then invalid_request (txt "acceptance receipts are runtime-owned and cannot be supplied through an authority replacement")
      else Ok (set_acceptance_coverage [] anchor)
    else if negb (bool_decide (an_acceptance_coverage anchor = an_acceptance_coverage old))
    then invalid_request (txt "acceptance receipts are runtime-owned and cannot be replaced through the generic anchor API")
    else Ok anchor in
  let? anchor := normalize_anchor anchor in
  let changed_fields := anchor_changed_fields old anchor in
  let authority_changed := existsb is_authority_field changed_fields in
  let? anchor := stamp_revisions task_id base_revision old changed_fields authority_changed anchor in
  Ok (PlanReplaceAnchor task_id anchor authority_changed, an_revision anchor, changed_fields).

Definition prepare_patch_anchor (task_id base_revision : N) (patch : AnchorPatch) (m : TaskManager) :
    AgentResult (TaskPlan * N * list text * AnchorPatchKind) :=
  let? task := open_task task_id (txt "anchor is immutable") m in
  let old := tk_anchor task in
  let? _ := at_revision task_id (txt "anchor") (an_revision old) base_revision in
  if bool_decide (is_Some (ap_acceptance_coverage patch))
  then invalid_request (txt "acceptance receipts are runtime-owned and cannot be patched through the generic anchor API")
  else
    let kind := patch_kind patch in
    let replacement := apply_to patch old in
    let replacement :=
      if acceptance_boundary_changed old replacement then set_acceptance_coverage [] replacement
      else replacement in
    let? replacement := normalize_anchor replacement in
    let changed_fields := anchor_changed_fields old replacement in
    let authority_changed := bool_decide (kind = Boundary) || existsb is_authority_field changed_fields in
    let? replacement := stamp_revisions task_id base_revision old changed_fields authority_changed replacement in
    Ok (PlanReplaceAnchor task_id replacement authority_changed, an_revision replacement, changed_fields, kind).

Definition prepare_record_acceptance_receipts (task_id base_revision : N) (receipts : list AcceptanceCoverage)
    (m : TaskManager) : AgentResult (TaskPlan * N * list text) :=
  let? task := open_task task_id (txt "acceptance receipts are immutable") m in
  let old := tk_anchor task in
  let? _ := at_revision task_id (txt "anchor") (an_revision old) base_revision in
  if negb (bool_decide (an_completion_policy old = EvidenceRequired))
  then invalid_request (txt "operator-closure-only tasks cannot receive acceptance receipts")
  else if existsb (fun r => negb (bool_decide (cov_task_id r = Some task_id))) receipts
  then invalid_request (txt "acceptance receipt task identity does not match the target task")
  else
    let? replacement := normalize_anchor (set_acceptance_coverage receipts old) in
    let changed_fields := anchor_changed_fields old replacement in
    let? replacement := stamp_revisions task_id base_revision old changed_fields false replacement in
    Ok (PlanReplaceAnchor task_id replacement false, an_revision replacement, changed_fields).

(** ** Commit *)

Definition suspend_previous (previous : option N) (m : TaskManager) : TaskManager :=
  match previous with
  | Some id => update_task id (fun t => if is_open t then set_status Suspended t else t) m
  | None => m
  end.

Definition enforce_hot_bounds (m : TaskManager) : TaskManager :=
  let '(tasks, completed, evicted_rows, evicted_records) :=
    bounded_hot_pair_window (tm_tasks m) (tm_completed m) in
  {| tm_tasks := tasks; tm_active := tm_active m; tm_completed := completed;
     tm_evicted_completed_task_records := (tm_evicted_completed_task_records m + evicted_rows)%N;
     tm_evicted_completion_records := (tm_evicted_completion_records m + evicted_records)%N |}.

Definition fresh_task (target : N) (goal : text) (now : N) : TaskRecord :=
  {| tk_id := target; tk_goal := goal; tk_status := Active; tk_created_at_ms := now; tk_last_active_ms := now;
     tk_tool_requirements := default_requirements; tk_anchor := empty_anchor goal;
     tk_resume := default_execution; tk_turn_intent := []; tk_current_directive := None |}.

(** The [ReplaceAnchor] arm on its task. *)
Definition replace_anchor (replacement : TaskAnchor) (authority_changed : bool) (t : TaskRecord) : TaskRecord :=
  let resume := tk_resume t in
  let resume := if negb (an_revision (tk_anchor t) =? an_revision replacement)%N && authority_changed
                then mark_spec_changed resume else resume in
  let resume := set_anchor_revision (an_revision replacement) resume in
  let resume := set_verification (set_spec_revision (an_verification_revision replacement) (ex_verification resume))
                  resume in
  set_anchor replacement (set_resume resume t).

Definition commit (now : N) (plan : TaskPlan) (m : TaskManager) : TaskManager :=
  match plan with
  | PlanCreate target goal prev_active =>
      let m := suspend_previous prev_active m in
      set_active (Some target) (set_tasks (tm_tasks m ++ [fresh_task target goal now]) m)
  | PlanActivate target prev_active =>
      let m := suspend_previous prev_active m in
      set_active (Some target) (update_task target (fun t => set_last_active_ms now (set_status Active t)) m)
  | PlanSuspend active => set_active None (update_task active (set_status Suspended) m)
  | PlanComplete active completion =>
      let m := update_task active (set_status Completed) m in
      enforce_hot_bounds (set_active None (set_completed (tm_completed m ++ [completion]) m))
  | PlanReplaceToolRequirements target replacement => update_task target (set_tool_requirements replacement) m
  | PlanReplaceAnchor target replacement authority_changed =>
      update_task target (replace_anchor replacement authority_changed) m
  end.

Definition active_goal (m : TaskManager) : option text :=
  tk_goal <$> (tm_active m ≫= fun id => get_task id m).

Definition completion_of (task_id : N) (m : TaskManager) : option CompletionRecord :=
  find (record_of task_id) (tm_completed m).

Record TaskHotStateSummary : Type := {
  hs_resumable_tasks : nat;
  hs_hot_completed_task_records : nat;
  hs_completion_records : nat;
  hs_evicted_completed_task_records : N;
  hs_evicted_completion_records : N;
}.

Definition hot_state_summary (m : TaskManager) : TaskHotStateSummary :=
  {| hs_resumable_tasks := length (resumable m);
     hs_hot_completed_task_records := length (completed_rows (tm_tasks m));
     hs_completion_records := length (tm_completed m);
     hs_evicted_completed_task_records := tm_evicted_completed_task_records m;
     hs_evicted_completion_records := tm_evicted_completion_records m |}.

(** ** Snapshots *)

Record TaskManagerSnapshot : Type := {
  sn_tasks : list TaskRecordSnapshot;
  sn_active : option N;
  sn_completed : list CompletionRecord;
}.

Definition snapshot_row (t : TaskRecord) : TaskRecordSnapshot :=
  {| ts_id := tk_id t; ts_goal := tk_goal t; ts_status := tk_status t; ts_created_at_ms := tk_created_at_ms t;
     ts_last_active_ms := tk_last_active_ms t; ts_tool_requirements := tk_tool_requirements t;
     ts_anchor := tk_anchor t; ts_resume := tk_resume t; ts_turn_intent := tk_turn_intent t;
     ts_current_directive := tk_current_directive t |}.

Definition row_of_snapshot (t : TaskRecordSnapshot) : TaskRecord :=
  {| tk_id := ts_id t; tk_goal := ts_goal t; tk_status := ts_status t; tk_created_at_ms := ts_created_at_ms t;
     tk_last_active_ms := ts_last_active_ms t; tk_tool_requirements := ts_tool_requirements t;
     tk_anchor := ts_anchor t; tk_resume := ts_resume t; tk_turn_intent := ts_turn_intent t;
     tk_current_directive := ts_current_directive t |}.

(** [TaskManagerSnapshot::from_manager]. *)
Definition from_manager (m : TaskManager) : TaskManagerSnapshot :=
  {| sn_tasks := snapshot_row <$> tm_tasks m; sn_active := tm_active m; sn_completed := tm_completed m |}.

Definition restore (snapshot : TaskManagerSnapshot) (m : TaskManager) : TaskManager :=
  enforce_hot_bounds
    {| tm_tasks := row_of_snapshot <$> sn_tasks snapshot; tm_active := sn_active snapshot;
       tm_completed := sn_completed snapshot;
       tm_evicted_completed_task_records := tm_evicted_completed_task_records m;
       tm_evicted_completion_records := tm_evicted_completion_records m |}.

(** Every row of the active id flips, where [commit] flips the first. *)
Definition prospective_terminal_snapshot (m : TaskManager) (record : CompletionRecord) :
    option TaskManagerSnapshot :=
  match tm_active m with
  | None => None
  | Some active =>
      let flip t := if has_id active t then snapshot_row (set_status Completed t) else snapshot_row t in
      if negb (existsb (has_id active) (tm_tasks m)) then None
      else
        let '(rows, completed, _, _) :=
          bounded_hot_pair_window (flip <$> tm_tasks m) (tm_completed m ++ [record]) in
        Some {| sn_tasks := rows; sn_active := None; sn_completed := completed |}
  end.

End manager.
