(* ===== verification/TaskTheorems.v ===== *)
(** The task table: the bounded window of completed tasks is exact, the table stays
    well-formed in every history, a terminal snapshot prepared before the commit is the
    snapshot after it, and restoring a snapshot gives the table back. *)

From stdpp Require Import sorting.
From S2P Require Import Prelude Text Digest Jcs Operation OutputBroker Capability Artifact ToolFacts Execution.
From S2P Require Import Observe TaskAnchor Task.

(** ** Lists *)

Lemma filter_sublist {A} (f : A -> bool) l : List.filter f l `sublist_of` l.
Proof. induction l as [|x l IH]; cbn; [constructor|]. destruct (f x); by constructor. Qed.

Lemma filter_length_le {A} (f : A -> bool) l : length (List.filter f l) <= length l.
Proof. apply sublist_length, filter_sublist. Qed.

Lemma filter_comm {A} (f g : A -> bool) l : List.filter f (List.filter g l) = List.filter g (List.filter f l).
Proof.
  induction l as [|x l IH]; cbn; [done|]. destruct (g x) eqn:Eg, (f x) eqn:Ef; cbn; rewrite ?Ef, ?Eg, IH; done.
Qed.

Lemma filter_none {A} (f : A -> bool) l : (forall x, x ∈ l -> f x = false) -> List.filter f l = [].
Proof.
  induction l as [|x l IH]; intros H; cbn; [done|]. rewrite H by (by left). apply IH. intros y Hy. apply H. by right.
Qed.

Lemma filter_all {A} (f : A -> bool) l : (forall x, x ∈ l -> f x = true) -> List.filter f l = l.
Proof.
  induction l as [|x l IH]; intros H; cbn; [done|]. rewrite H by (by left). f_equal. apply IH. intros y Hy.
  apply H. by right.
Qed.

Lemma filter_agree {A} (f g : A -> bool) l : (forall x, x ∈ l -> f x = g x) -> List.filter f l = List.filter g l.
Proof.
  induction l as [|x l IH]; intros H; cbn; [done|]. rewrite H by (by left). rewrite IH; [done|]. intros y Hy.
  apply H. by right.
Qed.

Lemma elem_of_filter_b {A} (f : A -> bool) l x : x ∈ List.filter f l <-> x ∈ l /\ f x = true.
Proof. rewrite !list_elem_of_In. apply filter_In. Qed.

(** ** The window of completed tasks *)

Section window.
Context {R : Type} `{HR : HotTaskRow R}.
Implicit Types (rows : list R) (completed : list CompletionRecord).

Lemma key_le_spec a b : key_le a b = true <-> (a.1 < b.1 \/ (a.1 = b.1 /\ a.2 <= b.2))%N.
Proof. unfold key_le. by rewrite orb_true_iff, andb_true_iff, N.ltb_lt, N.eqb_eq, N.leb_le. Qed.

Lemma key_le_total a b : key_le a b = false -> key_le b a = true.
Proof. rewrite <- not_true_iff_false, !key_le_spec. lia. Qed.

Lemma key_le_trans a b c : key_le a b = true -> key_le b c = true -> key_le a c = true.
Proof. rewrite !key_le_spec. lia. Qed.

Lemma key_le_refl a : key_le a a = true.
Proof. rewrite key_le_spec. lia. Qed.

Lemma min_by_key_spec rows :
  match min_by_key rows with
  | Some best => best ∈ rows /\ forall row, row ∈ rows -> key_le (hot_order_key best) (hot_order_key row) = true
  | None => rows = []
  end.
Proof.
  induction rows as [|row rows IH]; cbn; [done|]. destruct (min_by_key rows) as [best|].
  - destruct IH as [Hb Hle]. destruct (key_le (hot_order_key row) (hot_order_key best)) eqn:E.
    + split; [by left|]. intros r [->|Hr]%elem_of_cons; [apply key_le_refl|]. eapply key_le_trans; [done|by apply Hle].
    + split; [by right|]. intros r [->|Hr]%elem_of_cons; [by apply key_le_total|by apply Hle].
  - subst rows. split; [by left|]. intros r [->|Hr]%elem_of_cons; [apply key_le_refl|]. by apply not_elem_of_nil in Hr.
Qed.

(** Removing the one completed row of an id. *)
Lemma completed_split rows best :
  NoDup (hot_id <$> rows) -> best ∈ completed_rows rows ->
  let rows' := List.filter (fun row => negb (hot_id row =? hot_id best)%N) rows in
  length rows = S (length rows') /\ length (completed_rows rows) = S (length (completed_rows rows')) /\
  (forall row, row ∈ rows -> row = best \/ row ∈ rows') /\
  List.filter (fun row => negb (is_completed row)) rows' = List.filter (fun row => negb (is_completed row)) rows.
Proof.
  intros Hnd Hbest. apply elem_of_filter_b in Hbest as [Hin Hc]. cbn zeta.
  induction rows as [|row rows IH]; [by apply not_elem_of_nil in Hin|].
  cbn in Hnd. apply NoDup_cons in Hnd as [Hn Hnd].
  destruct (decide (hot_id row = hot_id best)) as [He|Hne].
  - assert (row = best) as ->.
    { apply elem_of_cons in Hin as [->|Hin]; [done|]. exfalso. apply Hn. rewrite He. by apply list_elem_of_fmap_2. }
    cbn [List.filter]. rewrite N.eqb_refl. cbn [negb].
    rewrite (filter_all _ rows).
    2: { intros x Hx. apply negb_true_iff, N.eqb_neq. intros Hx'. apply Hn. rewrite <- Hx'. by apply list_elem_of_fmap_2. }
    unfold completed_rows. cbn. rewrite Hc. cbn. split_and!; try done.
    intros r [->|Hr]%elem_of_cons; [by left|by right].
  - apply elem_of_cons in Hin as [->|Hin]; [done|]. destruct (IH Hnd Hin) as (H1 & H2 & H3 & H4).
    cbn [List.filter]. rewrite (proj2 (N.eqb_neq _ _) Hne). cbn [negb]. unfold completed_rows in *. cbn [List.filter].
    split_and!.
    + cbn. lia.
    + destruct (is_completed row); cbn; lia.
    + intros r [->|Hr]%elem_of_cons; [right; by left|]. destruct (H3 r Hr) as [|]; [by left|right; by right].
    + by rewrite H4.
Qed.

Lemma remove_first_filter (f : CompletionRecord -> bool) l x l' :
  remove_first f l = Some (x, l') -> f x = true /\ length l = S (length l') /\
  forall g, g x = false -> List.filter g l' = List.filter g l.
Proof.
  revert x l'. induction l as [|y l IH]; intros x l'; [done|]. cbn. destruct (f y) eqn:Ef.
  - intros [= <- <-]. split_and!; [done|done|]. intros g Hg. cbn. by rewrite Hg.
  - destruct (remove_first f l) as [[z r]|]; [|done]. cbn. intros [= <- <-].
    destruct (IH z r eq_refl) as (H1 & H2 & H3). split_and!; [done|cbn; lia|]. intros g Hg. cbn. by rewrite (H3 g Hg).
Qed.

Lemma remove_first_shrinks (f : CompletionRecord -> bool) l x l' :
  remove_first f l = Some (x, l') -> length l = S (length l').
Proof. intros H. by apply remove_first_filter in H as (_ & ? & _). Qed.

(** What the window keeps of a table. *)
Record window_of rows (rows' : list R) : Prop := {
  wo_sublist : rows' `sublist_of` rows;
  wo_open : List.filter (fun row => negb (is_completed row)) rows' =
            List.filter (fun row => negb (is_completed row)) rows;
  wo_count : length (completed_rows rows') =
             Nat.min MAX_HOT_COMPLETED_TASK_RECORDS (length (completed_rows rows));
  wo_oldest : forall gone kept, gone ∈ rows -> gone ∉ rows' -> kept ∈ completed_rows rows' ->
              key_le (hot_order_key gone) (hot_order_key kept) = true;
}.

Definition live_records rows completed : list CompletionRecord :=
  List.filter (fun record => bool_decide (cr_task_id record ∈ hot_id <$> completed_rows rows)) completed.

Lemma live_records_mono rows rows' completed :
  rows' `sublist_of` rows -> live_records rows' (live_records rows completed) = live_records rows' completed.
Proof.
  intros Hs. unfold live_records. rewrite filter_comm. apply filter_all. intros r Hr.
  apply elem_of_filter_b in Hr as [_ Hr]. apply bool_decide_eq_true in Hr. apply bool_decide_eq_true.
  apply list_elem_of_fmap in Hr as (row & -> & Hrow). apply list_elem_of_fmap_2.
  apply elem_of_filter_b in Hrow as [Hrow Hc]. apply elem_of_filter_b. split; [|done].
  apply sublist_submseteq in Hs. by eapply elem_of_submseteq.
Qed.

Lemma evict_oldest_spec fuel : forall rows completed n k,
  NoDup (hot_id <$> rows) -> length rows <= fuel ->
  let '(rows', completed', n', k') := evict_oldest fuel rows completed n k in
  window_of rows rows' /\ live_records rows' completed' = live_records rows' completed /\
  (n' + N.of_nat (length rows') = n + N.of_nat (length rows))%N /\
  (k' + N.of_nat (length completed') = k + N.of_nat (length completed))%N.
Proof.
  assert (Hstop : forall rows completed n k, length (completed_rows rows) <= MAX_HOT_COMPLETED_TASK_RECORDS ->
    window_of rows rows /\ live_records rows completed = live_records rows completed /\
    (n + N.of_nat (length rows) = n + N.of_nat (length rows))%N /\
    (k + N.of_nat (length completed) = k + N.of_nat (length completed))%N).
  { intros rows completed n k Hle. split_and!; try done. split; [done|done|lia|]. by intros ??? []. }
  induction fuel as [|fuel IH]; intros rows completed n k Hnd Hlen.
  { destruct rows; [|cbn in Hlen; lia]. cbn. apply Hstop. cbn. lia. }
  cbn [evict_oldest]. destruct (length (completed_rows rows) <=? MAX_HOT_COMPLETED_TASK_RECORDS) eqn:Ele.
  { apply Hstop. by apply Nat.leb_le. }
  apply Nat.leb_gt in Ele. pose proof (min_by_key_spec (completed_rows rows)) as Hmin.
  destruct (min_by_key (completed_rows rows)) as [best|]; [|rewrite Hmin in Ele; cbn in Ele; lia].
  destruct Hmin as [Hbest Hle]. cbn [fmap option_fmap option_map].
  pose proof (completed_split rows best Hnd Hbest) as (H1 & H2 & H3 & H4). cbn zeta in *.
  set (rows1 := List.filter (fun row => negb (hot_id row =? hot_id best)%N) rows) in *.
  assert (Hsub : rows1 `sublist_of` rows) by apply filter_sublist.
  assert (Hnd1 : NoDup (hot_id <$> rows1)) by (eapply sublist_NoDup; [done|by apply fmap_sublist]).
  assert (Hgone : hot_id best ∉ hot_id <$> rows1).
  { intros Hx. apply list_elem_of_fmap in Hx as (row & He & Hx). apply elem_of_filter_b in Hx as [_ Hx].
    rewrite He, N.eqb_refl in Hx. done. }
  assert (Hstep : forall rows' completed1 completed' n' k',
    (forall g, (forall r, g r = true -> cr_task_id r ∈ hot_id <$> rows1) -> List.filter g completed1 = List.filter g completed) ->
    window_of rows1 rows' /\ live_records rows' completed' = live_records rows' completed1 /\
    (n' + N.of_nat (length rows') = n + 1 + N.of_nat (length rows1))%N /\
    (k' + N.of_nat (length completed') = k + N.of_nat (length completed))%N ->
    window_of rows rows' /\ live_records rows' completed' = live_records rows' completed /\
    (n' + N.of_nat (length rows') = n + N.of_nat (length rows))%N /\
    (k' + N.of_nat (length completed') = k + N.of_nat (length completed))%N).
  { intros rows' completed1 completed' n' k' Hrec ([Hs Ho Hc Hold] & Hl & Hn & Hk). split_and!.
    - split.
      + by etrans.
      + by rewrite Ho, H4.
      + rewrite Hc. lia.
      + intros gone kept Hg Hng Hkept. destruct (H3 gone Hg) as [->|Hg1]; [|by apply Hold].
        apply Hle. apply elem_of_filter_b in Hkept as [Hkept Hkc]. apply elem_of_filter_b. split; [|done].
        assert (rows' `sublist_of` rows) as Hs2 by (by etrans).
        apply sublist_submseteq in Hs2. by eapply elem_of_submseteq.
    - rewrite Hl. unfold live_records. apply Hrec. intros r Hr. apply bool_decide_eq_true in Hr.
      apply list_elem_of_fmap in Hr as (row & -> & Hrow). apply elem_of_filter_b in Hrow as [Hrow _].
      apply list_elem_of_fmap_2. apply sublist_submseteq in Hs. by eapply elem_of_submseteq.
    - rewrite Hn, H1. lia.
    - done. }
  destruct (remove_first (record_of (hot_id best)) completed) as [[gone completed1]|] eqn:Er.
  - specialize (IH rows1 completed1 (n + 1)%N (k + 1)%N Hnd1 ltac:(lia)).
    destruct (evict_oldest fuel rows1 completed1 (n + 1)%N (k + 1)%N) as [[[rows' completed'] n'] k'].
    apply remove_first_filter in Er as (Hr1 & Hr2 & Hr3). apply (Hstep _ completed1).
    + intros g Hg. apply Hr3. destruct (g gone) eqn:Eg; [|done]. exfalso. apply Hgone.
      unfold record_of in Hr1. apply N.eqb_eq in Hr1. rewrite <- Hr1. by apply Hg.
    + destruct IH as (? & ? & ? & Hk). split_and!; try done. rewrite Hk, Hr2. lia.
  - specialize (IH rows1 completed (n + 1)%N k Hnd1 ltac:(lia)).
    destruct (evict_oldest fuel rows1 completed (n + 1)%N k) as [[[rows' completed'] n'] k'].
    by apply (Hstep _ completed).
Qed.

Lemma window_spec rows completed :
  NoDup (hot_id <$> rows) ->
  let '(rows', completed', evicted_rows, evicted_records) := bounded_hot_pair_window rows completed in
  window_of rows rows' /\ completed' = live_records rows' completed /\
  (evicted_rows + N.of_nat (length rows') = N.of_nat (length rows))%N /\
  (evicted_records + N.of_nat (length completed') = N.of_nat (length completed))%N.
Proof.
  intros Hnd. unfold bounded_hot_pair_window.
  pose proof (evict_oldest_spec (length rows) rows completed 0 0 Hnd (le_n _)) as H.
  destruct (evict_oldest _ rows completed 0 0) as [[[rows' completed'] n'] k'].
  destruct H as (Hw & Hl & Hn & Hk). cbn zeta.
  change (List.filter _ completed') with (live_records rows' completed'). split_and!; [done|done|lia|].
  pose proof (filter_length_le (fun record => bool_decide (cr_task_id record ∈ hot_id <$> completed_rows rows')) completed').
  change (List.filter _ completed') with (live_records rows' completed') in *. lia.
Qed.

Lemma window_within rows completed :
  NoDup (hot_id <$> rows) -> length (completed_rows rows) <= MAX_HOT_COMPLETED_TASK_RECORDS ->
  (forall r, r ∈ completed -> cr_task_id r ∈ hot_id <$> completed_rows rows) ->
  bounded_hot_pair_window rows completed = (rows, completed, 0%N, 0%N).
Proof.
  intros Hnd Hle Hall. unfold bounded_hot_pair_window.
  assert (He : evict_oldest (length rows) rows completed 0 0 = (rows, completed, 0%N, 0%N)).
  { destruct (length rows) as [|fuel]; cbn [evict_oldest]; [done|]. by rewrite (proj2 (Nat.leb_le _ _) Hle). }
  rewrite He. cbn zeta. rewrite (filter_all _ completed).
  - by rewrite Nat.sub_diag.
  - intros r Hr. apply bool_decide_eq_true. by apply Hall.
Qed.

End window.

(** The window reads only the id, the status and the key of a row. *)
Section natural.
Context {R S : Type} `{HR : HotTaskRow R} `{HS : HotTaskRow S} (f : R -> S).
Hypothesis f_id : forall r, hot_id (f r) = hot_id r.
Hypothesis f_status : forall r, hot_status (f r) = hot_status r.
Hypothesis f_key : forall r, hot_order_key (f r) = hot_order_key r.

Lemma filter_fmap (p : S -> bool) (q : R -> bool) l :
  (forall r, p (f r) = q r) -> List.filter p (f <$> l) = f <$> List.filter q l.
Proof. intros H. induction l as [|r l IH]; cbn; [done|]. rewrite H. destruct (q r); cbn; by rewrite IH. Qed.

Lemma completed_rows_fmap rows : completed_rows (f <$> rows) = f <$> completed_rows rows.
Proof. apply filter_fmap. intros r. unfold is_completed. by rewrite f_status. Qed.

Lemma min_by_key_fmap rows : min_by_key (f <$> rows) = f <$> min_by_key rows.
Proof.
  induction rows as [|r rows IH]; cbn; [done|]. change (list_fmap R S f rows) with (f <$> rows). rewrite IH.
  destruct (min_by_key rows) as [b|]; cbn; [|done]. rewrite !f_key. by destruct (key_le _ _).
Qed.

Lemma evict_oldest_fmap fuel : forall rows completed n k,
  evict_oldest fuel (f <$> rows) completed n k =
  let '(rows', completed', n', k') := evict_oldest fuel rows completed n k in (f <$> rows', completed', n', k').
Proof.
  induction fuel as [|fuel IH]; intros rows completed n k; cbn [evict_oldest]; [done|].
  rewrite completed_rows_fmap, length_fmap, min_by_key_fmap.
  destruct (_ <=? _); [done|]. destruct (min_by_key (completed_rows rows)) as [b|]; cbn; [|done].
  rewrite f_id.
  change (list_fmap R S f rows) with (f <$> rows).
  rewrite (filter_fmap _ (fun row => negb (hot_id row =? hot_id b)%N)) by (intros r; by rewrite f_id).
  destruct (remove_first _ completed) as [[x c]|]; by rewrite IH.
Qed.

Lemma window_fmap rows completed :
  bounded_hot_pair_window (f <$> rows) completed =
  let '(rows', completed', n, k) := bounded_hot_pair_window rows completed in (f <$> rows', completed', n, k).
Proof.
  unfold bounded_hot_pair_window. rewrite length_fmap, evict_oldest_fmap.
  destruct (evict_oldest _ rows completed 0 0) as [[[rows' completed'] n] k]. cbn zeta.
  rewrite completed_rows_fmap.
  assert (Hm : hot_id <$> (f <$> completed_rows rows') = hot_id <$> completed_rows rows').
  { rewrite <- list_fmap_compose. apply list_fmap_ext. intros ? r _. apply f_id. }
  by rewrite Hm.
Qed.

End natural.

(** The task table in every history: one active task, completed tasks paired with their
    completion records, and the bounds of the catalog and of the completed window; a
    terminal snapshot prepared before the commit is the snapshot after it; restoring a
    snapshot gives the table back. *)

Section tasks.
Context `{JN : JsonNumber} {JU : JsonU64} {TC : TextCrypto} {UC : UuidCodec} {DV : Directives}.
Implicit Types (m : TaskManager) (t : TaskRecord).

(** ** The invariant *)

Definition ids m : list N := tk_id <$> tm_tasks m.

Record table_within (bound : nat) m : Prop := {
  to_ids : NoDup (ids m);
  to_active : forall t, t ∈ tm_tasks m -> (tk_status t = Active <-> tm_active m = Some (tk_id t));
  to_active_registered : forall id, tm_active m = Some id -> id ∈ ids m;
  to_records : NoDup (cr_task_id <$> tm_completed m);
  to_paired : forall id, id ∈ cr_task_id <$> tm_completed m <->
                exists t, t ∈ tm_tasks m /\ tk_id t = id /\ tk_status t = Completed;
  to_revision : forall r t, r ∈ tm_completed m -> t ∈ tm_tasks m -> tk_id t = cr_task_id r ->
                  cr_anchor_revision r = an_revision (tk_anchor t);
  to_resumable : length (resumable m) <= MAX_TASK_RECORDS;
  to_completed : length (completed_rows (tm_tasks m)) <= bound;
  to_goals : Forall (fun t => length (tk_goal t) <= MAX_TASK_ANCHOR_TEXT_CHARS) (tm_tasks m);
}.

Definition table_ok : TaskManager -> Prop := table_within MAX_HOT_COMPLETED_TASK_RECORDS.

Lemma new_manager_ok : table_ok new_manager.
Proof.
  assert (Hnil : forall A (x : A), x ∈ [] -> False) by (intros A x; apply not_elem_of_nil).
  split; unfold ids, resumable; cbn; [constructor| |done|constructor| | |lia|lia|constructor].
  - intros t H. by apply Hnil in H.
  - intros id. split; [by intros H%Hnil|]. by intros (t & H%Hnil & _).
  - intros r t H. by apply Hnil in H.
Qed.

(** ** Updating one task *)

Lemma update_first_absent id f l : id ∉ tk_id <$> l -> update_first (has_id id) f l = None.
Proof.
  induction l as [|t l IH]; [done|]. cbn. intros H. apply not_elem_of_cons in H as [Hne H].
  unfold has_id at 1. rewrite (proj2 (N.eqb_neq _ _)) by congruence. by rewrite IH.
Qed.

Lemma update_first_map id f l : NoDup (tk_id <$> l) -> id ∈ tk_id <$> l ->
  update_first (has_id id) f l = Some ((fun t => if has_id id t then f t else t) <$> l).
Proof.
  induction l as [|t l IH]; intros Hnd Hin; [by apply not_elem_of_nil in Hin|]. cbn in *.
  apply NoDup_cons in Hnd as [Hn Hnd]. unfold has_id at 1 3. destruct (N.eqb_spec (tk_id t) id) as [He|Hne].
  - f_equal. f_equal. rewrite <- (list_fmap_id l) at 1. apply list_fmap_ext. intros i x Hx.
    unfold has_id. rewrite (proj2 (N.eqb_neq _ _)); [done|]. intros Hx'. apply Hn. rewrite He, <- Hx'.
    apply list_elem_of_fmap_2. by eapply list_elem_of_lookup_2.
  - apply elem_of_cons in Hin as [->|Hin]; [done|]. by rewrite (IH Hnd Hin).
Qed.

(** An update as a map over the rows, when ids are unique. *)
Definition at_id (id : N) (f : TaskRecord -> TaskRecord) t : TaskRecord := if has_id id t then f t else t.

Lemma update_task_map id f m : NoDup (ids m) -> update_task id f m = set_tasks (at_id id f <$> tm_tasks m) m.
Proof.
  intros Hnd. unfold update_task. destruct (decide (id ∈ ids m)) as [Hin|Hn].
  - by rewrite (update_first_map id f _ Hnd Hin).
  - rewrite (update_first_absent id f _ Hn). destruct m as [ts a c e1 e2]. unfold set_tasks. cbn. f_equal.
    rewrite <- (list_fmap_id ts) at 1. apply list_fmap_ext. intros i x Hx.
    unfold at_id, has_id. rewrite (proj2 (N.eqb_neq _ _)); [done|]. intros <-. apply Hn.
    unfold ids. cbn. apply list_elem_of_fmap_2. by eapply list_elem_of_lookup_2.
Qed.

Definition keeps_id (f : TaskRecord -> TaskRecord) : Prop := forall t, tk_id (f t) = tk_id t.

Lemma at_id_id id f t : keeps_id f -> tk_id (at_id id f t) = tk_id t.
Proof. intros Hf. unfold at_id. destruct (has_id id t); [apply Hf|done]. Qed.

Lemma ids_map (g : TaskRecord -> TaskRecord) (l : list TaskRecord) : keeps_id g -> tk_id <$> (g <$> l) = tk_id <$> l.
Proof. intros Hg. rewrite <- list_fmap_compose. apply list_fmap_ext. intros i x _. apply Hg. Qed.

Lemma find_unique id l t : NoDup (tk_id <$> l) -> t ∈ l -> tk_id t = id -> find (has_id id) l = Some t.
Proof.
  induction l as [|x l IH]; intros Hnd Hin Hid; [by apply not_elem_of_nil in Hin|]. cbn in *.
  apply NoDup_cons in Hnd as [Hn Hnd]. unfold has_id at 1. destruct (N.eqb_spec (tk_id x) id) as [He|Hne].
  - f_equal. apply elem_of_cons in Hin as [->|Hin]; [done|]. exfalso. apply Hn. rewrite He, <- Hid.
    by apply list_elem_of_fmap_2.
  - apply elem_of_cons in Hin as [->|Hin]; [done|]. by apply IH.
Qed.

Lemma get_task_elem id m t : get_task id m = Some t -> t ∈ tm_tasks m /\ tk_id t = id.
Proof.
  unfold get_task. intros H. apply find_some in H as [Hin Hid]. split; [by apply list_elem_of_In|].
  by apply N.eqb_eq in Hid.
Qed.

Lemma filter_count_map (p : TaskRecord -> bool) (g : TaskRecord -> TaskRecord) l :
  (forall t, t ∈ l -> p (g t) = true -> p t = true) ->
  length (List.filter p (g <$> l)) <= length (List.filter p l).
Proof.
  induction l as [|t l IH]; intros H; cbn; [lia|].
  assert (IH' := IH (fun x Hx => H x (proj2 (elem_of_cons _ _ _) (or_intror Hx)))).
  pose proof (H t (list_elem_of_here _ _)) as Ht.
  change (list_fmap TaskRecord TaskRecord g l) with (g <$> l).
  destruct (p (g t)), (p t); cbn; try lia; specialize (Ht eq_refl); done.
Qed.

(** Rewriting rows without touching ids, states or completed anchors. *)
Lemma map_ok bound (g : TaskRecord -> TaskRecord) m :
  keeps_id g -> (forall t, tk_status (g t) = tk_status t) -> (forall t, tk_goal (g t) = tk_goal t) ->
  (forall t, t ∈ tm_tasks m -> tk_status t = Completed -> tk_anchor (g t) = tk_anchor t) ->
  table_within bound m -> table_within bound (set_tasks (g <$> tm_tasks m) m).
Proof.
  intros Hid Hst Hgoal Han []. unfold ids in *. split; unfold ids, set_tasks, resumable; cbn.
  - by rewrite ids_map.
  - intros t Ht. apply list_elem_of_fmap in Ht as (x & -> & Hx). rewrite Hid, Hst. by apply to_active0.
  - by rewrite ids_map.
  - done.
  - intros id. rewrite to_paired0. split; intros (t & Ht & Hi & Hs).
    + exists (g t). split; [by apply list_elem_of_fmap_2|]. by rewrite Hid, Hst.
    + apply list_elem_of_fmap in Ht as (x & -> & Hx). rewrite Hid in Hi. rewrite Hst in Hs. by exists x.
  - intros r t Hr Ht Hi. apply list_elem_of_fmap in Ht as (x & -> & Hx). rewrite Hid in Hi.
    assert (Hc : tk_status x = Completed).
    { destruct (proj1 (to_paired0 (cr_task_id r)) (list_elem_of_fmap_2 _ _ _ Hr)) as (y & Hy & Hyi & Hys).
      pose proof (find_unique _ _ x to_ids0 Hx Hi). pose proof (find_unique _ _ y to_ids0 Hy Hyi). congruence. }
    rewrite Han by done. by apply to_revision0.
  - etrans; [|exact to_resumable0]. apply filter_count_map. intros t _. unfold is_open. by rewrite Hst.
  - etrans; [|exact to_completed0]. apply filter_count_map. intros t _. unfold is_completed. cbn. by rewrite Hst.
  - apply Forall_fmap. eapply Forall_impl; [exact to_goals0|]. intros t. cbn. by rewrite Hgoal.
Qed.

(** A row update that keeps what the table reads. *)
Record row_keeps (f : TaskRecord -> TaskRecord) : Prop := {
  rk_id : keeps_id f;
  rk_status : forall t, tk_status (f t) = tk_status t;
  rk_goal : forall t, tk_goal (f t) = tk_goal t;
  rk_anchor : forall t, tk_status t = Completed -> tk_anchor (f t) = tk_anchor t;
}.

Lemma update_task_ok bound id f m :
  row_keeps f -> table_within bound m -> table_within bound (update_task id f m).
Proof.
  intros [] H. rewrite update_task_map by apply (to_ids _ _ H). apply map_ok; try done; try intros t; try intros _;
    unfold at_id; destruct (has_id id t); auto.
Qed.

(** ** Turn traffic *)

Lemma on_active_ok f m : row_keeps f -> table_ok m -> table_ok (on_active f m).
Proof.
  intros [] H. unfold on_active. destruct (tm_active m) as [id|]; [|done]. apply update_task_ok; [|done].
  split; intros t; destruct (is_open t); auto.
Qed.

(** ** State changes *)

Lemma suspend_previous_map previous m : NoDup (ids m) ->
  suspend_previous previous m =
  set_tasks ((fun t => if bool_decide (previous = Some (tk_id t)) && is_open t then set_status Suspended t else t)
               <$> tm_tasks m) m.
Proof.
  intros Hnd. unfold suspend_previous. destruct previous as [id|].
  - rewrite update_task_map by done. f_equal. apply list_fmap_ext. intros i t _. unfold at_id, has_id.
    destruct (N.eqb_spec (tk_id t) id) as [<-|Hne]; [by rewrite bool_decide_eq_true_2|].
    rewrite bool_decide_eq_false_2 by congruence. done.
  - destruct m as [ts a c e1 e2]. unfold set_tasks. cbn. f_equal. rewrite <- (list_fmap_id ts) at 1.
    apply list_fmap_ext. intros i t _. rewrite bool_decide_eq_false_2 by done. done.
Qed.

(** After the switch the rows are the old ones, with the old active task suspended and
    the new one active. *)
Definition switched (target : option N) m (now : N) t : TaskRecord :=
  if bool_decide (target = Some (tk_id t)) then set_last_active_ms now (set_status Active t)
  else if bool_decide (tk_status t = Active) then set_status Suspended t else t.

Lemma switched_status target m now t :
  tk_status (switched target m now t) =
  if bool_decide (target = Some (tk_id t)) then Active
  else if bool_decide (tk_status t = Active) then Suspended else tk_status t.
Proof. unfold switched. destruct (bool_decide _); [done|]. by destruct (bool_decide _). Qed.

Lemma switched_id target m now t : tk_id (switched target m now t) = tk_id t.
Proof. unfold switched. destruct (bool_decide _); [done|]. by destruct (bool_decide _). Qed.

Lemma switched_same target m now t :
  tk_goal (switched target m now t) = tk_goal t /\ tk_anchor (switched target m now t) = tk_anchor t.
Proof. unfold switched. destruct (bool_decide _); [done|]. by destruct (bool_decide _). Qed.

Lemma switch_ok target now m :
  table_ok m -> (forall id, target = Some id -> exists t, t ∈ tm_tasks m /\ tk_id t = id /\ is_open t = true) ->
  table_ok (set_active target (set_tasks (switched target m now <$> tm_tasks m) m)).
Proof.
  intros [] Htarget. unfold ids in *.
  assert (Hcomp : forall t, t ∈ tm_tasks m -> (tk_status (switched target m now t) = Completed <-> tk_status t = Completed)).
  { intros t Ht. rewrite switched_status. destruct (bool_decide (target = Some (tk_id t))) eqn:E.
    - apply bool_decide_eq_true in E. destruct (Htarget _ E) as (x & Hx & Hi & Ho).
      pose proof (find_unique _ _ x to_ids0 Hx Hi). pose proof (find_unique _ _ t to_ids0 Ht eq_refl).
      assert (x = t) as -> by congruence. unfold is_open in Ho. split; [done|]. intros Hc.
      by rewrite bool_decide_eq_true_2 in Ho.
    - destruct (bool_decide (tk_status t = Active)) eqn:Ea; [|done]. apply bool_decide_eq_true in Ea.
      rewrite Ea. by split. }
  split; unfold ids, set_tasks, set_active, resumable; cbn.
  - rewrite ids_map; [done|]. intros t. apply switched_id.
  - intros t Ht. apply list_elem_of_fmap in Ht as (x & -> & Hx). rewrite switched_id, switched_status.
    destruct (bool_decide (target = _)) eqn:E.
    + apply bool_decide_eq_true in E. by split.
    + apply bool_decide_eq_false in E. split; [|done].
      destruct (bool_decide (tk_status x = Active)) eqn:Ea; [done|]. apply bool_decide_eq_false in Ea. done.
  - intros id Hid. rewrite ids_map by (intros t; apply switched_id).
    destruct (Htarget id Hid) as (t & Ht & <- & _). by apply list_elem_of_fmap_2.
  - done.
  - intros id. rewrite to_paired0. split; intros (t & Ht & Hi & Hs).
    + exists (switched target m now t). split; [by apply list_elem_of_fmap_2|]. rewrite switched_id.
      split; [done|]. by apply Hcomp.
    + apply list_elem_of_fmap in Ht as (x & -> & Hx). rewrite switched_id in Hi. exists x. split; [done|].
      split; [done|]. by apply Hcomp.
  - intros r t Hr Ht Hi. apply list_elem_of_fmap in Ht as (x & -> & Hx). rewrite switched_id in Hi.
    rewrite (proj2 (switched_same target m now x)). by apply to_revision0.
  - etrans; [|exact to_resumable0]. apply filter_count_map. intros t Ht. unfold is_open.
    rewrite !negb_true_iff, !bool_decide_eq_false. by rewrite (Hcomp t Ht).
  - etrans; [|exact to_completed0]. apply filter_count_map. intros t Ht. unfold is_completed. cbn.
    rewrite !bool_decide_eq_true. by rewrite (Hcomp t Ht).
  - apply Forall_fmap. eapply Forall_impl; [exact to_goals0|]. intros t. cbn.
    by rewrite (proj1 (switched_same target m now t)).
Qed.

Lemma active_row m t : table_ok m -> t ∈ tm_tasks m ->
  bool_decide (tm_active m = Some (tk_id t)) && is_open t = bool_decide (tk_status t = Active).
Proof.
  intros H Ht. pose proof (to_active _ _ H t Ht) as Ha. unfold is_open.
  destruct (tk_status t) eqn:E; cbn; [|destruct (bool_decide _) eqn:Eb; [|done]..].
  - rewrite bool_decide_eq_true_2; [done|by apply Ha].
  - apply bool_decide_eq_true in Eb. by apply Ha in Eb.
  - apply bool_decide_eq_true in Eb. by apply Ha in Eb.
Qed.

Lemma map_rows_eq (g h : TaskRecord -> TaskRecord) (l : list TaskRecord) :
  (forall t, t ∈ l -> g t = h t) -> g <$> l = h <$> l.
Proof. intros H. apply list_fmap_ext. intros i t Ht. apply H. by eapply list_elem_of_lookup_2. Qed.

Lemma suspend_active_switched m : table_ok m ->
  suspend_previous (tm_active m) m = set_tasks (switched None m 0 <$> tm_tasks m) m.
Proof.
  intros H. rewrite suspend_previous_map by apply (to_ids _ _ H). f_equal. apply map_rows_eq. intros t Ht.
  rewrite (active_row m t H Ht). done.
Qed.

Lemma activate_switched now id m : table_ok m ->
  commit now (PlanActivate id (other_active id m)) m =
  set_active (Some id) (set_tasks (switched (Some id) m now <$> tm_tasks m) m).
Proof.
  intros H. cbn [commit]. rewrite suspend_previous_map by apply (to_ids _ _ H).
  rewrite update_task_map.
  2: { unfold ids. cbn. rewrite ids_map; [apply (to_ids _ _ H)|]. intros t. by destruct (_ && _). }
  unfold set_active, set_tasks. cbn. f_equal. rewrite <- list_fmap_compose. apply map_rows_eq. intros t Ht. cbn.
  unfold switched. pose proof (active_row m t H Ht) as Ha. unfold at_id, has_id, other_active in *.
  destruct (decide (tk_id t = id)) as [<-|Hne].
  - rewrite (bool_decide_eq_true_2 (Some (tk_id t) = _)) by done.
    destruct (tm_active m) as [a|]; [destruct (N.eqb_spec a (tk_id t))|];
      rewrite ?(bool_decide_eq_false_2 (_ = Some (tk_id t))) by congruence; cbn [andb]; by rewrite N.eqb_refl.
  - rewrite (bool_decide_eq_false_2 (Some id = _)) by congruence.
    assert (Hb : bool_decide (match tm_active m with
        | Some active => if (active =? id)%N then None else Some active | None => None end = Some (tk_id t))
      = bool_decide (tm_active m = Some (tk_id t))).
    { apply bool_decide_ext. destruct (tm_active m) as [a|]; [|done]. destruct (N.eqb_spec a id); [|done].
      split; [done|]. intros [= ->]. congruence. }
    rewrite Hb, Ha. destruct (bool_decide (tk_status t = Active)); cbn [tk_id set_status];
      by rewrite (proj2 (N.eqb_neq _ _)).
Qed.

Lemma suspend_switched now id m : table_ok m -> tm_active m = Some id ->
  commit now (PlanSuspend id) m = set_active None (set_tasks (switched None m 0 <$> tm_tasks m) m).
Proof.
  intros H Hid. cbn [commit]. rewrite update_task_map by apply (to_ids _ _ H). f_equal. f_equal.
  apply map_rows_eq. intros t Ht. unfold switched, at_id, has_id. rewrite bool_decide_eq_false_2 by done.
  pose proof (to_active _ _ H t Ht) as Ha. rewrite Hid in Ha.
  destruct (N.eqb_spec (tk_id t) id) as [<-|Hne].
  - by rewrite bool_decide_eq_true_2; [|apply Ha].
  - rewrite bool_decide_eq_false_2; [done|]. intros Hc. apply Ha in Hc. congruence.
Qed.

Lemma append_ok target goal now m :
  table_ok m -> tm_active m = None -> target ∉ ids m -> length goal <= MAX_TASK_ANCHOR_TEXT_CHARS ->
  length (resumable m) < MAX_TASK_RECORDS ->
  table_ok (set_active (Some target) (set_tasks (tm_tasks m ++ [fresh_task target goal now]) m)).
Proof.
  intros [] Hnone Hfresh Hgoal Hroom. unfold ids in *.
  split; unfold ids, set_tasks, set_active, resumable, completed_rows; cbn.
  - rewrite fmap_app. cbn. apply NoDup_app. split; [done|]. split; [|apply NoDup_singleton].
    intros x Hx Hx'. apply list_elem_of_singleton in Hx' as ->. done.
  - intros t Ht. apply elem_of_app in Ht as [Ht| ->%list_elem_of_singleton]; [|done].
    rewrite (to_active0 t Ht), Hnone. split; [done|]. intros [= ->]. exfalso. apply Hfresh.
    by apply list_elem_of_fmap_2.
  - intros id [= <-]. rewrite fmap_app. apply elem_of_app. right. by left.
  - done.
  - intros id. rewrite to_paired0. split; intros (t & Ht & Hi & Hs).
    + exists t. split; [apply elem_of_app; by left|done].
    + apply elem_of_app in Ht as [Ht| ->%list_elem_of_singleton]; [by exists t|done].
  - intros r t Hr Ht Hi. apply elem_of_app in Ht as [Ht| ->%list_elem_of_singleton]; [by apply to_revision0|].
    exfalso. apply Hfresh. cbn in Hi. rewrite Hi.
    destruct (proj1 (to_paired0 _) (list_elem_of_fmap_2 _ _ _ Hr)) as (y & Hy & <- & _). by apply list_elem_of_fmap_2.
  - rewrite List.filter_app, length_app. change (length (List.filter is_open [_])) with 1. unfold resumable in *. lia.
  - rewrite List.filter_app, length_app. change (length (List.filter is_completed [_])) with 0.
    unfold completed_rows in *. lia.
  - apply Forall_app. split; [done|]. by constructor.
Qed.

Lemma create_ok fresh goal now m :
  table_ok m -> fresh ∉ ids m -> length goal <= MAX_TASK_ANCHOR_TEXT_CHARS -> length (resumable m) < MAX_TASK_RECORDS ->
  table_ok (commit now (PlanCreate fresh goal (tm_active m)) m).
Proof.
  intros H Hfresh Hgoal Hroom. cbn [commit]. rewrite suspend_active_switched by done.
  assert (H1 : table_ok (set_active None (set_tasks (switched None m 0 <$> tm_tasks m) m))) by by apply switch_ok.
  pose proof (append_ok fresh goal now _ H1 eq_refl) as H2. unfold ids, set_active, set_tasks, resumable in *. cbn in *.
  apply H2; [|done|].
  - rewrite ids_map; [done|]. intros t. apply switched_id.
  - eapply Nat.le_lt_trans; [|exact Hroom]. apply filter_count_map. intros t Ht. unfold is_open.
    rewrite switched_status, (bool_decide_eq_false_2 (None = _)) by done.
    destruct (bool_decide (tk_status t = Active)) eqn:E; [|done]. apply bool_decide_eq_true in E. by rewrite E.
Qed.

(** ** Completion *)

Definition completed_row (active : N) t : TaskRecord := at_id active (set_status Completed) t.

(** The table between the status flip and the window. *)
Definition flipped (active : N) (record : CompletionRecord) m : TaskManager :=
  set_active None (set_completed (tm_completed m ++ [record]) (set_tasks (completed_row active <$> tm_tasks m) m)).

Lemma complete_flipped now active record m : table_ok m ->
  commit now (PlanComplete active record) m = enforce_hot_bounds (flipped active record m).
Proof. intros H. cbn [commit]. by rewrite update_task_map by apply (to_ids _ _ H). Qed.

Lemma completed_row_id active t : tk_id (completed_row active t) = tk_id t.
Proof. unfold completed_row. by apply at_id_id. Qed.

Lemma completed_row_status active t :
  tk_status (completed_row active t) = if has_id active t then Completed else tk_status t.
Proof. unfold completed_row, at_id. by destruct (has_id active t). Qed.

Lemma has_id_true id t : has_id id t = true <-> tk_id t = id.
Proof. apply N.eqb_eq. Qed.

Lemma filter_count_one (p q : TaskRecord -> bool) (l : list TaskRecord) id :
  NoDup (tk_id <$> l) -> (forall t, t ∈ l -> tk_id t <> id -> p t = true -> q t = true) ->
  length (List.filter p l) <= S (length (List.filter q l)).
Proof.
  induction l as [|t l IH]; intros Hnd H; cbn; [lia|]. cbn in Hnd. apply NoDup_cons in Hnd as [Hn Hnd].
  assert (Hl : forall x, x ∈ l -> tk_id x <> id -> p x = true -> q x = true) by (intros x Hx; apply H; by right).
  specialize (IH Hnd Hl). destruct (decide (tk_id t = id)) as [<-|Hne].
  - assert (Hle : length (List.filter p l) <= length (List.filter q l)).
    { clear - Hn Hl. induction l as [|x l IH]; cbn; [lia|]. cbn in Hn. apply not_elem_of_cons in Hn as [Hx Hn].
      specialize (IH Hn (fun y Hy => Hl y (proj2 (elem_of_cons _ _ _) (or_intror Hy)))).
      pose proof (Hl x (list_elem_of_here _ _) (not_eq_sym Hx)) as Hpq.
      destruct (p x), (q x); cbn; try lia; by specialize (Hpq eq_refl). }
    destruct (p t), (q t); cbn; lia.
  - pose proof (H t (list_elem_of_here _ _) Hne) as Hpq. destruct (p t), (q t); cbn; try lia; by specialize (Hpq eq_refl).
Qed.

Lemma flipped_ok active record m t :
  table_ok m -> tm_active m = Some active -> get_task active m = Some t ->
  cr_task_id record = active -> cr_anchor_revision record = an_revision (tk_anchor t) ->
  table_within (S MAX_HOT_COMPLETED_TASK_RECORDS) (flipped active record m).
Proof.
  intros [] Hactive Hget Hrid Hrev. apply get_task_elem in Hget as [Ht Htid]. unfold ids in *.
  assert (Hta : tk_status t = Active) by (apply to_active0; [done|by rewrite Htid]).
  assert (Hnew : active ∉ cr_task_id <$> tm_completed m).
  { intros (x & Hx & Hxi & Hxs)%to_paired0. pose proof (find_unique _ _ x to_ids0 Hx Hxi).
    pose proof (find_unique _ _ t to_ids0 Ht Htid). congruence. }
  split; unfold ids, flipped, set_tasks, set_completed, set_active, resumable; cbn.
  - rewrite ids_map; [done|]. intros x. apply completed_row_id.
  - intros x Hx. apply list_elem_of_fmap in Hx as (y & -> & Hy). rewrite completed_row_status. split; [|done].
    destruct (has_id active y) eqn:E; [done|]. intros Hs. apply to_active0 in Hs; [|done].
    rewrite Hactive in Hs. injection Hs as Hs. unfold has_id in E. by rewrite Hs, N.eqb_refl in E.
  - done.
  - rewrite fmap_app. cbn. apply NoDup_app. split; [done|]. split; [|apply NoDup_singleton].
    intros x Hx Hx'. apply list_elem_of_singleton in Hx' as ->. by rewrite Hrid in Hx.
  - intros id. rewrite fmap_app, elem_of_app, to_paired0. cbn. rewrite list_elem_of_singleton, Hrid. split.
    + intros [(x & Hx & Hi & Hs)| ->].
      * exists (completed_row active x). split; [by apply list_elem_of_fmap_2|]. rewrite completed_row_id, completed_row_status.
        split; [done|]. by destruct (has_id active x).
      * exists (completed_row active t). split; [by apply list_elem_of_fmap_2|]. rewrite completed_row_id, completed_row_status.
        split; [done|]. by rewrite (proj2 (has_id_true _ _)).
    + intros (x & Hx & Hi & Hs). apply list_elem_of_fmap in Hx as (y & -> & Hy). rewrite completed_row_id in Hi.
      rewrite completed_row_status in Hs. destruct (has_id active y) eqn:E; [right|left; by exists y].
      apply has_id_true in E. congruence.
  - intros r x Hr Hx Hi. apply list_elem_of_fmap in Hx as (y & -> & Hy). rewrite completed_row_id in Hi.
    assert (Han : tk_anchor (completed_row active y) = tk_anchor y)
      by (unfold completed_row, at_id; by destruct (has_id active y)).
    rewrite Han. apply elem_of_app in Hr as [Hr|Hr]; [by apply to_revision0|].
    apply list_elem_of_singleton in Hr as ->. rewrite Hrid in Hi. rewrite Hrev.
    pose proof (find_unique _ _ y to_ids0 Hy Hi). pose proof (find_unique _ _ t to_ids0 Ht Htid). congruence.
  - etrans; [|exact to_resumable0]. apply filter_count_map. intros x Hx. unfold is_open. rewrite completed_row_status.
    by destruct (has_id active x).
  - unfold completed_rows. rewrite (filter_fmap (completed_row active) _ (fun t => is_completed (completed_row active t)))
      by done.
    rewrite length_fmap. etrans; [apply (filter_count_one _ is_completed _ active to_ids0)|].
    + intros x Hx Hne. unfold is_completed. cbn. rewrite completed_row_status.
      destruct (has_id active x) eqn:E; [|done]. by apply has_id_true in E.
    + apply le_n_S, to_completed0.
  - apply Forall_fmap. eapply Forall_impl; [exact to_goals0|]. intros x. cbn. unfold completed_row, at_id.
    by destruct (has_id active x).
Qed.

Lemma enforce_ok bound m : table_within bound m -> table_ok (enforce_hot_bounds m).
Proof.
  intros []. unfold enforce_hot_bounds.
  pose proof (window_spec (tm_tasks m) (tm_completed m) to_ids0) as H.
  destruct (bounded_hot_pair_window (tm_tasks m) (tm_completed m)) as [[[rows completed] n] k].
  destruct H as ([Hs Ho Hc _] & Hrec & _ & _). unfold ids in *.
  assert (Hin : forall t, t ∈ rows -> t ∈ tm_tasks m).
  { intros t Ht. apply sublist_submseteq in Hs. by eapply elem_of_submseteq. }
  assert (Hkeep : forall t, t ∈ tm_tasks m -> is_open t = true -> t ∈ rows).
  { intros t Ht Hopen. assert (Hf : t ∈ List.filter (fun row => negb (is_completed row)) (tm_tasks m))
      by by apply elem_of_filter_b.
    rewrite <- Ho in Hf. by apply elem_of_filter_b in Hf as [? _]. }
  split; unfold ids, resumable; cbn.
  - eapply sublist_NoDup; [exact to_ids0|by apply fmap_sublist].
  - intros t Ht. by apply to_active0, Hin.
  - intros id Hid. specialize (to_active_registered0 id Hid). apply list_elem_of_fmap in to_active_registered0
      as (t & -> & Ht). apply list_elem_of_fmap_2. apply Hkeep; [done|]. unfold is_open.
    rewrite (proj2 (to_active0 t Ht) Hid). done.
  - rewrite Hrec. eapply sublist_NoDup; [exact to_records0|]. apply fmap_sublist, filter_sublist.
  - intros id. rewrite Hrec. split.
    + intros Hid. apply list_elem_of_fmap in Hid as (r & -> & Hr). apply elem_of_filter_b in Hr as [Hr Hlive].
      apply bool_decide_eq_true in Hlive. apply list_elem_of_fmap in Hlive as (t & He & Ht).
      apply elem_of_filter_b in Ht as [Ht Hd]. exists t. split; [done|]. split; [done|].
      unfold is_completed in Hd. by apply bool_decide_eq_true in Hd.
    + intros (t & Ht & Hi & Hst).
      assert (Hid : id ∈ cr_task_id <$> tm_completed m) by (apply to_paired0; exists t; split; [by apply Hin|done]).
      apply list_elem_of_fmap in Hid as (r & Hr & Hrin). rewrite Hr. apply list_elem_of_fmap_2, elem_of_filter_b.
      split; [done|]. apply bool_decide_eq_true. rewrite <- Hr, <- Hi.
      change (tk_id t) with (hot_id t). apply list_elem_of_fmap_2, elem_of_filter_b. split; [done|]. by apply bool_decide_eq_true.
  - intros r t Hr Ht Hi. rewrite Hrec in Hr. apply elem_of_filter_b in Hr as [Hr _]. apply to_revision0; auto.
  - etrans; [|exact to_resumable0]. apply sublist_length. unfold resumable.
    pose proof Ho as Ho'. change (List.filter is_open rows = List.filter is_open (tm_tasks m)) in Ho'. by rewrite Ho'.
  - etrans; [exact (Nat.eq_le_incl _ _ Hc)|]. apply Nat.le_min_l.
  - rewrite Forall_forall in *. intros t Ht. by apply to_goals0, Hin.
Qed.

(** ** What a step leaves alone *)

(** A completed task is not touched: it stays as it is, or leaves the table. *)
Definition closed_same m m' : Prop :=
  forall t t', t ∈ tm_tasks m -> tk_status t = Completed -> t' ∈ tm_tasks m' -> tk_id t' = tk_id t -> t' = t.

Lemma closed_by_map (g : TaskRecord -> TaskRecord) m m' :
  NoDup (ids m) -> keeps_id g -> (forall t, t ∈ tm_tasks m -> tk_status t = Completed -> g t = t) ->
  (forall t', t' ∈ tm_tasks m' -> t' ∈ g <$> tm_tasks m \/ tk_id t' ∉ ids m) -> closed_same m m'.
Proof.
  intros Hnd Hid Hg Hsub t t' Ht Hc Ht' Hi. destruct (Hsub t' Ht') as [Hin|Hn].
  - apply list_elem_of_fmap in Hin as (x & -> & Hx). rewrite Hid in Hi.
    pose proof (find_unique _ _ x Hnd Hx Hi). pose proof (find_unique _ _ t Hnd Ht eq_refl).
    assert (x = t) as -> by congruence. by apply Hg.
  - exfalso. apply Hn. rewrite Hi. by apply list_elem_of_fmap_2.
Qed.

Definition safe_step m m' : Prop := table_ok m' /\ closed_same m m'.

Lemma safe_refl m : table_ok m -> safe_step m m.
Proof. intros H. split; [done|]. apply (closed_by_map id); [apply (to_ids _ _ H)|done|done|]. intros t' Ht'. left. by rewrite list_fmap_id. Qed.

Lemma update_safe id f m :
  keeps_id f -> (forall t, tk_status (f t) = tk_status t) -> (forall t, tk_goal (f t) = tk_goal t) ->
  (forall t, t ∈ tm_tasks m -> tk_id t = id -> tk_status t = Completed -> f t = t) ->
  table_ok m -> safe_step m (update_task id f m).
Proof.
  intros Hid Hst Hgoal Hc H. rewrite update_task_map by apply (to_ids _ _ H).
  assert (Hg : forall t, t ∈ tm_tasks m -> tk_status t = Completed -> at_id id f t = t).
  { intros t Ht Hs. unfold at_id. destruct (has_id id t) eqn:E; [|done]. apply Hc; [done|by apply has_id_true|done]. }
  split.
  - apply map_ok; [intros t; by apply at_id_id|intros t; unfold at_id; destruct (has_id id t); auto..| |done].
    intros t Ht Hs. by rewrite Hg.
  - apply (closed_by_map (at_id id f)); [apply (to_ids _ _ H)|intros t; by apply at_id_id|done|].
    intros t' Ht'. by left.
Qed.

Lemma safe_trans m1 m2 m3 : (forall id, id ∈ ids m3 -> id ∈ ids m2) -> safe_step m1 m2 -> safe_step m2 m3 -> safe_step m1 m3.
Proof.
  intros Hsub [H1 Hc1] [H2 Hc2]. split; [done|]. intros t t' Ht Hs Ht' Hi.
  assert (Hin : tk_id t' ∈ ids m2) by (apply Hsub; by apply list_elem_of_fmap_2).
  apply list_elem_of_fmap in Hin as (x & Hx & Hxin). assert (x = t) as -> by (apply Hc1; congruence).
  by apply Hc2.
Qed.

Lemma update_task_ids id f m : NoDup (ids m) -> keeps_id f -> ids (update_task id f m) = ids m.
Proof.
  intros Hnd Hf. rewrite update_task_map by done. unfold ids, set_tasks. cbn. apply ids_map. intros t. by apply at_id_id.
Qed.

Lemma on_active_safe f m :
  keeps_id f -> (forall t, tk_status (f t) = tk_status t) -> (forall t, tk_goal (f t) = tk_goal t) ->
  table_ok m -> safe_step m (on_active f m).
Proof.
  intros Hid Hst Hgoal H. unfold on_active. destruct (tm_active m) as [id|]; [|by apply safe_refl].
  apply update_safe; [intros t; unfold is_open; destruct (bool_decide _); cbn; auto..| |done].
  intros t _ _ Hs. unfold is_open. by rewrite Hs.
Qed.

Lemma active_open m id t : table_ok m -> tm_active m = Some id -> t ∈ tm_tasks m -> tk_id t = id -> tk_status t = Active.
Proof. intros H Ha Ht Hi. apply (to_active _ _ H t Ht). by rewrite Hi. Qed.

Lemma switch_safe target now m :
  table_ok m -> (forall id, target = Some id -> exists t, t ∈ tm_tasks m /\ tk_id t = id /\ is_open t = true) ->
  safe_step m (set_active target (set_tasks (switched target m now <$> tm_tasks m) m)).
Proof.
  intros H Htarget. split; [by apply switch_ok|].
  apply (closed_by_map (switched target m now)); [apply (to_ids _ _ H)|intros t; apply switched_id| |intros t' Ht'; by left].
  intros t Ht Hs. unfold switched. destruct (bool_decide (target = _)) eqn:E.
  - apply bool_decide_eq_true in E. destruct (Htarget _ E) as (x & Hx & Hi & Ho).
    pose proof (find_unique _ _ x (to_ids _ _ H) Hx Hi). pose proof (find_unique _ _ t (to_ids _ _ H) Ht eq_refl).
    assert (x = t) as -> by congruence. unfold is_open in Ho. by rewrite bool_decide_eq_true_2 in Ho.
  - by rewrite bool_decide_eq_false_2 by congruence.
Qed.

Lemma create_safe fresh goal now m :
  table_ok m -> fresh ∉ ids m -> length goal <= MAX_TASK_ANCHOR_TEXT_CHARS -> length (resumable m) < MAX_TASK_RECORDS ->
  safe_step m (commit now (PlanCreate fresh goal (tm_active m)) m).
Proof.
  intros H Hfresh Hgoal Hroom. split; [by apply create_ok|]. cbn [commit]. rewrite suspend_active_switched by done.
  apply (closed_by_map (switched None m 0)); [apply (to_ids _ _ H)|intros t; apply switched_id| |].
  - intros t _ Hs. unfold switched. rewrite !bool_decide_eq_false_2 by congruence. done.
  - intros t' Ht'. unfold set_active, set_tasks in Ht'. cbn in Ht'.
    apply elem_of_app in Ht' as [Ht'| ->%list_elem_of_singleton]; [by left|by right].
Qed.

Lemma complete_safe now draft m plan record :
  table_ok m -> prepare_complete now draft m = Some (plan, record) -> forall now', safe_step m (commit now' plan m).
Proof.
  intros H Hp now'. unfold prepare_complete in Hp. destruct (tm_active m) as [active|] eqn:Ha; [|done].
  injection Hp as <- Hr. rewrite complete_flipped by done.
  pose proof (to_active_registered _ _ H active Ha) as Hreg.
  apply list_elem_of_fmap in Hreg as (t & Hti & Ht).
  assert (Hget : get_task active m = Some t) by (apply find_unique; [apply (to_ids _ _ H)|done|done]).
  assert (Hf : table_within (S MAX_HOT_COMPLETED_TASK_RECORDS) (flipped active record m)).
  { apply (flipped_ok _ _ _ t); try done; rewrite <- Hr; [done|]. by rewrite Hget. }
  rewrite Hr. split; [by eapply enforce_ok|].
  apply (closed_by_map (completed_row active)); [apply (to_ids _ _ H)|intros x; apply completed_row_id| |].
  - intros x Hx Hs. unfold completed_row, at_id. destruct (has_id active x) eqn:E; [|done]. apply has_id_true in E.
    pose proof (active_open m active x H Ha Hx E). congruence.
  - intros t' Ht'. left. unfold enforce_hot_bounds in Ht'.
    pose proof (window_spec (tm_tasks (flipped active record m)) (tm_completed (flipped active record m)) (to_ids _ _ Hf)) as Hw.
    destruct (bounded_hot_pair_window _ _) as [[[rows completed] n] k]. destruct Hw as ([Hsub _ _ _] & _).
    apply sublist_submseteq in Hsub. by apply (elem_of_submseteq _ _ _ Ht') in Hsub.
Qed.

(** ** Histories *)

Inductive TaskOp : Type :=
| TaTurn (message : text)
| TaDirective (message : text) (directive : TaskDirective)
| TaObserve (o : ToolOutput) (turn : N)
| TaInstall (id : N) (resume : ExecutionState)
| TaCreate (fresh : N) (goal : text)
| TaActivate (id : N)
| TaSuspend
| TaComplete (prepared_at : N) (draft : CompletionRecordDraft)
| TaRequirements (id base : N) (entries : list ToolSurfaceRequirement)
| TaReplaceAnchor (id base : N) (anchor : TaskAnchor)
| TaPatchAnchor (id base : N) (patch : AnchorPatch)
| TaReceipts (id base : N) (receipts : list AcceptanceCoverage).

(** The plan of an operation, if it is not refused. *)
Definition planned (op : TaskOp) m : option TaskPlan :=
  match op with
  | TaCreate fresh goal => match prepare_create fresh goal m with Ok (plan, _) => Some plan | Err _ => None end
  | TaActivate id => prepare_activate id m
  | TaSuspend => prepare_suspend m
  | TaComplete prepared_at draft => fst <$> prepare_complete prepared_at draft m
  | TaRequirements id base entries =>
      match prepare_replace_tool_requirements id base entries m with Ok (plan, _) => Some plan | Err _ => None end
  | TaReplaceAnchor id base anchor =>
      match prepare_replace_anchor id base anchor m with Ok (plan, _, _) => Some plan | Err _ => None end
  | TaPatchAnchor id base patch =>
      match prepare_patch_anchor id base patch m with Ok (plan, _, _, _) => Some plan | Err _ => None end
  | TaReceipts id base receipts =>
      match prepare_record_acceptance_receipts id base receipts m with Ok (plan, _, _) => Some plan | Err _ => None end
  | _ => None
  end.

Definition task_step m (now : N) (op : TaskOp) : TaskManager :=
  match op with
  | TaTurn message => on_user_turn message m
  | TaDirective message directive => apply_user_directive message directive m
  | TaObserve o turn => tm_observe_tool o turn m
  | TaInstall id resume => install_resume id resume m
  | _ => match planned op m with Some plan => commit now plan m | None => m end
  end.

Definition task_run (ops : list (N * TaskOp)) m : TaskManager := foldl (fun m op => task_step m op.1 op.2) m ops.

(** A new task gets an id the table does not hold (a version 4 UUID). *)
Definition fresh_op (op : TaskOp) m : Prop :=
  match op with TaCreate fresh _ => fresh ∉ ids m | _ => True end.

Fixpoint fresh_run (ops : list (N * TaskOp)) m : Prop :=
  match ops with
  | [] => True
  | (now, op) :: ops => fresh_op op m /\ fresh_run ops (task_step m now op)
  end.

Lemma result_bind_Ok {A B} (r : AgentResult A) (k : A -> AgentResult B) b :
  (let? x := r in k x) = Ok b -> exists x, r = Ok x /\ k x = Ok b.
Proof. destruct r as [x|]; [|done]. intros H. by exists x. Qed.

Lemma open_task_inv id what m t : open_task id what m = Ok t ->
  t ∈ tm_tasks m /\ tk_id t = id /\ is_open t = true.
Proof.
  unfold open_task. destruct (get_task id m) as [x|] eqn:E; [|done]. apply get_task_elem in E as [Hx Hi].
  destruct (is_open x) eqn:Eo; [|done]. by intros [= <-].
Qed.

(** The plans of the compare-and-swap replacements address an open task. *)
Definition plan_target (plan : TaskPlan) : option N :=
  match plan with
  | PlanReplaceToolRequirements target _ | PlanReplaceAnchor target _ _ => Some target
  | _ => None
  end.

Lemma stamp_inv id base old changed au a b : stamp_revisions id base old changed au a = Ok b ->
  (changed = [] -> an_revision b = base) /\ (changed <> [] -> checked_succ base = Some (an_revision b)) /\
  (au = false -> an_verification_revision b = an_verification_revision old) /\
  (au = true -> checked_succ (an_verification_revision old) = Some (an_verification_revision b)) /\
  b = set_verification_revision (an_verification_revision b) (set_revision (an_revision b) a).
Proof.
  unfold stamp_revisions, next_revision. intros H. apply result_bind_Ok in H as (r & Hr & H).
  apply result_bind_Ok in H as (v & Hv & H). injection H as <-. cbn. split_and!; try done.
  - intros ->. by injection Hr.
  - intros Hc. rewrite bool_decide_eq_false_2 in Hr by done. destruct (checked_succ base); [|done]. by injection Hr as ->.
  - intros ->. by injection Hv.
  - intros ->. destruct (checked_succ (an_verification_revision old)); [|done]. by injection Hv as ->.
Qed.

(** ** Anchor changes *)

Definition same_content (a b : TaskAnchor) : Prop :=
  set_verification_revision 0 (set_revision 0 a) = set_verification_revision 0 (set_revision 0 b).

Definition same_authority (a b : TaskAnchor) : Prop :=
  an_original_goal a = an_original_goal b /\ an_constraints a = an_constraints b /\
  an_completion_policy a = an_completion_policy b /\ an_acceptance_criteria a = an_acceptance_criteria b.

(** The cap of eight names drops only names past the eighth field. *)
Lemma consider_room l : forall acc, length acc + length l <= MAX_TASK_ANCHOR_CHANGED_FIELDS ->
  foldl consider acc l = acc ++ (fst <$> List.filter snd l).
Proof.
  induction l as [|[name d] l IH]; intros acc Hlen; cbn [foldl]; [by rewrite app_nil_r|]. cbn [length] in Hlen.
  unfold consider at 2. cbn [fst snd]. rewrite (proj2 (Nat.ltb_lt _ _)) by lia.
  destruct d; cbn [andb List.filter snd].
  - rewrite IH by (rewrite length_app; cbn; lia). by rewrite <- app_assoc.
  - rewrite IH by lia. done.
Qed.

Lemma consider_more l : forall acc, exists more,
  foldl consider acc l = acc ++ more /\ (forall name, name ∈ more -> (name, true) ∈ l).
Proof.
  induction l as [|[name d] l IH]; intros acc; cbn [foldl].
  { exists []. rewrite app_nil_r. split; [done|]. by intros name Hn%not_elem_of_nil. }
  unfold consider at 2. cbn [fst snd]. destruct (d && _) eqn:E.
  - apply andb_true_iff in E as [-> _]. destruct (IH (acc ++ [name])) as (more & He & Hm).
    exists (name :: more). rewrite He, <- app_assoc. split; [done|].
    intros x [->|Hx]%elem_of_cons; [by left|right; by apply Hm].
  - destruct (IH acc) as (more & He & Hm). exists more. split; [done|]. intros x Hx. right. by apply Hm.
Qed.

Lemma negb_decide {P : Prop} `{Decision P} : negb (bool_decide P) = false <-> P.
Proof. rewrite negb_false_iff. apply bool_decide_eq_true. Qed.

Lemma changed_fields_split old new : exists more,
  anchor_changed_fields old new = (fst <$> List.filter snd (take 8 (field_differences old new))) ++ more /\
  forall name, name ∈ more -> is_authority_field name = false.
Proof.
  unfold anchor_changed_fields.
  set (fd := field_differences old new) in *.
  assert (Hfd : foldl consider [] fd = foldl consider (foldl consider [] (take 8 fd)) (drop 8 fd))
    by (by rewrite <- foldl_app, take_drop).
  unfold fd in *. clear fd.
  destruct (consider_more (drop 8 (field_differences old new))
    ([] ++ (fst <$> List.filter snd (take 8 (field_differences old new))))) as (more & He & Hm).
  exists more. split; [rewrite Hfd, (consider_room _ []) by done; exact He|].
  intros name Hn. apply Hm in Hn. cbn in Hn.
  repeat (apply elem_of_cons in Hn as [[= -> _]|Hn]; [reflexivity|]). by apply not_elem_of_nil in Hn.
Qed.

Lemma authority_changed_exact old new :
  existsb is_authority_field (anchor_changed_fields old new) = false <-> same_authority old new.
Proof.
  destruct (changed_fields_split old new) as (more & -> & Hm). rewrite existsb_app.
  assert (Hmore : existsb is_authority_field more = false).
  { apply not_true_iff_false. intros H. apply existsb_exists in H as (x & Hx & Hax). apply list_elem_of_In, Hm in Hx. congruence. }
  rewrite Hmore, orb_false_r. unfold field_differences, same_authority. cbn [take].
  pose proof (negb_decide (P := an_original_goal old = an_original_goal new)) as H1.
  pose proof (negb_decide (P := an_constraints old = an_constraints new)) as H2.
  pose proof (negb_decide (P := an_completion_policy old = an_completion_policy new)) as H3.
  pose proof (negb_decide (P := an_acceptance_criteria old = an_acceptance_criteria new)) as H4.
  revert H1 H2 H3 H4.
  generalize (negb (bool_decide (an_original_goal old = an_original_goal new))) as d1,
    (negb (bool_decide (an_constraints old = an_constraints new))) as d2,
    (negb (bool_decide (an_completion_policy old = an_completion_policy new))) as d3,
    (negb (bool_decide (an_acceptance_criteria old = an_acceptance_criteria new))) as d4,
    (negb (bool_decide (an_current_interpretation old = an_current_interpretation new))) as e1,
    (negb (bool_decide (an_acceptance_coverage old = an_acceptance_coverage new))) as e2,
    (negb (bool_decide (an_plan_progress old = an_plan_progress new))) as e3,
    (negb (bool_decide (an_open_loops old = an_open_loops new))) as e4.
  intros d1 d2 d3 d4 e1 e2 e3 e4 H1 H2 H3 H4. rewrite <- H1, <- H2, <- H3, <- H4.
  clear. destruct d1, d2, d3, d4, e1, e2, e3, e4; vm_compute; intuition congruence.
Qed.

Lemma consider_none l : foldl consider [] l = [] <-> Forall (fun p => p.2 = false) l.
Proof.
  induction l as [|[name d] l IH]; cbn [foldl]; [by split; constructor|]. unfold consider at 2. cbn.
  rewrite Forall_cons. destruct d; cbn [andb snd].
  - destruct (consider_more l [name]) as (more & -> & _). split; [done|by intros [? _]].
  - rewrite IH. tauto.
Qed.

Lemma changed_none_exact old new : anchor_changed_fields old new = [] <-> same_content old new.
Proof.
  unfold anchor_changed_fields. rewrite consider_none. unfold field_differences, same_content.
  rewrite !Forall_cons, Forall_nil. cbn [snd]. rewrite !negb_decide. destruct old, new.
  unfold set_verification_revision, set_revision. cbn. split.
  - intros (? & ? & ? & ? & ? & ? & ? & ? & ? & ? & ? & _). by subst.
  - intros [=]. by split_and!.
Qed.

Lemma replace_anchor_keeps new au t :
  tk_id (replace_anchor new au t) = tk_id t /\ tk_status (replace_anchor new au t) = tk_status t /\
  tk_goal (replace_anchor new au t) = tk_goal t /\ tk_anchor (replace_anchor new au t) = new.
Proof. done. Qed.

(** What the runtime owns of an anchor. *)
Definition receipts_kept (old new : TaskAnchor) : Prop :=
  an_acceptance_coverage new = merge_sort receipt_order (an_acceptance_coverage old) \/
  (an_acceptance_coverage new = [] /\ acceptance_boundary_changed old new = true).

Lemma normalize_anchor_inv a b : normalize_anchor a = Ok b ->
  b = set_acceptance_coverage (merge_sort receipt_order (an_acceptance_coverage a)) a /\
  check_all (check_receipt b) (an_acceptance_coverage b) = Ok tt.
Proof.
  unfold normalize_anchor. intros H. apply result_bind_Ok in H as (_ & _ & H). cbn zeta in H.
  apply result_bind_Ok in H as (_ & _ & H). apply result_bind_Ok in H as ([] & Hc & H).
  do 3 apply result_bind_Ok in H as (_ & _ & H). by injection H as <-.
Qed.

(** An accepted change of the anchor of task [id], seen from its base revision. *)
Record anchor_change (id base : N) (boundary : bool) (t : TaskRecord) (new : TaskAnchor) (au : bool) : Prop := {
  ac_open : is_open t = true;
  ac_id : tk_id t = id;
  ac_base : an_revision (tk_anchor t) = base;
  ac_revision_same : same_content (tk_anchor t) new -> an_revision new = base;
  ac_revision_next : ~ same_content (tk_anchor t) new -> checked_succ base = Some (an_revision new);
  ac_authority : au = false <-> boundary = false /\ same_authority (tk_anchor t) new;
  ac_verification_same : au = false -> an_verification_revision new = an_verification_revision (tk_anchor t);
  ac_verification_next : au = true ->
    checked_succ (an_verification_revision (tk_anchor t)) = Some (an_verification_revision new);
}.

Lemma stamped_change id base boundary t a new changed au :
  is_open t = true -> tk_id t = id -> an_revision (tk_anchor t) = base ->
  changed = anchor_changed_fields (tk_anchor t) a ->
  (au = false <-> boundary = false /\ same_authority (tk_anchor t) a) ->
  stamp_revisions id base (tk_anchor t) changed au a = Ok new ->
  anchor_change id base boundary t new au.
Proof.
  intros Hopen Hid Hbase -> Hau H. apply stamp_inv in H as (H1 & H2 & H3 & H4 & H5).
  assert (Hsc : same_content (tk_anchor t) new <-> same_content (tk_anchor t) a) by (rewrite H5; by destruct a).
  assert (Hsa : same_authority (tk_anchor t) new <-> same_authority (tk_anchor t) a) by (rewrite H5; by destruct a).
  split; try done.
  - rewrite Hsc, <- changed_none_exact. exact H1.
  - rewrite Hsc, <- changed_none_exact. exact H2.
  - by rewrite Hsa.
Qed.

Lemma at_revision_inv id what current base : at_revision id what current base = Ok tt -> current = base.
Proof. unfold at_revision. destruct (N.eqb_spec current base); [done|]. done. Qed.

Lemma replace_anchor_plan id base a m plan rev changed :
  prepare_replace_anchor id base a m = Ok (plan, rev, changed) -> exists t new au,
  plan = PlanReplaceAnchor id new au /\ t ∈ tm_tasks m /\ anchor_change id base false t new au /\
  rev = an_revision new /\ receipts_kept (tk_anchor t) new /\ changed = anchor_changed_fields (tk_anchor t) new.
Proof.
  unfold prepare_replace_anchor. intros H. apply result_bind_Ok in H as (t & Ht & H).
  apply open_task_inv in Ht as (Ht & Hid & Hopen). apply result_bind_Ok in H as ([] & Hb & H).
  apply at_revision_inv in Hb. cbn zeta in H.
  set (a1 := set_verification_revision _ (set_revision _ a)) in *.
  apply result_bind_Ok in H as (a2 & Ha2 & H). apply result_bind_Ok in H as (a3 & Ha3 & H).
  apply result_bind_Ok in H as (new & Hnew & H). injection H as <- <- <-.
  pose proof Hnew as (_ & _ & _ & _ & Hform)%stamp_inv.
  assert (Hcf : forall x, anchor_changed_fields x new = anchor_changed_fields x a3) by (rewrite Hform; by destruct a3).
  exists t, new, (existsb is_authority_field (anchor_changed_fields (tk_anchor t) a3)).
  split; [done|]. split; [done|]. split; [|split; [done|split; [|done]]].
  - eapply stamped_change; [done..| |exact Hnew]. rewrite authority_changed_exact. tauto.
  - apply normalize_anchor_inv in Ha3 as [-> _]. unfold receipts_kept. rewrite Hform.
    unfold acceptance_boundary_changed in *.
    destruct (negb (bool_decide (an_completion_policy a1 = _)) || _) eqn:E.
    + destruct (negb _ && negb _); [done|]. injection Ha2 as <-. right. split; [done|exact E].
    + destruct (negb (bool_decide (an_acceptance_coverage a1 = _))) eqn:Ec; [done|]. injection Ha2 as <-.
      apply negb_false_iff, bool_decide_eq_true in Ec. left. rewrite <- Ec. reflexivity.
Qed.

Lemma patch_anchor_plan id base p m plan rev changed kind :
  prepare_patch_anchor id base p m = Ok (plan, rev, changed, kind) -> exists t new au,
  plan = PlanReplaceAnchor id new au /\ t ∈ tm_tasks m /\
  anchor_change id base (bool_decide (patch_kind p = Boundary)) t new au /\
  rev = an_revision new /\ receipts_kept (tk_anchor t) new /\ changed = anchor_changed_fields (tk_anchor t) new.
Proof.
  unfold prepare_patch_anchor. intros H. apply result_bind_Ok in H as (t & Ht & H).
  apply open_task_inv in Ht as (Ht & Hid & Hopen). apply result_bind_Ok in H as ([] & Hb & H).
  apply at_revision_inv in Hb. destruct (bool_decide (is_Some _)) eqn:Ep; [done|]. cbn zeta in H.
  apply bool_decide_eq_false in Ep.
  apply result_bind_Ok in H as (a3 & Ha3 & H). apply result_bind_Ok in H as (new & Hnew & H).
  injection H as <- <- <- <-. pose proof Hnew as (_ & _ & _ & _ & Hform)%stamp_inv.
  assert (Hcf : forall x, anchor_changed_fields x new = anchor_changed_fields x a3) by (rewrite Hform; by destruct a3).
  eexists t, new, _. split; [done|]. split; [done|]. split; [|split; [done|split; [|done]]].
  - eapply stamped_change; [done..| |exact Hnew]. rewrite orb_false_iff, authority_changed_exact. done.
  - apply normalize_anchor_inv in Ha3 as [-> _]. unfold receipts_kept. rewrite Hform.
    destruct (acceptance_boundary_changed (tk_anchor t) (apply_to p (tk_anchor t))) eqn:E.
    + right. split; [done|]. unfold acceptance_boundary_changed in *. cbn in *. exact E.
    + left. cbn. destruct (ap_acceptance_coverage p); [|done]. exfalso. apply Ep. by eexists.
Qed.

Lemma receipts_plan id base receipts m plan rev changed :
  prepare_record_acceptance_receipts id base receipts m = Ok (plan, rev, changed) -> exists t new au,
  plan = PlanReplaceAnchor id new au /\ t ∈ tm_tasks m /\ anchor_change id base false t new au /\
  rev = an_revision new /\ same_authority (tk_anchor t) new /\ an_completion_policy new = EvidenceRequired /\
  an_acceptance_coverage new = merge_sort receipt_order receipts /\
  Forall (fun r => cov_task_id r = Some id /\ check_receipt new r = Ok tt) (an_acceptance_coverage new).
Proof.
  unfold prepare_record_acceptance_receipts. intros H. apply result_bind_Ok in H as (t & Ht & H).
  apply open_task_inv in Ht as (Ht & Hid & Hopen). apply result_bind_Ok in H as ([] & Hb & H).
  apply at_revision_inv in Hb. destruct (negb _) eqn:Ep; [done|]. apply negb_false_iff, bool_decide_eq_true in Ep.
  destruct (existsb _ receipts) eqn:Er; [done|].
  apply result_bind_Ok in H as (a3 & Ha3 & H). cbn zeta in H. apply result_bind_Ok in H as (new & Hnew & H).
  injection H as <- <- <-. pose proof Hnew as (_ & _ & Hv & _ & Hform)%stamp_inv. specialize (Hv eq_refl).
  apply normalize_anchor_inv in Ha3 as [-> Hc]. cbn in Hform, Hc.
  assert (Hsame : same_authority (tk_anchor t) (set_acceptance_coverage (merge_sort receipt_order receipts)
    (set_acceptance_coverage receipts (tk_anchor t)))) by by split_and!.
  exists t, new, false. split; [done|]. split; [done|]. split_and!.
  - eapply stamped_change; [done..| |exact Hnew]. tauto.
  - done.
  - by rewrite Hform.
  - by rewrite Hform.
  - by rewrite Hform.
  - rewrite Hform. cbn. apply Forall_forall. intros r Hr. split.
    + rewrite merge_sort_Permutation in Hr. apply not_true_iff_false in Er.
      destruct (decide (cov_task_id r = Some id)) as [|Hne]; [done|]. exfalso. apply Er. apply existsb_exists.
      exists r. split; [by apply list_elem_of_In|]. by rewrite bool_decide_eq_false_2.
    + rewrite Hv. assert (Hcr : forall l, check_all (check_receipt (set_acceptance_coverage (merge_sort receipt_order receipts)
        (set_acceptance_coverage receipts (tk_anchor t)))) l = Ok tt -> r ∈ l -> check_receipt (set_acceptance_coverage (merge_sort receipt_order receipts)
        (set_acceptance_coverage receipts (tk_anchor t))) r = Ok tt).
      { induction l as [|x l IH]; [by intros _ Hn%not_elem_of_nil|]. cbn [check_all]. intros H.
        apply result_bind_Ok in H as ([] & Hx & H). intros [->|Hn]%elem_of_cons; [done|by apply IH]. }
      exact (Hcr _ Hc Hr).
Qed.

(** ** Every step *)

Lemma requirements_plan id base entries m plan rev :
  prepare_replace_tool_requirements id base entries m = Ok (plan, rev) -> exists t req,
  plan = PlanReplaceToolRequirements id req /\ t ∈ tm_tasks m /\ tk_id t = id /\ is_open t = true.
Proof.
  unfold prepare_replace_tool_requirements. intros H. apply result_bind_Ok in H as (t & Ht & H).
  apply open_task_inv in Ht as (Ht & Hid & Hopen). do 3 apply result_bind_Ok in H as (? & _ & H).
  injection H as <- _. by eexists t, _.
Qed.

Lemma open_row_safe id f m t :
  keeps_id f -> (forall t, tk_status (f t) = tk_status t) -> (forall t, tk_goal (f t) = tk_goal t) ->
  t ∈ tm_tasks m -> tk_id t = id -> is_open t = true -> table_ok m -> safe_step m (update_task id f m).
Proof.
  intros Hid Hst Hgoal Ht Hi Ho H. apply update_safe; try done. intros x Hx Hxi Hs.
  pose proof (find_unique _ _ x (to_ids _ _ H) Hx Hxi). pose proof (find_unique _ _ t (to_ids _ _ H) Ht Hi).
  assert (x = t) as -> by congruence. unfold is_open in Ho. by rewrite bool_decide_eq_true_2 in Ho.
Qed.

Lemma prepare_activate_open id m plan : prepare_activate id m = Some plan ->
  plan = PlanActivate id (other_active id m) /\ exists t, t ∈ tm_tasks m /\ tk_id t = id /\ is_open t = true.
Proof.
  unfold prepare_activate. destruct (existsb _ _) eqn:E; [|done]. intros [= <-]. split; [done|].
  apply existsb_exists in E as (t & Ht & Hc). apply andb_true_iff in Hc as [Hi Ho]. exists t.
  split; [by apply list_elem_of_In|]. by apply has_id_true in Hi.
Qed.

Lemma activate_safe now id m t : table_ok m -> t ∈ tm_tasks m -> tk_id t = id -> is_open t = true ->
  safe_step m (commit now (PlanActivate id (other_active id m)) m).
Proof.
  intros H Ht Hi Ho. rewrite activate_switched by done. apply switch_safe; [done|]. intros ? [= <-]. by exists t.
Qed.

Lemma planned_safe now op m plan : table_ok m -> fresh_op op m -> planned op m = Some plan -> safe_step m (commit now plan m).
Proof.
  intros H Hf Hp. destruct op; cbn [planned] in Hp; try done.
  - destruct (prepare_create fresh goal m) as [[p i]|] eqn:E; [|done]. injection Hp as ->. unfold prepare_create in E.
    destruct (MAX_TASK_ANCHOR_TEXT_CHARS <? length goal) eqn:El; [done|]. apply Nat.ltb_ge in El.
    destruct (find _ _) as [t|] eqn:Ef.
    + injection E as <- _. apply find_some in Ef as [Ht Hc]. apply andb_true_iff in Hc as [_ Ho].
      apply list_elem_of_In in Ht. by apply (activate_safe now _ m t).
    + destruct (MAX_TASK_RECORDS <=? _) eqn:Er; [done|]. apply Nat.leb_gt in Er. injection E as <- _.
      by apply create_safe.
  - apply prepare_activate_open in Hp as (-> & t & Ht & Hi & Ho). by apply (activate_safe now id m t).
  - unfold prepare_suspend in Hp. destruct (tm_active m) as [id|] eqn:Ea; [|done]. injection Hp as <-.
    rewrite suspend_switched by done. by apply switch_safe.
  - destruct (prepare_complete prepared_at draft m) as [[p r]|] eqn:E; [|done]. injection Hp as ->.
    by eapply complete_safe.
  - destruct (prepare_replace_tool_requirements id base entries m) as [[p r]|] eqn:E; [|done]. injection Hp as ->.
    apply requirements_plan in E as (t & req & -> & Ht & Hi & Ho). by apply (open_row_safe id _ m t).
  - destruct (prepare_replace_anchor id base anchor m) as [[[p r] c]|] eqn:E; [|done]. injection Hp as ->.
    apply replace_anchor_plan in E as (t & new & au & -> & Ht & [] & _). by apply (open_row_safe id _ m t).
  - destruct (prepare_patch_anchor id base patch m) as [[[[p r] c] k]|] eqn:E; [|done]. injection Hp as ->.
    apply patch_anchor_plan in E as (t & new & au & -> & Ht & [] & _). by apply (open_row_safe id _ m t).
  - destruct (prepare_record_acceptance_receipts id base receipts m) as [[[p r] c]|] eqn:E; [|done]. injection Hp as ->.
    apply receipts_plan in E as (t & new & au & -> & Ht & [] & _). by apply (open_row_safe id _ m t).
Qed.

Lemma step_safe now op m : table_ok m -> fresh_op op m -> safe_step m (task_step m now op).
Proof.
  intros H Hf. pose proof (planned_safe now op m) as Hp.
  assert (Hgen : safe_step m match planned op m with Some plan => commit now plan m | None => m end).
  { destruct (planned op m) as [plan|]; [by apply Hp|by apply safe_refl]. }
  destruct op; try exact Hgen; cbn [task_step].
  - by apply on_active_safe.
  - unfold apply_user_directive. pose proof (on_active_safe (fun t =>
      set_resume (ex_on_user_turn message (tk_resume t))
        (set_current_directive None (set_turn_intent (take MAX_TASK_ANCHOR_TEXT_CHARS message) t))) m) as H1.
    specialize (H1 ltac:(done) ltac:(done) ltac:(done) H). change (safe_step m (on_user_turn message m)) in H1.
    cbn zeta. destruct (tm_active (on_user_turn message m)) as [id|] eqn:Ha1; [|exact H1].
    eapply safe_trans; [|exact H1|].
    + intros x. rewrite update_task_ids; [done|apply (to_ids _ _ (proj1 H1))|done].
    + apply update_safe; try done; [|apply H1]. intros t Ht Hi Hs.
      pose proof (active_open _ _ t (proj1 H1) Ha1 Ht Hi). congruence.
  - by apply on_active_safe.
  - unfold install_resume. apply update_safe; try done; try (intros t; by destruct (is_open t)).
    intros t _ _ Hs. unfold is_open. by rewrite Hs.
Qed.

Lemma task_run_safe ops : forall m, table_ok m -> fresh_run ops m -> table_ok (task_run ops m).
Proof.
  induction ops as [|[now op] ops IH]; intros m H Hf; [done|]. destruct Hf as [Hf Hr].
  change (task_run ((now, op) :: ops) m) with (task_run ops (task_step m now op)).
  apply IH; [by apply step_safe|done].
Qed.

(** C12. In every history of the task table (turns, directives, observations, installed
    execution states, and every prepared and committed creation, activation, suspension,
    completion and replacement, with fresh ids for new tasks): ids stay unique; at most
    one task is active, and it is the one the active slot names; every completed task
    has exactly one completion record, which names its anchor revision; at most 256
    tasks are resumable and at most 64 completed ones are kept; and no step changes a
    completed task: it stays as it was, or leaves the window with its record. *)
Theorem task_table_well_formed ops now op :
  fresh_run (ops ++ [(now, op)]) new_manager ->
  table_ok (task_run ops new_manager) /\
  safe_step (task_run ops new_manager) (task_step (task_run ops new_manager) now op).
Proof.
  intros Hf.
  assert (Happ : forall l m, fresh_run (l ++ [(now, op)]) m -> fresh_run l m /\ fresh_op op (task_run l m)).
  { intros l. induction l as [|[n o] l IH]; intros m.
    - change (fresh_op op m /\ True -> True /\ fresh_op op m). tauto.
    - change (fresh_op o m /\ fresh_run (l ++ [(now, op)]) (task_step m n o) ->
        (fresh_op o m /\ fresh_run l (task_step m n o)) /\ fresh_op op (task_run l (task_step m n o))).
      intros [H1 H2]. specialize (IH _ H2). tauto. }
  destruct (Happ ops new_manager Hf) as [Hops Hop].
  assert (H : table_ok (task_run ops new_manager)) by (apply task_run_safe; [apply new_manager_ok|done]).
  split; [done|by apply step_safe].
Qed.

(** ** Snapshots *)

Lemma snapshot_same t :
  hot_id (snapshot_row t) = hot_id t /\ hot_status (snapshot_row t) = hot_status t /\
  hot_order_key (snapshot_row t) = hot_order_key t.
Proof. done. Qed.

(** C13. The terminal snapshot that is written before a completion commits is the
    snapshot of the state after it: on a well-formed table, for the record that the
    completion prepared, the prospective snapshot exists exactly when a task is active,
    and equals the snapshot taken after committing the plan, window included. *)
Theorem prospective_snapshot_exact m now prepared_at draft :
  table_ok m ->
  (forall plan record, prepare_complete prepared_at draft m = Some (plan, record) ->
     prospective_terminal_snapshot m record = Some (from_manager (commit now plan m))) /\
  (prepare_complete prepared_at draft m = None <-> tm_active m = None) /\
  (forall record, prospective_terminal_snapshot m record = None <-> tm_active m = None).
Proof.
  intros H. assert (Hin : forall active, tm_active m = Some active -> existsb (has_id active) (tm_tasks m) = true).
  { intros active Ha. pose proof (to_active_registered _ _ H active Ha) as Hr. apply list_elem_of_fmap in Hr as (t & -> & Ht).
    apply existsb_exists. exists t. split; [by apply list_elem_of_In|]. by apply has_id_true. }
  split; [|split].
  - intros plan record Hp. unfold prepare_complete in Hp. unfold prospective_terminal_snapshot.
    destruct (tm_active m) as [active|] eqn:Ha; [|done]. injection Hp as <- Hr.
    rewrite (Hin active eq_refl). cbn [negb]. rewrite complete_flipped by done. rewrite <- Hr. clear Hr. cbn zeta.
    assert (Hflip : (fun t => if has_id active t then snapshot_row (set_status Completed t) else snapshot_row t) <$> tm_tasks m
      = snapshot_row <$> (completed_row active <$> tm_tasks m)).
    { rewrite <- list_fmap_compose. apply list_fmap_ext. intros i t _. cbn. unfold completed_row, at_id.
      by destruct (has_id active t). }
    rewrite Hflip, (window_fmap snapshot_row) by done. unfold enforce_hot_bounds, flipped, from_manager. cbn.
    by destruct (bounded_hot_pair_window _ _) as [[[rows completed] n] k].
  - unfold prepare_complete. destruct (tm_active m); by split.
  - intros record. unfold prospective_terminal_snapshot. destruct (tm_active m) as [active|] eqn:Ha; [|by split].
    rewrite (Hin active eq_refl). cbn [negb]. destruct (bounded_hot_pair_window _ _) as [[[? ?] ?] ?]. by split.
Qed.

Lemma row_snapshot t : row_of_snapshot (snapshot_row t) = t.
Proof. by destruct t. Qed.

(** C20. Restoring the snapshot of a well-formed table gives back its tasks, its active
    slot and its completion records, and evicts nothing; and restoring any snapshot
    whose rows are a well-formed table, however large its completed part, gives a table
    within bounds whose kept rows are the most recent of the snapshot's. *)
Theorem restore_roundtrip m m0 :
  (table_ok m -> restore (from_manager m) m0 =
     {| tm_tasks := tm_tasks m; tm_active := tm_active m; tm_completed := tm_completed m;
        tm_evicted_completed_task_records := tm_evicted_completed_task_records m0;
        tm_evicted_completion_records := tm_evicted_completion_records m0 |}) /\
  (forall bound, table_within bound m ->
     table_ok (restore (from_manager m) m0) /\ window_of (tm_tasks m) (tm_tasks (restore (from_manager m) m0))).
Proof.
  assert (Hrows : row_of_snapshot <$> (snapshot_row <$> tm_tasks m) = tm_tasks m).
  { rewrite <- list_fmap_compose. trans (id <$> tm_tasks m); [|apply list_fmap_id].
    apply list_fmap_ext. intros i t _. apply row_snapshot. }
  unfold restore, from_manager. cbn. rewrite Hrows. split.
  - intros H. unfold enforce_hot_bounds. cbn. rewrite window_within; [by rewrite !N.add_0_r|apply (to_ids _ _ H)|apply (to_completed _ _ H)|].
    intros r Hr. destruct (proj1 (to_paired _ _ H _) (list_elem_of_fmap_2 _ _ _ Hr)) as (t & Ht & <- & Hs).
    change (tk_id t) with (hot_id t). apply list_elem_of_fmap_2, elem_of_filter_b. split; [done|].
    by apply bool_decide_eq_true.
  - intros bound H. split.
    + apply (enforce_ok bound). by destruct m, H.
    + unfold enforce_hot_bounds. cbn. pose proof (window_spec (tm_tasks m) (tm_completed m) (to_ids _ _ H)) as Hw.
      destruct (bounded_hot_pair_window _ _) as [[[rows completed] n] k]. apply Hw.
Qed.

(** The compare-and-swap replacements of a task's anchor (a replacement, a patch, or
    acceptance receipts): one is accepted only for an open task at its current revision;
    it moves the revision by exactly one when the content changes and not at all
    otherwise (an exhausted revision refuses); it moves the verification revision
    exactly when it is a change of authority: the goal, the constraints, the policy or
    the criteria differ (however many fields changed), or a patch names the goal or the
    constraints. A replacement or a patch never mints an acceptance receipt: it keeps the
    receipts (in order) or, when the policy or the criteria change, drops them; receipts
    are recorded only by their own operation, on evidence-required tasks, each for this
    task, for a declared criterion and its domain, and at the anchor's verification
    revision. The commit then installs exactly the prepared anchor. *)
Theorem anchor_changes_exact op m plan now id base :
  table_ok m -> planned op m = Some plan ->
  (exists a, op = TaReplaceAnchor id base a) \/ (exists p, op = TaPatchAnchor id base p) \/
  (exists r, op = TaReceipts id base r) ->
  exists t new au,
    plan = PlanReplaceAnchor id new au /\ get_task id m = Some t /\
    anchor_change id base match op with TaPatchAnchor _ _ p => bool_decide (patch_kind p = Boundary) | _ => false end t new au /\
    match op with
    | TaReceipts _ _ r =>
        an_completion_policy new = EvidenceRequired /\ an_acceptance_coverage new = merge_sort receipt_order r /\
        Forall (fun r => cov_task_id r = Some id /\ check_receipt new r = Ok tt) (an_acceptance_coverage new)
    | _ => receipts_kept (tk_anchor t) new
    end /\
    (tk_anchor <$> get_task id (commit now plan m)) = Some new.
Proof.
  intros H Hp Hop.
  assert (Hcommit : forall t new au, t ∈ tm_tasks m -> tk_id t = id ->
    (tk_anchor <$> get_task id (commit now (PlanReplaceAnchor id new au) m)) = Some new).
  { intros t new au Ht Hi. cbn [commit]. rewrite update_task_map by apply (to_ids _ _ H).
    unfold get_task, set_tasks. cbn. rewrite (find_unique id _ (at_id id (replace_anchor new au) t)).
    - cbn. f_equal. unfold at_id. by rewrite (proj2 (has_id_true id t) Hi).
    - rewrite ids_map; [apply (to_ids _ _ H)|]. intros x. by apply at_id_id.
    - by apply list_elem_of_fmap_2.
    - by rewrite at_id_id. }
  assert (Hget : forall t, t ∈ tm_tasks m -> tk_id t = id -> get_task id m = Some t).
  { intros t Ht Hi. by apply find_unique; [apply (to_ids _ _ H)|..]. }
  destruct Hop as [[a ->]|[[p ->]|[r ->]]]; cbn [planned] in Hp.
  - destruct (prepare_replace_anchor id base a m) as [[[pl rv] c]|] eqn:E; [|done]. injection Hp as ->.
    apply replace_anchor_plan in E as (t & new & au & -> & Ht & Hac & _ & Hk & _). exists t, new, au.
    pose proof (ac_id _ _ _ _ _ _ Hac) as Hi. split_and!; auto. by apply (Hcommit t).
  - destruct (prepare_patch_anchor id base p m) as [[[[pl rv] c] k]|] eqn:E; [|done]. injection Hp as ->.
    apply patch_anchor_plan in E as (t & new & au & -> & Ht & Hac & _ & Hk & _). exists t, new, au.
    pose proof (ac_id _ _ _ _ _ _ Hac) as Hi. split_and!; auto. by apply (Hcommit t).
  - destruct (prepare_record_acceptance_receipts id base r m) as [[[pl rv] c]|] eqn:E; [|done]. injection Hp as ->.
    apply receipts_plan in E as (t & new & au & -> & Ht & Hac & _ & _ & Hpol & Hcov & Hall). exists t, new, au.
    pose proof (ac_id _ _ _ _ _ _ Hac) as Hi. split_and!; auto. by apply (Hcommit t).
Qed.
End tasks.
