(* ===== verification/TaskCompletion.v ===== *)
(** Completing a task (agent-runtime/task.rs): the one readiness decision that
    settlement, proposals and the durable commit share, the evidence stamped on the
    record, the checks on a model's proposal, and the validation of a checkpoint's task
    authority (agent-runtime/checkpoint.rs).

    The digest of the blockers' JSON ([blocker_fingerprint]) is not modelled; what the
    artifact store says of a reference is a parameter. *)

From S2P Require Import Prelude Text Digest Jcs Operation OutputBroker Capability Artifact ToolFacts Execution Observe TaskAnchor Task.

(** ** Blockers *)

Definition blocks_commit (b : CompletionBlocker) : bool :=
  match b with
  | NoActiveTask | TaskIdentityMismatch | TaskNotActive | TaskStateStale | BlockerRecoveryRequired
  | CancelCleanupPending | OperationInFlight | PendingToolWork => true
  | _ => false
  end.

Definition requires_operator_repair (b : CompletionBlocker) : bool :=
  match b with
  | NoActiveTask | TaskIdentityMismatch | TaskNotActive | TaskStateStale | VerificationBasisStale
  | BlockerOperatorClosureOnly | AcceptanceUndeclared | AcceptanceDeclarationStale _
  | RequiredContextUnavailable _ | BlockerRecoveryRequired | CancelCleanupPending | OperationInFlight
  | PendingToolWork => true
  | _ => false
  end.

Definition u32_text (n : N) : text := uint_text (N.to_uint n).

Definition blocker_summary (b : CompletionBlocker) : text :=
  match b with
  | NoActiveTask => txt "no active task"
  | TaskIdentityMismatch => txt "actor and task manager disagree on the active task"
  | TaskNotActive => txt "the selected task is not active"
  | TaskStateStale => txt "execution is bound to an older task-state revision"
  | VerificationBasisStale => txt "execution is bound to an older verification revision"
  | VerificationNotCurrent => txt "trusted verification is not current"
  | BlockerOperatorClosureOnly => txt "task policy permits durable closure only by an explicit operator"
  | AcceptanceUndeclared => txt "no acceptance criteria are declared"
  | AcceptanceDeclarationStale n =>
      u32_text n ++ txt " acceptance criterion/criteria are not bound to the current host declaration"
  | AcceptanceUncovered n => u32_text n ++ txt " acceptance criterion/criteria lack current coverage"
  | OpenLoops n => u32_text n ++ txt " explicit open loop(s) remain"
  | NextActionPending => txt "a concrete next action remains"
  | RequiredContextUnavailable n => u32_text n ++ txt " required context item(s) are unavailable"
  | ExecutionObligations n => u32_text n ++ txt " unresolved execution obligation(s) remain"
  | FailedCommands n => u32_text n ++ txt " unresolved failed command(s) remain"
  | BlockerRecoveryRequired => txt "runtime recovery is required"
  | CancelCleanupPending => txt "a cancelled operation is still unsettled"
  | OperationInFlight => txt "an operation is still in flight"
  | PendingToolWork => txt "tool work is still pending"
  end.

Definition remaining_units (b : CompletionBlocker) : N :=
  match b with
  | AcceptanceDeclarationStale n | AcceptanceUncovered n | OpenLoops n | RequiredContextUnavailable n
  | ExecutionObligations n | FailedCommands n => n
  | _ => 1%N
  end.

(** ** The decision *)

Inductive CompletionIntent : Type := ModelProposal | ExplicitOperator.

#[export] Instance CompletionIntent_eq_dec : EqDecision CompletionIntent.
Proof. solve_decision. Defined.

Record TaskStateBasis : Type := { tb_task_id : N; tb_anchor_revision : N }.

Record VerificationBasis : Type := {
  vb_task_id : N;
  vb_verification_revision : N;
  vb_directive_revision : N;
  vb_workspace_revision : N;
}.

Record CompletionSafety : Type := {
  cs_recovery_required : bool;
  cs_cancel_cleanup_pending : bool;
  cs_operation_in_flight : bool;
  cs_pending_tool_work : bool;
  cs_required_context_misses : N;
}.

Record UncoveredCriterion : Type := {
  uc_criterion_index : N;
  uc_coverage_domain : text;
  uc_criterion_text : text;
}.

Definition MAX_UNCOVERED_CRITERION_DETAILS : nat := 8.

Record CompletionReadiness : Type := {
  rd_intent : CompletionIntent;
  rd_task_state_basis : option TaskStateBasis;
  rd_verification_basis : option VerificationBasis;
  rd_task_state_current : bool;
  rd_commit_safe : bool;
  rd_verified_ready : bool;
  rd_blockers : list CompletionBlocker;
  rd_uncovered_criteria : list UncoveredCriterion;
}.

Definition allows_completion (r : CompletionReadiness) : bool :=
  rd_commit_safe r && (rd_verified_ready r || bool_decide (rd_intent r = ExplicitOperator)).

Definition settled_candidate (r : CompletionReadiness) : bool := rd_commit_safe r && rd_verified_ready r.

Definition applicable_blockers (r : CompletionReadiness) : list CompletionBlocker :=
  List.filter (fun b => bool_decide (rd_intent r = ModelProposal) || blocks_commit b) (rd_blockers r).

(** One blocker's share of the potential. *)
Definition add_potential (p : CompletionRepairPotential) (b : CompletionBlocker) : CompletionRepairPotential :=
  let units := N.max (remaining_units b) 1 in
  let operator := {| rp_operator := saturating_add32 (rp_operator p) units; rp_progress := rp_progress p;
                     rp_execution := rp_execution p; rp_proof := rp_proof p |} in
  if requires_operator_repair b then operator
  else
    match b with
    | OpenLoops _ | NextActionPending =>
        {| rp_operator := rp_operator p; rp_progress := saturating_add32 (rp_progress p) units;
           rp_execution := rp_execution p; rp_proof := rp_proof p |}
    | ExecutionObligations _ | FailedCommands _ =>
        {| rp_operator := rp_operator p; rp_progress := rp_progress p;
           rp_execution := saturating_add32 (rp_execution p) units; rp_proof := rp_proof p |}
    | VerificationNotCurrent | AcceptanceUncovered _ =>
        {| rp_operator := rp_operator p; rp_progress := rp_progress p; rp_execution := rp_execution p;
           rp_proof := saturating_add32 (rp_proof p) units |}
    | _ => operator
    end.

Definition repair_potential (r : CompletionReadiness) : CompletionRepairPotential :=
  foldl add_potential {| rp_operator := 0; rp_progress := 0; rp_execution := 0; rp_proof := 0 |}
    (applicable_blockers r).

Fixpoint join_reasons (reasons : list text) : text :=
  match reasons with
  | [] => []
  | [reason] => reason
  | reason :: reasons => reason ++ txt "; " ++ join_reasons reasons
  end.

Definition refusal (r : CompletionReadiness) : AgentError :=
  let reasons := join_reasons (blocker_summary <$> applicable_blockers r) in
  InvalidRequest (if bool_decide (reasons = []) then txt "completion is not currently authorized"
                  else txt "completion is not ready: " ++ reasons).

Definition disposition (r : CompletionReadiness) : option CompletionDisposition :=
  if negb (allows_completion r) then None
  else Some (if rd_verified_ready r then DispVerified else OperatorOverride).

Definition override_reasons (r : CompletionReadiness) : list CompletionBlocker :=
  if negb (bool_decide (disposition r = Some OperatorOverride)) then []
  else List.filter (fun b => negb (blocks_commit b)) (rd_blockers r).

(** [n.min(u32::MAX as usize) as u32]. *)
Definition to_u32 (n : nat) : N := N.min (N.of_nat n) u32_max.

(** The [push] of the derivation, and of the safety loop. *)
Definition push_blocker (blockers : list CompletionBlocker) (b : CompletionBlocker) : list CompletionBlocker :=
  if (length blockers <? MAX_COMPLETION_BLOCKERS) && negb (bool_decide (b ∈ blockers)) then blockers ++ [b]
  else blockers.

Definition push_if (condition : bool) (b : CompletionBlocker) (blockers : list CompletionBlocker) :
    list CompletionBlocker :=
  if condition then push_blocker blockers b else blockers.

Definition state_blocker (b : CompletionBlocker) : bool :=
  match b with NoActiveTask | TaskIdentityMismatch | TaskNotActive | TaskStateStale => true | _ => false end.

Definition finish_completion_readiness (intent : CompletionIntent) (basis : option TaskStateBasis)
    (verification : option VerificationBasis) (blockers : list CompletionBlocker) (safety : CompletionSafety)
    (uncovered : list UncoveredCriterion) : CompletionReadiness :=
  let blockers :=
    push_if (cs_pending_tool_work safety) PendingToolWork
      (push_if (cs_operation_in_flight safety) OperationInFlight
        (push_if (cs_cancel_cleanup_pending safety) CancelCleanupPending
          (push_if (cs_recovery_required safety) BlockerRecoveryRequired blockers))) in
  let blockers :=
    if (0 <? cs_required_context_misses safety)%N && (length blockers <? MAX_COMPLETION_BLOCKERS)
    then blockers ++ [RequiredContextUnavailable (cs_required_context_misses safety)] else blockers in
  let task_state_current := bool_decide (is_Some basis) && negb (existsb state_blocker blockers) in
  {| rd_intent := intent; rd_task_state_basis := basis; rd_verification_basis := verification;
     rd_task_state_current := task_state_current;
     rd_commit_safe := task_state_current && negb (existsb blocks_commit blockers);
     rd_verified_ready := negb (existsb (fun b => negb (blocks_commit b)) blockers);
     rd_blockers := blockers; rd_uncovered_criteria := uncovered |}.

(** ** Declarations and receipts *)

Definition text_lt (a b : text) : bool := text_le a b && negb (bool_decide (a = b)).

Definition declarations_are_canonical (ds : list VerificationCoverageDeclaration) : bool :=
  (length ds <=? MAX_VERIFICATION_COVERAGE_DECLARATIONS) && forallb declaration_is_valid ds
  && negb (any_adjacent (fun x y => negb (text_lt (vd_domain_id x) (vd_domain_id y))) ds).

(** [binary_search_by] on the domain: its interval halving. *)
Fixpoint binary_search (fuel low high : nat) (domain : text) (ds : list VerificationCoverageDeclaration) :
    option VerificationCoverageDeclaration :=
  match fuel with
  | O => None
  | S fuel =>
      if high <=? low then None
      else
        let middle := low + (high - low) / 2 in
        match ds !! middle with
        | None => None
        | Some d =>
            if bool_decide (vd_domain_id d = domain) then Some d
            else if text_le (vd_domain_id d) domain then binary_search fuel (S middle) high domain ds
            else binary_search fuel low middle domain ds
        end
  end.

Definition search_declaration (domain : text) (ds : list VerificationCoverageDeclaration) :
    option VerificationCoverageDeclaration := binary_search (S (length ds)) 0 (length ds) domain ds.

Definition criterion_matches_current_declaration (c : AcceptanceCriterion)
    (ds : list VerificationCoverageDeclaration) : bool :=
  if (ac_domain_declaration_revision c =? 0)%N || negb (is_content_digest (ac_domain_source_digest c)) then false
  else
    match search_declaration (ac_coverage_domain c) ds with
    | Some d => (vd_declaration_revision d =? ac_domain_declaration_revision c)%N
                && bool_decide (vd_source_digest d = ac_domain_source_digest c)
    | None => false
    end.

Section readiness.
Context `{JN : JsonNumber} {JU : JsonU64} {TC : TextCrypto} {UC : UuidCodec} {DV : Directives}.

Definition fact_of_basis (basis : VerificationBasis) (fact : VerificationFact) : bool :=
  (vf_anchor_revision fact =? vb_verification_revision basis)%N
  && (vf_directive_revision fact =? vb_directive_revision basis)%N
  && (vf_workspace_revision fact =? vb_workspace_revision basis)%N.

Definition current_trusted_verification (s : ExecutionState) (basis : VerificationBasis) : option VerificationFact :=
  if negb (vo_spec_revision (ex_verification s) =? vb_verification_revision basis)%N
     || negb (bool_decide (validity s = VCurrent))
  then None
  else
    match trusted_verification_identity s with
    | None => None
    | Some identity =>
        rfind (fun fact =>
          vf_ok fact && negb (bool_decide (vf_source_tool_name fact = []))
          && bool_decide (vf_verification_identity fact = identity) && fact_of_basis basis fact)
          (ex_verifications s)
    end.

Definition provenance_of_receipt (r : AcceptanceCoverage) (fact : VerificationFact) : bool :=
  match vf_recipe_provenance fact with
  | Some p =>
      bool_decide (vp_coverage_domain p = Some (cov_coverage_domain r))
      && bool_decide (vp_domain_declaration_revision p = Some (cov_domain_declaration_revision r))
      && bool_decide (vp_domain_source_digest p = cov_domain_source_digest r)
  | None => false
  end.

Definition acceptance_receipt_fact (s : ExecutionState) (task_id : N) (basis : VerificationBasis)
    (r : AcceptanceCoverage) : option VerificationFact :=
  if negb (vo_spec_revision (ex_verification s) =? vb_verification_revision basis)%N
     || negb (bool_decide (validity s = VCurrent))
     || negb (bool_decide (cov_task_id r = Some task_id))
     || negb (cov_verification_revision r =? vb_verification_revision basis)%N
     || negb (cov_directive_revision r =? vb_directive_revision basis)%N
     || negb (cov_workspace_revision r =? vb_workspace_revision basis)%N
     || (cov_domain_declaration_revision r =? 0)%N
     || negb (is_content_digest (cov_domain_source_digest r))
  then None
  else
    rfind (fun fact =>
      vf_ok fact && negb (bool_decide (vf_source_tool_name fact = [])) && fact_of_basis basis fact
      && bool_decide (vf_verification_identity fact = cov_verification_identity r)
      && provenance_of_receipt r fact) (ex_verifications s).

(** Whether a receipt covers the criterion at this index. *)
Definition receipt_covers (s : ExecutionState) (task_id : N) (basis : VerificationBasis)
    (declarations_current : bool) (ds : list VerificationCoverageDeclaration) (index : nat)
    (c : AcceptanceCriterion) (r : AcceptanceCoverage) : bool :=
  bool_decide (N.to_nat (cov_criterion_index r) = index)
  && bool_decide (cov_coverage_domain r = ac_coverage_domain c)
  && (cov_domain_declaration_revision r =? ac_domain_declaration_revision c)%N
  && bool_decide (cov_domain_source_digest r = ac_domain_source_digest c)
  && declarations_current && criterion_matches_current_declaration c ds
  && bool_decide (is_Some (acceptance_receipt_fact s task_id basis r)).

Definition bounded_preview (s : text) (max_chars : nat) : text :=
  if max_chars =? 0 then []
  else if length s <=? max_chars then s
  else take (max_chars - 1) s ++ [8230%N].

(** The criteria no receipt covers, with their indices. *)
Definition uncovered_criteria (s : ExecutionState) (task : TaskRecord) (basis : VerificationBasis)
    (declarations_current : bool) (ds : list VerificationCoverageDeclaration) : list (nat * AcceptanceCriterion) :=
  List.filter (fun p => negb (existsb (receipt_covers s (tk_id task) basis declarations_current ds p.1 p.2)
                                (an_acceptance_coverage (tk_anchor task))))
    (imap pair (an_acceptance_criteria (tk_anchor task))).

Definition uncovered_detail (p : nat * AcceptanceCriterion) : UncoveredCriterion :=
  {| uc_criterion_index := to_u32 p.1; uc_coverage_domain := ac_coverage_domain p.2;
     uc_criterion_text := bounded_preview (ac_description p.2) MAX_TASK_ANCHOR_ITEM_CHARS |}.

Definition verification_basis_of (task : TaskRecord) (s : ExecutionState) : VerificationBasis :=
  {| vb_task_id := tk_id task; vb_verification_revision := an_verification_revision (tk_anchor task);
     vb_directive_revision := ex_directive_revision s; vb_workspace_revision := ex_workspace_revision s |}.

(** The acceptance part: the blockers, and the uncovered criteria. *)
Definition acceptance_blockers (s : ExecutionState) (task : TaskRecord) (basis : VerificationBasis)
    (ds : list VerificationCoverageDeclaration) (blockers : list CompletionBlocker) :
    list CompletionBlocker * list UncoveredCriterion :=
  let a := tk_anchor task in
  let blockers := push_if (bool_decide (an_acceptance_criteria a = [])) AcceptanceUndeclared blockers in
  if bool_decide (an_completion_policy a = OperatorClosureOnly)
  then (push_blocker blockers BlockerOperatorClosureOnly, [])
  else if bool_decide (an_acceptance_criteria a = []) then (blockers, [])
  else
    let current := declarations_are_canonical ds in
    let stale := length (List.filter (fun c => negb current || negb (criterion_matches_current_declaration c ds))
                           (an_acceptance_criteria a)) in
    let uncovered := uncovered_criteria s task basis current ds in
    (push_if (0 <? length uncovered) (AcceptanceUncovered (to_u32 (length uncovered)))
       (push_if (0 <? stale) (AcceptanceDeclarationStale (to_u32 stale)) blockers),
     uncovered_detail <$> take MAX_UNCOVERED_CRITERION_DETAILS uncovered).

Definition derive_completion_readiness (intent : CompletionIntent) (actor_task_id : option N)
    (active_task : option TaskRecord) (execution : option ExecutionState) (safety : CompletionSafety)
    (ds : list VerificationCoverageDeclaration) : CompletionReadiness :=
  match active_task with
  | None => finish_completion_readiness intent None None (push_blocker [] NoActiveTask) safety []
  | Some task =>
      let basis := Some {| tb_task_id := tk_id task; tb_anchor_revision := an_revision (tk_anchor task) |} in
      let blockers :=
        push_if (negb (bool_decide (tk_status task = Active))) TaskNotActive
          (push_if (negb (bool_decide (actor_task_id = Some (tk_id task)))) TaskIdentityMismatch []) in
      match execution with
      | None => finish_completion_readiness intent basis None (push_blocker blockers TaskStateStale) safety []
      | Some s =>
          let a := tk_anchor task in
          let verification := verification_basis_of task s in
          let blockers := push_if (negb (ex_anchor_revision s =? an_revision a)%N) TaskStateStale blockers in
          let blockers := push_if (negb (vo_spec_revision (ex_verification s) =? an_verification_revision a)%N)
                            VerificationBasisStale blockers in
          let blockers := push_if (bool_decide (current_trusted_verification s verification = None))
                            VerificationNotCurrent blockers in
          let '(blockers, uncovered) := acceptance_blockers s task verification ds blockers in
          let blockers := push_if (negb (bool_decide (an_open_loops a = [])))
                            (OpenLoops (to_u32 (length (an_open_loops a)))) blockers in
          let blockers := push_if (0 <? open_obligation_count s)%N
                            (ExecutionObligations (N.min (open_obligation_count s) u32_max)) blockers in
          let blockers := push_if (0 <? unresolved_failed_command_count s)%N
                            (FailedCommands (N.min (unresolved_failed_command_count s) u32_max)) blockers in
          finish_completion_readiness intent basis (Some verification) blockers safety uncovered
      end
  end.

Definition completion_evidence (s : ExecutionState) (basis : option VerificationBasis) :
    CompletionVerificationStatus * list text :=
  match basis ≫= current_trusted_verification s with
  | Some fact => (CvCurrent, option_list (vf_evidence_ref fact))
  | None =>
      match basis ≫= fun basis => rfind (fun fact => negb (vf_ok fact) && fact_of_basis basis fact) (ex_verifications s) with
      | Some fact => (CvFailed, option_list (vf_evidence_ref fact))
      | None => (CvUnverified, [])
      end
  end.

(** The repair record's episode (execution/state.rs). *)
Definition matches_episode (r : CompletionRepairRecord) (d : CompletionReadiness) : bool :=
  bool_decide (rr_basis_verification_revision r = vb_verification_revision <$> rd_verification_basis d)
  && bool_decide (rr_basis_directive_revision r = vb_directive_revision <$> rd_verification_basis d).

Definition terminal_applies (r : CompletionRepairRecord) (d : CompletionReadiness) : bool :=
  rr_terminal r && matches_episode r d
  && match rr_best_potential r with
     | Some best => potential_le best (repair_potential d)
     | None => true
     end.

(** ** Proposals *)

Record CompletionProposal : Type := {
  cp_summary : text;
  cp_artifacts : list text;
}.

(** [workspace] is [artifact_relative_path_for_run], if there is a workspace. *)
Definition check_artifact (workspace : option (text -> N -> AgentResult unit)) (run_id : N) (artifact : text) :
    AgentResult unit :=
  let? locator := map_err InvalidRequest (parse_sealed artifact) in
  if MAX_COMPLETION_REF_CHARS <? length artifact
  then invalid_request (txt "completion artifact ref has " ++ usize_text (length artifact) ++ txt " chars, above the 256 cap")
  else
    match workspace with
    | None => invalid_request (txt "completion artifacts require a trusted artifact workspace")
    | Some relative_path =>
        let? _ := map_err InvalidRequest (ensure_run locator run_id) in
        relative_path artifact run_id
    end.

Definition validate_completion_proposal (p : CompletionProposal)
    (workspace : option (text -> N -> AgentResult unit)) (run_id : N) : AgentResult unit :=
  if bool_decide (trim (cp_summary p) = []) then invalid_request (txt "completion summary must not be empty")
  else if MAX_COMPLETION_SUMMARY_CHARS <? length (cp_summary p)
  then invalid_request (txt "completion summary has " ++ usize_text (length (cp_summary p)) ++ txt " chars, above the 2000 cap")
  else if MAX_COMPLETION_ARTIFACTS <? length (cp_artifacts p)
  then invalid_request (txt "completion proposal carries " ++ usize_text (length (cp_artifacts p))
                          ++ txt " artifacts, above the 32 cap")
  else check_all (check_artifact workspace run_id) (cp_artifacts p).

(** ** Checkpoint validation *)

Definition check_ref (what reference : text) : AgentResult unit :=
  if MAX_COMPLETION_REF_CHARS <? length reference
  then invalid_request (txt "completion " ++ what ++ txt " has " ++ usize_text (length reference)
                          ++ txt " chars, above the 256 cap")
  else Ok tt.

Definition validate_completion_record (r : CompletionRecord) : AgentResult unit :=
  let too_many (what : text) (n : nat) :=
    invalid_request (txt "completion record carries " ++ usize_text n ++ what) in
  let? _ := if MAX_COMPLETION_SUMMARY_CHARS <? length (cr_summary r)
            then invalid_request (txt "completion summary has " ++ usize_text (length (cr_summary r))
                                    ++ txt " chars, above the 2000 cap") else Ok tt in
  let? _ := if MAX_COMPLETION_ARTIFACTS <? length (cr_artifacts r)
            then too_many (txt " artifacts, above the 32 cap") (length (cr_artifacts r)) else Ok tt in
  let? _ := if MAX_COMPLETION_ARTIFACTS <? length (cr_verification_refs r)
            then too_many (txt " verification refs, above the 32 cap") (length (cr_verification_refs r)) else Ok tt in
  let? _ := if MAX_COMPLETION_BLOCKERS <? length (cr_unmet_reasons r)
            then too_many (txt " unmet reasons, above the 16 cap") (length (cr_unmet_reasons r)) else Ok tt in
  let? _ :=
    match cr_disposition r with
    | DispVerified =>
        if negb (bool_decide (cr_unmet_reasons r = [])) || negb (bool_decide (cr_verification_status r = CvCurrent))
        then invalid_request (txt "a verified completion record requires Current verification and no unmet reasons")
        else Ok tt
    | OperatorOverride =>
        if bool_decide (cr_unmet_reasons r = [])
        then invalid_request (txt "an operator override must retain at least one unmet reason") else Ok tt
    | LegacyUnclassified => Ok tt
    end in
  let? _ := check_all (check_ref (txt "ref"))
              (option_list (cr_final_output_ref r) ++ option_list (cr_final_output_digest r) ++ cr_verification_refs r) in
  check_all (check_ref (txt "artifact ref")) (cr_artifacts r).

End readiness.

Section checkpoint.
Context `{JT : JsonText} {JU : JsonU64} {TC : TextCrypto} {UC : UuidCodec} {DV : Directives}.

(** [format!("checkpoint ... {id} {what}: {error}")]. *)
Definition wrap_error (prefix : text) (e : AgentError) : AgentError :=
  InvalidRequest (prefix ++ txt ": " ++ display_error e).

Definition validate_row (t : TaskRecordSnapshot) : AgentResult unit :=
  let name := txt "checkpoint task " ++ uuid_to_string (ts_id t) in
  let? _ := map_err (wrap_error (name ++ txt " has invalid tool requirements"))
              (validate_tool_requirement_set (ts_tool_requirements t)) in
  let? _ := map_err (wrap_error (name ++ txt " has an invalid anchor")) (validate_anchor (ts_id t) (ts_anchor t)) in
  let? _ := map_err (fun e => InvalidRequest (name ++ txt " has an invalid resume point: " ++ e))
              (validate_execution_state (ts_resume t)) in
  if MAX_TASK_ANCHOR_TEXT_CHARS <? length (ts_turn_intent t)
  then invalid_request (txt "checkpoint directive preview exceeds its character limit")
  else
    match ts_current_directive t with
    | Some directive => directive_validate (ts_id t) directive
    | None => Ok tt
    end.

(** The loop over the rows, with the ids seen. *)
Fixpoint validate_rows (seen : list N) (rows : list TaskRecordSnapshot) : AgentResult unit :=
  match rows with
  | [] => Ok tt
  | t :: rows =>
      if bool_decide (ts_id t ∈ seen)
      then invalid_request (txt "checkpoint contains duplicate task id " ++ uuid_to_string (ts_id t))
      else let? _ := validate_row t in validate_rows (ts_id t :: seen) rows
  end.

(** The loop over the records; each takes its completed task out of [waiting]. The
    order [swap_remove] leaves does not matter: only which ids are left does, and the
    first of them in a message. *)
Fixpoint validate_records (waiting taken : list N) (records : list CompletionRecord) :
    AgentResult (list N) :=
  match records with
  | [] => Ok waiting
  | r :: records =>
      let? _ := map_err (wrap_error (txt "checkpoint has an invalid completion record"))
                  (validate_completion_record r) in
      match remove_first (fun id => (id =? cr_task_id r)%N) waiting with
      | Some (_, waiting) =>
          if bool_decide (cr_task_id r ∈ taken)
          then invalid_request (txt "checkpoint task " ++ uuid_to_string (cr_task_id r)
                 ++ txt " has more than one committed completion record")
          else validate_records waiting (cr_task_id r :: taken) records
      | None =>
          invalid_request (txt "checkpoint completion record names task " ++ uuid_to_string (cr_task_id r)
            ++ txt " which is not completed")
      end
  end.

Definition check_record_revision (records : list CompletionRecord) (t : TaskRecordSnapshot) : AgentResult unit :=
  match find (record_of (ts_id t)) records with
  | Some r =>
      if negb (cr_anchor_revision r =? an_revision (ts_anchor t))%N
      then invalid_request (txt "checkpoint completion record for task " ++ uuid_to_string (ts_id t)
             ++ txt " names anchor revision " ++ uint_text (N.to_uint (cr_anchor_revision r))
             ++ txt ", but the task anchor is at " ++ uint_text (N.to_uint (an_revision (ts_anchor t))))
      else Ok tt
  | None => Ok tt
  end.

(** The task part of [RuntimeCheckpoint::validate]: what it checks of the task
    snapshot, the actor's current task and the terminal flag. *)
Definition validate_tasks (terminal_commit : bool) (current_task_id : option N) (s : TaskManagerSnapshot) :
    AgentResult unit :=
  if negb (bool_decide (sn_active s = current_task_id))
  then invalid_request (txt "checkpoint task authority is inconsistent: tasks.active and current_task_id differ")
  else if terminal_commit
          && (bool_decide (is_Some current_task_id) || bool_decide (is_Some (sn_active s))
              || bool_decide (sn_completed s = []))
  then invalid_request (txt "terminal checkpoint must have no active/current task and at least one completion record")
  else
    let? _ := validate_rows [] (sn_tasks s) in
    let active_records := ts_id <$> List.filter (fun t => bool_decide (ts_status t = Active)) (sn_tasks s) in
    let? _ :=
      match current_task_id with
      | Some current =>
          if negb (bool_decide (active_records = [current]))
          then invalid_request (txt "checkpoint current task " ++ uuid_to_string current
                 ++ txt " must be the only active task record")
          else Ok tt
      | None =>
          if negb (bool_decide (active_records = []))
          then invalid_request (txt "checkpoint has an active task record but no current task")
          else Ok tt
      end in
    let? left_over := validate_records (hot_id <$> completed_rows (sn_tasks s)) [] (sn_completed s) in
    match left_over with
    | task_id :: _ =>
        invalid_request (txt "checkpoint completed task " ++ uuid_to_string task_id
          ++ txt " has no committed completion record")
    | [] => check_all (check_record_revision (sn_completed s)) (sn_tasks s)
    end.

End checkpoint.
