(* ===== verification/CompletionTheorems.v ===== *)
(** The completion decision is exact, its blockers are never dropped by the cap, and the
    record it leads to passes the checkpoint's own checks; the task part of a checkpoint
    is accepted exactly when it is well-formed. *)

From stdpp Require Import sorting.
From S2P Require Import Prelude Text Digest Jcs Operation OutputBroker Capability Artifact ToolFacts Execution Observe.
From S2P Require Import ObserveFacts ExecutionTheorems TaskAnchor Task TaskTheorems TaskCompletion.

(** ** Pushing blockers *)

(** The blockers pushed under their conditions, in order. *)
Definition pushed (rows : list (bool * CompletionBlocker)) (blockers : list CompletionBlocker) :
    list CompletionBlocker :=
  foldl (fun acc row => push_if row.1 row.2 acc) blockers rows.

Definition holding (rows : list (bool * CompletionBlocker)) : list CompletionBlocker := snd <$> List.filter fst rows.

Lemma holding_elem rows b : b ∈ holding rows <-> (true, b) ∈ rows.
Proof.
  unfold holding. rewrite list_elem_of_fmap. split.
  - intros ([c x] & -> & H). apply elem_of_filter_b in H as [H Hc]. cbn in Hc. by rewrite <- Hc.
  - intros H. exists (true, b). split; [done|]. by apply elem_of_filter_b.
Qed.

Lemma holding_cons c b rows : holding ((c, b) :: rows) = (if c then [b] else []) ++ holding rows.
Proof. by destruct c. Qed.

Lemma holding_app rows rows' : holding (rows ++ rows') = holding rows ++ holding rows'.
Proof. unfold holding. by rewrite List.filter_app, fmap_app. Qed.

Lemma length_holding rows : length (holding rows) <= length rows.
Proof. unfold holding. rewrite length_fmap. apply filter_length_le. Qed.

Lemma pushed_exact rows : forall blockers,
  NoDup (blockers ++ (snd <$> rows)) -> length blockers + length (holding rows) <= MAX_COMPLETION_BLOCKERS ->
  pushed rows blockers = blockers ++ holding rows.
Proof.
  induction rows as [|[c b] rows IH]; intros blockers Hnd Hlen.
  { unfold holding. cbn. by rewrite app_nil_r. }
  rewrite holding_cons, length_app in Hlen. cbn in Hnd.
  change (pushed ((c, b) :: rows) blockers) with (pushed rows (push_if c b blockers)).
  rewrite holding_cons. unfold push_if. destruct c; cbn [length] in Hlen.
  - assert (Hb : b ∉ blockers).
    { apply NoDup_app in Hnd as (_ & Hn & _). intros Hin. apply (Hn b Hin). by left. }
    unfold push_blocker. rewrite (proj2 (Nat.ltb_lt _ _)) by lia.
    rewrite bool_decide_eq_false_2 by done. cbn [negb andb]. rewrite IH.
    + by rewrite <- app_assoc.
    + by rewrite <- app_assoc.
    + rewrite length_app. cbn. lia.
  - rewrite IH; [done| |lia]. apply NoDup_app in Hnd as (H1 & H2 & H3). apply NoDup_cons in H3 as [_ H3].
    apply NoDup_app. split_and!; [done| |done]. intros x Hx Hx'. apply (H2 x Hx). by right.
Qed.

Lemma pushed_app rows rows' blockers : pushed (rows ++ rows') blockers = pushed rows' (pushed rows blockers).
Proof. unfold pushed. apply foldl_app. Qed.

Section readiness.
Context `{JN : JsonNumber} {JU : JsonU64} {TC : TextCrypto} {UC : UuidCodec} {DV : Directives}.

(** ** The conditions of a completion *)

Definition stale_criteria (task : TaskRecord) (ds : list VerificationCoverageDeclaration) : nat :=
  length (List.filter (fun c => negb (declarations_are_canonical ds) || negb (criterion_matches_current_declaration c ds))
            (an_acceptance_criteria (tk_anchor task))).

Definition evidence_part (task : TaskRecord) : bool :=
  negb (bool_decide (an_completion_policy (tk_anchor task) = OperatorClosureOnly))
  && negb (bool_decide (an_acceptance_criteria (tk_anchor task) = [])).

(** Each blocker with the condition it stands for, in the order they are found. *)
Definition conditions (actor_task_id : option N) (task : TaskRecord) (s : ExecutionState) (safety : CompletionSafety)
    (ds : list VerificationCoverageDeclaration) : list (bool * CompletionBlocker) :=
  let a := tk_anchor task in
  let basis := verification_basis_of task s in
  let uncovered := uncovered_criteria s task basis (declarations_are_canonical ds) ds in
  [ (negb (bool_decide (actor_task_id = Some (tk_id task))), TaskIdentityMismatch);
    (negb (bool_decide (tk_status task = Active)), TaskNotActive);
    (negb (ex_anchor_revision s =? an_revision a)%N, TaskStateStale);
    (negb (vo_spec_revision (ex_verification s) =? an_verification_revision a)%N, VerificationBasisStale);
    (bool_decide (current_trusted_verification s basis = None), VerificationNotCurrent);
    (bool_decide (an_acceptance_criteria a = []), AcceptanceUndeclared);
    (bool_decide (an_completion_policy a = OperatorClosureOnly), BlockerOperatorClosureOnly);
    (evidence_part task && (0 <? stale_criteria task ds), AcceptanceDeclarationStale (to_u32 (stale_criteria task ds)));
    (evidence_part task && (0 <? length uncovered), AcceptanceUncovered (to_u32 (length uncovered)));
    (negb (bool_decide (an_open_loops a = [])), OpenLoops (to_u32 (length (an_open_loops a))));
    ((0 <? open_obligation_count s)%N, ExecutionObligations (N.min (open_obligation_count s) u32_max));
    ((0 <? unresolved_failed_command_count s)%N, FailedCommands (N.min (unresolved_failed_command_count s) u32_max));
    (cs_recovery_required safety, BlockerRecoveryRequired);
    (cs_cancel_cleanup_pending safety, CancelCleanupPending);
    (cs_operation_in_flight safety, OperationInFlight);
    (cs_pending_tool_work safety, PendingToolWork);
    ((0 <? cs_required_context_misses safety)%N, RequiredContextUnavailable (cs_required_context_misses safety)) ].

Lemma conditions_distinct actor task s safety ds : NoDup (snd <$> conditions actor task s safety ds).
Proof.
  unfold conditions. cbn [fmap list_fmap snd].
  repeat (apply NoDup_cons; split;
    [intros H; repeat (apply elem_of_cons in H as [H|H]; [discriminate H|]); by apply not_elem_of_nil in H|]).
  constructor.
Qed.

Lemma conditions_fit actor task s safety ds :
  length (holding (conditions actor task s safety ds)) <= MAX_COMPLETION_BLOCKERS.
Proof.
  assert (Hdrop : forall rows1 b rows2, length rows1 + length rows2 <= MAX_COMPLETION_BLOCKERS ->
    length (holding (rows1 ++ (false, b) :: rows2)) <= MAX_COMPLETION_BLOCKERS).
  { intros rows1 b rows2 Hle. unfold holding. rewrite length_fmap, List.filter_app, length_app. cbn [List.filter fst].
    pose proof (filter_length_le fst rows1). pose proof (filter_length_le fst rows2). lia. }
  unfold conditions, evidence_part.
  destruct (bool_decide (an_completion_policy (tk_anchor task) = OperatorClosureOnly)); cbn [negb andb].
  - match goal with |- length (holding (?r1 :: ?r2 :: ?r3 :: ?r4 :: ?r5 :: ?r6 :: ?r7 :: (false, ?b) :: ?rest)) <= _ =>
      apply (Hdrop [r1; r2; r3; r4; r5; r6; r7] b rest) end. by apply Nat.leb_le.
  - match goal with |- length (holding (?r1 :: ?r2 :: ?r3 :: ?r4 :: ?r5 :: ?r6 :: (false, ?b) :: ?rest)) <= _ =>
      apply (Hdrop [r1; r2; r3; r4; r5; r6] b rest) end. by apply Nat.leb_le.
Qed.

(** What the last step adds to the blockers it is given. *)
Definition safety_rows (safety : CompletionSafety) : list (bool * CompletionBlocker) :=
  [ (cs_recovery_required safety, BlockerRecoveryRequired);
    (cs_cancel_cleanup_pending safety, CancelCleanupPending);
    (cs_operation_in_flight safety, OperationInFlight);
    (cs_pending_tool_work safety, PendingToolWork) ].

Lemma acceptance_pushed s task basis ds blockers :
  (acceptance_blockers s task basis ds blockers).1 =
  pushed [ (bool_decide (an_acceptance_criteria (tk_anchor task) = []), AcceptanceUndeclared);
           (bool_decide (an_completion_policy (tk_anchor task) = OperatorClosureOnly), BlockerOperatorClosureOnly);
           (evidence_part task && (0 <? stale_criteria task ds), AcceptanceDeclarationStale (to_u32 (stale_criteria task ds)));
           (evidence_part task && (0 <? length (uncovered_criteria s task basis (declarations_are_canonical ds) ds)),
            AcceptanceUncovered (to_u32 (length (uncovered_criteria s task basis (declarations_are_canonical ds) ds)))) ] blockers.
Proof.
  unfold acceptance_blockers, evidence_part, stale_criteria. cbn zeta. cbn [pushed foldl fst snd].
  destruct (bool_decide (an_completion_policy _ = _)), (bool_decide (an_acceptance_criteria _ = [])); reflexivity.
Qed.

Lemma readiness_blockers intent actor task s safety ds :
  rd_blockers (derive_completion_readiness intent actor (Some task) (Some s) safety ds) =
  holding (conditions actor task s safety ds).
Proof.
  pose proof (pushed_exact (conditions actor task s safety ds) [] (conditions_distinct actor task s safety ds)
    (conditions_fit actor task s safety ds)) as Hp. rewrite app_nil_l in Hp. rewrite <- Hp.
  unfold derive_completion_readiness.
  pose proof (acceptance_pushed s task (verification_basis_of task s) ds) as Ha.
  set (b5 := push_if (bool_decide (current_trusted_verification s (verification_basis_of task s) = None))
    VerificationNotCurrent _).
  specialize (Ha b5). destruct (acceptance_blockers s task (verification_basis_of task s) ds b5) as [b9 unc].
  cbn [fst] in Ha. unfold finish_completion_readiness. cbn [rd_blockers].
  set (prefix := removelast (conditions actor task s safety ds)).
  assert (Hprefix : push_if (cs_pending_tool_work safety) PendingToolWork
      (push_if (cs_operation_in_flight safety) OperationInFlight
        (push_if (cs_cancel_cleanup_pending safety) CancelCleanupPending
          (push_if (cs_recovery_required safety) BlockerRecoveryRequired
            (push_if (0 <? unresolved_failed_command_count s)%N
              (FailedCommands (N.min (unresolved_failed_command_count s) u32_max))
              (push_if (0 <? open_obligation_count s)%N
                (ExecutionObligations (N.min (open_obligation_count s) u32_max))
                (push_if (negb (bool_decide (an_open_loops (tk_anchor task) = [])))
                  (OpenLoops (to_u32 (length (an_open_loops (tk_anchor task))))) b9)))))) = pushed prefix []).
  { rewrite Ha. reflexivity. }
  rewrite Hprefix.
  assert (Hlast : conditions actor task s safety ds = prefix ++
    [((0 <? cs_required_context_misses safety)%N, RequiredContextUnavailable (cs_required_context_misses safety))]) by done.
  clearbody prefix. rewrite Hlast, pushed_app. cbn [pushed foldl fst snd]. unfold push_if.
  destruct (0 <? cs_required_context_misses safety)%N eqn:Ec; cbn [andb]; [|done]. unfold push_blocker.
  pose proof (conditions_distinct actor task s safety ds) as Hnd. rewrite Hlast, fmap_app in Hnd.
  apply NoDup_app in Hnd as (Hnd1 & Hnd2 & _).
  pose proof (conditions_fit actor task s safety ds) as Hfit. rewrite Hlast in Hfit.
  rewrite holding_app, holding_cons, !length_app in Hfit. cbn [length] in Hfit.
  rewrite (pushed_exact prefix []) by (try exact Hnd1; cbn; lia). rewrite app_nil_l.
  rewrite bool_decide_eq_false_2; [by rewrite andb_true_r|].
  intros Hin. apply holding_elem in Hin. apply (Hnd2 (RequiredContextUnavailable (cs_required_context_misses safety))).
  - by apply (list_elem_of_fmap_2 snd) in Hin.
  - by left.
Qed.

(** ** What a completion needs *)

(** The state an explicit operator needs too. *)
Record commit_conditions (actor_task_id : option N) (task : TaskRecord) (s : ExecutionState)
    (safety : CompletionSafety) : Prop := {
  cc_task : actor_task_id = Some (tk_id task);
  cc_active : tk_status task = Active;
  cc_current : ex_anchor_revision s = an_revision (tk_anchor task);
  cc_settled : cs_recovery_required safety = false /\ cs_cancel_cleanup_pending safety = false /\
               cs_operation_in_flight safety = false /\ cs_pending_tool_work safety = false;
}.

(** The proof a model needs. *)
Record proof_conditions (task : TaskRecord) (s : ExecutionState) (safety : CompletionSafety)
    (ds : list VerificationCoverageDeclaration) : Prop := {
  pc_basis : vo_spec_revision (ex_verification s) = an_verification_revision (tk_anchor task);
  pc_trusted : is_Some (current_trusted_verification s (verification_basis_of task s));
  pc_policy : an_completion_policy (tk_anchor task) = EvidenceRequired;
  pc_declared : an_acceptance_criteria (tk_anchor task) <> [];
  pc_declarations : declarations_are_canonical ds = true;
  pc_criteria : forall index c, an_acceptance_criteria (tk_anchor task) !! index = Some c ->
    criterion_matches_current_declaration c ds = true /\
    exists r, r ∈ an_acceptance_coverage (tk_anchor task) /\
      receipt_covers s (tk_id task) (verification_basis_of task s) true ds index c r = true;
  pc_loops : an_open_loops (tk_anchor task) = [];
  pc_obligations : open_obligation_count s = 0%N;
  pc_failures : unresolved_failed_command_count s = 0%N;
  pc_context : cs_required_context_misses safety = 0%N;
}.

Lemma not_blocked (p : CompletionBlocker -> bool) rows :
  existsb p (holding rows) = false <-> Forall (fun row => row.1 && p row.2 = false) rows.
Proof.
  induction rows as [|[c b] rows IH]; [by split|]. rewrite holding_cons, Forall_cons, existsb_app, orb_false_iff, IH.
  destruct c; cbn; rewrite ?orb_false_r; tauto.
Qed.

Lemma nonempty_length {A} (l : list A) : (0 <? length l) = false <-> l = [].
Proof. destruct l; by split. Qed.

Lemma count_zero (n : N) : (0 <? n)%N = false <-> n = 0%N.
Proof. rewrite N.ltb_ge. lia. Qed.

Lemma filter_nil_iff {A} (f : A -> bool) l : List.filter f l = [] <-> forall x, x ∈ l -> f x = false.
Proof.
  split; [|apply filter_none]. intros H x Hx. destruct (f x) eqn:E; [|done].
  assert (Hin : x ∈ List.filter f l) by by apply elem_of_filter_b. rewrite H in Hin. by apply not_elem_of_nil in Hin.
Qed.

Lemma uncovered_none s task basis current ds :
  uncovered_criteria s task basis current ds = [] <->
  forall index c, an_acceptance_criteria (tk_anchor task) !! index = Some c ->
    exists r, r ∈ an_acceptance_coverage (tk_anchor task) /\ receipt_covers s (tk_id task) basis current ds index c r = true.
Proof.
  unfold uncovered_criteria. rewrite filter_nil_iff. split.
  - intros H index c Hc. specialize (H (index, c)).
    assert (Hin : (index, c) ∈ imap pair (an_acceptance_criteria (tk_anchor task))).
    { apply elem_of_lookup_imap. by exists index, c. }
    specialize (H Hin). cbn in H. apply negb_false_iff in H. apply existsb_exists in H as (r & Hr & Hc2).
    exists r. split; [by apply list_elem_of_In|done].
  - intros H [index c] Hin. apply elem_of_lookup_imap in Hin as (i & x & [= -> ->] & Hc).
    destruct (H i x Hc) as (r & Hr & Hc2). cbn. apply negb_false_iff, existsb_exists. exists r.
    split; [by apply list_elem_of_In|done].
Qed.

Lemma stale_none task ds :
  stale_criteria task ds = 0 <->
  forall c, c ∈ an_acceptance_criteria (tk_anchor task) ->
    declarations_are_canonical ds = true /\ criterion_matches_current_declaration c ds = true.
Proof.
  unfold stale_criteria. rewrite length_zero_iff_nil, filter_nil_iff.
  split; intros H c Hc.
  - by rewrite <- !negb_false_iff, <- orb_false_iff, H.
  - rewrite orb_false_iff, !negb_false_iff. by apply H.
Qed.

Lemma is_some_decide {A} (o : option A) (D : Decision (o = None)) : @bool_decide (o = None) D = false <-> is_Some o.
Proof. rewrite bool_decide_eq_false. destruct o; split; [by eexists|done|done|by intros [? ?]]. Qed.

Lemma policy_decide (p : TaskCompletionPolicy) : bool_decide (p = OperatorClosureOnly) = false <-> p = EvidenceRequired.
Proof. by destruct p. Qed.

Lemma verified_conditions actor task s safety ds :
  existsb (fun b => negb (blocks_commit b)) (holding (conditions actor task s safety ds)) = false <->
  proof_conditions task s safety ds.
Proof.
  rewrite not_blocked. unfold conditions. cbn zeta. rewrite !Forall_cons, Forall_nil.
  cbn [fst snd blocks_commit negb]. rewrite !andb_false_r, !andb_true_r.
  rewrite !(negb_decide), !negb_false_iff, !N.eqb_eq, !count_zero, is_some_decide, policy_decide.
  rewrite bool_decide_eq_false. split.
  - intros (_ & _ & _ & Hb & Ht & Hd & Hp & Hs & Hu & Hl & Ho & Hf & _ & _ & _ & _ & Hc & _).
    assert (He : evidence_part task = true).
    { unfold evidence_part. rewrite Hp. by rewrite !bool_decide_eq_false_2 by done. }
    rewrite He in Hs, Hu. cbn [andb] in Hs, Hu. apply nonempty_length in Hu. apply Nat.ltb_ge in Hs.
    assert (Hs0 : stale_criteria task ds = 0) by lia. rewrite stale_none in Hs0.
    assert (Hcan : declarations_are_canonical ds = true).
    { destruct (an_acceptance_criteria (tk_anchor task)) as [|c l]; [done|]. apply (Hs0 c). by left. }
    rewrite uncovered_none, Hcan in Hu. split; try done. intros index c Hic. split; [|by apply Hu].
    apply (Hs0 c). by eapply list_elem_of_lookup_2.
  - intros []. assert (Hs0 : stale_criteria task ds = 0).
    { apply stale_none. intros c (i & Hi)%list_elem_of_lookup. split; [done|]. by apply (pc_criteria0 i). }
    assert (Hu : uncovered_criteria s task (verification_basis_of task s) (declarations_are_canonical ds) ds = []).
    { apply uncovered_none. intros i c Hi. rewrite pc_declarations0. by apply pc_criteria0. }
    rewrite Hs0, Hu. cbn [length Nat.ltb Nat.leb]. rewrite !andb_false_r. by split_and!.
Qed.

Lemma commit_safe_conditions actor task s safety ds :
  existsb blocks_commit (holding (conditions actor task s safety ds)) = false <->
  commit_conditions actor task s safety.
Proof.
  rewrite not_blocked. unfold conditions. cbn zeta. rewrite !Forall_cons, Forall_nil.
  cbn [fst snd blocks_commit]. rewrite !andb_false_r, !andb_true_r.
  rewrite !(negb_decide), !negb_false_iff, !N.eqb_eq. split.
  - intros (H1 & H2 & H3 & _ & _ & _ & _ & _ & _ & _ & _ & _ & H4 & H5 & H6 & H7 & _). by split.
  - intros [H1 H2 H3 (H4 & H5 & H6 & H7)]. by split_and!.
Qed.

Lemma existsb_sub {A} (p q : A -> bool) l : (forall x, p x = true -> q x = true) -> existsb q l = false -> existsb p l = false.
Proof.
  intros Hpq. induction l as [|x l IH]; [done|]. cbn. rewrite !orb_false_iff. intros [H1 H2]. split; [|by apply IH].
  destruct (p x) eqn:E; [|done]. apply Hpq in E. congruence.
Qed.

Lemma readiness_parts intent actor task s safety ds :
  let r := derive_completion_readiness intent actor (Some task) (Some s) safety ds in
  rd_intent r = intent /\ rd_verification_basis r = Some (verification_basis_of task s) /\
  rd_verified_ready r = negb (existsb (fun b => negb (blocks_commit b)) (rd_blockers r)) /\
  rd_commit_safe r = negb (existsb blocks_commit (rd_blockers r)).
Proof.
  cbn zeta. unfold derive_completion_readiness. destruct (acceptance_blockers _ _ _ _ _) as [b u].
  unfold finish_completion_readiness. cbn zeta. cbn [rd_intent rd_verification_basis rd_verified_ready rd_commit_safe rd_blockers].
  split_and!; try done. match goal with |- context [existsb state_blocker ?l] => generalize l as bs end. intros bs.
  rewrite (bool_decide_eq_true_2 (is_Some _)) by by eexists. cbn [andb].
  destruct (existsb blocks_commit bs) eqn:E; cbn [negb]; [by rewrite andb_false_r|].
  rewrite (existsb_sub state_blocker blocks_commit bs); [done| |done]. by intros [].
Qed.

(** C16. The completion decision that settlement, a model's proposal and the durable
    commit share is exact. Its blockers are the conditions that fail, all of them: the
    cap of sixteen never drops one. An explicit operator may complete exactly when the
    actor and the table agree on the task, it is active, the execution is at its anchor
    revision and no work is unsettled. A model's proposal may complete exactly when, in
    addition, the task requires evidence and declares criteria, every criterion is bound
    to the host's current declaration and covered by a receipt whose pass is in the
    ledger on the present basis, the trusted verification is current, no loop, obligation
    or failed command is open, and no required context is missing. *)
Theorem completion_readiness_exact intent actor task s safety ds :
  let r := derive_completion_readiness intent actor (Some task) (Some s) safety ds in
  rd_blockers r = holding (conditions actor task s safety ds) /\
  (settled_candidate r = true <-> commit_conditions actor task s safety /\ proof_conditions task s safety ds) /\
  (allows_completion r = true <->
     commit_conditions actor task s safety /\ (intent = ExplicitOperator \/ proof_conditions task s safety ds)).
Proof.
  cbn zeta. destruct (readiness_parts intent actor task s safety ds) as (Hi & _ & Hv & Hc). cbn zeta in *.
  unfold settled_candidate, allows_completion. rewrite Hi, Hv, Hc, readiness_blockers.
  split; [done|]. rewrite !andb_true_iff, orb_true_iff, !negb_true_iff, bool_decide_eq_true.
  rewrite verified_conditions, commit_safe_conditions. tauto.
Qed.

(** No task, or no execution state of it: nothing completes. *)
Lemma incomplete_context intent actor o s safety ds :
  allows_completion (derive_completion_readiness intent actor None s safety ds) = false /\
  allows_completion (derive_completion_readiness intent actor o None safety ds) = false.
Proof.
  assert (Hstate : forall basis v blockers unc b, state_blocker b = true -> b ∈ blockers ->
    allows_completion (finish_completion_readiness intent basis v blockers safety unc) = false).
  { intros basis v blockers unc b Hb Hin. unfold allows_completion, finish_completion_readiness. cbn zeta.
    cbn [rd_commit_safe rd_verified_ready rd_intent].
    assert (Hpush : forall c x l, b ∈ l -> b ∈ push_if c x l).
    { intros c x l Hl. unfold push_if, push_blocker. destruct c; [|done]. destruct (_ && _); [|done].
      apply elem_of_app. by left. }
    match goal with |- context [existsb state_blocker ?l] => assert (Hl : existsb state_blocker l = true) end.
    { apply existsb_exists. exists b. split; [|done]. apply list_elem_of_In.
      destruct (_ && _); [apply elem_of_app; left|]; by repeat apply Hpush. }
    rewrite Hl. by rewrite andb_false_r. }
  split.
  - by apply (Hstate _ _ _ _ NoActiveTask); [|left].
  - destruct o as [task|]; [|by apply (Hstate _ _ _ _ NoActiveTask); [|left]].
    unfold derive_completion_readiness. cbn zeta. apply (Hstate _ _ _ _ TaskStateStale); [done|]. unfold push_if, push_blocker.
    destruct (negb (bool_decide (actor = _))), (negb (bool_decide (tk_status task = Active))); cbn;
      first [by left|right; by left|right; right; by left].
Qed.

Lemma rfind_none_of {A} (g : A -> bool) l : rfind g l = None -> forall x, x ∈ l -> g x = false.
Proof. unfold rfind. intros H x Hx. apply (find_none _ _ H). apply list_elem_of_In. by rewrite elem_of_reverse. Qed.

Lemma refs_bounded (f : VerificationFact) s :
  Forall (fun f => from_option over_item false (vf_evidence_ref f) = false) (ex_verifications s) ->
  f ∈ ex_verifications s -> Forall (fun t => length t <= MAX_COMPLETION_REF_CHARS) (option_list (vf_evidence_ref f)).
Proof.
  intros H Hf. rewrite Forall_forall in H. specialize (H f Hf). destruct (vf_evidence_ref f) as [t|]; cbn; [|constructor].
  constructor; [|constructor]. cbn in H. unfold over_item, over in H. apply Nat.ltb_ge in H. etrans; [exact H|].
  apply Nat.leb_le. by vm_compute.
Qed.

Lemma current_trusted_elem s basis f : current_trusted_verification s basis = Some f -> f ∈ ex_verifications s.
Proof.
  unfold current_trusted_verification. destruct (_ || _); [done|]. destruct (trusted_verification_identity s); [|done].
  intros H. by apply rfind_Some in H as [? _].
Qed.

Lemma completion_evidence_refs s basis status refs :
  Forall (fun f => from_option over_item false (vf_evidence_ref f) = false) (ex_verifications s) ->
  (status, refs) = completion_evidence s basis ->
  length refs <= 1 /\ Forall (fun t => length t <= MAX_COMPLETION_REF_CHARS) refs.
Proof.
  intros H. unfold completion_evidence. destruct (basis ≫= current_trusted_verification s) as [f|] eqn:E.
  - intros H2. inversion H2; subst. apply bind_Some in E as (b & _ & E). apply current_trusted_elem in E.
    split; [destruct (vf_evidence_ref f); cbn; lia|by eapply refs_bounded].
  - match goal with |- context [match ?b with Some _ => _ | None => _ end] => destruct b as [f|] eqn:E2 end;
      intros H2; inversion H2; subst; [|split; [cbn; lia|constructor]].
    apply bind_Some in E2 as (b & _ & E2). apply rfind_Some in E2 as [E2 _].
    split; [destruct (vf_evidence_ref f); cbn; lia|by eapply refs_bounded].
Qed.

Lemma check_refs_ok what l : Forall (fun t => length t <= MAX_COMPLETION_REF_CHARS) l -> check_all (check_ref what) l = Ok tt.
Proof.
  induction 1 as [|t l Ht _ IH]; [done|]. cbn. unfold check_ref at 1. rewrite (proj2 (Nat.ltb_ge _ _) Ht). exact IH.
Qed.

Lemma some_unmet l : existsb (fun b => negb (blocks_commit b)) l = true -> List.filter (fun b => negb (blocks_commit b)) l <> [].
Proof.
  intros H Hn. apply existsb_exists in H as (b & Hb & Hc). rewrite filter_nil_iff in Hn.
  rewrite Hn in Hc; [done|]. by apply list_elem_of_In.
Qed.

(** What an allowed completion writes is consistent: a verified disposition has
    current verification evidence and no unmet reason, an operator's override keeps at
    least one and at most sixteen, so the record, within its text bounds, passes the
    validation that every later checkpoint makes of it. *)
Theorem allowed_completion_validates intent actor task s safety ds record d :
  let r := derive_completion_readiness intent actor (Some task) (Some s) safety ds in
  disposition r = Some d -> cr_disposition record = d -> cr_unmet_reasons record = override_reasons r ->
  (cr_verification_status record, cr_verification_refs record) = completion_evidence s (rd_verification_basis r) ->
  Forall (fun f => from_option over_item false (vf_evidence_ref f) = false) (ex_verifications s) ->
  length (cr_summary record) <= MAX_COMPLETION_SUMMARY_CHARS ->
  length (cr_artifacts record) <= MAX_COMPLETION_ARTIFACTS ->
  Forall (fun t => length t <= MAX_COMPLETION_REF_CHARS)
    (option_list (cr_final_output_ref record) ++ option_list (cr_final_output_digest record)) ->
  Forall (fun t => length t <= MAX_COMPLETION_REF_CHARS) (cr_artifacts record) ->
  validate_completion_record record = Ok tt.
Proof.
  cbn zeta. intros Hd Hrd Hun Hev Hrefs Hsum Hart Hout Hartb.
  destruct (readiness_parts intent actor task s safety ds) as (Hi & Hb & Hv & Hc). cbn zeta in *.
  pose proof (readiness_blockers intent actor task s safety ds) as Hbl.
  set (r := derive_completion_readiness intent actor (Some task) (Some s) safety ds) in *.
  pose proof (completion_evidence_refs s _ _ _ Hrefs Hev) as [Hlen Hok].
  assert (Hdisp : match cr_disposition record with
    | DispVerified => cr_unmet_reasons record = [] /\ cr_verification_status record = CvCurrent
    | OperatorOverride => cr_unmet_reasons record <> []
    | LegacyUnclassified => False end /\ length (cr_unmet_reasons record) <= MAX_COMPLETION_BLOCKERS).
  { rewrite Hrd, Hun. unfold override_reasons. rewrite Hd. unfold disposition in Hd. destruct (negb (allows_completion r)); [done|].
    destruct (rd_verified_ready r) eqn:Ev; injection Hd as <-.
    - rewrite bool_decide_eq_false_2 by done. cbn [negb]. split; [|cbn; lia]. split; [done|].
      rewrite Hb in Hev. unfold completion_evidence in Hev. cbn in Hev.
      symmetry in Hv. apply negb_true_iff in Hv. rewrite Hbl in Hv. apply verified_conditions in Hv.
      destruct (pc_trusted _ _ _ _ Hv) as [f Hf]. rewrite Hf in Hev. by injection Hev.
    - rewrite bool_decide_eq_true_2 by done. cbn [negb]. split.
      + apply some_unmet. symmetry in Hv. by apply negb_false_iff in Hv.
      + etrans; [apply filter_length_le|]. rewrite Hbl. apply conditions_fit. }
  destruct Hdisp as [Hdisp Hcount]. unfold validate_completion_record.
  rewrite (proj2 (Nat.ltb_ge _ _) Hsum), (proj2 (Nat.ltb_ge _ _) Hart).
  rewrite (proj2 (Nat.ltb_ge MAX_COMPLETION_ARTIFACTS (length (cr_verification_refs record)))).
  2: { etrans; [exact Hlen|]. apply Nat.leb_le. done. }
  rewrite (proj2 (Nat.ltb_ge _ _) Hcount). cbn [rbind].
  rewrite app_assoc, (check_refs_ok _ (_ ++ _)) by (apply Forall_app; by split).
  rewrite check_refs_ok by done.
  destruct (cr_disposition record); [done| |].
  - destruct Hdisp as [-> ->]. done.
  - by rewrite bool_decide_eq_false_2.
Qed.

(** C11. A model cannot complete a task on words: when its proposal is allowed, every
    acceptance criterion of the task was proved in the task's own history, by a successful
    verification whose recipe names the criterion's coverage domain as the host declares
    it now (declaration revision and source digest), and after which no user turn and no
    workspace mutation was observed. (For histories that do not exhaust the saturating
    64-bit clocks.) *)
Theorem model_completion_is_proved ops actor task safety ds :
  let s := exec_run ops default_execution in
  (ex_workspace_revision s < u64_max)%N -> (ex_directive_revision s < u64_max)%N ->
  allows_completion (derive_completion_readiness ModelProposal actor (Some task) (Some s) safety ds) = true ->
  an_acceptance_criteria (tk_anchor task) <> [] /\
  forall c, c ∈ an_acceptance_criteria (tk_anchor task) ->
    exists f p d, verified_by ops f /\ f ∈ ex_verifications s /\ vf_ok f = true /\
      vf_anchor_revision f = an_verification_revision (tk_anchor task) /\
      vf_recipe_provenance f = Some p /\ vp_coverage_domain p = Some (ac_coverage_domain c) /\
      search_declaration (ac_coverage_domain c) ds = Some d /\
      vp_domain_declaration_revision p = Some (vd_declaration_revision d) /\
      vp_domain_source_digest p = vd_source_digest d.
Proof.
  cbn zeta. intros Hw Hdr Hallow. apply completion_readiness_exact in Hallow as [_ [|Hp]]; [done|]. destruct Hp.
  split; [done|]. intros c (i & Hi)%list_elem_of_lookup. destruct (pc_criteria0 i c Hi) as (Hm & r & Hr & Hcov).
  unfold receipt_covers in Hcov. rewrite !andb_true_iff, !bool_decide_eq_true, N.eqb_eq in Hcov.
  destruct Hcov as ((((((_ & Hdom) & Hrev) & Hdig) & _) & _) & [f Hf]).
  unfold acceptance_receipt_fact in Hf. destruct (_ || _) eqn:E in Hf; [done|]. clear E.
  apply rfind_Some in Hf as [Hin Hf]. rewrite !andb_true_iff in Hf. destruct Hf as ((((Hok & _) & Hbasis) & _) & Hprov).
  unfold provenance_of_receipt in Hprov. destruct (vf_recipe_provenance f) as [p|] eqn:Ep; [|done].
  rewrite !andb_true_iff, !bool_decide_eq_true in Hprov. destruct Hprov as ((Hpd & Hpr) & Hps).
  unfold criterion_matches_current_declaration in Hm. destruct (_ || _) in Hm; [done|].
  destruct (search_declaration (ac_coverage_domain c) ds) as [d|] eqn:Es; [|done].
  rewrite andb_true_iff, N.eqb_eq, bool_decide_eq_true in Hm. destruct Hm as [Hd1 Hd2].
  unfold fact_of_basis in Hbasis. rewrite !andb_true_iff, !N.eqb_eq in Hbasis. cbn in Hbasis.
  destruct Hbasis as ((Ha & Hbd) & Hbw).
  destruct (current_fact_quiet ops f Hw Hdr Hin Hbw Hbd)
    as (before & o & ar & t & dg & a & after & Hops & (_ & _ & Ho & Hid & Hrp) & Hq).
  exists f, p, d. split_and!; try done; try congruence.
  exists before, o, ar, t, dg, a, after. split_and!; try done. congruence.
Qed.

End readiness.

(** ** The task part of a checkpoint *)

Section checkpoint.
Context `{JT : JsonText} {JU : JsonU64} {TC : TextCrypto} {UC : UuidCodec} {DV : Directives}.

(** A well-formed task snapshot of an actor whose current task is [current]. *)
Record snapshot_ok (terminal : bool) (current : option N) (s : TaskManagerSnapshot) : Prop := {
  so_active : sn_active s = current;
  so_terminal : terminal = true -> current = None /\ sn_completed s <> [];
  so_ids : NoDup (ts_id <$> sn_tasks s);
  so_rows : Forall (fun t => validate_row t = Ok tt) (sn_tasks s);
  so_active_row : ts_id <$> List.filter (fun t => bool_decide (ts_status t = Active)) (sn_tasks s) = option_list current;
  so_records : Forall (fun r => validate_completion_record r = Ok tt) (sn_completed s);
  so_paired : cr_task_id <$> sn_completed s ≡ₚ ts_id <$> completed_rows (sn_tasks s);
  so_revisions : forall t r, t ∈ sn_tasks s -> r ∈ sn_completed s -> cr_task_id r = ts_id t ->
    cr_anchor_revision r = an_revision (ts_anchor t);
}.

Lemma rbind_ok {A B} (r : AgentResult A) (k : A -> AgentResult B) b :
  (let? x := r in k x) = Ok b <-> exists x, r = Ok x /\ k x = Ok b.
Proof. destruct r as [x|e]; split; [by exists x|by intros (y & [= ->] & H)|done|by intros (y & H & _)]. Qed.

Lemma map_err_ok {A E} (f : E -> AgentError) (r : result A E) x : map_err f r = Ok x <-> r = Ok x.
Proof. destruct r; cbn; split; intros [=]; by subst. Qed.

Lemma validate_rows_exact rows : forall seen, validate_rows seen rows = Ok tt <->
  NoDup (ts_id <$> rows) /\ (forall t, t ∈ rows -> ts_id t ∉ seen) /\ Forall (fun t => validate_row t = Ok tt) rows.
Proof.
  induction rows as [|t rows IH]; intros seen; cbn [validate_rows].
  { split; [|done]. intros _. split_and!; [constructor|by intros t Ht%not_elem_of_nil|constructor]. }
  cbn. rewrite NoDup_cons, Forall_cons. destruct (bool_decide (ts_id t ∈ seen)) eqn:E.
  - apply bool_decide_eq_true in E. split; [done|]. intros (_ & H & _). exfalso. apply (H t); [by left|done].
  - apply bool_decide_eq_false in E. rewrite rbind_ok. setoid_rewrite IH. split.
    + intros ([] & Hv & Hn & Hs & Hf). split_and!; try done.
      * intros Hin. apply list_elem_of_fmap in Hin as (x & Hx & Hin). apply (Hs x Hin). rewrite <- Hx. by left.
      * intros x [->|Hx]%elem_of_cons; [done|]. intros Hin. apply (Hs x Hx). by right.
    + intros ([Hn1 Hn] & Hs & Hv & Hf). exists tt. split_and!; try done. intros x Hx [He|Hin]%elem_of_cons.
      * apply Hn1. rewrite <- He. by apply list_elem_of_fmap_2.
      * apply (Hs x); [by right|done].
Qed.

Lemma remove_first_perm (l : list N) id :
  match remove_first (fun x => (x =? id)%N) l with
  | Some (x, l') => x = id /\ l ≡ₚ id :: l'
  | None => id ∉ l
  end.
Proof.
  induction l as [|y l IH]; cbn; [by apply not_elem_of_nil|]. destruct (N.eqb_spec y id) as [->|Hne]; [done|].
  destruct (remove_first _ l) as [[x l']|]; cbn.
  - destruct IH as [-> IH]. split; [done|]. rewrite IH. apply Permutation_swap.
  - by apply not_elem_of_cons.
Qed.

Lemma validate_records_exact records : forall waiting taken left_over,
  NoDup waiting -> (forall x, x ∈ taken -> x ∉ waiting) ->
  (validate_records waiting taken records = Ok left_over ->
     Forall (fun r => validate_completion_record r = Ok tt) records /\ waiting ≡ₚ (cr_task_id <$> records) ++ left_over) /\
  (Forall (fun r => validate_completion_record r = Ok tt) records -> waiting ≡ₚ (cr_task_id <$> records) ++ left_over ->
     exists l, validate_records waiting taken records = Ok l /\ l ≡ₚ left_over).
Proof.
  induction records as [|r records IH]; intros waiting taken left_over Hnd Ht; cbn [validate_records].
  { split; [intros [= ->]; by split; [constructor|]|]. intros _ Hp. by exists waiting. }
  pose proof (remove_first_perm waiting (cr_task_id r)) as Hrem.
  destruct (remove_first _ waiting) as [[x w]|].
  - destruct Hrem as [-> Hw]. assert (Hndw : NoDup (cr_task_id r :: w)) by (by rewrite <- Hw).
    apply NoDup_cons in Hndw as [Hrw Hndw].
    assert (Hrt : bool_decide (cr_task_id r ∈ taken) = false).
    { apply bool_decide_eq_false. intros Hin. apply (Ht _ Hin). rewrite Hw. by left. }
    assert (Ht' : forall y, y ∈ cr_task_id r :: taken -> y ∉ w).
    { intros y [->|Hy]%elem_of_cons; [done|]. intros Hyw. apply (Ht y Hy). rewrite Hw. by right. }
    destruct (IH w (cr_task_id r :: taken) left_over Hndw Ht') as [IH1 IH2]. rewrite Hrt. split.
    + intros H. apply rbind_ok in H as ([] & Hv & H). apply map_err_ok in Hv. destruct (IH1 H) as [Hf Hp].
      split; [by constructor|]. rewrite Hw, Hp. done.
    + intros [Hv Hf]%Forall_cons Hp. rewrite Hw in Hp. cbn in Hp. apply Permutation_cons_inv in Hp.
      destruct (IH2 Hf Hp) as (l & Hl & Hlp). exists l. split; [|done]. apply rbind_ok. exists tt.
      by rewrite map_err_ok.
  - split.
    + intros H. by apply rbind_ok in H as ([] & Hv & H).
    + intros _ Hp. exfalso. apply Hrem. rewrite Hp. by left.
Qed.

Lemma check_all_ok {A} (f : A -> AgentResult unit) l : check_all f l = Ok tt <-> Forall (fun x => f x = Ok tt) l.
Proof.
  induction l as [|x l IH]; cbn; [by split; [constructor|]|]. rewrite Forall_cons, rbind_ok, <- IH.
  split; [by intros ([] & ? & ?)|intros [? ?]; by exists tt].
Qed.

Lemma find_record id (l : list CompletionRecord) : NoDup (cr_task_id <$> l) ->
  match find (record_of id) l with
  | Some r => r ∈ l /\ cr_task_id r = id /\ forall r', r' ∈ l -> cr_task_id r' = id -> r' = r
  | None => forall r', r' ∈ l -> cr_task_id r' <> id
  end.
Proof.
  induction l as [|x l IH]; intros Hnd; cbn; [by intros r Hr%not_elem_of_nil|]. cbn in Hnd.
  apply NoDup_cons in Hnd as [Hn Hnd]. unfold record_of at 1. destruct (N.eqb_spec (cr_task_id x) id) as [He|Hne].
  - split; [by left|]. split; [done|]. intros r [->|Hr]%elem_of_cons Hi; [done|]. exfalso. apply Hn. rewrite He, <- Hi.
    by apply list_elem_of_fmap_2.
  - specialize (IH Hnd). destruct (find (record_of id) l) as [r|].
    + destruct IH as (H1 & H2 & H3). split; [by right|]. split; [done|].
      intros r' [->|Hr]%elem_of_cons Hi; [done|]. by apply H3.
    + intros r' [->|Hr]%elem_of_cons; [done|]. by apply IH.
Qed.

Lemma validate_tasks_exact terminal current s :
  validate_tasks terminal current s = Ok tt <-> snapshot_ok terminal current s.
Proof.
  unfold validate_tasks. destruct (bool_decide (sn_active s = current)) eqn:Ea; cbn [negb].
  2: { apply bool_decide_eq_false in Ea. split; [done|]. by intros []. }
  apply bool_decide_eq_true in Ea.
  destruct (terminal && _) eqn:Et.
  { split; [done|]. intros []. apply andb_true_iff in Et as [Et1 Et]. destruct (so_terminal0 Et1) as [Hc Hne].
    rewrite so_active0, Hc in Et. cbn in Et.
    by rewrite bool_decide_eq_false_2 in Et. }
  assert (Hterm : terminal = true -> current = None /\ sn_completed s <> []).
  { intros ->. cbn [andb] in Et. rewrite !orb_false_iff, !bool_decide_eq_false in Et. destruct Et as ((H1 & _) & H2).
    split; [|done]. destruct current; [|done]. exfalso. apply H1. by eexists. }
  rewrite rbind_ok. cbn zeta. setoid_rewrite rbind_ok. setoid_rewrite rbind_ok.
  set (active_rows := ts_id <$> List.filter (fun t => bool_decide (ts_status t = Active)) (sn_tasks s)).
  assert (Hactive : forall x : unit, match current with
      | Some current => if negb (bool_decide (active_rows = [current]))
          then invalid_request (txt "checkpoint current task " ++ uuid_to_string current
                 ++ txt " must be the only active task record") else Ok tt
      | None => if negb (bool_decide (active_rows = []))
          then invalid_request (txt "checkpoint has an active task record but no current task") else Ok tt
      end = Ok x <-> active_rows = option_list current).
  { intros []. destruct current as [c|]; cbn [option_list];
      match goal with |- context [bool_decide ?P] => destruct (decide P) as [H|H] end;
      rewrite ?bool_decide_eq_true_2, ?bool_decide_eq_false_2 by done; by split. }
  setoid_rewrite Hactive.
  assert (Hrev : NoDup (cr_task_id <$> sn_completed s) ->
    check_all (check_record_revision (sn_completed s)) (sn_tasks s) = Ok tt <->
    forall t r, t ∈ sn_tasks s -> r ∈ sn_completed s -> cr_task_id r = ts_id t ->
      cr_anchor_revision r = an_revision (ts_anchor t)).
  { intros Hnd. rewrite check_all_ok, Forall_forall. split.
    - intros H t r Ht Hr Hi. specialize (H t Ht). unfold check_record_revision in H.
      pose proof (find_record (ts_id t) (sn_completed s) Hnd) as Hf.
      destruct (find _ _) as [x|]; [|by destruct (Hf r Hr)]. destruct Hf as (_ & _ & Hf).
      rewrite <- (Hf r Hr Hi) in H. by destruct (N.eqb_spec (cr_anchor_revision r) (an_revision (ts_anchor t))).
    - intros H t Ht. unfold check_record_revision. pose proof (find_record (ts_id t) (sn_completed s) Hnd) as Hf.
      destruct (find _ _) as [x|]; [|done]. destruct Hf as (Hx & Hi & _). by rewrite (proj2 (N.eqb_eq _ _) (H t x Ht Hx Hi)). }
  assert (Hsub : forall rows, NoDup (ts_id <$> rows) -> NoDup (hot_id <$> completed_rows rows)).
  { intros rows H. eapply sublist_NoDup; [exact H|]. apply (fmap_sublist ts_id), filter_sublist. }
  split.
  - intros ([] & Hrows & [] & Hact & left_over & Hrec & Hend). apply validate_rows_exact in Hrows as (Hnd & _ & Hrows).
    destruct (validate_records_exact (sn_completed s) (hot_id <$> completed_rows (sn_tasks s)) [] left_over (Hsub _ Hnd))
      as [Hr _]; [by intros x Hx%not_elem_of_nil|].
    destruct (Hr Hrec) as [Hvalid Hperm]. destruct left_over; [|done]. rewrite app_nil_r in Hperm.
    assert (Hnd2 : NoDup (cr_task_id <$> sn_completed s)) by (rewrite <- Hperm; by apply Hsub).
    split; try done. by apply Hrev.
  - intros []. exists tt. split; [apply validate_rows_exact; split_and!; [done| |done]; intros t _; apply not_elem_of_nil|].
    exists tt. split; [done|].
    destruct (validate_records_exact (sn_completed s) (hot_id <$> completed_rows (sn_tasks s)) [] [] (Hsub _ so_ids0))
      as [_ Hr]; [by intros x Hx%not_elem_of_nil|].
    destruct Hr as (l & Hl & Hp); [done|rewrite app_nil_r; symmetry; exact so_paired0|].
    symmetry in Hp. apply Permutation_nil in Hp as ->. exists []. split; [done|].
    apply Hrev; [|done]. rewrite so_paired0. by apply Hsub.
Qed.

Lemma active_rows_exact m : table_ok m ->
  ts_id <$> List.filter (fun t => bool_decide (ts_status t = Active)) (snapshot_row <$> tm_tasks m) = option_list (tm_active m).
Proof.
  intros H. rewrite (filter_fmap snapshot_row _ (fun t => bool_decide (tk_status t = Active))) by done.
  rewrite <- list_fmap_compose. change (ts_id ∘ snapshot_row) with tk_id.
  pose proof (to_ids _ _ H) as Hnd. unfold ids in Hnd.
  assert (Hin : forall id, id ∈ tk_id <$> List.filter (fun t => bool_decide (tk_status t = Active)) (tm_tasks m) <-> tm_active m = Some id).
  { intros id. split.
    - intros Hx. apply list_elem_of_fmap in Hx as (t & -> & Ht). apply elem_of_filter_b in Ht as [Ht Hs].
      apply bool_decide_eq_true in Hs. by apply (to_active _ _ H t Ht).
    - intros Ha. pose proof (to_active_registered _ _ H id Ha) as Hr. apply list_elem_of_fmap in Hr as (t & -> & Ht).
      apply list_elem_of_fmap_2, elem_of_filter_b. split; [done|]. apply bool_decide_eq_true. by apply (to_active _ _ H t Ht). }
  assert (Hnd2 : NoDup (tk_id <$> List.filter (fun t => bool_decide (tk_status t = Active)) (tm_tasks m))).
  { eapply sublist_NoDup; [exact Hnd|]. apply fmap_sublist, filter_sublist. }
  destruct (tk_id <$> List.filter _ (tm_tasks m)) as [|x l]; cbn.
  - destruct (tm_active m) as [a|]; [|done]. exfalso. by apply (not_elem_of_nil a), Hin.
  - rewrite (proj1 (Hin x) (list_elem_of_here _ _)). cbn. f_equal. destruct l as [|y l]; [done|].
    pose proof (proj1 (Hin x) (list_elem_of_here _ _)) as Hx.
    pose proof (proj1 (Hin y) (list_elem_of_further _ _ _ (list_elem_of_here _ _))) as Hy.
    apply NoDup_cons in Hnd2 as [Hn _]. exfalso. apply Hn. assert (x = y) as -> by congruence. by left.
Qed.

(** C21. The task part of a checkpoint is accepted exactly when it is well-formed: the
    actor's current task is the table's active slot and the only active row, ids are
    unique, every row validates (requirements, anchor, execution state, directive), and
    the completion records, each valid, are those of the completed rows, one each, at
    their anchor revisions; a terminal checkpoint has no task and at least one record.
    A table that the runtime can reach satisfies all of it but the contents of its rows:
    its snapshot is accepted exactly when each row and each record validates alone. *)
Theorem checkpoint_tasks_exact terminal current s m :
  (validate_tasks terminal current s = Ok tt <-> snapshot_ok terminal current s) /\
  (table_ok m -> (validate_tasks false (tm_active m) (from_manager m) = Ok tt <->
     Forall (fun t => validate_row (snapshot_row t) = Ok tt) (tm_tasks m) /\
     Forall (fun r => validate_completion_record r = Ok tt) (tm_completed m))).
Proof.
  split; [apply validate_tasks_exact|]. intros H. rewrite validate_tasks_exact. unfold from_manager.
  split.
  { intros H1. pose proof (so_rows _ _ _ H1) as Hr. cbn [sn_tasks] in Hr. rewrite Forall_fmap in Hr.
    split; [exact Hr|exact (so_records _ _ _ H1)]. }
  intros [Hrows Hrecords].
  split; cbn [sn_tasks sn_active sn_completed]; try done.
  - rewrite <- list_fmap_compose. apply (to_ids _ _ H).
  - by rewrite Forall_fmap.
  - by apply active_rows_exact.
  - rewrite (completed_rows_fmap snapshot_row) by done. rewrite <- list_fmap_compose. change (ts_id ∘ snapshot_row) with tk_id.
    apply NoDup_Permutation; [apply (to_records _ _ H)| |].
    + eapply sublist_NoDup; [apply (to_ids _ _ H)|]. apply fmap_sublist, filter_sublist.
    + intros id. rewrite (to_paired _ _ H id), list_elem_of_fmap. split; intros (t & H1 & H2).
      * destruct H2 as [H2 H3]. exists t. split; [done|]. apply elem_of_filter_b. split; [done|]. by apply bool_decide_eq_true.
      * apply elem_of_filter_b in H2 as [H2 H3]. apply bool_decide_eq_true in H3. by exists t.
  - intros t r Ht Hr Hi. apply list_elem_of_fmap in Ht as (x & -> & Hx). by apply (to_revision _ _ H).
Qed.

End checkpoint.
