(* ===== verification/TaskWitness.v ===== *)
(** The execution, task and completion theorems applied at concrete histories, and runs
    that show where the code falls short of what it means to do. *)

From stdpp Require Import sorting.
From S2P Require Import Prelude Text Digest Jcs Operation OutputBroker KernelWitness ToolWitness Capability Artifact ToolFacts.
From S2P Require Import Execution Observe ObserveFacts ExecutionTheorems TaskAnchor Task TaskTheorems TaskCompletion.
From S2P Require Import CompletionTheorems.

(** ** Sample instances *)

#[export] Instance sample_u64 : JsonU64 := {
  number_u64 n := if n.1 then None else Some (foldl (fun acc (b : bool) => 2 * acc + (if b then 1 else 0))%N 1%N n.2);
}.

#[export] Instance sample_crypto : TextCrypto := {
  sha256_text s := take 32 (((fun c => c mod 256)%N <$> s) ++ replicate 32 0%N);
  unicode_alphanumeric c := ((48 <=? c) && (c <=? 57))%N || ((97 <=? c) && (c <=? 122))%N || ((65 <=? c) && (c <=? 90))%N;
}.

#[export] Instance sample_uuid : UuidCodec := {
  uuid_parse s := if bool_decide (s = []) then None else Some (foldl (fun acc c => 10 * acc + (c - 48))%N 0%N s);
  uuid_to_string id := uint_text (N.to_uint id);
}.

#[export] Instance sample_directives : Directives := {
  TaskDirective := text;
  directive_validate _ d := if bool_decide (d = []) then Err (InvalidRequest (txt "empty directive")) else Ok tt;
}.

(** ** Tool results *)

Definition sample_output (tool : string) (ok : bool) (fields : list (string * string)) : ToolOutput :=
  {| out_call_id := txt "call"; out_tool_name := txt tool; out_ok := ok; out_summary := txt "done";
     out_model_content := []; out_artifact_ref := None;
     out_metadata := JObject ((fun f => (txt f.1, JString (txt f.2))) <$> fields) |}.

Definition failed_read : ToolOutput :=
  sample_output "fs.read" false [("path", "a.rs"); ("failure_class", "path_not_found")].
Definition good_read : ToolOutput := sample_output "fs.read" true [("path", "a.rs"); ("revision", "r1")].
Definition good_verify : ToolOutput := sample_output "verify.run" true [].

Definition sample_identity : text := digest_display (replicate 32 7%N).
Definition sample_source : text := digest_display (replicate 32 9%N).

Definition sample_recipe : VerificationRecipeProvenance :=
  {| vp_recipe_id := txt "unit"; vp_recipe_revision := txt "1"; vp_coverage_domain := Some (txt "unit.tests");
     vp_domain_declaration_revision := Some 1%N; vp_domain_source_digest := sample_source;
     vp_class_identity_digest := sample_identity |}.

Definition verify_attribution : RuntimeExecutionAttribution :=
  {| ra_host := {| ta_purpose := PurposeVerify; ta_targets := []; ta_outcome_equivalence_key := [];
                   ta_verification_reuse := ExactCurrentWorld; ta_verification_identity := sample_identity;
                   ta_verification_recipe := Some sample_recipe |};
     ra_rooted_targets := [] |}.

Definition verify_op : ExecOp := OpObserve good_verify 0 3 (txt "d") (Some verify_attribution) true.
Definition read_op (o : ToolOutput) (turn : N) : ExecOp := OpObserve o 0 turn (txt "d") None false.

Definition sample_history : list ExecOp := [OpTurn (txt "go"); read_op failed_read 1; read_op good_read 2; verify_op].


Lemma reused_pass_is_current_witness :
  let s := exec_run sample_history default_execution in
  exists f, current_exact_verification_pass (txt "verify.run") (txt "d") 0 verify_attribution s = Some f /\
    verified_by sample_history f /\
    current_domain_verification_pass 0 verify_attribution s = Some f /\
    trusted_verification_identity s = Some sample_identity.
Proof.
  cbn zeta.
  destruct (current_exact_verification_pass (txt "verify.run") (txt "d") 0 verify_attribution
    (exec_run sample_history default_execution)) as [f|] eqn:E; [|vm_compute in E; discriminate].
  exists f. split; [done|]. split.
  - refine (proj1 (proj1 (reused_pass_is_current sample_history 0 (txt "verify.run") (txt "d") verify_attribution f
      [] _ _) E)); vm_compute; reflexivity.
  - split; [rewrite <- E|]; vm_compute; reflexivity.
Defined.

(** ** The task table *)

Definition sample_draft : CompletionRecordDraft :=
  {| cd_summary := txt "finished"; cd_final_output_ref := None; cd_final_output_digest := None; cd_artifacts := [];
     cd_verification_status := CvUnverified; cd_verification_refs := []; cd_disposition := OperatorOverride;
     cd_unmet_reasons := [VerificationNotCurrent] |}.

Definition sample_tasks : list (N * TaskOp) :=
  [ (1%N, TaCreate 10 (txt "first")); (2%N, TaCreate 11 (txt "second")); (3%N, TaActivate 10);
    (4%N, TaTurn (txt "go on")) ].

Definition sample_manager : TaskManager := task_run sample_tasks new_manager.

Lemma sample_manager_ok : table_ok sample_manager.
Proof.
  apply task_run_safe; [apply new_manager_ok|]. cbn [sample_tasks fresh_run fresh_op].
  split_and!; try done; apply (bool_decide_unpack (_ ∉ _)); vm_compute; exact I.
Qed.

Lemma task_table_well_formed_witness :
  table_ok (task_run sample_tasks new_manager) /\
  safe_step (task_run sample_tasks new_manager)
    (task_step (task_run sample_tasks new_manager) 5 (TaComplete 5 sample_draft)).
Proof.
  apply (task_table_well_formed sample_tasks 5 (TaComplete 5 sample_draft)).
  cbn [sample_tasks app fresh_run fresh_op].
  split_and!; try done; apply (bool_decide_unpack (_ ∉ _)); vm_compute; exact I.
Defined.

Lemma prospective_snapshot_exact_witness :
  exists plan record, prepare_complete 5 sample_draft sample_manager = Some (plan, record) /\
    prospective_terminal_snapshot sample_manager record = Some (from_manager (commit 6 plan sample_manager)).
Proof.
  destruct (prepare_complete 5 sample_draft sample_manager) as [[plan record]|] eqn:E; [|vm_compute in E; discriminate].
  exists plan, record. split; [done|].
  exact (proj1 (prospective_snapshot_exact sample_manager 6 5 sample_draft sample_manager_ok) plan record E).
Defined.

Definition goal_patch (goal : text) : AnchorPatch :=
  {| ap_original_goal := Some goal; ap_constraints := None; ap_current_interpretation := None;
     ap_completion_policy := None; ap_acceptance_criteria := None; ap_acceptance_coverage := None;
     ap_plan_progress := Some [txt "started"]; ap_open_loops := None; ap_next_action := None;
     ap_working_refs := None; ap_evidence_refs := None |}.

Lemma anchor_changes_exact_witness :
  exists plan t new au, planned (TaPatchAnchor 10 0 (goal_patch (txt "other"))) sample_manager = Some plan /\
    plan = PlanReplaceAnchor 10 new au /\ get_task 10 sample_manager = Some t /\
    anchor_change 10 0 true t new au /\ (tk_anchor <$> get_task 10 (commit 7 plan sample_manager)) = Some new.
Proof.
  destruct (planned (TaPatchAnchor 10 0 (goal_patch (txt "other"))) sample_manager) as [plan|] eqn:E;
    [|vm_compute in E; discriminate].
  destruct (anchor_changes_exact (TaPatchAnchor 10 0 (goal_patch (txt "other"))) sample_manager plan 7 10 0
    sample_manager_ok E (or_intror (or_introl (ex_intro _ _ eq_refl)))) as (t & new & au & H1 & H2 & H3 & _ & H5).
  exists plan, t, new, au. done.
Defined.

(** ** Completion *)

Definition sample_declaration : VerificationCoverageDeclaration :=
  {| vd_domain_id := txt "unit.tests"; vd_declaration_revision := 1; vd_source_digest := sample_source |}.

Definition sample_receipt (verification_revision : N) (s : ExecutionState) : AcceptanceCoverage :=
  {| cov_task_id := Some 10%N; cov_verification_revision := verification_revision; cov_criterion_index := 0;
     cov_coverage_domain := txt "unit.tests"; cov_domain_declaration_revision := 1;
     cov_domain_source_digest := sample_source; cov_directive_revision := ex_directive_revision s;
     cov_workspace_revision := ex_workspace_revision s; cov_verification_identity := sample_identity |}.

Definition proved_history : list ExecOp := [OpTurn (txt "go"); OpAnchor 1 1 true; verify_op; OpAnchor 1 1 false].
Definition proved_state : ExecutionState := exec_run proved_history default_execution.

Definition proved_anchor : TaskAnchor :=
  {| an_revision := 1; an_verification_revision := 1; an_original_goal := txt "first"; an_current_interpretation := [];
     an_constraints := []; an_completion_policy := EvidenceRequired;
     an_acceptance_criteria := [criterion_declared (txt "the tests pass") sample_declaration];
     an_acceptance_coverage := [sample_receipt 1 proved_state]; an_plan_progress := []; an_open_loops := [];
     an_next_action := []; an_working_refs := []; an_evidence_refs := [] |}.

Definition proved_task : TaskRecord :=
  set_resume proved_state (set_anchor proved_anchor (fresh_task 10 (txt "first") 0)).

Definition settled : CompletionSafety :=
  {| cs_recovery_required := false; cs_cancel_cleanup_pending := false; cs_operation_in_flight := false;
     cs_pending_tool_work := false; cs_required_context_misses := 0 |}.

Definition proved_readiness : CompletionReadiness :=
  derive_completion_readiness ModelProposal (Some 10%N) (Some proved_task) (Some proved_state) settled [sample_declaration].

Lemma model_completion_is_proved_witness :
  allows_completion proved_readiness = true /\
  exists f p d, verified_by proved_history f /\ f ∈ ex_verifications proved_state /\ vf_ok f = true /\
    vf_anchor_revision f = 1%N /\ vf_recipe_provenance f = Some p /\ vp_coverage_domain p = Some (txt "unit.tests") /\
    search_declaration (txt "unit.tests") [sample_declaration] = Some d /\
    vp_domain_declaration_revision p = Some (vd_declaration_revision d) /\ vp_domain_source_digest p = vd_source_digest d.
Proof.
  split; [vm_compute; reflexivity|].
  refine (proj2 (model_completion_is_proved proved_history (Some 10%N) proved_task settled [sample_declaration] _ _ _)
    (criterion_declared (txt "the tests pass") sample_declaration) _).
  - vm_compute. reflexivity.
  - vm_compute. reflexivity.
  - vm_compute. reflexivity.
  - apply list_elem_of_singleton. reflexivity.
Defined.

Definition proved_record : CompletionRecord :=
  let evidence := completion_evidence proved_state (rd_verification_basis proved_readiness) in
  {| cr_task_id := 10; cr_anchor_revision := 1; cr_summary := txt "finished"; cr_completed_at_ms := 9;
     cr_final_output_ref := None; cr_final_output_digest := None; cr_artifacts := [];
     cr_verification_status := evidence.1; cr_verification_refs := evidence.2; cr_disposition := DispVerified;
     cr_unmet_reasons := override_reasons proved_readiness |}.

Lemma allowed_completion_validates_witness : validate_completion_record proved_record = Ok tt.
Proof.
  refine (allowed_completion_validates ModelProposal (Some 10%N) proved_task proved_state settled [sample_declaration]
    proved_record DispVerified _ _ _ _ _ _ _ _ _).
  - vm_compute. reflexivity.
  - reflexivity.
  - reflexivity.
  - vm_compute. reflexivity.
  - apply Forall_forall. intros f Hf. vm_compute in Hf. apply elem_of_cons in Hf as [->|Hf]; [reflexivity|].
    by apply not_elem_of_nil in Hf.
  - apply Nat.leb_le. vm_compute. reflexivity.
  - apply Nat.leb_le. vm_compute. reflexivity.
  - constructor.
  - constructor.
Defined.

(** ** Where the code falls short *)

(** A change of the goal keeps the acceptance receipts but moves the verification revision
    they name, so the committed anchor no longer validates: the next patch is refused, and
    so is every checkpoint of the task. *)
Definition proved_manager : TaskManager :=
  {| tm_tasks := [proved_task]; tm_active := Some 10%N; tm_completed := []; tm_evicted_completed_task_records := 0;
     tm_evicted_completion_records := 0 |}.

Definition next_action_patch (action : text) : AnchorPatch :=
  {| ap_original_goal := None; ap_constraints := None; ap_current_interpretation := None;
     ap_completion_policy := None; ap_acceptance_criteria := None; ap_acceptance_coverage := None;
     ap_plan_progress := None; ap_open_loops := None; ap_next_action := Some action;
     ap_working_refs := None; ap_evidence_refs := None |}.

Definition is_planned (op : TaskOp) (m : TaskManager) : bool := bool_decide (is_Some (planned op m)).
Definition replan (op : TaskOp) (m : TaskManager) : TaskManager :=
  match planned op m with Some plan => commit 20 plan m | None => m end.

Theorem goal_change_strands_receipts :
  let change := TaPatchAnchor 10 1 (goal_patch (txt "first, then more")) in
  let m := replan change proved_manager in
  is_Ok (validate_anchor 10 proved_anchor) = true /\ is_planned change proved_manager = true /\
  (an_revision ∘ tk_anchor <$> get_task 10 m) = Some 2%N /\
  (is_Ok ∘ validate_anchor 10 ∘ tk_anchor <$> get_task 10 m) = Some false /\
  is_planned (TaPatchAnchor 10 2 (next_action_patch (txt "continue"))) m = false /\
  is_planned (TaPatchAnchor 10 1 (next_action_patch (txt "continue"))) proved_manager = true.
Proof. split_and!; vm_compute; reflexivity. Qed.

(** A patch that names the goal but leaves it as it is moves the verification revision and
    not the anchor revision, and the execution state is not told that its specification
    changed. *)
Theorem unchanged_goal_moves_verification :
  let change := TaPatchAnchor 10 0
    {| ap_original_goal := Some (txt "first"); ap_constraints := None; ap_current_interpretation := None;
       ap_completion_policy := None; ap_acceptance_criteria := None; ap_acceptance_coverage := None;
       ap_plan_progress := None; ap_open_loops := None; ap_next_action := None; ap_working_refs := None;
       ap_evidence_refs := None |} in
  let m := replan change sample_manager in
  (an_revision ∘ tk_anchor <$> get_task 10 m) = Some 0%N /\
  (an_verification_revision ∘ tk_anchor <$> get_task 10 sample_manager) = Some 0%N /\
  (an_verification_revision ∘ tk_anchor <$> get_task 10 m) = Some 1%N /\
  (vo_cause ∘ ex_verification ∘ tk_resume <$> get_task 10 m) = Some CauseNone /\
  (is_Ok ∘ validate_anchor 10 ∘ tk_anchor <$> get_task 10 m) = Some false.
Proof. split_and!; vm_compute; reflexivity. Qed.

(** A resource path may have 512 characters, an evidence key 200: one successful read of a
    long path leaves an execution state that no checkpoint accepts. *)
Definition long_path (n : nat) : text := repeat 97%N n ++ txt "/b.rs".
Definition path_read (tool : string) (ok : bool) (path revision : text) (class : option string) : ToolOutput :=
  {| out_call_id := txt "call"; out_tool_name := txt tool; out_ok := ok; out_summary := txt "done";
     out_model_content := []; out_artifact_ref := None;
     out_metadata := JObject ([(txt "path", JString path); (txt "revision", JString revision)] ++
       match class with Some c => [(txt "failure_class", JString (txt c))] | None => [] end) |}.

Theorem long_path_read_breaks_checkpoint :
  let s := exec_run [OpTurn (txt "go"); read_op (path_read "fs.read" true (long_path (N.to_nat 195)) (txt "r1") None) 1]
             default_execution in
  is_Ok (validate_execution_state s) = false /\
  is_Ok (validate_execution_state (exec_run [OpTurn (txt "go");
    read_op (path_read "fs.read" true (long_path (N.to_nat 180)) (txt "r1") None) 1] default_execution)) = true.
Proof. split; vm_compute; reflexivity. Qed.

(** The scope of a path failure is cut to 80 characters and compared with whole paths, so
    reading the very path that failed does not resolve a longer one. *)
Theorem long_path_failure_never_resolves :
  let fail n := read_op (path_read "fs.read" false (long_path n) [] (Some "path_not_found"%string)) 1 in
  let good n := read_op (path_read "fs.read" true (long_path n) (txt "r1") None) 2 in
  open_obligation_count (exec_run [fail (N.to_nat 20); good (N.to_nat 20)] default_execution) = 0%N /\
  open_obligation_count (exec_run [fail (N.to_nat 90); good (N.to_nat 90)] default_execution) = 1%N.
Proof. split; vm_compute; reflexivity. Qed.

(** The precondition [path@revision] is cut to 80 characters too, so a stale edit looks
    resolved by reading the unchanged file again. *)
Theorem cut_revision_looks_moved :
  let digest := digest_display (replicate 32 1%N) in
  let fail n := read_op (path_read "fs.edit" false (long_path n) digest (Some "stale_revision"%string)) 1 in
  let again n := read_op (path_read "fs.read" true (long_path n) digest None) 2 in
  open_obligation_count (exec_run [fail 2; again 2] default_execution) = 1%N /\
  open_obligation_count (exec_run [fail (N.to_nat 20); again (N.to_nat 20)] default_execution) = 0%N.
Proof. split; vm_compute; reflexivity. Qed.

(** Whether evidence was gained is read off the length of the capped ledger: with sixteen
    facts a seventeenth pass counts as redundant. *)
Definition pass_number (n : N) : ExecOp :=
  OpObserve good_verify 0 n (txt "d")
    (Some {| ra_host := {| ta_purpose := PurposeVerify; ta_targets := []; ta_outcome_equivalence_key := [];
               ta_verification_reuse := ExactCurrentWorld;
               ta_verification_identity := digest_display (replicate 32 n); ta_verification_recipe := None |};
             ra_rooted_targets := [] |}) true.

Definition passes (n : nat) : ExecutionState :=
  exec_run ((fun i => pass_number (N.of_nat i)) <$> seq 1 n) default_execution.

Theorem full_ledger_hides_evidence :
  let other := {| out_call_id := txt "call"; out_tool_name := txt "verify.run"; out_ok := true; out_summary := txt "other";
                  out_model_content := []; out_artifact_ref := None; out_metadata := JObject [] |} in
  let observe n := fo_delta (observe_tool_inner other 0 99 (txt "d")
    (Some {| ra_host := {| ta_purpose := PurposeVerify; ta_targets := []; ta_outcome_equivalence_key := [];
               ta_verification_reuse := ExactCurrentWorld;
               ta_verification_identity := sample_source; ta_verification_recipe := None |};
             ra_rooted_targets := [] |}) true (passes n)).1 in
  (length (ex_verifications (passes 16)) = 16) /\
  observe 15 = EvidenceAdvanced /\ observe 16 = RedundantEvidence.
Proof. split_and!; vm_compute; reflexivity. Qed.
