(* ===== verification/CapabilityWitness.v ===== *)
(** The capability and plugin theorems applied at concrete registries, and a run that shows what the
    restriction of [disable_settles_calls] leaves out. *)

From stdpp Require Import sorting.
From S2P Require Import Prelude Text Digest Jcs Operation Intent OutputBroker KernelWitness ToolWitness.
From S2P Require Import Capability Plugin CapabilityTheorems CapabilityRegistry CapabilitySurface CapabilityLife.
From S2P Require Import CapabilityLife CapabilityRestore PluginRegistry.

(** ** A capability with five large tools *)

Definition big_schema (n : nat) : Json := JString (repeat 97%N n).

Definition sample_tool (name : string) (n : nat) (risk : ToolRisk) : DeclaredTool :=
  {| dt_name := txt name; dt_description := txt "a tool"; dt_input_schema := big_schema n; dt_risk := risk |}.

Definition sample_tools : list DeclaredTool :=
  (fun name => sample_tool name (N.to_nat 4000) RiskReadOnly) <$> ["x.a"; "x.b"; "x.c"; "x.d"; "x.e"]%string.

Definition sample_manifest (transport : CapabilityTransport) : CapabilityManifest :=
  {| cm_id := txt "x"; cm_status := Stable; cm_permissions := [WORKSPACE_READ]; cm_requires := [];
     cm_lifecycle := Lazy; cm_transport := transport |}.

Definition builtin_ops : list RegistryOp :=
  [RoRegister (sample_manifest Builtin) sample_tools; RoLoad (txt "x.a") false; RoLoad (txt "x.b") true].

Definition builtin_registry : CapabilityRegistry := registry_run builtin_ops registry_default.

Lemma builtin_registry_inv : RegistryInv builtin_registry.
Proof. apply registry_run_inv, registry_inv_empty. Qed.

Example builtin_surface : dt_name <$> loaded_tool_specs builtin_registry = [txt "x.a"; txt "x.b"].
Proof. vm_compute. reflexivity. Qed.

Lemma external_capability_inert_witness :
  let ops := [RoRegister (sample_manifest (ProcessTransport (txt "run"))) sample_tools; RoLoad (txt "x.a") true] in
  is_usable (txt "x") (registry_run ops registry_default) = false.
Proof.
  intros ops. destruct (cr_inner (registry_run ops registry_default) !! txt "x") as [e|] eqn:He; [|vm_compute in He; discriminate].
  refine (proj1 (proj2 (external_capability_inert ops 8 24 (txt "x") e He _) _)).
  - assert (en_manifest <$> cr_inner (registry_run ops registry_default) !! txt "x"
            = Some (sample_manifest (ProcessTransport (txt "run")))) as Hm by (vm_compute; reflexivity).
    rewrite He in Hm. injection Hm as ->. discriminate.
  - intros Hin. apply elem_of_cons in Hin as [Hin|Hin]; [discriminate|].
    apply elem_of_cons in Hin as [Hin|Hin]; [discriminate|]. by apply not_elem_of_nil in Hin.
Defined.

(** ** Calls *)

Definition calling_world : CallWorld := start_call (txt "x.a") (txt "x") 7 (call_world builtin_registry).
Definition disabled_world : CallWorld := activate (txt "x") ActivationDisabled calling_world.

Lemma calling_world_step strict : call_step strict (call_world builtin_registry) calling_world.
Proof.
  apply CsStart.
  - reflexivity.
  - vm_compute. reflexivity.
  - intros e He. assert (en_run_lock <$> cr_inner builtin_registry !! txt "x" = Some false) as Hm by (vm_compute; reflexivity).
    cbn [cw_registry call_world] in He. rewrite He in Hm. by injection Hm.
  - vm_compute. reflexivity.
Qed.

Lemma lock_free_compute id r : en_run_lock <$> cr_inner r !! id = Some false -> lock_free id r.
Proof. intros H e He. rewrite He in H. by injection H. Qed.

Lemma disabled_world_step strict : call_step strict calling_world disabled_world.
Proof.
  apply CsActivate; [|discriminate]. apply lock_free_compute. vm_compute. reflexivity.
Qed.

Lemma disable_settles_calls_witness : 7%N ∈ cw_cancelled disabled_world.
Proof.
  refine (disable_settles_calls builtin_registry disabled_world builtin_registry_inv _ 7 (txt "x") _ _).
  - eapply rtc_l; [apply calling_world_step|]. apply rtc_once, disabled_world_step.
  - vm_compute. reflexivity.
  - vm_compute. reflexivity.
Defined.

(** Enabling a capability that is enabled already takes its in-flight tokens and drops them: a
    quarantine that follows cancels nothing, and the call goes on. *)
Theorem reenable_loses_calls :
  exists w, rtc (call_step False) (call_world builtin_registry) w
    /\ cw_calls w !! 7%N = Some (txt "x")
    /\ activation (txt "x") (cr_state (cw_registry w)) = Some ActivationQuarantined
    /\ cw_cancelled w = ∅.
Proof.
  exists (activate (txt "x") ActivationQuarantined (activate (txt "x") ActivationEnabled calling_world)).
  split; [|vm_compute; done].
  eapply rtc_l; [apply calling_world_step|].
  eapply rtc_l; [apply (CsActivate False calling_world (txt "x") ActivationEnabled); [|done]|apply rtc_once, CsActivate; [|done]].
  all: apply lock_free_compute; vm_compute; reflexivity.
Qed.

(** ** The safe point *)

Definition crowded_ops : list RegistryOp :=
  builtin_ops ++ ((fun name => RoLoad (txt name) false) <$> ["x.c"; "x.d"; "x.e"]%string) ++ repeat (RoGc [] 0) 7.

Definition crowded : CapabilityRegistry := registry_run crowded_ops registry_default.

Example crowded_bytes : N.of_nat (loaded_bytes_locked crowded) = 20010%N.
Proof. vm_compute. reflexivity. Qed.

(** The pinned tool and the rooted one stay, three cool. *)
Example crowded_gc : dt_name <$> loaded_tool_specs (gc_with_pressure [txt "x.e"] 0 crowded) = [txt "x.b"; txt "x.e"].
Proof. vm_compute. reflexivity. Qed.

Lemma gc_relieves_pressure_witness :
  loaded_bytes_locked (gc_with_pressure [txt "x.e"] 0 crowded) + 0 <= SURFACE_LOW_WATERMARK_BYTES
  \/ forall id name state, state_at (cr_inner (gc_with_pressure [txt "x.e"] 0 crowded)) id name = Some state ->
       may_cool (wrapping_succ (cr_tick crowded)) (cr_idle_to_warm_ticks crowded) [txt "x.e"] name state = false.
Proof.
  assert (RegistryInv crowded) as Hinv by apply registry_run_inv, registry_inv_empty.
  refine (proj2 (proj2 (gc_relieves_pressure [txt "x.e"] 0 crowded Hinv)) _).
  apply Nat.ltb_lt. vm_compute. reflexivity.
Defined.

(** ** A checkpoint *)

Definition fresh_run : CapabilityRegistry :=
  registry_run [RoRegister (sample_manifest Builtin) sample_tools] registry_default.

Lemma fresh_run_inv : RegistryInv fresh_run.
Proof. apply registry_run_inv, registry_inv_empty. Qed.

Lemma snapshot_restores_witness : (registry_restore (registry_snapshot builtin_registry) fresh_run).1 = size (cr_inner builtin_registry).
Proof.
  pose proof (snapshot_restores builtin_registry fresh_run builtin_registry_inv fresh_run_inv) as H.
  destruct (registry_restore (registry_snapshot builtin_registry) fresh_run) as [applied r'].
  refine (proj1 (H _)). intros id e He.
  destruct (decide (id = txt "x")) as [->|Hne].
  - destruct (cr_inner fresh_run !! txt "x") as [e'|] eqn:He'; [|vm_compute in He'; discriminate]. exists e'. split; [done|].
    assert (en_tool_specs <$> cr_inner fresh_run !! txt "x" = en_tool_specs <$> cr_inner builtin_registry !! txt "x") as Hs
      by (vm_compute; reflexivity).
    rewrite He, He' in Hs. by injection Hs.
  - exfalso. assert (map_to_list (cr_inner builtin_registry) = [(txt "x", default e (cr_inner builtin_registry !! txt "x"))]) as Hl
      by (vm_compute; reflexivity).
    apply elem_of_map_to_list in He. rewrite Hl in He. apply list_elem_of_singleton in He.
    exact (Hne (f_equal fst He)).
Defined.

(** ** Packages *)

Definition sample_skill : SkillDeclaration :=
  {| sk_id := txt "do-thing"; sk_version := txt "1.0.0"; sk_summary := txt "does the thing";
     sk_reference := txt "./skills/do-thing.md"; sk_provenance := SkillPackage; sk_activation := SkillInactive |}.

Definition sample_hook (name : string) (order : N) : HookDeclaration :=
  {| hk_id := txt name; hk_event := txt "before_model"; hk_mode := Observe; hk_order := order;
     hk_timeout_ms := Some 1000%N; hk_output_budget_chars := None; hk_failure := RecordAndContinue;
     hk_permissions := [WORKSPACE_READ] |}.

Definition sample_package (name : string) (hooks : list HookDeclaration) : PluginPackageManifest :=
  {| pp_id := txt name; pp_version := txt "1.2.0"; pp_name := txt "pack"; pp_summary := txt "demo package";
     pp_api := txt ">=0.2 <1"; pp_tools := []; pp_skills := [sample_skill]; pp_hooks := hooks; pp_adapters := [];
     pp_dependencies := []; pp_permissions := [WORKSPACE_READ]; pp_tests := [] |}.

Definition sample_root : Node := Dir [(txt "skills", Dir [(txt "do-thing.md", File (txt "step one"))])].

Definition package_ops : list PluginOp :=
  [ PoInstall (sample_package "b-pack" [sample_hook "late" 20; sample_hook "early" 5]) (Some sample_root);
    PoInstall (sample_package "a-pack" [sample_hook "mid" 10]) None;
    PoMove (txt "b-pack") PluginActive; PoMove (txt "a-pack") PluginActive;
    PoSkill (txt "b-pack") (txt "do-thing") SkillActive ].

Definition package_registry : PluginRegistry := plugin_run package_ops plugin_registry_new.

Example package_hooks : hook_order (txt "before_model") package_registry
  = [(txt "b-pack", txt "early"); (txt "a-pack", txt "mid"); (txt "b-pack", txt "late")].
Proof. vm_compute. reflexivity. Qed.

Lemma package_active_by_enable_witness :
  exists before after, package_ops = before ++ PoMove (txt "b-pack") PluginActive :: after.
Proof.
  destruct (package_active_by_enable package_ops (txt "b-pack")) as (before & after & H & _).
  - vm_compute. reflexivity.
  - exact (ex_intro _ before (ex_intro _ after H)).
Defined.

Lemma hook_order_exact_witness :
  exists rows, hook_order (txt "before_model") package_registry = ((fun row => (hr_package row, hr_id row)) <$> rows)
    /\ StronglySorted hook_row_lt rows.
Proof.
  destruct (hook_order_exact package_ops (txt "before_model")) as (rows & H & Hs & _).
  - vm_compute. discriminate.
  - exact (ex_intro _ rows (conj H Hs)).
Defined.

Lemma skill_read_gated_witness :
  exists body names, skill_read (txt "b-pack") (txt "do-thing") package_registry = Ok body
    /\ under sample_root names (txt "step one") /\ sb_body body = txt "step one".
Proof.
  destruct (skill_read (txt "b-pack") (txt "do-thing") package_registry) as [body|] eqn:E; [|vm_compute in E; discriminate].
  destruct (skill_read_gated package_registry (txt "b-pack") (txt "do-thing") body E)
    as (entry & skill & root & names & bytes & He & _ & _ & _ & _ & Hroot & _ & Hu & _ & Hb & _).
  assert (pe_root <$> pr_packages package_registry !! txt "b-pack" = Some (Some sample_root)) as Hr by (vm_compute; reflexivity).
  rewrite He in Hr. injection Hr as Hr. rewrite Hroot in Hr. injection Hr as ->.
  assert (Ok (sb_body body) = Ok (E := AgentError) (txt "step one")) as Hbody.
  { change (Ok (sb_body body)) with (rbind (Ok (E := AgentError) body) (fun b => Ok (sb_body b))). rewrite <- E.
    vm_compute. reflexivity. }
  injection Hbody as Hbody. exists body, [txt "skills"; txt "do-thing.md"]. split; [done|]. split; [|done].
  cbn. eexists _, _. split; [reflexivity|]. split; [reflexivity|]. eexists _, _. repeat split.
Defined.
