(* ===== verification/JsonBudget.v ===== *)
(** Bounded JSON decoding: agent-platform-protocol/json.rs. A visitor counts
    depth, nodes, string bytes and container widths while the parser advances, and
    stops before the value it is building can outgrow its budget.

    The parser is serde_json: what it hands to the visitor is a document tree,
    which may break off in a syntax error at any point. *)

From S2P Require Import Prelude Text Operation Journal Wal Jcs JcsCanonical.

Record JsonDecodeBudget : Type := {
  max_depth : nat;
  max_string_bytes : nat;
  max_total_string_bytes : nat;
  max_array_len : nat;
  max_object_keys : nat;
  max_nodes : nat;
}.

Definition control_plane : JsonDecodeBudget := {|
  max_depth := 16; max_string_bytes := 4096; max_total_string_bytes := N.to_nat 16384;
  max_array_len := 64; max_object_keys := 64; max_nodes := 512 |}.

(** [Ord::clamp]. *)
Definition clamp (n lo hi : nat) : nat := (n `max` lo) `min` hi.

Definition for_frame_bytes (max_frame_bytes : nat) : JsonDecodeBudget :=
  let frame := max_frame_bytes `max` 1 in
  {| max_depth := 32; max_string_bytes := frame; max_total_string_bytes := frame;
     max_array_len := clamp (frame / 2) 8 (N.to_nat 65536);
     max_object_keys := clamp (frame / 8) 8 (N.to_nat 4096);
     max_nodes := clamp (frame / 8) 32 (N.to_nat 65536) |}.

Inductive JsonDecodeError : Type :=
| InvalidUtf8
| Syntax (message : text)
| BudgetDepth
| BudgetStringBytes
| BudgetTotalStringBytes
| BudgetArrayLen
| BudgetObjectKeys
| BudgetNodes.

Definition decode_error_text (e : JsonDecodeError) : text :=
  match e with
  | InvalidUtf8 => txt "JSON is not UTF-8"
  | Syntax message => message
  | BudgetDepth => txt "json decode budget exceeded: depth"
  | BudgetStringBytes => txt "json decode budget exceeded: string"
  | BudgetTotalStringBytes => txt "json decode budget exceeded: total string bytes"
  | BudgetArrayLen => txt "json decode budget exceeded: array length"
  | BudgetObjectKeys => txt "json decode budget exceeded: object keys"
  | BudgetNodes => txt "json decode budget exceeded: nodes"
  end.

Record DecodeCounters : Type := {
  dc_depth : nat;
  dc_nodes : nat;
  dc_string_bytes : nat;
}.

Definition counters_new : DecodeCounters := {| dc_depth := 0; dc_nodes := 0; dc_string_bytes := 0 |}.

Section visitor.
Context `{JN : JsonNumber} (b : JsonDecodeBudget).

(** What the parser presents; [broken] is the syntax error that ends a container
    after the items it already presented. *)
Inductive JsonDoc : Type :=
| DNull
| DBool (x : bool)
| DNumber (n : Number)
| DString (s : text)
| DArray (items : list JsonDoc) (broken : option text)
| DObject (entries : list (text * JsonDoc)) (broken : option text)
| DInvalid (message : text).

Let V := M DecodeCounters JsonDecodeError.

Definition consume_node : V unit := fun c =>
  let next := dc_nodes c + 1 in
  if decide (max_nodes b < next) then (Err BudgetNodes, c)
  else (Ok tt, {| dc_depth := dc_depth c; dc_nodes := next;
                  dc_string_bytes := dc_string_bytes c |}).

Definition consume_string (value : text) : V unit := fun c =>
  let bytes := str_len value in
  if decide (max_string_bytes b < bytes) then (Err BudgetStringBytes, c)
  else
    let total := dc_string_bytes c + bytes in
    if decide (max_total_string_bytes b < total) then (Err BudgetTotalStringBytes, c)
    else (Ok tt, {| dc_depth := dc_depth c; dc_nodes := dc_nodes c; dc_string_bytes := total |}).

Definition enter_depth : V unit := fun c =>
  let next := dc_depth c + 1 in
  if decide (max_depth b < next) then (Err BudgetDepth, c)
  else (Ok tt, {| dc_depth := next; dc_nodes := dc_nodes c;
                  dc_string_bytes := dc_string_bytes c |}).

Definition exit_depth : V unit := fun c =>
  (Ok tt, {| dc_depth := dc_depth c - 1; dc_nodes := dc_nodes c;
             dc_string_bytes := dc_string_bytes c |}).

Definition scalar (value : Json) : V Json := do_ consume_node ;; ret value.

Definition finish {A} (broken : option text) (a : A) : V A :=
  match broken with None => ret a | Some message => fail (Syntax message) end.

(** [Map::insert]: a repeated key replaces the value. *)
Fixpoint map_insert (key : text) (value : Json) (entries : list (text * Json)) :
    list (text * Json) :=
  match entries with
  | [] => [(key, value)]
  | e :: entries' =>
      if bool_decide (e.1 = key) then (key, value) :: entries'
      else e :: map_insert key value entries'
  end.

Section containers.
Context (visit : JsonDoc -> V Json).

(** The loop of [visit_seq]. *)
Fixpoint visit_seq (items : list JsonDoc) (broken : option text) (acc : list Json) :
    V (list Json) :=
  match items with
  | [] => finish broken acc
  | item :: items' =>
      do v <- visit item ;;
      let acc := acc ++ [v] in
      if decide (max_array_len b < length acc) then fail BudgetArrayLen
      else visit_seq items' broken acc
  end.

(** The loop of [visit_map]. *)
Fixpoint visit_map (entries : list (text * JsonDoc)) (broken : option text) (keys : nat)
    (acc : list (text * Json)) : V (list (text * Json)) :=
  match entries with
  | [] => finish broken acc
  | (key, doc) :: entries' =>
      do_ consume_string key ;;
      let keys := keys + 1 in
      if decide (max_object_keys b < keys) then fail BudgetObjectKeys
      else
        do v <- visit doc ;;
        visit_map entries' broken keys (map_insert key v acc)
  end.
End containers.

Fixpoint visit (d : JsonDoc) : V Json :=
  match d with
  | DNull => scalar JNull
  | DBool x => scalar (JBool x)
  | DNumber n => scalar (JNumber n)
  | DString s => do_ consume_string s ;; scalar (JString s)
  | DArray items broken =>
      do_ enter_depth ;; do_ consume_node ;;
      do items <- visit_seq visit items broken [] ;;
      do_ exit_depth ;; ret (JArray items)
  | DObject entries broken =>
      do_ enter_depth ;; do_ consume_node ;;
      do entries <- visit_map visit entries broken 0 [] ;;
      do_ exit_depth ;; ret (JObject entries)
  | DInvalid message => fail (Syntax message)
  end.

(** ** The meaning of a document *)

Fixpoint value_of (d : JsonDoc) : Json :=
  match d with
  | DNull => JNull
  | DBool x => JBool x
  | DNumber n => JNumber n
  | DString s => JString s
  | DArray items _ => JArray (map value_of items)
  | DObject entries _ =>
      JObject (fold_left (fun acc e => map_insert e.1 (value_of e.2) acc) entries [])
  | DInvalid _ => JNull
  end.

Definition max_list (l : list nat) : nat := foldr max 0 l.

(** Containers around the deepest value. *)
Fixpoint doc_depth (d : JsonDoc) : nat :=
  match d with
  | DArray items _ => S (max_list (map doc_depth items))
  | DObject entries _ => S (max_list (map (fun e => doc_depth e.2) entries))
  | _ => 0
  end.

(** Values, keys not counted. *)
Fixpoint doc_nodes (d : JsonDoc) : nat :=
  match d with
  | DArray items _ => S (sum_list (map doc_nodes items))
  | DObject entries _ => S (sum_list (map (fun e => doc_nodes e.2) entries))
  | _ => 1
  end.

(** Bytes of all strings and keys. *)
Fixpoint doc_strings (d : JsonDoc) : nat :=
  match d with
  | DString s => str_len s
  | DArray items _ => sum_list (map doc_strings items)
  | DObject entries _ => sum_list (map (fun e => str_len e.1 + doc_strings e.2) entries)
  | _ => 0
  end.

(** Free of syntax errors, and every string, array and object within its own
    bound. *)
Fixpoint doc_within (d : JsonDoc) : Prop :=
  match d with
  | DString s => str_len s <= max_string_bytes b
  | DArray items broken =>
      broken = None /\ length items <= max_array_len b /\ Forall id (map doc_within items)
  | DObject entries broken =>
      broken = None /\ length entries <= max_object_keys b /\
      Forall id (map (fun e => str_len e.1 <= max_string_bytes b /\ doc_within e.2) entries)
  | DInvalid _ => False
  | _ => True
  end.

(** The document fits what is left of the budget. *)
Definition fits (c : DecodeCounters) (d : JsonDoc) : Prop :=
  doc_within d /\ dc_depth c + doc_depth d <= max_depth b /\
  dc_nodes c + doc_nodes d <= max_nodes b /\
  dc_string_bytes c + doc_strings d <= max_total_string_bytes b.

Definition advance (c : DecodeCounters) (nodes strings : nat) : DecodeCounters :=
  {| dc_depth := dc_depth c; dc_nodes := dc_nodes c + nodes;
     dc_string_bytes := dc_string_bytes c + strings |}.

Definition counters_ok (c : DecodeCounters) : Prop :=
  dc_depth c <= max_depth b /\ dc_nodes c <= max_nodes b /\
  dc_string_bytes c <= max_total_string_bytes b.
End visitor.

(** The third-party parser: the document it presents, and what it reports of the
    bytes after it. *)
Class JsonParser `{JN : JsonNumber} := {
  parse_document : bytes -> JsonDoc * option text;
}.

Definition decode_value `{JP : JsonParser} (input : bytes) (budget : JsonDecodeBudget) :
    result Json JsonDecodeError :=
  match from_utf8 input with
  | None => Err InvalidUtf8
  | Some _ =>
      let '(doc, trailing) := parse_document input in
      match visit budget doc counters_new with
      | (Err e, _) => Err e
      | (Ok value, _) =>
          match trailing with None => Ok value | Some message => Err (Syntax message) end
      end
  end.

(** The decoding budget is exact: a document is built exactly when it is valid and
    fits, the value built is the document's, and no counter ever passes its bound,
    also on the way to a refusal. *)

Section facts.
Context `{JN : JsonNumber} (b : JsonDecodeBudget).

Lemma doc_ind (P : JsonDoc -> Prop)
    (Hnull : P DNull) (Hbool : forall x, P (DBool x)) (Hnum : forall n, P (DNumber n))
    (Hstr : forall s, P (DString s))
    (Harr : forall items broken, Forall P items -> P (DArray items broken))
    (Hobj : forall entries broken, Forall (fun e => P e.2) entries -> P (DObject entries broken))
    (Hinv : forall m, P (DInvalid m)) :
  forall d, P d.
Proof.
  fix IH 1. intros [|x|n|s|items broken|entries broken|m];
    [done|apply Hbool|apply Hnum|apply Hstr| | |apply Hinv].
  - apply Harr. induction items as [|v items IHl]; constructor; [apply IH|exact IHl].
  - apply Hobj. induction entries as [|[k v] l IHl]; constructor; [apply IH|exact IHl].
Qed.

Lemma advance_add c n1 s1 n2 s2 :
  advance (advance c n1 s1) n2 s2 = advance c (n1 + n2) (s1 + s2).
Proof. unfold advance. cbn. by rewrite !Nat.add_assoc. Qed.

Lemma advance_0 c : advance c 0 0 = c.
Proof. destruct c. unfold advance. cbn. by rewrite !Nat.add_0_r. Qed.

(** ** The primitive steps *)

Lemma consume_node_iff c u c' :
  consume_node b c = (Ok u, c') <-> dc_nodes c + 1 <= max_nodes b /\ c' = advance c 1 0.
Proof.
  unfold consume_node, advance. destruct u. rewrite Nat.add_0_r. case_decide; split.
  - done.
  - intros []. lia.
  - intros [= <-]. split; [lia|done].
  - by intros [_ ->].
Qed.

Lemma consume_string_iff s c u c' :
  consume_string b s c = (Ok u, c') <->
  str_len s <= max_string_bytes b /\
  dc_string_bytes c + str_len s <= max_total_string_bytes b /\ c' = advance c 0 (str_len s).
Proof.
  unfold consume_string, advance. destruct u. rewrite Nat.add_0_r. repeat case_decide; split;
    try done; try (intros (? & ? & _); lia).
  - intros [= <-]. split; [lia|]. split; [lia|done].
  - by intros (_ & _ & ->).
Qed.

Definition deeper (c : DecodeCounters) : DecodeCounters :=
  {| dc_depth := dc_depth c + 1; dc_nodes := dc_nodes c; dc_string_bytes := dc_string_bytes c |}.

Lemma enter_depth_iff c u c' :
  enter_depth b c = (Ok u, c') <-> dc_depth c + 1 <= max_depth b /\ c' = deeper c.
Proof.
  unfold enter_depth, deeper. destruct u. case_decide; split.
  - done.
  - intros []. lia.
  - intros [= <-]. split; [lia|done].
  - by intros [_ ->].
Qed.

Lemma bind_Ok {S E A B} (m : M S E A) (f : A -> M S E B) s r s' :
  bind m f s = (Ok r, s') <-> exists a s1, m s = (Ok a, s1) /\ f a s1 = (Ok r, s').
Proof.
  unfold bind. destruct (m s) as [[a|e] s1]; split.
  - intros H. by exists a, s1.
  - by intros (a' & s2 & [= <- <-] & H).
  - done.
  - by intros (a' & s2 & [=] & _).
Qed.

Lemma finish_Ok {A} broken (a a' : A) c c' :
  finish broken a c = (Ok a', c') <-> broken = None /\ a' = a /\ c' = c.
Proof.
  destruct broken; cbn; split; [done|by intros (? & _)|by intros [= <- <-]|].
  by intros (_ & -> & ->).
Qed.

Lemma max_list_le l n : max_list l <= n <-> Forall (fun x => x <= n) l.
Proof.
  induction l as [|x l IH]; [cbn; split; [constructor|lia]|].
  change (max_list (x :: l)) with (Nat.max x (max_list l)). rewrite Forall_cons, <- IH. lia.
Qed.

(** ** Visiting *)

Definition visits (d : JsonDoc) : Prop := forall c v c', counters_ok b c ->
  (visit b d c = (Ok v, c') <->
   fits b c d /\ v = value_of d /\ c' = advance c (doc_nodes d) (doc_strings d)).

Lemma fits_counters c d :
  counters_ok b c -> fits b c d -> counters_ok b (advance c (doc_nodes d) (doc_strings d)).
Proof. intros (Hd & _ & _) (_ & _ & Hn & Hs). by split_and!. Qed.

(** What is left of the budget holds containers' items. *)
Definition room (c : DecodeCounters) (depths : list nat) (nodes strings : nat) : Prop :=
  Forall (fun d => dc_depth c + d <= max_depth b) depths /\
  dc_nodes c + nodes <= max_nodes b /\ dc_string_bytes c + strings <= max_total_string_bytes b.

Definition item_nodes (items : list JsonDoc) : nat := sum_list (map doc_nodes items).
Definition item_strings (items : list JsonDoc) : nat := sum_list (map doc_strings items).

Definition fits_items (c : DecodeCounters) (items : list JsonDoc) (broken : option text) (n : nat) :
    Prop :=
  broken = None /\ n + length items <= max_array_len b /\
  Forall id (map (doc_within b) items) /\
  room c (map doc_depth items) (item_nodes items) (item_strings items).

Lemma visit_seq_iff items broken : Forall visits items -> forall acc c vs c',
  counters_ok b c -> length acc <= max_array_len b ->
  (visit_seq b (visit b) items broken acc c = (Ok vs, c') <->
   fits_items c items broken (length acc) /\ vs = acc ++ map value_of items /\
   c' = advance c (item_nodes items) (item_strings items)).
Proof.
  unfold item_nodes, item_strings.
  induction 1 as [|d items Hd _ IH]; intros acc c vs c' Hc Hacc; cbn [visit_seq].
  - rewrite finish_Ok. cbn. rewrite app_nil_r, advance_0. split.
    + intros (-> & -> & ->). destruct Hc as (? & ? & ?).
      split; [|done]. split; [done|]. split; [cbn; lia|]. split; [constructor|].
      split; [constructor|]. split; cbn; lia.
    + by intros ((-> & _) & -> & ->).
  - rewrite bind_Ok. split.
    + intros (v & c1 & (Hf & -> & ->)%Hd & Hrest); [|done].
      pose proof (fits_counters _ _ Hc Hf) as Hc1. destruct Hf as (Hw & Hdp & Hn & Hs).
      revert Hrest. case_decide as Hlen; [done|].
      intros ((-> & Hl & Hws & Hds & Hns & Hss) & -> & ->)%IH; [|done|lia].
      rewrite length_app in Hl. unfold item_nodes, item_strings in *. cbn in *.
      rewrite <- (assoc_L (++)), advance_add. split; [|done].
      split; [done|]. split; [cbn; lia|]. split; [by constructor|].
      split; [constructor; [exact Hdp|exact Hds]|]. unfold item_nodes, item_strings. cbn. lia.
    + intros ((-> & Hl & Hws & Hds & Hns & Hss) & -> & ->). cbn in Hws, Hds, Hns, Hss, Hl.
      apply Forall_cons in Hws as [Hw Hws]. apply Forall_cons in Hds as [Hdp Hds].
      assert (Hf : fits b c d) by (split_and!; (exact Hw || lia)).
      exists (value_of d), (advance c (doc_nodes d) (doc_strings d)).
      split; [by apply Hd|]. rewrite length_app. cbn [length]. rewrite decide_False by lia.
      apply IH; [by apply fits_counters|rewrite length_app; cbn; lia|].
      cbn [map sum_list]. rewrite <- (assoc_L (++)), advance_add. split; [|done].
      split; [done|]. split; [rewrite length_app; cbn; lia|]. split; [done|].
      split; [exact Hds|]. unfold item_nodes, item_strings. cbn. lia.
Qed.

Definition insert_entry (acc : list (text * Json)) (e : text * JsonDoc) : list (text * Json) :=
  map_insert e.1 (value_of e.2) acc.

Definition entry_nodes (entries : list (text * JsonDoc)) : nat :=
  sum_list (map (fun e => doc_nodes e.2) entries).
Definition entry_strings (entries : list (text * JsonDoc)) : nat :=
  sum_list (map (fun e => str_len e.1 + doc_strings e.2) entries).

Definition fits_entries (c : DecodeCounters) (entries : list (text * JsonDoc))
    (broken : option text) (n : nat) : Prop :=
  broken = None /\ n + length entries <= max_object_keys b /\
  Forall id (map (fun e => str_len e.1 <= max_string_bytes b /\ doc_within b e.2) entries) /\
  room c (map (fun e => doc_depth e.2) entries) (entry_nodes entries) (entry_strings entries).

Lemma visit_map_iff entries broken : Forall (fun e => visits e.2) entries -> forall n acc c es c',
  counters_ok b c -> n <= max_object_keys b ->
  (visit_map b (visit b) entries broken n acc c = (Ok es, c') <->
   fits_entries c entries broken n /\ es = fold_left insert_entry entries acc /\
   c' = advance c (entry_nodes entries) (entry_strings entries)).
Proof.
  unfold entry_nodes, entry_strings.
  induction 1 as [|[k d] entries Hd _ IH]; intros n acc c es c' Hc Hn0; cbn [visit_map].
  - rewrite finish_Ok. cbn. rewrite advance_0. split.
    + intros (-> & -> & ->). destruct Hc as (? & ? & ?).
      split; [|done]. split; [done|]. split; [cbn; lia|]. split; [constructor|].
      split; [constructor|]. split; cbn; lia.
    + by intros ((-> & _) & -> & ->).
  - cbn [snd] in Hd. rewrite bind_Ok. split.
    + intros ([] & c0 & (Hk & Hks & ->)%consume_string_iff & Hrest). revert Hrest.
      case_decide as Hlen; [done|].
      assert (Hc0 : counters_ok b (advance c 0 (str_len k)))
        by (destruct Hc as (? & ? & ?); split_and!; cbn; lia).
      intros (v & c1 & (Hf & -> & ->)%Hd & Hrest)%bind_Ok; [|done].
      pose proof (fits_counters _ _ Hc0 Hf) as Hc1. destruct Hf as (Hw & Hdp & Hn & Hs).
      apply IH in Hrest as ((-> & Hl & Hws & Hds & Hns & Hss) & -> & ->); [|done|lia].
      unfold entry_nodes, entry_strings in *. cbn in *.
      rewrite !advance_add. split; [|split; [done|f_equal; lia]].
      split; [done|]. split; [cbn; lia|]. split; [by constructor|].
      split; [constructor; [exact Hdp|exact Hds]|]. unfold entry_nodes, entry_strings. cbn. lia.
    + intros ((-> & Hl & Hws & Hds & Hns & Hss) & -> & ->). cbn in Hws, Hds, Hns, Hss, Hl.
      apply Forall_cons in Hws as [[Hk Hw] Hws]. apply Forall_cons in Hds as [Hdp Hds].
      cbn [fst snd] in Hk, Hw, Hdp.
      assert (Hc0 : counters_ok b (advance c 0 (str_len k)))
        by (destruct Hc as (? & ? & ?); split_and!; cbn; lia).
      assert (Hf : fits b (advance c 0 (str_len k)) d) by (split_and!; cbn; (exact Hw || lia)).
      exists tt, (advance c 0 (str_len k)). split; [apply consume_string_iff; split_and!; lia || done|].
      rewrite decide_False by lia. apply bind_Ok.
      exists (value_of d), (advance (advance c 0 (str_len k)) (doc_nodes d) (doc_strings d)).
      split; [by apply Hd|]. apply IH; [by apply fits_counters|lia|].
      cbn [map sum_list fst snd]. rewrite !advance_add.
      split; [|split; [done|cbn; f_equal; lia]].
      split; [done|]. split; [lia|]. split; [done|].
      split; [exact Hds|]. unfold entry_nodes, entry_strings. cbn. lia.
Qed.

(** A container: its own depth and node, the loop over what it holds, and out. *)
Lemma container_Ok {A} (m : M DecodeCounters JsonDecodeError A) (f : A -> Json) c v c' :
  bind (enter_depth b) (fun _ => bind (consume_node b) (fun _ =>
    bind m (fun a => bind (exit_depth) (fun _ => ret (f a))))) c = (Ok v, c') <->
  dc_depth c + 1 <= max_depth b /\ dc_nodes c + 1 <= max_nodes b /\
  exists a c1, m (advance (deeper c) 1 0) = (Ok a, c1) /\ v = f a /\
    c' = {| dc_depth := dc_depth c1 - 1; dc_nodes := dc_nodes c1;
            dc_string_bytes := dc_string_bytes c1 |}.
Proof.
  rewrite bind_Ok. split.
  - intros ([] & c0 & (Hd & ->)%enter_depth_iff & H). apply bind_Ok in H as
      ([] & c1 & (Hn & ->)%consume_node_iff & H). apply bind_Ok in H as (a & c2 & Hm & H).
    cbn in H. injection H as <- <-. split; [done|]. split; [done|]. by exists a, c2.
  - intros (Hd & Hn & a & c1 & Hm & -> & ->). exists tt, (deeper c).
    split; [by apply enter_depth_iff|]. apply bind_Ok. exists tt, (advance (deeper c) 1 0).
    split; [by apply consume_node_iff|]. apply bind_Ok. by exists a, c1.
Qed.

(** What a container's items need is what the container needs, one level out. *)
Lemma room_container c depths nodes strings :
  (dc_depth c + 1 <= max_depth b /\ dc_nodes c + 1 <= max_nodes b /\
   room (advance (deeper c) 1 0) depths nodes strings) <->
  (dc_depth c + S (max_list depths) <= max_depth b /\ dc_nodes c + S nodes <= max_nodes b /\
   dc_string_bytes c + strings <= max_total_string_bytes b).
Proof.
  unfold room. cbn.
  assert (Hd : Forall (fun d => dc_depth c + 1 + d <= max_depth b) depths /\
    dc_depth c + 1 <= max_depth b <-> dc_depth c + S (max_list depths) <= max_depth b).
  { induction depths as [|d depths IH].
    - cbn. rewrite Forall_nil. split; [intros [_ ?]; lia|intros ?; split; [done|lia]].
    - rewrite Forall_cons. change (max_list (d :: depths)) with (Nat.max d (max_list depths)).
      split; [intros [[? ?] ?]|intros ?].
      + assert (dc_depth c + S (max_list depths) <= max_depth b) by (apply IH; by split). lia.
      + assert (dc_depth c + S (max_list depths) <= max_depth b) as [? ?]%IH by lia.
        split_and!; (done || lia). }
  split.
  - intros (? & ? & ? & ? & ?). split; [by apply Hd|]. lia.
  - intros ([? ?]%Hd & ? & ?). split_and!; (done || lia).
Qed.

Lemma deeper_ok c :
  counters_ok b c -> dc_depth c + 1 <= max_depth b -> dc_nodes c + 1 <= max_nodes b ->
  counters_ok b (advance (deeper c) 1 0).
Proof. intros (? & ? & ?) ? ?. split_and!; cbn; lia. Qed.

Lemma leave_deeper c n s :
  {| dc_depth := dc_depth (advance (advance (deeper c) 1 0) n s) - 1;
     dc_nodes := dc_nodes (advance (advance (deeper c) 1 0) n s);
     dc_string_bytes := dc_string_bytes (advance (advance (deeper c) 1 0) n s) |} =
  advance c (S n) s.
Proof. unfold advance. cbn. f_equal; lia. Qed.

Lemma scalar_iff j c v c' :
  scalar b j c = (Ok v, c') <-> dc_nodes c + 1 <= max_nodes b /\ v = j /\ c' = advance c 1 0.
Proof.
  unfold scalar. rewrite bind_Ok. split.
  - intros ([] & c1 & (Hn & ->)%consume_node_iff & [= <- <-]). done.
  - intros (Hn & -> & ->). exists tt, (advance c 1 0). split; [by apply consume_node_iff|done].
Qed.

Lemma visit_array items broken : Forall visits items -> visits (DArray items broken).
Proof.
  intros IH c v c' Hc. cbn [visit]. rewrite container_Ok.
  unfold fits. cbn [doc_within doc_depth doc_nodes doc_strings value_of].
  fold (item_nodes items) (item_strings items). split.
  - intros (Hd & Hn & a & c1 & Hm & -> & ->).
    apply visit_seq_iff in Hm as ((-> & Hl & Hw & Hroom) & -> & ->);
      [|done|by apply deeper_ok|cbn; lia].
    rewrite leave_deeper. split; [|done].
    split; [by split_and!|]. by apply room_container.
  - intros (((-> & Hl & Hw) & (Hd & Hn & Hroom)%room_container) & -> & ->).
    split; [done|]. split; [done|].
    exists (map value_of items), (advance (advance (deeper c) 1 0) (item_nodes items) (item_strings items)).
    rewrite leave_deeper. split; [|done]. apply visit_seq_iff; [done|by apply deeper_ok|cbn; lia|].
    by split_and!.
Qed.

Lemma visit_object entries broken :
  Forall (fun e => visits e.2) entries -> visits (DObject entries broken).
Proof.
  intros IH c v c' Hc. cbn [visit]. rewrite container_Ok.
  unfold fits. cbn [doc_within doc_depth doc_nodes doc_strings value_of].
  fold (entry_nodes entries) (entry_strings entries). split.
  - intros (Hd & Hn & a & c1 & Hm & -> & ->).
    apply visit_map_iff in Hm as ((-> & Hl & Hw & Hroom) & -> & ->);
      [|done|by apply deeper_ok|lia].
    rewrite leave_deeper. split; [|done].
    split; [by split_and!|]. by apply room_container.
  - intros (((-> & Hl & Hw) & (Hd & Hn & Hroom)%room_container) & -> & ->).
    split; [done|]. split; [done|].
    exists (fold_left insert_entry entries []),
      (advance (advance (deeper c) 1 0) (entry_nodes entries) (entry_strings entries)).
    rewrite leave_deeper. split; [|done]. apply visit_map_iff; [done|by apply deeper_ok|lia|].
    by split_and!.
Qed.

Lemma visit_iff d : visits d.
Proof.
  induction d as [|x|n|s|items broken IH|entries broken IH|m] using doc_ind.
  5: by apply visit_array. 5: by apply visit_object.
  all: intros c v c' Hc; cbn [visit]; unfold fits; cbn [doc_within doc_depth doc_nodes doc_strings value_of].
  5: { split; [done|]. by intros (([] & _) & _). }
  4: { rewrite bind_Ok. destruct Hc as (? & ? & ?). split.
    - intros ([] & c1 & (Hk & Hs & ->)%consume_string_iff & (Hn & -> & ->)%scalar_iff).
      rewrite advance_add, (Nat.add_0_r (str_len s)). cbn in Hn. split; [|done]. split_and!; (done || lia).
    - intros ((Hk & _ & Hn & Hs) & -> & ->). exists tt, (advance c 0 (str_len s)).
      split; [by apply consume_string_iff|]. apply scalar_iff. rewrite advance_add, (Nat.add_0_r (str_len s)).
      cbn. split_and!; (done || lia). }
  all: rewrite scalar_iff; destruct Hc as (? & ? & ?); split;
    [intros (Hn & -> & ->); split_and!; (done || lia)|
     intros ((_ & _ & Hn & _) & -> & ->); split_and!; (done || lia)].
Qed.

(** ** Every counter stays within its bound *)

Lemma bind_counters {A B} (m : M DecodeCounters JsonDecodeError A)
    (f : A -> M DecodeCounters JsonDecodeError B) c :
  counters_ok b (m c).2 -> (forall a c', m c = (Ok a, c') -> counters_ok b (f a c').2) ->
  counters_ok b (bind m f c).2.
Proof. unfold bind. destruct (m c) as [[a|e] c']; cbn; auto. Qed.

Lemma consume_node_counters c : counters_ok b c -> counters_ok b (consume_node b c).2.
Proof.
  intros (? & ? & ?). unfold consume_node. case_decide; cbn; split_and!; cbn; (done || lia).
Qed.

Lemma consume_string_counters s c : counters_ok b c -> counters_ok b (consume_string b s c).2.
Proof.
  intros (? & ? & ?). unfold consume_string.
  repeat case_decide; cbn; split_and!; cbn; (done || lia).
Qed.

Lemma enter_depth_counters c : counters_ok b c -> counters_ok b (enter_depth b c).2.
Proof.
  intros (? & ? & ?). unfold enter_depth. case_decide; cbn; split_and!; cbn; (done || lia).
Qed.

Lemma exit_depth_counters c : counters_ok b c -> counters_ok b (exit_depth c).2.
Proof. intros (? & ? & ?). split_and!; cbn; (done || lia). Qed.

Lemma finish_counters {A} broken (a : A) c : counters_ok b c -> counters_ok b (finish broken a c).2.
Proof. by destruct broken. Qed.

Create HintDb counters.
#[local] Hint Resolve consume_node_counters consume_string_counters enter_depth_counters
  exit_depth_counters finish_counters : counters.

(** One step of a chain whose parts keep the counters. *)
Ltac next_counters :=
  apply bind_counters; [auto with counters|];
  let a := fresh "a" in let c' := fresh "c" in let Heq := fresh "Heq" in
  intros a c' Heq;
  match type of Heq with
  | ?m ?c = _ =>
      let Hok := fresh "Hok" in
      assert (Hok : counters_ok b c') by
        (change c' with (Ok (E := JsonDecodeError) a, c').2; rewrite <- Heq; auto with counters)
  end; clear Heq.

Lemma visit_seq_counters items broken :
  Forall (fun d => forall c, counters_ok b c -> counters_ok b (visit b d c).2) items ->
  forall acc c, counters_ok b c -> counters_ok b (visit_seq b (visit b) items broken acc c).2.
Proof.
  induction 1 as [|d items Hd _ IH]; intros acc c Hc; cbn [visit_seq]; [auto with counters|].
  next_counters. case_decide; [done|by apply IH].
Qed.

Lemma visit_map_counters entries broken :
  Forall (fun e => forall c, counters_ok b c -> counters_ok b (visit b e.2 c).2) entries ->
  forall n acc c, counters_ok b c ->
  counters_ok b (visit_map b (visit b) entries broken n acc c).2.
Proof.
  induction 1 as [|[k d] entries Hd _ IH]; intros n acc c Hc; cbn [visit_map]; [auto with counters|].
  cbn [snd] in Hd. next_counters. case_decide; [done|]. next_counters. by apply IH.
Qed.

Lemma visit_counters d : forall c, counters_ok b c -> counters_ok b (visit b d c).2.
Proof.
  induction d as [|x|n|s|items broken IH|entries broken IH|m] using doc_ind;
    intros c Hc; cbn [visit]; unfold scalar; try done.
  1-3: by next_counters.
  - next_counters. by next_counters.
  - pose proof (visit_seq_counters items broken IH) as Hseq. do 4 next_counters. done.
  - pose proof (visit_map_counters entries broken IH) as Hmap. do 4 next_counters. done.
Qed.

Lemma counters_new_ok : counters_ok b counters_new.
Proof. split_and!; cbn; lia. Qed.

(** C34. The decoding budget is exact: [decode_value] accepts a frame precisely when
    it is one complete JSON document in valid UTF-8 whose nesting, number of
    values, total string bytes, longest string and widest containers are within
    the budget, and then returns the document's value; and however the parser
    behaves, also on its way to a refusal, no counter ever passes its bound, so
    what is built is bounded by the budget and not by the frame. *)
Theorem decode_budget_exact `{JP : !JsonParser} input v :
  (decode_value input b = Ok v <->
   is_Some (from_utf8 input) /\
   exists doc, parse_document input = (doc, None) /\ v = value_of doc /\ doc_within b doc /\
     doc_depth doc <= max_depth b /\ doc_nodes doc <= max_nodes b /\
     doc_strings doc <= max_total_string_bytes b) /\
  counters_ok b (visit b (parse_document input).1 counters_new).2.
Proof.
  split; [|apply visit_counters, counters_new_ok].
  unfold decode_value. destruct (from_utf8 input) as [t|]; [|split; [done|by intros [[] _]]].
  destruct (parse_document input) as [doc trailing].
  split.
  - destruct (visit b doc counters_new) as [[w|e] c'] eqn:E; [|done].
    destruct trailing; [done|]. intros [= <-]. split; [done|]. exists doc. split; [done|].
    apply visit_iff in E as ((Hw & Hd & Hn & Hs) & -> & _); [by split_and!|apply counters_new_ok].
  - intros (_ & doc' & [= <- ->] & -> & Hw & Hd & Hn & Hs).
    assert (E : visit b doc counters_new =
      (Ok (value_of doc), advance counters_new (doc_nodes doc) (doc_strings doc)))
      by (apply visit_iff; [apply counters_new_ok|by split_and!]).
    by rewrite E.
Qed.

End facts.
