(* ===== verification/Retry.v ===== *)
(** Retries of a model call (provider-openai/retry.rs): the schedule and its jitter,
    the two retry credits, the usage that failed attempts already reported, and the
    three call modes (unary, live stream, buffered stream) around an inner transport.

    A [Duration] is a number of nanoseconds. What the inner transport does in each
    attempt, what the sink answers and when the request is cancelled is the record
    [CallEnv]; the theorems quantify over it. *)

From S2P Require Import Prelude Text Digest Jcs Operation Kernel.

(** ** The types of agent-contracts/model.rs *)

Inductive ModelChunk : Type :=
| TextDelta (delta : text)
| ToolCallDelta (call_id : text) (name : option text) (arguments_delta : text)
| Retrying (attempt delay_ms : N)
| Done.

Record ModelOutput `{JN : JsonNumber} : Type := {
  mo_content : text;
  mo_tool_calls : list ToolCall;
  mo_usage : ModelUsage;
}.

(** ** Errors (agent-contracts/error.rs) *)

Definition RETRY_AFTER_MAX_MILLIS : N := 60000.

(** [RetryAfterMillis::new], [new_saturating]. *)
Definition retry_after_new (millis : N) : option N :=
  if (millis <=? RETRY_AFTER_MAX_MILLIS)%N then Some millis else None.

Definition retry_after_saturating (millis : N) : N :=
  if (RETRY_AFTER_MAX_MILLIS <? millis)%N then RETRY_AFTER_MAX_MILLIS else millis.

Definition failed_with_usage (usage : ModelUsage) (source : AgentError) : AgentError :=
  if has_any_reported usage then FailedWithUsage usage source else source.

Definition reported_usage (e : AgentError) : option ModelUsage :=
  match e with
  | EmptyCompactionSummary usage => Some usage
  | FailedWithUsage usage _ => Some usage
  | _ => None
  end.

Definition failure_source (e : AgentError) : AgentError :=
  match e with FailedWithUsage _ source => source | other => other end.

(** ** The schedule *)

Definition NANOS_PER_MILLI : N := 1000000.
Definition DURATION_MAX : N := (u64_max * 1000000000 + 999999999)%N.
Definition from_millis (ms : N) : N := (ms * NANOS_PER_MILLI)%N.

Definition DEFAULT_MAX_RETRY_DELAY : N := (60 * 1000000000)%N.
Definition MAX_BUFFERED_STREAM_CHUNKS : N := 16384.
Definition MAX_TOOL_FORMAT_ATTEMPTS : N := 2.
Definition DEFAULT_MAX_STREAM_BYTES : N := (16 * 1024 * 1024)%N.

Record RetrySchedule : Type := {
  rs_base_delay : N;
  rs_max_delay : N;
  rs_jitter : N -> N -> N;
}.

(** [1u32.checked_shl(exponent).unwrap_or(u32::MAX)]. *)
Definition multiplier (exponent : N) : N :=
  if (exponent <? 32)%N then N.shiftl 1%N exponent else u32_max.

(** [Duration::checked_mul]. *)
Definition checked_mul_duration (d m : N) : option N :=
  if (d * m <=? DURATION_MAX)%N then Some (d * m)%N else None.

Definition delay (s : RetrySchedule) (retry_number : N) (error : AgentError) : N :=
  let exponential :=
    N.min (default (rs_max_delay s) (checked_mul_duration (rs_base_delay s) (multiplier (retry_number - 1)%N)))
      (rs_max_delay s) in
  let jittered := N.min (rs_jitter s exponential retry_number) (rs_max_delay s) in
  let retry_after :=
    match error with
    | TransportRetryAfter ms _ => N.min (from_millis ms) (rs_max_delay s)
    | _ => 0%N
    end in
  N.max jittered retry_after.

(** The mixed sample of [default_jitter]: [state] is the value of the process-wide
    counter and [clock] the clock bits, both 64-bit. *)
Definition jitter_sample (state clock retry_number : N) : N :=
  let sample := N.lxor (N.lxor state retry_number) clock in
  let sample := N.lxor sample (N.shiftr sample 30) in
  let sample := wrapping_mul sample 13787848793156543929 in
  let sample := N.lxor sample (N.shiftr sample 27) in
  let sample := wrapping_mul sample 10723151780598845931 in
  N.lxor sample (N.shiftr sample 31).

Definition default_jitter (state clock d retry_number : N) : N :=
  if (d =? 0)%N then d
  else
    let floor := (d / 2)%N in
    let span := N.min (d - floor)%N u64_max in
    let extra := (jitter_sample state clock retry_number mod saturating_add span 1)%N in
    let jittered := (floor + extra)%N in
    N.min (if (jittered <=? DURATION_MAX)%N then jittered else d) d.

(** [with_max_delay]. *)
Definition with_max_delay (max_delay : N) (s : RetrySchedule) : RetrySchedule :=
  {| rs_base_delay := rs_base_delay s;
     rs_max_delay := N.min max_delay (from_millis RETRY_AFTER_MAX_MILLIS);
     rs_jitter := rs_jitter s |}.

(** ** Classes and credits *)

Inductive RetryClass : Type := ClassTransport | ClassToolCallFormat.

#[export] Instance RetryClass_eq_dec : EqDecision RetryClass.
Proof. solve_decision. Defined.

Definition retry_class (error : AgentError) : option RetryClass :=
  match failure_source error with
  | Transport true _ | TransportRetryAfter _ _ => Some ClassTransport
  | ModelProtocol MalformedToolCall _ => Some ClassToolCallFormat
  | _ => None
  end.

Definition is_cancellation (error : AgentError) : bool :=
  match failure_source error with Cancelled => true | _ => false end.

(** [u32::clamp(1, 2)]. *)
Definition retry_attempt_limit (class : RetryClass) (configured : N) : N :=
  match class with
  | ClassTransport => N.max configured 1
  | ClassToolCallFormat => N.min (N.max configured 1) MAX_TOOL_FORMAT_ATTEMPTS
  end.

Record RetryBudget : Type := {
  rb_attempts : N;
  rb_transport_failures : N;
  rb_format_failures : N;
  rb_transport_attempt_limit : N;
  rb_format_attempt_limit : N;
  rb_total_attempt_limit : N;
}.

Record RetryReservation : Type := {
  rv_next_attempt : N;
  rv_total_attempt_limit : N;
  rv_class_retry_number : N;
}.

Definition sat_add32 (a b : N) : N := N.min (a + b)%N u32_max.

Definition new_budget (configured : N) : RetryBudget :=
  let transport := retry_attempt_limit ClassTransport configured in
  let format := retry_attempt_limit ClassToolCallFormat configured in
  {| rb_attempts := 1; rb_transport_failures := 0; rb_format_failures := 0;
     rb_transport_attempt_limit := transport; rb_format_attempt_limit := format;
     rb_total_attempt_limit := sat_add32 transport (format - 1)%N |}.

(** The failure is counted also where no retry is left. *)
Definition reserve_retry (class : RetryClass) (b : RetryBudget) : option RetryReservation * RetryBudget :=
  let '(failures, limit) :=
    match class with
    | ClassTransport => (sat_add32 (rb_transport_failures b) 1, rb_transport_attempt_limit b)
    | ClassToolCallFormat => (sat_add32 (rb_format_failures b) 1, rb_format_attempt_limit b)
    end in
  let counted (attempts : N) :=
    {| rb_attempts := attempts;
       rb_transport_failures := match class with ClassTransport => failures | _ => rb_transport_failures b end;
       rb_format_failures := match class with ClassToolCallFormat => failures | _ => rb_format_failures b end;
       rb_transport_attempt_limit := rb_transport_attempt_limit b;
       rb_format_attempt_limit := rb_format_attempt_limit b;
       rb_total_attempt_limit := rb_total_attempt_limit b |} in
  if (limit <=? failures)%N || (rb_total_attempt_limit b <=? rb_attempts b)%N
  then (None, counted (rb_attempts b))
  else
    let attempts := sat_add32 (rb_attempts b) 1 in
    (Some {| rv_next_attempt := attempts; rv_total_attempt_limit := rb_total_attempt_limit b;
             rv_class_retry_number := failures |}, counted attempts).

Definition retry_delay (class : RetryClass) (s : RetrySchedule) (attempt : N) (error : AgentError) : N :=
  match class with ClassTransport => delay s attempt error | ClassToolCallFormat => 0%N end.

(** [as_millis().min(u64::MAX)]. *)
Definition as_delay_ms (d : N) : N := N.min (d / NANOS_PER_MILLI)%N u64_max.

(** ** Records *)

Record RetryIncident : Type := {
  ri_call_seq : N;
  ri_class : RetryClass;
  ri_attempt : N;
  ri_class_retry_number : N;
  ri_total_attempt_limit : N;
  ri_delay_ms : N;
}.

Inductive StageOutcome : Type := Clean | Recovered | GaveUp | StageCancelled.

Record CallStage : Type := {
  cs_call_seq : N;
  cs_attempts : N;
  cs_transport_retries : N;
  cs_format_retries : N;
  cs_outcome : StageOutcome;
  cs_known_usage : option ModelUsage;
}.

Definition final_stage (b : RetryBudget) (succeeded : bool) (last_class : option RetryClass) (call_seq : N) : CallStage :=
  let '(transport, format) :=
    match succeeded, last_class with
    | false, Some ClassTransport => ((rb_transport_failures b - 1)%N, rb_format_failures b)
    | false, Some ClassToolCallFormat => (rb_transport_failures b, (rb_format_failures b - 1)%N)
    | _, _ => (rb_transport_failures b, rb_format_failures b)
    end in
  {| cs_call_seq := call_seq; cs_attempts := rb_attempts b;
     cs_transport_retries := transport; cs_format_retries := format;
     cs_outcome := if negb succeeded then GaveUp
                   else if (sat_add32 transport format =? 0)%N then Clean else Recovered;
     cs_known_usage := None |}.

Definition cancelled_stage (b : RetryBudget) (call_seq : N) : CallStage :=
  {| cs_call_seq := call_seq; cs_attempts := rb_attempts b;
     cs_transport_retries := rb_transport_failures b; cs_format_retries := rb_format_failures b;
     cs_outcome := StageCancelled; cs_known_usage := None |}.

Inductive RetryRecord : Type :=
| OnIncident (incident : RetryIncident)
| OnStage (stage : CallStage).

(** ** Known usage *)

(** The [add] of [merge_known_usage]. *)
Definition add_counter (target source : option N) : option N :=
  match target, source with
  | None, None => None
  | _, _ => Some (saturating_add (default 0%N target) (default 0%N source))
  end.

Definition merge_known_usage (total addition : ModelUsage) : ModelUsage :=
  {| mu_input_tokens := add_counter (mu_input_tokens total) (mu_input_tokens addition);
     mu_output_tokens := add_counter (mu_output_tokens total) (mu_output_tokens addition);
     mu_cached_input_tokens := add_counter (mu_cached_input_tokens total) (mu_cached_input_tokens addition);
     mu_cache_write_input_tokens :=
       add_counter (mu_cache_write_input_tokens total) (mu_cache_write_input_tokens addition);
     mu_cache_miss_input_tokens :=
       add_counter (mu_cache_miss_input_tokens total) (mu_cache_miss_input_tokens addition);
     mu_attempts := mu_attempts total; mu_retries := mu_retries total |}.

(** [KnownAttemptUsage]: [settle], [settle_failure]. *)
Definition settle (usage : ModelUsage) (known : option ModelUsage) : option ModelUsage :=
  match known with
  | Some total => Some (merge_known_usage total usage)
  | None => Some usage
  end.

Definition settle_failure (error : AgentError) (known : option ModelUsage) : option ModelUsage :=
  match reported_usage error with Some usage => settle usage known | None => known end.

Definition terminal_error (error : AgentError) (known : option ModelUsage) : AgentError :=
  match known with
  | None => failure_source error
  | Some usage => failed_with_usage usage (failure_source error)
  end.

Definition stamp_attempt_usage `{JN : JsonNumber} (output : ModelOutput) (attempts : N) : ModelOutput :=
  let u := mo_usage output in
  {| mo_content := mo_content output; mo_tool_calls := mo_tool_calls output;
     mo_usage :=
       {| mu_input_tokens := mu_input_tokens u; mu_output_tokens := mu_output_tokens u;
          mu_cached_input_tokens := mu_cached_input_tokens u;
          mu_cache_write_input_tokens := mu_cache_write_input_tokens u;
          mu_cache_miss_input_tokens := mu_cache_miss_input_tokens u;
          mu_attempts := N.max attempts 1; mu_retries := (N.max attempts 1 - 1)%N |} |}.

(** [merge_known_usage(&mut output.usage, &usage)] where there is known usage. *)
Definition with_known_usage `{JN : JsonNumber} (known : option ModelUsage) (output : ModelOutput) : ModelOutput :=
  match known with
  | Some usage =>
      {| mo_content := mo_content output; mo_tool_calls := mo_tool_calls output;
         mo_usage := merge_known_usage (mo_usage output) usage |}
  | None => output
  end.

(** ** The buffer of one attempt *)

Record BufferedState : Type := {
  bs_chunks : list ModelChunk;
  bs_received_chunks : N;
  bs_bytes : N;
  bs_limit_error : option (LocalResourceLimitKind * N * N);
}.

Definition new_buffer : BufferedState :=
  {| bs_chunks := []; bs_received_chunks := 0; bs_bytes := 0; bs_limit_error := None |}.

Definition buffer_limit_error (e : LocalResourceLimitKind * N * N) : AgentError :=
  LocalResourceLimit e.1.1 e.1.2 e.2.

(** What the allocator answers: the size of a chunk in place, and the capacity of a
    string. *)
Class Allocator := {
  chunk_size : N;
  capacity : text -> N;
}.

Section buffer.
Context {AL : Allocator}.

Definition buffered_chunk_bytes (chunk : ModelChunk) : N :=
  saturating_add chunk_size
    match chunk with
    | TextDelta delta => capacity delta
    | ToolCallDelta call_id name arguments_delta =>
        saturating_add (saturating_add (capacity call_id) (from_option capacity 0%N name)) (capacity arguments_delta)
    | Retrying _ _ | Done => 0%N
    end.

(** [BufferedSink::on_chunk]. *)
Definition buffer_chunk (max_chunks max_bytes : N) (chunk : ModelChunk) (s : BufferedState) :
    AgentResult unit * BufferedState :=
  match bs_limit_error s with
  | Some e => (Err (buffer_limit_error e), s)
  | None =>
      let next_chunks := saturating_add (bs_received_chunks s) 1 in
      let next_bytes := saturating_add (bs_bytes s) (buffered_chunk_bytes chunk) in
      let limit_error :=
        if (max_chunks <? next_chunks)%N then Some (BufferedModelStreamChunks, next_chunks, max_chunks)
        else if (max_bytes <? next_bytes)%N then Some (BufferedModelStreamBytes, next_bytes, max_bytes)
        else None in
      match limit_error with
      | Some e =>
          (Err (buffer_limit_error e),
           {| bs_chunks := bs_chunks s; bs_received_chunks := bs_received_chunks s; bs_bytes := bs_bytes s;
              bs_limit_error := Some e |})
      | None =>
          (Ok tt,
           {| bs_chunks := bs_chunks s ++ [chunk]; bs_received_chunks := next_chunks; bs_bytes := next_bytes;
              bs_limit_error := None |})
      end
  end.

(** [BufferedSink::take]. *)
Definition take_buffer (s : BufferedState) : AgentResult (list ModelChunk) :=
  match bs_limit_error s with Some e => Err (buffer_limit_error e) | None => Ok (bs_chunks s) end.

Definition buffer_all (max_chunks max_bytes : N) (chunks : list ModelChunk) : BufferedState :=
  foldl (fun s chunk => (buffer_chunk max_chunks max_bytes chunk s).2) new_buffer chunks.

End buffer.

(** ** Calls *)

(** One attempt of the inner transport: the chunks it hands to the sink it was
    given (whatever the sink answers), and what it returns. *)
Record Attempt `{JN : JsonNumber} : Type := {
  at_chunks : list ModelChunk;
  at_result : AgentResult ModelOutput;
}.

(** By attempt number: the attempts, the sink's answer to the [Retrying] note of an
    attempt and whether the request is cancelled in the wait before it; and the
    sink's barrier predicate and its answers to replayed chunks. *)
Record CallEnv `{JN : JsonNumber} : Type := {
  ce_attempt : N -> Attempt;
  ce_barrier : ModelChunk -> bool;
  ce_note : N -> AgentResult unit;
  ce_replay : nat -> AgentResult unit;
  ce_cancelled : N -> bool;
}.

(** [ca_sink] is what the caller's sink was handed, in order; [ca_log] what the
    observer was. *)
Record Call : Type := {
  ca_budget : RetryBudget;
  ca_known : option ModelUsage;
  ca_emitted : bool;
  ca_sink : list ModelChunk;
  ca_log : list RetryRecord;
}.

Definition copy_call (c : Call) : Call :=
  {| ca_budget := ca_budget c; ca_known := ca_known c; ca_emitted := ca_emitted c; ca_sink := ca_sink c;
     ca_log := ca_log c |}.
Definition set_budget : RetryBudget -> Call -> Call := ltac:(setter copy_call ca_budget).
Definition set_known : option ModelUsage -> Call -> Call := ltac:(setter copy_call ca_known).
Definition set_emitted : bool -> Call -> Call := ltac:(setter copy_call ca_emitted).
Definition set_sink : list ModelChunk -> Call -> Call := ltac:(setter copy_call ca_sink).
Definition set_log : list RetryRecord -> Call -> Call := ltac:(setter copy_call ca_log).

Definition new_call (max_attempts : N) : Call :=
  {| ca_budget := new_budget max_attempts; ca_known := None; ca_emitted := false; ca_sink := []; ca_log := [] |}.

Definition observe (r : RetryRecord) (c : Call) : Call := set_log (ca_log c ++ [r]) c.
Definition hand (chunks : list ModelChunk) (c : Call) : Call := set_sink (ca_sink c ++ chunks) c.

(** One round of a call's loop ends the call or goes on. *)
Inductive Turn `{JN : JsonNumber} : Type :=
| Return (r : AgentResult ModelOutput) (c : Call)
| Again (c : Call).

Section calls.
Context `{JN : JsonNumber} {AL : Allocator} (env : CallEnv) (schedule : RetrySchedule) (call_seq : N).

Definition emit_stage (stage : CallStage) (c : Call) : Call :=
  observe (OnStage {| cs_call_seq := cs_call_seq stage; cs_attempts := cs_attempts stage;
                      cs_transport_retries := cs_transport_retries stage;
                      cs_format_retries := cs_format_retries stage;
                      cs_outcome := cs_outcome stage; cs_known_usage := ca_known c |}) c.

Definition finish_failed (class : option RetryClass) (error : AgentError) (c : Call) : Turn :=
  let stage := if is_cancellation error then cancelled_stage (ca_budget c) call_seq
               else final_stage (ca_budget c) false class call_seq in
  Return (Err (terminal_error error (ca_known c))) (emit_stage stage c).

Definition finish_output (output : ModelOutput) (c : Call) : Turn :=
  Return (Ok (stamp_attempt_usage (with_known_usage (ca_known c) output) (rb_attempts (ca_budget c))))
    (emit_stage (final_stage (ca_budget c) true None call_seq) c).

(** From the reservation on: the incident, the note to the sink (where the mode
    sends one) and the wait. *)
Definition retry_turn (notify : bool) (class : RetryClass) (error : AgentError) (c : Call) : Turn :=
  let '(reservation, budget) := reserve_retry class (ca_budget c) in
  let c := set_budget budget c in
  match reservation with
  | None => finish_failed (Some class) error c
  | Some rv =>
      let ms := as_delay_ms (retry_delay class schedule (rv_class_retry_number rv) error) in
      let c := observe (OnIncident
        {| ri_call_seq := call_seq; ri_class := class; ri_attempt := rv_next_attempt rv;
           ri_class_retry_number := rv_class_retry_number rv;
           ri_total_attempt_limit := rv_total_attempt_limit rv; ri_delay_ms := ms |}) c in
      let c := if notify then hand [Retrying (rv_next_attempt rv) ms] c else c in
      match if notify then ce_note env (rv_next_attempt rv) else Ok tt with
      | Err error => finish_failed (Some class) error c
      | Ok _ =>
          if ce_cancelled env (rv_next_attempt rv)
          then Return (Err (terminal_error Cancelled (ca_known c)))
                 (emit_stage (cancelled_stage (ca_budget c) call_seq) c)
          else Again c
      end
  end.

Definition next_attempt (c : Call) : Attempt := ce_attempt env (rb_attempts (ca_budget c)).

(** [retry], the loop of [complete]. *)
Definition unary_turn (c : Call) : Turn :=
  match at_result (next_attempt c) with
  | Ok output => finish_output output c
  | Err error =>
      let c := set_known (settle_failure error (ca_known c)) c in
      match retry_class error with
      | None => finish_failed None error c
      | Some class => retry_turn false class error c
      end
  end.

(** [complete_stream_live]; the tracking sink raises [emitted] before it forwards. *)
Definition live_turn (c : Call) : Turn :=
  let a := next_attempt c in
  let c := hand (at_chunks a) (set_emitted (ca_emitted c || existsb (ce_barrier env) (at_chunks a)) c) in
  match at_result a with
  | Ok output => finish_output output c
  | Err error =>
      let c := set_known (settle_failure error (ca_known c)) c in
      match retry_class error with
      | None => finish_failed None error c
      | Some class =>
          if ca_emitted c then finish_failed (Some class) error c else retry_turn true class error c
      end
  end.

(** The replay of a buffered attempt: what the sink was handed, and its first error. *)
Fixpoint replay (i : nat) (chunks : list ModelChunk) : list ModelChunk * AgentResult unit :=
  match chunks with
  | [] => ([], Ok tt)
  | chunk :: chunks =>
      match ce_replay env i with
      | Err error => ([chunk], Err error)
      | Ok _ => let '(handed, r) := replay (S i) chunks in (chunk :: handed, r)
      end
  end.

(** [complete_stream_buffered]. *)
Definition buffered_turn (c : Call) : Turn :=
  let a := next_attempt c in
  match at_result a with
  | Ok output =>
      match take_buffer (buffer_all MAX_BUFFERED_STREAM_CHUNKS DEFAULT_MAX_STREAM_BYTES (at_chunks a)) with
      | Err error => finish_failed None error (set_known (settle (mo_usage output) (ca_known c)) c)
      | Ok chunks =>
          let '(handed, r) := replay 0 chunks in
          let c := hand handed c in
          match r with
          | Err error => finish_failed None error (set_known (settle (mo_usage output) (ca_known c)) c)
          | Ok _ => finish_output output c
          end
      end
  | Err error =>
      let c := set_known (settle_failure error (ca_known c)) c in
      match retry_class error with
      | None => finish_failed None error c
      | Some class => retry_turn true class error c
      end
  end.

Fixpoint call_loop (turn : Call -> Turn) (fuel : nat) (c : Call) : option (AgentResult ModelOutput * Call) :=
  match fuel with
  | O => None
  | S fuel => match turn c with Return r c => Some (r, c) | Again c => call_loop turn fuel c end
  end.

End calls.

(** ** The transport's two methods *)

Section transport.
Context `{JN : JsonNumber} {AL : Allocator} (max_attempts : N) (schedule : RetrySchedule) (buffering : bool).

(** More rounds than the budget has attempts are never run. *)
Definition call_fuel : nat := N.to_nat (rb_total_attempt_limit (new_budget max_attempts)).

Definition complete (env : CallEnv) (call_seq : N) : option (AgentResult ModelOutput * Call) :=
  call_loop (unary_turn env schedule call_seq) call_fuel (new_call max_attempts).

Definition complete_stream (env : CallEnv) (call_seq : N) : option (AgentResult ModelOutput * Call) :=
  if buffering then call_loop (buffered_turn env schedule call_seq) call_fuel (new_call max_attempts)
  else call_loop (live_turn env schedule call_seq) call_fuel (new_call max_attempts).

End transport.
