(* ===== verification/RetryTheorems.v ===== *)
(** What a retried model call guarantees, in every mode: it ends within its credits,
    nobody sees an output twice, and the usage of every attempt is counted once. *)

From S2P Require Import Prelude Text Digest Jcs Operation Kernel Retry.

Section retries.
Context `{JN : JsonNumber} {AL : Allocator} (env : CallEnv) (schedule : RetrySchedule) (call_seq max : N).

(** ** The attempts of a call *)

Definition upto (k : nat) : list N := N.of_nat <$> seq 1 k.

Definition attempt_class (i : N) : option RetryClass :=
  match at_result (ce_attempt env i) with Err e => retry_class e | Ok _ => None end.

Definition failures (class : RetryClass) (k : nat) : N :=
  N.of_nat (length (List.filter (fun i => bool_decide (attempt_class i = Some class)) (upto k))).

Definition settle_attempt (known : option ModelUsage) (i : N) : option ModelUsage :=
  match at_result (ce_attempt env i) with Err e => settle_failure e known | Ok _ => known end.

Definition known_after (k : nat) : option ModelUsage := foldl settle_attempt None (upto k).

Lemma upto_S k : upto (S k) = upto k ++ [N.of_nat (S k)].
Proof. unfold upto. rewrite seq_S, fmap_app. done. Qed.

Lemma known_after_S k e :
  at_result (ce_attempt env (N.of_nat (S k))) = Err e -> known_after (S k) = settle_failure e (known_after k).
Proof. intros He. unfold known_after. rewrite upto_S, foldl_app. cbn [foldl]. unfold settle_attempt at 1. by rewrite He. Qed.

Lemma failures_S class k :
  failures class (S k) =
  (failures class k + if bool_decide (attempt_class (N.of_nat (S k)) = Some class) then 1 else 0)%N.
Proof.
  unfold failures. rewrite upto_S, List.filter_app, length_app. cbn [List.filter].
  case_bool_decide; cbn [length]; lia.
Qed.

(** ** The invariant of the loop *)

Definition limit (class : RetryClass) : N := retry_attempt_limit class max.
Definition total_limit : N := rb_total_attempt_limit (new_budget max).

Definition is_content (chunk : ModelChunk) : bool := match chunk with Retrying _ _ => false | _ => true end.
Definition content (chunks : list ModelChunk) : list ModelChunk := List.filter is_content chunks.

Definition incident_bounded (i : RetryIncident) : Prop :=
  (ri_delay_ms i * NANOS_PER_MILLI <= rs_max_delay schedule)%N /\
  (ri_class i = ClassToolCallFormat -> ri_delay_ms i = 0%N) /\
  (ri_class_retry_number i < limit (ri_class i))%N /\ (ri_attempt i <= total_limit)%N.

(** The attempts 1 to [k] failed within the credits. *)
Definition within_credits (k : nat) : Prop :=
  (forall i, (1 <= i <= N.of_nat k)%N -> is_Some (attempt_class i)) /\
  (forall class, (failures class k < limit class)%N) /\ (N.of_nat (S k) <= total_limit)%N.

Definition budget_after (k : nat) : RetryBudget :=
  {| rb_attempts := N.of_nat (S k); rb_transport_failures := failures ClassTransport k;
     rb_format_failures := failures ClassToolCallFormat k;
     rb_transport_attempt_limit := limit ClassTransport; rb_format_attempt_limit := limit ClassToolCallFormat;
     rb_total_attempt_limit := total_limit |}.

Record going (k : nat) (known : option ModelUsage) (c : Call) : Prop := {
  go_budget : ca_budget c = budget_after k;
  go_credits : within_credits k;
  go_known : ca_known c = known;
  go_log : exists incidents, ca_log c = OnIncident <$> incidents /\ length incidents = k /\
             Forall incident_bounded incidents;
}.

(** How a call ends whose last attempt is number [k + 1]. *)
Inductive outcome (k : nat) : AgentResult ModelOutput -> Prop :=
| Answered o :
    at_result (ce_attempt env (N.of_nat (S k))) = Ok o ->
    outcome k (Ok (stamp_attempt_usage (with_known_usage (known_after k) o) (N.of_nat (S k))))
| AttemptFailed e :
    at_result (ce_attempt env (N.of_nat (S k))) = Err e ->
    outcome k (Err (terminal_error e (known_after (S k))))
| NoteRefused e e' :
    at_result (ce_attempt env (N.of_nat (S k))) = Err e -> ce_note env (N.of_nat (S (S k))) = Err e' ->
    outcome k (Err (terminal_error e' (known_after (S k))))
| CancelledInWait e :
    at_result (ce_attempt env (N.of_nat (S k))) = Err e -> ce_cancelled env (N.of_nat (S (S k))) = true ->
    outcome k (Err (terminal_error Cancelled (known_after (S k))))
| ReplayRefused o e' :
    at_result (ce_attempt env (N.of_nat (S k))) = Ok o ->
    (exists j, ce_replay env j = Err e') \/ reported_usage e' = None ->
    outcome k (Err (terminal_error e' (settle (mo_usage o) (known_after k)))).

Record ended (k : nat) (r : AgentResult ModelOutput) (c : Call) : Prop := {
  en_credits : within_credits k;
  en_outcome : outcome k r;
  en_log : exists incidents stage, ca_log c = (OnIncident <$> incidents) ++ [OnStage stage] /\
             (N.of_nat (length incidents) < total_limit)%N /\ Forall incident_bounded incidents;
}.

Hypothesis Hmax : (max <= u32_max)%N.

Lemma total_is : total_limit = N.min (limit ClassTransport + (limit ClassToolCallFormat - 1)) u32_max.
Proof. done. Qed.

Lemma delay_bounded s n e : (delay s n e <= rs_max_delay s)%N.
Proof. unfold delay. destruct e; lia. Qed.

Lemma retry_delay_ms class n e :
  (as_delay_ms (retry_delay class schedule n e) * NANOS_PER_MILLI <= rs_max_delay schedule)%N /\
  (class = ClassToolCallFormat -> as_delay_ms (retry_delay class schedule n e) = 0%N).
Proof.
  split; [|by intros ->].
  pose proof (delay_bounded schedule n e). unfold as_delay_ms.
  assert (retry_delay class schedule n e <= rs_max_delay schedule)%N by (destruct class; cbn; lia).
  revert H0. generalize (retry_delay class schedule n e). intros d Hd.
  pose proof (N.Div0.mul_div_le d NANOS_PER_MILLI). unfold NANOS_PER_MILLI in *. lia.
Qed.

Lemma limit_bounds class : (1 <= limit class <= u32_max)%N.
Proof. unfold limit, retry_attempt_limit, MAX_TOOL_FORMAT_ATTEMPTS, u32_max in *. destruct class; lia. Qed.

Lemma within_S k class :
  within_credits k -> attempt_class (N.of_nat (S k)) = Some class ->
  (failures class (S k) < limit class)%N -> (N.of_nat (S (S k)) <= total_limit)%N -> within_credits (S k).
Proof.
  intros (Hf & Hc & _) Hcl Hlt Ht. split; [|split; [|done]].
  - intros i Hi. destruct (decide (i = N.of_nat (S k))) as [->|]; [by rewrite Hcl|]. apply Hf. lia.
  - intros class'. destruct (decide (class' = class)) as [->|Hne]; [done|].
    rewrite failures_S, Hcl, bool_decide_eq_false_2 by congruence. pose proof (Hc class'). lia.
Qed.

(** A reservation succeeds below the two limits only, and counts what failed. *)
Lemma reserve_spec k class rv b :
  within_credits k -> attempt_class (N.of_nat (S k)) = Some class ->
  reserve_retry class (budget_after k) = (Some rv, b) ->
  b = budget_after (S k) /\ within_credits (S k) /\
  rv = {| rv_next_attempt := N.of_nat (S (S k)); rv_total_attempt_limit := total_limit;
          rv_class_retry_number := failures class (S k) |}.
Proof.
  intros Hw Hcl. pose proof Hw as (_ & Hc & Ht). pose proof (Hc class). pose proof (limit_bounds class).
  assert (Hn : forall cl, failures cl (S k) = (failures cl k + if bool_decide (class = cl) then 1 else 0)%N).
  { intros cl. rewrite failures_S, Hcl. by rewrite (bool_decide_ext (Some class = Some cl) (class = cl)) by naive_solver. }
  assert (Hs : sat_add32 (failures class k) 1 = failures class (S k)).
  { rewrite Hn, bool_decide_eq_true_2 by done. unfold sat_add32. lia. }
  assert (Hsa : sat_add32 (N.of_nat (S k)) 1 = N.of_nat (S (S k)) \/ (total_limit <= N.of_nat (S k))%N).
  { rewrite total_is in *. unfold sat_add32, u32_max. lia. }
  unfold reserve_retry, budget_after. cbn [rb_attempts rb_transport_failures rb_format_failures
    rb_transport_attempt_limit rb_format_attempt_limit rb_total_attempt_limit].
  replace (match class with
           | ClassTransport => (sat_add32 (failures ClassTransport k) 1, limit ClassTransport)
           | ClassToolCallFormat => (sat_add32 (failures ClassToolCallFormat k) 1, limit ClassToolCallFormat)
           end) with (failures class (S k), limit class) by (destruct class; by rewrite Hs).
  destruct (limit class <=? failures class (S k))%N eqn:El; [done|].
  destruct (total_limit <=? N.of_nat (S k))%N eqn:Et; [done|]. cbn [orb].
  apply N.leb_gt in El, Et. destruct Hsa as [->|]; [|lia].
  intros [= <- <-]. split; [|split; [eapply within_S; eauto; lia|done]].
  destruct class; unfold budget_after.
  - by rewrite (Hn ClassToolCallFormat), bool_decide_eq_false_2, N.add_0_r by done.
  - by rewrite (Hn ClassTransport), bool_decide_eq_false_2, N.add_0_r by done.
Qed.

Lemma going_start : going 0 None (new_call max).
Proof.
  constructor; [done| |done|by exists []].
  split; [lia|split; [|rewrite total_is]].
  - intros class. pose proof (limit_bounds class). unfold failures. cbn. lia.
  - pose proof (limit_bounds ClassTransport). unfold u32_max in *. lia.
Qed.

(** ** Ends *)

Definition ends_as (k : nat) (c : Call) (t : Turn) : Prop :=
  match t with
  | Return r c' => ended k r c' /\ ca_sink c' = ca_sink c
  | Again _ => False
  end.

Lemma finish_failed_ended k c class e known :
  going k known c -> outcome k (Err (terminal_error e (ca_known c))) ->
  ends_as k c (finish_failed call_seq class e c).
Proof.
  intros [Hb Hw Hk (incs & Hl & Hn & Hf)] Ho. split; [|done]. constructor; [done|done|].
  exists incs; eexists. split; [by cbn; rewrite Hl|]. split; [|done]. destruct Hw as (_ & _ & Ht). lia.
Qed.

Lemma finish_output_ended k c o :
  going k (known_after k) c -> at_result (ce_attempt env (N.of_nat (S k))) = Ok o ->
  ends_as k c (finish_output call_seq o c).
Proof.
  intros [Hb Hw Hk (incs & Hl & Hn & Hf)] Ho. split; [|done]. constructor; [done| |].
  - rewrite Hk, Hb. by apply Answered.
  - exists incs; eexists. split; [by cbn; rewrite Hl|]. split; [|done]. destruct Hw as (_ & _ & Ht). lia.
Qed.

Lemma going_hand k known chunks c : going k known c -> going k known (hand chunks c).
Proof. by intros []; constructor. Qed.

Lemma going_emitted k known b c : going k known c -> going k known (set_emitted b c).
Proof. by intros []; constructor. Qed.

Lemma going_failed k c e :
  going k (known_after k) c -> at_result (ce_attempt env (N.of_nat (S k))) = Err e ->
  going k (known_after (S k)) (set_known (settle_failure e (ca_known c)) c).
Proof. intros [Hb Hw Hk Hl] He. constructor; try done.
  change (settle_failure e (ca_known c) = known_after (S k)). by rewrite (known_after_S _ _ He), Hk.
Qed.

(** ** A retry *)

(** What a round leaves: an end with its content, or the loop one attempt further. *)
Definition round_ok (k : nat) (c : Call) (t : Turn) : Prop :=
  match t with
  | Return r c' => ended k r c' /\ content (ca_sink c') = content (ca_sink c)
  | Again c' => going (S k) (known_after (S k)) c' /\ content (ca_sink c') = content (ca_sink c) /\
      ca_emitted c' = ca_emitted c /\ is_Some (attempt_class (N.of_nat (S k)))
  end.

Lemma ends_round k c c0 t :
  ends_as k c t -> content (ca_sink c) = content (ca_sink c0) -> round_ok k c0 t.
Proof. destruct t; [|done]. intros [He Heq] Hs. split; [done|]. by rewrite Heq. Qed.

Lemma ended_after_reservation k c e incident :
  going k (known_after (S k)) c -> (N.of_nat (S (S k)) <= total_limit)%N -> incident_bounded incident ->
  outcome k (Err (terminal_error e (ca_known c))) -> forall stage c',
  ca_log c' = ca_log c ++ [OnIncident incident; OnStage stage] ->
  ended k (Err (terminal_error e (ca_known c))) c'.
Proof.
  intros [Hb Hw Hk (incs & Hl & Hn & Hf)] Ht Hi Ho stage c' Hc'. constructor; [done|done|].
  exists (incs ++ [incident]), stage. split; [|split].
  - by rewrite Hc', Hl, fmap_app, <- app_assoc.
  - rewrite length_app. cbn [length]. lia.
  - apply Forall_app_2; [done|]. by constructor.
Qed.

Lemma content_retrying l n ms : content (l ++ [Retrying n ms]) = content l.
Proof. unfold content. rewrite List.filter_app. cbn. apply app_nil_r. Qed.

Lemma retry_turn_spec notify k c class e :
  going k (known_after (S k)) c -> at_result (ce_attempt env (N.of_nat (S k))) = Err e ->
  retry_class e = Some class ->
  round_ok k c (retry_turn env schedule call_seq notify class e c).
Proof.
  intros Hg He Hcl. unfold retry_turn.
  assert (Hac : attempt_class (N.of_nat (S k)) = Some class) by (unfold attempt_class; by rewrite He).
  destruct (reserve_retry class (ca_budget c)) as [[rv|] b] eqn:Er.
  - rewrite (go_budget _ _ _ Hg) in Er.
    destruct (reserve_spec _ _ _ _ (go_credits _ _ _ Hg) Hac Er) as (-> & Hw & ->).
    cbn [rv_next_attempt rv_total_attempt_limit rv_class_retry_number].
    set (ms := as_delay_ms _). set (incident := {| ri_call_seq := _ |}).
    assert (Hi : incident_bounded incident).
    { unfold incident_bounded. subst incident. cbn [ri_delay_ms ri_class ri_class_retry_number ri_attempt].
      destruct (retry_delay_ms class (failures class (S k)) e). destruct Hw as (_ & Hc & Ht). eauto. }
    destruct Hw as (Hf & Hc & Ht). pose proof Hg as [Hb Hw0 Hk (incs & Hl & Hn & Hfo)].
    assert (Hs : forall c', ca_sink c' = (if notify then ca_sink c ++ [Retrying (N.of_nat (S (S k))) ms] else ca_sink c) ->
              content (ca_sink c') = content (ca_sink c)).
    { intros c' ->. destruct notify; [apply content_retrying|done]. }
    destruct (if notify then ce_note env _ else _) as [[]|e'] eqn:En.
    + destruct (ce_cancelled env (N.of_nat (S (S k)))) eqn:Ec.
      * split; [|apply Hs; by destruct notify].
        replace (ca_known _) with (ca_known c) by (by destruct notify).
        eapply ended_after_reservation; [done|done|exact Hi| |].
        -- rewrite Hk. by eapply CancelledInWait.
        -- destruct notify; cbn; by rewrite <- app_assoc.
      * split; [|split; [apply Hs; by destruct notify|split; [by destruct notify|by rewrite Hac]]].
        constructor; [by destruct notify|done|by destruct notify|].
        exists (incs ++ [incident]). split; [|split].
        -- destruct notify; cbn; by rewrite Hl, fmap_app.
        -- rewrite length_app. cbn [length]. lia.
        -- apply Forall_app_2; [done|]. by constructor.
    + destruct notify; [|done]. split; [|by apply Hs].
      change (ca_known _) with (ca_known c).
      eapply ended_after_reservation; [done|done|exact Hi| |].
      * rewrite Hk. by eapply NoteRefused.
      * cbn. by rewrite <- app_assoc.
  - pose proof Hg as [Hb Hw Hk (incs & Hl & Hn & Hf)]. split; [|done]. constructor; [done| |].
    + cbn. rewrite Hk. by apply AttemptFailed.
    + exists incs; eexists. split; [by cbn; rewrite Hl|]. split; [|done]. destruct Hw as (_ & _ & Ht). lia.
Qed.

(** ** The three loops *)

(** A loop whose rounds keep [I] ends within its fuel. *)
Lemma call_loop_ends (turn : Call -> Turn) (I : nat -> Call -> Prop) (Q : AgentResult ModelOutput -> Call -> Prop) :
  (forall k c, I k c -> (N.of_nat k < total_limit)%N) ->
  (forall k c, I k c -> match turn c with Return r c' => Q r c' | Again c' => I (S k) c' end) ->
  forall fuel k c, I k c -> (total_limit <= N.of_nat (fuel + k))%N ->
  exists r c', call_loop turn fuel c = Some (r, c') /\ Q r c'.
Proof.
  intros Hb Hs fuel. induction fuel as [|fuel IH]; intros k c Hi Hf; pose proof (Hb _ _ Hi); [lia|].
  cbn [call_loop]. pose proof (Hs k c Hi) as Ht. destruct (turn c) as [r c'|c']; [by eauto|].
  apply (IH (S k)); [done|]. lia.
Qed.

Lemma going_below k known c : going k known c -> (N.of_nat k < total_limit)%N.
Proof. intros [_ (_ & _ & Ht) _ _]. lia. Qed.

(** A failed attempt that is not retried, and one that may be. *)
Lemma failed_ends k c e class :
  going k (known_after k) c -> at_result (ce_attempt env (N.of_nat (S k))) = Err e ->
  let c' := set_known (settle_failure e (ca_known c)) c in ends_as k c' (finish_failed call_seq class e c').
Proof.
  intros Hg Ea. cbv zeta. pose proof (going_failed _ _ _ Hg Ea) as Hg'.
  eapply finish_failed_ended; [exact Hg'|]. rewrite (go_known _ _ _ Hg'). by apply AttemptFailed.
Qed.

Lemma failed_round notify k c e :
  going k (known_after k) c -> at_result (ce_attempt env (N.of_nat (S k))) = Err e ->
  let c' := set_known (settle_failure e (ca_known c)) c in
  round_ok k c match retry_class e with
               | None => finish_failed call_seq None e c'
               | Some class => retry_turn env schedule call_seq notify class e c'
               end.
Proof.
  intros Hg Ea c'. destruct (retry_class e) as [class|] eqn:Ec.
  - apply (retry_turn_spec notify _ _ _ _ (going_failed _ _ _ Hg Ea) Ea Ec).
  - eapply ends_round; [by apply failed_ends|done].
Qed.

Lemma next_attempt_at k known c : going k known c -> next_attempt env c = ce_attempt env (N.of_nat (S k)).
Proof. intros Hg. unfold next_attempt. by rewrite (go_budget _ _ _ Hg). Qed.

Ltac round_cases H :=
  match type of H with
  | round_ok _ _ ?t =>
      let He := fresh "He" in let Hc := fresh "Hc" in
      destruct t; [destruct H as [He Hc]|destruct H as (He & Hc & ? & ?)]; try rewrite Hc; eauto 6
  end.

Lemma unary_ends :
  exists r c k, complete max schedule env call_seq = Some (r, c) /\ ended k r c /\ content (ca_sink c) = [].
Proof.
  destruct (call_loop_ends (unary_turn env schedule call_seq)
    (fun k c => going k (known_after k) c /\ content (ca_sink c) = [])
    (fun r c => exists k, ended k r c /\ content (ca_sink c) = [])) with
    (fuel := call_fuel max) (k := 0) (c := new_call max) as (r & c & Hr & k & He & Hc); [| | | |by eauto 6].
  - intros k c [Hg _]. by eapply going_below.
  - intros k c [Hg Hs]. unfold unary_turn. rewrite (next_attempt_at _ _ _ Hg).
    destruct (at_result _) as [o|e] eqn:Ea.
    + pose proof (ends_round _ _ c _ (finish_output_ended _ _ _ Hg Ea) eq_refl) as Hf. round_cases Hf.
    + pose proof (failed_round false _ _ _ Hg Ea) as Hf. cbv zeta in Hf. round_cases Hf.
  - split; [apply going_start|done].
  - unfold call_fuel, total_limit. lia.
Qed.

(** What the attempts before the [k + 1]st handed to their sinks. *)
Definition handed (k : nat) : list ModelChunk := upto k ≫= fun i => at_chunks (ce_attempt env i).

Lemma handed_S k : handed (S k) = handed k ++ at_chunks (ce_attempt env (N.of_nat (S k))).
Proof. unfold handed. rewrite upto_S, bind_app. cbn. by rewrite app_nil_r. Qed.

Lemma content_app l l' : content (l ++ l') = content l ++ content l'.
Proof. apply List.filter_app. Qed.

Lemma live_ends :
  exists r c k, complete_stream max schedule false env call_seq = Some (r, c) /\ ended k r c /\
    content (ca_sink c) = content (handed (S k)) /\ existsb (ce_barrier env) (handed k) = false.
Proof.
  destruct (call_loop_ends (live_turn env schedule call_seq)
    (fun k c => going k (known_after k) c /\ content (ca_sink c) = content (handed k) /\
       ca_emitted c = existsb (ce_barrier env) (handed k) /\ ca_emitted c = false)
    (fun r c => exists k, ended k r c /\ content (ca_sink c) = content (handed (S k)) /\
       existsb (ce_barrier env) (handed k) = false)) with
    (fuel := call_fuel max) (k := 0) (c := new_call max) as (r & c & Hr & k & He & Hc & Hb); [| | | |by eauto 7].
  - intros k c [Hg _]. by eapply going_below.
  - intros k c (Hg & Hs & Hem & Hno). unfold live_turn. rewrite (next_attempt_at _ _ _ Hg).
    set (c1 := hand _ _).
    assert (Hg1 : going k (known_after k) c1) by (by apply going_hand, going_emitted).
    assert (Hs1 : content (ca_sink c1) = content (handed (S k))).
    { change (ca_sink c1) with (ca_sink c ++ at_chunks (ce_attempt env (N.of_nat (S k)))).
      by rewrite handed_S, !content_app, Hs. }
    assert (He1 : ca_emitted c1 = existsb (ce_barrier env) (handed (S k))).
    { change (ca_emitted c1) with (ca_emitted c || existsb (ce_barrier env) (at_chunks (ce_attempt env (N.of_nat (S k))))).
      by rewrite handed_S, existsb_app, Hem. }
    rewrite Hem in Hno. destruct (at_result _) as [o|e] eqn:Ea.
    + pose proof (ends_round _ _ c1 _ (finish_output_ended _ _ _ Hg1 Ea) eq_refl) as [He Hc].
      exists k. by rewrite <- Hs1.
    + set (c2 := set_known _ c1). destruct (ca_emitted c2) eqn:Ee.
      * assert (Hf : forall class, round_ok k c1 (finish_failed call_seq class e c2)).
        { intros class. eapply ends_round; [by apply failed_ends|done]. }
        destruct (retry_class e) as [class|]; [destruct (Hf (Some class))|destruct (Hf None)];
          exists k; by rewrite <- Hs1.
      * pose proof (failed_round true _ _ _ Hg1 Ea) as Hf. cbv zeta in Hf. fold c2 in Hf. rewrite <- Hs1.
        change (ca_emitted c2) with (ca_emitted c1) in Ee. rewrite <- He1.
        destruct (match retry_class e with Some _ => _ | None => _ end) as [r c'|c'].
        -- destruct Hf as [? ->]. eauto.
        -- destruct Hf as (? & -> & -> & _). by rewrite Ee.
  - split; [apply going_start|done].
  - unfold call_fuel, total_limit. lia.
Qed.

(** ** The buffered mode *)

Lemma buffer_failed mc mb chunks : forall s,
  bs_limit_error s <> None ->
  bs_limit_error (foldl (fun s chunk => (buffer_chunk mc mb chunk s).2) s chunks) <> None.
Proof.
  induction chunks as [|chunk chunks IH]; intros s Hs; [done|]. cbn [foldl]. apply IH.
  unfold buffer_chunk. destruct (bs_limit_error s) eqn:E; [cbn; by rewrite E|done].
Qed.

(** A buffer that did not overflow holds what it was given. *)
Lemma buffer_holds mc mb chunks : forall s,
  let s' := foldl (fun s chunk => (buffer_chunk mc mb chunk s).2) s chunks in
  bs_limit_error s' = None -> bs_chunks s' = bs_chunks s ++ chunks.
Proof.
  induction chunks as [|chunk chunks IH]; intros s; cbn zeta; cbn [foldl]; [by rewrite app_nil_r|].
  intros Hn. rewrite (IH _ Hn).
  assert (Hs : bs_limit_error (buffer_chunk mc mb chunk s).2 = None).
  { destruct (bs_limit_error (buffer_chunk mc mb chunk s).2) eqn:E; [|done].
    exfalso. apply (buffer_failed mc mb chunks (buffer_chunk mc mb chunk s).2); [by rewrite E|done]. }
  revert Hs. unfold buffer_chunk. destruct (bs_limit_error s) eqn:E; [cbn; by rewrite E|].
  destruct (if (mc <? _)%N then _ else _); [done|]. cbn. by rewrite <- app_assoc.
Qed.

Lemma take_buffer_holds mc mb chunks l : take_buffer (buffer_all mc mb chunks) = Ok l -> l = chunks.
Proof.
  unfold take_buffer, buffer_all. destruct (bs_limit_error _) eqn:E; [done|]. intros [= <-].
  by apply (buffer_holds mc mb chunks new_buffer).
Qed.

Lemma replay_shows chunks : forall i shown r, replay env i chunks = (shown, r) ->
  (exists rest, chunks = shown ++ rest) /\ (r = Ok tt -> shown = chunks) /\
  (forall e, r = Err e -> exists j, ce_replay env j = Err e).
Proof.
  induction chunks as [|chunk chunks IH]; intros i shown r; cbn [replay].
  - intros [= <- <-]. split; [by exists []|done].
  - destruct (ce_replay env i) as [[]|e] eqn:E.
    + destruct (replay env (S i) chunks) as [shown' r'] eqn:Er. intros [= <- <-].
      destruct (IH _ _ _ Er) as ((rest & ->) & Hok & Herr). split; [by exists rest|].
      split; [intros H; f_equal; by apply Hok|done].
    + intros [= <- <-]. split; [by exists chunks|]. split; [done|]. intros e' [= ->]. eauto.
Qed.

(** What the sink was shown of attempt [k + 1]. *)
Definition shows (k : nat) (r : AgentResult ModelOutput) (c : Call) : Prop :=
  let a := ce_attempt env (N.of_nat (S k)) in
  exists shown rest, at_chunks a = shown ++ rest /\ content (ca_sink c) = content shown /\
    (is_Ok r = true -> rest = []) /\ (is_Ok (at_result a) = false -> shown = []).

Lemma buffered_ends :
  exists r c k, complete_stream max schedule true env call_seq = Some (r, c) /\ ended k r c /\ shows k r c.
Proof.
  destruct (call_loop_ends (buffered_turn env schedule call_seq)
    (fun k c => going k (known_after k) c /\ content (ca_sink c) = [])
    (fun r c => exists k, ended k r c /\ shows k r c)) with
    (fuel := call_fuel max) (k := 0) (c := new_call max) as (r & c & Hr & k & He & Hc); [| | | |by eauto 6].
  - intros k c [Hg _]. by eapply going_below.
  - intros k c [Hg Hs]. unfold buffered_turn. rewrite (next_attempt_at _ _ _ Hg).
    set (a := ce_attempt env (N.of_nat (S k))).
    destruct (at_result a) as [o|e] eqn:Ea.
    + assert (Hrefused : forall c1 e' l rest, going k (known_after k) c1 -> at_chunks a = l ++ rest ->
        content (ca_sink c1) = content l -> (exists j, ce_replay env j = Err e') \/ reported_usage e' = None ->
        match finish_failed call_seq None e' (set_known (settle (mo_usage o) (ca_known c1)) c1) with
        | Return r c' => exists k, ended k r c' /\ shows k r c'
        | Again c' => False
        end).
      { intros c1 e' l rest Hg1 Ha Hc1 Hb. exists k.
        destruct (finish_failed_ended k (set_known (settle (mo_usage o) (ca_known c1)) c1) None e'
                    (settle (mo_usage o) (ca_known c1))) as [He Hc].
        - destruct Hg1. by constructor.
        - change (ca_known (set_known (settle (mo_usage o) (ca_known c1)) c1)) with (settle (mo_usage o) (ca_known c1)).
          rewrite (go_known _ _ _ Hg1). by apply ReplayRefused.
        - split; [done|]. exists l, rest. fold a. rewrite Ea. by rewrite Hc. }
      destruct (take_buffer _) as [chunks|e'] eqn:Et.
      * apply take_buffer_holds in Et as ->. destruct (replay env 0 (at_chunks a)) as [l r] eqn:Er.
        destruct (replay_shows _ _ _ _ Er) as ((rest & Ha) & Hok & Herr).
        assert (Hg1 : going k (known_after k) (hand l c)) by by apply going_hand.
        assert (Hc1 : content (ca_sink (hand l c)) = content l).
        { change (ca_sink (hand l c)) with (ca_sink c ++ l). by rewrite content_app, Hs. }
        destruct r as [[]|e']; [|specialize (Hrefused _ e' _ _ Hg1 Ha Hc1 (or_introl (Herr _ eq_refl)));
          by destruct (finish_failed _ _ _ _)].
        destruct (finish_output_ended _ _ _ Hg1 Ea) as [He Hc]. exists k. split; [done|].
        exists l, rest. fold a. rewrite Ea, Hc. split; [done|]. split; [done|]. split; [|done].
        intros _. rewrite <- (Hok eq_refl) in Ha. by apply (f_equal length) in Ha; rewrite length_app in Ha; destruct rest; cbn in Ha; [|lia].
      * assert (Hb : reported_usage e' = None).
        { revert Et. unfold take_buffer. destruct (bs_limit_error _); [|done]. by intros [= <-]. }
        specialize (Hrefused c e' [] _ Hg eq_refl Hs (or_intror Hb)). by destruct (finish_failed _ _ _ _).
    + pose proof (failed_round true _ _ _ Hg Ea) as Hf. cbv zeta in Hf.
      destruct (match retry_class e with Some _ => _ | None => _ end) as [r c'|c'].
      * destruct Hf as [He Hc]. exists k. split; [done|]. exists [], (at_chunks a). fold a.
        rewrite Hc, Hs. split; [done|]. split; [done|]. split; [|done].
        intros Hr. destruct He as [_ Ho _]. destruct Ho as [o Ho| | | |]; [|done..]. unfold a in Ea. congruence.
      * destruct Hf as (? & -> & _). done.
  - split; [apply going_start|done].
  - unfold call_fuel, total_limit. lia.
Qed.

(** ** Usage *)

Definition counters : list (ModelUsage -> option N) :=
  [mu_input_tokens; mu_output_tokens; mu_cached_input_tokens; mu_cache_write_input_tokens;
   mu_cache_miss_input_tokens].

(** What attempt [i] reported. *)
Definition report (i : N) : option ModelUsage :=
  match at_result (ce_attempt env i) with Ok o => Some (mo_usage o) | Err e => reported_usage e end.

Definition reports (k : nat) : list ModelUsage := omap report (upto k).

(** A counter over the reports: absent when none has it, else the saturated sum. *)
Definition counter_total (f : ModelUsage -> option N) (us : list ModelUsage) : option N :=
  match omap f us with
  | [] => None
  | l => Some (N.min (foldr N.add 0%N l) u64_max)
  end.

Definition usage_of (r : AgentResult ModelOutput) (f : ModelUsage -> option N) : option N :=
  match r with Ok o => f (mo_usage o) | Err e => reported_usage e ≫= f end.

(** What the code relies on of the inner transport and of the sink: 64-bit counters,
    no envelope without a counter, and sink errors without usage. *)
Record env_wf : Prop := {
  ew_u64 : forall i u f n, report i = Some u -> f ∈ counters -> f u = Some n -> (n <= u64_max)%N;
  ew_envelope : forall i u e, at_result (ce_attempt env i) = Err (FailedWithUsage u e) -> has_any_reported u = true;
  ew_note : forall i e, ce_note env i = Err e -> reported_usage e = None;
  ew_replay : forall j e, ce_replay env j = Err e -> reported_usage e = None;
}.

Lemma has_any_counter u : has_any_reported u = true <-> exists f, f ∈ counters /\ is_Some (f u).
Proof.
  unfold has_any_reported. rewrite !orb_true_iff, !bool_decide_eq_true. unfold counters. split.
  - intros [[[[H|H]|H]|H]|H]; eexists; (split; [|exact H]); set_solver.
  - intros (f & Hf & Hs). rewrite !elem_of_cons in Hf. destruct Hf as [->|[->|[->|[->|[->|Hf]]]]]; [naive_solver..|].
    by apply elem_of_nil in Hf.
Qed.

Lemma counter_total_snoc f us u :
  (forall n, f u = Some n -> (n <= u64_max)%N) ->
  counter_total f (us ++ [u]) = add_counter (counter_total f us) (f u).
Proof.
  intros Hn. unfold counter_total. rewrite omap_app. cbn [omap list_omap].
  assert (Hsum : forall l n, foldr N.add 0%N (l ++ [n]) = (foldr N.add 0 l + n)%N).
  { induction l as [|m l IH]; intros n; cbn; [lia|]. rewrite IH. lia. }
  destruct (f u) as [n|]; [pose proof (Hn n eq_refl)|].
  - destruct (omap f us) as [|m l]; unfold add_counter, saturating_add, from_option, id; cbn [app].
    + cbn [foldr]. f_equal. lia.
    + change (m :: l ++ [n]) with ((m :: l) ++ [n]). rewrite Hsum. cbn [app]. f_equal. lia.
  - rewrite app_nil_r. destruct (omap f us); [done|]. unfold add_counter, saturating_add, from_option, id.
    f_equal. lia.
Qed.

Lemma settle_counter f u known :
  f ∈ counters -> (forall n, f u = Some n -> (n <= u64_max)%N) ->
  settle u known ≫= f = add_counter (known ≫= f) (f u).
Proof.
  intros Hf Hn. destruct known as [total|]; cbn [settle mbind option_bind].
  - unfold counters in Hf. rewrite !elem_of_cons in Hf.
    destruct Hf as [->|[->|[->|[->|[->|Hf]]]]]; [done..|]. by apply elem_of_nil in Hf.
  - destruct (f u) as [n|]; [|done]. unfold add_counter, saturating_add. cbn. specialize (Hn n eq_refl). f_equal. lia.
Qed.

Lemma reports_S k :
  reports (S k) = reports k ++ match report (N.of_nat (S k)) with Some u => [u] | None => [] end.
Proof. unfold reports. rewrite upto_S, omap_app. cbn. by destruct (report _). Qed.

Lemma known_counter (Hw : env_wf) f k :
  f ∈ counters -> (forall i, (1 <= i <= N.of_nat k)%N -> is_Some (attempt_class i)) ->
  known_after k ≫= f = counter_total f (reports k).
Proof.
  intros Hf. induction k as [|k IH]; intros Hc; [done|].
  assert (Hk : is_Some (attempt_class (N.of_nat (S k)))) by (apply Hc; lia).
  unfold attempt_class in Hk. destruct (at_result (ce_attempt env (N.of_nat (S k)))) as [|e] eqn:Ea; [by destruct Hk|].
  assert (Hr : report (N.of_nat (S k)) = reported_usage e) by (unfold report; by rewrite Ea).
  rewrite (known_after_S _ _ Ea), reports_S, Hr. unfold settle_failure.
  destruct (reported_usage e) as [u|]; [|rewrite app_nil_r; apply IH; intros i Hi; apply Hc; lia].
  assert (Hu : forall n, f u = Some n -> (n <= u64_max)%N) by (intros n; by apply (ew_u64 Hw _ _ _ _ Hr)).
  rewrite settle_counter, counter_total_snoc by done. f_equal. apply IH. intros i Hi. apply Hc. lia.
Qed.

(** An error keeps the known usage, and has none of its own beside it. *)
Lemma terminal_counter e known f :
  f ∈ counters ->
  (forall u g, reported_usage e = Some u -> g ∈ counters -> known ≫= g = None -> g u = None) ->
  (forall u s, e = FailedWithUsage u s -> has_any_reported u = true) ->
  reported_usage (terminal_error e known) ≫= f = known ≫= f.
Proof.
  intros Hf Hown Henv.
  assert (Hbare : (forall g, g ∈ counters -> known ≫= g = None) -> reported_usage (failure_source e) ≫= f = None).
  { intros Hnone. destruct e as [| | | | | | | | | | |u|u s| | | | |]; try done.
    - apply (Hown u f eq_refl Hf). by apply Hnone.
    - exfalso. pose proof (proj1 (has_any_counter u) (Henv u s eq_refl)) as (g & Hg & Hs).
      rewrite (Hown u g eq_refl Hg (Hnone g Hg)) in Hs. by destruct Hs. }
  destruct known as [u|]; cbn [terminal_error]; [|by apply Hbare].
  unfold failed_with_usage. destruct (has_any_reported u) eqn:Eu; [done|].
  assert (Hnone : forall g, g ∈ counters -> Some u ≫= g = None).
  { intros g Hg. cbn. destruct (g u) eqn:E; [|done]. exfalso.
    rewrite (proj2 (has_any_counter u)) in Eu; [done|]. exists g. by rewrite E. }
  by rewrite (Hnone f Hf), Hbare.
Qed.

Lemma add_counter_comm a b : add_counter a b = add_counter b a.
Proof. destruct a, b; cbn; unfold saturating_add; try done; cbn; f_equal; f_equal; lia. Qed.

Lemma ended_usage (Hw : env_wf) k r c f :
  ended k r c -> f ∈ counters -> usage_of r f = counter_total f (reports (S k)).
Proof.
  intros [(Hc & _) Ho _] Hf. pose proof (known_counter Hw f k Hf Hc) as Hk.
  assert (Hfailed : forall e, at_result (ce_attempt env (N.of_nat (S k))) = Err e ->
            known_after (S k) ≫= f = counter_total f (reports (S k)) /\
            forall u g, reported_usage e = Some u -> g ∈ counters -> known_after (S k) ≫= g = None -> g u = None).
  { intros e Ea. assert (Hr : report (N.of_nat (S k)) = reported_usage e) by (unfold report; by rewrite Ea).
    rewrite (known_after_S _ _ Ea), reports_S, Hr. unfold settle_failure.
    destruct (reported_usage e) as [u|]; [|by rewrite app_nil_r].
    assert (Hu : forall g n, g ∈ counters -> g u = Some n -> (n <= u64_max)%N) by (intros g n; by apply (ew_u64 Hw _ _ _ _ Hr)).
    split; [rewrite settle_counter, counter_total_snoc by eauto; by rewrite Hk|].
    intros u' g [= <-] Hg. rewrite settle_counter by eauto. unfold add_counter.
    by destruct (_ ≫= g), (g u). }
  assert (Hok : forall o, at_result (ce_attempt env (N.of_nat (S k))) = Ok o ->
            counter_total f (reports (S k)) = add_counter (known_after k ≫= f) (f (mo_usage o)) /\
            settle (mo_usage o) (known_after k) ≫= f = counter_total f (reports (S k))).
  { intros o Ea. assert (Hr : report (N.of_nat (S k)) = Some (mo_usage o)) by (unfold report; by rewrite Ea).
    assert (Hu : forall n, f (mo_usage o) = Some n -> (n <= u64_max)%N) by (intros n; by apply (ew_u64 Hw _ _ _ _ Hr)).
    rewrite reports_S, Hr, counter_total_snoc, settle_counter by done. by rewrite Hk. }
  destruct Ho as [o Ea|e Ea|e e' Ea Hn|e Ea Hx|o e' Ea He']; cbn [usage_of].
  - destruct (Hok o Ea) as [-> _]. destruct (known_after k) as [u|].
    + rewrite add_counter_comm. unfold counters in Hf. rewrite !elem_of_cons in Hf.
      destruct Hf as [->|[->|[->|[->|[->|Hf]]]]]; [done..|]. by apply elem_of_nil in Hf.
    + assert (Hr : report (N.of_nat (S k)) = Some (mo_usage o)) by (unfold report; by rewrite Ea).
      pose proof (fun n => ew_u64 Hw _ _ f n Hr Hf) as Hu. cbn [with_known_usage mbind option_bind].
      transitivity (f (mo_usage o)).
      * unfold counters in Hf. rewrite !elem_of_cons in Hf.
        destruct Hf as [->|[->|[->|[->|[->|Hf]]]]]; [done..|]. by apply elem_of_nil in Hf.
      * destruct (f (mo_usage o)) as [n|]; [|done]. specialize (Hu n eq_refl).
        unfold add_counter, saturating_add, from_option, id. f_equal. lia.
  - destruct (Hfailed e Ea) as [<- Hown]. apply terminal_counter; [done|done|].
    intros u s ->. by apply (ew_envelope Hw _ _ _ Ea).
  - destruct (Hfailed e Ea) as [<- _]. pose proof (ew_note Hw _ _ Hn) as Hb. apply terminal_counter; [done| |].
    + intros u g Hu. congruence.
    + by intros u s ->.
  - destruct (Hfailed e Ea) as [<- _]. by apply terminal_counter.
  - destruct (Hok o Ea) as [_ <-].
    assert (Hb : reported_usage e' = None) by (destruct He' as [[j Hj]|]; [by apply (ew_replay Hw _ _ Hj)|done]).
    apply terminal_counter; [done| |].
    + intros u g Hu. congruence.
    + by intros u s ->.
Qed.
End retries.

(** ** The theorems *)

Section theorems.
Context `{JN : JsonNumber} {AL : Allocator}.

(** The three call modes. *)
Inductive Mode : Type := Unary | Live | Buffered.

Definition run (m : Mode) (max : N) (schedule : RetrySchedule) (env : CallEnv) (seq : N) :
    option (AgentResult ModelOutput * Call) :=
  match m with
  | Unary => complete max schedule env seq
  | Live => complete_stream max schedule false env seq
  | Buffered => complete_stream max schedule true env seq
  end.

Lemma run_ends m max schedule env seq :
  (max <= u32_max)%N -> exists r c k, run m max schedule env seq = Some (r, c) /\ ended env schedule max k r c.
Proof.
  intros Hmax. destruct m; cbn [run].
  - destruct (unary_ends env schedule seq max Hmax) as (r & c & k & ? & ? & _); eauto.
  - destruct (live_ends env schedule seq max Hmax) as (r & c & k & ? & ? & _); eauto.
  - destruct (buffered_ends env schedule seq max Hmax) as (r & c & k & ? & ? & _); eauto.
Qed.

Lemma no_barrier f l : existsb f l = false -> List.filter f (content l) = [].
Proof.
  induction l as [|chunk l IH]; [done|]. cbn [existsb]. rewrite orb_false_iff. intros [Hf Hl].
  unfold content in *. cbn [List.filter]. destruct (is_content chunk); cbn [List.filter]; rewrite ?Hf; by apply IH.
Qed.


(** Nobody is shown an output twice. Live, all chunks that the sink declared
    irreversible come from the call's last attempt: the attempts before it handed over
    none. Buffered, the sink is shown chunks of the last attempt only, only if that
    attempt succeeded, in order, and all of them if the call succeeds. *)
Theorem no_duplicate_output max schedule env seq :
  (max <= u32_max)%N ->
  let irreversible := List.filter (fun chunk => is_content chunk && ce_barrier env chunk) in
  (exists r c k, run Live max schedule env seq = Some (r, c) /\ outcome env k r /\
     irreversible (ca_sink c) = irreversible (at_chunks (ce_attempt env (N.of_nat (S k))))) /\
  (exists r c k shown rest, run Buffered max schedule env seq = Some (r, c) /\ outcome env k r /\
     at_chunks (ce_attempt env (N.of_nat (S k))) = shown ++ rest /\ content (ca_sink c) = content shown /\
     (is_Ok r = true -> rest = []) /\
     (is_Ok (at_result (ce_attempt env (N.of_nat (S k)))) = false -> shown = [])).
Proof.
  intros Hmax irreversible. split.
  - destruct (live_ends env schedule seq max Hmax) as (r & c & k & Hr & [_ Ho _] & Hc & Hb).
    exists r, c, k. split; [done|]. split; [done|].
    assert (Hi : forall l, irreversible l = List.filter (ce_barrier env) (content l)).
    { intros l. unfold irreversible, content. induction l as [|chunk l IH]; [done|]. cbn [List.filter].
      destruct (is_content chunk); cbn [andb List.filter]; by rewrite IH. }
    rewrite !Hi, Hc, handed_S, content_app, List.filter_app.
    enough (List.filter (ce_barrier env) (content (handed env k)) = []) as ->; [done|].
    by apply no_barrier.
  - destruct (buffered_ends env schedule seq max Hmax) as (r & c & k & Hr & [_ Ho _] & l & rest & Ha & Hc & Hok & Herr).
    exists r, c, k, l, rest. done.
Qed.

(** C28. Usage a provider reported is counted once, and kept whatever becomes of the call:
    each counter of the answer, or of the error that ends the call, is the saturated
    sum of that counter over the attempts that ran, and absent when none reported it. *)
Theorem usage_settled_once m max schedule env seq :
  (max <= u32_max)%N -> env_wf env ->
  exists r c k, run m max schedule env seq = Some (r, c) /\ within_credits env max k /\
    forall f, f ∈ counters -> usage_of r f = counter_total f (reports env (S k)).
Proof.
  intros Hmax Hw. destruct (run_ends m max schedule env seq Hmax) as (r & c & k & Hr & He).
  exists r, c, k. split; [done|]. split; [apply He|]. intros f Hf. by eapply ended_usage.
Qed.

End theorems.
