(* ===== verification/Sse.v ===== *)
(** The Chat Completions stream of a model call: the event framer and the stream
    accumulator of provider-openai/sse.rs, the tool-name codec of wire_names.rs, and
    the read loop of lib.rs ([complete_chat_stream]) that feeds one to the other.

    What serde_json and the derived deserializer make of an event's payload, and the
    strict argument parser of agent-contracts, are the class [WireJson]. *)

From stdpp Require Import gmap.
From S2P Require Import Prelude Text Digest Jcs Operation Kernel Retry.

Definition CR : N := 13.
Definition NL : N := 10.

(** ** The event framer *)

Record SseEvent : Type := { se_event : option text; se_data : text }.

Record SseEventFramer : Type := {
  fr_data_lines : list text;
  fr_data_bytes : N;
  fr_event_type : option text;
  fr_max_event_bytes : N;
}.

Definition new_framer (max_event_bytes : N) : SseEventFramer :=
  {| fr_data_lines := []; fr_data_bytes := 0; fr_event_type := None;
     fr_max_event_bytes := N.max max_event_bytes 1 |}.

(** [str::strip_prefix]. *)
Fixpoint strip_prefix (prefix s : text) : option text :=
  match prefix, s with
  | [], _ => Some s
  | p :: prefix, c :: s => if (p =? c)%N then strip_prefix prefix s else None
  | _ :: _, [] => None
  end.

(** [trim_end_matches('\r')]. *)
Fixpoint trim_start_cr (s : text) : text :=
  match s with c :: s' => if (c =? CR)%N then trim_start_cr s' else s | [] => [] end.
Definition trim_end_cr (s : text) : text := reverse (trim_start_cr (reverse s)).

(** [lines.join("\n")]. *)
Fixpoint join_nl (lines : list text) : text :=
  match lines with
  | [] => []
  | [line] => line
  | line :: lines => line ++ NL :: join_nl lines
  end.

Definition flush_event (f : SseEventFramer) : option SseEvent * SseEventFramer :=
  match fr_data_lines f with
  | [] =>
      (None, {| fr_data_lines := []; fr_data_bytes := fr_data_bytes f; fr_event_type := None;
                fr_max_event_bytes := fr_max_event_bytes f |})
  | lines =>
      (Some {| se_event := fr_event_type f; se_data := join_nl lines |},
       {| fr_data_lines := []; fr_data_bytes := 0; fr_event_type := None;
          fr_max_event_bytes := fr_max_event_bytes f |})
  end.

Definition byte_cap_error (max_event_bytes : N) : text :=
  txt "SSE event exceeded the " ++ uint_text (N.to_uint max_event_bytes)
  ++ txt " byte cap before the blank-line boundary".

Definition push_line (line : text) : M SseEventFramer text (option SseEvent) := fun f =>
  match trim_end_cr line with
  | [] => let '(event, f) := flush_event f in (Ok event, f)
  | line =>
      match strip_prefix (txt "data:") line with
      | Some payload =>
          match trim payload with
          | [] => (Ok None, f)
          | payload =>
              let data_bytes := saturating_add (fr_data_bytes f) (N.of_nat (str_len payload)) in
              if (fr_max_event_bytes f <? data_bytes)%N
              then (Err (byte_cap_error (fr_max_event_bytes f)),
                    {| fr_data_lines := fr_data_lines f; fr_data_bytes := data_bytes;
                       fr_event_type := fr_event_type f; fr_max_event_bytes := fr_max_event_bytes f |})
              else (Ok None,
                    {| fr_data_lines := fr_data_lines f ++ [payload]; fr_data_bytes := data_bytes;
                       fr_event_type := fr_event_type f; fr_max_event_bytes := fr_max_event_bytes f |})
          end
      | None =>
          match strip_prefix (txt "event:") line with
          | Some event =>
              (Ok None,
               {| fr_data_lines := fr_data_lines f; fr_data_bytes := fr_data_bytes f;
                  fr_event_type := Some (trim event); fr_max_event_bytes := fr_max_event_bytes f |})
          | None => (Ok None, f)
          end
      end
  end.

(** [SseEventFramer::finish]. *)
Definition finish (f : SseEventFramer) : option SseEvent * SseEventFramer := flush_event f.

(** ** The wire *)

Record WireFunctionDelta : Type := { wf_name : option text; wf_arguments : option text }.

Record WireToolCallDelta : Type := {
  wt_index : N;
  wt_id : option text;
  wt_function : option WireFunctionDelta;
}.

Record WireDelta : Type := { wd_content : option text; wd_tool_calls : list WireToolCallDelta }.

Record WireChoice : Type := { wc_delta : WireDelta; wc_finish_reason : option text }.

Record WireError : Type := { we_message : option text }.

Record WirePromptTokensDetails : Type := {
  wp_cached_tokens : option N;
  wp_cache_write_tokens : option N;
}.

Record WireUsage : Type := {
  wu_prompt_tokens : option N;
  wu_completion_tokens : option N;
  wu_prompt_tokens_details : option WirePromptTokensDetails;
  wu_prompt_cache_hit_tokens : option N;
  wu_prompt_cache_miss_tokens : option N;
}.

Record WireChunk : Type := {
  wk_choices : list WireChoice;
  wk_usage : option WireUsage;
  wk_error : option WireError;
}.

(** [serde_json::from_str], [serde_json::from_value::<WireChunk>] and
    [agent_contracts::parse_arguments_strict]; an error is its message. *)
Class WireJson `{JN : JsonNumber} := {
  json_from_str : text -> result Json text;
  wire_chunk_from_value : Json -> result WireChunk text;
  parse_arguments_strict : text -> result Json text;
}.

Definition protocol_event_error (message : text) : AgentError := ModelProtocol MalformedEvent message.

Definition validate_sse_event_routing `{JN : JsonNumber} (event_name : option text) (payload : Json) :
    AgentResult unit :=
  match event_name with
  | None => Ok tt
  | Some name =>
      match get_field (txt "type") payload ≫= as_str with
      | None => Ok tt
      | Some declared_type =>
          if decide (name = declared_type) then Ok tt
          else Err (ModelProtocol MalformedEvent
                 (txt "SSE event `" ++ name ++ txt "` contradicts the payload type `" ++ declared_type ++ txt "`"))
      end
  end.

Definition parse_wire_chunk `{WJ : WireJson} (payload : text) : AgentResult (option WireChunk) :=
  match json_from_str payload with
  | Err error => Err (ModelProtocol MalformedEvent (txt "malformed Chat Completions SSE JSON: " ++ error))
  | Ok (JObject entries as value) =>
      if existsb (fun field => bool_decide (field ∈ entries.*1)) [txt "choices"; txt "usage"; txt "error"]
      then match wire_chunk_from_value value with
           | Ok chunk => Ok (Some chunk)
           | Err error =>
               Err (ModelProtocol MalformedEvent (txt "invalid Chat Completions SSE event shape: " ++ error))
           end
      else Ok None
  | Ok _ => Err (ModelProtocol MalformedEvent (txt "Chat Completions SSE data must be a JSON object"))
  end.

(** ** The accumulator *)

Record AccToolCall : Type := {
  ac_index : N;
  ac_id : option text;
  ac_name : option text;
  ac_arguments : text;
}.

Record StreamAccumulator : Type := {
  sa_content : text;
  sa_tool_calls : list AccToolCall;
  sa_id_indexes : gmap text N;
  sa_usage : option ModelUsage;
  sa_terminal_error : option text;
  sa_sealed : bool;
  sa_output_limit : bool;
}.

Definition default_accumulator : StreamAccumulator :=
  {| sa_content := []; sa_tool_calls := []; sa_id_indexes := ∅; sa_usage := None; sa_terminal_error := None;
     sa_sealed := false; sa_output_limit := false |}.

Definition copy_acc (a : StreamAccumulator) : StreamAccumulator :=
  {| sa_content := sa_content a; sa_tool_calls := sa_tool_calls a; sa_id_indexes := sa_id_indexes a;
     sa_usage := sa_usage a; sa_terminal_error := sa_terminal_error a; sa_sealed := sa_sealed a;
     sa_output_limit := sa_output_limit a |}.
Definition set_content : text -> StreamAccumulator -> StreamAccumulator := ltac:(setter copy_acc sa_content).
Definition set_tool_calls : list AccToolCall -> StreamAccumulator -> StreamAccumulator :=
  ltac:(setter copy_acc sa_tool_calls).
Definition set_id_indexes : gmap text N -> StreamAccumulator -> StreamAccumulator :=
  ltac:(setter copy_acc sa_id_indexes).
Definition set_usage : option ModelUsage -> StreamAccumulator -> StreamAccumulator :=
  ltac:(setter copy_acc sa_usage).
Definition set_terminal_error : option text -> StreamAccumulator -> StreamAccumulator :=
  ltac:(setter copy_acc sa_terminal_error).
Definition set_sealed : bool -> StreamAccumulator -> StreamAccumulator := ltac:(setter copy_acc sa_sealed).
Definition set_output_limit : bool -> StreamAccumulator -> StreamAccumulator :=
  ltac:(setter copy_acc sa_output_limit).

(** The slot of an index, created when there is none. *)
Definition ensure_slot (index : N) (calls : list AccToolCall) : AccToolCall * list AccToolCall :=
  match List.find (fun slot => (ac_index slot =? index)%N) calls with
  | Some slot => (slot, calls)
  | None =>
      let slot := {| ac_index := index; ac_id := None; ac_name := None; ac_arguments := [] |} in
      (slot, calls ++ [slot])
  end.

(** Writes through the [&mut] of the first slot of an index. *)
Fixpoint write_slot (slot : AccToolCall) (calls : list AccToolCall) : list AccToolCall :=
  match calls with
  | [] => []
  | call :: calls =>
      if (ac_index call =? ac_index slot)%N then slot :: calls else call :: write_slot slot calls
  end.

Definition index_text (index : N) : text := uint_text (N.to_uint index).

(** The id of a delta: [Ok] with the slot and the ids as they are afterwards. *)
Definition bind_id (index : N) (id : option text) (slot : AccToolCall) (ids : gmap text N) :
    AgentResult (AccToolCall * gmap text N) :=
  match id with
  | None => Ok (slot, ids)
  | Some id =>
      let? _ :=
        match ids !! id with
        | Some owner =>
            if (owner =? index)%N then Ok tt
            else Err (protocol_event_error
                   (txt "Chat Completions tool call id `" ++ id ++ txt "` is bound to index " ++ index_text owner
                    ++ txt " and index " ++ index_text index))
        | None => Ok tt
        end in
      match ac_id slot with
      | Some bound =>
          if decide (bound = id) then Ok (slot, ids)
          else Err (protocol_event_error
                 (txt "Chat Completions tool call at index " ++ index_text index ++ txt " bound id `" ++ id
                  ++ txt "` but is already `" ++ bound ++ txt "`"))
      | None =>
          Ok ({| ac_index := ac_index slot; ac_id := Some id; ac_name := ac_name slot;
                 ac_arguments := ac_arguments slot |}, <[id := index]> ids)
      end
  end.

(** The name of a delta. *)
Definition bind_name (index : N) (name : option text) (slot : AccToolCall) : AgentResult AccToolCall :=
  match name with
  | None => Ok slot
  | Some name =>
      match ac_name slot with
      | Some bound =>
          if decide (bound = name) then Ok slot
          else Err (protocol_event_error
                 (txt "Chat Completions tool call at index " ++ index_text index ++ txt " bound name `" ++ name
                  ++ txt "` but is already `" ++ bound ++ txt "`"))
      | None =>
          Ok {| ac_index := ac_index slot; ac_id := ac_id slot; ac_name := Some name;
                ac_arguments := ac_arguments slot |}
      end
  end.

(** The arguments of a delta: the slot afterwards, and the event to forward. *)
Definition append_arguments (arguments : option text) (slot : AccToolCall) : AccToolCall * list ModelChunk :=
  match arguments with
  | None => (slot, [])
  | Some arguments =>
      let first_args := bool_decide (ac_arguments slot = []) in
      ({| ac_index := ac_index slot; ac_id := ac_id slot; ac_name := ac_name slot;
          ac_arguments := ac_arguments slot ++ arguments |},
       [ToolCallDelta (default (txt "call-" ++ index_text (ac_index slot)) (ac_id slot))
          (if first_args then ac_name slot else None) arguments])
  end.

(** One tool-call delta; what was bound before an error stays bound. *)
Definition apply_tool_call (delta : WireToolCallDelta) : M StreamAccumulator AgentError (list ModelChunk) := fun a =>
  let index := wt_index delta in
  if sa_sealed a
  then (Err (protocol_event_error
          (txt "Chat Completions tool-call delta for index " ++ index_text index
           ++ txt " arrived after the terminal chunk")), a)
  else
    let '(slot, calls) := ensure_slot index (sa_tool_calls a) in
    let a := set_tool_calls calls a in
    match bind_id index (wt_id delta) slot (sa_id_indexes a) with
    | Err error => (Err error, a)
    | Ok (slot, ids) =>
        let a := set_id_indexes ids (set_tool_calls (write_slot slot calls) a) in
        match bind_name index (wt_function delta ≫= wf_name) slot with
        | Err error => (Err error, a)
        | Ok slot =>
            let '(slot, events) := append_arguments (wt_function delta ≫= wf_arguments) slot in
            (Ok events, set_tool_calls (write_slot slot calls) a)
        end
    end.

Fixpoint each {S E A B} (f : A -> M S E (list B)) (items : list A) : M S E (list B) :=
  match items with
  | [] => ret []
  | item :: items => do events <- f item ;; do rest <- each f items ;; ret (events ++ rest)
  end.

Definition apply_content (content : option text) : M StreamAccumulator AgentError (list ModelChunk) := fun a =>
  match content with
  | None | Some [] => (Ok [], a)
  | Some content =>
      if sa_sealed a
      then (Err (protocol_event_error (txt "Chat Completions text delta arrived after the terminal chunk")), a)
      else (Ok [TextDelta content], set_content (sa_content a ++ content) a)
  end.

Definition note_network_error (choice : WireChoice) (a : StreamAccumulator) : StreamAccumulator :=
  if bool_decide (wc_finish_reason choice = Some (txt "network_error"))
  then set_terminal_error (Some (txt "provider reported finish_reason=network_error")) a else a.

Definition apply_choice (choice : WireChoice) : M StreamAccumulator AgentError (list ModelChunk) :=
  do_ modify (note_network_error choice) ;;
  do text <- apply_content (wd_content (wc_delta choice)) ;;
  do calls <- each apply_tool_call (wd_tool_calls (wc_delta choice)) ;;
  ret (text ++ calls).

Definition wire_usage (usage : WireUsage) : ModelUsage :=
  {| mu_input_tokens := wu_prompt_tokens usage;
     mu_output_tokens := wu_completion_tokens usage;
     mu_cached_input_tokens :=
       match wu_prompt_tokens_details usage ≫= wp_cached_tokens with
       | Some cached => Some cached
       | None => wu_prompt_cache_hit_tokens usage
       end;
     mu_cache_write_input_tokens := wu_prompt_tokens_details usage ≫= wp_cache_write_tokens;
     mu_cache_miss_input_tokens := wu_prompt_cache_miss_tokens usage;
     mu_attempts := 0; mu_retries := 0 |}.

Definition note_error (chunk : WireChunk) (a : StreamAccumulator) : StreamAccumulator :=
  match wk_error chunk with
  | Some error => set_terminal_error (Some (default (txt "provider stream error") (we_message error))) a
  | None => a
  end.

Definition note_usage (chunk : WireChunk) (a : StreamAccumulator) : StreamAccumulator :=
  match wk_usage chunk with Some usage => set_usage (Some (wire_usage usage)) a | None => a end.

Definition finishes (reason : text -> bool) (choice : WireChoice) : bool :=
  from_option reason false (wc_finish_reason choice).

(** A terminal chunk seals the stream. *)
Definition seal (chunk : WireChunk) (a : StreamAccumulator) : StreamAccumulator :=
  if negb (sa_sealed a) && existsb (finishes (fun _ => true)) (wk_choices chunk)
  then
    let a := set_sealed true a in
    if existsb (finishes (fun reason => bool_decide (reason = txt "length"))) (wk_choices chunk)
    then set_output_limit true a else a
  else a.

(** [StreamAccumulator::apply]. *)
Definition apply (chunk : WireChunk) : M StreamAccumulator AgentError (list ModelChunk) :=
  do_ modify (note_error chunk) ;;
  do_ modify (note_usage chunk) ;;
  do events <- each apply_choice (wk_choices chunk) ;;
  do_ modify (seal chunk) ;;
  ret events.

Definition take_terminal_error (a : StreamAccumulator) : option text * StreamAccumulator :=
  (sa_terminal_error a, set_terminal_error None a).

Definition take_output_limit (a : StreamAccumulator) : bool * StreamAccumulator :=
  (sa_output_limit a, set_output_limit false a).

Definition non_empty (value : option text) : option text := match value with Some [] => None | _ => value end.

Section finalize.
Context `{WJ : WireJson}.

Definition finalize_call (slot : AccToolCall) : AgentResult ToolCall :=
  let? id :=
    ok_or (non_empty (ac_id slot)) (protocol_event_error
      (txt "Chat Completions tool call at index " ++ index_text (ac_index slot) ++ txt " has no call id")) in
  let? name :=
    ok_or (non_empty (ac_name slot)) (protocol_event_error
      (txt "Chat Completions tool call at index " ++ index_text (ac_index slot) ++ txt " has no function name")) in
  let? arguments :=
    map_err (fun error => ModelProtocol MalformedToolCall
      (txt "Chat Completions tool call at index " ++ index_text (ac_index slot)
       ++ txt " has incomplete or invalid arguments: " ++ error))
      (parse_arguments_strict (ac_arguments slot)) in
  Ok {| tl_id := id; tl_name := name; tl_arguments := arguments |}.

Fixpoint finalize_calls (slots : list AccToolCall) : AgentResult (list ToolCall) :=
  match slots with
  | [] => Ok []
  | slot :: slots =>
      let? call := finalize_call slot in
      let? calls := finalize_calls slots in
      Ok (call :: calls)
  end.

(** [StreamAccumulator::finalize]. *)
Definition finalize (a : StreamAccumulator) : AgentResult (text * list ToolCall) :=
  let? calls := finalize_calls (sa_tool_calls a) in Ok (sa_content a, calls).

End finalize.

(** ** Tool names on the wire *)

Definition to_wire_tool_name (name : text) : text :=
  (fun c => if ((c =? 46) || (c =? 58))%N then 95%N else c) <$> name.

(** [ToolNameCodec]: wire name to Core id. *)
Abbreviation ToolNameCodec := (gmap text text).

Definition insert_spec_mapping (original : text) (from_wire : ToolNameCodec) : AgentResult ToolNameCodec :=
  let wire := to_wire_tool_name original in
  match from_wire !! wire with
  | Some existing =>
      if decide (existing = original) then Ok from_wire
      else Err (InvalidRequest
             (txt "tool names '" ++ existing ++ txt "' and '" ++ original ++ txt "' both serialize to '" ++ wire
              ++ txt "'; OpenAI-compatible function names cannot contain '.' or ':'"))
  | None => Ok (<[wire := original]> from_wire)
  end.

Fixpoint insert_specs (tools : list text) (from_wire : ToolNameCodec) : AgentResult ToolNameCodec :=
  match tools with
  | [] => Ok from_wire
  | tool :: tools => let? from_wire := insert_spec_mapping tool from_wire in insert_specs tools from_wire
  end.

Definition insert_history (from_wire : ToolNameCodec) (original : text) : ToolNameCodec :=
  match from_wire !! to_wire_tool_name original with
  | Some _ => from_wire
  | None => <[to_wire_tool_name original := original]> from_wire
  end.

(** The names of a request's tools, and of the tool calls of its messages. *)
Definition from_request (tools history : list text) : AgentResult ToolNameCodec :=
  let? from_wire := insert_specs tools ∅ in Ok (foldl insert_history from_wire history).

Definition decode_wire_name (codec : ToolNameCodec) (wire : text) : text := default wire (codec !! wire).

Definition remap_chunk (codec : ToolNameCodec) (chunk : ModelChunk) : ModelChunk :=
  match chunk with
  | ToolCallDelta call_id name arguments_delta =>
      ToolCallDelta call_id (decode_wire_name codec <$> name) arguments_delta
  | other => other
  end.

Definition remap_calls `{JN : JsonNumber} (codec : ToolNameCodec) (calls : list ToolCall) : list ToolCall :=
  (fun call => {| tl_id := tl_id call; tl_name := decode_wire_name codec (tl_name call);
                  tl_arguments := tl_arguments call |}) <$> calls.

(** ** One attempt of the chat stream (lib.rs) *)

Record ProtocolError : Type := { pe_error : AgentError; pe_endpoint_unsupported : bool }.

Definition protocol_error (error : AgentError) : ProtocolError :=
  {| pe_error := error; pe_endpoint_unsupported := false |}.
Definition protocol_transport (retryable : bool) (message : text) : ProtocolError :=
  protocol_error (Transport retryable message).

Definition default_usage : ModelUsage :=
  {| mu_input_tokens := None; mu_output_tokens := None; mu_cached_input_tokens := None;
     mu_cache_write_input_tokens := None; mu_cache_miss_input_tokens := None; mu_attempts := 0; mu_retries := 0 |}.

Definition seal_attempt_usage (error : ProtocolError) (usage : option ModelUsage) : ProtocolError :=
  match reported_usage (pe_error error) with
  | Some _ => error
  | None =>
      {| pe_error := failed_with_usage (default default_usage usage) (pe_error error);
         pe_endpoint_unsupported := pe_endpoint_unsupported error |}
  end.

(** What the [select!] of the read loop sees before the stream closes: a line, the line
    codec's errors, the cancelled request, or a silent gap (with the timeout as it is
    printed). *)
Inductive StreamItem : Type :=
| Line (line : text)
| LineTooLong
| LineFailed (error : text)
| RequestCancelled
| Stalled (timeout : text).

(** [rd_handed] is what the sink was handed, in order. *)
Record Reader : Type := {
  rd_accumulator : StreamAccumulator;
  rd_framer : SseEventFramer;
  rd_total_bytes : N;
  rd_handed : list ModelChunk;
}.

Definition copy_reader (r : Reader) : Reader :=
  {| rd_accumulator := rd_accumulator r; rd_framer := rd_framer r; rd_total_bytes := rd_total_bytes r;
     rd_handed := rd_handed r |}.
Definition set_accumulator : StreamAccumulator -> Reader -> Reader := ltac:(setter copy_reader rd_accumulator).
Definition set_framer : SseEventFramer -> Reader -> Reader := ltac:(setter copy_reader rd_framer).
Definition set_total_bytes : N -> Reader -> Reader := ltac:(setter copy_reader rd_total_bytes).
Definition set_handed : list ModelChunk -> Reader -> Reader := ltac:(setter copy_reader rd_handed).

Definition new_reader (max_stream_bytes : N) : Reader :=
  {| rd_accumulator := default_accumulator; rd_framer := new_framer max_stream_bytes; rd_total_bytes := 0;
     rd_handed := [] |}.

Section reading.
Context `{WJ : WireJson} (codec : ToolNameCodec) (max_stream_bytes : N) (sink : nat -> AgentResult unit).

(** [sink.on_chunk]; the [i]th chunk handed is answered [sink i]. *)
Definition on_chunk (chunk : ModelChunk) : M Reader ProtocolError unit := fun r =>
  (map_err protocol_error (sink (length (rd_handed r))), set_handed (rd_handed r ++ [chunk]) r).

Fixpoint forward (events : list ModelChunk) : M Reader ProtocolError unit :=
  match events with
  | [] => ret tt
  | event :: events => do_ on_chunk (remap_chunk codec event) ;; forward events
  end.

Definition on_accumulator {A} (m : M StreamAccumulator AgentError A) : M Reader ProtocolError A := fun r =>
  let '(result, a) := m (rd_accumulator r) in (map_err protocol_error result, set_accumulator a r).

Definition on_framer {A} (m : M SseEventFramer text A) : M Reader ProtocolError A := fun r =>
  let '(result, f) := m (rd_framer r) in (map_err (protocol_transport false) result, set_framer f r).

Definition DONE_MARKER : text := txt "[DONE]".

(** An event that is not the marker. *)
Definition take_payload (data : text) : M Reader ProtocolError unit :=
  do chunk <- lift (map_err protocol_error (parse_wire_chunk data)) ;;
  match chunk with
  | Some chunk => do events <- on_accumulator (apply chunk) ;; forward events
  | None => ret tt
  end.

Definition count_line (line : text) : M Reader ProtocolError unit := fun r =>
  let total_bytes := saturating_add (rd_total_bytes r) (N.of_nat (str_len line) + 1) in
  let r := set_total_bytes total_bytes r in
  if (max_stream_bytes <? total_bytes)%N
  then (Err (protocol_transport false
          (txt "stream exceeded the " ++ uint_text (N.to_uint max_stream_bytes)
           ++ txt " byte cap; provider response is not bounded")), r)
  else (Ok tt, r).

Definition current_usage (a : StreamAccumulator) : ModelUsage := default default_usage (sa_usage a).

(** The read loop up to its [break]: whether the marker was seen. The list ends where
    the stream closes. *)
Fixpoint read_loop (items : list StreamItem) : M Reader ProtocolError bool :=
  match items with
  | [] =>
      do event <- on_framer (fun f => let '(event, f) := finish f in (Ok event, f)) ;;
      match event with
      | Some event =>
          if decide (se_data event = DONE_MARKER) then ret true
          else do_ take_payload (se_data event) ;; ret false
      | None => ret false
      end
  | RequestCancelled :: _ =>
      fun r => (Err (protocol_error (failed_with_usage (current_usage (rd_accumulator r)) Cancelled)), r)
  | Stalled timeout :: _ =>
      fail (protocol_transport true (txt "provider stream stalled: no bytes for " ++ timeout))
  | LineTooLong :: _ =>
      fail (protocol_transport false
        (txt "SSE line exceeded the " ++ uint_text (N.to_uint max_stream_bytes) ++ txt " byte cap before framing"))
  | LineFailed error :: _ => fail (protocol_transport true (txt "stream error: " ++ error))
  | Line line :: items =>
      do_ count_line line ;;
      do event <- on_framer (push_line line) ;;
      match event with
      | Some event =>
          if decide (se_data event = DONE_MARKER) then ret true
          else do_ take_payload (se_data event) ;; read_loop items
      | None => read_loop items
      end
  end.

(** After the loop. *)
Definition conclude (saw_done : bool) : M Reader ProtocolError ModelOutput := fun r =>
  let usage := current_usage (rd_accumulator r) in
  let failed error := Err (protocol_error (failed_with_usage usage error)) in
  let '(output_limit, a) := take_output_limit (rd_accumulator r) in
  if output_limit
  then (failed (ModelOutputLimit
          (txt "Chat Completions stream ended with finish_reason=length;                          the model output was truncated")), set_accumulator a r)
  else
    let '(terminal_error, a) := take_terminal_error a in
    let r := set_accumulator a r in
    match terminal_error with
    | Some message => (failed (Transport true message), r)
    | None =>
        if negb saw_done
        then (failed (Transport true (txt "Chat Completions stream ended before the [DONE] marker")), r)
        else
          let r := set_accumulator default_accumulator r in
          match finalize a with
          | Err error => (failed error, r)
          | Ok (content, tool_calls) =>
              let answer := sink (length (rd_handed r)) in
              let r := set_handed (rd_handed r ++ [Done]) r in
              match answer with
              | Err error => (failed error, r)
              | Ok _ =>
                  (Ok {| mo_content := content; mo_tool_calls := remap_calls codec tool_calls; mo_usage := usage |}, r)
              end
          end
    end.

(** [complete_chat_stream] from the response's body on. *)
Definition read_chat_stream (items : list StreamItem) : result ModelOutput ProtocolError * Reader :=
  let '(result, r) := bind (read_loop items) conclude (new_reader max_stream_bytes) in
  (map_err (fun error => seal_attempt_usage error (sa_usage (rd_accumulator r))) result, r).

End reading.
