(* ===== verification/SseTheorems.v ===== *)
(** What the chat stream guarantees: the framer's bound and its round trip with the
    lines of an event, and the reassembly of a streamed answer, against a reference
    that works on the list of all deltas. *)

From stdpp Require Import gmap.
From S2P Require Import Prelude Text Digest Jcs Operation Kernel Retry RetryTheorems Sse.

(** ** The reference *)

(** What an answer is made of, in order: the texts and the tool-call deltas. *)
Inductive piece : Type := Words (content : text) | CallDelta (delta : WireToolCallDelta).

Definition choice_pieces (choice : WireChoice) : list piece :=
  match wd_content (wc_delta choice) with
  | None | Some [] => []
  | Some content => [Words content]
  end ++ (CallDelta <$> wd_tool_calls (wc_delta choice)).

Definition chunk_pieces (chunk : WireChunk) : list piece := wk_choices chunk ≫= choice_pieces.
Definition pieces (chunks : list WireChunk) : list piece := chunks ≫= chunk_pieces.

Definition piece_text (p : piece) : text := match p with Words content => content | CallDelta _ => [] end.
Definition words (ps : list piece) : text := ps ≫= piece_text.
Definition piece_delta (p : piece) : option WireToolCallDelta :=
  match p with Words _ => None | CallDelta delta => Some delta end.
Definition deltas (ps : list piece) : list WireToolCallDelta := omap piece_delta ps.

Definition of_index (index : N) (ds : list WireToolCallDelta) : list WireToolCallDelta :=
  filter (fun d => wt_index d = index) ds.
Definition delta_name (d : WireToolCallDelta) : option text := wt_function d ≫= wf_name.
Definition delta_arguments (d : WireToolCallDelta) : option text := wt_function d ≫= wf_arguments.
Definition ids_at (index : N) (ds : list WireToolCallDelta) : list text := omap wt_id (of_index index ds).
Definition names_at (index : N) (ds : list WireToolCallDelta) : list text := omap delta_name (of_index index ds).
Definition arguments_at (index : N) (ds : list WireToolCallDelta) : text :=
  concat (omap delta_arguments (of_index index ds)).

(** The indexes in the order they first appear. *)
Definition add_index (l : list N) (index : N) : list N := if decide (index ∈ l) then l else l ++ [index].
Definition indexes (ds : list WireToolCallDelta) : list N := foldl add_index [] (wt_index <$> ds).

Definition slot_at (ds : list WireToolCallDelta) (index : N) : AccToolCall :=
  {| ac_index := index; ac_id := head (ids_at index ds); ac_name := head (names_at index ds);
     ac_arguments := arguments_at index ds |}.
Definition reassembled (ds : list WireToolCallDelta) : list AccToolCall := slot_at ds <$> indexes ds.

(** Identities agree: one id and one name per index, and one index per id. *)
Definition agree (ds : list WireToolCallDelta) : Prop :=
  (forall i x y, x ∈ ids_at i ds -> y ∈ ids_at i ds -> x = y) /\
  (forall i x y, x ∈ names_at i ds -> y ∈ names_at i ds -> x = y) /\
  (forall i j x, x ∈ ids_at i ds -> x ∈ ids_at j ds -> i = j).

(** What forwarded events carry. *)
Definition event_text (c : ModelChunk) : text := match c with TextDelta delta => delta | _ => [] end.
Definition event_arguments (c : ModelChunk) : option text :=
  match c with ToolCallDelta _ _ arguments => Some arguments | _ => None end.

(** ** Lists *)

Lemma of_index_snoc i ds d :
  of_index i (ds ++ [d]) = of_index i ds ++ (if decide (wt_index d = i) then [d] else []).
Proof. unfold of_index. rewrite filter_app, filter_cons. by destruct (decide _). Qed.

Lemma at_snoc {A} (f : WireToolCallDelta -> option A) i ds d :
  omap f (of_index i (ds ++ [d])) =
  omap f (of_index i ds) ++ (if decide (wt_index d = i) then option_list (f d) else []).
Proof.
  rewrite of_index_snoc, omap_app. f_equal. destruct (decide _); [|done]. cbn. by destruct (f d).
Qed.

Lemma head_snoc {A} (l : list A) (o : option A) :
  head (l ++ option_list o) = match head l with Some x => Some x | None => o end.
Proof. destruct l; [|done]. by destruct o. Qed.

Lemma indexes_snoc ds d : indexes (ds ++ [d]) = add_index (indexes ds) (wt_index d).
Proof. unfold indexes. by rewrite fmap_app, foldl_app. Qed.

Lemma indexes_NoDup ds : NoDup (indexes ds).
Proof.
  induction ds as [|d ds IH] using rev_ind; [constructor|]. rewrite indexes_snoc. unfold add_index.
  destruct (decide _); [done|]. apply NoDup_app. split; [done|]. split; [set_solver|]. apply NoDup_singleton.
Qed.

Lemma elem_of_indexes i ds : i ∈ indexes ds <-> exists d, d ∈ ds /\ wt_index d = i.
Proof.
  induction ds as [|d ds IH] using rev_ind; [set_solver|]. rewrite indexes_snoc. unfold add_index.
  destruct (decide _); set_solver.
Qed.

Lemma of_index_nil i ds : i ∉ indexes ds -> of_index i ds = [].
Proof.
  intros Hi. destruct (of_index i ds) as [|d l] eqn:E; [done|]. exfalso. apply Hi, elem_of_indexes. exists d.
  assert (d ∈ of_index i ds) as Hd by (rewrite E; left). unfold of_index in Hd.
  rewrite list_elem_of_filter in Hd. naive_solver.
Qed.

(** ** Slots *)

Lemma find_slot ds i (l : list N) :
  List.find (fun slot => (ac_index slot =? i)%N) (slot_at ds <$> l) =
  if decide (i ∈ l) then Some (slot_at ds i) else None.
Proof.
  induction l as [|j l IH]; [done|]. cbn [fmap list_fmap List.find slot_at ac_index].
  destruct (j =? i)%N eqn:E.
  - apply N.eqb_eq in E as ->. rewrite decide_True; [done|left].
  - apply N.eqb_neq in E. rewrite IH. destruct (decide (i ∈ l)), (decide (i ∈ j :: l)); set_solver.
Qed.

Lemma ensure_spec ds d :
  ensure_slot (wt_index d) (reassembled ds) =
  (slot_at ds (wt_index d), slot_at ds <$> indexes (ds ++ [d])).
Proof.
  unfold ensure_slot, reassembled. rewrite find_slot, indexes_snoc. unfold add_index.
  destruct (decide _) as [Hi|Hi]; [done|]. rewrite fmap_app. cbn [fmap list_fmap].
  replace (slot_at ds (wt_index d)) with
    {| ac_index := wt_index d; ac_id := None; ac_name := None; ac_arguments := [] |}; [done|].
  unfold slot_at, ids_at, names_at, arguments_at. by rewrite of_index_nil.
Qed.

Lemma write_spec (f : N -> AccToolCall) (s : AccToolCall) (l : list N) :
  NoDup l -> (forall j, ac_index (f j) = j) ->
  write_slot s (f <$> l) = (fun j => if decide (j = ac_index s) then s else f j) <$> l.
Proof.
  intros Hnd Hf. induction Hnd as [|j l Hj Hnd IH]; [done|]. cbn [fmap list_fmap write_slot]. rewrite Hf.
  destruct (j =? ac_index s)%N eqn:E.
  - apply N.eqb_eq in E as ->. rewrite decide_True by done. f_equal. apply list_fmap_ext. intros ? k Hk.
    rewrite decide_False; [done|]. intros ->. apply list_elem_of_lookup_2 in Hk. done.
  - apply N.eqb_neq in E. rewrite decide_False by done. by rewrite IH.
Qed.

(** The slot of the delta's index is the one that changes. *)
Lemma slot_at_snoc ds d j :
  slot_at (ds ++ [d]) j =
  if decide (j = wt_index d) then
    {| ac_index := j;
       ac_id := match head (ids_at j ds) with Some x => Some x | None => wt_id d end;
       ac_name := match head (names_at j ds) with Some x => Some x | None => delta_name d end;
       ac_arguments := arguments_at j ds ++ default [] (delta_arguments d) |}
  else slot_at ds j.
Proof.
  unfold slot_at, ids_at, names_at, arguments_at. rewrite !at_snoc, concat_app.
  destruct (decide (j = wt_index d)) as [->|Hj].
  - do 3 rewrite decide_True by done. do 2 rewrite head_snoc.
    destruct (delta_arguments d); cbn; by rewrite ?app_nil_r.
  - do 3 rewrite decide_False by done. cbn. by do 3 rewrite app_nil_r.
Qed.

(** ** The invariant *)

Record assembled (ps : list piece) (es : list ModelChunk) (a : StreamAccumulator) : Prop := {
  as_content : sa_content a = words ps;
  as_calls : sa_tool_calls a = reassembled (deltas ps);
  as_ids : forall x i, sa_id_indexes a !! x = Some i <-> x ∈ ids_at i (deltas ps);
  as_agree : agree (deltas ps);
  as_text : es ≫= event_text = words ps;
  as_arguments : omap event_arguments es = omap delta_arguments (deltas ps);
}.

Lemma ids_at_snoc i ds d x :
  x ∈ ids_at i (ds ++ [d]) <-> x ∈ ids_at i ds \/ (i = wt_index d /\ wt_id d = Some x).
Proof.
  unfold ids_at. rewrite at_snoc, elem_of_app. destruct (decide _) as [->|]; [|set_solver].
  destruct (wt_id d); set_solver.
Qed.

Lemma names_at_snoc i ds d x :
  x ∈ names_at i (ds ++ [d]) <-> x ∈ names_at i ds \/ (i = wt_index d /\ delta_name d = Some x).
Proof.
  unfold names_at. rewrite at_snoc, elem_of_app. destruct (decide _) as [->|]; [|set_solver].
  destruct (delta_name d); set_solver.
Qed.

Lemma head_elem {A} (l : list A) x : head l = Some x -> x ∈ l.
Proof. destruct l; [done|]. intros [= ->]. left. Qed.

Lemma head_nil {A} (l : list A) : head l = None -> l = [].
Proof. by destruct l. Qed.

(** An accepted id is the one bound to the index, or new to the stream. *)
Lemma bind_id_spec ds d ids s' ids' :
  (forall x i, ids !! x = Some i <-> x ∈ ids_at i ds) -> agree ds ->
  bind_id (wt_index d) (wt_id d) (slot_at ds (wt_index d)) ids = Ok (s', ids') ->
  s' = {| ac_index := wt_index d;
          ac_id := match head (ids_at (wt_index d) ds) with Some x => Some x | None => wt_id d end;
          ac_name := head (names_at (wt_index d) ds); ac_arguments := arguments_at (wt_index d) ds |} /\
  (forall x i, ids' !! x = Some i <-> x ∈ ids_at i (ds ++ [d])) /\
  (forall x, wt_id d = Some x -> forall y, y ∈ ids_at (wt_index d) ds -> y = x).
Proof.
  intros Hids (Hone & _ & _). unfold bind_id. setoid_rewrite ids_at_snoc.
  destruct (wt_id d) as [id|].
  2: { intros [= <- <-]. split; [unfold slot_at; by destruct (head _)|]. split; [|done].
       intros x i. rewrite Hids. naive_solver. }
  assert (Hown : forall l : AgentResult unit, forall k, (let? _ := l in k) = Ok (s', ids') -> l = Ok tt /\ k = Ok (s', ids')).
  { intros [[]|] k; cbn [rbind]; [done|]. intros [=]. }
  intros [Hl Hb]%Hown. cbn [slot_at ac_id ac_index ac_name ac_arguments] in Hb.
  destruct (head (ids_at (wt_index d) ds)) as [bound|] eqn:Eh.
  - apply head_elem in Eh. destruct (decide (bound = id)) as [->|]; [|done]. injection Hb as <- <-.
    split; [unfold slot_at; f_equal; destruct (ids_at (wt_index d) ds) as [|z l] eqn:E; [set_solver|];
            cbn; f_equal; apply (Hone (wt_index d)); rewrite E; [left|done]|].
    split; [|intros ? [= <-] y Hy; by apply (Hone (wt_index d))].
    intros x i. rewrite Hids. split; [by left|]. intros [|[-> [= ->]]]; done.
  - apply head_nil in Eh. injection Hb as <- <-. split; [done|]. split; [|rewrite Eh; set_solver].
    intros x i. destruct (decide (x = id)) as [->|Hne].
    + rewrite lookup_insert_eq. split; [intros [= <-]; by right|]. intros [Hx|[-> _]]; [|done].
      apply Hids in Hx. rewrite Hx in Hl. destruct (i =? wt_index d)%N eqn:E; [|done]. by apply N.eqb_eq in E as ->.
    + rewrite lookup_insert_ne, Hids by done. naive_solver.
Qed.

Lemma bind_name_spec ds d s s' :
  agree ds -> ac_name s = head (names_at (wt_index d) ds) -> bind_name (wt_index d) (delta_name d) s = Ok s' ->
  s' = {| ac_index := ac_index s; ac_id := ac_id s;
          ac_name := match head (names_at (wt_index d) ds) with Some x => Some x | None => delta_name d end;
          ac_arguments := ac_arguments s |} /\
  (forall x, delta_name d = Some x -> forall y, y ∈ names_at (wt_index d) ds -> y = x).
Proof.
  intros (_ & Hone & _) Hs. unfold bind_name. rewrite <- Hs.
  destruct (delta_name d) as [name|]; [|intros [= <-]; split; [|done]; destruct s as [? ? [] ?]; done].
  destruct (ac_name s) as [bound|] eqn:En.
  - destruct (decide (bound = name)) as [->|]; [|done]. intros [= <-]. split; [destruct s; cbn in *; by subst|].
    intros ? [= <-] y Hy. apply (Hone (wt_index d)); [done|]. by apply head_elem.
  - intros [= <-]. split; [done|]. symmetry in Hs. apply head_nil in Hs. rewrite Hs. set_solver.
Qed.

Lemma append_spec o s : exists es,
  append_arguments o s =
  ({| ac_index := ac_index s; ac_id := ac_id s; ac_name := ac_name s; ac_arguments := ac_arguments s ++ default [] o |}, es) /\
  es ≫= event_text = [] /\ omap event_arguments es = option_list o.
Proof.
  destruct o as [arguments|].
  - eexists. split; [reflexivity|done].
  - exists []. split; [|done]. cbn. rewrite app_nil_r. by destruct s.
Qed.

Lemma deltas_app ps qs : deltas (ps ++ qs) = deltas ps ++ deltas qs.
Proof. apply omap_app. Qed.

Lemma assembled_call ps es a d es' a' :
  assembled ps es a -> apply_tool_call d a = (Ok es', a') ->
  assembled (ps ++ [CallDelta d]) (es ++ es') a' /\ sa_sealed a = false /\
  a' = set_id_indexes (sa_id_indexes a') (set_tool_calls (sa_tool_calls a') a).
Proof.
  intros [Hc Hcalls Hids Hag Ht Harg]. unfold apply_tool_call. destruct (sa_sealed a) eqn:Es; [done|].
  rewrite Hcalls, ensure_spec.
  change (sa_id_indexes (set_tool_calls _ a)) with (sa_id_indexes a).
  destruct (bind_id _ _ _ _) as [[s ids]|] eqn:Eb; [|done].
  destruct (bind_id_spec _ _ _ _ _ Hids Hag Eb) as (Hs & Hids' & Hid).
  change (wt_function d ≫= wf_name) with (delta_name d). change (wt_function d ≫= wf_arguments) with (delta_arguments d).
  destruct (bind_name _ _ _) as [s1|] eqn:En; [|done].
  assert (Hn : ac_name s = head (names_at (wt_index d) (deltas ps))) by (by rewrite Hs).
  destruct (bind_name_spec _ _ _ _ Hag Hn En) as (Hs1 & Hname).
  destruct (append_spec (delta_arguments d) s1) as (es1 & -> & Het & Hea). intros [= <- <-].
  split; [|split; [done|reflexivity]].
  assert (Hsnoc : deltas (ps ++ [CallDelta d]) = deltas ps ++ [d]) by apply deltas_app.
  constructor.
  - cbn. rewrite Hc. unfold words. rewrite bind_app. cbn. by rewrite app_nil_r.
  - change (sa_tool_calls _) with (write_slot
      {| ac_index := ac_index s1; ac_id := ac_id s1; ac_name := ac_name s1;
         ac_arguments := ac_arguments s1 ++ default [] (delta_arguments d) |} (slot_at (deltas ps) <$> indexes (deltas ps ++ [d]))).
    rewrite write_spec by (apply indexes_NoDup || done). rewrite Hsnoc. apply list_fmap_ext. intros _ j _.
    rewrite slot_at_snoc. rewrite Hs1, Hs. cbn [ac_index ac_id ac_name ac_arguments].
    destruct (decide (j = wt_index d)) as [->|]; done.
  - cbn. by rewrite Hsnoc.
  - rewrite Hsnoc. destruct Hag as (H1 & H2 & H3). split; [|split].
    + intros i x y. rewrite !ids_at_snoc. intros [Hx|[-> Hx]] [Hy|[Hi Hy]]; subst;
        [by eapply H1|by eapply Hid|symmetry; by eapply Hid|congruence].
    + intros i x y. rewrite !names_at_snoc. intros [Hx|[-> Hx]] [Hy|[Hi Hy]]; subst;
        [by eapply H2|by eapply Hname|symmetry; by eapply Hname|congruence].
    + intros i j x. rewrite <- !Hids'. congruence.
  - rewrite bind_app, Ht, Het. unfold words. rewrite bind_app. cbn. by rewrite !app_nil_r.
  - by rewrite omap_app, Hea, Harg, Hsnoc, omap_app.
Qed.

Lemma assembled_content ps es a o es' a' :
  assembled ps es a -> apply_content o a = (Ok es', a') ->
  assembled (ps ++ match o with None | Some [] => [] | Some content => [Words content] end) (es ++ es') a' /\
  a' = set_content (sa_content a') a /\ (sa_sealed a = true -> o = None \/ o = Some []).
Proof.
  intros Ha. pose proof Ha as [Hc Hcalls Hids Hag Ht Harg]. unfold apply_content.
  assert (Hsame : a = set_content (sa_content a) a) by (by destruct a).
  destruct o as [[|c content]|]; [intros [= <- <-]; rewrite !app_nil_r; auto| |intros [= <- <-]; rewrite !app_nil_r; auto].
  destruct (sa_sealed a); [done|]. intros [= <- <-]. split; [|done].
  assert (Hd : deltas (ps ++ [Words (c :: content)]) = deltas ps) by (rewrite deltas_app; apply app_nil_r).
  constructor; rewrite ?Hd; try done.
  - cbn. rewrite Hc. unfold words. rewrite bind_app. cbn. by rewrite app_nil_r.
  - rewrite bind_app, Ht. unfold words. rewrite bind_app. cbn. by rewrite !app_nil_r.
  - rewrite omap_app. cbn. by rewrite app_nil_r.
Qed.

(** ** A loop over parts *)

Lemma each_spec {S E A B} (f : A -> M S E (list B)) (I : list A -> list B -> S -> Prop) :
  (forall x xs es s es' s', I xs es s -> f x s = (Ok es', s') -> I (xs ++ [x]) (es ++ es') s') ->
  forall items xs es s es' s', I xs es s -> each f items s = (Ok es', s') -> I (xs ++ items) (es ++ es') s'.
Proof.
  intros Hf items. induction items as [|x items IH]; intros xs es s es' s' HI He.
  - injection He as <- <-. by rewrite !app_nil_r.
  - cbn [each] in He. unfold bind in He. destruct (f x s) as [[es1|] s1] eqn:Ex; [|done].
    destruct (each f items s1) as [[es2|] s2] eqn:Er; [|done]. injection He as <- <-.
    rewrite app_assoc, cons_middle, app_assoc. by apply (IH _ _ s1); [eapply Hf|].
Qed.

Lemma each_cons {S E A B} (f : A -> M S E (list B)) x xs s es s1 :
  f x s = (Ok es, s1) ->
  each f (x :: xs) s =
  match each f xs s1 with (Ok es', s2) => (Ok (es ++ es'), s2) | (Err e, s2) => (Err e, s2) end.
Proof. intros Hx. cbn [each]. unfold bind, ret. rewrite Hx. by destruct (each f xs s1) as [[]]. Qed.

Lemma each_app {S E A B} (f : A -> M S E (list B)) xs ys s es s1 :
  each f xs s = (Ok es, s1) ->
  each f (xs ++ ys) s =
  match each f ys s1 with (Ok es', s2) => (Ok (es ++ es'), s2) | (Err e, s2) => (Err e, s2) end.
Proof.
  revert s es. induction xs as [|x xs IH]; intros s es.
  - intros [= <- <-]. cbn [app]. by destruct (each f ys s) as [[]].
  - cbn [app each]. unfold bind, ret. destruct (f x s) as [[e1|] s2]; [|done].
    destruct (each f xs s2) as [[e2|] s3] eqn:El; [|done]. intros [= <- <-]. rewrite (IH _ _ El).
    destruct (each f ys s3) as [[e3|] s4]; [|done]. by rewrite app_assoc.
Qed.

(** The part of the accumulator that deltas leave alone. *)
Definition same_ends (a a' : StreamAccumulator) : Prop :=
  sa_sealed a' = sa_sealed a /\ sa_output_limit a' = sa_output_limit a /\ sa_usage a' = sa_usage a /\
  sa_terminal_error a' = sa_terminal_error a.

Lemma calls_spec ps es a0 a calls es' a' :
  assembled ps es a -> same_ends a0 a -> each apply_tool_call calls a = (Ok es', a') ->
  assembled (ps ++ (CallDelta <$> calls)) (es ++ es') a' /\ same_ends a0 a' /\ (sa_sealed a0 = true -> calls = []).
Proof.
  intros Ha Hs He.
  set (I := fun ds es a =>
    assembled (ps ++ (CallDelta <$> ds)) es a /\ same_ends a0 a /\ (sa_sealed a0 = true -> ds = [])).
  assert (HI : I ([] ++ calls) (es ++ es') a'); [|exact HI].
  apply (each_spec apply_tool_call I) with (s := a); [|split; [by rewrite app_nil_r|done]|done].
  clear. intros d ds es a es' a' (Ha & (Hs1 & Hs2 & Hs3 & Hs4) & Hq) He.
  destruct (assembled_call _ _ _ _ _ _ Ha He) as (Ha' & Hs & Hf).
  split; [by rewrite fmap_app, app_assoc|]. split; [by rewrite Hf|]. intros Ht. congruence.
Qed.

Definition network_error (choice : WireChoice) : bool :=
  finishes (fun reason => bool_decide (reason = txt "network_error")) choice.

Lemma note_network_spec choice a :
  let a' := note_network_error choice a in
  sa_sealed a' = sa_sealed a /\ sa_output_limit a' = sa_output_limit a /\ sa_usage a' = sa_usage a /\
  (sa_terminal_error a' = None -> sa_terminal_error a = None /\ network_error choice = false) /\
  (forall ps es, assembled ps es a -> assembled ps es a').
Proof.
  unfold note_network_error, network_error, finishes. destruct (wc_finish_reason choice) as [reason|]; cbn [from_option].
  - rewrite (bool_decide_ext (Some reason = Some _) (reason = txt "network_error")) by naive_solver.
    destruct (bool_decide _); cbn zeta; [|done]. do 3 (split; [reflexivity|]). split; [intros Hx; discriminate Hx|].
    intros ps es []. by constructor.
  - rewrite bool_decide_eq_false_2 by done. done.
Qed.

Lemma choice_spec ps es a choice es' a' :
  assembled ps es a -> apply_choice choice a = (Ok es', a') ->
  assembled (ps ++ choice_pieces choice) (es ++ es') a' /\
  sa_sealed a' = sa_sealed a /\ sa_output_limit a' = sa_output_limit a /\ sa_usage a' = sa_usage a /\
  (sa_sealed a = true -> choice_pieces choice = []) /\
  (sa_terminal_error a' = None -> sa_terminal_error a = None /\ network_error choice = false).
Proof.
  intros Ha. unfold apply_choice, bind, modify.
  pose proof (note_network_spec choice a) as (Hs & Hl & Hu & Ht & Has). cbn zeta in *.
  set (a1 := note_network_error choice a) in *. clearbody a1.
  destruct (apply_content _ a1) as [[es1|] a2] eqn:Ec; [|done].
  destruct (assembled_content _ _ _ _ _ _ (Has _ _ Ha) Ec) as (Ha2 & Hf & Hq).
  assert (Hs2 : same_ends a1 a2) by (rewrite Hf; done).
  destruct (each apply_tool_call _ a2) as [[es2|] a3] eqn:Ed; [|done]. intros [= <- <-].
  destruct (calls_spec _ _ _ _ _ _ _ Ha2 Hs2 Ed) as (Ha3 & (E1 & E2 & E3 & E4) & Hq').
  rewrite E1, E2, E3, E4, Hs, Hl, Hu. unfold choice_pieces. rewrite app_assoc, app_assoc.
  repeat (split; [done|]). split; [|exact Ht]. intros Hsealed.
  rewrite Hs in *. rewrite Hq' by done. destruct (Hq Hsealed) as [->| ->]; done.
Qed.

(** ** A stream of chunks *)

Definition terminal (chunk : WireChunk) : bool := existsb (finishes (fun _ => true)) (wk_choices chunk).
Definition cut_short (chunk : WireChunk) : bool :=
  existsb (finishes (fun reason => bool_decide (reason = txt "length"))) (wk_choices chunk).
Definition quiet (chunk : WireChunk) : Prop :=
  wk_error chunk = None /\ existsb network_error (wk_choices chunk) = false.

(** Whether the first terminal chunk says that the output was cut. *)
Definition truncated (chunks : list WireChunk) : bool := from_option cut_short false (List.find terminal chunks).
Definition reported (chunks : list WireChunk) : option ModelUsage := wire_usage <$> last (omap wk_usage chunks).

Record streamed (chunks : list WireChunk) (es : list ModelChunk) (a : StreamAccumulator) : Prop := {
  st_assembled : assembled (pieces chunks) es a;
  st_sealed : sa_sealed a = existsb terminal chunks;
  st_limit : sa_output_limit a = truncated chunks;
  st_usage : sa_usage a = reported chunks;
  st_quiet : sa_terminal_error a = None -> Forall quiet chunks;
  st_silent : forall before after, chunks = before ++ after -> existsb terminal before = true -> pieces after = [];
}.

Lemma streamed_start : streamed [] [] default_accumulator.
Proof.
  constructor; try done.
  - constructor; try done; [|by repeat split; intros; set_solver].
    intros x i. cbn. rewrite lookup_empty. set_solver.
  - intros before after H. symmetry in H. by apply app_eq_nil in H as [-> ->].
Qed.

Lemma find_snoc {A} (f : A -> bool) l x :
  List.find f (l ++ [x]) = match List.find f l with Some y => Some y | None => if f x then Some x else None end.
Proof. induction l as [|y l IH]; cbn; [by destruct (f x)|]. by destruct (f y). Qed.

Lemma find_existsb {A} (f : A -> bool) l : List.find f l = None <-> existsb f l = false.
Proof. induction l as [|y l IH]; cbn; [done|]. by destruct (f y). Qed.

Lemma note_spec chunk a :
  let a' := note_usage chunk (note_error chunk a) in
  sa_sealed a' = sa_sealed a /\ sa_output_limit a' = sa_output_limit a /\
  sa_usage a' = match wk_usage chunk with Some u => Some (wire_usage u) | None => sa_usage a end /\
  (sa_terminal_error a' = None -> sa_terminal_error a = None /\ wk_error chunk = None) /\
  (forall ps es, assembled ps es a -> assembled ps es a').
Proof.
  unfold note_usage, note_error. destruct (wk_usage chunk), (wk_error chunk); cbn zeta;
    do 3 (split; [reflexivity|]); (split; [try done; intros Hx; discriminate Hx|]); intros ps es []; by constructor.
Qed.

Lemma seal_spec chunk a :
  let a' := seal chunk a in
  sa_sealed a' = sa_sealed a || terminal chunk /\
  sa_output_limit a' = (if negb (sa_sealed a) && terminal chunk && cut_short chunk then true else sa_output_limit a) /\
  sa_usage a' = sa_usage a /\ sa_terminal_error a' = sa_terminal_error a /\
  (forall ps es, assembled ps es a -> assembled ps es a').
Proof.
  unfold seal. fold (terminal chunk). fold (cut_short chunk). destruct (sa_sealed a) eqn:Es; cbn [negb andb orb]; [done|].
  destruct (terminal chunk); cbn [andb]; [|done].
  destruct (cut_short chunk); do 4 (split; [reflexivity|]); intros ps es []; by constructor.
Qed.

Lemma choices_spec ps es a choices es' a' :
  assembled ps es a -> each apply_choice choices a = (Ok es', a') ->
  assembled (ps ++ (choices ≫= choice_pieces)) (es ++ es') a' /\
  sa_sealed a' = sa_sealed a /\ sa_output_limit a' = sa_output_limit a /\ sa_usage a' = sa_usage a /\
  (sa_sealed a = true -> choices ≫= choice_pieces = []) /\
  (sa_terminal_error a' = None -> sa_terminal_error a = None /\ existsb network_error choices = false).
Proof.
  intros Ha He.
  set (I := fun cs es a' => assembled (ps ++ (cs ≫= choice_pieces)) es a' /\
    sa_sealed a' = sa_sealed a /\ sa_output_limit a' = sa_output_limit a /\ sa_usage a' = sa_usage a /\
    (sa_sealed a = true -> cs ≫= choice_pieces = []) /\
    (sa_terminal_error a' = None -> sa_terminal_error a = None /\ existsb network_error cs = false)).
  assert (HI : I ([] ++ choices) (es ++ es') a'); [|exact HI].
  apply (each_spec apply_choice I) with (s := a); [|by split; [rewrite app_nil_r|]|done].
  clear He. intros c cs es1 a1 es2 a2 (Ha1 & H1 & H2 & H3 & H4 & H5) He.
  destruct (choice_spec _ _ _ _ _ _ Ha1 He) as (Ha2 & E1 & E2 & E3 & E4 & E5).
  unfold I. rewrite bind_app, existsb_app. cbn [mbind list_bind existsb]. rewrite app_nil_r, app_assoc, orb_false_r.
  split; [done|]. do 3 (split; [congruence|]). split.
  - intros Hs. rewrite H4, E4 by congruence. done.
  - intros Ht. destruct (E5 Ht) as [Ht1 ->]. destruct (H5 Ht1) as [? ->]. done.
Qed.

Lemma reported_snoc chunks chunk :
  reported (chunks ++ [chunk]) = match wk_usage chunk with Some u => Some (wire_usage u) | None => reported chunks end.
Proof.
  unfold reported. rewrite omap_app. cbn. destruct (wk_usage chunk); [by rewrite last_snoc|by rewrite app_nil_r].
Qed.

Lemma pieces_snoc chunks chunk : pieces (chunks ++ [chunk]) = pieces chunks ++ chunk_pieces chunk.
Proof. unfold pieces. rewrite bind_app. cbn. by rewrite app_nil_r. Qed.

Lemma streamed_apply chunks es a chunk es' a' :
  streamed chunks es a -> apply chunk a = (Ok es', a') -> streamed (chunks ++ [chunk]) (es ++ es') a'.
Proof.
  intros [Ha Hs Hl Hu Hq Hsil]. unfold apply, bind, modify.
  pose proof (note_spec chunk a) as (N1 & N2 & N3 & N4 & N5). cbn zeta in *.
  set (a1 := note_usage chunk (note_error chunk a)) in *. clearbody a1.
  destruct (each apply_choice _ a1) as [[es1|] a2] eqn:Ec; [|done]. intros [= <- <-].
  destruct (choices_spec _ _ _ _ _ _ (N5 _ _ Ha) Ec) as (Ha2 & C1 & C2 & C3 & C4 & C5).
  fold (chunk_pieces chunk) in *.
  pose proof (seal_spec chunk a2) as (S1 & S2 & S3 & S4 & S5). cbn zeta in *.
  constructor.
  - rewrite pieces_snoc. by apply S5.
  - rewrite S1, C1, N1, Hs, existsb_app. cbn. by rewrite orb_false_r.
  - rewrite S2, C2, C1, N2, N1, Hl, Hs. unfold truncated. rewrite find_snoc.
    destruct (List.find terminal chunks) as [c|] eqn:Ef.
    + destruct (existsb terminal chunks) eqn:Ex; [done|]. apply find_existsb in Ex. congruence.
    + apply find_existsb in Ef as ->. cbn.
      destruct (terminal chunk); cbn [from_option andb]; [by destruct (cut_short chunk)|done].
  - by rewrite S3, C3, N3, Hu, reported_snoc.
  - rewrite S4. intros Ht. destruct (C5 Ht) as [Ht1 Hn]. destruct (N4 Ht1) as [Ht0 He].
    apply Forall_app. split; [by apply Hq|]. by constructor.
  - intros before after Heq Ht. destruct after as [|c after _] using rev_ind; [done|].
    rewrite app_assoc in Heq. apply app_inj_tail in Heq as [-> ->]. rewrite pieces_snoc, (Hsil before after) by done.
    apply C4. rewrite N1, Hs, existsb_app, Ht. done.
Qed.

(** ** Usage, whatever the result *)

Lemma each_keeps {S E A B C} (f : A -> M S E (list B)) (p : S -> C) :
  (forall x s, p (f x s).2 = p s) -> forall items s, p (each f items s).2 = p s.
Proof.
  intros Hf items. induction items as [|x items IH]; intros s; [done|]. cbn [each]. unfold bind, ret.
  pose proof (Hf x s) as Hx. destruct (f x s) as [[es|e] s1]; cbn [snd] in *; [|done].
  pose proof (IH s1) as Hr. destruct (each f items s1) as [[es2|e] s2]; cbn [snd] in *; congruence.
Qed.

Lemma call_usage d a : sa_usage (apply_tool_call d a).2 = sa_usage a.
Proof.
  unfold apply_tool_call. destruct (sa_sealed a); [done|]. destruct (ensure_slot _ _) as [s calls].
  destruct (bind_id _ _ _ _) as [[s1 ids]|]; [|done]. destruct (bind_name _ _ _) as [s2|]; [|done].
  by destruct (append_arguments _ _).
Qed.

Lemma choice_usage c a : sa_usage (apply_choice c a).2 = sa_usage a.
Proof.
  unfold apply_choice, bind, modify, ret. pose proof (note_network_spec c a) as (_ & _ & Hu & _). cbn zeta in Hu.
  set (a1 := note_network_error c a) in *. clearbody a1. rewrite <- Hu.
  assert (Hc : sa_usage (apply_content (wd_content (wc_delta c)) a1).2 = sa_usage a1).
  { unfold apply_content. destruct (wd_content _) as [[|]|]; [done| |done]. by destruct (sa_sealed a1). }
  destruct (apply_content _ a1) as [[es|] a2]; cbn [snd] in *; [|done].
  pose proof (each_keeps apply_tool_call sa_usage call_usage (wd_tool_calls (wc_delta c)) a2) as Hd.
  destruct (each apply_tool_call _ a2) as [[es2|] a3]; cbn [snd] in *; by rewrite Hd.
Qed.

Lemma apply_usage chunk a :
  sa_usage (apply chunk a).2 = match wk_usage chunk with Some u => Some (wire_usage u) | None => sa_usage a end.
Proof.
  unfold apply, bind, modify, ret. pose proof (note_spec chunk a) as (_ & _ & <- & _).
  set (a1 := note_usage chunk (note_error chunk a)). clearbody a1.
  pose proof (each_keeps apply_choice sa_usage choice_usage (wk_choices chunk) a1) as Hc.
  destruct (each apply_choice _ a1) as [[es|] a2]; cbn [snd] in *; [|done].
  pose proof (seal_spec chunk a2) as (_ & _ & Hs & _). cbn. by rewrite Hs.
Qed.

(** ** Acceptance *)

Lemma each_accepts {S E A B} (f : A -> M S E (list B)) (I : list A -> list B -> S -> Prop) (whole : list A) :
  (forall x xs es s es' s', I xs es s -> f x s = (Ok es', s') -> I (xs ++ [x]) (es ++ es') s') ->
  (forall x xs ys es s, whole = (xs ++ [x]) ++ ys -> I xs es s -> exists es' s', f x s = (Ok es', s')) ->
  forall items xs es s, whole = xs ++ items -> I xs es s -> exists es' s', each f items s = (Ok es', s').
Proof.
  intros Hf Ha items. induction items as [|x items IH]; intros xs es s Hw HI; [by eexists _, _|].
  rewrite cons_middle, app_assoc in Hw. destruct (Ha x xs items es s Hw HI) as (es1 & s1 & Hx).
  destruct (IH _ _ _ Hw (Hf _ _ _ _ _ _ HI Hx)) as (es2 & s2 & Hr). eexists _, s2. cbn [each]. unfold bind.
  by rewrite Hx, Hr.
Qed.

Lemma agree_app ds ds' : agree (ds ++ ds') -> agree ds.
Proof.
  intros (H1 & H2 & H3).
  assert (Hi : forall i x, x ∈ ids_at i ds -> x ∈ ids_at i (ds ++ ds')).
  { intros i x. unfold ids_at, of_index. rewrite filter_app, omap_app. set_solver. }
  assert (Hn : forall i x, x ∈ names_at i ds -> x ∈ names_at i (ds ++ ds')).
  { intros i x. unfold names_at, of_index. rewrite filter_app, omap_app. set_solver. }
  split; [|split]; eauto.
Qed.

Lemma call_accepts ps es a d :
  assembled ps es a -> sa_sealed a = false -> agree (deltas ps ++ [d]) ->
  exists es' a', apply_tool_call d a = (Ok es', a').
Proof.
  intros [Hc Hcalls Hids Hag Ht Harg] Hs (Hone & Hname & Hidx). unfold apply_tool_call. rewrite Hs, Hcalls, ensure_spec.
  assert (Hb : exists v, bind_id (wt_index d) (wt_id d) (slot_at (deltas ps) (wt_index d)) (sa_id_indexes a) = Ok v).
  { unfold bind_id. destruct (wt_id d) as [id|] eqn:Eid; [|eauto]. cbn [slot_at ac_id].
    assert (Hd : id ∈ ids_at (wt_index d) (deltas ps ++ [d])) by (apply ids_at_snoc; by right).
    destruct (sa_id_indexes a !! id) as [owner|] eqn:Eo.
    - apply Hids in Eo. rewrite (Hidx _ _ _ (proj2 (ids_at_snoc owner _ d _) (or_introl Eo)) Hd), N.eqb_refl. cbn [rbind].
      destruct (head _) as [bound|] eqn:Eh; [|eauto]. apply head_elem in Eh.
      rewrite decide_True; [eauto|]. apply (Hone (wt_index d)); [|done]. apply ids_at_snoc. by left.
    - cbn [rbind]. destruct (head _) as [bound|] eqn:Eh; [|eauto]. apply head_elem in Eh.
      rewrite decide_True; [eauto|]. apply (Hone (wt_index d)); [|done]. apply ids_at_snoc. by left. }
  change (sa_id_indexes (set_tool_calls _ a)) with (sa_id_indexes a). destruct Hb as ([s ids] & Hb). rewrite Hb.
  destruct (bind_id_spec _ _ _ _ _ Hids Hag Hb) as (-> & _ & _).
  change (wt_function d ≫= wf_name) with (delta_name d). unfold bind_name. cbn [ac_name].
  destruct (delta_name d) as [name|] eqn:En; [|by destruct (append_arguments _ _); eauto].
  destruct (head (names_at _ _)) as [bound|] eqn:Eh; [|by destruct (append_arguments _ _); eauto].
  apply head_elem in Eh. rewrite decide_True; [by destruct (append_arguments _ _); eauto|].
  apply (Hname (wt_index d)); apply names_at_snoc; auto.
Qed.

Lemma choice_accepts ps es a choice :
  assembled ps es a -> (sa_sealed a = true -> choice_pieces choice = []) ->
  agree (deltas (ps ++ choice_pieces choice)) -> exists es' a', apply_choice choice a = (Ok es', a').
Proof.
  intros Ha Hs Hag. unfold apply_choice, bind, modify.
  pose proof (note_network_spec choice a) as (Hs1 & _ & _ & _ & Has). cbn zeta in *.
  set (a1 := note_network_error choice a) in *. clearbody a1. pose proof (Has _ _ Ha) as Ha1.
  unfold choice_pieces in *.
  assert (Hc : exists es1 a2, apply_content (wd_content (wc_delta choice)) a1 = (Ok es1, a2)).
  { unfold apply_content. destruct (wd_content _) as [[|]|]; eauto. rewrite Hs1.
    destruct (sa_sealed a); [|eauto]. by specialize (Hs eq_refl). }
  destruct Hc as (es1 & a2 & Hc). rewrite Hc. destruct (assembled_content _ _ _ _ _ _ Ha1 Hc) as (Ha2 & Hf & _).
  set (I := fun ds es a =>
    assembled ((ps ++ match wd_content (wc_delta choice) with None | Some [] => [] | Some content => [Words content] end)
               ++ (CallDelta <$> ds)) es a /\ sa_sealed a = sa_sealed a1).
  assert (Hd : exists es2 a3, each apply_tool_call (wd_tool_calls (wc_delta choice)) a2 = (Ok es2, a3)).
  { apply (each_accepts _ I (wd_tool_calls (wc_delta choice))) with (xs := []) (es := es ++ es1); [| |done|].
    - intros d ds es' a' es'' a'' [Hi He] Hx. destruct (assembled_call _ _ _ _ _ _ Hi Hx) as (Hi' & _ & Hf').
      split; [by rewrite fmap_app, app_assoc|]. rewrite <- He. by rewrite Hf'.
    - intros d ds ds' es' a' Hw [Hi He]. eapply call_accepts; [exact Hi| |].
      + rewrite He, Hs1. destruct (sa_sealed a); [|done]. specialize (Hs eq_refl). apply app_eq_nil in Hs as [_ Hs].
        rewrite Hw, !fmap_app in Hs. by destruct ds.
      + rewrite Hw, !fmap_app, !app_assoc, deltas_app in Hag. apply agree_app in Hag. by rewrite deltas_app in Hag.
    - split; [by rewrite app_nil_r|]. by rewrite Hf. }
  destruct Hd as (es2 & a3 & ->). by eexists _, _.
Qed.

Lemma apply_accepts chunks es a chunk :
  streamed chunks es a -> (existsb terminal chunks = true -> chunk_pieces chunk = []) ->
  agree (deltas (pieces (chunks ++ [chunk]))) -> exists es' a', apply chunk a = (Ok es', a').
Proof.
  intros [Ha Hs _ _ _ _] Hq Hag. rewrite <- Hs in Hq. rewrite pieces_snoc in Hag. unfold apply, bind, modify.
  pose proof (note_spec chunk a) as (N1 & _ & _ & _ & N5). cbn zeta in *.
  set (a1 := note_usage chunk (note_error chunk a)) in *. clearbody a1. pose proof (N5 _ _ Ha) as Ha1.
  set (I := fun cs es a => assembled (pieces chunks ++ (cs ≫= choice_pieces)) es a /\ sa_sealed a = sa_sealed a1).
  assert (Hd : exists es2 a3, each apply_choice (wk_choices chunk) a1 = (Ok es2, a3)).
  { apply (each_accepts _ I (wk_choices chunk)) with (xs := []) (es := es); [| |done|].
    - intros c cs es' a' es'' a'' [Hi He] Hx. destruct (choice_spec _ _ _ _ _ _ Hi Hx) as (Hi' & E & _).
      split; [|congruence]. rewrite bind_app. cbn [mbind list_bind]. by rewrite app_nil_r, app_assoc.
    - intros c cs cs' es' a' Hw [Hi He]. unfold chunk_pieces in *. rewrite Hw, !bind_app in Hq, Hag.
      cbn [mbind list_bind] in Hq, Hag. rewrite app_nil_r in Hq, Hag.
      eapply choice_accepts; [exact Hi| |].
      + rewrite He, N1. intros Ht. specialize (Hq Ht). by apply app_eq_nil in Hq as [[_ Hq]%app_eq_nil _].
      + rewrite !app_assoc, deltas_app in Hag. by apply agree_app in Hag.
    - split; [by rewrite app_nil_r|done]. }
  destruct Hd as (es2 & a3 & ->). by eexists _, _.
Qed.

(** A stream that speaks after its end, or whose identities disagree. *)
Definition coherent (chunks : list WireChunk) : Prop :=
  agree (deltas (pieces chunks)) /\
  forall before after, chunks = before ++ after -> existsb terminal before = true -> pieces after = [].

Lemma streamed_all chunks es a :
  each apply chunks default_accumulator = (Ok es, a) -> streamed chunks es a.
Proof.
  intros He. apply (each_spec apply streamed) with (xs := []) (es := []) (s := default_accumulator); [|apply streamed_start|done].
  intros x xs es0 s es' s'. apply streamed_apply.
Qed.

Lemma stream_accepted chunks :
  coherent chunks -> exists es a, each apply chunks default_accumulator = (Ok es, a).
Proof.
  intros [Hag Hq].
  apply (each_accepts apply streamed chunks) with (xs := []) (es := []); [| |done|apply streamed_start].
  - intros x xs es s es' s'. apply streamed_apply.
  - intros c cs cs' es a Hw Hs. eapply apply_accepts; [exact Hs| |].
    + intros Ht. rewrite <- app_assoc in Hw. specialize (Hq cs _ Hw Ht).
      unfold pieces in Hq. rewrite bind_app in Hq. apply app_eq_nil in Hq as [Hq _]. cbn in Hq. by rewrite app_nil_r in Hq.
    + rewrite Hw in Hag. unfold pieces in *. rewrite bind_app, deltas_app in Hag. by apply agree_app in Hag.
Qed.

(** ** The final answer *)

Section answers.
Context `{WJ : WireJson}.

(** What [finalize] makes of a slot. *)
Definition call_of (slot : AccToolCall) (call : ToolCall) : Prop :=
  ac_id slot = Some (tl_id call) /\ tl_id call <> [] /\ ac_name slot = Some (tl_name call) /\ tl_name call <> [] /\
  parse_arguments_strict (ac_arguments slot) = Ok (tl_arguments call).

Lemma finalize_call_ok slot call : finalize_call slot = Ok call -> call_of slot call.
Proof.
  unfold finalize_call, call_of. destruct (ac_id slot) as [[|i id]|]; cbn [non_empty ok_or rbind]; try done.
  destruct (ac_name slot) as [[|n name]|]; cbn [non_empty ok_or rbind]; try done.
  destruct (parse_arguments_strict _); cbn [map_err rbind]; [|done]. intros [= <-]. done.
Qed.

Lemma finalize_calls_ok slots calls : finalize_calls slots = Ok calls -> Forall2 call_of slots calls.
Proof.
  revert calls. induction slots as [|slot slots IH]; intros calls; cbn [finalize_calls]; [intros [= <-]; constructor|].
  destruct (finalize_call slot) as [call|] eqn:Ec; cbn [rbind]; [|done].
  destruct (finalize_calls slots) as [rest|]; cbn [rbind]; [|done]. intros [= <-].
  constructor; [by apply finalize_call_ok|by apply IH].
Qed.

(** Distinct calls have distinct ids. *)
Lemma call_ids_NoDup ds calls : agree ds -> Forall2 call_of (reassembled ds) calls -> NoDup (tl_id <$> calls).
Proof.
  intros (_ & _ & Hone) Hf. unfold reassembled in Hf. pose proof (indexes_NoDup ds) as Hnd.
  revert calls Hf. induction Hnd as [|i l Hi Hnd IH]; intros calls Hf; inversion Hf as [|s c ss cs Hc Hcs]; subst; [constructor|].
  cbn [fmap list_fmap]. constructor; [|by apply IH].
  intros (c' & Hid & Hin)%list_elem_of_fmap. apply list_elem_of_lookup in Hin as [k Hk].
  destruct (Forall2_lookup_r _ _ _ _ _ Hcs Hk) as (s' & Hs' & Hc'). rewrite list_lookup_fmap in Hs'.
  destruct (l !! k) as [j|] eqn:Ej; [|done]. injection Hs' as <-.
  destruct Hc as (Hc & _), Hc' as (Hc' & _). cbn [slot_at ac_id] in Hc, Hc'. apply head_elem in Hc, Hc'.
  rewrite <- Hid in Hc'. rewrite (Hone _ _ _ Hc Hc') in Hi. apply Hi. by apply list_elem_of_lookup_2 with k.
Qed.

(** ** The read loop *)

Section loop.
Context (codec : ToolNameCodec) (max_stream_bytes : N) (sink : nat -> AgentResult unit).

(** The events before the marker, and whether the marker came. *)
Fixpoint received (f : SseEventFramer) (items : list StreamItem) : list SseEvent * bool :=
  match items with
  | [] =>
      match (finish f).1 with
      | Some event => if decide (se_data event = DONE_MARKER) then ([], true) else ([event], false)
      | None => ([], false)
      end
  | Line line :: items =>
      match push_line line f with
      | (Ok (Some event), f) =>
          if decide (se_data event = DONE_MARKER) then ([], true)
          else let '(events, saw_done) := received f items in (event :: events, saw_done)
      | (_, f) => received f items
      end
  | _ :: _ => ([], false)
  end.

Definition decoded (event : SseEvent) : option WireChunk :=
  match parse_wire_chunk (se_data event) with Ok chunk => chunk | Err _ => None end.

Definition stream_chunks (items : list StreamItem) : list WireChunk :=
  omap decoded (received (new_framer max_stream_bytes) items).1.

Record reading (chunks : list WireChunk) (es : list ModelChunk) (r : Reader) : Prop := {
  re_streamed : streamed chunks es (rd_accumulator r);
  re_handed : rd_handed r = remap_chunk codec <$> es;
}.

Lemma forward_ok es events r r' :
  rd_handed r = remap_chunk codec <$> es -> forward codec sink events r = (Ok tt, r') ->
  rd_handed r' = remap_chunk codec <$> es ++ events /\ rd_accumulator r' = rd_accumulator r /\
  rd_framer r' = rd_framer r.
Proof.
  revert es r. induction events as [|e events IH]; intros es r Hh; cbn [forward].
  - intros [= <-]. by rewrite app_nil_r.
  - unfold bind, on_chunk. destruct (sink _) as [[]|]; cbn [map_err]; [|done]. intros Hf.
    rewrite cons_middle, app_assoc. apply (IH (es ++ [e])) in Hf; [done|]. cbn. by rewrite Hh, fmap_app.
Qed.

Lemma forward_framer events r : rd_framer (forward codec sink events r).2 = rd_framer r.
Proof.
  revert r. induction events as [|e events IH]; intros r; [done|]. cbn [forward]. unfold bind, on_chunk.
  destruct (sink _); cbn [map_err]; [by rewrite IH|done].
Qed.

Lemma take_payload_framer data r : rd_framer (take_payload codec sink data r).2 = rd_framer r.
Proof.
  unfold take_payload, bind, lift. destruct (parse_wire_chunk data) as [[chunk|]|]; cbn [map_err]; [|done|done].
  unfold on_accumulator. destruct (apply chunk (rd_accumulator r)) as [[events|] a]; cbn [map_err]; [|done].
  by rewrite forward_framer.
Qed.

Lemma take_payload_ok chunks es data r r' :
  reading chunks es r -> take_payload codec sink data r = (Ok tt, r') ->
  exists es', reading (chunks ++ option_list (match parse_wire_chunk data with Ok chunk => chunk | Err _ => None end)) es' r' /\
    rd_framer r' = rd_framer r.
Proof.
  intros [Hs Hh]. unfold take_payload, bind, lift. destruct (parse_wire_chunk data) as [[chunk|]|]; cbn [map_err]; [| |done].
  - unfold on_accumulator. destruct (apply chunk (rd_accumulator r)) as [[events|] a] eqn:Ea; cbn [map_err]; [|done].
    intros Hf. destruct (forward_ok es _ (set_accumulator a r) _ Hh Hf) as (Hh' & Ha & Hfr).
    exists (es ++ events). split; [|done]. constructor; [|done]. rewrite Ha. by eapply streamed_apply.
  - intros [= <-]. exists es. by rewrite app_nil_r.
Qed.

Lemma omap_cons_list {A B} (f : A -> option B) x l : omap f (x :: l) = option_list (f x) ++ omap f l.
Proof. cbn. by destruct (f x). Qed.

Lemma read_loop_ok items chunks es r saw r' :
  reading chunks es r -> read_loop codec max_stream_bytes sink items r = (Ok saw, r') ->
  saw = (received (rd_framer r) items).2 /\
  exists es', reading (chunks ++ omap decoded (received (rd_framer r) items).1) es' r'.
Proof.
  revert chunks es r. induction items as [|[line| | | |] items IH]; intros chunks es r Hr; cbn [read_loop received]; try done.
  - unfold bind, on_framer. destruct (finish (rd_framer r)) as [[event|] f]; cbn [map_err fst].
    + destruct (decide _).
      * intros [= <- <-]. split; [done|]. exists es. cbn. rewrite app_nil_r. by destruct Hr.
      * destruct (take_payload _ _ _ _) as [[[]|] r1] eqn:Et; [|done]. intros [= <- <-]. split; [done|].
        assert (Hr1 : reading chunks es (set_framer f r)) by (by destruct Hr).
        destruct (take_payload_ok _ _ _ _ _ Hr1 Et) as (es' & ? & _). exists es'.
        cbn [fst]. rewrite omap_cons_list. cbn [omap list_omap]. by rewrite app_nil_r.
    + intros [= <- <-]. split; [done|]. exists es. cbn. rewrite app_nil_r. by destruct Hr.
  - unfold bind, count_line. destruct (_ <? _)%N; [done|]. unfold on_framer.
    change (rd_framer (set_total_bytes _ r)) with (rd_framer r).
    destruct (push_line line (rd_framer r)) as [[[event|]|] f]; cbn [map_err]; [| |done].
    + destruct (decide _).
      * intros [= <- <-]. split; [done|]. exists es. cbn. rewrite app_nil_r. by destruct Hr.
      * destruct (take_payload _ _ _ _) as [[[]|] r1] eqn:Et; [|done]. intros Hl.
        assert (Hr1 : reading chunks es (set_framer f (set_total_bytes (saturating_add (rd_total_bytes r) (N.of_nat (str_len line) + 1)) r))) by (by destruct Hr).
        destruct (take_payload_ok _ _ _ _ _ Hr1 Et) as (es' & Hr' & Hf).
        destruct (IH _ _ _ Hr' Hl) as (-> & es2 & Hr2). rewrite Hf in *.
        change (rd_framer (set_framer f _)) with f in *.
        destruct (received f items) as [events d]; cbn [fst snd] in *. split; [done|]. exists es2.
        rewrite omap_cons_list, app_assoc. done.
    + intros Hl. refine (IH chunks es _ _ Hl). by destruct Hr.
Qed.

Lemma reading_start : reading [] [] (new_reader max_stream_bytes).
Proof. constructor; [apply streamed_start|done]. Qed.

(** ** The usage of a failed stream *)

(** An error that carries [usage] if that has a counter, and nothing else. *)
Definition billed (usage : ModelUsage) (e : ProtocolError) : Prop :=
  reported_usage (pe_error e) = (if has_any_reported usage then Some usage else None) /\
  reported_usage (failure_source (pe_error e)) = None /\ pe_endpoint_unsupported e = false.

Lemma bare_source s : reported_usage s = None -> failure_source s = s.
Proof. by destruct s. Qed.

Lemma billed_failed usage s :
  reported_usage s = None -> billed usage (protocol_error (failed_with_usage usage s)).
Proof.
  intros Hs. unfold billed, failed_with_usage. cbn [pe_error protocol_error].
  destruct (has_any_reported usage); [done|]. by rewrite bare_source.
Qed.

Lemma billed_plain s o :
  reported_usage s = None -> billed (default default_usage o) (seal_attempt_usage (protocol_error s) o).
Proof. intros Hs. unfold seal_attempt_usage. cbn [pe_error protocol_error]. rewrite Hs. by apply billed_failed. Qed.

Lemma billed_sealed usage e o :
  billed usage e -> has_any_reported (default default_usage o) = false \/ default default_usage o = usage ->
  billed usage (seal_attempt_usage e o).
Proof.
  intros (H1 & H2 & H3) Ho. unfold seal_attempt_usage. rewrite H1.
  destruct (has_any_reported usage) eqn:Eu; [unfold billed; by rewrite Eu|].
  assert (Hn : has_any_reported (default default_usage o) = false) by (destruct Ho as [|Ho]; [done|by rewrite Ho]).
  unfold billed, failed_with_usage. cbn [pe_error pe_endpoint_unsupported]. by rewrite Hn, H1, ?Eu.
Qed.

Definition plain (e : ProtocolError) : Prop := exists s, e = protocol_error s /\ reported_usage s = None.

Context (Hsink : forall i e, sink i = Err e -> reported_usage e = None).

Lemma forward_plain events r e r' : forward codec sink events r = (Err e, r') -> plain e.
Proof.
  revert r. induction events as [|c events IH]; intros r; [done|]. cbn [forward]. unfold bind, on_chunk.
  destruct (sink _) as [[]|s] eqn:Es; cbn [map_err]; [apply IH|]. intros [= <- _]. exists s. eauto.
Qed.

Lemma bind_id_plain i o s ids e : bind_id i o s ids = Err e -> reported_usage e = None.
Proof.
  unfold bind_id. destruct o as [id|]; [|done].
  destruct (ids !! id) as [owner|]; [destruct (_ =? _)%N; [|by intros [= <-]]|]; cbn [rbind];
    (destruct (ac_id s); [|done]); (destruct (decide _); [done|]); by intros [= <-].
Qed.

Lemma bind_name_plain i o s e : bind_name i o s = Err e -> reported_usage e = None.
Proof.
  unfold bind_name. destruct o; [|done]. destruct (ac_name s); [|done]. destruct (decide _); [done|]. by intros [= <-].
Qed.

Lemma call_plain d a e a' : apply_tool_call d a = (Err e, a') -> reported_usage e = None.
Proof.
  unfold apply_tool_call. destruct (sa_sealed a); [by intros [= <- _]|]. destruct (ensure_slot _ _) as [s calls].
  destruct (bind_id _ _ _ _) as [[s1 ids]|] eqn:E1; [|intros [= <- _]; by eapply bind_id_plain].
  destruct (bind_name _ _ _) as [s2|] eqn:E2; [|intros [= <- _]; by eapply bind_name_plain].
  by destruct (append_arguments _ _).
Qed.

Lemma each_plain {S A B} (f : A -> M S AgentError (list B)) :
  (forall x s e s', f x s = (Err e, s') -> reported_usage e = None) ->
  forall items s e s', each f items s = (Err e, s') -> reported_usage e = None.
Proof.
  intros Hf items. induction items as [|x items IH]; intros s e s'; [done|]. cbn [each]. unfold bind, ret.
  destruct (f x s) as [[es|] s1] eqn:Ex; [|intros [= -> _]; by eapply Hf].
  destruct (each f items s1) as [[es'|] s2] eqn:Er; [done|]. intros [= -> _]. by eapply IH.
Qed.

Lemma choice_plain c a e a' : apply_choice c a = (Err e, a') -> reported_usage e = None.
Proof.
  unfold apply_choice, bind, modify, ret. destruct (apply_content _ _) as [[es|] a1] eqn:Ec.
  - destruct (each _ _ a1) as [[es2|] a2] eqn:Ed; [done|]. intros [= -> _]. by apply (each_plain _ call_plain _ _ _ _ Ed).
  - intros [= -> _]. revert Ec. unfold apply_content. destruct (wd_content _) as [[|]|]; [done| |done].
    destruct (sa_sealed _); [|done]. by intros [= <- _].
Qed.

Lemma apply_plain c a e a' : apply c a = (Err e, a') -> reported_usage e = None.
Proof.
  unfold apply, bind, modify, ret. destruct (each _ _ _) as [[es|] a1] eqn:Ed; [done|]. intros [= -> _].
  by apply (each_plain _ choice_plain _ _ _ _ Ed).
Qed.

Lemma parse_plain data e : parse_wire_chunk data = Err e -> reported_usage e = None.
Proof.
  unfold parse_wire_chunk. destruct (json_from_str data) as [[| | | | |entries]|]; try by intros [= <-].
  destruct (existsb _ _); [|done]. destruct (wire_chunk_from_value _); [done|]. by intros [= <-].
Qed.

Lemma take_payload_plain data r e r' : take_payload codec sink data r = (Err e, r') -> plain e.
Proof.
  unfold take_payload, bind, lift. destruct (parse_wire_chunk data) as [[chunk|]|s] eqn:Ep; cbn [map_err]; [|done|].
  - unfold on_accumulator. destruct (apply chunk _) as [[events|s] a] eqn:Ea; cbn [map_err]; [apply forward_plain|].
    intros [= <- _]. exists s. split; [done|]. by eapply apply_plain.
  - intros [= <- _]. exists s. split; [done|]. by eapply parse_plain.
Qed.

(** The loop's errors are bare, but for a cancelled request's. *)
Lemma read_loop_error items r e r' :
  read_loop codec max_stream_bytes sink items r = (Err e, r') ->
  plain e \/ e = protocol_error (failed_with_usage (current_usage (rd_accumulator r')) Cancelled).
Proof.
  revert r. induction items as [|[line| |s| |s] items IH]; intros r; cbn [read_loop];
    try (intros [= <- <-]; (by right) || (left; by eexists)).
  - unfold bind, on_framer. destruct (finish _) as [[event|] f]; cbn [map_err]; [|done].
    destruct (decide _); [done|]. destruct (take_payload _ _ _ _) as [[[]|] r1] eqn:Et; [done|].
    intros [= <- _]. left. by eapply take_payload_plain.
  - unfold bind, count_line. destruct (_ <? _)%N; [intros [= <- _]; left; by eexists|]. unfold on_framer.
    destruct (push_line _ _) as [[[event|]|] f]; cbn [map_err]; [|apply IH|intros [= <- _]; left; by eexists].
    destruct (decide _); [done|]. destruct (take_payload _ _ _ _) as [[[]|] r1] eqn:Et; [apply IH|].
    intros [= <- _]. left. by eapply take_payload_plain.
Qed.

Lemma finalize_calls_plain slots e : finalize_calls slots = Err e -> reported_usage e = None.
Proof.
  induction slots as [|slot slots IH]; cbn [finalize_calls]; [done|].
  destruct (finalize_call slot) as [call|] eqn:Ec; cbn [rbind].
  - destruct (finalize_calls slots); cbn [rbind]; [done|]. intros [= ->]. by apply IH.
  - intros [= ->]. revert Ec. unfold finalize_call.
    destruct (non_empty (ac_id slot)); cbn [ok_or rbind]; [|by intros [= <-]].
    destruct (non_empty (ac_name slot)); cbn [ok_or rbind]; [|by intros [= <-]].
    destruct (parse_arguments_strict _); cbn [map_err rbind]; [done|]. by intros [= <-].
Qed.

Lemma conclude_error saw r e r' :
  conclude codec sink saw r = (Err e, r') ->
  billed (current_usage (rd_accumulator r)) (seal_attempt_usage e (sa_usage (rd_accumulator r'))).
Proof.
  unfold conclude. cbn [take_output_limit take_terminal_error]. set (a := rd_accumulator r).
  assert (Hdone : forall s o, reported_usage s = None -> o = None \/ o = sa_usage a ->
    billed (current_usage a) (seal_attempt_usage (protocol_error (failed_with_usage (current_usage a) s)) o)).
  { intros s o Hs Ho. apply billed_sealed; [by apply billed_failed|].
    destruct Ho as [->| ->]; [by left|by right]. }
  destruct (sa_output_limit a); [intros [= <- <-]; apply Hdone; [done|by right]|].
  destruct (sa_terminal_error _); [intros [= <- <-]; apply Hdone; [done|by right]|].
  destruct (negb saw); [intros [= <- <-]; apply Hdone; [done|by right]|].
  destruct (finalize _) as [[content calls]|s] eqn:Ef.
  - destruct (sink _) eqn:Es; [done|]. intros [= <- <-]. apply Hdone; [by eapply Hsink|by left].
  - intros [= <- <-]. apply Hdone; [|by left]. revert Ef. unfold finalize.
    destruct (finalize_calls _) eqn:Ec; cbn [rbind]; [done|]. intros [= ->]. by eapply finalize_calls_plain.
Qed.

Lemma reported_app chunks o :
  reported (chunks ++ option_list o) =
  match o ≫= wk_usage with Some u => Some (wire_usage u) | None => reported chunks end.
Proof. destruct o as [c|]; [apply reported_snoc|by rewrite app_nil_r]. Qed.

Lemma forward_usage events r : rd_accumulator (forward codec sink events r).2 = rd_accumulator r.
Proof.
  revert r. induction events as [|e events IH]; intros r; [done|]. cbn [forward]. unfold bind, on_chunk.
  destruct (sink _); cbn [map_err]; [by rewrite IH|done].
Qed.

Definition payload_chunk (data : text) : option WireChunk :=
  match parse_wire_chunk data with Ok chunk => chunk | Err _ => None end.

Lemma take_payload_usage data r chunks :
  sa_usage (rd_accumulator r) = reported chunks ->
  sa_usage (rd_accumulator (take_payload codec sink data r).2) = reported (chunks ++ option_list (payload_chunk data)).
Proof.
  intros Hr. rewrite reported_app. unfold take_payload, payload_chunk, bind, lift.
  destruct (parse_wire_chunk data) as [[chunk|]|]; cbn [map_err mbind option_bind]; [|done|done].
  pose proof (apply_usage chunk (rd_accumulator r)) as Ha. rewrite Hr in Ha. unfold on_accumulator.
  destruct (apply chunk (rd_accumulator r)) as [[events|] a]; cbn [map_err snd] in *; [by rewrite forward_usage|done].
Qed.

Lemma read_loop_usage items chunks r :
  sa_usage (rd_accumulator r) = reported chunks ->
  exists n, sa_usage (rd_accumulator (read_loop codec max_stream_bytes sink items r).2) =
            reported (chunks ++ take n (omap decoded (received (rd_framer r) items).1)).
Proof.
  assert (H0 : forall r l, sa_usage (rd_accumulator r) = reported chunks ->
            exists n, sa_usage (rd_accumulator r) = reported (chunks ++ take n l)) by (exists 0; by rewrite app_nil_r).
  revert H0. revert chunks r. induction items as [|[line| | | |] items IH]; intros chunks r H0 Hr; cbn [read_loop received]; try by apply H0.
  - unfold bind, on_framer. destruct (finish (rd_framer r)) as [[event|] f]; cbn [map_err fst]; [|by apply H0].
    destruct (decide _); [by apply H0|].
    pose proof (take_payload_usage (se_data event) (set_framer f r) chunks Hr) as Ht.
    exists 1. cbn [fst]. rewrite omap_cons_list. cbn [omap list_omap]. rewrite app_nil_r.
    change (decoded event) with (payload_chunk (se_data event)).
    rewrite take_ge by (destruct (payload_chunk _); cbn; lia).
    destruct (take_payload _ _ _ _) as [[[]|] r1]; exact Ht.
  - unfold bind, count_line. destruct (_ <? _)%N; [by apply H0|]. unfold on_framer.
    change (rd_framer (set_total_bytes _ r)) with (rd_framer r).
    set (r0 := set_total_bytes _ r).
    destruct (push_line line (rd_framer r)) as [[[event|]|] f]; cbn [map_err]; [| |by apply H0].
    + destruct (decide _); [by apply H0|].
      pose proof (take_payload_usage (se_data event) (set_framer f r0) chunks Hr) as Ht.
      assert (Hf : rd_framer (take_payload codec sink (se_data event) (set_framer f r0)).2 = f) by apply take_payload_framer.
      destruct (received f items) as [events d] eqn:Er. cbn [fst]. rewrite omap_cons_list.
      change (decoded event) with (payload_chunk (se_data event)).
      destruct (take_payload _ _ _ _) as [[[]|] r1]; cbn [snd] in *.
      * destruct (IH (chunks ++ option_list (payload_chunk (se_data event))) r1) as (m & Hm); [|done|].
        -- intros r2 l Hr2. exists 0. by rewrite app_nil_r.
        -- exists (length (option_list (payload_chunk (se_data event))) + m).
           rewrite take_app_add, app_assoc. rewrite Hf, Er in Hm. exact Hm.
      * exists (length (option_list (payload_chunk (se_data event)))). by rewrite take_app_length.
    + by apply (IH chunks (set_framer f r0)).
Qed.

End loop.
End answers.

(** ** The framer *)

(** The payload a line adds. *)
Definition line_payload (line : text) : option text :=
  match strip_prefix (txt "data:") (trim_end_cr line) with
  | Some payload => match trim payload with [] => None | payload => Some payload end
  | None => None
  end.

Definition retained (f : SseEventFramer) : N := N.of_nat (sum_list_with str_len (fr_data_lines f)).

Record framer_ok (max : N) (f : SseEventFramer) : Prop := {
  fo_bytes : fr_data_bytes f = retained f;
  fo_cap : (retained f <= N.max max 1)%N;
  fo_max : fr_max_event_bytes f = N.max max 1;
  fo_lines : Forall (fun l => l <> []) (fr_data_lines f);
}.

Lemma framer_ok_new max : framer_ok max (new_framer max).
Proof. constructor; [done|apply N.le_0_l|done|constructor]. Qed.

Lemma str_len_pos l : l <> [] -> 1 <= str_len l.
Proof. destruct l as [|c l]; [done|]. intros _. rewrite str_len_cons. pose proof (utf8_len_pos c). lia. Qed.

Lemma join_nl_length lines :
  str_len (join_nl lines) = sum_list_with str_len lines + (length lines - 1).
Proof.
  induction lines as [|l [|l' lines] IH]; [done|cbn; lia|].
  change (join_nl (l :: l' :: lines)) with (l ++ NL :: join_nl (l' :: lines)).
  assert (Hs : str_len (l ++ NL :: join_nl (l' :: lines)) = str_len l + (1 + str_len (join_nl (l' :: lines)))).
  { unfold str_len. rewrite sum_list_with_app. done. }
  rewrite Hs, IH. cbn. lia.
Qed.

Lemma lines_le_bytes lines : Forall (fun l => l <> []) lines -> length lines <= sum_list_with str_len lines.
Proof. induction 1 as [|l lines Hl _ IH]; [done|]. cbn. pose proof (str_len_pos l Hl). lia. Qed.

(** An event joins lines within the cap. *)
Definition event_ok (max : N) (event : SseEvent) : Prop :=
  exists lines, se_data event = join_nl lines /\ lines <> [] /\ Forall (fun l => l <> []) lines /\
    (N.of_nat (sum_list_with str_len lines) <= N.max max 1)%N.

Lemma event_size max event :
  event_ok max event -> (N.of_nat (str_len (se_data event)) <= 2 * N.max max 1 - 1)%N.
Proof.
  intros (lines & -> & _ & Hl & Hc). rewrite join_nl_length. pose proof (lines_le_bytes _ Hl). lia.
Qed.

Lemma flush_ok max f :
  framer_ok max f -> framer_ok max (flush_event f).2 /\ from_option (event_ok max) True (flush_event f).1.
Proof.
  intros [Hb Hc Hm Hl]. unfold retained in *. unfold flush_event. destruct (fr_data_lines f) as [|l lines] eqn:E.
  - split; [|done]. by constructor.
  - split; [constructor; [done|apply N.le_0_l|done|constructor]|]. by exists (l :: lines).
Qed.

Lemma saturating_below a b : (saturating_add a b < u64_max)%N -> saturating_add a b = (a + b)%N.
Proof. unfold saturating_add. generalize u64_max. lia. Qed.

Lemma push_ok max line f :
  (max < u64_max)%N -> framer_ok max f ->
  match push_line line f with
  | (Ok event, f') => framer_ok max f' /\ from_option (event_ok max) True event
  | (Err _, _) => True
  end.
Proof.
  intros Hmax Hf. unfold push_line. destruct (trim_end_cr line) as [|c s].
  { pose proof (flush_ok max f Hf). by destruct (flush_event f). }
  destruct (strip_prefix (txt "data:") _) as [payload|].
  2: { destruct (strip_prefix _ _); [|done]. split; [|done]. by destruct Hf. }
  destruct (trim payload) as [|c' p]; [done|]. set (payload' := c' :: p).
  destruct (_ <? _)%N eqn:Ec; [done|]. split; [|done]. apply N.ltb_ge in Ec. destruct Hf as [Hb Hc Hm Hl].
  assert (Hsum : sum_list_with str_len (fr_data_lines f ++ [payload']) = sum_list_with str_len (fr_data_lines f) + str_len payload').
  { rewrite sum_list_with_app. cbn [sum_list_with]. lia. }
  rewrite Hm, Hb in Ec.
  assert (Ha : saturating_add (retained f) (N.of_nat (str_len payload')) = (retained f + N.of_nat (str_len payload'))%N).
  { apply saturating_below. assert (1 < u64_max)%N by done. lia. }
  rewrite Ha in Ec. unfold retained in *.
  constructor; cbn [fr_data_lines fr_data_bytes fr_max_event_bytes]; unfold retained; cbn [fr_data_lines]; rewrite ?Hsum, ?Hb, ?Ha.
  - lia.
  - lia.
  - done.
  - apply Forall_app. split; [done|]. by constructor.
Qed.

Definition feed (lines : list text) : M SseEventFramer text (list SseEvent) :=
  each (fun line => do event <- push_line line ;; ret (option_list event)) lines.

Lemma feed_ok max lines f events f' :
  (max < u64_max)%N -> framer_ok max f -> feed lines f = (Ok events, f') ->
  framer_ok max f' /\ Forall (event_ok max) events.
Proof.
  intros Hmax Hf Hfeed.
  apply (each_spec (fun line => do event <- push_line line ;; ret (option_list event))
    (fun _ events f => framer_ok max f /\ Forall (event_ok max) events)) with (items := lines) (xs := []) (es := []) (s := f);
    [|done|done].
  intros line xs es s es' s' [Hs Hes]. unfold bind, ret. pose proof (push_ok max line s Hmax Hs) as Hp.
  destruct (push_line line s) as [[event|] s1]; [|done]. intros [= <- <-]. destruct Hp as [? He]. split; [done|].
  apply Forall_app. split; [done|]. destruct event; [by constructor|constructor].
Qed.

(** The lines of an event: its name, its payloads, and the blank line. *)
Record SourceEvent : Type := { so_name : option text; so_payloads : list text }.

Definition event_lines (e : SourceEvent) : list text :=
  option_list ((fun name => txt "event: " ++ name) <$> so_name e)
  ++ ((fun payload => txt "data: " ++ payload) <$> so_payloads e) ++ [[]].

Definition source_ok (max : N) (e : SourceEvent) : Prop :=
  so_payloads e <> [] /\ Forall (fun p => p <> [] /\ trim p = p) (so_payloads e) /\
  from_option (fun name => trim name = name) True (so_name e) /\
  (N.of_nat (sum_list_with str_len (so_payloads e)) <= N.max max 1)%N.

Lemma trim_start_length s : length (trim_start s) <= length s.
Proof. induction s as [|c s IH]; [done|]. cbn. destruct (is_whitespace c); cbn; lia. Qed.

Lemma trimmed_head c s : trim_start (c :: s) = c :: s -> is_whitespace c = false.
Proof.
  cbn. destruct (is_whitespace c); [|done]. intros H. pose proof (trim_start_length s) as Hl. rewrite H in Hl. cbn in Hl. lia.
Qed.

Lemma trim_fixed s : trim s = s -> trim_start s = s /\ trim_start (reverse s) = reverse s.
Proof.
  intros H. pose proof (trim_start_length s) as H1. unfold trim, trim_end in H.
  pose proof (trim_start_length (reverse (trim_start s))) as H2. rewrite length_reverse in H2.
  assert (Hl : length (trim_start (reverse (trim_start s))) = length s) by (rewrite <- (length_reverse (trim_start _)); by rewrite H).
  assert (Hs : trim_start s = s).
  { destruct s as [|c s]; [done|]. cbn in *. destruct (is_whitespace c); [|done].
    pose proof (trim_start_length s). lia. }
  split; [done|]. rewrite Hs in H. rewrite <- H at 2. by rewrite reverse_involutive.
Qed.

Lemma trim_end_cr_fixed prefix s :
  trim s = s -> from_option (fun c => c <> CR) True (last prefix) -> trim_end_cr (prefix ++ s) = prefix ++ s.
Proof.
  intros [_ Ht]%trim_fixed Hp. unfold trim_end_cr. rewrite reverse_app.
  assert (Hfix : forall l, from_option (fun c => c <> CR) True (head l) -> trim_start_cr l = l).
  { intros [|c l]; [done|]. cbn. intros Hc. by apply N.eqb_neq in Hc as ->. }
  rewrite Hfix; [by rewrite reverse_app, !reverse_involutive|].
  destruct (reverse s) as [|c r]; cbn [app head].
  - rewrite <- last_reverse, reverse_involutive. by destruct (last prefix).
  - cbn. apply trimmed_head in Ht. by intros ->.
Qed.

Lemma strip_app prefix s : strip_prefix prefix (prefix ++ s) = Some s.
Proof. induction prefix as [|c prefix IH]; [by destruct s|]. cbn. by rewrite N.eqb_refl. Qed.

Lemma trim_space s : trim (32%N :: s) = trim s.
Proof. done. Qed.

Lemma push_data p f :
  trim p = p -> p <> [] -> (fr_data_bytes f + N.of_nat (str_len p) <= fr_max_event_bytes f)%N ->
  (fr_max_event_bytes f <= u64_max)%N ->
  push_line (txt "data: " ++ p) f =
  (Ok None, {| fr_data_lines := fr_data_lines f ++ [p]; fr_data_bytes := fr_data_bytes f + N.of_nat (str_len p);
               fr_event_type := fr_event_type f; fr_max_event_bytes := fr_max_event_bytes f |}).
Proof.
  intros Ht Hp Hc Hm. unfold push_line. rewrite trim_end_cr_fixed by done.
  change (txt "data: " ++ p) with (100%N :: (txt "ata: " ++ p)). cbv iota beta.
  change (100%N :: (txt "ata: " ++ p)) with (txt "data:" ++ 32%N :: p). rewrite strip_app, trim_space, Ht.
  destruct p as [|c p]; [done|].
  assert (Hs : saturating_add (fr_data_bytes f) (N.of_nat (str_len (c :: p))) = (fr_data_bytes f + N.of_nat (str_len (c :: p)))%N).
  { unfold saturating_add. apply N.min_l. lia. }
  rewrite Hs. destruct (_ <? _)%N eqn:E; [|done]. apply N.ltb_lt in E. lia.
Qed.

Lemma push_name name f :
  trim name = name ->
  push_line (txt "event: " ++ name) f =
  (Ok None, {| fr_data_lines := fr_data_lines f; fr_data_bytes := fr_data_bytes f;
               fr_event_type := Some name; fr_max_event_bytes := fr_max_event_bytes f |}).
Proof.
  intros Ht. unfold push_line. rewrite trim_end_cr_fixed by done.
  change (txt "event: " ++ name) with (101%N :: (txt "vent: " ++ name)). cbv iota beta.
  change (strip_prefix (txt "data:") (101%N :: (txt "vent: " ++ name))) with (@None text). cbv iota.
  change (101%N :: (txt "vent: " ++ name)) with (txt "event:" ++ 32%N :: name). by rewrite strip_app, trim_space, Ht.
Qed.

Definition at_name (name : option text) (lines : list text) (max : N) : SseEventFramer :=
  {| fr_data_lines := lines; fr_data_bytes := N.of_nat (sum_list_with str_len lines); fr_event_type := name;
     fr_max_event_bytes := N.max max 1 |}.

Lemma feed_data max name ps lines :
  (max <= u64_max)%N -> Forall (fun p => p <> [] /\ trim p = p) ps ->
  (N.of_nat (sum_list_with str_len (lines ++ ps)) <= N.max max 1)%N ->
  feed ((fun payload => txt "data: " ++ payload) <$> ps) (at_name name lines max) = (Ok [], at_name name (lines ++ ps) max).
Proof.
  intros Hmax Hps. revert lines. induction Hps as [|p ps [Hp Ht] _ IH]; intros lines Hc; [by rewrite app_nil_r|].
  assert (Hsum : sum_list_with str_len (lines ++ p :: ps) =
    sum_list_with str_len lines + str_len p + sum_list_with str_len ps).
  { rewrite sum_list_with_app. cbn [sum_list_with]. lia. }
  assert (Hsum' : sum_list_with str_len (lines ++ [p]) = sum_list_with str_len lines + str_len p).
  { rewrite sum_list_with_app. cbn [sum_list_with]. lia. }
  rewrite Hsum in Hc.
  assert (Hp1 : push_line (txt "data: " ++ p) (at_name name lines max) = (Ok None, at_name name (lines ++ [p]) max)).
  { rewrite push_data; [|done|done|cbn; lia|cbn; assert (1 <= u64_max)%N by done; lia].
    unfold at_name. cbn [fr_data_lines fr_data_bytes fr_event_type fr_max_event_bytes]. rewrite Hsum'. do 3 f_equal. lia. }
  cbn [fmap list_fmap]. unfold feed in *. rewrite (each_cons _ _ _ _ [] (at_name name (lines ++ [p]) max)).
  - rewrite IH; [by rewrite <- app_assoc|]. rewrite <- app_assoc. cbn [app]. lia.
  - unfold bind. by rewrite Hp1.
Qed.

Lemma feed_event max e :
  (max <= u64_max)%N -> source_ok max e ->
  feed (event_lines e) (new_framer max) = (Ok [{| se_event := so_name e; se_data := join_nl (so_payloads e) |}], new_framer max).
Proof.
  intros Hmax (Hne & Hps & Hn & Hc). unfold event_lines.
  assert (Hname : feed (option_list ((fun name => txt "event: " ++ name) <$> so_name e)) (new_framer max) =
                  (Ok [], at_name (so_name e) [] max)).
  { destruct (so_name e) as [name|]; [|done].
    change (feed [txt "event: " ++ name] (new_framer max) = (Ok [], at_name (Some name) [] max)).
    unfold feed. rewrite (each_cons _ _ _ _ [] (at_name (Some name) [] max)); [done|].
    unfold bind. cbn beta. rewrite push_name; [done|exact Hn]. }
  pose proof (feed_data max (so_name e) (so_payloads e) [] Hmax Hps Hc) as Hd. cbn [app] in Hd.
  unfold feed in *. rewrite (each_app _ _ _ _ _ _ Hname), (each_app _ _ _ _ _ _ Hd). cbn [each app].
  unfold bind, ret. unfold push_line, flush_event. cbn [trim_end_cr reverse]. cbv [at_name fr_data_lines].
  destruct (so_payloads e) as [|p ps]; done.
Qed.

(** ** The theorems *)

(** Framing is lossless: the lines of any sequence of events within the byte cap
    (the name, the data lines, the blank line) are framed back into exactly those
    events, with the data lines joined once, and nothing stays behind in the framer. *)
Theorem framer_roundtrip max events :
  (max <= u64_max)%N -> Forall (source_ok max) events ->
  feed (events ≫= event_lines) (new_framer max) =
  (Ok ((fun e => {| se_event := so_name e; se_data := join_nl (so_payloads e) |}) <$> events), new_framer max).
Proof.
  intros Hmax. induction 1 as [|e events He _ IH]; [done|]. cbn [mbind list_bind fmap list_fmap].
  unfold feed in *. rewrite (each_app _ _ _ _ _ _ (feed_event max e Hmax He)), IH. done.
Qed.

(** Whatever lines arrive, what the framer retains stays within the cap, and every
    event it emits joins non-empty lines of at most the cap together: with the joining
    newlines, an event is shorter than twice the cap. *)
Theorem framer_bounded max lines events f :
  (max < u64_max)%N -> feed lines (new_framer max) = (Ok events, f) ->
  (retained f <= N.max max 1)%N /\
  Forall (fun e => event_ok max e /\ (N.of_nat (str_len (se_data e)) <= 2 * N.max max 1 - 1)%N) events.
Proof.
  intros Hmax Hf. destruct (feed_ok max _ _ _ _ Hmax (framer_ok_new max) Hf) as [Hok He].
  split; [apply Hok|]. eapply Forall_impl; [exact He|]. intros e Ho. split; [done|]. by apply event_size.
Qed.

(** C32. The accumulator accepts exactly the coherent streams (one id and one name per
    call index, one index per id, nothing after the terminal chunk), and what it holds
    then is the reassembly of all deltas: the words in order, and per index, in order
    of appearance, the id, the name and the concatenated arguments; the events it
    forwarded carry the same words and the same argument pieces. *)
Theorem accumulator_exact chunks :
  (coherent chunks <-> exists es a, each apply chunks default_accumulator = (Ok es, a)) /\
  (forall es a, each apply chunks default_accumulator = (Ok es, a) ->
     sa_content a = words (pieces chunks) /\ sa_tool_calls a = reassembled (deltas (pieces chunks)) /\
     es ≫= event_text = words (pieces chunks) /\
     omap event_arguments es = omap delta_arguments (deltas (pieces chunks)) /\
     sa_usage a = reported chunks /\ sa_output_limit a = truncated chunks).
Proof.
  split; [split|].
  - apply stream_accepted.
  - intros (es & a & Hs%streamed_all). destruct Hs as [Ha _ _ _ _ Hq]. split; [apply Ha|done].
  - intros es a Hs%streamed_all. destruct Hs as [[] ? ? ? ? ?]. done.
Qed.

Section theorems.
Context `{WJ : WireJson} (codec : ToolNameCodec) (max_stream_bytes : N) (sink : nat -> AgentResult unit).

Lemma chat_stream_facts items output r :
  read_chat_stream codec max_stream_bytes sink items = (Ok output, r) ->
  let chunks := stream_chunks max_stream_bytes items in
  (received (new_framer max_stream_bytes) items).2 = true /\ coherent chunks /\ truncated chunks = false /\
  Forall quiet chunks /\
  (exists events, rd_handed r = (remap_chunk codec <$> events) ++ [Done] /\
     events ≫= event_text = mo_content output /\
     omap event_arguments events = omap delta_arguments (deltas (pieces chunks))) /\
  mo_content output = words (pieces chunks) /\
  (exists calls, mo_tool_calls output = remap_calls codec calls /\ NoDup (tl_id <$> calls) /\
     Forall2 call_of (reassembled (deltas (pieces chunks))) calls) /\
  mo_usage output = default default_usage (reported chunks).
Proof.
  unfold read_chat_stream, bind.
  destruct (read_loop _ _ _ items _) as [[saw|e] r1] eqn:El; [|done].
  destruct (read_loop_ok codec max_stream_bytes sink items [] [] _ _ _ (reading_start _ _) El) as (-> & es & [Hs Hh]).
  change (rd_framer (new_reader max_stream_bytes)) with (new_framer max_stream_bytes) in *. cbn [app] in Hs.
  fold (stream_chunks max_stream_bytes items) in Hs. destruct Hs as [[] Hse Hl Hu Hq Hsil].
  unfold conclude. cbn [take_output_limit]. destruct (sa_output_limit (rd_accumulator r1)) eqn:Elim; [done|].
  cbn [take_terminal_error].
  change (sa_terminal_error (set_output_limit false (rd_accumulator r1))) with (sa_terminal_error (rd_accumulator r1)).
  destruct (sa_terminal_error (rd_accumulator r1)) eqn:Et; [done|].
  destruct (received _ items).2 eqn:Esaw; cbn [negb]; [|done]. unfold finalize.
  change (sa_tool_calls (set_terminal_error _ _)) with (sa_tool_calls (rd_accumulator r1)).
  change (sa_content (set_terminal_error _ _)) with (sa_content (rd_accumulator r1)).
  destruct (finalize_calls _) as [calls|] eqn:Ef; cbn [rbind]; [|done].
  destruct (sink _); [|done]. intros [= <- <-]. cbn zeta. cbn [mo_content mo_tool_calls mo_usage].
  apply finalize_calls_ok in Ef. rewrite as_calls0 in Ef.
  split; [done|]. split; [done|]. split; [congruence|]. split; [by apply Hq|]. split.
  - exists es. split; [|split; [congruence|done]]. change (rd_handed r1 ++ [Done] = (remap_chunk codec <$> es) ++ [Done]).
    by rewrite Hh.
  - split; [done|]. split; [exists calls; split; [done|split; [by eapply call_ids_NoDup|done]]|].
    unfold current_usage. by rewrite Hu.
Qed.

Lemma chat_stream_answer items output r :
  read_chat_stream codec max_stream_bytes sink items = (Ok output, r) ->
  exists events, rd_handed r = (remap_chunk codec <$> events) ++ [Done] /\ events ≫= event_text = mo_content output.
Proof. intros H. destruct (chat_stream_facts _ _ _ H) as (_ & _ & _ & _ & (events & Hh & Ht & _) & _). eauto. Qed.

(** C29. A chat stream is answered only if it ended well: the end marker came, no chunk
    reported an error, and the output was not cut. The answer then is what was
    streamed: its text is the text of the chunks, which is the text the sink was
    shown; each call comes from one index, with the id, name and arguments the chunks
    gave it, complete and under an id of its own; and the usage is the last one
    reported. The sink is handed [Done] last, once. *)
Theorem chat_stream_faithful items output r :
  read_chat_stream codec max_stream_bytes sink items = (Ok output, r) ->
  let chunks := stream_chunks max_stream_bytes items in
  (received (new_framer max_stream_bytes) items).2 = true /\ coherent chunks /\ truncated chunks = false /\
  Forall quiet chunks /\
  (exists events, rd_handed r = (remap_chunk codec <$> events) ++ [Done] /\
     events ≫= event_text = mo_content output /\
     omap event_arguments events = omap delta_arguments (deltas (pieces chunks))) /\
  mo_content output = words (pieces chunks) /\
  (exists calls, mo_tool_calls output = remap_calls codec calls /\ NoDup (tl_id <$> calls) /\
     Forall2 call_of (reassembled (deltas (pieces chunks))) calls) /\
  mo_usage output = default default_usage (reported chunks).
Proof. apply chat_stream_facts. Qed.

(** A stream that fails keeps what it was billed: the error carries the last usage
    that the chunks applied so far reported, whatever failed, once, and no envelope
    without a counter. *)
Theorem failed_stream_usage items e r :
  (forall i e, sink i = Err e -> reported_usage e = None) ->
  read_chat_stream codec max_stream_bytes sink items = (Err e, r) ->
  exists n, billed (default default_usage (reported (take n (stream_chunks max_stream_bytes items)))) e.
Proof.
  intros Hsink. unfold read_chat_stream, bind.
  destruct (read_loop_usage codec max_stream_bytes sink items [] (new_reader max_stream_bytes) eq_refl) as (n & Hn).
  change (rd_framer (new_reader max_stream_bytes)) with (new_framer max_stream_bytes) in Hn. cbn [app] in Hn.
  fold (stream_chunks max_stream_bytes items) in Hn. intros Hr. exists n. rewrite <- Hn.
  destruct (read_loop _ _ _ items _) as [[saw|s] r1] eqn:El; cbn [snd] in *.
  - destruct (conclude _ _ saw r1) as [[|s] r2] eqn:Ec; cbn [map_err] in Hr; [done|]. injection Hr as <- <-.
    by eapply conclude_error.
  - injection Hr as <- <-. destruct (read_loop_error _ _ _ Hsink _ _ _ _ El) as [(s' & -> & Hs')| ->].
    + by apply billed_plain.
    + apply billed_sealed; [by apply billed_failed|by right].
Qed.

End theorems.

(** ** Retried streams *)

Section calls.
Context `{WJ : WireJson} {AL : Allocator}.

(** An attempt that reads a chat stream. *)
Definition chat_attempt (a : Attempt) : Prop :=
  exists codec max_stream_bytes sink items, let '(result, r) := read_chat_stream codec max_stream_bytes sink items in
    at_chunks a = rd_handed r /\ at_result a = map_err pe_error result.

Lemma remap_text codec es : (remap_chunk codec <$> es) ≫= event_text = es ≫= event_text.
Proof. induction es as [|[] es IH]; [done|cbn; by rewrite IH|cbn; by rewrite IH..]. Qed.

Lemma content_text es : content es ≫= event_text = es ≫= event_text.
Proof.
  unfold content. induction es as [|e es IH]; [done|]. cbn [List.filter].
  destruct e; cbn [is_content]; cbn; by rewrite IH.
Qed.

Lemma chat_attempt_text a o : chat_attempt a -> at_result a = Ok o -> at_chunks a ≫= event_text = mo_content o.
Proof.
  intros (codec & max & sink & items & Ha). destruct (read_chat_stream codec max sink items) as [[o'|] r] eqn:Er;
    destruct Ha as [Hc Hr]; rewrite Hr; cbn [map_err]; [|done].
  intros [= <-]. destruct (chat_stream_answer _ _ _ _ _ _ Er) as (es & Hh & Ht).
  rewrite Hc, Hh, bind_app, remap_text, Ht. cbn. by rewrite !app_nil_r.
Qed.

Lemma stamped_content o k known : mo_content (stamp_attempt_usage (with_known_usage known o) k) = mo_content o.
Proof. by destruct known. Qed.

Lemma shown_nothing (f : ModelChunk -> bool) es :
  (forall delta, f (TextDelta delta) = true) -> existsb f es = false -> es ≫= event_text = [].
Proof.
  intros Hf. induction es as [|e es IH]; [done|]. cbn [existsb]. rewrite orb_false_iff. intros [He Hes].
  destruct e; [by rewrite Hf in He|cbn; by apply IH..].
Qed.

Lemma outcome_answer env k o :
  outcome env k (Ok o) -> exists o', at_result (ce_attempt env (N.of_nat (S k))) = Ok o' /\ mo_content o = mo_content o'.
Proof. intros H. inversion H as [o' Ho| | | |]; subst. exists o'. by rewrite stamped_content. Qed.

(** C30. However often a chat call was retried, the text its caller was shown is the text
    of its answer: in a buffered call always, in a live call when the sink counts text
    as irreversible. *)
Theorem shown_text_is_the_answer max schedule env seq (buffering : bool) o c :
  (max <= u32_max)%N -> (forall i, chat_attempt (ce_attempt env i)) ->
  (buffering = false -> forall delta, ce_barrier env (TextDelta delta) = true) ->
  complete_stream max schedule buffering env seq = Some (Ok o, c) ->
  ca_sink c ≫= event_text = mo_content o.
Proof.
  intros Hmax Hchat Hbar Hrun. rewrite <- content_text. destruct buffering.
  - destruct (buffered_ends env schedule seq max Hmax) as (r & c' & k & Hr & [_ Ho _] & l & rest & Ha & Hc & Hok & _).
    rewrite Hr in Hrun. injection Hrun as -> ->. destruct (outcome_answer _ _ _ Ho) as (o' & Ho' & ->).
    rewrite Hc, content_text, <- (chat_attempt_text _ _ (Hchat _) Ho'), Ha, (Hok eq_refl). by rewrite app_nil_r.
  - destruct (live_ends env schedule seq max Hmax) as (r & c' & k & Hr & [_ Ho _] & Hc & Hb).
    rewrite Hr in Hrun. injection Hrun as -> ->. destruct (outcome_answer _ _ _ Ho) as (o' & Ho' & ->).
    rewrite Hc, content_text, handed_S, bind_app, (chat_attempt_text _ _ (Hchat _) Ho').
    by rewrite (shown_nothing _ _ (Hbar eq_refl) Hb).
Qed.

End calls.
