(* ===== verification/ProviderWitness.v ===== *)
(** The retry and stream theorems applied at concrete calls and streams, and the
    behaviours of both that differ from what the code's comments say. *)

From S2P Require Import Prelude Text Digest Jcs Operation KernelWitness Kernel Retry RetryTheorems Sse SseTheorems.

(** ** Samples *)

#[export] Instance sample_allocator : Allocator := {
  chunk_size := 72;
  capacity s := N.of_nat (length s);
}.

Definition call_delta : WireToolCallDelta :=
  {| wt_index := 0; wt_id := Some (txt "c1");
     wt_function := Some {| wf_name := Some (txt "fs_read"); wf_arguments := Some (txt "{}") |} |}.

Definition sample_usage : WireUsage :=
  {| wu_prompt_tokens := Some 10%N; wu_completion_tokens := Some 3%N; wu_prompt_tokens_details := None;
     wu_prompt_cache_hit_tokens := Some 4%N; wu_prompt_cache_miss_tokens := None |}.

Definition chunk_of (content : option text) (calls : list WireToolCallDelta) (finish : option text)
    (usage : option WireUsage) : WireChunk :=
  {| wk_choices := [{| wc_delta := {| wd_content := content; wd_tool_calls := calls |}; wc_finish_reason := finish |}];
     wk_usage := usage; wk_error := None |}.

(** A payload is a chunk's name. *)
#[export] Instance sample_wire : WireJson := {
  json_from_str s := Ok (JObject [(txt "choices", JString s)]);
  wire_chunk_from_value v :=
    match v with
    | JObject ((_, JString s) :: _) =>
        Ok (if decide (s = txt "call") then chunk_of None [call_delta] None None
            else if decide (s = txt "stop") then chunk_of None [] (Some (txt "stop")) (Some sample_usage)
            else chunk_of (Some s) [] None None)
    | _ => Err (txt "shape")
    end;
  parse_arguments_strict s := Ok (JString s);
}.

Definition sample_schedule : RetrySchedule :=
  {| rs_base_delay := 1000000; rs_max_delay := DEFAULT_MAX_RETRY_DELAY; rs_jitter := default_jitter 7 11 |}.

Definition reports_input (n : N) : ModelUsage :=
  {| mu_input_tokens := Some n; mu_output_tokens := None; mu_cached_input_tokens := None;
     mu_cache_write_input_tokens := None; mu_cache_miss_input_tokens := None; mu_attempts := 0; mu_retries := 0 |}.

Definition outage : AgentError := Transport true (txt "reset").

(** The attempts of a call, by number. *)
Definition env_of (attempt : N -> Attempt) (cancelled : bool) : CallEnv :=
  {| ce_attempt := attempt; ce_barrier := fun c => match c with TextDelta _ => true | _ => false end;
     ce_note := fun _ => Ok tt; ce_replay := fun _ => Ok tt; ce_cancelled := fun _ => cancelled |}.

Definition failed (chunks : list ModelChunk) (e : AgentError) : Attempt :=
  {| at_chunks := chunks; at_result := Err e |}.
Definition answer (s : text) (n : N) : Attempt :=
  {| at_chunks := [TextDelta s; Done];
     at_result := Ok {| mo_content := s; mo_tool_calls := []; mo_usage := reports_input n |} |}.

(** A billed outage, then an answer. *)
Definition sample_env : CallEnv :=
  env_of (fun i => if (i =? 1)%N then failed [] (FailedWithUsage (reports_input 5) outage) else answer (txt "hi") 7) false.

(** ** Calls *)


Lemma no_duplicate_output_witness :
  exists r c, run Live 3 sample_schedule sample_env 9 = Some (r, c) /\
    List.filter (fun chunk => is_content chunk && ce_barrier sample_env chunk) (ca_sink c) = [TextDelta (txt "hi")].
Proof.
  destruct (no_duplicate_output 3 sample_schedule sample_env 9) as [(r & c & k & Hr & Ho & Hi) _]; [done|].
  exists r, c. split; [done|]. rewrite Hi. vm_compute in Hr. injection Hr as <- <-.
  inversion Ho as [o Ha| | | |o e' Ha He]; subst; destruct k as [|k]; try discriminate Ha; by destruct k.
Defined.

Lemma sample_env_wf : env_wf sample_env.
Proof.
  constructor; [| |done|done].
  - intros i u f n Hr Hf Hn. assert (Hu : u = reports_input 5 \/ u = reports_input 7).
    { unfold report, sample_env in Hr. cbn [ce_attempt env_of] in Hr. destruct (i =? 1)%N; injection Hr as <-; auto. }
    unfold counters in Hf. rewrite !elem_of_cons in Hf.
    destruct Hu as [->| ->]; destruct Hf as [->|[->|[->|[->|[->|Hf]]]]]; try discriminate Hn;
      try (injection Hn as <-; done); by apply elem_of_nil in Hf.
  - intros i u e. unfold sample_env. cbn [ce_attempt env_of]. destruct (i =? 1)%N; [|done]. intros [= <- _]. done.
Qed.

Lemma usage_settled_once_witness :
  exists r c k, run Unary 3 sample_schedule sample_env 9 = Some (r, c) /\
    usage_of r mu_input_tokens = counter_total mu_input_tokens (reports sample_env (S k)).
Proof.
  destruct (usage_settled_once Unary 3 sample_schedule sample_env 9) as (r & c & k & Hr & _ & Hu);
    [done|exact sample_env_wf|].
  exists r, c, k. split; [done|]. apply Hu. left.
Defined.

(** The call above answers with both attempts' usage. *)
Example sample_call_usage :
  (fun rc => usage_of rc.1 mu_input_tokens) <$> run Unary 3 sample_schedule sample_env 9 = Some (Some 12%N).
Proof. reflexivity. Qed.

(** ** Streams *)

Definition sample_events : list SourceEvent :=
  [{| so_name := Some (txt "message"); so_payloads := [txt "a"; txt "b"] |};
   {| so_name := None; so_payloads := [txt "[DONE]"] |}].

Lemma sample_events_ok : Forall (source_ok 64) sample_events.
Proof.
  apply Forall_cons; split; [|apply Forall_cons; split; [|constructor]];
    (split; [done|]); (split; [repeat apply Forall_cons_2; (by split) || constructor|]); (split; [done|]); by vm_compute.
Qed.

Lemma framer_roundtrip_witness :
  feed (sample_events ≫= event_lines) (new_framer 64) =
  (Ok [{| se_event := Some (txt "message"); se_data := txt "a" ++ NL :: txt "b" |};
       {| se_event := None; se_data := txt "[DONE]" |}], new_framer 64).
Proof. apply (framer_roundtrip 64 sample_events); [done|exact sample_events_ok]. Defined.

Lemma framer_bounded_witness :
  exists events f, feed [txt "data: ab"; txt "data: cd"; []] (new_framer 4) = (Ok events, f) /\
    Forall (fun e => event_ok 4 e /\ (N.of_nat (str_len (se_data e)) <= 7)%N) events.
Proof.
  destruct (feed [txt "data: ab"; txt "data: cd"; []] (new_framer 4)) as [[events|] f] eqn:E; [|vm_compute in E; discriminate].
  exists events, f. split; [done|]. by apply (framer_bounded 4 _ _ _ ltac:(done) E).
Defined.

(** An event of two lines within the cap of 4 bytes is 5 bytes long. *)
Example joined_event_exceeds_cap :
  exists event f, feed [txt "data: ab"; txt "data: cd"; []] (new_framer 4) = (Ok [event], f) /\
    str_len (se_data event) = 5.
Proof. eexists _, _. split; [vm_compute; reflexivity|reflexivity]. Qed.

(** A payload of blanks is dropped, where the SSE format has an empty line. *)
Example blank_data_line_dropped :
  feed [txt "data: a"; txt "data:"; txt "data:  b "; []] (new_framer 64) =
  (Ok [{| se_event := None; se_data := txt "a" ++ NL :: txt "b" |}], new_framer 64).
Proof. vm_compute. reflexivity. Qed.

Lemma accumulator_exact_witness :
  exists es a, each apply [chunk_of (Some (txt "hi")) [call_delta] None None] default_accumulator = (Ok es, a) /\
    sa_tool_calls a = [slot_at [call_delta] 0].
Proof.
  destruct (each apply [chunk_of (Some (txt "hi")) [call_delta] None None] default_accumulator) as [[es|] a] eqn:E;
    [|vm_compute in E; discriminate].
  exists es, a. split; [done|]. destruct (accumulator_exact [chunk_of (Some (txt "hi")) [call_delta] None None]) as [_ H].
  by apply (H es a E).
Defined.

Definition sample_items : list StreamItem :=
  [Line (txt "data: hi"); Line []; Line (txt "data: call"); Line []; Line (txt "data: stop"); Line [];
   Line (txt "data: [DONE]"); Line []].

Definition sample_codec : ToolNameCodec := default ∅ (match from_request [txt "fs.read"] [] with Ok c => Some c | Err _ => None end).
Definition open_sink (i : nat) : AgentResult unit := Ok tt.

Lemma chat_stream_faithful_witness :
  exists output r, read_chat_stream sample_codec 4096 open_sink sample_items = (Ok output, r) /\
    mo_content output = words (pieces (stream_chunks 4096 sample_items)).
Proof.
  destruct (read_chat_stream sample_codec 4096 open_sink sample_items) as [[output|] r] eqn:E; [|vm_compute in E; discriminate].
  exists output, r. split; [done|]. apply (chat_stream_faithful sample_codec 4096 open_sink sample_items output r E).
Defined.

(** The answer of that stream, with the tool's Core id. *)
Example sample_answer :
  (fun o => (mo_content o, tl_name <$> mo_tool_calls o, mu_input_tokens (mo_usage o)))
    <$> (match (read_chat_stream sample_codec 4096 open_sink sample_items).1 with Ok o => Some o | Err _ => None end)
  = Some (txt "hi", [txt "fs.read"], Some 10%N).
Proof. vm_compute. reflexivity. Qed.

Lemma failed_stream_usage_witness :
  exists e r n, read_chat_stream sample_codec 4096 open_sink (take 6 sample_items) = (Err e, r) /\
    billed (default default_usage (reported (take n (stream_chunks 4096 (take 6 sample_items))))) e.
Proof.
  destruct (read_chat_stream sample_codec 4096 open_sink (take 6 sample_items)) as [[|e] r] eqn:E;
    [vm_compute in E; discriminate|].
  destruct (failed_stream_usage sample_codec 4096 open_sink (take 6 sample_items) e r ltac:(done) E) as [n Hn].
  exists e, r, n. split; [reflexivity|exact Hn].
Defined.

(** Attempts that read streams: the first is cut, the second is whole. *)
Definition stream_attempt (items : list StreamItem) : Attempt :=
  let '(result, r) := read_chat_stream sample_codec 4096 open_sink items in
  {| at_chunks := rd_handed r; at_result := map_err pe_error result |}.
Definition stream_env : CallEnv :=
  env_of (fun i => stream_attempt (if (i =? 1)%N then take 4 sample_items else sample_items)) false.

Lemma stream_attempts i : chat_attempt (ce_attempt stream_env i).
Proof.
  unfold stream_env, stream_attempt. cbn [ce_attempt env_of].
  eexists sample_codec, 4096%N, open_sink, (if (i =? 1)%N then take 4 sample_items else sample_items).
  by destruct (read_chat_stream _ _ _ _).
Qed.

Lemma shown_text_is_the_answer_witness :
  exists o c, complete_stream 3 sample_schedule true stream_env 1 = Some (Ok o, c) /\
    ca_sink c ≫= event_text = mo_content o.
Proof.
  destruct (complete_stream 3 sample_schedule true stream_env 1) as [[[o|] c]|] eqn:E;
    [|vm_compute in E; discriminate|vm_compute in E; discriminate].
  exists o, c. split; [done|].
  apply (shown_text_is_the_answer 3 sample_schedule stream_env 1 true o c); [done|exact stream_attempts|done|exact E].
Defined.

(** ** What the records and events say *)

(** A retry, then an outage after the barrier: two attempts ran, and one retry, but the
    stage counts none. *)
Definition barrier_env : CallEnv :=
  env_of (fun i => if (i =? 1)%N then failed [] outage else failed [TextDelta (txt "hi")] outage) false.

Example barrier_failure_loses_a_retry :
  exists r c stage, run Live 3 sample_schedule barrier_env 1 = Some (r, c) /\
    last (ca_log c) = Some (OnStage stage) /\ cs_attempts stage = 2%N /\ cs_transport_retries stage = 0%N /\
    length (ca_log c) = 2.
Proof. eexists _, _, _. split; [vm_compute; reflexivity|]. repeat split. Qed.

(** Cancelled in its first wait, a call that ran one attempt records two. *)
Example cancelled_wait_counts_an_attempt :
  exists r c stage, run Live 3 sample_schedule (env_of (fun _ => failed [] outage) true) 1 = Some (r, c) /\
    last (ca_log c) = Some (OnStage stage) /\ cs_attempts stage = 2%N /\ cs_transport_retries stage = 1%N.
Proof. eexists _, _, _. split; [vm_compute; reflexivity|]. repeat split. Qed.

(** An empty first piece of arguments makes the name be forwarded twice, and the
    provisional id of a call differs from the id it gets. *)
Definition early_delta : WireToolCallDelta :=
  {| wt_index := 0; wt_id := None;
     wt_function := Some {| wf_name := Some (txt "fs_read"); wf_arguments := Some [] |} |}.

Example name_forwarded_twice :
  (each apply_tool_call [early_delta; call_delta] default_accumulator).1 =
  Ok [ToolCallDelta (txt "call-0") (Some (txt "fs_read")) [];
      ToolCallDelta (txt "c1") (Some (txt "fs_read")) (txt "{}")].
Proof. vm_compute. reflexivity. Qed.
