(* ===== verification/Host.v ===== *)
(** One request/response exchange with a child process: [ProcessHost] of
    agent-process/host.rs, over the framed session, with its cancel protocol, its
    bounds and its poison.

    What the [select!] of the exchange meets is a script: the cancel token firing,
    the cancel-ACK deadline, or an inbound frame with what the broker does should
    the frame be a system request. A script that ends leaves the exchange pending,
    which the request timeout around it settles. *)

From S2P Require Import Prelude Text Operation Journal Wal Jcs JsonBudget Frame.

(** JSON text and numbers as the exchange uses them. *)
Class JsonWire `{JP : JsonParser} := {
  json_to_string : Json -> bytes;
  as_u64 : Number -> option N;
  of_u64 : N -> Number;
}.

Record ProcessHostConfig : Type := {
  hc_max_frame_bytes : nat;
  hc_max_call_bytes : N;
  hc_max_system_answer_bytes : nat;
}.

Definition PROTOCOL_VERSION : N := 1.
Definition MAX_SYSTEM_REQUESTS_PER_CALL : nat := 256.
Definition MAX_PROGRESS_FRAMES_PER_CALL : nat := 64.

Record ProcessHost : Type := {
  ph_transport : FramedProtocolSession;
  ph_poisoned : option text;
  ph_next_id : N;
  ph_killed : bool;
}.

(** What a bounded send meets: the bytes out when a bound fired, and whether the
    cancel token is what fired. *)
Definition SendBound : Type := option (nat * bool).

Section host.
Context `{JW : JsonWire} (config : ProcessHostConfig).

Inductive BrokerStep : Type :=
| BrokerCancelled
| BrokerAnswers (answer : result Json AgentError) (cancelled : bool) (bound : SendBound).

Inductive ExchangeEvent : Type :=
| CancelFires (abandoned : option nat)
| AckExpires
| FrameArrives (broker : BrokerStep).

Inductive AcquireOutcome : Type :=
| TransportFree
| WaitCancelled
| WaitExpired.

Record CallEnv : Type := {
  ce_poisoned_while_waiting : option text;
  ce_acquire : AcquireOutcome;
  ce_has_cancel : bool;
  ce_cancelled : bool;
  ce_random : N;
  ce_request_bound : SendBound;
  ce_has_broker : bool;
  ce_events : list ExchangeEvent;
  ce_lock_free : bool;          (* no other call takes the transport as this one times out *)
}.

(** ** Host state *)

Definition set_transport (h : ProcessHost) (t : FramedProtocolSession) : ProcessHost :=
  {| ph_transport := t; ph_poisoned := ph_poisoned h; ph_next_id := ph_next_id h;
     ph_killed := ph_killed h |}.

(** [record_poison]: sticky, the first reason wins. *)
Definition record_poison (reason : text) (h : ProcessHost) : text := default reason (ph_poisoned h).

(** Poison the host and the transport and kill the tree. *)
Definition poison_and_kill (reason : text) (h : ProcessHost) : ProcessHost :=
  let reason := record_poison reason h in
  {| ph_transport := poison reason (ph_transport h); ph_poisoned := Some reason;
     ph_next_id := ph_next_id h; ph_killed := true |}.

(** [poison]: as above, but the transport only when [try_lock] gets it. *)
Definition poison_host (lock_free : bool) (reason : text) (h : ProcessHost) : ProcessHost :=
  if lock_free then poison_and_kill reason h
  else
    {| ph_transport := ph_transport h; ph_poisoned := Some (record_poison reason h);
       ph_next_id := ph_next_id h; ph_killed := true |}.

Definition frame_violation (reason : text) (h : ProcessHost) : AgentError * ProcessHost :=
  (Context (reason ++ txt "; connection poisoned and terminated"), poison_and_kill reason h).

Definition settle_cancelled (h : ProcessHost) : AgentError * ProcessHost :=
  (Cancelled, poison_and_kill (txt "cancelled by the runtime") h).

Definition settle_abandoned_send (cancelled : bool) (h : ProcessHost) : AgentError * ProcessHost :=
  if cancelled then settle_cancelled h
  else (Context (txt "request timed out waiting for the frame write; connection poisoned"),
        poison_and_kill (txt "frame write did not finish within the request deadline") h).

(** [str::contains]. *)
Fixpoint contains (needle haystack : text) : bool :=
  bool_decide (needle `prefix_of` haystack) ||
  match haystack with [] => false | _ :: haystack' => contains needle haystack' end.

Definition transport_error (stage : text) (error : AgentError) (h : ProcessHost) :
    AgentError * ProcessHost :=
  let message := display_error error in
  let closed := contains (txt "broken pipe") message || contains (txt "BrokenPipe") message
                || contains (txt "unexpected eof") message
                || contains (txt "UnexpectedEof") message in
  (if closed then Context (txt "connection closed: " ++ message)
   else Io (stage ++ txt ": " ++ message),
   poison_and_kill (stage ++ txt " failed: " ++ message) h).

(** ** JSON access *)

Definition json_u64 (v : Json) : option N := match v with JNumber n => as_u64 n | _ => None end.

Definition request_object (id : N) (op : Json) : Json :=
  let fields := match op with JObject fields => fields | _ => [] end in
  JObject ((txt "id", JNumber (of_u64 id)) :: (txt "version", JNumber (of_u64 PROTOCOL_VERSION)) ::
    List.filter (fun e => negb (bool_decide (e.1 = txt "id"))
                       && negb (bool_decide (e.1 = txt "version"))) fields).

Definition cancel_frame (id : N) : Json :=
  JObject [(txt "id", JNumber (of_u64 id)); (txt "version", JNumber (of_u64 PROTOCOL_VERSION));
           (txt "op", JString (txt "cancel"))].

Definition system_answer (answer : result Json AgentError) : Json :=
  match answer with
  | Ok value => JObject [(txt "system_ok", JBool true); (txt "value", value)]
  | Err error => JObject [(txt "system_ok", JBool false);
                          (txt "error", JString (display_error error))]
  end.

Definition system_answer_too_big : Json :=
  JObject [(txt "system_ok", JBool false);
           (txt "error", JString (txt "system answer exceeds the control-plane bound"))].

(** The message of an [ok: false] response. *)
Definition child_error (response : Json) : text :=
  match get_field (txt "error") response with
  | Some (JObject map) =>
      let field name unknown :=
        default unknown (get_field name (JObject map) ≫= as_str) in
      txt "process error [" ++ field (txt "category") (txt "unknown") ++ txt "]: "
        ++ field (txt "message") (txt "unknown child error")
  | Some (JString message) => txt "process error: " ++ message
  | _ => txt "unknown child error"
  end.

(** ** The exchange *)

Definition checked_add (a b : N) : option N :=
  if (u64_max <? a + b)%N then None else Some (a + b)%N.

Definition encode_frame (v : Json) : AgentResult bytes :=
  encode_frame_bytes (json_to_string v) (hc_max_frame_bytes config).

Record LoopCounters : Type := {
  lc_exchanged : N;
  lc_system_calls : nat;
  lc_progress_frames : nat;
  lc_cancel_sent : bool;
}.

(** A step of the loop returns, or goes on. *)
Inductive LoopStep : Type :=
| Return (r : result Json AgentError) (h : ProcessHost)
| Continue (c : LoopCounters) (h : ProcessHost).

Definition fail_with (e : AgentError * ProcessHost) : LoopStep := Return (Err e.1) e.2.

Definition set_exchanged (c : LoopCounters) (n : N) : LoopCounters :=
  {| lc_exchanged := n; lc_system_calls := lc_system_calls c;
     lc_progress_frames := lc_progress_frames c; lc_cancel_sent := lc_cancel_sent c |}.

(** The cancel token fired before the cancel frame was sent. *)
Definition on_cancel (id : N) (abandoned : option nat) (c : LoopCounters) (h : ProcessHost) :
    LoopStep :=
  let sent c h :=
    Continue {| lc_exchanged := lc_exchanged c; lc_system_calls := lc_system_calls c;
                lc_progress_frames := lc_progress_frames c; lc_cancel_sent := true |} h in
  match encode_frame (cancel_frame id) with
  | Ok line =>
      match checked_add (lc_exchanged c) (N.of_nat (length line)) with
      | Some total =>
          if (total <=? hc_max_call_bytes config)%N
          then
            match send_bounded line abandoned (ph_transport h) with
            | (Ok _, t) => sent (set_exchanged c total) (set_transport h t)
            | (Err _, t) => fail_with (settle_cancelled (set_transport h t))
            end
          else sent c h
      | None => sent c h
      end
  | Err _ => sent c h
  end.

(** A system request of the child. *)
Definition on_system (has_broker : bool) (broker : BrokerStep) (c : LoopCounters)
    (h : ProcessHost) : LoopStep :=
  if lc_cancel_sent c then Continue c h
  else if negb has_broker
  then fail_with (frame_violation
         (txt "child sent a system request with no broker installed") h)
  else
    let calls := lc_system_calls c + 1 in
    if MAX_SYSTEM_REQUESTS_PER_CALL <? calls
    then fail_with (frame_violation (txt "too many system requests in one call") h)
    else
      match broker with
      | BrokerCancelled => fail_with (settle_cancelled h)
      | BrokerAnswers answered cancelled bound =>
          let answer := system_answer answered in
          if cancelled then fail_with (settle_cancelled h)
          else
            let answer :=
              if hc_max_system_answer_bytes config <? length (json_to_string answer)
              then system_answer_too_big else answer in
            match encode_frame answer with
            | Err e => fail_with (frame_violation (display_error e) h)
            | Ok line =>
                match checked_add (lc_exchanged c) (N.of_nat (length line)) with
                | None => fail_with (frame_violation (txt "call byte accounting overflowed") h)
                | Some exchanged =>
                    if (hc_max_call_bytes config <? exchanged)%N
                    then fail_with (frame_violation
                           (txt "call exchanged bytes above the per-call bound") h)
                    else
                      match send_bounded line (fst <$> bound) (ph_transport h) with
                      | (Ok _, t) =>
                          Continue {| lc_exchanged := exchanged; lc_system_calls := calls;
                                      lc_progress_frames := lc_progress_frames c;
                                      lc_cancel_sent := lc_cancel_sent c |} (set_transport h t)
                      | (Err Abandoned, t) =>
                          fail_with (settle_abandoned_send (default false (snd <$> bound))
                                       (set_transport h t))
                      | (Err (SendFailed e), t) =>
                          fail_with (transport_error (txt "write") e (set_transport h t))
                      end
                end
            end
      end.

(** The final response of the child, once it is neither a system request nor a
    cancel-ACK nor progress. *)
Definition on_response (id : N) (response : Json) (c : LoopCounters) (h : ProcessHost) : LoopStep :=
  if negb (bool_decide ((get_field (txt "id") response ≫= json_u64) = Some id))
  then fail_with (frame_violation (txt "response id mismatch") h)
  else if negb (bool_decide ((get_field (txt "version") response ≫= json_u64)
                             = Some PROTOCOL_VERSION))
  then fail_with (frame_violation (txt "protocol version mismatch") h)
  else if lc_cancel_sent c then fail_with (settle_cancelled h)
  else
    match get_field (txt "ok") response ≫= as_bool with
    | Some true => Return (Ok response) h
    | Some false => Return (Err (Context (child_error response))) h
    | None => fail_with (frame_violation (txt "response field 'ok' must be a boolean") h)
    end.

Definition on_frame (id : N) (has_broker : bool) (broker : BrokerStep) (response : Json)
    (c : LoopCounters) (h : ProcessHost) : LoopStep :=
  if bool_decide (is_Some (get_field (txt "system") response ≫= as_str))
  then on_system has_broker broker c h
  else if bool_decide ((get_field (txt "cancelled") response ≫= as_bool) = Some true)
  then
    if negb (bool_decide ((get_field (txt "id") response ≫= json_u64) = Some id))
    then fail_with (frame_violation (txt "cancel-ACK id mismatch") h)
    else if negb (lc_cancel_sent c)
    then fail_with (frame_violation (txt "peer sent cancel-ACK with no host cancel") h)
    else fail_with (settle_cancelled h)
  else if bool_decide ((get_field (txt "progress") response ≫= as_bool) = Some true)
  then
    if negb (bool_decide ((get_field (txt "id") response ≫= json_u64) = Some id))
    then fail_with (frame_violation (txt "progress id mismatch") h)
    else
      let frames := lc_progress_frames c + 1 in
      if MAX_PROGRESS_FRAMES_PER_CALL <? frames
      then fail_with (frame_violation (txt "too many progress frames in one call") h)
      else Continue {| lc_exchanged := lc_exchanged c; lc_system_calls := lc_system_calls c;
                       lc_progress_frames := frames; lc_cancel_sent := lc_cancel_sent c |} h
  else on_response id response c h.

(** An inbound frame: read, counted against the call, decoded within the budget. *)
Definition on_recv (id : N) (has_broker : bool) (broker : BrokerStep) (c : LoopCounters)
    (h : ProcessHost) : LoopStep :=
  match recv (ph_transport h) with
  | (Err error, t) => fail_with (frame_violation (frame_error_text error) (set_transport h t))
  | (Ok frame, t) =>
      let h := set_transport h t in
      match checked_add (lc_exchanged c) (N.of_nat (length frame + 1)) with
      | None => fail_with (frame_violation (txt "call byte accounting overflowed") h)
      | Some exchanged =>
          if (hc_max_call_bytes config <? exchanged)%N
          then fail_with (frame_violation
                 (txt "call exchanged bytes above the per-call bound") h)
          else
            match decode_value frame (for_frame_bytes (hc_max_frame_bytes config)) with
            | Err error => fail_with (frame_violation
                             (txt "parse response: " ++ decode_error_text error) h)
            | Ok response => on_frame id has_broker broker response (set_exchanged c exchanged) h
            end
      end
  end.

(** The loop; an event whose [select!] branch is disabled does not happen. [inl]
    is an exchange still pending. *)
Fixpoint exchange_loop (id : N) (env : CallEnv) (events : list ExchangeEvent) (c : LoopCounters)
    (h : ProcessHost) : (unit + result Json AgentError) * ProcessHost :=
  match events with
  | [] => (inl tt, h)
  | event :: events' =>
      let step :=
        match event with
        | CancelFires abandoned =>
            if ce_has_cancel env && negb (lc_cancel_sent c) then on_cancel id abandoned c h
            else Continue c h
        | AckExpires =>
            if lc_cancel_sent c then fail_with (settle_cancelled h) else Continue c h
        | FrameArrives broker => on_recv id (ce_has_broker env) broker c h
        end in
      match step with
      | Return r h => (inr r, h)
      | Continue c h => exchange_loop id env events' c h
      end
  end.

(** The correlation id: random high bits over the sequence number. *)
Definition correlation_id (random sequence : N) : N :=
  N.lor (N.land random 18446744069414584320) sequence.

Definition exchange_once (env : CallEnv) (op : Json) (h : ProcessHost) :
    (unit + result Json AgentError) * ProcessHost :=
  match ph_poisoned h with
  | Some reason => (inr (Err (Context (txt "connection poisoned: " ++ reason))), h)
  | None =>
      let h := match ce_poisoned_while_waiting env with
               | Some reason => poison_host false reason h
               | None => h
               end in
      match ce_acquire env with
      | WaitCancelled => (inr (Err Cancelled), h)
      | WaitExpired => (inr (Err (Context (txt "gave up waiting for the connection"))), h)
      | TransportFree =>
          match fs_poisoned (ph_transport h) with
          | Some reason => (inr (Err (Context (txt "connection poisoned: " ++ reason))), h)
          | None =>
              if ce_has_cancel env && ce_cancelled env then (inr (Err Cancelled), h)
              else
                let sequence := ph_next_id h in
                let h := {| ph_transport := ph_transport h; ph_poisoned := ph_poisoned h;
                            ph_next_id := (sequence + 1) mod (u32_max + 1);
                            ph_killed := ph_killed h |} in
                if (sequence =? u32_max)%N
                then let '(e, h) := frame_violation (txt "request id space exhausted") h in
                     (inr (Err e), h)
                else
                  let id := correlation_id (ce_random env) sequence in
                  match encode_frame (request_object id op) with
                  | Err e => (inr (Err e), h)
                  | Ok line =>
                      match send_bounded line (fst <$> ce_request_bound env) (ph_transport h) with
                      | (Ok _, t) =>
                          exchange_loop id env (ce_events env)
                            {| lc_exchanged := N.of_nat (length line); lc_system_calls := 0;
                               lc_progress_frames := 0; lc_cancel_sent := false |}
                            (set_transport h t)
                      | (Err Abandoned, t) =>
                          let '(e, h) := settle_abandoned_send
                            (default false (snd <$> ce_request_bound env)) (set_transport h t) in
                          (inr (Err e), h)
                      | (Err (SendFailed error), t) =>
                          let '(e, h) := transport_error (txt "write") error (set_transport h t) in
                          (inr (Err e), h)
                      end
                  end
          end
      end
  end.

(** [call], [call_with_cancel] and [call_with_cancel_and_broker] under the request
    timeout: the value of the response. *)
Definition host_call (env : CallEnv) (op : Json) (h : ProcessHost) :
    AgentResult Json * ProcessHost :=
  match exchange_once env op h with
  | (inr (Ok response), h) => (Ok (default JNull (get_field (txt "value") response)), h)
  | (inr (Err e), h) => (Err e, h)
  | (inl _, h) =>
      (Err (Context (txt "request timed out; connection poisoned")),
       poison_host (ce_lock_free env) (txt "request timed out") h)
  end.

End host.
