(* ===== verification/HostTheorems.v ===== *)
(** What one call to a child process can and cannot do: an answer is the answer to
    this very request, every failure after the first byte fences the connection,
    and the bytes of a call are bounded. *)

From S2P Require Import Prelude Text Operation Journal Wal Jcs JsonBudget Frame Host.

Section theorems.
Context `{JW : JsonWire} (config : ProcessHostConfig).
Implicit Types (h : ProcessHost).

(** The connection is fenced: poisoned on both levels, the tree killed. *)
Definition fenced h : Prop :=
  ph_poisoned h <> None /\ fs_poisoned (ph_transport h) <> None /\ ph_killed h = true.

Lemma poison_and_kill_fenced reason h : fenced (poison_and_kill reason h).
Proof. done. Qed.

Lemma settle_abandoned_fenced c h : fenced (settle_abandoned_send c h).2.
Proof. by destruct c. Qed.

(** ** Bounded sends *)

Lemma send_bounded_Ok line fired t u t' :
  send_bounded line fired t = (Ok u, t') ->
  fs_poisoned t = None /\ fs_wire t' = fs_wire t ++ line /\ fs_poisoned t' = None /\
  fs_reader t' = fs_reader t /\ fs_max_frame_bytes t' = fs_max_frame_bytes t.
Proof.
  unfold send_bounded, ensure_writable. destruct (fs_poisoned t) eqn:Ep; [done|].
  destruct fired; [done|]. unfold write_line.
  destruct (fs_writes t) as [|[|n m|m] ws]; intros [= <- <-]; cbn; by rewrite Ep.
Qed.

Lemma send_bounded_Err line fired t e t' :
  send_bounded line fired t = (Err e, t') ->
  length (fs_wire t') <= length (fs_wire t) + length line.
Proof.
  unfold send_bounded, ensure_writable. destruct (fs_poisoned t) eqn:Ep; [intros [= <- <-]; lia|].
  destruct fired as [n|].
  - intros [= <- <-]. cbn. rewrite length_app, length_take. lia.
  - unfold write_line. destruct (fs_writes t) as [|[|n m|m] ws]; intros [= <- <-]; cbn;
      rewrite length_app, ?length_take; lia.
Qed.

(** ** One step of the loop *)

(** The response that answers request [id], read from [t]. *)
Definition answers (id : N) (t : FramedProtocolSession) (response : Json)
    (t' : FramedProtocolSession) : Prop :=
  exists frame, recv t = (Ok frame, t') /\
    decode_value frame (for_frame_bytes (hc_max_frame_bytes config)) = Ok response /\
    get_field (txt "id") response ≫= json_u64 = Some id /\
    get_field (txt "version") response ≫= json_u64 = Some PROTOCOL_VERSION.

(** [written h h' n]: at most [n] more bytes on the wire. *)
Definition written (h h' : ProcessHost) (n : nat) : Prop :=
  length (fs_wire (ph_transport h')) <= length (fs_wire (ph_transport h)) + n.

Lemma written_refl h n : written h h n.
Proof. unfold written. lia. Qed.

Lemma written_trans h1 h2 h3 n1 n2 :
  written h1 h2 n1 -> written h2 h3 n2 -> written h1 h3 (n1 + n2).
Proof. unfold written. lia. Qed.

(** What is left of the call's budget. *)
Definition left (c : LoopCounters) : nat := N.to_nat (hc_max_call_bytes config - lc_exchanged c).

(** What a step may do from counters [c] and host [h]; [R] says of which request
    a returned response is the answer. *)
Definition step_ok (R : Json -> ProcessHost -> Prop) (c : LoopCounters) (h : ProcessHost)
    (s : LoopStep) : Prop :=
  match s with
  | Return (Ok response) h' =>
      lc_cancel_sent c = false /\ R response h' /\
      get_field (txt "ok") response ≫= as_bool = Some true /\ written h h' 0
  | Return (Err e) h' =>
      written h h' (left c) /\
      (fenced h' \/
       exists response, R response h' /\ get_field (txt "ok") response ≫= as_bool = Some false /\
         e = Context (child_error response))
  | Continue c' h' =>
      fs_wire (ph_transport h) `prefix_of` fs_wire (ph_transport h') /\
      fs_poisoned (ph_transport h') = None /\ h' = set_transport h (ph_transport h') /\
      (exists n, written h h' n /\ n + left c' <= left c) /\
      (lc_cancel_sent c = true -> lc_cancel_sent c' = true)
  end.

Lemma continue_ok R c c' h :
  fs_poisoned (ph_transport h) = None -> (lc_exchanged c <= lc_exchanged c')%N ->
  (lc_cancel_sent c = true -> lc_cancel_sent c' = true) -> step_ok R c h (Continue c' h).
Proof.
  intros Hp He Hc. split; [done|]. split; [done|]. split; [by destruct h|]. split; [|done].
  exists 0. split; [apply written_refl|unfold left; lia].
Qed.

Lemma fail_ok R c h e :
  fenced e.2 -> written h e.2 (left c) -> step_ok R c h (fail_with e).
Proof. intros Hf Hw. split; [done|by left]. Qed.

Lemma violation_ok R c h e reason :
  e.2 = poison_and_kill reason h -> step_ok R c h (fail_with e).
Proof. intros He. apply fail_ok; rewrite He; [done|apply (written_refl h)]. Qed.

(** A branch that ends in a violation or a cancellation. *)
Ltac violation := eapply violation_ok; reflexivity.

(** Poisoning writes nothing. *)
Lemma poison_written h h' reason n : written h h' n -> written h (poison_and_kill reason h') n.
Proof. done. Qed.

Lemma abandoned_written h h' c n : written h h' n -> written h (settle_abandoned_send c h').2 n.
Proof. by destruct c. Qed.

Lemma recv_same t res t' :
  recv t = (res, t') -> fs_wire t' = fs_wire t /\ (is_Ok res = true -> fs_poisoned t' = fs_poisoned t /\ fs_poisoned t = None).
Proof.
  unfold recv. destruct (fs_poisoned t) eqn:Ep; [by intros [= <- <-]|].
  destruct (read_frame _ _) as [[f|e] r]; intros [= <- <-]; [cbn; by rewrite Ep|].
  split; [by case_bool_decide|done].
Qed.

Lemma checked_add_Some a b n : checked_add a b = Some n -> n = (a + b)%N.
Proof. unfold checked_add. case_match; [done|]. by intros [= <-]. Qed.

Lemma on_cancel_ok R id abandoned c h :
  fs_poisoned (ph_transport h) = None -> step_ok R c h (on_cancel config id abandoned c h).
Proof.
  intros Hp. unfold on_cancel.
  destruct (encode_frame _ _) as [line|]; [|by apply continue_ok].
  destruct (checked_add _ _) as [total|] eqn:Ea; [|by apply continue_ok].
  apply checked_add_Some in Ea as ->.
  destruct (N.leb_spec (lc_exchanged c + N.of_nat (length line)) (hc_max_call_bytes config))
    as [Hle|]; [|by apply continue_ok].
  destruct (send_bounded line abandoned (ph_transport h)) as [[u|e] t] eqn:Es.
  - apply send_bounded_Ok in Es as (_ & Hw & Hp' & _ & _). split; [cbn; rewrite Hw; by apply prefix_app_r|].
    split; [done|]. split; [done|]. split; [|done]. exists (length line).
    unfold written, left. cbn. rewrite Hw, length_app. lia.
  - apply send_bounded_Err in Es. apply fail_ok; [done|].
    unfold written, left. cbn. lia.
Qed.

Lemma on_system_ok R has_broker broker c h :
  fs_poisoned (ph_transport h) = None ->
  step_ok R c h (on_system config has_broker broker c h).
Proof.
  intros Hp. unfold on_system. destruct (lc_cancel_sent c) eqn:Ec; [by apply continue_ok|].
  destruct (negb has_broker); [violation|].
  destruct (_ <? _); [violation|].
  destruct broker as [|answered cancelled bound]; [violation|].
  destruct cancelled; [violation|].
  destruct (encode_frame _ _) as [line|]; [|violation].
  destruct (checked_add _ _) as [total|] eqn:Ea; [|violation].
  apply checked_add_Some in Ea as ->.
  destruct (N.ltb_spec (hc_max_call_bytes config) (lc_exchanged c + N.of_nat (length line)))
    as [|Hle]; [violation|].
  destruct (send_bounded line _ (ph_transport h)) as [[u|[|e]] t] eqn:Es.
  - apply send_bounded_Ok in Es as (_ & Hw & Hp' & _ & _). split; [cbn; rewrite Hw; by apply prefix_app_r|].
    split; [done|]. split; [done|]. split; [|by rewrite Ec]. exists (length line).
    unfold written, left. cbn. rewrite Hw, length_app. lia.
  - apply send_bounded_Err in Es. apply fail_ok; [apply settle_abandoned_fenced|].
    apply abandoned_written. unfold written, left. cbn. lia.
  - apply send_bounded_Err in Es. eapply fail_ok; [apply poison_and_kill_fenced|].
    unfold written, left. cbn. lia.
Qed.

(** ** The frame that was read *)

Definition answered (id : N) (response : Json) (h : ProcessHost) (r : Json) (h' : ProcessHost) :
    Prop :=
  r = response /\ h' = h /\
  get_field (txt "id") response ≫= json_u64 = Some id /\
  get_field (txt "version") response ≫= json_u64 = Some PROTOCOL_VERSION.

Lemma on_response_ok id response c h :
  fs_poisoned (ph_transport h) = None ->
  step_ok (answered id response h) c h (on_response id response c h).
Proof.
  intros Hp. unfold on_response. case_bool_decide as Hid; cbn [negb]; [|violation].
  case_bool_decide as Hv; cbn [negb]; [|violation].
  destruct (lc_cancel_sent c) eqn:Ec; [violation|].
  destruct (get_field (txt "ok") response ≫= as_bool) as [[|]|] eqn:Eok; [| |violation].
  - split; [done|]. split; [done|]. split; [done|apply written_refl].
  - split; [apply written_refl|]. right. exists response. done.
Qed.

Lemma on_frame_ok id has_broker broker response c h :
  fs_poisoned (ph_transport h) = None ->
  step_ok (answered id response h) c h (on_frame config id has_broker broker response c h).
Proof.
  intros Hp. unfold on_frame. case_bool_decide; [by apply on_system_ok|].
  case_bool_decide.
  { destruct (negb (bool_decide _)); [violation|].
    destruct (negb _); violation. }
  case_bool_decide; [|by apply on_response_ok].
  destruct (negb (bool_decide _)); [violation|].
  destruct (_ <? _); [violation|by apply continue_ok].
Qed.

(** The answer to request [id] is the frame read from [h]'s transport. *)
Definition read_answer (id : N) (h : ProcessHost) (r : Json) (h' : ProcessHost) : Prop :=
  answers id (ph_transport h) r (ph_transport h') /\ h' = set_transport h (ph_transport h').

(** A step taken after a read that wrote nothing. *)
Lemma step_after_read R R' c c1 h t s :
  fs_wire t = fs_wire (ph_transport h) -> left c1 <= left c ->
  lc_cancel_sent c1 = lc_cancel_sent c -> (forall r h', R r h' -> R' r h') ->
  step_ok R c1 (set_transport h t) s -> step_ok R' c h s.
Proof.
  intros Hw Hl Hc HR. assert (Hwr : forall h' n, written (set_transport h t) h' n -> written h h' n)
    by (intros h' n; unfold written; cbn; by rewrite Hw).
  destruct s as [[r|e] h'|c' h']; cbn.
  - intros (H1 & H2 & H3 & H4). split; [by rewrite <- Hc|]. eauto.
  - intros [H1 H2]. split; [apply Hwr in H1; unfold written in *; lia|].
    destruct H2 as [H2|(resp & H2 & H3)]; [by left|right; eauto].
  - rewrite Hw, Hc. intros (H1 & H2 & H3 & (n & H4 & H5) & H6). split; [done|]. split; [done|].
    split; [done|]. split; [|done]. exists n. split; [by apply Hwr|lia].
Qed.

Lemma on_recv_ok id has_broker broker c h :
  fs_poisoned (ph_transport h) = None ->
  step_ok (read_answer id h) c h (on_recv config id has_broker broker c h).
Proof.
  intros Hp. unfold on_recv. destruct (recv (ph_transport h)) as [[frame|e] t] eqn:Er;
    destruct (recv_same _ _ _ Er) as [Hw Hpo].
  2: { apply fail_ok; [done|]. unfold written. cbn. rewrite Hw. lia. }
  destruct (Hpo eq_refl) as [Hp1 _].
  assert (Hfail : forall m, step_ok (read_answer id h) c h
      (fail_with (frame_violation m (set_transport h t)))).
  { intros m. apply fail_ok; [done|]. unfold written. cbn. rewrite Hw. lia. }
  destruct (checked_add _ _) as [exchanged|] eqn:Ea; [|done]. apply checked_add_Some in Ea.
  destruct (_ <? exchanged)%N; [done|].
  destruct (decode_value frame _) as [response|] eqn:Ed; [|done].
  apply (step_after_read (answered id response (set_transport h t)) _ _ (set_exchanged c exchanged) _ t).
  - done.
  - unfold left. cbn. lia.
  - done.
  - intros r h' (-> & -> & Hid & Hv). split; [|done]. by exists frame.
  - apply on_frame_ok. cbn. by rewrite Hp1.
Qed.

(** ** The loop *)

(** What the whole exchange may return, from the state after the request. *)
Definition exchange_ok (id : N) (c : LoopCounters) (h : ProcessHost)
    (r : unit + result Json AgentError) (h' : ProcessHost) : Prop :=
  written h h' (left c) /\
  match r with
  | inr (Ok response) =>
      get_field (txt "ok") response ≫= as_bool = Some true /\ lc_cancel_sent c = false /\
      fs_poisoned (ph_transport h') = None /\ h' = set_transport h (ph_transport h') /\
      fs_wire (ph_transport h) `prefix_of` fs_wire (ph_transport h') /\
      exists t, answers id t response (ph_transport h')
  | inr (Err e) => fenced h' \/
      exists response t, answers id t response (ph_transport h') /\
        get_field (txt "ok") response ≫= as_bool = Some false /\
        e = Context (child_error response) /\ fs_poisoned (ph_transport h') = None /\
        h' = set_transport h (ph_transport h')
  | inl _ => h' = set_transport h (ph_transport h')
  end.

Lemma answers_poisoned id t response t' : answers id t response t' -> fs_poisoned t' = None.
Proof.
  intros (frame & Hr & _). destruct (recv_same _ _ _ Hr) as [_ Hp].
  destruct (Hp eq_refl) as [-> ?]. done.
Qed.

Lemma answers_wire id t response t' : answers id t response t' -> fs_wire t' = fs_wire t.
Proof. intros (frame & Hr & _). by destruct (recv_same _ _ _ Hr). Qed.

Lemma step_return id c h r h' :
  step_ok (read_answer id h) c h (Return r h') -> exchange_ok id c h (inr r) h'.
Proof.
  destruct r as [response|e]; cbn.
  - intros (Hc & [Ha Hh] & Hok & Hw). pose proof (answers_poisoned _ _ _ _ Ha) as Hp.
    split; [unfold written in *; lia|]. split; [done|]. split; [done|]. split; [done|].
    split; [done|]. split; [by rewrite (answers_wire _ _ _ _ Ha)|by exists (ph_transport h)].
  - intros [Hw [Hf|(response & [Ha Hh] & Hok & He)]]; (split; [done|]); [by left|right].
    exists response, (ph_transport h). pose proof (answers_poisoned _ _ _ _ Ha). by split_and!.
Qed.

Lemma exchange_loop_ok id env events c h r h' :
  fs_poisoned (ph_transport h) = None ->
  exchange_loop config id env events c h = (r, h') -> exchange_ok id c h r h'.
Proof.
  revert c h. induction events as [|event events IH]; intros c h Hp; cbn [exchange_loop].
  { intros [= <- <-]. split; [apply written_refl|]. by destruct h. }
  set (step := match event with CancelFires _ => _ | _ => _ end).
  assert (Hstep : step_ok (read_answer id h) c h step).
  { unfold step. destruct event as [abandoned| |broker].
    - destruct (_ && _); [by apply on_cancel_ok|by apply continue_ok].
    - destruct (lc_cancel_sent c); [violation|by apply continue_ok].
    - by apply on_recv_ok. }
  destruct step as [r1 h1|c1 h1]; [intros [= <- <-]; by apply step_return|].
  destruct Hstep as (Hpre & Hp1 & Hh1 & (n & Hw & Hl) & Hc). intros Hrun.
  destruct (IH c1 h1 Hp1 Hrun) as [Hw2 Hr]. split.
  { pose proof (written_trans _ _ _ _ _ Hw Hw2). unfold written in *. lia. }
  destruct r as [u|[response|e]].
  - by rewrite Hr, Hh1.
  - destruct Hr as (Hok & Hc1 & Hp2 & Hh2 & Hpre2 & Ht). split; [done|].
    split; [destruct (lc_cancel_sent c); [by rewrite Hc in Hc1|done]|]. split; [done|].
    split; [by rewrite Hh2, Hh1|]. split; [by trans (fs_wire (ph_transport h1))|done].
  - destruct Hr as [Hr|(response & t & Ha & Hok & He & Hp2 & Hh2)]; [by left|right].
    exists response, t. rewrite Hh2, Hh1. rewrite Hh2 in Ha, Hp2. by split_and!.
Qed.

(** ** The whole call *)

(** The state in which a request is written, and what follows. *)
Lemma exchange_once_ok env op h r h' :
  exchange_once config env op h = (r, h') ->
  (ph_transport h' = ph_transport h /\ (exists e, r = inr (Err e)) /\
   (ph_poisoned h <> None -> h' = h)) \/
  (ph_poisoned h = None /\ fs_poisoned (ph_transport h) = None /\
   ((fenced h' /\ (exists e, r = inr (Err e)) /\
     written h h' (S (hc_max_frame_bytes config))) \/
    let id := correlation_id (ce_random env) (ph_next_id h) in
    exists line h1 c, encode_frame config (request_object id op) = Ok line /\
      length line <= S (hc_max_frame_bytes config) /\
      fs_wire (ph_transport h1) = fs_wire (ph_transport h) ++ line /\
      (ce_poisoned_while_waiting env = None -> ph_killed h1 = ph_killed h) /\ lc_exchanged c = N.of_nat (length line) /\
      exchange_ok id c h1 r h')).
Proof.
  unfold exchange_once. destruct (ph_poisoned h) as [reason|] eqn:Ep.
  { intros [= <- <-]. left. split; [done|]. split; [eauto|done]. }
  set (hw := match ce_poisoned_while_waiting env with Some _ => _ | None => _ end).
  assert (Hhw : ph_transport hw = ph_transport h /\ ph_next_id hw = ph_next_id h /\
    (ce_poisoned_while_waiting env = None -> ph_killed hw = ph_killed h)) by (unfold hw; by destruct (ce_poisoned_while_waiting env)).
  destruct Hhw as (Ht & Hi & Hk).
  assert (Hleft : forall e, (inr (Err e), hw) = (r, h') ->
    ph_transport h' = ph_transport h /\ (exists e, r = inr (Err e)) /\ (@None text <> None -> h' = h))
    by (intros e [= <- <-]; split; [done|]; split; [eauto|done]).
  destruct (ce_acquire env); [|intros H; left; by eapply Hleft..].
  destruct (fs_poisoned (ph_transport hw)) as [why|] eqn:Et; [intros H; left; by eapply Hleft|].
  destruct (_ && _); [intros H; left; by eapply Hleft|].
  rewrite Ht in Et. rewrite Hi. destruct (ph_next_id h =? u32_max)%N.
  { intros [= <- <-]. right. split; [done|]. split; [done|]. left. split; [done|].
    split; [eauto|]. unfold written. cbn. rewrite Ht. lia. }
  set (id := correlation_id _ _).
  destruct (encode_frame config (request_object id op)) as [line|e] eqn:Ee.
  2: { intros [= <- <-]. left. split; [done|]. split; [eauto|done]. }
  assert (Hlen : length line <= S (hc_max_frame_bytes config)).
  { apply encode_frame_bytes_Ok in Ee as (-> & _ & _ & ?). rewrite length_app. cbn. lia. }
  cbn [ph_transport]. rewrite Ht.
  destruct (send_bounded line _ (ph_transport h)) as [[u|[|e]] t] eqn:Es; intros Hrun; right;
    (split; [done|]); (split; [done|]).
  - right. apply send_bounded_Ok in Es as (_ & Hw & Hp' & _ & _).
    eexists line, _, _. split; [done|]. split; [done|].
    split; [|split; [|split; [|eapply exchange_loop_ok, Hrun]]]; done.
  - left. apply send_bounded_Err in Es.
    destruct (settle_abandoned_send _ _) as [e h2] eqn:Eab. injection Hrun as <- <-.
    assert (Hh2 : h2 = (settle_abandoned_send (default false (snd <$> ce_request_bound env))
      (set_transport {| ph_transport := ph_transport h; ph_poisoned := ph_poisoned hw;
         ph_next_id := (ph_next_id h + 1) `mod` (u32_max + 1); ph_killed := ph_killed hw |} t)).2)
      by (by rewrite Eab).
    rewrite Hh2. split; [apply settle_abandoned_fenced|]. split; [eauto|].
    apply abandoned_written. unfold written. cbn. lia.
  - left. apply send_bounded_Err in Es. cbn in Hrun. injection Hrun as <- <-.
    split; [done|]. split; [eauto|]. unfold written. cbn. lia.
Qed.


(** Every failure settles the connection: a call that fails has either not
    touched the pipe at all, or received its own [ok: false] response on a
    connection still in step, or left the connection fenced: poisoned on both
    levels and the child's tree killed (a request timeout that finds another call
    taking the transport poisons the host only). On a poisoned host every call made
    later fails and changes nothing. *)
Theorem host_failure_settles env op h e h' :
  host_call config env op h = (Err e, h') ->
  (ph_transport h' = ph_transport h \/ fenced h' \/
   (ce_lock_free env = false /\ ph_poisoned h' <> None /\ ph_killed h' = true) \/
   exists response t,
     answers (correlation_id (ce_random env) (ph_next_id h)) t response (ph_transport h') /\
     get_field (txt "ok") response ≫= as_bool = Some false /\
     e = Context (child_error response) /\ fs_poisoned (ph_transport h') = None) /\
  (ph_poisoned h' <> None -> forall env' op', exists e', host_call config env' op' h' = (Err e', h')).
Proof.
  intros Hcall. split.
  - revert Hcall. unfold host_call.
    destruct (exchange_once config env op h) as [[u|[response|e1]] h1] eqn:E; [|done|].
    + intros [= <- <-]. right. unfold poison_host. destruct (ce_lock_free env); [by left|].
      right. by left.
    + intros [= <- <-].
      apply exchange_once_ok in E as [(Ht & _ & _)|(Hp & Ht & [(Hf & _ & _)|Hrun])];
        [by left|by right; left|].
      destruct Hrun as (line & h2 & c & _ & _ & _ & _ & _ & (_ & [Hf|Hr])); [by right; left|].
      destruct Hr as (response & t & Ha & Hok & He & Hp1 & _). right. right. right. by exists response, t.
  - intros Hp env' op'. unfold host_call, exchange_once.
    destruct (ph_poisoned h') as [reason|]; [by eexists|done].
Qed.

(** A call writes a bounded number of bytes, whatever the child does: at most
    the larger of one frame and the per-call bound. *)
Theorem host_call_bounded env op h r h' :
  host_call config env op h = (r, h') ->
  length (fs_wire (ph_transport h')) <= length (fs_wire (ph_transport h)) +
    Nat.max (S (hc_max_frame_bytes config)) (N.to_nat (hc_max_call_bytes config)).
Proof.
  unfold host_call. destruct (exchange_once config env op h) as [r1 h1] eqn:E.
  assert (Hb : length (fs_wire (ph_transport h1)) <= length (fs_wire (ph_transport h)) +
    Nat.max (S (hc_max_frame_bytes config)) (N.to_nat (hc_max_call_bytes config))).
  { apply exchange_once_ok in E as [(Ht & _ & _)|(_ & _ & [(_ & _ & Hw)|Hrun])].
    - rewrite Ht. lia.
    - unfold written in Hw. lia.
    - destruct Hrun as (line & h2 & c & _ & Hl & Hw & _ & Hc & [Hwr _]).
      unfold written, left in Hwr. rewrite Hw, length_app, Hc in Hwr. lia. }
  destruct r1 as [u|[response|e]]; intros [= <- <-]; [|exact Hb..].
  unfold poison_host. by destruct (ce_lock_free env).
Qed.

(** A queued call is not fenced by the poison it waited through: when another
    call's timeout poisons the host while this one waits for the transport (the
    transport itself cannot be poisoned then, its lock being handed over), this call
    still writes its request on the poisoned connection. *)
Theorem queued_call_writes_after_poison env op h reason line :
  ph_poisoned h = None -> fs_poisoned (ph_transport h) = None -> fs_writes (ph_transport h) = [] ->
  ce_poisoned_while_waiting env = Some reason -> ce_acquire env = TransportFree ->
  ce_has_cancel env = false -> ce_request_bound env = None -> ce_events env = [] ->
  (ph_next_id h <> u32_max) ->
  encode_frame config (request_object (correlation_id (ce_random env) (ph_next_id h)) op) = Ok line ->
  fs_wire (ph_transport (host_call config env op h).2) = fs_wire (ph_transport h) ++ line.
Proof.
  intros Hp Ht Hw Hpo Hacq Hc Hb Hev Hi%N.eqb_neq He. unfold host_call, exchange_once.
  rewrite Hp, Hpo, Hacq, Hc, Hb, Hev. cbn. rewrite Ht, Hi. cbn. rewrite He.
  unfold send_bounded, ensure_writable. cbn. rewrite Ht. unfold write_line, poison_host. rewrite Hw.
  by destruct (ce_lock_free env).
Qed.

End theorems.
