(* ===== verification/Supervise.v ===== *)
(** Supervision of child processes: connection health, the host slot and its restart
    circuit (agent-process/health.rs), the adapter that uses them
    (agent-capability-process/capability_host.rs: [start], [stop], [is_live]), and
    the cleanup of a recorded process (agent-process/lifecycle.rs).

    What connecting a child and observing a process yield are scripts. *)

From S2P Require Import Prelude Text Operation.

(** ** Connection health *)

Inductive ConnectionHealth : Type := Ready | Degraded | NotServing | HealthQuarantined.

Definition allows_call (health : ConnectionHealth) : bool :=
  match health with Ready | Degraded => true | NotServing | HealthQuarantined => false end.

Inductive HostLifecycle (T : Type) : Type :=
| NeverStarted
| Serving (host : T)
| Quarantined (reason : text)
| Stopped.
Arguments NeverStarted {T}.
Arguments Serving {T} host.
Arguments Quarantined {T} reason.
Arguments Stopped {T}.

Inductive ConnectKind : Type := First | Restart.

#[export] Instance ConnectKind_eq_dec : EqDecision ConnectKind.
Proof. solve_decision. Defined.

Definition connect_kind {T} (slot : HostLifecycle T) : ConnectKind :=
  match slot with
  | NeverStarted | Stopped => First
  | Serving _ | Quarantined _ => Restart
  end.

Definition record_connect_failure {T} (reason : text) (slot : HostLifecycle T) : HostLifecycle T :=
  match connect_kind slot with
  | First => match slot with Stopped => Stopped | _ => NeverStarted end
  | Restart => Quarantined reason
  end.

Definition DEFAULT_MAX_CONNECTION_RESTARTS : N := 3.

(** [RestartCircuit::try_acquire]: the [u32] count grows, and wraps, also when it
    refuses. *)
Definition try_acquire (max_restarts used : N) : AgentResult N * N :=
  let used := ((used + 1) mod (u32_max + 1))%N in
  if (max_restarts <? used)%N
  then (Err (Context (txt "connection quarantined: restart budget exhausted")), used)
  else (Ok used, used).

(** ** The adapter *)

Inductive ConnectOutcome : Type :=
| Connected (covered : bool)     (* the sandbox attestation covers the profile, or not *)
| ConnectFails (error : AgentError).

(** A child is its number; [ad_children] are the spawned children not yet shut down
    and [ad_connects] the connects made. *)
Record ProcessCapabilityAdapter : Type := {
  ad_slot : HostLifecycle (N * ConnectionHealth);
  ad_used : N;
  ad_next_child : N;
  ad_children : list N;
  ad_connects : list ConnectKind;
  ad_script : list ConnectOutcome;
}.

Definition adapter_new (script : list ConnectOutcome) : ProcessCapabilityAdapter :=
  {| ad_slot := NeverStarted; ad_used := 0; ad_next_child := 0; ad_children := [];
     ad_connects := []; ad_script := script |}.

Definition set_slot (slot : HostLifecycle (N * ConnectionHealth)) (a : ProcessCapabilityAdapter) :
    ProcessCapabilityAdapter :=
  {| ad_slot := slot; ad_used := ad_used a; ad_next_child := ad_next_child a;
     ad_children := ad_children a; ad_connects := ad_connects a; ad_script := ad_script a |}.

Definition set_used (used : N) (a : ProcessCapabilityAdapter) : ProcessCapabilityAdapter :=
  {| ad_slot := ad_slot a; ad_used := used; ad_next_child := ad_next_child a;
     ad_children := ad_children a; ad_connects := ad_connects a; ad_script := ad_script a |}.

(** [host.shutdown()]: the child is asked to exit and reaped. *)
Definition shutdown (child : N) (a : ProcessCapabilityAdapter) : ProcessCapabilityAdapter :=
  {| ad_slot := ad_slot a; ad_used := ad_used a; ad_next_child := ad_next_child a;
     ad_children := filter (fun c => c <> child) (ad_children a); ad_connects := ad_connects a;
     ad_script := ad_script a |}.

(** [ProcessHost::connect]; a connect that fails has reaped its child. *)
Definition connect (kind : ConnectKind) (a : ProcessCapabilityAdapter) :
    (result (N * bool) AgentError) * ProcessCapabilityAdapter :=
  let '(outcome, script) :=
    match ad_script a with [] => (Connected true, []) | o :: rest => (o, rest) end in
  let child := ad_next_child a in
  let record children :=
    {| ad_slot := ad_slot a; ad_used := ad_used a; ad_next_child := (child + 1)%N;
       ad_children := children; ad_connects := ad_connects a ++ [kind]; ad_script := script |} in
  match outcome with
  | Connected covered => (Ok (child, covered), record (ad_children a ++ [child]))
  | ConnectFails error => (Err error, record (ad_children a))
  end.

(** The replacement of a serving or quarantined child: the restart budget, then the
    slot, then the old child. *)
Definition replace_child : M ProcessCapabilityAdapter AgentError unit := fun a =>
  match try_acquire DEFAULT_MAX_CONNECTION_RESTARTS (ad_used a) with
  | (Err e, used) => (Err e, set_used used a)
  | (Ok _, used) =>
      let a := set_used used a in
      let old := ad_slot a in
      let a := set_slot (Quarantined (txt "restarting")) a in
      (Ok tt, match old with Serving (child, _) => shutdown child a | _ => a end)
  end.

(** The connect and what it leaves in the slot. *)
Definition connect_slot (kind : ConnectKind) : M ProcessCapabilityAdapter AgentError unit := fun a =>
  match connect kind a with
  | (Ok (child, true), a) => (Ok tt, set_slot (Serving (child, Ready)) a)
  | (Ok (child, false), a) =>
      let a := shutdown child a in
      let error := Context (txt "sandbox profile is not covered") in
      (Err error, set_slot (record_connect_failure (display_error error) (ad_slot a)) a)
  | (Err error, a) =>
      (Err error, set_slot (record_connect_failure (display_error error) (ad_slot a)) a)
  end.

Definition is_live (a : ProcessCapabilityAdapter) : bool :=
  match ad_slot a with Serving (_, health) => allows_call health | _ => false end.

Definition adapter_start : M ProcessCapabilityAdapter AgentError unit := fun a =>
  if is_live a then (Ok tt, a)
  else
    let kind := connect_kind (ad_slot a) in
    (do_ match kind with Restart => replace_child | First => ret tt end ;;
     connect_slot kind) a.

Definition adapter_stop (a : ProcessCapabilityAdapter) : ProcessCapabilityAdapter :=
  let old := ad_slot a in
  let a := set_slot Stopped a in
  match old with Serving (child, _) => shutdown child a | _ => a end.

(** What happens to an adapter: its two operations, and its child changing health. *)
Inductive AdapterEvent : Type :=
| Start
| Stop
| HealthChanges (health : ConnectionHealth).

Definition adapter_step (e : AdapterEvent) (a : ProcessCapabilityAdapter) : ProcessCapabilityAdapter :=
  match e with
  | Start => (adapter_start a).2
  | Stop => adapter_stop a
  | HealthChanges health =>
      match ad_slot a with
      | Serving (child, _) => set_slot (Serving (child, health)) a
      | _ => a
      end
  end.

Definition adapter_run (events : list AdapterEvent) (a : ProcessCapabilityAdapter) :
    ProcessCapabilityAdapter := fold_left (fun a e => adapter_step e a) events a.

Definition restarts (a : ProcessCapabilityAdapter) : nat :=
  length (filter (fun k => k = Restart) (ad_connects a)).

(** The children alive are the one in the slot; connects of the replacement kind
    are paid for. *)
Record adapter_inv (a : ProcessCapabilityAdapter) : Prop := {
  ai_children : ad_children a = match ad_slot a with Serving (c, _) => [c] | _ => [] end;
  ai_fresh : forall c, c ∈ ad_children a -> (c < ad_next_child a)%N;
  ai_paid : (N.of_nat (restarts a) <= ad_used a /\
             N.of_nat (restarts a) <= DEFAULT_MAX_CONNECTION_RESTARTS)%N;
}.

Lemma filter_other (c : N) : filter (fun x => x <> c) [c] = [].
Proof. rewrite filter_cons. by destruct (decide _). Qed.

Lemma adapter_new_inv script : adapter_inv (adapter_new script).
Proof. split; [done|by intros c ?%elem_of_nil|by split]. Qed.

(** Between the decision to connect and the connect: nothing is alive. *)
Record connecting (kind : ConnectKind) (a : ProcessCapabilityAdapter) : Prop := {
  cn_slot : connect_kind (ad_slot a) = kind;
  cn_idle : forall c h, ad_slot a <> Serving (c, h);
  cn_children : ad_children a = [];
  cn_paid : (N.of_nat (restarts a + if decide (kind = Restart) then 1 else 0) <= ad_used a /\
             N.of_nat (restarts a + if decide (kind = Restart) then 1 else 0)
               <= DEFAULT_MAX_CONNECTION_RESTARTS)%N;
}.

Lemma restarts_snoc (a a' : ProcessCapabilityAdapter) kind :
  ad_connects a' = ad_connects a ++ [kind] ->
  restarts a' = restarts a + (if decide (kind = Restart) then 1 else 0).
Proof.
  unfold restarts. intros ->. rewrite filter_app, length_app, filter_cons.
  by destruct (decide (kind = Restart)).
Qed.

(** A connect pays for itself, whatever it leaves in the slot. *)
Lemma connected_inv kind a a' :
  connecting kind a -> ad_connects a' = ad_connects a ++ [kind] -> ad_used a' = ad_used a ->
  ad_children a' = match ad_slot a' with Serving (c, _) => [c] | _ => [] end ->
  (forall c, c ∈ ad_children a' -> (c < ad_next_child a')%N) -> adapter_inv a'.
Proof.
  intros [_ _ _ Hp] Hc Hu Hch Hf. split; [done|done|].
  by rewrite (restarts_snoc _ _ _ Hc), Hu.
Qed.

Lemma failure_not_serving {T} reason (slot : HostLifecycle T) host :
  record_connect_failure reason slot <> Serving host.
Proof. by destruct slot. Qed.

Lemma connect_slot_inv kind a res a' :
  connecting kind a -> connect_slot kind a = (res, a') -> adapter_inv a'.
Proof.
  intros Hcon. pose proof (cn_children _ _ Hcon) as Hc. unfold connect_slot, connect. rewrite Hc.
  assert (Hslot : forall reason, match record_connect_failure reason (ad_slot a) with
      Serving (c, _) => [c] | _ => [] end = []) by (intros reason; by destruct (ad_slot a)).
  destruct (ad_script a) as [|[[|]|e] rest]; cbn [app]; intros [= <- <-];
    apply (connected_inv kind a); try done.
  - cbn. intros c ->%list_elem_of_singleton. lia.
  - cbn. intros c ->%list_elem_of_singleton. lia.
  - cbn [ad_children shutdown set_slot ad_slot]. by rewrite filter_other, Hslot.
  - cbn [ad_children shutdown set_slot]. rewrite filter_other. by intros c ?%elem_of_nil.
  - cbn [ad_children set_slot ad_slot]. by rewrite Hslot.
  - cbn. by intros c ?%elem_of_nil.
Qed.

Lemma used_next (used : N) : (used < u32_max)%N -> ((used + 1) mod (u32_max + 1) = used + 1)%N.
Proof. intros Hu. apply N.mod_small. lia. Qed.

Lemma replace_child_Err a e a' :
  (ad_used a < u32_max)%N -> replace_child a = (Err e, a') -> ad_slot a' = ad_slot a /\ ad_children a' = ad_children a /\
  ad_connects a' = ad_connects a /\ ad_next_child a' = ad_next_child a /\ (ad_used a <= ad_used a')%N.
Proof.
  intros Hu. unfold replace_child, try_acquire. rewrite used_next by done.
  destruct (_ <? _)%N; [|done]. intros [= <- <-].
  cbn. split_and!; (done || lia).
Qed.

Lemma replace_child_Ok a u a' :
  (ad_used a < u32_max)%N -> adapter_inv a -> connect_kind (ad_slot a) = Restart ->
  replace_child a = (Ok u, a') ->
  connecting Restart a'.
Proof.
  intros Hu [Hch Hf Hp] Hk. unfold replace_child, try_acquire. rewrite used_next by done.
  destruct (N.ltb_spec DEFAULT_MAX_CONNECTION_RESTARTS (ad_used a + 1)) as [|Hle]; [done|].
  intros [= <- <-]. assert (Hr : (N.of_nat (restarts a + 1) <= ad_used a + 1 /\
    N.of_nat (restarts a + 1) <= DEFAULT_MAX_CONNECTION_RESTARTS)%N) by lia.
  cbn [set_used ad_slot]. destruct (ad_slot a) as [|[c h]|reason|] eqn:Es; try done;
    (constructor; [reflexivity|discriminate| |exact Hr]); cbn; rewrite Hch; first [apply filter_other | reflexivity].
Qed.

Lemma start_inv a res a' :
  (ad_used a < u32_max)%N -> adapter_inv a -> adapter_start a = (res, a') -> adapter_inv a'.
Proof.
  intros Hu Hinv. unfold adapter_start. destruct (is_live a) eqn:El; [by intros [= <- <-]|].
  unfold bind. destruct (connect_kind (ad_slot a)) eqn:Ek.
  - cbn. intros Hrun. apply (connect_slot_inv First _ _ _) in Hrun; [done|].
    destruct Hinv as [Hch Hf [Hp1 Hp2]]. constructor; [done|intros c h Hs; by rewrite Hs in Ek| |].
    + rewrite Hch. by destruct (ad_slot a).
    + cbn. rewrite Nat.add_0_r. by split.
  - destruct (replace_child a) as [[u|e] a1] eqn:Er.
    + by apply connect_slot_inv, (replace_child_Ok a u a1 Hu Hinv Ek Er).
    + intros [= <- <-]. destruct (replace_child_Err _ _ _ Hu Er) as (H1 & H2 & H3 & H4 & H5).
      destruct Hinv as [Hch Hf [Hp1 Hp2]]. split.
      * by rewrite H1, H2.
      * by rewrite H2, H4.
      * unfold restarts. rewrite H3. fold (restarts a). lia.
Qed.

Lemma stop_inv a : adapter_inv a -> adapter_inv (adapter_stop a).
Proof.
  intros [Hch Hf Hp]. unfold adapter_stop. destruct (ad_slot a) as [|[c h]|reason|] eqn:Es; split;
    cbn; rewrite ?Hch; try done; rewrite ?filter_other; first [done | by intros ? ?%elem_of_nil].
Qed.

Lemma step_inv e a :
  (ad_used a < u32_max)%N -> adapter_inv a -> adapter_inv (adapter_step e a).
Proof.
  intros Hu Hinv. destruct e as [| |health]; cbn.
  - destruct (adapter_start a) as [res a'] eqn:E. by eapply start_inv.
  - by apply stop_inv.
  - destruct (ad_slot a) as [|[c h]|reason|] eqn:Es; try done. destruct Hinv as [Hch Hf Hp].
    rewrite Es in Hch. by constructor.
Qed.

Lemma connect_slot_used kind a : ad_used (connect_slot kind a).2 = ad_used a.
Proof.
  unfold connect_slot, connect. by destruct (ad_script a) as [|[[|]|e] rest].
Qed.

(** A step takes at most one unit of the budget. *)
Lemma step_used e a : (ad_used (adapter_step e a) <= ad_used a + 1)%N.
Proof.
  destruct e as [| |health]; cbn [adapter_step].
  - unfold adapter_start. destruct (is_live a); [cbn; lia|]. unfold bind.
    destruct (connect_kind (ad_slot a)); [cbn; rewrite connect_slot_used; lia|].
    unfold replace_child, try_acquire.
    assert (Hmod : ((ad_used a + 1) mod (u32_max + 1) <= ad_used a + 1)%N) by (apply N.Div0.mod_le).
    destruct (_ <? _)%N; [done|]. rewrite connect_slot_used. cbn [ad_slot set_used].
    by destruct (ad_slot a) as [|[]| |].
  - unfold adapter_stop. destruct (ad_slot a) as [|[]| |]; cbn; lia.
  - destruct (ad_slot a) as [|[]| |]; cbn; lia.
Qed.

Lemma run_inv events a :
  (ad_used a + N.of_nat (length events) <= u32_max)%N -> adapter_inv a ->
  adapter_inv (adapter_run events a) /\
  (ad_used (adapter_run events a) <= ad_used a + N.of_nat (length events))%N.
Proof.
  revert a. induction events as [|e events IH]; intros a Hu Hinv; [split; [done|cbn; lia]|].
  cbn [length] in Hu. pose proof (step_used e a) as Hstep.
  destruct (IH (adapter_step e a)) as [H1 H2]; [lia|apply step_inv; [lia|done]|].
  split; [done|]. cbn [length adapter_run fold_left] in *. unfold adapter_run in H2. lia.
Qed.

(** C35. A crashing child cannot loop: over any sequence of starts, stops and faults
    (fewer than the [u32] restart counter holds), with connects succeeding, failing or failing their sandbox check, an adapter
    never has two children, the child it has is the one in its slot, and it spawns
    at most three replacements in its life; and a slot that lost its child (a
    faulted or failed replacement) with the budget spent refuses to start without
    spawning anything, until it is stopped. *)
Theorem adapter_bounded_restarts script events :
  (N.of_nat (length events) < u32_max)%N ->
  let a := adapter_run events (adapter_new script) in
  ad_children a = match ad_slot a with Serving (c, _) => [c] | _ => [] end /\
  restarts a <= 3 /\
  (connect_kind (ad_slot a) = Restart -> is_live a = false ->
   (DEFAULT_MAX_CONNECTION_RESTARTS <= ad_used a)%N ->
   exists e a', adapter_start a = (Err e, a') /\ ad_connects a' = ad_connects a /\
     ad_slot a' = ad_slot a /\ (DEFAULT_MAX_CONNECTION_RESTARTS <= ad_used a')%N).
Proof.
  intros Hlen. cbn zeta.
  destruct (run_inv events (adapter_new script)) as [Hinv Hused];
    [cbn; lia|apply adapter_new_inv|].
  set (a := adapter_run events _) in *. assert (Hu32 : (ad_used a < u32_max)%N) by (cbn in Hused; lia).
  split; [apply Hinv|]. split.
  { destruct Hinv as [_ _ [_ Hp]]. unfold DEFAULT_MAX_CONNECTION_RESTARTS in Hp. lia. }
  intros Hk Hl Hu. unfold adapter_start. rewrite Hl, Hk. unfold bind, replace_child, try_acquire.
  rewrite used_next by done. destruct (N.ltb_spec DEFAULT_MAX_CONNECTION_RESTARTS (ad_used a + 1)) as [|]; [|lia].
  eexists _, _. split; [done|]. cbn. split_and!; (done || lia).
Qed.

(** ** Cleanup of a recorded process *)

Record ProcessIdentity : Type := { pi_pid : N; pi_identity_token : text }.

Inductive ProcessState : Type :=
| Running (identity : ProcessIdentity)
| Exited.

Inductive ProcessCleanupOutcome : Type :=
| AlreadyExited
| IdentityMismatch
| ExitConfirmed
| Unconfirmed (reason : text).

(** What one observation shows of an exit: the process is gone, or its pid belongs
    to another process now. *)
Definition shows_exit (identity_token : text) (o : ProcessState) : bool :=
  match o with
  | Exited => true
  | Running identity =>
      negb (bool_decide (pi_identity_token identity = []))
      && negb (bool_decide (pi_identity_token identity = identity_token))
  end.

(** The observations after the signal: [attempts] of them; [inspect] answers the
    [n]th observation. *)
Fixpoint confirm_exit (inspect : nat -> result ProcessState text) (identity_token : text)
    (n attempts : nat) : ProcessCleanupOutcome :=
  match attempts with
  | O => Unconfirmed (txt "exit was not confirmed before the cleanup deadline")
  | S attempts' =>
      match inspect n with
      | Err reason => Unconfirmed reason
      | Ok o =>
          if shows_exit identity_token o then ExitConfirmed
          else confirm_exit inspect identity_token (S n) attempts'
      end
  end.

(** The outcome, and whether the signal was sent. *)
Definition terminate_observed (inspect : nat -> result ProcessState text)
    (signal : result unit text) (identity_token : text) :
    result ProcessCleanupOutcome text * bool :=
  match inspect 0 with
  | Err e => (Err e, false)
  | Ok Exited => (Ok AlreadyExited, false)
  | Ok (Running identity) =>
      if bool_decide (identity_token = []) || bool_decide (pi_identity_token identity = [])
      then (Err (txt "process has no verifiable creation identity"), false)
      else if negb (bool_decide (pi_identity_token identity = identity_token))
      then (Ok IdentityMismatch, false)
      else
        match signal with
        | Err reason => (Ok (Unconfirmed reason), true)
        | Ok _ => (Ok (confirm_exit inspect identity_token 1 21), true)
        end
  end.

Definition process_identity_matches (inspect : result ProcessState text) (pid : N)
    (identity_token : text) : bool :=
  if (pid =? 0)%N || bool_decide (identity_token = []) then false
  else
    match inspect with
    | Ok (Running identity) => bool_decide (pi_identity_token identity = identity_token)
    | _ => false
    end.

Lemma confirm_exit_sound inspect token n attempts :
  confirm_exit inspect token n attempts = ExitConfirmed ->
  exists k o, n <= k < n + attempts /\ inspect k = Ok o /\ shows_exit token o = true /\
    forall j, n <= j < k -> exists o', inspect j = Ok o' /\ shows_exit token o' = false.
Proof.
  revert n. induction attempts as [|attempts IH]; intros n; cbn [confirm_exit]; [done|].
  destruct (inspect n) as [o|] eqn:Ei; [|done]. destruct (shows_exit token o) eqn:Es.
  - intros _. exists n, o. split; [lia|]. split; [done|]. split; [done|]. intros j Hj. lia.
  - intros (k & o' & Hk & Hi & Hs & Hall)%IH. exists k, o'. split; [lia|]. split; [done|].
    split; [done|]. intros j Hj. destruct (decide (j = n)) as [->|]; [by exists o|apply Hall; lia].
Qed.

(** Cleanup never kills blind and never believes without seeing: the signal is
    sent only when the first observation shows a running process whose creation
    token is the recorded one and neither token is empty; a confirmed exit rests
    on an observation, among the 21 after a signal that was delivered, of the
    process gone or its pid reused by an identified other process, every
    observation before it having succeeded; and a failed observation is never
    taken for an exit. *)
Theorem cleanup_never_blind inspect signal token outcome signalled :
  terminate_observed inspect signal token = (outcome, signalled) ->
  (signalled = true <-> token <> [] /\ exists identity, inspect 0 = Ok (Running identity) /\
     pi_identity_token identity = token) /\
  (outcome = Ok ExitConfirmed ->
     signalled = true /\ signal = Ok tt /\
     exists k o, 1 <= k < 22 /\ inspect k = Ok o /\ shows_exit token o = true /\
       forall j, 1 <= j < k -> exists o', inspect j = Ok o' /\ shows_exit token o' = false).
Proof.
  unfold terminate_observed. pose proof (confirm_exit_sound inspect token 1 21) as Hsound.
  revert Hsound. generalize (confirm_exit inspect token 1 21). intros confirmed Hsound.
  destruct (inspect 0) as [[identity|]|e] eqn:Ei.
  2: { intros [= <- <-]. split; [|done]. split; [done|]. by intros (_ & i & [=] & _). }
  2: { intros [= <- <-]. split; [|done]. split; [done|]. by intros (_ & i & [=] & _). }
  destruct (bool_decide (token = []) || _) eqn:Et.
  { intros [= <- <-]. split; [|done]. split; [done|].
    intros (Hn & i & [= <-] & Hi). apply orb_true_iff in Et as [?%bool_decide_eq_true|?%bool_decide_eq_true];
      congruence. }
  apply orb_false_iff in Et as [Ht%bool_decide_eq_false Hi%bool_decide_eq_false].
  case_bool_decide as Hm; cbn [negb].
  2: { intros [= <- <-]. split; [|done]. split; [done|]. by intros (_ & i & [= <-] & ?). }
  destruct signal as [[]|reason]; intros [= <- <-].
  - split; [split; [|done]; intros _; split; [done|by exists identity]|].
    intros Hok. split; [done|]. split; [done|].
    destruct Hsound as (k & o & Hk & Hrest); [congruence|]. exists k, o. split; [lia|done].
  - split; [|done]. split; [|done]. intros _. split; [done|by exists identity].
Qed.
