(* ===== verification/ProcessWitness.v ===== *)
(** The process-host and recovery theorems applied at concrete inputs: a sample JSON
    text for the frames of one exchange, two ends of a pipe, and a crash-looping
    child. *)

From S2P Require Import Prelude Text Operation Journal Wal Jcs JournalWitness.
From S2P Require Import KernelWitness Frame JsonBudget Host HostTheorems Supervise.

(** ** Recovery of a torn log *)

Lemma recovery_total_witness :
  exists rv file', recover_operation_file (take 700 (frames sample_log)) = Ok (rv, file') /\
    rv_truncated_tail rv = true /\ file' `prefix_of` take 700 (frames sample_log) /\
    recover_operation_file file' = Ok (repaired rv, file').
Proof.
  destruct (recover_operation_file (take 700 (frames sample_log))) as [[rv file']|e] eqn:E;
    [|vm_compute in E; discriminate].
  destruct (proj2 (recovery_total (take 700 (frames sample_log))) rv file' E) as (H1 & _ & H3).
  exists rv, file'. split; [done|]. split; [|by split].
  vm_compute in E. by injection E as <- _.
Defined.

(** ** Sample JSON: the id in binary digits, then whether the response is ok *)

Definition digit (x : bool) : N := if x then 49%N else 48%N.

Fixpoint bits_value (l : list bool) : N :=
  match l with [] => 0 | x :: l' => 2 * bits_value l' + (if x then 1 else 0) end.

Fixpoint bits_of (fuel : nat) (n : N) : list bool :=
  match fuel with O => [] | S fuel' => N.odd n :: bits_of fuel' (N.div2 n) end.

Fixpoint parse_bits (l : bytes) : list bool * bytes :=
  match l with
  | c :: l' =>
      if (c =? 48)%N || (c =? 49)%N
      then let '(bits, rest) := parse_bits l' in ((c =? 49)%N :: bits, rest)
      else ([], l)
  | [] => ([], [])
  end.

#[export] Instance sample_parser : JsonParser := {
  parse_document input :=
    let '(bits, rest) := parse_bits input in
    let field name doc := (txt name, doc) in
    match rest with
    | [116]%N => (DObject [field "id" (DNumber (false, bits));
                           field "version" (DNumber (false, [true])); field "ok" (DBool true);
                           field "value" DNull] None, None)
    | [102]%N => (DObject [field "id" (DNumber (false, bits));
                           field "version" (DNumber (false, [true])); field "ok" (DBool false)]
                    None, None)
    | _ => (DInvalid (txt "unexpected byte"), None)
    end;
}.

#[export] Instance sample_wire : JsonWire := {
  json_to_string v :=
    match v with
    | JObject ((_, JNumber n) :: entries) =>
        (digit <$> n.2) ++
        (if existsb (fun e => match e.2 with JBool false => true | _ => false end) entries
         then [102]%N else [116]%N)
    | _ => [102]%N
    end;
  as_u64 n := Some (bits_value n.2);
  of_u64 n := (false, bits_of 8 n);
}.

(** ** Frames and sessions *)

Definition two_chunks : FrameReader :=
  {| fr_buffer := [104; 105]; fr_incoming := [Delivered [33; 10; 98]; Delivered [10]] |}%N.

Lemma two_chunks_clean : clean two_chunks.
Proof. unfold clean. by repeat constructor. Qed.

Lemma read_frame_chunking_witness :
  read_frame 8 two_chunks = (Ok [104; 105; 33]%N,
    {| fr_buffer := [98]%N; fr_incoming := [Delivered [10]%N] |}) /\
  first_frame 8 [104; 105; 33; 10; 98; 10]%N = Ok ([104; 105; 33]%N, [98; 10]%N).
Proof.
  split; [reflexivity|].
  by destruct (read_frame_chunking 8 two_chunks (Ok [104; 105; 33]%N)
    {| fr_buffer := [98]%N; fr_incoming := [Delivered [10]%N] |} two_chunks_clean eq_refl)
    as (_ & H & _).
Defined.

(** The second write breaks after one byte: the third payload is refused. *)
Definition broken_writes : list WriteOutcome := [WriteDone; WriteBreaks 1 (txt "broken pipe")].

Definition sample_payloads : list bytes := [[104; 105]; [98; 99]; [100]]%N.

Lemma session_transfer_witness :
  exists extra e s', recv_all 3 (receiver 8 {| fr_buffer := []; fr_incoming :=
      [Delivered [104]; Delivered [105; 10; 98]] |}%N) = ([[104; 105]%N] ++ extra, Some e, s') /\
    (e = Eof \/ e = PartialEof).
Proof.
  destruct (send_all sample_payloads (sender 8 broken_writes)) as [acked s] eqn:E.
  assert (Hacked : acked = [[104; 105]%N]) by (vm_compute in E; by injection E as <- _).
  assert (Hwire : fs_wire s = [104; 105; 10; 98]%N) by (vm_compute in E; by injection E as _ <-).
  destruct (session_transfer 8 broken_writes sample_payloads acked s
    {| fr_buffer := []; fr_incoming := [Delivered [104]; Delivered [105; 10; 98]] |}%N E
    ltac:(unfold clean; by repeat constructor) ltac:(by rewrite Hwire))
    as (extra & e & s' & Hr & _ & He & _).
  rewrite Hacked in Hr. by exists extra, e, s'.
Defined.

Definition healthy_session (incoming : list ReadEvent) : FramedProtocolSession :=
  {| fs_reader := {| fr_buffer := []; fr_incoming := incoming |}; fs_wire := []; fs_writes := [];
     fs_max_frame_bytes := 64; fs_poisoned := None |}.

Lemma poison_fence_witness :
  exists s1 s2, run_op OpRecv (healthy_session [Delivered [104]%N]) = (false, s1) /\
    run_ops [OpSend [104]%N; OpRecv] s1 = ([false; false], s2) /\ s2 = s1.
Proof.
  destruct (run_op OpRecv (healthy_session [Delivered [104]%N])) as [ok s1] eqn:E1.
  destruct (run_ops [OpSend [104]%N; OpRecv] s1) as [oks s2] eqn:E2.
  destruct (poison_fence _ _ _ _ _ _ _ E1 E2) as [_ Hp].
  assert (Hs1 : fs_poisoned s1 <> None) by (vm_compute in E1; by injection E1 as _ <-).
  destruct (Hp Hs1) as [Hs _]. exists s1, s2.
  vm_compute in E1. injection E1 as <- <-. vm_compute in E2. injection E2 as <- <-. done.
Defined.

(** ** One exchange *)

Definition sample_host_config : ProcessHostConfig :=
  {| hc_max_frame_bytes := 64; hc_max_call_bytes := 256; hc_max_system_answer_bytes := 32 |}.

Definition response_line (ok : bool) : bytes :=
  json_to_string (JObject [(txt "id", JNumber (of_u64 7)); (txt "ok", JBool ok)]) ++ [NEWLINE].

Definition sample_host (incoming : list ReadEvent) : ProcessHost :=
  {| ph_transport := healthy_session incoming; ph_poisoned := None; ph_next_id := 7;
     ph_killed := false |}.

Definition sample_env (poisoned : option text) (events : list ExchangeEvent) : CallEnv :=
  {| ce_poisoned_while_waiting := poisoned; ce_acquire := TransportFree; ce_has_cancel := false;
     ce_cancelled := false; ce_random := 0; ce_request_bound := None; ce_has_broker := false;
     ce_events := events; ce_lock_free := true |}.

Definition one_frame : list ExchangeEvent := [FrameArrives BrokerCancelled].

Definition sample_op : Json := JObject [(txt "op", JString (txt "ping"))].


(** A response with another request's id fences the connection. *)
Lemma host_failure_settles_witness :
  exists e h', host_call sample_host_config (sample_env None one_frame) sample_op
      (sample_host [Delivered [49; 116; 10]%N]) = (Err e, h') /\ fenced h' /\
    exists e', host_call sample_host_config (sample_env None one_frame) sample_op h' = (Err e', h').
Proof.
  destruct (host_call sample_host_config (sample_env None one_frame) sample_op
    (sample_host [Delivered [49; 116; 10]%N])) as [r h'] eqn:E.
  destruct r as [v|e]; [vm_compute in E; discriminate|]. exists e, h'. split; [done|].
  assert (Hf : fenced h') by (vm_compute in E; injection E as _ <-; by split_and!).
  split; [done|]. apply (host_failure_settles _ _ _ _ _ _ E), (proj1 Hf).
Defined.

Lemma queued_call_writes_after_poison_witness :
  exists line, line <> [] /\
    fs_wire (ph_transport (host_call sample_host_config
      (sample_env (Some (txt "request timed out")) []) sample_op (sample_host [])).2) = line.
Proof.
  destruct (encode_frame sample_host_config (request_object (correlation_id 0 7) sample_op))
    as [line|e] eqn:E; [|vm_compute in E; discriminate].
  exists line. split; [vm_compute in E; by injection E as <-|].
  rewrite (queued_call_writes_after_poison sample_host_config
    (sample_env (Some (txt "request timed out")) []) sample_op (sample_host [])
    (txt "request timed out") line); done.
Defined.

(** ** Cleanup *)

(** The recorded process runs, is signalled, and is gone at the second look. *)
Definition dying (n : nat) : result ProcessState text :=
  if n <? 2 then Ok (Running {| pi_pid := 7; pi_identity_token := txt "start:1" |}) else Ok Exited.

Lemma cleanup_never_blind_witness :
  terminate_observed dying (Ok tt) (txt "start:1") = (Ok ExitConfirmed, true) /\
  exists k o, 1 <= k < 22 /\ dying k = Ok o /\ shows_exit (txt "start:1") o = true.
Proof.
  split; [reflexivity|].
  destruct (cleanup_never_blind dying (Ok tt) (txt "start:1") (Ok ExitConfirmed) true eq_refl)
    as [_ H]. destruct (H eq_refl) as (_ & _ & k & o & H1 & H2 & H3 & _). by exists k, o.
Defined.

(** A child that faults after every start: three replacements, then nothing. *)
Definition crash_loop : list AdapterEvent :=
  concat (repeat [Start; HealthChanges HealthQuarantined] 4).

Lemma adapter_bounded_restarts_witness :
  restarts (adapter_run crash_loop (adapter_new [])) = 3 /\
  exists e a', adapter_start (adapter_run crash_loop (adapter_new [])) = (Err e, a') /\
    ad_connects a' = ad_connects (adapter_run crash_loop (adapter_new [])).
Proof.
  split; [reflexivity|].
  destruct (adapter_bounded_restarts [] crash_loop eq_refl) as (_ & _ & H).
  destruct (H eq_refl eq_refl) as (e & a' & H1 & H2 & _); [vm_compute; discriminate|].
  by exists e, a'.
Defined.
